(* ===== verification/_CoqProject ===== *)
-Q . S2P
Prelude.v
Cast.v
Codes.v
OptionCodec.v
Options.v
OptionsCodec.v
Message.v
TcpCoder.v
PoolMessage.v
BlockCodec.v
Assembly.v
SenderBatch.v
Crc64.v
SyncMap.v
Cache.v
LimitParallel.v
Pool.v
Client.v
ReceivedReader.v
Observation.v
TcpConn.v
TcpStream.v
TcpRequests.v
KeepAlive.v
Router.v
MutexMap.v
UdpReliability.v
UdpConn.v
UdpFrame.v
UdpDedup.v
UdpRequests.v
EngineMessage.v
ResponseWriter.v
ExchangeKey.v
Blockwise.v
BlockwiseLemmas.v
BlockwiseReceive.v
BlockwiseUpload.v
BlockwiseDownload.v
BlockwiseLimits.v
TableSum.v
QBudget.v
QEngine.v
QServe.v
QAccounting.v
QUpload.v
QReceive.v
QDownload.v
QClient.v
QSender.v
QConn.v
QRoutes.v
QPacing.v
QSelect.v
QLink.v
ObserveClient.v
QFit.v
QProbe.v
UdpServer.v
UdpPeers.v
ServedUdp.v
StreamServer.v
Sessions.v
UdpSocket.v
ClientApi.v
Discover.v
Identifiers.v
Setup.v
Listeners.v
