(* ===== verification/Prelude.v ===== *)
(** * go-coap: a verification development

    go-coap implements the Constrained Application Protocol (RFC 7252, 8323, 7641, 7959,
    9177) for datagram and stream transports.  This library models its core in Rocq and
    proves the properties the rest of the system relies on.

    ** How the program is put together

    - [message] holds the data: codes, options, a sorted container of options that is
      updated in place, and the codec of options.  [udp/coder] and [tcp/coder] put a
      message on the wire.
    - [message/pool] wraps a message for reuse: it owns the buffers of option values,
      reads the body through an [io.ReadSeeker], grows buffers while it encodes and
      decodes, and recycles messages through a pool.
    - [net/blockwise] transfers bodies in blocks, one at a time (RFC 7959);
      [net/blockwise/qblock] does so in bursts, with reports of what is missing (RFC
      9177): the assembly of a body from blocks that arrive in any order, the sender of
      blocks, budgets for what is kept, and the timing of bursts and repeats.
    - [pkg/sync] and [pkg/cache] are the locked map and the expiring cache in which
      connections keep exchanges, observations and responses.
    - [net/client] and [net/observation] keep the state of a client connection: limits
      on parallel requests, the loop that reads received messages, the handler of a
      request without a token, critical options, and observations.
    - [tcp/client] cuts a byte stream into messages, answers signals and matches
      responses with requests; [udp/client] adds what a datagram transport needs:
      acknowledgements, retransmission, and the recognition of duplicates, and gives the
      Q-Block engine its tokens, timers and probes.
    - [udp/server] gives the datagrams of one socket to the connections of their peers;
      [mux] routes requests by their path; [net/monitor/inactivity] watches connections.
    - [tcp/server] and [dtls/server] accept connections; [options] configures clients and
      servers, and the packages [tcp], [udp] and [dtls] dial; [net] wraps the sockets.

    ** Files, in dependency order

    - [Prelude]: bytes and slices as lists of integers, machine integers with their
      wrap-around, big-endian numbers, tables, the errors, and shared lemmas and
      tactics ([zlen_lia], [if_reduce], the hint databases [coap] and [zlen]).
    - [Cast] (pkg/math/cast.go): checked and unchecked integer conversions.
    - [Codes] (message/codes, message/noresponse): code points, names, the JSON decoder,
      suppressed responses.
    - [OptionCodec] (message/option.go, encodeDecodeUint32.go, tcpOptions.go): option
      definitions, the header and value of one option, integers in option values.
    - [Options] (message/options.go): lookup by bisection, the in-place [Set], [Add] and
      [Remove], typed getters and setters, paths, [ResetOptionsTo], [Clone].
    - [OptionsCodec] (message/options.go): [Marshal] and [Unmarshal] of a container.
    - [Message] (message/message.go, type.go, udp/coder): the message and, in
      [Module Udp], the datagram coder.
    - [TcpCoder] (tcp/coder): in [Module Tcp], the stream coder with its frame header.
    - [PoolMessage] (message/pool/message.go): the pooled message.  Two interfaces are
      type classes: [ReadSeeker] with [ReadSeekerLaws] for bodies, and [Coder] for
      coders; both coders are instances.
    - [BlockCodec] (net/blockwise/blockwise.go, qblock/codec.go): Block and Q-Block
      option values and the list of missing blocks.
    - [Assembly] (net/blockwise/qblock/transfer.go, config.go): assembly, sparse reader
      (an instance of [ReadSeeker]), sender, configuration; [SenderBatch] reads several
      blocks at once.
    - [Crc64] (message/getToken.go): the checksum that turns tokens and paths into keys.
    - [SyncMap] (pkg/sync/map.go) and [Cache] (pkg/cache/cache.go).
    - [LimitParallel] (net/client/limitParallelRequests): endpoint queues and the
      interleaving of requests.
    - [Pool] (message/pool/pool.go): acquisition and release of messages, one atomic
      access at a time.
    - [Client] (net/client/criticalOptions.go, tokenlessHandler.go).
    - [ReceivedReader] (net/client/receivedMessageReader.go).
    - [Observation] (net/observation); the requests of an observation are in
      [ObserveClient].
    - [TcpConn] (net/conn.go in [Module NetConn], tcp/client/session.go and conn.go,
      net/client/requestHandler.go): the state of a stream connection as one record, an
      operation per method; [TcpStream] and [TcpRequests] prove what its read loop
      and its requests do.
    - [MutexMap] (udp/client/mutexmap.go): the lock per message ID.
    - [UdpReliability] (udp/client/conn.go, [midElement]): messages that wait for an
      acknowledgement and their retransmission.
    - [UdpConn] (udp/client/conn.go): the rest of a datagram connection.  [UdpFrame] says
      which of its operations touch the response cache and the table of requests;
      [UdpDedup] proves that duplicates are answered alike; [UdpRequests] has [doInternal]
      in four steps and proves that responses reach their request.
    - [EngineMessage] and [ResponseWriter]: the view of a pooled message that both
      block-wise engines work on, with every method they call and the proof that it refines
      [PoolMessage], and net/responsewriter.
    - [ExchangeKey] and [Blockwise] (net/blockwise/blockwise.go,
      internal/blocks/message.go): the keys of transfers and the block-wise engine;
      [BlockwiseLemmas], [BlockwiseReceive], [BlockwiseUpload], [BlockwiseDownload] and
      [BlockwiseLimits] are its proofs.
    - [KeepAlive] (net/monitor/inactivity): the monitor and the keep-alive, on an
      interface for pings of which the stream connection is an instance.
    - [Router] (mux): patterns, registration, matching, variables and middlewares, on an
      interface for regular expressions with an instance; its law is about expressions
      whose groups are apart by slashes, for which bytes and code points agree.
    - [TableSum]: sums over lists and tables, for the accounting below.
    - [QBudget], [QEngine], [QServe] (net/blockwise/qblock/budget.go, engine.go, send.go,
      receive.go, schedule.go, observe.go, handle.go): the counters of retained bytes,
      the tables of transfers, and both roles of a server, on the interface
      [QTransport]; [QAccounting] and [QUpload] are their proofs.
    - [QReceive], [QClient] (client_receive.go, client.go): the client's sides of the
      two exchanges, on the interface [QExchange]; [QDownload] and [QSender] are their
      proofs.
    - [QConn], [QSelect], [QProbe] (udp/client/qblock.go, conn.go): what a connection
      gives the engine (routes, tokens, jobs, the pace of probes), when and in which
      size it uses Q-Blocks, and how it learns that a peer supports them; [QRoutes],
      [QPacing] and [QFit] are their proofs.  [QLink] makes a route of the connection an
      instance of [QExchange], with the waits of [qBlockProbeRate] and whatever else
      happens on the connection between two calls; [ObserveClient] is the loop that
      receives the notifications of an observation.
    - [UdpServer] (udp/server/server.go, session.go), on the interface [PeerConn] for
      connections; [UdpPeers] has the plain table that it refines; [ServedUdp] makes
      [UdpConn] an instance of the interface.
    - [StreamServer] (tcp/server/server.go, dtls/server/server.go, pkg/connections,
      pkg/runner/periodic): the life of the servers that accept connections, as events
      that interleave: the steps that a goroutine makes by itself, and what its peer does,
      for which a handshake or a read waits.  [Sessions] (dtls/server/session.go): the DTLS
      session on the connection of [UdpConn].
    - [UdpSocket] (net/connUDP.go, net/options.go): the datagram socket, on the interface
      [PacketSocket], with multicasts over the interfaces of the host; the plan of a
      multicast is a definition of its own, which uses none of the code's functions.
    - [ClientApi] (net/client/client.go): the request helpers, on the interface
      [ClientConn].
    - [Discover] (udp/server/discover.go): discoveries by multicast.
    - [Identifiers] (message/getETag.go, getmid.go, message/status): Modules [ETags],
      [MessageIDs] and [Statuses].
    - [Setup] (options, the config.go files, [New], [createConn], [NewConnWithOpts],
      [Client] and [Dial] of the transports, server.go): how options become the parts of
      a connection; what a connection is to be is said in terms of the options, each setting
      by the last option that asks for it.
    - [Listeners] (net/tcplistener.go, tlslistener.go, dtlslistener.go,
      udp/server/session.go): listeners under concurrent calls, the life of a session.

    ** How code becomes definitions

    A pure function is a function.  A function that writes through a slice returns the
    contents of the slice next to Go's results, so [n, err := f(buf)] is
    [list byte * (Z * option error)].  A nil slice or pointer is [None] where the code
    tells it from an empty one, and a panic is [None].  Loops are recursive functions
    on the data, or have fuel: the length of the data (every round consumes a byte) or
    the number of blocks; lemmas next to them show that the fuel is enough, and the
    theorems on termination ([Find_correct], [Options_Unmarshal_sound],
    [Msg_decode_terminates]) say so.  Shared mutable objects (cache elements, endpoint
    queues, observations, pooled messages) live in a heap and are named by address.
    Concurrent code is a step relation whose steps are critical sections or single
    atomic accesses; theorems hold for every interleaving ([rtc] of the relation).
    Random numbers, clocks, sockets and the user's callbacks are arguments or choices of
    the step relation.

    ** What is shown

    - Codecs: encoders write exactly the reference encoding and nothing else, with exact
      sizes on short buffers ([Options_Marshal_correct], [Udp_Encode_correct],
      [Tcp_Encode_correct]); decoding inverts encoding ([Options_codec_roundtrip],
      [Udp_roundtrip], [Tcp_roundtrip], [BlockOption_roundtrip],
      [QBlockOption_bijective], [MissingBlocks_roundtrip]); decoders are sound on
      arbitrary bytes ([Options_Unmarshal_sound], [Udp_Decode_stable],
      [DecodeMissingBlocks_sound]) and a stream prefix is never misread
      ([Tcp_short_read]).
    - The option container refines a sorted multimap ([container_refines_multimap],
      [Find_correct], [Msg_setters_correct], [Msg_SetPath_correct]).
    - A pooled message survives the transfer through any coder of the interface
      ([Msg_transfer_roundtrip]); a body sent in Q-Blocks arrives whatever the order of
      its blocks ([qblock_transfer_correct], [Assembly_invariant]).
    - Concurrency: [LoadOrStore_agreement], [CheckExpirations_correct],
      [LoadOrStoreWithLimit_correct], [endpoint_limit], [endpoint_accounting],
      [pool_exclusive], [reader_conserves].
    - Client state: [notifications_in_order], [NewObservation_lifecycle],
      [tokenless_correct], [unknown_critical_correct].
    - Block-wise transfers: a client engine and a server engine that exchange messages
      transfer a body in either direction and leave no state behind ([block1_upload],
      [block2_download]); a server's memory for transfers stays within its limits
      ([receive_memory_bounded]); the key of a transfer tells requests apart
      ([matching_key_identifies]).
    - Q-Blocks: a server assembles an upload whatever the order of its blocks, calls the
      handler once and replays the answer ([qblock1_upload]); a client assembles what a
      server's table holds ([qblock2_download]) and gives back what it reserved
      ([q2_receive_neutral]); a sender sends blocks of its body only, each a bounded
      number of times ([q1_sends_blocks]), and gives up ([q1_gives_up]); they fit into
      datagrams ([q1_blocks_fit]).  The counters are the bytes kept, in every history
      ([q_accounting]) and every interleaving of their updates ([q_budget_bounded]).
    - Q-Blocks on a connection: routes, tokens and counters agree and closing leaves
      nothing ([q_conn_accounting]); the responses to a body reach it and no other
      ([body_on_its_route]); an observation in Q-Blocks delivers in order and leaves
      nothing behind ([q_observation_runs]); due jobs run in the order of their deadlines
      ([due_jobs_run_in_order]); probes to a silent peer are spaced ([probes_paced]); the
      support of a peer is judged by a probe to the same origin
      ([capability_of_own_origin]).
    - TCP and DTLS servers: in every interleaving the wait group counts the goroutines, when
      [Serve] has left its loop the goroutines reach their end by themselves, because the
      deferred [Close] ends the reads that wait, and when it has returned nothing is left
      ([stream_server_lifecycle]); connections from different addresses are all checked and
      closed ([served_connections_checked]).  Malformed datagrams do not end a session of
      [UdpConn] ([sessions_survive]).
    - The UDP server refines a table from keys to connections ([server_refines_table]),
      and what a peer's connections have seen depends on that peer only
      ([peers_do_not_interfere]); so a retransmission to a server of [UdpConn]
      connections is answered alike whatever other peers send
      ([retransmission_across_peers]).  Discoveries by multicast side by side get their
      own responses ([discoveries_scoped]).
    - Routing and monitoring: a template serves the paths it matches with the variables
      of the path ([template_served]); a silent peer is closed after the configured pings
      and an answering one is kept ([keepalive_decides]).
    - Stream connections: the messages queued depend on the bytes received and not on
      how the network cut them ([Run_chunking], against a reference that parses the
      whole stream), they are the messages sent ([Run_delivers]), the buffer is bounded
      ([Run_buffer_bounded]), and a response reaches its request
      ([responses_reach_their_request], [Token_Hash_injective]).
    - Datagram connections: a duplicate of a request is answered with the same bytes and
      not handled again ([retransmission_answered_alike]), a Confirmable message is
      retransmitted on the schedule of RFC 7252 and given up after the last time or too many
      failed writes ([retransmission_schedule]), the lock
      per message ID excludes ([MutexMap_exclusive]), and on every interleaving of
      requests and events a response reaches its request
      ([udp_responses_reach_their_request], [response_completes_request]).
    - The edges: the helpers of a client build the request they are asked for and give its
      message back ([request_lifecycle], [observe_lifecycle]); a multicast writes to the
      socket exactly as planned ([multicast_sends_plan]); a listener is closed once
      ([listener_closed_once]) and a session runs its callbacks once
      ([session_callbacks]).
    - Set-up: the last option about a setting wins ([last_option_wins]); the options of a
      server reach its connections ([server_connection_configured]); a socket that [Dial]
      opens has an owner ([dial_closes_socket]); tags, message IDs and status values are
      what they are documented to be ([etag_correct], [mids_distinct], [status_codes]).
    - Where the code departs from what it means to do, a theorem has the counterexample:
      [endpoint_limit_exceeded_by_cancel], [Msg_SetPath_duplicates_options],
      [Msg_decode_diverges], [Udp_type_overflow],
      [duplicate_token_removes_observation], [reader_two_loops_read],
      [pool_stuck_after_drop], [continue_response_panics], [etag_mismatch_accepted],
      [foreign_token_accepted], [cleanup_removes_later_request],
      [alias_token_too_large], [duplicate_discovery_drops_request],
      [etag_drops_last_read], [default_handler_prints], [listen_close_error],
      [negative_queue_size], [stale_delete_untracks], [stale_delete_hangs_Serve].

    ** Bounds and fuel

    The loops over received messages and events ([receive_loop], [q1_loop], [Serve_loop],
    [worker], [run_checks]) run over the inputs so far, among them the times that the clock
    gives and the results of writes; [due_jobs_run_in_order] says how many rounds the worker
    needs before it sleeps, while the jobs themselves reschedule and cancel; the search for a block size has the
    seven sizes as fuel.  The limits of the code (128 routes and jobs, 4096 notifications,
    262144 tokens, the byte budgets) are constants of the model and are part of the
    invariants.

    ** Not modelled

    - System calls and third-party code: the sockets of the operating system, the
      handshakes of TLS and DTLS, [memfile], regular expressions and semaphores are
      parameters or interfaces; random bytes, jitter and clocks are inputs.  The
      floating-point factor of [nextAcknowledgeTimeout] is behind the parameter of that
      name.
    - Text: [String] and [Error] methods; wrapped errors are represented by the error
      that they wrap.
    - The report of an error of [SetResponse] in [q1ResponseContinuation] (a No-Response
      option against errors), and the callbacks after a write of the connection.
    - Forwarding: accessors, the facade net/blockwise/qblock.go, the adapters of
      mux/muxResponseWriter.go, and the dispatch between the block-wise engine and
      [doInternal] in the stream connection.
    - [UdpConn] takes the Q-Block engine as the record [QHooks], because the engine is
      modelled on the view [EMsg] of a message and the connection on the pooled message
      itself ([engine_message_refines] relates the two); both connections take the
      observations and the block-wise engine as handlers.  The call of the inactivity
      monitor in [CheckExpirations] is in [KeepAlive], beside the connections. *)
From stdpp Require Import prelude list strings pretty.
From Stdlib Require Import ZArith Lia.
#[local] Open Scope Z_scope.

(** ** Bytes, slices and machine integers

    A Go [[]byte] (and a Go [string], which is a byte sequence) is a list of
    integers; [is_byte] is the range invariant.  Machine integers are [Z] with the
    wrap-around of each conversion written out. *)

Abbreviation byte := Z (only parsing).

Definition is_byte (b : Z) : Prop := 0 <= b < 256.

Definition bytes_ok (l : list byte) : Prop := Forall is_byte l.

#[export] Instance is_byte_dec b : Decision (is_byte b).
Proof. unfold is_byte. apply _. Defined.

Definition uint8 (z : Z) : Z := z mod 2 ^ 8.
Definition uint16 (z : Z) : Z := z mod 2 ^ 16.
Definition uint32 (z : Z) : Z := z mod 2 ^ 32.
Definition uint64 (z : Z) : Z := z mod 2 ^ 64.

(** Signed conversions keep the low bits and reinterpret them in two's complement. *)
Definition int32 (z : Z) : Z := (z + 2 ^ 31) mod 2 ^ 32 - 2 ^ 31.
Definition int64 (z : Z) : Z := (z + 2 ^ 63) mod 2 ^ 64 - 2 ^ 63.

(** [len(s)] of a slice or string. *)
Definition zlen {A} (l : list A) : Z := Z.of_nat (length l).

(** [s[n:]] and [s[:n]] for an index that the caller knows to be in range. *)
Definition slice_from {A} (l : list A) (n : Z) : list A := drop (Z.to_nat n) l.
Definition slice_to {A} (l : list A) (n : Z) : list A := take (Z.to_nat n) l.

(** [s[i]]: [None] is the index-out-of-range panic. *)
Definition zlookup {A} (l : list A) (i : Z) : option A :=
  if i <? 0 then None else l !! Z.to_nat i.

(** [copy(dst, src)]: the contents of [dst] afterwards. *)
Definition copy_into {A} (dst src : list A) : list A :=
  take (length dst) src ++ drop (length src) dst.

(** A write through the sub-slice [s[n:]]: the part before [n] is kept. *)
Definition on_suffix {A R} (n : Z) (f : list A -> list A * R) (s : list A) : list A * R :=
  let '(s', r) := f (slice_from s n) in (slice_to s n ++ s', r).

(** [make([]byte, n)]. *)
Definition make_bytes (n : Z) : list byte := replicate (Z.to_nat n) 0.

(** ** Big-endian integers ([encoding/binary]) *)

Fixpoint be_split (n : nat) (v : Z) : list byte :=
  match n with
  | O => []
  | S k => uint8 (Z.shiftr v (8 * Z.of_nat k)) :: be_split k v
  end.

Definition be_combine (l : list byte) : Z :=
  fold_left (fun acc b => Z.lor (Z.shiftl acc 8) b) l 0.

Definition PutUint16 (buf : list byte) (v : Z) : list byte := copy_into buf (be_split 2 v).
Definition PutUint32 (buf : list byte) (v : Z) : list byte := copy_into buf (be_split 4 v).

(** ** Tables and decimal printing *)

(** [strconv.FormatInt(v, 10)]. *)
Definition FormatInt (v : Z) : string := pretty v.

(** A lookup in a table that models a Go map with the given keys. *)
Fixpoint table_lookup {A} (t : list (Z * A)) (k : Z) : option A :=
  match t with
  | [] => None
  | (k', v) :: t' => if k =? k' then Some v else table_lookup t' k
  end.

(** The first key whose value is the given string: Go ranges over the map in any
    order, so the result is only meaningful when the names are distinct
    (see the uses). *)
Fixpoint table_find (t : list (Z * string)) (v : string) : option Z :=
  match t with
  | [] => None
  | (k, v') :: t' => if String.eqb v v' then Some k else table_find t' v
  end.

(** ** Errors

    The sentinel errors of the repository; an error that wraps a sentinel with
    [%w] is that sentinel (this is what [errors.Is] sees), any other
    [errors.New] or [fmt.Errorf] value is [ErrOther] with its text. *)

Inductive error : Type :=
| ErrTooSmall
| ErrInvalidOptionHeaderExt
| ErrInvalidTokenLen
| ErrInvalidValueLength
| ErrShortRead
| ErrOptionTruncated
| ErrOptionUnexpectedExtendMarker
| ErrOptionsTooSmall
| ErrInvalidEncoding
| ErrOptionNotFound
| ErrOptionDuplicate
| ErrPayloadMarkerWithoutPayload
| ErrMessageTruncated
| ErrMessageInvalidVersion
| ErrMessageTooLong
| ErrMessageNotInterested
| ErrBlockNumberExceedLimit
| ErrBlockInvalidSize
| ErrInvalidSZX
| ErrRequestEntityIncomplete
| ErrRequestEntityTooLarge
| ErrInvalidMissingBlocks
| ErrQBlockInvalidSize
| ErrQBlockInvalidNUM
| ErrQBlockIncomplete
| ErrQBlockTooLarge
| ErrQBlockInvalidMode
| ErrQBlockNeedsBlockwise
| ErrInvalidConfig
| ErrCacheFull
| ErrReceivingMessagesCacheFull
| ErrKeyAlreadyExists
| ErrEOF
| ErrUnexpectedEOF
| ErrContext
| ErrOther (msg : string).

#[export] Instance error_eq_dec : EqDecision error.
Proof. solve_decision. Defined.

(** The result of an internal call that either yields a value or an error. *)
Inductive result (A : Type) : Type :=
| Ok (a : A)
| Err (e : error).
Arguments Ok {A} _.
Arguments Err {A} _.

(** ** Lemmas on lengths and slices *)

Lemma zlen_nonneg {A} (l : list A) : 0 <= zlen l.
Proof. unfold zlen. lia. Qed.

Lemma zlen_nil {A} : zlen (@nil A) = 0.
Proof. reflexivity. Qed.

Lemma zlen_cons {A} (x : A) l : zlen (x :: l) = 1 + zlen l.
Proof. unfold zlen. simpl. lia. Qed.

Lemma zlen_app {A} (l k : list A) : zlen (l ++ k) = zlen l + zlen k.
Proof. unfold zlen. rewrite length_app. lia. Qed.

Lemma zlen_replicate {A} n (x : A) : zlen (replicate n x) = Z.of_nat n.
Proof. unfold zlen. by rewrite length_replicate. Qed.

Lemma zlen_make_bytes n : 0 <= n -> zlen (make_bytes n) = n.
Proof. intros. unfold make_bytes. rewrite zlen_replicate. lia. Qed.

Lemma zlen_0_nil {A} (l : list A) : zlen l = 0 -> l = [].
Proof. destruct l; [done|]. rewrite zlen_cons. pose proof (zlen_nonneg l). lia. Qed.

Lemma slice_from_app {A} (l k : list A) : slice_from (l ++ k) (zlen l) = k.
Proof. unfold slice_from, zlen. rewrite Nat2Z.id. by rewrite drop_app_length. Qed.

Lemma slice_to_app {A} (l k : list A) : slice_to (l ++ k) (zlen l) = l.
Proof. unfold slice_to, zlen. rewrite Nat2Z.id. by rewrite take_app_length. Qed.

Lemma slice_from_app' {A} (l k : list A) n : n = zlen l -> slice_from (l ++ k) n = k.
Proof. intros ->. apply slice_from_app. Qed.

Lemma slice_to_app' {A} (l k : list A) n : n = zlen l -> slice_to (l ++ k) n = l.
Proof. intros ->. apply slice_to_app. Qed.

Lemma slice_from_0 {A} (l : list A) : slice_from l 0 = l.
Proof. reflexivity. Qed.

Lemma slice_to_all {A} (l : list A) n : zlen l <= n -> slice_to l n = l.
Proof. unfold slice_to, zlen. intros. apply take_ge. lia. Qed.

Lemma slice_to_from {A} (l : list A) n : slice_to l n ++ slice_from l n = l.
Proof. apply take_drop. Qed.

Lemma zlen_slice_from {A} (l : list A) n :
  0 <= n <= zlen l -> zlen (slice_from l n) = zlen l - n.
Proof. unfold slice_from, zlen. intros. rewrite length_drop. lia. Qed.

Lemma zlen_slice_to {A} (l : list A) n : 0 <= n <= zlen l -> zlen (slice_to l n) = n.
Proof. unfold slice_to, zlen. intros. rewrite length_take. lia. Qed.

Lemma slice_from_slice_from {A} (l : list A) m n :
  0 <= m -> 0 <= n -> slice_from (slice_from l m) n = slice_from l (m + n).
Proof. intros. unfold slice_from. rewrite drop_drop. f_equal. lia. Qed.

Lemma zlookup_app_r {A} (l k : list A) i :
  zlen l <= i -> zlookup (l ++ k) i = zlookup k (i - zlen l).
Proof.
  unfold zlookup, zlen. intros Hi.
  destruct (Z.ltb_spec i 0), (Z.ltb_spec (i - Z.of_nat (length l)) 0); try lia.
  rewrite lookup_app_r by lia. f_equal. lia.
Qed.

Lemma zlookup_app_l {A} (l k : list A) i : i < zlen l -> zlookup (l ++ k) i = zlookup l i.
Proof.
  unfold zlookup, zlen. intros Hi. destruct (Z.ltb_spec i 0); [done|].
  by rewrite lookup_app_l by lia.
Qed.

Lemma zlookup_some_range {A} (l : list A) i x : zlookup l i = Some x -> 0 <= i < zlen l.
Proof.
  unfold zlookup, zlen. destruct (Z.ltb_spec i 0); [done|].
  intros ?%lookup_lt_Some. lia.
Qed.

Lemma zlookup_in_range {A} (l : list A) i : 0 <= i < zlen l -> is_Some (zlookup l i).
Proof.
  unfold zlookup, zlen. intros. destruct (Z.ltb_spec i 0); [lia|].
  apply lookup_lt_is_Some. lia.
Qed.

Lemma zlen_copy_into {A} (dst src : list A) : zlen (copy_into dst src) = zlen dst.
Proof. unfold copy_into, zlen. rewrite length_app, length_take, length_drop. lia. Qed.

(** A copy that fits replaces exactly the prefix. *)
Lemma copy_into_fits {A} (dst src : list A) :
  zlen src <= zlen dst -> copy_into dst src = src ++ slice_from dst (zlen src).
Proof.
  unfold copy_into, slice_from, zlen. intros. rewrite Nat2Z.id.
  by rewrite take_ge by lia.
Qed.

Lemma slice_to_copy_into {A} (dst src : list A) :
  zlen src <= zlen dst -> slice_to (copy_into dst src) (zlen src) = src.
Proof. intros. rewrite copy_into_fits by done. apply slice_to_app. Qed.

(** ** Lemmas on bytes and big-endian integers *)

Lemma uint8_byte z : is_byte (uint8 z).
Proof. unfold is_byte, uint8. apply Z.mod_pos_bound. lia. Qed.

Lemma uint8_id z : is_byte z -> uint8 z = z.
Proof. apply Z.mod_small. Qed.

Lemma int64_id z : - 2 ^ 63 <= z < 2 ^ 63 -> int64 z = z.
Proof. intros Hz. unfold int64. rewrite Z.mod_small; lia. Qed.

Lemma uint16_id z : 0 <= z < 65536 -> uint16 z = z.
Proof. apply Z.mod_small. Qed.

Lemma uint32_id z : 0 <= z < 4294967296 -> uint32 z = z.
Proof. apply Z.mod_small. Qed.

Lemma shl8_lor acc b : is_byte b -> Z.lor (Z.shiftl acc 8) b = acc * 256 + b.
Proof.
  intros Hb. rewrite <- Z.add_nocarry_lor.
  - rewrite Z.shiftl_mul_pow2 by lia. lia.
  - apply Z.bits_inj'. intros n Hn.
    rewrite Z.land_spec, Z.bits_0.
    destruct (Z.ltb_spec n 8) as [Hlt|Hge].
    + by rewrite Z.shiftl_spec_low by done.
    + replace b with (b mod 2 ^ 8) by (apply Z.mod_small, Hb).
      rewrite Z.mod_pow2_bits_high by lia. by rewrite andb_false_r.
Qed.

Lemma be_combine_snoc l b : is_byte b -> be_combine (l ++ [b]) = be_combine l * 256 + b.
Proof.
  intros Hb. unfold be_combine. rewrite fold_left_app. simpl. by apply shl8_lor.
Qed.

Lemma length_be_split n v : length (be_split n v) = n.
Proof. induction n; simpl; congruence. Qed.

Lemma zlen_be_split n v : zlen (be_split n v) = Z.of_nat n.
Proof. unfold zlen. by rewrite length_be_split. Qed.

Lemma be_split_bytes n v : bytes_ok (be_split n v).
Proof. induction n; simpl; constructor; auto using uint8_byte. Qed.

Lemma be_split_snoc n v : be_split (S n) v = be_split n (Z.shiftr v 8) ++ [uint8 v].
Proof.
  revert v. induction n as [|n IH]; intros v.
  - simpl. by rewrite Z.shiftr_0_r.
  - cbn [be_split]. cbn [be_split] in IH. rewrite IH. simpl.
    rewrite Z.shiftr_shiftr by lia. do 2 f_equal. f_equal. lia.
Qed.

Lemma be_combine_split n v : 0 <= v -> be_combine (be_split n v) = v mod 2 ^ (8 * Z.of_nat n).
Proof.
  revert v. induction n as [|n IH]; intros v Hv.
  - simpl. rewrite Z.mod_1_r. done.
  - rewrite be_split_snoc, be_combine_snoc by apply uint8_byte.
    rewrite IH by (apply Z.shiftr_nonneg; lia).
    rewrite Z.shiftr_div_pow2 by lia. unfold uint8.
    replace (8 * Z.of_nat (S n)) with (8 + 8 * Z.of_nat n) by lia.
    rewrite Z.pow_add_r, Z.rem_mul_r by lia. lia.
Qed.

Lemma be_combine_split_id n v :
  0 <= v < 2 ^ (8 * Z.of_nat n) -> be_combine (be_split n v) = v.
Proof. intros. rewrite be_combine_split by lia. by apply Z.mod_small. Qed.

Lemma be_combine_bound l : bytes_ok l -> 0 <= be_combine l < 2 ^ (8 * zlen l).
Proof.
  induction l as [|b l IH] using rev_ind; intros Hl; [vm_compute; done|].
  apply Forall_app in Hl as [Hl Hb]. rewrite Forall_singleton in Hb.
  rewrite be_combine_snoc by done. specialize (IH Hl). unfold is_byte in Hb.
  rewrite zlen_app. replace (8 * (zlen l + zlen [b])) with (8 * zlen l + 8)
    by (unfold zlen; simpl; lia).
  rewrite Z.pow_add_r by (pose proof (zlen_nonneg l); lia). lia.
Qed.

Lemma be_split_combine l : bytes_ok l -> be_split (length l) (be_combine l) = l.
Proof.
  induction l as [|b l IH] using rev_ind; intros Hl; [done|].
  apply Forall_app in Hl as [Hl Hb]. rewrite Forall_singleton in Hb.
  pose proof (be_combine_bound l Hl).
  rewrite length_app. simpl length. rewrite Nat.add_1_r, be_split_snoc.
  rewrite be_combine_snoc by done. unfold is_byte in Hb.
  rewrite Z.shiftr_div_pow2 by lia. change (2 ^ 8) with 256.
  replace ((be_combine l * 256 + b) / 256) with (be_combine l)
    by (rewrite Z.div_add_l by lia; rewrite Z.div_small by lia; lia).
  rewrite IH by done. do 2 f_equal. unfold uint8. change (2 ^ 8) with 256.
  rewrite Z.add_comm, Z.mod_add by lia. by apply Z.mod_small.
Qed.

(** ** Lemmas on tables *)

Lemma table_lookup_In {A} (t : list (Z * A)) k v :
  table_lookup t k = Some v -> In (k, v) t.
Proof.
  induction t as [|[k' v'] t IH]; simpl; [done|].
  destruct (Z.eqb_spec k k') as [->|]; [intros [= ->]; by left|]. auto.
Qed.

Lemma table_find_In (t : list (Z * string)) k v :
  NoDup (snd <$> t) -> In (k, v) t -> table_find t v = Some k.
Proof.
  induction t as [|[k' v'] t IH]; simpl; [done|].
  intros [Hn Hd]%NoDup_cons [[= -> ->]|Hin].
  - by rewrite String.eqb_refl.
  - destruct (String.eqb_spec v v') as [->|]; [|by auto].
    exfalso. apply Hn, list_elem_of_In, (in_map snd _ _ Hin).
Qed.

(** ** Automation *)

Create HintDb coap.
Create Rewrite HintDb zlen.
#[export] Hint Resolve zlen_nonneg uint8_byte be_split_bytes : coap.
#[export] Hint Rewrite @zlen_nil @zlen_cons @zlen_app @zlen_be_split @zlen_copy_into : zlen.

(** Reduce the conditionals whose test is known, and nothing else. *)
Ltac if_reduce :=
  repeat match goal with
  | |- context [if true then ?a else ?b] => change (if true then a else b) with a
  | |- context [if false then ?a else ?b] => change (if false then a else b) with b
  end.

(** Case analysis on every boolean comparison of integers in the goal. *)
Ltac bool_cases :=
  repeat (match goal with
  | |- context [Z.ltb ?a ?b] => destruct (Z.ltb_spec a b)
  | |- context [Z.leb ?a ?b] => destruct (Z.leb_spec a b)
  | |- context [Z.eqb ?a ?b] => destruct (Z.eqb_spec a b)
  end; if_reduce).

(** Arithmetic after the lengths are expanded. *)
Ltac zlen_lia :=
  autorewrite with zlen in *;
  repeat match goal with
  | l : list _ |- _ => lazymatch goal with
      | _ : 0 <= zlen l |- _ => fail
      | _ => pose proof (zlen_nonneg l)
      end
  end; lia.

(** Arithmetic with division, modulus and truncated quotients. *)
Ltac div_lia := Z.to_euclidean_division_equations; lia.
