(* ===== verification/Cast.v ===== *)
(** * Integer casts (src/pkg/math/cast.go)

    The integer types of Go by their [reflect.Kind], their value ranges, the
    unchecked conversion [CastTo] and the checked ones [SafeCastTo] and
    [MustSafeCastTo]. *)
From stdpp Require Import prelude strings.
From Stdlib Require Import ZArith Lia.
From S2P Require Import Prelude.
#[local] Open Scope Z_scope.

(** The kinds [Max] and [Min] switch on; [int] and [uint] are 64 bits wide. *)
Inductive Kind : Type :=
| KInt | KInt8 | KInt16 | KInt32 | KInt64
| KUint | KUint8 | KUint16 | KUint32 | KUint64
| KUintptr.

#[export] Instance Kind_eq_dec : EqDecision Kind.
Proof. solve_decision. Defined.

(** [unsafe.Sizeof(T(0))], in bytes. *)
Definition Sizeof (k : Kind) : Z :=
  match k with
  | KInt8 | KUint8 => 1
  | KInt16 | KUint16 => 2
  | KInt32 | KUint32 => 4
  | KInt | KInt64 | KUint | KUint64 | KUintptr => 8
  end.

Definition signed (k : Kind) : bool :=
  match k with KInt | KInt8 | KInt16 | KInt32 | KInt64 => true | _ => false end.

(** The conversion [T(from)]: keep the low bits. *)
Definition CastTo (k : Kind) (from : Z) : Z :=
  let w := Sizeof k * 8 in
  if signed k then (from + 2 ^ (w - 1)) mod 2 ^ w - 2 ^ (w - 1) else from mod 2 ^ w.

(** [Max[T]()]; [None] is the panic on an unsupported kind.  The shift is done in
    [T], where it may leave the range before the subtraction brings it back. *)
Definition Max (k : Kind) : option Z :=
  match k with
  | KInt | KInt8 | KInt16 | KInt32 | KInt64 =>
      Some (CastTo k (CastTo k (Z.shiftl 1 (Sizeof k * 8 - 1)) - 1))
  | KUint | KUint8 | KUint16 | KUint32 | KUint64 =>
      Some (CastTo k (CastTo k (Z.shiftl 1 (Sizeof k * 8)) - 1))
  | KUintptr => None
  end.

Definition Min (k : Kind) : option Z :=
  match k with
  | KInt | KInt8 | KInt16 | KInt32 | KInt64 =>
      Some (CastTo k (CastTo KInt64 (Z.shiftl (-1) (Sizeof k * 8 - 1))))
  | KUint | KUint8 | KUint16 | KUint32 | KUint64 => Some 0
  | KUintptr => None
  end.

(** [SafeCastTo[T](from)]: [None] is the panic of [Max] or [Min]. *)
Definition SafeCastTo (k : Kind) (from : Z) : option (Z * option error) :=
  match Max k, Min k with
  | Some mx, Some mn =>
      if (0 <? from) && (CastTo KUint64 mx <? CastTo KUint64 from)
      then Some (0, Some (ErrOther "exceeds the maximum value"))
      else if (from <? 0) && (CastTo KInt64 from <? CastTo KInt64 mn)
      then Some (0, Some (ErrOther "exceeds the minimum value"))
      else Some (CastTo k from, None)
  | _, _ => None
  end.

(** [MustSafeCastTo]: [None] is the panic. *)
Definition MustSafeCastTo (k : Kind) (from : Z) : option Z :=
  match SafeCastTo k from with
  | Some (v, None) => Some v
  | _ => None
  end.

(** ** The value ranges *)

Definition min_value (k : Kind) : Z := if signed k then - 2 ^ (Sizeof k * 8 - 1) else 0.
Definition max_value (k : Kind) : Z :=
  if signed k then 2 ^ (Sizeof k * 8 - 1) - 1 else 2 ^ (Sizeof k * 8) - 1.

Lemma Max_value k : k <> KUintptr -> Max k = Some (max_value k).
Proof. by destruct k. Qed.

Lemma Min_value k : k <> KUintptr -> Min k = Some (min_value k).
Proof. by destruct k. Qed.

Lemma CastTo_id k z : min_value k <= z <= max_value k -> CastTo k z = z.
Proof.
  unfold min_value, max_value, CastTo. intros Hz.
  assert (0 < Sizeof k * 8) by (destruct k; simpl; lia).
  destruct (signed k).
  - rewrite Z.mod_small; [lia|].
    replace (2 ^ (Sizeof k * 8)) with (2 * 2 ^ (Sizeof k * 8 - 1)); [lia|].
    rewrite <- Z.pow_succ_r by lia. f_equal. lia.
  - apply Z.mod_small. lia.
Qed.

Lemma CastTo_range k z : min_value k <= CastTo k z <= max_value k.
Proof.
  unfold min_value, max_value, CastTo.
  assert (0 < Sizeof k * 8) by (destruct k; simpl; lia).
  destruct (signed k).
  - pose proof (Z.mod_pos_bound (z + 2 ^ (Sizeof k * 8 - 1)) (2 ^ (Sizeof k * 8))
                  ltac:(apply Z.pow_pos_nonneg; lia)).
    replace (2 ^ (Sizeof k * 8)) with (2 * 2 ^ (Sizeof k * 8 - 1)) in *; [lia|].
    rewrite <- Z.pow_succ_r by lia. f_equal. lia.
  - pose proof (Z.mod_pos_bound z (2 ^ (Sizeof k * 8)) ltac:(apply Z.pow_pos_nonneg; lia)). lia.
Qed.

(** The value a checked cast accepts lies in the target's range. *)
Lemma SafeCastTo_ok k z v :
  - 2 ^ 63 <= z < 2 ^ 64 ->
  SafeCastTo k z = Some (v, None) -> v = z /\ min_value k <= z <= max_value k.
Proof.
  intros Hz. unfold SafeCastTo.
  destruct (decide (k = KUintptr)) as [->|Hk]; [done|].
  rewrite Max_value, Min_value by done.
  assert (0 <= max_value k <= max_value KUint64) by (destruct k; vm_compute; intuition congruence).
  assert (min_value KInt64 <= min_value k <= 0) by (destruct k; vm_compute; intuition congruence).
  rewrite (CastTo_id KUint64 (max_value k)) by (cbn in *; lia).
  rewrite (CastTo_id KInt64 (min_value k)) by (cbn in *; lia).
  destruct (Z.ltb_spec 0 z); simpl.
  - rewrite (CastTo_id KUint64 z) by (cbn in *; lia).
    destruct (Z.ltb_spec (max_value k) z); [done|].
    destruct (Z.ltb_spec z 0); [lia|]. simpl.
    intros [= <-]. rewrite CastTo_id by lia. lia.
  - destruct (Z.ltb_spec z 0); simpl.
    + rewrite (CastTo_id KInt64 z) by (cbn in *; lia).
      destruct (Z.ltb_spec z (min_value k)); [done|].
      intros [= <-]. rewrite CastTo_id by lia. lia.
    + intros [= <-]. rewrite CastTo_id by lia. lia.
Qed.

Lemma SafeCastTo_in_range k z :
  k <> KUintptr -> min_value k <= z <= max_value k -> SafeCastTo k z = Some (z, None).
Proof.
  intros Hk Hz. unfold SafeCastTo. rewrite Max_value, Min_value by done.
  assert (0 <= max_value k <= max_value KUint64) by (destruct k; vm_compute; intuition congruence).
  assert (min_value KInt64 <= min_value k <= 0) by (destruct k; vm_compute; intuition congruence).
  rewrite (CastTo_id KUint64 (max_value k)) by (cbn in *; lia).
  rewrite (CastTo_id KInt64 (min_value k)) by (cbn in *; lia).
  rewrite (CastTo_id k z) by done.
  destruct (Z.ltb_spec 0 z); simpl.
  - rewrite (CastTo_id KUint64 z) by (cbn in *; lia).
    destruct (Z.ltb_spec (max_value k) z); [lia|].
    by destruct (Z.ltb_spec z 0); [lia|].
  - destruct (Z.ltb_spec z 0); simpl; [|done].
    rewrite (CastTo_id KInt64 z) by (cbn in *; lia).
    by destruct (Z.ltb_spec z (min_value k)); [lia|].
Qed.

(** For every integer a 64-bit source type can hold and every supported target
    type, [SafeCastTo] returns the value unchanged exactly when it lies in the
    target's range, and otherwise returns zero with an error; it never wraps. *)
Theorem SafeCastTo_spec (k : Kind) (z : Z) (Hk : k <> KUintptr) (Hz : - 2 ^ 63 <= z < 2 ^ 64) :
  if decide (min_value k <= z <= max_value k)
  then SafeCastTo k z = Some (z, None)
  else exists e, SafeCastTo k z = Some (0, Some e).
Proof.
  case_decide as Hr; [by apply SafeCastTo_in_range|].
  destruct (SafeCastTo k z) as [[v [e|]]|] eqn:E.
  - exists e. revert E. unfold SafeCastTo. rewrite Max_value, Min_value by done.
    repeat case_match; naive_solver.
  - by apply SafeCastTo_ok in E as [_ ?].
  - revert E. unfold SafeCastTo. rewrite Max_value, Min_value by done. by repeat case_match.
Qed.

Lemma SafeCastTo_spec_witness :
  SafeCastTo KUint16 65535 = Some (65535, None) /\
  exists e, SafeCastTo KUint16 65536 = Some (0, Some e).
Proof.
  split.
  - exact (SafeCastTo_spec KUint16 65535 ltac:(discriminate) ltac:(lia)).
  - exact (SafeCastTo_spec KUint16 65536 ltac:(discriminate) ltac:(lia)).
Defined.
