(* ===== verification/Codes.v ===== *)
(** * CoAP codes and the No-Response option

    src/message/codes/codes.go and code_string.go: the code points, their names,
    [String], [ToCode] and the JSON decoder; src/message/noresponse/noresponse.go:
    which response codes a No-Response option suppresses (RFC 7967). *)
From stdpp Require Import prelude strings pretty.
From Stdlib Require Import ZArith Lia Ascii.
From S2P Require Import Prelude Cast.
#[local] Open Scope Z_scope.

(** ** Code points: a [codes.Code] is a [uint16] *)

Definition GET : Z := 1.
Definition POST : Z := 2.
Definition PUT : Z := 3.
Definition DELETE : Z := 4.
Definition FETCH : Z := 5.
Definition PATCH : Z := 6.
Definition IPATCH : Z := 7.
Definition Empty : Z := 0.
Definition Created : Z := 65.
Definition Deleted : Z := 66.
Definition Valid : Z := 67.
Definition Changed : Z := 68.
Definition Content : Z := 69.
Definition Continue : Z := 95.
Definition BadRequest : Z := 128.
Definition Unauthorized : Z := 129.
Definition BadOption : Z := 130.
Definition Forbidden : Z := 131.
Definition NotFound : Z := 132.
Definition MethodNotAllowed : Z := 133.
Definition NotAcceptable : Z := 134.
Definition RequestEntityIncomplete : Z := 136.
Definition Conflict : Z := 137.
Definition PreconditionFailed : Z := 140.
Definition RequestEntityTooLarge : Z := 141.
Definition UnsupportedMediaType : Z := 143.
Definition UnprocessableEntity : Z := 150.
Definition TooManyRequests : Z := 157.
Definition InternalServerError : Z := 160.
Definition NotImplemented : Z := 161.
Definition BadGateway : Z := 162.
Definition ServiceUnavailable : Z := 163.
Definition GatewayTimeout : Z := 164.
Definition ProxyingNotSupported : Z := 165.
Definition CSM : Z := 225.
Definition Ping : Z := 226.
Definition Pong : Z := 227.
Definition Release : Z := 228.
Definition Abort : Z := 229.

Definition _maxCode : Z := 255.

(** [codeToString], in source order. *)
Definition codeToString : list (Z * string) :=
  [ (Empty, "Empty"%string);
    (GET, "GET"%string);
    (POST, "POST"%string);
    (PUT, "PUT"%string);
    (DELETE, "DELETE"%string);
    (FETCH, "FETCH"%string);
    (PATCH, "PATCH"%string);
    (IPATCH, "iPATCH"%string);
    (Created, "Created"%string);
    (Deleted, "Deleted"%string);
    (Valid, "Valid"%string);
    (Changed, "Changed"%string);
    (Content, "Content"%string);
    (BadRequest, "BadRequest"%string);
    (Unauthorized, "Unauthorized"%string);
    (BadOption, "BadOption"%string);
    (Forbidden, "Forbidden"%string);
    (NotFound, "NotFound"%string);
    (MethodNotAllowed, "MethodNotAllowed"%string);
    (NotAcceptable, "NotAcceptable"%string);
    (Conflict, "Conflict"%string);
    (PreconditionFailed, "PreconditionFailed"%string);
    (RequestEntityTooLarge, "RequestEntityTooLarge"%string);
    (UnsupportedMediaType, "UnsupportedMediaType"%string);
    (UnprocessableEntity, "UnprocessableEntity"%string);
    (TooManyRequests, "TooManyRequests"%string);
    (InternalServerError, "InternalServerError"%string);
    (NotImplemented, "NotImplemented"%string);
    (BadGateway, "BadGateway"%string);
    (ServiceUnavailable, "ServiceUnavailable"%string);
    (GatewayTimeout, "GatewayTimeout"%string);
    (ProxyingNotSupported, "ProxyingNotSupported"%string);
    (CSM, "Capabilities and Settings Messages"%string);
    (Ping, "Ping"%string);
    (Pong, "Pong"%string);
    (Release, "Release"%string);
    (Abort, "Abort"%string) ].

Definition Code_String (c : Z) : string :=
  match table_lookup codeToString c with
  | Some s => s
  | None => ("Code(" ++ FormatInt c ++ ")")%string
  end.

Definition ToCode (v : string) : Z * option error :=
  match table_find codeToString v with
  | Some c => (c, None)
  | None => (0, Some (ErrOther "not found"))
  end.

(** ** JSON *)

(** A JSON string literal without escapes. *)
Definition quoted (s : string) : string :=
  String "034"%char (s ++ String "034"%char EmptyString)%string.

(** [strToCode], in source order, keyed by the quoted name. *)
Definition strToCode : list (Z * string) :=
  [ (GET, quoted "GET"%string);
    (POST, quoted "POST"%string);
    (PUT, quoted "PUT"%string);
    (DELETE, quoted "DELETE"%string);
    (FETCH, quoted "FETCH"%string);
    (PATCH, quoted "PATCH"%string);
    (IPATCH, quoted "iPATCH"%string);
    (Created, quoted "Created"%string);
    (Deleted, quoted "Deleted"%string);
    (Valid, quoted "Valid"%string);
    (Changed, quoted "Changed"%string);
    (Content, quoted "Content"%string);
    (BadRequest, quoted "BadRequest"%string);
    (Unauthorized, quoted "Unauthorized"%string);
    (BadOption, quoted "BadOption"%string);
    (Forbidden, quoted "Forbidden"%string);
    (NotFound, quoted "NotFound"%string);
    (MethodNotAllowed, quoted "MethodNotAllowed"%string);
    (NotAcceptable, quoted "NotAcceptable"%string);
    (Conflict, quoted "Conflict"%string);
    (PreconditionFailed, quoted "PreconditionFailed"%string);
    (RequestEntityTooLarge, quoted "RequestEntityTooLarge"%string);
    (UnsupportedMediaType, quoted "UnsupportedMediaType"%string);
    (UnprocessableEntity, quoted "UnprocessableEntity"%string);
    (TooManyRequests, quoted "TooManyRequests"%string);
    (InternalServerError, quoted "InternalServerError"%string);
    (NotImplemented, quoted "NotImplemented"%string);
    (BadGateway, quoted "BadGateway"%string);
    (ServiceUnavailable, quoted "ServiceUnavailable"%string);
    (GatewayTimeout, quoted "GatewayTimeout"%string);
    (ProxyingNotSupported, quoted "ProxyingNotSupported"%string);
    (CSM, quoted "Capabilities and Settings Messages"%string);
    (Ping, quoted "Ping"%string);
    (Pong, quoted "Pong"%string);
    (Release, quoted "Release"%string);
    (Abort, quoted "Abort"%string) ].

Definition getMaxCodeLen : Z :=
  fold_left (fun maxLen '(_, k) => Z.max maxLen (Z.of_nat (String.length k))) strToCode 34.

Definition _maxCodeLen : Z := getMaxCodeLen.

(** [strconv.ParseUint(s, 10, bits)]: [None] is any of its errors. *)
Fixpoint parse_digits (acc : Z) (s : string) : option Z :=
  match s with
  | EmptyString => Some acc
  | String c s' =>
      let d := Z.of_N (N_of_ascii c) - 48 in
      if (0 <=? d) && (d <=? 9) then parse_digits (acc * 10 + d) s' else None
  end.

Definition ParseUint (s : string) (bits : Z) : option Z :=
  match s with
  | EmptyString => None
  | _ => match parse_digits 0 s with
         | Some v => if v <? 2 ^ bits then Some v else None
         | None => None
         end
  end.

(** [(c *Code) UnmarshalJSON(b)]: the receiver is [None] for a nil pointer; the
    result is the pointed-to code afterwards and the error. *)
Definition UnmarshalJSON (c : option Z) (b : string) : option Z * option error :=
  if String.eqb b "null" then (c, None)
  else match c with
  | None => (None, Some (ErrOther "nil receiver passed to UnmarshalJSON"))
  | Some _ =>
      if _maxCodeLen <? Z.of_nat (String.length b)
      then (c, Some (ErrOther "invalid code: input too large"))
      else match ParseUint b 32 with
      | Some ci =>
          if _maxCode <=? ci then (c, Some (ErrOther "invalid code"))
          else (Some (CastTo KUint16 ci), None)
      | None =>
          match table_find strToCode b with
          | Some jc => (Some jc, None)
          | None => (c, Some (ErrOther "invalid code"))
          end
      end
  end.

(** ** The No-Response option *)

Definition resp2XXCodes : list Z := [Created; Deleted; Valid; Changed; Content].
Definition resp4XXCodes : list Z :=
  [BadRequest; Unauthorized; BadOption; Forbidden; NotFound; MethodNotAllowed;
   NotAcceptable; PreconditionFailed; RequestEntityTooLarge; UnsupportedMediaType].
Definition resp5XXCodes : list Z :=
  [InternalServerError; NotImplemented; BadGateway; ServiceUnavailable;
   GatewayTimeout; ProxyingNotSupported].

Definition noResponseValueMap : list (Z * list Z) :=
  [(2, resp2XXCodes); (8, resp4XXCodes); (16, resp5XXCodes)].

Definition isSet (n pos : Z) : bool := 0 <? Z.land n (uint32 (Z.shiftl 1 pos)).

(** A missing map key reads as the nil slice. *)
Definition noresponse_step (v : Z) (acc : list Z) (i : Z) : list Z :=
  if isSet v i
  then acc ++ default [] (table_lookup noResponseValueMap (uint32 (Z.shiftl 1 i)))
  else acc.

Definition decodeNoResponseOption (v : Z) : list Z :=
  if v =? 0 then [] else fold_left (noresponse_step v) [0; 1; 2; 3; 4] [].

Definition IsNoResponseCode (code noRespValue : Z) : option error :=
  if existsb (fun s => s =? code) (decodeNoResponseOption noRespValue)
  then Some ErrMessageNotInterested
  else None.

(** ** Lemmas and theorems *)

Lemma codeToString_names : NoDup (snd <$> codeToString).
Proof. apply (bool_decide_unpack _). vm_compute. exact I. Qed.

(** [ToCode] inverts [String] on every code that has a name, whatever the order
    in which the table is searched, because the names are pairwise distinct. *)
Theorem ToCode_String (c : Z) (s : string)
    (Hc : table_lookup codeToString c = Some s) :
  Code_String c = s /\ ToCode (Code_String c) = (c, None) /\ NoDup (snd <$> codeToString).
Proof.
  assert (Code_String c = s) as Hs by (unfold Code_String; by rewrite Hc).
  split; [done|]. split; [|exact codeToString_names].
  unfold ToCode. rewrite Hs.
  by rewrite (table_find_In _ c s codeToString_names (table_lookup_In _ _ _ Hc)).
Qed.

Lemma ToCode_String_witness : ToCode (Code_String Content) = (69, None).
Proof. exact (proj1 (proj2 (ToCode_String 69 "Content" eq_refl))). Defined.

(** The decimal codes accepted by [UnmarshalJSON], checked for every value below
    the limit. *)
Lemma json_numbers_ok :
  forallb (fun n => match UnmarshalJSON (Some 0) (FormatInt n) with
                    | (Some c, None) => c =? n
                    | _ => false
                    end) (seqZ 0 255) = true.
Proof. vm_compute. reflexivity. Qed.

Lemma json_names_ok :
  forallb (fun '(c, s) => (c =? Empty) || match UnmarshalJSON (Some 0) (quoted s) with
                           | (Some c', None) => c' =? c
                           | _ => false
                           end) codeToString = true.
Proof. vm_compute. reflexivity. Qed.

(** The JSON decoder accepts the decimal form of every code below 255 and the
    quoted name of every named code but Empty, and yields that code. *)
Theorem UnmarshalJSON_roundtrip :
  (forall n, 0 <= n < 255 -> UnmarshalJSON (Some 0) (FormatInt n) = (Some n, None)) /\
  (forall c s, In (c, s) codeToString -> c <> Empty ->
     UnmarshalJSON (Some 0) (quoted s) = (Some c, None)).
Proof.
  split.
  - intros n Hn. pose proof json_numbers_ok as H. rewrite forallb_forall in H.
    specialize (H n). rewrite <- list_elem_of_In, elem_of_seqZ in H. specialize (H ltac:(lia)).
    destruct (UnmarshalJSON _ _) as [[c|] [e|]]; try done. apply Z.eqb_eq in H. congruence.
  - intros c s Hin Hne. pose proof json_names_ok as H. rewrite forallb_forall in H.
    specialize (H (c, s) Hin). cbv beta iota in H.
    destruct (Z.eqb_spec c Empty); [done|]. rewrite orb_false_l in H.
    destruct (UnmarshalJSON _ _) as [[c'|] [e|]]; try done. apply Z.eqb_eq in H. congruence.
Qed.

Lemma isSet_testbit n i : 0 <= i < 32 -> 0 <= n -> isSet n i = Z.testbit n i.
Proof.
  intros Hi Hn. unfold isSet. rewrite uint32_id.
  2:{ rewrite Z.shiftl_1_l. split; [apply Z.pow_nonneg; lia|].
      apply (Z.pow_lt_mono_r 2 i 32); lia. }
  rewrite Z.shiftl_1_l.
  replace (Z.land n (2 ^ i)) with (if Z.testbit n i then 2 ^ i else 0).
  - assert (0 < 2 ^ i) by (apply Z.pow_pos_nonneg; lia).
    destruct (Z.testbit n i); [apply Z.ltb_lt | apply Z.ltb_ge]; lia.
  - apply Z.bits_inj'. intros k Hk. rewrite Z.land_spec.
    destruct (decide (k = i)) as [->|Hne].
    + rewrite Z.pow2_bits_true by lia. destruct (Z.testbit n i); simpl.
      * apply Z.pow2_bits_true; lia.
      * apply Z.bits_0.
    + rewrite Z.pow2_bits_false by lia. rewrite andb_false_r.
      destruct (Z.testbit n i); [apply Z.pow2_bits_false; lia | apply Z.bits_0].
Qed.

(** The reference meaning of the option: bit 1 silences the 2.xx list, bit 3 the
    4.xx list and bit 4 the 5.xx list. *)
Definition suppressed (code v : Z) : Prop :=
  (Z.testbit v 1 = true /\ In code resp2XXCodes) \/
  (Z.testbit v 3 = true /\ In code resp4XXCodes) \/
  (Z.testbit v 4 = true /\ In code resp5XXCodes).

Lemma in_noresponse_step v acc i code :
  0 <= i < 32 -> 0 <= v ->
  In code (noresponse_step v acc i) <->
  In code acc \/ (Z.testbit v i = true /\
                 In code (default [] (table_lookup noResponseValueMap (uint32 (Z.shiftl 1 i))))).
Proof.
  intros Hi Hv. unfold noresponse_step. rewrite isSet_testbit by done.
  destruct (Z.testbit v i); [rewrite in_app_iff|]; intuition congruence.
Qed.

Lemma in_decodeNoResponseOption code v :
  0 <= v -> In code (decodeNoResponseOption v) <-> suppressed code v.
Proof.
  intros Hv. unfold decodeNoResponseOption, suppressed.
  destruct (Z.eqb_spec v 0) as [->|Hv0]; [cbn -[resp2XXCodes resp4XXCodes resp5XXCodes]; intuition congruence|].
  cbn [fold_left]. rewrite !in_noresponse_step by lia.
  change (table_lookup noResponseValueMap (uint32 (Z.shiftl 1 0))) with (@None (list Z)).
  change (table_lookup noResponseValueMap (uint32 (Z.shiftl 1 1))) with (Some resp2XXCodes).
  change (table_lookup noResponseValueMap (uint32 (Z.shiftl 1 2))) with (@None (list Z)).
  change (table_lookup noResponseValueMap (uint32 (Z.shiftl 1 3))) with (Some resp4XXCodes).
  change (table_lookup noResponseValueMap (uint32 (Z.shiftl 1 4))) with (Some resp5XXCodes).
  simpl default. generalize resp2XXCodes resp4XXCodes resp5XXCodes. intros l2 l4 l5.
  assert (In code [] -> False) as Hnil by (simpl; done). tauto.
Qed.

(** A response code is suppressed exactly when the option's bit for its class
    is set and the code is in that class's table. *)
Theorem IsNoResponseCode_spec (code v : Z) (Hv : 0 <= v < 2 ^ 32) :
  IsNoResponseCode code v = Some ErrMessageNotInterested <-> suppressed code v.
Proof.
  rewrite <- in_decodeNoResponseOption by lia. unfold IsNoResponseCode.
  destruct (existsb _ _) eqn:E.
  - split; [intros _|done]. apply existsb_exists in E as (c & Hin & ->%Z.eqb_eq). done.
  - split; [done|]. intros Hin. exfalso.
    assert (existsb (fun s => s =? code) (decodeNoResponseOption v) = true) as E2; [|congruence].
    apply existsb_exists. exists code. split; [done|]. apply Z.eqb_refl.
Qed.

Lemma IsNoResponseCode_spec_witness :
  IsNoResponseCode NotFound 8 = Some ErrMessageNotInterested.
Proof.
  apply (IsNoResponseCode_spec NotFound 8); [lia|].
  right. left. split; [reflexivity|]. vm_compute. tauto.
Defined.

(** With the 4.xx bit set, 4.08, 4.09, 4.22 and 4.29 responses are still sent:
    the table of client errors does not list them, although RFC 7967 suppresses
    the whole class. *)
Theorem noresponse_4xx_incomplete :
  map (fun c => IsNoResponseCode c 8)
    [RequestEntityIncomplete; Conflict; UnprocessableEntity; TooManyRequests]
  = [None; None; None; None] /\
  Forall (fun c => c / 32 = 4) [RequestEntityIncomplete; Conflict; UnprocessableEntity; TooManyRequests].
Proof. split; [reflexivity|]. repeat constructor. Qed.
