(* ===== verification/OptionCodec.v ===== *)
(** * Options on the wire: one option

    src/message/option.go (option identifiers, definitions, media types, the header
    codec and [Option.Marshal]/[Option.Unmarshal]), encodeDecodeUint32.go,
    tcpOptions.go, type.go and the message-ID range of getmid.go.

    A buffer is the list of its bytes; a function that writes through a slice
    returns the contents afterwards together with Go's results.  A nil slice is
    [None] where the code distinguishes it from an empty one. *)
From stdpp Require Import prelude list strings.
From Stdlib Require Import ZArith Lia.
From S2P Require Import Prelude Cast Codes.
#[local] Open Scope Z_scope.

(** ** Constants and tables *)

Definition max1ByteNumber : Z := 255.
Definition max2ByteNumber : Z := 65535.
Definition max3ByteNumber : Z := 16777215.

Definition ExtendOptionByteCode : Z := 13.
Definition ExtendOptionByteAddend : Z := 13.
Definition ExtendOptionWordCode : Z := 14.
Definition ExtendOptionWordAddend : Z := 269.
Definition ExtendOptionError : Z := 15.

(** An [OptionID] is a [uint16]. *)
Definition IfMatch : Z := 1.
Definition URIHost : Z := 3.
Definition ETag : Z := 4.
Definition IfNoneMatch : Z := 5.
Definition Observe : Z := 6.
Definition URIPort : Z := 7.
Definition LocationPath : Z := 8.
Definition URIPath : Z := 11.
Definition ContentFormat : Z := 12.
Definition MaxAge : Z := 14.
Definition URIQuery : Z := 15.
Definition Accept : Z := 17.
Definition QBlock1 : Z := 19.
Definition LocationQuery : Z := 20.
Definition Block2 : Z := 23.
Definition Block1 : Z := 27.
Definition Size2 : Z := 28.
Definition QBlock2 : Z := 31.
Definition ProxyURI : Z := 35.
Definition ProxyScheme : Z := 39.
Definition Size1 : Z := 60.
Definition Echo : Z := 252.
Definition NoResponse : Z := 258.
Definition RequestTag : Z := 292.

Definition TCPMaxMessageSize : Z := 2.
Definition TCPBlockWiseTransfer : Z := 4.
Definition TCPCustody : Z := 2.
Definition TCPAlternativeAddress : Z := 2.
Definition TCPHoldOff : Z := 4.
Definition TCPBadCSMOption : Z := 2.

Definition optionIDToString : list (Z * string) :=
  [ (IfMatch, "IfMatch"%string);
    (URIHost, "URIHost"%string);
    (ETag, "ETag"%string);
    (IfNoneMatch, "IfNoneMatch"%string);
    (Observe, "Observe"%string);
    (URIPort, "URIPort"%string);
    (LocationPath, "LocationPath"%string);
    (URIPath, "URIPath"%string);
    (ContentFormat, "ContentFormat"%string);
    (MaxAge, "MaxAge"%string);
    (URIQuery, "URIQuery"%string);
    (Accept, "Accept"%string);
    (QBlock1, "QBlock1"%string);
    (LocationQuery, "LocationQuery"%string);
    (Block2, "Block2"%string);
    (Block1, "Block1"%string);
    (Size2, "Size2"%string);
    (QBlock2, "QBlock2"%string);
    (ProxyURI, "ProxyURI"%string);
    (ProxyScheme, "ProxyScheme"%string);
    (Size1, "Size1"%string);
    (Echo, "Echo"%string);
    (NoResponse, "NoResponse"%string);
    (RequestTag, "RequestTag"%string) ].

Definition OptionID_String (o : Z) : string :=
  match table_lookup optionIDToString o with
  | Some s => s
  | None => ("Option(" +:+ FormatInt o +:+ ")")
  end.

Definition ToOptionID (v : string) : Z * option error :=
  match table_find optionIDToString v with
  | Some k => (k, None)
  | None => (0, Some (ErrOther "not found"))
  end.

Inductive ValueFormat : Type :=
| ValueUnknown | ValueEmpty | ValueOpaque | ValueUint | ValueString.

#[export] Instance ValueFormat_eq_dec : EqDecision ValueFormat.
Proof. solve_decision. Defined.

Record OptionDef : Type := mkOptionDef {
  MinLen : Z;
  MaxLen : Z;
  Format : ValueFormat;
}.

(** The zero value read for a key that is not in the map. *)
Definition zeroOptionDef : OptionDef := mkOptionDef 0 0 ValueUnknown.

Definition CoapOptionDefs : list (Z * OptionDef) :=
  [ (IfMatch, mkOptionDef 0 8 ValueOpaque);
    (URIHost, mkOptionDef 1 255 ValueString);
    (ETag, mkOptionDef 1 8 ValueOpaque);
    (IfNoneMatch, mkOptionDef 0 0 ValueEmpty);
    (Observe, mkOptionDef 0 3 ValueUint);
    (URIPort, mkOptionDef 0 2 ValueUint);
    (LocationPath, mkOptionDef 0 255 ValueString);
    (URIPath, mkOptionDef 0 255 ValueString);
    (ContentFormat, mkOptionDef 0 2 ValueUint);
    (MaxAge, mkOptionDef 0 4 ValueUint);
    (URIQuery, mkOptionDef 0 255 ValueString);
    (Accept, mkOptionDef 0 2 ValueUint);
    (QBlock1, mkOptionDef 0 3 ValueUint);
    (LocationQuery, mkOptionDef 0 255 ValueString);
    (Block2, mkOptionDef 0 3 ValueUint);
    (Block1, mkOptionDef 0 3 ValueUint);
    (Size2, mkOptionDef 0 4 ValueUint);
    (QBlock2, mkOptionDef 0 3 ValueUint);
    (ProxyURI, mkOptionDef 1 1034 ValueString);
    (ProxyScheme, mkOptionDef 1 255 ValueString);
    (Size1, mkOptionDef 0 4 ValueUint);
    (Echo, mkOptionDef 1 40 ValueOpaque);
    (NoResponse, mkOptionDef 0 1 ValueUint);
    (RequestTag, mkOptionDef 0 8 ValueOpaque) ].

Definition TCPSignalCSMOptionDefs : list (Z * OptionDef) :=
  [ (TCPMaxMessageSize, mkOptionDef 0 4 ValueUint);
    (TCPBlockWiseTransfer, mkOptionDef 0 0 ValueEmpty) ].

Definition TCPSignalPingPongOptionDefs : list (Z * OptionDef) :=
  [ (TCPCustody, mkOptionDef 0 0 ValueEmpty) ].

Definition TCPSignalReleaseOptionDefs : list (Z * OptionDef) :=
  [ (TCPAlternativeAddress, mkOptionDef 1 255 ValueString);
    (TCPHoldOff, mkOptionDef 0 3 ValueUint) ].

Definition TCPSignalAbortOptionDefs : list (Z * OptionDef) :=
  [ (TCPBadCSMOption, mkOptionDef 0 2 ValueUint) ].

(** Content formats: a [MediaType] is a [uint16]. *)
Definition TextPlain : Z := 0.
Definition AppCoseEncrypt0 : Z := 16.
Definition AppCoseMac0 : Z := 17.
Definition AppCoseSign1 : Z := 18.
Definition AppLinkFormat : Z := 40.
Definition AppXML : Z := 41.
Definition AppOctets : Z := 42.
Definition AppExi : Z := 47.
Definition AppJSON : Z := 50.
Definition AppJSONPatch : Z := 51.
Definition AppJSONMergePatch : Z := 52.
Definition AppCBOR : Z := 60.
Definition AppCWT : Z := 61.
Definition AppCoseEncrypt : Z := 96.
Definition AppCoseMac : Z := 97.
Definition AppCoseSign : Z := 98.
Definition AppCoseKey : Z := 101.
Definition AppCoseKeySet : Z := 102.
Definition AppSenmlJSON : Z := 110.
Definition AppSenmlCbor : Z := 112.
Definition AppCoapGroup : Z := 256.
Definition AppMissingBlocksCBORSeq : Z := 272.
Definition AppSenmlEtchJSON : Z := 320.
Definition AppSenmlEtchCbor : Z := 322.
Definition AppOcfCbor : Z := 10000.
Definition AppLwm2mTLV : Z := 11542.
Definition AppLwm2mJSON : Z := 11543.
Definition AppLwm2mCbor : Z := 11544.

Definition mediaTypeToString : list (Z * string) :=
  [ (TextPlain, "text/plain; charset=utf-8"%string);
    (AppCoseEncrypt0, ("application/cose; cose-type=" ++ quoted "cose-encrypt0")%string);
    (AppCoseMac0, ("application/cose; cose-type=" ++ quoted "cose-mac0")%string);
    (AppCoseSign1, ("application/cose; cose-type=" ++ quoted "cose-sign1")%string);
    (AppLinkFormat, "application/link-format"%string);
    (AppXML, "application/xml"%string);
    (AppOctets, "application/octet-stream"%string);
    (AppExi, "application/exi"%string);
    (AppJSON, "application/json"%string);
    (AppJSONPatch, "application/json-patch+json"%string);
    (AppJSONMergePatch, "application/merge-patch+json"%string);
    (AppCBOR, "application/cbor"%string);
    (AppCWT, "application/cwt"%string);
    (AppCoseEncrypt, ("application/cose; cose-type=" ++ quoted "cose-encrypt")%string);
    (AppCoseMac, ("application/cose; cose-type=" ++ quoted "cose-mac")%string);
    (AppCoseSign, ("application/cose; cose-type=" ++ quoted "cose-sign")%string);
    (AppCoseKey, "application/cose-key"%string);
    (AppCoseKeySet, "application/cose-key-set"%string);
    (AppSenmlJSON, "application/senml+json"%string);
    (AppSenmlCbor, "application/senml+cbor"%string);
    (AppCoapGroup, "coap-group+json"%string);
    (AppMissingBlocksCBORSeq, "application/missing-blocks+cbor-seq"%string);
    (AppSenmlEtchJSON, "application/senml-etch+json"%string);
    (AppSenmlEtchCbor, "application/senml-etch+cbor"%string);
    (AppOcfCbor, "application/vnd.ocf+cbor"%string);
    (AppLwm2mTLV, "application/vnd.oma.lwm2m+tlv"%string);
    (AppLwm2mJSON, "application/vnd.oma.lwm2m+json"%string);
    (AppLwm2mCbor, "application/vnd.oma.lwm2m+cbor"%string) ].

Definition MediaType_String (c : Z) : string :=
  match table_lookup mediaTypeToString c with
  | Some s => s
  | None => ("MediaType(" +:+ FormatInt c +:+ ")")
  end.

Definition ToMediaType (v : string) : Z * option error :=
  match table_find mediaTypeToString v with
  | Some k => (k, None)
  | None => (0, Some (ErrOther "not found"))
  end.

(** [None] cannot occur: [uint16] is a supported kind. *)
Definition MediaTypeFromNumber (v : Z) : Z * option error :=
  match SafeCastTo KUint16 v with
  | Some (mt, None) =>
      match table_lookup mediaTypeToString mt with
      | Some _ => (mt, None)
      | None => (0, Some (ErrOther "invalid value"))
      end
  | Some (_, Some e) => (0, Some e)
  | None => (0, Some (ErrOther "unsupported type"))
  end.

(** ** Message types and message IDs *)

(** A [message.Type] is an [int16]. *)
Definition Unset : Z := -1.
Definition Confirmable : Z := 0.
Definition NonConfirmable : Z := 1.
Definition Acknowledgement : Z := 2.
Definition Reset : Z := 3.

Definition typeToString : list (Z * string) :=
  [ (Unset, "Unset"%string); (Confirmable, "Confirmable"%string);
    (NonConfirmable, "NonConfirmable"%string); (Acknowledgement, "Acknowledgement"%string);
    (Reset, "Reset"%string) ].

Definition Type_String (t : Z) : string :=
  match table_lookup typeToString t with
  | Some s => s
  | None => ("Type(" +:+ FormatInt t +:+ ")")
  end.

Definition ValidateType (typ : Z) : bool := (0 <=? typ) && (typ <=? 255).

(** [atomic.AddUint32(&msgID, 1)] truncated to 16 bits: the new counter and the ID. *)
Definition GetMID (msgID : Z) : Z * Z :=
  let msgID := uint32 (msgID + 1) in (msgID, CastTo KUint16 msgID).

Definition ValidateMID (mid : Z) : bool := (0 <=? mid) && (mid <=? 65535).

(** ** Unsigned integer values *)

Definition EncodeUint32 (buf : list byte) (value : Z) : list byte * (Z * option error) :=
  if value =? 0 then (buf, (0, None))
  else if value <=? max1ByteNumber then
    if zlen buf <? 1 then (buf, (1, Some ErrTooSmall))
    else (copy_into buf [uint8 value], (1, None))
  else if value <=? max2ByteNumber then
    if zlen buf <? 2 then (buf, (2, Some ErrTooSmall))
    else (PutUint16 buf (CastTo KUint16 value), (2, None))
  else if value <=? max3ByteNumber then
    if zlen buf <? 3 then (buf, (3, Some ErrTooSmall))
    else (copy_into buf (slice_from (PutUint32 (make_bytes 4) value) 1), (3, None))
  else
    if zlen buf <? 4 then (buf, (4, Some ErrTooSmall))
    else (PutUint32 buf value, (4, None)).

Definition DecodeUint32 (buf : list byte) : Z * Z * option error :=
  let buf := if 4 <? zlen buf then slice_to buf 4 else buf in
  let tmp := make_bytes (4 - zlen buf) ++ buf in
  (be_combine tmp, zlen buf, None).

(** ** The option header *)

Definition extendOpt (opt : Z) : Z * Z :=
  if ExtendOptionByteAddend <=? opt then
    if ExtendOptionWordAddend <=? opt
    then (ExtendOptionWordCode, opt - ExtendOptionWordAddend)
    else (ExtendOptionByteCode, opt - ExtendOptionByteAddend)
  else (opt, 0).

Definition VerifyOptLen (optID valueLen : Z) : bool :=
  let def := default zeroOptionDef (table_lookup CoapOptionDefs optID) in
  if (valueLen <? MinLen def) || (MaxLen def <? valueLen) then false else true.

Definition marshalOptionHeaderExt (buf : list byte) (opt ext : Z) : list byte * (Z * option error) :=
  if opt =? ExtendOptionByteCode then
    if 0 <? zlen buf then (copy_into buf [CastTo KUint8 ext], (1, None))
    else (buf, (1, Some ErrTooSmall))
  else if opt =? ExtendOptionWordCode then
    if 1 <? zlen buf then (PutUint16 buf (CastTo KUint16 ext), (2, None))
    else (buf, (2, Some ErrTooSmall))
  else (buf, (0, None)).

(** The local variable [buf] becomes nil after a write that did not fit, while the
    caller's memory keeps what was written: [mem] is that memory, [live] tells
    whether the local [buf] is still non-nil.  [after_write] is the [switch] on the
    error that follows each write. *)
Definition after_write (live : bool) (err : option error) : result bool :=
  match err with
  | None => Ok live
  | Some ErrTooSmall => Ok false
  | Some e => Err e
  end.

Definition write_ext (live : bool) (mem : list byte) (size opt ext : Z) : list byte * (Z * option error) :=
  if live then on_suffix size (fun b => marshalOptionHeaderExt b opt ext) mem
  else (mem, snd (marshalOptionHeaderExt [] opt ext)).

Definition marshalOptionHeader (buf : list byte) (delta length : Z) : list byte * (Z * option error) :=
  let '(d, dx) := extendOpt delta in
  let '(l, lx) := extendOpt length in
  let '(mem, live) :=
    if 0 <? zlen buf
    then (copy_into buf [Z.lor (CastTo KUint8 (Z.shiftl d 4)) (CastTo KUint8 l)], true)
    else (buf, false) in
  let size := 1 in
  let '(mem, (lenBuf, err)) := write_ext live mem size d dx in
  match after_write live err with
  | Err e => (mem, (-1, Some e))
  | Ok live =>
      let size := size + lenBuf in
      let '(mem, (lenBuf, err)) := write_ext live mem size l lx in
      match after_write live err with
      | Err e => (mem, (-1, Some e))
      | Ok live =>
          let size := size + lenBuf in
          (mem, (size, if live then None else Some ErrTooSmall))
      end
  end.

(** ** One option *)

Record Option : Type := mkOption {
  ID : Z;
  Value : list byte;
}.

#[export] Instance Option_eq_dec : EqDecision Option.
Proof. solve_decision. Defined.

(** [Option{}]. *)
Definition zeroOption : Option := mkOption 0 [].

Definition Option_MarshalValue (o : Option) (buf : list byte) : list byte * (Z * option error) :=
  if zlen buf <? zlen (Value o) then (buf, (zlen (Value o), Some ErrTooSmall))
  else (copy_into buf (Value o), (zlen (Value o), None)).

Definition Option_UnmarshalValue (o : Option) (buf : list byte) : Option * Z :=
  (mkOption (ID o) buf, zlen buf).

(** The length is asked for first with a nil buffer; the header and the value are
    then written one after the other. *)
Definition Option_Marshal (o : Option) (buf : option (list byte)) (previousID : Z)
    : list byte * (Z * option error) :=
  let delta := ID o - previousID in
  let '(_, (lenBuf, err)) := Option_MarshalValue o [] in
  match after_write true err with
  | Err e => (default [] buf, (-1, Some e))
  | Ok _ =>
      let '(mem, (lenBuf, err)) := marshalOptionHeader (default [] buf) delta lenBuf in
      match after_write (if buf then true else false) err with
      | Err e => (mem, (-1, Some e))
      | Ok live =>
          let length := lenBuf in
          let '(mem, (lenBuf, err)) :=
            if live then on_suffix length (Option_MarshalValue o) mem
            else (mem, snd (Option_MarshalValue o [])) in
          match after_write live err with
          | Err e => (mem, (-1, Some e))
          | Ok live =>
              let length := length + lenBuf in
              (mem, (length, if live then None else Some ErrTooSmall))
          end
      end
  end.

(** The number of extension bytes consumed and the value; Go's results next to an
    error are not used by the caller. *)
Definition parseExtOpt (data : list byte) (opt : Z) : result (Z * Z) :=
  if opt =? ExtendOptionByteCode then
    match data with
    | b :: _ => Ok (1, b + ExtendOptionByteAddend)
    | _ => Err ErrOptionTruncated
    end
  else if opt =? ExtendOptionWordCode then
    if zlen data <? 2 then Err ErrOptionTruncated
    else Ok (2, be_combine (slice_to data 2) + ExtendOptionWordAddend)
  else Ok (0, opt).

(** [(o *Option) Unmarshal]: the option afterwards, the consumed bytes, the error. *)
Definition Option_Unmarshal (o : Option) (data : list byte) (optionDefs : list (Z * OptionDef))
    (optionID : Z) : Option * (Z * option error) :=
  let keep :=
    let o := mkOption optionID (Value o) in
    let '(o, proc) := Option_UnmarshalValue o data in (o, (proc, None)) in
  match table_lookup optionDefs optionID with
  | Some def =>
      if bool_decide (Format def = ValueUnknown) then (o, (zlen data, None))
      else
        let dataLen := CastTo KUint32 (zlen data) in
        if ((dataLen <? MinLen def) || (MaxLen def <? dataLen)) && (optionID mod 2 =? 0)
        then (o, (zlen data, None))
        else keep
  | None => keep
  end.

(** ** Reference encodings

    What the marshalling code is meant to write, as plain byte lists. *)

Definition ext_bytes (opt ext : Z) : list byte :=
  if opt =? ExtendOptionByteCode then [CastTo KUint8 ext]
  else if opt =? ExtendOptionWordCode then be_split 2 (CastTo KUint16 ext)
  else [].

Definition header_bytes (delta length : Z) : list byte :=
  let '(d, dx) := extendOpt delta in
  let '(l, lx) := extendOpt length in
  Z.lor (CastTo KUint8 (Z.shiftl d 4)) (CastTo KUint8 l) :: ext_bytes d dx ++ ext_bytes l lx.

Definition option_bytes (previousID : Z) (o : Option) : list byte :=
  header_bytes (ID o - previousID) (zlen (Value o)) ++ Value o.

(** The minimal big-endian form of an unsigned value. *)
Definition uint_bytes (value : Z) : list byte :=
  if value =? 0 then []
  else if value <=? max1ByteNumber then be_split 1 value
  else if value <=? max2ByteNumber then be_split 2 value
  else if value <=? max3ByteNumber then be_split 3 value
  else be_split 4 value.

(** All writers have this shape: the bytes are copied when they fit, otherwise the
    memory is untouched and the needed size is reported with [ErrTooSmall]. *)
Definition writes (e buf : list byte) : list byte * (Z * option error) :=
  if zlen e <=? zlen buf then (copy_into buf e, (zlen e, None))
  else (buf, (zlen e, Some ErrTooSmall)).

(** ** Lemmas *)

Lemma copy_into_nil {A} (buf : list A) : copy_into buf [] = buf.
Proof. unfold copy_into. by rewrite take_nil, drop_0. Qed.

Lemma writes_nil buf : writes [] buf = (buf, (0, None)).
Proof.
  unfold writes. rewrite zlen_nil. pose proof (zlen_nonneg buf).
  destruct (Z.leb_spec 0 (zlen buf)); [|lia]. by rewrite copy_into_nil.
Qed.

Lemma EncodeUint32_writes buf value :
  0 <= value < 2 ^ 32 -> EncodeUint32 buf value = writes (uint_bytes value) buf.
Proof.
  intros Hv. unfold EncodeUint32, uint_bytes, max1ByteNumber, max2ByteNumber, max3ByteNumber.
  destruct (Z.eqb_spec value 0); [by rewrite writes_nil|].
  assert (forall n, Z.of_nat n = zlen (be_split n value)) as Hl by (intros; by rewrite zlen_be_split).
  destruct (Z.leb_spec value 255); [|destruct (Z.leb_spec value 65535);
    [|destruct (Z.leb_spec value 16777215)]]; unfold writes; rewrite zlen_be_split;
    change (Z.of_nat 1) with 1; change (Z.of_nat 2) with 2; change (Z.of_nat 3) with 3;
    change (Z.of_nat 4) with 4.
  - destruct (Z.ltb_spec (zlen buf) 1), (Z.leb_spec 1 (zlen buf)); try lia; [done|].
    simpl. by rewrite Z.shiftr_0_r.
  - destruct (Z.ltb_spec (zlen buf) 2), (Z.leb_spec 2 (zlen buf)); try lia; [done|].
    unfold PutUint16. by rewrite (CastTo_id KUint16) by (vm_compute min_value; vm_compute max_value; lia).
  - destruct (Z.ltb_spec (zlen buf) 3), (Z.leb_spec 3 (zlen buf)); try lia; done.
  - destruct (Z.ltb_spec (zlen buf) 4), (Z.leb_spec 4 (zlen buf)); try lia; done.
Qed.

Lemma zlen_uint_bytes value : 0 <= zlen (uint_bytes value) <= 4.
Proof.
  unfold uint_bytes. repeat case_match; rewrite ?zlen_be_split; try lia. by vm_compute.
Qed.

Lemma uint_bytes_ok value : bytes_ok (uint_bytes value).
Proof. unfold uint_bytes. repeat case_match; auto with coap; constructor. Qed.

Lemma be_combine_make_bytes n l : be_combine (make_bytes n ++ l) = be_combine l.
Proof.
  unfold make_bytes, be_combine. rewrite fold_left_app. f_equal.
  induction (Z.to_nat n); simpl; [done|]. by rewrite Z.shiftl_0_l.
Qed.

Lemma DecodeUint32_short buf :
  zlen buf <= 4 -> DecodeUint32 buf = (be_combine buf, zlen buf, None).
Proof.
  intros H. unfold DecodeUint32. destruct (Z.ltb_spec 4 (zlen buf)); [lia|].
  by rewrite be_combine_make_bytes.
Qed.

Lemma be_combine_uint_bytes value :
  0 <= value < 2 ^ 32 -> be_combine (uint_bytes value) = value.
Proof.
  intros. unfold uint_bytes, max1ByteNumber, max2ByteNumber, max3ByteNumber.
  bool_cases; try (by subst); try lia; apply be_combine_split_id;
    repeat match goal with |- context [8 * Z.of_nat ?n] =>
      let v := eval vm_compute in (2 ^ (8 * Z.of_nat n)) in
      change (2 ^ (8 * Z.of_nat n)) with v end; lia.
Qed.

Lemma marshalOptionHeaderExt_writes buf opt ext :
  marshalOptionHeaderExt buf opt ext = writes (ext_bytes opt ext) buf.
Proof.
  unfold marshalOptionHeaderExt, ext_bytes, ExtendOptionByteCode, ExtendOptionWordCode.
  destruct (opt =? 13); [|destruct (opt =? 14); [|by rewrite writes_nil]]; unfold writes.
  - change (zlen [CastTo KUint8 ext]) with 1.
    by destruct (Z.ltb_spec 0 (zlen buf)), (Z.leb_spec 1 (zlen buf)); try lia.
  - rewrite zlen_be_split. change (Z.of_nat 2) with 2.
    by destruct (Z.ltb_spec 1 (zlen buf)), (Z.leb_spec 2 (zlen buf)); try lia.
Qed.

(** A live write of [e] at [size], after the prefix [pre] of that length. *)
Lemma on_suffix_writes n (pre s e : list byte) :
  n = zlen pre ->
  on_suffix n (writes e) (pre ++ s) =
  (if zlen e <=? zlen s then pre ++ e ++ slice_from s (zlen e) else pre ++ s,
   (zlen e, if zlen e <=? zlen s then None else Some ErrTooSmall)).
Proof.
  intros ->. unfold on_suffix, writes. rewrite slice_from_app, slice_to_app.
  destruct (Z.leb_spec (zlen e) (zlen s)); [|done]. by rewrite copy_into_fits.
Qed.

Lemma on_suffix_ext {A R} n (f g : list A -> list A * R) s :
  (forall b, f b = g b) -> on_suffix n f s = on_suffix n g s.
Proof. intros H. unfold on_suffix. by rewrite H. Qed.

Lemma writes_nil_size e : snd (writes e []) = (zlen e, if zlen e <=? 0 then None else Some ErrTooSmall).
Proof.
  unfold writes. rewrite zlen_nil. by destruct (Z.leb_spec (zlen e) 0).
Qed.

(** The shape of the composed writers: the reference bytes end up in a buffer that
    can hold them, and the size is reported in every case. *)
Definition wrote (r : list byte * (Z * option error)) (e buf : list byte) : Prop :=
  exists mem,
    r = (mem, (zlen e, if zlen e <=? zlen buf then None else Some ErrTooSmall)) /\
    zlen mem = zlen buf /\
    (zlen e <= zlen buf -> mem = e ++ slice_from buf (zlen e)).

(** The header codec writes the reference header, or reports its size. *)
Lemma marshalOptionHeader_wrote buf delta length :
  wrote (marshalOptionHeader buf delta length) (header_bytes delta length) buf.
Proof.
  unfold header_bytes, marshalOptionHeader, write_ext, wrote.
  destruct (extendOpt delta) as [d dx], (extendOpt length) as [l lx]. cbv zeta.
  set (b0 := Z.lor _ _). set (e1 := ext_bytes d dx). set (e2 := ext_bytes l lx).
  assert (zlen (b0 :: e1 ++ e2) = 1 + zlen e1 + zlen e2) as -> by (autorewrite with zlen; lia).
  pose proof (zlen_nonneg e1). pose proof (zlen_nonneg e2).
  destruct buf as [|b buf].
  - change (zlen (@nil Z)) with 0. change (0 <? 0) with false. cbv beta iota.
    destruct (Z.leb_spec (1 + zlen e1 + zlen e2) 0) as [Hle|_]; [lia|].
    rewrite !marshalOptionHeaderExt_writes. fold e1 e2. rewrite !writes_nil_size.
    exists []. split; [|split; [done|lia]].
    destruct (Z.leb_spec (zlen e1) 0); cbn [after_write];
      destruct (Z.leb_spec (zlen e2) 0); cbn [after_write]; do 2 f_equal; lia.
  - pose proof (zlen_nonneg buf). rewrite zlen_cons.
    destruct (Z.ltb_spec 0 (1 + zlen buf)); [|lia].
    replace (copy_into (b :: buf) [b0]) with ([b0] ++ buf)
      by (rewrite copy_into_fits by zlen_lia; done).
    rewrite (on_suffix_ext _ _ (writes e1)) by (intros; apply marshalOptionHeaderExt_writes).
    rewrite on_suffix_writes by done.
    destruct (Z.leb_spec (zlen e1) (zlen buf)) as [Hf1|Hf1]; cbn [after_write].
    + rewrite app_assoc.
      rewrite (on_suffix_ext _ _ (writes e2)) by (intros; apply marshalOptionHeaderExt_writes).
      rewrite on_suffix_writes by zlen_lia. rewrite zlen_slice_from by lia.
      destruct (Z.leb_spec (zlen e2) (zlen buf - zlen e1)) as [Hf2|Hf2]; cbn [after_write].
      * destruct (Z.leb_spec (1 + zlen e1 + zlen e2) (1 + zlen buf)) as [_|]; [|lia].
        eexists. split; [done|]. rewrite slice_from_slice_from by lia.
        assert (slice_from (b :: buf) (1 + zlen e1 + zlen e2) = slice_from buf (zlen e1 + zlen e2)) as ->.
        { unfold slice_from.
          by replace (Z.to_nat (1 + zlen e1 + zlen e2)) with (S (Z.to_nat (zlen e1 + zlen e2))) by lia. }
        split; [|intros _; simpl; by rewrite <- app_assoc].
        autorewrite with zlen. rewrite zlen_slice_from by lia. lia.
      * destruct (Z.leb_spec (1 + zlen e1 + zlen e2) (1 + zlen buf)) as [|_]; [lia|].
        eexists. split; [done|]. split; [|lia].
        autorewrite with zlen. rewrite zlen_slice_from by lia. lia.
    + destruct (Z.leb_spec (1 + zlen e1 + zlen e2) (1 + zlen buf)) as [|_]; [lia|].
      rewrite marshalOptionHeaderExt_writes. fold e2. rewrite writes_nil_size.
      eexists. split; [by destruct (zlen e2 <=? 0)|]. split; [|lia]. by autorewrite with zlen.
Qed.

Lemma Option_MarshalValue_writes o buf : Option_MarshalValue o buf = writes (Value o) buf.
Proof.
  unfold Option_MarshalValue, writes.
  by destruct (Z.ltb_spec (zlen buf) (zlen (Value o))), (Z.leb_spec (zlen (Value o)) (zlen buf)); try lia.
Qed.

Lemma header_bytes_pos delta length : 0 < zlen (header_bytes delta length).
Proof.
  unfold header_bytes. destruct (extendOpt delta), (extendOpt length).
  rewrite zlen_cons. match goal with |- 0 < 1 + zlen ?l => pose proof (zlen_nonneg l) end. lia.
Qed.

(** [Option.Marshal] writes the reference encoding into a buffer that can hold it
    and keeps the rest of the buffer; otherwise it reports the needed size. *)
Lemma Option_Marshal_wrote o buf previousID :
  wrote (Option_Marshal o (Some buf) previousID) (option_bytes previousID o) buf.
Proof.
  unfold option_bytes, Option_Marshal, wrote. rewrite !Option_MarshalValue_writes.
  set (v := Value o). set (h := header_bytes _ _).
  assert (writes v [] = ([], (zlen v, if zlen v <=? 0 then None else Some ErrTooSmall))) as Hw.
  { unfold writes. change (zlen (@nil Z)) with 0. destruct (Z.leb_spec (zlen v) 0); [|done].
    rewrite (zlen_0_nil v) by (pose proof (zlen_nonneg v); lia). done. }
  rewrite Hw. cbv beta iota.
  assert (exists b, after_write true (if zlen v <=? 0 then None else Some ErrTooSmall) = Ok b)
    as [b0 ->] by (destruct (zlen v <=? 0); eauto).
  change (default [] (Some buf)) with buf. cbn [snd].
  destruct (marshalOptionHeader_wrote buf (ID o - previousID) (zlen v)) as (mem & -> & Hm & Hh).
  fold h in Hh |- *. pose proof (zlen_nonneg v). pose proof (zlen_nonneg h). rewrite zlen_app.
  destruct (Z.leb_spec (zlen h) (zlen buf)) as [Hfit|Hfit]; cbn [after_write].
  - rewrite Hh by done.
    rewrite (on_suffix_ext _ _ (writes v)) by (intros; apply Option_MarshalValue_writes).
    rewrite on_suffix_writes by done. rewrite zlen_slice_from by lia.
    destruct (Z.leb_spec (zlen v) (zlen buf - zlen h)); cbn [after_write];
      destruct (Z.leb_spec (zlen h + zlen v) (zlen buf)); try lia;
      eexists; (split; [done|]).
    + rewrite slice_from_slice_from by lia. split; [|intros _; by rewrite <- app_assoc].
      autorewrite with zlen. rewrite zlen_slice_from by lia. lia.
    + split; [|lia]. autorewrite with zlen. rewrite zlen_slice_from by lia. lia.
  - destruct (Z.leb_spec (zlen h + zlen v) (zlen buf)); [lia|].
    exists mem. split; [|split; [done|lia]]. by destruct (zlen v <=? 0).
Qed.

Lemma option_bytes_pos previousID o : 0 < zlen (option_bytes previousID o).
Proof.
  unfold option_bytes. rewrite zlen_app. pose proof (header_bytes_pos (ID o - previousID) (zlen (Value o))).
  pose proof (zlen_nonneg (Value o)). lia.
Qed.

(** With a nil buffer only the size is computed. *)
Lemma Option_Marshal_nil o previousID :
  Option_Marshal o None previousID = ([], (zlen (option_bytes previousID o), Some ErrTooSmall)).
Proof.
  unfold option_bytes, Option_Marshal. rewrite zlen_app, !Option_MarshalValue_writes.
  change (default [] (@None (list Z))) with (@nil Z).
  unfold writes at 1. change (zlen (@nil Z)) with 0.
  set (v := Value o).
  assert (exists m, (if zlen v <=? 0 then (copy_into [] v, (zlen v, None)) else ([], (zlen v, Some ErrTooSmall)))
    = (m, (zlen v, if zlen v <=? 0 then None else Some ErrTooSmall))) as [m ->]
    by (destruct (zlen v <=? 0); eauto).
  assert (exists b, after_write true (if zlen v <=? 0 then None else Some ErrTooSmall) = Ok b)
    as [b0 ->] by (destruct (zlen v <=? 0); eauto).
  destruct (marshalOptionHeader_wrote [] (ID o - previousID) (zlen v)) as (mem & -> & Hm & _).
  pose proof (header_bytes_pos (ID o - previousID) (zlen v)).
  change (zlen (@nil Z)) with 0 in *. rewrite (zlen_0_nil mem Hm).
  destruct (Z.leb_spec (zlen (header_bytes (ID o - previousID) (zlen v))) 0); [lia|].
  cbn [after_write]. rewrite writes_nil_size. by destruct (zlen v <=? 0).
Qed.

(** ** Decoding a header *)

Lemma CastTo_uint8_id z : is_byte z -> CastTo KUint8 z = z.
Proof. unfold is_byte. intros. apply CastTo_id. vm_compute min_value. vm_compute max_value. lia. Qed.

Lemma CastTo_uint16_id z : 0 <= z <= 65535 -> CastTo KUint16 z = z.
Proof. intros. apply CastTo_id. vm_compute min_value. vm_compute max_value. lia. Qed.

Lemma uint32_range z : 0 <= z < 4294967296 -> min_value KUint32 <= z <= max_value KUint32.
Proof.
  assert (min_value KUint32 = 0) as -> by (vm_compute; reflexivity).
  assert (max_value KUint32 = 4294967295) as -> by (vm_compute; reflexivity). lia.
Qed.

Lemma CastTo_uint32_id z : 0 <= z < 4294967296 -> CastTo KUint32 z = z.
Proof. intros. by apply CastTo_id, uint32_range. Qed.

Lemma SafeCastTo_uint32 z : 0 <= z < 4294967296 -> SafeCastTo KUint32 z = Some (z, None).
Proof. intros. by apply SafeCastTo_in_range; [|apply uint32_range]. Qed.

(** The nibble written for a length or a delta. *)
Lemma extendOpt_nibble x : 0 <= x -> 0 <= fst (extendOpt x) <= 14.
Proof.
  unfold extendOpt, ExtendOptionByteAddend, ExtendOptionWordAddend, ExtendOptionWordCode, ExtendOptionByteCode.
  intros. bool_cases; simpl; lia.
Qed.

Lemma nibbles_split d l : 0 <= d <= 15 -> 0 <= l <= 15 ->
  let b := Z.lor (CastTo KUint8 (Z.shiftl d 4)) (CastTo KUint8 l) in
  is_byte b /\ Z.shiftr b 4 = d /\ Z.land b 15 = l.
Proof.
  intros Hd Hl.
  assert (forallb (fun d => forallb (fun l =>
    let b := Z.lor (CastTo KUint8 (Z.shiftl d 4)) (CastTo KUint8 l) in
    (0 <=? b) && (b <? 256) && (Z.shiftr b 4 =? d) && (Z.land b 15 =? l)) (seqZ 0 16)) (seqZ 0 16) = true)
    as H by (vm_compute; reflexivity).
  rewrite forallb_forall in H. specialize (H d). rewrite <- list_elem_of_In, elem_of_seqZ in H.
  specialize (H ltac:(lia)). rewrite forallb_forall in H. specialize (H l).
  rewrite <- list_elem_of_In, elem_of_seqZ in H. specialize (H ltac:(lia)). cbv zeta in H |- *.
  unfold is_byte. repeat (apply andb_true_iff in H as [H ?]). lia.
Qed.

(** Reading back an extended value: [rest] is what follows on the wire. *)
Lemma parseExtOpt_ext_bytes x rest :
  0 <= x <= 65535 + 269 ->
  let '(d, dx) := extendOpt x in
  parseExtOpt (ext_bytes d dx ++ rest) d = Ok (zlen (ext_bytes d dx), x).
Proof.
  intros Hx. unfold extendOpt, ext_bytes, parseExtOpt, ExtendOptionByteAddend, ExtendOptionWordAddend,
    ExtendOptionWordCode, ExtendOptionByteCode.
  destruct (Z.leb_spec 13 x); [destruct (Z.leb_spec 269 x)|].
  - change (14 =? 13) with false. change (14 =? 14) with true. cbv iota.
    rewrite zlen_app, zlen_be_split. pose proof (zlen_nonneg rest).
    destruct (Z.ltb_spec (Z.of_nat 2 + zlen rest) 2); [lia|].
    rewrite CastTo_uint16_id by lia.
    replace (slice_to (be_split 2 (x - 269) ++ rest) 2) with (be_split 2 (x - 269))
      by (symmetry; apply slice_to_app'; by rewrite zlen_be_split).
    rewrite be_combine_split_id by (change (2 ^ (8 * Z.of_nat 2)) with 65536; lia).
    do 2 f_equal. lia.
  - rewrite Z.eqb_refl. simpl. rewrite CastTo_uint8_id by (unfold is_byte; lia).
    do 2 f_equal. lia.
  - destruct (Z.eqb_spec x 13); [lia|]. by destruct (Z.eqb_spec x 14); [lia|].
Qed.

(** [EncodeUint32] writes the minimal big-endian form of a 32-bit value into any
    buffer that can hold it, [DecodeUint32] reads the value back, and a buffer that
    is too small is left unchanged with the needed size reported. *)
Theorem uint32_roundtrip (buf : list byte) (value : Z) (Hv : 0 <= value < 2 ^ 32) :
  let '(buf', (n, err)) := EncodeUint32 buf value in
  n = zlen (uint_bytes value) /\ 0 <= n <= 4 /\
  (n <= zlen buf -> err = None /\ DecodeUint32 (slice_to buf' n) = (value, n, None)) /\
  (zlen buf < n -> err = Some ErrTooSmall /\ buf' = buf).
Proof.
  rewrite EncodeUint32_writes by done. unfold writes.
  pose proof (zlen_uint_bytes value) as Hl.
  destruct (Z.leb_spec (zlen (uint_bytes value)) (zlen buf)).
  - split; [done|]. split; [lia|]. split; [|lia]. intros _. split; [done|].
    rewrite slice_to_copy_into by done. rewrite DecodeUint32_short by lia.
    by rewrite be_combine_uint_bytes.
  - split; [done|]. split; [lia|]. split; [lia|done].
Qed.

Lemma uint32_roundtrip_witness :
  EncodeUint32 [0; 0; 0; 7] 65536 = ([1; 0; 0; 7], (3, None)) /\
  DecodeUint32 (slice_to [1; 0; 0; 7] 3) = (65536, 3, None).
Proof.
  split; [reflexivity|].
  exact (proj2 (proj1 (proj2 (proj2 (uint32_roundtrip [0; 0; 0; 7] 65536 ltac:(lia)))) ltac:(vm_compute; discriminate))).
Defined.
