(* ===== verification/Options.v ===== *)
(** * The option container (src/message/options.go)

    [Options] is a slice of options that is kept sorted by option number.  The
    value of a slice is the list of its elements; the loops that shift elements in
    place are modelled on that list, one assignment at a time.  The slot that
    [append] or the reslice [options[:len+1]] exposes has unspecified contents and
    is a parameter ([spare]) of the operations that grow the slice. *)
From stdpp Require Import prelude list strings sorting.
From Stdlib Require Import ZArith Lia Sorted.
From S2P Require Import Prelude Cast Codes OptionCodec.
#[local] Open Scope Z_scope.

Abbreviation Options := (list Option) (only parsing).

Definition maxPathValue : Z := 255.

(** ** Searching *)

(** [for maxIdx = pivot; maxIdx < len(options) && options[maxIdx].ID <= id; maxIdx++],
    on the elements from [pivot] on. *)
Fixpoint scan_up (rest : Options) (idx id : Z) : Z :=
  match rest with
  | o :: rest => if ID o <=? id then scan_up rest (idx + 1) id else idx
  | [] => idx
  end.

(** [for minIdx = pivot; minIdx >= 0 && options[minIdx].ID >= id; minIdx--], on the
    elements from [pivot] down. *)
Fixpoint scan_down (rest : Options) (idx id : Z) : Z :=
  match rest with
  | o :: rest => if id <=? ID o then scan_down rest (idx - 1) id else idx
  | [] => idx
  end.

Definition findPosition_scan (options : Options) (id pivot : Z) : Z * Z :=
  let maxIdx := scan_up (slice_from options pivot) pivot id in
  let maxIdx := if maxIdx =? zlen options then -1 else maxIdx in
  let minIdx := scan_down (reverse (slice_to options (pivot + 1))) pivot id in
  (minIdx, maxIdx).

(** The bisection; [None] is an index out of range, or no fuel left. *)
Fixpoint findPosition_loop (fuel : nat) (options : Options) (id pivot minIdx maxIdx : Z)
    : option (Z * Z) :=
  match fuel with
  | O => None
  | S fuel =>
      match zlookup options pivot with
      | None => None
      | Some o =>
          if (id =? ID o) || (Z.quot (maxIdx - minIdx) 2 =? 0)
          then Some (findPosition_scan options id pivot)
          else if id <? ID o
          then let maxIdx := pivot in
               findPosition_loop fuel options id (maxIdx - Z.quot (maxIdx - minIdx) 2) minIdx maxIdx
          else let minIdx := pivot in
               findPosition_loop fuel options id (minIdx + Z.quot (maxIdx - minIdx) 2) minIdx maxIdx
      end
  end.

Definition findPosition_run (options : Options) (id : Z) : option (Z * Z) :=
  if zlen options =? 0 then Some (-1, 0)
  else findPosition_loop (length options + 2) options id 0 0 (zlen options).

(** [findPosition_run] is never [None] (lemma [findPosition_total]). *)
Definition findPosition (options : Options) (id : Z) : Z * Z :=
  default (-1, 0) (findPosition_run options id).

Definition Find (options : Options) (id : Z) : Z * Z * option error :=
  let '(idxPre, idxPost) := findPosition options id in
  if (idxPre =? -1) && (idxPost =? 0) then (-1, -1, Some ErrOptionNotFound)
  else if (idxPre =? zlen options - 1) && (idxPost =? -1) then (-1, -1, Some ErrOptionNotFound)
  else if (idxPre <? idxPost) && (idxPost - idxPre =? 1) then (-1, -1, Some ErrOptionNotFound)
  else
    let idxPre := idxPre + 1 in
    let idxPost := if idxPost <? 0 then zlen options else idxPost in
    (idxPre, idxPost, None).

Definition HasOption (options : Options) (id : Z) : bool :=
  let '(_, _, err) := Find options id in if err then false else true.

(** ** Updating in place *)

(** [options[i] = options[i-1]], [count] times with [i] going down. *)
Fixpoint move_right (count i : nat) (options : Options) : Options :=
  match count with
  | O => options
  | S count =>
      move_right count (i - 1)
        (match options !! (i - 1)%nat with Some o => <[i := o]> options | None => options end)
  end.

(** [options[dst] = options[src]], [count] times with both indices going up. *)
Fixpoint move_left (count dst src : nat) (options : Options) : Options :=
  match count with
  | O => options
  | S count =>
      move_left count (S dst) (S src)
        (match options !! src with Some o => <[dst := o]> options | None => options end)
  end.

Definition Set_move (spare : Option) (options : Options) (opt : Option)
    (insertPosition updateTo updateFrom : Z) : Options :=
  let optsLength := zlen options in
  let options := options ++ [spare] in
  let count := optsLength - updateFrom in
  let updateIdx := updateTo + Z.max 0 count in
  let options :=
    if updateFrom <? updateTo
    then move_right (Z.to_nat count) (Z.to_nat optsLength) options
    else move_left (Z.to_nat count) (Z.to_nat updateTo) (Z.to_nat updateFrom) options in
  let options := <[Z.to_nat insertPosition := opt]> options in
  slice_to options updateIdx.

Definition Set_with (spare : Option) (options : Options) (opt : Option) : Options :=
  let '(idxPre, idxPost) := findPosition options (ID opt) in
  if (idxPre =? -1) && (idxPost =? -1) then [opt]
  else if (idxPre =? -1) && (0 <=? idxPost) then Set_move spare options opt 0 1 idxPost
  else if idxPre =? idxPost then Set_move spare options opt idxPre (idxPre + 1) idxPre
  else if 0 <=? idxPre then
    let insertPosition := idxPre + 1 in
    let updateTo := idxPre + 2 in
    let updateFrom := if idxPost <? 0 then zlen options else idxPost in
    if updateTo =? updateFrom then <[Z.to_nat insertPosition := opt]> options
    else Set_move spare options opt insertPosition updateTo updateFrom
  else Set_move spare options opt 0 0 0.

Definition Options_Set (options : Options) (opt : Option) : Options := Set_with zeroOption options opt.

Definition Add_with (spare : Option) (options : Options) (opt : Option) : Options :=
  let '(_, idxPost) := findPosition options (ID opt) in
  let idxPost := if idxPost =? -1 then zlen options else idxPost in
  let options := options ++ [spare] in
  let last := zlen options - 1 in
  let options := move_right (Z.to_nat (last - idxPost)) (Z.to_nat last) options in
  <[Z.to_nat idxPost := opt]> options.

Definition Options_Add (options : Options) (opt : Option) : Options := Add_with zeroOption options opt.

(** The backing array after the shifting loop of [Remove], as it is seen through
    the slice that was passed in. *)
Definition Remove_array (options : Options) (id : Z) : Options :=
  let '(idxPre, idxPost, err) := Find options id in
  match err with
  | Some _ => options
  | None => move_left (Z.to_nat (zlen options - idxPost)) (Z.to_nat idxPre) (Z.to_nat idxPost) options
  end.

Definition Remove (options : Options) (id : Z) : Options :=
  let '(idxPre, idxPost, err) := Find options id in
  match err with
  | Some _ => options
  | None => slice_to (Remove_array options id) (zlen options - (idxPost - idxPre))
  end.

(** ** Typed access *)

(** The elements of [options[firstIdx:lastIdx]]. *)
Definition options_range (options : Options) (firstIdx lastIdx : Z) : Options :=
  slice_to (slice_from options firstIdx) (lastIdx - firstIdx).

Definition GetBytes (options : Options) (id : Z) : list byte * option error :=
  let '(firstIdx, _, err) := Find options id in
  match err with
  | Some e => ([], Some e)
  | None => (default [] (Value <$> zlookup options firstIdx), None)
  end.

(** A Go [string] is its bytes, so this is [GetBytes] with a conversion. *)
Definition GetString (options : Options) (id : Z) : list byte * option error :=
  let '(firstIdx, _, err) := Find options id in
  match err with
  | Some e => ([], Some e)
  | None => (default [] (Value <$> zlookup options firstIdx), None)
  end.

Definition GetUint32 (options : Options) (id : Z) : Z * option error :=
  let '(firstIdx, _, err) := Find options id in
  match err with
  | Some e => (0, Some e)
  | None => let '(val, _, err) := DecodeUint32 (default [] (Value <$> zlookup options firstIdx)) in
            (val, err)
  end.

(** The functions that fill a slice [r] return its contents, a count, an error; an
    option for which [f] fails is skipped. *)
Definition GetAll {A} (f : Option -> option A) (options : Options) (id : Z) (r : list A)
    : list A * (Z * option error) :=
  let '(firstIdx, lastIdx, err) := Find options id in
  match err with
  | Some e => (r, (0, Some e))
  | None =>
      if zlen r <? lastIdx - firstIdx then (r, (lastIdx - firstIdx, Some ErrTooSmall))
      else let vals := omap f (options_range options firstIdx lastIdx) in
           (copy_into r vals, (zlen vals, None))
  end.

Definition GetUint32s (options : Options) (id : Z) (r : list Z) : list Z * (Z * option error) :=
  GetAll (fun o => let '(val, _, err) := DecodeUint32 (Value o) in
                   match err with None => Some val | Some _ => None end) options id r.

Definition GetStrings (options : Options) (id : Z) (r : list (list byte))
    : list (list byte) * (Z * option error) := GetAll (fun o => Some (Value o)) options id r.

Definition GetBytess (options : Options) (id : Z) (r : list (list byte))
    : list (list byte) * (Z * option error) := GetAll (fun o => Some (Value o)) options id r.

Definition Queries (options : Options) : list (list byte) * option error :=
  let q := replicate 4 [] in
  let '(q, (n, err)) := GetStrings options URIQuery q in
  let '(q, (n, err)) :=
    if bool_decide (err = Some ErrTooSmall)
    then GetStrings options URIQuery (q ++ replicate (Z.to_nat (n - zlen q)) [])
    else (q, (n, err)) in
  match err with
  | Some e => ([], Some e)
  | None => (slice_to q n, None)
  end.

Definition Options_ContentFormat (options : Options) : Z * option error :=
  let '(v, err) := GetUint32 options ContentFormat in (CastTo KUint16 v, err).

Definition Options_Observe (options : Options) : Z * option error := GetUint32 options Observe.

Definition Options_Accept (options : Options) : Z * option error :=
  let '(v, err) := GetUint32 options Accept in (CastTo KUint16 v, err).

(** Setters copy the value into [buf] first: the results are the buffer, the
    options, the bytes used (or needed) and the error. *)
Definition SetBytes (options : Options) (buf : list byte) (id : Z) (data : list byte)
    : list byte * (Options * (Z * option error)) :=
  if zlen buf <? zlen data then (buf, (options, (zlen data, Some ErrTooSmall)))
  else if (id =? URIPath) && (maxPathValue <? zlen data)
  then (buf, (options, (-1, Some ErrInvalidValueLength)))
  else let buf := copy_into buf data in
       (buf, (Options_Set options (mkOption id (slice_to buf (zlen data))), (zlen data, None))).

Definition AddBytes (options : Options) (buf : list byte) (id : Z) (data : list byte)
    : list byte * (Options * (Z * option error)) :=
  if zlen buf <? zlen data then (buf, (options, (zlen data, Some ErrTooSmall)))
  else if (id =? URIPath) && (maxPathValue <? zlen data)
  then (buf, (options, (-1, Some ErrInvalidValueLength)))
  else let buf := copy_into buf data in
       (buf, (Options_Add options (mkOption id (slice_to buf (zlen data))), (zlen data, None))).

Definition SetString (options : Options) (buf : list byte) (id : Z) (str : list byte) :=
  SetBytes options buf id str.

Definition AddString (options : Options) (buf : list byte) (id : Z) (str : list byte) :=
  AddBytes options buf id str.

Definition SetUint32 (options : Options) (buf : list byte) (id value : Z)
    : list byte * (Options * (Z * option error)) :=
  let '(buf, (enc, err)) := EncodeUint32 buf value in
  match err with
  | Some e => (buf, (options, (enc, Some e)))
  | None => (buf, (Options_Set options (mkOption id (slice_to buf enc)), (enc, None)))
  end.

Definition AddUint32 (options : Options) (buf : list byte) (id value : Z)
    : list byte * (Options * (Z * option error)) :=
  let '(buf, (enc, err)) := EncodeUint32 buf value in
  match err with
  | Some e => (buf, (options, (enc, Some e)))
  | None => (buf, (Options_Add options (mkOption id (slice_to buf enc)), (enc, None)))
  end.

Definition Options_SetContentFormat (options : Options) (buf : list byte) (contentFormat : Z) :=
  SetUint32 options buf ContentFormat contentFormat.

Definition Options_SetObserve (options : Options) (buf : list byte) (observe : Z) :=
  SetUint32 options buf Observe observe.

Definition Options_SetAccept (options : Options) (buf : list byte) (contentFormat : Z) :=
  SetUint32 options buf Accept contentFormat.

(** [ResetOptionsTo]: [opts] grows from the empty slice.  On [ErrTooSmall] Go hands
    the old slice header back, which the callers drop; the model returns the old
    elements. *)
Fixpoint ResetOptionsTo_loop (options opts : Options) (buf : list byte) (used : Z) (rest : Options)
    : list byte * (Options * (Z * option error)) :=
  match rest with
  | [] => (buf, (opts, (used, None)))
  | o :: rest' =>
      if zlen buf <? zlen (Value o)
      then (buf, (options, (fold_left (fun used o => used + zlen (Value o)) rest used, Some ErrTooSmall)))
      else
        let buf := copy_into buf (Value o) in
        let opts := Options_Add opts (mkOption (ID o) (slice_to buf (zlen (Value o)))) in
        let '(tail, r) := ResetOptionsTo_loop options opts (slice_from buf (zlen (Value o)))
                            (used + zlen (Value o)) rest' in
        (slice_to buf (zlen (Value o)) ++ tail, r)
  end.

(** The buffer afterwards and the results. *)
Definition ResetOptionsTo (options : Options) (buf : list byte) (in_ : Options)
    : list byte * (Options * (Z * option error)) :=
  ResetOptionsTo_loop options [] buf 0 in_.

Definition Clone (options : Options) : Options * option error :=
  let buf := make_bytes 64 in
  let '(_, (opts, (used, err))) := ResetOptionsTo [] buf options in
  let '(opts, err) :=
    if bool_decide (err = Some ErrTooSmall)
    then let '(_, (opts, (_, err))) :=
           ResetOptionsTo opts (buf ++ make_bytes (used - zlen buf)) options in (opts, err)
    else (opts, err) in
  match err with
  | Some e => ([], Some e)
  | None => (opts, None)
  end.

(** ** Paths *)

(** [strings.Index(s, c)] and [bytes.IndexByte(s, c)] for a one-byte needle. *)
Fixpoint IndexByte (l : list byte) (c : Z) : Z :=
  match l with
  | [] => -1
  | b :: l' => if b =? c then 0
               else let i := IndexByte l' c in if i <? 0 then -1 else i + 1
  end.

Definition slash : Z := 47.

(** The loop of [GetPathBufferSize]; [rest] is [path[start:]].  Every round consumes
    at least one byte, so the length of the path is enough fuel
    ([GetPathBufferSize_loop_spec]). *)
Fixpoint GetPathBufferSize_loop (fuel : nat) (rest : list byte) (size : Z) : Z * option error :=
  match fuel with
  | O => (size, None)
  | S fuel =>
      if zlen rest =? 0 then (size, None) else
      let segmentSize := IndexByte rest slash in
      if segmentSize =? 0 then GetPathBufferSize_loop fuel (slice_from rest 1) size else
      let segmentSize := if segmentSize <? 0 then zlen rest else segmentSize in
      if maxPathValue <? segmentSize then (-1, Some ErrInvalidValueLength)
      else GetPathBufferSize_loop fuel (slice_from rest (segmentSize + 1)) (size + segmentSize)
  end.

Definition GetPathBufferSize (path : list byte) : Z * option error :=
  GetPathBufferSize_loop (length path) path 0.

(** The loop of [setPath]: the buffer, the options, the bytes used. *)
Fixpoint setPath_loop (fuel : nat) (o : Options) (optionID : Z) (buf rest : list byte) (encoded : Z)
    : list byte * (Options * (Z * option error)) :=
  match fuel with
  | O => (buf, (o, (encoded, None)))
  | S fuel =>
      if zlen rest =? 0 then (buf, (o, (encoded, None))) else
      let end_ := IndexByte rest slash in
      if end_ =? 0 then setPath_loop fuel o optionID buf (slice_from rest 1) encoded else
      let end_ := if end_ <? 0 then zlen rest else end_ in
      let '(buf, (o, (enc, err))) :=
        on_suffix encoded (fun data => AddString o data optionID (slice_to rest end_)) buf in
      match err with
      | Some e => (buf, (o, (-1, Some e)))
      | None => setPath_loop fuel o optionID buf (slice_from rest (end_ + 1)) (encoded + enc)
      end
  end.

(** [Remove] shifts the shared backing array before the path is checked, so the slice
    that the error returns hand back is the old header over the shifted array. *)
Definition setPath (options : Options) (optionID : Z) (buf path : list byte)
    : list byte * (Options * (Z * option error)) :=
  match path with
  | [] => (buf, (options, (0, None)))
  | c :: path' =>
      let o := Remove options optionID in
      let path := if c =? slash then path' else path in
      let '(requiredSize, err) := GetPathBufferSize path in
      match err with
      | Some e => (buf, (Remove_array options optionID, (-1, Some e)))
      | None =>
          if zlen buf <? requiredSize
          then (buf, (Remove_array options optionID, (-1, Some ErrTooSmall)))
          else setPath_loop (length path) o optionID buf path 0
      end
  end.

Definition SetPath (options : Options) (buf path : list byte) := setPath options URIPath buf path.

Definition SetLocationPath (options : Options) (buf path : list byte) :=
  setPath options LocationPath buf path.

(** The first loop of [path]: the bytes needed, or a separator inside a segment. *)
Fixpoint path_needed (range : Options) (needed : Z) : result Z :=
  match range with
  | [] => Ok needed
  | o :: range => if 0 <=? IndexByte (Value o) slash then Err ErrInvalidEncoding
                  else path_needed range (needed + zlen (Value o) + 1)
  end.

Fixpoint path_fill (range : Options) (buf : list byte) : list byte :=
  match range with
  | [] => buf
  | o :: range =>
      let buf := copy_into buf [slash] in
      let rest := copy_into (slice_from buf 1) (Value o) in
      slice_to buf 1 ++ slice_to rest (zlen (Value o)) ++
      path_fill range (slice_from rest (zlen (Value o)))
  end.

Definition Options_path (options : Options) (buf : list byte) (id : Z)
    : list byte * (Z * option error) :=
  let '(firstIdx, lastIdx, err) := Find options id in
  match err with
  | Some e => (buf, (-1, Some e))
  | None =>
      let range := options_range options firstIdx lastIdx in
      match path_needed range 0 with
      | Err e => (buf, (-1, Some e))
      | Ok needed => if zlen buf <? needed then (buf, (needed, Some ErrTooSmall))
                     else (path_fill range buf, (needed, None))
      end
  end.

(** [utf8.Valid] (the well-formed byte sequences of the Unicode standard). *)
Definition between (lo b hi : Z) : bool := (lo <=? b) && (b <=? hi).

Definition utf8_two (b0 b1 : Z) : bool := between 194 b0 223 && between 128 b1 191.

Definition utf8_three (b0 b1 b2 : Z) : bool :=
  between 224 b0 239 &&
  between (if b0 =? 224 then 160 else 128) b1 (if b0 =? 237 then 159 else 191) &&
  between 128 b2 191.

Definition utf8_four (b0 b1 b2 b3 : Z) : bool :=
  between 240 b0 244 &&
  between (if b0 =? 240 then 144 else 128) b1 (if b0 =? 244 then 143 else 191) &&
  between 128 b2 191 && between 128 b3 191.

Fixpoint utf8_Valid (l : list byte) : bool :=
  match l with
  | [] => true
  | b0 :: l0 =>
      if b0 <? 128 then utf8_Valid l0 else
      match l0 with
      | [] => false
      | b1 :: l1 =>
          if utf8_two b0 b1 then utf8_Valid l1 else
          match l1 with
          | [] => false
          | b2 :: l2 =>
              if utf8_three b0 b1 b2 then utf8_Valid l2 else
              match l2 with
              | [] => false
              | b3 :: l3 => utf8_four b0 b1 b2 b3 && utf8_Valid l3
              end
          end
      end
  end.

(** The part that [Path] and [LocationPath] share: try 32 bytes, then grow. *)
Definition path_retry (options : Options) (id : Z) : list byte * (Z * option error) :=
  let buf := make_bytes 32 in
  let '(buf, (m, err)) := Options_path options buf id in
  if bool_decide (err = Some ErrTooSmall)
  then Options_path options (buf ++ make_bytes m) id
  else (buf, (m, err)).

Definition Options_Path (options : Options) : list byte * option error :=
  let '(buf, (m, err)) := path_retry options URIPath in
  match err with
  | Some e => ([], Some e)
  | None => let buf := slice_to buf m in
            if negb (utf8_Valid buf) then ([], Some ErrInvalidEncoding) else (buf, None)
  end.

Definition Options_LocationPath (options : Options) : list byte * option error :=
  let '(buf, (m, err)) := path_retry options LocationPath in
  match err with
  | Some e => ([], Some e)
  | None => (slice_to buf m, None)
  end.

(** ** Sorted containers *)

Definition sorted_opts (options : Options) : Prop :=
  StronglySorted (fun a b => ID a <= ID b) options.

(** The abstract view of a container: the values stored under an option number, in
    order. *)
Definition vals (options : Options) (id : Z) : list (list byte) :=
  Value <$> filter (fun o => ID o = id) options.

Definition below (id : Z) (options : Options) : Options := filter (fun o => ID o < id) options.
Definition same (id : Z) (options : Options) : Options := filter (fun o => ID o = id) options.
Definition above (id : Z) (options : Options) : Options := filter (fun o => id < ID o) options.

Lemma below_lt id options : Forall (fun o => ID o < id) (below id options).
Proof. apply Forall_forall. intros o. unfold below. rewrite list_elem_of_filter. tauto. Qed.

Lemma same_eq id options : Forall (fun o => ID o = id) (same id options).
Proof. apply Forall_forall. intros o. unfold same. rewrite list_elem_of_filter. tauto. Qed.

Lemma above_gt id options : Forall (fun o => id < ID o) (above id options).
Proof. apply Forall_forall. intros o. unfold above. rewrite list_elem_of_filter. tauto. Qed.

Lemma filter_none {A} (P : A -> Prop) `{!forall x, Decision (P x)} l :
  Forall (fun x => ~ P x) l -> filter P l = [].
Proof. induction 1; [done|]. by rewrite filter_cons_False. Qed.

Lemma filter_all {A} (P : A -> Prop) `{!forall x, Decision (P x)} l :
  Forall P l -> filter P l = l.
Proof. induction 1; [done|]. rewrite filter_cons_True by done. by f_equal. Qed.

(** A sorted container is the options below an ID, then those with it, then the rest. *)
Lemma sorted_split id options :
  sorted_opts options -> options = below id options ++ same id options ++ above id options.
Proof.
  unfold below, same, above. induction 1 as [|o options Hs IH Hall]; [done|].
  rewrite !filter_cons.
  destruct (Z.lt_trichotomy (ID o) id) as [Hlt|[Heq|Hgt]].
  - rewrite decide_True by lia. rewrite !decide_False by lia. simpl. by f_equal.
  - rewrite decide_False by lia. rewrite decide_True by lia. rewrite decide_False by lia.
    rewrite (filter_none (fun o => ID o < id)) in IH |- *
      by (eapply Forall_impl; [exact Hall|]; simpl; lia).
    simpl in *. by f_equal.
  - rewrite !decide_False by lia. rewrite decide_True by lia.
    rewrite (filter_none (fun o => ID o < id)), (filter_none (fun o => ID o = id)) in IH |- *
      by (eapply Forall_impl; [exact Hall|]; simpl; lia).
    simpl in *. by f_equal.
Qed.

Lemma sorted_filter (P : Option -> Prop) `{!forall x, Decision (P x)} options :
  sorted_opts options -> sorted_opts (filter P options).
Proof.
  induction 1 as [|o options Hs IH Hall]; [constructor|]. rewrite filter_cons.
  case_decide; [|done]. constructor; [done|].
  apply Forall_forall. intros x. rewrite list_elem_of_filter. intros [_ Hx].
  rewrite Forall_forall in Hall. auto.
Qed.

(** ** The search on a split container *)

Lemma scan_up_app low high idx id :
  Forall (fun o => ID o <= id) low -> Forall (fun o => id < ID o) high ->
  scan_up (low ++ high) idx id = idx + zlen low.
Proof.
  intros Hlow Hhigh. revert idx. induction Hlow as [|o low Ho Hlow IH]; intros idx; simpl.
  - unfold zlen. simpl. destruct high as [|h high]; simpl; [lia|].
    apply Forall_cons in Hhigh as [Hh _]. destruct (Z.leb_spec (ID h) id); lia.
  - destruct (Z.leb_spec (ID o) id); [|lia]. rewrite IH, zlen_cons. lia.
Qed.

Lemma scan_down_app high low idx id :
  Forall (fun o => id <= ID o) high -> Forall (fun o => ID o < id) low ->
  scan_down (high ++ low) idx id = idx - zlen high.
Proof.
  intros Hhigh Hlow. revert idx. induction Hhigh as [|o high Ho Hhigh IH]; intros idx; simpl.
  - unfold zlen. simpl. destruct low as [|h low]; simpl; [lia|].
    apply Forall_cons in Hlow as [Hh _]. destruct (Z.leb_spec id (ID h)); lia.
  - destruct (Z.leb_spec id (ID o)); [|lia]. rewrite IH, zlen_cons. lia.
Qed.

Section search.
Context (L M R : Options) (id : Z).
Context (HL : Forall (fun o => ID o < id) L).
Context (HM : Forall (fun o => ID o = id) M).
Context (HR : Forall (fun o => id < ID o) R).

Lemma split_lookup p o :
  zlookup (L ++ M ++ R) p = Some o ->
  (p < zlen L /\ ID o < id) \/
  (zlen L <= p < zlen L + zlen M /\ ID o = id) \/
  (zlen L + zlen M <= p /\ id < ID o).
Proof.
  intros Hp. destruct (Z.ltb_spec p (zlen L)).
  - left. split; [done|]. rewrite zlookup_app_l in Hp by done.
    unfold zlookup in Hp. destruct (p <? 0); [done|].
    exact (Forall_lookup_1 _ _ _ _ HL Hp).
  - right. rewrite zlookup_app_r in Hp by done.
    destruct (Z.ltb_spec (p - zlen L) (zlen M)).
    + left. split; [lia|]. rewrite zlookup_app_l in Hp by done.
      unfold zlookup in Hp. destruct (_ <? 0); [done|].
      exact (Forall_lookup_1 _ _ _ _ HM Hp).
    + right. split; [lia|]. rewrite zlookup_app_r in Hp by done.
      unfold zlookup in Hp. destruct (_ <? 0); [done|].
      exact (Forall_lookup_1 _ _ _ _ HR Hp).
Qed.

(** What the search returns: the last index below [id], the first index above it. *)
Definition found_at : Z * Z :=
  (zlen L - 1, if zlen L + zlen M =? zlen (L ++ M ++ R) then -1 else zlen L + zlen M).

Lemma findPosition_scan_split pivot :
  0 <= pivot < zlen (L ++ M ++ R) -> zlen L - 1 <= pivot <= zlen L + zlen M ->
  findPosition_scan (L ++ M ++ R) id pivot = found_at.
Proof.
  intros H0 Hp. unfold findPosition_scan, found_at.
  assert (scan_up (slice_from (L ++ M ++ R) pivot) pivot id = zlen L + zlen M) as ->.
  { rewrite app_assoc. unfold slice_from. rewrite drop_app_le by (unfold zlen in *; rewrite length_app; lia).
    rewrite scan_up_app; [|apply Forall_drop, Forall_app; split; eapply Forall_impl; eauto; simpl; lia|done].
    unfold zlen in *. rewrite length_drop, length_app. lia. }
  assert (scan_down (reverse (slice_to (L ++ M ++ R) (pivot + 1))) pivot id = zlen L - 1) as ->; [|done].
  unfold slice_to. rewrite take_app_ge by (unfold zlen in *; lia). rewrite reverse_app.
  rewrite scan_down_app.
  - rewrite !zlen_app in H0. unfold zlen in *. rewrite length_reverse, length_take, length_app. lia.
  - apply Forall_reverse, Forall_take, Forall_app. split; eapply Forall_impl; eauto; simpl; lia.
  - by apply Forall_reverse.
Qed.

Lemma findPosition_loop_split fuel pivot minIdx maxIdx :
  maxIdx - minIdx <= Z.of_nat fuel ->
  0 <= minIdx < zlen L -> zlen L + zlen M <= maxIdx <= zlen (L ++ M ++ R) ->
  minIdx <= pivot <= maxIdx -> pivot < zlen (L ++ M ++ R) ->
  (2 <= maxIdx - minIdx -> minIdx < pivot < maxIdx) ->
  findPosition_loop fuel (L ++ M ++ R) id pivot minIdx maxIdx = Some found_at.
Proof.
  revert pivot minIdx maxIdx.
  induction fuel as [|fuel IH]; intros pivot minIdx maxIdx Hf Hmin Hmax Hpiv Hn Hstrict;
    pose proof (zlen_nonneg M); [lia|].
  cbn [findPosition_loop]. cbv zeta. rewrite !Z.quot_div_nonneg by lia.
  destruct (zlookup_in_range (L ++ M ++ R) pivot) as [o Ho]; [lia|]. rewrite Ho.
  destruct (split_lookup pivot o Ho) as [[Hp Hid]|[[Hp Hid]|[Hp Hid]]].
  - destruct (Z.eqb_spec id (ID o)); [lia|]. simpl.
    destruct (Z.eqb_spec ((maxIdx - minIdx) / 2) 0) as [Hq|Hq].
    + f_equal. apply findPosition_scan_split; div_lia.
    + destruct (Z.ltb_spec id (ID o)); [lia|]. apply IH; div_lia.
  - destruct (Z.eqb_spec id (ID o)); [|lia]. simpl. f_equal.
    apply findPosition_scan_split; div_lia.
  - destruct (Z.eqb_spec id (ID o)); [lia|]. simpl.
    destruct (Z.eqb_spec ((maxIdx - minIdx) / 2) 0) as [Hq|Hq].
    + f_equal. apply findPosition_scan_split; div_lia.
    + destruct (Z.ltb_spec id (ID o)); [|lia]. apply IH; div_lia.
Qed.

Lemma findPosition_run_split :
  L ++ M ++ R <> [] -> findPosition_run (L ++ M ++ R) id = Some found_at.
Proof.
  intros Hne. unfold findPosition_run.
  destruct (Z.eqb_spec (zlen (L ++ M ++ R)) 0) as [E|E]; [by apply zlen_0_nil in E|].
  pose proof (zlen_nonneg (L ++ M ++ R)). pose proof (zlen_nonneg L). pose proof (zlen_nonneg M).
  pose proof (zlen_nonneg R).
  assert (zlen (L ++ M ++ R) = zlen L + zlen M + zlen R) as Hlen by (rewrite !zlen_app; lia).
  rewrite Nat.add_comm. change (2 + length (L ++ M ++ R))%nat with (S (S (length (L ++ M ++ R)))).
  set (fuel := S (length (L ++ M ++ R))). cbn [findPosition_loop]. cbv zeta.
  rewrite !Z.quot_div_nonneg by lia.
  destruct (zlookup_in_range (L ++ M ++ R) 0) as [o Ho]; [lia|]. rewrite Ho.
  destruct (split_lookup 0 o Ho) as [[Hp Hid]|[[Hp Hid]|[Hp Hid]]].
  - destruct (Z.eqb_spec id (ID o)); [lia|]. simpl orb.
    destruct (Z.eqb_spec ((zlen (L ++ M ++ R) - 0) / 2) 0) as [Hq|Hq].
    + f_equal. apply findPosition_scan_split; div_lia.
    + destruct (Z.ltb_spec id (ID o)); [lia|].
      apply findPosition_loop_split; unfold fuel, zlen in *; div_lia.
  - destruct (Z.eqb_spec id (ID o)); [|lia]. simpl orb. f_equal. apply findPosition_scan_split; div_lia.
  - destruct (Z.eqb_spec id (ID o)); [lia|]. simpl orb.
    destruct (Z.eqb_spec ((zlen (L ++ M ++ R) - 0) / 2) 0) as [Hq|Hq].
    + f_equal. apply findPosition_scan_split; div_lia.
    + destruct (Z.ltb_spec id (ID o)); [|lia]. change ((0 - 0) / 2) with 0.
      unfold fuel. cbn [findPosition_loop]. rewrite Z.sub_0_r, Ho. destruct (Z.eqb_spec id (ID o)); [lia|]. simpl. f_equal.
      apply findPosition_scan_split; div_lia.
Qed.

Lemma findPosition_split :
  findPosition (L ++ M ++ R) id = if decide (L ++ M ++ R = []) then (-1, 0) else found_at.
Proof.
  unfold findPosition. case_decide as E; [by rewrite E|]. by rewrite findPosition_run_split.
Qed.

Lemma Find_split :
  Find (L ++ M ++ R) id =
  if decide (M = []) then (-1, -1, Some ErrOptionNotFound) else (zlen L, zlen L + zlen M, None).
Proof.
  unfold Find. rewrite findPosition_split. unfold found_at.
  pose proof (zlen_nonneg L). pose proof (zlen_nonneg R).
  assert (zlen (L ++ M ++ R) = zlen L + zlen M + zlen R) as Hlen by (rewrite !zlen_app; lia).
  case_decide as E; [|].
  - apply app_nil in E as [-> [-> ->]%app_nil]. done.
  - rewrite Hlen. case_decide as EM.
    + subst M. change (zlen (@nil Option)) with 0 in *.
      destruct (Z.eqb_spec (zlen L + 0) (zlen L + 0 + zlen R)).
      * change (-1 =? 0) with false. rewrite andb_false_r. change (-1 =? -1) with true.
        by destruct (Z.eqb_spec (zlen L - 1) (zlen L + 0 + zlen R - 1)); [|lia].
      * destruct (Z.eqb_spec (zlen L - 1) (-1)); destruct (Z.eqb_spec (zlen L + 0) 0); simpl; try lia; [done|].
        destruct (Z.eqb_spec (zlen L - 1) (zlen L + 0 + zlen R - 1)), (Z.eqb_spec (zlen L + 0) (-1)); simpl; try lia; try done;
          by destruct (Z.ltb_spec (zlen L - 1) (zlen L + 0)), (Z.eqb_spec (zlen L + 0 - (zlen L - 1)) 1); try lia.
    + assert (0 < zlen M) by (destruct M; [done|]; rewrite zlen_cons; pose proof (zlen_nonneg l); lia).
      destruct (Z.eqb_spec (zlen L + zlen M) (zlen L + zlen M + zlen R)).
      * change (-1 =? 0) with false. rewrite andb_false_r. change (-1 =? -1) with true. rewrite andb_true_r.
        destruct (Z.eqb_spec (zlen L - 1) (zlen L + zlen M + zlen R - 1)); [lia|].
        destruct (Z.ltb_spec (zlen L - 1) (-1)); [lia|]. simpl. do 2 f_equal; lia.
      * destruct (Z.eqb_spec (zlen L + zlen M) 0); [lia|]. rewrite andb_false_r.
        destruct (Z.eqb_spec (zlen L + zlen M) (-1)); [lia|]. rewrite andb_false_r.
        destruct (Z.eqb_spec (zlen L + zlen M - (zlen L - 1)) 1); [lia|]. rewrite andb_false_r.
        destruct (Z.ltb_spec (zlen L + zlen M) 0); [lia|]. do 2 f_equal; lia.
Qed.
End search.

(** ** The search always returns *)

Lemma findPosition_loop_total fuel options id pivot minIdx maxIdx :
  maxIdx - minIdx < Z.of_nat fuel ->
  0 <= minIdx -> maxIdx <= zlen options ->
  minIdx <= pivot <= maxIdx -> pivot < zlen options ->
  (2 <= maxIdx - minIdx -> minIdx < pivot < maxIdx) ->
  is_Some (findPosition_loop fuel options id pivot minIdx maxIdx).
Proof.
  revert pivot minIdx maxIdx. induction fuel as [|fuel IH]; intros; [lia|].
  cbn [findPosition_loop].
  destruct (zlookup_in_range options pivot) as [o ->]; [lia|].
  destruct ((id =? ID o) || (Z.quot (maxIdx - minIdx) 2 =? 0)) eqn:E; [eauto|].
  apply orb_false_iff in E as [_ E%Z.eqb_neq].
  destruct (id <? ID o); apply IH; div_lia.
Qed.

(** For every container, sorted or not, the bisection stays in range and ends. *)
Lemma findPosition_total options id : is_Some (findPosition_run options id).
Proof.
  unfold findPosition_run. destruct (Z.eqb_spec (zlen options) 0) as [|E]; [eauto|].
  pose proof (zlen_nonneg options). rewrite Nat.add_comm.
  change (2 + length options)%nat with (S (S (length options))).
  set (fuel := S (length options)). cbn [findPosition_loop].
  destruct (zlookup_in_range options 0) as [o Ho]; [lia|]. rewrite Ho.
  destruct ((id =? ID o) || (Z.quot (zlen options - 0) 2 =? 0)) eqn:E2; [eauto|].
  apply orb_false_iff in E2 as [_ E2%Z.eqb_neq].
  destruct (id <? ID o); apply findPosition_loop_total; unfold fuel, zlen in *; div_lia.
Qed.

(** ** The shifting loops *)

Lemma lookup_mid {A} (l k : list A) x : (l ++ x :: k) !! length l = Some x.
Proof. rewrite lookup_app_r by lia. by rewrite Nat.sub_diag. Qed.

Lemma insert_mid {A} (l k : list A) x y : <[length l := y]> (l ++ x :: k) = l ++ y :: k.
Proof. rewrite insert_app_r_alt by lia. by rewrite Nat.sub_diag. Qed.

(** Shifting [B] one place to the right over the slot [x]; the first place keeps
    what it had. *)
Lemma move_right_spec (A B T : Options) x :
  move_right (length B) (length A + length B) (A ++ B ++ x :: T) =
  A ++ (match B with [] => x | b :: _ => b end) :: B ++ T.
Proof.
  revert x T. induction B as [|b B IH] using rev_ind; intros x T; [done|].
  rewrite length_app, (Nat.add_comm (length B)). cbn [length Nat.add move_right].
  replace (length A + S (length B) - 1)%nat with (length (A ++ B)) by (rewrite length_app; lia).
  replace (length A + S (length B))%nat with (length (A ++ B ++ [b]))
    by (rewrite !length_app; simpl; lia).
  replace (A ++ (B ++ [b]) ++ x :: T) with ((A ++ B) ++ b :: x :: T) by (by rewrite <- !app_assoc).
  rewrite lookup_mid.
  replace ((A ++ B) ++ b :: x :: T) with ((A ++ B ++ [b]) ++ x :: T) by (by rewrite <- !app_assoc).
  rewrite insert_mid.
  replace ((A ++ B ++ [b]) ++ b :: T) with (A ++ B ++ b :: b :: T) by (by rewrite <- !app_assoc).
  rewrite length_app, IH, <- app_assoc. f_equal. destruct B; done.
Qed.

(** Shifting [R] left over [C]: the array keeps the tail of its old contents. *)
Lemma move_left_spec (A C R T : Options) :
  move_left (length R) (length A) (length A + length C) (A ++ C ++ R ++ T) =
  A ++ R ++ drop (length R) (C ++ R) ++ T.
Proof.
  revert A C. induction R as [|r R IH]; intros A C; [by rewrite app_nil_r|].
  cbn [length move_left].
  replace (length A + length C)%nat with (length (A ++ C)) by (by rewrite length_app).
  replace ((A ++ C ++ (r :: R) ++ T) !! length (A ++ C)) with (Some r)
    by (symmetry; rewrite app_assoc; apply lookup_mid).
  destruct C as [|c C].
  - cbn [app]. rewrite app_nil_r, insert_mid.
    pose proof (IH (A ++ [r]) []) as IH'. cbn [app length] in IH'.
    rewrite Nat.add_0_r, length_app, Nat.add_1_r, <- !app_assoc in IH'. exact IH'.
  - change (A ++ (c :: C) ++ (r :: R) ++ T) with (A ++ c :: (C ++ r :: R ++ T)). rewrite insert_mid.
    replace (A ++ r :: C ++ r :: R ++ T) with ((A ++ [r]) ++ (C ++ [r]) ++ R ++ T)
      by (by rewrite <- !app_assoc).
    replace (S (length A)) with (length (A ++ [r])) by (rewrite length_app; simpl; lia).
    replace (S (length (A ++ c :: C))) with (length (A ++ [r]) + length (C ++ [r]))%nat
      by (rewrite !length_app; simpl; lia).
    rewrite IH, <- !app_assoc. done.
Qed.

Section update.
Context (L M R : Options) (opt : Option).
Context (HL : Forall (fun o => ID o < ID opt) L).
Context (HM : Forall (fun o => ID o = ID opt) M).
Context (HR : Forall (fun o => ID opt < ID o) R).

Lemma Remove_array_split : Remove_array (L ++ M ++ R) (ID opt) = L ++ R ++ drop (length R) (M ++ R).
Proof.
  unfold Remove_array. rewrite (Find_split L M R) by done. case_decide as E.
  - subst M. simpl. rewrite drop_all, app_nil_r. done.
  - rewrite !zlen_app. unfold zlen.
    replace (Z.to_nat _) with (length R) by lia.
    replace (Z.to_nat (Z.of_nat (length L) + Z.of_nat (length M))) with (length L + length M)%nat by lia.
    rewrite Nat2Z.id. pose proof (move_left_spec L M R []) as E2. rewrite !app_nil_r in E2. exact E2.
Qed.

Lemma Remove_split : Remove (L ++ M ++ R) (ID opt) = L ++ R.
Proof.
  unfold Remove. rewrite (Find_split L M R) by done. case_decide as E; [by subst|].
  rewrite Remove_array_split. rewrite app_assoc. apply slice_to_app'. rewrite !zlen_app. lia.
Qed.

Lemma Set_move_split spare insertPosition updateTo updateFrom :
  insertPosition = zlen L -> updateTo = zlen L + 1 -> updateFrom = zlen L + zlen M ->
  Set_move spare (L ++ M ++ R) opt insertPosition updateTo updateFrom = L ++ opt :: R.
Proof.
  intros -> -> ->. unfold Set_move.
  replace (zlen (L ++ M ++ R) - (zlen L + zlen M)) with (zlen R) by (rewrite !zlen_app; lia).
  replace (Z.max 0 (zlen R)) with (zlen R) by (pose proof (zlen_nonneg R); lia).
  replace (Z.to_nat (zlen R)) with (length R) by (unfold zlen; lia).
  replace (Z.to_nat (zlen L)) with (length L) by (unfold zlen; lia).
  destruct (Z.ltb_spec (zlen L + zlen M) (zlen L + 1)) as [Hlt|Hge].
  - assert (M = []) as -> by (apply zlen_0_nil; pose proof (zlen_nonneg M); lia).
    simpl. replace (Z.to_nat (zlen (L ++ R))) with (length L + length R)%nat
      by (unfold zlen; rewrite length_app; lia).
    rewrite <- app_assoc. rewrite (move_right_spec L R []). rewrite app_nil_r, insert_mid.
    apply slice_to_all. autorewrite with zlen. lia.
  - destruct M as [|m M']; [change (zlen (@nil Option)) with 0 in Hge; lia|].
    replace ((L ++ (m :: M') ++ R) ++ [spare]) with ((L ++ [m]) ++ M' ++ R ++ [spare])
      by (by rewrite <- !app_assoc).
    replace (Z.to_nat (zlen L + 1)) with (length (L ++ [m])) by (rewrite length_app; unfold zlen; simpl; lia).
    replace (Z.to_nat (zlen L + zlen (m :: M'))) with (length (L ++ [m]) + length M')%nat
      by (rewrite length_app; unfold zlen; simpl; lia).
    rewrite move_left_spec, <- app_assoc. cbn [app]. rewrite insert_mid.
    replace (L ++ opt :: R ++ drop (length R) (M' ++ R) ++ [spare])
      with ((L ++ opt :: R) ++ drop (length R) (M' ++ R) ++ [spare]) by (by rewrite <- app_assoc).
    apply slice_to_app'. autorewrite with zlen. lia.
Qed.

(** [Set] keeps the options with other IDs and leaves exactly one with this ID,
    whatever the extra slot held. *)
Lemma Set_split spare : Set_with spare (L ++ M ++ R) opt = L ++ opt :: R.
Proof.
  unfold Set_with. rewrite (findPosition_split L M R) by done.
  pose proof (zlen_nonneg L). pose proof (zlen_nonneg M). pose proof (zlen_nonneg R).
  assert (zlen (L ++ M ++ R) = zlen L + zlen M + zlen R) as Hlen by (rewrite !zlen_app; lia).
  case_decide as E.
  - rewrite E. by apply app_nil in E as [E1 [_ E3]%app_nil]; rewrite E1, E3.
  - unfold found_at. rewrite Hlen.
    destruct (Z.eqb_spec (zlen L + zlen M) (zlen L + zlen M + zlen R)) as [HR0|HR0].
    + destruct (Z.eqb_spec (zlen L - 1) (-1)) as [HL0|HL0].
      * assert (L = []) as HLn by (apply zlen_0_nil; lia).
        assert (R = []) as HRn by (apply zlen_0_nil; lia). by rewrite HLn, HRn.
      * change (-1 =? -1) with true. change (0 <=? -1) with false. cbn [andb].
        destruct (Z.leb_spec 0 (zlen L - 1)); [|lia]. change (-1 <? 0) with true. if_reduce.
        destruct (Z.eqb_spec (zlen L - 1 + 2) (zlen L + zlen M + zlen R)) as [Hm|Hm].
        -- destruct M as [|m [|m2 M']]; autorewrite with zlen in Hm;
             [change (zlen (@nil Option)) with 0 in *; lia| |pose proof (zlen_nonneg M'); lia].
           replace (Z.to_nat (zlen L - 1 + 1)) with (length L) by (unfold zlen; lia).
           cbn [app]. by rewrite insert_mid.
        -- apply Set_move_split; lia.
    + destruct (Z.eqb_spec (zlen L - 1) (-1)) as [HL0|HL0]; cbn [andb].
      * destruct (Z.eqb_spec (zlen L + zlen M) (-1)); [lia|].
        destruct (Z.leb_spec 0 (zlen L + zlen M)); [|lia]. apply Set_move_split; lia.
      * destruct (Z.eqb_spec (zlen L - 1) (zlen L + zlen M)); [lia|].
        destruct (Z.leb_spec 0 (zlen L - 1)); [|lia].
        destruct (Z.ltb_spec (zlen L + zlen M) 0); [lia|].
        destruct (Z.eqb_spec (zlen L - 1 + 2) (zlen L + zlen M)) as [Hm|Hm].
        -- destruct M as [|m [|m2 M']]; autorewrite with zlen in Hm;
             [change (zlen (@nil Option)) with 0 in *; lia| |pose proof (zlen_nonneg M'); lia].
           replace (Z.to_nat (zlen L - 1 + 1)) with (length L) by (unfold zlen; lia).
           cbn [app]. by rewrite insert_mid.
        -- apply Set_move_split; lia.
Qed.

(** [Add] inserts after the options with the same ID. *)
Lemma Add_split spare : Add_with spare (L ++ M ++ R) opt = L ++ M ++ opt :: R.
Proof.
  unfold Add_with. rewrite (findPosition_split L M R) by done.
  pose proof (zlen_nonneg L). pose proof (zlen_nonneg M).
  assert (zlen (L ++ M ++ R) = zlen L + zlen M + zlen R) as Hlen by (rewrite !zlen_app; lia).
  case_decide as E; [rewrite E; by apply app_nil in E as [E1 [E2 E3]%app_nil]; rewrite E1, E2, E3|].
  unfold found_at.
  assert ((if (if zlen L + zlen M =? zlen (L ++ M ++ R) then -1 else zlen L + zlen M) =? -1
           then zlen (L ++ M ++ R)
           else if zlen L + zlen M =? zlen (L ++ M ++ R) then -1 else zlen L + zlen M)
          = zlen L + zlen M) as ->.
  { destruct (Z.eqb_spec (zlen L + zlen M) (zlen (L ++ M ++ R))) as [E2|E2]; [by rewrite <- E2|].
    destruct (Z.eqb_spec (zlen L + zlen M) (-1)); lia. }
  rewrite zlen_app. change (zlen [spare]) with 1. rewrite Hlen.
  replace (Z.to_nat (zlen L + zlen M + zlen R + 1 - 1)) with (length (L ++ M) + length R)%nat
    by (rewrite length_app; unfold zlen; lia).
  replace (Z.to_nat (zlen L + zlen M + zlen R + 1 - 1 - (zlen L + zlen M))) with (length R)
    by (unfold zlen; lia).
  replace (Z.to_nat (zlen L + zlen M)) with (length (L ++ M)) by (rewrite length_app; unfold zlen; lia).
  replace ((L ++ M ++ R) ++ [spare]) with ((L ++ M) ++ R ++ [spare]) by (by rewrite <- !app_assoc).
  rewrite move_right_spec, app_nil_r, insert_mid. by rewrite <- app_assoc.
Qed.
End update.

(** ** The container as a sorted multimap *)

Lemma zlen_fmap {A B} (f : A -> B) l : zlen (f <$> l) = zlen l.
Proof. unfold zlen. by rewrite length_fmap. Qed.

#[export] Hint Rewrite @zlen_fmap : zlen.

Lemma vals_app l k id : vals (l ++ k) id = vals l id ++ vals k id.
Proof. unfold vals. by rewrite filter_app, fmap_app. Qed.

Lemma vals_other l id : Forall (fun o => ID o <> id) l -> vals l id = [].
Proof. intros H. unfold vals. by rewrite filter_none. Qed.

Lemma vals_cons o l id : vals (o :: l) id = (if decide (ID o = id) then [Value o] else []) ++ vals l id.
Proof. unfold vals. rewrite filter_cons. by destruct (decide _). Qed.

Lemma vals_same_all l id : Forall (fun o => ID o = id) l -> vals l id = Value <$> l.
Proof. intros H. unfold vals. by rewrite filter_all. Qed.

Lemma sorted_app_3 L M R id :
  sorted_opts L -> sorted_opts M -> sorted_opts R ->
  Forall (fun o => ID o < id) L -> Forall (fun o => ID o = id) M -> Forall (fun o => id < ID o) R ->
  sorted_opts (L ++ M ++ R).
Proof.
  rewrite !Forall_forall. intros HL HM HR Hl Hm Hr.
  apply StronglySorted_app_2; [|done|apply StronglySorted_app_2; [|done..]].
  - intros a b Ha [Hb|Hb]%elem_of_app; apply Hl in Ha; [apply Hm in Hb|apply Hr in Hb]; lia.
  - intros a b Ha Hb. apply Hm in Ha. apply Hr in Hb. lia.
Qed.

Lemma sorted_same_id l id : Forall (fun o => ID o = id) l -> sorted_opts l.
Proof.
  induction 1 as [|o l Ho Hl IH]; constructor; [done|].
  eapply Forall_impl; [exact Hl|]. simpl. lia.
Qed.

(** The parts of a sorted container around one option number. *)
Lemma sorted_parts options id :
  sorted_opts options ->
  exists L M R, options = L ++ M ++ R /\
    Forall (fun o => ID o < id) L /\ Forall (fun o => ID o = id) M /\ Forall (fun o => id < ID o) R /\
    sorted_opts L /\ sorted_opts M /\ sorted_opts R /\
    vals options id = Value <$> M /\ zlen L = zlen (below id options).
Proof.
  intros Hs. exists (below id options), (same id options), (above id options).
  split; [by apply sorted_split|].
  split; [apply below_lt|]. split; [apply same_eq|]. split; [apply above_gt|].
  do 3 (split; [by apply sorted_filter|]). done.
Qed.

(** Replacing the middle part changes the values of that option number only. *)
Lemma vals_replace_middle L M M' R id id' :
  Forall (fun o => ID o < id) L -> Forall (fun o => ID o = id) M -> Forall (fun o => ID o = id) M' ->
  Forall (fun o => id < ID o) R ->
  vals (L ++ M' ++ R) id' = if decide (id' = id) then Value <$> M' else vals (L ++ M ++ R) id'.
Proof.
  intros HL HM HM' HR. rewrite !vals_app. case_decide as E.
  - subst id'. rewrite (vals_other L), (vals_other R), (vals_same_all M'), app_nil_r; [done..| |];
      eapply Forall_impl; eauto; simpl; lia.
  - rewrite (vals_other M), (vals_other M'); [done|..]; eapply Forall_impl; eauto; simpl; congruence.
Qed.

Lemma Find_vals options id :
  sorted_opts options ->
  Find options id =
    if decide (vals options id = []) then (-1, -1, Some ErrOptionNotFound)
    else (zlen (below id options), zlen (below id options) + zlen (vals options id), None).
Proof.
  intros Hs. destruct (sorted_parts options id Hs) as (L & M & R & E & HL & HM & HR & _ & _ & _ & Hv & Hb).
  rewrite Hv, <- Hb, E, (Find_split L M R) by done. rewrite zlen_fmap.
  case_decide as E1; case_decide as E2; try done.
  - by subst M.
  - by apply fmap_nil_inv in E2.
Qed.

Lemma range_vals options id :
  sorted_opts options ->
  options_range options (zlen (below id options)) (zlen (below id options) + zlen (vals options id))
    = same id options.
Proof.
  intros Hs. unfold options_range.
  replace (_ + _ - _) with (zlen (same id options)) by (unfold vals, same; rewrite zlen_fmap; lia).
  rewrite (sorted_split id options Hs) at 1. by rewrite slice_from_app, slice_to_app.
Qed.

Lemma first_vals options id v vs :
  sorted_opts options -> vals options id = v :: vs ->
  Value <$> zlookup options (zlen (below id options)) = Some v.
Proof.
  intros Hs Hv. rewrite (sorted_split id options Hs) at 1.
  rewrite zlookup_app_r by lia. rewrite Z.sub_diag. unfold vals in Hv. fold (same id options) in Hv.
  destruct (same id options) as [|o l]; simplify_eq/=. done.
Qed.

(** [Add] and [Set] on a sorted container as list updates, whatever the spare slot holds. *)
Lemma Add_vals spare options opt :
  sorted_opts options ->
  sorted_opts (Add_with spare options opt) /\
  forall id, vals (Add_with spare options opt) id =
    if decide (id = ID opt) then vals options id ++ [Value opt] else vals options id.
Proof.
  intros Hs. destruct (sorted_parts options (ID opt) Hs)
    as (L & M & R & E & HL & HM & HR & HsL & HsM & HsR & Hv & _).
  assert (Forall (fun o => ID o = ID opt) (M ++ [opt])) as HM' by (apply Forall_app; auto).
  rewrite E, Add_split by done.
  replace (L ++ M ++ opt :: R) with (L ++ (M ++ [opt]) ++ R) by (by rewrite <- app_assoc).
  split; [eapply sorted_app_3; eauto using sorted_same_id|]. intros id.
  rewrite (vals_replace_middle L M (M ++ [opt]) R (ID opt)) by done.
  case_decide as E2; [|done]. subst id. by rewrite <- E, Hv, fmap_app.
Qed.

Lemma Set_vals spare options opt :
  sorted_opts options ->
  sorted_opts (Set_with spare options opt) /\
  forall id, vals (Set_with spare options opt) id =
    if decide (id = ID opt) then [Value opt] else vals options id.
Proof.
  intros Hs. destruct (sorted_parts options (ID opt) Hs)
    as (L & M & R & E & HL & HM & HR & HsL & HsM & HsR & Hv & _).
  assert (Forall (fun o => ID o = ID opt) [opt]) as HM' by auto.
  rewrite E, Set_split by done. change (L ++ opt :: R) with (L ++ [opt] ++ R).
  split; [eapply sorted_app_3; eauto using sorted_same_id|]. intros id.
  by rewrite (vals_replace_middle L M [opt] R (ID opt)).
Qed.

Lemma Remove_vals options id :
  sorted_opts options ->
  sorted_opts (Remove options id) /\
  forall id', vals (Remove options id) id' = if decide (id' = id) then [] else vals options id'.
Proof.
  intros Hs. destruct (sorted_parts options id Hs)
    as (L & M & R & E & HL & HM & HR & HsL & HsM & HsR & Hv & _).
  pose proof (Remove_split L M R (mkOption id []) HL HM HR) as HR'. simpl in HR'.
  rewrite E, HR'. change (L ++ R) with (L ++ [] ++ R).
  split; [eapply sorted_app_3; eauto; constructor|]. intros id'.
  by rewrite (vals_replace_middle L M [] R id).
Qed.

Lemma GetBytes_vals options id :
  sorted_opts options ->
  GetBytes options id = match vals options id with [] => ([], Some ErrOptionNotFound) | v :: _ => (v, None) end.
Proof.
  intros Hs. unfold GetBytes. rewrite Find_vals by done. destruct (vals options id) as [|v vs] eqn:E; [done|].
  rewrite decide_False by done. cbn iota. by rewrite (first_vals _ _ v vs).
Qed.

Lemma GetUint32_vals options id :
  sorted_opts options ->
  GetUint32 options id =
    match vals options id with
    | [] => (0, Some ErrOptionNotFound)
    | v :: _ => let '(n, _, err) := DecodeUint32 v in (n, err)
    end.
Proof.
  intros Hs. unfold GetUint32. rewrite Find_vals by done. destruct (vals options id) as [|v vs] eqn:E; [done|].
  rewrite decide_False by done. cbn iota. by rewrite (first_vals _ _ v vs).
Qed.

Lemma HasOption_vals options id :
  sorted_opts options -> HasOption options id = bool_decide (vals options id <> []).
Proof.
  intros Hs. unfold HasOption. rewrite Find_vals by done. case_decide; case_bool_decide; done.
Qed.

Lemma GetStrings_vals options id r :
  sorted_opts options -> vals options id <> [] ->
  GetStrings options id r =
    if zlen r <? zlen (vals options id) then (r, (zlen (vals options id), Some ErrTooSmall))
    else (copy_into r (vals options id), (zlen (vals options id), None)).
Proof.
  intros Hs Hne. unfold GetStrings, GetAll. rewrite Find_vals by done. rewrite decide_False by done.
  rewrite Z.add_simpl_l. rewrite range_vals by done.
  assert (omap (fun o => Some (Value o)) (same id options) = vals options id) as ->; [|done].
  unfold vals. fold (same id options). induction (same id options) as [|o l IH]; [done|].
  simpl. by f_equal.
Qed.

(** ** Copying a container *)

Definition values_size (options : Options) : Z := zlen (concat (Value <$> options)).

Lemma values_size_cons o options : values_size (o :: options) = zlen (Value o) + values_size options.
Proof. unfold values_size. simpl. by rewrite zlen_app. Qed.

Lemma used_fold rest used :
  fold_left (fun used o => used + zlen (Value o)) rest used = used + values_size rest.
Proof.
  revert used. induction rest as [|o rest IH]; intros used; simpl.
  - unfold values_size. simpl. change (zlen (@nil Z)) with 0. lia.
  - rewrite IH, values_size_cons. lia.
Qed.

(** Adding an option that is not below the others appends it. *)
Lemma Add_last pre o spare :
  sorted_opts pre -> Forall (fun x => ID x <= ID o) pre -> Add_with spare pre o = pre ++ [o].
Proof.
  intros Hs Hle. rewrite (sorted_split (ID o) pre Hs).
  replace (above (ID o) pre) with (@nil Option).
  - rewrite Add_split by auto using below_lt, same_eq. by rewrite app_nil_r, app_assoc.
  - symmetry. apply filter_none. eapply Forall_impl; [exact Hle|]. simpl. lia.
Qed.

Lemma sorted_snoc pre o rest :
  sorted_opts (pre ++ o :: rest) ->
  sorted_opts pre /\ Forall (fun x => ID x <= ID o) pre /\ sorted_opts ((pre ++ [o]) ++ rest).
Proof.
  intros Hs. split; [|split].
  - by apply StronglySorted_app_1_l in Hs.
  - apply Forall_forall. intros x Hx. refine (StronglySorted_app_1_elem_of _ pre (o :: rest) _ _ Hs Hx _).
    set_solver.
  - by rewrite <- app_assoc.
Qed.

Lemma mkOption_eta o : mkOption (ID o) (Value o) = o.
Proof. by destruct o. Qed.

Lemma ResetOptionsTo_loop_spec options pre buf used rest :
  sorted_opts (pre ++ rest) ->
  snd (ResetOptionsTo_loop options pre buf used rest) =
    if values_size rest <=? zlen buf then (pre ++ rest, (used + values_size rest, None))
    else (options, (used + values_size rest, Some ErrTooSmall)).
Proof.
  revert pre buf used. induction rest as [|o rest IH]; intros pre buf used Hs.
  - unfold values_size. simpl. pose proof (zlen_nonneg buf). change (zlen (@nil Z)) with 0.
    destruct (Z.leb_spec 0 (zlen buf)); [|lia]. by rewrite app_nil_r, Z.add_0_r.
  - rewrite values_size_cons. cbn [ResetOptionsTo_loop].
    assert (0 <= values_size rest) by apply zlen_nonneg.
    destruct (Z.ltb_spec (zlen buf) (zlen (Value o))) as [Hlt|Hge].
    + destruct (Z.leb_spec (zlen (Value o) + values_size rest) (zlen buf)); [lia|].
      cbn [snd]. by rewrite used_fold, values_size_cons.
    + apply sorted_snoc in Hs as (Hpre & Hle & Hs).
      rewrite slice_to_copy_into, mkOption_eta by done. unfold Options_Add.
      rewrite Add_last by done.
      pose proof (IH (pre ++ [o]) (slice_from (copy_into buf (Value o)) (zlen (Value o)))
                    (used + zlen (Value o)) Hs) as IH'.
      destruct (ResetOptionsTo_loop _ _ _ _ _) as [tail r]. cbn [snd] in *. rewrite IH'.
      rewrite zlen_slice_from, zlen_copy_into
        by (rewrite zlen_copy_into; pose proof (zlen_nonneg (Value o)); lia).
      rewrite <- (app_assoc pre [o] rest). cbn [app].
      destruct (Z.leb_spec (values_size rest) (zlen buf - zlen (Value o)));
        destruct (Z.leb_spec (zlen (Value o) + values_size rest) (zlen buf)); try lia; by rewrite Z.add_assoc.
Qed.

Lemma ResetOptionsTo_spec options buf in_ :
  sorted_opts in_ ->
  snd (ResetOptionsTo options buf in_) =
    if values_size in_ <=? zlen buf then (in_, (values_size in_, None))
    else (options, (values_size in_, Some ErrTooSmall)).
Proof. intros Hs. unfold ResetOptionsTo. by rewrite ResetOptionsTo_loop_spec. Qed.

Lemma ResetOptionsTo_loop_length options opts buf used rest :
  zlen (fst (ResetOptionsTo_loop options opts buf used rest)) = zlen buf.
Proof.
  revert opts buf used. induction rest as [|o rest IH]; intros opts buf used; [done|].
  cbn [ResetOptionsTo_loop]. destruct (Z.ltb_spec (zlen buf) (zlen (Value o))); [done|].
  set (opts' := Options_Add _ _). set (buf' := slice_from _ _).
  pose proof (IH opts' buf' (used + zlen (Value o))) as IH'.
  destruct (ResetOptionsTo_loop _ _ _ _ _) as [tail r]. cbn [fst] in *.
  pose proof (zlen_nonneg (Value o)).
  rewrite zlen_app, IH'. unfold buf'. rewrite zlen_slice_to, zlen_slice_from by (rewrite zlen_copy_into; lia).
  rewrite zlen_copy_into. lia.
Qed.

Lemma ResetOptionsTo_length options buf in_ :
  zlen (fst (ResetOptionsTo options buf in_)) = zlen buf.
Proof. apply ResetOptionsTo_loop_length. Qed.

(** ** Path segments *)

(** The reference: the maximal non-empty runs of bytes without a slash. *)
Fixpoint segments_from (cur l : list byte) : list (list byte) :=
  let flush rest := match cur with [] => rest | _ => cur :: rest end in
  match l with
  | [] => flush []
  | c :: l => if c =? slash then flush (segments_from [] l) else segments_from (cur ++ [c]) l
  end.

Definition segments (path : list byte) : list (list byte) := segments_from [] path.

(** ["/" + s1 + "/" + s2 + ...]. *)
Definition join_path (segs : list (list byte)) : list byte := concat (cons slash <$> segs).

Definition no_slash (l : list byte) : Prop := Forall (fun b => b <> slash) l.

Lemma IndexByte_none l : no_slash l -> IndexByte l slash = -1.
Proof.
  induction 1 as [|b l Hb Hl IH]; [done|]. simpl. rewrite IH. by destruct (Z.eqb_spec b slash).
Qed.

Lemma IndexByte_app l r : no_slash l -> IndexByte (l ++ slash :: r) slash = zlen l.
Proof.
  induction 1 as [|b l Hb Hl IH]; [done|]. simpl. rewrite IH.
  destruct (Z.eqb_spec b slash); [done|]. pose proof (zlen_nonneg l). rewrite zlen_cons.
  destruct (Z.ltb_spec (zlen l) 0); lia.
Qed.

Lemma IndexByte_neg l : 0 <= IndexByte l slash \/ no_slash l.
Proof.
  induction l as [|b l [IH|IH]]; [right; constructor|left|].
  - simpl. destruct (b =? slash); [done|]. destruct (Z.ltb_spec (IndexByte l slash) 0); lia.
  - simpl. destruct (Z.eqb_spec b slash); [left; lia|right; by constructor].
Qed.

(** A non-empty byte string is a run without slashes, or one followed by a slash. *)
Lemma path_cases l : no_slash l \/ exists s r, l = s ++ slash :: r /\ no_slash s.
Proof.
  induction l as [|b l IH]; [left; constructor|].
  destruct (decide (b = slash)) as [->|Hb]; [right; exists [], l; repeat constructor|].
  destruct IH as [IH|(s & r & -> & Hs)]; [left; by constructor|].
  right. exists (b :: s), r. split; [done|by constructor].
Qed.

Lemma segments_from_no_slash cur s : no_slash s ->
  segments_from cur s = match cur ++ s with [] => [] | x => [x] end.
Proof.
  intros H. revert cur. induction H as [|b s Hb Hs IH]; intros cur; simpl.
  - rewrite app_nil_r. by destruct cur.
  - destruct (Z.eqb_spec b slash); [done|]. by rewrite IH, <- app_assoc.
Qed.

Lemma segments_from_app cur s r : no_slash s ->
  segments_from cur (s ++ slash :: r) =
    match cur ++ s with [] => segments r | x => x :: segments r end.
Proof.
  intros H. revert cur. induction H as [|b s Hb Hs IH]; intros cur; simpl.
  - rewrite app_nil_r. unfold segments. by destruct cur.
  - destruct (Z.eqb_spec b slash); [done|]. by rewrite IH, <- app_assoc.
Qed.

Lemma segments_slash r : segments (slash :: r) = segments r.
Proof. done. Qed.

Lemma segments_no_slash s : s <> [] -> no_slash s -> segments s = [s].
Proof. intros Hne H. unfold segments. rewrite segments_from_no_slash by done. by destruct s. Qed.

Lemma segments_app s r : s <> [] -> no_slash s -> segments (s ++ slash :: r) = s :: segments r.
Proof. intros Hne H. unfold segments at 1. rewrite segments_from_app by done. by destruct s. Qed.

(** Induction over a path the way the loops walk it. *)
Lemma path_ind (P : list byte -> Prop) :
  P [] -> (forall r, P r -> P (slash :: r)) ->
  (forall s, s <> [] -> no_slash s -> P s) ->
  (forall s r, s <> [] -> no_slash s -> P r -> P (s ++ slash :: r)) ->
  forall l, P l.
Proof.
  intros H0 H1 H2 H3 l. remember (length l) as n eqn:E. revert l E.
  induction n as [n IH] using lt_wf_ind. intros l E.
  destruct (path_cases l) as [Hl|(s & r & -> & Hs)].
  - destruct l; [done|]. apply H2; done.
  - assert (P r) as Hr by (eapply IH; [|reflexivity]; rewrite E, length_app; simpl; lia).
    destruct s as [|b s]; [by apply H1|]. by apply H3.
Qed.

Lemma segments_ok path : Forall (fun s => s <> [] /\ no_slash s) (segments path).
Proof.
  induction path as [|r IH|s Hne Hs|s r Hne Hs IH] using path_ind.
  - constructor.
  - by rewrite segments_slash.
  - rewrite segments_no_slash by done. auto.
  - rewrite segments_app by done. auto.
Qed.

Lemma segments_join segs :
  Forall (fun s => s <> [] /\ no_slash s) segs -> segments (join_path segs) = segs.
Proof.
  intros H. unfold join_path. induction H as [|s segs [Hne Hs] H IH]; [done|].
  cbn [fmap list_fmap concat app]. rewrite segments_slash.
  destruct segs as [|s2 segs]; [simpl; rewrite app_nil_r; by apply segments_no_slash|].
  cbn [fmap list_fmap concat app] in *. rewrite segments_app by done. f_equal.
  by rewrite segments_slash in IH.
Qed.

Definition segments_fit (path : list byte) : bool :=
  forallb (fun s => zlen s <=? maxPathValue) (segments path).

Lemma zlen_pos_ne {A} (l : list A) : l <> [] -> 0 < zlen l.
Proof. destruct l; [done|]. intros _. rewrite zlen_cons. pose proof (zlen_nonneg l). lia. Qed.

(** One round of either loop on a path that starts with a segment. *)
Lemma path_head s r :
  s <> [] -> no_slash s -> (r = [] \/ exists r', r = slash :: r') ->
  let i := IndexByte (s ++ r) slash in
  (zlen (s ++ r) =? 0) = false /\ (i =? 0) = false /\
  (if i <? 0 then zlen (s ++ r) else i) = zlen s.
Proof.
  intros Hne Hs Hr. pose proof (zlen_pos_ne s Hne). cbv zeta. rewrite zlen_app.
  pose proof (zlen_nonneg r).
  destruct (Z.eqb_spec (zlen s + zlen r) 0); [lia|]. split; [done|].
  destruct Hr as [->|[r' ->]].
  - rewrite app_nil_r, IndexByte_none by done. change (zlen (@nil Z)) with 0. split; [done|].
    change (-1 <? 0) with true. cbv iota. lia.
  - rewrite IndexByte_app by done. destruct (Z.eqb_spec (zlen s) 0), (Z.ltb_spec (zlen s) 0); lia.
Qed.

Lemma slice_from_segment (s r : list byte) : slice_from (s ++ slash :: r) (zlen s + 1) = r.
Proof.
  replace (s ++ slash :: r) with ((s ++ [slash]) ++ r) by (by rewrite <- app_assoc).
  apply slice_from_app'. by rewrite zlen_app.
Qed.

Lemma slice_from_beyond {A} (l : list A) n : zlen l <= n -> slice_from l n = [].
Proof. intros H. unfold slice_from. apply drop_ge. unfold zlen in H. lia. Qed.

Lemma length_ne {A} (l : list A) n : l <> [] -> (length l <= n)%nat -> exists m, n = S m.
Proof. destruct l, n; simpl; try done; try lia; eauto. Qed.

Lemma GetPathBufferSize_loop_spec fuel path size :
  (length path <= fuel)%nat ->
  GetPathBufferSize_loop fuel path size =
    if segments_fit path then (size + zlen (concat (segments path)), None)
    else (-1, Some ErrInvalidValueLength).
Proof.
  unfold segments_fit. revert fuel size.
  induction path as [|r IH|s Hne Hs|s r Hne Hs IH] using path_ind; intros fuel size Hf.
  - cbn. change (zlen (@nil Z)) with 0. rewrite Z.add_0_r. by destruct fuel.
  - destruct fuel as [|fuel]; [simpl in Hf; lia|]. rewrite segments_slash.
    cbn [GetPathBufferSize_loop]. rewrite zlen_cons. pose proof (zlen_nonneg r).
    destruct (Z.eqb_spec (1 + zlen r) 0); [lia|].
    change (IndexByte (slash :: r) slash =? 0) with true. cbv iota zeta.
    change (slice_from (slash :: r) 1) with r. apply IH. simpl in Hf. lia.
  - destruct (length_ne s fuel Hne Hf) as [m ->]. cbn [GetPathBufferSize_loop].
    destruct (path_head s [] Hne Hs (or_introl eq_refl)) as (E1 & E2 & E3).
    rewrite app_nil_r in E1, E2, E3. cbv zeta. rewrite E1, E2, E3, segments_no_slash by done.
    simpl. rewrite andb_true_r, app_nil_r. destruct (Z.leb_spec (zlen s) maxPathValue), (Z.ltb_spec maxPathValue (zlen s)); try lia.
    + rewrite slice_from_beyond by lia. by destruct m.
    + done.
  - rewrite length_app in Hf. simpl in Hf.
    destruct fuel as [|m]; [lia|]. cbn [GetPathBufferSize_loop].
    destruct (path_head s (slash :: r) Hne Hs (or_intror (ex_intro _ r eq_refl))) as (E1 & E2 & E3).
    cbv zeta. rewrite E1, E2, E3, segments_app, slice_from_segment by done.
    cbn [forallb concat]. destruct (Z.leb_spec (zlen s) maxPathValue), (Z.ltb_spec maxPathValue (zlen s)); try lia; [|done].
    rewrite IH by lia. cbn [andb]. rewrite zlen_app, Z.add_assoc. done.
Qed.

Definition add_segments (o : Options) (id : Z) (segs : list (list byte)) : Options :=
  fold_left (fun o s => Options_Add o (mkOption id s)) segs o.

Lemma add_segments_vals o id segs :
  sorted_opts o ->
  sorted_opts (add_segments o id segs) /\
  forall id', vals (add_segments o id segs) id' =
    if decide (id' = id) then vals o id' ++ segs else vals o id'.
Proof.
  unfold add_segments. revert o. induction segs as [|s segs IH]; intros o Hs; simpl.
  - split; [done|]. intros id'. rewrite app_nil_r. by case_decide.
  - destruct (Add_vals zeroOption o (mkOption id s) Hs) as [Hs' Hv].
    destruct (IH _ Hs') as [Hs2 Hv2]. split; [done|]. intros id'. rewrite Hv2. unfold Options_Add. rewrite Hv.
    simpl. case_decide; [|done]. by rewrite <- app_assoc.
Qed.

(** [AddString] into the rest of the buffer. *)
Lemma AddString_suffix o id buf s encoded :
  0 <= encoded -> encoded + zlen s <= zlen buf -> zlen s <= maxPathValue ->
  exists buf', zlen buf' = zlen buf /\
  on_suffix encoded (fun data => AddString o data id s) buf =
    (buf', (Options_Add o (mkOption id s), (zlen s, None))).
Proof.
  intros H0 Hb Hs. pose proof (zlen_nonneg s). unfold on_suffix, AddString, AddBytes.
  rewrite zlen_slice_from by lia.
  destruct (Z.ltb_spec (zlen buf - encoded) (zlen s)); [lia|].
  destruct (Z.ltb_spec maxPathValue (zlen s)); [lia|]. rewrite andb_false_r.
  rewrite slice_to_copy_into by (rewrite zlen_slice_from; lia).
  eexists. split; [|reflexivity]. rewrite zlen_app, zlen_copy_into, zlen_slice_to, zlen_slice_from by lia. lia.
Qed.

Lemma setPath_loop_spec fuel o id buf path encoded :
  (length path <= fuel)%nat -> segments_fit path = true ->
  0 <= encoded -> encoded + zlen (concat (segments path)) <= zlen buf ->
  snd (setPath_loop fuel o id buf path encoded) =
    (add_segments o id (segments path), (encoded + zlen (concat (segments path)), None)).
Proof.
  unfold segments_fit. revert fuel o buf encoded.
  induction path as [|r IH|s Hne Hs|s r Hne Hs IH] using path_ind; intros fuel o buf encoded Hf Hfit H0 Hb.
  - cbn. change (zlen (@nil Z)) with 0. rewrite Z.add_0_r. by destruct fuel.
  - destruct fuel as [|fuel]; [simpl in Hf; lia|]. rewrite segments_slash in *.
    cbn [setPath_loop]. rewrite zlen_cons. pose proof (zlen_nonneg r).
    destruct (Z.eqb_spec (1 + zlen r) 0); [lia|].
    change (IndexByte (slash :: r) slash =? 0) with true. cbv iota zeta.
    change (slice_from (slash :: r) 1) with r. apply IH; simpl in Hf; done || lia.
  - destruct (length_ne s fuel Hne Hf) as [m ->]. cbn [setPath_loop].
    destruct (path_head s [] Hne Hs (or_introl eq_refl)) as (E1 & E2 & E3).
    rewrite app_nil_r in E1, E2, E3. cbv zeta.
    rewrite segments_no_slash in * by done. simpl in Hfit, Hb |- *. rewrite app_nil_r in *.
    rewrite andb_true_r in Hfit. apply Z.leb_le in Hfit.
    rewrite E1, E2, E3, slice_to_all by lia.
    destruct (AddString_suffix o id buf s encoded H0 Hb Hfit) as (buf' & Hl & ->).
    rewrite slice_from_beyond by lia. by destruct m.
  - rewrite length_app in Hf. simpl in Hf.
    destruct fuel as [|m]; [lia|]. cbn [setPath_loop].
    destruct (path_head s (slash :: r) Hne Hs (or_intror (ex_intro _ r eq_refl))) as (E1 & E2 & E3).
    cbv zeta. rewrite segments_app in * by done. cbn [forallb concat] in *.
    apply andb_prop in Hfit as [Hfs%Z.leb_le Hfr]. rewrite zlen_app in Hb.
    pose proof (zlen_nonneg (concat (segments r))). pose proof (zlen_nonneg s).
    rewrite E1, E2, E3, slice_to_app.
    destruct (AddString_suffix o id buf s encoded H0) as (buf' & Hl & ->); [lia..|].
    rewrite slice_from_segment, IH by (done || lia). by rewrite zlen_app, Z.add_assoc.
Qed.

(** ** Reading a path back *)

Lemma path_needed_spec range needed :
  path_needed range needed =
    if forallb (fun o => IndexByte (Value o) slash <? 0) range
    then Ok (needed + zlen (join_path (Value <$> range))) else Err ErrInvalidEncoding.
Proof.
  revert needed. induction range as [|o range IH]; intros needed; cbn [path_needed forallb].
  - change (zlen (join_path (Value <$> []))) with 0. by rewrite Z.add_0_r.
  - destruct (Z.leb_spec 0 (IndexByte (Value o) slash)), (Z.ltb_spec (IndexByte (Value o) slash) 0); try lia; [done|].
    rewrite IH. cbn [andb]. destruct (forallb _ _); [|done]. f_equal.
    change (join_path (Value <$> o :: range)) with (slash :: Value o ++ join_path (Value <$> range)).
    rewrite zlen_cons, zlen_app. lia.
Qed.

Lemma path_fill_spec range buf :
  zlen (join_path (Value <$> range)) <= zlen buf ->
  path_fill range buf = join_path (Value <$> range) ++ slice_from buf (zlen (join_path (Value <$> range))).
Proof.
  revert buf. induction range as [|o range IH]; intros buf Hb; simpl; [by rewrite slice_from_0|].
  unfold join_path in *. cbn [fmap list_fmap concat] in *. set (J := concat (cons slash <$> (Value <$> range))) in *.
  rewrite <- app_comm_cons in *. rewrite zlen_cons, zlen_app in Hb.
  pose proof (zlen_nonneg (Value o)). pose proof (zlen_nonneg J).
  destruct buf as [|b buf]; [change (zlen (@nil Z)) with 0 in Hb; lia|]. rewrite zlen_cons in Hb.
  replace (copy_into (b :: buf) [slash]) with (slash :: buf)
    by (unfold copy_into; simpl; by rewrite take_nil, drop_0).
  change (slice_to (slash :: buf) 1) with [slash].
  change (slice_from (slash :: buf) 1) with buf.
  rewrite slice_to_copy_into by lia. rewrite IH.
  - cbn [app]. f_equal. rewrite <- app_assoc. f_equal. f_equal.
    unfold join_path. rewrite copy_into_fits by lia. rewrite slice_from_app.
    rewrite slice_from_slice_from by (unfold J in *; lia). fold J.
    rewrite zlen_cons, zlen_app. unfold slice_from.
    change (concat (cons slash <$> list_fmap Option (list Z) Value range)) with J.
    by replace (Z.to_nat (1 + (zlen (Value o) + zlen J))) with (S (Z.to_nat (zlen (Value o) + zlen J))) by lia.
  - rewrite zlen_slice_from, zlen_copy_into by (rewrite zlen_copy_into; lia). fold J. lia.
Qed.

Lemma forallb_no_slash segs :
  Forall no_slash segs -> forallb (fun s => IndexByte s slash <? 0) segs = true.
Proof.
  induction 1 as [|s segs Hs H IH]; [done|]. simpl. by rewrite IndexByte_none.
Qed.

Lemma Options_path_spec options buf id :
  sorted_opts options -> vals options id <> [] -> Forall no_slash (vals options id) ->
  let j := join_path (vals options id) in
  Options_path options buf id =
    if zlen buf <? zlen j then (buf, (zlen j, Some ErrTooSmall))
    else (j ++ slice_from buf (zlen j), (zlen j, None)).
Proof.
  intros Hs Hne Hns. cbv zeta. unfold Options_path. rewrite Find_vals by done. rewrite decide_False by done.
  rewrite range_vals, path_needed_spec by done. change (vals options id) with (Value <$> same id options) in *.
  replace (forallb (fun o => IndexByte (Value o) slash <? 0) (same id options)) with true.
  - rewrite Z.add_0_l. destruct (Z.ltb_spec (zlen buf) (zlen (join_path (Value <$> same id options)))); [done|].
    by rewrite path_fill_spec.
  - symmetry. apply forallb_no_slash in Hns. revert Hns. generalize (same id options).
    intros l. clear. induction l as [|o l IH]; [done|]. simpl.
    destruct (_ <? _); [|done]. exact IH.
Qed.

Lemma path_retry_spec options id :
  sorted_opts options -> vals options id <> [] -> Forall no_slash (vals options id) ->
  exists buf, path_retry options id =
    (join_path (vals options id) ++ buf, (zlen (join_path (vals options id)), None)).
Proof.
  intros Hs Hne Hns. unfold path_retry. rewrite Options_path_spec by done.
  set (j := join_path (vals options id)). pose proof (zlen_nonneg j).
  destruct (Z.ltb_spec (zlen (make_bytes 32)) (zlen j)) as [Hlt|Hge].
  - rewrite bool_decide_true by done. rewrite Options_path_spec by done. fold j.
    rewrite zlen_app, (zlen_make_bytes (zlen j)) by done.
    pose proof (zlen_nonneg (make_bytes 32)).
    destruct (Z.ltb_spec (zlen (make_bytes 32) + zlen j) (zlen j)); [lia|]. eauto.
  - rewrite bool_decide_false by done. eauto.
Qed.

(** A slash neither completes nor continues a multi-byte sequence. *)
Lemma utf8_Valid_slash l r :
  utf8_Valid (l ++ slash :: r) = utf8_Valid l && utf8_Valid r.
Proof.
  remember (length l) as n eqn:E. revert l E. induction n as [n IH] using lt_wf_ind. intros l ->.
  assert (forall k, (length k < length l)%nat -> utf8_Valid (k ++ slash :: r) = utf8_Valid k && utf8_Valid r) as IH'
    by (intros k Hk; eapply IH; eauto).
  assert (forall b, utf8_two b slash = false) as T by (intros; unfold utf8_two; by rewrite andb_false_r).
  assert (forall b c, utf8_three b c slash = false) as T3 by (intros; unfold utf8_three; by rewrite andb_false_r).
  assert (forall b c, utf8_three b slash c = false) as T3'.
  { intros b c. unfold utf8_three, between, slash. destruct (b =? 224), (b =? 237); by rewrite !andb_false_r. }
  assert (forall b c d, utf8_four b c d slash = false) as T4 by (intros; unfold utf8_four; by rewrite andb_false_r).
  assert (forall b c d, utf8_four b c slash d = false) as T4' by (intros; unfold utf8_four; by rewrite andb_false_r).
  assert (forall b c d, utf8_four b slash c d = false) as T4''.
  { intros b c d. unfold utf8_four, between, slash. destruct (b =? 240), (b =? 244); by rewrite !andb_false_r. }
  destruct l as [|b0 [|b1 [|b2 [|b3 l]]]].
  - done.
  - cbn [app utf8_Valid]. destruct (b0 <? 128); [done|]. rewrite T.
    destruct r as [|? [|]]; [done| |]; rewrite T3'; [done|]. by rewrite T4''.
  - cbn [app utf8_Valid]. destruct (b0 <? 128); [by apply (IH' [b1]); simpl; lia|].
    destruct (utf8_two b0 b1); [done|]. rewrite T3. destruct r; [done|]. by rewrite T4'.
  - cbn [app utf8_Valid]. destruct (b0 <? 128); [by apply (IH' [b1; b2]); simpl; lia|].
    destruct (utf8_two b0 b1); [by apply (IH' [b2]); simpl; lia|].
    destruct (utf8_three b0 b1 b2); [done|]. by rewrite T4.
  - change (utf8_Valid ((b0 :: b1 :: b2 :: b3 :: l) ++ slash :: r)) with
      (if b0 <? 128 then utf8_Valid ((b1 :: b2 :: b3 :: l) ++ slash :: r) else
       if utf8_two b0 b1 then utf8_Valid ((b2 :: b3 :: l) ++ slash :: r) else
       if utf8_three b0 b1 b2 then utf8_Valid ((b3 :: l) ++ slash :: r) else
       utf8_four b0 b1 b2 b3 && utf8_Valid (l ++ slash :: r)).
    rewrite !IH' by (simpl; lia).
    change (utf8_Valid (b0 :: b1 :: b2 :: b3 :: l)) with
      (if b0 <? 128 then utf8_Valid (b1 :: b2 :: b3 :: l) else
       if utf8_two b0 b1 then utf8_Valid (b2 :: b3 :: l) else
       if utf8_three b0 b1 b2 then utf8_Valid (b3 :: l) else
       utf8_four b0 b1 b2 b3 && utf8_Valid l).
    destruct (b0 <? 128); [done|]. destruct (utf8_two b0 b1); [done|].
    destruct (utf8_three b0 b1 b2); [done|]. by rewrite andb_assoc.
Qed.

Lemma utf8_Valid_join segs : utf8_Valid (join_path segs) = forallb utf8_Valid segs.
Proof.
  unfold join_path. induction segs as [|s segs IH]; [done|]. cbn [fmap list_fmap concat forallb].
  rewrite <- IH. clear IH. destruct segs as [|s2 segs]; cbn [fmap list_fmap concat].
  - rewrite app_nil_r. by rewrite andb_true_r.
  - change ((slash :: s) ++ (slash :: s2) ++ concat (cons slash <$> segs))
      with ([] ++ slash :: (s ++ slash :: (s2 ++ concat (cons slash <$> segs)))).
    rewrite utf8_Valid_slash, utf8_Valid_slash. cbn [utf8_Valid andb].
    change ((slash :: s2) ++ concat (cons slash <$> segs))
      with ([] ++ slash :: (s2 ++ concat (cons slash <$> segs))).
    by rewrite utf8_Valid_slash.
Qed.

Lemma utf8_Valid_segments path : utf8_Valid path = forallb utf8_Valid (segments path).
Proof.
  induction path as [|r IH|s Hne Hs|s r Hne Hs IH] using path_ind; [done|..].
  - rewrite segments_slash, <- IH. done.
  - rewrite segments_no_slash by done. simpl. by rewrite andb_true_r.
  - rewrite segments_app, utf8_Valid_slash by done. simpl. by rewrite IH.
Qed.

(** ** Properties of the container *)

(** The bisection of [findPosition] stays inside the slice and ends for every
    container; on a sorted one [Find] returns the index range of the option number
    (the options below it, then its values), and reports exactly the absent ones. *)
Theorem Find_correct (options : Options) (id : Z) (Hs : sorted_opts options) :
  is_Some (findPosition_run options id) /\
  Find options id =
    (if decide (vals options id = []) then (-1, -1, Some ErrOptionNotFound)
     else (zlen (below id options), zlen (below id options) + zlen (vals options id), None)) /\
  GetBytes options id =
    match vals options id with [] => ([], Some ErrOptionNotFound) | v :: _ => (v, None) end.
Proof. auto using findPosition_total, Find_vals, GetBytes_vals. Qed.

Definition sample : Options :=
  [mkOption ETag [1]; mkOption URIPath [97]; mkOption URIPath [98]; mkOption URIQuery [113]].

Lemma sample_sorted : sorted_opts sample.
Proof. repeat constructor; cbv; discriminate. Qed.

Lemma Find_correct_witness :
  Find sample URIPath = (1, 3, None) /\ GetBytes sample Observe = ([], Some ErrOptionNotFound).
Proof.
  split.
  - rewrite (proj1 (proj2 (Find_correct sample URIPath sample_sorted))). reflexivity.
  - rewrite (proj2 (proj2 (Find_correct sample Observe sample_sorted))). reflexivity.
Defined.

(** C31: the in-place updates implement a sorted multimap from option numbers to
    lists of values: they keep the container sorted; [Set] leaves the new value as
    the only one, [Add] appends it to the values of its number, [Remove] drops
    them; the values of the other numbers are untouched.  This holds whatever the
    slot exposed by growing the slice held before. *)
Theorem container_refines_multimap (options : Options) (opt : Option) (spare : Option)
    (Hs : sorted_opts options) :
  (sorted_opts (Set_with spare options opt) /\
   forall id, vals (Set_with spare options opt) id =
     if decide (id = ID opt) then [Value opt] else vals options id) /\
  (sorted_opts (Add_with spare options opt) /\
   forall id, vals (Add_with spare options opt) id =
     if decide (id = ID opt) then vals options id ++ [Value opt] else vals options id) /\
  (sorted_opts (Remove options (ID opt)) /\
   forall id, vals (Remove options (ID opt)) id =
     if decide (id = ID opt) then [] else vals options id).
Proof. auto using Set_vals, Add_vals, Remove_vals. Qed.

Lemma container_refines_multimap_witness :
  vals (Options_Set sample (mkOption URIPath [99])) URIPath = [[99]] /\
  vals (Options_Add sample (mkOption URIPath [99])) URIPath = [[97]; [98]; [99]] /\
  vals (Remove sample URIPath) URIQuery = [[113]].
Proof.
  destruct (container_refines_multimap sample (mkOption URIPath [99]) zeroOption sample_sorted)
    as ([_ HS] & [_ HA] & [_ HR]).
  split; [exact (HS URIPath)|]. split; [exact (HA URIPath)|exact (HR URIQuery)].
Defined.

(** [Clone] of a sorted container never fails (the second attempt has a buffer
    that is large enough) and yields the same options in the same order. *)
Theorem Clone_correct (options : Options) (Hs : sorted_opts options) :
  Clone options = (options, None).
Proof.
  unfold Clone. pose proof (ResetOptionsTo_spec [] (make_bytes 64) options Hs) as H1.
  destruct (ResetOptionsTo [] (make_bytes 64) options) as [b r]. cbn [snd] in H1. subst r.
  rewrite zlen_make_bytes by lia.
  destruct (Z.leb_spec (values_size options) 64) as [Hle|Hgt]; [done|].
  rewrite bool_decide_true by done.
  pose proof (ResetOptionsTo_spec [] (make_bytes 64 ++ make_bytes (values_size options - 64)) options Hs) as H2.
  destruct (ResetOptionsTo _ _ options) as [b2 r2]. cbn [snd] in H2. subst r2.
  rewrite zlen_app, !zlen_make_bytes by lia.
  by destruct (Z.leb_spec (values_size options) (64 + (values_size options - 64))); [|lia].
Qed.

Lemma Clone_correct_witness : Clone (sample ++ [mkOption Size1 (make_bytes 100)]) =
  (sample ++ [mkOption Size1 (make_bytes 100)], None).
Proof. apply Clone_correct. repeat constructor; cbv; discriminate. Defined.

(** Storing a path with [SetPath] succeeds when its segments have at most 255
    bytes and the buffer holds them; it replaces the [URIPath] values by the
    segments of the path (empty ones dropped), keeps every other option and the
    order; and [Path] then reads back the canonical form of the path. *)
Theorem SetPath_roundtrip (options : Options) (buf path : list byte)
    (Hs : sorted_opts options) (Hne : segments path <> []) (Hfit : segments_fit path = true)
    (Hbuf : zlen (concat (segments path)) <= zlen buf) (Hutf : utf8_Valid path = true) :
  exists o, snd (SetPath options buf path) = (o, (zlen (concat (segments path)), None)) /\
    sorted_opts o /\
    (forall id, vals o id = if decide (id = URIPath) then segments path else vals options id) /\
    Options_Path o = (join_path (segments path), None).
Proof.
  destruct (Remove_vals options URIPath Hs) as [HsR HvR].
  destruct (add_segments_vals (Remove options URIPath) URIPath (segments path) HsR) as [HsA HvA].
  assert (forall id, vals (add_segments (Remove options URIPath) URIPath (segments path)) id =
            if decide (id = URIPath) then segments path else vals options id) as Hv.
  { intros id. rewrite HvA, HvR. by case_decide. }
  exists (add_segments (Remove options URIPath) URIPath (segments path)).
  split; [|split; [done|split; [done|]]].
  - unfold SetPath, setPath. destruct path as [|c path]; [done|].
    set (p := if c =? slash then path else c :: path).
    assert (segments p = segments (c :: path)) as Ep.
    { unfold p. destruct (Z.eqb_spec c slash) as [->|]; [by rewrite segments_slash|done]. }
    unfold GetPathBufferSize. rewrite GetPathBufferSize_loop_spec by lia.
    unfold segments_fit in *. rewrite Ep, Hfit, Z.add_0_l.
    destruct (Z.ltb_spec (zlen buf) (zlen (concat (segments (c :: path))))); [lia|].
    rewrite setPath_loop_spec; rewrite ?Z.add_0_l; unfold segments_fit; rewrite ?Ep; done || lia.
  - destruct (path_retry_spec (add_segments (Remove options URIPath) URIPath (segments path)) URIPath)
      as [rest Hp]; [done|rewrite Hv; by rewrite decide_True|
        rewrite Hv, decide_True by done; eapply Forall_impl; [apply segments_ok|]; simpl; tauto|].
    unfold Options_Path. rewrite Hp, Hv, decide_True by done. rewrite slice_to_app.
    by rewrite utf8_Valid_join, <- utf8_Valid_segments, Hutf.
Qed.

(** ["/foo//b"]. *)
Definition sample_path : list byte := [47; 102; 111; 111; 47; 47; 98].

Lemma SetPath_roundtrip_witness :
  exists o, snd (SetPath sample (make_bytes 4) sample_path) = (o, (4, None)) /\
    Options_Path o = ([47; 102; 111; 111; 47; 98], None).
Proof.
  destruct (SetPath_roundtrip sample (make_bytes 4) sample_path sample_sorted) as (o & H1 & _ & _ & H2);
    [discriminate|reflexivity|cbv; discriminate|reflexivity|].
  exists o. split; [exact H1|exact H2].
Defined.
