(* ===== verification/OptionsCodec.v ===== *)
(** * Marshalling an option container (src/message/options.go: Marshal, Unmarshal)

    The wire form of a container is the concatenation of the delta-encoded options.
    [Marshal] writes it into a buffer that may be nil ([None]: only the size is
    computed); [Unmarshal] appends the options it reads to a slice of a given
    capacity. *)
From stdpp Require Import prelude list strings sorting.
From Stdlib Require Import ZArith Lia Sorted.
From S2P Require Import Prelude Cast Codes OptionCodec Options.
#[local] Open Scope Z_scope.

(** ** Marshal *)

(** The loop of [Marshal]: [mem] is the caller's memory, [live] tells whether the
    local [buf] is still non-nil. *)
Fixpoint Marshal_loop (options : Options) (mem : list byte) (live : bool) (length previousID : Z)
    : list byte * (Z * option error) :=
  match options with
  | [] => (mem, (length, if live then None else Some ErrTooSmall))
  | o :: options =>
      let live := if zlen mem <? length then false else live in
      let '(mem, (optionLength, err)) :=
        if live then on_suffix length (fun buf => Option_Marshal o (Some buf) previousID) mem
        else (mem, snd (Option_Marshal o None previousID)) in
      match after_write live err with
      | Err e => (mem, (-1, Some e))
      | Ok live => Marshal_loop options mem live (length + optionLength) (ID o)
      end
  end.

Definition Options_Marshal (options : Options) (buf : option (list byte)) : list byte * (Z * option error) :=
  Marshal_loop options (default [] buf) (if buf then true else false) 0 0.

(** ** Unmarshal *)

(** One round of the loop up to [option.Unmarshal]: the option read, its number, the
    rest of the data and the bytes consumed. *)
Definition Unmarshal_option (data : list byte) (prev : Z) (optionDefs : list (Z * OptionDef))
    : result (Option * Z * list byte * Z) :=
  match data with
  | [] => Err ErrOptionTruncated
  | b :: data =>
      let delta := Z.shiftr b 4 in
      let length := Z.land b 15 in
      if (delta =? ExtendOptionError) || (length =? ExtendOptionError)
      then Err ErrOptionUnexpectedExtendMarker else
      match parseExtOpt data delta with
      | Err e => Err e
      | Ok (proc1, delta) =>
          let data := slice_from data proc1 in
          match parseExtOpt data length with
          | Err e => Err e
          | Ok (proc2, length) =>
              let data := slice_from data proc2 in
              if zlen data <? length then Err ErrOptionTruncated else
              match SafeCastTo KUint16 (prev + delta) with
              | Some (oid, None) =>
                  let '(o, (proc, err)) :=
                    Option_Unmarshal zeroOption (slice_to data length) optionDefs oid in
                  match err with
                  | Some e => Err e
                  | None => Ok (o, oid, slice_from data proc, 1 + proc1 + proc2 + proc)
                  end
              | _ => Err ErrOptionNotFound
              end
          end
      end
  end.

(** The loop of [Unmarshal]; every round consumes a byte, so with at least the length
    of the data as fuel the case without fuel is the exit with no data left
    ([Unmarshal_loop_fuel]).  The slice keeps the options appended before an error. *)
Fixpoint Unmarshal_loop (fuel : nat) (data : list byte) (optionDefs : list (Z * OptionDef))
    (capacity : Z) (options : Options) (prev processed : Z) : Options * (Z * option error) :=
  match fuel with
  | O => (options, (processed, None))
  | S fuel =>
      match data with
      | [] => (options, (processed, None))
      | b :: _ =>
          if b =? 255 then
            if zlen data =? 1 then (options, (-1, Some ErrPayloadMarkerWithoutPayload))
            else (options, (processed + 1, None))
          else
            match Unmarshal_option data prev optionDefs with
            | Err e => (options, (-1, Some e))
            | Ok (o, oid, data, proc) =>
                if capacity =? zlen options then (options, (-1, Some ErrOptionsTooSmall))
                else
                  let options := if negb (ID o =? 0) then options ++ [o] else options in
                  Unmarshal_loop fuel data optionDefs capacity options oid (processed + proc)
            end
      end
  end.

Definition Options_Unmarshal (options : Options) (capacity : Z) (data : list byte)
    (optionDefs : list (Z * OptionDef)) : Options * (Z * option error) :=
  Unmarshal_loop (length data) data optionDefs capacity options 0 0.

(** ** The reference encoding *)

Fixpoint options_bytes (previousID : Z) (options : Options) : list byte :=
  match options with
  | [] => []
  | o :: options => option_bytes previousID o ++ options_bytes (ID o) options
  end.

Lemma Marshal_loop_dead options mem length previousID :
  Marshal_loop options mem false length previousID =
    (mem, (length + zlen (options_bytes previousID options), Some ErrTooSmall)).
Proof.
  revert length previousID. induction options as [|o options IH]; intros length previousID.
  - simpl. by rewrite zlen_nil, Z.add_0_r.
  - cbn [Marshal_loop options_bytes]. rewrite Option_Marshal_nil.
    replace (if zlen mem <? length then false else false) with false by (by destruct (_ <? _)).
    cbn [snd after_write]. rewrite IH, zlen_app. do 2 f_equal. lia.
Qed.

(** The loop over a buffer of which [pre] is already written. *)
Lemma Marshal_loop_live options pre buf previousID :
  wrote (Marshal_loop options (pre ++ buf) true (zlen pre) previousID)
    (pre ++ options_bytes previousID options) (pre ++ buf).
Proof.
  revert pre buf previousID. induction options as [|o options IH]; intros pre buf previousID.
  - pose proof (zlen_nonneg buf). exists (pre ++ buf). cbn [options_bytes Marshal_loop]. rewrite app_nil_r, zlen_app.
    destruct (Z.leb_spec (zlen pre) (zlen pre + zlen buf)); [|lia]. split; [done|]. split; [done|].
    by rewrite slice_from_app.
  - cbn [Marshal_loop options_bytes]. pose proof (zlen_nonneg buf).
    destruct (Z.ltb_spec (zlen (pre ++ buf)) (zlen pre)) as [Hl|_]; [rewrite zlen_app in Hl; lia|].
    unfold on_suffix. rewrite slice_from_app, slice_to_app.
    destruct (Option_Marshal_wrote o buf previousID) as (mem & -> & Hm & Hfit).
    set (e := option_bytes previousID o) in *. pose proof (zlen_nonneg e).
    pose proof (zlen_nonneg (options_bytes (ID o) options)).
    destruct (Z.leb_spec (zlen e) (zlen buf)) as [Hle|Hgt]; cbn [after_write].
    + rewrite Hfit by done. rewrite app_assoc, <- zlen_app.
      destruct (IH (pre ++ e) (slice_from buf (zlen e)) (ID o)) as (mem' & Hr & Hl & Hc). exists mem'.
      assert (zlen ((pre ++ e) ++ slice_from buf (zlen e)) = zlen (pre ++ buf)) as El
        by (rewrite !zlen_app, zlen_slice_from by lia; lia).
      rewrite Hr, El, <- app_assoc. split; [done|]. split; [by rewrite <- El|]. intros Hf.
      rewrite El, <- app_assoc in Hc. rewrite (Hc Hf). f_equal.
      rewrite (zlen_app pre). unfold slice_from. rewrite !drop_app_ge by (unfold zlen in *; rewrite ?length_app in *; lia).
      rewrite drop_drop. f_equal. rewrite zlen_app. unfold zlen in *. rewrite length_app in *. lia.
    + rewrite Marshal_loop_dead. exists (pre ++ mem). rewrite !zlen_app.
      destruct (Z.leb_spec (zlen pre + (zlen e + zlen (options_bytes (ID o) options))) (zlen pre + zlen buf)); [lia|].
      split; [do 2 f_equal; lia|]. split; lia.
Qed.

(** ** Reading one option *)

Lemma SafeCastTo_uint16 z : 0 <= z <= 65535 -> SafeCastTo KUint16 z = Some (z, None).
Proof. intros. apply SafeCastTo_in_range; [done|]. vm_compute min_value. vm_compute max_value. lia. Qed.

Lemma Option_Unmarshal_proc o data defs oid :
  snd (Option_Unmarshal o data defs oid) = (zlen data, None).
Proof.
  unfold Option_Unmarshal, Option_UnmarshalValue. destruct (table_lookup defs oid); [|done].
  case_bool_decide; [done|]. by destruct (_ && _).
Qed.

(** The decoder keeps this option (it is not skipped by its definition). *)
Definition accepted (defs : list (Z * OptionDef)) (o : Option) : Prop :=
  fst (Option_Unmarshal zeroOption (Value o) defs (ID o)) = o.

(** What the option codec can carry: a 16-bit number above 0, values up to 65804 bytes. *)
Definition encodable (o : Option) : Prop := 0 < ID o <= 65535 /\ zlen (Value o) <= 65804.

Lemma Unmarshal_option_bytes previousID o rest defs :
  0 <= previousID <= ID o -> encodable o -> accepted defs o ->
  Unmarshal_option (option_bytes previousID o ++ rest) previousID defs =
    Ok (o, ID o, rest, zlen (option_bytes previousID o)) /\
  exists b l, option_bytes previousID o = b :: l /\ b <> 255.
Proof.
  intros Hp [Hid Hv] Hacc. pose proof (zlen_nonneg (Value o)).
  unfold option_bytes, header_bytes.
  pose proof (parseExtOpt_ext_bytes (ID o - previousID)) as P1.
  pose proof (parseExtOpt_ext_bytes (zlen (Value o))) as P2.
  pose proof (extendOpt_nibble (ID o - previousID) ltac:(lia)) as N1.
  pose proof (extendOpt_nibble (zlen (Value o)) ltac:(lia)) as N2.
  destruct (extendOpt (ID o - previousID)) as [d dx], (extendOpt (zlen (Value o))) as [l lx]. cbn [fst] in *.
  destruct (nibbles_split d l) as (Hb & Hd & Hl); [lia..|].
  set (b := Z.lor _ _) in *. split.
  - unfold Unmarshal_option. rewrite <- app_comm_cons. cbn [app]. rewrite Hd, Hl.
    unfold ExtendOptionError. destruct (Z.eqb_spec d 15), (Z.eqb_spec l 15); try lia. cbn [orb].
    rewrite <- !app_assoc, P1 by lia. rewrite slice_from_app, P2 by lia. rewrite slice_from_app, zlen_app.
    pose proof (zlen_nonneg rest). destruct (Z.ltb_spec (zlen (Value o) + zlen rest) (zlen (Value o))); [lia|].
    replace (previousID + (ID o - previousID)) with (ID o) by lia.
    rewrite SafeCastTo_uint16 by lia. rewrite slice_to_app.
    pose proof (Option_Unmarshal_proc zeroOption (Value o) defs (ID o)) as Hproc.
    unfold accepted in Hacc. destruct (Option_Unmarshal _ _ _ _) as [o' [proc err]]. cbn [fst snd] in *.
    simplify_eq. rewrite slice_from_app. do 2 f_equal.
    rewrite !zlen_cons, !zlen_app. lia.
  - exists b, ((ext_bytes d dx ++ ext_bytes l lx) ++ Value o). split; [done|]. intros E.
    rewrite E in Hd. change (Z.shiftr 255 4) with 15 in Hd. lia.
Qed.

Lemma parseExtOpt_bounds data x p y :
  bytes_ok data -> 0 <= x <= 15 -> parseExtOpt data x = Ok (p, y) ->
  0 <= p <= zlen data /\ 0 <= y <= 65804.
Proof.
  intros Hd Hx. unfold parseExtOpt, ExtendOptionByteAddend, ExtendOptionWordAddend.
  pose proof (zlen_nonneg data). destruct (x =? ExtendOptionByteCode).
  - destruct data as [|c data]; [done|]. intros [= <- <-]. apply Forall_cons in Hd as [[? ?] _].
    rewrite zlen_cons in *. pose proof (zlen_nonneg data). lia.
  - destruct (x =? ExtendOptionWordCode); [|intros [= <- <-]; lia].
    destruct (Z.ltb_spec (zlen data) 2); [done|]. intros [= <- <-].
    pose proof (be_combine_bound (slice_to data 2) (Forall_take _ _ _ Hd)) as Hc.
    rewrite zlen_slice_to in Hc by lia. change (2 ^ (8 * 2)) with 65536 in Hc. lia.
Qed.

Lemma Option_Unmarshal_value data defs oid o r :
  Option_Unmarshal zeroOption data defs oid = (o, r) -> o = mkOption oid data \/ o = zeroOption.
Proof.
  unfold Option_Unmarshal, Option_UnmarshalValue.
  destruct (table_lookup defs oid); [|intros [= <- <-]; by left].
  case_bool_decide; [intros [= <- <-]; by right|].
  destruct (_ && _); intros [= <- <-]; [by right|by left].
Qed.

Lemma byte_nibbles b : is_byte b -> 0 <= Z.shiftr b 4 <= 15 /\ 0 <= Z.land b 15 <= 15.
Proof.
  intros [H1 H2]. rewrite Z.shiftr_div_pow2 by lia. change 15 with (Z.ones 4) at 2 3.
  rewrite Z.land_ones by lia. change (Z.ones 4) with 15. change (2 ^ 4) with 16. div_lia.
Qed.

(** Inversion: what a successful round says about the input. *)
Lemma Unmarshal_option_ok data prev defs o oid rest proc :
  bytes_ok data -> 0 <= prev <= 65535 ->
  Unmarshal_option data prev defs = Ok (o, oid, rest, proc) ->
  prev <= oid <= 65535 /\ (ID o = oid \/ ID o = 0) /\ (ID o <> 0 -> accepted defs o) /\
  bytes_ok (Value o) /\ zlen (Value o) <= 65804 /\
  rest = slice_from data proc /\ 1 <= proc <= zlen data.
Proof.
  intros Hb Hp. unfold Unmarshal_option. destruct data as [|b data]; [done|].
  apply Forall_cons in Hb as [Hb Hdata]. apply byte_nibbles in Hb as [Hn1 Hn2].
  destruct (_ || _); [done|].
  destruct (parseExtOpt data (Z.shiftr b 4)) as [[p1 delta]|] eqn:E1; [|done].
  destruct (parseExtOpt_bounds _ _ _ _ Hdata Hn1 E1) as [Hp1 Hdelta].
  assert (bytes_ok (slice_from data p1)) as Hdata1 by (by apply Forall_drop).
  destruct (parseExtOpt (slice_from data p1) (Z.land b 15)) as [[p2 len]|] eqn:E2; [|done].
  destruct (parseExtOpt_bounds _ _ _ _ Hdata1 Hn2 E2) as [Hp2 Hlen].
  rewrite zlen_slice_from in Hp2 by lia. rewrite slice_from_slice_from by lia.
  destruct (Z.ltb_spec (zlen (slice_from data (p1 + p2))) len) as [|Hfit]; [done|].
  rewrite zlen_slice_from in Hfit by lia.
  destruct (SafeCastTo KUint16 (prev + delta)) as [[v [e|]]|] eqn:E3; [done| |done].
  apply SafeCastTo_ok in E3 as [-> E3]; [|lia]. change (max_value KUint16) with 65535 in E3.
  set (val := slice_to (slice_from data (p1 + p2)) len).
  assert (zlen val = len) as Hval by (unfold val; rewrite zlen_slice_to; rewrite ?zlen_slice_from; lia).
  pose proof (Option_Unmarshal_proc zeroOption val defs (prev + delta)) as Hproc.
  destruct (Option_Unmarshal zeroOption val defs (prev + delta)) as [o' [pr er]] eqn:EU.
  cbn [snd] in Hproc. injection Hproc as -> ->. intros [= <- <- <- <-]. rewrite zlen_cons, Hval.
  split; [lia|].
  assert (bytes_ok val) by (by apply Forall_take, Forall_drop).
  pose proof EU as EU'. apply Option_Unmarshal_value in EU as [-> | -> ]; cbn [ID Value].
  - rewrite Hval. split; [by left|]. split; [intros _; unfold accepted; cbn [ID Value]; by rewrite EU'|]. split; [done|]. split; [lia|]. rewrite slice_from_slice_from by lia. split; [|lia].
    unfold slice_from. by replace (Z.to_nat (1 + p1 + p2 + len)) with (S (Z.to_nat (p1 + p2 + len))) by lia.
  - split; [by right|]. split; [done|]. split; [constructor|]. split; [vm_compute; discriminate|].
    rewrite slice_from_slice_from by lia. split; [|lia].
    unfold slice_from. by replace (Z.to_nat (1 + p1 + p2 + len)) with (S (Z.to_nat (p1 + p2 + len))) by lia.
Qed.

(** ** The decoding loop *)

Lemma slice_from_shorter (data : list byte) proc fuel :
  (length data <= S fuel)%nat -> 1 <= proc <= zlen data -> (length (slice_from data proc) <= fuel)%nat.
Proof. intros. unfold slice_from. rewrite length_drop. unfold zlen in *. lia. Qed.

Lemma Unmarshal_loop_fuel fuel data defs capacity options prev processed :
  (length data <= fuel)%nat -> bytes_ok data -> 0 <= prev <= 65535 ->
  Unmarshal_loop fuel data defs capacity options prev processed =
  Unmarshal_loop (length data) data defs capacity options prev processed.
Proof.
  intros Hf Hb Hp. remember (length data) as n eqn:En.
  assert (length data <= n)%nat as Hn by lia. clear En.
  revert fuel n data options prev processed Hf Hn Hb Hp.
  induction fuel as [|fuel IH]; intros n data options prev processed Hf Hn Hb Hp.
  - by replace n with 0%nat by lia.
  - destruct data as [|b data']; [by destruct n|]. destruct n as [|n]; [simpl in Hn; lia|].
    cbn [Unmarshal_loop]. destruct (b =? 255); [done|].
    destruct (Unmarshal_option (b :: data') prev defs) as [[[[o oid] rest] proc]|e] eqn:E; [|done].
    destruct (capacity =? zlen options); [done|].
    apply Unmarshal_option_ok in E as (Hoid & _ & _ & _ & _ & -> & Hproc); [|done..].
    apply IH; [lia|by apply slice_from_shorter|by apply Forall_drop|lia].
Qed.

Definition payload_tail (tail : list byte) : Prop := tail = [] \/ exists p, tail = 255 :: p /\ p <> [].

(** The number of bytes of the tail that belong to the options: the payload marker. *)
Definition marker (tail : list byte) : Z := match tail with [] => 0 | _ => 1 end.

Lemma Unmarshal_loop_options_bytes fuel options tail defs capacity pre prev processed :
  (length (options_bytes prev options ++ tail) <= fuel)%nat ->
  0 <= prev -> Forall (fun o => prev <= ID o) options -> sorted_opts options ->
  Forall encodable options -> Forall (accepted defs) options -> payload_tail tail ->
  zlen pre + zlen options <= capacity ->
  Unmarshal_loop fuel (options_bytes prev options ++ tail) defs capacity pre prev processed =
    (pre ++ options, (processed + zlen (options_bytes prev options) + marker tail, None)).
Proof.
  revert fuel pre prev processed.
  induction options as [|o options IH]; intros fuel pre prev processed Hf Hprev Hge Hs Henc Hacc Ht Hcap.
  - cbn [options_bytes app] in *. rewrite zlen_nil, app_nil_r, Z.add_0_r.
    destruct Ht as [->|(p & -> & Hne)]; [simpl; rewrite Z.add_0_r; by destruct fuel|].
    destruct fuel as [|fuel]; [simpl in Hf; lia|]. cbn [Unmarshal_loop]. change (255 =? 255) with true. cbv iota.
    apply zlen_pos_ne in Hne. rewrite zlen_cons. by destruct (Z.eqb_spec (1 + zlen p) 1); [lia|].
  - apply Forall_cons in Hge as [Hge _]. apply Forall_cons in Henc as [He Henc].
    apply Forall_cons in Hacc as [Ha Hacc]. apply StronglySorted_inv in Hs as [Hs Hall].
    cbn [options_bytes]. rewrite <- app_assoc.
    destruct (Unmarshal_option_bytes prev o (options_bytes (ID o) options ++ tail) defs)
      as [Hone (b & l & Hbl & Hb)]; [lia|done..|].
    cbn [options_bytes] in Hf. rewrite !length_app in Hf.
    pose proof (option_bytes_pos prev o) as Hpos. unfold zlen in Hpos.
    destruct fuel as [|fuel]; [lia|]. cbn [Unmarshal_loop].
    rewrite Hbl. rewrite <- app_comm_cons. destruct (Z.eqb_spec b 255); [done|].
    rewrite app_comm_cons, <- Hbl, Hone. rewrite zlen_cons in Hcap. pose proof (zlen_nonneg options).
    destruct (Z.eqb_spec capacity (zlen pre)); [lia|].
    destruct He as [Hid _]. destruct (Z.eqb_spec (ID o) 0); [lia|]. cbn [negb].
    rewrite IH; try done.
    + rewrite <- app_assoc. f_equal. f_equal. rewrite zlen_app. lia.
    + rewrite length_app. unfold zlen in *. lia.
    + lia.
    + rewrite zlen_app. change (zlen [o]) with 1. lia.
Qed.

(** With too little capacity the loop stops when the slice is full. *)
Lemma Unmarshal_loop_options_small fuel options tail defs capacity pre prev processed :
  (length (options_bytes prev options ++ tail) <= fuel)%nat ->
  0 <= prev -> Forall (fun o => prev <= ID o) options -> sorted_opts options ->
  Forall encodable options -> Forall (accepted defs) options ->
  zlen pre <= capacity < zlen pre + zlen options ->
  exists new, Unmarshal_loop fuel (options_bytes prev options ++ tail) defs capacity pre prev processed =
    (pre ++ new, (-1, Some ErrOptionsTooSmall)).
Proof.
  revert fuel pre prev processed.
  induction options as [|o options IH]; intros fuel pre prev processed Hf Hprev Hge Hs Henc Hacc Hcap.
  - change (zlen (@nil Option)) with 0 in Hcap. lia.
  - apply Forall_cons in Hge as [Hge _]. apply Forall_cons in Henc as [He Henc].
    apply Forall_cons in Hacc as [Ha Hacc]. apply StronglySorted_inv in Hs as [Hs Hall].
    cbn [options_bytes] in *. rewrite <- app_assoc.
    destruct (Unmarshal_option_bytes prev o (options_bytes (ID o) options ++ tail) defs)
      as [Hone (b & l & Hbl & Hb)]; [lia|done..|].
    rewrite !length_app in Hf. pose proof (option_bytes_pos prev o) as Hpos. unfold zlen in Hpos.
    destruct fuel as [|fuel]; [lia|]. cbn [Unmarshal_loop].
    rewrite Hbl. rewrite <- app_comm_cons. destruct (Z.eqb_spec b 255); [done|].
    rewrite app_comm_cons, <- Hbl, Hone.
    destruct (Z.eqb_spec capacity (zlen pre)); [exists []; by rewrite app_nil_r|].
    destruct He as [Hid _]. destruct (Z.eqb_spec (ID o) 0); [lia|]. cbn [negb].
    rewrite zlen_cons in Hcap.
    destruct (IH fuel (pre ++ [o]) (ID o) (processed + zlen (option_bytes prev o))) as [new ->]; try done.
    + rewrite length_app. unfold zlen in *. lia.
    + lia.
    + rewrite zlen_app. change (zlen [o]) with 1. lia.
    + exists (o :: new). by rewrite <- app_assoc.
Qed.

(** What the decoder guarantees about the options it appended to [pre]. *)
Lemma Unmarshal_loop_sound fuel data defs capacity pre prev processed options n :
  (length data <= fuel)%nat -> bytes_ok data -> 0 <= prev <= 65535 ->
  sorted_opts pre -> Forall (fun o => ID o <= prev) pre -> zlen pre <= capacity ->
  Unmarshal_loop fuel data defs capacity pre prev processed = (options, (n, None)) ->
  exists new, options = pre ++ new /\ sorted_opts options /\ zlen options <= capacity /\
    Forall encodable new /\ Forall (accepted defs) new /\ Forall (fun o => bytes_ok (Value o)) new /\
    0 <= n - processed <= zlen data /\
    (n - processed = zlen data \/
     (n - processed < zlen data /\ zlookup data (n - processed - 1) = Some 255)).
Proof.
  revert data pre prev processed.
  induction fuel as [|fuel IH]; intros data pre prev processed Hf Hb Hprev Hs Hle Hcap.
  - destruct data; [|simpl in Hf; lia]. intros [= <- <-]. exists []. rewrite app_nil_r, Z.sub_diag.
    change (zlen (@nil Z)) with 0. split_and!; auto; lia.
  - destruct data as [|b data].
    + intros [= <- <-]. exists []. rewrite app_nil_r, Z.sub_diag. change (zlen (@nil Z)) with 0.
      split_and!; auto; lia.
    + cbn [Unmarshal_loop]. destruct (Z.eqb_spec b 255) as [->|Hb255].
      * pose proof (zlen_nonneg data). rewrite zlen_cons. destruct (Z.eqb_spec (1 + zlen data) 1); [done|].
        intros [= <- <-]. exists []. rewrite app_nil_r, Z.add_simpl_l.
        split_and!; auto; try lia. right. split; [lia|done].
      * destruct (Unmarshal_option (b :: data) prev defs) as [[[[o oid] rest] proc]|e] eqn:E; [|done].
        destruct (Z.eqb_spec capacity (zlen pre)); [done|].
        apply Unmarshal_option_ok in E as (Hoid & Hido & Hao & Hbo & Hlo & -> & Hproc); [|done..].
        intros Hloop.
        assert (forall k, 0 <= k < zlen (slice_from (b :: data) proc) ->
                  zlookup (slice_from (b :: data) proc) k = zlookup (b :: data) (proc + k)) as Hlk.
        { intros k Hk. unfold zlookup, slice_from. destruct (Z.ltb_spec k 0), (Z.ltb_spec (proc + k) 0); try lia.
          rewrite lookup_drop. f_equal. lia. }
        apply IH in Hloop; cycle 1.
        -- by apply slice_from_shorter.
        -- by apply Forall_drop.
        -- lia.
        -- destruct (Z.eqb_spec (ID o) 0); cbn [negb]; [done|]. apply StronglySorted_app_2; [|done|repeat constructor].
           intros x1 x2 Hx1 ->%list_elem_of_singleton. rewrite Forall_forall in Hle. apply Hle in Hx1. simpl.
           destruct Hido; lia.
        -- assert (Forall (fun o => ID o <= oid) pre) by (eapply Forall_impl; [exact Hle|]; simpl; lia).
           destruct (negb (ID o =? 0)); [|done]. apply Forall_app. split; [done|]. constructor; [|done]. lia.
        -- destruct (negb (ID o =? 0)); [|done]. rewrite zlen_app. change (zlen [o]) with 1. lia.
        -- destruct Hloop as (new & -> & Hso & Hco & Henc & Hacc & Hby & Hn & Hlast).
           rewrite zlen_slice_from in Hn, Hlast by lia.
           assert (n - processed = zlen (b :: data) \/ n - processed < zlen (b :: data) /\
                   zlookup (b :: data) (n - processed - 1) = Some 255) as Hlast'.
           { destruct Hlast as [Hlast|[Hl Hlk2]]; [left; lia|right]. split; [lia|].
             assert (0 <= n - (processed + proc) - 1) as Hpos0.
             { apply zlookup_some_range in Hlk2. lia. }
             rewrite Hlk in Hlk2 by (rewrite zlen_slice_from; lia). by replace (n - processed - 1) with (proc + (n - (processed + proc) - 1)) by lia. }
           destruct (Z.eqb_spec (ID o) 0) as [E0|E0]; cbn [negb] in *.
           ++ exists new. split_and!; auto; lia.
           ++ exists (o :: new). rewrite <- app_assoc. split; [done|]. rewrite <- app_assoc in Hso, Hco.
              split_and!; auto; try lia. constructor; [|done]. unfold encodable. lia.
Qed.

Lemma parseExtOpt_error data x e : parseExtOpt data x = Err e -> e = ErrOptionTruncated.
Proof. unfold parseExtOpt. intros H. repeat case_match; congruence. Qed.

Lemma Unmarshal_option_error data prev defs e :
  Unmarshal_option data prev defs = Err e -> e <> ErrOptionsTooSmall.
Proof.
  unfold Unmarshal_option. destruct data as [|b data]; [by intros [= <-]|].
  destruct (_ || _); [by intros [= <-]|].
  destruct (parseExtOpt data _) as [[p1 delta]|e1] eqn:E1;
    [|intros [= <-]; by apply parseExtOpt_error in E1 as ->].
  destruct (parseExtOpt (slice_from data p1) _) as [[p2 len]|e2] eqn:E2;
    [|intros [= <-]; by apply parseExtOpt_error in E2 as ->].
  destruct (_ <? _); [by intros [= <-]|].
  destruct (SafeCastTo _ _) as [[v [e3|]]|]; [by intros [= <-]| |by intros [= <-]].
  set (val := slice_to _ _). pose proof (Option_Unmarshal_proc zeroOption val defs v) as Hproc.
  destruct (Option_Unmarshal zeroOption val defs v) as [o' [pr er]]. cbn [snd] in Hproc. by simplify_eq.
Qed.

(** [ErrOptionsTooSmall] is only reported with a full slice. *)
Lemma Unmarshal_loop_full fuel data defs capacity pre prev processed options n :
  zlen pre <= capacity ->
  Unmarshal_loop fuel data defs capacity pre prev processed = (options, (n, Some ErrOptionsTooSmall)) ->
  zlen options = capacity.
Proof.
  revert data pre prev processed. induction fuel as [|fuel IH]; intros data pre prev processed Hc; [done|].
  destruct data as [|b data]; [done|]. cbn [Unmarshal_loop].
  destruct (b =? 255); [by destruct (zlen (b :: data) =? 1)|].
  destruct (Unmarshal_option (b :: data) prev defs) as [[[[o oid] rest] proc]|e] eqn:E.
  - destruct (Z.eqb_spec capacity (zlen pre)) as [->|Hne]; [by intros [= <- <-]|].
    apply IH. destruct (negb (ID o =? 0)); [|lia]. rewrite zlen_app. change (zlen [o]) with 1. lia.
  - intros [= _ _ ->]. by apply Unmarshal_option_error in E.
Qed.

(** Running out of capacity: only with a full slice, and never with enough room. *)
Lemma Unmarshal_loop_too_small fuel data defs capacity pre prev processed options n :
  (length data <= fuel)%nat -> bytes_ok data -> 0 <= prev <= 65535 ->
  Unmarshal_loop fuel data defs capacity pre prev processed = (options, (n, Some ErrOptionsTooSmall)) ->
  zlen options = capacity /\ capacity < zlen pre + zlen data.
Proof.
  revert data pre prev processed.
  induction fuel as [|fuel IH]; intros data pre prev processed Hf Hb Hprev; [done|].
  destruct data as [|b data]; [done|]. cbn [Unmarshal_loop].
  destruct (b =? 255); [by destruct (zlen (b :: data) =? 1)|].
  destruct (Unmarshal_option (b :: data) prev defs) as [[[[o oid] rest] proc]|e] eqn:E.
  - destruct (Z.eqb_spec capacity (zlen pre)) as [->|Hne].
    + intros [= <- <-]. rewrite zlen_cons. pose proof (zlen_nonneg data). lia.
    + apply Unmarshal_option_ok in E as (Hoid & _ & _ & _ & _ & -> & Hproc); [|done..].
      intros [Hl Hc]%IH; [|by apply slice_from_shorter|by apply Forall_drop|lia].
      split; [done|]. rewrite zlen_slice_from in Hc by lia.
      destruct (negb (ID o =? 0)); [|lia]. rewrite zlen_app in Hc. change (zlen [o]) with 1 in Hc. lia.
  - intros [= _ _ ->]. by apply Unmarshal_option_error in E.
Qed.

(** ** Properties *)

(** [Options.Marshal] is equivalent to the reference encoding: into a buffer
    that can hold it, it writes exactly those bytes and keeps the rest; with a
    shorter buffer, or nil, it reports the exact size with [ErrTooSmall]. *)
Theorem Options_Marshal_correct (options : Options) :
  let e := options_bytes 0 options in
  Options_Marshal options None = ([], (zlen e, Some ErrTooSmall)) /\
  forall buf, exists mem,
    Options_Marshal options (Some buf) =
      (mem, (zlen e, if zlen e <=? zlen buf then None else Some ErrTooSmall)) /\
    zlen mem = zlen buf /\
    (zlen e <= zlen buf -> mem = e ++ slice_from buf (zlen e)).
Proof.
  cbv zeta. split; [apply Marshal_loop_dead|]. intros buf. exact (Marshal_loop_live options [] buf 0).
Qed.

(** Decoding what [Marshal] wrote, followed by nothing or by a payload marker
    and a payload, yields the options again and consumes exactly the options and
    the marker, for every sorted container of encodable options and every slice with
    enough capacity. *)
Theorem Options_codec_roundtrip (options : Options) (tail : list byte)
    (defs : list (Z * OptionDef)) (capacity : Z)
    (Hs : sorted_opts options) (He : Forall encodable options) (Ha : Forall (accepted defs) options)
    (Ht : payload_tail tail) (Hc : zlen options <= capacity) :
  let '(mem, (n, err)) := Options_Marshal options (Some (make_bytes (zlen (options_bytes 0 options)))) in
  err = None /\ mem = options_bytes 0 options /\
  Options_Unmarshal [] capacity (mem ++ tail) defs = (options, (n + marker tail, None)).
Proof.
  pose proof (zlen_nonneg (options_bytes 0 options)) as Hl.
  destruct (Marshal_loop_live options [] (make_bytes (zlen (options_bytes 0 options))) 0) as (mem & Hm & Hlen & Hfit).
  cbn [app] in *. change (zlen (@nil Z)) with 0 in Hm.
  change (Options_Marshal options (Some ?b)) with (Marshal_loop options b true 0 0). rewrite Hm.
  rewrite zlen_make_bytes in * by done. rewrite Z.leb_refl. split; [done|].
  rewrite Hfit, slice_from_beyond, app_nil_r by (rewrite ?zlen_make_bytes; lia). split; [done|].
  unfold Options_Unmarshal. rewrite Unmarshal_loop_options_bytes; try done.
  eapply Forall_impl; [exact He|]. intros o [? ?]. lia.
Qed.

Lemma Options_codec_roundtrip_witness :
  Options_Unmarshal [] 16 (options_bytes 0 sample ++ [255; 1; 2]) CoapOptionDefs =
    (sample, (zlen (options_bytes 0 sample) + 1, None)).
Proof.
  pose proof (Options_codec_roundtrip sample [255; 1; 2] CoapOptionDefs 16 sample_sorted) as H.
  refine (proj2 (proj2 (H _ _ _ _))).
  - repeat constructor; cbv; intuition congruence.
  - repeat constructor.
  - right. exists [1; 2]. split; [reflexivity|discriminate].
  - cbv. discriminate.
Defined.

(** C38: on every byte string the decoder ends; when it succeeds, the options it
    appended to an empty slice are sorted, fit its capacity, have numbers 1..65535
    and values of at most 65804 bytes, and it consumed all of the data or stopped
    right after a payload marker that has a payload behind it. *)
Theorem Options_Unmarshal_sound (data : list byte) (defs : list (Z * OptionDef)) (capacity : Z)
    (options : Options) (n : Z) (Hb : bytes_ok data) (Hc : 0 <= capacity)
    (Hok : Options_Unmarshal [] capacity data defs = (options, (n, None))) :
  sorted_opts options /\ zlen options <= capacity /\ Forall encodable options /\
  Forall (accepted defs) options /\ 0 <= n <= zlen data /\
  (n = zlen data \/ n < zlen data /\ zlookup data (n - 1) = Some 255).
Proof.
  apply Unmarshal_loop_sound in Hok as (new & -> & Hs & Hl & He & Ha & _ & Hn & Hlast);
    [|done|done|lia|constructor|constructor|done].
  rewrite Z.sub_0_r in *. split_and!; auto; lia.
Qed.

(** Option 11 "a", an elective option of an illegal length (skipped), a payload. *)
Lemma Options_Unmarshal_sound_witness :
  Options_Unmarshal [] 16 [177; 97; 19; 1; 2; 3; 255; 9] CoapOptionDefs =
    ([mkOption URIPath [97]], (7, None)) /\
  Forall encodable [mkOption URIPath [97]].
Proof.
  assert (Options_Unmarshal [] 16 [177; 97; 19; 1; 2; 3; 255; 9] CoapOptionDefs =
    ([mkOption URIPath [97]], (7, None))) as H by reflexivity.
  split; [exact H|].
  refine (proj1 (proj2 (proj2 (Options_Unmarshal_sound _ CoapOptionDefs 16 _ 7 _ _ H)))).
  - repeat constructor; cbv; congruence.
  - cbv. discriminate.
Defined.
