(* ===== verification/Message.v ===== *)
(** * Messages and the datagram coder (src/message/message.go, src/udp/coder/coder.go)

    [Message] is the struct of message.go; a nil token or payload is [None], the
    option slice is its elements with its capacity.  [Udp.Encode] and [Udp.Decode]
    are the RFC 7252 wire format. *)
From stdpp Require Import prelude list strings sorting.
From Stdlib Require Import ZArith Lia Sorted.
From S2P Require Import Prelude Cast Codes OptionCodec Options OptionsCodec.
#[local] Open Scope Z_scope.

Definition MaxTokenSize : Z := 8.

Record Message : Type := mkMessage {
  mToken : option (list byte);
  mOptions : Options;
  mOptionsCap : Z;
  mCode : Z;
  mPayload : option (list byte);
  mMessageID : Z;
  mType : Z
}.

Definition token (m : Message) : list byte := default [] (mToken m).
Definition payload (m : Message) : list byte := default [] (mPayload m).

Definition Message_IsPing (r : Message) (isTCP : bool) : bool :=
  if isTCP then mCode r =? Ping
  else (mCode r =? Empty) && (mType r =? Confirmable) && (zlen (token r) =? 0) &&
       (zlen (mOptions r) =? 0) && (zlen (payload r) =? 0).

(** The marker and the payload, as both coders put them behind the options. *)
Definition payload_bytes (p : list byte) : list byte := match p with [] => [] | _ => 255 :: p end.

(** A length-0 slice that the decoders replace by nil. *)
Definition nil_if_empty (l : list byte) : option (list byte) := match l with [] => None | _ => Some l end.

Module Udp.

Definition Size (m : Message) : Z * option error :=
  if MaxTokenSize <? zlen (token m) then (-1, Some ErrInvalidTokenLen) else
  let size := 4 + zlen (token m) in
  let payloadLen := zlen (payload m) in
  let '(_, (optionsLen, err)) := Options_Marshal (mOptions m) None in
  if negb (bool_decide (err = Some ErrTooSmall)) then (-1, err) else
  let payloadLen := if 0 <? payloadLen then payloadLen + 1 else payloadLen in
  (size + (payloadLen + optionsLen), None).

Definition first_byte (m : Message) : Z :=
  Z.lor (Z.lor (Z.shiftl 1 6) (uint8 (Z.shiftl (CastTo KUint8 (mType m)) 4)))
        (uint8 (Z.land 15 (zlen (token m)))).

Definition header (m : Message) : list byte :=
  first_byte m :: CastTo KUint8 (mCode m) :: be_split 2 (CastTo KUint16 (mMessageID m)).

Definition Encode (m : Message) (buf : list byte) : list byte * (Z * option error) :=
  if negb (ValidateMID (mMessageID m)) then (buf, (-1, Some (ErrOther "invalid MessageID"))) else
  if negb (ValidateType (mType m)) then (buf, (-1, Some (ErrOther "invalid Type"))) else
  let '(size, err) := Size m in
  match err with
  | Some e => (buf, (-1, Some e))
  | None =>
      if zlen buf <? size then (buf, (size, Some ErrTooSmall)) else
      let buf := copy_into buf (header m) in
      on_suffix 4 (fun buf =>
        if MaxTokenSize <? zlen (token m) then (buf, (-1, Some ErrInvalidTokenLen)) else
        let buf := copy_into buf (token m) in
        on_suffix (zlen (token m)) (fun buf =>
          let '(buf, (optionsLen, err)) := Options_Marshal (mOptions m) (Some buf) in
          match err with
          | None =>
              on_suffix optionsLen (fun buf =>
                if 0 <? zlen (payload m)
                then on_suffix 1 (fun buf => (copy_into buf (payload m), (size, None))) (copy_into buf [255])
                else (copy_into buf (payload m), (size, None))) buf
          | Some ErrTooSmall => (buf, (size, Some ErrTooSmall))
          | Some e => (buf, (-1, Some e))
          end) buf) buf
  end.

(** [Decode] updates the message it is given, also when it fails later on. *)
Definition Decode (data : list byte) (m : Message) : Message * (Z * option error) :=
  let size := zlen data in
  match data with
  | b0 :: b1 :: b2 :: b3 :: data =>
      if negb (Z.shiftr b0 6 =? 1) then (m, (-1, Some ErrMessageInvalidVersion)) else
      let m := mkMessage None [] (mOptionsCap m) b1 None (be_combine [b2; b3]) (Z.land (Z.shiftr b0 4) 3) in
      let tokenLen := Z.land b0 15 in
      if 8 <? tokenLen then (m, (-1, Some ErrInvalidTokenLen)) else
      if zlen data <? tokenLen then (m, (-1, Some ErrMessageTruncated)) else
      let token := nil_if_empty (slice_to data tokenLen) in
      let data := slice_from data tokenLen in
      let '(options, (proc, err)) := Options_Unmarshal (mOptions m) (mOptionsCap m) data CoapOptionDefs in
      match err with
      | Some e => (mkMessage None options (mOptionsCap m) (mCode m) None (mMessageID m) (mType m), (-1, Some e))
      | None => (mkMessage token options (mOptionsCap m) (mCode m) (nil_if_empty (slice_from data proc))
                   (mMessageID m) (mType m), (size, None))
      end
  | _ => (m, (-1, Some ErrMessageTruncated))
  end.

(** The reference encoding. *)
Definition bytes (m : Message) : list byte :=
  header m ++ token m ++ options_bytes 0 (mOptions m) ++ payload_bytes (payload m).

End Udp.

(** ** Shared lemmas on the payload part *)

Lemma zlen_payload_bytes p : zlen (payload_bytes p) = if 0 <? zlen p then zlen p + 1 else zlen p.
Proof.
  destruct p as [|b p]; [done|]. cbn [payload_bytes]. rewrite (zlen_cons 255).
  pose proof (zlen_pos_ne (b :: p) ltac:(done)). destruct (Z.ltb_spec 0 (zlen (b :: p))); lia.
Qed.

Lemma payload_tail_bytes p : payload_tail (payload_bytes p).
Proof. destruct p; [by left|right; eauto]. Qed.

Lemma marker_payload p : slice_from (payload_bytes p) (marker (payload_bytes p)) = p.
Proof. by destruct p. Qed.

Lemma Options_Marshal_None options :
  Options_Marshal options None = ([], (zlen (options_bytes 0 options), Some ErrTooSmall)).
Proof. apply Marshal_loop_dead. Qed.

Lemma Options_Marshal_fits options buf :
  zlen (options_bytes 0 options) <= zlen buf ->
  Options_Marshal options (Some buf) =
    (options_bytes 0 options ++ slice_from buf (zlen (options_bytes 0 options)),
     (zlen (options_bytes 0 options), None)).
Proof.
  intros H. destruct (Marshal_loop_live options [] buf 0) as (mem & Hm & _ & Hfit).
  cbn [app] in *. unfold Options_Marshal. change (zlen (@nil Z)) with 0 in Hm.
  cbn. rewrite Hm, Hfit by done. by destruct (Z.leb_spec (zlen (options_bytes 0 options)) (zlen buf)); [|lia].
Qed.

(** Writing through nested suffixes appends. *)
Lemma on_suffix_app {A R} (e rest : list A) (f : list A -> list A * R) n :
  n = zlen e -> on_suffix n f (e ++ rest) = (e ++ fst (f rest), snd (f rest)).
Proof.
  intros ->. unfold on_suffix. rewrite slice_from_app, slice_to_app. by destruct (f rest).
Qed.

(** ** The datagram coder *)

Lemma Size_spec m :
  zlen (token m) <= MaxTokenSize -> Udp.Size m = (zlen (Udp.bytes m), None).
Proof.
  intros Ht. unfold Udp.Size, Udp.bytes. destruct (Z.ltb_spec MaxTokenSize (zlen (token m))); [lia|].
  rewrite Options_Marshal_None, bool_decide_true by done. cbn [negb]. f_equal.
  rewrite !zlen_app, zlen_payload_bytes. change (zlen (Udp.header m)) with 4. lia.
Qed.

Lemma Encode_writes m buf :
  ValidateMID (mMessageID m) = true -> ValidateType (mType m) = true -> zlen (token m) <= MaxTokenSize ->
  Udp.Encode m buf =
    if zlen (Udp.bytes m) <=? zlen buf
    then (Udp.bytes m ++ slice_from buf (zlen (Udp.bytes m)), (zlen (Udp.bytes m), None))
    else (buf, (zlen (Udp.bytes m), Some ErrTooSmall)).
Proof.
  intros Hm Ht Htok. unfold Udp.Encode. rewrite Hm, Ht, Size_spec by done. cbn [negb].
  destruct (Z.ltb_spec (zlen buf) (zlen (Udp.bytes m))), (Z.leb_spec (zlen (Udp.bytes m)) (zlen buf)); try lia; [done|].
  set (size := zlen (Udp.bytes m)) in *.
  assert (size = 4 + zlen (token m) + zlen (options_bytes 0 (mOptions m)) + zlen (payload_bytes (payload m))) as Hsz.
  { unfold size, Udp.bytes. rewrite !zlen_app. change (zlen (Udp.header m)) with 4. lia. }
  pose proof (zlen_nonneg (token m)). pose proof (zlen_nonneg (options_bytes 0 (mOptions m))).
  pose proof (zlen_nonneg (payload_bytes (payload m))).
  rewrite (copy_into_fits buf (Udp.header m)) by (change (zlen (Udp.header m)) with 4; lia).
  change (zlen (Udp.header m)) with 4. rewrite on_suffix_app by done. cbv beta.
  destruct (Z.ltb_spec MaxTokenSize (zlen (token m))); [lia|].
  rewrite copy_into_fits by (rewrite zlen_slice_from; lia). rewrite slice_from_slice_from by lia.
  rewrite on_suffix_app by done. rewrite Options_Marshal_fits by (rewrite zlen_slice_from; lia). cbv beta iota.
  rewrite slice_from_slice_from by lia. rewrite on_suffix_app by done. cbn [fst snd].
  set (rest := slice_from buf _).
  assert (zlen rest = zlen buf - (4 + zlen (token m) + zlen (options_bytes 0 (mOptions m)))) as Hrest
    by (unfold rest; rewrite zlen_slice_from; lia).
  assert ((if 0 <? zlen (payload m)
           then on_suffix 1 (fun buf => (copy_into buf (payload m), (size, None))) (copy_into rest [255])
           else (copy_into rest (payload m), (size, @None error)))
          = (payload_bytes (payload m) ++ slice_from rest (zlen (payload_bytes (payload m))), (size, None))) as ->.
  { destruct (payload m) as [|b p] eqn:E.
    - change (zlen (@nil Z)) with 0. change (0 <? 0) with false. cbv iota. cbn [payload_bytes app].
      change (zlen (@nil Z)) with 0. by rewrite slice_from_0, copy_into_nil.
    - pose proof (zlen_pos_ne (b :: p) ltac:(done)) as Hp. destruct (Z.ltb_spec 0 (zlen (b :: p))); [|lia].
      cbn [payload_bytes] in *. rewrite (zlen_cons 255) in *.
      rewrite (copy_into_fits rest) by (change (zlen [255]) with 1; lia). change (zlen [255]) with 1.
      rewrite on_suffix_app by done. cbn [fst snd]. rewrite copy_into_fits by (rewrite zlen_slice_from; lia).
      rewrite slice_from_slice_from by lia. done. }
  cbn [fst snd]. unfold rest. rewrite slice_from_slice_from by lia.
  replace (4 + _ + _ + _) with size by lia. unfold Udp.bytes. by rewrite <- !app_assoc.
Qed.

(** What the wire format can carry. *)
Definition wf_message (m : Message) : Prop :=
  0 <= mCode m <= 255 /\ zlen (token m) <= MaxTokenSize /\
  sorted_opts (mOptions m) /\ Forall encodable (mOptions m) /\ zlen (mOptions m) <= mOptionsCap m.

Definition wf_udp (m : Message) : Prop :=
  wf_message m /\ 0 <= mMessageID m <= 65535 /\ 0 <= mType m <= 3 /\
  Forall (accepted CoapOptionDefs) (mOptions m).

(** nil and empty slices are not distinguished on the wire. *)
Definition normal (m : Message) : Message :=
  mkMessage (nil_if_empty (token m)) (mOptions m) (mOptionsCap m) (mCode m)
    (nil_if_empty (payload m)) (mMessageID m) (mType m).

Lemma first_byte_fields m :
  0 <= mType m <= 3 -> zlen (token m) <= MaxTokenSize ->
  Z.shiftr (Udp.first_byte m) 6 = 1 /\ Z.land (Z.shiftr (Udp.first_byte m) 4) 3 = mType m /\
  Z.land (Udp.first_byte m) 15 = zlen (token m).
Proof.
  unfold Udp.first_byte, MaxTokenSize. pose proof (zlen_nonneg (token m)) as H0.
  generalize dependent (zlen (token m)). intros k H0. generalize (mType m). intros t Ht Hk.
  assert (forallb (fun t => forallb (fun k =>
    let b := Z.lor (Z.lor (Z.shiftl 1 6) (uint8 (Z.shiftl (CastTo KUint8 t) 4))) (uint8 (Z.land 15 k)) in
    (Z.shiftr b 6 =? 1) && (Z.land (Z.shiftr b 4) 3 =? t) && (Z.land b 15 =? k)) (seqZ 0 9)) (seqZ 0 4) = true)
    as H by (vm_compute; reflexivity).
  rewrite forallb_forall in H. specialize (H t). rewrite <- list_elem_of_In, elem_of_seqZ in H.
  specialize (H ltac:(lia)). rewrite forallb_forall in H. specialize (H k).
  rewrite <- list_elem_of_In, elem_of_seqZ in H. specialize (H ltac:(lia)). cbv zeta in H.
  repeat (apply andb_true_iff in H as [H ?]). lia.
Qed.

Lemma Decode_bytes m m0 :
  wf_udp m -> zlen (mOptions m) <= mOptionsCap m0 ->
  Udp.Decode (Udp.bytes m) m0 =
    (mkMessage (mToken (normal m)) (mOptions m) (mOptionsCap m0) (mCode m) (mPayload (normal m))
       (mMessageID m) (mType m), (zlen (Udp.bytes m), None)).
Proof.
  intros ((Hcode & Htok & Hs & He & _) & Hmid & Htyp & Ha) Hcap.
  destruct (first_byte_fields m Htyp Htok) as (F1 & F2 & F3).
  unfold Udp.Decode. unfold Udp.bytes at 1. cbn [Udp.header be_split app].
  rewrite F1. change (negb (1 =? 1)) with false. cbv iota zeta.
  change [_; _] with (be_split 2 (CastTo KUint16 (mMessageID m))).
  rewrite CastTo_uint16_id, be_combine_split_id by (change (2 ^ (8 * Z.of_nat 2)) with 65536; lia).
  rewrite CastTo_uint8_id by (unfold is_byte; lia). rewrite F2, F3. cbn [mOptionsCap mOptions].
  unfold MaxTokenSize in Htok. destruct (Z.ltb_spec 8 (zlen (token m))); [lia|].
  set (body := options_bytes 0 (mOptions m) ++ payload_bytes (payload m)).
  rewrite zlen_app. pose proof (zlen_nonneg body).
  destruct (Z.ltb_spec (zlen (token m) + zlen body) (zlen (token m))); [lia|].
  rewrite slice_from_app, slice_to_app. unfold Options_Unmarshal, body.
  rewrite Unmarshal_loop_options_bytes; try done.
  - cbn [app mCode mMessageID mType]. rewrite Z.add_0_l. do 2 f_equal.
    unfold normal. cbn [mPayload]. f_equal.
    rewrite <- slice_from_slice_from; [|apply zlen_nonneg|by destruct (payload_bytes _)].
    by rewrite slice_from_app, marker_payload.
  - eapply Forall_impl; [exact He|]. intros o [? ?]. lia.
  - apply payload_tail_bytes.
Qed.

Lemma default_nil_if_empty l : default [] (nil_if_empty l) = l.
Proof. by destruct l. Qed.

Lemma nil_if_empty_idem l : nil_if_empty (default [] (nil_if_empty l)) = nil_if_empty l.
Proof. by rewrite default_nil_if_empty. Qed.

(** A decoded message is well-formed and in normal form. *)
Lemma Decode_wf data m0 m n :
  bytes_ok data -> 0 <= mOptionsCap m0 -> Udp.Decode data m0 = (m, (n, None)) ->
  wf_udp m /\ normal m = m /\ n = zlen data /\ mOptionsCap m = mOptionsCap m0.
Proof.
  intros Hb Hc. unfold Udp.Decode.
  destruct data as [|b0 [|b1 [|b2 [|b3 data]]]]; [done..|].
  destruct (negb (Z.shiftr b0 6 =? 1)); [done|]. cbn [mOptionsCap mOptions mCode mMessageID mType].
  destruct (Z.ltb_spec 8 (Z.land b0 15)) as [|Htl]; [done|].
  destruct (Z.ltb_spec (zlen data) (Z.land b0 15)) as [|Hdl]; [done|].
  destruct (Options_Unmarshal _ _ _ _) as [options [proc [e|]]] eqn:EU; [done|].
  intros [= <- <-].
  do 4 (apply Forall_cons in Hb as [? Hb]).
  assert (0 <= Z.land b0 15) by (apply Z.land_nonneg; lia).
  apply Unmarshal_loop_sound in EU as (new & -> & Hs & Hl & He & Ha & _);
    [|done|by apply Forall_drop|lia|constructor|constructor|done].
  cbn [app] in *. split; [|split; [unfold normal, token, payload; cbn; by rewrite !nil_if_empty_idem|done]].
  unfold wf_udp, wf_message, token, MaxTokenSize. cbn [mToken mOptions mOptionsCap mCode mMessageID mType].
  rewrite default_nil_if_empty, zlen_slice_to by lia.
  assert (0 <= be_combine [b2; b3] < 65536) as Hmid by (apply (be_combine_bound [b2; b3]); unfold bytes_ok; rewrite !Forall_cons; auto).
  unfold is_byte in *.
  change (Z.land (Z.shiftr b0 4) 3) with (Z.land (Z.shiftr b0 4) (Z.ones 2)).
  rewrite Z.land_ones by lia. change (2 ^ 2) with 4.
  pose proof (Z.mod_pos_bound (Z.shiftr b0 4) 4).
  split_and!; auto; lia.
Qed.

(** Every branch of the datagram encoder: an invalid message ID, type or token is
    refused; a buffer that is too small is untouched and the needed size reported;
    otherwise exactly the reference encoding is written, [Size] agrees with it, and
    the rest of the buffer is kept. *)
Theorem Udp_Encode_correct (m : Message) (buf : list byte) :
  let e := Udp.bytes m in
  Udp.Encode m buf =
    if negb (ValidateMID (mMessageID m)) then (buf, (-1, Some (ErrOther "invalid MessageID")))
    else if negb (ValidateType (mType m)) then (buf, (-1, Some (ErrOther "invalid Type")))
    else if MaxTokenSize <? zlen (token m) then (buf, (-1, Some ErrInvalidTokenLen))
    else if zlen e <=? zlen buf then (e ++ slice_from buf (zlen e), (zlen e, None))
    else (buf, (zlen e, Some ErrTooSmall)).
Proof.
  cbv zeta. destruct (ValidateMID (mMessageID m)) eqn:E1; [|unfold Udp.Encode; by rewrite E1].
  destruct (ValidateType (mType m)) eqn:E2; [|unfold Udp.Encode; by rewrite E1, E2].
  destruct (Z.ltb_spec MaxTokenSize (zlen (token m))) as [Ht|Ht]; [|by rewrite Encode_writes].
  unfold Udp.Encode, Udp.Size. rewrite E1, E2. cbn [negb].
  by destruct (Z.ltb_spec MaxTokenSize (zlen (token m))); [|lia].
Qed.


Definition sample_message : Message :=
  mkMessage (Some [1; 2; 3]) sample 16 Content (Some [104; 105]) 4660 NonConfirmable.

Definition fresh_message : Message := mkMessage None [] 16 Empty None (-1) Unset.

Lemma sample_message_wf : wf_udp sample_message.
Proof.
  unfold wf_udp, wf_message. split; [split; [cbv; split; discriminate|split; [cbv; discriminate|split; [apply sample_sorted|split]]]|].
  - repeat constructor; cbv; congruence.
  - cbv. discriminate.
  - split; [cbv; split; discriminate|]. split; [cbv; split; discriminate|]. repeat constructor.
Qed.


(** Whatever bytes arrive, a datagram that decodes gives a well-formed message
    (token of at most 8 bytes, valid ID and type, sorted options that the encoder
    can write); encoding it again and decoding the result gives the same message. *)
Theorem Udp_Decode_stable (data : list byte) (m0 m : Message) (n : Z)
    (Hb : bytes_ok data) (Hc : 0 <= mOptionsCap m0)
    (Hd : Udp.Decode data m0 = (m, (n, None))) :
  wf_udp m /\ n = zlen data /\
  Udp.Decode (fst (Udp.Encode m (make_bytes (fst (Udp.Size m))))) m0 = (m, (zlen (Udp.bytes m), None)).
Proof.
  apply Decode_wf in Hd as (Hwf & Hn & -> & Hcm); [|done..]. split; [done|]. split; [done|].
  pose proof Hwf as ((_ & Htok & _ & _ & Hcap) & Hmid & Htyp & _). rewrite Size_spec by done. cbn [fst].
  pose proof (zlen_nonneg (Udp.bytes m)).
  rewrite Encode_writes; [|unfold ValidateMID; bool_cases; done || lia|unfold ValidateType; bool_cases; done || lia|done].
  rewrite zlen_make_bytes, Z.leb_refl by done. cbn [fst].
  rewrite slice_from_beyond, app_nil_r by (rewrite zlen_make_bytes; lia).
  rewrite Decode_bytes by (rewrite <- ?Hcm; done). rewrite Hn, <- Hcm. by destruct m.
Qed.

Lemma Udp_Decode_stable_witness : wf_udp (fst (Udp.Decode [65; 1; 0; 7; 9; 177; 97; 255; 5] fresh_message)).
Proof.
  refine (proj1 (Udp_Decode_stable [65; 1; 0; 7; 9; 177; 97; 255; 5] fresh_message _ 9 _ _ _)).
  - repeat constructor; cbv; congruence.
  - cbv. discriminate.
  - reflexivity.
Defined.

(** The encoder accepts every type from 0 to 255 although the wire format has two
    bits for it: type 4 is sent as a confirmable message and type 8 damages the
    version, so that the datagram cannot be decoded. *)
Theorem Udp_type_overflow :
  let msg t := mkMessage None [] 0 GET None 1 t in
  ValidateType 4 = true /\ ValidateType 8 = true /\
  mType (fst (Udp.Decode (fst (Udp.Encode (msg 4) (make_bytes 4))) fresh_message)) = Confirmable /\
  snd (Udp.Decode (fst (Udp.Encode (msg 8) (make_bytes 4))) fresh_message) = (-1, Some ErrMessageInvalidVersion).
Proof. repeat split. Qed.
