(* ===== verification/TcpCoder.v ===== *)
(** * The stream coder (src/tcp/coder/coder.go)

    RFC 8323 frames: a length nibble with an optional extended length, the token
    length, the code, the token, the options and the payload.  [DecodeHeader] is run
    on a growing prefix of the stream, so that it has to tell a truncated header from
    a complete one. *)
From stdpp Require Import prelude list strings sorting.
From Stdlib Require Import ZArith Lia Sorted.
From S2P Require Import Prelude Cast Codes OptionCodec Options OptionsCodec Message.
#[local] Open Scope Z_scope.

Module Tcp.

Definition MessageLength13Base : Z := 13.
Definition MessageLength14Base : Z := 269.
Definition MessageLength15Base : Z := 65805.
Definition messageMaxLen : Z := 2147418112.

Record MessageHeader : Type := mkHeader {
  hToken : option (list byte);
  hLength : Z;
  hMessageLength : Z;
  hCode : Z
}.

Definition zeroHeader : MessageHeader := mkHeader None 0 0 0.

Definition getHeader (messageLength : Z) : Z * list byte :=
  if messageLength <? MessageLength13Base then (CastTo KUint8 messageLength, [])
  else if messageLength <? MessageLength14Base then
    let extLen := messageLength - MessageLength13Base in (13, [CastTo KUint8 extLen])
  else if messageLength <? MessageLength15Base then
    let extLen := messageLength - MessageLength14Base in
    (14, PutUint16 (make_bytes 2) (CastTo KUint16 extLen))
  else if messageLength <? messageMaxLen then
    let extLen := messageLength - MessageLength15Base in
    (15, PutUint32 (make_bytes 4) (CastTo KUint32 extLen))
  else (0, []).

(** [copyToHdr]: the header array and the next offset. *)
Definition copyToHdr (hdr : list byte) (hdrOff : Z) (data : list byte) : list byte * Z :=
  if 0 <? zlen data
  then (slice_to hdr hdrOff ++ copy_into (slice_from hdr hdrOff) data, hdrOff + zlen data)
  else (hdr, hdrOff).

(** [hdr[hdrOff] = b]. *)
Definition setHdr (hdr : list byte) (hdrOff b : Z) : list byte :=
  slice_to hdr hdrOff ++ copy_into (slice_from hdr hdrOff) [b].

Definition Encode (m : Message) (buf : list byte) : list byte * (Z * option error) :=
  if MaxTokenSize <? zlen (token m) then (buf, (-1, Some ErrInvalidTokenLen)) else
  let payloadLen := zlen (payload m) in
  let payloadLen := if 0 <? payloadLen then payloadLen + 1 else payloadLen in
  let '(_, (optionsLen, err)) := Options_Marshal (mOptions m) None in
  if negb (bool_decide (err = Some ErrTooSmall)) then (buf, (-1, err)) else
  let bufLen := payloadLen + optionsLen in
  let '(lenNib, extLenBytes) := getHeader bufLen in
  let hdr := make_bytes (1 + 4 + MaxTokenSize + 1) in
  let hdrLen := 1 + zlen extLenBytes + zlen (token m) + 1 in
  let hdrOff := 0 in
  let hdr := setHdr hdr hdrOff (Z.lor (CastTo KUint8 (zlen (token m))) (uint8 (Z.shiftl lenNib 4))) in
  let hdrOff := hdrOff + 1 in
  let '(hdr, hdrOff) := copyToHdr hdr hdrOff extLenBytes in
  let hdr := setHdr hdr hdrOff (CastTo KUint8 (mCode m)) in
  let hdrOff := hdrOff + 1 in
  let '(hdr, _) := copyToHdr hdr hdrOff (token m) in
  let bufLen := bufLen + hdrLen in
  if zlen buf <? bufLen then (buf, (bufLen, Some ErrTooSmall)) else
  let buf := copy_into buf (slice_to hdr hdrLen) in
  let '(buf, (optionsLen, err)) :=
    on_suffix hdrLen (fun buf => Options_Marshal (mOptions m) (Some buf)) buf in
  match err with
  | None =>
      if 0 <? zlen (payload m) then
        let '(buf, _) := on_suffix (hdrLen + optionsLen) (fun b => (copy_into b [255], tt)) buf in
        let '(buf, _) := on_suffix (hdrLen + optionsLen + 1) (fun b => (copy_into b (payload m), tt)) buf in
        (buf, (bufLen, None))
      else (buf, (bufLen, None))
  | Some ErrTooSmall => (buf, (bufLen, Some ErrTooSmall))
  | Some e => (buf, (-1, Some e))
  end.

Definition Size (m : Message) : Z * option error :=
  let '(_, (size, err)) := Encode m [] in
  let err := if bool_decide (err = Some ErrTooSmall) then None else err in
  (size, err).

(** The length field: the bytes it takes and the length of options and payload. *)
Definition DecodeHeader_len (lenNib : Z) (data : list byte) : result (Z * Z) :=
  if lenNib <? MessageLength13Base then Ok (0, lenNib)
  else if lenNib =? 13 then
    match data with
    | [] => Err ErrShortRead
    | extLen :: _ => Ok (1, MessageLength13Base + extLen)
    end
  else if lenNib =? 14 then
    if zlen data <? 2 then Err ErrShortRead
    else Ok (2, MessageLength14Base + be_combine (slice_to data 2))
  else if lenNib =? 15 then
    if zlen data <? 4 then Err ErrShortRead
    else Ok (4, MessageLength15Base + be_combine (slice_to data 4))
  else Ok (0, 0).

(** The header is filled in as far as it was read. *)
Definition DecodeHeader (data : list byte) (h : MessageHeader) : MessageHeader * (Z * option error) :=
  match data with
  | [] => (h, (-1, Some ErrShortRead))
  | firstByte :: data =>
      let hdrOff := 1 in
      let lenNib := Z.shiftr (Z.land firstByte 240) 4 in
      let tkl := Z.land firstByte 15 in
      if MaxTokenSize <? tkl then (h, (-1, Some ErrInvalidTokenLen)) else
      match DecodeHeader_len lenNib data with
      | Err e => (h, (-1, Some e))
      | Ok (ext, opLen) =>
          let data := slice_from data ext in
          let hdrOff := uint32 (hdrOff + ext) in
          match SafeCastTo KUint32 (uint64 (hdrOff + 1 + tkl + opLen)) with
          | Some (messageLength, None) =>
              let h := mkHeader (hToken h) (hLength h) messageLength (hCode h) in
              match data with
              | [] => (h, (-1, Some ErrShortRead))
              | code :: data =>
                  let h := mkHeader (hToken h) (hLength h) (hMessageLength h) code in
                  let hdrOff := uint32 (hdrOff + 1) in
                  if zlen data <? tkl then (h, (-1, Some ErrShortRead)) else
                  let token := if 0 <? tkl then Some (slice_to data tkl) else hToken h in
                  let hdrOff := uint32 (hdrOff + tkl) in
                  (mkHeader token hdrOff (hMessageLength h) code, (hdrOff, None))
              end
          | _ => (h, (-1, Some ErrMessageTooLong))
          end
      end
  end.

Definition optionDefs (code : Z) : list (Z * OptionDef) :=
  if code =? CSM then TCPSignalCSMOptionDefs
  else if (code =? Ping) || (code =? Pong) then TCPSignalPingPongOptionDefs
  else if code =? Release then TCPSignalReleaseOptionDefs
  else if code =? Abort then TCPSignalAbortOptionDefs
  else CoapOptionDefs.

(** The options are appended to those the message has. *)
Definition DecodeWithHeader (data : list byte) (header : MessageHeader) (m : Message)
    : Message * (Z * option error) :=
  let processed := hLength header in
  let '(options, (proc, err)) :=
    Options_Unmarshal (mOptions m) (mOptionsCap m) data (optionDefs (hCode header)) in
  match err with
  | Some e => (mkMessage (mToken m) options (mOptionsCap m) (mCode m) (mPayload m) (mMessageID m) (mType m),
               (-1, Some e))
  | None =>
      let data := slice_from data proc in
      let processed := uint32 (processed + CastTo KUint32 proc) in
      let payload := if 0 <? zlen data then Some data else mPayload m in
      let processed := uint32 (processed + CastTo KUint32 (zlen data)) in
      (mkMessage (hToken header) options (mOptionsCap m) (hCode header) payload (mMessageID m) (mType m),
       (processed, None))
  end.

Definition Decode (data : list byte) (m : Message) : Message * (Z * option error) :=
  let '(header, (_, err)) := DecodeHeader data zeroHeader in
  match err with
  | Some e => (m, (-1, Some e))
  | None =>
      if CastTo KUint32 (zlen data) <? hMessageLength header then (m, (-1, Some ErrShortRead))
      else DecodeWithHeader
             (slice_from (slice_to data (hMessageLength header)) (hLength header)) header m
  end.

(** ** The reference encoding *)

Definition body (m : Message) : list byte := options_bytes 0 (mOptions m) ++ payload_bytes (payload m).

Definition length_bytes (n : Z) : Z * list byte :=
  if n <? 13 then (n, [])
  else if n <? 269 then (13, [n - 13])
  else if n <? 65805 then (14, be_split 2 (n - 269))
  else (15, be_split 4 (n - 65805)).

Definition header (m : Message) : list byte :=
  let '(lenNib, ext) := length_bytes (zlen (body m)) in
  [lenNib * 16 + zlen (token m)] ++ ext ++ [mCode m] ++ token m.

Definition bytes (m : Message) : list byte := header m ++ body m.

(** A message that one frame can carry. *)
Definition wf_tcp (m : Message) : Prop :=
  wf_message m /\ zlen (body m) < messageMaxLen /\ Forall (accepted (optionDefs (mCode m))) (mOptions m).

End Tcp.

(** ** The frame header *)

Lemma copy_into_full {A} (dst src : list A) : zlen dst = zlen src -> copy_into dst src = src.
Proof. intros H. by rewrite copy_into_fits, slice_from_beyond, app_nil_r by lia. Qed.

Lemma getHeader_length n : 0 <= n < Tcp.messageMaxLen -> Tcp.getHeader n = Tcp.length_bytes n.
Proof.
  intros Hn. unfold Tcp.getHeader, Tcp.length_bytes, Tcp.MessageLength13Base, Tcp.MessageLength14Base,
    Tcp.MessageLength15Base, PutUint16, PutUint32.
  unfold Tcp.messageMaxLen in Hn.
  destruct (Z.ltb_spec n 13); [by rewrite CastTo_uint8_id by (unfold is_byte; lia)|].
  destruct (Z.ltb_spec n 269); [by rewrite CastTo_uint8_id by (unfold is_byte; lia)|].
  destruct (Z.ltb_spec n 65805); [by rewrite CastTo_uint16_id, copy_into_full by (lia || reflexivity)|].
  unfold Tcp.messageMaxLen. destruct (Z.ltb_spec n 2147418112); [|lia].
  by rewrite CastTo_uint32_id, copy_into_full by (lia || reflexivity).
Qed.

Lemma length_bytes_bounds n : 0 <= n < Tcp.messageMaxLen ->
  0 <= fst (Tcp.length_bytes n) <= 15 /\ 0 <= zlen (snd (Tcp.length_bytes n)) <= 4.
Proof.
  unfold Tcp.messageMaxLen, Tcp.length_bytes. intros Hn. bool_cases; cbn [fst snd];
    rewrite ?zlen_be_split, ?zlen_cons; change (zlen (@nil Z)) with 0; lia.
Qed.

Lemma frame_byte nib tkl :
  0 <= nib <= 15 -> 0 <= tkl <= 8 ->
  Z.lor (CastTo KUint8 tkl) (uint8 (Z.shiftl nib 4)) = nib * 16 + tkl /\
  Z.shiftr (Z.land (nib * 16 + tkl) 240) 4 = nib /\ Z.land (nib * 16 + tkl) 15 = tkl.
Proof.
  intros Hn Ht.
  assert (forallb (fun nib => forallb (fun tkl =>
    (Z.lor (CastTo KUint8 tkl) (uint8 (Z.shiftl nib 4)) =? nib * 16 + tkl) &&
    (Z.shiftr (Z.land (nib * 16 + tkl) 240) 4 =? nib) && (Z.land (nib * 16 + tkl) 15 =? tkl))
    (seqZ 0 9)) (seqZ 0 16) = true) as H by (vm_compute; reflexivity).
  rewrite forallb_forall in H. specialize (H nib). rewrite <- list_elem_of_In, elem_of_seqZ in H.
  specialize (H ltac:(lia)). rewrite forallb_forall in H. specialize (H tkl).
  rewrite <- list_elem_of_In, elem_of_seqZ in H. specialize (H ltac:(lia)).
  repeat (apply andb_true_iff in H as [H ?]). lia.
Qed.

(** The header array with [pre] written and the rest still zero. *)
Lemma make_bytes_drop k n : 0 <= n <= k -> slice_from (make_bytes k) n = make_bytes (k - n).
Proof. intros. unfold slice_from, make_bytes. rewrite drop_replicate. f_equal. lia. Qed.

Lemma hdr_append pre k off data :
  off = zlen pre -> zlen data <= k ->
  slice_to (pre ++ make_bytes k) off ++ copy_into (slice_from (pre ++ make_bytes k) off) data =
    (pre ++ data) ++ make_bytes (k - zlen data).
Proof.
  intros -> Hk. pose proof (zlen_nonneg data). rewrite slice_from_app, slice_to_app.
  rewrite copy_into_fits by (rewrite zlen_make_bytes; lia). rewrite make_bytes_drop by lia. apply app_assoc.
Qed.

Lemma copyToHdr_append pre k off data :
  off = zlen pre -> zlen data <= k ->
  Tcp.copyToHdr (pre ++ make_bytes k) off data = ((pre ++ data) ++ make_bytes (k - zlen data), off + zlen data).
Proof.
  intros Ho Hk. unfold Tcp.copyToHdr. destruct (Z.ltb_spec 0 (zlen data)) as [H|H].
  - by rewrite hdr_append.
  - assert (data = []) as -> by (apply zlen_0_nil; pose proof (zlen_nonneg data); lia).
    change (zlen (@nil Z)) with 0. by rewrite app_nil_r, Z.sub_0_r, Z.add_0_r.
Qed.

Section encode.
Context (m : Message).
Context (Hcode : 0 <= mCode m <= 255) (Htok : zlen (token m) <= MaxTokenSize).
Context (Hbody : zlen (Tcp.body m) < Tcp.messageMaxLen).

Lemma header_length :
  zlen (Tcp.header m) = 1 + zlen (snd (Tcp.length_bytes (zlen (Tcp.body m)))) + zlen (token m) + 1.
Proof.
  unfold Tcp.header. destruct (Tcp.length_bytes _) as [nib ext]. cbn [snd].
  rewrite !zlen_app, zlen_cons. change (zlen [mCode m]) with 1. change (zlen (@nil Z)) with 0. lia.
Qed.

Lemma body_length : zlen (Tcp.body m) =
  (if 0 <? zlen (payload m) then zlen (payload m) + 1 else zlen (payload m)) + zlen (options_bytes 0 (mOptions m)).
Proof. unfold Tcp.body. rewrite zlen_app, zlen_payload_bytes. lia. Qed.

Lemma Tcp_Encode_writes buf :
  Tcp.Encode m buf =
    if zlen (Tcp.bytes m) <=? zlen buf
    then (Tcp.bytes m ++ slice_from buf (zlen (Tcp.bytes m)), (zlen (Tcp.bytes m), None))
    else (buf, (zlen (Tcp.bytes m), Some ErrTooSmall)).
Proof.
  unfold Tcp.Encode. destruct (Z.ltb_spec MaxTokenSize (zlen (token m))); [lia|].
  rewrite Options_Marshal_None, bool_decide_true by done. cbn [negb]. rewrite <- body_length.
  pose proof (zlen_nonneg (Tcp.body m)) as Hb0. rewrite getHeader_length by lia.
  pose proof (length_bytes_bounds (zlen (Tcp.body m)) ltac:(lia)) as [Hnib Hext].
  pose proof header_length as Hhl. unfold Tcp.bytes. rewrite zlen_app.
  unfold Tcp.header in *. destruct (Tcp.length_bytes (zlen (Tcp.body m))) as [nib ext]. cbn [fst snd] in *.
  unfold MaxTokenSize in *. pose proof (zlen_nonneg (token m)) as Htok0.
  change (make_bytes (1 + 4 + 8 + 1)) with ([] ++ make_bytes 14). unfold Tcp.setHdr.
  rewrite hdr_append by (reflexivity || zlen_lia).
  destruct (frame_byte nib (zlen (token m))) as (-> & _); [lia..|].
  rewrite copyToHdr_append by (reflexivity || zlen_lia). rewrite hdr_append by zlen_lia.
  rewrite copyToHdr_append by zlen_lia.
  rewrite CastTo_uint8_id by (unfold is_byte; lia).
  set (hd := [nib * 16 + zlen (token m)] ++ ext ++ [mCode m] ++ token m) in *.
  assert (((([] ++ [nib * 16 + zlen (token m)]) ++ ext) ++ [mCode m]) ++ token m = hd) as ->
    by (unfold hd; by rewrite <- !app_assoc).
  rewrite <- Hhl, slice_to_app. rewrite (Z.add_comm (zlen (Tcp.body m))).
  pose proof (zlen_nonneg hd). set (O := options_bytes 0 (mOptions m)).
  pose proof (zlen_nonneg O). pose proof (zlen_nonneg (payload_bytes (payload m))) as Hp0.
  destruct (Z.ltb_spec (zlen buf) (zlen hd + zlen (Tcp.body m))), (Z.leb_spec (zlen hd + zlen (Tcp.body m)) (zlen buf)); try lia; [done|].
  assert (zlen (Tcp.body m) = zlen O + zlen (payload_bytes (payload m))) as Eb by (unfold Tcp.body; by rewrite zlen_app).
  rewrite copy_into_fits by lia. rewrite on_suffix_app by done.
  rewrite Options_Marshal_fits by (rewrite zlen_slice_from; fold O; lia). cbn [fst snd]. fold O.
  rewrite slice_from_slice_from by lia.
  destruct (payload m) as [|b p] eqn:Ep.
  - change (zlen (@nil Z)) with 0. change (0 <? 0) with false. cbv iota. unfold Tcp.body. rewrite Ep. fold O.
    cbn [payload_bytes]. by rewrite app_nil_r, <- app_assoc.
  - pose proof (zlen_pos_ne (b :: p) ltac:(done)). destruct (Z.ltb_spec 0 (zlen (b :: p))); [|lia].
    cbn [payload_bytes] in *. rewrite (zlen_cons 255) in *. unfold on_suffix.
    rewrite app_assoc. rewrite (slice_from_app' (hd ++ O)), (slice_to_app' (hd ++ O)) by (rewrite zlen_app; lia).
    rewrite copy_into_fits by (rewrite zlen_slice_from; change (zlen [255]) with 1; lia).
    change (zlen [255]) with 1. rewrite (app_assoc (hd ++ O) [255]).
    rewrite (slice_from_app' ((hd ++ O) ++ [255])), (slice_to_app' ((hd ++ O) ++ [255]))
      by (rewrite !zlen_app; change (zlen [255]) with 1; lia).
    rewrite slice_from_slice_from by lia. rewrite copy_into_fits by (rewrite zlen_slice_from; lia).
    rewrite slice_from_slice_from by lia.
    replace (zlen hd + zlen O + 1 + zlen (b :: p)) with (zlen hd + zlen (Tcp.body m)) by lia.
    unfold Tcp.body. rewrite Ep. fold O. cbn [payload_bytes]. by rewrite <- !app_assoc.
Qed.
End encode.

(** ** Decoding a frame *)

Lemma DecodeHeader_len_ok n rest :
  0 <= n < Tcp.messageMaxLen ->
  let '(nib, ext) := Tcp.length_bytes n in
  Tcp.DecodeHeader_len nib (ext ++ rest) = Ok (zlen ext, n).
Proof.
  unfold Tcp.messageMaxLen, Tcp.length_bytes. intros Hn. pose proof (zlen_nonneg rest).
  destruct (Z.ltb_spec n 13); [|destruct (Z.ltb_spec n 269); [|destruct (Z.ltb_spec n 65805)]];
    unfold Tcp.DecodeHeader_len, Tcp.MessageLength13Base, Tcp.MessageLength14Base, Tcp.MessageLength15Base.
  - by destruct (Z.ltb_spec n 13); [|lia].
  - change (13 <? 13) with false. change (13 =? 13) with true. cbv iota. cbn [app]. do 2 f_equal. lia.
  - change (14 <? 13) with false. change (14 =? 13) with false. change (14 =? 14) with true. cbv iota.
    rewrite zlen_app, zlen_be_split. destruct (Z.ltb_spec (Z.of_nat 2 + zlen rest) 2); [lia|].
    rewrite slice_to_app' by (by rewrite zlen_be_split).
    rewrite be_combine_split_id by (change (2 ^ (8 * Z.of_nat 2)) with 65536; lia). do 2 f_equal. lia.
  - change (15 <? 13) with false. change (15 =? 13) with false. change (15 =? 14) with false.
    change (15 =? 15) with true. cbv iota.
    rewrite zlen_app, zlen_be_split. destruct (Z.ltb_spec (Z.of_nat 4 + zlen rest) 4); [lia|].
    rewrite slice_to_app' by (by rewrite zlen_be_split).
    rewrite be_combine_split_id by (change (2 ^ (8 * Z.of_nat 4)) with 4294967296; lia). do 2 f_equal. lia.
Qed.

Lemma DecodeHeader_len_short n data :
  0 <= n < Tcp.messageMaxLen ->
  let '(nib, ext) := Tcp.length_bytes n in
  zlen data < zlen ext -> Tcp.DecodeHeader_len nib data = Err ErrShortRead.
Proof.
  unfold Tcp.messageMaxLen, Tcp.length_bytes. intros Hn. pose proof (zlen_nonneg data).
  destruct (Z.ltb_spec n 13); [|destruct (Z.ltb_spec n 269); [|destruct (Z.ltb_spec n 65805)]];
    unfold Tcp.DecodeHeader_len.
  - change (zlen (@nil Z)) with 0. lia.
  - change (zlen [n - 13]) with 1. intros Hd. by rewrite (zlen_0_nil data) by lia.
  - rewrite zlen_be_split. intros Hd. change (14 <? Tcp.MessageLength13Base) with false.
    change (14 =? 13) with false. change (14 =? 14) with true. cbv iota.
    by destruct (Z.ltb_spec (zlen data) 2); [|lia].
  - rewrite zlen_be_split. intros Hd. change (15 <? Tcp.MessageLength13Base) with false.
    change (15 =? 13) with false. change (15 =? 14) with false. change (15 =? 15) with true. cbv iota.
    by destruct (Z.ltb_spec (zlen data) 4); [|lia].
Qed.

Section decode.
Context (m : Message) (Hwf : Tcp.wf_tcp m).

Definition frame_header : Tcp.MessageHeader :=
  Tcp.mkHeader (nil_if_empty (token m)) (zlen (Tcp.header m)) (zlen (Tcp.bytes m)) (mCode m).

Lemma frame_total : zlen (Tcp.bytes m) = zlen (Tcp.header m) + zlen (Tcp.body m).
Proof. unfold Tcp.bytes. by rewrite zlen_app. Qed.

Lemma slice_to_token_nil : (if 0 <? zlen (token m) then Some (token m) else None) = nil_if_empty (token m).
Proof. destruct (token m); [done|]. by rewrite zlen_cons; pose proof (zlen_nonneg l); destruct (Z.ltb_spec 0 (1 + zlen l)); [|lia]. Qed.

(** The decoder run on [firstByte :: ext ++ rest]: what is left is the code and the token. *)
Lemma DecodeHeader_after_len rest :
  let '(nib, ext) := Tcp.length_bytes (zlen (Tcp.body m)) in
  Tcp.DecodeHeader ((nib * 16 + zlen (token m)) :: ext ++ rest) Tcp.zeroHeader =
    match rest with
    | [] => (Tcp.mkHeader None 0 (zlen (Tcp.bytes m)) 0, (-1, Some ErrShortRead))
    | code :: data =>
        if zlen data <? zlen (token m)
        then (Tcp.mkHeader None 0 (zlen (Tcp.bytes m)) code, (-1, Some ErrShortRead))
        else (Tcp.mkHeader (if 0 <? zlen (token m) then Some (slice_to data (zlen (token m))) else None)
                (zlen (Tcp.header m)) (zlen (Tcp.bytes m)) code, (zlen (Tcp.header m), None))
    end.
Proof.
  destruct Hwf as ((_ & Htok & _) & Hbody & _). pose proof (zlen_nonneg (Tcp.body m)) as Hb0.
  pose proof (DecodeHeader_len_ok (zlen (Tcp.body m)) rest ltac:(lia)) as Hlen.
  pose proof (length_bytes_bounds (zlen (Tcp.body m)) ltac:(lia)) as [Hnib Hext].
  rewrite frame_total, header_length. destruct (Tcp.length_bytes _) as [nib ext]. cbn [fst snd] in *.
  unfold MaxTokenSize, Tcp.messageMaxLen in *. pose proof (zlen_nonneg (token m)) as Htok0.
  destruct (frame_byte nib (zlen (token m))) as (_ & F1 & F2); [lia..|].
  unfold Tcp.DecodeHeader. rewrite F1, F2, Hlen. unfold MaxTokenSize.
  destruct (Z.ltb_spec 8 (zlen (token m))); [lia|]. rewrite slice_from_app.
  rewrite (uint32_id (1 + zlen ext)) by lia. unfold uint64.
  rewrite Z.mod_small by (change (2 ^ 64) with 18446744073709551616; lia). rewrite SafeCastTo_uint32 by lia.
  replace (1 + zlen ext + 1 + zlen (token m) + zlen (Tcp.body m))
    with (1 + zlen ext + zlen (token m) + 1 + zlen (Tcp.body m)) by lia.
  destruct rest as [|code data]; [done|]. cbn [Tcp.hToken Tcp.hLength Tcp.hMessageLength Tcp.hCode Tcp.zeroHeader].
  destruct (zlen data <? zlen (token m)); [done|].
  rewrite (uint32_id (1 + zlen ext + 1)) by lia. rewrite uint32_id by lia.
  by replace (1 + zlen ext + 1 + zlen (token m)) with (1 + zlen ext + zlen (token m) + 1) by lia.
Qed.

Lemma DecodeHeader_ok rest :
  Tcp.DecodeHeader (Tcp.header m ++ rest) Tcp.zeroHeader = (frame_header, (zlen (Tcp.header m), None)).
Proof.
  pose proof (DecodeHeader_after_len (mCode m :: token m ++ rest)) as H. unfold frame_header.
  unfold Tcp.header at 1. destruct (Tcp.length_bytes (zlen (Tcp.body m))) as [nib ext].
  rewrite <- !app_assoc. cbn [app] in *. rewrite <- app_assoc in H || idtac. rewrite H.
  rewrite zlen_app, slice_to_app. pose proof (zlen_nonneg rest).
  destruct (Z.ltb_spec (zlen (token m) + zlen rest) (zlen (token m))); [lia|].
  by rewrite slice_to_token_nil.
Qed.

Lemma DecodeHeader_prefix k :
  0 <= k < zlen (Tcp.header m) ->
  snd (Tcp.DecodeHeader (slice_to (Tcp.header m) k) Tcp.zeroHeader) = (-1, Some ErrShortRead).
Proof.
  intros Hk. pose proof header_length m as Hl. rewrite Hl in Hk.
  assert (forall rest, _) as Hafter by exact DecodeHeader_after_len.
  pose proof Hwf as ((_ & Htok & _) & Hbody & _). pose proof (zlen_nonneg (Tcp.body m)) as Hb0.
  pose proof (fun data => DecodeHeader_len_short (zlen (Tcp.body m)) data ltac:(lia)) as Hshort.
  pose proof (length_bytes_bounds (zlen (Tcp.body m)) ltac:(lia)) as [Hnib Hext].
  unfold Tcp.header. destruct (Tcp.length_bytes (zlen (Tcp.body m))) as [nib ext]. cbn [fst snd] in *.
  unfold MaxTokenSize in *. pose proof (zlen_nonneg (token m)) as Htok0.
  destruct (Z.eq_dec k 0) as [->|Hk0]; [done|].
  replace (slice_to ([nib * 16 + zlen (token m)] ++ ext ++ [mCode m] ++ token m) k)
    with ((nib * 16 + zlen (token m)) :: slice_to (ext ++ mCode m :: token m) (k - 1))
    by (unfold slice_to; by replace (Z.to_nat k) with (S (Z.to_nat (k - 1))) by lia).
  destruct (Z.lt_ge_cases (k - 1) (zlen ext)) as [Hlt|Hge].
  - destruct (frame_byte nib (zlen (token m))) as (_ & F1 & F2); [lia..|].
    unfold Tcp.DecodeHeader. rewrite F1, F2. unfold MaxTokenSize.
    destruct (Z.ltb_spec 8 (zlen (token m))); [lia|]. rewrite Hshort; [done|].
    rewrite zlen_slice_to; rewrite ?zlen_app; pose proof (zlen_nonneg (mCode m :: token m)); lia.
  - replace (slice_to (ext ++ mCode m :: token m) (k - 1))
      with (ext ++ slice_to (mCode m :: token m) (k - 1 - zlen ext)).
    + rewrite Hafter. destruct (Z.eq_dec (k - 1 - zlen ext) 0) as [->|Hne]; [done|].
      replace (slice_to (mCode m :: token m) (k - 1 - zlen ext))
        with (mCode m :: slice_to (token m) (k - 2 - zlen ext))
        by (unfold slice_to; by replace (Z.to_nat (k - 1 - zlen ext)) with (S (Z.to_nat (k - 2 - zlen ext))) by lia).
      rewrite zlen_slice_to by lia. by destruct (Z.ltb_spec (k - 2 - zlen ext) (zlen (token m))); [|lia].
    + unfold slice_to. rewrite take_app_ge by (unfold zlen in *; lia). do 2 f_equal. unfold zlen. lia.
Qed.

Lemma Tcp_Decode_bytes m0 rest :
  mOptions m0 = [] -> mPayload m0 = None -> zlen (mOptions m) <= mOptionsCap m0 ->
  zlen (Tcp.bytes m ++ rest) < 4294967296 ->
  Tcp.Decode (Tcp.bytes m ++ rest) m0 =
    (mkMessage (mToken (normal m)) (mOptions m) (mOptionsCap m0) (mCode m) (mPayload (normal m))
       (mMessageID m0) (mType m0), (zlen (Tcp.bytes m), None)).
Proof.
  intros Ho Hp Hcap Hlen. pose proof Hwf as ((_ & Htok & Hs & He & _) & Hbody & Ha).
  unfold Tcp.Decode. unfold Tcp.bytes at 1. rewrite <- app_assoc, DecodeHeader_ok.
  unfold frame_header. cbn [Tcp.hMessageLength Tcp.hLength].
  pose proof (zlen_nonneg (Tcp.bytes m ++ rest)). pose proof (zlen_nonneg rest).
  pose proof (zlen_nonneg (Tcp.header m)). pose proof (zlen_nonneg (Tcp.body m)). pose proof frame_total as Ht.
  rewrite CastTo_uint32_id by lia. rewrite zlen_app in *.
  destruct (Z.ltb_spec (zlen (Tcp.bytes m) + zlen rest) (zlen (Tcp.bytes m))); [lia|].
  rewrite slice_to_app. unfold Tcp.bytes at 1. rewrite slice_from_app.
  unfold Tcp.DecodeWithHeader. cbn [Tcp.hLength Tcp.hCode Tcp.hToken]. rewrite Ho. unfold Options_Unmarshal.
  unfold Tcp.body at 1 2. set (O := options_bytes 0 (mOptions m)) in *.
  unfold O at 1 2. rewrite Unmarshal_loop_options_bytes; try done.
  - cbn [app]. rewrite Z.add_0_l. fold O. unfold Tcp.body. fold O.
    rewrite <- slice_from_slice_from; [|apply zlen_nonneg|by destruct (payload_bytes _)].
    rewrite slice_from_app, marker_payload. f_equal.
    + unfold normal. cbn [mToken mPayload]. f_equal. rewrite Hp.
      destruct (payload m) as [|b p]; [done|]. by rewrite zlen_cons; pose proof (zlen_nonneg p); destruct (Z.ltb_spec 0 (1 + zlen p)); [|lia].
    + do 2 f_equal. unfold Tcp.body in Ht. fold O in Ht. rewrite zlen_app in Ht.
      assert (marker (payload_bytes (payload m)) + zlen (payload m) = zlen (payload_bytes (payload m))) as Em
        by (destruct (payload m); [done|cbn [payload_bytes marker]; rewrite (zlen_cons 255); lia]).
      pose proof (zlen_nonneg O). pose proof (zlen_nonneg (payload m)).
      assert (0 <= marker (payload_bytes (payload m))) by (by destruct (payload_bytes _)).
      rewrite (CastTo_uint32_id (zlen O + _)), (CastTo_uint32_id (zlen (payload m))) by lia.
      rewrite (uint32_id (zlen (Tcp.header m) + _)) by lia. rewrite uint32_id by lia. lia.
  - eapply Forall_impl; [exact He|]. intros o [? ?]. lia.
  - apply payload_tail_bytes.
Qed.
End decode.

(** Every branch of the stream encoder on a message whose options and payload fit
    a frame: a long token is refused; a buffer that is too small is untouched and the
    needed size reported (this is what [Size] returns); otherwise exactly the
    reference frame is written and the rest of the buffer kept. *)
Theorem Tcp_Encode_correct (m : Message) (buf : list byte)
    (Hcode : 0 <= mCode m <= 255) (Hbody : zlen (Tcp.body m) < Tcp.messageMaxLen) :
  let e := Tcp.bytes m in
  Tcp.Encode m buf =
    (if MaxTokenSize <? zlen (token m) then (buf, (-1, Some ErrInvalidTokenLen))
     else if zlen e <=? zlen buf then (e ++ slice_from buf (zlen e), (zlen e, None))
     else (buf, (zlen e, Some ErrTooSmall))) /\
  (zlen (token m) <= MaxTokenSize -> Tcp.Size m = (zlen e, None)).
Proof.
  cbv zeta. split.
  - destruct (Z.ltb_spec MaxTokenSize (zlen (token m))) as [Ht|Ht]; [|by apply Tcp_Encode_writes].
    unfold Tcp.Encode. by destruct (Z.ltb_spec MaxTokenSize (zlen (token m))); [|lia].
  - intros Ht. unfold Tcp.Size. rewrite Tcp_Encode_writes by done. change (zlen (@nil Z)) with 0.
    pose proof (header_length m) as Hh. pose proof (frame_total m) as Hf.
    pose proof (zlen_nonneg (Tcp.body m)). pose proof (zlen_nonneg (token m)).
    pose proof (zlen_nonneg (snd (Tcp.length_bytes (zlen (Tcp.body m))))).
    by destruct (Z.leb_spec (zlen (Tcp.bytes m)) 0); [lia|].
Qed.

Lemma Tcp_Encode_correct_witness :
  Tcp.Encode sample_message (make_bytes 17) =
    (Tcp.bytes sample_message ++ make_bytes 1, (16, None)).
Proof.
  rewrite (proj1 (Tcp_Encode_correct sample_message (make_bytes 17) ltac:(cbv; split; discriminate)
                    ltac:(reflexivity))).
  reflexivity.
Defined.

(** C29: a message survives the stream.  [Size] gives the length of the frame of a
    well-formed message and [Encode] fills a buffer of that size; the frame at the front of
    a stream decodes to the message (an empty token and payload as nil; a stream has no
    message ID and no type, those of the target are kept) and consumes exactly the bytes of
    the frame, whatever follows it.  The target has no options and no payload, and room
    for the options; what is decoded at once, the frame and what follows it, is below
    4 GiB. *)
Theorem Tcp_roundtrip (m m0 : Message) (rest : list byte) (Hwf : Tcp.wf_tcp m)
    (Ho : mOptions m0 = []) (Hp : mPayload m0 = None) (Hcap : zlen (mOptions m) <= mOptionsCap m0)
    (Hlen : zlen (Tcp.bytes m ++ rest) < 4294967296) :
  let '(size, err) := Tcp.Size m in
  let '(frame, (n, err')) := Tcp.Encode m (make_bytes size) in
  err = None /\ err' = None /\ n = size /\ zlen frame = size /\
  Tcp.Decode (frame ++ rest) m0 =
    (mkMessage (mToken (normal m)) (mOptions m) (mOptionsCap m0) (mCode m) (mPayload (normal m))
       (mMessageID m0) (mType m0), (size, None)).
Proof.
  pose proof Hwf as ((Hcode & Htok & _) & Hbody & _). destruct (Tcp_Encode_correct m (make_bytes (zlen (Tcp.bytes m))) Hcode Hbody) as [E1 E2].
  rewrite (E2 Htok), E1. pose proof (zlen_nonneg (Tcp.bytes m)).
  destruct (Z.ltb_spec MaxTokenSize (zlen (token m))); [lia|]. rewrite zlen_make_bytes, Z.leb_refl by done.
  rewrite slice_from_beyond, app_nil_r by (rewrite zlen_make_bytes; lia). split_and!; try done. by apply Tcp_Decode_bytes.
Qed.

Lemma sample_message_wf_tcp : Tcp.wf_tcp sample_message.
Proof.
  split; [apply sample_message_wf|]. split; [reflexivity|]. repeat constructor.
Qed.

Lemma Tcp_roundtrip_witness :
  Tcp.Decode ((Tcp.Encode sample_message (make_bytes 16)).1 ++ [7; 7]) fresh_message =
    (mkMessage (Some [1; 2; 3]) sample 16 Content (Some [104; 105]) (-1) Unset, (16, None)).
Proof.
  pose proof (Tcp_roundtrip sample_message fresh_message [7; 7] sample_message_wf_tcp eq_refl eq_refl
           ltac:(cbv; discriminate) ltac:(reflexivity)) as H.
  destruct (Tcp.Size sample_message) as [size err] eqn:Es. vm_compute in Es. injection Es as <- <-.
  destruct (Tcp.Encode sample_message (make_bytes 16)) as [frame [n err']]. exact (proj2 (proj2 (proj2 (proj2 H)))).
Defined.

(** A partly received frame is never misread: every strict prefix of a frame,
    also one that ends inside the header, is reported as [ErrShortRead], which is
    what the reader of a connection waits for more data on. *)
Theorem Tcp_short_read (m m0 : Message) (k : Z) (Hwf : Tcp.wf_tcp m) (Hk : 0 <= k < zlen (Tcp.bytes m)) :
  snd (Tcp.Decode (slice_to (Tcp.bytes m) k) m0) = (-1, Some ErrShortRead) /\
  (k < zlen (Tcp.header m) ->
   snd (Tcp.DecodeHeader (slice_to (Tcp.bytes m) k) Tcp.zeroHeader) = (-1, Some ErrShortRead)).
Proof.
  pose proof (frame_total m) as Hf. pose proof (zlen_nonneg (Tcp.header m)).
  assert (zlen (Tcp.bytes m) < 4294967296) as Hmax.
  { pose proof Hwf as ((_ & Htok & _) & Hbody & _). pose proof (header_length m) as Hl.
    pose proof (zlen_nonneg (Tcp.body m)).
    pose proof (length_bytes_bounds (zlen (Tcp.body m)) ltac:(lia)) as [_ Hext].
    unfold Tcp.messageMaxLen, MaxTokenSize in *. lia. }
  assert (k < zlen (Tcp.header m) ->
    snd (Tcp.DecodeHeader (slice_to (Tcp.bytes m) k) Tcp.zeroHeader) = (-1, Some ErrShortRead)) as Hhdr.
  { intros Hlt. replace (slice_to (Tcp.bytes m) k) with (slice_to (Tcp.header m) k).
    - apply (DecodeHeader_prefix m Hwf). lia.
    - unfold Tcp.bytes, slice_to. rewrite take_app_le by (unfold zlen in *; lia). done. }
  split; [|done]. unfold Tcp.Decode. destruct (Z.lt_ge_cases k (zlen (Tcp.header m))) as [Hlt|Hge].
  - specialize (Hhdr Hlt). destruct (Tcp.DecodeHeader _ _) as [h r]. cbn [snd] in Hhdr. by subst r.
  - replace (slice_to (Tcp.bytes m) k) with (Tcp.header m ++ slice_to (Tcp.body m) (k - zlen (Tcp.header m))).
    + rewrite (DecodeHeader_ok m Hwf). unfold frame_header. cbn [Tcp.hMessageLength].
      assert (zlen (Tcp.header m ++ slice_to (Tcp.body m) (k - zlen (Tcp.header m))) = k) as Hz
        by (rewrite zlen_app, zlen_slice_to; lia).
      rewrite Hz, CastTo_uint32_id by lia. by destruct (Z.ltb_spec k (zlen (Tcp.bytes m))); [|lia].
    + unfold Tcp.bytes, slice_to. rewrite take_app_ge by (unfold zlen in *; lia). do 2 f_equal. unfold zlen. lia.
Qed.

Lemma Tcp_short_read_witness :
  snd (Tcp.Decode (slice_to (Tcp.bytes sample_message) 9) fresh_message) = (-1, Some ErrShortRead).
Proof.
  exact (proj1 (Tcp_short_read sample_message fresh_message 9 sample_message_wf_tcp
                  ltac:(cbv; split; [discriminate|reflexivity]))).
Defined.
