(* ===== verification/PoolMessage.v ===== *)
(** * Pooled messages (src/message/pool/message.go)

    [Msg] is the struct [pool.Message].  The body is any [io.ReadSeeker], an interface
    given here as a type class with the laws of the io package; [bytes.Reader] is the
    instance the repository itself uses.  The encoder and decoder are the interface
    [Coder], of which the datagram and the stream coder are instances.  A panic is
    [None].

    Option values are sub-slices of the value buffer.  Every setter writes to the front
    of the buffer and then drops that part from it, so that live values are never
    overwritten; the model therefore stores the values themselves. *)
From stdpp Require Import prelude list strings sorting.
From Stdlib Require Import ZArith Lia Sorted.
From S2P Require Import Prelude Cast Codes OptionCodec Options OptionsCodec Message TcpCoder.
#[local] Open Scope Z_scope.

(** ** io.ReadSeeker *)

Inductive Whence : Type := SeekStart | SeekCurrent | SeekEnd.

Class ReadSeeker (B : Type) : Type := {
  Seek : B -> Z -> Whence -> B * (Z * option error);
  (** [Read b n] reads into a buffer of length [n]: the bytes read and the error. *)
  Read : B -> Z -> B * (list byte * option error)
}.

(** The documented behaviour of the io interfaces, in terms of the contents of the
    stream and the current offset: seeking to an offset inside the contents moves
    there; a read before the end returns between 1 and [n] of the next bytes; at the
    end it returns [io.EOF]. *)
Class ReadSeekerLaws (B : Type) `{!ReadSeeker B} : Type := {
  rs_ok : B -> Prop;
  content : B -> list byte;
  offset : B -> Z;
  offset_range : forall b, rs_ok b -> 0 <= offset b <= zlen (content b);
  seek_start : forall b o, rs_ok b -> 0 <= o <= zlen (content b) ->
    exists b', Seek b o SeekStart = (b', (o, None)) /\ rs_ok b' /\ content b' = content b /\ offset b' = o;
  seek_current : forall b, rs_ok b ->
    exists b', Seek b 0 SeekCurrent = (b', (offset b, None)) /\ rs_ok b' /\
      content b' = content b /\ offset b' = offset b;
  seek_end : forall b, rs_ok b ->
    exists b', Seek b 0 SeekEnd = (b', (zlen (content b), None)) /\ rs_ok b' /\
      content b' = content b /\ offset b' = zlen (content b);
  read_next : forall b n, rs_ok b -> 0 < n -> offset b < zlen (content b) ->
    exists b' d, Read b n = (b', (d, None)) /\ 1 <= zlen d <= n /\ rs_ok b' /\
      content b' = content b /\ offset b' = offset b + zlen d /\
      d = slice_to (slice_from (content b) (offset b)) (zlen d);
  read_eof : forall b n, rs_ok b -> 0 < n -> offset b = zlen (content b) ->
    exists b', Read b n = (b', ([], Some ErrEOF)) /\ rs_ok b' /\ content b' = content b /\ offset b' = offset b
}.

(** [bytes.Reader]. *)
Record Reader : Type := mkReader { r_s : list byte; r_i : Z }.

Definition NewReader (b : list byte) : Reader := mkReader b 0.

Definition Reader_Seek (r : Reader) (offset : Z) (whence : Whence) : Reader * (Z * option error) :=
  let abs := match whence with
             | SeekStart => offset
             | SeekCurrent => r_i r + offset
             | SeekEnd => zlen (r_s r) + offset
             end in
  if abs <? 0 then (r, (0, Some (ErrOther "bytes.Reader.Seek: negative position")))
  else (mkReader (r_s r) abs, (abs, None)).

Definition Reader_Read (r : Reader) (n : Z) : Reader * (list byte * option error) :=
  if zlen (r_s r) <=? r_i r then (r, ([], Some ErrEOF))
  else let d := slice_to (slice_from (r_s r) (r_i r)) n in
       (mkReader (r_s r) (r_i r + zlen d), (d, None)).

#[export] Instance Reader_ReadSeeker : ReadSeeker Reader := {| Seek := Reader_Seek; Read := Reader_Read |}.

(** The readers the repository makes have their offset inside the contents. *)
#[local] Obligation Tactic := idtac.
#[export] Program Instance Reader_laws : ReadSeekerLaws Reader :=
  {| rs_ok := fun r => 0 <= r_i r <= zlen (r_s r); content := r_s; offset := r_i |}.
Next Obligation. done. Qed.
Next Obligation.
  intros b o Hb Ho. cbv beta in *. exists (mkReader (r_s b) o). split; [|done]. cbn. unfold Reader_Seek.
  by destruct (Z.ltb_spec o 0); [lia|].
Qed.
Next Obligation.
  intros b Hb. cbv beta in *. exists b. split; [|done]. cbn. unfold Reader_Seek. rewrite Z.add_0_r.
  destruct (Z.ltb_spec (r_i b) 0); [lia|]. by destruct b.
Qed.
Next Obligation.
  intros b Hb. cbv beta in *. exists (mkReader (r_s b) (zlen (r_s b))). pose proof (zlen_nonneg (r_s b)).
  split; [|cbn; split; [lia|done]]. cbn. unfold Reader_Seek. rewrite Z.add_0_r.
  by destruct (Z.ltb_spec (zlen (r_s b)) 0); [lia|].
Qed.
Next Obligation.
  intros b n Hb Hn Ho. cbv beta in *. set (d := slice_to (slice_from (r_s b) (r_i b)) n).
  assert (zlen d = Z.min n (zlen (r_s b) - r_i b)) as Hd.
  { unfold d, slice_to, slice_from, zlen in *. rewrite length_take, length_drop. lia. }
  exists (mkReader (r_s b) (r_i b + zlen d)), d. cbn. unfold Reader_Read.
  destruct (Z.leb_spec (zlen (r_s b)) (r_i b)); [lia|]. fold d. split; [done|]. split; [lia|].
  split; [lia|]. split; [done|]. split; [done|]. rewrite Hd. unfold d.
  destruct (Z.le_ge_cases n (zlen (r_s b) - r_i b)).
  - by replace (Z.min n (zlen (r_s b) - r_i b)) with n by lia.
  - rewrite !slice_to_all; try done; rewrite zlen_slice_from; lia.
Qed.
Next Obligation.
  intros b n Hb Hn Ho. cbv beta in *. exists b. split; [|done]. cbn. unfold Reader_Read.
  by destruct (Z.leb_spec (zlen (r_s b)) (r_i b)); [|lia].
Qed.

(** [io.ReadFull]: the loop of [ReadAtLeast] until [n] bytes are there or an error. *)
Fixpoint ReadFull_loop {B} `{!ReadSeeker B} (fuel : nat) (b : B) (n : Z) (acc : list byte)
    : B * (list byte * option error) :=
  match fuel with
  | O => (b, (acc, None))
  | S fuel =>
      if zlen acc <? n then
        let '(b, (d, err)) := Read b (n - zlen acc) in
        match err with
        | None => ReadFull_loop fuel b n (acc ++ d)
        | Some e => (b, (acc ++ d, Some e))
        end
      else (b, (acc, None))
  end.

Definition ReadFull {B} `{!ReadSeeker B} (b : B) (n : Z) : B * (list byte * option error) :=
  let '(b, (d, err)) := ReadFull_loop (S (Z.to_nat n)) b n [] in
  let err := if n <=? zlen d then None
             else if (0 <? zlen d) && bool_decide (err = Some ErrEOF) then Some ErrUnexpectedEOF
             else err in
  (b, (d, err)).

(** [io.Copy] into a buffer that never fails: read until [io.EOF]. *)
Fixpoint Copy_loop {B} `{!ReadSeeker B} (fuel : nat) (b : B) (acc : list byte) : B * (list byte * option error) :=
  match fuel with
  | O => (b, (acc, None))
  | S fuel =>
      let '(b, (d, err)) := Read b 32768 in
      match err with
      | None => Copy_loop fuel b (acc ++ d)
      | Some ErrEOF => (b, (acc ++ d, None))
      | Some e => (b, (acc ++ d, Some e))
      end
  end.

(** ** Lemmas on the interface *)

Section read_seeker.
Context {B : Type} `{!ReadSeeker B} `{!ReadSeekerLaws B}.

Lemma slice_take_more (l : list byte) o k d :
  0 <= o -> 0 <= k ->
  d = slice_to (slice_from l (o + k)) (zlen d) ->
  slice_to (slice_from l o) k ++ d = slice_to (slice_from l o) (k + zlen d).
Proof.
  intros Ho Hk Hd. pose proof (zlen_nonneg d). rewrite Hd at 1. unfold slice_to, slice_from in *.
  replace (Z.to_nat (o + k)) with (Z.to_nat o + Z.to_nat k)%nat by lia.
  replace (Z.to_nat (k + zlen d)) with (Z.to_nat k + Z.to_nat (zlen d))%nat by lia.
  rewrite <- drop_drop. by rewrite take_take_drop.
Qed.

Lemma ReadFull_loop_spec fuel b n acc start :
  rs_ok b -> 0 <= start -> acc = slice_to (slice_from (content b) start) (zlen acc) ->
  offset b = start + zlen acc -> zlen acc <= n ->
  (Z.to_nat (n - zlen acc) < fuel)%nat ->
  exists b' d err, ReadFull_loop fuel b n acc = (b', (d, err)) /\ rs_ok b' /\ content b' = content b /\
    d = slice_to (slice_from (content b) start) n /\
    zlen d = Z.min n (zlen (content b) - start) /\
    err = (if zlen d <? n then Some ErrEOF else None).
Proof.
  revert b acc. induction fuel as [|fuel IH]; intros b acc Hok Hs Hacc Hoff Hn Hf; [lia|].
  pose proof (offset_range b Hok). pose proof (zlen_nonneg acc). cbn [ReadFull_loop].
  destruct (Z.ltb_spec (zlen acc) n) as [Hlt|Hge].
  - destruct (Z.eq_dec (offset b) (zlen (content b))) as [He|Hne].
    + destruct (read_eof b (n - zlen acc)) as (b' & -> & Hok' & Hc & Ho); [done|lia|done|].
      exists b', acc, (Some ErrEOF). rewrite app_nil_r. split; [done|]. split; [done|]. split; [done|].
      assert (zlen acc = zlen (content b) - start) as Hz by lia.
      split; [|split; [lia|by destruct (Z.ltb_spec (zlen acc) n); [|lia]]].
      rewrite Hacc. rewrite !slice_to_all; try done; rewrite zlen_slice_from; lia.
    + destruct (read_next b (n - zlen acc)) as (b' & d & -> & Hd & Hok' & Hc & Ho & Hval); [done|lia..|].
      rewrite Hoff in Hval. pose proof (zlen_app acc d) as Hla.
      assert (acc ++ d = slice_to (slice_from (content b) start) (zlen (acc ++ d))) as Hacc'.
      { rewrite Hla, <- slice_take_more by (done || lia). by rewrite <- Hacc. }
      destruct (IH b' (acc ++ d)) as (b2 & d2 & err & -> & Hok2 & Hc2 & Hrest); try (done || lia).
      * by rewrite Hc.
      * rewrite Hc in *. exists b2, d2, err. split; [done|]. split; [done|]. by split; [congruence|].
  - exists b, acc, None. assert (zlen acc = n) as <- by lia.
    split; [done|]. split; [done|]. split; [done|]. split; [done|]. split; [lia|].
    by destruct (Z.ltb_spec (zlen acc) (zlen acc)); [lia|].
Qed.

Lemma Copy_loop_spec fuel b acc :
  rs_ok b -> (Z.to_nat (zlen (content b) - offset b) < fuel)%nat ->
  exists b', Copy_loop fuel b acc = (b', (acc ++ slice_from (content b) (offset b), None)) /\
    rs_ok b' /\ content b' = content b.
Proof.
  revert b acc. induction fuel as [|fuel IH]; intros b acc Hok Hf; [lia|]. cbn [Copy_loop].
  pose proof (offset_range b Hok).
  destruct (Z.eq_dec (offset b) (zlen (content b))) as [He|Hne].
  - destruct (read_eof b 32768) as (b' & -> & Hok' & Hc & Ho); [done|lia|done|].
    exists b'. by rewrite slice_from_beyond by lia.
  - destruct (read_next b 32768) as (b' & d & -> & Hd & Hok' & Hc & Ho & Hval); [done|lia..|].
    destruct (IH b' (acc ++ d)) as (b2 & -> & Hok2 & Hc2); [done|rewrite Hc; lia|].
    exists b2. rewrite Hc2, Hc. split; [|done]. rewrite <- app_assoc. do 3 f_equal.
    rewrite <- (slice_to_from (slice_from (content b) (offset b)) (zlen d)), <- Hval.
    by rewrite slice_from_slice_from, Ho by lia.
Qed.
End read_seeker.

(** A body is a [bytes.Reader] made by the package or any other reader set by the
    application. *)
#[export] Instance sum_ReadSeeker {B1 B2} `{!ReadSeeker B1, !ReadSeeker B2} : ReadSeeker (B1 + B2) := {|
  Seek := fun b o w => match b with
    | inl b => let '(b, r) := Seek b o w in (inl b, r)
    | inr b => let '(b, r) := Seek b o w in (inr b, r)
    end;
  Read := fun b n => match b with
    | inl b => let '(b, r) := Read b n in (inl b, r)
    | inr b => let '(b, r) := Read b n in (inr b, r)
    end
|}.

#[export] Program Instance sum_laws {B1 B2} `{!ReadSeeker B1, !ReadSeeker B2}
    `{!ReadSeekerLaws B1, !ReadSeekerLaws B2} : ReadSeekerLaws (B1 + B2) := {|
  rs_ok := fun b => match b with inl b => rs_ok b | inr b => rs_ok b end;
  content := fun b => match b with inl b => content b | inr b => content b end;
  offset := fun b => match b with inl b => offset b | inr b => offset b end
|}.
Next Obligation. intros B1 B2 ? ? ? ? [b|b] H; by apply offset_range. Qed.
Next Obligation.
  intros B1 B2 ? ? ? ? [b|b] o H Ho; destruct (seek_start b o H Ho) as (b' & E & ?);
    [exists (inl b')|exists (inr b')]; cbn; by rewrite E.
Qed.
Next Obligation.
  intros B1 B2 ? ? ? ? [b|b] H; destruct (seek_current b H) as (b' & E & ?);
    [exists (inl b')|exists (inr b')]; cbn; by rewrite E.
Qed.
Next Obligation.
  intros B1 B2 ? ? ? ? [b|b] H; destruct (seek_end b H) as (b' & E & ?);
    [exists (inl b')|exists (inr b')]; cbn; by rewrite E.
Qed.
Next Obligation.
  intros B1 B2 ? ? ? ? [b|b] n H Hn Ho; destruct (read_next b n H Hn Ho) as (b' & d & E & ?);
    [exists (inl b'), d|exists (inr b'), d]; cbn; by rewrite E.
Qed.
Next Obligation.
  intros B1 B2 ? ? ? ? [b|b] n H Hn Ho; destruct (read_eof b n H Hn Ho) as (b' & E & ?);
    [exists (inl b')|exists (inr b')]; cbn; by rewrite E.
Qed.

(** ** The coder interface *)

(** [pool.Encoder] and [pool.Decoder]. *)
Record CoderOps : Type := mkCoder {
  c_Size : Message -> Z * option error;
  c_Encode : Message -> list byte -> list byte * (Z * option error);
  c_Decode : list byte -> Message -> Message * (Z * option error)
}.

(** What a message needs from a coder: [Size] and [Encode] agree on the encoding,
    [Decode] inverts it on a message with no options or payload yet and enough
    capacity, and [ErrOptionsTooSmall] means that the option slice is full although
    there was data for more. *)
Class Coder (C : CoderOps) : Type := {
  c_wf : Message -> Prop;
  c_bytes : Message -> list byte;
  c_decoded : Message -> Message -> Message;
  c_size : forall m, c_wf m -> c_Size C m = (zlen (c_bytes m), None);
  c_encode : forall m buf, c_wf m -> zlen (c_bytes m) <= zlen buf ->
    c_Encode C m buf = (c_bytes m ++ slice_from buf (zlen (c_bytes m)), (zlen (c_bytes m), None));
  c_decode : forall m m0, c_wf m -> mOptions m0 = [] -> mPayload m0 = None ->
    zlen (mOptions m) <= mOptionsCap m0 -> zlen (c_bytes m) < 4294967296 ->
    c_Decode C (c_bytes m) m0 = (c_decoded m m0, (zlen (c_bytes m), None));
  c_decode_grow : forall m m0, c_wf m -> mOptions m0 = [] -> mPayload m0 = None ->
    0 <= mOptionsCap m0 < zlen (mOptions m) -> zlen (c_bytes m) < 4294967296 ->
    exists m' n, c_Decode C (c_bytes m) m0 = (m', (n, Some ErrOptionsTooSmall)) /\
      zlen (mOptions m') = mOptionsCap m0 /\ mPayload m' = None;
  c_decode_same : forall m m0, mToken (c_decoded m m0) = nil_if_empty (token m) /\
    mOptions (c_decoded m m0) = mOptions m /\ mCode (c_decoded m m0) = mCode m /\
    mPayload (c_decoded m m0) = nil_if_empty (payload m);
  c_too_small : forall data m0 m n, bytes_ok data ->
    c_Decode C data m0 = (m, (n, Some ErrOptionsTooSmall)) ->
    zlen (mOptions m) = mOptionsCap m0 /\ mOptionsCap m0 < zlen (mOptions m0) + zlen data
}.

Definition UdpCoder : CoderOps := mkCoder Udp.Size Udp.Encode Udp.Decode.
Definition TcpCoder : CoderOps := mkCoder Tcp.Size Tcp.Encode Tcp.Decode.

#[export] Program Instance Udp_Coder : Coder UdpCoder := {|
  c_wf := wf_udp;
  c_bytes := Udp.bytes;
  c_decoded := fun m m0 =>
    mkMessage (mToken (normal m)) (mOptions m) (mOptionsCap m0) (mCode m) (mPayload (normal m))
      (mMessageID m) (mType m)
|}.
Next Obligation. intros m ((_ & Ht & _) & _). by apply Size_spec. Qed.
Next Obligation.
  intros m buf ((_ & Ht & _) & Hmid & Htyp & _) Hl. cbn.
  rewrite Encode_writes; [|unfold ValidateMID; bool_cases; done || lia|unfold ValidateType; bool_cases; done || lia|done].
  by destruct (Z.leb_spec (zlen (Udp.bytes m)) (zlen buf)); [|lia].
Qed.
Next Obligation. intros m m0 Hwf _ _ Hc _. by apply Decode_bytes. Qed.
Next Obligation.
  intros m m0 ((Hcode & Htok & Hs & He & _) & Hmid & Htyp & Ha) _ _ Hcap _. cbn.
  destruct (first_byte_fields m Htyp Htok) as (F1 & F2 & F3).
  unfold Udp.Decode, Udp.bytes. cbn [Udp.header be_split app].
  rewrite F1. change (negb (1 =? 1)) with false. cbv iota zeta. rewrite F3. cbn [mOptionsCap mOptions].
  unfold MaxTokenSize in Htok. destruct (Z.ltb_spec 8 (zlen (token m))); [lia|].
  set (body := options_bytes 0 (mOptions m) ++ payload_bytes (payload m)).
  rewrite zlen_app. pose proof (zlen_nonneg body).
  destruct (Z.ltb_spec (zlen (token m) + zlen body) (zlen (token m))); [lia|].
  rewrite slice_from_app. unfold Options_Unmarshal.
  assert (Forall (fun o => 0 <= ID o) (mOptions m)) as Hpos
    by (eapply Forall_impl; [exact He|]; intros o [? ?]; lia).
  destruct (Unmarshal_loop_options_small (length body) (mOptions m) (payload_bytes (payload m)) CoapOptionDefs
              (mOptionsCap m0) [] 0 0) as [new Hnew]; try done.
  fold body in Hnew. rewrite Hnew. eexists _, _. split; [done|]. split; [|done].
  pose proof Hnew as Hnew'. cbn [mOptions app] in *.
  apply Unmarshal_loop_full in Hnew'; [done|change (zlen (@nil Option)) with 0; lia].
Qed.
Next Obligation. done. Qed.
Next Obligation.
  intros data m0 m n Hb. cbn. unfold Udp.Decode.
  destruct data as [|b0 [|b1 [|b2 [|b3 data]]]]; [done..|].
  destruct (negb (Z.shiftr b0 6 =? 1)); [done|]. cbn [mOptionsCap mOptions mCode mMessageID mType].
  destruct (8 <? Z.land b0 15); [done|].
  destruct (Z.ltb_spec (zlen data) (Z.land b0 15)) as [|Hl]; [done|].
  destruct (Options_Unmarshal _ _ _ _) as [options [proc err]] eqn:EU. destruct err as [e|]; [|done].
  intros [= <- <- ->]. do 4 (apply Forall_cons in Hb as [? Hb]).
  apply Unmarshal_loop_too_small in EU as [E1 E2]; [|done|by apply Forall_drop|lia].
  split; [done|]. pose proof (zlen_nonneg (mOptions m0)). rewrite !zlen_cons.
  rewrite zlen_slice_from in E2 by (split; [apply Z.land_nonneg; lia|done]).
  assert (0 <= Z.land b0 15) by (apply Z.land_nonneg; lia). change (zlen (@nil Option)) with 0 in E2. lia.
Qed.

#[export] Program Instance Tcp_Coder : Coder TcpCoder := {|
  c_wf := Tcp.wf_tcp;
  c_bytes := Tcp.bytes;
  c_decoded := fun m m0 =>
    mkMessage (mToken (normal m)) (mOptions m) (mOptionsCap m0) (mCode m) (mPayload (normal m))
      (mMessageID m0) (mType m0)
|}.
Next Obligation.
  intros m ((Hc & Ht & _) & Hb & _). cbn. unfold Tcp.Size. rewrite Tcp_Encode_writes by done.
  change (zlen (@nil Z)) with 0. pose proof (header_length m) as Hh. pose proof (frame_total m) as Hf.
  pose proof (zlen_nonneg (Tcp.body m)). pose proof (zlen_nonneg (token m)).
  pose proof (zlen_nonneg (snd (Tcp.length_bytes (zlen (Tcp.body m))))).
  by destruct (Z.leb_spec (zlen (Tcp.bytes m)) 0); [lia|].
Qed.
Next Obligation.
  intros m buf ((Hc & Ht & _) & Hb & _) Hl. cbn. rewrite Tcp_Encode_writes by done.
  by destruct (Z.leb_spec (zlen (Tcp.bytes m)) (zlen buf)); [|lia].
Qed.
Next Obligation.
  intros m m0 Hwf Ho Hp Hc Hl. cbn. pose proof (Tcp_Decode_bytes m Hwf m0 []) as H.
  rewrite app_nil_r in H. by apply H.
Qed.
Next Obligation.
  intros m m0 Hwf Ho Hp Hcap Hl. cbn. pose proof Hwf as ((_ & Htok & Hs & He & _) & Hbody & Ha).
  unfold Tcp.Decode. unfold Tcp.bytes at 1. rewrite (DecodeHeader_ok m Hwf).
  unfold frame_header. cbn [Tcp.hMessageLength Tcp.hLength].
  pose proof (zlen_nonneg (Tcp.bytes m)). rewrite CastTo_uint32_id by lia.
  destruct (Z.ltb_spec (zlen (Tcp.bytes m)) (zlen (Tcp.bytes m))); [lia|].
  rewrite slice_to_all by lia. unfold Tcp.bytes at 1. rewrite slice_from_app.
  unfold Tcp.DecodeWithHeader. cbn [Tcp.hLength Tcp.hCode Tcp.hToken]. rewrite Ho, Hp. unfold Options_Unmarshal.
  assert (Forall (fun o => 0 <= ID o) (mOptions m)) as Hpos
    by (eapply Forall_impl; [exact He|]; intros o [? ?]; lia).
  destruct (Unmarshal_loop_options_small (length (Tcp.body m)) (mOptions m) (payload_bytes (payload m))
              (Tcp.optionDefs (mCode m)) (mOptionsCap m0) [] 0 0) as [new Hnew]; try done.
  fold (Tcp.body m) in Hnew. rewrite Hnew. eexists _, _. split; [done|]. split; [|done].
  pose proof Hnew as Hnew'. cbn [mOptions app] in *.
  apply Unmarshal_loop_full in Hnew'; [done|change (zlen (@nil Option)) with 0; lia].
Qed.
Next Obligation. done. Qed.
Next Obligation.
  intros data m0 m n Hb. cbn. unfold Tcp.Decode.
  destruct (Tcp.DecodeHeader data Tcp.zeroHeader) as [h [k e]] eqn:EH. destruct e as [e|].
  { intros [= _ _ ->]. exfalso. revert EH. unfold Tcp.DecodeHeader, Tcp.DecodeHeader_len.
    intros H. repeat case_match; simplify_eq. }
  destruct (CastTo KUint32 (zlen data) <? Tcp.hMessageLength h); [done|].
  unfold Tcp.DecodeWithHeader. destruct (Options_Unmarshal _ _ _ _) as [options [proc err]] eqn:EU.
  destruct err as [e|]; [|done]. intros [= <- <- ->].
  apply Unmarshal_loop_too_small in EU as [E1 E2];
    [|done|by apply Forall_drop, Forall_take|lia].
  split; [done|]. cbn [mOptions].
  assert (zlen (slice_from (slice_to data (Tcp.hMessageLength h)) (Tcp.hLength h)) <= zlen data)
    by (unfold zlen, slice_from, slice_to; rewrite length_drop, length_take; lia). lia.
Qed.

(** ** The message *)

Definition valueBufferSize : Z := 256.

(** A slice with its capacity. *)
Record Slice : Type := mkSlice { s_data : list byte; s_cap : Z }.

Record Msg (Ctx CM B : Type) : Type := mkMsg {
  lifetime : Z;
  ctx : option Ctx;
  msg : Message;
  controlMessage : option CM;
  hijacked : bool;
  isModified : bool;
  valueBuffer : list byte;
  origValueBuffer : list byte;
  body : option (Reader + B);
  sequence : Z;
  bufferUnmarshal : Slice;
  bufferMarshal : Slice
}.
Arguments mkMsg {Ctx CM B}.
Arguments lifetime {Ctx CM B}.
Arguments ctx {Ctx CM B}.
Arguments msg {Ctx CM B}.
Arguments controlMessage {Ctx CM B}.
Arguments hijacked {Ctx CM B}.
Arguments isModified {Ctx CM B}.
Arguments valueBuffer {Ctx CM B}.
Arguments origValueBuffer {Ctx CM B}.
Arguments body {Ctx CM B}.
Arguments sequence {Ctx CM B}.
Arguments bufferUnmarshal {Ctx CM B}.
Arguments bufferMarshal {Ctx CM B}.

Section pool_message.
Context {Ctx CM B : Type} `{!ReadSeeker B}.

(** The capacity [append] chooses for a slice of the given length; the language only
    promises that the elements fit. *)
Context (growcap : Z -> Z).

Abbreviation M := (Msg Ctx CM B).

(** [append(s, make([]byte, n)...)]. *)
Definition Slice_append (s : Slice) (n : Z) : Slice :=
  let data := s_data s ++ make_bytes n in
  mkSlice data (if zlen data <=? s_cap s then s_cap s else growcap (zlen data)).

Definition Slice_to (s : Slice) (n : Z) : Slice := mkSlice (slice_to (s_data s) n) (s_cap s).

Definition newBuffer : Slice := mkSlice (make_bytes 256) 256.

(** Field updates. *)
Definition with_msg (r : M) (m : Message) : M :=
  mkMsg (lifetime r) (ctx r) m (controlMessage r) (hijacked r) (isModified r) (valueBuffer r)
    (origValueBuffer r) (body r) (sequence r) (bufferUnmarshal r) (bufferMarshal r).

Definition with_modified (r : M) (b : bool) : M :=
  mkMsg (lifetime r) (ctx r) (msg r) (controlMessage r) (hijacked r) b (valueBuffer r)
    (origValueBuffer r) (body r) (sequence r) (bufferUnmarshal r) (bufferMarshal r).

Definition with_body (r : M) (b : option (Reader + B)) : M :=
  mkMsg (lifetime r) (ctx r) (msg r) (controlMessage r) (hijacked r) (isModified r) (valueBuffer r)
    (origValueBuffer r) b (sequence r) (bufferUnmarshal r) (bufferMarshal r).

Definition with_valueBuffer (r : M) (b : list byte) : M :=
  mkMsg (lifetime r) (ctx r) (msg r) (controlMessage r) (hijacked r) (isModified r) b
    (origValueBuffer r) (body r) (sequence r) (bufferUnmarshal r) (bufferMarshal r).

Definition with_buffers (r : M) (u m : Slice) : M :=
  mkMsg (lifetime r) (ctx r) (msg r) (controlMessage r) (hijacked r) (isModified r) (valueBuffer r)
    (origValueBuffer r) (body r) (sequence r) u m.

Definition SetControlMessage (r : M) (cm : option CM) : M :=
  mkMsg (lifetime r) (ctx r) (msg r) cm (hijacked r) (isModified r) (valueBuffer r)
    (origValueBuffer r) (body r) (sequence r) (bufferUnmarshal r) (bufferMarshal r).

Definition SetContext (r : M) (c : option Ctx) : M :=
  mkMsg (lifetime r) c (msg r) (controlMessage r) (hijacked r) (isModified r) (valueBuffer r)
    (origValueBuffer r) (body r) (sequence r) (bufferUnmarshal r) (bufferMarshal r).

Definition SetSequence (r : M) (seq : Z) : M :=
  mkMsg (lifetime r) (ctx r) (msg r) (controlMessage r) (hijacked r) (isModified r) (valueBuffer r)
    (origValueBuffer r) (body r) seq (bufferUnmarshal r) (bufferMarshal r).

Definition Hijack (r : M) : M :=
  mkMsg (lifetime r) (ctx r) (msg r) (controlMessage r) true (isModified r) (valueBuffer r)
    (origValueBuffer r) (body r) (sequence r) (bufferUnmarshal r) (bufferMarshal r).

Definition NewMessage (c : option Ctx) : M :=
  let valueBuffer := make_bytes valueBufferSize in
  mkMsg 0 c (mkMessage None [] 16 0 None (-1) Unset) None false false valueBuffer valueBuffer None 0
    newBuffer newBuffer.

Definition Generation (r : M) : Z := Z.shiftr (lifetime r) 1.

Definition UpsertControlMessage (r : M) (cm : option CM) : M :=
  match controlMessage r with
  | Some _ => r
  | None => SetControlMessage r cm
  end.

Definition SetMessageID (r : M) (mid : Z) : M :=
  let m := msg r in
  with_modified (with_msg r (mkMessage (mToken m) (mOptions m) (mOptionsCap m) (mCode m) (mPayload m) mid (mType m))) true.

Definition UpsertMessageID (r : M) (mid : Z) : M :=
  if ValidateMID (mMessageID (msg r)) then r else SetMessageID r mid.

Definition SetType (r : M) (typ : Z) : M :=
  let m := msg r in
  with_modified (with_msg r (mkMessage (mToken m) (mOptions m) (mOptionsCap m) (mCode m) (mPayload m) (mMessageID m) typ)) true.

Definition UpsertType (r : M) (typ : Z) : M :=
  if ValidateType (mType (msg r)) then r else SetType r typ.

Definition Msg_Reset (r : M) : M :=
  let m := mkMessage None [] (mOptionsCap (msg r)) Empty None (-1) Unset in
  mkMsg (lifetime r) (ctx r) m None (hijacked r) false (origValueBuffer r) (origValueBuffer r) None (sequence r)
    (if 1024 <? s_cap (bufferUnmarshal r) then newBuffer else bufferUnmarshal r)
    (if 1024 <? s_cap (bufferMarshal r) then newBuffer else bufferMarshal r).

Definition SetMessage (r : M) (m : Message) : M :=
  let r := with_msg (Msg_Reset r) m in
  let r := if 0 <? zlen (payload m) then with_body r (Some (inl (NewReader (payload m)))) else r in
  with_modified r true.

(** [r.msg.Options = o].  The capacity of a slice that [append] had to grow is left to
    the language; it is at least the number of elements. *)
Definition set_options (r : M) (o : Options) : M :=
  let m := msg r in
  with_msg r (mkMessage (mToken m) o (Z.max (mOptionsCap m) (zlen o)) (mCode m) (mPayload m) (mMessageID m) (mType m)).

Definition Msg_Remove (r : M) (opt : Z) : M :=
  with_modified (set_options r (Remove (mOptions (msg r)) opt)) true.

Definition Msg_Token (r : M) : option (list byte) := mToken (msg r).

(** [append(r.msg.Token[:0], token...)] of nothing to a nil slice stays nil. *)
Definition SetToken (r : M) (t : option (list byte)) : M :=
  let m := msg r in
  let t := match t, mToken m with Some [], None => None | _, _ => t end in
  with_msg r (mkMessage t (mOptions m) (mOptionsCap m) (mCode m) (mPayload m) (mMessageID m) (mType m)).

(** The common part of the setters: take the new options, drop the used part of the
    value buffer, mark the message as modified. *)
Definition commit (r : M) (buf : list byte) (opts : Options) (used : Z) : M :=
  with_modified (with_valueBuffer (set_options r opts) (slice_from buf used)) true.

Definition Msg_ResetOptionsTo (r : M) (in_ : Options) : option M :=
  let '(buf, (opts, (used, err))) := ResetOptionsTo (mOptions (msg r)) (valueBuffer r) in_ in
  let '(buf, (opts, (used, err))) :=
    if bool_decide (err = Some ErrTooSmall)
    then ResetOptionsTo (mOptions (msg r)) (buf ++ make_bytes used) in_
    else (buf, (opts, (used, err))) in
  match err with
  | Some _ => None
  | None => let r' := with_valueBuffer (set_options r opts) (slice_from buf used) in
            Some (if 0 <? zlen in_ then with_modified r' true else r')
  end.

(** On [ErrTooSmall] the message still holds the slice header over the array that
    [Remove] has shifted; the second attempt starts from there. *)
Definition Msg_SetPath (r : M) (p : list byte) : M * option error :=
  let '(buf, (opts, (used, err))) := SetPath (mOptions (msg r)) (valueBuffer r) p in
  if bool_decide (err = Some ErrTooSmall) then
    let r := set_options r opts in
    let '(expandBy, errSize) := GetPathBufferSize p in
    match errSize with
    | Some e => (r, Some e)
    | None =>
        let buf := buf ++ make_bytes expandBy in
        let '(buf, (opts, (used, err))) := SetPath (mOptions (msg r)) buf p in
        match err with
        | Some e => (with_valueBuffer (set_options r opts) buf, Some e)
        | None => (commit r buf opts used, None)
        end
    end
  else
    match err with
    | Some e => (set_options r opts, Some e)
    | None => (commit r buf opts used, None)
    end.

Definition MustSetPath (r : M) (p : list byte) : option M :=
  match Msg_SetPath r p with (r, None) => Some r | (_, Some _) => None end.

Definition SetCode (r : M) (code : Z) : M :=
  let m := msg r in
  with_modified (with_msg r (mkMessage (mToken m) (mOptions m) (mOptionsCap m) code (mPayload m) (mMessageID m) (mType m))) true.

(** The retry around [SetString], [AddString], [SetUint32] and [AddUint32]. *)
Definition set_with_retry (f : list byte -> list byte * (Options * (Z * option error))) (r : M) : option M :=
  let '(buf, (opts, (used, err))) := f (valueBuffer r) in
  let '(buf, (opts, (used, err))) :=
    if bool_decide (err = Some ErrTooSmall) then f (buf ++ make_bytes used)
    else (buf, (opts, (used, err))) in
  match err with
  | Some _ => None
  | None => Some (commit r buf opts used)
  end.

Definition SetOptionString (r : M) (opt : Z) (value : list byte) : option M :=
  set_with_retry (fun buf => SetString (mOptions (msg r)) buf opt value) r.

Definition AddOptionString (r : M) (opt : Z) (value : list byte) : option M :=
  set_with_retry (fun buf => AddString (mOptions (msg r)) buf opt value) r.

Definition SetOptionUint32 (r : M) (opt value : Z) : option M :=
  set_with_retry (fun buf => SetUint32 (mOptions (msg r)) buf opt value) r.

Definition AddOptionUint32 (r : M) (opt value : Z) : option M :=
  set_with_retry (fun buf => AddUint32 (mOptions (msg r)) buf opt value) r.

(** The buffer of [AddOptionBytes] and [SetOptionBytes] after it was grown and the
    value copied. *)
Definition put_value (r : M) (value : list byte) : list byte :=
  let buf := if zlen (valueBuffer r) <? zlen value
             then valueBuffer r ++ make_bytes (zlen value - zlen (valueBuffer r)) else valueBuffer r in
  copy_into buf value.

Definition AddOptionBytes (r : M) (opt : Z) (value : list byte) : M :=
  let buf := put_value r value in
  let n := zlen value in
  commit r buf (Options_Add (mOptions (msg r)) (mkOption opt (slice_to buf n))) n.

Definition SetOptionBytes (r : M) (opt : Z) (value : list byte) : M :=
  let buf := put_value r value in
  let n := zlen value in
  commit r buf (Options_Set (mOptions (msg r)) (mkOption opt (slice_to buf n))) n.

Definition AddETag (r : M) (value : list byte) : M * option error :=
  if negb (VerifyOptLen ETag (zlen value)) then (r, Some ErrInvalidValueLength)
  else (AddOptionBytes r ETag value, None).

Definition SetETag (r : M) (value : list byte) : M * option error :=
  if negb (VerifyOptLen ETag (zlen value)) then (r, Some ErrInvalidValueLength)
  else (SetOptionBytes r ETag value, None).

Definition SetEcho (r : M) (value : list byte) : M * option error :=
  if negb (VerifyOptLen Echo (zlen value)) then (r, Some ErrInvalidValueLength)
  else (SetOptionBytes r Echo value, None).

Definition AddRequestTag (r : M) (value : list byte) : M * option error :=
  if negb (VerifyOptLen RequestTag (zlen value)) then (r, Some ErrInvalidValueLength)
  else (AddOptionBytes r RequestTag value, None).

Definition SetRequestTag (r : M) (value : list byte) : M * option error :=
  if negb (VerifyOptLen RequestTag (zlen value)) then (r, Some ErrInvalidValueLength)
  else (SetOptionBytes r RequestTag value, None).

Definition AddQuery (r : M) (query : list byte) : option M := AddOptionString r URIQuery query.
Definition Msg_SetContentFormat (r : M) (cf : Z) : option M := SetOptionUint32 r ContentFormat cf.
Definition Msg_SetObserve (r : M) (observe : Z) : option M := SetOptionUint32 r Observe observe.
Definition Msg_SetAccept (r : M) (cf : Z) : option M := SetOptionUint32 r Accept cf.

Definition GetOptionUint32 (r : M) (id : Z) : Z * option error := GetUint32 (mOptions (msg r)) id.
Definition GetOptionBytes (r : M) (id : Z) : list byte * option error := GetBytes (mOptions (msg r)) id.
Definition Msg_ContentFormat (r : M) : Z * option error :=
  let '(v, err) := GetOptionUint32 r ContentFormat in (CastTo KUint16 v, err).
Definition Msg_Observe (r : M) : Z * option error := GetOptionUint32 r Observe.
Definition Msg_Accept (r : M) : Z * option error :=
  let '(v, err) := GetOptionUint32 r Accept in (CastTo KUint16 v, err).

Definition SetBody (r : M) (s : option (Reader + B)) : M := with_modified (with_body r s) true.

(** A [Seek] followed by an early return on its error. *)
Definition seek_or {A} (b : Reader + B) (o : Z) (w : Whence) (fail : Reader + B -> error -> A)
    (k : Reader + B -> Z -> A) : A :=
  let '(b, (n, err)) := Seek b o w in
  match err with Some e => fail b e | None => k b n end.

Definition BodySize (r : M) : M * (Z * option error) :=
  match body r with
  | None => (r, (0, None))
  | Some b =>
      let fail b e := (with_body r (Some b), (0, Some e)) in
      seek_or b 0 SeekCurrent fail (fun b orig =>
      seek_or b 0 SeekStart fail (fun b _ =>
      seek_or b 0 SeekEnd fail (fun b size =>
      seek_or b orig SeekStart fail (fun b _ =>
      (with_body r (Some b), (size, None))))))
  end.

Definition ReadBody (r : M) : M * (option (list byte) * option error) :=
  match body r with
  | None => (r, (None, None))
  | Some _ =>
      let '(r, (size, err)) := BodySize r in
      match err, body r with
      | Some e, _ => (r, (None, Some e))
      | None, None => (r, (None, None))
      | None, Some b =>
          if size =? 0 then (r, (None, None)) else
          seek_or b 0 SeekStart (fun b e => (with_body r (Some b), (None, Some e))) (fun b _ =>
            let len := if 1024 <? size then size else 1024 in
            let '(b, (d, err)) := ReadFull b len in
            let err := if bool_decide (err = Some ErrUnexpectedEOF \/ err = Some ErrEOF) && (zlen d =? size)
                       then None else err in
            let r := with_body r (Some b) in
            match err with
            | Some e => (r, (None, Some e))
            | None => (r, (Some d, None))
            end)
      end
  end.

Definition toMessage (r : M) : M * (Message * option error) :=
  let '(r, (p, err)) := ReadBody r in
  match err with
  | Some e => (r, (mkMessage None [] 0 0 None 0 0, Some e))
  | None =>
      let m := msg r in
      (r, (mkMessage (mToken m) (mOptions m) (mOptionsCap m) (mCode m) p (mMessageID m) (mType m), None))
  end.

(** The result is the marshal buffer itself. *)
Definition MarshalWithEncoder (encoder : CoderOps) (r : M) : M * (option (list byte) * option error) :=
  let '(r, (m, err)) := toMessage r in
  match err with
  | Some e => (r, (None, Some e))
  | None =>
      let '(size, err) := c_Size encoder m in
      match err with
      | Some e => (r, (None, Some e))
      | None =>
          let bm := bufferMarshal r in
          let bm := if zlen (s_data bm) <? size then Slice_append bm (size - zlen (s_data bm)) else bm in
          let '(buf, (n, err)) := c_Encode encoder m (s_data bm) in
          let bm := mkSlice buf (s_cap bm) in
          match err with
          | Some e => (with_buffers r (bufferUnmarshal r) bm, (None, Some e))
          | None =>
              let bm := Slice_to bm n in
              (with_buffers r (bufferUnmarshal r) bm, (Some (s_data bm), None))
          end
      end
  end.

(** The retry loop of [decode]: [None] means that the fuel did not suffice. *)
Fixpoint decode (fuel : nat) (decoder : CoderOps) (r : M) : option (M * (Z * option error)) :=
  match fuel with
  | O => None
  | S fuel =>
      let '(m, (n, err)) := c_Decode decoder (s_data (bufferUnmarshal r)) (msg r) in
      let r := with_msg r m in
      if bool_decide (err = Some ErrOptionsTooSmall) then
        let m := mkMessage (mToken m) [] (zlen (mOptions m) * 2) (mCode m) (mPayload m) (mMessageID m) (mType m) in
        decode fuel decoder (with_msg r m)
      else Some (r, (n, err))
  end.

Definition UnmarshalWithDecoder (fuel : nat) (decoder : CoderOps) (r : M) (data : list byte)
    : option (M * (Z * option error)) :=
  let bu := bufferUnmarshal r in
  let bu := if zlen (s_data bu) <? zlen data then Slice_append bu (zlen data - zlen (s_data bu)) else bu in
  let bu := mkSlice (copy_into (s_data bu) data) (s_cap bu) in
  let r := with_body r None in
  let r := with_buffers r (Slice_to bu (zlen data)) (bufferMarshal r) in
  match decode fuel decoder r with
  | None => None
  | Some (r, (n, Some e)) => Some (r, (n, Some e))
  | Some (r, (n, None)) =>
      let p := payload (msg r) in
      let r := if 0 <? zlen p then with_body r (Some (inl (NewReader p))) else r in
      Some (r, (n, None))
  end.

Definition IsSeparateMessage (r : M) : bool :=
  (mCode (msg r) =? Empty) && bool_decide (Msg_Token r = None) && (mType (msg r) =? Acknowledgement) &&
  (zlen (mOptions (msg r)) =? 0) && match body r with None => true | Some _ => false end.

Definition setupCommon (r : M) (code : Z) (path : list byte) (token : option (list byte)) (opts : Options)
    : option (M * option error) :=
  let r := SetCode r code in
  let r := SetToken r token in
  r ← Msg_ResetOptionsTo r opts;
  Some (Msg_SetPath r path).

(** [SetupPost], [SetupPut], [SetupFetch], [SetupPatch] and [SetupIPatch]. *)
Definition setup_with_payload (code : Z) (r : M) (path : list byte) (token : option (list byte))
    (contentFormat : Z) (payload : option (Reader + B)) (opts : Options) : option (M * option error) :=
  '(r, err) ← setupCommon r code path token opts;
  match err with
  | Some e => Some (r, Some e)
  | None =>
      match payload with
      | None => Some (r, None)
      | Some _ =>
          r ← Msg_SetContentFormat r contentFormat;
          Some (SetBody r payload, None)
      end
  end.

Definition SetupGet (r : M) path token opts := setupCommon r GET path token opts.
Definition SetupDelete (r : M) path token opts := setupCommon r DELETE path token opts.
Definition SetupPost := setup_with_payload POST.
Definition SetupPut := setup_with_payload PUT.
Definition SetupFetch := setup_with_payload FETCH.
Definition SetupPatch := setup_with_payload PATCH.
Definition SetupIPatch := setup_with_payload IPATCH.

(** [fuel] bounds the reads of [io.Copy(buf, body)]. *)
Definition Msg_Clone (fuel : nat) (r m : M) : option (M * M * option error) :=
  let m := SetCode m (mCode (msg r)) in
  let m := SetToken m (Msg_Token r) in
  m ← Msg_ResetOptionsTo m (mOptions (msg r));
  let m := SetType m (mType (msg r)) in
  let m := SetMessageID m (mMessageID (msg r)) in
  let m := SetControlMessage m (controlMessage r) in
  match body r with
  | None => Some (r, m, None)
  | Some b =>
      let fail b e := Some (with_body r (Some b), m, Some e) in
      seek_or b 0 SeekCurrent fail (fun b n =>
      seek_or b 0 SeekStart fail (fun b _ =>
      let '(b, (buf, err)) := Copy_loop fuel b [] in
      match err with
      | Some e => let '(b, _) := Seek b n SeekStart in fail b e
      | None =>
          seek_or b n SeekStart fail (fun b _ =>
          Some (with_body r (Some b), SetBody m (Some (inl (NewReader buf))), None))
      end))
  end.

End pool_message.

(** ** Setters *)

Section setters.
Context {Ctx CM B : Type}.
Implicit Types r : Msg Ctx CM B.

Definition opts_of (r : Msg Ctx CM B) : Options := mOptions (msg r).

Lemma opts_of_commit r buf o used : opts_of (commit r buf o used) = o.
Proof. done. Qed.

(** The retry succeeds when the operation writes [e] and then yields the options [o]. *)
Lemma set_with_retry_spec (f : list byte -> list byte * (Options * (Z * option error))) r (e : list byte) o :
  (forall buf, exists mem, f buf =
     (if zlen e <=? zlen buf then (mem, (o, (zlen e, None)))
      else (buf, (opts_of r, (zlen e, Some ErrTooSmall))))) ->
  exists buf, set_with_retry f r = Some (commit r buf o (zlen e)).
Proof.
  intros Hf. unfold set_with_retry. destruct (Hf (valueBuffer r)) as [mem Hm]. rewrite Hm.
  destruct (Z.leb_spec (zlen e) (zlen (valueBuffer r))) as [Hle|Hgt].
  - rewrite bool_decide_false by done. eauto.
  - rewrite bool_decide_true by done. destruct (Hf (valueBuffer r ++ make_bytes (zlen e))) as [mem2 Hm2].
    rewrite Hm2, zlen_app, zlen_make_bytes by apply zlen_nonneg. pose proof (zlen_nonneg (valueBuffer r)).
    destruct (Z.leb_spec (zlen e) (zlen (valueBuffer r) + zlen e)); [|lia]. eauto.
Qed.

Lemma SetBytes_shape options id v buf :
  (id = URIPath -> zlen v <= maxPathValue) ->
  exists mem, SetBytes options buf id v =
    if zlen v <=? zlen buf then (mem, (Options_Set options (mkOption id v), (zlen v, None)))
    else (buf, (options, (zlen v, Some ErrTooSmall))).
Proof.
  intros Hp. unfold SetBytes. destruct (Z.ltb_spec (zlen buf) (zlen v)), (Z.leb_spec (zlen v) (zlen buf)); try lia; [by exists buf|].
  exists (copy_into buf v). rewrite slice_to_copy_into by done.
  destruct (Z.eqb_spec id URIPath); [|done]. specialize (Hp e). by destruct (Z.ltb_spec maxPathValue (zlen v)); [lia|].
Qed.

Lemma AddBytes_shape options id v buf :
  (id = URIPath -> zlen v <= maxPathValue) ->
  exists mem, AddBytes options buf id v =
    if zlen v <=? zlen buf then (mem, (Options_Add options (mkOption id v), (zlen v, None)))
    else (buf, (options, (zlen v, Some ErrTooSmall))).
Proof.
  intros Hp. unfold AddBytes. destruct (Z.ltb_spec (zlen buf) (zlen v)), (Z.leb_spec (zlen v) (zlen buf)); try lia; [by exists buf|].
  exists (copy_into buf v). rewrite slice_to_copy_into by done.
  destruct (Z.eqb_spec id URIPath); [|done]. specialize (Hp e). by destruct (Z.ltb_spec maxPathValue (zlen v)); [lia|].
Qed.

Lemma SetUint32_shape options id v buf :
  0 <= v < 2 ^ 32 ->
  exists mem, SetUint32 options buf id v =
    if zlen (uint_bytes v) <=? zlen buf
    then (mem, (Options_Set options (mkOption id (uint_bytes v)), (zlen (uint_bytes v), None)))
    else (buf, (options, (zlen (uint_bytes v), Some ErrTooSmall))).
Proof.
  intros Hv. unfold SetUint32. rewrite EncodeUint32_writes by done. unfold writes.
  destruct (Z.leb_spec (zlen (uint_bytes v)) (zlen buf)); [|by exists buf].
  eexists. by rewrite slice_to_copy_into.
Qed.

Lemma AddUint32_shape options id v buf :
  0 <= v < 2 ^ 32 ->
  exists mem, AddUint32 options buf id v =
    if zlen (uint_bytes v) <=? zlen buf
    then (mem, (Options_Add options (mkOption id (uint_bytes v)), (zlen (uint_bytes v), None)))
    else (buf, (options, (zlen (uint_bytes v), Some ErrTooSmall))).
Proof.
  intros Hv. unfold AddUint32. rewrite EncodeUint32_writes by done. unfold writes.
  destruct (Z.leb_spec (zlen (uint_bytes v)) (zlen buf)); [|by exists buf].
  eexists. by rewrite slice_to_copy_into.
Qed.

Lemma SetOptionUint32_ok r id v :
  0 <= v < 2 ^ 32 ->
  exists buf, SetOptionUint32 r id v =
    Some (commit r buf (Options_Set (opts_of r) (mkOption id (uint_bytes v))) (zlen (uint_bytes v))).
Proof. intros Hv. apply set_with_retry_spec. intros buf. by apply SetUint32_shape. Qed.

Lemma AddOptionUint32_ok r id v :
  0 <= v < 2 ^ 32 ->
  exists buf, AddOptionUint32 r id v =
    Some (commit r buf (Options_Add (opts_of r) (mkOption id (uint_bytes v))) (zlen (uint_bytes v))).
Proof. intros Hv. apply set_with_retry_spec. intros buf. by apply AddUint32_shape. Qed.

Lemma SetOptionString_ok r id v :
  (id = URIPath -> zlen v <= maxPathValue) ->
  exists buf, SetOptionString r id v = Some (commit r buf (Options_Set (opts_of r) (mkOption id v)) (zlen v)).
Proof. intros Hv. apply set_with_retry_spec. intros buf. by apply SetBytes_shape. Qed.

Lemma AddOptionString_ok r id v :
  (id = URIPath -> zlen v <= maxPathValue) ->
  exists buf, AddOptionString r id v = Some (commit r buf (Options_Add (opts_of r) (mkOption id v)) (zlen v)).
Proof. intros Hv. apply set_with_retry_spec. intros buf. by apply AddBytes_shape. Qed.

Lemma put_value_front r v : slice_to (put_value r v) (zlen v) = v.
Proof.
  unfold put_value. pose proof (zlen_nonneg (valueBuffer r)). apply slice_to_copy_into.
  destruct (Z.ltb_spec (zlen (valueBuffer r)) (zlen v)); [|lia].
  rewrite zlen_app, zlen_make_bytes by lia. lia.
Qed.

Lemma SetOptionString_panics r s : maxPathValue < zlen s -> SetOptionString r URIPath s = None.
Proof.
  intros Hs. unfold SetOptionString, set_with_retry, SetString, SetBytes.
  assert ((maxPathValue <? zlen s) = true) as -> by (by apply Z.ltb_lt).
  destruct (Z.ltb_spec (zlen (valueBuffer r)) (zlen s)); [|done].
  rewrite bool_decide_true by done. rewrite zlen_app, zlen_make_bytes by apply zlen_nonneg.
  pose proof (zlen_nonneg (valueBuffer r)). by destruct (Z.ltb_spec (zlen (valueBuffer r) + zlen s) (zlen s)); [lia|].
Qed.

(** A message whose options are sorted. *)
Definition msg_ok (r : Msg Ctx CM B) : Prop := sorted_opts (opts_of r).

(** The option setters of a message implement the multimap of its options: a
    32-bit value is stored and read back; a string or byte value replaces, or is
    appended to, the values of its number; nothing else changes, the options stay
    sorted, and the value buffer grows as needed, so that no call panics (a string
    for [URIPath] above 255 bytes is the one that does). *)
Theorem Msg_setters_correct (r : Msg Ctx CM B) (id v : Z) (s : list byte)
    (Hok : msg_ok r) (Hv : 0 <= v < 2 ^ 32) (Hs : id = URIPath -> zlen s <= maxPathValue) :
  (exists r', SetOptionUint32 r id v = Some r' /\ msg_ok r' /\ GetOptionUint32 r' id = (v, None) /\
     forall id', id' <> id -> vals (opts_of r') id' = vals (opts_of r) id') /\
  (exists r', SetOptionString r id s = Some r' /\ msg_ok r' /\
     forall id', vals (opts_of r') id' = if decide (id' = id) then [s] else vals (opts_of r) id') /\
  (exists r', AddOptionString r id s = Some r' /\ msg_ok r' /\
     forall id', vals (opts_of r') id' =
       if decide (id' = id) then vals (opts_of r) id' ++ [s] else vals (opts_of r) id') /\
  (msg_ok (SetOptionBytes r id s) /\
     forall id', vals (opts_of (SetOptionBytes r id s)) id' =
       if decide (id' = id) then [s] else vals (opts_of r) id') /\
  (forall s', maxPathValue < zlen s' -> SetOptionString r URIPath s' = None).
Proof.
  split_and!.
  - destruct (SetOptionUint32_ok r id v Hv) as [buf ->]. eexists. split; [done|].
    destruct (Set_vals zeroOption (opts_of r) (mkOption id (uint_bytes v)) Hok) as [Hs' Hvals].
    split; [done|]. split.
    + unfold GetOptionUint32. fold (opts_of (commit r buf (Options_Set (opts_of r) (mkOption id (uint_bytes v))) (zlen (uint_bytes v)))).
      rewrite opts_of_commit, GetUint32_vals by done. unfold Options_Set. rewrite Hvals. cbn [ID Value]. rewrite decide_True by done.
      pose proof (zlen_uint_bytes v). rewrite DecodeUint32_short by lia. by rewrite be_combine_uint_bytes.
    + intros id' Hne. rewrite opts_of_commit. unfold Options_Set. rewrite Hvals. cbn [ID]. by rewrite decide_False.
  - destruct (SetOptionString_ok r id s Hs) as [buf ->]. eexists. split; [done|].
    destruct (Set_vals zeroOption (opts_of r) (mkOption id s) Hok) as [Hs' Hvals]. by split.
  - destruct (AddOptionString_ok r id s Hs) as [buf ->]. eexists. split; [done|].
    destruct (Add_vals zeroOption (opts_of r) (mkOption id s) Hok) as [Hs' Hvals]. by split.
  - unfold SetOptionBytes. rewrite put_value_front.
    apply (Set_vals zeroOption (opts_of r) (mkOption id s) Hok).
  - unfold SetOptionBytes. rewrite put_value_front.
    apply (Set_vals zeroOption (opts_of r) (mkOption id s) Hok).
  - apply SetOptionString_panics.
Qed.
End setters.

Definition sample_msg : Msg unit unit Reader := with_msg (NewMessage None) sample_message.

Lemma Msg_setters_correct_witness :
  exists r', SetOptionUint32 sample_msg ContentFormat 50 = Some r' /\ GetOptionUint32 r' ContentFormat = (50, None).
Proof.
  destruct (Msg_setters_correct sample_msg ContentFormat 50 [] sample_sorted ltac:(lia) ltac:(discriminate))
    as [(r' & H1 & _ & H2 & _) _].
  exists r'. split; [exact H1|exact H2].
Defined.

(** ** Paths *)

Section paths.
Context {Ctx CM B : Type}.
Implicit Types r : Msg Ctx CM B.

(** [SetPath] on a container: the result when the buffer is large enough, and the
    error when it is not. *)
Lemma SetPath_result options buf path :
  path <> [] -> segments_fit path = true ->
  if zlen (concat (segments path)) <=? zlen buf
  then exists buf', SetPath options buf path =
    (buf', (add_segments (Remove options URIPath) URIPath (segments path), (zlen (concat (segments path)), None)))
  else SetPath options buf path = (buf, (Remove_array options URIPath, (-1, Some ErrTooSmall))).
Proof.
  intros Hne Hfit. unfold SetPath, setPath. destruct path as [|c path]; [done|].
  set (p := if c =? slash then path else c :: path).
  assert (segments p = segments (c :: path)) as Ep.
  { unfold p. destruct (Z.eqb_spec c slash) as [->|]; [by rewrite segments_slash|done]. }
  unfold GetPathBufferSize. rewrite GetPathBufferSize_loop_spec by lia.
  unfold segments_fit in *. rewrite Ep, Hfit, Z.add_0_l.
  destruct (Z.ltb_spec (zlen buf) (zlen (concat (segments (c :: path))))),
    (Z.leb_spec (zlen (concat (segments (c :: path)))) (zlen buf)); try lia; [done|].
  destruct (setPath_loop (length p) (Remove options URIPath) URIPath buf p 0) as [buf' res] eqn:E.
  exists buf'. f_equal. change res with (snd (buf', res)). rewrite <- E.
  rewrite setPath_loop_spec; rewrite ?Z.add_0_l; unfold segments_fit; rewrite ?Ep; done || lia.
Qed.

Lemma Remove_array_absent options id : sorted_opts options -> vals options id = [] -> Remove_array options id = options.
Proof.
  intros Hs Hv. unfold Remove_array. rewrite Find_vals by done. by rewrite decide_True.
Qed.

(** [Message.SetPath] stores a valid path of any length when the message has no
    path yet (the value buffer is expanded when it is too small), or when its value
    buffer is large enough: the path is replaced by the segments, all other options
    are kept, and the options stay sorted. *)
Theorem Msg_SetPath_correct (r : Msg Ctx CM B) (p : list byte)
    (Hok : msg_ok r) (Hne : segments p <> []) (Hfit : segments_fit p = true)
    (Hroom : vals (opts_of r) URIPath = [] \/ zlen (concat (segments p)) <= zlen (valueBuffer r)) :
  exists r', Msg_SetPath r p = (r', None) /\ msg_ok r' /\ isModified r' = true /\
    forall id, vals (opts_of r') id = if decide (id = URIPath) then segments p else vals (opts_of r) id.
Proof.
  assert (p <> []) as Hp by (intros ->; done).
  pose proof (SetPath_result (opts_of r) (valueBuffer r) p Hp Hfit) as H1.
  destruct (Remove_vals (opts_of r) URIPath Hok) as [HsR HvR].
  destruct (add_segments_vals (Remove (opts_of r) URIPath) URIPath (segments p) HsR) as [HsA HvA].
  assert (forall buf used (r0 : Msg Ctx CM B),
    msg_ok (commit r0 buf (add_segments (Remove (opts_of r) URIPath) URIPath (segments p)) used) /\
    isModified (commit r0 buf (add_segments (Remove (opts_of r) URIPath) URIPath (segments p)) used) = true /\
    forall id, vals (opts_of (commit r0 buf (add_segments (Remove (opts_of r) URIPath) URIPath (segments p)) used)) id =
      if decide (id = URIPath) then segments p else vals (opts_of r) id) as Hfin.
  { intros buf used r0. split; [done|]. split; [done|]. intros id. rewrite opts_of_commit, HvA, HvR. by case_decide. }
  unfold Msg_SetPath. fold (opts_of r).
  destruct (Z.leb_spec (zlen (concat (segments p))) (zlen (valueBuffer r))) as [Hle|Hgt].
  - destruct H1 as [buf' ->]. rewrite bool_decide_false by done. eexists. split; [done|]. apply Hfin.
  - rewrite H1, bool_decide_true by done. destruct Hroom as [Hv|]; [|lia].
    rewrite Remove_array_absent by done.
    assert (GetPathBufferSize p = (zlen (concat (segments p)), None)) as ->.
    { unfold GetPathBufferSize. rewrite GetPathBufferSize_loop_spec by lia. by rewrite Hfit, Z.add_0_l. }
    change (mOptions (msg (set_options r (opts_of r)))) with (opts_of r).
    pose proof (SetPath_result (opts_of r) (valueBuffer r ++ make_bytes (zlen (concat (segments p)))) p Hp Hfit) as H2.
    rewrite zlen_app, zlen_make_bytes in H2 by apply zlen_nonneg. pose proof (zlen_nonneg (valueBuffer r)).
    destruct (Z.leb_spec (zlen (concat (segments p))) (zlen (valueBuffer r) + zlen (concat (segments p)))); [|lia].
    destruct H2 as [buf' ->]. eexists. split; [done|]. apply Hfin.
Qed.
End paths.

Lemma Msg_SetPath_correct_witness :
  exists r', Msg_SetPath sample_msg sample_path = (r', None) /\
    vals (opts_of r') URIPath = [[102; 111; 111]; [98]].
Proof.
  destruct (Msg_SetPath_correct sample_msg sample_path sample_sorted) as (r' & H1 & _ & _ & H2);
    [discriminate|reflexivity|right; cbv; discriminate|].
  exists r'. split; [exact H1|exact (H2 URIPath)].
Defined.

(** When a message already has a path and the new one does not fit the value
    buffer, the retry of [Message.SetPath] starts from the slice that the failed
    attempt has shifted: the options behind the path are duplicated. *)
Theorem Msg_SetPath_duplicates_options :
  let r : Msg unit unit Reader :=
    with_valueBuffer (set_options (NewMessage None) [mkOption URIPath [97]; mkOption URIQuery [113]]) [] in
  let '(r', err) := Msg_SetPath r [98] in
  err = None /\ opts_of r' = [mkOption URIPath [98]; mkOption URIQuery [113]; mkOption URIQuery [113]].
Proof. by vm_compute. Qed.

(** ** The body *)

Section bodies.
Context {Ctx CM B : Type} `{!ReadSeeker B} `{!ReadSeekerLaws B}.
Implicit Types r : Msg Ctx CM B.

(** The bytes a message carries as its payload, and where they are read from. *)
Definition body_content (r : Msg Ctx CM B) : list byte :=
  match body r with Some b => content b | None => [] end.

Definition body_ok (r : Msg Ctx CM B) : Prop :=
  match body r with Some b => rs_ok b | None => True end.

Lemma BodySize_spec r b :
  body r = Some b -> rs_ok b ->
  exists b', BodySize r = (with_body r (Some b'), (zlen (content b), None)) /\
    rs_ok b' /\ content b' = content b /\ offset b' = offset b.
Proof.
  intros E Hok. unfold BodySize, seek_or. rewrite E. pose proof (offset_range b Hok) as Ho.
  destruct (seek_current b Hok) as (b1 & -> & Hok1 & Hc1 & _).
  destruct (seek_start b1 0 Hok1) as (b2 & -> & Hok2 & Hc2 & _); [pose proof (zlen_nonneg (content b1)); lia|].
  destruct (seek_end b2 Hok2) as (b3 & -> & Hok3 & Hc3 & _).
  destruct (seek_start b3 (offset b) Hok3) as (b4 & -> & Hok4 & Hc4 & Ho4); [by rewrite Hc3, Hc2, Hc1|].
  exists b4. rewrite Hc2, Hc1. split; [done|]. split; [done|]. split; [congruence|done].
Qed.

Lemma ReadFull_spec (b : Reader + B) n :
  rs_ok b -> offset b = 0 -> 0 < n -> 0 < zlen (content b) <= n ->
  exists b', ReadFull b n =
    (b', (content b, if zlen (content b) <? n then Some ErrUnexpectedEOF else None)) /\
    rs_ok b' /\ content b' = content b.
Proof.
  intros Hok Ho Hn Hl. unfold ReadFull.
  destruct (ReadFull_loop_spec (S (Z.to_nat n)) b n [] 0) as (b' & d & err & -> & Hok' & Hc & Hd & Hz & He);
    [done|lia|done|by rewrite Ho|change (zlen (@nil Z)) with 0; lia|change (zlen (@nil Z)) with 0; lia|].
  rewrite Z.sub_0_r in Hz. rewrite slice_from_0, slice_to_all in Hd by lia. subst d.
  exists b'. split; [|done]. do 2 f_equal. rewrite He.
  destruct (Z.ltb_spec (zlen (content b)) n), (Z.leb_spec n (zlen (content b))); try lia; [|done].
  destruct (Z.ltb_spec 0 (zlen (content b))); [|lia]. by rewrite bool_decide_true.
Qed.

Lemma ReadBody_spec r :
  body_ok r ->
  exists b', ReadBody r = (with_body r b', (nil_if_empty (body_content r), None)) /\
    body_content (with_body r b') = body_content r /\ body_ok (with_body r b') /\ (b' = None <-> body r = None).
Proof.
  unfold body_ok, body_content, ReadBody. destruct (body r) as [b|] eqn:E.
  - intros Hok. destruct (BodySize_spec r b E Hok) as (b' & -> & Hok' & Hc & Ho). cbn [body with_body].
    destruct (Z.eqb_spec (zlen (content b)) 0) as [Hz|Hz].
    + exists (Some b'). apply zlen_0_nil in Hz. by rewrite Hc, Hz.
    + pose proof (zlen_nonneg (content b)). unfold seek_or.
      destruct (seek_start b' 0 Hok') as (b2 & -> & Hok2 & Hc2 & Ho2); [rewrite Hc; lia|].
      set (len := if 1024 <? zlen (content b) then zlen (content b) else 1024).
      assert (zlen (content b) <= len) as Hlen by (unfold len; destruct (Z.ltb_spec 1024 (zlen (content b))); lia).
      destruct (ReadFull_spec b2 len) as (b3 & -> & Hok3 & Hc3); [done|done|lia|rewrite Hc2, Hc; lia|].
      rewrite Hc2, Hc in *. rewrite Z.eqb_refl, andb_true_r.
      exists (Some b3). rewrite Hc3.
      assert (nil_if_empty (content b) = Some (content b)) as -> by (destruct (content b); done).
      destruct (Z.ltb_spec (zlen (content b)) len).
      * by rewrite bool_decide_true by auto.
      * by rewrite bool_decide_false by (intros [|]; done).
  - intros _. exists None. split; [|done]. unfold with_body. rewrite <- E. by destruct r.
Qed.

(** ** Encoding and decoding through a coder *)

Context (growcap : Z -> Z).

(** The wire message of a pooled message. *)
Definition wire (r : Msg Ctx CM B) : Message :=
  let m := msg r in
  mkMessage (mToken m) (mOptions m) (mOptionsCap m) (mCode m) (nil_if_empty (body_content r)) (mMessageID m) (mType m).

Lemma MarshalWithEncoder_spec (C : CoderOps) `{!Coder C} r :
  body_ok r -> c_wf (wire r) ->
  exists r', MarshalWithEncoder growcap C r = (r', (Some (c_bytes (wire r)), None)) /\
    msg r' = msg r /\ body_content r' = body_content r /\ body_ok r'.
Proof.
  intros Hok Hwf. unfold MarshalWithEncoder, toMessage.
  destruct (ReadBody_spec r Hok) as (b' & -> & Hc & Hok' & _). cbn [msg with_body]. fold (wire r).
  rewrite (c_size (C := C) _ Hwf). set (e := c_bytes (wire r)) in *.
  set (bm := if _ <? _ then _ else _). assert (zlen e <= zlen (s_data bm)) as Hl.
  { unfold bm. cbn [bufferMarshal with_body]. destruct (Z.ltb_spec (zlen (s_data (bufferMarshal r))) (zlen e)); [|lia].
    cbn [s_data Slice_append]. rewrite zlen_app, zlen_make_bytes by lia. lia. }
  rewrite (c_encode (C := C) _ _ Hwf Hl). fold e. cbn [s_data Slice_to]. rewrite slice_to_app.
  eexists. split; [done|]. done.
Qed.

Lemma decode_spec (C : CoderOps) `{!Coder C} fuel r :
  bytes_ok (s_data (bufferUnmarshal r)) -> 0 < mOptionsCap (msg r) ->
  Z.max 0 (zlen (mOptions (msg r)) + zlen (s_data (bufferUnmarshal r)) - mOptionsCap (msg r)) < Z.of_nat fuel ->
  exists r' n err, decode fuel C r = Some (r', (n, err)) /\ err <> Some ErrOptionsTooSmall.
Proof.
  revert r. induction fuel as [|fuel IH]; intros r Hb Hcap Hf; [lia|]. cbn [decode].
  destruct (c_Decode C (s_data (bufferUnmarshal r)) (msg r)) as [m [n err]] eqn:ED.
  case_bool_decide as Ee; [|eauto 6]. subst err.
  apply (c_too_small (C := C)) in ED as [E1 E2]; [|done].
  pose proof (zlen_nonneg (mOptions (msg r))).
  apply IH; [done|cbn; lia|]. cbn. change (zlen (@nil Option)) with 0. lia.
Qed.

Lemma decode_first (C : CoderOps) `{!Coder C} fuel r m :
  s_data (bufferUnmarshal r) = c_bytes m -> c_wf m -> zlen (c_bytes m) < 4294967296 ->
  mOptions (msg r) = [] -> mPayload (msg r) = None -> zlen (mOptions m) <= mOptionsCap (msg r) ->
  decode (S fuel) C r = Some (with_msg r (c_decoded m (msg r)), (zlen (c_bytes m), None)).
Proof.
  intros Hb Hwf Hl Ho Hp Hc. cbn [decode]. rewrite Hb, (c_decode (C := C)) by done.
  by rewrite bool_decide_false.
Qed.

Lemma unmarshal_buffer r data :
  let bu := bufferUnmarshal r in
  let bu := if zlen (s_data bu) <? zlen data then Slice_append growcap bu (zlen data - zlen (s_data bu)) else bu in
  let bu := mkSlice (copy_into (s_data bu) data) (s_cap bu) in
  s_data (Slice_to bu (zlen data)) = data.
Proof.
  cbv zeta. cbn [s_data Slice_to]. apply slice_to_copy_into.
  destruct (Z.ltb_spec (zlen (s_data (bufferUnmarshal r))) (zlen data)); [|lia].
  cbn [s_data Slice_append]. rewrite zlen_app, zlen_make_bytes by lia. lia.
Qed.
End bodies.

Section transfer.
Context {Ctx CM B : Type} `{!ReadSeeker B} `{!ReadSeekerLaws B}.
Implicit Types r : Msg Ctx CM B.
Context (growcap : Z -> Z).

Lemma body_content_new r p :
  body r = None ->
  body_content (if 0 <? zlen p then with_body r (Some (inl (NewReader p))) else r) = p.
Proof.
  intros Hb. destruct (Z.ltb_spec 0 (zlen p)) as [|Hz]; [done|]. unfold body_content. rewrite Hb.
  symmetry. apply zlen_0_nil. pose proof (zlen_nonneg p). lia.
Qed.

(** Decoding an encoded message, with as many retries as the capacity needs. *)
Lemma decode_bytes (C : CoderOps) `{!Coder C} fuel r m :
  s_data (bufferUnmarshal r) = c_bytes m -> c_wf m -> zlen (c_bytes m) < 4294967296 ->
  mOptions (msg r) = [] -> mPayload (msg r) = None -> 0 < mOptionsCap (msg r) ->
  Z.max 0 (zlen (mOptions m) - mOptionsCap (msg r)) < Z.of_nat fuel ->
  exists m0, zlen (mOptions m) <= mOptionsCap m0 /\
    decode fuel C r = Some (with_msg r (c_decoded m m0), (zlen (c_bytes m), None)).
Proof.
  revert r. induction fuel as [|fuel IH]; intros r Hb Hwf Hl Ho Hp Hcap Hf; [lia|].
  destruct (Z.le_gt_cases (zlen (mOptions m)) (mOptionsCap (msg r))) as [Hle|Hgt].
  - exists (msg r). split; [done|]. by apply decode_first.
  - cbn [decode]. rewrite Hb.
    destruct (c_decode_grow (C := C) m (msg r)) as (m' & n & -> & Hlen & Hpay); [done|done|done|lia|done|].
    rewrite bool_decide_true by done.
    destruct (IH (with_msg (with_msg r m') (mkMessage (mToken m') [] (zlen (mOptions m') * 2) (mCode m')
                    (mPayload m') (mMessageID m') (mType m')))) as [m0 Hm0]; try done; cbn; try lia.
    exists m0. exact Hm0.
Qed.

(** C30: a message survives the trip through any coder: marshalling one message and
    unmarshalling the bytes into another that has no options and no payload, with a
    non-empty option slice (a message of the pool has room for 16 options), yields the same
    token (an empty one as nil), code, options and body contents, wherever the body of the
    sender was positioned and however many options there are: the option slice of the
    receiver grows, and the loop ends within one round per option.  With an option slice of
    capacity 0 the loop would not end ([Msg_decode_diverges]).  The message is one that the
    coder can encode and whose body can be read, and its encoding is below 4 GiB. *)
Theorem Msg_transfer_roundtrip (C : CoderOps) `{!Coder C} (r q : Msg Ctx CM B)
    (Hok : body_ok r) (Hwf : c_wf (wire r)) (Hl : zlen (c_bytes (wire r)) < 4294967296)
    (Ho : mOptions (msg q) = []) (Hp : mPayload (msg q) = None) (Hcap : 0 < mOptionsCap (msg q)) :
  exists r' q', MarshalWithEncoder growcap C r = (r', (Some (c_bytes (wire r)), None)) /\
    msg r' = msg r /\ body_content r' = body_content r /\
    UnmarshalWithDecoder growcap (S (length (mOptions (msg r)))) C q (c_bytes (wire r)) =
      Some (q', (zlen (c_bytes (wire r)), None)) /\
    mToken (msg q') = nil_if_empty (token (msg r)) /\ mCode (msg q') = mCode (msg r) /\
    opts_of q' = opts_of r /\ body_content q' = body_content r.
Proof.
  destruct (MarshalWithEncoder_spec growcap C r Hok Hwf) as (r' & Hm & Hmsg & Hbody & _).
  exists r'. unfold UnmarshalWithDecoder. set (bu := Slice_to _ _).
  assert (s_data bu = c_bytes (wire r)) as Hbu by apply unmarshal_buffer.
  destruct (decode_bytes C (S (length (mOptions (msg r)))) (with_buffers (with_body q None) bu (bufferMarshal (with_body q None)))
              (wire r)) as (m0 & _ & Hd); [done|done|done|done|done|done|cbn; unfold zlen; lia|].
  rewrite Hd. eexists. split; [done|]. split; [done|]. split; [done|]. split; [done|].
  destruct (c_decode_same (C := C) (wire r) m0) as (Ht & Hopt & Hcode & Hpay).
  set (r0 := with_msg _ _).
  assert (payload (msg r0) = body_content r) as Hpl.
  { unfold r0, payload. cbn [msg with_msg]. rewrite Hpay. unfold payload. cbn [mPayload wire].
    by rewrite nil_if_empty_idem, default_nil_if_empty. }
  rewrite Hpl, body_content_new by done. unfold opts_of.
  by destruct (0 <? zlen (body_content r)); cbn [msg with_body with_msg r0].
Qed.

(** Decoding any bytes into a message with a non-empty option slice ends: the
    retries stop after at most as many rounds as there are bytes, and the error that
    triggers them is never returned. *)
Theorem Msg_decode_terminates (C : CoderOps) `{!Coder C} (q : Msg Ctx CM B) (data : list byte)
    (Hb : bytes_ok data) (Hcap : 0 < mOptionsCap (msg q)) (Ho : zlen (mOptions (msg q)) <= mOptionsCap (msg q)) :
  exists q' n err, UnmarshalWithDecoder growcap (S (length data)) C q data = Some (q', (n, err)) /\
    err <> Some ErrOptionsTooSmall.
Proof.
  unfold UnmarshalWithDecoder. set (bu := Slice_to _ _).
  assert (s_data bu = data) as Hbu by apply unmarshal_buffer.
  destruct (decode_spec C (S (length data)) (with_buffers (with_body q None) bu (bufferMarshal (with_body q None))))
    as (r' & n & err & -> & He); cbn [bufferUnmarshal with_buffers msg with_body]; rewrite ?Hbu; [done|done| |].
  - pose proof (zlen_nonneg data). unfold zlen in *. lia.
  - destruct err as [e|]; eauto 6.
Qed.
End transfer.

Definition receiver : Msg unit unit Reader := NewMessage None.
Definition sender : Msg unit unit Reader := with_body sample_msg (Some (inl (mkReader [104; 105] 1))).

Lemma Msg_transfer_roundtrip_witness :
  exists q', UnmarshalWithDecoder (fun n => n) 5 UdpCoder receiver (Udp.bytes (wire sender)) =
      Some (q', (zlen (Udp.bytes (wire sender)), None)) /\ body_content q' = [104; 105].
Proof.
  destruct (Msg_transfer_roundtrip (fun n => n) UdpCoder sender receiver) as (r' & q' & _ & _ & _ & H1 & _ & _ & _ & H2);
    [cbv; split; discriminate|exact sample_message_wf|reflexivity|reflexivity|reflexivity|reflexivity|].
  exists q'. split; [exact H1|exact H2].
Defined.

Lemma Msg_decode_terminates_witness :
  exists q' n err, UnmarshalWithDecoder (fun n => n) 7 TcpCoder receiver [33; 0; 0; 0; 1; 2] = Some (q', (n, err)) /\
    err <> Some ErrOptionsTooSmall.
Proof.
  apply (Msg_decode_terminates (fun n => n) TcpCoder receiver [33; 0; 0; 0; 1; 2]).
  - repeat constructor; cbv; congruence.
  - reflexivity.
  - cbv. discriminate.
Defined.

(** With an option slice of capacity 0 (a message that took over the nil options of
    [SetMessage] and went back to the pool) the retry doubles 0: decoding a datagram
    that has an option never returns. *)
Theorem Msg_decode_diverges (fuel : nat) :
  let q : Msg unit unit Reader :=
    Msg_Reset (SetMessage (NewMessage None) (mkMessage None [] 0 GET None 1 Confirmable)) in
  UnmarshalWithDecoder (fun n => n) fuel UdpCoder q [64; 1; 0; 7; 177; 97] = None.
Proof.
  cbv zeta. unfold UnmarshalWithDecoder. set (q := with_buffers _ _ _).
  assert (s_data (bufferUnmarshal q) = [64; 1; 0; 7; 177; 97] /\ mOptionsCap (msg q) = 0) as [H1 H2] by done.
  assert (forall r : Msg unit unit Reader, s_data (bufferUnmarshal r) = [64; 1; 0; 7; 177; 97] ->
            mOptionsCap (msg r) = 0 -> decode fuel UdpCoder r = None) as Hd.
  { clear. induction fuel as [|fuel IH]; intros r H1 H2; [done|]. cbn [decode]. rewrite H1.
    destruct (msg r) as [tk op cap cd pl mid ty]. cbn in H2. subst cap.
    replace (c_Decode UdpCoder [64; 1; 0; 7; 177; 97] (mkMessage tk op 0 cd pl mid ty))
      with (mkMessage None [] 0 1 None 7 0, (-1, Some ErrOptionsTooSmall)) by reflexivity.
    rewrite bool_decide_true by done. by apply IH. }
  by rewrite Hd.
Qed.

(** ** Cloning *)

Section cloning.
Context {Ctx CM B : Type} `{!ReadSeeker B} `{!ReadSeekerLaws B}.
Implicit Types r m : Msg Ctx CM B.

Lemma Msg_ResetOptionsTo_spec m in_ :
  sorted_opts in_ ->
  exists m', Msg_ResetOptionsTo m in_ = Some m' /\ opts_of m' = in_ /\ body m' = body m /\
    mToken (msg m') = mToken (msg m) /\ mCode (msg m') = mCode (msg m) /\ controlMessage m' = controlMessage m /\
    mType (msg m') = mType (msg m) /\ sequence m' = sequence m /\ ctx m' = ctx m.
Proof.
  intros Hs. unfold Msg_ResetOptionsTo. fold (opts_of m).
  pose proof (ResetOptionsTo_spec (opts_of m) (valueBuffer m) in_ Hs) as H1.
  destruct (ResetOptionsTo (opts_of m) (valueBuffer m) in_) as [buf res] eqn:E. cbn [snd] in H1. subst res.
  assert (zlen buf = zlen (valueBuffer m)) as Hbuf.
  { change buf with (fst (buf, if values_size in_ <=? zlen (valueBuffer m) then (in_, (values_size in_, @None error))
      else (opts_of m, (values_size in_, Some ErrTooSmall)))). rewrite <- E. apply ResetOptionsTo_length. }
  assert (forall b used, exists m',
    Some (if 0 <? zlen in_ then with_modified (with_valueBuffer (set_options m in_) (slice_from b used)) true
          else with_valueBuffer (set_options m in_) (slice_from b used)) = Some m' /\
    opts_of m' = in_ /\ body m' = body m /\ mToken (msg m') = mToken (msg m) /\
    mCode (msg m') = mCode (msg m) /\ controlMessage m' = controlMessage m /\
    mType (msg m') = mType (msg m) /\ sequence m' = sequence m /\ ctx m' = ctx m) as Hfin.
  { intros b used. eexists. split; [done|]. by destruct (0 <? zlen in_). }
  destruct (Z.leb_spec (values_size in_) (zlen (valueBuffer m))) as [Hle|Hgt].
  - rewrite bool_decide_false by done. apply Hfin.
  - rewrite bool_decide_true by done.
    pose proof (ResetOptionsTo_spec (opts_of m) (buf ++ make_bytes (values_size in_)) in_ Hs) as H2.
    destruct (ResetOptionsTo (opts_of m) (buf ++ make_bytes (values_size in_)) in_) as [buf2 res2].
    cbn [snd] in H2. subst res2. pose proof (zlen_nonneg (valueBuffer m)).
    rewrite zlen_app, zlen_make_bytes by apply zlen_nonneg.
    destruct (Z.leb_spec (values_size in_) (zlen buf + values_size in_)); [|lia]. apply Hfin.
Qed.

(** [Clone] copies code, token, options, type, message ID, control message and the
    whole body of a message with sorted options, and leaves the original as it was,
    its body at the same offset. *)
Theorem Msg_Clone_correct (r m : Msg Ctx CM B) (b : Reader + B) (fuel : nat)
    (Hok : msg_ok r) (Hbody : body r = Some b) (Hb : rs_ok b) (Hf : (length (content b) < fuel)%nat) :
  exists b' m', Msg_Clone fuel r m = Some (with_body r (Some b'), m', None) /\
    content b' = content b /\ offset b' = offset b /\
    mCode (msg m') = mCode (msg r) /\ opts_of m' = opts_of r /\ mType (msg m') = mType (msg r) /\
    mMessageID (msg m') = mMessageID (msg r) /\ controlMessage m' = controlMessage r /\
    token (msg m') = token (msg r) /\ body_content m' = content b.
Proof.
  unfold Msg_Clone, Msg_Token. fold (opts_of r).
  destruct (Msg_ResetOptionsTo_spec (SetToken (SetCode m (mCode (msg r))) (mToken (msg r))) (opts_of r) Hok)
    as (m1 & -> & Ho & _ & Ht & Hc & _).
  cbn [mbind option_bind]. rewrite Hbody. unfold seek_or. pose proof (offset_range b Hb) as Hrange.
  destruct (seek_current b Hb) as (b1 & -> & Hb1 & Hc1 & Ho1).
  destruct (seek_start b1 0 Hb1) as (b2 & -> & Hb2 & Hc2 & Ho2); [rewrite Hc1; pose proof (zlen_nonneg (content b)); lia|].
  destruct (Copy_loop_spec fuel b2 [] Hb2) as (b3 & -> & Hb3 & Hc3);
    [rewrite Ho2, Hc2, Hc1; unfold zlen; lia|].
  destruct (seek_start b3 (offset b) Hb3) as (b4 & -> & Hb4 & Hc4 & Ho4); [by rewrite Hc3, Hc2, Hc1|].
  exists b4. eexists. split; [done|]. split; [congruence|]. split; [done|].
  assert (forall cm, opts_of (SetControlMessage (SetMessageID (SetType m1 (mType (msg r))) (mMessageID (msg r))) cm)
            = opts_of m1) as Hopt by done.
  split_and!; try done.
  - unfold token. cbn [msg SetBody with_modified with_body SetControlMessage SetMessageID with_msg SetType mToken].
    rewrite Ht. cbn [msg SetToken with_msg mToken]. destruct (mToken (msg r)) as [[|]|]; [|done|done].
    by case_match.
  - change (slice_from (content b2) (offset b2) = content b). rewrite Ho2, slice_from_0. congruence.
Qed.
End cloning.

Lemma Msg_Clone_correct_witness :
  exists b' m', Msg_Clone 3 sender receiver = Some (with_body sender (Some b'), m', None) /\
    offset b' = 1 /\ body_content m' = [104; 105].
Proof.
  destruct (Msg_Clone_correct sender receiver (inl (mkReader [104; 105] 1)) 3)
    as (b' & m' & H1 & _ & H2 & _ & _ & _ & _ & _ & _ & H3);
    [exact sample_sorted|reflexivity|cbv; split; discriminate|cbv; lia|].
  exists b', m'. split; [exact H1|]. split; [exact H2|exact H3].
Defined.
