(* ===== verification/BlockCodec.v ===== *)
(** * Block and Q-Block option values (src/net/blockwise/blockwise.go,
    src/net/blockwise/internal/blocks/types.go, src/net/blockwise/qblock/codec.go)

    The values of the Block1/Block2 options of RFC 7959 and of the Q-Block options of
    RFC 9177 (NUM, the M bit, SZX), and the CBOR sequence of missing block numbers. *)
From stdpp Require Import prelude list strings sorting.
From Stdlib Require Import ZArith Lia Sorted.
From S2P Require Import Prelude Cast Codes OptionCodec Options.
#[local] Open Scope Z_scope.

Definition maxBlockValue : Z := 16777215.
Definition maxBlockNumber : Z := 1048567.
Definition moreBlocksFollowingMask : Z := 8.
Definition szxMask : Z := 7.

(** [SZX] is a [uint8]. *)
Definition SZX16 : Z := 0.
Definition SZX32 : Z := 1.
Definition SZX64 : Z := 2.
Definition SZX128 : Z := 3.
Definition SZX256 : Z := 4.
Definition SZX512 : Z := 5.
Definition SZX1024 : Z := 6.
Definition SZXBERT : Z := 7.

Definition SZX_Size (s : Z) : Z :=
  if SZXBERT <? s then -1 else int64 (Z.shiftl 16 (Z.min s SZX1024)).

Definition bufferSize (szx maxMessageSize : Z) : Z :=
  if szx <? SZXBERT then SZX_Size szx
  else Z.quot maxMessageSize (SZX_Size szx) * SZX_Size szx.

(** ** RFC 7959 *)

Definition EncodeBlockOption (szx blockNumber : Z) (moreBlocksFollowing : bool) : Z * option error :=
  if SZXBERT <? szx then (0, Some ErrInvalidSZX) else
  if blockNumber <? 0 then (0, Some ErrBlockNumberExceedLimit) else
  if maxBlockNumber <? blockNumber then (0, Some ErrBlockNumberExceedLimit) else
  let blockVal := CastTo KUint32 (int64 (Z.shiftl blockNumber 4)) in
  let m := if moreBlocksFollowing then 1 else 0 in
  let blockVal := uint32 (blockVal + uint32 (Z.shiftl m 3)) in
  let blockVal := uint32 (blockVal + CastTo KUint32 szx) in
  (blockVal, None).

(** The named results keep what was set before an error. *)
Definition DecodeBlockOption (blockVal : Z) : Z * Z * bool * option error :=
  if maxBlockValue <? blockVal then (0, 0, false, Some ErrBlockInvalidSize) else
  let szx := CastTo KUint8 (Z.land blockVal szxMask) in
  let more := negb (Z.land blockVal moreBlocksFollowingMask =? 0) in
  let blockNumber := Z.shiftr blockVal 4 in
  (szx, blockNumber, more,
   if maxBlockNumber <? blockNumber then Some ErrBlockNumberExceedLimit else None).

(** ** RFC 9177 *)

Definition maxQBlockNumber : Z := 1048575.

Definition EncodeQBlockOption (szx num : Z) (more : bool) : Z * option error :=
  if SZX1024 <? szx then (0, Some ErrInvalidSZX) else
  if (num <? 0) || (maxQBlockNumber <? num) then (0, Some ErrBlockNumberExceedLimit) else
  let value := Z.lor (uint32 (Z.shiftl (uint32 num) 4)) (uint32 szx) in
  (if more then Z.lor value moreBlocksFollowingMask else value, None).

Definition DecodeQBlockOption (value : Z) : Z * Z * bool * option error :=
  if maxBlockValue <? value then (0, 0, false, Some ErrBlockInvalidSize) else
  let szx := uint8 (Z.land value szxMask) in
  if SZX1024 <? szx then (0, 0, false, Some ErrInvalidSZX)
  else (szx, Z.shiftr value 4, negb (Z.land value moreBlocksFollowingMask =? 0), None).

(** The check of [EncodeMissingBlocks]: in range and strictly increasing. *)
Fixpoint increasing_from (first : bool) (previous : Z) (blocks : list Z) : bool :=
  match blocks with
  | [] => true
  | block :: blocks =>
      if (maxQBlockNumber <? block) || (negb first && (block <=? previous)) then false
      else increasing_from false block blocks
  end.

Definition encodeMissingBlock (block : Z) : list byte :=
  if block <? 24 then [uint8 block]
  else if block <=? 255 then [24; uint8 block]
  else if block <=? 65535 then [25; uint8 (Z.shiftr block 8); uint8 (Z.land block 255)]
  else [26; uint8 (Z.shiftr block 24); uint8 (Z.land (Z.shiftr block 16) 255);
        uint8 (Z.land (Z.shiftr block 8) 255); uint8 (Z.land block 255)].

Definition EncodeMissingBlocks (dst : list byte) (blocks : list Z) : list byte * option error :=
  match blocks with
  | [] => (dst, Some ErrInvalidMissingBlocks)
  | _ => if increasing_from true 0 blocks
         then (fold_left (fun dst block => dst ++ encodeMissingBlock block) blocks dst, None)
         else (dst, Some ErrInvalidMissingBlocks)
  end.

(** One unsigned CBOR integer: the number and the rest of the data. *)
Definition decodeMissingBlockInteger (data : list byte) : result (Z * list byte) :=
  match data with
  | [] => Err ErrInvalidMissingBlocks
  | header :: data =>
      if negb (Z.shiftr header 5 =? 0) then Err ErrInvalidMissingBlocks else
      let info := Z.land header 31 in
      if info <? 24 then Ok (info, data) else
      if 27 <? info then Err ErrInvalidMissingBlocks else
      let width := Z.shiftl 1 (info - 24) in
      if zlen data <? width then Err ErrInvalidMissingBlocks
      else Ok (be_combine (slice_to data width), slice_from data width)
  end.

(** [walkMissingBlocks] with an [emit] that appends to [dst]; without one, [dst] is
    not looked at.  Every round consumes a byte. *)
Fixpoint walkMissingBlocks (fuel : nat) (data : list byte) (emit first : bool) (previous : Z)
    (dst : list Z) : list Z * option error :=
  match fuel with
  | O => (dst, None)
  | S fuel =>
      match data with
      | [] => (dst, None)
      | _ =>
          match decodeMissingBlockInteger data with
          | Err e => (dst, Some e)
          | Ok (number, rest) =>
              if maxQBlockNumber <? number then (dst, Some ErrInvalidMissingBlocks) else
              let block := uint32 number in
              if negb first && (block <? previous) then (dst, Some ErrInvalidMissingBlocks) else
              let dst := if emit && (first || negb (block =? previous)) then dst ++ [block] else dst in
              walkMissingBlocks fuel rest emit false block dst
          end
      end
  end.

Definition DecodeMissingBlocks (dst : list Z) (data : list byte) : list Z * option error :=
  match data with
  | [] => (dst, Some ErrInvalidMissingBlocks)
  | _ =>
      match snd (walkMissingBlocks (length data) data false true 0 dst) with
      | Some e => (dst, Some e)
      | None => walkMissingBlocks (length data) data true true 0 dst
      end
  end.

(** ** Lemmas *)

Lemma SZX_Size_pow s : 0 <= s <= 7 -> SZX_Size s = 2 ^ (4 + Z.min s 6).
Proof.
  intros Hs. assert (forallb (fun s => SZX_Size s =? 2 ^ (4 + Z.min s 6)) (seqZ 0 8) = true) as H by (vm_compute; reflexivity).
  rewrite forallb_forall in H. specialize (H s). rewrite <- list_elem_of_In, elem_of_seqZ in H.
  apply Z.eqb_eq, H. lia.
Qed.

Lemma SZX_Size_bounds s : 0 <= s <= 6 -> 16 <= SZX_Size s <= 1024.
Proof.
  intros Hs. assert (forallb (fun s => (16 <=? SZX_Size s) && (SZX_Size s <=? 1024)) (seqZ 0 7) = true) as H by (vm_compute; reflexivity).
  rewrite forallb_forall in H. specialize (H s). rewrite <- list_elem_of_In, elem_of_seqZ in H.
  specialize (H ltac:(lia)). lia.
Qed.

(** The packed value and its fields. *)
Definition packed (szx num : Z) (more : bool) : Z := num * 16 + (if more then 8 else 0) + szx.

Lemma land_8 v : Z.land v 8 = if Z.testbit v 3 then 8 else 0.
Proof.
  apply Z.bits_inj'. intros n Hn. rewrite Z.land_spec. change 8 with (2 ^ 3). rewrite Z.pow2_bits_eqb by lia.
  destruct (Z.eqb_spec 3 n) as [<-|Hne].
  - rewrite andb_true_r. destruct (Z.testbit v 3); [|by rewrite Z.testbit_0_l]. by rewrite Z.pow2_bits_eqb.
  - rewrite andb_false_r. destruct (Z.testbit v 3); [|by rewrite Z.testbit_0_l].
    rewrite Z.pow2_bits_eqb by lia. by destruct (Z.eqb_spec 3 n).
Qed.

Lemma packed_fields szx num more :
  0 <= szx <= 7 -> 0 <= num ->
  Z.land (packed szx num more) 7 = szx /\ Z.shiftr (packed szx num more) 4 = num /\
  negb (Z.land (packed szx num more) 8 =? 0) = more.
Proof.
  intros Hs Hn. unfold packed.
  split; [|split].
  - change 7 with (Z.ones 3) at 1. rewrite Z.land_ones by lia. change (2 ^ 3) with 8. destruct more; div_lia.
  - rewrite Z.shiftr_div_pow2 by lia. change (2 ^ 4) with 16. destruct more; div_lia.
  - rewrite land_8.
    destruct more.
    + destruct (Z.testbit _ 3) eqn:E; [done|]. apply Z.testbit_false in E; [|lia]. change (2 ^ 3) with 8 in E. div_lia.
    + destruct (Z.testbit _ 3) eqn:E; [|done]. apply Z.testbit_true in E; [|lia]. change (2 ^ 3) with 8 in E. div_lia.
Qed.

(** Every value is the packing of its fields. *)
Lemma packed_eta v :
  0 <= v -> packed (Z.land v 7) (Z.shiftr v 4) (negb (Z.land v 8 =? 0)) = v.
Proof.
  intros Hv. unfold packed. rewrite land_8. change (Z.land v 7) with (Z.land v (Z.ones 3)).
  rewrite Z.land_ones, Z.shiftr_div_pow2 by lia. change (2 ^ 3) with 8. change (2 ^ 4) with 16.
  destruct (Z.testbit v 3) eqn:E.
  - apply Z.testbit_true in E; [|lia]. change (2 ^ 3) with 8 in E. cbn. div_lia.
  - apply Z.testbit_false in E; [|lia]. change (2 ^ 3) with 8 in E. cbn. div_lia.
Qed.

Lemma EncodeBlockOption_packed szx num more :
  0 <= szx <= 7 -> 0 <= num <= maxBlockNumber ->
  EncodeBlockOption szx num more = (packed szx num more, None).
Proof.
  intros Hs Hn. unfold EncodeBlockOption, SZXBERT, maxBlockNumber in *.
  destruct (Z.ltb_spec 7 szx); [lia|]. destruct (Z.ltb_spec num 0); [lia|].
  destruct (Z.ltb_spec 1048567 num); [lia|]. rewrite Z.shiftl_mul_pow2 by lia. change (2 ^ 4) with 16.
  rewrite int64_id by lia. rewrite (CastTo_uint32_id (num * 16)), (CastTo_uint32_id szx) by lia.
  unfold packed. f_equal.
  destruct more; [change (uint32 (Z.shiftl 1 3)) with 8|change (uint32 (Z.shiftl 0 3)) with 0];
    rewrite (uint32_id (num * 16 + _)) by lia; rewrite uint32_id by lia; lia.
Qed.

Lemma packed_range szx num more :
  0 <= szx <= 7 -> 0 <= num <= maxBlockNumber -> 0 <= packed szx num more <= maxBlockValue.
Proof. unfold packed, maxBlockValue, maxBlockNumber. destruct more; lia. Qed.

Lemma DecodeBlockOption_packed szx num more :
  0 <= szx <= 7 -> 0 <= num <= maxBlockNumber -> DecodeBlockOption (packed szx num more) = (szx, num, more, None).
Proof.
  intros Hs Hn. pose proof (packed_range szx num more Hs Hn). unfold DecodeBlockOption.
  destruct (Z.ltb_spec maxBlockValue (packed szx num more)); [lia|].
  unfold szxMask, moreBlocksFollowingMask.
  destruct (packed_fields szx num more) as (-> & -> & ->); [lia..|].
  rewrite CastTo_uint8_id by (unfold is_byte; lia). by destruct (Z.ltb_spec maxBlockNumber num); [lia|].
Qed.

Lemma EncodeQBlockOption_packed szx num more :
  0 <= szx <= 6 -> 0 <= num <= maxQBlockNumber ->
  EncodeQBlockOption szx num more = (packed szx num more, None).
Proof.
  intros Hs Hn. unfold EncodeQBlockOption, SZX1024, maxQBlockNumber, moreBlocksFollowingMask in *.
  destruct (Z.ltb_spec 6 szx); [lia|]. destruct (Z.ltb_spec num 0); [lia|].
  destruct (Z.ltb_spec 1048575 num); [lia|]. cbn [orb]. rewrite Z.shiftl_mul_pow2 by lia. change (2 ^ 4) with 16.
  rewrite (uint32_id num), (uint32_id (num * 16)), (uint32_id szx) by lia.
  assert (Z.lor (num * 16) szx = num * 16 + szx) as E1.
  { rewrite <- (Z.add_lor_land (num * 16) szx). replace (Z.land (num * 16) szx) with 0; [lia|].
    symmetry. apply Z.bits_inj'. intros n Hn0. rewrite Z.land_spec, Z.bits_0.
    destruct (Z.lt_ge_cases n 4).
    - change 16 with (2 ^ 4). rewrite Z.mul_pow2_bits_low by lia. done.
    - rewrite (Z.bits_above_log2 szx n); [by rewrite andb_false_r|lia|].
      destruct (Z.eq_dec szx 0) as [->|]; [cbn; lia|]. apply Z.log2_lt_pow2; [lia|].
      apply Z.lt_le_trans with (2 ^ 4); [lia|]. apply Z.pow_le_mono_r; lia. }
  rewrite E1. unfold packed. destruct more; [|f_equal; lia]. f_equal.
  pose proof (Z.add_lor_land (num * 16 + szx) 8) as E8. rewrite land_8 in E8.
  destruct (Z.testbit (num * 16 + szx) 3) eqn:E; [|lia].
  apply Z.testbit_true in E; [|lia]. change (2 ^ 3) with 8 in E. div_lia.
Qed.

(** The Block option codec: a block number up to [maxBlockNumber] with any size
    exponent and M bit survives the round trip in 24 bits, larger and negative
    numbers and exponents above 7 are refused, and decoding is injective: every value
    of at most 24 bits is the encoding of its fields, or its number is refused. *)
Theorem BlockOption_roundtrip (szx num value : Z) (more : bool)
    (Hs : 0 <= szx <= 7) (Hn : 0 <= num <= maxBlockNumber) (Hv : 0 <= value <= maxBlockValue) :
  (let '(v, err) := EncodeBlockOption szx num more in
   err = None /\ 0 <= v <= maxBlockValue /\ DecodeBlockOption v = (szx, num, more, None)) /\
  (forall n, n < 0 \/ maxBlockNumber < n -> EncodeBlockOption szx n more = (0, Some ErrBlockNumberExceedLimit)) /\
  (let '(s, n, m, err) := DecodeBlockOption value in
   0 <= s <= 7 /\ (err = None -> EncodeBlockOption s n m = (value, None)) /\
   (err <> None -> maxBlockNumber < n)).
Proof.
  split; [|split].
  - rewrite EncodeBlockOption_packed by done. split; [done|].
    split; [by apply packed_range|by apply DecodeBlockOption_packed].
  - intros n Hbad. unfold EncodeBlockOption, SZXBERT. destruct (Z.ltb_spec 7 szx); [lia|].
    destruct (Z.ltb_spec n 0); [done|]. by destruct (Z.ltb_spec maxBlockNumber n); [|lia].
  - unfold DecodeBlockOption. destruct (Z.ltb_spec maxBlockValue value); [lia|].
    unfold szxMask, moreBlocksFollowingMask.
    assert (0 <= Z.land value 7 <= 7) as Hl
      by (change (Z.land value 7) with (Z.land value (Z.ones 3)); rewrite Z.land_ones by lia; change (2 ^ 3) with 8; div_lia).
    assert (0 <= Z.shiftr value 4) by (apply Z.shiftr_nonneg; lia).
    rewrite CastTo_uint8_id by (unfold is_byte; lia). split; [done|].
    destruct (Z.ltb_spec maxBlockNumber (Z.shiftr value 4)); (split; [intros|intros]); try done.
    rewrite EncodeBlockOption_packed by lia. by rewrite packed_eta by lia.
Qed.

Lemma BlockOption_roundtrip_witness :
  DecodeBlockOption (fst (EncodeBlockOption SZX512 1000 true)) = (SZX512, 1000, true, None).
Proof.
  exact (proj2 (proj2 (proj1 (BlockOption_roundtrip SZX512 1000 0 true
    ltac:(cbv; split; discriminate) ltac:(cbv; split; discriminate) ltac:(cbv; split; discriminate))))).
Defined.

(** NUM has 20 bits, but the limit is 0xffff7: the option codec refuses the eight
    block numbers 1048568..1048575, which the 24-bit option value can carry. *)
Theorem maxBlockNumber_excludes_eight (num : Z) (Hn : 1048568 <= num <= 1048575) :
  snd (EncodeBlockOption SZX1024 num false) = Some ErrBlockNumberExceedLimit /\
  snd (DecodeBlockOption (num * 16 + 6)) = Some ErrBlockNumberExceedLimit /\ num * 16 + 6 <= maxBlockValue.
Proof.
  split; [|split].
  - unfold EncodeBlockOption, SZXBERT, SZX1024, maxBlockNumber. change (7 <? 6) with false.
    destruct (Z.ltb_spec num 0); [lia|]. by destruct (Z.ltb_spec 1048567 num); [|lia].
  - unfold DecodeBlockOption, maxBlockValue, maxBlockNumber. destruct (Z.ltb_spec 16777215 (num * 16 + 6)); [lia|].
    rewrite Z.shiftr_div_pow2 by lia. change (2 ^ 4) with 16. cbn [snd].
    destruct (Z.ltb_spec 1048567 ((num * 16 + 6) / 16)); [done|]. div_lia.
  - unfold maxBlockValue. lia.
Qed.

Lemma maxBlockNumber_excludes_eight_witness :
  snd (EncodeBlockOption SZX1024 1048575 false) = Some ErrBlockNumberExceedLimit.
Proof. exact (proj1 (maxBlockNumber_excludes_eight 1048575 ltac:(lia))). Defined.

(** The Q-Block option codec is a bijection between the 20-bit numbers with a
    datagram size exponent (0..6) and the 24-bit values without the BERT exponent. *)
Theorem QBlockOption_bijective (szx num value : Z) (more : bool)
    (Hs : 0 <= szx <= 6) (Hn : 0 <= num <= maxQBlockNumber) (Hv : 0 <= value <= maxBlockValue) :
  (let '(v, err) := EncodeQBlockOption szx num more in
   err = None /\ 0 <= v <= maxBlockValue /\ DecodeQBlockOption v = (szx, num, more, None)) /\
  (let '(s, n, m, err) := DecodeQBlockOption value in
   if Z.land value 7 =? 7 then err = Some ErrInvalidSZX
   else err = None /\ 0 <= s <= 6 /\ 0 <= n <= maxQBlockNumber /\ EncodeQBlockOption s n m = (value, None)).
Proof.
  split.
  - rewrite EncodeQBlockOption_packed by done. split; [done|].
    assert (0 <= packed szx num more <= maxBlockValue) as Hb
      by (unfold packed, maxBlockValue, maxQBlockNumber in *; destruct more; lia).
    split; [done|]. unfold DecodeQBlockOption. destruct (Z.ltb_spec maxBlockValue (packed szx num more)); [lia|].
    unfold szxMask, moreBlocksFollowingMask, SZX1024.
    destruct (packed_fields szx num more) as (-> & -> & ->); [lia..|].
    rewrite uint8_id by (unfold is_byte; lia). by destruct (Z.ltb_spec 6 szx); [lia|].
  - unfold DecodeQBlockOption, SZX1024. destruct (Z.ltb_spec maxBlockValue value); [lia|].
    unfold szxMask, moreBlocksFollowingMask.
    assert (0 <= Z.land value 7 <= 7) as Hl
      by (change (Z.land value 7) with (Z.land value (Z.ones 3)); rewrite Z.land_ones by lia; change (2 ^ 3) with 8; div_lia).
    assert (0 <= Z.shiftr value 4 <= maxQBlockNumber)
      by (unfold maxQBlockNumber, maxBlockValue in *; rewrite Z.shiftr_div_pow2 by lia; change (2 ^ 4) with 16; div_lia).
    rewrite uint8_id by (unfold is_byte; lia).
    destruct (Z.ltb_spec 6 (Z.land value 7)), (Z.eqb_spec (Z.land value 7) 7); try lia; [done|].
    split; [done|]. split; [lia|]. split; [done|].
    rewrite EncodeQBlockOption_packed by lia. by rewrite packed_eta by lia.
Qed.

Lemma QBlockOption_bijective_witness :
  DecodeQBlockOption (fst (EncodeQBlockOption SZX1024 1048575 true)) = (SZX1024, 1048575, true, None).
Proof.
  exact (proj2 (proj2 (proj1 (QBlockOption_bijective SZX1024 1048575 0 true
    ltac:(cbv; split; discriminate) ltac:(cbv; split; discriminate) ltac:(cbv; split; discriminate))))).
Defined.

(** ** Missing blocks *)

Lemma uint8_land_255 x : uint8 (Z.land x 255) = uint8 x.
Proof.
  unfold uint8. change (Z.land x 255) with (Z.land x (Z.ones 8)). rewrite Z.land_ones by lia.
  by rewrite Z.mod_mod.
Qed.

Lemma encodeMissingBlock_cbor block :
  0 <= block <= maxQBlockNumber ->
  (block < 24 /\ encodeMissingBlock block = [block]) \/
  (exists w, (w = 0 \/ w = 1 \/ w = 2) /\ block < 2 ^ (8 * Z.shiftl 1 w) /\
     encodeMissingBlock block = (24 + w) :: be_split (Z.to_nat (Z.shiftl 1 w)) block).
Proof.
  unfold maxQBlockNumber, encodeMissingBlock. intros Hb.
  destruct (Z.ltb_spec block 24); [left; by rewrite uint8_id by (unfold is_byte; lia)|right].
  destruct (Z.leb_spec block 255); [exists 0; split; [lia|]; split; [change (2 ^ (8 * Z.shiftl 1 0)) with 256; lia|]; cbn; by rewrite ?Z.shiftr_0_r|].
  destruct (Z.leb_spec block 65535).
  - exists 1. split; [lia|]. split; [change (2 ^ (8 * Z.shiftl 1 1)) with 65536; lia|]. cbn. by rewrite ?Z.shiftr_0_r, ?uint8_land_255.
  - exists 2. split; [lia|]. split; [change (2 ^ (8 * Z.shiftl 1 2)) with 4294967296; lia|].
    cbn. by rewrite ?Z.shiftr_0_r, !uint8_land_255.
Qed.

Lemma decode_encodeMissingBlock block rest :
  0 <= block <= maxQBlockNumber ->
  decodeMissingBlockInteger (encodeMissingBlock block ++ rest) = Ok (block, rest) /\
  encodeMissingBlock block <> [].
Proof.
  intros Hb. destruct (encodeMissingBlock_cbor block Hb) as [[Hlt ->]|(w & Hw & Hbound & ->)].
  - split; [|done]. cbn [app decodeMissingBlockInteger].
    assert (Z.shiftr block 5 = 0) as -> by (rewrite Z.shiftr_div_pow2 by lia; change (2 ^ 5) with 32; div_lia).
    change (Z.land block 31) with (Z.land block (Z.ones 5)). rewrite Z.land_ones by lia.
    rewrite Z.mod_small by (change (2 ^ 5) with 32; lia). cbn [negb Z.eqb].
    by destruct (Z.ltb_spec block 24); [|lia].
  - split; [|done]. cbn [app decodeMissingBlockInteger].
    assert (Z.shiftr (24 + w) 5 = 0 /\ Z.land (24 + w) 31 = 24 + w) as [-> ->] by (destruct Hw as [-> | [-> | -> ]]; done).
    cbn [negb Z.eqb]. destruct (Z.ltb_spec (24 + w) 24); [lia|]. destruct (Z.ltb_spec 27 (24 + w)); [lia|].
    rewrite Z.add_simpl_l. assert (0 < Z.shiftl 1 w) by (destruct Hw as [-> | [-> | -> ]]; reflexivity).
    pose proof (zlen_nonneg rest).
    assert (zlen (be_split (Z.to_nat (Z.shiftl 1 w)) block) = Z.shiftl 1 w) as Hl by (rewrite zlen_be_split; lia).
    rewrite zlen_app, Hl. destruct (Z.ltb_spec (Z.shiftl 1 w + zlen rest) (Z.shiftl 1 w)); [lia|].
    rewrite slice_to_app', slice_from_app' by done.
    rewrite be_combine_split_id; [done|]. rewrite Z2Nat.id by lia. lia.
Qed.

Definition missing_bytes (blocks : list Z) : list byte := concat (encodeMissingBlock <$> blocks).

Lemma EncodeMissingBlocks_bytes dst blocks :
  fold_left (fun dst block => dst ++ encodeMissingBlock block) blocks dst = dst ++ missing_bytes blocks.
Proof.
  revert dst. induction blocks as [|b blocks IH]; intros dst; simpl; [by rewrite app_nil_r|].
  by rewrite IH, <- app_assoc.
Qed.

Lemma walk_missing_bytes fuel blocks emit first previous dst :
  (length (missing_bytes blocks) <= fuel)%nat -> Forall (fun b => 0 <= b) blocks ->
  increasing_from first previous blocks = true ->
  walkMissingBlocks fuel (missing_bytes blocks) emit first previous dst =
    (dst ++ (if emit then blocks else []), None).
Proof.
  revert fuel first previous dst.
  induction blocks as [|b blocks IH]; intros fuel first previous dst Hf Hpos Hinc.
  - replace (if emit then [] else []) with (@nil Z) by (by destruct emit). rewrite app_nil_r. by destruct fuel.
  - apply Forall_cons in Hpos as [Hb Hpos]. cbn [increasing_from] in Hinc.
    destruct (Z.ltb_spec maxQBlockNumber b) as [|Hmax]; [done|]. cbn [orb] in Hinc.
    destruct (negb first && (b <=? previous)) eqn:Efirst; [done|].
    destruct (decode_encodeMissingBlock b (missing_bytes blocks)) as [Hd Hne]; [lia|].
    change (missing_bytes (b :: blocks)) with (encodeMissingBlock b ++ missing_bytes blocks) in *.
    rewrite length_app in Hf. destruct (encodeMissingBlock b) as [|h t] eqn:Eb; [done|].
    destruct fuel as [|fuel]; [simpl in Hf; lia|]. cbn [walkMissingBlocks].
    cbn [app] in Hd |- *. rewrite Hd. destruct (Z.ltb_spec maxQBlockNumber b); [lia|].
    unfold maxQBlockNumber in *. rewrite uint32_id by lia.
    assert (negb first && (b <? previous) = false) as ->.
    { destruct first; [done|]. cbn in *. destruct (Z.leb_spec b previous), (Z.ltb_spec b previous); done || lia. }
    assert (first || negb (b =? previous) = true) as ->.
    { destruct first; [done|]. cbn in *. destruct (Z.leb_spec b previous), (Z.eqb_spec b previous); done || lia. }
    rewrite IH by (done || (simpl in Hf; lia)). destruct emit; cbn [andb].
    + by rewrite <- app_assoc.
    + done.
Qed.

Lemma decodeMissingBlockInteger_rest data n rest :
  bytes_ok data -> decodeMissingBlockInteger data = Ok (n, rest) ->
  0 <= n /\ bytes_ok rest /\ (length rest < length data)%nat.
Proof.
  intros Hb. unfold decodeMissingBlockInteger. destruct data as [|h data]; [done|].
  apply Forall_cons in Hb as [Hh Hb]. destruct (negb _); [done|].
  destruct (Z.ltb_spec (Z.land h 31) 24).
  - intros [= <- <-]. split; [apply Z.land_nonneg; lia|]. split; [done|]. simpl. lia.
  - destruct (27 <? Z.land h 31); [done|]. destruct (_ <? _); [done|]. intros [= <- <-].
    split; [apply be_combine_bound; by apply Forall_take|].
    split; [by apply Forall_drop|]. unfold slice_from. rewrite length_drop. simpl. lia.
Qed.

(** Whatever the input, the emitted numbers are increasing and in range; the two
    passes of the decoder agree on the error. *)
Lemma walk_sound fuel data first previous dst :
  bytes_ok data -> 0 <= previous <= maxQBlockNumber -> (length data <= fuel)%nat ->
  exists new, fst (walkMissingBlocks fuel data true first previous dst) = dst ++ new /\
    increasing_from first previous new = true /\ Forall (fun b => 0 <= b) new /\
    (first = true -> data <> [] -> snd (walkMissingBlocks fuel data true first previous dst) = None -> new <> []) /\
    forall dst', snd (walkMissingBlocks fuel data false first previous dst') =
                 snd (walkMissingBlocks fuel data true first previous dst).
Proof.
  revert data first previous dst.
  induction fuel as [|fuel IH]; intros data first previous dst Hb Hprev Hf.
  - exists []. destruct data; [|simpl in Hf; lia]. rewrite app_nil_r. done.
  - destruct data as [|h data]; [exists []; by rewrite app_nil_r|]. cbn [walkMissingBlocks].
    destruct (decodeMissingBlockInteger (h :: data)) as [[n rest]|e] eqn:E;
      [|exists []; by rewrite app_nil_r].
    apply decodeMissingBlockInteger_rest in E as (Hn & Hr & Hl); [|done].
    destruct (Z.ltb_spec maxQBlockNumber n) as [|Hmax]; [exists []; by rewrite app_nil_r|].
    unfold maxQBlockNumber in *. rewrite uint32_id by lia.
    destruct (negb first && (n <? previous)) eqn:Edesc; [exists []; by rewrite app_nil_r|].
    set (emitted := first || negb (n =? previous)).
    destruct (IH rest false n (if emitted then dst ++ [n] else dst)) as (new & Hnew & Hinc & Hpos & _ & Hagree);
      [done|lia|simpl in Hl, Hf; lia|].
    cbn [andb]. rewrite Hnew. unfold emitted in *. destruct first; cbn [orb negb andb] in *.
    + exists (n :: new). rewrite <- app_assoc. split; [done|].
      split; [cbn [increasing_from negb andb]; by destruct (Z.ltb_spec maxQBlockNumber n); [unfold maxQBlockNumber in *; lia|]|].
      split; [by constructor|]. done.
    + destruct (Z.eqb_spec n previous) as [->|Hne]; cbn [negb] in *.
      * exists new. split; [done|]. split; [done|]. split; [done|]. done.
      * exists (n :: new). rewrite <- app_assoc. split; [done|].
        split; [|split; [by constructor|done]].
        cbn [increasing_from negb andb]. destruct (Z.ltb_spec maxQBlockNumber n); [unfold maxQBlockNumber in *; lia|]. cbn [orb].
        destruct (Z.leb_spec n previous); [|done]. destruct (Z.ltb_spec n previous); [done|lia].
Qed.

(** A non-empty, strictly increasing list of 20-bit block numbers is encoded and
    decoded back unchanged; any other list is refused with the destination kept. *)
Theorem MissingBlocks_roundtrip (dst : list byte) (out blocks : list Z)
    (Hpos : Forall (fun b => 0 <= b) blocks) :
  if negb (bool_decide (blocks = [])) && increasing_from true 0 blocks
  then EncodeMissingBlocks dst blocks = (dst ++ missing_bytes blocks, None) /\
       DecodeMissingBlocks out (missing_bytes blocks) = (out ++ blocks, None)
  else EncodeMissingBlocks dst blocks = (dst, Some ErrInvalidMissingBlocks).
Proof.
  destruct blocks as [|b blocks]; [done|]. rewrite bool_decide_false by done. cbn [negb andb].
  unfold EncodeMissingBlocks. destruct (increasing_from true 0 (b :: blocks)) eqn:E; [|done].
  rewrite EncodeMissingBlocks_bytes. split; [done|]. unfold DecodeMissingBlocks.
  pose proof (walk_missing_bytes (length (missing_bytes (b :: blocks))) (b :: blocks)) as Hw.
  assert (missing_bytes (b :: blocks) <> []) as Hne.
  { apply Forall_cons in Hpos as [Hb _]. cbn [increasing_from] in E.
    destruct (Z.ltb_spec maxQBlockNumber b); [done|].
    destruct (decode_encodeMissingBlock b [] ltac:(lia)) as [_ Hne].
    change (missing_bytes (b :: blocks)) with (encodeMissingBlock b ++ missing_bytes blocks).
    by destruct (encodeMissingBlock b). }
  destruct (missing_bytes (b :: blocks)) as [|h t] eqn:Em; [done|].
  rewrite (Hw false) by done. cbn [snd]. by rewrite (Hw true).
Qed.

Lemma MissingBlocks_roundtrip_witness :
  DecodeMissingBlocks [] (missing_bytes [3; 200; 70000]) = ([3; 200; 70000], None).
Proof.
  exact (proj2 (MissingBlocks_roundtrip [] [] [3; 200; 70000] ltac:(repeat constructor; lia))).
Defined.

(** For every byte string the decoder of missing blocks either reports an error
    and returns the destination unchanged, or appends a non-empty strictly increasing
    list of numbers below 2^20 (duplicates are dropped). *)
Theorem DecodeMissingBlocks_sound (dst : list Z) (data : list byte) (Hb : bytes_ok data) :
  match DecodeMissingBlocks dst data with
  | (out, Some _) => out = dst
  | (out, None) => exists new, out = dst ++ new /\ new <> [] /\ increasing_from true 0 new = true /\
                     Forall (fun b => 0 <= b) new
  end.
Proof.
  unfold DecodeMissingBlocks. destruct data as [|h data]; [done|].
  destruct (walk_sound (length (h :: data)) (h :: data) true 0 dst) as (new & Hnew & Hinc & Hpos & Hne & Hagree);
    [done|unfold maxQBlockNumber; lia|lia|].
  rewrite (Hagree dst). destruct (walkMissingBlocks _ _ true _ _ _) as [out err]. cbn [fst snd] in *. subst out.
  destruct err as [e|]; [done|]. exists new. split; [done|]. split; [by apply Hne|done].
Qed.

Lemma DecodeMissingBlocks_sound_witness :
  DecodeMissingBlocks [] [3; 3; 24; 200] = ([3; 200], None) /\
  exists new, [3; 200] = [] ++ new /\ new <> [] /\ increasing_from true 0 new = true /\ Forall (fun b => 0 <= b) new.
Proof.
  split; [reflexivity|]. exact (DecodeMissingBlocks_sound [] [3; 3; 24; 200] ltac:(repeat constructor; cbv; congruence)).
Defined.
