(* ===== verification/Assembly.v ===== *)
(** * Q-Block bodies (src/net/blockwise/qblock/transfer.go, config.go)

    [Assembly] collects the blocks of a body in any order; [Sender] reads them from a
    seekable body.  The assembled body is read through [qSparseReader], which is shown
    to be an instance of the [ReadSeeker] interface of pooled messages. *)
From stdpp Require Import prelude list strings sorting gmap.
From Stdlib Require Import ZArith Lia Sorted.
From S2P Require Import Prelude Cast Codes OptionCodec Options OptionsCodec Message TcpCoder PoolMessage.
From S2P Require Import BlockCodec.
#[local] Open Scope Z_scope.

Definition QBlockwiseDisabled : Z := 0.
Definition QBlockwiseAuto : Z := 1.
Definition QBlockwiseOnly : Z := 2.

Definition ValidateQBlockwiseConfig (mode : Z) (blockwiseEnabled : bool) : option error :=
  if QBlockwiseOnly <? mode then Some ErrQBlockInvalidMode
  else if mode =? QBlockwiseDisabled then None
  else if negb blockwiseEnabled then Some ErrQBlockNeedsBlockwise
  else None.

Definition qBlockMaxSZX : Z := SZX1024.
Definition qBlockMaxNUM : Z := 1048575.

(** ** Configuration (times in nanoseconds) *)

Record Config : Type := mkConfig {
  MaxPayloads : Z;
  NonTimeout : Z;
  NonReceiveTimeout : Z;
  NonMaxRetransmit : Z;
  MaxLatency : Z
}.

#[export] Instance Config_eq_dec : EqDecision Config.
Proof. solve_decision. Defined.

Definition Second : Z := 1000000000.
Definition Hour : Z := 3600 * Second.

Definition DefaultConfig : Config := mkConfig 10 (2 * Second) (4 * Second) 4 (100 * Second).

Definition Resolve (c : Config) : Config * option error :=
  let c := if bool_decide (c = mkConfig 0 0 0 0 0) then DefaultConfig else c in
  if (MaxPayloads c <? 1) || (256 <? MaxPayloads c) then (c, Some ErrInvalidConfig) else
  if (NonTimeout c <=? 0) || (Hour <? NonTimeout c) then (c, Some ErrInvalidConfig) else
  if (NonMaxRetransmit c <? 0) || (20 <? NonMaxRetransmit c) then (c, Some ErrInvalidConfig) else
  if (MaxLatency c <=? 0) || (24 * Hour <? MaxLatency c) then (c, Some ErrInvalidConfig) else
  if (NonReceiveTimeout c <? NonTimeout c + Z.quot (NonTimeout c) 2 + Second) ||
     (Z.shiftr (2 ^ 63 - 1) (NonMaxRetransmit c) - Second <? NonReceiveTimeout c)
  then (c, Some ErrInvalidConfig) else (c, None).

Definition NonPartialTimeout (c : Config) : Z :=
  let span := int64 (NonTimeout c * (Z.shiftl 1 (NonMaxRetransmit c) - 1)) in
  int64 (span + Z.quot span 2 + 2 * MaxLatency c + NonTimeout c).

Definition NonProbingWait (c : Config) (delay : Z) : Z :=
  int64 (NonPartialTimeout c - NonTimeout c + delay).

Definition setLast (maxPayloads num blockCount : Z) : Z :=
  Z.min ((Z.quot num maxPayloads + 1) * maxPayloads) blockCount - 1.

(** ** Assembly *)

Record Assembly : Type := mkAssembly {
  a_szx : Z;
  a_bodySize : Z;
  a_maxBodySize : Z;
  a_maxBlocks : Z;
  a_blocks : gmap Z (list byte);
  a_finalBlock : Z;
  a_receivedSize : Z;
  a_firstMissing : Z
}.

Definition NewAssembly (szx bodySize maxBodySize maxBlocks : Z) : result Assembly :=
  if (qBlockMaxSZX <? szx) || (bodySize <? 0) then Err ErrQBlockInvalidSize else
  if (maxBodySize <=? 0) || (maxBodySize <? bodySize) then Err ErrQBlockTooLarge else
  let blockSize := SZX_Size szx in
  if blockSize <=? 0 then Err ErrInvalidSZX else
  let blockCount := if 0 <? bodySize then Z.quot (bodySize - 1) blockSize + 1 else 0 in
  if (maxBlocks <=? 0) || (maxBlocks <? blockCount) || (qBlockMaxNUM <? blockCount - 1)
  then Err ErrQBlockTooLarge
  else Ok (mkAssembly szx bodySize maxBodySize maxBlocks ∅ (-1) 0 0).

Definition completeLocked (a : Assembly) : bool :=
  if a_bodySize a =? 0 then (a_finalBlock a =? 0) && (Z.of_nat (size (a_blocks a)) =? 1)
  else if (a_finalBlock a <? 0) || negb (Z.of_nat (size (a_blocks a)) =? a_finalBlock a + 1) then false
  else a_receivedSize a =? a_bodySize a.

Definition hasBlockAfterLocked (a : Assembly) (num : Z) : bool :=
  existsb (fun '(k, _) => num <? k) (map_to_list (a_blocks a)).

Definition validatePayloadLocked (a : Assembly) (num : Z) (more : bool) (payload : list byte) : option error :=
  let blockSize := SZX_Size (a_szx a) in
  let lastNUM := Z.quot (Z.max (a_bodySize a) 1 - 1) blockSize in
  if lastNUM <? num then Some ErrQBlockInvalidNUM else
  let offset := int64 (num * blockSize) in
  let end_ := int64 (offset + zlen payload) in
  if (end_ <? offset) || (a_bodySize a <? end_) || (blockSize <? zlen payload) then Some ErrQBlockInvalidSize else
  if more && (negb (zlen payload =? blockSize) || (a_bodySize a <=? end_)) then Some ErrQBlockInvalidSize else
  if negb more && negb (end_ =? a_bodySize a) then Some ErrQBlockInvalidSize else
  if a_maxBlocks a <=? Z.of_nat (size (a_blocks a)) then Some ErrQBlockTooLarge
  else None.

(** The loop that moves [firstMissing] over the stored blocks: at most one round per
    block. *)
Fixpoint advance (fuel : nat) (blocks : gmap Z (list byte)) (k : Z) : Z :=
  match fuel with
  | O => k
  | S fuel => match blocks !! k with Some _ => advance fuel blocks (k + 1) | None => k end
  end.

(** The results are complete, duplicate and the error. *)
Definition Assembly_Add (a : Assembly) (num : Z) (more : bool) (payload : list byte)
    : Assembly * (bool * bool * option error) :=
  if (num <? 0) || (qBlockMaxNUM <? num) then (a, (false, false, Some ErrQBlockInvalidNUM)) else
  match a_blocks a !! num with
  | Some _ => (a, (completeLocked a, true, None))
  | None =>
      match validatePayloadLocked a num more payload with
      | Some e => (a, (false, false, Some e))
      | None =>
          if ((0 <=? a_finalBlock a) && (a_finalBlock a <? num)) ||
             (negb more && (0 <=? a_finalBlock a) && negb (a_finalBlock a =? num))
          then (a, (false, false, Some ErrQBlockInvalidSize)) else
          if negb more && hasBlockAfterLocked a num
          then (a, (false, false, Some ErrQBlockInvalidSize)) else
          let finalBlock := if negb more then num else a_finalBlock a in
          let blocks := <[num := payload]> (a_blocks a) in
          let a := mkAssembly (a_szx a) (a_bodySize a) (a_maxBodySize a) (a_maxBlocks a) blocks finalBlock
                     (a_receivedSize a + zlen payload)
                     (advance (S (size blocks)) blocks (a_firstMissing a)) in
          (a, (completeLocked a, false, None))
      end
  end.

Definition AddOption (a : Assembly) (value : Z) (payload : list byte) : Assembly * (bool * bool * option error) :=
  let '(szx, num, more, err) := DecodeQBlockOption value in
  match err with
  | Some e => (a, (false, false, Some e))
  | None => if negb (szx =? a_szx a) then (a, (false, false, Some ErrQBlockInvalidSize))
            else Assembly_Add a num more payload
  end.

(** The numbers from [num] on, [count] of them, that are not stored. *)
Definition missing_from (a : Assembly) (num count : Z) : list Z :=
  filter (fun k => a_blocks a !! k = None) (seqZ num count).

Definition Missing (a : Assembly) : list Z :=
  let blockCount := if 0 <? a_bodySize a then Z.quot (a_bodySize a - 1) (SZX_Size (a_szx a)) + 1 else 1 in
  if a_maxBlocks a <? blockCount then [] else missing_from a 0 blockCount.

Definition FirstMissing (a : Assembly) : Z * bool :=
  let count := Z.max 1 (Z.quot (a_bodySize a + SZX_Size (a_szx a) - 1) (SZX_Size (a_szx a))) in
  (a_firstMissing a, a_firstMissing a <? count).

Definition missingSet (a : Assembly) (maxPayloads : Z) : list Z :=
  let count := Z.max 1 (Z.quot (a_bodySize a + SZX_Size (a_szx a) - 1) (SZX_Size (a_szx a))) in
  let last := setLast maxPayloads (a_firstMissing a) count in
  missing_from a (a_firstMissing a) (last + 1 - a_firstMissing a).

Definition MissingSet (a : Assembly) : list Z := missingSet a (MaxPayloads DefaultConfig).

(** ** The reader of an assembled body *)

Record qSparseReader : Type := mkSparse {
  q_blocks : gmap Z (list byte);
  q_size : Z;
  q_blockSize : Z;
  q_offset : Z
}.

Definition Assembly_ReadSeeker (a : Assembly) : result qSparseReader :=
  if negb (completeLocked a) then Err ErrQBlockIncomplete
  else Ok (mkSparse (a_blocks a) (a_bodySize a) (SZX_Size (a_szx a)) 0).

(** The copy loop; a stored block is not empty, so that every round copies. *)
Fixpoint sparse_read (fuel : nat) (r : qSparseReader) (n : Z) (acc : list byte) : qSparseReader * list byte :=
  match fuel with
  | O => (r, acc)
  | S fuel =>
      if negb (n =? 0) && (q_offset r <? q_size r) then
        let block := default [] (q_blocks r !! Z.quot (q_offset r) (q_blockSize r)) in
        let copied := slice_to (slice_from block (Z.rem (q_offset r) (q_blockSize r))) n in
        sparse_read fuel (mkSparse (q_blocks r) (q_size r) (q_blockSize r) (q_offset r + zlen copied))
          (n - zlen copied) (acc ++ copied)
      else (r, acc)
  end.

Definition sparse_Read (r : qSparseReader) (n : Z) : qSparseReader * (list byte * option error) :=
  if n =? 0 then (r, ([], None)) else
  if q_size r <=? q_offset r then (r, ([], Some ErrEOF)) else
  let '(r, d) := sparse_read (S (Z.to_nat n)) r n [] in (r, (d, None)).

Definition sparse_Seek (r : qSparseReader) (offset : Z) (whence : Whence) : qSparseReader * (Z * option error) :=
  let base := match whence with SeekStart => 0 | SeekCurrent => q_offset r | SeekEnd => q_size r end in
  if (offset <? - base) || (2 ^ 63 - 1 - base <? offset)
  then (r, (q_offset r, Some (ErrOther "invalid seek position")))
  else (mkSparse (q_blocks r) (q_size r) (q_blockSize r) (base + offset), (base + offset, None)).

#[export] Instance sparse_ReadSeeker : ReadSeeker qSparseReader := {| Seek := sparse_Seek; Read := sparse_Read |}.

(** ** Sender *)

Record Sender (B : Type) : Type := mkSender { s_body : B; s_szx : Z; s_bodySize : Z }.
Arguments mkSender {B}.
Arguments s_body {B}.
Arguments s_szx {B}.
Arguments s_bodySize {B}.

Section sender.
Context {B : Type} `{!ReadSeeker B}.

Definition NewSender (body : option B) (szx bodySize : Z) : result (Sender B) :=
  match body with
  | None => Err ErrQBlockInvalidSize
  | Some body =>
      if (qBlockMaxSZX <? szx) || (bodySize <? 0) then Err ErrQBlockInvalidSize else
      if SZX_Size szx <=? 0 then Err ErrInvalidSZX else
      let blocks := if 0 <? bodySize then Z.quot (bodySize - 1) (SZX_Size szx) + 1 else 0 in
      if qBlockMaxNUM + 1 <? blocks then Err ErrQBlockInvalidSize
      else Ok (mkSender body szx bodySize)
  end.

Definition Sender_Block (s : Sender B) (num : Z) : Sender B * result (list byte * bool) :=
  if (num <? 0) || (qBlockMaxNUM <? num) then (s, Err ErrQBlockInvalidNUM) else
  let blockSize := SZX_Size (s_szx s) in
  let offset := num * blockSize in
  if (s_bodySize s <? offset) || ((offset =? s_bodySize s) && negb (s_bodySize s =? 0))
  then (s, Err ErrQBlockInvalidNUM) else
  let length := if s_bodySize s - offset <? blockSize then s_bodySize s - offset else blockSize in
  let '(b, (position, err)) := Seek (s_body s) offset SeekStart in
  let s := mkSender b (s_szx s) (s_bodySize s) in
  match err with
  | Some e => (s, Err e)
  | None =>
      if negb (position =? offset) then (s, Err (ErrOther "seek Q-Block body: wrong offset")) else
      let '(b, (payload, readErr)) := ReadFull (s_body s) length in
      let s := mkSender b (s_szx s) (s_bodySize s) in
      let fatal := match readErr with
                   | None => None
                   | Some ErrEOF => if negb (length =? 0) then Some ErrEOF else None
                   | Some ErrUnexpectedEOF => None
                   | Some e => Some e
                   end in
      match fatal with
      | Some e => (s, Err e)
      | None =>
          if negb (zlen payload =? length) then (s, Err ErrUnexpectedEOF)
          else (s, Ok (payload, offset + zlen payload <? s_bodySize s))
      end
  end.

Definition BlockOption (s : Sender B) (num : Z) : Z * option error :=
  if (num <? 0) || (qBlockMaxNUM <? num) then (0, Some ErrQBlockInvalidNUM) else
  let offset := num * SZX_Size (s_szx s) in
  if (s_bodySize s <? offset) || ((offset =? s_bodySize s) && negb (s_bodySize s =? 0))
  then (0, Some ErrQBlockInvalidNUM) else
  let more := offset + SZX_Size (s_szx s) <? s_bodySize s in
  EncodeQBlockOption (s_szx s) num more.

End sender.

(** ** Blocks of a body *)

(** The number of blocks of a body of the given size; an empty body is one empty block. *)
Definition block_count (bs size : Z) : Z := if 0 <? size then (size - 1) / bs + 1 else 1.

Definition block_of (body : list byte) (bs k : Z) : list byte := slice_to (slice_from body (k * bs)) bs.

(** The length the block at [k] must have. *)
Definition block_len (bs size k : Z) : Z := Z.min bs (size - k * bs).

Lemma block_count_pos bs size : 0 < bs -> 0 <= size -> 1 <= block_count bs size.
Proof.
  intros. unfold block_count. destruct (Z.ltb_spec 0 size); [|lia].
  pose proof (Z.div_pos (size - 1) bs). lia.
Qed.

Lemma block_count_in bs size k :
  0 < bs -> 0 <= size -> 0 <= k -> (k < block_count bs size <-> k * bs < size \/ (k = 0 /\ size = 0)).
Proof.
  intros. unfold block_count. destruct (Z.ltb_spec 0 size); [|nia].
  pose proof (Z.div_mod (size - 1) bs ltac:(lia)). pose proof (Z.mod_pos_bound (size - 1) bs ltac:(lia)).
  generalize dependent ((size - 1) / bs). intros q Hq. split; [left|intros [|]]; nia.
Qed.

Lemma zlen_block_of body bs k :
  0 < bs -> 0 <= k -> k * bs <= zlen body -> zlen (block_of body bs k) = block_len bs (zlen body) k.
Proof.
  intros. unfold block_of, block_len, slice_to, slice_from, zlen in *. rewrite length_take, length_drop. nia.
Qed.

(** The total length of the blocks below [n] that are stored. *)
Fixpoint stored (n : nat) (m : gmap Z (list byte)) : Z :=
  match n with
  | O => 0
  | S n => stored n m + match m !! Z.of_nat n with Some p => zlen p | None => 0 end
  end.

Lemma stored_nonneg n m : 0 <= stored n m.
Proof.
  induction n as [|n IH]; cbn [stored]; [lia|].
  destruct (m !! Z.of_nat n) as [p|]; [pose proof (zlen_nonneg p)|]; lia.
Qed.

Lemma stored_empty n : stored n ∅ = 0.
Proof. induction n as [|n IH]; [done|]. cbn [stored]. by rewrite lookup_empty, IH. Qed.

Lemma stored_insert n m k p :
  m !! k = None -> 0 <= k ->
  stored n (<[k := p]> m) = stored n m + if k <? Z.of_nat n then zlen p else 0.
Proof.
  intros Hk H0. induction n as [|n IH]; cbn [stored].
  - by destruct (Z.ltb_spec k (Z.of_nat 0)); [lia|].
  - rewrite IH. destruct (Z.eq_dec k (Z.of_nat n)) as [->|Hne].
    + rewrite lookup_insert_eq, Hk. destruct (Z.ltb_spec (Z.of_nat n) (Z.of_nat n)), (Z.ltb_spec (Z.of_nat n) (Z.of_nat (S n))); lia.
    + rewrite lookup_insert_ne by done.
      destruct (Z.ltb_spec k (Z.of_nat n)), (Z.ltb_spec k (Z.of_nat (S n))); lia.
Qed.

Lemma stored_all n m bs size :
  0 < bs -> 0 <= size -> Z.of_nat n <= block_count bs size ->
  (forall k, 0 <= k < Z.of_nat n -> exists p, m !! k = Some p /\ zlen p = block_len bs size k) ->
  stored n m = Z.min (Z.of_nat n * bs) size.
Proof.
  intros Hbs Hs Hn Hall. induction n as [|n IH]; cbn [stored]; [lia|].
  rewrite IH; [|lia|intros; apply Hall; lia].
  destruct (Hall (Z.of_nat n)) as (p & -> & Hp); [lia|]. rewrite Hp. unfold block_len.
  pose proof (proj1 (block_count_in bs size (Z.of_nat n) Hbs Hs ltac:(lia)) ltac:(lia)). nia.
Qed.

(** ** The map of blocks as a set of numbers *)

Definition range_set (n : Z) : gset Z := list_to_set (seqZ 0 n).

Lemma elem_of_range_set k n : k ∈ range_set n <-> 0 <= k < n.
Proof. unfold range_set. rewrite elem_of_list_to_set, elem_of_seqZ. lia. Qed.

Lemma size_range_set n : 0 <= n -> Z.of_nat (size (range_set n)) = n.
Proof.
  intros. unfold range_set. rewrite size_list_to_set by apply NoDup_seqZ. rewrite length_seqZ. lia.
Qed.

Lemma size_full (m : gmap Z (list byte)) n :
  0 <= n -> (forall k p, m !! k = Some p -> 0 <= k < n) ->
  (Z.of_nat (size m) = n <-> forall k, 0 <= k < n -> is_Some (m !! k)) /\ Z.of_nat (size m) <= n.
Proof.
  intros Hn Hdom. assert (dom m ⊆ range_set n) as Hsub.
  { intros k [p Hp]%elem_of_dom. apply elem_of_range_set. eauto. }
  rewrite <- size_dom. pose proof (size_range_set n Hn) as Hr. pose proof (subseteq_size _ _ Hsub) as Hsz.
  split; [|lia]. split.
  - intros Hsize k Hk. apply elem_of_dom.
    assert (dom m = range_set n) as -> by (apply set_subseteq_size_eq; [done|lia]).
    by apply elem_of_range_set.
  - intros Hall. assert (dom m = range_set n) as ->; [|done]. apply set_eq. intros k. rewrite elem_of_range_set.
    split; [|intros; apply elem_of_dom; auto]. intros Hk. apply elem_of_range_set. auto.
Qed.

Lemma advance_spec fuel (m : gmap Z (list byte)) k :
  let r := advance fuel m k in
  k <= r <= k + Z.of_nat fuel /\ (forall i, k <= i < r -> is_Some (m !! i)) /\
  (m !! r = None \/ r = k + Z.of_nat fuel).
Proof.
  revert k. induction fuel as [|fuel IH]; intros k; cbn [advance].
  - cbv zeta. split; [lia|]. split; [lia|]. right. lia.
  - destruct (m !! k) as [p|] eqn:E; cbv zeta in *.
    + destruct (IH (k + 1)) as (H1 & H2 & H3). split; [lia|]. split; [|destruct H3; [by left|right; lia]].
      intros i Hi. destruct (Z.eq_dec i k) as [->|]; [by rewrite E|]. apply H2. lia.
    + split; [lia|]. split; [lia|]. by left.
Qed.

(** With more fuel than there are blocks the loop stops at the first gap. *)
Lemma advance_gap (m : gmap Z (list byte)) k :
  0 <= k -> (forall i, 0 <= i < k -> is_Some (m !! i)) ->
  let r := advance (S (size m)) m k in
  k <= r /\ (forall i, 0 <= i < r -> is_Some (m !! i)) /\ m !! r = None.
Proof.
  intros Hk Hbelow. destruct (advance_spec (S (size m)) m k) as (H1 & H2 & H3). cbv zeta in *.
  set (r := advance (S (size m)) m k) in *.
  assert (forall i, 0 <= i < r -> is_Some (m !! i)) as Hall.
  { intros i Hi. destruct (Z.lt_ge_cases i k); [apply Hbelow|apply H2]; lia. }
  split; [lia|]. split; [done|]. destruct H3 as [|H3]; [done|]. exfalso.
  assert (range_set r ⊆ dom m) as Hsub.
  { intros i Hi%elem_of_range_set. apply elem_of_dom. auto. }
  pose proof (subseteq_size _ _ Hsub) as Hsz. rewrite size_dom in Hsz.
  pose proof (size_range_set r ltac:(lia)). lia.
Qed.

(** ** The invariant of an assembly *)

Definition a_bs (a : Assembly) : Z := SZX_Size (a_szx a).
Definition a_count (a : Assembly) : Z := block_count (a_bs a) (a_bodySize a).

(** The configuration of an assembly, fixed by the constructor. *)
Record params_ok (a : Assembly) : Prop := {
  p_szx : 0 <= a_szx a <= 6;
  p_size : 0 <= a_bodySize a <= a_maxBodySize a;
  p_count : a_count a <= a_maxBlocks a /\ a_count a <= qBlockMaxNUM + 1
}.

Record assembly_ok (a : Assembly) : Prop := {
  ok_params : params_ok a;
  ok_blocks : forall k p, a_blocks a !! k = Some p ->
    0 <= k < a_count a /\ zlen p = block_len (a_bs a) (a_bodySize a) k;
  ok_final : a_finalBlock a = (if a_blocks a !! (a_count a - 1) then a_count a - 1 else -1);
  ok_received : a_receivedSize a = stored (Z.to_nat (a_count a)) (a_blocks a);
  ok_first : 0 <= a_firstMissing a <= a_count a /\
    (forall i, 0 <= i < a_firstMissing a -> is_Some (a_blocks a !! i)) /\
    a_blocks a !! a_firstMissing a = None
}.

Lemma a_bs_bounds a : params_ok a -> 16 <= a_bs a <= 1024.
Proof. intros [H _ _]. by apply SZX_Size_bounds. Qed.

Lemma a_count_pos a : params_ok a -> 1 <= a_count a.
Proof. intros H. pose proof (a_bs_bounds a H). destruct H. apply block_count_pos; lia. Qed.

Lemma quot_count size bs : 0 < bs -> 0 <= size ->
  Z.quot (Z.max size 1 - 1) bs = block_count bs size - 1 /\
  Z.max 1 (Z.quot (size + bs - 1) bs) = block_count bs size.
Proof.
  intros Hb Hs. unfold block_count. rewrite !Z.quot_div_nonneg by lia. destruct (Z.ltb_spec 0 size).
  - replace (Z.max size 1) with size by lia. replace (size + bs - 1) with (size - 1 + 1 * bs) by lia.
    rewrite Z.div_add by lia. pose proof (Z.div_pos (size - 1) bs). lia.
  - replace size with 0 by lia. split; [done|]. rewrite (Z.div_small (0 + bs - 1)) by lia. done.
Qed.

(** What the validation of a payload establishes. *)
Lemma validatePayload_ok a num more payload :
  params_ok a -> 0 <= num <= qBlockMaxNUM -> validatePayloadLocked a num more payload = None ->
  num < a_count a /\ zlen payload = block_len (a_bs a) (a_bodySize a) num /\
  more = negb (num =? a_count a - 1) /\ Z.of_nat (size (a_blocks a)) < a_maxBlocks a.
Proof.
  intros Hp Hnum. pose proof (a_bs_bounds a Hp) as Hbs. destruct Hp as [Hszx Hsize Hcount].
  unfold validatePayloadLocked. fold (a_bs a). destruct (quot_count (a_bodySize a) (a_bs a)) as [-> _]; [lia..|].
  fold (a_count a). destruct (Z.ltb_spec (a_count a - 1) num) as [|Hlt]; [done|].
  unfold qBlockMaxNUM in *. rewrite (int64_id (num * a_bs a)) by nia.
  pose proof (zlen_nonneg payload) as Hl.
  pose proof (proj1 (block_count_in (a_bs a) (a_bodySize a) num ltac:(lia) ltac:(lia) ltac:(lia)) ltac:(unfold a_count in Hlt; lia)) as Hin.
  assert (forall k, 0 <= k -> (k < a_count a <-> k * a_bs a < a_bodySize a \/ k = 0 /\ a_bodySize a = 0)) as Hcnt
    by (intros; apply block_count_in; lia).
  destruct (Z.lt_ge_cases (num * a_bs a + zlen payload) (2 ^ 63)) as [Hsmall|Hbig].
  - rewrite int64_id by nia.
    destruct (Z.ltb_spec (num * a_bs a + zlen payload) (num * a_bs a)); [lia|]. cbn [orb].
    destruct (Z.ltb_spec (a_bodySize a) (num * a_bs a + zlen payload)) as [|Hend]; [done|]. cbn [orb].
    destruct (Z.ltb_spec (a_bs a) (zlen payload)) as [|Hpl]; [done|].
    destruct more; cbn [andb negb].
    + destruct (Z.eqb_spec (zlen payload) (a_bs a)) as [He|]; [|done]. cbn [orb negb].
      destruct (Z.leb_spec (a_bodySize a) (num * a_bs a + zlen payload)) as [|Hm]; [done|].
      destruct (Z.leb_spec (a_maxBlocks a) (Z.of_nat (size (a_blocks a)))) as [|Hmax]; [done|].
      intros _. split; [lia|]. split; [unfold block_len; lia|]. split; [|done].
      assert (num + 1 < a_count a) by (apply Hcnt; nia).
      by destruct (Z.eqb_spec num (a_count a - 1)); [lia|].
    + destruct (Z.eqb_spec (num * a_bs a + zlen payload) (a_bodySize a)) as [He|]; [|done]. cbn [negb].
      destruct (Z.leb_spec (a_maxBlocks a) (Z.of_nat (size (a_blocks a)))) as [|Hmax]; [done|].
      intros _. split; [lia|]. split; [unfold block_len; lia|]. split; [|done].
      assert (~ num + 1 < a_count a) by (rewrite Hcnt by lia; nia).
      by destruct (Z.eqb_spec num (a_count a - 1)); [|lia].
  - (* a payload of 2^63 bytes or more: longer than a block *)
    destruct (_ || _ || (a_bs a <? zlen payload)) eqn:E; [done|].
    apply orb_false_iff in E as [_ E%Z.ltb_ge]. nia.
Qed.

Lemma validatePayload_accepts a num payload :
  params_ok a -> 0 <= num < a_count a -> zlen payload = block_len (a_bs a) (a_bodySize a) num ->
  Z.of_nat (size (a_blocks a)) < a_maxBlocks a ->
  validatePayloadLocked a num (negb (num =? a_count a - 1)) payload = None.
Proof.
  intros Hp Hnum Hlen Hsz. pose proof (a_bs_bounds a Hp) as Hbs. destruct Hp as [Hszx Hsize Hcount].
  unfold validatePayloadLocked. fold (a_bs a). destruct (quot_count (a_bodySize a) (a_bs a)) as [-> _]; [lia..|].
  fold (a_count a). destruct (Z.ltb_spec (a_count a - 1) num) as [|_]; [lia|].
  unfold qBlockMaxNUM, block_len in *. rewrite (int64_id (num * a_bs a)) by nia.
  pose proof (zlen_nonneg payload) as Hl. rewrite int64_id by nia.
  assert (forall k, 0 <= k -> (k < a_count a <-> k * a_bs a < a_bodySize a \/ k = 0 /\ a_bodySize a = 0)) as Hcnt
    by (intros; apply block_count_in; lia).
  pose proof (proj1 (Hcnt num ltac:(lia)) ltac:(lia)) as Hin.
  destruct (Z.ltb_spec (num * a_bs a + zlen payload) (num * a_bs a)); [lia|].
  destruct (Z.ltb_spec (a_bodySize a) (num * a_bs a + zlen payload)); [lia|].
  destruct (Z.ltb_spec (a_bs a) (zlen payload)); [lia|]. cbn [orb].
  destruct (Z.leb_spec (a_maxBlocks a) (Z.of_nat (size (a_blocks a)))); [lia|].
  destruct (Z.eqb_spec num (a_count a - 1)) as [He|Hne]; cbn [negb andb].
  - assert (~ num + 1 < a_count a) as Hlast by lia. rewrite Hcnt in Hlast by lia.
    destruct (Z.eqb_spec (num * a_bs a + zlen payload) (a_bodySize a)); [done|nia].
  - assert (num + 1 < a_count a) as Hnext by lia. apply Hcnt in Hnext; [|lia].
    destruct (Z.eqb_spec (zlen payload) (a_bs a)); [|nia].
    destruct (Z.leb_spec (a_bodySize a) (num * a_bs a + zlen payload)); [nia|done].
Qed.

Lemma NewAssembly_ok szx bodySize maxBodySize maxBlocks a :
  0 <= szx -> NewAssembly szx bodySize maxBodySize maxBlocks = Ok a ->
  assembly_ok a /\ a_szx a = szx /\ a_bodySize a = bodySize /\ a_maxBlocks a = maxBlocks /\ a_blocks a = ∅.
Proof.
  intros Hszx. unfold NewAssembly, qBlockMaxSZX, SZX1024.
  destruct (Z.ltb_spec 6 szx); [done|]. destruct (Z.ltb_spec bodySize 0); [done|]. cbn [orb].
  destruct (Z.leb_spec maxBodySize 0); [done|]. destruct (Z.ltb_spec maxBodySize bodySize); [done|]. cbn [orb].
  pose proof (SZX_Size_bounds szx ltac:(lia)) as Hbs. destruct (Z.leb_spec (SZX_Size szx) 0); [done|].
  destruct (Z.leb_spec maxBlocks 0); [done|]. cbn [orb].
  destruct (Z.ltb_spec maxBlocks (if 0 <? bodySize then Z.quot (bodySize - 1) (SZX_Size szx) + 1 else 0)) as [|Hmb]; [done|].
  cbn [orb]. destruct (Z.ltb_spec qBlockMaxNUM ((if 0 <? bodySize then Z.quot (bodySize - 1) (SZX_Size szx) + 1 else 0) - 1)) as [|Hnum]; [done|].
  intros [= <-]. split; [|done]. set (a := mkAssembly _ _ _ _ _ _ _ _).
  assert (a_count a <= maxBlocks /\ a_count a <= qBlockMaxNUM + 1) as Hc.
  { unfold a_count, block_count, a_bs, a. cbn [a_szx a_bodySize].
    destruct (Z.ltb_spec 0 bodySize); [|unfold qBlockMaxNUM; lia]. rewrite Z.quot_div_nonneg in * by lia. lia. }
  assert (params_ok a) as Hp by (split; cbn; lia).
  pose proof (a_count_pos a Hp). split; [done|..].
  - intros k p. cbn. by rewrite lookup_empty.
  - cbn. by rewrite lookup_empty.
  - cbn [a_receivedSize a_blocks a]. generalize (Z.to_nat (a_count a)). intros n. induction n as [|n IH]; [done|].
    cbn [stored]. rewrite <- IH, lookup_empty. done.
  - cbn. rewrite lookup_empty. split; [lia|]. split; [lia|done].
Qed.

(** The two checks of [Add] on the final block never reject a validated payload. *)
Lemma final_checks a num more payload :
  assembly_ok a -> 0 <= num <= qBlockMaxNUM -> a_blocks a !! num = None ->
  validatePayloadLocked a num more payload = None ->
  ((0 <=? a_finalBlock a) && (a_finalBlock a <? num)) ||
    (negb more && (0 <=? a_finalBlock a) && negb (a_finalBlock a =? num)) = false /\
  negb more && hasBlockAfterLocked a num = false.
Proof.
  intros [Hp Hb Hfin _ _] Hnum Hnone Hv. apply validatePayload_ok in Hv as (Hlt & _ & -> & _); [|done..].
  rewrite negb_involutive. pose proof (a_count_pos a Hp). split.
  - rewrite Hfin. destruct (a_blocks a !! (a_count a - 1)) as [p|] eqn:E; [|by rewrite andb_false_r].
    destruct (Z.leb_spec 0 (a_count a - 1)); [|lia]. cbn [andb].
    destruct (Z.ltb_spec (a_count a - 1) num); [lia|]. cbn [orb].
    destruct (Z.eqb_spec num (a_count a - 1)) as [->|]; [congruence|done].
  - destruct (Z.eqb_spec num (a_count a - 1)) as [->|]; [|done]. cbn [andb]. unfold hasBlockAfterLocked.
    destruct (existsb _ _) eqn:E; [|done]. apply existsb_exists in E as ([k p] & Hin & Hk%Z.ltb_lt).
    apply list_elem_of_In, elem_of_map_to_list in Hin. apply Hb in Hin. lia.
Qed.

(** The state after a block was accepted. *)
Definition added (a : Assembly) (num : Z) (payload : list byte) : Assembly :=
  let blocks := <[num := payload]> (a_blocks a) in
  mkAssembly (a_szx a) (a_bodySize a) (a_maxBodySize a) (a_maxBlocks a) blocks
    (if num =? a_count a - 1 then num else a_finalBlock a) (a_receivedSize a + zlen payload)
    (advance (S (size blocks)) blocks (a_firstMissing a)).

Lemma added_ok a num payload :
  assembly_ok a -> 0 <= num < a_count a -> a_blocks a !! num = None ->
  zlen payload = block_len (a_bs a) (a_bodySize a) num -> assembly_ok (added a num payload).
Proof.
  intros [Hp Hb Hfin Hrec Hfirst] Hnum Hnone Hlen. pose proof (a_count_pos a Hp) as Hpos.
  assert (a_count (added a num payload) = a_count a) as Ec by done.
  split; [by destruct Hp; split|..]; rewrite ?Ec.
  - intros k p. cbn [added a_blocks]. intros [[<- <-]|[_ Hk]]%lookup_insert_Some; [done|]. by apply Hb.
  - cbn [added a_finalBlock a_blocks].
    destruct (Z.eqb_spec num (a_count a - 1)) as [->|Hne].
    + by rewrite lookup_insert_eq.
    + by rewrite lookup_insert_ne.
  - cbn [added a_receivedSize a_blocks]. rewrite stored_insert by (done || lia). rewrite Hrec.
    destruct (Z.ltb_spec num (Z.of_nat (Z.to_nat (a_count a)))); lia.
  - destruct Hfirst as (Hrange & Hbelow & _). cbn [added a_firstMissing a_blocks].
    destruct (advance_gap (<[num:=payload]> (a_blocks a)) (a_firstMissing a)) as (H1 & H2 & H3); [lia| |].
    { intros i Hi. destruct (Z.eq_dec num i) as [->|]; [by rewrite lookup_insert_eq|].
      rewrite lookup_insert_ne by done. by apply Hbelow. }
    cbv zeta in *. set (r := advance _ _ _) in *. split; [|done]. split; [lia|].
    destruct (Z.le_gt_cases r (a_count a)) as [|Hgt]; [done|]. exfalso.
    destruct (H2 (a_count a)) as [p Hk]; [lia|].
    apply lookup_insert_Some in Hk as [[He _]|[_ Hk]]; [lia|]. apply Hb in Hk as [? _]. lia.
Qed.

(** [Add] on an assembly that satisfies the invariant. *)
Lemma Assembly_Add_spec a num more payload :
  assembly_ok a ->
  Assembly_Add a num more payload =
    if (num <? 0) || (qBlockMaxNUM <? num) then (a, (false, false, Some ErrQBlockInvalidNUM)) else
    match a_blocks a !! num with
    | Some _ => (a, (completeLocked a, true, None))
    | None =>
        match validatePayloadLocked a num more payload with
        | Some e => (a, (false, false, Some e))
        | None => (added a num payload, (completeLocked (added a num payload), false, None))
        end
    end.
Proof.
  intros Hok. unfold Assembly_Add. destruct (Z.ltb_spec num 0); [done|].
  destruct (Z.ltb_spec qBlockMaxNUM num); [done|]. cbn [orb].
  destruct (a_blocks a !! num) eqn:E; [done|]. destruct (validatePayloadLocked a num more payload) eqn:Ev; [done|].
  destruct (final_checks a num more payload Hok ltac:(lia) E Ev) as [-> ->].
  apply validatePayload_ok in Ev as (Hlt & _ & -> & _); [|apply Hok|lia]. rewrite negb_involutive. done.
Qed.

Lemma Assembly_Add_ok a num more payload :
  assembly_ok a -> assembly_ok (fst (Assembly_Add a num more payload)).
Proof.
  intros Hok. rewrite Assembly_Add_spec by done. destruct (Z.ltb_spec num 0); [done|].
  destruct (Z.ltb_spec qBlockMaxNUM num); [done|]. cbn [orb].
  destruct (a_blocks a !! num) eqn:E; [done|]. destruct (validatePayloadLocked a num more payload) eqn:Ev; [done|].
  apply validatePayload_ok in Ev as (Hlt & Hlen & _ & _); [|apply Hok|lia]. apply added_ok; done || lia.
Qed.

Lemma complete_iff a :
  assembly_ok a -> completeLocked a = true <-> forall k, 0 <= k < a_count a -> is_Some (a_blocks a !! k).
Proof.
  intros [Hp Hb Hfin Hrec _]. pose proof (a_bs_bounds a Hp) as Hbs. pose proof (a_count_pos a Hp) as Hc.
  destruct (size_full (a_blocks a) (a_count a)) as [Hfull _]; [lia|by intros k p [? _]%Hb|].
  assert ((forall k, 0 <= k < a_count a -> is_Some (a_blocks a !! k)) ->
          a_finalBlock a = a_count a - 1 /\ a_receivedSize a = a_bodySize a) as Hall.
  { intros Hall. split; [rewrite Hfin; by destruct (Hall (a_count a - 1) ltac:(lia)) as [p ->]|].
    rewrite Hrec, (stored_all _ _ (a_bs a) (a_bodySize a)); [|lia|apply Hp|rewrite Z2Nat.id by lia; done|].
    - rewrite Z2Nat.id by lia. destruct (Z.lt_ge_cases (a_count a * a_bs a) (a_bodySize a)) as [Hlt|]; [|lia].
      assert (a_count a < a_count a) by (apply (block_count_in (a_bs a) (a_bodySize a) (a_count a)); [lia|apply Hp|lia|by left]). lia.
    - intros k Hk. destruct (Hall k) as [p Hk']; [lia|]. exists p. split; [done|]. by apply Hb in Hk' as [_ ?]. }
  unfold completeLocked. destruct (Z.eqb_spec (a_bodySize a) 0) as [Hz|Hz].
  - assert (a_count a = 1) as Hone by (unfold a_count, block_count; rewrite Hz; done). rewrite Hone in *. split.
    + intros [_ Hs%Z.eqb_eq]%andb_true_iff. by apply Hfull.
    + intros Hk. destruct (Hall Hk) as [-> _]. by rewrite (proj2 Hfull Hk).
  - destruct (Z.ltb_spec (a_finalBlock a) 0) as [Hneg|Hpos]; cbn [orb].
    + split; [done|]. intros Hk. destruct (Hall Hk) as [He _]. lia.
    + assert (a_finalBlock a = a_count a - 1) as Hf
        by (rewrite Hfin in *; destruct (a_blocks a !! (a_count a - 1)); [done|lia]).
      rewrite Hf. replace (a_count a - 1 + 1) with (a_count a) by lia.
      destruct (Z.eqb_spec (Z.of_nat (size (a_blocks a))) (a_count a)) as [Hs|Hs]; cbn [negb].
      * split; [intros _; by apply Hfull|]. intros Hk. destruct (Hall Hk) as [_ ->]. by apply Z.eqb_eq.
      * split; [done|]. intros Hk. by apply Hfull in Hk.
Qed.

Lemma Missing_spec a :
  assembly_ok a -> Missing a = filter (fun k => a_blocks a !! k = None) (seqZ 0 (a_count a)).
Proof.
  intros [Hp _ _ _ _]. unfold Missing, missing_from. pose proof (a_bs_bounds a Hp) as Hbs. destruct Hp as [_ Hsize Hc].
  assert ((if 0 <? a_bodySize a then Z.quot (a_bodySize a - 1) (SZX_Size (a_szx a)) + 1 else 1) = a_count a) as ->.
  { unfold a_count, block_count, a_bs in *. destruct (Z.ltb_spec 0 (a_bodySize a)); [|done].
    by rewrite Z.quot_div_nonneg by lia. }
  by destruct (Z.ltb_spec (a_maxBlocks a) (a_count a)); [lia|].
Qed.

Lemma complete_missing a : assembly_ok a -> completeLocked a = true <-> Missing a = [].
Proof.
  intros Hok. rewrite complete_iff, Missing_spec by done. split.
  - intros Hall. apply filter_none, Forall_forall. intros k [? ?]%elem_of_seqZ.
    destruct (Hall k) as [p ->]; [lia|done].
  - intros Hnil k Hk. destruct (a_blocks a !! k) eqn:E; [eauto|]. exfalso.
    assert (k ∈ filter (fun k => a_blocks a !! k = None) (seqZ 0 (a_count a))) as Hin
      by (apply list_elem_of_filter; split; [done|apply elem_of_seqZ; lia]).
    rewrite Hnil in Hin. by apply not_elem_of_nil in Hin.
Qed.

Lemma received_bound a : assembly_ok a -> a_receivedSize a <= a_bodySize a.
Proof.
  intros [Hp Hb _ Hrec _]. pose proof (a_bs_bounds a Hp) as Hbs. pose proof (a_count_pos a Hp) as Hc.
  assert (forall n, Z.of_nat n <= a_count a -> stored n (a_blocks a) <= Z.min (Z.of_nat n * a_bs a) (a_bodySize a)) as Hst.
  { intros n. induction n as [|n IH]; intros Hn; cbn [stored]; [destruct Hp; lia|].
    specialize (IH ltac:(lia)).
    pose proof (proj1 (block_count_in (a_bs a) (a_bodySize a) (Z.of_nat n) ltac:(lia) ltac:(apply Hp) ltac:(lia)) ltac:(unfold a_count in Hn; lia)).
    destruct (a_blocks a !! Z.of_nat n) as [p|] eqn:E; [|nia]. apply Hb in E as [_ E]. rewrite E. unfold block_len. nia. }
  specialize (Hst (Z.to_nat (a_count a)) ltac:(lia)). lia.
Qed.

(** Feeding a list of payloads. *)
Definition add_all (a : Assembly) (inputs : list (Z * bool * list byte)) : Assembly :=
  fold_left (fun a '(num, more, p) => fst (Assembly_Add a num more p)) inputs a.

Lemma add_all_ok inputs a :
  assembly_ok a ->
  assembly_ok (add_all a inputs) /\ a_szx (add_all a inputs) = a_szx a /\
  a_bodySize (add_all a inputs) = a_bodySize a /\ a_maxBlocks (add_all a inputs) = a_maxBlocks a.
Proof.
  unfold add_all. revert a. induction inputs as [|[[num more] p] inputs IH]; intros a Hok; [done|].
  cbn [fold_left]. destruct (IH (fst (Assembly_Add a num more p))) as (H1 & -> & -> & ->); [by apply Assembly_Add_ok|].
  split; [done|]. rewrite Assembly_Add_spec by done. repeat case_match; done.
Qed.

(** The assembly keeps its invariant under any sequence of payloads, whatever
    their numbers, flags and contents: every stored block has the number and the
    length that its place in the body requires, no more than [maxBlocks] blocks and
    [bodySize] bytes are kept, the received size and the first gap are exact; and it
    reports completion exactly when no block is missing. *)
Theorem Assembly_invariant (szx bodySize maxBodySize maxBlocks : Z) (a0 : Assembly)
    (inputs : list (Z * bool * list byte)) (Hszx : 0 <= szx)
    (Hnew : NewAssembly szx bodySize maxBodySize maxBlocks = Ok a0) :
  let a := add_all a0 inputs in
  assembly_ok a /\ Z.of_nat (size (a_blocks a)) <= maxBlocks /\ a_receivedSize a <= bodySize /\
  (completeLocked a = true <-> Missing a = []) /\
  (completeLocked a = true -> a_receivedSize a = bodySize /\ snd (FirstMissing a) = false).
Proof.
  cbv zeta. apply NewAssembly_ok in Hnew as (Hok & Es & Eb & Em & _); [|done].
  destruct (add_all_ok inputs a0 Hok) as (Hok' & Es' & Eb' & Em'). rewrite Es, Eb, Em in *.
  set (a := add_all a0 inputs) in *.
  pose proof Hok' as [Hp Hb Hfin Hrec Hfirst]. pose proof (a_bs_bounds a Hp) as Hbs. pose proof (a_count_pos a Hp) as Hc.
  destruct (size_full (a_blocks a) (a_count a)) as [Hfull Hsz]; [lia|by intros k p [? _]%Hb|].
  split; [done|]. split; [destruct Hp as [_ _ ?]; lia|].
  pose proof (complete_missing a Hok') as Hmiss. pose proof (received_bound a Hok') as Hle. rewrite Eb' in Hle.
  split; [done|]. split; [done|]. intros Hcomp. pose proof Hcomp as Hall. rewrite complete_iff in Hall by done.
  split.
  - unfold completeLocked in Hcomp. destruct (Z.eqb_spec (a_bodySize a) 0) as [Hz|];
      [|destruct (_ || _); [done|apply Z.eqb_eq in Hcomp; lia]].
    assert (0 <= a_receivedSize a); [|lia]. rewrite Hrec. apply stored_nonneg.
  - unfold FirstMissing. fold (a_bs a). destruct (quot_count (a_bodySize a) (a_bs a)) as [_ ->]; [lia|apply Hp|].
    cbn [snd]. fold (a_count a). apply Z.ltb_ge. destruct Hfirst as (Hr & _ & Hnone).
    destruct (Z.lt_ge_cases (a_firstMissing a) (a_count a)); [|done]. destruct (Hall (a_firstMissing a)); [lia|congruence].
Qed.

Definition sample_assembly : Assembly := mkAssembly SZX16 20 1000 10 ∅ (-1) 0 0.

Lemma Assembly_invariant_witness :
  let a := add_all sample_assembly [(1, false, make_bytes 4); (7, true, []); (0, true, make_bytes 16)] in
  assembly_ok a /\ completeLocked a = true.
Proof.
  split; [|reflexivity].
  exact (proj1 (Assembly_invariant SZX16 20 1000 10 sample_assembly
    [(1, false, make_bytes 4); (7, true, []); (0, true, make_bytes 16)] ltac:(cbv; discriminate) eq_refl)).
Defined.

(** ** The sparse reader is a ReadSeeker *)

(** The first [n] blocks one after the other. *)
Definition chunks (m : gmap Z (list byte)) (n : nat) : list byte :=
  concat ((fun k => default [] (m !! k)) <$> seqZ 0 (Z.of_nat n)).

Lemma chunks_S m n : chunks m (S n) = chunks m n ++ default [] (m !! Z.of_nat n).
Proof.
  unfold chunks. rewrite Nat2Z.inj_succ. replace (Z.succ (Z.of_nat n)) with (Z.of_nat n + 1) by lia.
  rewrite seqZ_app by lia. rewrite fmap_app, concat_app. f_equal.
  change (seqZ (0 + Z.of_nat n) 1) with [0 + (0 + Z.of_nat n)]. rewrite !Z.add_0_l.
  cbn [fmap list_fmap concat]. by rewrite app_nil_r.
Qed.

Record sparse_ok (r : qSparseReader) : Prop := {
  sp_bs : 0 < q_blockSize r;
  sp_size : 0 <= q_size r < 2 ^ 62;
  sp_offset : 0 <= q_offset r <= q_size r;
  sp_blocks : forall k, 0 <= k < block_count (q_blockSize r) (q_size r) ->
    exists p, q_blocks r !! k = Some p /\ zlen p = block_len (q_blockSize r) (q_size r) k
}.

Definition sparse_content (r : qSparseReader) : list byte :=
  chunks (q_blocks r) (Z.to_nat (block_count (q_blockSize r) (q_size r))).

Section sparse.
Context (m : gmap Z (list byte)) (bs size : Z).
Context (Hbs : 0 < bs) (Hsize : 0 <= size).
Context (Hall : forall k, 0 <= k < block_count bs size -> exists p, m !! k = Some p /\ zlen p = block_len bs size k).

Lemma zlen_chunks n : Z.of_nat n <= block_count bs size -> zlen (chunks m n) = Z.min (Z.of_nat n * bs) size.
Proof.
  induction n as [|n IH]; intros Hn; [change (zlen (chunks m 0)) with 0; lia|]. rewrite chunks_S, zlen_app, IH by lia.
  destruct (Hall (Z.of_nat n)) as (p & -> & Hp); [lia|]. cbn [default from_option id]. change (zlen (id p)) with (zlen p).
  rewrite Hp. unfold block_len.
  pose proof (proj1 (block_count_in bs size (Z.of_nat n) Hbs Hsize ltac:(lia)) ltac:(lia)). nia.
Qed.

Lemma zlen_all_chunks : zlen (chunks m (Z.to_nat (block_count bs size))) = size.
Proof.
  pose proof (block_count_pos bs size Hbs Hsize). rewrite zlen_chunks by lia. rewrite Z2Nat.id by lia.
  destruct (Z.lt_ge_cases (block_count bs size * bs) size) as [Hlt|]; [|lia].
  pose proof (proj2 (block_count_in bs size (block_count bs size) Hbs Hsize ltac:(lia)) ltac:(by left)). lia.
Qed.

Lemma chunks_split n k : (k < n)%nat ->
  exists rest, chunks m n = chunks m k ++ default [] (m !! Z.of_nat k) ++ rest.
Proof.
  induction n as [|n IH]; intros Hk; [lia|]. rewrite chunks_S.
  destruct (decide (k = n)) as [->|Hne]; [exists []; by rewrite app_nil_r|].
  destruct IH as [rest ->]; [lia|]. exists (rest ++ default [] (m !! Z.of_nat n)). by rewrite <- !app_assoc.
Qed.

(** What is left from an offset: the rest of its block and what follows. *)
Lemma chunk_at o :
  0 <= o < size ->
  exists p rest, m !! (o / bs) = Some p /\ o mod bs < zlen p /\
    slice_from (chunks m (Z.to_nat (block_count bs size))) o = slice_from p (o mod bs) ++ rest.
Proof.
  intros Ho. set (k := o / bs). pose proof (Z.div_mod o bs ltac:(lia)) as Hdm. pose proof (Z.mod_pos_bound o bs Hbs).
  fold k in Hdm. assert (0 <= k) by (apply Z.div_pos; lia).
  assert (k < block_count bs size) as Hk by (apply block_count_in; [done..|]; left; nia).
  destruct (Hall k) as (p & Hp & Hlen); [lia|].
  destruct (chunks_split (Z.to_nat (block_count bs size)) (Z.to_nat k)) as [rest Hrest]; [lia|].
  rewrite Z2Nat.id, Hp in Hrest by lia. cbn [default from_option] in Hrest. change (id p) with p in Hrest.
  pose proof (zlen_chunks (Z.to_nat k) ltac:(lia)) as Hlk. rewrite Z2Nat.id in Hlk by lia.
  replace (Z.min (k * bs) size) with (k * bs) in Hlk by nia. unfold block_len in Hlen.
  exists p, rest. split; [done|]. split; [nia|]. rewrite Hrest.
  replace o with (k * bs + o mod bs) at 1 by lia.
  rewrite <- slice_from_slice_from by lia. rewrite slice_from_app' by done.
  unfold slice_from. rewrite drop_app_le by (unfold zlen in *; lia). done.
Qed.
End sparse.

Lemma sparse_read_spec fuel r n acc :
  sparse_ok r -> 0 <= n -> (Z.to_nat n < fuel)%nat ->
  let d := slice_to (slice_from (sparse_content r) (q_offset r)) n in
  sparse_read fuel r n acc =
    (mkSparse (q_blocks r) (q_size r) (q_blockSize r) (q_offset r + zlen d), acc ++ d).
Proof.
  cbv zeta. revert r n acc. induction fuel as [|fuel IH]; intros r n acc Hok Hn Hf; [lia|]. cbn [sparse_read].
  pose proof Hok as [Hbs Hsz Hoff Hall].
  pose proof (zlen_all_chunks (q_blocks r) (q_blockSize r) (q_size r) Hbs ltac:(lia) Hall) as Hlen.
  fold (sparse_content r) in Hlen.
  destruct (Z.eqb_spec n 0) as [->|Hn0]; cbn [negb andb].
  - change (slice_to ?l 0) with (@nil Z). rewrite app_nil_r. change (zlen (@nil Z)) with 0. rewrite Z.add_0_r. by destruct r.
  - destruct (Z.ltb_spec (q_offset r) (q_size r)) as [Hlt|Hge].
    + destruct (chunk_at (q_blocks r) (q_blockSize r) (q_size r) Hbs ltac:(lia) Hall (q_offset r) ltac:(lia))
        as (p & rest & Hp & Hmod & Hsplit). fold (sparse_content r) in Hsplit.
      rewrite Z.quot_div_nonneg, Z.rem_mod_nonneg by lia. rewrite Hp. cbn [default from_option]. change (id p) with p.
      pose proof (Z.mod_pos_bound (q_offset r) (q_blockSize r) Hbs) as Hm.
      set (q := slice_from p (q_offset r mod q_blockSize r)) in *.
      assert (0 < zlen q) as Hq by (unfold q; rewrite zlen_slice_from; lia).
      set (c := slice_to q n). assert (zlen c = Z.min n (zlen q)) as Hc.
      { unfold c, slice_to, zlen in *. rewrite length_take. lia. }
      assert (slice_to (slice_from (sparse_content r) (q_offset r)) n =
              c ++ slice_to (slice_from (sparse_content r) (q_offset r + zlen c)) (n - zlen c)) as Hd.
      { rewrite <- slice_from_slice_from by lia. rewrite Hsplit. unfold c, slice_to, slice_from.
        rewrite take_app, drop_app. f_equal. unfold zlen in *. rewrite !length_take in *.
        destruct (Z.le_gt_cases n (Z.of_nat (length q))).
        - replace (Z.to_nat n - length q)%nat with 0%nat by lia.
          replace (Z.to_nat (n - Z.of_nat (Z.to_nat n `min` length q))) with 0%nat by lia. done.
        - rewrite drop_ge by lia.
          replace (Z.to_nat (Z.of_nat (Z.to_nat n `min` length q)) - length q)%nat with 0%nat by lia.
          cbn [drop app]. f_equal. lia. }
      assert (q_offset r + zlen c <= q_size r) as Hfit.
      { pose proof (f_equal zlen Hsplit) as Hz. rewrite zlen_slice_from, Hlen, zlen_app in Hz by lia.
        pose proof (zlen_nonneg rest). lia. }
      rewrite IH; [|split; cbn; done || lia|lia|lia].
      cbn [q_blocks q_size q_blockSize q_offset]. unfold sparse_content. cbn [q_blocks q_size q_blockSize].
      fold (sparse_content r). rewrite Hd, zlen_app, <- app_assoc. f_equal. f_equal. lia.
    + rewrite (slice_from_beyond (sparse_content r)) by lia.
      unfold slice_to. rewrite take_nil, app_nil_r. change (zlen (@nil Z)) with 0. rewrite Z.add_0_r. by destruct r.
Qed.

#[local] Obligation Tactic := idtac.
#[export] Program Instance sparse_laws : ReadSeekerLaws qSparseReader :=
  {| rs_ok := sparse_ok; content := sparse_content; offset := q_offset |}.
Next Obligation.
  intros b Hok. pose proof Hok as [Hbs Hsz Hoff Hall].
  unfold sparse_content. by rewrite zlen_all_chunks by (done || lia).
Qed.
Next Obligation.
  intros b o Hok. pose proof Hok as [Hbs Hsz Hoff Hall].
  unfold sparse_content. rewrite zlen_all_chunks by (done || lia). intros Ho.
  exists (mkSparse (q_blocks b) (q_size b) (q_blockSize b) o). split; [|split; [by split|done]].
  cbn. unfold sparse_Seek. destruct (Z.ltb_spec o (- 0)), (Z.ltb_spec (2 ^ 63 - 1 - 0) o); lia || done.
Qed.
Next Obligation.
  intros b Hok. pose proof Hok as [Hbs Hsz Hoff Hall]. exists b. split; [|done].
  cbn. unfold sparse_Seek. rewrite Z.add_0_r.
  destruct (Z.ltb_spec 0 (- q_offset b)), (Z.ltb_spec (2 ^ 63 - 1 - q_offset b) 0); try lia. by destruct b.
Qed.
Next Obligation.
  intros b Hok. pose proof Hok as [Hbs Hsz Hoff Hall].
  unfold sparse_content. rewrite zlen_all_chunks by (done || lia).
  exists (mkSparse (q_blocks b) (q_size b) (q_blockSize b) (q_size b)). split; [|split; [split; cbn; done || lia|done]].
  cbn. unfold sparse_Seek. rewrite Z.add_0_r.
  destruct (Z.ltb_spec 0 (- q_size b)), (Z.ltb_spec (2 ^ 63 - 1 - q_size b) 0); lia || done.
Qed.
Next Obligation.
  intros b n Hok Hn. pose proof Hok as [Hbs Hsz Hoff Hall].
  assert (zlen (sparse_content b) = q_size b) as Hlen by (unfold sparse_content; by rewrite zlen_all_chunks by (done || lia)).
  rewrite Hlen. intros Ho. set (d := slice_to (slice_from (sparse_content b) (q_offset b)) n).
  assert (zlen d = Z.min n (q_size b - q_offset b)) as Hd.
  { rewrite <- Hlen. unfold d, slice_to, slice_from, zlen. rewrite length_take, length_drop. unfold zlen in Hlen. lia. }
  exists (mkSparse (q_blocks b) (q_size b) (q_blockSize b) (q_offset b + zlen d)), d.
  split; [|split; [lia|split; [split; cbn; done || lia|split; [done|split; [done|]]]]].
  - cbn. unfold sparse_Read. destruct (Z.eqb_spec n 0); [lia|]. destruct (Z.leb_spec (q_size b) (q_offset b)); [lia|].
    by rewrite sparse_read_spec by (done || lia).
  - rewrite Hd. unfold d. destruct (Z.le_ge_cases n (q_size b - q_offset b)).
    + by replace (Z.min n (q_size b - q_offset b)) with n by lia.
    + rewrite !slice_to_all; try done; rewrite zlen_slice_from; lia.
Qed.
Next Obligation.
  intros b n Hok Hn. pose proof Hok as [Hbs Hsz Hoff Hall].
  unfold sparse_content. rewrite zlen_all_chunks by (done || lia). intros Ho. exists b. split; [|done].
  cbn. unfold sparse_Read. destruct (Z.eqb_spec n 0); [lia|]. by destruct (Z.leb_spec (q_size b) (q_offset b)); [|lia].
Qed.

(** ** A whole transfer *)

Section transfer.
Context {B : Type} `{!ReadSeeker B} `{!ReadSeekerLaws B}.

(** A sender over a body of the declared size. *)
Record sender_ok (s : Sender B) (body : list byte) : Prop := {
  so_ok : rs_ok (s_body s);
  so_content : content (s_body s) = body;
  so_size : s_bodySize s = zlen body;
  so_szx : 0 <= s_szx s <= 6;
  so_count : block_count (SZX_Size (s_szx s)) (zlen body) <= qBlockMaxNUM + 1
}.

Lemma ReadFull_at (b : B) n :
  rs_ok b -> 0 <= n -> offset b + n <= zlen (content b) ->
  exists b', ReadFull b n = (b', (slice_to (slice_from (content b) (offset b)) n, None)) /\
    rs_ok b' /\ content b' = content b.
Proof.
  intros Hok Hn Hfit. pose proof (offset_range b Hok) as Ho. unfold ReadFull.
  destruct (ReadFull_loop_spec (S (Z.to_nat n)) b n [] (offset b)) as (b' & d & err & -> & Hok' & Hc & Hd & Hz & He);
    [done|lia|done|by rewrite Z.add_0_r|change (zlen (@nil Z)) with 0; lia|change (zlen (@nil Z)) with 0; lia|].
  replace (Z.min n (zlen (content b) - offset b)) with n in Hz by lia.
  exists b'. split; [|done]. rewrite <- Hd, Hz, Z.leb_refl. done.
Qed.

Lemma Sender_Block_spec s body k :
  sender_ok s body -> 0 <= k < block_count (SZX_Size (s_szx s)) (zlen body) ->
  exists s', Sender_Block s k =
    (s', Ok (block_of body (SZX_Size (s_szx s)) k, k * SZX_Size (s_szx s) + SZX_Size (s_szx s) <? zlen body)) /\
    sender_ok s' body /\ s_szx s' = s_szx s.
Proof.
  intros [Hok Hc Hs Hszx Hcnt] Hk. set (bs := SZX_Size (s_szx s)) in *.
  pose proof (SZX_Size_bounds (s_szx s) Hszx) as Hbs. fold bs in Hbs. pose proof (zlen_nonneg body).
  pose proof (proj1 (block_count_in bs (zlen body) k ltac:(lia) ltac:(lia) ltac:(lia)) ltac:(lia)) as Hin.
  unfold Sender_Block, qBlockMaxNUM in *. fold bs. rewrite Hs.
  destruct (Z.ltb_spec k 0); [lia|]. destruct (Z.ltb_spec 1048575 k); [lia|]. cbn [orb].
  destruct (Z.ltb_spec (zlen body) (k * bs)); [nia|]. cbn [orb].
  assert ((k * bs =? zlen body) && negb (zlen body =? 0) = false) as ->.
  { destruct (Z.eqb_spec (k * bs) (zlen body)), (Z.eqb_spec (zlen body) 0); try done. nia. }
  set (len := if zlen body - k * bs <? bs then zlen body - k * bs else bs).
  assert (len = block_len bs (zlen body) k) as Hlen by (unfold len, block_len; destruct (Z.ltb_spec (zlen body - k * bs) bs); lia).
  unfold block_len in Hlen.
  destruct (seek_start (s_body s) (k * bs) Hok) as (b1 & -> & Hok1 & Hc1 & Ho1); [rewrite Hc; nia|].
  rewrite Z.eqb_refl. cbn [negb s_body].
  destruct (ReadFull_at b1 len Hok1) as (b2 & -> & Hok2 & Hc2); [lia|rewrite Ho1, Hc1, Hc; lia|].
  rewrite Hc1, Hc, Ho1.
  assert (slice_to (slice_from body (k * bs)) len = block_of body bs k) as ->.
  { unfold block_of. rewrite Hlen. destruct (Z.le_ge_cases bs (zlen body - k * bs)).
    - by replace (Z.min bs (zlen body - k * bs)) with bs by lia.
    - rewrite !slice_to_all; try done; rewrite zlen_slice_from; lia. }
  pose proof (zlen_block_of body bs k ltac:(lia) ltac:(lia) ltac:(nia)) as Hzb. unfold block_len in Hzb.
  rewrite Hzb, <- Hlen, Z.eqb_refl. cbn [negb s_bodySize s_szx].
  exists (mkSender b2 (s_szx s) (zlen body)). split; [|split; [|done]].
  - do 3 f_equal. destruct (Z.ltb_spec (k * bs + len) (zlen body)), (Z.ltb_spec (k * bs + bs) (zlen body)); lia || done.
  - split; cbn; try done. congruence.
Qed.

Lemma BlockOption_spec (s : Sender B) body k :
  sender_ok s body -> 0 <= k < block_count (SZX_Size (s_szx s)) (zlen body) ->
  BlockOption s k =
    (packed (s_szx s) k (k * SZX_Size (s_szx s) + SZX_Size (s_szx s) <? zlen body), None).
Proof.
  intros [Hok Hc Hs Hszx Hcnt] Hk. set (bs := SZX_Size (s_szx s)) in *.
  pose proof (SZX_Size_bounds (s_szx s) Hszx) as Hbs. fold bs in Hbs. pose proof (zlen_nonneg body).
  pose proof (proj1 (block_count_in bs (zlen body) k ltac:(lia) ltac:(lia) ltac:(lia)) ltac:(lia)) as Hin.
  unfold BlockOption, qBlockMaxNUM in *. fold bs. rewrite Hs.
  destruct (Z.ltb_spec k 0); [lia|]. destruct (Z.ltb_spec 1048575 k); [lia|]. cbn [orb].
  destruct (Z.ltb_spec (zlen body) (k * bs)); [nia|]. cbn [orb].
  assert ((k * bs =? zlen body) && negb (zlen body =? 0) = false) as ->.
  { destruct (Z.eqb_spec (k * bs) (zlen body)), (Z.eqb_spec (zlen body) 0); try done. nia. }
  apply EncodeQBlockOption_packed; [done|unfold maxQBlockNumber; lia].
Qed.

(** The receiver of the blocks [nums] in that order: [None] is an error on either side. *)
Fixpoint deliver (s : Sender B) (a : Assembly) (nums : list Z) : option (Sender B * Assembly) :=
  match nums with
  | [] => Some (s, a)
  | k :: nums =>
      match BlockOption s k, Sender_Block s k with
      | (value, None), (s, Ok (payload, _)) =>
          match AddOption a value payload with
          | (a, (_, _, None)) => deliver s a nums
          | _ => None
          end
      | _, _ => None
      end
  end.

(** The stored blocks are those of the body. *)
Definition agrees (a : Assembly) (body : list byte) : Prop :=
  forall k p, a_blocks a !! k = Some p -> p = block_of body (a_bs a) k.

(** A block of the body is never rejected. *)
Lemma Assembly_Add_block a body k :
  assembly_ok a -> agrees a body -> a_bodySize a = zlen body -> 0 <= k < a_count a ->
  exists a', Assembly_Add a k (k * a_bs a + a_bs a <? zlen body) (block_of body (a_bs a) k) =
      (a', (completeLocked a', bool_decide (is_Some (a_blocks a !! k)), None)) /\
    assembly_ok a' /\ agrees a' body /\ a_bodySize a' = a_bodySize a /\ a_szx a' = a_szx a /\
    (forall i, is_Some (a_blocks a' !! i) <-> i = k \/ is_Some (a_blocks a !! i)).
Proof.
  intros Hok Hag Hsize Hk. pose proof Hok as [Hp Hb _ _ _]. pose proof (a_bs_bounds a Hp) as Hbs.
  pose proof Hp as [Hszx _ [Hmax Hnum]]. pose proof (a_count_pos a Hp). pose proof (zlen_nonneg body).
  set (more := k * a_bs a + a_bs a <? zlen body). rewrite Assembly_Add_spec by done. unfold qBlockMaxNUM in *.
  destruct (Z.ltb_spec k 0); [lia|]. destruct (Z.ltb_spec 1048575 k); [lia|]. cbn [orb].
  destruct (a_blocks a !! k) as [p|] eqn:E.
  - exists a. rewrite bool_decide_true by done. split_and!; try done. intros i. split; [by right|]. intros [-> | ]; [by rewrite E|done].
  - pose proof (proj1 (block_count_in (a_bs a) (zlen body) k ltac:(lia) ltac:(lia) ltac:(lia))
      ltac:(rewrite <- Hsize; apply Hk)) as Hin.
    assert (zlen (block_of body (a_bs a) k) = block_len (a_bs a) (a_bodySize a) k) as Hlen
      by (rewrite Hsize; apply zlen_block_of; nia).
    assert (more = negb (k =? a_count a - 1)) as ->.
    { unfold more. assert (k + 1 < a_count a <-> (k + 1) * a_bs a < zlen body \/ k + 1 = 0 /\ zlen body = 0) as Hn
        by (unfold a_count; rewrite Hsize; apply block_count_in; lia).
      destruct (Z.ltb_spec (k * a_bs a + a_bs a) (zlen body)), (Z.eqb_spec k (a_count a - 1)); try done.
      - exfalso. assert (k + 1 < a_count a) by (apply Hn; nia). lia.
      - exfalso. assert (k + 1 < a_count a) as Hlt by lia. apply Hn in Hlt. nia. }
    assert (Z.of_nat (size (a_blocks a)) < a_maxBlocks a) as Hroom.
    { destruct (size_full (a_blocks a) (a_count a)) as [Hf Hle]; [lia|by intros i q [? _]%Hb|].
      destruct (Z.eq_dec (Z.of_nat (size (a_blocks a))) (a_count a)) as [He|]; [|lia].
      destruct (proj1 Hf He k) as [q Hq]; [lia|congruence]. }
    rewrite validatePayload_accepts by (done || lia). rewrite bool_decide_false by (intros [? ?]; done).
    eexists. split; [done|]. split; [by apply added_ok|]. split; [|split; [done|split; [done|]]].
    + intros i q. cbn [added a_blocks]. intros [[<- <-]|[_ Hi]]%lookup_insert_Some; [done|]. by apply Hag.
    + intros i. cbn [added a_blocks]. rewrite lookup_insert_is_Some. split; [intros [->|[_ ?]]; auto|].
      intros [->|Hi]; [by left|]. destruct (decide (k = i)); auto.
Qed.

Lemma AddOption_block a body k :
  assembly_ok a -> agrees a body -> a_bodySize a = zlen body -> 0 <= k < a_count a ->
  exists a' c d, AddOption a (packed (a_szx a) k (k * a_bs a + a_bs a <? zlen body)) (block_of body (a_bs a) k) =
      (a', (c, d, None)) /\
    assembly_ok a' /\ agrees a' body /\ a_bodySize a' = a_bodySize a /\ a_szx a' = a_szx a /\
    is_Some (a_blocks a' !! k) /\ (forall i, is_Some (a_blocks a !! i) -> is_Some (a_blocks a' !! i)).
Proof.
  intros Hok Hag Hsize Hk. pose proof Hok as [[Hszx _ [Hmax Hnum]] _ _ _ _].
  destruct (Assembly_Add_block a body k Hok Hag Hsize Hk) as (a' & Hadd & Ha' & Hag' & Hs' & Hz' & Hin).
  revert Hadd. set (more := k * a_bs a + a_bs a <? zlen body). intros Hadd.
  unfold AddOption, DecodeQBlockOption, maxBlockValue, szxMask, moreBlocksFollowingMask, SZX1024, qBlockMaxNUM in *.
  assert (0 <= packed (a_szx a) k more <= 16777215) by (unfold packed; destruct more; lia).
  destruct (Z.ltb_spec 16777215 (packed (a_szx a) k more)); [lia|].
  destruct (packed_fields (a_szx a) k more) as (-> & -> & ->); [lia..|].
  rewrite uint8_id by (unfold is_byte; lia). destruct (Z.ltb_spec 6 (a_szx a)); [lia|].
  rewrite Z.eqb_refl. cbn [negb]. rewrite Hadd. eexists _, _, _. split; [done|]. split_and!; try done; [|intros i Hi]; apply Hin; auto.
Qed.

Lemma deliver_ok nums s a body :
  sender_ok s body -> assembly_ok a -> agrees a body -> a_bodySize a = zlen body -> a_szx a = s_szx s ->
  Forall (fun k => 0 <= k < block_count (SZX_Size (s_szx s)) (zlen body)) nums ->
  exists s' a', deliver s a nums = Some (s', a') /\ assembly_ok a' /\ agrees a' body /\
    a_bodySize a' = zlen body /\ a_szx a' = s_szx s /\
    (forall i, is_Some (a_blocks a !! i) \/ i ∈ nums -> is_Some (a_blocks a' !! i)).
Proof.
  revert s a. induction nums as [|k nums IH]; intros s a Hs Ha Hag Hsize Hszx Hnums; cbn [deliver].
  - exists s, a. split_and!; auto. intros i [|Hi]; [done|]. by apply not_elem_of_nil in Hi.
  - apply Forall_cons in Hnums as [Hk Hnums].
    rewrite (BlockOption_spec s body k Hs Hk).
    destruct (Sender_Block_spec s body k Hs Hk) as (s1 & -> & Hs1 & Hszx1).
    assert (0 <= k < a_count a) as Hka by (unfold a_count, a_bs; by rewrite Hszx, Hsize).
    destruct (AddOption_block a body k Ha Hag Hsize Hka) as (a1 & c & d & Hadd & Ha1 & Hag1 & Hsz1 & Hsx1 & Hin & Hmono).
    unfold a_bs in Hadd. rewrite Hszx in Hadd. rewrite Hadd.
    destruct (IH s1 a1) as (s' & a' & -> & Ha' & Hag' & Hsize' & Hszx' & Hall); [done..|congruence|congruence|by rewrite Hszx1|].
    exists s', a'. split_and!; auto; [congruence|]. intros i [Hi|[->|Hi]%elem_of_cons]; apply Hall; auto.
Qed.

Lemma chunks_body (m : gmap Z (list byte)) body bs n :
  0 < bs -> (forall k, 0 <= k < Z.of_nat n -> m !! k = Some (block_of body bs k)) ->
  chunks m n = slice_to body (Z.of_nat n * bs).
Proof.
  intros Hbs. induction n as [|n IH]; intros Hm; [done|]. rewrite chunks_S, IH by (intros; apply Hm; lia).
  rewrite Hm by lia. cbn [default from_option]. change (id ?x) with x. unfold block_of, slice_to, slice_from.
  replace (Z.to_nat (Z.of_nat (S n) * bs)) with (Z.to_nat (Z.of_nat n * bs) + Z.to_nat bs)%nat by nia.
  apply take_take_drop.
Qed.

(** The reader of a complete assembly has the contents of the body. *)
Lemma complete_reader a body :
  assembly_ok a -> agrees a body -> a_bodySize a = zlen body -> completeLocked a = true ->
  exists r, Assembly_ReadSeeker a = Ok r /\ sparse_ok r /\ sparse_content r = body /\ q_offset r = 0.
Proof.
  intros Hok Hag Hsize Hcomp. eexists. unfold Assembly_ReadSeeker. rewrite Hcomp. cbn [negb]. split; [done|].
  pose proof Hok as [Hp Hb _ _ _]. pose proof (a_bs_bounds a Hp) as Hbs. pose proof (a_count_pos a Hp) as Hc.
  rewrite complete_iff in Hcomp by done. fold (a_bs a). pose proof (zlen_nonneg body).
  destruct Hp as [_ _ [_ Hmax]]. unfold qBlockMaxNUM in Hmax.
  assert (zlen body <= a_count a * a_bs a) as Hcover.
  { destruct (Z.lt_ge_cases (a_count a * a_bs a) (zlen body)) as [Hlt|]; [|lia].
    assert (a_count a < a_count a) by (apply (block_count_in (a_bs a) (a_bodySize a) (a_count a)); [lia|lia|lia|left; lia]). lia. }
  split; [|split; [|done]].
  - split; cbn [q_blockSize q_size q_offset q_blocks]; [lia|rewrite Hsize; nia|lia|].
    intros k Hk. destruct (Hcomp k) as [p Hkp]; [done|]. exists p. split; [done|]. by apply Hb in Hkp as [_ ?].
  - unfold sparse_content. cbn [q_blocks q_size q_blockSize]. fold (a_count a).
    rewrite (chunks_body _ body (a_bs a)); [|lia|].
    + rewrite Z2Nat.id by lia. by apply slice_to_all.
    + intros k Hk. destruct (Hcomp k) as [p Hkp]; [lia|]. rewrite Hkp. f_equal. by apply Hag.
Qed.

(** ** A body of which some blocks have arrived *)

Lemma Assembly_Add_received a num more payload a' complete duplicate err :
  Assembly_Add a num more payload = (a', (complete, duplicate, err)) -> assembly_ok a ->
  assembly_ok a' /\
  a_receivedSize a' = a_receivedSize a + (if duplicate || match err with None => false | Some _ => true end then 0 else zlen payload).
Proof.
  intros E Hok. split; [pose proof (Assembly_Add_ok a num more payload Hok) as P; by rewrite E in P|].
  rewrite Assembly_Add_spec in E by done. repeat (case_match; simplify_eq); cbn; lia.
Qed.

(** The assembly has the blocks [seen] of the body, and no others. *)
Record partial_body (body : list byte) (szx : Z) (seen : list Z) (a : Assembly) : Prop := {
  pa_ok : assembly_ok a;
  pa_agrees : agrees a body;
  pa_size : a_bodySize a = zlen body;
  pa_szx : a_szx a = szx;
  pa_seen : forall i, is_Some (a_blocks a !! i) <-> i ∈ seen
}.

Definition all_seen (count : Z) (seen : list Z) : bool := bool_decide (Forall (fun k => k ∈ seen) (seqZ 0 count)).

Lemma partial_count body szx seen a :
  partial_body body szx seen a -> a_bs a = SZX_Size szx /\ a_count a = block_count (SZX_Size szx) (zlen body).
Proof. intros H. unfold a_count, a_bs. by rewrite (pa_szx _ _ _ _ H), (pa_size _ _ _ _ H). Qed.

Lemma partial_new body szx maxBodySize maxBlocks a :
  0 <= szx -> NewAssembly szx (zlen body) maxBodySize maxBlocks = Ok a -> partial_body body szx [] a /\ a_receivedSize a = 0.
Proof.
  intros Hszx (Hok & Esz & Ebody & _ & Eblocks)%NewAssembly_ok; [|done]. split; [split; try done|].
  - intros i q. by rewrite Eblocks, lookup_empty.
  - intros i. rewrite Eblocks, lookup_empty. split; [by intros [? ?]|by intros ?%not_elem_of_nil].
  - by rewrite (ok_received _ Hok), Eblocks, stored_empty.
Qed.

Lemma partial_add body szx seen a k (bs := SZX_Size szx) :
  partial_body body szx seen a -> 0 <= k < block_count bs (zlen body) ->
  exists a', Assembly_Add a k (k * bs + bs <? zlen body) (block_of body bs k) =
      (a', (completeLocked a', bool_decide (k ∈ seen), None)) /\
    partial_body body szx (k :: seen) a' /\
    a_receivedSize a' = a_receivedSize a + (if bool_decide (k ∈ seen) then 0 else zlen (block_of body bs k)).
Proof.
  intros H Hk. destruct (partial_count _ _ _ _ H) as [Ebs Ecount]. destruct H as [Hok Hag Hsize Hsz Hseen].
  destruct (Assembly_Add_block a body k Hok Hag Hsize ltac:(by rewrite Ecount)) as (a' & Hadd & Hok' & Hag' & Hs' & Hz' & Hin).
  rewrite Ebs in Hadd. fold bs in Hadd. assert (bool_decide (is_Some (a_blocks a !! k)) = bool_decide (k ∈ seen)) as Ed by (apply bool_decide_ext, Hseen).
  rewrite Ed in Hadd. pose proof Hadd as Hrec. apply Assembly_Add_received in Hrec as [_ Hrec]; [|done]. rewrite orb_false_r in Hrec.
  exists a'. split; [done|]. split; [|done]. split; try done; [congruence|congruence|]. intros i. by rewrite Hin, elem_of_cons, Hseen.
Qed.

Lemma partial_complete body szx seen a :
  partial_body body szx seen a -> completeLocked a = all_seen (block_count (SZX_Size szx) (zlen body)) seen.
Proof.
  intros H. destruct (partial_count _ _ _ _ H) as [_ Ec]. apply Bool.eq_iff_eq_true.
  rewrite (complete_iff a (pa_ok _ _ _ _ H)), Ec. unfold all_seen. rewrite bool_decide_eq_true, Forall_forall. split.
  - intros Hc k Hk%elem_of_seqZ. apply (pa_seen _ _ _ _ H), Hc. lia.
  - intros Hc k Hk. apply (pa_seen _ _ _ _ H), Hc, elem_of_seqZ. lia.
Qed.

Lemma zlen_block_le body bs k : 0 <= bs -> 0 <= zlen (block_of body bs k) <= bs.
Proof. intros Hbs. unfold block_of, slice_to, zlen. rewrite length_take. lia. Qed.

(** A body sent as Q-Blocks arrives: whatever the order in which the blocks are
    delivered and however often each is repeated, no block is rejected, and once
    every number has been delivered the assembly is complete and its reader (which
    obeys the laws of [io.ReadSeeker]) has exactly the contents of the sender's
    body. *)
Theorem qblock_transfer_correct (s : Sender B) (a0 : Assembly) (body : list byte) (nums : list Z)
    (maxBodySize maxBlocks : Z) (Hs : sender_ok s body)
    (Ha : NewAssembly (s_szx s) (zlen body) maxBodySize maxBlocks = Ok a0)
    (Hnums : forall k, k ∈ nums <-> 0 <= k < block_count (SZX_Size (s_szx s)) (zlen body)) :
  exists s' a' r, deliver s a0 nums = Some (s', a') /\ completeLocked a' = true /\
    Assembly_ReadSeeker a' = Ok r /\ rs_ok r /\ content r = body /\ offset r = 0.
Proof.
  pose proof Hs as [_ _ Hssize Hszx Hcnt].
  apply NewAssembly_ok in Ha as (Hok & Esz & Ebody & _ & Eblocks); [|lia].
  destruct (deliver_ok nums s a0 body) as (s' & a' & Hd & Hok' & Hag & Hsize & Hszx' & Hall); [done|done|..|done| |].
  { intros k p. by rewrite Eblocks, lookup_empty. }
  { done. }
  { apply Forall_forall. intros k. apply Hnums. }
  assert (completeLocked a' = true) as Hcomp.
  { apply complete_iff; [done|]. intros k Hk. apply Hall. right. apply Hnums.
    unfold a_count, a_bs in Hk. by rewrite Hszx', Hsize in Hk. }
  destruct (complete_reader a' body Hok' Hag Hsize Hcomp) as (r & Hr & Hrok & Hcont & Hoff). by exists s', a', r.
Qed.
End transfer.

Definition sample_body : list byte := make_bytes 16 ++ [1; 2; 3; 4].
Definition sample_sender : Sender Reader := mkSender (NewReader sample_body) SZX16 20.

Lemma sample_sender_ok : sender_ok sample_sender sample_body.
Proof. split; cbv; intuition congruence. Qed.

Lemma qblock_transfer_correct_witness :
  exists s' a' r, deliver sample_sender sample_assembly [1; 0; 1] = Some (s', a') /\ completeLocked a' = true /\
    Assembly_ReadSeeker a' = Ok r /\ rs_ok r /\ content r = sample_body /\ offset r = 0.
Proof.
  refine (qblock_transfer_correct sample_sender sample_assembly sample_body [1; 0; 1] 1000 10 sample_sender_ok eq_refl _).
  intros k. change (block_count (SZX_Size (s_szx sample_sender)) (zlen sample_body)) with 2.
  rewrite !elem_of_cons. split; [intros [-> | [-> | [-> | H%not_elem_of_nil]]]; lia || done|lia].
Defined.

(** ** Configuration *)

(** A configuration that [Resolve] accepts (also the defaults, for the zero value)
    is within its documented limits, and the timeouts derived from it do not
    overflow 64 bits: the partial-body lifetime is the exact RFC 9177 formula and is
    longer than one timeout. *)
Theorem Config_Resolve_sound (c c' : Config) (H : Resolve c = (c', None)) :
  1 <= MaxPayloads c' <= 256 /\ 0 < NonTimeout c' <= Hour /\ 0 <= NonMaxRetransmit c' <= 20 /\
  NonTimeout c' + NonTimeout c' / 2 + Second <= NonReceiveTimeout c' /\
  NonReceiveTimeout c' * 2 ^ NonMaxRetransmit c' < 2 ^ 63 /\
  (let span := NonTimeout c' * (2 ^ NonMaxRetransmit c' - 1) in
   NonPartialTimeout c' = span + span / 2 + 2 * MaxLatency c' + NonTimeout c' /\
   NonTimeout c' < NonPartialTimeout c' < 2 ^ 63).
Proof.
  unfold Resolve in H. revert H. set (d := if bool_decide _ then DefaultConfig else c). clearbody d. intros H.
  repeat (match type of H with (if ?b then _ else _) = _ => destruct b eqn:? end; [done|]).
  injection H as ->. repeat match goal with E : _ || _ = false |- _ => apply orb_false_iff in E as [? ?] end.
  unfold Hour, Second in *. rewrite Z.shiftr_div_pow2 in * by lia.
  rewrite Z.quot_div_nonneg in * by lia.
  assert (0 < 2 ^ NonMaxRetransmit c') as Hpow by (apply Z.pow_pos_nonneg; lia).
  assert (2 ^ NonMaxRetransmit c' <= 2 ^ 20) as Hpow2 by (apply Z.pow_le_mono_r; lia). change (2 ^ 20) with 1048576 in Hpow2.
  unfold NonPartialTimeout. rewrite Z.shiftl_1_l. set (p := 2 ^ NonMaxRetransmit c') in *. clearbody p.
  split; [lia|]. split; [lia|]. split; [lia|]. split; [lia|].
  change (2 ^ 63) with 9223372036854775808 in *. split.
  - assert (NonReceiveTimeout c' + 1000000000 <= (9223372036854775808 - 1) / p) as Hq by lia.
    pose proof (Z.mul_div_le (9223372036854775808 - 1) p Hpow). nia.
  - set (span := NonTimeout c' * (p - 1)). assert (0 <= span <= 3600 * 1000000000 * 1048575) as Hspan by (unfold span; nia).
    cbv zeta. rewrite (int64_id span) by (change (2 ^ 63) with 9223372036854775808; lia).
    rewrite Z.quot_div_nonneg by lia. assert (0 <= span / 2 <= span) by div_lia.
    rewrite int64_id by (change (2 ^ 63) with 9223372036854775808; div_lia). split; [done|]. div_lia.
Qed.

Lemma Config_Resolve_sound_witness : NonPartialTimeout DefaultConfig < 2 ^ 63.
Proof.
  exact (proj2 (proj2 (proj2 (proj2 (proj2 (proj2 (proj2
    (Config_Resolve_sound (mkConfig 0 0 0 0 0) DefaultConfig eq_refl)))))))).
Defined.
