(* ===== verification/SenderBatch.v ===== *)
(** * Reading several blocks of a body at once (src/net/blockwise/qblock/transfer.go, [Sender.Blocks])

    The numbers a peer asks for may repeat and come in any order; they are sorted, repeated
    ones are dropped, and the blocks are read in that order. *)
From stdpp Require Import prelude list sorting.
From Stdlib Require Import ZArith Lia.
From S2P Require Import Prelude Message PoolMessage BlockCodec Assembly.
#[local] Open Scope Z_scope.

(** The loop that keeps a number if it is not the last one kept. *)
Definition unique (ordered : list Z) : list Z :=
  fold_left (fun u num => match last u with
                          | Some x => if x =? num then u else u ++ [num]
                          | None => u ++ [num]
                          end) ordered [].

Section Batch.
Context {B : Type} `{!ReadSeeker B}.

Fixpoint read_blocks (s : Sender B) (nums : list Z) (out : list (list byte)) : Sender B * result (list (list byte)) :=
  match nums with
  | [] => (s, Ok out)
  | num :: nums =>
      match Sender_Block s num with
      | (s, Err e) => (s, Err e)
      | (s, Ok (payload, _)) => read_blocks s nums (out ++ [payload])
      end
  end.

Definition Sender_Blocks (s : Sender B) (nums : list Z) (maxPayloads : Z) : Sender B * result (list (list byte)) :=
  if maxPayloads <=? 0 then (s, Err ErrQBlockTooLarge) else
  let nums := unique (merge_sort Z.le nums) in
  if maxPayloads <? zlen nums then (s, Err ErrQBlockTooLarge) else read_blocks s nums [].

(** ** The numbers *)

Lemma last_is_max u x y : StronglySorted Z.lt u -> last u = Some x -> y ∈ u -> y <= x.
Proof.
  intros Hs Hl Hy. apply last_Some in Hl as [u' ->]. apply elem_of_app in Hy as [Hy|Hy]; [|apply list_elem_of_singleton in Hy; lia].
  apply StronglySorted_app in Hs as (H & _). specialize (H y x Hy ltac:(set_solver)). lia.
Qed.

Lemma StronglySorted_snoc u x : StronglySorted Z.lt u -> (forall y, y ∈ u -> y < x) -> StronglySorted Z.lt (u ++ [x]).
Proof.
  induction 1 as [|y u Hs IH Hall]; intros H; cbn; [repeat constructor|]. constructor; [apply IH; intros z Hz; apply H; set_solver|].
  apply Forall_app. split; [done|]. constructor; [apply H; set_solver|done].
Qed.

Lemma unique_loop l : forall u, StronglySorted Z.lt u -> StronglySorted Z.le l -> (forall x y, x ∈ u -> y ∈ l -> x <= y) ->
  let r := fold_left (fun u num => match last u with Some x => if x =? num then u else u ++ [num] | None => u ++ [num] end) l u in
  StronglySorted Z.lt r /\ forall k, k ∈ r <-> k ∈ u \/ k ∈ l.
Proof.
  induction l as [|n l IH]; intros u Hu Hl Hb; cbn [fold_left]; [split; [done|set_solver]|].
  apply StronglySorted_inv in Hl as [Hl Hn]. rewrite Forall_forall in Hn.
  assert (forall u', StronglySorted Z.lt u' -> (forall k, k ∈ u' <-> k ∈ u \/ k = n) ->
    let r := fold_left (fun u num => match last u with Some x => if x =? num then u else u ++ [num] | None => u ++ [num] end) l u' in
    StronglySorted Z.lt r /\ forall k, k ∈ r <-> k ∈ u \/ k ∈ n :: l) as Hstep.
  { intros u' Hu' He. destruct (IH u' Hu' Hl) as [Hr Hk].
    - intros x y Hx Hy. apply He in Hx as [Hx| ->]; [apply Hb; set_solver|by apply Hn].
    - split; [done|]. intros k. rewrite Hk, He. set_solver. }
  destruct (last u) as [x|] eqn:El; [destruct (Z.eqb_spec x n) as [->|Hne]|].
  - apply Hstep; [done|]. intros k. split; [by left|]. intros [Hk| ->]; [done|]. by apply list_elem_of_lookup_2 with (pred (length u)); rewrite <- last_lookup.
  - apply Hstep; [|set_solver]. apply StronglySorted_snoc; [done|]. intros y Hy.
    pose proof (last_is_max u x y Hu El Hy). assert (x <= n); [|lia]. apply Hb; [|set_solver].
    by apply list_elem_of_lookup_2 with (pred (length u)); rewrite <- last_lookup.
  - apply last_None in El as ->. apply Hstep; [repeat constructor|set_solver].
Qed.

(** The numbers asked for, once each, in increasing order. *)
Lemma unique_spec nums (ks := unique (merge_sort Z.le nums)) : StronglySorted Z.lt ks /\ forall k, k ∈ ks <-> k ∈ nums.
Proof.
  destruct (unique_loop (merge_sort Z.le nums) []) as [Hs Hk].
  - constructor.
  - apply (StronglySorted_merge_sort Z.le).
  - intros x y Hx. by apply elem_of_nil in Hx.
  - split; [exact Hs|]. intros k. etransitivity; [apply Hk|]. rewrite (merge_sort_Permutation Z.le nums). set_solver.
Qed.

(** ** The blocks *)

Context `{!ReadSeekerLaws B}.
Abbreviation count s body := (block_count (SZX_Size (s_szx s)) (zlen body)).

Lemma read_blocks_ok (s : Sender B) body ks : forall out, sender_ok s body -> Forall (fun k => 0 <= k < count s body) ks ->
  exists s', read_blocks s ks out = (s', Ok (out ++ (block_of body (SZX_Size (s_szx s)) <$> ks))) /\ sender_ok s' body /\ s_szx s' = s_szx s.
Proof.
  revert s. induction ks as [|k ks IH]; intros s out Hs Hks; cbn [read_blocks fmap list_fmap]; [exists s; by rewrite app_nil_r|].
  apply Forall_cons in Hks as [Hk Hks]. destruct (Sender_Block_spec s body k Hs Hk) as (s1 & -> & Hs1 & E1).
  destruct (IH s1 (out ++ [block_of body (SZX_Size (s_szx s)) k]) Hs1) as (s2 & E2 & Hs2 & E3); [by rewrite E1|].
  exists s2. rewrite E2, E1, <- app_assoc. by rewrite <- E1.
Qed.

Lemma Sender_Block_beyond (s : Sender B) body k : sender_ok s body -> count s body <= k -> Sender_Block s k = (s, Err ErrQBlockInvalidNUM).
Proof.
  intros [Hok Hc Hs Hszx Hcnt] Hk. pose proof (SZX_Size_bounds (s_szx s) Hszx) as Hbs. pose proof (zlen_nonneg body).
  unfold Sender_Block. destruct ((k <? 0) || (qBlockMaxNUM <? k)); [done|]. rewrite Hs. set (bs := SZX_Size (s_szx s)) in *.
  pose proof (block_count_pos bs (zlen body) ltac:(lia) ltac:(lia)).
  assert ((zlen body <? k * bs) || ((k * bs =? zlen body) && negb (zlen body =? 0)) = true) as ->; [|done].
  destruct (Z.ltb_spec (zlen body) (k * bs)); [done|]. cbn [orb]. unfold block_count in *.
  destruct (Z.ltb_spec 0 (zlen body)) as [Hp|Hp]; [|nia]. assert ((zlen body - 1) / bs < k) by lia.
  assert (zlen body <= k * bs) by (pose proof (Z.mul_succ_div_gt (zlen body - 1) bs ltac:(lia)); nia).
  destruct (Z.eqb_spec (k * bs) (zlen body)), (Z.eqb_spec (zlen body) 0); cbn; done || lia.
Qed.

(** The first number beyond the body ends the reading, whatever was read before. *)
Lemma read_blocks_beyond (s : Sender B) body ks : forall out, sender_ok s body -> Forall (Z.le 0) ks ->
  Exists (fun k => count s body <= k) ks -> exists s', read_blocks s ks out = (s', Err ErrQBlockInvalidNUM) /\ sender_ok s' body.
Proof.
  revert s. induction ks as [|k ks IH]; intros s out Hs Hpos Hex; [by apply Exists_nil in Hex|]. cbn [read_blocks].
  apply Forall_cons in Hpos as [Hk Hpos]. destruct (Z.le_gt_cases (count s body) k) as [Hb|Hin].
  - rewrite (Sender_Block_beyond s body k Hs Hb). by exists s.
  - apply Exists_cons in Hex as [Hex|Hex]; [lia|]. destruct (Sender_Block_spec s body k Hs ltac:(lia)) as (s1 & -> & Hs1 & E1).
    apply IH; [done|done|]. by rewrite E1.
Qed.

(** [Blocks]: the numbers asked for stand for the strictly increasing list of them.  More of
    them than [maxPayloads] are refused and nothing is read; a number beyond the body is an
    error; otherwise the result is the blocks of the body at these numbers.  The sender can
    be used on. *)
Theorem Sender_Blocks_correct (s : Sender B) (body : list byte) nums maxPayloads
    (Hs : sender_ok s body) (Hnums : Forall (Z.le 0) nums) (Hmax : 0 < maxPayloads) :
  exists ks s' res, Sender_Blocks s nums maxPayloads = (s', res) /\ sender_ok s' body /\
    StronglySorted Z.lt ks /\ (forall k, k ∈ ks <-> k ∈ nums) /\
    res = if maxPayloads <? zlen ks then Err ErrQBlockTooLarge
          else if forallb (fun k => k <? count s body) ks then Ok (block_of body (SZX_Size (s_szx s)) <$> ks)
          else Err ErrQBlockInvalidNUM.
Proof.
  unfold Sender_Blocks. destruct (Z.leb_spec maxPayloads 0); [lia|]. destruct (unique_spec nums) as [Hsort Hin].
  exists (unique (merge_sort Z.le nums)). set (ks := unique _) in *. clearbody ks.
  assert (Forall (Z.le 0) ks) as Hks by (apply Forall_forall; intros k Hk; apply Hin in Hk; by eapply Forall_forall in Hnums).
  destruct (maxPayloads <? zlen ks); [by eexists _, _|]. destruct (forallb _ ks) eqn:Ef.
  - destruct (read_blocks_ok s body ks [] Hs) as (s' & -> & Hs' & _); [|by eexists _, _].
    apply Forall_forall. intros k Hk. eapply Forall_forall in Hks; [|done]. assert (k <? count s body = true); [|lia].
    rewrite forallb_forall in Ef. apply Ef. by apply list_elem_of_In.
  - destruct (read_blocks_beyond s body ks [] Hs Hks) as (s' & -> & Hs'); [|by eexists _, _].
    apply Exists_exists. apply not_true_iff_false in Ef. rewrite forallb_forall in Ef.
    destruct (decide (Exists (fun k => count s body <= k) ks)) as [He|Hne]; [by apply Exists_exists|]. destruct Ef.
    intros k Hk. apply Z.ltb_lt. apply Znot_ge_lt. intros Hge. apply Hne, Exists_exists. exists k. split; [by apply list_elem_of_In|lia].
Qed.
End Batch.

Example sample_batch :
  (Sender_Blocks sample_sender [1; 0; 1] 2).2 = Ok [slice_to sample_body 16; slice_from sample_body 16] /\
  (Sender_Blocks sample_sender [1; 0; 1] 1).2 = Err ErrQBlockTooLarge /\
  (Sender_Blocks sample_sender [0; 2] 4).2 = Err ErrQBlockInvalidNUM.
Proof. split_and!; vm_compute; reflexivity. Qed.
