(* ===== verification/Crc64.v ===== *)
(** * CRC-64 (Go's [hash/crc64] with the ISO polynomial) and the hash of a token

    Tokens (src/message/getToken.go) and URI paths (LimitParallel) are reduced to 64-bit
    keys by this checksum. *)
From stdpp Require Import prelude list.
From Stdlib Require Import ZArith Lia.
From S2P Require Import Prelude.
#[local] Open Scope Z_scope.

(** [crc64.MakeTable(crc64.ISO)]: the reversed polynomial, one byte at a time. *)
Definition crc64_ISO : Z := 0xD800000000000000.

Definition crc64_bit (crc : Z) : Z :=
  if Z.testbit crc 0 then Z.lxor (Z.shiftr crc 1) crc64_ISO else Z.shiftr crc 1.

Definition crc64_table (b : Z) : Z := Nat.iter 8 crc64_bit b.

Definition crc64_not (crc : Z) : Z := Z.lxor crc (2 ^ 64 - 1).

(** [update]: the digest state is complemented on entry and on exit. *)
Definition crc64_Write (crc : Z) (p : list byte) : Z :=
  crc64_not (fold_left
    (fun crc v => Z.lxor (crc64_table (Z.lxor (uint8 crc) v)) (Z.shiftr crc 8))
    p (crc64_not crc)).

(** [Token.Hash]: [crc64.Checksum] from the zero digest. *)
Definition Token_Hash (t : list byte) : Z := crc64_Write 0 t.

Lemma crc64_not_involutive crc : crc64_not (crc64_not crc) = crc.
Proof. unfold crc64_not. by rewrite Z.lxor_assoc, Z.lxor_nilpotent, Z.lxor_0_r. Qed.

(** Writing in pieces digests the concatenation. *)
Lemma crc64_Write_app crc p q : crc64_Write (crc64_Write crc p) q = crc64_Write crc (p ++ q).
Proof. unfold crc64_Write. by rewrite crc64_not_involutive, fold_left_app. Qed.

(** The check value of the ISO polynomial for the text a. *)
Example crc64_a : crc64_Write 0 [97] = 0x3420000000000000.
Proof. vm_compute. reflexivity. Qed.

(** ** The checksum separates inputs of the same length up to eight bytes *)

Lemma crc64_bit_lxor x y : crc64_bit (Z.lxor x y) = Z.lxor (crc64_bit x) (crc64_bit y).
Proof.
  unfold crc64_bit. rewrite Z.lxor_spec, Z.shiftr_lxor.
  destruct (Z.testbit x 0), (Z.testbit y 0); cbn [xorb]; try apply Z.bits_inj'; intros;
    rewrite ?Z.lxor_spec; repeat destruct (Z.testbit _ _); done.
Qed.

Lemma crc64_bits_lxor n x y :
  Nat.iter n crc64_bit (Z.lxor x y) = Z.lxor (Nat.iter n crc64_bit x) (Nat.iter n crc64_bit y).
Proof. induction n as [|n IH]; [done|]. rewrite !Nat.iter_succ. by rewrite IH, crc64_bit_lxor. Qed.

Lemma crc64_bit_double y : crc64_bit (2 * y) = y.
Proof.
  unfold crc64_bit. rewrite Z.testbit_even_0. change 1 with (Z.of_nat 1) at 1.
  rewrite Z.shiftr_div_pow2 by lia. change (2 ^ Z.of_nat 1) with 2. by rewrite Z.mul_comm, Z.div_mul.
Qed.

Lemma crc64_bits_shift n y : Nat.iter n crc64_bit (y * 2 ^ Z.of_nat n) = y.
Proof.
  revert y. induction n as [|n IH]; intros y; [cbn; lia|]. rewrite Nat.iter_succ_r.
  replace (y * 2 ^ Z.of_nat (S n)) with (2 * (y * 2 ^ Z.of_nat n)) by (rewrite Nat2Z.inj_succ, Z.pow_succ_r by lia; lia).
  by rewrite crc64_bit_double, IH.
Qed.

Lemma testbit_above z n : 0 <= z < 2 ^ 64 -> 64 <= n -> Z.testbit z n = false.
Proof.
  intros [Hz1 Hz2] Hn. destruct (Z.eq_dec z 0) as [->|]; [apply Z.testbit_0_l|].
  apply Z.bits_above_log2; [done|]. apply Z.log2_lt_pow2; [lia|].
  apply Z.lt_le_trans with (2 ^ 64); [done|]. by apply Z.pow_le_mono_r.
Qed.

Lemma lxor_range x y : 0 <= x < 2 ^ 64 -> 0 <= y < 2 ^ 64 -> 0 <= Z.lxor x y < 2 ^ 64.
Proof.
  intros Hx Hy. assert (0 <= Z.lxor x y) by (apply Z.lxor_nonneg; lia). split; [done|].
  destruct (Z.eq_dec (Z.lxor x y) 0) as [->|]; [lia|]. apply Z.log2_lt_pow2; [lia|].
  destruct (Z.lt_ge_cases (Z.log2 (Z.lxor x y)) 64) as [|Hge]; [done|].
  assert (Z.testbit (Z.lxor x y) (Z.log2 (Z.lxor x y)) = true) as Ht by (apply Z.bit_log2; lia).
  rewrite Z.lxor_spec, !testbit_above in Ht by (done || lia). done.
Qed.

Lemma crc64_bit_range x : 0 <= x < 2 ^ 64 -> 0 <= crc64_bit x < 2 ^ 64.
Proof.
  intros Hx. unfold crc64_bit.
  assert (0 <= Z.shiftr x 1 < 2 ^ 64).
  { rewrite Z.shiftr_div_pow2 by lia. change (2 ^ 1) with 2.
    split; [apply Z.div_pos; lia|]. apply Z.div_lt_upper_bound; lia. }
  destruct (Z.testbit x 0); [|done]. apply lxor_range; [done|]. unfold crc64_ISO. lia.
Qed.

Lemma crc64_bits_range n x : 0 <= x < 2 ^ 64 -> 0 <= Nat.iter n crc64_bit x < 2 ^ 64.
Proof. intros Hx. induction n as [|n IH]; [done|]. rewrite !Nat.iter_succ. by apply crc64_bit_range. Qed.

(** The bit that was shifted out is the highest bit of the result. *)
Lemma crc64_bit_high x : 0 <= x < 2 ^ 64 -> Z.testbit (crc64_bit x) 63 = Z.testbit x 0.
Proof.
  intros Hx. unfold crc64_bit. destruct (Z.testbit x 0) eqn:E; rewrite ?Z.lxor_spec, Z.shiftr_spec by lia;
    rewrite (testbit_above x) by (done || lia); done.
Qed.

Lemma crc64_bit_inj x y : 0 <= x < 2 ^ 64 -> 0 <= y < 2 ^ 64 -> crc64_bit x = crc64_bit y -> x = y.
Proof.
  intros Hx Hy E. assert (Z.testbit x 0 = Z.testbit y 0) as E0 by (rewrite <-!crc64_bit_high by done; by rewrite E).
  revert E. unfold crc64_bit. rewrite <-E0. intros E.
  assert (Z.shiftr x 1 = Z.shiftr y 1) as E1.
  { destruct (Z.testbit x 0); [|done]. apply (f_equal (fun z => Z.lxor z crc64_ISO)) in E.
    by rewrite !Z.lxor_assoc, Z.lxor_nilpotent, !Z.lxor_0_r in E. }
  rewrite <-!Z.div2_spec in E1. rewrite !Z.bit0_odd in E0.
  rewrite (Z.div2_odd x), (Z.div2_odd y). congruence.
Qed.

Lemma crc64_bits_inj n x y :
  0 <= x < 2 ^ 64 -> 0 <= y < 2 ^ 64 -> Nat.iter n crc64_bit x = Nat.iter n crc64_bit y -> x = y.
Proof.
  intros Hx Hy. induction n as [|n IH]; [done|]. rewrite !Nat.iter_succ. intros E.
  apply IH. by apply crc64_bit_inj in E; [|apply crc64_bits_range..].
Qed.

Definition crc64_step (crc v : Z) : Z := Z.lxor (crc64_table (Z.lxor (uint8 crc) v)) (Z.shiftr crc 8).

Lemma lxor_low_high a k : is_byte a -> Z.lxor a (k * 2 ^ 8) = a + k * 2 ^ 8.
Proof.
  intros Ha. symmetry. apply Z.add_nocarry_lxor. apply Z.bits_inj'. intros n Hn. rewrite Z.land_spec, Z.bits_0.
  destruct (Z.lt_ge_cases n 8) as [Hlt|Hge].
  - rewrite Z.mul_pow2_bits_low by lia. apply andb_false_r.
  - rewrite <-(Z.mod_small a (2 ^ 8)) by (unfold is_byte in Ha; lia). rewrite Z.mod_pow2_bits_high by lia. done.
Qed.

Lemma crc64_step_bits crc v : crc64_step crc v = Nat.iter 8 crc64_bit (Z.lxor crc v).
Proof.
  assert (Z.lxor (uint8 crc) (Z.shiftr crc 8 * 2 ^ 8) = crc) as E.
  { rewrite lxor_low_high by (unfold is_byte, uint8; apply Z.mod_pos_bound; lia).
    rewrite Z.shiftr_div_pow2 by lia. unfold uint8. pose proof (Z.div_mod crc (2 ^ 8)). lia. }
  transitivity (Nat.iter 8 crc64_bit (Z.lxor (Z.lxor (uint8 crc) (Z.shiftr crc 8 * 2 ^ Z.of_nat 8)) v)).
  - rewrite (Z.lxor_comm (uint8 crc)), Z.lxor_assoc, crc64_bits_lxor, crc64_bits_shift. apply Z.lxor_comm.
  - change (2 ^ Z.of_nat 8) with (2 ^ 8). by rewrite E.
Qed.

(** The bytes as a little-endian number. *)
Fixpoint le_number (p : list byte) : Z :=
  match p with
  | [] => 0
  | b :: p => b + le_number p * 2 ^ 8
  end.

Lemma le_number_range p : bytes_ok p -> 0 <= le_number p < 2 ^ (8 * zlen p).
Proof.
  induction 1 as [|b p Hb _ IH]; [done|]. cbn [le_number]. unfold is_byte in Hb.
  rewrite zlen_cons, Z.mul_add_distr_l, Z.pow_add_r by (pose proof (zlen_nonneg p); lia). lia.
Qed.

Lemma le_number_inj p : forall q,
  bytes_ok p -> bytes_ok q -> length p = length q -> le_number p = le_number q -> p = q.
Proof.
  induction p as [|b p IH]; intros [|c q] Hp Hq Hl E; [done|done|done|]. cbn [le_number] in E.
  apply Forall_cons in Hp as [Hb Hp], Hq as [Hc Hq]. unfold is_byte in *.
  assert (b = c) by (apply (f_equal (fun z => z mod 2 ^ 8)) in E; rewrite !Z.mod_add, !Z.mod_small in E by lia; done).
  subst c. f_equal. apply IH; [done|done|by injection Hl|]. lia.
Qed.

Lemma crc64_fold p : forall crc,
  bytes_ok p -> fold_left crc64_step p crc = Nat.iter (8 * length p) crc64_bit (Z.lxor crc (le_number p)).
Proof.
  induction p as [|b p IH]; intros crc Hp; [by rewrite Z.lxor_0_r|]. apply Forall_cons in Hp as [Hb Hp].
  cbn [fold_left]. rewrite IH, crc64_step_bits by done. cbn [length le_number].
  rewrite <-lxor_low_high by done. replace (8 * S (length p))%nat with (8 * length p + 8)%nat by lia.
  rewrite Nat.iter_add. f_equal. change (2 ^ 8) with (2 ^ Z.of_nat 8).
  by rewrite <-Z.lxor_assoc, (crc64_bits_lxor _ (Z.lxor crc b)), crc64_bits_shift.
Qed.

Lemma Token_Hash_inj (t u : list byte) :
  bytes_ok t -> bytes_ok u -> length t = length u -> (length t <= 8)%nat -> Token_Hash t = Token_Hash u -> t = u.
Proof.
  intros Ht Hu Hlen H8 E.
  unfold Token_Hash, crc64_Write in E. apply (f_equal crc64_not) in E. rewrite !crc64_not_involutive in E.
  change (fun crc v => Z.lxor (crc64_table (Z.lxor (uint8 crc) v)) (Z.shiftr crc 8)) with crc64_step in E.
  rewrite !crc64_fold, <-Hlen in E by done.
  assert (forall p, bytes_ok p -> length p = length t -> 0 <= Z.lxor (crc64_not 0) (le_number p) < 2 ^ 64) as Hr.
  { intros p Hp Hl. apply lxor_range; [done|]. pose proof (le_number_range p Hp).
    assert (2 ^ (8 * zlen p) <= 2 ^ 64) by (apply Z.pow_le_mono_r; unfold zlen; lia). lia. }
  apply crc64_bits_inj in E; [|by apply Hr|by apply Hr].
  apply (f_equal (Z.lxor (crc64_not 0))) in E. rewrite <-!Z.lxor_assoc, Z.lxor_nilpotent, !Z.lxor_0_l in E.
  by apply le_number_inj.
Qed.

(** The key under which a connection keeps the handler of a token (its CRC-64)
    tells tokens of the same length apart: two tokens of at most eight bytes (the
    longest that a message can have) and equal length have the same key only if they
    are the same token. *)
Theorem Token_Hash_injective (t u : list byte)
    (Ht : bytes_ok t) (Hu : bytes_ok u) (Hlen : length t = length u) (H8 : (length t <= 8)%nat)
    (E : Token_Hash t = Token_Hash u) : t = u.
Proof. by apply Token_Hash_inj. Qed.

Lemma Token_Hash_injective_witness : Token_Hash [1; 2] = Token_Hash [1; 2] /\ [1; 2] = [1; 2 : Z].
Proof.
  split; [reflexivity|]. apply (Token_Hash_injective [1; 2] [1; 2]).
  1,2: repeat constructor; cbv; congruence.
  - reflexivity.
  - cbn. lia.
  - reflexivity.
Defined.
