(* ===== verification/SyncMap.v ===== *)
(** * The locked map (src/pkg/sync/map.go)

    [sync.Map[K, V]] is a Go map behind a read-write mutex.  Each method body that
    runs under one lock is one function on the map, [gmap K V].  A callback that
    runs under the lock is a function on a state [S], which stands for the variables
    its closure captures, so that the composed operations
    ([LoadAndDeleteWithFunc], [DeleteWithFunc]) are built from [ReplaceWithFunc]
    as in the source.  A read of a missing key gives the zero value of [V], which is
    the parameter [zero].

    [LoadOrStore] takes the lock twice.  It is modelled by its two critical sections,
    and [los_step] interleaves any number of callers with any other activity on
    the remaining keys. *)
From stdpp Require Import prelude gmap fin_maps list.
From Stdlib Require Import ZArith Lia.
From S2P Require Import Prelude.
#[local] Open Scope Z_scope.

Section Map.
Context `{Countable K} {V : Type} (zero : V).
Implicit Types (m : gmap K V) (key : K).

(** [v, ok := m.data[key]]. *)
Definition index m key : V * bool :=
  match m !! key with Some v => (v, true) | None => (zero, false) end.

Definition NewMap : gmap K V := ∅.
Definition Store m key (value : V) : gmap K V := <[key := value]> m.
Definition Load m key : V * bool := index m key.

(** The two critical sections of [LoadOrStore]: the lookup under the read lock, which
    answers when the key is there, and the second lookup under the write lock. *)
Definition LoadOrStore_read m key : option (V * bool) :=
  let '(v, ok) := index m key in if ok then Some (v, true) else None.

Definition LoadOrStore_write m key (value : V) : gmap K V * (V * bool) :=
  let '(v, ok) := index m key in
  if ok then (m, (v, true)) else (<[key := value]> m, (value, false)).

Definition LoadOrStore m key (value : V) : gmap K V * (V * bool) :=
  match LoadOrStore_read m key with
  | Some r => (m, r)
  | None => LoadOrStore_write m key value
  end.

Definition Replace m key (value : V) : gmap K V * (V * bool) :=
  let r := index m key in (<[key := value]> m, r).

Definition Delete m key : gmap K V := delete key m.

Definition LoadAndDelete m key : gmap K V * (V * bool) :=
  let r := index m key in (delete key m, r).

(** The second component is the data the caller receives. *)
Definition LoadAndDeleteAll m : gmap K V * gmap K V := (∅, m).

(** [maps.Copy(c, m.data)] into the empty map. *)
Definition CopyData m : gmap K V := map_fold (fun k v c => <[k := v]> c) ∅ m.

Definition Length m : Z := Z.of_nat (size m).

Section Callbacks.
Context {S : Type}.
Implicit Types (s : S).

Definition StoreWithFunc m key (createFunc : S -> V * S) s : gmap K V * S :=
  let '(v, s) := createFunc s in (<[key := v]> m, s).

(** [None] is a nil callback. *)
Definition LoadWithFunc m key (onLoadFunc : option (V -> S -> V * S)) s : (V * bool) * S :=
  let '(value, ok) := index m key in
  match ok, onLoadFunc with
  | true, Some f => let '(value, s) := f value s in ((value, ok), s)
  | _, _ => ((value, ok), s)
  end.

Definition LoadOrStoreWithFunc m key (onLoadFunc : option (V -> S -> V * S))
    (createFunc : S -> V * S) s : gmap K V * (V * bool) * S :=
  let '(v, ok) := index m key in
  if ok then
    let '(v, s) := match onLoadFunc with Some f => f v s | None => (v, s) end in
    (m, (v, true), s)
  else
    let '(v, s) := createFunc s in (<[key := v]> m, (v, false), s).

Definition LoadOrStoreWithFuncAndLimit m key (maxEntries : Z)
    (onLoadFunc : option (V -> S -> V * S)) (createFunc : S -> V * S) s
    : gmap K V * (V * bool * bool) * S :=
  let '(v, ok) := index m key in
  if ok then
    let '(v, s) := match onLoadFunc with Some f => f v s | None => (v, s) end in
    (<[key := v]> m, (v, true, true), s)
  else if (0 <? maxEntries) && (maxEntries <=? Length m) then
    (m, (zero, false, false), s)
  else
    let '(v, s) := createFunc s in (<[key := v]> m, (v, false, true), s).

Definition ReplaceWithFunc m key (onReplaceFunc : V -> bool -> S -> (V * bool) * S) s
    : gmap K V * (V * bool) * S :=
  let '(v, ok) := index m key in
  let '((newValue, del), s) := onReplaceFunc v ok s in
  if del then (delete key m, (v, ok), s) else (<[key := newValue]> m, (v, ok), s).

(** [for key, value := range m.data], over the keys in the order [ks] the runtime
    picks: an entry removed before it is reached is not produced.  [project] reads
    the map out of the state the callback changes ([Range] holds no lock while [f]
    runs). *)
Fixpoint Range (project : S -> gmap K V) (f : K -> V -> S -> bool * S) (ks : list K) s : S :=
  match ks with
  | [] => s
  | k :: ks =>
      match project s !! k with
      | None => Range project f ks s
      | Some v => let '(ok, s) := f k v s in if ok then Range project f ks s else s
      end
  end.

(** [Range2] keeps the lock, so [f] cannot change the map it iterates over. *)
Definition Range2 m (f : K -> V -> S -> bool * S) (ks : list K) s : S :=
  Range (fun _ => m) f ks s.

End Callbacks.

(** The closure given to [ReplaceWithFunc] captures [v] and [loaded]. *)
Definition LoadAndDeleteWithFunc {S} m key (onLoadFunc : V -> S -> V * S) (s : S)
    : gmap K V * (V * bool) * S :=
  let '(m, _, (r, s)) :=
    ReplaceWithFunc m key
      (fun oldValue oldLoaded '((v, loaded), s) =>
         if oldLoaded then
           let '(v, s) := onLoadFunc oldValue s in ((v, true), ((v, true), s))
         else ((oldValue, true), ((v, loaded), s)))
      ((zero, false), s) in
  (m, r, s).

Definition DeleteWithFunc {S} m key (onDeleteFunc : V -> S -> S) (s : S) : gmap K V * S :=
  let '(m, _, s) :=
    LoadAndDeleteWithFunc m key (fun value s => (value, onDeleteFunc value s)) s in
  (m, s).

(** ** Lemmas on single operations *)

Lemma index_spec m key v ok :
  index m key = (v, ok) <-> (ok = true /\ m !! key = Some v) \/ (ok = false /\ v = zero /\ m !! key = None).
Proof. unfold index. destruct (m !! key) eqn:E; naive_solver. Qed.

Lemma CopyData_id m : CopyData m = m.
Proof.
  unfold CopyData. apply map_eq. intros i. revert i.
  apply (map_fold_weak_ind (fun c m => forall i, c !! i = m !! i)); [done|].
  intros k v m' c Hk IH i.
  destruct (decide (i = k)) as [-> | Hne]; [by rewrite !lookup_insert_eq|].
  by rewrite !lookup_insert_ne by done.
Qed.

Lemma LoadAndDeleteWithFunc_eq {S} m key (f : V -> S -> V * S) s :
  LoadAndDeleteWithFunc m key f s =
    match m !! key with
    | Some v => (delete key m, ((f v s).1, true), (f v s).2)
    | None => (delete key m, (zero, false), s)
    end.
Proof.
  unfold LoadAndDeleteWithFunc, ReplaceWithFunc, index.
  destruct (m !! key) as [v|] eqn:E; [by destruct (f v s)|done].
Qed.

Lemma LoadOrStore_eq m key value :
  LoadOrStore m key value =
    match m !! key with
    | Some v => (m, (v, true))
    | None => (<[key := value]> m, (value, false))
    end.
Proof.
  unfold LoadOrStore, LoadOrStore_read, LoadOrStore_write, index.
  by destruct (m !! key).
Qed.

(** The limit is kept by the bounded insertion, whatever the callbacks do. *)
Lemma LoadOrStoreWithFuncAndLimit_size {S} m key maxEntries onLoad create (s : S) :
  0 < maxEntries -> Length m <= maxEntries ->
  Length (LoadOrStoreWithFuncAndLimit m key maxEntries onLoad create s).1.1 <= maxEntries.
Proof.
  intros Hpos Hlen. unfold LoadOrStoreWithFuncAndLimit, index.
  destruct (m !! key) as [v|] eqn:E.
  - destruct (match onLoad with Some f => f v s | None => (v, s) end) as [v' s'].
    unfold Length in *. cbn. rewrite map_size_insert_Some by eauto. done.
  - replace (0 <? maxEntries) with true by lia. cbn.
    destruct (maxEntries <=? Length m) eqn:Hfull; [done|].
    destruct (create s) as [v s']. cbn. unfold Length in *.
    rewrite map_size_insert_None by done. lia.
Qed.

(** ** Concurrent callers of [LoadOrStore] for one key *)

(** A caller before its first section, between the two (the read lock found nothing),
    and after it returned [(actual, loaded)]. *)
Inductive los_pc : Type :=
| LStart (value : V)
| LMissed (value : V)
| LDone (actual : V) (loaded : bool).

Definition los_state : Type := gmap K V * list los_pc.

(** One critical section of one caller, or a step of any other operation on
    the other keys. *)
Inductive los_step (key : K) : los_state -> los_state -> Prop :=
| los_read_hit m ts i value r :
    ts !! i = Some (LStart value) -> LoadOrStore_read m key = Some r ->
    los_step key (m, ts) (m, <[i := LDone r.1 r.2]> ts)
| los_read_miss m ts i value :
    ts !! i = Some (LStart value) -> LoadOrStore_read m key = None ->
    los_step key (m, ts) (m, <[i := LMissed value]> ts)
| los_write m ts i value m' r :
    ts !! i = Some (LMissed value) -> LoadOrStore_write m key value = (m', r) ->
    los_step key (m, ts) (m', <[i := LDone r.1 r.2]> ts)
| los_other m ts m' :
    m' !! key = m !! key -> los_step key (m, ts) (m', ts).

Definition is_store (t : los_pc) : Prop :=
  match t with LDone _ false => True | _ => False end.

#[export] Instance is_store_dec t : Decision (is_store t).
Proof. destruct t as [| |? []]; apply _. Defined.

(** How many callers were told that their value was stored. *)
Definition stores (ts : list los_pc) : nat := length (filter is_store ts).

Lemma stores_insert ts i t t' :
  ts !! i = Some t ->
  (stores (<[i := t']> ts) + (if decide (is_store t) then 1 else 0) =
   stores ts + (if decide (is_store t') then 1 else 0))%nat.
Proof.
  intros Hi. unfold stores. rewrite insert_take_drop by eauto using lookup_lt_Some.
  rewrite <-(take_drop_middle ts i t Hi) at 3.
  rewrite !filter_app, !filter_cons, !length_app.
  repeat case_decide; cbn; lia.
Qed.

(** Agreement: once the key is bound, every returned value is the bound one; the
    number of successful stores is the number of times the key became bound. *)
Definition los_inv (key : K) (absent : bool) (st : los_state) : Prop :=
  (forall i actual loaded, st.2 !! i = Some (LDone actual loaded) -> st.1 !! key = Some actual) /\
  stores st.2 = (match absent, st.1 !! key with true, Some _ => 1 | _, _ => 0 end)%nat /\
  (absent = false -> is_Some (st.1 !! key)).

Lemma los_inv_init key m ts :
  Forall (fun t => exists v, t = LStart v) ts ->
  los_inv key (negb (index m key).2) (m, ts).
Proof.
  intros Hts. assert (Hd : forall i a l, ts !! i <> Some (LDone a l)).
  { intros i a l Hi. rewrite Forall_lookup in Hts. by destruct (Hts _ _ Hi). }
  assert (Hs : stores ts = 0%nat).
  { unfold stores. clear Hd. induction Hts as [|t ts [v ->] _ IH]; [done|].
    by rewrite filter_cons_False by (intros []). }
  unfold los_inv. cbn [fst snd]. rewrite Hs. unfold index.
  destruct (m !! key) eqn:E; cbn; naive_solver.
Qed.

Lemma los_inv_step key absent st st' :
  los_inv key absent st -> los_step key st st' -> los_inv key absent st'.
Proof.
  intros (Hag & Hst & Hab) Hstep.
  destruct Hstep as [m ts i value r Hi Hr | m ts i value Hi Hr | m ts i value m' r Hi Hr | m ts m' Heq];
    unfold los_inv; cbn [fst snd] in *.
  - unfold LoadOrStore_read, index in Hr. destruct (m !! key) as [u|] eqn:E; simplify_eq.
    pose proof (stores_insert ts i _ (LDone u true) Hi) as Hcnt.
    repeat case_decide; cbn [is_store fst snd] in *; try done. split_and!; [|lia|naive_solver].
    intros j a l [[-> ?] | [? ?]]%list_lookup_insert_Some; naive_solver.
  - pose proof (stores_insert ts i _ (LMissed value) Hi) as Hcnt.
    repeat case_decide; cbn [is_store fst snd] in *; try done. split_and!; [|lia|naive_solver].
    intros j a l [[-> ?] | [? ?]]%list_lookup_insert_Some; naive_solver.
  - unfold LoadOrStore_write, index in Hr. destruct (m !! key) as [u|] eqn:E; simplify_eq.
    + pose proof (stores_insert ts i _ (LDone u true) Hi) as Hcnt.
      repeat case_decide; cbn [is_store fst snd] in *; try done. rewrite E. split_and!; [|lia|naive_solver].
      intros j a l [[-> ?] | [? ?]]%list_lookup_insert_Some; naive_solver.
    + pose proof (stores_insert ts i _ (LDone value false) Hi) as Hcnt.
      repeat case_decide; cbn [is_store fst snd] in *; try naive_solver. rewrite lookup_insert_eq.
      assert (absent = true) as -> by (destruct absent; [done|]; by destruct Hab).
      split_and!; [|lia|naive_solver].
      intros j a l [[-> ?] | [? Hj]]%list_lookup_insert_Some; [naive_solver|].
      by apply Hag in Hj.
  - rewrite Heq. naive_solver.
Qed.

(** Where the values come from: a caller keeps the value it was given, a binding that
    was there stays, and a new binding is some caller's value. *)
Definition los_origin (key : K) (m0 : gmap K V) (vs : list V) (st : los_state) : Prop :=
  (forall i v, st.2 !! i = Some (LStart v) \/ st.2 !! i = Some (LMissed v) -> v ∈ vs) /\
  (forall u, st.1 !! key = Some u -> m0 !! key = Some u \/ (m0 !! key = None /\ u ∈ vs)).

Lemma los_origin_step key m0 vs st st' :
  los_origin key m0 vs st -> los_step key st st' ->
  (is_Some (m0 !! key) -> is_Some (st.1 !! key)) -> los_origin key m0 vs st'.
Proof.
  intros (Hv & Ho) Hstep Hkeep.
  destruct Hstep as [m ts i value r Hi Hr | m ts i value Hi Hr | m ts i value m' r Hi Hr | m ts m' Heq];
    unfold los_origin; cbn [fst snd] in *.
  - split; [|done]. intros j v Hj. rewrite !list_lookup_insert_Some in Hj. naive_solver.
  - split; [|done]. intros j v Hj. rewrite !list_lookup_insert_Some in Hj. naive_solver.
  - unfold LoadOrStore_write, index in Hr.
    split; [intros j v Hj; rewrite !list_lookup_insert_Some in Hj; naive_solver|].
    destruct (m !! key) as [u|] eqn:E; simplify_eq; [rewrite E; naive_solver|].
    intros u. rewrite lookup_insert_eq. intros [= <-]. right. split; [|naive_solver].
    apply eq_None_not_Some. intros [? Hk]%Hkeep. congruence.
  - rewrite Heq. done.
Qed.

Lemma los_reach key m vs st :
  rtc (los_step key) (m, LStart <$> vs) st ->
  los_inv key (negb (index m key).2) st /\ los_origin key m vs st.
Proof.
  intros Hr. pattern st. eapply rtc_ind_r; [| |exact Hr]; clear st Hr.
  - split.
    + apply los_inv_init. apply Forall_fmap, Forall_true. eauto.
    + split; cbn [fst snd].
      * intros i v. rewrite list_lookup_fmap.
        destruct (vs !! i) eqn:E; cbn; intros [? | ?]; simplify_eq; eauto using list_elem_of_lookup_2.
      * intros u Hu. by left.
  - intros st st' _ Hs (Hi & Ho). split; [by eapply los_inv_step|].
    eapply los_origin_step; [done|done|]. intros [u Hu].
    destruct Hi as (_ & _ & Hab). apply Hab. unfold index. by rewrite Hu.
Qed.

End Map.

(** ** Properties *)

(** Any number of goroutines call [LoadOrStore] for one key, their two critical
    sections interleaved with each other and with any operations on other keys.  Every
    call that returned gave the same value, the one the map holds.  When the key was
    bound before, that is its old value and every call reports [loaded]; otherwise it is
    a value given by one of the callers and exactly one call reports that it stored. *)
Theorem LoadOrStore_agreement `{Countable K} {V} (zero : V) (key : K) (m : gmap K V)
    (vs : list V) (m' : gmap K V) (ts : list los_pc) i actual loaded :
  rtc (los_step zero key) (m, LStart <$> vs) (m', ts) ->
  ts !! i = Some (LDone actual loaded) ->
  m' !! key = Some actual /\
  (forall j actual' loaded', ts !! j = Some (LDone actual' loaded') -> actual' = actual) /\
  match m !! key with
  | Some u => actual = u /\ stores ts = 0%nat
  | None => actual ∈ vs /\ stores ts = 1%nat
  end.
Proof.
  intros Hr Hi. destruct (los_reach _ _ _ _ _ Hr) as ((Hag & Hst & Hab) & (_ & Ho)).
  cbn [fst snd] in *. pose proof (Hag _ _ _ Hi) as Hm. split; [done|]. split.
  { intros j a l Hj. apply Hag in Hj. congruence. }
  rewrite Hm in Hst. unfold index in Hst. specialize (Ho _ Hm).
  destruct (m !! key) as [u|]; cbn in Hst; naive_solver.
Qed.

(** Two callers that both miss under the read lock: the second one loads the value of
    the first. *)
Lemma LoadOrStore_agreement_witness :
  stores [LDone 7 true; LDone 7 false] = 1%nat.
Proof.
  assert (Hr : rtc (los_step 0 5) ((∅ : gmap Z Z), LStart <$> [3; 7])
                 (<[5 := 7]> ∅, [LDone 7 true; LDone 7 false])).
  { eapply rtc_l; [apply (los_read_miss 0 5 ∅ _ 0 3); reflexivity|].
    eapply rtc_l; [apply (los_read_miss 0 5 ∅ _ 1 7); reflexivity|].
    eapply rtc_l; [eapply (los_write 0 5 _ _ 1 7); reflexivity|].
    eapply rtc_l; [eapply (los_write 0 5 _ _ 0 3); reflexivity|].
    apply rtc_refl. }
  exact (proj2 (proj2 (proj2 (LoadOrStore_agreement 0 5 ∅ [3; 7] _ _ 1%nat 7 false Hr eq_refl)))).
Defined.

(** [LoadOrStoreWithFuncAndLimit] on every branch: an existing entry is updated by
    the load callback and is always accepted; a new entry is created exactly when there
    is room ([maxEntries <= 0] is unlimited); a refusal runs no callback and changes
    nothing; no other key is touched; and a positive limit that held keeps holding. *)
Theorem LoadOrStoreWithFuncAndLimit_correct `{Countable K} {V S} (zero : V) (m : gmap K V) key
    maxEntries (onLoad : V -> S -> V * S) (create : S -> V * S) (s : S) m' actual loaded accepted s' :
  LoadOrStoreWithFuncAndLimit zero m key maxEntries (Some onLoad) create s =
    (m', (actual, loaded, accepted), s') ->
  (loaded = true <-> is_Some (m !! key)) /\
  (accepted = false <-> m !! key = None /\ 0 < maxEntries <= Length m) /\
  (accepted = false -> m' = m /\ s' = s) /\
  (accepted = true -> m' !! key = Some actual /\
     (actual, s') = match m !! key with Some v => onLoad v s | None => create s end) /\
  (forall k, k <> key -> m' !! k = m !! k) /\
  (0 < maxEntries -> Length m <= maxEntries -> Length m' <= maxEntries).
Proof.
  intros Heq. pose proof (LoadOrStoreWithFuncAndLimit_size zero m key maxEntries (Some onLoad) create s) as Hsz.
  rewrite Heq in Hsz. cbn [fst] in Hsz. revert Heq.
  unfold LoadOrStoreWithFuncAndLimit, index.
  destruct (m !! key) as [v|] eqn:E.
  - destruct (onLoad v s) as [v' s1] eqn:Ef. intros [= <- <- <- <- <-].
    rewrite lookup_insert_eq.
    split_and!; try naive_solver. intros k Hk. by rewrite lookup_insert_ne.
  - destruct (0 <? maxEntries) eqn:Hp, (maxEntries <=? Length m) eqn:Hf; cbn [andb];
      try destruct (create s) as [v' s1] eqn:Ef; intros [= <- <- <- <- <-];
      rewrite ?lookup_insert_eq; split_and!; try (naive_solver lia).
    all: intros k Hk; by rewrite lookup_insert_ne.
Qed.

(** A full map refuses a new key. *)
Lemma LoadOrStoreWithFuncAndLimit_correct_witness :
  (forall k, k <> 9 -> (<[1 := 4]> ∅ : gmap Z Z) !! k = (<[1 := 4]> ∅ : gmap Z Z) !! k).
Proof.
  exact (proj1 (proj2 (proj2 (proj2 (proj2
    (LoadOrStoreWithFuncAndLimit_correct 0 (<[1 := 4]> ∅) 9 1 (fun v s => (v, s))
       (fun s => (s, s)) 7 (<[1 := 4]> ∅) 0 false false 7 eq_refl)))))).
Defined.
