(* ===== verification/Cache.v ===== *)
(** * The expiring cache (src/pkg/cache/cache.go)

    [Cache[K, D]] is a [sync.Map] from keys to pointers to elements.  The code compares
    elements by pointer and an element's deadline is an atomic that its owner may move,
    so pointers are addresses (0 is nil) and the elements live in a heap.  Elements in a
    cache come from [NewElement]: [cache_wf] says that no stored pointer is nil.

    A time is the number of nanoseconds since the zero [time.Time].  [time.Now()] is an
    argument of the operations that call it.  The calls of the [onExpire] callbacks are
    recorded in order in [calls], as the element they were called on. *)
From stdpp Require Import prelude gmap fin_maps list.
From Stdlib Require Import ZArith Lia.
From S2P Require Import Prelude SyncMap.
#[local] Open Scope Z_scope.

Inductive cache_error : Type := ErrCacheFull.

Section Element.
Context {D F : Type} (DefaultOnExpire : F).

Record Element : Type := mkElement {
  ValidUntil : Z;
  data : D;
  onExpire : F
}.

Definition IsExpired (e : Element) (now : Z) : bool :=
  let value := ValidUntil e in
  if value =? 0 then false else value <? now.

Definition Data (e : Element) : D := data e.

(** [None] is a nil callback. *)
Definition NewElement (d : D) (validUntil : Z) (onExp : option F) : Element :=
  mkElement validUntil d (default DefaultOnExpire onExp).
End Element.
Arguments Element : clear implicits.

Definition ptr : Type := N.
Definition nil_ptr : ptr := 0%N.

Section Cache.
Context `{Countable K} {D F : Type}.
Context (heap : ptr -> Element D F).

(** The map of the cache and the [onExpire] calls made so far. *)
Record Cache : Type := mkCache {
  entries : gmap K ptr;
  calls : list (F * D)
}.

Definition NewCache : Cache := mkCache NewMap [].

Implicit Types (c : Cache) (key : K) (e : ptr) (now : Z).

Definition expired e now : bool := IsExpired (heap e) now.

(** [value.onExpire(value.Data())]. *)
Definition call_onExpire c e : Cache :=
  mkCache (entries c) (calls c ++ [(onExpire (heap e), Data (heap e))]).

(** [ReplaceWithFunc] on the embedded map; the state is the closure's [actual]. *)
Definition Cache_LoadOrStore c key e now : Cache * (ptr * bool) :=
  let '(m, _, actual) :=
    ReplaceWithFunc nil_ptr (entries c) key
      (fun oldValue oldLoaded actual =>
         if oldLoaded && negb (expired oldValue now) then ((oldValue, false), oldValue)
         else ((e, false), e))
      nil_ptr in
  (mkCache m (calls c), (actual, negb (actual =? e)%N)).

Definition Cache_Load c key now : ptr :=
  let '(actual, loaded) := Load nil_ptr (entries c) key in
  if negb loaded then nil_ptr
  else if expired actual now then nil_ptr else actual.

(** The callback that [CheckExpirations] gives to [Range]: [value] is what the iteration
    read, which may be stale when the map is locked again. *)
Definition CheckExpirations_visit now key (value : ptr) c : bool * Cache :=
  if expired value now then
    let '(m, _, removed) :=
      ReplaceWithFunc nil_ptr (entries c) key
        (fun current loaded _ =>
           let removed := loaded && (current =? value)%N && expired current now in
           ((current, negb loaded || removed), removed))
        false in
    let c := mkCache m (calls c) in
    (true, if removed then call_onExpire c value else c)
  else (true, c).

(** [ks] is the iteration order of the runtime. *)
Definition CheckExpirations c now (ks : list K) : Cache :=
  Range entries (CheckExpirations_visit now) ks c.

Definition LoadOrStoreWithLimit c key e (maxEntries : Z) now (ks : list K)
    : Cache * (ptr * bool * option cache_error) :=
  let c := if (0 <? maxEntries) && (maxEntries <=? Length (entries c))
           then CheckExpirations c now ks else c in
  let '(m, (actual, _, accepted), exp) :=
    LoadOrStoreWithFuncAndLimit nil_ptr (entries c) key maxEntries
      (Some (fun old exp => if expired old now then (e, old) else (old, exp)))
      (fun exp => (e, exp))
      nil_ptr in
  let c := mkCache m (calls c) in
  let c := if negb (exp =? nil_ptr)%N then call_onExpire c exp else c in
  if negb accepted then (c, (nil_ptr, false, Some ErrCacheFull))
  else (c, (actual, negb (actual =? e)%N, None)).

(** ** Lemmas *)

Definition cache_wf c : Prop := map_Forall (fun _ e => e <> nil_ptr) (entries c).

Lemma CheckExpirations_visit_eq now key value c :
  CheckExpirations_visit now key value c =
    (true,
     if decide (entries c !! key = Some value) then
       if expired value now
       then call_onExpire (mkCache (delete key (entries c)) (calls c)) value else c
     else c).
Proof.
  unfold CheckExpirations_visit, ReplaceWithFunc, index. destruct c as [m cs]; cbn [entries calls].
  destruct (expired value now) eqn:Ee; [|by case_decide].
  destruct (m !! key) as [cur|] eqn:E; cbn [andb orb negb fst snd].
  - destruct (N.eqb_spec cur value) as [-> | Hne]; cbn [andb].
    + rewrite Ee, decide_True by done. done.
    + rewrite decide_False by congruence. by rewrite insert_id.
  - by rewrite decide_False, delete_id.
Qed.

Lemma CheckExpirations_entries ks : forall c now k,
  entries (CheckExpirations c now ks) !! k =
    if decide (k ∈ ks)
    then match entries c !! k with
         | Some v => if expired v now then None else Some v
         | None => None
         end
    else entries c !! k.
Proof.
  unfold CheckExpirations. induction ks as [|k0 ks IH]; intros c now k; cbn [Range].
  { by rewrite decide_False by set_solver. }
  assert (Hskip : forall c', (k <> k0 -> entries c' !! k = entries c !! k) ->
            (k = k0 -> entries c' !! k0 = match entries c !! k0 with
               | Some v => if expired v now then None else Some v | None => None end) ->
            entries (Range entries (CheckExpirations_visit now) ks c') !! k =
            (if decide (k ∈ k0 :: ks)
             then match entries c !! k with
                  | Some v => if expired v now then None else Some v | None => None end
             else entries c !! k)).
  { intros c' Hne Heq. rewrite IH. destruct (decide (k = k0)) as [-> | Hk].
    - rewrite (decide_True (P := k0 ∈ k0 :: ks)) by set_solver. rewrite Heq by done.
      destruct (entries c !! k0) as [v|]; [|by case_decide].
      destruct (expired v now) eqn:Ee; case_decide; rewrite ?Ee; done.
    - rewrite Hne by done. by rewrite (decide_ext (k ∈ k0 :: ks) (k ∈ ks)) by set_solver. }
  destruct (entries c !! k0) as [v|] eqn:E.
  - rewrite CheckExpirations_visit_eq, decide_True by done. cbn [fst snd].
    destruct (expired v now) eqn:Ee; apply Hskip; cbn [entries call_onExpire]; intros Hk.
    + by rewrite lookup_delete_ne.
    + by rewrite lookup_delete_eq.
    + done.
    + done.
  - apply Hskip; [done|]. by rewrite E.
Qed.

(** The entries that have not expired at [now]. *)
Definition live c now : gmap K ptr := filter (fun kv => expired kv.2 now = false) (entries c).

Lemma live_lookup c now k :
  live c now !! k =
    match entries c !! k with
    | Some v => if expired v now then None else Some v
    | None => None
    end.
Proof.
  unfold live. destruct (entries c !! k) as [v|] eqn:E.
  - destruct (expired v now) eqn:Ee.
    + apply map_lookup_filter_None. right. cbn. intros x ?. simplify_eq. by rewrite Ee.
    + by apply map_lookup_filter_Some.
  - apply map_lookup_filter_None. by left.
Qed.

(** An iteration order that visits every entry of the cache once. *)
Definition iterates (ks : list K) c : Prop := NoDup ks /\ forall k, k ∈ ks <-> is_Some (entries c !! k).

Lemma CheckExpirations_live c now ks :
  iterates ks c -> entries (CheckExpirations c now ks) = live c now.
Proof.
  intros (_ & Hks). apply map_eq. intros k. rewrite CheckExpirations_entries, live_lookup.
  case_decide as Hk; [done|]. rewrite Hks, <-eq_None_not_Some in Hk. by rewrite Hk.
Qed.

(** The call that an expired entry makes. *)
Definition expire_call (m : gmap K ptr) now k : option (F * D) :=
  v ← m !! k; if expired v now then Some (onExpire (heap v), data (heap v)) else None.

Lemma expire_call_ext (m m' : gmap K ptr) now (ks : list K) :
  (forall k, k ∈ ks -> m' !! k = m !! k) ->
  omap (expire_call m' now) ks = omap (expire_call m now) ks.
Proof.
  intros Hext. induction ks as [|k ks IH]; [done|]. cbn.
  rewrite IH by (intros; apply Hext; set_solver).
  unfold expire_call. by rewrite Hext by set_solver.
Qed.

Lemma CheckExpirations_calls ks : forall c now,
  NoDup ks ->
  calls (CheckExpirations c now ks) = calls c ++ omap (expire_call (entries c) now) ks.
Proof.
  unfold CheckExpirations. induction ks as [|k0 ks IH]; intros c now Hnd; cbn [Range].
  { by rewrite app_nil_r. }
  apply NoDup_cons in Hnd as (Hk0 & Hnd). cbn [omap list_omap]. unfold expire_call at 1.
  destruct (entries c !! k0) as [v|] eqn:E; cbn [mbind option_bind]; [|by rewrite IH].
  rewrite CheckExpirations_visit_eq, decide_True by done. cbn [fst snd].
  destruct (expired v now) eqn:Ee; rewrite IH by done; [|done].
  cbn [calls entries call_onExpire]. rewrite <-(assoc_L (++)). cbn. do 2 f_equal.
  apply expire_call_ext. intros k Hk. apply lookup_delete_ne. set_solver.
Qed.

(** What the bounded insertion does on the entries it works on. *)
Lemma insert_limit_cases (m : gmap K ptr) key e maxEntries now :
  LoadOrStoreWithFuncAndLimit nil_ptr m key maxEntries
    (Some (fun old exp => if expired old now then (e, old) else (old, exp)))
    (fun exp => (e, exp)) nil_ptr =
  match m !! key with
  | Some v => if expired v now then (<[key := e]> m, (e, true, true), v)
              else (m, (v, true, true), nil_ptr)
  | None => if (0 <? maxEntries) && (maxEntries <=? Length m)
            then (m, (nil_ptr, false, false), nil_ptr)
            else (<[key := e]> m, (e, false, true), nil_ptr)
  end.
Proof.
  unfold LoadOrStoreWithFuncAndLimit, index. destruct (m !! key) as [v|] eqn:E; [|done].
  destruct (expired v now); [done|]. by rewrite insert_id.
Qed.

(** The state after the purge that [LoadOrStoreWithLimit] makes when the cache is full. *)
Definition purge c (maxEntries now : Z) (ks : list K) : Cache :=
  if (0 <? maxEntries) && (maxEntries <=? Length (entries c)) then CheckExpirations c now ks else c.

Lemma LoadOrStoreWithLimit_eq c key e maxEntries now ks :
  cache_wf c ->
  LoadOrStoreWithLimit c key e maxEntries now ks =
    let c1 := purge c maxEntries now ks in
    match entries c1 !! key with
    | Some v => if expired v now
                then (call_onExpire (mkCache (<[key := e]> (entries c1)) (calls c1)) v, (e, false, None))
                else (c1, (v, negb (v =? e)%N, None))
    | None => if (0 <? maxEntries) && (maxEntries <=? Length (entries c1))
              then (c1, (nil_ptr, false, Some ErrCacheFull))
              else (mkCache (<[key := e]> (entries c1)) (calls c1), (e, false, None))
    end.
Proof.
  intros Hwf. unfold LoadOrStoreWithLimit. fold (purge c maxEntries now ks). cbv zeta.
  set (c1 := purge c maxEntries now ks). rewrite insert_limit_cases.
  assert (Hwf1 : forall v, entries c1 !! key = Some v -> v <> nil_ptr).
  { intros v. unfold c1, purge. case_match; [rewrite CheckExpirations_entries|intros; by eapply Hwf].
    case_decide; [|intros; by eapply Hwf].
    destruct (entries c !! key) eqn:E; [|done]. case_match; [done|]. intros [= <-]. by eapply Hwf. }
  destruct (entries c1 !! key) as [v|] eqn:E.
  - specialize (Hwf1 _ eq_refl). destruct (expired v now); cbn [negb].
    + destruct (N.eqb_spec v nil_ptr); [done|]. by rewrite N.eqb_refl.
    + cbn. by destruct c1.
  - destruct (_ && _); cbn; [by destruct c1|]. by rewrite N.eqb_refl.
Qed.

Lemma purge_live_kept c maxEntries now ks k v :
  entries c !! k = Some v -> expired v now = false ->
  entries (purge c maxEntries now ks) !! k = Some v.
Proof.
  intros Hk He. unfold purge. case_match; [|done].
  rewrite CheckExpirations_entries, Hk, He. by case_decide.
Qed.

Lemma purge_sub c maxEntries now ks k v :
  entries (purge c maxEntries now ks) !! k = Some v -> entries c !! k = Some v.
Proof.
  unfold purge. case_match; [|done]. rewrite CheckExpirations_entries.
  case_decide; [|done]. destruct (entries c !! k); [|done]. by case_match.
Qed.

(** Every entry the purge drops has expired and was reported. *)
Lemma purge_dropped c maxEntries now ks k v :
  iterates ks c -> entries c !! k = Some v ->
  entries (purge c maxEntries now ks) !! k = None ->
  expired v now = true /\
  (onExpire (heap v), data (heap v)) ∈ drop (length (calls c)) (calls (purge c maxEntries now ks)).
Proof.
  intros (Hnd & Hks) Hk. unfold purge. case_match; [|congruence].
  rewrite CheckExpirations_entries, Hk, CheckExpirations_calls by done.
  rewrite decide_True by (apply Hks; eauto).
  destruct (expired v now) eqn:Ee; [|done]. intros _. split; [done|].
  rewrite drop_app_length. apply list_elem_of_omap. exists k. split; [by apply Hks|].
  unfold expire_call. rewrite Hk. cbn. by rewrite Ee.
Qed.

Lemma purge_calls c maxEntries now ks :
  iterates ks c -> exists l, calls (purge c maxEntries now ks) = calls c ++ l.
Proof.
  intros (Hnd & _). unfold purge. case_match.
  - rewrite CheckExpirations_calls by done. eauto.
  - exists []. by rewrite app_nil_r.
Qed.

Lemma purge_Length c maxEntries now ks :
  Length (entries (purge c maxEntries now ks)) <= Length (entries c).
Proof.
  unfold Length. apply inj_le, map_subseteq_size. apply map_subseteq_spec.
  intros k v. apply purge_sub.
Qed.

Lemma live_Some c now k v : live c now !! k = Some v <-> entries c !! k = Some v /\ expired v now = false.
Proof.
  rewrite live_lookup. destruct (entries c !! k) as [u|]; [|naive_solver].
  destruct (expired u now) eqn:Eu; split.
  - done.
  - intros [[= ->] ?]. congruence.
  - by intros [= ->].
  - by intros [? _].
Qed.

Section Limit.
Context (c : Cache) (key : K) (e : ptr) (maxEntries now : Z) (ks : list K).
Context (Hwf : cache_wf c) (Hks : iterates ks c) (Hfresh : map_Forall (fun _ v => v <> e) (entries c)).

#[local] Notation result := (LoadOrStoreWithLimit c key e maxEntries now ks).

Lemma limit_result :
  match result.2.2 with
  | Some ErrCacheFull =>
      live c now !! key = None /\ 0 < maxEntries <= Length (live c now) /\
      entries result.1 = live c now
  | None =>
      entries result.1 !! key = Some result.2.1.1 /\
      result.2.1.1 = default e (live c now !! key) /\
      (result.2.1.2 = true <-> is_Some (live c now !! key))
  end.
Proof.
  rewrite LoadOrStoreWithLimit_eq by done. cbv zeta.
  pose proof (purge_Length c maxEntries now ks) as Hlen.
  destruct (entries (purge c maxEntries now ks) !! key) as [v|] eqn:E.
  - pose proof (purge_sub _ _ _ _ _ _ E) as Hk. destruct (expired v now) eqn:Ee; cbn.
    + rewrite lookup_insert_eq, live_lookup, Hk, Ee. clear Hwf Hks Hfresh; naive_solver.
    + rewrite E, live_lookup, Hk, Ee. destruct (N.eqb_spec v e); [by edestruct Hfresh|].
      clear Hwf Hks Hfresh; naive_solver.
  - assert (Hl : live c now !! key = None).
    { apply eq_None_not_Some. intros [v [Hk He]%live_Some].
      rewrite (purge_live_kept _ maxEntries now ks _ _ Hk He) in E. done. }
    destruct (_ && _) eqn:Hc; cbn [fst snd entries].
    + assert (Hp : entries (purge c maxEntries now ks) = live c now).
      { unfold purge. replace (_ && _) with true by lia. by apply CheckExpirations_live. }
      rewrite <-Hp in *. split_and!; [done|lia|lia|done].
    + rewrite lookup_insert_eq, Hl. clear Hwf Hks Hfresh; naive_solver.
Qed.

Lemma limit_keeps k v : live c now !! k = Some v -> entries result.1 !! k = Some v.
Proof.
  intros [Hk He]%live_Some. rewrite LoadOrStoreWithLimit_eq by done. cbv zeta.
  pose proof (purge_live_kept _ maxEntries now ks _ _ Hk He) as Hp.
  destruct (entries (purge c maxEntries now ks) !! key) as [u|] eqn:E.
  - destruct (expired u now) eqn:Eu; cbn; [|done].
    rewrite lookup_insert_ne; [done|]. intros ->. congruence.
  - destruct (_ && _); cbn; [done|]. rewrite lookup_insert_ne; [done|]. intros ->. congruence.
Qed.

Lemma limit_drops k v :
  entries c !! k = Some v -> entries result.1 !! k <> Some v ->
  expired v now = true /\
  (onExpire (heap v), data (heap v)) ∈ drop (length (calls c)) (calls result.1).
Proof.
  intros Hk. rewrite LoadOrStoreWithLimit_eq by done. cbv zeta.
  set (c1 := purge c maxEntries now ks).
  pose proof (purge_dropped c maxEntries now ks k v Hks Hk) as Hd. fold c1 in Hd.
  destruct (purge_calls c maxEntries now ks Hks) as [l Hl]. fold c1 in Hl.
  assert (Hcase : forall x, entries c1 !! k = Some x -> x = v).
  { intros x Hx%purge_sub. congruence. }
  destruct (entries c1 !! k) as [x|] eqn:Ek.
  - rewrite (Hcase x eq_refl) in Ek. destruct (entries c1 !! key) as [u|] eqn:E.
    + destruct (expired u now) eqn:Eu; cbn; [|congruence].
      destruct (decide (k = key)) as [-> | Hne]; [|rewrite lookup_insert_ne by done; congruence].
      intros _. assert (u = v) as -> by congruence. split; [done|].
      rewrite Hl, <-(assoc_L (++)), drop_app_length. set_solver.
    + destruct (_ && _); cbn; [congruence|].
      rewrite lookup_insert_ne by (intros ->; congruence). congruence.
  - destruct (Hd eq_refl) as (He & Hin). intros _. split; [done|].
    destruct (entries c1 !! key) as [u|]; [|destruct (_ && _); done].
    destruct (expired u now); [|done]. cbn. rewrite Hl, drop_app_length in Hin.
    rewrite Hl, <-(assoc_L (++)), drop_app_length. set_solver.
Qed.

Lemma limit_bound :
  0 < maxEntries -> Length (entries c) <= maxEntries -> Length (entries result.1) <= maxEntries.
Proof.
  intros Hpos Hle. rewrite LoadOrStoreWithLimit_eq by done. cbv zeta.
  pose proof (purge_Length c maxEntries now ks) as Hlen. set (c1 := purge c maxEntries now ks) in *.
  destruct (entries c1 !! key) as [u|] eqn:E.
  - destruct (expired u now); cbn; [|lia]. unfold Length in *.
    rewrite map_size_insert_Some by eauto. lia.
  - destruct (_ && _) eqn:Hc; cbn; [lia|]. unfold Length in *.
    rewrite map_size_insert_None by done. lia.
Qed.
End Limit.

End Cache.

(** ** Properties *)

Section Properties.
Context `{Countable K} {D F : Type}.
Context (heap : ptr -> Element D F).

(** [CheckExpirations], for every order in which the runtime may iterate over the
    map: it keeps exactly the entries that have not expired and calls the [onExpire] of
    each removed entry once, in iteration order.  The callback is safe when the value the
    iteration read is stale: under the write lock it removes the key only if the key
    still holds that same element, so a concurrent replacement is never lost. *)
Theorem CheckExpirations_correct (c : Cache (K := K) (D := D) (F := F)) (now : Z) (ks : list K) :
  iterates ks c ->
  entries (CheckExpirations heap c now ks) = live heap c now /\
  calls (CheckExpirations heap c now ks) =
    calls c ++ omap (expire_call heap (entries c) now) ks /\
  (forall key stale, entries c !! key <> Some stale ->
     CheckExpirations_visit heap now key stale c = (true, c)).
Proof.
  intros Hks. split_and!.
  - by apply CheckExpirations_live.
  - apply CheckExpirations_calls, Hks.
  - intros key stale Hne. by rewrite CheckExpirations_visit_eq, decide_False.
Qed.

(** [LoadOrStoreWithLimit] with a fresh element: it returns [ErrCacheFull] only
    when the key has no live entry and at least [maxEntries > 0] entries are live, and
    then stores nothing; otherwise it returns the live entry of the key, or the new
    element now stored under it.  A live entry is never dropped or replaced, an entry
    that is dropped had expired and its [onExpire] was called, and the cache never
    grows past its limit. *)
Theorem LoadOrStoreWithLimit_correct (c c' : Cache (K := K) (D := D) (F := F)) key e maxEntries
    (now : Z) (ks : list K) actual loaded err :
  cache_wf c -> iterates ks c -> map_Forall (fun _ v => v <> e) (entries c) ->
  LoadOrStoreWithLimit heap c key e maxEntries now ks = (c', (actual, loaded, err)) ->
  match err with
  | Some ErrCacheFull =>
      live heap c now !! key = None /\ 0 < maxEntries <= Length (live heap c now) /\
      entries c' = live heap c now
  | None =>
      entries c' !! key = Some actual /\
      actual = default e (live heap c now !! key) /\
      (loaded = true <-> is_Some (live heap c now !! key))
  end /\
  (forall k v, live heap c now !! k = Some v -> entries c' !! k = Some v) /\
  (forall k v, entries c !! k = Some v -> entries c' !! k <> Some v ->
     expired heap v now = true /\
     (onExpire (heap v), data (heap v)) ∈ drop (length (calls c)) (calls c')) /\
  (0 < maxEntries -> Length (entries c) <= maxEntries -> Length (entries c') <= maxEntries).
Proof.
  intros Hwf Hks Hfresh Heq.
  pose proof (limit_result heap c key e maxEntries now ks Hwf Hks Hfresh) as Hres.
  pose proof (limit_keeps heap c key e maxEntries now ks Hwf) as Hkeep.
  pose proof (limit_drops heap c key e maxEntries now ks Hwf Hks Hfresh) as Hdrop.
  pose proof (limit_bound heap c key e maxEntries now ks Hwf) as Hbound.
  rewrite Heq in Hres, Hkeep, Hdrop, Hbound. exact (conj Hres (conj Hkeep (conj Hdrop Hbound))).
Qed.

(** What the cache hands out has not expired: [Load] returns a stored element or
    nil, never an expired one, and the element that [LoadOrStore] returns is the live
    entry of the key or, when there is none, the given element, which then is what a
    later [Load] of the key finds. *)
Theorem Cache_returns_live (c : Cache (K := K) (D := D) (F := F)) key e now :
  map_Forall (fun _ v => v <> e) (entries c) ->
  Cache_Load heap c key now = default nil_ptr (live heap c now !! key) /\
  (let '(c', (actual, loaded)) := Cache_LoadOrStore heap c key e now in
   actual = default e (live heap c now !! key) /\
   (loaded = true <-> is_Some (live heap c now !! key)) /\
   entries c' = <[key := actual]> (entries c) /\
   (expired heap e now = false -> Cache_Load heap c' key now = actual)).
Proof.
  intros Hfresh. unfold Cache_Load, Load, Cache_LoadOrStore, ReplaceWithFunc, index.
  rewrite live_lookup. destruct (entries c !! key) as [v|] eqn:E; cbn [andb negb].
  - destruct (expired heap v now) eqn:Ev; cbn [negb]; (split; [done|]).
    + cbn [entries]. rewrite N.eqb_refl, lookup_insert_eq. split_and!; try naive_solver.
      intros He. cbn. by rewrite He.
    + cbn [entries]. rewrite lookup_insert_eq. cbn. rewrite Ev.
      destruct (N.eqb_spec v e); [by edestruct Hfresh|]. naive_solver.
  - split; [done|]. cbn. rewrite N.eqb_refl, lookup_insert_eq. split_and!; try naive_solver.
    intros He. cbn. by rewrite He.
Qed.
End Properties.

(** ** A concrete cache of two entries, the first expired at time 20 *)

Definition demo_heap (p : ptr) : Element Z unit :=
  if (p =? 1)%N then NewElement tt 100 10 None
  else if (p =? 2)%N then NewElement tt 200 0 None
  else NewElement tt 300 50 None.

Definition demo_cache : Cache (K := Z) (D := Z) (F := unit) := mkCache {[ 7 := 1%N; 8 := 2%N ]} [].

Lemma demo_iterates : iterates [8; 7] demo_cache.
Proof.
  split; [apply (bool_decide_unpack _); vm_compute; exact I|]. intros k.
  unfold demo_cache. cbn [entries]. rewrite <-elem_of_dom, dom_insert_L, dom_singleton_L. set_solver.
Qed.


Lemma CheckExpirations_correct_witness :
  entries (CheckExpirations demo_heap demo_cache 20 [8; 7]) = live demo_heap demo_cache 20.
Proof. exact (proj1 (CheckExpirations_correct demo_heap demo_cache 20 [8; 7] demo_iterates)). Defined.

(** The cache is full; the expired entry makes room for the new one. *)
Lemma LoadOrStoreWithLimit_correct_witness :
  exists c', LoadOrStoreWithLimit demo_heap demo_cache 9 3%N 2 20 [8; 7] = (c', (3%N, false, None)) /\
             entries c' !! 9 = Some 3%N.
Proof.
  eexists. split; [vm_compute; reflexivity|].
  refine (proj1 (proj1 (LoadOrStoreWithLimit_correct demo_heap demo_cache _ 9 3%N 2 20 [8; 7]
    3%N false None _ demo_iterates _ _))).
  - apply (bool_decide_unpack _). vm_compute. exact I.
  - apply (bool_decide_unpack _). vm_compute. exact I.
  - vm_compute. reflexivity.
Defined.

Lemma Cache_returns_live_witness :
  Cache_Load demo_heap demo_cache 7 20 = default nil_ptr (live demo_heap demo_cache 20 !! 7).
Proof.
  refine (proj1 (Cache_returns_live demo_heap demo_cache 7 3%N 20 _)).
  apply (bool_decide_unpack _). vm_compute. exact I.
Defined.
