(* ===== verification/LimitParallel.v ===== *)
(** * Limits on parallel requests
      (src/net/client/limitParallelRequests/limitParallelRequests.go)

    A client connection limits how many requests are outstanding per endpoint (the
    hash of the URI path).  [acquireEndpoint] runs one critical section of the locked
    map and then waits on a channel or on the request's context; [releaseEndpoint] is
    one critical section.  The queues are shared through pointers and changed in place
    by the callbacks, so the model has a heap of queues; a channel is the number of the
    request that made it, and closing a channel appends to [closed].

    [lpr_step] interleaves any number of requests.  [Do] and [DoObserve] hold their slot
    from the grant until the deferred [releaseEndpoint], whether the semaphore
    ([golang.org/x/sync/semaphore]) refuses or the request function returns. *)
From stdpp Require Import prelude gmap fin_maps list.
From Stdlib Require Import ZArith Lia.
From S2P Require Import Prelude OptionCodec Options Crc64 SyncMap.
#[local] Open Scope Z_scope.

(** ** The key of an endpoint: [hash/crc64] over the path segments *)

Definition hash (opts : Options) : Z :=
  fold_left (fun h opt => if ID opt =? URIPath then crc64_Write h (Value opt) else h) opts 0.

(** ** The limiter *)

Record endpointQueue : Type := mkQueue {
  processedCounter : Z;
  orderedRequest : list nat
}.

#[export] Instance endpointQueue_inhabited : Inhabited endpointQueue := populate (mkQueue 0 []).

(** The limits, the map of queue pointers (0 is nil), the heap of queues and the
    channels closed so far.  [limit] is the weight of the semaphore. *)
Record LimitParallelRequests : Type := mkLPR {
  limit : Z;
  endpointLimit : Z;
  endpointQueues : gmap Z N;
  queueHeap : gmap N endpointQueue;
  closed : list nat
}.

Definition MaxInt64 : Z := 2 ^ 63 - 1.

Definition New (lim endpointLim : Z) : LimitParallelRequests :=
  let lim := if lim <=? 0 then MaxInt64 else lim in
  let endpointLim := if endpointLim <=? 0 then MaxInt64 else endpointLim in
  mkLPR lim endpointLim NewMap ∅ [].

Implicit Types (c : LimitParallelRequests).

(** A new queue: a pointer that is neither nil nor in use. *)
Definition alloc (h : gmap N endpointQueue) : N := fresh ({[0%N]} ∪ dom h : gset N).

(** The critical section of [acquireEndpoint], with [reqChan] the new channel. *)
Definition acquireEndpoint c (key : Z) (reqChan : nat) : LimitParallelRequests :=
  let '(m, _, (h, cl)) :=
    LoadOrStoreWithFunc 0%N (endpointQueues c) key
      (Some (fun value '(h, cl) =>
         let q := h !!! value in
         if processedCounter q <? endpointLimit c then
           (value, (<[value := mkQueue (processedCounter q + 1) (orderedRequest q)]> h,
                    cl ++ [reqChan]))
         else
           (value, (<[value := mkQueue (processedCounter q) (orderedRequest q ++ [reqChan])]> h, cl))))
      (fun '(h, cl) =>
         let p := alloc h in (p, (<[p := mkQueue 1 []]> h, cl ++ [reqChan])))
      (queueHeap c, closed c) in
  mkLPR (limit c) (endpointLimit c) m h cl.

Definition releaseEndpoint c (key : Z) : LimitParallelRequests :=
  let '(m, _, (h, cl)) :=
    ReplaceWithFunc 0%N (endpointQueues c) key
      (fun oldValue oldLoaded '(h, cl) =>
         if oldLoaded then
           let q := h !!! oldValue in
           match orderedRequest q with
           | reqChan :: rest =>
               ((oldValue, false),
                (<[oldValue := mkQueue (processedCounter q) rest]> h, cl ++ [reqChan]))
           | [] =>
               let n := processedCounter q - 1 in
               let h := <[oldValue := mkQueue n []]> h in
               if n =? 0 then ((0%N, true), (h, cl)) else ((oldValue, false), (h, cl))
           end
         else ((0%N, true), (h, cl)))
      (queueHeap c, closed c) in
  mkLPR (limit c) (endpointLimit c) m h cl.

(** ** Requests *)

(** A request after the critical section of [acquireEndpoint], one whose
    [acquireEndpoint] returned nil, and one that released its slot. *)
Inductive request_pc : Type := RWaiting | RHolding | RDone.

#[export] Instance request_pc_eq_dec : EqDecision request_pc.
Proof. solve_decision. Defined.

Abbreviation requests := (gmap nat (Z * request_pc)).

Definition lpr_state : Type := LimitParallelRequests * requests.

(** [select] takes any ready case.  [cancel_queued] says whether a request may see its
    context done while it is still queued. *)
Inductive lpr_step (cancel_queued : bool) : lpr_state -> lpr_state -> Prop :=
| step_start c ts i key :
    ts !! i = None ->
    lpr_step cancel_queued (c, ts) (acquireEndpoint c key i, <[i := (key, RWaiting)]> ts)
| step_granted c ts i key :
    ts !! i = Some (key, RWaiting) -> i ∈ closed c ->
    lpr_step cancel_queued (c, ts) (c, <[i := (key, RHolding)]> ts)
| step_cancel c ts i key :
    ts !! i = Some (key, RWaiting) -> cancel_queued = true \/ i ∈ closed c ->
    lpr_step cancel_queued (c, ts) (releaseEndpoint c key, <[i := (key, RDone)]> ts)
| step_finish c ts i key :
    ts !! i = Some (key, RHolding) ->
    lpr_step cancel_queued (c, ts) (releaseEndpoint c key, <[i := (key, RDone)]> ts).

(** ** The queues by value *)

(** The specification: a map from keys to queues, and the closed channels. *)
Definition spec_acquire (lim : Z) (s : gmap Z endpointQueue) (cl : list nat) key ch
    : gmap Z endpointQueue * list nat :=
  match s !! key with
  | None => (<[key := mkQueue 1 []]> s, cl ++ [ch])
  | Some q =>
      if processedCounter q <? lim
      then (<[key := mkQueue (processedCounter q + 1) (orderedRequest q)]> s, cl ++ [ch])
      else (<[key := mkQueue (processedCounter q) (orderedRequest q ++ [ch])]> s, cl)
  end.

Definition spec_release (s : gmap Z endpointQueue) (cl : list nat) key
    : gmap Z endpointQueue * list nat :=
  match s !! key with
  | None => (s, cl)
  | Some (mkQueue n (ch :: rest)) => (<[key := mkQueue n rest]> s, cl ++ [ch])
  | Some (mkQueue n []) =>
      if n =? 1 then (delete key s, cl) else (<[key := mkQueue (n - 1) []]> s, cl)
  end.

Definition deref c : gmap Z endpointQueue := (fun p => queueHeap c !!! p) <$> endpointQueues c.

(** Queues are not shared between keys and stay allocated. *)
Definition lpr_wf c : Prop :=
  (forall k p, endpointQueues c !! k = Some p -> is_Some (queueHeap c !! p)) /\
  (forall k1 k2 p, endpointQueues c !! k1 = Some p -> endpointQueues c !! k2 = Some p -> k1 = k2).

Lemma deref_lookup c k : deref c !! k = (fun p => queueHeap c !!! p) <$> endpointQueues c !! k.
Proof. apply lookup_fmap. Qed.

(** Writing through the pointer of a key changes that key's queue only. *)
Lemma deref_write lim lim' m h cl k p q :
  lpr_wf (mkLPR lim lim' m h cl) -> m !! k = Some p ->
  deref (mkLPR lim lim' m (<[p := q]> h) cl) = <[k := q]> (deref (mkLPR lim lim' m h cl)) /\
  lpr_wf (mkLPR lim lim' m (<[p := q]> h) cl).
Proof.
  intros (Hal & Hinj) Hk. cbn [queueHeap endpointQueues] in *. split.
  - apply map_eq. intros k'. rewrite !deref_lookup. cbn [queueHeap endpointQueues fmap option_fmap option_map].
    destruct (decide (k' = k)) as [-> | Hne].
    + rewrite Hk, lookup_insert_eq. cbn [queueHeap endpointQueues fmap option_fmap option_map]. by rewrite lookup_total_insert_eq.
    + rewrite lookup_insert_ne, deref_lookup by done. cbn [queueHeap endpointQueues fmap option_fmap option_map].
      destruct (m !! k') as [p'|] eqn:E; [|done]. cbn [queueHeap endpointQueues fmap option_fmap option_map].
      rewrite lookup_total_insert_ne; [done|]. intros ->. eauto.
  - split; [|done]. cbn [queueHeap endpointQueues fmap option_fmap option_map]. intros k' p' Hk'. apply lookup_insert_is_Some'. eauto.
Qed.

(** A new key gets a new queue. *)
Lemma deref_alloc lim lim' m h cl k q :
  lpr_wf (mkLPR lim lim' m h cl) -> m !! k = None ->
  deref (mkLPR lim lim' (<[k := alloc h]> m) (<[alloc h := q]> h) cl) =
    <[k := q]> (deref (mkLPR lim lim' m h cl)) /\
  lpr_wf (mkLPR lim lim' (<[k := alloc h]> m) (<[alloc h := q]> h) cl).
Proof.
  intros (Hal & Hinj) Hk. cbn [queueHeap endpointQueues] in *.
  assert (Hfresh : forall k' p, m !! k' = Some p -> p <> alloc h).
  { intros k' p Hk' ->. destruct (Hal _ _ Hk') as [? Hx].
    apply (is_fresh ({[0%N]} ∪ dom h : gset N)). fold (alloc h).
    apply elem_of_union_r, elem_of_dom. eauto. }
  split.
  - apply map_eq. intros k'. rewrite deref_lookup. cbn [queueHeap endpointQueues fmap option_fmap option_map].
    destruct (decide (k' = k)) as [-> | Hne].
    + rewrite !lookup_insert_eq. cbn [queueHeap endpointQueues fmap option_fmap option_map]. by rewrite lookup_total_insert_eq.
    + rewrite !lookup_insert_ne, deref_lookup by done. cbn [queueHeap endpointQueues fmap option_fmap option_map].
      destruct (m !! k') as [p'|] eqn:E; [|done]. cbn [queueHeap endpointQueues fmap option_fmap option_map].
      rewrite lookup_total_insert_ne; [done|]. intros Heq. by eapply Hfresh.
  - split; cbn [queueHeap endpointQueues].
    + intros k' p. rewrite lookup_insert_Some, lookup_insert_is_Some'. intros [[? <-] | [? ?]]; eauto.
    + intros k1 k2 p. rewrite !lookup_insert_Some.
      intros [[<- <-] | [? H1]] [[<- ?] | [? H2]]; try done; eauto.
      * by destruct (Hfresh _ _ H2).
      * by destruct (Hfresh _ _ H1).
Qed.

Lemma acquireEndpoint_refines c key ch :
  lpr_wf c ->
  (deref (acquireEndpoint c key ch), closed (acquireEndpoint c key ch)) =
    spec_acquire (endpointLimit c) (deref c) (closed c) key ch /\
  lpr_wf (acquireEndpoint c key ch) /\ endpointLimit (acquireEndpoint c key ch) = endpointLimit c.
Proof.
  destruct c as [lim elim m h cl]. intros Hwf.
  unfold acquireEndpoint, spec_acquire, LoadOrStoreWithFunc, index.
  rewrite deref_lookup. cbn [endpointQueues queueHeap closed endpointLimit limit].
  destruct (m !! key) as [p|] eqn:E; cbn [fmap option_fmap option_map].
  - destruct (processedCounter (h !!! p) <? elim); cbn;
      edestruct (deref_write lim elim m h cl key p) as [Hd Hw]; try done; by rewrite <-Hd.
  - edestruct (deref_alloc lim elim m h cl key) as [Hd Hw]; [done..|]. by rewrite <-Hd.
Qed.

Lemma releaseEndpoint_refines c key :
  lpr_wf c ->
  (deref (releaseEndpoint c key), closed (releaseEndpoint c key)) =
    spec_release (deref c) (closed c) key /\
  lpr_wf (releaseEndpoint c key) /\ endpointLimit (releaseEndpoint c key) = endpointLimit c.
Proof.
  destruct c as [lim elim m h cl]. intros Hwf.
  unfold releaseEndpoint, spec_release, ReplaceWithFunc, index.
  rewrite deref_lookup. cbn [endpointQueues queueHeap closed endpointLimit limit].
  destruct (m !! key) as [p|] eqn:E; cbn [fmap option_fmap option_map].
  - destruct (h !!! p) as [n [|ch rest]] eqn:Eq; cbn [orderedRequest processedCounter].
    + edestruct (deref_write lim elim m h cl key p (mkQueue (n - 1) [])) as [Hd Hw]; [done..|].
      destruct (Z.eqb_spec n 1) as [-> | Hn].
      * change (1 - 1 =? 0) with true. cbv beta iota zeta. split; [|split; [|done]].
        -- f_equal. apply (f_equal (delete key)) in Hd. rewrite delete_insert_eq in Hd.
           rewrite <-Hd. unfold deref. apply fmap_delete.
        -- destruct Hw as (Ha & Hi). split; cbn in *.
           ++ intros k' p' [_ Hk']%lookup_delete_Some. eauto.
           ++ intros k1 k2 p' [_ H1]%lookup_delete_Some [_ H2]%lookup_delete_Some. eauto.
      * replace (n - 1 =? 0) with false by lia. rewrite insert_id by done. by rewrite <-Hd.
    + rewrite insert_id by done.
      edestruct (deref_write lim elim m h cl key p (mkQueue n rest)) as [Hd Hw]; [done..|].
      by rewrite <-Hd.
  - by rewrite delete_id.
Qed.

(** ** Accounting *)

(** The requests of an endpoint that have not released. *)
Definition active (key : Z) (ts : requests) : gset nat :=
  dom (filter (fun x => x.2.1 = key /\ x.2.2 <> RDone) ts).

Lemma elem_of_active key ts i :
  i ∈ active key ts <-> exists pc, ts !! i = Some (key, pc) /\ pc <> RDone.
Proof.
  unfold active. rewrite elem_of_dom. split.
  - intros [[k pc] [Hi [Hk Hp]]%map_lookup_filter_Some]. cbn in *. subst. eauto.
  - intros (pc & Hi & Hp). exists (key, pc). by apply map_lookup_filter_Some.
Qed.

Lemma active_start key key' ts i pc :
  ts !! i = None -> pc <> RDone ->
  active key (<[i := (key', pc)]> ts) = if decide (key = key') then {[i]} ∪ active key ts else active key ts.
Proof.
  intros Hi Hpc. apply set_eq. intros j. rewrite elem_of_active.
  case_decide as Hk; [subst; rewrite elem_of_union, elem_of_singleton|]; rewrite elem_of_active;
    destruct (decide (j = i)) as [-> | Hne]; rewrite ?lookup_insert_eq, ?lookup_insert_ne by done;
    naive_solver.
Qed.

Lemma active_hold key key' ts i :
  ts !! i = Some (key', RWaiting) -> active key (<[i := (key', RHolding)]> ts) = active key ts.
Proof.
  intros Hi. apply set_eq. intros j. rewrite !elem_of_active.
  destruct (decide (j = i)) as [-> | Hne]; rewrite ?lookup_insert_eq, ?lookup_insert_ne by done;
    naive_solver.
Qed.

Lemma active_done key key' ts i :
  active key (<[i := (key', RDone)]> ts) = active key ts ∖ {[i]}.
Proof.
  apply set_eq. intros j. rewrite elem_of_difference, elem_of_singleton, !elem_of_active.
  destruct (decide (j = i)) as [-> | Hne]; rewrite ?lookup_insert_eq, ?lookup_insert_ne by done;
    naive_solver.
Qed.

Lemma active_done_size key ts i pc :
  ts !! i = Some (key, pc) -> pc <> RDone ->
  size (active key ts) = S (size (active key (<[i := (key, RDone)]> ts))).
Proof.
  intros Hi Hpc. rewrite active_done.
  assert (i ∈ active key ts) by (apply elem_of_active; eauto).
  rewrite size_difference by set_solver. rewrite size_singleton.
  assert (size (active key ts) <> 0)%nat; [|lia].
  intros Hz%size_empty_inv. set_solver.
Qed.

(** The state of one endpoint's queue. *)
Definition queue_inv (lim : Z) (cl : list nat) (ts : requests) key (q : option endpointQueue) : Prop :=
  match q with
  | None => active key ts = ∅
  | Some (mkQueue n ord) =>
      1 <= n <= lim /\ n + zlen ord = Z.of_nat (size (active key ts)) /\
      (ord <> [] -> n = lim) /\ NoDup ord /\
      (forall j, j ∈ ord -> j ∉ cl /\ exists pc, ts !! j = Some (key, pc))
  end.

(** A step that neither starts nor ends a request of [key'], and closes no channel
    of one, keeps the queue of [key']. *)
Lemma queue_inv_frame lim cl cl' (ts ts' : requests) key' q :
  queue_inv lim cl ts key' q ->
  active key' ts' = active key' ts ->
  (forall j pc, ts !! j = Some (key', pc) -> exists pc', ts' !! j = Some (key', pc')) ->
  (forall j pc, ts !! j = Some (key', pc) -> j ∈ cl' -> j ∈ cl) ->
  queue_inv lim cl' ts' key' q.
Proof.
  intros Hq Hact Hts Hcl. destruct q as [[n ord]|]; cbn in *; [|by rewrite Hact].
  destruct Hq as (Hn & Hsum & Hfull & Hnd & Hord). rewrite Hact.
  split_and!; [lia|lia|done|done|done|].
  intros j Hj. destruct (Hord j Hj) as (Hnc & pc & Hpc). split; eauto.
Qed.

(** Replacing the state of one request of [key] leaves the requests of other keys. *)
Lemma lookup_other_key (ts : requests) i key key' pc j pcj :
  (forall k p, ts !! i = Some (k, p) -> k = key) -> key' <> key ->
  ts !! j = Some (key', pcj) -> <[i := (key, pc)]> ts !! j = Some (key', pcj).
Proof.
  intros Hi Hne Hj. rewrite lookup_insert_ne; [done|]. intros ->. by apply Hi in Hj.
Qed.

Section Preservation.
Context (lim : Z) (Hlim : 1 <= lim).
Implicit Types (s : gmap Z endpointQueue) (cl : list nat) (ts : requests).

Definition queues_inv s cl ts : Prop :=
  NoDup cl /\ (forall j, j ∈ cl -> is_Some (ts !! j)) /\
  forall key, queue_inv lim cl ts key (s !! key).

Lemma NoDup_snoc (l : list nat) x : NoDup l -> x ∉ l -> NoDup (l ++ [x]).
Proof.
  intros Hl Hx. apply NoDup_app. split_and!; [done| |apply NoDup_singleton].
  by intros y Hy ->%list_elem_of_singleton.
Qed.

Lemma spec_acquire_same s cl ts key i s' cl' :
  queue_inv lim cl ts key (s !! key) -> ts !! i = None -> i ∉ cl ->
  spec_acquire lim s cl key i = (s', cl') ->
  queue_inv lim cl' (<[i := (key, RWaiting)]> ts) key (s' !! key).
Proof.
  intros Hq Hi Hicl Heq.
  pose proof (active_start key key ts i RWaiting Hi ltac:(done)) as Hact.
  rewrite decide_True in Hact by done.
  assert (Hsz : size ({[i]} ∪ active key ts) = S (size (active key ts))).
  { rewrite size_union, size_singleton; [lia|]. intros j ->%elem_of_singleton Hj.
    apply elem_of_active in Hj. naive_solver. }
  revert Heq. unfold spec_acquire. destruct (s !! key) as [[n ord]|].
  - destruct Hq as (Hn & Hsum & Hfull & Hndo & Hord). cbn [processedCounter orderedRequest].
    destruct (n <? lim) eqn:Hlt; intros [= <- <-]; rewrite lookup_insert_eq; cbn; rewrite Hact, Hsz.
    + assert (ord = []) as -> by (destruct ord; [done|]; specialize (Hfull ltac:(done)); lia).
      change (zlen (@nil nat)) with 0 in *. split_and!; try done; try lia; set_solver.
    + rewrite zlen_app. change (zlen [i]) with 1. split_and!; [lia|lia|lia|lia| |].
      * apply NoDup_snoc; [done|]. intros Hj. destruct (Hord i Hj) as (_ & pc & ?). congruence.
      * intros j [Hj | ->%list_elem_of_singleton]%elem_of_app; [|rewrite lookup_insert_eq; eauto].
        destruct (Hord j Hj) as (? & pc & ?). rewrite lookup_insert_ne by congruence. eauto.
  - intros [= <- <-]. rewrite lookup_insert_eq. cbn. cbn in Hq. rewrite Hact, Hsz, Hq, size_empty.
    change (zlen (@nil nat)) with 0. split_and!; try done; try lia; [apply NoDup_nil_2|set_solver].
Qed.

Lemma spec_acquire_inv s cl ts key i s' cl' :
  queues_inv s cl ts -> ts !! i = None -> spec_acquire lim s cl key i = (s', cl') ->
  queues_inv s' cl' (<[i := (key, RWaiting)]> ts).
Proof.
  intros (Hnd & Hdom & Hq) Hi Heq.
  assert (Hicl : i ∉ cl) by (intros [? ?]%Hdom; congruence).
  assert (Hcl' : cl' = cl \/ cl' = cl ++ [i]).
  { revert Heq. unfold spec_acquire. repeat case_match; naive_solver. }
  assert (Hsub : forall j, j ∈ cl' -> j ∈ cl \/ j = i) by (destruct Hcl' as [-> | -> ]; set_solver).
  split_and!.
  - destruct Hcl' as [-> | -> ]; [done|]. by apply NoDup_snoc.
  - intros j [Hj | -> ]%Hsub; [|by rewrite lookup_insert_eq].
    apply lookup_insert_is_Some'. eauto.
  - intros key'. destruct (decide (key' = key)) as [-> | Hne]; [by eapply spec_acquire_same|].
    assert (s' !! key' = s !! key') as ->.
    { revert Heq. unfold spec_acquire. repeat case_match; intros [= <- <-]; by rewrite lookup_insert_ne. }
    eapply queue_inv_frame; [done| | |].
    + rewrite active_start by done. by rewrite decide_False.
    + intros j pc Hj. exists pc. apply lookup_other_key; [congruence|done|done].
    + intros j pc Hj [? | -> ]%Hsub; [done|congruence].
Qed.

(** What a release closes: nothing, or the first queued channel. *)
Lemma spec_release_closed s cl key s' cl' n ord :
  s !! key = Some (mkQueue n ord) -> spec_release s cl key = (s', cl') -> cl' = cl ++ take 1 ord.
Proof.
  unfold spec_release. intros ->. destruct ord; [|naive_solver].
  cbn. rewrite app_nil_r. case_match; naive_solver.
Qed.

Lemma spec_release_same s cl ts key i pc s' cl' :
  queue_inv lim cl ts key (s !! key) -> ts !! i = Some (key, pc) -> pc <> RDone ->
  spec_release s cl key = (s', cl') ->
  queue_inv lim cl' (<[i := (key, RDone)]> ts) key (s' !! key).
Proof.
  intros Hq Hi Hpc Heq. pose proof (active_done_size key ts i pc Hi Hpc) as Hsz.
  unfold spec_release in Heq.
  destruct (s !! key) as [[n ord]|] eqn:Es; cbn in Hq; [|rewrite Hq, size_empty in Hsz; lia].
  destruct Hq as (Hn & Hsum & Hfull & Hndo & Hord). destruct ord as [|ch rest].
  - change (zlen (@nil nat)) with 0 in Hsum.
    destruct (Z.eqb_spec n 1) as [-> | Hn1]; simplify_eq.
    + rewrite lookup_delete_eq. cbn. apply leibniz_equiv, size_empty_inv. lia.
    + rewrite lookup_insert_eq. cbn. change (zlen (@nil nat)) with 0.
      split_and!; try done; try lia. set_solver.
  - simplify_eq. rewrite lookup_insert_eq. cbn. unfold zlen in *. cbn [length] in Hsum.
    specialize (Hfull ltac:(done)). apply NoDup_cons in Hndo as (Hch & Hndo).
    split_and!; try done; try lia.
    intros j Hj. destruct (Hord j ltac:(set_solver)) as (Hjc & p & Hp). split.
    + rewrite elem_of_app, list_elem_of_singleton. intros [? | -> ]; done.
    + destruct (decide (j = i)) as [-> | ?];
        [rewrite lookup_insert_eq|rewrite lookup_insert_ne by done]; eauto.
Qed.

Lemma spec_release_inv s cl ts key i pc s' cl' :
  queues_inv s cl ts -> ts !! i = Some (key, pc) -> pc <> RDone ->
  spec_release s cl key = (s', cl') ->
  queues_inv s' cl' (<[i := (key, RDone)]> ts).
Proof.
  intros (Hnd & Hdom & Hq) Hi Hpc Heq. pose proof (Hq key) as Hk.
  destruct (s !! key) as [[n ord]|] eqn:Es; cbn in Hk;
    [|pose proof (active_done_size key ts i pc Hi Hpc) as Hsz; rewrite Hk, size_empty in Hsz; lia].
  destruct Hk as (_ & _ & _ & _ & Hord).
  pose proof (spec_release_closed _ _ _ _ _ _ _ Es Heq) as Hcl.
  assert (Hnew : forall j, j ∈ take 1 ord -> j ∉ cl /\ exists p, ts !! j = Some (key, p)).
  { intros j Hj. apply Hord. destruct ord; set_solver. }
  split_and!.
  - subst cl'. destruct ord as [|ch rest]; [by rewrite app_nil_r|].
    cbn in *. apply NoDup_snoc; [done|]. apply Hnew. set_solver.
  - subst cl'. intros j [Hj | Hj]%elem_of_app; apply lookup_insert_is_Some'; right; [eauto|].
    destruct (Hnew j Hj) as (_ & p & ->). eauto.
  - intros key'. destruct (decide (key' = key)) as [-> | Hne].
    { by eapply spec_release_same. }
    assert (s' !! key' = s !! key') as ->.
    { revert Heq. unfold spec_release.
      repeat case_match; intros [= <- <-]; by rewrite ?lookup_insert_ne, ?lookup_delete_ne. }
    eapply queue_inv_frame; [apply Hq| | |].
    + rewrite active_done. apply set_eq. intros j. rewrite elem_of_difference, elem_of_singleton.
      split; [naive_solver|]. intros Hj. split; [done|]. intros ->.
      apply elem_of_active in Hj. naive_solver.
    + intros j p Hj. exists p. apply lookup_other_key; [congruence|done|done].
    + subst cl'. intros j p Hj [? | Hj']%elem_of_app; [done|].
      destruct (Hnew j Hj') as (_ & p' & ?). congruence.
Qed.
End Preservation.

(** ** The invariant of the concurrent system *)

Definition lpr_inv (lim : Z) (st : lpr_state) : Prop :=
  lpr_wf st.1 /\ endpointLimit st.1 = lim /\ queues_inv lim (deref st.1) (closed st.1) st.2.

Lemma lpr_inv_init lim0 elim : lpr_inv (endpointLimit (New lim0 elim)) (New lim0 elim, ∅).
Proof.
  unfold lpr_inv, queues_inv, New. cbn. split_and!; try done.
  - apply NoDup_nil_2.
  - set_solver.
Qed.

Lemma lpr_inv_step cq lim st st' :
  1 <= lim -> lpr_inv lim st -> lpr_step cq st st' -> lpr_inv lim st'.
Proof.
  intros Hlim (Hwf & Hel & Hq) Hstep.
  assert (Hrel : forall c ts i key pc, lpr_wf c -> endpointLimit c = lim ->
            queues_inv lim (deref c) (closed c) ts -> ts !! i = Some (key, pc) -> pc <> RDone ->
            lpr_inv lim (releaseEndpoint c key, <[i := (key, RDone)]> ts)).
  { intros c ts i key pc Hw He Hi Hts Hpc.
    destruct (releaseEndpoint_refines c key Hw) as (Hr & Hw' & He').
    unfold lpr_inv. cbn [fst snd]. rewrite He'. split_and!; [done|done|]. by eapply spec_release_inv. }
  destruct Hstep as [c ts i key Hi | c ts i key Hi Hc | c ts i key Hi Hc | c ts i key Hi];
    cbn [fst snd] in *; [|clear Hrel|by eapply Hrel..].
  - destruct (acquireEndpoint_refines c key i Hwf) as (Hr & Hw' & He'). rewrite Hel in Hr.
    unfold lpr_inv. cbn [fst snd]. rewrite He'. split_and!; [done|done|]. by eapply spec_acquire_inv.
  - split_and!; [done|done|]. destruct Hq as (Hnd & Hdom & Hq). split_and!; [done| |].
    + intros j Hj. apply lookup_insert_is_Some'. eauto.
    + intros key'. cbn [fst snd]. eapply queue_inv_frame; [apply Hq|by apply active_hold| |done].
      intros j pc Hj. destruct (decide (j = i)) as [-> | ?];
        [rewrite lookup_insert_eq|rewrite lookup_insert_ne by done]; naive_solver.
Qed.

Lemma lpr_reach cq lim0 elim st :
  rtc (lpr_step cq) (New lim0 elim, ∅) st -> lpr_inv (endpointLimit (New lim0 elim)) st.
Proof.
  intros Hr. pattern st. eapply rtc_ind_r; [apply lpr_inv_init| |exact Hr].
  intros st1 st2 _ Hs Hi. eapply lpr_inv_step; [|done|done].
  unfold New. cbn. case_match; [done|lia].
Qed.

(** The channels queued for an endpoint. *)
Definition waiting (s : gmap Z endpointQueue) key : list nat :=
  match s !! key with Some q => orderedRequest q | None => [] end.

Lemma waiting_insert s key q key' :
  waiting (<[key := q]> s) key' = if decide (key' = key) then orderedRequest q else waiting s key'.
Proof.
  unfold waiting. case_decide as Hk; [subst; by rewrite lookup_insert_eq|by rewrite lookup_insert_ne].
Qed.

Lemma spec_acquire_waiting lim s cl key ch s' cl' :
  spec_acquire lim s cl key ch = (s', cl') ->
  (cl' = cl ++ [ch] /\ forall k, waiting s' k = waiting s k) \/
  (cl' = cl /\ forall k, waiting s' k = if decide (k = key) then waiting s key ++ [ch] else waiting s k).
Proof.
  unfold spec_acquire. destruct (s !! key) as [q|] eqn:Es.
  - destruct (_ <? _); intros [= <- <-]; [left|right]; (split; [done|]); intros k;
      rewrite waiting_insert; case_decide as Hk; subst; cbn; try done; unfold waiting; by rewrite Es.
  - intros [= <- <-]. left. split; [done|]. intros k. rewrite waiting_insert.
    case_decide as Hk; subst; cbn; [|done]. unfold waiting. by rewrite Es.
Qed.

Lemma spec_release_waiting s cl key s' cl' :
  spec_release s cl key = (s', cl') ->
  cl' = cl ++ take 1 (waiting s key) /\
  forall k, waiting s' k = if decide (k = key) then drop 1 (waiting s key) else waiting s k.
Proof.
  assert (Hw : waiting s key = match s !! key with Some q => orderedRequest q | None => [] end) by done.
  unfold spec_release. rewrite Hw. clear Hw. destruct (s !! key) as [[n ord]|] eqn:Es; cbn [orderedRequest].
  - destruct ord as [|ch rest]; [destruct (n =? 1)|]; intros [= <- <-]; cbn;
      rewrite ?app_nil_r; (split; [done|]); intros k.
    + unfold waiting. case_decide as Hk; subst; [by rewrite lookup_delete_eq|by rewrite lookup_delete_ne].
    + by rewrite waiting_insert.
    + by rewrite waiting_insert.
  - intros [= <- <-]. cbn. rewrite app_nil_r. split; [done|]. intros k.
    case_decide as Hk; [subst; unfold waiting; by rewrite Es|done].
Qed.

(** Without a cancellation in the queue, the queued requests are the active
    requests whose channel is open, and a request holds a slot only after its channel
    was closed. *)
Definition granted_inv (st : lpr_state) : Prop :=
  (forall i key, st.2 !! i = Some (key, RHolding) -> i ∈ closed st.1) /\
  (forall key i, i ∈ waiting (deref st.1) key <-> i ∈ active key st.2 /\ i ∉ closed st.1).

Lemma active_unique key key' ts i : i ∈ active key ts -> i ∈ active key' ts -> key = key'.
Proof. rewrite !elem_of_active. naive_solver. Qed.

Lemma waiting_NoDup lim cl ts s key : queue_inv lim cl ts key (s !! key) -> NoDup (waiting s key).
Proof.
  unfold waiting. destruct (s !! key) as [[n ord]|]; cbn; [naive_solver|intros _; apply NoDup_nil_2].
Qed.

Lemma granted_inv_release lim c ts i key pc :
  lpr_inv lim (c, ts) -> granted_inv (c, ts) ->
  ts !! i = Some (key, pc) -> i ∈ closed c ->
  granted_inv (releaseEndpoint c key, <[i := (key, RDone)]> ts).
Proof.
  intros (Hwf & _ & (_ & _ & Hq)) (Hh & Hw) Hi Hc. cbn [fst snd] in *.
  destruct (releaseEndpoint_refines c key Hwf) as (Hr & _ & _). symmetry in Hr.
  destruct (spec_release_waiting _ _ _ _ _ Hr) as (Hcl & Hwt). unfold granted_inv. cbn [fst snd].
  rewrite Hcl. split.
  - intros j k Hj. apply elem_of_app. left. destruct (decide (j = i)) as [-> | ?]; [done|].
    rewrite lookup_insert_ne in Hj by done. eauto.
  - intros k j. rewrite Hwt, active_done, elem_of_difference, elem_of_singleton, elem_of_app.
    pose proof (waiting_NoDup _ _ _ _ _ (Hq key)) as Hnd. case_decide as Hk.
    + subst k. specialize (Hw key j). destruct (waiting (deref c) key) as [|ch rest]; cbn in *.
      * set_solver.
      * apply NoDup_cons in Hnd. rewrite elem_of_cons in Hw. rewrite list_elem_of_singleton.
        rewrite drop_0. destruct (decide (j = ch)) as [-> | ?]; naive_solver.
    + assert (Ht : j ∈ take 1 (waiting (deref c) key) -> j ∈ active key ts).
      { intros Hj. apply (Hw key j). eapply elem_of_take in Hj as (n & Hn & _).
        by eapply list_elem_of_lookup_2. }
      rewrite Hw. split; [|naive_solver]. intros (Ha & Hnc).
      split_and!; [done|congruence|]. intros [? | Hj%Ht]; [done|].
      by apply Hk, (active_unique k key ts j).
Qed.

Lemma granted_inv_step lim st st' :
  lpr_inv lim st -> granted_inv st -> lpr_step false st st' -> granted_inv st'.
Proof.
  intros Hinv Hg Hstep. pose proof Hinv as (Hwf & Hel & (Hnd & Hdom & Hq)). pose proof Hg as (Hh & Hw).
  destruct Hstep as [c ts i key Hi | c ts i key Hi Hc | c ts i key Hi Hc | c ts i key Hi];
    cbn [fst snd] in *.
  - destruct (acquireEndpoint_refines c key i Hwf) as (Hr & _ & _). symmetry in Hr.
    pose proof (spec_acquire_waiting _ _ _ _ _ _ _ Hr) as Hcase.
    assert (Hic : i ∉ closed c) by (intros [? ?]%Hdom; congruence).
    assert (Hiw : forall k, i ∉ active k ts).
    { intros k (pc & ? & _)%elem_of_active. congruence. }
    unfold granted_inv. cbn [fst snd]. split.
    + intros j k Hj. destruct (decide (j = i)) as [-> | ?]; [by rewrite lookup_insert_eq in Hj|].
      rewrite lookup_insert_ne in Hj by done. apply Hh in Hj.
      destruct Hcase as [[-> _] | [-> _]]; set_solver.
    + intros k j. rewrite active_start by done. specialize (Hw k j). specialize (Hiw k).
      destruct Hcase as [[-> Hwt] | [-> Hwt]]; rewrite Hwt;
        repeat case_decide; subst; set_solver.
  - split; cbn [fst snd].
    + intros j k Hj. destruct (decide (j = i)) as [-> | ?]; [done|].
      rewrite lookup_insert_ne in Hj by done. eauto.
    + intros k j. by rewrite (active_hold k key ts i Hi).
  - destruct Hc as [? | Hc]; [done|]. by eapply granted_inv_release.
  - eapply granted_inv_release; eauto.
Qed.

(** The requests of an endpoint that hold a slot or were granted one. *)
Definition granted c (ts : requests) key : gset nat :=
  filter (fun i => i ∈ closed c) (active key ts).

Lemma granted_count lim st key :
  lpr_inv lim st -> granted_inv st ->
  Z.of_nat (size (granted st.1 st.2 key)) =
    match deref st.1 !! key with Some q => processedCounter q | None => 0 end.
Proof.
  intros (_ & _ & (_ & _ & Hq)) (_ & Hw). specialize (Hq key).
  pose proof (waiting_NoDup _ _ _ _ _ Hq) as Hnd.
  assert (Hsplit : active key st.2 = granted st.1 st.2 key ∪ list_to_set (waiting (deref st.1) key)).
  { apply set_eq. intros j. unfold granted.
    rewrite elem_of_union, elem_of_filter, elem_of_list_to_set, Hw.
    destruct (decide (j ∈ closed st.1)); naive_solver. }
  apply (f_equal size) in Hsplit. rewrite size_union in Hsplit.
  2:{ intros j. unfold granted. rewrite elem_of_filter, elem_of_list_to_set, Hw. naive_solver. }
  rewrite size_list_to_set in Hsplit by done. unfold waiting in Hsplit.
  destruct (deref st.1 !! key) as [[n ord]|]; cbn in *.
  - unfold zlen in Hq. lia.
  - rewrite Hq, size_empty in Hsplit. lia.
Qed.

(** ** The endpoint key *)

(** The bytes of the path, without separators. *)
Definition path_bytes (opts : Options) : list byte :=
  concat (Value <$> filter (fun opt => ID opt = URIPath) opts).

Lemma hash_path_bytes opts : hash opts = crc64_Write 0 (path_bytes opts).
Proof.
  unfold hash, path_bytes.
  assert (Hgen : forall l h, fold_left (fun h opt => if ID opt =? URIPath then crc64_Write h (Value opt) else h) l h =
            crc64_Write h (concat (Value <$> filter (fun opt => ID opt = URIPath) l))); [|apply Hgen].
  induction l as [|opt l IH]; intros h; cbn [fold_left].
  - cbn. unfold crc64_Write. cbn. by rewrite crc64_not_involutive.
  - rewrite IH. destruct (Z.eqb_spec (ID opt) URIPath) as [Heq | Hne].
    + rewrite filter_cons_True by done. cbn. apply crc64_Write_app.
    + by rewrite filter_cons_False.
Qed.

(** ** Properties *)

(** Endpoint accounting, in every interleaving of any number of requests with any
    cancellations: no channel is closed twice (a panic in Go); an endpoint has a queue
    exactly while it has active requests; its counter stays between 1 and the limit
    (so the 64-bit counter never overflows) and counter plus queue length is the number
    of active requests; requests queue only when the limit is reached.  When every
    request is done, no queue is left behind. *)
Theorem endpoint_accounting cancel_queued lim elim c ts :
  rtc (lpr_step cancel_queued) (New lim elim, ∅) (c, ts) ->
  NoDup (closed c) /\
  (forall key,
     match deref c !! key with
     | None => active key ts = ∅
     | Some q =>
         1 <= processedCounter q <= endpointLimit (New lim elim) /\
         processedCounter q + zlen (orderedRequest q) = Z.of_nat (size (active key ts)) /\
         (orderedRequest q <> [] -> processedCounter q = endpointLimit (New lim elim))
     end) /\
  ((forall i key pc, ts !! i = Some (key, pc) -> pc = RDone) -> endpointQueues c = ∅).
Proof.
  intros Hr%lpr_reach. destruct Hr as (_ & _ & (Hnd & _ & Hq)). cbn [fst snd] in *.
  split; [done|]. split.
  - intros key. specialize (Hq key). destruct (deref c !! key) as [[n ord]|]; cbn in *; naive_solver.
  - intros Hdone. apply map_empty. intros key. specialize (Hq key). rewrite deref_lookup in Hq.
    destruct (endpointQueues c !! key) as [p|]; [|done]. exfalso. cbn in Hq.
    assert (Hact : active key ts = ∅).
    { apply set_eq. intros i. rewrite elem_of_active. set_solver. }
    destruct (queueHeap c !!! p) as [n ord]. destruct Hq as (Hn & Hsum & _).
    rewrite Hact, size_empty in Hsum. unfold zlen in Hsum. lia.
Qed.

(** Three requests to one endpoint of limit one: the first holds the slot, the other
    two are queued in order. *)
Definition queued_state : lpr_state :=
  (acquireEndpoint (acquireEndpoint (acquireEndpoint (New 0 1) 5 0) 5 1) 5 2,
   <[2%nat := (5, RWaiting)]> (<[1%nat := (5, RWaiting)]> (<[0%nat := (5, RHolding)]> ∅))).

Lemma queued_state_reachable cq : rtc (lpr_step cq) (New 0 1, ∅) queued_state.
Proof.
  eapply rtc_l; [apply (step_start cq _ _ 0 5); reflexivity|].
  eapply rtc_l; [apply (step_granted cq _ _ 0 5); [reflexivity|]|].
  { apply (bool_decide_unpack _). vm_compute. exact I. }
  rewrite insert_insert_eq.
  eapply rtc_l; [apply (step_start cq _ _ 1 5); reflexivity|].
  eapply rtc_l; [apply (step_start cq _ _ 2 5); reflexivity|].
  apply rtc_refl.
Qed.

Lemma endpoint_accounting_witness : NoDup (closed queued_state.1).
Proof. exact (proj1 (endpoint_accounting true 0 1 _ _ (queued_state_reachable true))). Defined.

(** C39: The endpoint limit holds while no request is cancelled in the queue: at
    most [endpointLimit] requests of an endpoint hold a slot or were granted one, and
    none is kept waiting while a slot is free. *)
Theorem endpoint_limit lim elim c ts key :
  rtc (lpr_step false) (New lim elim, ∅) (c, ts) ->
  (forall i, ts !! i = Some (key, RHolding) -> i ∈ granted c ts key) /\
  Z.of_nat (size (granted c ts key)) <= endpointLimit (New lim elim) /\
  (forall i, i ∈ active key ts -> i ∉ closed c ->
     Z.of_nat (size (granted c ts key)) = endpointLimit (New lim elim)).
Proof.
  intros Hr. assert (Hinv : lpr_inv (endpointLimit (New lim elim)) (c, ts) /\ granted_inv (c, ts)).
  { pose proof (lpr_reach _ _ _ _ Hr) as Hi. split; [done|]. revert Hi.
    pattern (c, ts). eapply rtc_ind_r; [| |exact Hr].
    - intros _. split; cbn; [by intros ? ? ?|]. intros k i. unfold waiting. cbn.
      rewrite elem_of_active. set_solver.
    - intros st1 st2 Hr1 Hs IH Hi2. apply lpr_reach in Hr1.
      eapply granted_inv_step; [exact Hr1|by apply IH|done]. }
  destruct Hinv as (Hinv & Hg). pose proof (granted_count _ _ key Hinv Hg) as Hcnt.
  destruct Hinv as (_ & _ & (_ & _ & Hq)), Hg as (Hh & Hw). cbn [fst snd] in *. split_and!.
  - intros i Hi. unfold granted. rewrite elem_of_filter, elem_of_active. eauto.
  - rewrite Hcnt. specialize (Hq key). destruct (deref c !! key) as [[n ord]|]; cbn in *; [lia|].
    unfold New. cbn. case_match; [done|lia].
  - intros i Hi Hc. rewrite Hcnt. specialize (Hq key).
    assert (Hiw : i ∈ waiting (deref c) key) by (by apply Hw).
    unfold waiting in Hiw. destruct (deref c !! key) as [[n ord]|]; cbn in *; [|set_solver].
    destruct Hq as (_ & _ & Hfull & _). apply Hfull. intros ->. set_solver.
Qed.

Lemma endpoint_limit_witness :
  Z.of_nat (size (granted queued_state.1 queued_state.2 5)) <= 1.
Proof. exact (proj1 (proj2 (endpoint_limit 0 1 _ _ 5 (queued_state_reachable false)))). Defined.

(** The endpoint limit does not hold with cancellations: when a queued request that
    is not the first in the queue sees its context done, [acquireEndpoint] calls
    [releaseEndpoint] although it holds no slot, which grants the first queued request
    a slot beyond the limit.  Here two requests hold a slot of an endpoint whose
    limit is one. *)
Theorem endpoint_limit_exceeded_by_cancel :
  exists c ts, rtc (lpr_step true) (New 0 1, ∅) (c, ts) /\
    ts !! 0%nat = Some (5, RHolding) /\ ts !! 1%nat = Some (5, RHolding) /\
    endpointLimit c = 1.
Proof.
  eexists _, _. split.
  - etrans; [apply (queued_state_reachable true)|].
    eapply rtc_l; [eapply (step_cancel true _ _ 2 5); [reflexivity|by left]|].
    eapply rtc_l; [eapply (step_granted true _ _ 1 5); [reflexivity|]|apply rtc_refl].
    apply (bool_decide_unpack _). vm_compute. exact I.
  - split_and!; reflexivity.
Qed.
