(* ===== verification/Pool.v ===== *)
(** * The message pool (src/message/pool/pool.go)

    [Pool] recycles messages through a [sync.Pool] and counts what it put there.  A
    message carries an atomic lifetime: even while it is acquired, odd once it is
    released, so that its upper bits are the generation of the acquisition.  Each
    goroutine inside a pool operation is a program counter [pool_pc], and each atomic
    access (load, compare-and-swap, add) is one step, so that [pool_step] has every
    interleaving the memory model of the atomics allows.

    [sync.Pool] may drop any item at any time and [Get] may return nil whatever it
    holds: [step_drop] and [step_get_nil].  The contents of messages are modelled in
    [PoolMessage]; here a message is its lifetime and its hijacked flag. *)
From stdpp Require Import prelude gmap fin_maps list.
From Stdlib Require Import ZArith Lia.
From S2P Require Import Prelude.
#[local] Open Scope Z_scope.

(** The two atomics of a message. *)
Record message_state : Type := mkMessageState {
  lifetime : Z;
  hijacked : bool
}.

Record Pool : Type := mkPool {
  currentMessagesInPool : Z;
  messagePool : list nat;
  maxNumMessages : Z;
  messages : gmap nat message_state
}.

(** [pool.New]; [maxNumMessages] is a [uint32]. *)
Definition NewPool (maxNum : Z) : Pool := mkPool 0 [] maxNum ∅.

Implicit Types (p : Pool) (m : nat).

Definition message_of p m : message_state := default (mkMessageState 0 false) (messages p !! m).
Definition life p m : Z := lifetime (message_of p m).

Definition set_message p m (x : message_state) : Pool :=
  mkPool (currentMessagesInPool p) (messagePool p) (maxNumMessages p) (<[m := x]> (messages p)).
Definition set_count p (n : Z) : Pool :=
  mkPool n (messagePool p) (maxNumMessages p) (messages p).
Definition set_items p (l : list nat) : Pool :=
  mkPool (currentMessagesInPool p) l (maxNumMessages p) (messages p).

(** [m.lifetime.CompareAndSwap(old, new)]. *)
Definition lifetime_CAS p m (old new : Z) : Pool * bool :=
  if life p m =? old then (set_message p m (mkMessageState new (hijacked (message_of p m))), true)
  else (p, false).

(** [Message.Generation]. *)
Definition generation_of p m : Z := Z.shiftr (life p m) 1.

(** Where a goroutine is in [ReleaseMessage], [ReleaseMessageIfNotHijacked],
    [releaseMessage] and [AcquireMessage]. *)
Inductive pool_pc : Type :=
| RelLoad (m : nat)
| RelCAS (m : nat) (state : Z)
| NotHijackedCheck (m : nat) (generation : Z)
| NotHijackedCAS (m : nat) (state : Z)
| PutLoad (m : nat)
| PutCAS (m : nat) (v : Z)
| PutReset (m : nat)
| AcqGet
| AcqDec (m : nat)
| AcqInit (m : nat)
| AcqAdd (m : nat)
| PoolDone (result : option nat).

(** The next atomic access of a goroutine; [AcqGet] is in [pool_step], because the
    choice of [Get] is not determined. *)
Definition pool_exec p (pc : pool_pc) : Pool * pool_pc :=
  match pc with
  | RelLoad m =>
      let state := life p m in
      (p, if negb (Z.land state 1 =? 0) then PoolDone None else RelCAS m state)
  | RelCAS m state =>
      let '(p, ok) := lifetime_CAS p m state (Z.lor state 1) in
      (p, if ok then PutLoad m else PoolDone None)
  | NotHijackedCheck m generation =>
      let state := uint64 (Z.shiftl generation 1) in
      (p, if hijacked (message_of p m) then PoolDone None else NotHijackedCAS m state)
  | NotHijackedCAS m state =>
      let '(p, ok) := lifetime_CAS p m state (Z.lor state 1) in
      (p, if ok then PutLoad m else PoolDone None)
  | PutLoad m =>
      let v := currentMessagesInPool p in
      (p, if maxNumMessages p <=? v then PoolDone None else PutCAS m v)
  | PutCAS m v =>
      if currentMessagesInPool p =? v then (set_count p (v + 1), PutReset m) else (p, PutLoad m)
  | PutReset m => (set_items p (messagePool p ++ [m]), PoolDone None)
  | AcqDec m => (set_count p (currentMessagesInPool p - 1), AcqInit m)
  | AcqInit m => (set_message p m (mkMessageState (life p m) false), AcqAdd m)
  | AcqAdd m =>
      (set_message p m (mkMessageState (uint64 (life p m + 1)) (hijacked (message_of p m))),
       PoolDone (Some m))
  | AcqGet | PoolDone _ => (p, pc)
  end.

Definition pool_state : Type := Pool * list pool_pc.

(** Calls that a goroutine may make at any time, on a message that exists. *)
Definition entry p (pc : pool_pc) : Prop :=
  match pc with
  | RelLoad m | NotHijackedCheck m _ => is_Some (messages p !! m)
  | AcqGet => True
  | _ => False
  end.

Inductive pool_step : pool_state -> pool_state -> Prop :=
| step_call p ts pc :
    entry p pc -> pool_step (p, ts) (p, ts ++ [pc])
| step_exec p ts i pc p' pc' :
    ts !! i = Some pc -> pool_exec p pc = (p', pc') -> pool_step (p, ts) (p', <[i := pc']> ts)
| step_get p ts i l1 m l2 :
    ts !! i = Some AcqGet -> messagePool p = l1 ++ m :: l2 ->
    pool_step (p, ts) (set_items p (l1 ++ l2), <[i := AcqDec m]> ts)
| step_get_nil p ts i m :
    ts !! i = Some AcqGet -> messages p !! m = None ->
    pool_step (p, ts)
      (set_message p m (mkMessageState 0 false), <[i := PoolDone (Some m)]> ts)
| step_hijack p ts m :
    is_Some (messages p !! m) ->
    pool_step (p, ts) (set_message p m (mkMessageState (life p m) true), ts)
| step_drop p ts l1 m l2 :
    messagePool p = l1 ++ m :: l2 -> pool_step (p, ts) (set_items p (l1 ++ l2), ts).

(** ** The places a message can be in *)

Definition tsum (f : pool_pc -> nat) (ts : list pool_pc) : nat := sum_list_with f ts.

Lemma tsum_app f ts ts' : tsum f (ts ++ ts') = (tsum f ts + tsum f ts')%nat.
Proof. apply sum_list_with_app. Qed.

Lemma tsum_insert f ts i pc pc' :
  ts !! i = Some pc -> (tsum f (<[i := pc']> ts) + f pc = tsum f ts + f pc')%nat.
Proof.
  intros Hi. rewrite insert_take_drop by eauto using lookup_lt_Some.
  rewrite <-(take_drop_middle ts i pc Hi) at 3. rewrite !tsum_app. unfold tsum. cbn. lia.
Qed.

(** A goroutine that has taken [m] over: it won the release of [m], or [Get] gave
    it [m] and it has not handed it out yet. *)
Definition carries m (pc : pool_pc) : nat :=
  match pc with
  | PutLoad m' | PutCAS m' _ | PutReset m' | AcqDec m' | AcqInit m' | AcqAdd m' =>
      if decide (m' = m) then 1 else 0
  | _ => 0
  end.

(** A goroutine between the counter and the [sync.Pool]. *)
Definition counted (pc : pool_pc) : nat :=
  match pc with PutReset _ | AcqDec _ => 1 | _ => 0 end.

Definition occurs m (l : list nat) : nat := length (filter (fun x => x = m) l).

Definition places m (st : pool_state) : nat :=
  (occurs m (messagePool st.1) + tsum (carries m) st.2)%nat.

(** What a goroutine remembers between two accesses. *)
Definition pc_ok (maxNum : Z) (pc : pool_pc) : Prop :=
  match pc with
  | RelCAS _ state | NotHijackedCAS _ state => Z.odd state = false
  | PutCAS _ v => v < maxNum
  | _ => True
  end.

(** A message is in one place at most, and in none while it is acquired; what is in the
    pool was counted, and the counter respects the maximum. *)
Definition pool_inv (st : pool_state) : Prop :=
  (forall m, (places m st <= if Z.odd (life st.1 m) then 1 else 0)%nat) /\
  Z.of_nat (length (messagePool st.1) + tsum counted st.2) <= currentMessagesInPool st.1 /\
  currentMessagesInPool st.1 <= maxNumMessages st.1 /\
  Forall (pc_ok (maxNumMessages st.1)) st.2.

Lemma occurs_app m l l' : occurs m (l ++ l') = (occurs m l + occurs m l')%nat.
Proof. unfold occurs. by rewrite filter_app, length_app. Qed.

Lemma occurs_cons m x l : occurs m (x :: l) = ((if decide (x = m) then 1 else 0) + occurs m l)%nat.
Proof. unfold occurs. rewrite filter_cons. by case_decide. Qed.

Lemma life_set_message p m x m' :
  life (set_message p m x) m' = if decide (m' = m) then lifetime x else life p m'.
Proof.
  unfold life, message_of, set_message. cbn.
  case_decide as Hm; [subst; by rewrite lookup_insert_eq|by rewrite lookup_insert_ne].
Qed.

Lemma odd_lor_1 z : Z.odd (Z.lor z 1) = true.
Proof. rewrite <-Z.bit0_odd, Z.lor_spec. apply orb_true_r. Qed.

Lemma odd_uint64 z : Z.odd (uint64 z) = Z.odd z.
Proof.
  unfold uint64. rewrite <-!Z.bit0_odd. rewrite Z.mod_pow2_bits_low by lia. done.
Qed.

Lemma land_1_odd z : negb (Z.land z 1 =? 0) = Z.odd z.
Proof.
  change 1 with (Z.ones 1). rewrite Z.land_ones by lia. rewrite Zmod_odd. by destruct (Z.odd z).
Qed.

Ltac pool_cbn :=
  cbn [messagePool set_items set_count set_message currentMessagesInPool maxNumMessages
       carries counted pc_ok fst snd] in *.

Section Exec.
(** [rest] and [crest] are the contributions of the other goroutines. *)
Context (rest : nat -> nat) (crest : nat).

Definition exec_inv (maxNum : Z) p (pc : pool_pc) : Prop :=
  maxNumMessages p = maxNum /\ pc_ok maxNum pc /\
  (forall m, (occurs m (messagePool p) + (rest m + carries m pc) <= if Z.odd (life p m) then 1 else 0)%nat) /\
  Z.of_nat (length (messagePool p) + (crest + counted pc)) <= currentMessagesInPool p /\
  currentMessagesInPool p <= maxNum.

(** A won compare-and-swap on an even lifetime takes the message over. *)
Lemma lifetime_CAS_inv maxNum p m state pc p' ok :
  exec_inv maxNum p pc -> (forall m', carries m' pc = 0%nat) -> counted pc = 0%nat ->
  Z.odd state = false -> lifetime_CAS p m state (Z.lor state 1) = (p', ok) ->
  exec_inv maxNum p' (if ok then PutLoad m else PoolDone None).
Proof.
  intros (Hm & _ & Hpl & Hc & Hmax) Hca Hco Hev. unfold lifetime_CAS.
  destruct (Z.eqb_spec (life p m) state) as [Hl | Hl]; intros [= <- <-];
    unfold exec_inv; cbn [maxNumMessages messagePool currentMessagesInPool set_message counted pc_ok];
    rewrite Hco in Hc; (split_and!; [done|done| |lia|lia]); intros m'; specialize (Hpl m');
    rewrite Hca in Hpl; cbn [carries].
  - rewrite life_set_message. destruct (decide (m' = m)) as [-> | Hne].
    + rewrite decide_True by done. cbn. rewrite odd_lor_1. rewrite Hl, Hev in Hpl. lia.
    + rewrite decide_False by congruence. lia.
  - lia.
Qed.

Lemma pool_exec_inv maxNum p pc p' pc' :
  exec_inv maxNum p pc -> pool_exec p pc = (p', pc') -> exec_inv maxNum p' pc'.
Proof.
  intros Hinv Hex. pose proof Hinv as (Hm & Hok & Hpl & Hc & Hmax).
  destruct pc as [m|m state|m g|m state|m|m v|m| |m|m|m|r]; cbn [pool_exec] in Hex.
  - rewrite land_1_odd in Hex. destruct (Z.odd (life p m)) eqn:Ho; simplify_eq; by split_and!.
  - destruct (lifetime_CAS _ _ _ _) as [q ok] eqn:E. simplify_eq.
    by eapply lifetime_CAS_inv.
  - destruct (hijacked (message_of p m)); simplify_eq; [by split_and!|].
    split_and!; try done. cbn. rewrite odd_uint64, Z.shiftl_mul_pow2 by lia.
    rewrite Z.odd_mul. apply andb_false_r.
  - destruct (lifetime_CAS _ _ _ _) as [q ok] eqn:E. simplify_eq.
    by eapply lifetime_CAS_inv.
  - destruct (maxNumMessages p <=? currentMessagesInPool p) eqn:E; simplify_eq.
    + split_and!; try done. intros m'. specialize (Hpl m'). pool_cbn. lia.
    + split_and!; try done. cbn. lia.
  - destruct (Z.eqb_spec (currentMessagesInPool p) v) as [Hv | Hv]; simplify_eq.
    + unfold exec_inv. pool_cbn. split_and!; [done|done|done|lia|lia].
    + by split_and!.
  - simplify_eq. unfold exec_inv. pool_cbn.
    split_and!; [done|done| |rewrite length_app; cbn; lia|lia].
    intros m'. specialize (Hpl m'). rewrite occurs_app, occurs_cons. change (occurs m' []) with 0%nat.
    change (life (set_items p (messagePool p ++ [m])) m') with (life p m'). lia.
  - by simplify_eq.
  - simplify_eq. unfold exec_inv. pool_cbn. split_and!; [done|done|done|lia|lia].
  - simplify_eq. unfold exec_inv. split_and!; try done. intros m'. rewrite life_set_message.
    specialize (Hpl m'). case_decide as Hd; [subst m'|]; done.
  - simplify_eq. unfold exec_inv. split_and!; try done. intros m'. rewrite life_set_message.
    specialize (Hpl m'). pool_cbn. destruct (decide (m' = m)) as [-> | Hne].
    + rewrite decide_True in Hpl by done. cbn [lifetime]. rewrite odd_uint64, Z.odd_add. cbn [Z.odd xorb].
      destruct (Z.odd (life p m)); cbn in *; lia.
    + rewrite decide_False in Hpl by congruence. lia.
  - by simplify_eq.
Qed.
End Exec.

Lemma tsum_le f ts i pc : ts !! i = Some pc -> (f pc <= tsum f ts)%nat.
Proof.
  intros Hi. rewrite <-(take_drop_middle ts i pc Hi), tsum_app. unfold tsum. cbn. lia.
Qed.

Lemma tsum_replace f ts i pc pc' :
  ts !! i = Some pc -> tsum f (<[i := pc']> ts) = (tsum f ts - f pc + f pc')%nat.
Proof.
  intros Hi. pose proof (tsum_insert f ts i pc pc' Hi). pose proof (tsum_le f ts i pc Hi). lia.
Qed.

(** The invariant of the system is the invariant of each goroutine with the others. *)
Definition others (f : pool_pc -> nat) (ts : list pool_pc) (pc : pool_pc) : nat := (tsum f ts - f pc)%nat.

Lemma pool_inv_split p ts i pc :
  pool_inv (p, ts) -> ts !! i = Some pc ->
  exec_inv (fun m => others (carries m) ts pc) (others counted ts pc) (maxNumMessages p) p pc.
Proof.
  intros (Hpl & Hc & Hmax & Hok) Hi. unfold exec_inv, others. cbn [fst snd] in *.
  pose proof (tsum_le counted ts i pc Hi). split_and!; [done| | |lia|lia].
  - by eapply Forall_lookup_1 in Hok.
  - intros m. specialize (Hpl m). unfold places in Hpl. cbn [fst snd] in Hpl.
    pose proof (tsum_le (carries m) ts i pc Hi). lia.
Qed.

Lemma pool_inv_join p ts i pc p' pc' :
  pool_inv (p, ts) -> ts !! i = Some pc ->
  exec_inv (fun m => others (carries m) ts pc) (others counted ts pc) (maxNumMessages p) p' pc' ->
  pool_inv (p', <[i := pc']> ts).
Proof.
  intros (_ & _ & _ & Hok) Hi (Hm & Hpc & Hpl & Hc & Hmax). unfold pool_inv, places, others in *.
  cbn [fst snd] in *. rewrite Hm. split_and!; [| |done|by apply Forall_insert].
  - intros m. rewrite (tsum_replace _ _ _ _ _ Hi). apply Hpl.
  - rewrite (tsum_replace _ _ _ _ _ Hi). lia.
Qed.

Lemma pool_inv_init maxNum : 0 <= maxNum -> pool_inv (NewPool maxNum, []).
Proof. intros Hm. split_and!; cbn; done. Qed.

(** Removing an item from the [sync.Pool] and giving it to nobody. *)
Lemma occurs_remove m x l1 l2 :
  occurs m (l1 ++ x :: l2) = ((if decide (x = m) then 1 else 0) + occurs m (l1 ++ l2))%nat.
Proof. rewrite !occurs_app, occurs_cons. lia. Qed.

Lemma occurs_twice m l i j :
  l !! i = Some m -> l !! j = Some m -> i <> j -> (2 <= occurs m l)%nat.
Proof.
  intros Hi Hj Hne. rewrite <-(take_drop_middle l i m Hi) in Hj |- *.
  rewrite occurs_remove, decide_True by done.
  assert (Hel : m ∈ take i l ++ drop (S i) l).
  { apply elem_of_app. rewrite lookup_app in Hj.
    destruct (take i l !! j) as [x|] eqn:E; [simplify_eq; left; by eapply list_elem_of_lookup_2|].
    right. apply lookup_cons_Some in Hj as [[Hz _] | [Hz Hx]]; [|by eapply list_elem_of_lookup_2].
    apply lookup_ge_None in E. rewrite length_take in *. apply lookup_lt_Some in Hi. lia. }
  apply list_elem_of_split in Hel as (l1 & l2 & ->). rewrite occurs_remove, decide_True by done. lia.
Qed.

Lemma pool_inv_step st st' : pool_inv st -> pool_step st st' -> pool_inv st'.
Proof.
  intros Hinv Hstep.
  destruct Hstep as [p ts pc He|p ts i pc p' pc' Hi Hex|p ts i l1 m l2 Hi Hl|p ts i m Hi Hm|p ts m Hm|p ts l1 m l2 Hl].
  - destruct Hinv as (Hpl & Hc & Hmax & Hok). unfold pool_inv, places in *. pool_cbn.
    assert (Hz : (forall m, carries m pc = 0%nat) /\ counted pc = 0%nat /\ pc_ok (maxNumMessages p) pc)
      by (by destruct pc).
    destruct Hz as (Hz & Hz' & Hpc). rewrite tsum_app. cbn [tsum sum_list_with]. split_and!; [|lia|lia|].
    + intros m. specialize (Hpl m). rewrite tsum_app. cbn. rewrite Hz. lia.
    + apply Forall_app. split; [done|]. by apply Forall_singleton.
  - eapply pool_inv_join; [done|done|]. eapply pool_exec_inv; [by eapply pool_inv_split|done].
  - eapply pool_inv_join; [done|done|].
    destruct (pool_inv_split _ _ _ _ Hinv Hi) as (Hmx & _ & Hpl & Hc & Hmax). rewrite Hl in *.
    unfold exec_inv. pool_cbn. rewrite length_app in *. cbn [length] in Hc.
    split_and!; [done|done| |lia|lia]. intros m'. specialize (Hpl m'). rewrite occurs_remove in Hpl.
    change (life (set_items p (l1 ++ l2)) m') with (life p m'). lia.
  - eapply pool_inv_join; [done|done|].
    destruct (pool_inv_split _ _ _ _ Hinv Hi) as (Hmx & _ & Hpl & Hc & Hmax).
    unfold exec_inv. pool_cbn. split_and!; [done|done| |lia|lia].
    intros m'. specialize (Hpl m'). rewrite life_set_message.
    case_decide as Hd; [subst|done]. unfold life, message_of in Hpl. by rewrite Hm in Hpl.
  - destruct Hinv as (Hpl & Hc & Hmax & Hok). unfold pool_inv, places in *. pool_cbn.
    split_and!; [|done|done|done].
    intros m'. rewrite life_set_message. case_decide; [subst|]; apply Hpl.
  - destruct Hinv as (Hpl & Hc & Hmax & Hok). unfold pool_inv, places in *. pool_cbn. rewrite Hl in *.
    rewrite length_app in *. cbn [length] in Hc. split_and!; [|lia|done|done].
    intros m'. specialize (Hpl m'). rewrite occurs_remove in Hpl.
    change (life (set_items p (l1 ++ l2)) m') with (life p m'). lia.
Qed.

(** A pool whose counter is at the maximum while nothing is in it, or on the way from
    or to it. *)
Definition stuck (st : pool_state) : Prop :=
  messagePool st.1 = [] /\ currentMessagesInPool st.1 = maxNumMessages st.1 /\
  tsum counted st.2 = 0%nat /\ Forall (pc_ok (maxNumMessages st.1)) st.2.

Lemma stuck_exec p pc p' pc' :
  messagePool p = [] -> currentMessagesInPool p = maxNumMessages p ->
  pc_ok (maxNumMessages p) pc -> counted pc = 0%nat -> pool_exec p pc = (p', pc') ->
  messagePool p' = [] /\ currentMessagesInPool p' = maxNumMessages p' /\
  maxNumMessages p' = maxNumMessages p /\ pc_ok (maxNumMessages p) pc' /\ counted pc' = 0%nat.
Proof.
  intros Hl Hc Hok Hco.
  assert (Heven : forall g, Z.odd (uint64 (Z.shiftl g 1)) = false).
  { intros g. rewrite odd_uint64, Z.shiftl_mul_pow2 by lia. rewrite Z.odd_mul. apply andb_false_r. }
  destruct pc as [m|m state|m g|m state|m|m v|m| |m|m|m|r]; cbn [pool_exec]; pool_cbn; try done;
    unfold lifetime_CAS; try rewrite land_1_odd;
    repeat case_match; intros; simplify_eq; pool_cbn; try done; lia.
Qed.

Lemma stuck_step st st' : stuck st -> pool_step st st' -> stuck st'.
Proof.
  intros (Hl & Hc & Hs & Hok) Hstep.
  destruct Hstep as [p ts pc He|p ts i pc p' pc' Hi Hex|p ts i l1 m l2 Hi Hp|p ts i m Hi Hm|p ts m Hm|p ts l1 m l2 Hp];
    unfold stuck in *; pool_cbn; try (rewrite Hl in Hp; by destruct l1).
  - split_and!; [done|done| |].
    + rewrite tsum_app, Hs. by destruct pc.
    + apply Forall_app. split; [done|]. apply Forall_singleton. by destruct pc.
  - pose proof (tsum_le counted ts i pc Hi) as Hle.
    destruct (stuck_exec p pc p' pc') as (H1 & H2 & H3 & H4 & H5); [done|done| |lia|done|].
    { by eapply Forall_lookup_1 in Hok. }
    rewrite (tsum_replace _ _ _ _ _ Hi), H3 in *. split_and!; [done|done|lia|by apply Forall_insert].
  - rewrite (tsum_replace _ _ _ _ _ Hi). split_and!; [done|done|cbn; lia|by apply Forall_insert].
  - done.
Qed.

Lemma pool_reach maxNum st :
  0 <= maxNum -> rtc pool_step (NewPool maxNum, []) st -> pool_inv st /\ maxNumMessages st.1 = maxNum.
Proof.
  intros Hm Hr. pattern st. eapply rtc_ind_r; [by split; [apply pool_inv_init|]| |exact Hr].
  intros st1 st2 _ Hs (Hi & Hmx). split; [by eapply pool_inv_step|].
  destruct Hs as [?|p ts i pc p' pc' Hp Hex|?|?|?|?]; cbn in *; try done.
  pose proof (pool_inv_split _ _ _ _ Hi Hp) as Hsp.
  destruct (pool_exec_inv _ _ _ _ _ _ _ Hsp Hex) as (Heq & _). congruence.
Qed.

(** ** Properties *)

(** C40: Ownership, in every interleaving of any number of goroutines that acquire,
    release (also repeatedly, or with a stale generation) and hijack messages, with
    any items dropped by [sync.Pool]: a message is at most once in the pool; a message in
    the pool is released (odd lifetime) and no goroutine is handling it; two goroutines
    never handle the same message; an acquired message (even lifetime) is neither in the
    pool nor being handled, so it is never handed out twice; and the pool never
    holds more than [maxNumMessages].  A release with a generation that is not the
    current one does nothing. *)
Theorem pool_exclusive maxNum p ts :
  0 <= maxNum -> rtc pool_step (NewPool maxNum, []) (p, ts) ->
  NoDup (messagePool p) /\
  (forall m, m ∈ messagePool p -> Z.odd (life p m) = true /\ tsum (carries m) ts = 0%nat) /\
  (forall m, (tsum (carries m) ts <= 1)%nat) /\
  (forall m, Z.odd (life p m) = false -> m ∉ messagePool p /\ tsum (carries m) ts = 0%nat) /\
  zlen (messagePool p) <= maxNum /\
  (forall m g, 0 <= g < 2 ^ 63 -> generation_of p m <> g ->
     pool_exec p (NotHijackedCAS m (uint64 (Z.shiftl g 1))) = (p, PoolDone None)).
Proof.
  intros Hm Hr. destruct (pool_reach _ _ Hm Hr) as ((Hpl & Hc & Hmax & _) & Hmx).
  unfold places in Hpl. cbn [fst snd] in *.
  assert (Hin : forall m, m ∈ messagePool p -> (1 <= occurs m (messagePool p))%nat).
  { intros m (l1 & l2 & ->)%list_elem_of_split. rewrite occurs_remove, decide_True by done. lia. }
  split_and!.
  - apply NoDup_alt. intros i j x Hi Hj. destruct (decide (i = j)) as [|Hne]; [done|].
    exfalso. pose proof (occurs_twice _ _ _ _ Hi Hj Hne). specialize (Hpl x).
    destruct (Z.odd (life p x)); lia.
  - intros m Hmem%Hin. specialize (Hpl m). destruct (Z.odd (life p m)); [split; [done|]|]; lia.
  - intros m. specialize (Hpl m). destruct (Z.odd (life p m)); lia.
  - intros m Ho. specialize (Hpl m). rewrite Ho in Hpl. split; [|lia].
    intros Hmem%Hin. lia.
  - unfold zlen. lia.
  - intros m g Hg Hgen. cbn. unfold lifetime_CAS.
    destruct (Z.eqb_spec (life p m) (uint64 (Z.shiftl g 1))) as [Heq | Hne]; [|done].
    destruct Hgen. unfold generation_of. rewrite Heq. unfold uint64.
    rewrite Z.shiftl_mul_pow2, Z.shiftr_div_pow2 by lia. rewrite Z.mod_small by lia.
    by rewrite Z.div_mul by lia.
Qed.

(** The life of one message in a pool of capacity one: acquired, released, dropped by
    the [sync.Pool]. *)
Definition released_state : pool_state :=
  (mkPool 1 [0%nat] 1 {[0%nat := mkMessageState 1 false]}, [PoolDone (Some 0%nat); PoolDone None]).

Lemma released_state_reachable : rtc pool_step (NewPool 1, []) released_state.
Proof.
  eapply rtc_l; [apply (step_call _ _ AcqGet); exact I|].
  eapply rtc_l; [apply (step_get_nil _ _ 0 0); reflexivity|].
  eapply rtc_l; [apply (step_call _ _ (RelLoad 0)); eexists; reflexivity|].
  do 5 (eapply rtc_l; [eapply (step_exec _ _ 1); reflexivity|]).
  vm_compute. apply rtc_refl.
Qed.

Lemma pool_exclusive_witness : NoDup (messagePool released_state.1).
Proof.
  refine (proj1 (pool_exclusive 1 _ _ _ released_state_reachable)). lia.
Defined.

(** The counter is not corrected when [sync.Pool] drops an item: once a pool of
    capacity one has recycled a message that the runtime then dropped, no message is
    ever put into the pool again, whatever is acquired and released afterwards. *)
Theorem pool_stuck_after_drop :
  exists st, rtc pool_step (NewPool 1, []) st /\
    forall st', rtc pool_step st st' ->
      messagePool st'.1 = [] /\ currentMessagesInPool st'.1 = maxNumMessages st'.1.
Proof.
  exists (set_items released_state.1 [], released_state.2). split.
  - eapply rtc_r; [apply released_state_reachable|]. apply (step_drop _ _ [] 0%nat []). reflexivity.
  - intros st' Hr. assert (Hst : stuck st'); [|by destruct Hst as (? & ? & _)].
    pattern st'. eapply rtc_ind_r; [| |exact Hr].
    + split_and!; try reflexivity. by repeat constructor.
    + intros st1 st2 _ Hs Hi. by eapply stuck_step.
Qed.
