(* ===== verification/Client.v ===== *)
(** * State kept by a client connection (src/net/client)

    - [GetUnknownCriticalOptionsWithQBlock] (criticalOptions.go): which options of a
      received message force it to be rejected;
    - [Module Tokenless] (tokenlessHandler.go): the one outstanding request without a
      token, as a state machine whose registrations are numbered (the code compares the
      addresses of the registered handlers);
    - [Module Reader] (receivedMessageReader.go): the loop that takes received messages
      from the queue and that a blocked handler may have replaced by a new loop. *)
From stdpp Require Import prelude list sorting.
From Stdlib Require Import ZArith Lia String.
From S2P Require Import Prelude OptionCodec Options.
#[local] Open Scope Z_scope.

(** ** Critical options *)

Definition is_known (enabled : bool) (opt : Option) : bool :=
  let isDisabledQ := negb enabled && ((ID opt =? QBlock1) || (ID opt =? QBlock2)) in
  match table_lookup CoapOptionDefs (ID opt) with
  | Some _ => negb isDisabledQ && VerifyOptLen (ID opt) (zlen (Value opt))
  | None => false
  end.

(** The loop; [found] is [unknownCriticalOpts] and [last] is [lastUnknownCriticalOpt]. *)
Fixpoint unknown_loop (enabled : bool) (options : Options) (found : list Z) (last : Z) : list Z :=
  match options with
  | [] => found
  | opt :: options =>
      if ID opt mod 2 =? 0 then unknown_loop enabled options found last
      else if is_known enabled opt then unknown_loop enabled options found last
      else if (0 <? zlen found) && (ID opt =? last) then unknown_loop enabled options found last
      else unknown_loop enabled options (found ++ [ID opt]) (ID opt)
  end.

Definition GetUnknownCriticalOptionsWithQBlock (options : Options) (enabled : bool) : list Z :=
  unknown_loop enabled options [] 0.

Definition GetUnknownCriticalOptions (options : Options) : list Z :=
  GetUnknownCriticalOptionsWithQBlock options false.

(** [strings.Join(parts, sep)]. *)
Fixpoint Join (parts : list string) (sep : string) : string :=
  match parts with
  | [] => ""
  | [x] => x
  | x :: parts => (x ++ sep ++ Join parts sep)%string
  end.

Definition FormatUnknownCriticalOptionsDiagnostic (unknownCriticalOpts : list Z) : string :=
  ("unknown critical option(s): " ++ Join (FormatInt <$> unknownCriticalOpts) ",")%string.

(** Critical and not understood. *)
Definition rejected (enabled : bool) (opt : Option) : Prop :=
  ID opt mod 2 <> 0 /\ is_known enabled opt = false.

#[export] Instance rejected_dec enabled opt : Decision (rejected enabled opt).
Proof. unfold rejected. apply _. Defined.

(** The loop keeps its result strictly increasing, with [last] its last element. *)
Lemma unknown_loop_spec enabled options : forall found last,
  sorted_opts options ->
  StronglySorted Z.lt found ->
  (found = [] \/ exists l, found = l ++ [last]) ->
  Forall (fun x => Forall (fun o => x <= ID o) options) found ->
  let r := unknown_loop enabled options found last in
  StronglySorted Z.lt r /\
  forall x, x ∈ r <-> x ∈ found \/ exists o, o ∈ options /\ rejected enabled o /\ ID o = x.
Proof.
  induction options as [|opt options IH]; intros found last Hs Hf Hl Hle; cbn [unknown_loop].
  { split; [done|]. set_solver. }
  apply StronglySorted_inv in Hs as (Hs & Hopt).
  assert (Hle' : Forall (fun x => Forall (fun o => x <= ID o) options) found).
  { eapply Forall_impl; [exact Hle|]. cbn. intros x Hx. by apply Forall_cons in Hx as (_ & ?). }
  assert (Hskip : ~ rejected enabled opt \/ ID opt ∈ found ->
            let r := unknown_loop enabled options found last in
            StronglySorted Z.lt r /\
            forall x, x ∈ r <-> x ∈ found \/ exists o, o ∈ opt :: options /\ rejected enabled o /\ ID o = x).
  { intros Hno. destruct (IH found last Hs Hf Hl Hle') as (H1 & H2). split; [done|].
    intros x. rewrite H2. split; [set_solver|]. intros [? | (o & [-> | Ho]%elem_of_cons & Hr & <-)]; [by left| |eauto].
    left. destruct Hno; done. }
  destruct (Z.eqb_spec (ID opt mod 2) 0) as [He | He]; [apply Hskip; left; by intros []|].
  destruct (is_known enabled opt) eqn:Ek; [apply Hskip; left; intros []; congruence|].
  destruct (_ && _) eqn:Hdup.
  - apply Hskip. right. apply andb_prop in Hdup as (Hz & Heq%Z.eqb_eq). rewrite Heq.
    destruct Hl as [-> | (l & ->)]; [done|set_solver].
  - assert (Hlt : forall x, x ∈ found -> x < ID opt).
    { intros x Hx. destruct Hl as [-> | (l & ->)]; [set_solver|].
      assert (Hle_last : forall y, y ∈ l ++ [last] -> y <= ID opt).
      { intros y Hy. rewrite Forall_forall in Hle. by apply Hle, Forall_cons in Hy as (? & _). }
      assert (Hne : ID opt <> last).
      { intros Heq. rewrite Heq, Z.eqb_refl, andb_true_r in Hdup. rewrite zlen_app in Hdup.
        change (zlen [last]) with 1 in Hdup. pose proof (zlen_nonneg l). lia. }
      pose proof (Hle_last last ltac:(set_solver)).
      apply elem_of_app in Hx as [Hx | ->%list_elem_of_singleton]; [|lia].
      pose proof (StronglySorted_app_1_elem_of _ _ _ _ _ Hf Hx (list_elem_of_here last [])). lia. }
    destruct (IH (found ++ [ID opt]) (ID opt) Hs) as (H1 & H2).
    + apply StronglySorted_app_2; [|done|repeat constructor].
      intros x y Hx ->%list_elem_of_singleton. by apply Hlt.
    + right. eauto.
    + apply Forall_app. split; [done|]. by apply Forall_singleton.
    + split; [done|]. intros x. rewrite H2. unfold rejected. set_solver.
Qed.

(** ** The tokenless request *)

Module Tokenless.

Inductive register_error : Type := ErrTokenlessRequestsBlocked | ErrKeyAlreadyExists.

Section Handler.
Context {H : Type}.

(** [handler] is the address of the registered handler and the handler; [next] is the
    address of the next registration. *)
Record TokenlessHandler : Type := mkTokenless {
  handler : option (nat * H);
  consumed : bool;
  blocked : bool;
  next : nat
}.

Definition zero : TokenlessHandler := mkTokenless None false false 0.

Implicit Types (s : TokenlessHandler).

Definition Register s (h : H) : TokenlessHandler * (nat + register_error) :=
  if blocked s then (s, inr ErrTokenlessRequestsBlocked) else
  match handler s with
  | Some _ => (s, inr ErrKeyAlreadyExists)
  | None => (mkTokenless (Some (next s, h)) false (blocked s) (S (next s)), inl (next s))
  end.

(** The function that [Register] returned for the registration [reg]; the flag says
    whether it was the current one. *)
Definition cleanup s (reg : nat) (completed : bool) : TokenlessHandler * bool :=
  match handler s with
  | Some (r, _) =>
      if (r =? reg)%nat then (mkTokenless None (consumed s) (negb completed) (next s), true)
      else (s, false)
  | None => (s, false)
  end.

Definition Load s (remove : bool) : TokenlessHandler * option H :=
  match handler s with
  | None => (s, None)
  | Some (_, h) =>
      if consumed s then (s, None)
      else (mkTokenless (handler s) (if remove then true else consumed s) (blocked s) (next s), Some h)
  end.

(** *** Sequences of calls *)

Inductive call : Type :=
| CRegister (h : H)
| CCleanup (reg : nat) (completed : bool)
| CLoad (remove : bool).

(** What a call did: [EConsumed r] is a [Load(true)] that returned the handler of the
    registration [r]. *)
Inductive event : Type :=
| ERegistered (r : nat)
| ERefused (e : register_error)
| ECleaned (r : nat) (completed : bool)
| EConsumed (r : nat)
| EOther.

Definition step s (c : call) : TokenlessHandler * event :=
  match c with
  | CRegister h =>
      let '(s', r) := Register s h in
      (s', match r with inl r => ERegistered r | inr e => ERefused e end)
  | CCleanup reg completed =>
      let '(s', ok) := cleanup s reg completed in
      (s', if ok then ECleaned reg completed else EOther)
  | CLoad remove =>
      let '(s', r) := Load s remove in
      (s', match r, handler s with Some _, Some (reg, _) => if remove then EConsumed reg else EOther | _, _ => EOther end)
  end.

Fixpoint run s (cs : list call) : TokenlessHandler * list event :=
  match cs with
  | [] => (s, [])
  | c :: cs => let '(s, e) := step s c in let '(s, es) := run s cs in (s, e :: es)
  end.

(** The events of a run split with its calls. *)
Lemma run_split cs : forall s es1 es2,
  (run s cs).2 = es1 ++ es2 ->
  exists cs1 cs2, (run s cs1).2 = es1 /\ (run (run s cs1).1 cs2).2 = es2.
Proof.
  induction cs as [|c cs IH]; intros s es1 es2; cbn.
  - intros Heq. symmetry in Heq. apply app_eq_nil in Heq as [-> ->]. by exists [], [].
  - destruct (step s c) as [s1 e] eqn:Es, (run s1 cs) as [s2 es] eqn:Er. cbn.
    destruct es1 as [|e1 es1]; cbn.
    + intros <-. exists [], (c :: cs). cbn. rewrite Es. cbn. by rewrite Er.
    + intros [= <- Heq]. destruct (IH s1 es1 es2) as (cs1 & cs2 & H1 & H2); [by rewrite Er|].
      exists (c :: cs1), cs2. cbn. rewrite Es. destruct (run s1 cs1) as [s3 es3]. cbn in *. by subst.
Qed.

Lemma run_cons s cs e es :
  (run s cs).2 = e :: es -> exists c cs', (step s c).2 = e /\ (run (step s c).1 cs').2 = es.
Proof.
  destruct cs as [|c cs]; cbn; [done|]. destruct (step s c) as [s1 e1] eqn:Es, (run s1 cs) as [s2 es1] eqn:Er.
  cbn. intros [= <- <-]. exists c, cs. rewrite Es. cbn. by rewrite Er.
Qed.

(** A blocked handler stays blocked and does nothing. *)
Lemma run_blocked cs : forall s,
  handler s = None -> blocked s = true ->
  Forall (fun e => e = EOther \/ e = ERefused ErrTokenlessRequestsBlocked) (run s cs).2.
Proof.
  induction cs as [|c cs IH]; intros s Hh Hb; cbn; [by constructor|].
  assert (Hstep : (step s c).1 = s /\ ((step s c).2 = EOther \/ (step s c).2 = ERefused ErrTokenlessRequestsBlocked)).
  { destruct c; cbn; unfold Register, cleanup, Load; rewrite ?Hb, ?Hh; cbn; eauto. }
  destruct Hstep as (H1 & H2). destruct (step s c) as [s1 e] eqn:Es. cbn in *. subst s1.
  specialize (IH s Hh Hb). destruct (run s cs). cbn in *. by constructor.
Qed.

(** A step while the registration [r] is current: it is cleaned up, or stays. *)
Lemma step_current s c r h :
  handler s = Some (r, h) -> blocked s = false ->
  (exists b, (step s c).2 = ECleaned r b /\ handler (step s c).1 = None /\ blocked (step s c).1 = negb b) \/
  ((forall r', (step s c).2 <> ERegistered r') /\ handler (step s c).1 = Some (r, h) /\
   blocked (step s c).1 = false).
Proof.
  intros Hh Hb. destruct c as [h'|reg b|remove]; cbn; unfold Register, cleanup, Load; rewrite ?Hb, ?Hh.
  - right. by cbn.
  - destruct (Nat.eqb_spec r reg) as [-> | ?]; cbn; [left|right]; eauto.
  - right. destruct (consumed s); cbn; [done|]. by destruct remove.
Qed.

(** The next registration comes after a successful cleanup of the current one. *)
Lemma run_current cs : forall s r h es1 r' es2,
  handler s = Some (r, h) -> blocked s = false ->
  (run s cs).2 = es1 ++ ERegistered r' :: es2 -> ECleaned r true ∈ es1.
Proof.
  intros s r h es1. revert cs s. induction es1 as [|e es1 IH]; intros cs s r' es2 Hh Hb Hrun;
    apply run_cons in Hrun as (c & cs' & He & Hrest);
    destruct (step_current s c r h Hh Hb) as [(b & Hc & Hn & Hbl) | (Hnr & Hh' & Hb')].
  - congruence.
  - by destruct (Hnr r').
  - destruct b; [rewrite Hc in He; subst; left|].
    pose proof (run_blocked cs' _ Hn Hbl) as Hq. rewrite Hrest in Hq.
    apply Forall_app in Hq as (_ & Hq). apply Forall_cons in Hq as ([? | ?] & _); done.
  - right. eapply (IH cs'); eauto.
Qed.

(** Addresses grow, and a registration that is over or was consumed is not consumed
    again. *)
Definition spent s (r : nat) : Prop :=
  (r < next s)%nat /\ forall h, handler s = Some (r, h) -> consumed s = true.

Definition wf s : Prop := forall r h, handler s = Some (r, h) -> (r < next s)%nat.

Lemma step_spent s c r : spent s r -> spent (step s c).1 r /\ (step s c).2 <> EConsumed r.
Proof.
  intros (Hn & Hc). destruct s as [[[r0 h0]|] co bl nx]; cbn in *.
  - destruct c as [h'|reg b|remove]; cbn; unfold Register, cleanup, Load; cbn.
    + destruct bl; cbn; (split; [|done]); by split.
    + destruct (r0 =? reg)%nat; cbn; (split; [|done]); by split.
    + destruct co; cbn; [split; [by split|done]|].
      assert (Hne : r0 <> r) by (intros ->; by specialize (Hc h0 eq_refl)).
      split; [split; cbn; [done|congruence]|]. destruct remove; congruence.
  - destruct c as [h'|reg b|remove]; cbn; unfold Register, cleanup, Load; cbn; [|by split..].
    destruct bl; cbn; (split; [|done]); split; cbn; try done; try lia.
    intros h [= -> ->]. lia.
Qed.

Lemma run_spent cs : forall s r, spent s r -> EConsumed r ∉ (run s cs).2.
Proof.
  induction cs as [|c cs IH]; intros s r Hs; cbn; [set_solver|].
  destruct (step_spent s c r Hs) as (H1 & H2). destruct (step s c) as [s1 e]. cbn in *.
  specialize (IH _ _ H1). destruct (run s1 cs). cbn in *. set_solver.
Qed.

Lemma step_wf s c : wf s -> wf (step s c).1.
Proof.
  intros Hw. destruct s as [[[r0 h0]|] co bl nx].
  - specialize (Hw r0 h0 eq_refl). cbn in Hw.
    destruct c as [h'|reg b|remove]; cbn; unfold Register, cleanup, Load; cbn.
    + destruct bl; intros r h [= <- <-]; done.
    + destruct (r0 =? reg)%nat; intros r h; cbn; [done|]. by intros [= <- <-].
    + destruct co; intros r h [= <- <-]; done.
  - destruct c as [h'|reg b|remove]; cbn; unfold Register, cleanup, Load; cbn; try done.
    destruct bl; intros r h; cbn; [done|]. intros [= <- <-]. lia.
Qed.

Lemma run_wf cs : forall s, wf s -> wf (run s cs).1.
Proof.
  induction cs as [|c cs IH]; intros s Hw; cbn; [done|].
  pose proof (step_wf s c Hw) as H1. destruct (step s c) as [s1 e]. cbn in *.
  specialize (IH _ H1). by destruct (run s1 cs).
Qed.

Lemma step_consumed s c r : wf s -> (step s c).2 = EConsumed r -> spent (step s c).1 r.
Proof.
  intros Hw. destruct s as [[[r0 h0]|] co bl nx].
  - specialize (Hw r0 h0 eq_refl). cbn in Hw.
    destruct c as [h'|reg b|remove]; cbn; unfold Register, cleanup, Load; cbn.
    + by destruct bl.
    + by destruct (r0 =? reg)%nat.
    + destruct co, remove; cbn; try done. intros [= <-]. by split.
  - destruct c as [h'|reg b|remove]; cbn; unfold Register, cleanup, Load; cbn; try done. by destruct bl.
Qed.
Lemma step_registered s c r :
  (step s c).2 = ERegistered r ->
  exists h, handler (step s c).1 = Some (r, h) /\ blocked (step s c).1 = false.
Proof.
  destruct s as [[[r0 h0]|] co bl nx], c as [h'|reg b|remove]; cbn; unfold Register, cleanup, Load; cbn.
  - by destruct bl.
  - by destruct (r0 =? reg)%nat.
  - by destruct co, remove.
  - destruct bl; cbn; [done|]. intros [= <-]. eauto.
  - done.
  - done.
Qed.

Lemma step_cleaned s c r b :
  (step s c).2 = ECleaned r b ->
  handler (step s c).1 = None /\ blocked (step s c).1 = negb b.
Proof.
  destruct s as [[[r0 h0]|] co bl nx], c as [h'|reg b'|remove]; cbn; unfold Register, cleanup, Load; cbn.
  - by destruct bl.
  - destruct (r0 =? reg)%nat; cbn; [|done]. by intros [= <- <-].
  - by destruct co, remove.
  - by destruct bl.
  - done.
  - done.
Qed.
End Handler.
Arguments TokenlessHandler : clear implicits.
Arguments call : clear implicits.
End Tokenless.

(** The tokenless slot, for every sequence of registrations, cleanups (stale and
    repeated ones too) and loads: the handler of a registration is consumed at most
    once; a second registration succeeds only after the first was cleaned up as
    completed; and once a registration was cleaned up as not completed, every later
    registration is refused and nothing else happens, so a late response can never
    reach another request. *)
Theorem tokenless_correct {H} (cs : list (Tokenless.call H)) :
  let es := (Tokenless.run Tokenless.zero cs).2 in
  (forall es1 es2 r, es = es1 ++ Tokenless.EConsumed r :: es2 -> Tokenless.EConsumed r ∉ es2) /\
  (forall es1 es2 es3 r r', es = es1 ++ Tokenless.ERegistered r :: es2 ++ Tokenless.ERegistered r' :: es3 ->
     Tokenless.ECleaned r true ∈ es2) /\
  (forall es1 es2 r, es = es1 ++ Tokenless.ECleaned r false :: es2 ->
     Forall (fun e => e = Tokenless.EOther \/
                      e = Tokenless.ERefused Tokenless.ErrTokenlessRequestsBlocked) es2).
Proof.
  cbv zeta. split_and!.
  - intros es1 es2 r Heq. apply Tokenless.run_split in Heq as (cs1 & cs2 & _ & H2).
    apply Tokenless.run_cons in H2 as (c & cs' & He & <-).
    apply Tokenless.run_spent. apply Tokenless.step_consumed; [|done].
    apply Tokenless.run_wf. intros ? ? [=].
  - intros es1 es2 es3 r r' Heq. apply Tokenless.run_split in Heq as (cs1 & cs2 & _ & H2).
    apply Tokenless.run_cons in H2 as (c & cs' & He & Hrest).
    destruct (Tokenless.step_registered _ _ _ He) as (h & Hh & Hb).
    by eapply Tokenless.run_current.
  - intros es1 es2 r Heq. apply Tokenless.run_split in Heq as (cs1 & cs2 & _ & H2).
    apply Tokenless.run_cons in H2 as (c & cs' & He & <-).
    destruct (Tokenless.step_cleaned _ _ _ _ He) as (Hh & Hb). by apply Tokenless.run_blocked.
Qed.

(** The unknown critical options of a message with sorted options: exactly the odd
    option numbers that are not registered, or have a value of illegal length, or are
    Q-Block options where these are off; each once, in increasing order. *)
Theorem unknown_critical_correct options enabled :
  sorted_opts options ->
  let r := GetUnknownCriticalOptionsWithQBlock options enabled in
  StronglySorted Z.lt r /\
  forall x, x ∈ r <-> exists o, o ∈ options /\ rejected enabled o /\ ID o = x.
Proof.
  intros Hs. cbv zeta. unfold GetUnknownCriticalOptionsWithQBlock.
  destruct (unknown_loop_spec enabled options [] 0) as (H1 & H2); [done|constructor|by left|by constructor|].
  split; [done|]. intros x. rewrite H2. set_solver.
Qed.

(** Number 9 is critical and unknown, 13 likewise and repeated, a Q-Block1 option is
    refused when it is off, an If-Match value of nine bytes is too long. *)
Definition critical_sample : Options :=
  [mkOption IfMatch (make_bytes 9); mkOption 9 [1]; mkOption URIPath [97]; mkOption 13 []; mkOption 13 [2];
   mkOption QBlock1 [3]; mkOption 20 []].

Lemma unknown_critical_correct_witness :
  GetUnknownCriticalOptions critical_sample = [1; 9; 13; 19] /\
  StronglySorted Z.lt (GetUnknownCriticalOptionsWithQBlock critical_sample false).
Proof.
  split; [vm_compute; reflexivity|].
  refine (proj1 (unknown_critical_correct critical_sample false _)).
  unfold sorted_opts, critical_sample.
  repeat (apply SSorted_nil || apply SSorted_cons); repeat (apply Forall_nil_2 || apply Forall_cons_2);
    vm_compute; congruence.
Defined.
