(* ===== verification/ReceivedReader.v ===== *)
(** * The reader of received messages (src/net/client/receivedMessageReader.go)

    A connection pushes received messages into a queue; one goroutine, the loop, takes
    them out and processes them.  A handler that is about to block calls
    [TryToReplaceLoop], which ends the current loop and starts a new one.  Every loop has
    its own [loopDone] channel and [readingMessages] flag; [ReceivedMessageReader] keeps all loops, the
    last being the current one.  A step is one access to shared state; the critical
    sections of the mutex are one step each, and [select] takes any ready case.

    [received], [taken] and [processed] record the messages pushed, taken from the queue
    and given to [ProcessReceivedMessage], in order. *)
From stdpp Require Import prelude list.
From Stdlib Require Import ZArith Lia.
From S2P Require Import Prelude.

Section Reader.
Context {R : Type}.

(** At the [select], after a receive, while the message is processed, before the mutex,
    and returned. *)
Inductive loop_pc : Type :=
| LSelect
| LReceived (req : R)
| LProcessing (req : R)
| LProcessed
| LReturned.

Record loop_state : Type := mkLoop {
  loopDone : bool;
  readingMessages : bool;
  pc : loop_pc
}.

Record ReceivedMessageReader : Type := mkReceivedReader {
  queue : list R;
  queueSize : nat;
  loops : list loop_state;
  client_done : bool;
  received : list R;
  taken : list R;
  processed : list R
}.

(** A loop with its own channel and flag, as [go r.loop(loopDone, readingMessages)]
    starts it. *)
Definition new_loop : loop_state := mkLoop false true LSelect.

Definition NewReceivedMessageReader (size : nat) : ReceivedMessageReader := mkReceivedReader [] size [new_loop] false [] [] [].

Implicit Types (r : ReceivedMessageReader).

Definition set_loops r (ls : list loop_state) : ReceivedMessageReader :=
  mkReceivedReader (queue r) (queueSize r) ls (client_done r) (received r) (taken r) (processed r).

Definition set_loop r (i : nat) (l : loop_state) : ReceivedMessageReader := set_loops r (<[i := l]> (loops r)).

Definition set_pc (l : loop_state) (x : loop_pc) : loop_state := mkLoop (loopDone l) (readingMessages l) x.
Definition set_reading (l : loop_state) (b : bool) (x : loop_pc) : loop_state := mkLoop (loopDone l) b x.

(** [r.private.readingMessages] and [r.private.loopDone] are those of the last loop. *)
Definition TryToReplaceLoop r : ReceivedMessageReader :=
  match last (loops r) with
  | None => r
  | Some l =>
      if readingMessages l then r
      else set_loops r
        (<[pred (length (loops r)) := mkLoop true (readingMessages l) (pc l)]> (loops r) ++ [new_loop])
  end.

(** [req := <-r.queue]. *)
Definition take_message r (i : nat) (l : loop_state) (req : R) (q : list R) : ReceivedMessageReader :=
  mkReceivedReader q (queueSize r) (<[i := set_pc l (LReceived req)]> (loops r)) (client_done r)
    (received r) (taken r ++ [req]) (processed r).

Definition process_message r (i : nat) (l : loop_state) (req : R) : ReceivedMessageReader :=
  mkReceivedReader (queue r) (queueSize r) (<[i := set_pc l LProcessed]> (loops r)) (client_done r)
    (received r) (taken r) (processed r ++ [req]).

Definition push_message r (req : R) : ReceivedMessageReader :=
  mkReceivedReader (queue r ++ [req]) (queueSize r) (loops r) (client_done r) (received r ++ [req]) (taken r) (processed r).

Inductive reader_step : ReceivedMessageReader -> ReceivedMessageReader -> Prop :=
| step_push r req :
    length (queue r) < queueSize r -> reader_step r (push_message r req)
| step_replaced r i l :
    loops r !! i = Some l -> pc l = LSelect -> loopDone l = true ->
    reader_step r (set_loop r i (set_pc l LReturned))
| step_receive r i l req q :
    loops r !! i = Some l -> pc l = LSelect -> queue r = req :: q ->
    reader_step r (take_message r i l req q)
| step_client_done r i l :
    loops r !! i = Some l -> pc l = LSelect -> client_done r = true ->
    reader_step r (set_loop r i (set_pc l LReturned))
| step_store_false r i l req :
    loops r !! i = Some l -> pc l = LReceived req ->
    reader_step r (set_loop r i (set_reading l false (LProcessing req)))
| step_process r i l req :
    loops r !! i = Some l -> pc l = LProcessing req ->
    reader_step r (process_message r i l req)
| step_store_true r i l :
    loops r !! i = Some l -> pc l = LProcessed ->
    reader_step r (set_loop r i (set_reading l true LSelect))
| step_try_replace r :
    reader_step r (TryToReplaceLoop r)
| step_close r :
    reader_step r (mkReceivedReader (queue r) (queueSize r) (loops r) true (received r) (taken r) (processed r)).

(** ** Invariant *)

(** The message a loop holds. *)
Definition holds (l : loop_state) : list R :=
  match pc l with LReceived req | LProcessing req => [req] | _ => [] end.

Definition in_hand r : list R := concat (holds <$> loops r).

Definition reader_inv r : Prop :=
  received r = taken r ++ queue r /\
  taken r ≡ₚ processed r ++ in_hand r /\
  length (queue r) <= queueSize r /\
  exists ls l, loops r = ls ++ [l] /\ loopDone l = false /\ Forall (fun x => loopDone x = true) ls.

Lemma in_hand_insert (ls : list loop_state) i l l' :
  ls !! i = Some l ->
  exists rest, concat (holds <$> ls) ≡ₚ holds l ++ rest /\
               concat (holds <$> <[i := l']> ls) ≡ₚ holds l' ++ rest.
Proof.
  intros Hi. exists (concat (holds <$> take i ls) ++ concat (holds <$> drop (S i) ls)).
  rewrite insert_take_drop by eauto using lookup_lt_Some.
  rewrite <-(take_drop_middle ls i l Hi) at 1.
  rewrite !fmap_app, !fmap_cons, !concat_app. cbn. split; rewrite !(assoc (++)); f_equiv;
    apply Permutation_app_comm.
Qed.

(** Changing one loop without touching its [loopDone] keeps the shape of the loops. *)
Lemma loops_shape_insert (ls : list loop_state) i l l' :
  (exists ls0 l0, ls = ls0 ++ [l0] /\ loopDone l0 = false /\ Forall (fun x => loopDone x = true) ls0) ->
  ls !! i = Some l -> loopDone l' = loopDone l ->
  exists ls0 l0, <[i := l']> ls = ls0 ++ [l0] /\ loopDone l0 = false /\ Forall (fun x => loopDone x = true) ls0.
Proof.
  intros (ls0 & l0 & -> & Hl0 & Hls0) Hi Hd.
  destruct (decide (i < length ls0)) as [Hlt | Hge].
  - rewrite insert_app_l by done. exists (<[i := l']> ls0), l0. split_and!; [done|done|].
    apply Forall_insert; [done|]. rewrite Hd. rewrite lookup_app_l in Hi by done.
    by eapply Forall_lookup_1 in Hls0.
  - rewrite lookup_app_r in Hi by lia. apply list_lookup_singleton_Some in Hi as (Hz & ->).
    assert (i = length ls0 + 0) as -> by lia. rewrite insert_app_r. cbn.
    exists ls0, l'. split_and!; [done|congruence|done].
Qed.

Lemma in_hand_set_loop r i l l' :
  loops r !! i = Some l -> holds l' = holds l -> in_hand (set_loop r i l') ≡ₚ in_hand r.
Proof.
  intros Hi Hh. unfold in_hand. cbn. destruct (in_hand_insert (loops r) i l l' Hi) as (rest & H1 & H2).
  by rewrite H1, H2, Hh.
Qed.

Lemma reader_inv_set_loop r i l l' :
  reader_inv r -> loops r !! i = Some l -> holds l' = holds l -> loopDone l' = loopDone l ->
  reader_inv (set_loop r i l').
Proof.
  intros (Hrec & Htk & Hq & Hsh) Hi Hh Hd. split_and!; [done| |done|].
  - change (taken (set_loop r i l')) with (taken r). change (processed (set_loop r i l')) with (processed r).
    by rewrite (in_hand_set_loop r i l l').
  - by eapply loops_shape_insert.
Qed.

Lemma reader_inv_replace r : reader_inv r -> reader_inv (TryToReplaceLoop r).
Proof.
  intros (Hrec & Htk & Hq & (ls & l & Hls & Hl & Hall)). unfold TryToReplaceLoop.
  rewrite Hls, last_snoc. destruct (readingMessages l) eqn:Hr; [by split_and!; eauto 10|].
  rewrite length_app. cbn. replace (pred (length ls + 1)) with (length ls + 0) by lia.
  rewrite insert_app_r. cbn. split_and!; [done| |done|].
  - unfold in_hand in *. cbn. rewrite Hls in Htk. rewrite Htk.
    rewrite !fmap_app, !concat_app. cbn. by rewrite !app_nil_r.
  - exists (ls ++ [mkLoop true (readingMessages l) (pc l)]), new_loop.
    cbn. rewrite Hr. split_and!; [done|done|]. apply Forall_app. split; [done|]. by apply Forall_singleton.
Qed.

Lemma reader_inv_step r r' : reader_inv r -> reader_step r r' -> reader_inv r'.
Proof.
  intros Hinv Hstep.
  destruct Hstep as [r req Hlen|r i l Hi Hp Hd|r i l req q Hi Hp Hq'|r i l Hi Hp Hd|r i l req Hi Hp|r i l req Hi Hp|r i l Hi Hp|r|r].
  - destruct Hinv as (Hrec & Htk & Hq & Hsh). split_and!; cbn; [|done| |done].
    + by rewrite Hrec, (assoc (++)).
    + rewrite length_app. cbn. lia.
  - eapply reader_inv_set_loop; [done|done| |done]. unfold holds. cbn. by rewrite Hp.
  - destruct Hinv as (Hrec & Htk & Hq & Hsh). split_and!; cbn.
    + rewrite Hrec, Hq', <-(assoc (++)). done.
    + unfold in_hand in *. cbn.
      destruct (in_hand_insert (loops r) i l (set_pc l (LReceived req)) Hi) as (rest & H1 & H2).
      rewrite Htk, H2, H1. unfold holds. cbn. rewrite Hp. cbn.
      rewrite <-(assoc (++)). apply Permutation_app_head, Permutation_app_comm.
    + rewrite Hq' in Hq. cbn in Hq. lia.
    + by eapply loops_shape_insert.
  - eapply reader_inv_set_loop; [done|done| |done]. unfold holds. cbn. by rewrite Hp.
  - eapply reader_inv_set_loop; [done|done| |done]. unfold holds. cbn. by rewrite Hp.
  - destruct Hinv as (Hrec & Htk & Hq & Hsh). split_and!; cbn; [done| |done|by eapply loops_shape_insert].
    unfold in_hand in *. cbn.
    destruct (in_hand_insert (loops r) i l (set_pc l LProcessed) Hi) as (rest & H1 & H2).
    rewrite Htk, H2, H1. unfold holds. cbn. rewrite Hp. cbn. by rewrite <-(assoc (++)).
  - eapply reader_inv_set_loop; [done|done| |done]. unfold holds. cbn. by rewrite Hp.
  - by apply reader_inv_replace.
  - done.
Qed.

Lemma reader_reach size r : rtc reader_step (NewReceivedMessageReader size) r -> reader_inv r.
Proof.
  intros Hr. pattern r. eapply rtc_ind_r; [| |exact Hr].
  - split_and!; cbn; [done|done|lia|]. exists [], new_loop. by split_and!.
  - intros r1 r2 _ Hs Hi. by eapply reader_inv_step.
Qed.
Lemma reader_size size r : rtc reader_step (NewReceivedMessageReader size) r -> queueSize r = size.
Proof.
  intros Hr. pattern r. eapply rtc_ind_r; [| |exact Hr]; [done|].
  intros r1 r2 _ Hs <-. destruct Hs; try done. unfold TryToReplaceLoop. by repeat case_match.
Qed.

(** While the first loop was not replaced, messages are processed in order. *)
Definition ordered_inv r : Prop := length (loops r) = 1 -> taken r = processed r ++ in_hand r.

Lemma single_loop (ls : list loop_state) i l l' :
  length ls = 1 -> ls !! i = Some l -> ls = [l] /\ <[i := l']> ls = [l'].
Proof.
  destruct ls as [|x [|? ?]]; cbn; try done. intros _. destruct i; cbn; [|done]. by intros [= ->].
Qed.

Lemma ordered_inv_set_loop r i l l' :
  ordered_inv r -> loops r !! i = Some l -> holds l' = holds l -> ordered_inv (set_loop r i l').
Proof.
  intros Ho Hi Hh. unfold ordered_inv, in_hand in *. cbn. rewrite length_insert. intros H1.
  rewrite (Ho H1). destruct (single_loop _ _ _ l' H1 Hi) as (-> & ->). cbn. by rewrite Hh.
Qed.

Lemma ordered_inv_step r r' : ordered_inv r -> reader_step r r' -> ordered_inv r'.
Proof.
  intros Hinv Hstep.
  destruct Hstep as [r req Hlen|r i l Hi Hp Hd|r i l req q Hi Hp Hq'|r i l Hi Hp Hd|r i l req Hi Hp|r i l req Hi Hp|r i l Hi Hp|r|r];
    try (eapply ordered_inv_set_loop; [done|done|]; unfold holds; cbn; by rewrite Hp); try done.
  - unfold ordered_inv, in_hand in *. cbn. rewrite length_insert. intros H1. rewrite (Hinv H1).
    destruct (single_loop _ _ _ (set_pc l (LReceived req)) H1 Hi) as (-> & ->). cbn.
    unfold holds. cbn. rewrite Hp. cbn. by rewrite app_nil_r.
  - unfold ordered_inv, in_hand in *. cbn. rewrite length_insert. intros H1. rewrite (Hinv H1).
    destruct (single_loop _ _ _ (set_pc l LProcessed) H1 Hi) as (-> & ->). cbn.
    unfold holds. cbn. rewrite Hp. cbn. by rewrite !app_nil_r.
  - unfold TryToReplaceLoop. destruct (last (loops r)) as [l|] eqn:El; [|done].
    destruct (readingMessages l); [done|]. unfold ordered_inv. cbn. rewrite length_app, length_insert.
    cbn. intros Hx. destruct (loops r); [done|]. cbn in Hx. lia.
Qed.

Lemma reader_ordered size r : rtc reader_step (NewReceivedMessageReader size) r -> ordered_inv r.
Proof.
  intros Hr. pattern r. eapply rtc_ind_r; [| |exact Hr]; [done|].
  intros r1 r2 _ Hs Hi. by eapply ordered_inv_step.
Qed.
End Reader.
Arguments ReceivedMessageReader : clear implicits.
Arguments loop_state : clear implicits.

(** ** Properties *)

(** No message is lost or processed twice, in any interleaving of pushes, loops and
    replacements: what was received is what was taken from the queue, in order, followed
    by the queue; what was taken is what was processed and what the loops hold.  The
    queue respects its size, exactly one loop (the last) has not been told to end, and
    until the first replacement messages are processed in the order of arrival. *)
Theorem reader_conserves {R} size (r : ReceivedMessageReader R) :
  rtc reader_step (NewReceivedMessageReader size) r ->
  received r = taken r ++ queue r /\
  taken r ≡ₚ processed r ++ in_hand r /\
  length (queue r) <= size /\
  (exists ls l, loops r = ls ++ [l] /\ loopDone l = false /\ Forall (fun x => loopDone x = true) ls) /\
  (length (loops r) = 1 -> taken r = processed r ++ in_hand r).
Proof.
  intros Hr. pose proof (reader_ordered _ _ Hr) as Ho.
  pose proof (reader_size _ _ Hr) as Hs. destruct (reader_reach _ _ Hr) as (H1 & H2 & H3 & H4).
  rewrite Hs in H3. split_and!; done.
Qed.

(** One message pushed and taken. *)
Lemma reader_conserves_witness :
  exists r, rtc reader_step (NewReceivedMessageReader 4) r /\ taken r = processed r ++ in_hand r /\
            taken r = [7].
Proof.
  assert (Hr : rtc reader_step (NewReceivedMessageReader 4)
    (take_message (push_message (NewReceivedMessageReader 4) 7) 0 new_loop 7 [])).
  { eapply rtc_l; [apply (step_push _ 7); cbn; lia|].
    eapply rtc_l; [eapply (step_receive _ 0); reflexivity|]. apply rtc_refl. }
  eexists. split; [exact Hr|]. split; [|reflexivity].
  exact (proj2 (proj2 (proj2 (proj2 (reader_conserves 4 _ Hr)))) eq_refl).
Defined.

(** A replaced loop may take one more message: its [loopDone] is closed and the
    queue is not empty, and [select] takes either case.  Then two loops read from the
    queue at a time, and the messages 2 and 3 are processed in the wrong order although
    the loop was replaced only while message 1 was processed. *)
Theorem reader_two_loops_read :
  exists r : ReceivedMessageReader nat,
    rtc reader_step (NewReceivedMessageReader 4) r /\
    received r = [1; 2; 3] /\ processed r = [1; 3] /\
    loops r !! 0 = Some (mkLoop true true (LReceived 2)) /\
    loops r !! 1 = Some (mkLoop false false LProcessed).
Proof.
  eexists. split.
  - eapply rtc_l; [apply (step_push _ 1); cbn; lia|].
    eapply rtc_l; [eapply (step_receive _ 0); reflexivity|].
    eapply rtc_l; [eapply (step_store_false _ 0); reflexivity|].
    eapply rtc_l; [apply step_try_replace|].
    eapply rtc_l; [apply (step_push _ 2); cbn; lia|].
    eapply rtc_l; [apply (step_push _ 3); cbn; lia|].
    eapply rtc_l; [eapply (step_process _ 0); reflexivity|].
    eapply rtc_l; [eapply (step_store_true _ 0); reflexivity|].
    eapply rtc_l; [eapply (step_receive _ 0); reflexivity|].
    eapply rtc_l; [eapply (step_receive _ 1); reflexivity|].
    eapply rtc_l; [eapply (step_store_false _ 1); reflexivity|].
    eapply rtc_l; [eapply (step_process _ 1); reflexivity|].
    apply rtc_refl.
  - split_and!; reflexivity.
Qed.
