(* ===== verification/Observation.v ===== *)
(** * Observations (src/net/observation)

    A client keeps a table of observations, keyed by the hash of the token; a
    notification with the token of an observation is handled by it and passed on unless
    it is older than the last one (RFC 7641, 3.4).

    [Handler] holds the table and the heap of observations (an [Observation] is shared
    through pointers and has mutable fields).  The calls of the user's observe functions
    are recorded in [notified], with the time, and the calls of the client's optional
    [CancelObservation] in [canceledTokens].  [NewObservation] registers, writes the request and waits:
    [NewObservation_register] is the part up to the write, and
    [NewObservation_finish] the rest, given what the write and the [select] did; other
    operations may come in between.  Times are nanoseconds since the zero [time.Time]. *)
From stdpp Require Import prelude gmap fin_maps list.
From Stdlib Require Import ZArith Lia Sorting.
From S2P Require Import Prelude Codes OptionCodec Options Message Crc64 SyncMap.
#[local] Open Scope Z_scope.

(** ** Order of notifications *)

Definition ObservationSequenceTimeout : Z := 128 * 10 ^ 9.

(** [t.Sub(u)] saturates at the limits of a 64-bit duration. *)
Definition time_Sub (t u : Z) : Z := Z.max (- 2 ^ 63) (Z.min (2 ^ 63 - 1) (t - u)).

(** The differences are of [uint32]s, the larger first. *)
Definition ValidSequenceNumber (oldValue newValue lastEventOccurs now : Z) : bool :=
  if (oldValue <? newValue) && (uint32 (newValue - oldValue) <? Z.shiftl 1 23) then true
  else if (newValue <? oldValue) && (Z.shiftl 1 23 <? uint32 (oldValue - newValue)) then true
  else if ObservationSequenceTimeout <? time_Sub now lastEventOccurs then true
  else false.

(** ** Observations *)

(** A slice: its array from the start to the capacity, and its length. *)
Record buffer : Type := mkBuffer { array : list byte; len : Z }.
Definition contents (b : buffer) : list byte := slice_to (array b) (len b).

(** The response channel has one slot; it is forgotten by [handle] after the first
    response. *)
Record Observation : Type := mkObservation {
  o_token : list byte;
  o_code : Z;
  o_options : Options;
  waitForResponse : bool;
  respObservation : option (Z * bool);
  respForgotten : bool;
  obsSequence : Z;
  lastEvent : Z;
  etag : buffer
}.

Record Handler : Type := mkHandler {
  observations : gmap Z nat;
  obs : gmap nat Observation;
  notified : list (nat * Message * Z);
  supportsCancel : bool;
  canceledTokens : list (list byte)
}.

(** [supports] says whether the client has the method [CancelObservation]. *)
Definition NewHandler (supports : bool) : Handler := mkHandler NewMap ∅ [] supports [].

Implicit Types (h : Handler) (o : nat) (r : Message) (now : Z).

Definition newObservation (tok : list byte) (code : Z) (options : Options) : Observation :=
  mkObservation tok code options true None false 0 0 (mkBuffer [] 0).

(** The copy of the entity tag into [o.private.etag], whose array is reused. *)
Definition copy_etag (b : buffer) (tag : list byte) : buffer :=
  let b := if zlen (array b) <? zlen tag then mkBuffer (make_bytes (zlen tag)) (zlen tag) else b in
  let b := if negb (len b =? zlen tag) then mkBuffer (array b) (zlen tag) else b in
  mkBuffer (copy_into (slice_to (array b) (len b)) tag ++ slice_from (array b) (len b)) (len b).

Definition wantBeNotified (x : Observation) r now : Observation * bool :=
  let '(seq, err) := Options_Observe (mOptions r) in
  match err with
  | Some _ => (x, true)
  | None =>
      if negb (ValidSequenceNumber (obsSequence x) seq (lastEvent x) now) then (x, false) else
      let '(tag, err) := GetBytes (mOptions r) ETag in
      let e := match err with None => copy_etag (etag x) tag | Some _ => etag x end in
      (mkObservation (o_token x) (o_code x) (o_options x) (waitForResponse x) (respObservation x)
         (respForgotten x) seq now e, true)
  end.

(** The first response goes to the one-slot channel without blocking. *)
Definition first_response (x : Observation) r (hasObserve : bool) : Observation :=
  if waitForResponse x then
    let resp := if respForgotten x then respObservation x else
                match respObservation x with
                | None => Some (mCode r, negb hasObserve)
                | Some v => Some v
                end in
    mkObservation (o_token x) (o_code x) (o_options x) false resp true
      (obsSequence x) (lastEvent x) (etag x)
  else x.

Definition set_observations h (m : gmap Z nat) : Handler :=
  mkHandler m (obs h) (notified h) (supportsCancel h) (canceledTokens h).
Definition set_obs h o (x : Observation) : Handler :=
  mkHandler (observations h) (<[o := x]> (obs h)) (notified h) (supportsCancel h) (canceledTokens h).
Definition set_notified h (l : list (nat * Message * Z)) : Handler :=
  mkHandler (observations h) (obs h) l (supportsCancel h) (canceledTokens h).
Definition set_canceled h (l : list (list byte)) : Handler :=
  mkHandler (observations h) (obs h) (notified h) (supportsCancel h) l.

(** [pullOutObservation] by the key of the observation's token; a client that supports
    it is told about the cancelled token. *)
Definition cleanUp h (x : Observation) : Handler * bool :=
  let '(m, (_, ok)) := LoadAndDelete 0%nat (observations h) (Token_Hash (o_token x)) in
  let h := set_observations h m in
  let h := if ok && supportsCancel h then set_canceled h (canceledTokens h ++ [o_token x]) else h in
  (h, ok).

Definition handle h o (x : Observation) r now : Handler :=
  let hasObserve := HasOption (mOptions r) Observe in
  let x := first_response x r hasObserve in
  let '(x, want) := wantBeNotified x r now in
  let h := set_obs h o x in
  let h := if want then set_notified h (notified h ++ [(o, r, now)]) else h in
  if negb hasObserve then fst (cleanUp h x) else h.

(** Whether the message was a notification. *)
Definition HandleNotification h r now : Handler * bool :=
  match observations h !! Token_Hash (token r) with
  | Some o =>
      match obs h !! o with
      | Some x => (handle h o x r now, true)
      | None => (h, true)
      end
  | None => (h, false)
  end.

(** [Handle]: the flag says that the message goes to the next handler. *)
Definition Handle h r now : Handler * bool :=
  let '(h, ok) := HandleNotification h r now in (h, negb ok).

Definition GetObservation h (key : Z) : option nat := observations h !! key.

Definition Canceled h (x : Observation) : bool :=
  match GetObservation h (Token_Hash (o_token x)) with Some _ => false | None => true end.

Inductive observe_error : Type :=
| ErrObserveOption
| ErrObserveValue
| ErrEmptyToken
| ErrCloneOptions
| ErrTokenExists
| ErrWrite
| ErrRequestContext
| ErrConnectionClosed
| ErrUnexpectedCode (code : Z).

(** [o] is the address of the new observation. *)
Definition NewObservation_register h (req : Message) o : Handler * (nat + observe_error) :=
  let '(observe, err) := Options_Observe (mOptions req) in
  match err with
  | Some _ => (h, inr ErrObserveOption)
  | None =>
      if negb (observe =? 0) then (h, inr ErrObserveValue) else
      if zlen (token req) =? 0 then (h, inr ErrEmptyToken) else
      let '(options, err) := Clone (mOptions req) in
      match err with
      | Some _ => (h, inr ErrCloneOptions)
      | None =>
          let x := newObservation (token req) (mCode req) options in
          let h := set_obs h o x in
          let '(m, (_, loaded)) := LoadOrStore 0%nat (observations h) (Token_Hash (token req)) o in
          let h := set_observations h m in
          if loaded then (fst (cleanUp h x), inr ErrTokenExists) else (h, inl o)
      end
  end.

(** What [WriteMessage] and the [select] did. *)
Inductive observe_outcome : Type :=
| WriteFailed
| RequestDone
| ConnectionDone
| Response (code : Z) (notSupported : bool).

Definition NewObservation_finish h (x : Observation) (outcome : observe_outcome)
    : Handler * option observe_error :=
  match outcome with
  | WriteFailed => (fst (cleanUp h x), Some ErrWrite)
  | RequestDone => (fst (cleanUp h x), Some ErrRequestContext)
  | ConnectionDone => (fst (cleanUp h x), Some ErrConnectionClosed)
  | Response code notSupported =>
      if negb (code =? Content) && negb (code =? Valid)
      then (fst (cleanUp h x), Some (ErrUnexpectedCode code))
      else if notSupported then (fst (cleanUp h x), None) else (h, None)
  end.

(** ** Lemmas *)

(** Serial number arithmetic on 24 bits: [new] is ahead of [old] by less than half
    of the range. *)
Definition ahead (old new : Z) : Prop := 0 < (new - old) mod 2 ^ 24 < 2 ^ 23.

Definition seq_ok (v : Z) : Prop := 0 <= v < 2 ^ 24.

Lemma time_Sub_timeout t u : ObservationSequenceTimeout < time_Sub t u <-> ObservationSequenceTimeout < t - u.
Proof. unfold time_Sub, ObservationSequenceTimeout. lia. Qed.

Lemma ahead_cases old new :
  seq_ok old -> seq_ok new ->
  ahead old new <-> (old < new /\ new - old < 2 ^ 23) \/ (new < old /\ 2 ^ 23 < old - new).
Proof.
  unfold seq_ok, ahead. intros Ho Hn. destruct (Z.le_gt_cases old new) as [Hle | Hgt].
  - rewrite Z.mod_small by lia. lia.
  - replace (new - old) with ((new - old + 2 ^ 24) + (-1) * 2 ^ 24) by lia.
    rewrite Z.mod_add, Z.mod_small by lia. lia.
Qed.

Lemma ValidSequenceNumber_spec old new t now :
  seq_ok old -> seq_ok new ->
  ValidSequenceNumber old new t now = true <-> ahead old new \/ ObservationSequenceTimeout < now - t.
Proof.
  intros Ho Hn. rewrite (ahead_cases old new Ho Hn). unfold ValidSequenceNumber, seq_ok in *.
  rewrite <-time_Sub_timeout. change (Z.shiftl 1 23) with (2 ^ 23).
  destruct (Z.ltb_spec old new) as [Hlt | Hlt]; cbn [andb].
  - replace (uint32 (new - old)) with (new - old) by (unfold uint32; rewrite Z.mod_small; lia).
    destruct (Z.ltb_spec (new - old) (2 ^ 23)); [split; [lia|done]|].
    replace (new <? old) with false by lia. cbn [andb].
    destruct (Z.ltb_spec ObservationSequenceTimeout (time_Sub now t)); split; try done; lia.
  - destruct (Z.ltb_spec new old) as [Hgt | Hgt]; cbn [andb].
    + replace (uint32 (old - new)) with (old - new) by (unfold uint32; rewrite Z.mod_small; lia).
      destruct (Z.ltb_spec (2 ^ 23) (old - new)); [split; [lia|done]|].
      destruct (Z.ltb_spec ObservationSequenceTimeout (time_Sub now t)); split; try done; lia.
    + destruct (Z.ltb_spec ObservationSequenceTimeout (time_Sub now t)); split; try done; lia.
Qed.

(** The entity tag that is kept is the one that was copied. *)
Lemma copy_etag_contents b tag :
  0 <= len b <= zlen (array b) -> contents (copy_etag b tag) = tag.
Proof.
  intros Hb. unfold copy_etag, contents.
  set (b1 := if zlen (array b) <? zlen tag then mkBuffer (make_bytes (zlen tag)) (zlen tag) else b).
  assert (H1 : zlen tag <= zlen (array b1)).
  { unfold b1. destruct (zlen (array b) <? zlen tag) eqn:E; cbn; [|lia].
    rewrite zlen_make_bytes by apply zlen_nonneg. lia. }
  set (b2 := if negb (len b1 =? zlen tag) then mkBuffer (array b1) (zlen tag) else b1).
  assert (H2 : len b2 = zlen tag /\ array b2 = array b1).
  { unfold b2. destruct (Z.eqb_spec (len b1) (zlen tag)); by cbn. }
  destruct H2 as (-> & ->). cbn. unfold slice_to, slice_from, copy_into, zlen in *. rewrite !Nat2Z.id.
  rewrite length_take, Nat.min_l by lia. rewrite (take_ge tag) by lia.
  rewrite (drop_ge (take _ _)) by (rewrite length_take; lia). rewrite app_nil_r.
  apply take_app_length.
Qed.

Lemma cleanUp_observations h x :
  observations (fst (cleanUp h x)) = delete (Token_Hash (o_token x)) (observations h).
Proof. unfold cleanUp, LoadAndDelete. destruct (index _ _ _) as [? []]; cbn; by destruct (supportsCancel h). Qed.

(** *** Runs of received messages *)

Fixpoint receive_all h (l : list (Message * Z)) : Handler :=
  match l with
  | [] => h
  | (r, now) :: l => receive_all (fst (HandleNotification h r now)) l
  end.

(** The sequence number of a notification, when it has one. *)
Definition sequence_of r : option Z :=
  match Options_Observe (mOptions r) with (seq, None) => Some seq | (_, Some _) => None end.

(** The sequence numbers and times of what was passed to the observe function of [o]. *)
Definition delivered o (log : list (nat * Message * Z)) : list (Z * Z) :=
  omap (fun '(o', r, now) =>
          if decide (o' = o) then (fun seq => (seq, now)) <$> sequence_of r else None) log.

Definition newer (a b : Z * Z) : Prop := ahead a.1 b.1 \/ ObservationSequenceTimeout < b.2 - a.2.

Lemma delivered_app o l l' : delivered o (l ++ l') = delivered o l ++ delivered o l'.
Proof. apply omap_app. Qed.

(** What a response to the observation does to its heap cell and to the log. *)
Lemma handle_effect h o x r now :
  let x' := (wantBeNotified (first_response x r (HasOption (mOptions r) Observe)) r now) in
  obs (handle h o x r now) = <[o := x'.1]> (obs h) /\
  notified (handle h o x r now) = notified h ++ (if x'.2 then [(o, r, now)] else []).
Proof.
  cbv zeta. unfold handle. destruct (wantBeNotified _ r now) as [x' want]. cbn [fst snd].
  destruct want; destruct (HasOption (mOptions r) Observe); cbn [negb]; unfold cleanUp, LoadAndDelete;
    try destruct (index _ _ _) as [? []]; cbn; try destruct (supportsCancel h); cbn; by rewrite ?app_nil_r.
Qed.

Lemma first_response_state x r b :
  obsSequence (first_response x r b) = obsSequence x /\ lastEvent (first_response x r b) = lastEvent x /\
  o_token (first_response x r b) = o_token x.
Proof. unfold first_response. by destruct (waitForResponse x). Qed.

(** The four ways a response is judged: no sequence number, stale, fresh. *)
Lemma wantBeNotified_cases x r now :
  match sequence_of r with
  | None => wantBeNotified x r now = (x, true)
  | Some seq =>
      if ValidSequenceNumber (obsSequence x) seq (lastEvent x) now
      then exists x', wantBeNotified x r now = (x', true) /\ obsSequence x' = seq /\ lastEvent x' = now
      else wantBeNotified x r now = (x, false)
  end.
Proof.
  unfold wantBeNotified, sequence_of. destruct (Options_Observe (mOptions r)) as [seq [e|]]; [done|].
  destruct (ValidSequenceNumber _ seq _ now); cbn [negb]; [|done].
  destruct (GetBytes (mOptions r) ETag) as [tag e]. eexists. split; [reflexivity|]. done.
Qed.

(** [b] passes the test of freshness against [a]. *)
Definition fresher (a b : Z * Z) : Prop := ValidSequenceNumber a.1 b.1 a.2 b.2 = true.

(** What one received message does to an observation: nothing is delivered to it and its
    state stays, or one message that passes the test. *)
Lemma HandleNotification_effect h o (x : Observation) r now :
  obs h !! o = Some x ->
  let h1 := fst (HandleNotification h r now) in
  exists (x1 : Observation) log1, notified h1 = notified h ++ log1 /\ obs h1 !! o = Some x1 /\
    ((delivered o log1 = [] /\ obsSequence x1 = obsSequence x /\ lastEvent x1 = lastEvent x) \/
     (delivered o log1 = [(obsSequence x1, lastEvent x1)] /\ sequence_of r = Some (obsSequence x1) /\
      fresher (obsSequence x, lastEvent x) (obsSequence x1, lastEvent x1))).
Proof.
  intros Hx. cbv zeta.
  assert (Hsame : exists (x1 : Observation) log1, notified h = notified h ++ log1 /\ obs h !! o = Some x1 /\
    ((delivered o log1 = [] /\ obsSequence x1 = obsSequence x /\ lastEvent x1 = lastEvent x) \/
     (delivered o log1 = [(obsSequence x1, lastEvent x1)] /\ sequence_of r = Some (obsSequence x1) /\
      fresher (obsSequence x, lastEvent x) (obsSequence x1, lastEvent x1)))).
  { exists x, []. rewrite app_nil_r. split_and!; [done|done|by left]. }
  unfold HandleNotification. destruct (observations h !! _) as [o'|]; [|exact Hsame].
  destruct (obs h !! o') as [y|] eqn:Ey; [|exact Hsame].
  cbn [fst]. destruct (handle_effect h o' y r now) as (Hobs & Hnot). rewrite Hobs, Hnot.
  destruct (decide (o' = o)) as [-> | Hne].
  - assert (y = x) as -> by congruence.
    destruct (first_response_state x r (HasOption (mOptions r) Observe)) as (Hq & Ht & _).
    pose proof (wantBeNotified_cases (first_response x r (HasOption (mOptions r) Observe)) r now) as Hw.
    rewrite Hq, Ht in Hw. eexists _, _. split_and!; [done|by rewrite lookup_insert_eq|].
    destruct (sequence_of r) as [seq|] eqn:Eseq.
    + destruct (ValidSequenceNumber (obsSequence x) seq (lastEvent x) now) eqn:Ev.
      * right. destruct Hw as (x' & -> & Hx1 & Hx2). cbn. rewrite decide_True by done. rewrite Eseq. cbn.
        unfold fresher. cbn. by rewrite Hx1, Hx2.
      * left. rewrite Hw. cbn. done.
    + left. rewrite Hw. cbn. rewrite decide_True by done. rewrite Eseq. done.
  - exists x, (if (wantBeNotified (first_response y r (HasOption (mOptions r) Observe)) r now).2 then [(o', r, now)] else []).
    split_and!; [done|by rewrite lookup_insert_ne|]. left.
    destruct (wantBeNotified _ r now) as [x' []]; cbn; [|done]. by rewrite decide_False.
Qed.

(** ** Properties *)

(** The test of RFC 7641, 3.4 is serial number arithmetic: within the 24 bits of the
    Observe option a notification counts as new exactly when it is ahead of the last one
    by less than half of the range, or when the last one is more than 128 seconds old.
    So within 128 seconds two notifications are never both newer than each other, and
    unless they are equal or exactly half of the range apart, one of them is. *)
Theorem ValidSequenceNumber_serial old new t now :
  seq_ok old -> seq_ok new ->
  (ValidSequenceNumber old new t now = true <-> ahead old new \/ ObservationSequenceTimeout < now - t) /\
  (now - t <= ObservationSequenceTimeout -> ValidSequenceNumber old new t now = true ->
     ValidSequenceNumber new old t now = false) /\
  (old <> new -> Z.abs (old - new) <> 2 ^ 23 ->
     ValidSequenceNumber old new t now = true \/ ValidSequenceNumber new old t now = true).
Proof.
  intros Ho Hn. pose proof (ValidSequenceNumber_spec old new t now Ho Hn) as H1.
  pose proof (ValidSequenceNumber_spec new old t now Hn Ho) as H2.
  pose proof (ahead_cases old new Ho Hn) as A1. pose proof (ahead_cases new old Hn Ho) as A2.
  unfold seq_ok in *. split_and!; [done| |].
  - intros Ht Hv. apply not_true_is_false. rewrite H2, A2. rewrite H1, A1 in Hv. lia.
  - intros Hne Hhalf. rewrite H1, H2, A1, A2. lia.
Qed.

Lemma ValidSequenceNumber_serial_witness :
  ValidSequenceNumber (2 ^ 24 - 1) 0 0 1 = true <-> ahead (2 ^ 24 - 1) 0 \/ ObservationSequenceTimeout < 1 - 0.
Proof.
  refine (proj1 (ValidSequenceNumber_serial (2 ^ 24 - 1) 0 0 1 _ _)); unfold seq_ok; lia.
Defined.

(** What an observer sees is in order: whatever messages arrive, for this and for
    other observations, reordered or repeated, the notifications that reach the observe
    function of an observation and carry a sequence number form a chain in which each is
    newer than the one before (ahead in serial order, or more than 128 seconds
    later). *)
Theorem notifications_in_order h o x (l : list (Message * Z)) :
  obs h !! o = Some x -> seq_ok (obsSequence x) ->
  Forall (fun '(r, _) => forall seq, sequence_of r = Some seq -> seq_ok seq) l ->
  exists log, notified (receive_all h l) = notified h ++ log /\
    Sorted newer ((obsSequence x, lastEvent x) :: delivered o log).
Proof.
  revert h o x. induction l as [|[r now] l IH]; intros h o x Hx Hs Hl; cbn [receive_all].
  { exists []. rewrite app_nil_r. split; [done|]. repeat constructor. }
  apply Forall_cons in Hl as (Hr & Hl).
  destruct (HandleNotification_effect h o x r now Hx) as (x1 & log1 & Hn & Ho & Hcase).
  assert (Hs1 : seq_ok (obsSequence x1)) by (destruct Hcase as [(_ & -> & _) | (_ & Hq & _)]; [done|by apply Hr]).
  destruct (IH _ o x1 Ho Hs1 Hl) as (log & Hlog & Hsort). exists (log1 ++ log).
  rewrite Hlog, Hn, (assoc (++)). split; [done|]. rewrite delivered_app.
  destruct Hcase as [(-> & <- & <-) | (-> & _ & Hnew)]; [done|].
  cbn. constructor; [done|]. constructor. by apply ValidSequenceNumber_spec.
Qed.

(** A handler with one observation, and three notifications of which the second is
    stale. *)
Definition sample_req (seq : Z) : Message :=
  mkMessage (Some [1; 2]) [mkOption Observe [seq]] 16 Content None 1 0.

Definition sample_handler : Handler := fst (NewObservation_register (NewHandler true)
  (mkMessage (Some [1; 2]) [mkOption Observe []] 16 GET None 1 0) 0).

Definition sample_stream : list (Message * Z) :=
  [(sample_req 5, 10 ^ 18); (sample_req 4, 10 ^ 18 + 1); (sample_req 9, 10 ^ 18 + 2)].

Lemma notifications_in_order_witness :
  delivered 0 (notified (receive_all sample_handler sample_stream)) = [(5, 10 ^ 18); (9, 10 ^ 18 + 2)] /\
  exists log, notified (receive_all sample_handler sample_stream) = notified sample_handler ++ log /\
    Sorted newer ((0, 0) :: delivered 0 log).
Proof.
  split; [vm_compute; reflexivity|].
  refine (notifications_in_order sample_handler 0
    (newObservation [1; 2] GET [mkOption Observe []]) sample_stream _ _ _).
  - vm_compute. reflexivity.
  - unfold seq_ok. cbn. lia.
  - unfold sample_stream. repeat apply Forall_cons_2; [..|apply Forall_nil_2]; intros seq Hs;
      vm_compute in Hs; injection Hs as <-; unfold seq_ok; lia.
Defined.

(** A request for an observation whose token is already observed is refused, but its
    cleanup removes the existing observation from the table: later notifications for
    that token are no longer delivered to anyone. *)
Theorem duplicate_token_removes_observation h req o o' :
  observations h !! Token_Hash (token req) = Some o' ->
  Options_Observe (mOptions req) = (0, None) -> token req <> [] -> sorted_opts (mOptions req) ->
  let '(h', res) := NewObservation_register h req o in
  res = inr ErrTokenExists /\ GetObservation h' (Token_Hash (token req)) = None /\
  forall r now, token r = token req -> HandleNotification h' r now = (h', false).
Proof.
  intros Hex Hobs Htok Hsort. unfold NewObservation_register. rewrite Hobs. cbn [negb Z.eqb].
  destruct (Z.eqb_spec (zlen (token req)) 0) as [Hz | _].
  { destruct Htok. by apply zlen_0_nil. }
  rewrite (Clone_correct _ Hsort). cbn [set_obs observations].
  unfold LoadOrStore, LoadOrStore_read, index. rewrite Hex. cbv beta iota zeta.
  set (x := newObservation _ _ _). set (h1 := set_observations _ _).
  assert (Hgone : observations (fst (cleanUp h1 x)) !! Token_Hash (token req) = None)
    by (rewrite cleanUp_observations; apply lookup_delete_eq).
  split_and!; [done|exact Hgone|].
  intros r now Htr. unfold HandleNotification. rewrite Htr. by rewrite Hgone.
Qed.

Lemma duplicate_token_removes_observation_witness :
  let req := mkMessage (Some [1; 2]) [mkOption Observe []] 16 GET None 2 0 in
  GetObservation sample_handler (Token_Hash [1; 2]) = Some 0%nat /\
  GetObservation (fst (NewObservation_register sample_handler req 1)) (Token_Hash [1; 2]) = None.
Proof.
  cbv zeta. split; [vm_compute; reflexivity|].
  pose proof (duplicate_token_removes_observation sample_handler
    (mkMessage (Some [1; 2]) [mkOption Observe []] 16 GET None 2 0) 1 0) as Hd.
  destruct (NewObservation_register sample_handler _ 1) as [h' res].
  refine (proj1 (proj2 (Hd _ _ _ _))); [vm_compute; reflexivity|vm_compute; reflexivity|done|].
  unfold sorted_opts. cbn. repeat constructor.
Defined.

(** A registration with a free token. *)
Lemma NewObservation_register_free h req o :
  observations h !! Token_Hash (token req) = None ->
  Options_Observe (mOptions req) = (0, None) -> token req <> [] -> sorted_opts (mOptions req) ->
  NewObservation_register h req o =
    (set_observations (set_obs h o (newObservation (token req) (mCode req) (mOptions req)))
       (<[Token_Hash (token req) := o]> (observations h)), inl o).
Proof.
  intros Hno Hobs Htok Hsort. unfold NewObservation_register. rewrite Hobs. cbn [negb Z.eqb].
  destruct (Z.eqb_spec (zlen (token req)) 0) as [Hz | _]; [destruct Htok; by apply zlen_0_nil|].
  rewrite (Clone_correct _ Hsort). cbn [set_obs observations].
  unfold LoadOrStore, LoadOrStore_read, LoadOrStore_write, index. by rewrite Hno.
Qed.

(** The response that keeps an observation. *)
Definition accepts (outcome : observe_outcome) : option bool :=
  match outcome with
  | Response code b => if (code =? Content) || (code =? Valid) then Some b else None
  | _ => None
  end.

Lemma NewObservation_finish_cases h x outcome :
  observations (fst (NewObservation_finish h x outcome)) =
    (match accepts outcome with
     | Some false => observations h
     | _ => delete (Token_Hash (o_token x)) (observations h)
     end) /\
  (snd (NewObservation_finish h x outcome) = None <-> is_Some (accepts outcome)).
Proof.
  assert (Hno : forall (A : Prop) (e : observe_error), A -> A /\ (Some e = None <-> is_Some (@None bool))).
  { intros A e HA. split; [done|]. split; [done|]. by intros [? ?]. }
  assert (Hyes : forall (A : Prop) (b : bool), A -> A /\ (@None observe_error = None <-> is_Some (Some b))).
  { intros A b HA. split; [done|]. split; eauto. }
  destruct outcome as [| | |code b]; cbn [NewObservation_finish accepts fst snd];
    try (by apply Hno, cleanUp_observations).
  destruct (code =? Content), (code =? Valid), b; cbn [negb andb orb fst snd];
    first [apply Hyes | apply Hno]; done || apply cleanUp_observations.
Qed.

(** The life of an observation with a token that is not in use: the registration puts
    it into the table, where it stays exactly if the request succeeds with a response
    that supports it (2.05 or 2.03 with an Observe option); every failure, also of the
    write or of a context, and a response without Observe remove it again, so that
    nothing is left behind; other tokens are not affected. *)
Theorem NewObservation_lifecycle h req o outcome :
  observations h !! Token_Hash (token req) = None ->
  Options_Observe (mOptions req) = (0, None) -> token req <> [] -> sorted_opts (mOptions req) ->
  let x := newObservation (token req) (mCode req) (mOptions req) in
  let h1 := fst (NewObservation_register h req o) in
  let '(h2, err) := NewObservation_finish h1 x outcome in
  snd (NewObservation_register h req o) = inl o /\
  GetObservation h1 (Token_Hash (token req)) = Some o /\ obs h1 !! o = Some x /\
  (err = None <-> exists b, accepts outcome = Some b) /\
  (Canceled h2 x = false <-> accepts outcome = Some false) /\
  (forall k, k <> Token_Hash (token req) -> GetObservation h2 k = GetObservation h k).
Proof.
  intros Hno Hobs Htok Hsort. cbv zeta. rewrite (NewObservation_register_free h req o) by done.
  cbn [fst snd]. set (x := newObservation _ _ _). set (h1 := set_observations _ _).
  destruct (NewObservation_finish_cases h1 x outcome) as (Hfin & Herr).
  destruct (NewObservation_finish h1 x outcome) as [h2 err]. cbn [fst snd] in *.
  unfold GetObservation, Canceled. rewrite Hfin. cbn.
  split_and!; [done|by rewrite lookup_insert_eq|by rewrite lookup_insert_eq|done| |].
  - unfold GetObservation. rewrite Hfin. cbn.
    destruct (accepts outcome) as [[]|]; rewrite ?lookup_delete_eq, ?lookup_insert_eq; done.
  - intros k Hk. destruct (accepts outcome) as [[]|]; cbn;
      rewrite ?lookup_delete_ne, ?lookup_insert_ne by done; done.
Qed.

Lemma NewObservation_lifecycle_witness :
  GetObservation sample_handler (Token_Hash [1; 2]) = Some 0%nat.
Proof.
  pose proof (NewObservation_lifecycle (NewHandler true)
    (mkMessage (Some [1; 2]) [mkOption Observe []] 16 GET None 1 0) 0 (Response Content false)) as Hl.
  cbv zeta in Hl. destruct (NewObservation_finish _ _ _) as [h2 err].
  refine (proj1 (proj2 (Hl _ _ _ _))); [reflexivity|vm_compute; reflexivity|done|].
  unfold sorted_opts. cbn. repeat constructor.
Defined.
