(* ===== verification/TcpConn.v ===== *)
(** * The stream connection (src/tcp/client/session.go, conn.go; src/net/conn.go;
      src/net/client/requestHandler.go)

    - [Module NetConn] (net/conn.go): writes to and reads from the socket.
    - the session: [Run] appends what it reads to a buffer, cuts the buffer into frames,
      checks each message and hands it to the connection.
    - the connection: signalling messages are handled at once, other messages are queued
      for the reader of received messages, which dispatches them to the request that
      waits for the token, or to the observations.

    The state of session and connection is one record.  A message of the pool is named
    by the number of the acquisition that produced it ([nat * M]); [supply n] is what the
    [n]-th [AcquireMessage] returns.  The socket is a script: what each raw [Write] takes,
    what each raw [Read] returns. *)
From stdpp Require Import prelude list strings gmap.
From Stdlib Require Import ZArith Lia Ascii.
From S2P Require Import Prelude Cast Codes OptionCodec Options OptionsCodec Message TcpCoder PoolMessage.
From S2P Require Import Crc64 SyncMap Client.
#[local] Open Scope Z_scope.

(** [[]byte(s)]. *)
Definition string_bytes (s : string) : list byte :=
  (fun c => Z.of_nat (nat_of_ascii c)) <$> String.list_ascii_of_string s.

(** ** The socket *)

Module NetConn.

Definition ErrConnectionIsClosed : error := ErrEOF.

(** [script] holds the results of the raw writes to come, the number of bytes taken and
    the error; a socket at the end of its script takes everything.  [handshakeErr] is the
    error of the handshake of a secured socket. *)
Record Conn : Type := mkConn {
  closed : bool;
  handshakeErr : option error;
  closeErr : option error;
  script : list (Z * option error);
  wire : list byte
}.

Definition Close (c : Conn) : Conn * option error :=
  if closed c then (c, None)
  else (mkConn true (handshakeErr c) (closeErr c) (script c) (wire c), closeErr c).

Definition handshake (c : Conn) : Conn * option error :=
  match handshakeErr c with
  | None => (c, None)
  | Some err =>
      let '(c, errC) := Close c in
      match errC with
      | None => (c, Some err)
      | Some _ => (c, Some (ErrOther "[handshake close]"))
      end
  end.

(** The loop of [WriteWithContext] on the bytes that are left; it recurs on the script. *)
Fixpoint write_loop (ctxDone isClosed : bool) (sc : list (Z * option error)) (out data : list byte)
    : list (Z * option error) * list byte * option error :=
  match data with
  | [] => (sc, out, None)
  | _ =>
      if ctxDone then (sc, out, Some ErrContext)
      else if isClosed then (sc, out, Some ErrConnectionIsClosed)
      else match sc with
           | [] => ([], out ++ data, None)
           | (n, Some err) :: sc => (sc, out ++ slice_to data n, Some err)
           | (n, None) :: sc => write_loop ctxDone isClosed sc (out ++ slice_to data n) (slice_from data n)
           end
  end.

Definition WriteWithContext (c : Conn) (ctxDone : bool) (data : list byte) : Conn * option error :=
  let '(c, err) := handshake c in
  match err with
  | Some e => (c, Some e)
  | None =>
      let '(sc, out, err) := write_loop ctxDone (closed c) (script c) (wire c) data in
      (mkConn (closed c) (handshakeErr c) (closeErr c) sc out, err)
  end.

(** [read] is the result of the raw [Read]. *)
Definition ReadWithContext (c : Conn) (ctxDone : bool) (read : list byte * option error)
    : Conn * (list byte * option error) :=
  if ctxDone then (c, ([], Some ErrContext)) else
  if closed c then (c, ([], Some ErrConnectionIsClosed)) else
  let '(c, err) := handshake c in
  match err with
  | Some e => (c, ([], Some e))
  | None => (c, read)
  end.

End NetConn.

(** ** bytes.Buffer *)

Record Buffer : Type := mkBuffer { b_data : list byte; b_cap : Z }.

Definition NewBuffer (cap : Z) : Buffer := mkBuffer [] cap.
Definition Buffer_Reset (b : Buffer) : Buffer := mkBuffer [] (b_cap b).

(** [buffer.Read(p)] for a [p] of [n] bytes: an empty buffer gives 0. *)
Definition Buffer_Read (b : Buffer) (n : Z) : Buffer * Z :=
  let v := Z.min n (zlen (b_data b)) in (mkBuffer (slice_from (b_data b) v) (b_cap b), v).

(** The loop of [seekBufferToNextMessage]; [None]: the fuel is used up. *)
Fixpoint seek_loop (fuel : nat) (buffer : Buffer) (msgSize trimmed : Z) : option Buffer :=
  match fuel with
  | O => None
  | S fuel =>
      if trimmed =? msgSize then Some buffer else
      let toRead := if msgSize - trimmed <? 4096 then msgSize - trimmed else 4096 in
      let '(buffer, v) := Buffer_Read buffer toRead in
      seek_loop fuel buffer msgSize (trimmed + v)
  end.

Definition seekBufferToNextMessage (buffer : Buffer) (msgSize : Z) : option Buffer :=
  if msgSize =? zlen (b_data buffer) then Some (Buffer_Reset buffer)
  else seek_loop (S (Z.to_nat msgSize)) buffer msgSize 0.

Definition shrinkBufferIfNecessary (buffer : Buffer) (maxCap : Z) : Buffer :=
  if (zlen (b_data buffer) =? 0) && (maxCap <? b_cap buffer) then NewBuffer maxCap else buffer.

(** ** The state *)

(** The closures stored for a token: that of [RegisterRequestHandler] with its response
    channel, and that of [AsyncPing] with the callback it was given. *)
Inductive Handler : Type :=
| RequestHandler (responses : nat)
| PongHandler (receivedPong : nat).

(** What [WriteMessage] returns: [RequestNotSentError], or the error of the connection. *)
Inductive write_error : Type :=
| RequestNotSent (e : error)
| WriteFailed (e : error).

Definition write_error_of (e : write_error) : error :=
  match e with RequestNotSent e | WriteFailed e => e end.

Section TcpConn.
Context {Ctx CM B : Type} `{!ReadSeeker B}.
Abbreviation M := (Msg Ctx CM B).

Record State : Type := mkState {
  connection : NetConn.Conn;
  maxMessageSize : Z;
  connectionCacheSize : Z;
  disableTCPSignalMessageCSM : bool;
  closeSocket : bool;
  errSendCSM : option error;
  (** the context of the session is cancelled *)
  ctxDone : bool;
  sequenceCounter : Z;
  (** callbacks of [AddOnClose], those that ran, and the [done] channel *)
  onClose : list nat;
  onCloseRan : list nat;
  doneClosed : bool;
  (** calls of [inactivityMonitor.Notify] *)
  notified : nat;
  (** errors reported to the callback of the configuration *)
  reported : list error;
  (** messages taken from the pool, and the ones given back *)
  acquired : nat;
  released : list nat;
  (** the connection *)
  disablePeerTCPSignalMessageCSMs : bool;
  peerMaxMessageSize : Z;
  peerBlockWiseTranferEnabled : bool;
  tokenHandlers : gmap Z Handler;
  tokenless : Tokenless.TokenlessHandler Handler;
  tcpSignalReceivedHandler : option nat;
  (** signals reported to the callback, pongs reported to [receivedPong] *)
  signals : list (nat * Z);
  pongs : list nat;
  (** the response channels, each with one place *)
  nextChannel : nat;
  channels : gmap nat (nat * M);
  (** messages sent to the reader of received messages *)
  received : list (nat * M)
}.

Definition with_connection (s : State) (c : NetConn.Conn) : State :=
  mkState c (maxMessageSize s) (connectionCacheSize s) (disableTCPSignalMessageCSM s) (closeSocket s)
    (errSendCSM s) (ctxDone s) (sequenceCounter s) (onClose s) (onCloseRan s) (doneClosed s) (notified s)
    (reported s) (acquired s) (released s) (disablePeerTCPSignalMessageCSMs s) (peerMaxMessageSize s)
    (peerBlockWiseTranferEnabled s) (tokenHandlers s) (tokenless s) (tcpSignalReceivedHandler s) (signals s) (pongs s) (nextChannel s)
    (channels s) (received s).

Definition with_session (s : State) (err : option error) (cd : bool) (oc ran : list nat) (dn : bool) : State :=
  mkState (connection s) (maxMessageSize s) (connectionCacheSize s) (disableTCPSignalMessageCSM s) (closeSocket s)
    err cd (sequenceCounter s) oc ran dn (notified s)
    (reported s) (acquired s) (released s) (disablePeerTCPSignalMessageCSMs s) (peerMaxMessageSize s)
    (peerBlockWiseTranferEnabled s) (tokenHandlers s) (tokenless s) (tcpSignalReceivedHandler s) (signals s) (pongs s) (nextChannel s)
    (channels s) (received s).

Definition with_counters (s : State) (seq : Z) (nt : nat) (rep : list error) : State :=
  mkState (connection s) (maxMessageSize s) (connectionCacheSize s) (disableTCPSignalMessageCSM s) (closeSocket s)
    (errSendCSM s) (ctxDone s) seq (onClose s) (onCloseRan s) (doneClosed s) nt
    rep (acquired s) (released s) (disablePeerTCPSignalMessageCSMs s) (peerMaxMessageSize s)
    (peerBlockWiseTranferEnabled s) (tokenHandlers s) (tokenless s) (tcpSignalReceivedHandler s) (signals s) (pongs s) (nextChannel s)
    (channels s) (received s).

Definition with_pool (s : State) (acq : nat) (rel : list nat) : State :=
  mkState (connection s) (maxMessageSize s) (connectionCacheSize s) (disableTCPSignalMessageCSM s) (closeSocket s)
    (errSendCSM s) (ctxDone s) (sequenceCounter s) (onClose s) (onCloseRan s) (doneClosed s) (notified s)
    (reported s) acq rel (disablePeerTCPSignalMessageCSMs s) (peerMaxMessageSize s)
    (peerBlockWiseTranferEnabled s) (tokenHandlers s) (tokenless s) (tcpSignalReceivedHandler s) (signals s) (pongs s) (nextChannel s)
    (channels s) (received s).

Definition with_peer (s : State) (size : Z) (bw : bool) (sh : option nat) (sg : list (nat * Z)) : State :=
  mkState (connection s) (maxMessageSize s) (connectionCacheSize s) (disableTCPSignalMessageCSM s) (closeSocket s)
    (errSendCSM s) (ctxDone s) (sequenceCounter s) (onClose s) (onCloseRan s) (doneClosed s) (notified s)
    (reported s) (acquired s) (released s) (disablePeerTCPSignalMessageCSMs s) size
    bw (tokenHandlers s) (tokenless s) sh sg (pongs s) (nextChannel s)
    (channels s) (received s).

Definition with_handlers (s : State) (th : gmap Z Handler) (tl : Tokenless.TokenlessHandler Handler) (nx : nat) : State :=
  mkState (connection s) (maxMessageSize s) (connectionCacheSize s) (disableTCPSignalMessageCSM s) (closeSocket s)
    (errSendCSM s) (ctxDone s) (sequenceCounter s) (onClose s) (onCloseRan s) (doneClosed s) (notified s)
    (reported s) (acquired s) (released s) (disablePeerTCPSignalMessageCSMs s) (peerMaxMessageSize s)
    (peerBlockWiseTranferEnabled s) th tl (tcpSignalReceivedHandler s) (signals s) (pongs s) nx
    (channels s) (received s).

Definition with_deliveries (s : State) (pg : list nat) (ch : gmap nat (nat * M)) (rc : list (nat * M)) : State :=
  mkState (connection s) (maxMessageSize s) (connectionCacheSize s) (disableTCPSignalMessageCSM s) (closeSocket s)
    (errSendCSM s) (ctxDone s) (sequenceCounter s) (onClose s) (onCloseRan s) (doneClosed s) (notified s)
    (reported s) (acquired s) (released s) (disablePeerTCPSignalMessageCSMs s) (peerMaxMessageSize s)
    (peerBlockWiseTranferEnabled s) (tokenHandlers s) (tokenless s) (tcpSignalReceivedHandler s) (signals s) pg (nextChannel s)
    ch rc.

(** The pool's messages, the user's request monitor, the growth of slices and of the read
    buffer, the platform's test for a closed peer, and, when the context is done and
    the queue has room, the choice of [select]. *)
Context (growcap : Z -> Z).
Context (supply : nat -> M).
Context (requestMonitor : M -> bool * option error).
Context (buffercap : Z -> Z).
Context (IsConnectionBrokenError : error -> bool).
Context (select_send : nat -> bool).

Definition AcquireMessage (s : State) : State * (nat * M) :=
  (with_pool s (S (acquired s)) (released s), (acquired s, supply (acquired s))).

Definition ReleaseMessage (s : State) (req : nat * M) : State :=
  with_pool s (acquired s) (released s ++ [req.1]).

Definition Sequence (s : State) : State * Z :=
  let v := uint64 (sequenceCounter s + 1) in (with_counters s v (notified s) (reported s), v).

Definition Notify (s : State) : State := with_counters s (sequenceCounter s) (S (notified s)) (reported s).

Definition report (s : State) (e : error) : State :=
  with_counters s (sequenceCounter s) (notified s) (reported s ++ [e]).

(** [cd] says whether the context of the message is done. *)
Definition Session_WriteMessage (s : State) (cd : bool) (req : M) : State * M * option write_error :=
  match MarshalWithEncoder growcap TcpCoder req with
  | (req, (Some data, None)) =>
      let '(c, err) := NetConn.WriteWithContext (connection s) cd data in
      (with_connection s c, req, WriteFailed <$> err)
  | (req, (_, Some e)) => (s, req, Some (RequestNotSent e))
  | (req, (None, None)) => (s, req, None)
  end.

(** [token] is the result of [message.GetToken]. *)
Definition sendCSM (s : State) (token : result (list byte)) : State * option error :=
  match token with
  | Err e => (s, Some e)
  | Ok token =>
      let '(s, (id, req)) := AcquireMessage s in
      let req := SetCode req CSM in
      let req := SetToken req (Some token) in
      let '(s, req, err) := Session_WriteMessage s (ctxDone s) req in
      (ReleaseMessage s (id, req), write_error_of <$> err)
  end.

Definition AddOnClose (s : State) (f : nat) : State :=
  with_session s (errSendCSM s) (ctxDone s) (onClose s ++ [f]) (onCloseRan s) (doneClosed s).

Definition popOnClose (s : State) : State * list nat :=
  (with_session s (errSendCSM s) (ctxDone s) [] (onCloseRan s) (doneClosed s), onClose s).

Definition shutdown (s : State) : State :=
  let '(s, fs) := popOnClose s in
  with_session s (errSendCSM s) (ctxDone s) (onClose s) (onCloseRan s ++ fs) true.

Definition Session_Close (s : State) : State * option error :=
  let s := with_session s (errSendCSM s) true (onClose s) (onCloseRan s) (doneClosed s) in
  if closeSocket s then
    let '(c, err) := NetConn.Close (connection s) in (with_connection s c, err)
  else (s, None).

(** ** Dispatch of received messages *)

(** [responsewriter.New]: the response and the No-Response option of the request. *)
Record Writer : Type := mkWriter { w_noResponse : option Z; w_message : nat * M }.

Definition NewWriter (response : nat * M) (requestOptions : Options) : Writer :=
  mkWriter
    (if 0 <? zlen requestOptions then
       match GetUint32 requestOptions NoResponse with (v, None) => Some v | (_, Some _) => None end
     else None) response.

Abbreviation HandlerFunc := (State -> Writer -> nat * M -> State * Writer * (nat * M)).

(** The body of a stored handler. *)
Definition call_handler (h : Handler) : HandlerFunc := fun s w r =>
  match h with
  | RequestHandler ch =>
      let r := (r.1, Hijack r.2) in
      match channels s !! ch with
      | None => (with_deliveries s (pongs s) (<[ch := r]> (channels s)) (received s), w, r)
      | Some _ => (s, w, r)
      end
  | PongHandler f =>
      if mCode (msg r.2) =? Pong
      then (with_deliveries s (pongs s ++ [f]) (channels s) (received s), w, r)
      else (s, w, r)
  end.

Definition Conn_Close (s : State) : State * option error := Session_Close s.

Definition ProcessReceivedMessageWithHandler (s : State) (req : nat * M) (handler : HandlerFunc) : State :=
  let '(s, (id, origResp)) := AcquireMessage s in
  let origResp := SetToken origResp (Msg_Token req.2) in
  let w := NewWriter (id, origResp) (mOptions (msg req.2)) in
  let '(s, w, req) := handler s w req in
  let s := if hijacked req.2 then s else ReleaseMessage s req in
  let s :=
    if isModified (w_message w).2 then
      let '(s, _, err) := Session_WriteMessage s (ctxDone s) (w_message w).2 in
      match err with
      | None => s
      | Some e =>
          let '(s, errC) := Conn_Close s in
          let s := match errC with Some e => report s e | None => s end in
          report s (write_error_of e)
      end
    else s in
  ReleaseMessage s (w_message w).

Definition sendPong (s : State) (token : option (list byte)) : State * option write_error :=
  let '(s, (id, req)) := AcquireMessage s in
  let req := SetCode req Pong in
  let req := SetToken req token in
  let '(s, req, err) := Session_WriteMessage s (ctxDone s) req in
  (ReleaseMessage s (id, req), err).

Definition handleTCPSignalReceived (s : State) (code : Z) : State :=
  match tcpSignalReceivedHandler s with
  | Some f => with_peer s (peerMaxMessageSize s) (peerBlockWiseTranferEnabled s) (tcpSignalReceivedHandler s)
                (signals s ++ [(f, code)])
  | None => s
  end.

(** The key of a token; a nil token hashes like an empty one. *)
Definition token_key (r : M) : Z := Token_Hash (default [] (Msg_Token r)).

Definition LoadAndDelete_handler (s : State) (key : Z) : State * option Handler :=
  (with_handlers s (delete key (tokenHandlers s)) (tokenless s) (nextChannel s), tokenHandlers s !! key).

Definition handleSignals (s : State) (req : nat * M) : State * bool :=
  let r := req.2 in
  let code := mCode (msg r) in
  if code =? CSM then
    if disablePeerTCPSignalMessageCSMs s then (s, true) else
    let size := match GetOptionUint32 r TCPMaxMessageSize with
                | (size, None) => size
                | (_, Some _) => peerMaxMessageSize s
                end in
    let bw := if HasOption (mOptions (msg r)) TCPBlockWiseTransfer then true else peerBlockWiseTranferEnabled s in
    (handleTCPSignalReceived (with_peer s size bw (tcpSignalReceivedHandler s) (signals s)) CSM, true)
  else if code =? Ping then
    let '(s, err) := sendPong s (Msg_Token r) in
    let s := match err with
             | Some e => if IsConnectionBrokenError (write_error_of e) then s else report s (write_error_of e)
             | None => s
             end in
    (handleTCPSignalReceived s Ping, true)
  else if code =? Pong then
    let '(s, h) := LoadAndDelete_handler s (token_key r) in
    let s := match h with
             | Some h => ProcessReceivedMessageWithHandler s req (call_handler h)
             | None => s
             end in
    (handleTCPSignalReceived s Pong, true)
  else if code =? Release then (handleTCPSignalReceived s Release, true)
  else if code =? Abort then (handleTCPSignalReceived s Abort, true)
  else (s, false).

Definition pushToReceivedMessageQueue (s : State) (req : nat * M) : State :=
  let '(s, handled) := handleSignals s req in
  if handled then s
  else if ctxDone s && negb (select_send req.1) then s
  else with_deliveries s (pongs s) (channels s) (received s ++ [req]).

(** ** The session *)

(** What [decodeMessageFromBuffer] returns next to the state and the buffer. *)
Inductive decoded : Type :=
| NotReady
| Ready (req : nat * M)
| DecodeError (e : error).

(** [None]: the call does not return. *)
Definition decodeMessageFromBuffer (s : State) (buffer : Buffer) : option (State * Buffer * decoded) :=
  let '(header, (_, err)) := Tcp.DecodeHeader (b_data buffer) Tcp.zeroHeader in
  match err with
  | Some ErrShortRead => Some (s, buffer, NotReady)
  | Some e => Some (s, buffer, DecodeError e)
  | None =>
      if maxMessageSize s <? Tcp.hMessageLength header
      then Some (s, buffer, DecodeError (ErrOther "max message size was exceeded"))
      else if CastTo KUint32 (zlen (b_data buffer)) <? Tcp.hMessageLength header
      then Some (s, buffer, NotReady)
      else
        let '(s, (id, req)) := AcquireMessage s in
        let data := slice_to (b_data buffer) (Tcp.hMessageLength header) in
        '(req, (read, err)) ← UnmarshalWithDecoder growcap (S (length data)) TcpCoder req data;
        match err with
        | Some e => Some (ReleaseMessage s (id, req), buffer, DecodeError e)
        | None =>
            buffer ← seekBufferToNextMessage buffer read;
            let '(s, seq) := Sequence s in
            Some (s, buffer, Ready (id, SetSequence req seq))
        end
  end.

(** [None]: the panic of [SetContentFormat]. *)
Definition respondUnknownCriticalOptions (s : State) (req : M) (unknownCriticalOpts : list Z)
    : option (State * option error) :=
  let '(s, (id, resp)) := AcquireMessage s in
  let resp := SetCode resp BadOption in
  let resp := SetToken resp (Msg_Token req) in
  resp ← Msg_SetContentFormat resp TextPlain;
  let resp := SetBody resp (Some (inl (NewReader (string_bytes (FormatUnknownCriticalOptionsDiagnostic unknownCriticalOpts))))) in
  let '(s, resp, err) := Session_WriteMessage s (ctxDone s) resp in
  Some (ReleaseMessage s (id, resp), write_error_of <$> err).

Definition shouldDropRequest (s : State) (req : M) : option (State * bool * option error) :=
  if (mCode (msg req) <? GET) || (32 <=? mCode (msg req)) then Some (s, false, None) else
  match GetUnknownCriticalOptions (mOptions (msg req)) with
  | [] => Some (s, false, None)
  | unknown =>
      '(s, err) ← respondUnknownCriticalOptions s req unknown;
      match err with
      | Some e => Some (s, false, Some e)
      | None => Some (s, true, None)
      end
  end.

Definition handleReceivedRequest (s : State) (req : nat * M) : option (State * bool * option error) :=
  '(s, drop, err) ← shouldDropRequest s req.2;
  match err with
  | Some e => Some (s, false, Some e)
  | None =>
      if (drop : bool) then Some (s, true, None) else
      let '(drop, err) := requestMonitor req.2 in
      match err with
      | Some e => Some (s, false, Some e)
      | None =>
          if (drop : bool) then Some (s, true, None)
          else Some (pushToReceivedMessageQueue (Notify s) req, false, None)
      end
  end.

(** Each round consumes a frame, that is at least a byte. *)
Fixpoint processBuffer_loop (fuel : nat) (s : State) (buffer : Buffer) : option (State * Buffer * option error) :=
  match fuel with
  | O => None
  | S fuel =>
      if 0 <? zlen (b_data buffer) then
        '(s, buffer, r) ← decodeMessageFromBuffer s buffer;
        match r with
        | DecodeError e => Some (s, buffer, Some e)
        | NotReady => Some (s, buffer, None)
        | Ready req =>
            '(s, drop, err) ← handleReceivedRequest s req;
            match err with
            | Some e => Some (ReleaseMessage s req, buffer, Some e)
            | None =>
                let s := if (drop : bool) then ReleaseMessage s req else s in
                processBuffer_loop fuel s buffer
            end
        end
      else Some (s, buffer, None)
  end.

Definition processBuffer (s : State) (buffer : Buffer) : option (State * Buffer * option error) :=
  processBuffer_loop (S (length (b_data buffer))) s buffer.

(** [buffer.Write]; the capacity is kept while the bytes fit. *)
Definition Buffer_Write (b : Buffer) (p : list byte) : Buffer :=
  let data := b_data b ++ p in
  mkBuffer data (if zlen data <=? b_cap b then b_cap b else buffercap (zlen data)).

(** The session waits for the next read, or [Run] is leaving its loop. *)
Inductive outcome : Type :=
| Blocked (s : State) (buffer : Buffer)
| Leaving (s : State) (err : option error).

Fixpoint run_loop (s : State) (buffer : Buffer) (reads : list (list byte * option error)) : option outcome :=
  '(s, buffer, err) ← processBuffer s buffer;
  match err with
  | Some e => Some (Leaving s (Some e))
  | None =>
      let buffer := shrinkBufferIfNecessary buffer (connectionCacheSize s) in
      match reads with
      | [] => Some (Blocked s buffer)
      | read :: reads =>
          let '(c, (data, err)) := NetConn.ReadWithContext (connection s) (ctxDone s) read in
          let s := with_connection s c in
          match err with
          | Some e => Some (Leaving s (if IsConnectionBrokenError e then None else Some e))
          | None =>
              let buffer := if 0 <? zlen data then Buffer_Write buffer data else buffer in
              run_loop s buffer reads
          end
      end
  end.

(** The deferred function of [Run]. *)
Definition run_exit (s : State) (err : option error) : State * option error :=
  let '(s, err1) := Session_Close s in
  let err := match err with None => err1 | Some e => Some e end in
  (shutdown s, err).

(** [inl]: still running after the given reads. *)
Definition Run (s : State) (reads : list (list byte * option error)) : option (State * Buffer + State * option error) :=
  match errSendCSM s with
  | Some e => Some (inr (run_exit s (Some e)))
  | None =>
      o ← run_loop s (NewBuffer (connectionCacheSize s)) reads;
      match o with
      | Blocked s buffer => Some (inl (s, buffer))
      | Leaving s err => Some (inr (run_exit s err))
      end
  end.

(** The settings of the connection that its owner chose. *)
Record Config : Type := mkConfig {
  cfg_maxMessageSize : Z;
  cfg_connectionCacheSize : Z;
  cfg_disableCSM : bool;
  cfg_closeSocket : bool;
  cfg_disablePeerCSMs : bool
}.

(** [NewConnWithOpts] and [NewSession]; [token] is the result of [message.GetToken]. *)
Definition NewSession (c : NetConn.Conn) (cfg : Config) (token : result (list byte)) : State :=
  let s := mkState c (cfg_maxMessageSize cfg) (cfg_connectionCacheSize cfg) (cfg_disableCSM cfg) (cfg_closeSocket cfg)
             None false 0 [] [] false 0 [] 0 [] (cfg_disablePeerCSMs cfg) 0 false ∅ Tokenless.zero None [] [] 0 ∅ [] in
  if disableTCPSignalMessageCSM s then s else
  let '(s, err) := sendCSM s token in
  match err with
  | None => s
  | Some e => with_session s (Some e) (ctxDone s) (onClose s) (onCloseRan s) (doneClosed s)
  end.

Definition SetTCPSignalReceivedHandler (s : State) (handler : option nat) : State :=
  with_peer s (peerMaxMessageSize s) (peerBlockWiseTranferEnabled s) handler (signals s).

(** ** Requests *)

(** The cleanup function that [RegisterRequestHandler] returns. *)
Inductive Cleanup : Type :=
| CleanupTokenless (reg : nat)
| CleanupToken (key : Z).

Definition RegisterRequestHandler (s : State) (token : list byte) : State * (nat * Cleanup + error) :=
  let ch := nextChannel s in
  let handler := RequestHandler ch in
  if zlen token =? 0 then
    let '(tl, r) := Tokenless.Register (tokenless s) handler in
    match r with
    | inl reg => (with_handlers s (tokenHandlers s) tl (S ch), inl (ch, CleanupTokenless reg))
    | inr Tokenless.ErrTokenlessRequestsBlocked => (s, inr (ErrOther "tokenless requests blocked"))
    | inr Tokenless.ErrKeyAlreadyExists => (s, inr ErrKeyAlreadyExists)
    end
  else
    let '(th, (_, loaded)) := LoadOrStore handler (tokenHandlers s) (Token_Hash token) handler in
    if (loaded : bool) then (s, inr ErrKeyAlreadyExists)
    else (with_handlers s th (tokenless s) (S ch), inl (ch, CleanupToken (Token_Hash token))).

(** The flag of the result says that [ErrTokenlessRequestsBlocked] was joined. *)
Definition run_cleanup (s : State) (c : Cleanup) (requestErr : option write_error) : State * (option error * bool) :=
  let err := write_error_of <$> requestErr in
  match c with
  | CleanupTokenless reg =>
      let block := match requestErr with None | Some (RequestNotSent _) => false | Some (WriteFailed _) => true end in
      let '(tl, _) := Tokenless.cleanup (tokenless s) reg (negb block) in
      (with_handlers s (tokenHandlers s) tl (nextChannel s), (err, block))
  | CleanupToken key => ((LoadAndDelete_handler s key).1, (err, false))
  end.

(** [doInternal] up to its [select]; [cd] says whether the context of the request is done. *)
Definition doInternal_send (s : State) (cd : bool) (req : M)
    : State * (nat * Cleanup + option error * bool) :=
  let '(s, r) := RegisterRequestHandler s (default [] (Msg_Token req)) in
  match r with
  | inr e => (s, inr (Some e, false))
  | inl (ch, c) =>
      let '(s, _, err) := Session_WriteMessage s cd req in
      match err with
      | None => (s, inl (ch, c))
      | Some e => let '(s, r) := run_cleanup s c (Some e) in (s, inr r)
      end
  end.

(** The branches of the [select]. *)
Inductive wakeup : Type := RequestContextDone | ConnectionDone | ResponseReady.

(** [None]: the branch is not enabled. *)
Definition doInternal_wait (s : State) (ch : nat) (c : Cleanup) (w : wakeup)
    : option (State * (option (nat * M) * (option error * bool))) :=
  match w with
  | ResponseReady =>
      resp ← channels s !! ch;
      let s := with_deliveries s (pongs s) (delete ch (channels s)) (received s) in
      let '(s, r) := run_cleanup s c None in Some (s, (Some resp, r))
  | RequestContextDone =>
      let '(s, r) := run_cleanup s c (Some (WriteFailed ErrContext)) in Some (s, (None, r))
  | ConnectionDone =>
      if ctxDone s then let '(s, r) := run_cleanup s c (Some (WriteFailed ErrContext)) in Some (s, (None, r))
      else None
  end.

(** [receivedPong] is the callback; [inl key] is the function that removes the handler. *)
Definition AsyncPing (s : State) (token : result (list byte)) (receivedPong : nat) : State * (Z + error) :=
  match token with
  | Err e => (s, inr e)
  | Ok token =>
      let '(s, (id, req)) := AcquireMessage s in
      let req := SetToken req (Some token) in
      let req := SetCode req Ping in
      let key := Token_Hash token in
      let '(th, (_, loaded)) := LoadOrStore (PongHandler receivedPong) (tokenHandlers s) key (PongHandler receivedPong) in
      if (loaded : bool) then (ReleaseMessage s (id, req), inr ErrKeyAlreadyExists) else
      let s := with_handlers s th (tokenless s) (nextChannel s) in
      let '(s, req, err) := Session_WriteMessage s (ctxDone s) req in
      let '(s, r) := match err with
                     | Some e => ((LoadAndDelete_handler s key).1, inr (write_error_of e))
                     | None => (s, inl key)
                     end in
      (ReleaseMessage s (id, req), r)
  end.

(** ** Messages from the queue

    The observations and the block-wise engine are components of their own. *)
Context (observation_Handle : HandlerFunc).
Context (blockWise_Handle : option (HandlerFunc -> HandlerFunc)).

Definition handleResponse (removeHandler : bool) : HandlerFunc := fun s w r =>
  let observe := observation_Handle s w r in
  if (zlen (default [] (Msg_Token r.2)) =? 0) && (Created <=? mCode (msg r.2)) then
    let '(tl, h) := Tokenless.Load (tokenless s) removeHandler in
    match h with
    | Some h => call_handler h (with_handlers s (tokenHandlers s) tl (nextChannel s)) w r
    | None => observe
    end
  else if removeHandler then
    let '(s', h) := LoadAndDelete_handler s (token_key r.2) in
    match h with
    | Some h => call_handler h s' w r
    | None => observation_Handle s' w r
    end
  else match tokenHandlers s !! token_key r.2 with
       | Some h => call_handler h s w r
       | None => observe
       end.

Definition handle : HandlerFunc := fun s w r =>
  match blockWise_Handle with
  | Some bw => if peerBlockWiseTranferEnabled s then bw (handleResponse false) s w r else handleResponse true s w r
  | None => handleResponse true s w r
  end.

(** The reader of received messages takes the next message from the queue. *)
Definition ProcessReceivedMessage (s : State) (req : nat * M) : State :=
  ProcessReceivedMessageWithHandler s req handle.

Definition process_next (s : State) : option State :=
  match received s with
  | [] => None
  | req :: rest => Some (ProcessReceivedMessage (with_deliveries s (pongs s) (channels s) rest) req)
  end.

End TcpConn.
