(* ===== verification/TcpStream.v ===== *)
(** * Framing of the byte stream (src/tcp/client/session.go)

    Theorems about the session of [TcpConn]: what it delivers does not depend on how the
    network cuts the stream into reads, every frame is delivered once and in order, the
    buffer stays bounded, and the socket carries the answers. *)
From stdpp Require Import prelude list strings gmap.
From Stdlib Require Import ZArith Lia.
From S2P Require Import Prelude Cast Codes OptionCodec Options OptionsCodec Message TcpCoder PoolMessage.
From S2P Require Import Crc64 SyncMap Client TcpConn.
#[local] Open Scope Z_scope.

(** ** The frame header of arbitrary bytes *)

Lemma slice_from_more {A} (l k : list A) n : 0 <= n <= zlen l -> slice_from (l ++ k) n = slice_from l n ++ k.
Proof. intros. unfold slice_from. apply drop_app_le. unfold zlen in *. lia. Qed.

Lemma slice_to_more {A} (l k : list A) n : 0 <= n <= zlen l -> slice_to (l ++ k) n = slice_to l n.
Proof. intros. unfold slice_to. apply take_app_le. unfold zlen in *. lia. Qed.

Lemma DecodeHeader_len_spec nib data more :
  bytes_ok data -> 0 <= nib <= 15 ->
  match Tcp.DecodeHeader_len nib data with
  | Ok (e, n) => Tcp.DecodeHeader_len nib (data ++ more) = Ok (e, n) /\
      0 <= e <= 4 /\ e <= zlen data /\ 0 <= n < 2 ^ 33
  | Err x => x = ErrShortRead /\ zlen data < 4
  end.
Proof.
  intros Hb Hn. unfold Tcp.DecodeHeader_len, Tcp.MessageLength13Base, Tcp.MessageLength14Base, Tcp.MessageLength15Base.
  pose proof (zlen_nonneg data) as Hd. change (2 ^ 33) with 8589934592.
  destruct (Z.ltb_spec nib 13); [split_and!; done || lia|].
  destruct (Z.eqb_spec nib 13).
  { destruct data as [|b data]; [by split|]. apply Forall_cons in Hb as [[? ?] _].
    rewrite zlen_cons in *. pose proof (zlen_nonneg data). cbn [app]. split_and!; done || lia. }
  destruct (Z.eqb_spec nib 14).
  { destruct (Z.ltb_spec (zlen data) 2); [split; [done|lia]|].
    pose proof (be_combine_bound (slice_to data 2) (Forall_take _ _ _ Hb)) as Hc.
    rewrite zlen_slice_to in Hc by lia. change (2 ^ (8 * 2)) with 65536 in Hc.
    rewrite zlen_app, slice_to_more by lia. pose proof (zlen_nonneg more).
    destruct (Z.ltb_spec (zlen data + zlen more) 2); [lia|]. split_and!; done || lia. }
  destruct (Z.eqb_spec nib 15); [|lia].
  destruct (Z.ltb_spec (zlen data) 4); [split; [done|lia]|].
  pose proof (be_combine_bound (slice_to data 4) (Forall_take _ _ _ Hb)) as Hc.
  rewrite zlen_slice_to in Hc by lia. change (2 ^ (8 * 4)) with 4294967296 in Hc.
  rewrite zlen_app, slice_to_more by lia. pose proof (zlen_nonneg more).
  destruct (Z.ltb_spec (zlen data + zlen more) 4); [lia|]. split_and!; done || lia.
Qed.

(** More bytes do not change the answer once it is not "short read"; a header that is
    too short has fewer than 14 bytes; a complete header is inside the data and its
    message is at least as long. *)
Lemma DecodeHeader_spec data more :
  bytes_ok data ->
  let '(h, (n, err)) := Tcp.DecodeHeader data Tcp.zeroHeader in
  (err <> Some ErrShortRead -> Tcp.DecodeHeader (data ++ more) Tcp.zeroHeader = (h, (n, err))) /\
  (err = Some ErrShortRead -> zlen data < 14) /\
  (err = None -> 2 <= Tcp.hLength h <= zlen data /\ Tcp.hLength h <= Tcp.hMessageLength h < 4294967296).
Proof.
  intros Hb. unfold Tcp.DecodeHeader. destruct data as [|fb data]; [split_and!; intros; try done|].
  apply Forall_cons in Hb as [Hfb Hb]. unfold is_byte in Hfb. cbn [app].
  assert (0 <= Z.shiftr (Z.land fb 240) 4 <= 15 /\ 0 <= Z.land fb 15 <= 15) as [Hnib Htkl].
  { rewrite Z.shiftr_land. change (Z.shiftr 240 4) with 15.
    assert (forall x, 0 <= Z.land x 15 <= 15) as H15; [|by split].
    intros x. change 15 with (Z.ones 4) at 1 2. rewrite !Z.land_ones by lia. change (2 ^ 4) with 16.
    pose proof (Z.mod_pos_bound x 16). lia. }
  revert Hnib Htkl. generalize (Z.shiftr (Z.land fb 240) 4) as nib, (Z.land fb 15) as tkl. intros nib tkl Hnib Htkl.
  unfold MaxTokenSize. rewrite zlen_cons. pose proof (zlen_nonneg data) as Hd.
  destruct (Z.ltb_spec 8 tkl); [split_and!; done|].
  pose proof (DecodeHeader_len_spec nib data more Hb Hnib) as Hlen.
  destruct (Tcp.DecodeHeader_len nib data) as [[e n]|x]; [|destruct Hlen as [-> ?]; split_and!; done || lia].
  destruct Hlen as (-> & He & Hel & Hn). rewrite slice_from_more by lia.
  change (2 ^ 33) with 8589934592 in Hn. rewrite (uint32_id (1 + e)) by lia.
  unfold uint64. rewrite Z.mod_small by (change (2 ^ 64) with 18446744073709551616; lia).
  destruct (SafeCastTo KUint32 (1 + e + 1 + tkl + n)) as [[v [er|]]|] eqn:E; [split_and!; done| |split_and!; done].
  apply SafeCastTo_ok in E as [-> E]; [|lia]. change (max_value KUint32) with 4294967295 in E.
  assert (zlen (slice_from data e) = zlen data - e) as Hz by (apply zlen_slice_from; lia).
  destruct (slice_from data e) as [|code d] eqn:Ed.
  { change (zlen (@nil Z)) with 0 in Hz. split_and!; try done. intros _. lia. }
  rewrite zlen_cons in Hz. cbn [app Tcp.hToken Tcp.hLength Tcp.hMessageLength Tcp.hCode Tcp.zeroHeader].
  destruct (Z.ltb_spec (zlen d) tkl); [split_and!; try done; intros _; lia|].
  rewrite zlen_app. pose proof (zlen_nonneg more). destruct (Z.ltb_spec (zlen d + zlen more) tkl); [lia|].
  rewrite slice_to_more by lia. rewrite (uint32_id (1 + e + 1)) by lia. rewrite (uint32_id (1 + e + 1 + tkl)) by lia.
  split_and!; try done. intros _. cbn. lia.
Qed.

(** A successful decoding consumed exactly the announced length. *)
Lemma Tcp_Decode_consumes data m0 m n :
  bytes_ok data -> mOptions m0 = [] -> 0 <= mOptionsCap m0 -> zlen data < 4294967296 ->
  Tcp.Decode data m0 = (m, (n, None)) ->
  exists h k, Tcp.DecodeHeader data Tcp.zeroHeader = (h, (k, None)) /\ n = Tcp.hMessageLength h /\
    Tcp.hMessageLength h <= zlen data.
Proof.
  intros Hb Ho Hcap Hl. pose proof (DecodeHeader_spec data [] Hb) as Hspec. unfold Tcp.Decode.
  destruct (Tcp.DecodeHeader data Tcp.zeroHeader) as [h [k [e|]]] eqn:EH; [done|].
  destruct Hspec as (_ & _ & Hok). specialize (Hok eq_refl). pose proof (zlen_nonneg data).
  rewrite CastTo_uint32_id by lia. destruct (Z.ltb_spec (zlen data) (Tcp.hMessageLength h)) as [|Hle]; [done|].
  set (d := slice_from (slice_to data (Tcp.hMessageLength h)) (Tcp.hLength h)).
  assert (zlen d = Tcp.hMessageLength h - Tcp.hLength h) as Hd
    by (unfold d; rewrite zlen_slice_from; rewrite zlen_slice_to; lia).
  unfold Tcp.DecodeWithHeader. rewrite Ho.
  destruct (Options_Unmarshal [] (mOptionsCap m0) d (Tcp.optionDefs (Tcp.hCode h))) as [options [proc err]] eqn:EU.
  destruct err as [e|]; [done|]. intros [= _ <-]. exists h, k. split; [done|]. split; [|lia].
  apply Unmarshal_loop_sound in EU as (_ & _ & _ & _ & _ & _ & _ & Hn & _);
    [|done|by apply Forall_drop, Forall_take|lia|constructor|constructor|by change (zlen (@nil Option)) with 0].
  rewrite Z.sub_0_r in Hn. rewrite zlen_slice_from by lia. clearbody d. rewrite (CastTo_uint32_id proc), (CastTo_uint32_id (zlen d - proc)) by lia.
  rewrite (uint32_id (_ + proc)) by lia. rewrite uint32_id by lia. lia.
Qed.

Section Stream.
Context {Ctx CM B : Type} `{!ReadSeeker B}.
Abbreviation M := (Msg Ctx CM B).
Abbreviation State := (State (Ctx := Ctx) (CM := CM) (B := B)).
Context (growcap : Z -> Z).

(** What the pool promises of a message it hands out. *)
Definition fresh (r : M) : Prop :=
  mOptions (msg r) = [] /\ mPayload (msg r) = None /\ body r = None /\ 0 < mOptionsCap (msg r) /\
  isModified r = false /\ hijacked r = false.

Lemma decode_consumes fuel (r r' : M) n :
  bytes_ok (s_data (bufferUnmarshal r)) -> mOptions (msg r) = [] -> 0 <= mOptionsCap (msg r) ->
  zlen (s_data (bufferUnmarshal r)) < 4294967296 ->
  decode fuel TcpCoder r = Some (r', (n, None)) ->
  exists h k, Tcp.DecodeHeader (s_data (bufferUnmarshal r)) Tcp.zeroHeader = (h, (k, None)) /\
    n = Tcp.hMessageLength h.
Proof.
  revert r. induction fuel as [|fuel IH]; intros r Hb Ho Hc Hl; [done|]. cbn [decode].
  destruct (c_Decode TcpCoder (s_data (bufferUnmarshal r)) (msg r)) as [m [k err]] eqn:ED.
  case_bool_decide as Ee.
  - intros Hd. apply IH in Hd; [done|done|done| |done]. cbn. pose proof (zlen_nonneg (mOptions m)). lia.
  - intros [= <- <- ->]. cbn in ED. apply Tcp_Decode_consumes in ED as (h & k' & EH & -> & _); eauto.
Qed.

(** Unmarshalling ends, and consumes the announced length when it succeeds. *)
Lemma Unmarshal_frame (r : M) data :
  fresh r -> bytes_ok data -> zlen data < 4294967296 ->
  exists r' n err, UnmarshalWithDecoder growcap (S (length data)) TcpCoder r data = Some (r', (n, err)) /\
    (err = None -> exists h k, Tcp.DecodeHeader data Tcp.zeroHeader = (h, (k, None)) /\ n = Tcp.hMessageLength h).
Proof.
  intros (Ho & Hp & Hbody & Hcap & Hm & Hh) Hb Hl.
  destruct (Msg_decode_terminates growcap TcpCoder r data Hb Hcap) as (r' & n & err & E & _);
    [rewrite Ho; change (zlen (@nil Option)) with 0; lia|].
  exists r', n, err. split; [done|]. intros ->. revert E. unfold UnmarshalWithDecoder. set (bu := Slice_to _ _).
  assert (s_data bu = data) as Hbu by apply unmarshal_buffer.
  destruct (decode _ _ _) as [[r1 [n1 [e|]]]|] eqn:ED; [done| |done]. intros [= _ <-].
  apply decode_consumes in ED; cbn [bufferUnmarshal with_buffers] in *; rewrite ?Hbu in *; try done. cbn. lia.
Qed.

(** ** The buffer *)

Lemma seek_loop_ok fuel data cap msgSize trimmed :
  0 <= trimmed <= msgSize -> msgSize - trimmed <= zlen data -> msgSize - trimmed < Z.of_nat fuel ->
  seek_loop fuel (mkBuffer data cap) msgSize trimmed = Some (mkBuffer (slice_from data (msgSize - trimmed)) cap).
Proof.
  revert data trimmed. induction fuel as [|fuel IH]; intros data trimmed Ht Hl Hf; [lia|]. cbn [seek_loop].
  destruct (Z.eqb_spec trimmed msgSize) as [->|Hne]; [by rewrite Z.sub_diag|].
  set (toRead := if msgSize - trimmed <? 4096 then _ else _).
  assert (1 <= toRead <= msgSize - trimmed) as Hr
    by (unfold toRead; destruct (Z.ltb_spec (msgSize - trimmed) 4096); lia).
  unfold Buffer_Read. cbn [b_data b_cap]. rewrite Z.min_l by lia.
  rewrite IH by (rewrite ?zlen_slice_from; lia). rewrite slice_from_slice_from by lia. do 3 f_equal. lia.
Qed.

Lemma seekBuffer_ok data cap msgSize :
  0 <= msgSize <= zlen data ->
  seekBufferToNextMessage (mkBuffer data cap) msgSize = Some (mkBuffer (slice_from data msgSize) cap).
Proof.
  intros H. unfold seekBufferToNextMessage. cbn [b_data].
  destruct (Z.eqb_spec msgSize (zlen data)) as [->|]; [by rewrite slice_from_beyond by lia|].
  rewrite seek_loop_ok by lia. do 3 f_equal. lia.
Qed.

Context (supply : nat -> M) (Hfresh : forall n, fresh (supply n)).
Context (requestMonitor : M -> bool * option error).
Context (buffercap : Z -> Z).
Context (IsConnectionBrokenError : error -> bool).
Context (select_send : nat -> bool).

Abbreviation decodeMessage := (decodeMessageFromBuffer growcap supply).
Abbreviation handleRequest := (handleReceivedRequest growcap supply requestMonitor IsConnectionBrokenError select_send).
Abbreviation process_loop := (processBuffer_loop growcap supply requestMonitor IsConnectionBrokenError select_send).
Abbreviation process := (processBuffer growcap supply requestMonitor IsConnectionBrokenError select_send).
Abbreviation run := (run_loop growcap supply requestMonitor buffercap IsConnectionBrokenError select_send).

(** The parts of the state that the processing of messages leaves alone. *)
Definition settings (s : State) : Z * Z * bool * bool * option error :=
  (maxMessageSize s, connectionCacheSize s, ctxDone s, NetConn.closed (connection s),
   NetConn.handshakeErr (connection s)).

Definition live (s : State) : Prop :=
  ctxDone s = false /\ NetConn.closed (connection s) = false /\ NetConn.handshakeErr (connection s) = None.

(** A step of the decoder on the bytes [d]: it waits only when a frame is incomplete,
    otherwise what follows [d] in the buffer has no influence. *)
Definition decode_step (s : State) (d : list byte) (s' : State) (d' : list byte) (r : decoded) : Prop :=
  (forall cap more, (r = NotReady -> more = []) -> zlen (d ++ more) < 4294967296 ->
     decodeMessage s (mkBuffer (d ++ more) cap) = Some (s', mkBuffer (d' ++ more) cap, r)) /\
  settings s' = settings s /\
  match r with
  | NotReady => s' = s /\ d' = d /\ zlen d < Z.max 14 (maxMessageSize s)
  | DecodeError _ => d' = d
  | Ready _ => exists n, 2 <= n <= zlen d /\ d' = slice_from d n
  end.

(** The frame has the header of the buffer. *)
Lemma frame_header_same d n h k h' k' :
  bytes_ok d -> Tcp.DecodeHeader d Tcp.zeroHeader = (h, (k, None)) ->
  Tcp.DecodeHeader (slice_to d n) Tcp.zeroHeader = (h', (k', None)) -> h' = h.
Proof.
  intros Hb EH EH'. pose proof (DecodeHeader_spec (slice_to d n) (slice_from d n) ltac:(by apply Forall_take)) as H.
  rewrite EH' in H. destruct H as (H & _). rewrite slice_to_from, EH in H. by injection (H ltac:(done)).
Qed.

(** The buffer starts with a complete frame. *)
Lemma decodeMessage_complete s d h k :
  bytes_ok d -> zlen d < 4294967296 -> Tcp.DecodeHeader d Tcp.zeroHeader = (h, (k, None)) ->
  Tcp.hMessageLength h <= maxMessageSize s -> Tcp.hMessageLength h <= zlen d ->
  exists s' d' r, decode_step s d s' d' r.
Proof.
  intros Hb Hl EH Hmax Hge. pose proof (fun more => DecodeHeader_spec d more Hb) as Hspec. rewrite EH in Hspec.
  pose proof (fun more => proj1 (Hspec more) ltac:(done)) as Hst.
  pose proof (proj2 (proj2 (Hspec [])) eq_refl) as (Hh1 & Hh2).
  set (data := slice_to d (Tcp.hMessageLength h)).
  assert (zlen data = Tcp.hMessageLength h) as Hdl by (unfold data; rewrite zlen_slice_to; lia).
  destruct (Unmarshal_frame (supply (acquired s)) data (Hfresh _)) as (req & read & err & EU & Hread);
    [by apply Forall_take|lia|].
  assert (err = None -> read = Tcp.hMessageLength h) as Hrd.
  { intros ->. destruct (Hread eq_refl) as (h' & k' & EH' & ->). by rewrite (frame_header_same _ _ _ _ _ _ Hb EH EH'). }
  assert (forall cap more, zlen (d ++ more) < 4294967296 ->
    decodeMessage s (mkBuffer (d ++ more) cap) =
    match err with
    | Some e => Some (ReleaseMessage (AcquireMessage supply s).1 (acquired s, req), mkBuffer (d ++ more) cap, DecodeError e)
    | None => Some ((Sequence (AcquireMessage supply s).1).1, mkBuffer (slice_from d read ++ more) cap,
                Ready (acquired s, SetSequence req (Sequence (AcquireMessage supply s).1).2))
    end) as Hrun.
  { intros cap more Hlen. unfold decodeMessageFromBuffer. cbn [b_data]. rewrite Hst. pose proof (zlen_nonneg (d ++ more)).
    rewrite CastTo_uint32_id by lia. destruct (Z.ltb_spec (maxMessageSize s) (Tcp.hMessageLength h)); [lia|].
    rewrite zlen_app in *. pose proof (zlen_nonneg more).
    destruct (Z.ltb_spec (zlen d + zlen more) (Tcp.hMessageLength h)); [lia|]. cbn [AcquireMessage].
    rewrite slice_to_more by lia. fold data. rewrite EU. cbn [mbind option_bind]. destruct err as [e|]; [done|].
    rewrite (Hrd eq_refl), seekBuffer_ok by (rewrite zlen_app; lia).
    cbn [mbind option_bind]. by rewrite slice_from_more by lia. }
  destruct err as [e|]; eexists _, _, _; (split; [intros cap more _ Hlen; exact (Hrun cap more Hlen)|]); split; try done.
  exists read. rewrite (Hrd eq_refl). split; [lia|done].
Qed.

Lemma decodeMessage_step s d :
  bytes_ok d -> zlen d < 4294967296 -> exists s' d' r, decode_step s d s' d' r.
Proof.
  intros Hb Hl. pose proof (fun more => DecodeHeader_spec d more Hb) as Hspec.
  destruct (Tcp.DecodeHeader d Tcp.zeroHeader) as [h [k [e|]]] eqn:EH.
  - destruct (decide (e = ErrShortRead)) as [-> | Hne].
    + exists s, d, NotReady. split; [|destruct (Hspec []) as (_ & Hs & _); specialize (Hs eq_refl); split_and!; done || lia].
      intros cap more Hm _. unfold decodeMessageFromBuffer. cbn [b_data]. by rewrite Hm, !app_nil_r, EH by done.
    + exists s, d, (DecodeError e). split; [|done]. intros cap more _ _. unfold decodeMessageFromBuffer. cbn [b_data].
      destruct (Hspec more) as (Hst & _). rewrite Hst by congruence. by destruct e.
  - pose proof (fun more => proj1 (Hspec more) ltac:(done)) as Hst.
    destruct (Z.lt_ge_cases (maxMessageSize s) (Tcp.hMessageLength h)) as [Hmax|Hmax].
    { exists s, d, (DecodeError (ErrOther "max message size was exceeded")). split; [|done].
      intros cap more _ _. unfold decodeMessageFromBuffer. cbn [b_data]. rewrite Hst.
      by destruct (Z.ltb_spec (maxMessageSize s) (Tcp.hMessageLength h)); [|lia]. }
    destruct (Z.lt_ge_cases (zlen d) (Tcp.hMessageLength h)) as [Hlt|Hge]; [|by eapply decodeMessage_complete].
    exists s, d, NotReady. split; [|split_and!; done || lia]. intros cap more Hm _.
    unfold decodeMessageFromBuffer. cbn [b_data]. rewrite Hst, Hm, app_nil_r by done.
    pose proof (zlen_nonneg d). rewrite CastTo_uint32_id by lia.
    destruct (Z.ltb_spec (maxMessageSize s) (Tcp.hMessageLength h)); [lia|].
    by destruct (Z.ltb_spec (zlen d) (Tcp.hMessageLength h)); [|lia].
Qed.

Lemma live_settings s s' : settings s' = settings s -> live s -> live s'.
Proof. unfold settings, live. intros [= _ _ -> -> ->]. done. Qed.

Lemma Session_WriteMessage_settings s cd r :
  live s -> settings (Session_WriteMessage growcap s cd r).1.1 = settings s.
Proof.
  intros (_ & _ & Hh). unfold Session_WriteMessage.
  destruct (MarshalWithEncoder growcap TcpCoder r) as [r' [[data|] [e|]]]; [done| |done|done].
  unfold NetConn.WriteWithContext, NetConn.handshake. rewrite Hh.
  destruct (NetConn.write_loop _ _ _ _ _) as [[sc out] err]. done.
Qed.

Lemma ProcessHandler_settings s req h :
  live s -> settings (ProcessReceivedMessageWithHandler growcap supply s req (call_handler h)) = settings s.
Proof.
  intros Hl. unfold ProcessReceivedMessageWithHandler. cbn [AcquireMessage].
  set (s0 := with_pool _ _ _). set (w := NewWriter _ _).
  assert (isModified (w_message w).2 = false) as Hm by (destruct (Hfresh (acquired s)) as (_ & _ & _ & _ & ? & _); done).
  assert (exists s1 req', call_handler h s0 w req = (s1, w, req') /\ settings s1 = settings s) as (s1 & req' & -> & Hs).
  { unfold call_handler. destruct h as [ch|f]; [destruct (channels s0 !! ch)|destruct (_ =? Pong)]; eauto. }
  rewrite Hm. by destruct (hijacked req'.2).
Qed.

Lemma signal_settings s c : settings (handleTCPSignalReceived s c) = settings s.
Proof. unfold handleTCPSignalReceived. by destruct (tcpSignalReceivedHandler s). Qed.

Lemma handleSignals_settings s req :
  live s -> settings (handleSignals growcap supply IsConnectionBrokenError s req).1 = settings s.
Proof.
  intros Hl. unfold handleSignals. destruct (_ =? CSM).
  { destruct (disablePeerTCPSignalMessageCSMs s); [done|]. cbn [fst]. by rewrite signal_settings. }
  destruct (_ =? Ping).
  { unfold sendPong. cbn [AcquireMessage]. set (s0 := with_pool _ _ _). set (r := SetToken _ _).
    pose proof (Session_WriteMessage_settings s0 (ctxDone s0) r Hl) as Hw.
    destruct (Session_WriteMessage growcap s0 (ctxDone s0) r) as [[s1 r1] err]. cbn [fst] in *.
    rewrite signal_settings. destruct err as [e|]; [destruct (IsConnectionBrokenError _)|]; exact Hw. }
  destruct (_ =? Pong).
  { unfold LoadAndDelete_handler. cbn [fst snd]. rewrite signal_settings.
    destruct (tokenHandlers s !! _); [by rewrite ProcessHandler_settings|done]. }
  destruct (_ =? Release); [cbn [fst]; by rewrite signal_settings|].
  destruct (_ =? Abort); [cbn [fst]; by rewrite signal_settings|done].
Qed.

Lemma push_settings s req :
  live s -> settings (pushToReceivedMessageQueue growcap supply IsConnectionBrokenError select_send s req) = settings s.
Proof.
  intros Hl. unfold pushToReceivedMessageQueue. pose proof (handleSignals_settings s req Hl) as Hs.
  destruct (handleSignals growcap supply IsConnectionBrokenError s req) as [s1 [|]]; [done|]. cbn [fst] in Hs.
  by destruct (_ && _).
Qed.

Lemma shouldDrop_settings s req :
  live s -> exists s' drop err, shouldDropRequest growcap supply s req = Some (s', drop, err) /\ settings s' = settings s.
Proof.
  intros Hl. unfold shouldDropRequest. destruct (_ || _); [eauto|].
  destruct (GetUnknownCriticalOptions _) as [|u us]; [eauto|]. unfold respondUnknownCriticalOptions. cbn [AcquireMessage].
  unfold Msg_SetContentFormat. set (r0 := SetToken _ _).
  destruct (SetOptionUint32_ok r0 ContentFormat TextPlain) as [buf ->]; [done|]. cbn [mbind option_bind].
  set (s0 := with_pool _ _ _). set (r1 := SetBody _ _).
  pose proof (Session_WriteMessage_settings s0 (ctxDone s0) r1 Hl) as Hw.
  destruct (Session_WriteMessage growcap s0 (ctxDone s0) r1) as [[s1 r2] err]. cbn [fst] in Hw. cbn [mbind option_bind].
  destruct err as [e|]; cbn [fmap option_fmap option_map]; eauto.
Qed.

(** A message is always dealt with, and the session goes on unchanged. *)
Lemma handleRequest_total s req :
  live s -> exists s' drop err, handleRequest s req = Some (s', drop, err) /\ settings s' = settings s.
Proof.
  intros Hl. unfold handleReceivedRequest.
  destruct (shouldDrop_settings s req.2 Hl) as (s1 & drop & err & -> & Hs). cbn [mbind option_bind].
  destruct err as [e|]; [eauto|]. destruct drop; [eauto|].
  destruct (requestMonitor req.2) as [drop [e|]]; [eauto|]. destruct drop; [eauto|].
  eexists _, _, _. split; [done|]. rewrite push_settings; [done|]. by apply (live_settings s).
Qed.

(** ** The processing of the buffer *)

Lemma bytes_ok_drop d n : bytes_ok d -> bytes_ok (slice_from d n).
Proof. apply Forall_drop. Qed.

Lemma settings_release s (drop : bool) (req : nat * M) :
  settings (if drop then ReleaseMessage s req else s) = settings s.
Proof. by destruct drop. Qed.

(** Fuel beyond the length of the buffer makes no difference. *)
Lemma process_loop_fuel fuel : forall fuel' s d cap,
  live s -> bytes_ok d -> zlen d < 4294967296 -> (length d < fuel)%nat -> (length d < fuel')%nat ->
  process_loop fuel s (mkBuffer d cap) = process_loop fuel' s (mkBuffer d cap).
Proof.
  induction fuel as [|fuel IH]; intros [|fuel'] s d cap Hl Hb Hz Hf Hf'; try lia. cbn [processBuffer_loop b_data].
  destruct (0 <? zlen d); [|done].
  destruct (decodeMessage_step s d Hb Hz) as (s1 & d1 & r & Hrun & Hs1 & Hr).
  specialize (Hrun cap [] ltac:(done)). rewrite !app_nil_r in Hrun. rewrite Hrun by done. cbn [mbind option_bind].
  destruct r as [|req|e]; [done| |done]. destruct Hr as (n & Hn & ->).
  destruct (handleRequest_total s1 req) as (s2 & drop & err & -> & Hs2); [by eapply live_settings|]. cbn [mbind option_bind].
  destruct err as [e|]; [done|].
  apply IH; [|by apply bytes_ok_drop|rewrite zlen_slice_from; lia|unfold slice_from; rewrite length_drop; unfold zlen in *; lia..].
  apply (live_settings s); [|done]. rewrite settings_release. congruence.
Qed.

(** Processing [d] leaves [d'], whatever is behind it; a [d'] that is left without an
    error is an incomplete frame. *)
Definition process_step (s : State) (d : list byte) (s' : State) (d' : list byte) (err : option error) : Prop :=
  settings s' = settings s /\ bytes_ok d' /\ zlen d' <= zlen d /\
  (forall cap, process s (mkBuffer d cap) = Some (s', mkBuffer d' cap, err)) /\
  (err = None -> zlen d' < Z.max 14 (maxMessageSize s)) /\
  (forall cap more, bytes_ok more -> zlen (d ++ more) < 4294967296 ->
     process s (mkBuffer (d ++ more) cap) =
       match err with
       | Some e => Some (s', mkBuffer (d' ++ more) cap, Some e)
       | None => process s' (mkBuffer (d' ++ more) cap)
       end).

Lemma process_unfold s d cap :
  0 < zlen d -> process s (mkBuffer d cap) =
    '(s, buffer, r) ← decodeMessage s (mkBuffer d cap);
    match r with
    | DecodeError e => Some (s, buffer, Some e)
    | NotReady => Some (s, buffer, None)
    | Ready req =>
        '(s, drop, err) ← handleRequest s req;
        match err with
        | Some e => Some (ReleaseMessage s req, buffer, Some e)
        | None => process_loop (length d) (if (drop : bool) then ReleaseMessage s req else s) buffer
        end
    end.
Proof. intros H. unfold processBuffer. cbn [processBuffer_loop b_data]. by destruct (Z.ltb_spec 0 (zlen d)); [|lia]. Qed.

Lemma process_spec n : forall s d,
  (length d <= n)%nat -> live s -> bytes_ok d -> zlen d < 4294967296 ->
  exists s' d' err, process_step s d s' d' err.
Proof.
  induction n as [|n IH]; intros s d Hn Hl Hb Hz; (destruct d as [|b d0] eqn:Ed;
    [exists s, [], None; split_and!; try done; change (zlen (@nil byte)) with 0; lia|]); [cbn in Hn; lia|].
  rewrite <-Ed in *. assert (0 < zlen d) as Hpos by (rewrite Ed, zlen_cons; pose proof (zlen_nonneg d0); lia). clear Ed b d0.
  destruct (decodeMessage_step s d Hb Hz) as (s1 & d1 & r & Hrun & Hs1 & Hr).
  assert (forall cap, decodeMessage s (mkBuffer d cap) = Some (s1, mkBuffer d1 cap, r)) as Hrun0.
  { intros cap. specialize (Hrun cap [] ltac:(done)). rewrite !app_nil_r in Hrun. by apply Hrun. }
  destruct r as [|req|e].
  - destruct Hr as (-> & -> & Hlt). exists s, d, None. split_and!; try done.
    intros cap. rewrite process_unfold, Hrun0 by done. done.
  - destruct Hr as (k & Hk & ->).
    destruct (handleRequest_total s1 req) as (s2 & drop & err & Hh & Hs2); [by eapply live_settings|].
    assert (forall cap more, zlen (d ++ more) < 4294967296 -> bytes_ok more ->
      process s (mkBuffer (d ++ more) cap) =
        match err with
        | Some e => Some (ReleaseMessage s2 req, mkBuffer (slice_from d k ++ more) cap, Some e)
        | None => process (if drop then ReleaseMessage s2 req else s2) (mkBuffer (slice_from d k ++ more) cap)
        end) as Hp.
    { intros cap more Hlen Hbm. rewrite process_unfold by (rewrite zlen_app; pose proof (zlen_nonneg more); lia).
      rewrite Hrun by done. cbn [mbind option_bind]. rewrite Hh. cbn [mbind option_bind]. destruct err as [e|]; [done|].
      rewrite zlen_app in Hlen. apply process_loop_fuel.
      - apply (live_settings s); [|done]. rewrite settings_release. congruence.
      - apply Forall_app. split; [by apply bytes_ok_drop|done].
      - rewrite zlen_app, zlen_slice_from by lia. lia.
      - rewrite !length_app. unfold slice_from. rewrite length_drop. unfold zlen in *. lia.
      - cbn [b_data]. lia. }
    assert (settings (if drop then ReleaseMessage s2 req else s2) = settings s) as Hs3 by (rewrite settings_release; congruence).
    assert (zlen (slice_from d k) < zlen d) by (rewrite zlen_slice_from; lia).
    destruct err as [e|].
    + exists (ReleaseMessage s2 req), (slice_from d k), (Some e). split_and!; try done; [change (settings s2 = settings s); congruence|by apply bytes_ok_drop|lia| |].
      * intros cap. specialize (Hp cap []). rewrite !app_nil_r in Hp. apply Hp; [done|constructor].
      * intros cap more ? ?. by apply Hp.
    + destruct (IH (if drop then ReleaseMessage s2 req else s2) (slice_from d k)) as (s' & d' & err & E1 & E2 & E3 & E4 & E5 & E6).
      * unfold slice_from. rewrite length_drop. unfold zlen in *. lia.
      * by apply (live_settings s).
      * by apply bytes_ok_drop.
      * lia.
      * exists s', d', err. split_and!; try done; [congruence|lia| | |].
        -- intros cap. specialize (Hp cap []). rewrite !app_nil_r in Hp. rewrite Hp by (done || constructor). done.
        -- intros He. specialize (E5 He). injection Hs3 as <- _ _ _ _. done.
        -- intros cap more ? Hlen. rewrite Hp by done. apply E6; [done|]. rewrite zlen_app in *. lia.
  - subst d1. exists s1, d, (Some e). split_and!; try done.
    + intros cap. by rewrite process_unfold, Hrun0 by done.
    + intros cap more ? ?. rewrite process_unfold by (rewrite zlen_app; pose proof (zlen_nonneg more); lia). by rewrite Hrun.
Qed.

(** ** The reads *)

(** A raw [Read] that succeeded. *)
Definition ok (c : list byte) : list byte * option error := (c, None).

(** The reference: the whole stream processed at once. *)
Definition whole_stream (s : State) (d : list byte) : option (State * (list byte + option error)) :=
  '(s', b, err) ← process s (mkBuffer d 0);
  match err with
  | None => Some (s', inl (b_data b))
  | Some e => Some (s', inr (Some e))
  end.

(** What can be seen of a run: not the capacity of its buffer. *)
Definition outcome_obs (o : outcome) : State * (list byte + option error) :=
  match o with
  | Blocked s b => (s, inl (b_data b))
  | Leaving s err => (s, inr err)
  end.

Lemma shrink_data b c : b_data (shrinkBufferIfNecessary b c) = b_data b.
Proof.
  unfold shrinkBufferIfNecessary. destruct (Z.eqb_spec (zlen (b_data b)) 0) as [Hz|]; [|done].
  apply zlen_0_nil in Hz. cbn [andb]. by destruct (c <? b_cap b).
Qed.

Lemma read_live (s : State) read :
  live s -> NetConn.ReadWithContext (connection s) (ctxDone s) read = (connection s, read).
Proof. intros (H1 & H2 & H3). unfold NetConn.ReadWithContext, NetConn.handshake. by rewrite H1, H2, H3. Qed.

Lemma with_same_connection (s : State) : with_connection s (connection s) = s.
Proof. by destruct s. Qed.

Lemma buffer_after_read b c :
  b_data (if 0 <? zlen c then Buffer_Write buffercap b c else b) = b_data b ++ c.
Proof.
  destruct (Z.ltb_spec 0 (zlen c)) as [|Hz]; [done|].
  by rewrite (zlen_0_nil c), app_nil_r by (pose proof (zlen_nonneg c); lia).
Qed.

Lemma bytes_ok_app a b : bytes_ok (a ++ b) -> bytes_ok a /\ bytes_ok b.
Proof. apply Forall_app. Qed.

(** Reading the stream in pieces is processing it at once. *)
Lemma run_whole_stream cs : forall s b,
  live s -> bytes_ok (b_data b ++ concat cs) -> zlen (b_data b ++ concat cs) < 4294967296 ->
  exists o, run s b (ok <$> cs) = Some o /\ whole_stream s (b_data b ++ concat cs) = Some (outcome_obs o) /\
    (forall s' b', o = Blocked s' b' -> settings s' = settings s /\ zlen (b_data b') < Z.max 14 (maxMessageSize s)).
Proof.
  induction cs as [|c cs IH]; intros s [d cap] Hl Hb Hz; cbn [b_data concat fmap list_fmap run_loop] in *;
    apply bytes_ok_app in Hb as [Hbd Hbc]; pose proof Hz as Hz'; rewrite zlen_app in Hz'.
  - destruct (process_spec (length d) s d) as (s1 & d1 & err & E1 & _ & _ & E4 & E5 & _);
      [done|done|done|by rewrite app_nil_r in Hz|].
    rewrite E4. unfold whole_stream. rewrite app_nil_r, E4. cbn [mbind option_bind]. destruct err as [e|].
    + by exists (Leaving s1 (Some e)).
    + eexists. split; [done|]. cbn [outcome_obs]. rewrite shrink_data. split; [done|].
      intros s' b' [= <- <-]. rewrite shrink_data. eauto.
  - pose proof (zlen_nonneg (c ++ concat cs)).
    destruct (process_spec (length d) s d) as (s1 & d1 & err & E1 & E2 & E3 & E4 & E5 & E6); [done|done|done|lia|].
    rewrite E4. unfold whole_stream. rewrite E6 by done. cbn [mbind option_bind]. destruct err as [e|].
    { by exists (Leaving s1 (Some e)). }
    assert (live s1) as Hl1 by (by apply (live_settings s)).
    rewrite read_live by done. cbn [ok]. rewrite with_same_connection.
    set (b' := if 0 <? zlen c then _ else _).
    assert (b_data b' = d1 ++ c) as Hb' by (unfold b'; by rewrite buffer_after_read, shrink_data).
    destruct (IH s1 b') as (o & Hrun & Hw & Hbl); [done|rewrite Hb', <-app_assoc; by apply Forall_app| |].
    { rewrite Hb', <-app_assoc, zlen_app. lia. }
    exists o. split; [done|]. rewrite Hb', <-app_assoc in Hw. split; [exact Hw|].
    intros s' b'' Ho. destruct (Hbl s' b'' Ho) as [F1 F2]. split; [congruence|]. by injection E1 as <- _ _ _ _.
Qed.

(** ** Delivery of well-formed frames *)

Lemma options_bytes_count prev opts : zlen opts <= zlen (options_bytes prev opts).
Proof.
  revert prev. induction opts as [|o opts IH]; intros prev; [done|]. cbn [options_bytes].
  rewrite zlen_cons, zlen_app. pose proof (option_bytes_pos prev o). specialize (IH (ID o)). lia.
Qed.

(** The message [r] has the contents of [m]. *)
Definition carries `{!ReadSeekerLaws B} (m : Message) (r : M) : Prop :=
  mToken (msg r) = nil_if_empty (token m) /\ mCode (msg r) = mCode m /\ opts_of r = mOptions m /\
  body_content r = payload m.

Context `{!ReadSeekerLaws B}.

Lemma Unmarshal_bytes (r : M) m :
  fresh r -> Tcp.wf_tcp m -> zlen (Tcp.bytes m) < 4294967296 ->
  exists r', UnmarshalWithDecoder growcap (S (length (Tcp.bytes m))) TcpCoder r (Tcp.bytes m) =
      Some (r', (zlen (Tcp.bytes m), None)) /\ carries m r'.
Proof.
  intros (Ho & Hp & Hb & Hcap & _) Hwf Hl. unfold UnmarshalWithDecoder. set (bu := Slice_to _ _).
  assert (s_data bu = Tcp.bytes m) as Hbu by apply unmarshal_buffer.
  assert (zlen (mOptions m) <= zlen (Tcp.bytes m)) as Hcount.
  { pose proof (options_bytes_count 0 (mOptions m)). unfold Tcp.bytes, Tcp.body. rewrite !zlen_app.
    pose proof (zlen_nonneg (Tcp.header m)). pose proof (zlen_nonneg (payload_bytes (payload m))). lia. }
  destruct (decode_bytes TcpCoder (S (length (Tcp.bytes m))) (with_buffers (with_body r None) bu (bufferMarshal (with_body r None)))
              m) as (m0 & _ & Hd); [done|done|done|done|done|done|cbn; unfold zlen in *; lia|].
  rewrite Hd. eexists. split; [done|]. unfold carries.
  destruct (c_decode_same (C := TcpCoder) m m0) as (Ht & Hopt & Hcode & Hpay).
  set (r0 := with_msg _ _).
  assert (payload (msg r0) = payload m) as Hpl.
  { unfold r0, payload. cbn [msg with_msg]. rewrite Hpay. by rewrite default_nil_if_empty. }
  rewrite Hpl, body_content_new by done. unfold opts_of.
  by destruct (0 <? zlen (payload m)); cbn [msg with_body with_msg r0].
Qed.

Lemma carries_sequence m r seq : carries m r -> carries m (SetSequence r seq).
Proof. done. Qed.

Lemma decodeMessage_frame s m rest :
  Tcp.wf_tcp m -> zlen (Tcp.bytes m) <= maxMessageSize s -> zlen (Tcp.bytes m ++ rest) < 4294967296 ->
  exists r, carries m r /\ sequence r = uint64 (sequenceCounter s + 1) /\
    forall cap, decodeMessage s (mkBuffer (Tcp.bytes m ++ rest) cap) =
      Some ((Sequence (AcquireMessage supply s).1).1, mkBuffer rest cap, Ready (acquired s, r)).
Proof.
  intros Hwf Hmax Hl. pose proof (zlen_nonneg rest). pose proof (zlen_nonneg (Tcp.bytes m)).
  pose proof Hl as Hl'. rewrite zlen_app in Hl'.
  destruct (Unmarshal_bytes (supply (acquired s)) m (Hfresh _) Hwf) as (r & EU & Hc); [lia|].
  exists (SetSequence r (uint64 (sequenceCounter s + 1))). split; [by apply carries_sequence|]. split; [done|].
  intros cap. pose proof (zlen_nonneg (Tcp.bytes m ++ rest)). unfold decodeMessageFromBuffer. cbn [b_data].
  replace (Tcp.DecodeHeader (Tcp.bytes m ++ rest) Tcp.zeroHeader)
    with (frame_header m, (zlen (Tcp.header m), @None error)).
  2:{ unfold Tcp.bytes. by rewrite <-app_assoc, (DecodeHeader_ok m Hwf). }
  unfold frame_header. cbn [Tcp.hMessageLength].
  destruct (Z.ltb_spec (maxMessageSize s) (zlen (Tcp.bytes m))); [lia|].
  rewrite CastTo_uint32_id by lia. destruct (Z.ltb_spec (zlen (Tcp.bytes m ++ rest)) (zlen (Tcp.bytes m))); [rewrite zlen_app in *; lia|].
  cbn [AcquireMessage]. rewrite slice_to_app, EU. cbn [mbind option_bind].
  rewrite seekBuffer_ok by (rewrite zlen_app; lia). rewrite slice_from_app. done.
Qed.

(** A message that the session passes on: not a signal, and no request with an
    unknown critical option. *)
Definition ordinary (m : Message) : Prop :=
  mCode m ∉ [CSM; Ping; Pong; Release; Abort] /\
  (GET <= mCode m < 32 -> GetUnknownCriticalOptions (mOptions m) = []).

Definition arrived (s : State) (r : M) : State :=
  let s1 := Notify (Sequence (AcquireMessage supply s).1).1 in
  with_deliveries s1 (pongs s1) (channels s1) (received s1 ++ [(acquired s, r)]).

Lemma handleRequest_ordinary s id m r :
  live s -> ordinary m -> carries m r -> requestMonitor r = (false, None) ->
  handleRequest s (id, r) =
    Some (with_deliveries (Notify s) (pongs s) (channels s) (received s ++ [(id, r)]), false, None).
Proof.
  intros (Hcd & _) [Hsig Hcrit] (_ & Hcode & Hopts & _) Hmon. unfold handleReceivedRequest, shouldDropRequest. cbn [snd].
  assert ((if (mCode (msg r) <? GET) || (32 <=? mCode (msg r)) then Some (s, false, None) else
           match GetUnknownCriticalOptions (mOptions (msg r)) with
           | [] => Some (s, false, None)
           | unknown => '(s, err) ← respondUnknownCriticalOptions growcap supply s r unknown;
               match err with Some e => Some (s, false, Some e) | None => Some (s, true, None) end
           end) = Some (s, false, @None error)) as ->.
  { destruct (Z.ltb_spec (mCode (msg r)) GET); [done|]. destruct (Z.leb_spec 32 (mCode (msg r))); [done|]. cbn [orb].
    unfold opts_of in Hopts. rewrite Hopts, Hcrit by lia. done. }
  cbn [mbind option_bind]. rewrite Hmon. unfold pushToReceivedMessageQueue, handleSignals. cbn [snd fst].
  rewrite Hcode. rewrite !not_elem_of_cons in Hsig. destruct Hsig as (H1 & H2 & H3 & H4 & H5 & _).
  apply Z.eqb_neq in H1, H2, H3, H4, H5. rewrite H1, H2, H3, H4, H5.
  replace (ctxDone (Notify s)) with (ctxDone s) by done. by rewrite Hcd.
Qed.

Lemma process_frame s m rest :
  live s -> Tcp.wf_tcp m -> ordinary m -> zlen (Tcp.bytes m) <= maxMessageSize s ->
  bytes_ok (Tcp.bytes m ++ rest) -> zlen (Tcp.bytes m ++ rest) < 4294967296 ->
  (forall r, requestMonitor r = (false, None)) ->
  exists r, carries m r /\ sequence r = uint64 (sequenceCounter s + 1) /\
    forall cap, process s (mkBuffer (Tcp.bytes m ++ rest) cap) = process (arrived s r) (mkBuffer rest cap).
Proof.
  intros Hl Hwf Hord Hmax Hb Hz Hmon. destruct (decodeMessage_frame s m rest Hwf Hmax Hz) as (r & Hc & Hseq & E).
  exists r. split; [done|]. split; [done|]. intros cap. pose proof Hz as Hz'. rewrite zlen_app in Hz'.
  pose proof (zlen_nonneg rest). assert (0 < zlen (Tcp.bytes m)) as Hpos.
  { pose proof (frame_total m). pose proof (header_length m). pose proof (zlen_nonneg (Tcp.body m)).
    pose proof (zlen_nonneg (token m)). pose proof (zlen_nonneg (snd (Tcp.length_bytes (zlen (Tcp.body m))))). lia. }
  rewrite process_unfold by (rewrite zlen_app; lia). rewrite E. cbn [mbind option_bind].
  set (s1 := (Sequence _).1). assert (live s1) as Hl1 by exact Hl.
  rewrite (handleRequest_ordinary s1 _ m r Hl1 Hord Hc (Hmon r)). cbn [mbind option_bind].
  apply process_loop_fuel; [exact Hl|by apply bytes_ok_app in Hb as [_ ?]|lia| |cbn [b_data]; lia].
  rewrite length_app. unfold zlen in Hpos. lia.
Qed.

Lemma process_frames ms : forall s,
  live s -> 0 <= sequenceCounter s -> Forall Tcp.wf_tcp ms -> Forall ordinary ms ->
  Forall (fun m => zlen (Tcp.bytes m) <= maxMessageSize s) ms ->
  bytes_ok (concat (Tcp.bytes <$> ms)) -> zlen (concat (Tcp.bytes <$> ms)) < 4294967296 ->
  (forall r, requestMonitor r = (false, None)) ->
  exists s' rs, (forall cap, process s (mkBuffer (concat (Tcp.bytes <$> ms)) cap) = Some (s', mkBuffer [] cap, None)) /\
    received s' = received s ++ rs /\ Forall2 (fun m r => carries m r.2) ms rs /\
    (forall i r, rs !! i = Some r ->
       r.1 = (acquired s + i)%nat /\ sequence r.2 = uint64 (sequenceCounter s + 1 + Z.of_nat i)) /\
    connection s' = connection s /\ released s' = released s /\ notified s' = (notified s + length ms)%nat.
Proof.
  induction ms as [|m ms IH]; intros s Hl Hseq Hwf Hord Hmax Hb Hz Hmon; cbn [concat fmap list_fmap] in *.
  { exists s, []. rewrite app_nil_r. split_and!; try done. }
  apply Forall_cons in Hwf as [Hm Hwf], Hord as [Ho Hord], Hmax as [Hx Hmax].
  destruct (process_frame s m _ Hl Hm Ho Hx Hb Hz Hmon) as (r & Hc & Hs & Hp).
  destruct (IH (arrived s r)) as (s' & rs & H1 & H2 & H3 & H4 & H5 & H6 & H7); try done.
  { cbn. unfold uint64. apply Z.mod_pos_bound. lia. }
  { by apply bytes_ok_app in Hb as [_ ?]. }
  { rewrite zlen_app in Hz. pose proof (zlen_nonneg (Tcp.bytes m)). lia. }
  exists s', ((acquired s, r) :: rs). split; [intros cap; by rewrite Hp|].
  split; [by rewrite H2; cbn; rewrite <-app_assoc|]. split; [by constructor|].
  split; [|split_and!; [done|done|rewrite H7; cbn; lia]].
  intros [|i] r' Hr; [injection Hr as <-; split; [cbn; lia|cbn; rewrite Hs; f_equal; lia]|].
  apply H4 in Hr as [-> ->]. split; [cbn; lia|]. cbn. unfold uint64.
  rewrite Nat2Z.inj_succ, <-Z.add_assoc, Z.add_mod_idemp_l by lia. f_equal. lia.
Qed.

(** ** Theorems *)

Abbreviation Session_Run := (Run growcap supply requestMonitor buffercap IsConnectionBrokenError select_send).

(** What can be seen of [Run]: the state, and either the bytes that wait for the rest of
    their frame or the result. *)
Definition run_obs (r : State * Buffer + State * option error) : State * list byte + State * option error :=
  match r with
  | inl (s, b) => inl (s, b_data b)
  | inr r => inr r
  end.

Definition run_reference (s : State) (stream : list byte) : option (State * list byte + State * option error) :=
  match errSendCSM s with
  | Some e => Some (inr (run_exit s (Some e)))
  | None =>
      '(s, r) ← whole_stream s stream;
      Some (match r with inl rest => inl (s, rest) | inr err => inr (run_exit s err) end)
  end.

(** C6: the session computes a function of the byte stream alone: however the network
    cuts the stream into reads (empty ones included), and whatever the bytes are, [Run]
    ends up in the state, and with the result, that processing the whole stream at once
    has.  This covers messages that are malformed, too long, signals, or answered with an
    error, and the early end of the session. *)
Theorem Run_chunking (s : State) (cs : list (list byte))
    (Hlive : live s) (Hb : bytes_ok (concat cs)) (Hlen : zlen (concat cs) < 4294967296) :
  exists r, Session_Run s (ok <$> cs) = Some r /\ run_reference s (concat cs) = Some (run_obs r).
Proof.
  unfold Run, run_reference. destruct (errSendCSM s) as [e|]; [by eexists|].
  destruct (run_whole_stream cs s (NewBuffer (connectionCacheSize s)) Hlive Hb Hlen) as (o & -> & Hw & _).
  cbn [NewBuffer b_data app] in Hw. rewrite Hw. cbn [mbind option_bind].
  destruct o as [s' b|s' err]; by eexists.
Qed.

(** C26: a session that waits for input holds less than one message: fewer bytes than the
    limit on the size of a message, or fewer than the 14 bytes of a header. *)
Theorem Run_buffer_bounded (s s' : State) (b : Buffer) (cs : list (list byte))
    (Hlive : live s) (Hb : bytes_ok (concat cs)) (Hlen : zlen (concat cs) < 4294967296)
    (Hrun : Session_Run s (ok <$> cs) = Some (inl (s', b))) :
  zlen (b_data b) < Z.max 14 (maxMessageSize s) /\ live s'.
Proof.
  revert Hrun. unfold Run. destruct (errSendCSM s); [done|].
  destruct (run_whole_stream cs s (NewBuffer (connectionCacheSize s)) Hlive Hb Hlen) as (o & -> & _ & Hbl).
  cbn [mbind option_bind]. destruct o as [s1 b1|s1 err]; [|done]. intros [= <- <-].
  destruct (Hbl s1 b1 eq_refl) as [Hs ?]. split; [done|]. by apply (live_settings s).
Qed.

(** C5: every message arrives once and in order: when a peer sends well-formed messages
    within the limit, neither signals nor requests with unknown critical options, and
    the network cuts the stream anywhere, the session queues exactly these messages for
    the reader, with token, code, options and payload intact and with consecutive
    sequence numbers, each in a message of the pool of its own; nothing is left in the
    buffer, answered or released, and the inactivity monitor hears of each. *)
Theorem Run_delivers (s : State) (ms : list Message) (cs : list (list byte))
    (Hlive : live s) (Hcsm : errSendCSM s = None) (Hseq : 0 <= sequenceCounter s)
    (Hwf : Forall Tcp.wf_tcp ms) (Hord : Forall ordinary ms)
    (Hmax : Forall (fun m => zlen (Tcp.bytes m) <= maxMessageSize s) ms)
    (Hcs : concat cs = concat (Tcp.bytes <$> ms))
    (Hb : bytes_ok (concat cs)) (Hlen : zlen (concat cs) < 4294967296)
    (Hmon : forall r, requestMonitor r = (false, None)) :
  exists s' b rs, Session_Run s (ok <$> cs) = Some (inl (s', b)) /\ b_data b = [] /\
    received s' = received s ++ rs /\ Forall2 (fun m r => carries m r.2) ms rs /\
    (forall i r, rs !! i = Some r ->
       r.1 = (acquired s + i)%nat /\ sequence r.2 = uint64 (sequenceCounter s + 1 + Z.of_nat i)) /\
    connection s' = connection s /\ released s' = released s /\ notified s' = (notified s + length ms)%nat.
Proof.
  unfold Run. rewrite Hcsm.
  destruct (run_whole_stream cs s (NewBuffer (connectionCacheSize s)) Hlive Hb Hlen) as (o & -> & Hw & _).
  cbn [NewBuffer b_data app] in Hw. rewrite Hcs in *.
  destruct (process_frames ms s Hlive Hseq Hwf Hord Hmax Hb Hlen Hmon) as (s' & rs & Hp & H).
  unfold whole_stream in Hw. rewrite Hp in Hw. cbn [mbind option_bind b_data] in Hw. injection Hw as Hw.
  destruct o as [s1 b|]; [|done]. injection Hw as <- Hd. exists s', b, rs. by split_and!; try apply H.
Qed.
End Stream.

(** ** A session to run *)

Lemma NewMessage_fresh {Ctx CM B} (c : option Ctx) : fresh (NewMessage c : Msg Ctx CM B).
Proof. split_and!; done. Qed.

(** A message that comes back to the pool is fresh again if it is not hijacked and its
    option slice has room. *)
Lemma Msg_Reset_fresh {Ctx CM B} (r : Msg Ctx CM B) :
  0 < mOptionsCap (msg r) -> hijacked r = false -> fresh (Msg_Reset r).
Proof. intros Hc Hh. split_and!; done. Qed.

Definition sample_supply (n : nat) : Msg unit unit Reader := NewMessage None.
Definition sample_socket : NetConn.Conn := NetConn.mkConn false None None [(3, None)] [].
Definition sample_config : Config := mkConfig 1024 64 true true false.
Definition sample_session : State := NewSession (fun n => n) sample_supply sample_socket sample_config (Ok []).
Definition sample_run (s : State) (cs : list (list byte)) :=
  Run (fun n => n) sample_supply (fun _ => (false, None)) (fun n => n) (fun _ => false) (fun _ => true) s (ok <$> cs).

Definition sample_get : Message := mkMessage (Some [7; 8]) [mkOption URIPath [97]] 16 GET None 0 0.
Definition sample_content : Message := mkMessage (Some [9]) [] 16 Content (Some [104; 105]) 0 0.

Lemma sample_wf : Forall Tcp.wf_tcp [sample_get; sample_content].
Proof.
  repeat constructor; cbn; try (cbv; intuition congruence).
Qed.

(** The stream of the two messages in pieces of one byte, with an empty read. *)
Definition sample_pieces : list (list byte) :=
  [] :: ((fun b => [b]) <$> (Tcp.bytes sample_get ++ Tcp.bytes sample_content)).

Example sample_run_queues :
  (fun r => match r with inl (s, b) => ((fun m => (mToken (msg m.2), sequence m.2)) <$> received s, b_data b) | inr _ => ([], []) end)
    <$> sample_run sample_session sample_pieces = Some ([(Some [7; 8], 1); (Some [9], 2)], []).
Proof. vm_compute. reflexivity. Qed.

Lemma sample_live : live sample_session.
Proof. split_and!; reflexivity. Qed.

Lemma sample_bytes_ok : bytes_ok (concat sample_pieces).
Proof. apply (bool_decide_unpack _). vm_compute. exact I. Qed.

Lemma Run_chunking_witness :
  exists r, sample_run sample_session sample_pieces = Some r /\
    run_reference (fun n => n) sample_supply (fun _ => (false, None)) (fun _ => false) (fun _ => true)
      sample_session (concat sample_pieces) = Some (run_obs r).
Proof.
  assert (zlen (concat sample_pieces) < 4294967296) as Hlen by (vm_compute; reflexivity).
  exact (Run_chunking (fun n => n) sample_supply (fun _ => NewMessage_fresh None) (fun _ => (false, None)) (fun n => n)
           (fun _ => false) (fun _ => true) sample_session sample_pieces sample_live sample_bytes_ok Hlen).
Defined.

(** The first three bytes of a message wait in the buffer. *)
Definition sample_part : list (list byte) := [take 3 (Tcp.bytes sample_get)].

Lemma Run_buffer_bounded_witness :
  exists s b, sample_run sample_session sample_part = Some (inl (s, b)) /\ b_data b = [34; 1; 7] /\
    zlen (b_data b) < 1024.
Proof.
  eexists _, _. split; [vm_compute; reflexivity|]. split; [reflexivity|].
  refine (proj1 (Run_buffer_bounded (fun n => n) sample_supply (fun _ => NewMessage_fresh None) (fun _ => (false, None))
    (fun n => n) (fun _ => false) (fun _ => true) sample_session _ _ sample_part sample_live _ _ _)).
  - apply (bool_decide_unpack _). vm_compute. exact I.
  - reflexivity.
  - vm_compute. reflexivity.
Defined.

Lemma Run_delivers_witness :
  exists s b rs, sample_run sample_session sample_pieces = Some (inl (s, b)) /\ received s = [] ++ rs /\
    Forall2 (fun m r => carries m r.2) [sample_get; sample_content] rs.
Proof.
  destruct (Run_delivers (fun n => n) sample_supply (fun _ => NewMessage_fresh None) (fun _ => (false, None)) (fun n => n)
              (fun _ => false) (fun _ => true) sample_session [sample_get; sample_content] sample_pieces)
    as (s & b & rs & H1 & _ & H2 & H3 & _).
  - exact sample_live.
  - reflexivity.
  - cbv. discriminate.
  - exact sample_wf.
  - constructor; [|constructor; [|constructor]]; (split; [apply (bool_decide_unpack _); vm_compute; exact I|]).
    + reflexivity.
    + intros [_ H]. by vm_compute in H.
  - repeat constructor; cbv; discriminate.
  - reflexivity.
  - exact sample_bytes_ok.
  - reflexivity.
  - reflexivity.
  - exists s, b, rs. split; [exact H1|]. split; [exact H2|exact H3].
Defined.
