(* ===== verification/TcpRequests.v ===== *)
(** * Requests and responses of a stream connection (src/tcp/client/conn.go)

    Many requests are outstanding at once on a connection, each waiting on a channel of
    its own; responses, signals and the end of requests interleave.  [conn_step] is one
    such event on the state of [TcpConn]. *)
From stdpp Require Import prelude list strings gmap.
From Stdlib Require Import ZArith Lia.
From S2P Require Import Prelude Cast Codes OptionCodec Options OptionsCodec Message TcpCoder PoolMessage.
From S2P Require Import Crc64 SyncMap Client TcpConn TcpStream.
#[local] Open Scope Z_scope.

(** ** The socket *)

(** What a write puts on the socket is a prefix of its data, all of it when there is no
    error. *)
Lemma write_loop_prefix cd cl sc : forall out data sc' out' err,
  NetConn.write_loop cd cl sc out data = (sc', out', err) ->
  exists n, out' = out ++ take n data /\ (err = None -> out' = out ++ data).
Proof.
  assert (forall (out data : list byte) (err : option error), err <> None \/ data = [] ->
    exists n, out = out ++ take n data /\ (err = None -> out = out ++ data)) as Hnone.
  { intros out data err He. exists 0%nat. rewrite take_0, app_nil_r. split; [done|].
    intros ->. destruct He as [ | -> ]; [done|]. by rewrite app_nil_r. }
  induction sc as [|[n e] sc IH]; intros out data sc' out' err; cbn [NetConn.write_loop];
    (destruct data as [|b data]; [intros [= <- <- <-]; apply Hnone; auto|]);
    (destruct cd; [intros [= <- <- <-]; apply Hnone; auto|]);
    (destruct cl; [intros [= <- <- <-]; apply Hnone; auto|]).
  - intros [= <- <- <-]. exists (length (b :: data)). by rewrite firstn_all.
  - destruct e as [e|]; [intros [= <- <- <-]; by eexists|]. intros H. apply IH in H as (k & -> & Hall).
    unfold slice_to, slice_from in *. rewrite <-!app_assoc in *. exists (Z.to_nat n + k)%nat.
    assert (take (Z.to_nat n) (b :: data) ++ take k (drop (Z.to_nat n) (b :: data)) = take (Z.to_nat n + k) (b :: data)) as E.
    { by rewrite take_take_drop. }
    split; [by rewrite E|]. intros He. rewrite (Hall He). by rewrite take_drop.
Qed.

Section Requests.
Context {Ctx CM B : Type} `{!ReadSeeker B}.
Abbreviation M := (Msg Ctx CM B).
Abbreviation State := (State (Ctx := Ctx) (CM := CM) (B := B)).
Abbreviation W := (Writer (Ctx := Ctx) (CM := CM) (B := B)).
Abbreviation HandlerFunc := (State -> W -> nat * M -> State * W * (nat * M)).
Context (growcap : Z -> Z) (supply : nat -> M) (IsConnectionBrokenError : error -> bool).
Context (observation_Handle : HandlerFunc).

(** The part of the state in which requests wait. *)
Definition waiting (s : State) : gmap Z Handler * Tokenless.TokenlessHandler Handler * nat * gmap nat (nat * M) :=
  (tokenHandlers s, tokenless s, nextChannel s, channels s).

(** Observations have handlers of their own. *)
Context (Hobs : forall s w r, waiting (observation_Handle s w r).1.1 = waiting s).

(** An outstanding request: its token, its channel and its cleanup function. *)
Definition pending : Type := list byte * nat * Cleanup.

Inductive conn_step : State * list pending -> State * list pending -> Prop :=
| step_send s P cd req s' ch c :
    doInternal_send growcap s cd req = (s', inl (ch, c)) ->
    conn_step (s, P) (s', P ++ [(default [] (Msg_Token req), ch, c)])
| step_send_error s P cd req s' e :
    doInternal_send growcap s cd req = (s', inr e) -> conn_step (s, P) (s', P)
| step_finish s P1 P2 t ch c w s' r :
    doInternal_wait s ch c w = Some (s', r) -> conn_step (s, P1 ++ (t, ch, c) :: P2) (s', P1 ++ P2)
| step_response s P remove w r s' w' r' :
    handleResponse observation_Handle remove s w r = (s', w', r') -> conn_step (s, P) (s', P)
| step_signal s P r s' b :
    handleSignals growcap supply IsConnectionBrokenError s r = (s', b) -> conn_step (s, P) (s', P)
| step_ping s P token f s' r :
    AsyncPing growcap supply s token f = (s', r) -> conn_step (s, P) (s', P).

(** The message answers the request with the token [t]. *)
Definition answers (t : list byte) (r : M) : Prop :=
  if decide (t = []) then default [] (Msg_Token r) = [] /\ Created <= mCode (msg r)
  else token_key r = Token_Hash t.

Definition handler_ok (next : nat) (P : list pending) (t_ok : list byte -> Prop) (h : Handler) : Prop :=
  match h with
  | RequestHandler ch => (ch < next)%nat /\ forall t c, (t, ch, c) ∈ P -> t_ok t
  | PongHandler _ => True
  end.

(** The cleanup function of a request with the token [t]. *)
Definition cleanup_ok (t : list byte) (c : Cleanup) : Prop :=
  match c with CleanupTokenless _ => t = [] | CleanupToken key => t <> [] /\ key = Token_Hash t end.

Record conn_inv (st : State * list pending) : Prop := mkInv {
  inv_pending : forall t ch c, (t, ch, c) ∈ st.2 -> (ch < nextChannel st.1)%nat;
  inv_nodup : NoDup ((fun p : pending => p.1.2) <$> st.2);
  inv_handlers : forall key h, tokenHandlers st.1 !! key = Some h ->
    handler_ok (nextChannel st.1) st.2 (fun t => t <> [] /\ Token_Hash t = key) h;
  inv_tokenless : forall reg h, Tokenless.handler (tokenless st.1) = Some (reg, h) ->
    handler_ok (nextChannel st.1) st.2 (fun t => t = []) h;
  inv_channels : forall ch r, channels st.1 !! ch = Some r -> (ch < nextChannel st.1)%nat /\
    forall t c, (t, ch, c) ∈ st.2 -> answers t r.2;
  inv_cleanup : forall t ch c, (t, ch, c) ∈ st.2 -> cleanup_ok t c
}.

Implicit Types (s : State) (P : list pending).

Lemma inv_frame s s' P : waiting s' = waiting s -> conn_inv (s, P) -> conn_inv (s', P).
Proof. unfold waiting. intros [= E1 E2 E3 E4] [H1 H2 H3 H4 H5 H6]. cbn in *. by constructor; cbn; rewrite ?E1, ?E2, ?E3, ?E4. Qed.

Lemma handler_ok_weaken n n' P P' (t_ok : list byte -> Prop) h :
  (n <= n')%nat -> (forall t ch c, (t, ch, c) ∈ P' -> (ch < n)%nat -> (t, ch, c) ∈ P) ->
  handler_ok n P t_ok h -> handler_ok n' P' t_ok h.
Proof. intros Hn HP. destruct h as [ch|f]; [|done]. intros [H1 H2]. split; [lia|]. eauto. Qed.

(** Removing handlers and finished requests keeps the invariant. *)
Lemma inv_shrink s P P' th tl :
  conn_inv (s, P) -> (P' = P \/ exists P1 p P2, P = P1 ++ p :: P2 /\ P' = P1 ++ P2) -> th ⊆ tokenHandlers s ->
  (Tokenless.handler tl = None \/ Tokenless.handler tl = Tokenless.handler (tokenless s)) ->
  conn_inv (with_handlers s th tl (nextChannel s), P').
Proof.
  intros [H1 H2 H3 H4 H5 H6] HP Hth Htl. cbn in *.
  assert (forall p, p ∈ P' -> p ∈ P) as Hsub by (destruct HP as [-> | (P1 & p & P2 & -> & ->)]; set_solver).
  constructor; cbn; [eauto| | | | |eauto].
  - destruct HP as [-> | (P1 & p & P2 & -> & ->)]; [done|]. rewrite fmap_app in *. cbn in H2.
    apply NoDup_app in H2 as (Ha & Hb & Hc). apply NoDup_cons in Hc as [_ Hc]. apply NoDup_app. set_solver.
  - intros key h Hk. eapply handler_ok_weaken; [done| |apply H3, (lookup_weaken _ _ _ _ Hk Hth)]. eauto.
  - intros reg h Hr. destruct Htl as [E|E]; rewrite E in Hr; [done|]. eapply handler_ok_weaken; [done| |by eapply H4]. eauto.
  - intros ch r Hr. destruct (H5 ch r Hr) as [? Hans]. eauto.
Qed.

(** A handler that is called puts an answer into the channel of its request. *)
Lemma call_handler_inv s P (t_ok : list byte -> Prop) h w r :
  conn_inv (s, P) -> handler_ok (nextChannel s) P t_ok h -> (forall t, t_ok t -> answers t r.2) ->
  conn_inv ((call_handler h s w r).1.1, P).
Proof.
  intros Hinv Hh Hans. destruct h as [ch|f]; cbn [call_handler].
  - destruct (channels s !! ch) as [r0|] eqn:E; [done|]. destruct Hinv as [H1 H2 H3 H4 H5 H6], Hh as [Hlt Ht]. cbn in *.
    constructor; cbn; [done..| |done]. intros ch' r' [[<- <-] | [Hne Hr]]%lookup_insert_Some; [|eauto].
    split; [done|]. intros t c Hin. apply Hans. eauto.
  - destruct (_ =? Pong); [|done]. by apply (inv_frame s).
Qed.

Lemma LoadAndDelete_inv s P key : conn_inv (s, P) -> conn_inv ((LoadAndDelete_handler s key).1, P).
Proof. intros H. apply (inv_shrink s P); [done|by left|apply delete_subseteq|by right]. Qed.

Lemma cleanup_inv s P P' c e :
  conn_inv (s, P) -> (P' = P \/ exists P1 p P2, P = P1 ++ p :: P2 /\ P' = P1 ++ P2) ->
  conn_inv ((run_cleanup s c e).1, P').
Proof.
  intros H HP. destruct c as [reg|key]; cbn [run_cleanup]; [|by apply (inv_shrink s P); [done..|apply delete_subseteq|right]].
  destruct (Tokenless.cleanup _ _ _) as [tl b] eqn:E. apply (inv_shrink s P); [done..|].
  revert E. unfold Tokenless.cleanup. destruct (Tokenless.handler (tokenless s)) as [[reg' h]|] eqn:Eh; [|intros [= <- _]; auto].
  destruct (_ =? _)%nat; intros [= <- _]; auto.
Qed.

Lemma write_waiting s cd r : waiting (Session_WriteMessage growcap s cd r).1.1 = waiting s.
Proof.
  unfold Session_WriteMessage. destruct (MarshalWithEncoder growcap TcpCoder r) as [r' [[data|] [e|]]]; [done| |done|done].
  by destruct (NetConn.WriteWithContext _ _ _).
Qed.

(** A registration takes a channel that nothing refers to. *)
Lemma register_inv s P t s' ch c :
  conn_inv (s, P) -> RegisterRequestHandler s t = (s', inl (ch, c)) -> conn_inv (s', P ++ [(t, ch, c)]).
Proof.
  intros [H1 H2 H3 H4 H5 H6] HR. cbn in *. set (n := nextChannel s) in *.
  assert (forall (t_ok : list byte -> Prop) h, handler_ok n P t_ok h -> handler_ok (S n) (P ++ [(t, n, c)]) t_ok h) as Hold.
  { intros t_ok h. apply handler_ok_weaken; [lia|]. intros t' ch' c' Hin Hlt. apply elem_of_app in Hin as [?|Hin]; [done|].
    apply list_elem_of_singleton in Hin. injection Hin as -> -> ->. lia. }
  assert (forall t_ok : list byte -> Prop, t_ok t -> handler_ok (S n) (P ++ [(t, n, c)]) t_ok (RequestHandler n)) as Hnew.
  { intros t_ok Ht. split; [lia|]. intros t' c' Hin. apply elem_of_app in Hin as [Hin|Hin]; [apply H1 in Hin; lia|].
    apply list_elem_of_singleton in Hin. by injection Hin as -> ->. }
  assert (forall t' ch' c', (t', ch', c') ∈ P ++ [(t, n, c)] -> (ch' < S n)%nat) as Hp.
  { intros t' ch' c' Hin. apply elem_of_app in Hin as [Hin|Hin]; [apply H1 in Hin; lia|].
    apply list_elem_of_singleton in Hin. injection Hin as _ -> _. lia. }
  assert (NoDup ((fun p : pending => p.1.2) <$> P ++ [(t, n, c)])) as Hnd.
  { rewrite fmap_app. apply NoDup_app. split; [done|]. split; [|apply NoDup_singleton]. intros x Hx Hs.
    apply list_elem_of_singleton in Hs. cbn in Hs. subst x. apply list_elem_of_fmap in Hx as ([[t' ch'] c'] & -> & Hin).
    apply H1 in Hin. cbn in Hin. lia. }
  assert (forall ch' r, channels s !! ch' = Some r -> (ch' < S n)%nat /\ forall t' c', (t', ch', c') ∈ P ++ [(t, n, c)] -> answers t' r.2) as Hch.
  { intros ch' r Hr. apply H5 in Hr as [Hlt Ha]. split; [lia|]. intros t' c' Hin. apply elem_of_app in Hin as [Hin|Hin]; [eauto|].
    apply list_elem_of_singleton in Hin. injection Hin as _ -> _. lia. }
  assert (cleanup_ok t c -> forall t' ch' c', (t', ch', c') ∈ P ++ [(t, n, c)] -> cleanup_ok t' c') as Hcl.
  { intros Hok t' ch' c' Hin. apply elem_of_app in Hin as [Hin|Hin]; [eauto|]. apply list_elem_of_singleton in Hin. by injection Hin as -> _ ->. }
  revert HR. unfold RegisterRequestHandler. fold n. destruct (Z.eqb_spec (zlen t) 0) as [Hz|Hz].
  - unfold Tokenless.Register. destruct (Tokenless.blocked (tokenless s)); [done|].
    destruct (Tokenless.handler (tokenless s)) eqn:Eh; [done|]. intros [= <- <- <-].
    constructor; cbn; [done|done|eauto| |done|apply Hcl; by apply zlen_0_nil]. intros reg h [= <- <-]. apply Hnew. by apply zlen_0_nil.
  - unfold LoadOrStore, LoadOrStore_read, LoadOrStore_write, index.
    destruct (tokenHandlers s !! Token_Hash t) eqn:Ek; [done|]. intros [= <- <- <-].
    constructor; cbn; [done|done| |eauto|done|apply Hcl; split; [by intros ->|done]]. intros key h [[<- <-] | [Hne Hk]]%lookup_insert_Some; [|eauto].
    apply Hnew. split; [|done]. by intros ->.
Qed.

Lemma register_error s t s' e : RegisterRequestHandler s t = (s', inr e) -> s' = s.
Proof.
  unfold RegisterRequestHandler. destruct (zlen t =? 0).
  - destruct (Tokenless.Register _ _) as [tl [reg|[|]]]; by intros [= <-].
  - destruct (LoadOrStore _ _ _ _) as [th [h [|]]]; by intros [= <-].
Qed.

Lemma send_inv s P cd req :
  conn_inv (s, P) ->
  match doInternal_send growcap s cd req with
  | (s', inl (ch, c)) => conn_inv (s', P ++ [(default [] (Msg_Token req), ch, c)])
  | (s', inr _) => conn_inv (s', P)
  end.
Proof.
  intros Hinv. unfold doInternal_send.
  destruct (RegisterRequestHandler s _) as [s1 [[ch c]|e]] eqn:ER; [|by rewrite (register_error _ _ _ _ ER)].
  pose proof (register_inv _ _ _ _ _ _ Hinv ER) as H1. pose proof (write_waiting s1 cd req) as Hw.
  destruct (Session_WriteMessage growcap s1 cd req) as [[s2 r2] err]. cbn [fst] in Hw.
  pose proof (inv_frame _ _ _ Hw H1) as H2. destruct err as [e|]; [|done].
  pose proof (cleanup_inv s2 _ P c (Some e) H2) as H3. destruct (run_cleanup s2 c (Some e)) as [s3 r]. cbn [fst] in H3.
  apply H3. right. exists P, (default [] (Msg_Token req), ch, c), []. by rewrite app_nil_r.
Qed.

Lemma wait_inv s P1 P2 t ch c w s' r :
  conn_inv (s, P1 ++ (t, ch, c) :: P2) -> doInternal_wait s ch c w = Some (s', r) -> conn_inv (s', P1 ++ P2).
Proof.
  intros Hinv. set (P := P1 ++ (t, ch, c) :: P2) in *.
  assert (forall s0 e, conn_inv (s0, P) -> conn_inv ((run_cleanup s0 c e).1, P1 ++ P2)) as Hc.
  { intros s0 e H0. apply (cleanup_inv s0 P); [done|]. right. by exists P1, (t, ch, c), P2. }
  unfold doInternal_wait. destruct w.
  - specialize (Hc s (Some (WriteFailed ErrContext)) Hinv). destruct (run_cleanup _ _ _) as [s1 r1]. by intros [= <- _].
  - destruct (ctxDone s); [|done].
    specialize (Hc s (Some (WriteFailed ErrContext)) Hinv). destruct (run_cleanup _ _ _) as [s1 r1]. by intros [= <- _].
  - destruct (channels s !! ch) as [resp|]; [|done]. cbn [mbind option_bind]. set (s0 := with_deliveries _ _ _ _).
    assert (conn_inv (s0, P)) as H0.
    { destruct Hinv as [H1 H2 H3 H4 H5 H6]. constructor; cbn in *; [done..| |done].
      intros ch' r' [_ Hr]%lookup_delete_Some. by apply H5. }
    specialize (Hc s0 None H0). destruct (run_cleanup _ _ _) as [s1 r1]. by intros [= <- _].
Qed.

Lemma response_inv s P remove w r :
  conn_inv (s, P) -> conn_inv ((handleResponse observation_Handle remove s w r).1.1, P).
Proof.
  intros Hinv. unfold handleResponse.
  assert (forall s0, conn_inv (s0, P) -> conn_inv ((observation_Handle s0 w r).1.1, P)) as Ho.
  { intros s0. by apply inv_frame. }
  assert (forall s0 h, conn_inv (s0, P) -> nextChannel s0 = nextChannel s -> tokenHandlers s !! token_key r.2 = Some h ->
            conn_inv ((call_handler h s0 w r).1.1, P)) as Hcall.
  { intros s0 h H0 En Hk. apply (inv_handlers _ Hinv) in Hk. cbn in Hk. rewrite <-En in Hk.
    apply (call_handler_inv s0 P _ h w r H0 Hk). intros t [Hne E]. unfold answers. by rewrite decide_False. }
  destruct (_ && _) eqn:Etok.
  - apply andb_prop in Etok as [Ez Ec]. apply Z.eqb_eq in Ez. apply Z.leb_le in Ec. apply zlen_0_nil in Ez.
    unfold Tokenless.Load. destruct (Tokenless.handler (tokenless s)) as [[reg h]|] eqn:Eh; [|by apply Ho].
    destruct (Tokenless.consumed (tokenless s)); [by apply Ho|].
    assert (handler_ok (nextChannel s) P (fun t => t = []) h) as Hk by (by eapply (inv_tokenless _ Hinv)).
    match goal with |- conn_inv ((call_handler _ ?s1 _ _).1.1, _) =>
      assert (conn_inv (s1, P)) as H0; [|apply (call_handler_inv s1 P (fun t => t = []) h w r H0 Hk)] end.
    + apply (inv_shrink s P); [done|by left|done|right; by rewrite <-Eh].
    + intros t ->. unfold answers. by rewrite decide_True.
  - destruct remove.
    + pose proof (LoadAndDelete_inv s P (token_key r.2) Hinv) as H0. unfold LoadAndDelete_handler in *. cbn [fst] in H0.
      destruct (tokenHandlers s !! token_key r.2) as [h|] eqn:Eh; [|by apply Ho]. by apply Hcall.
    + destruct (tokenHandlers s !! token_key r.2) as [h|] eqn:Eh; [|by apply Ho]. by apply Hcall.
Qed.

Lemma process_handler_inv s P (t_ok : list byte -> Prop) h req :
  conn_inv (s, P) -> handler_ok (nextChannel s) P t_ok h -> (forall t, t_ok t -> answers t req.2) ->
  conn_inv (ProcessReceivedMessageWithHandler growcap supply s req (call_handler h), P).
Proof.
  intros Hinv Hh Hans. unfold ProcessReceivedMessageWithHandler. cbn [AcquireMessage].
  set (s0 := with_pool _ _ _). set (w := NewWriter _ _).
  assert (conn_inv (s0, P)) as H0 by (by apply (inv_frame s)).
  pose proof (call_handler_inv s0 P t_ok h w req H0 Hh Hans) as H1.
  destruct (call_handler h s0 w req) as [[s1 w1] req1]. cbn [fst] in H1.
  set (s2 := if hijacked req1.2 then s1 else ReleaseMessage s1 req1).
  assert (conn_inv (s2, P)) as H2 by (unfold s2; destruct (hijacked _); [done|by apply (inv_frame s1)]).
  destruct (isModified _); [|by apply (inv_frame s2)].
  pose proof (write_waiting s2 (ctxDone s2) (w_message w1).2) as Hw.
  destruct (Session_WriteMessage growcap s2 _ _) as [[s3 r3] err]. cbn [fst] in Hw.
  pose proof (inv_frame _ _ _ Hw H2) as H3. destruct err as [e|]; [|by apply (inv_frame s3)].
  unfold Conn_Close, Session_Close. set (s4 := with_session _ _ _ _ _ _).
  assert (conn_inv (s4, P)) as H4 by (by apply (inv_frame s3)).
  destruct (closeSocket s4); [destruct (NetConn.Close _) as [c [e'|]]|]; by apply (inv_frame s4).
Qed.

Lemma signal_waiting s c : waiting (handleTCPSignalReceived s c) = waiting s.
Proof. unfold handleTCPSignalReceived. by destruct (tcpSignalReceivedHandler s). Qed.

Lemma sendPong_waiting s t : waiting (sendPong growcap supply s t).1 = waiting s.
Proof.
  unfold sendPong. cbn [AcquireMessage]. set (s0 := with_pool _ _ _). set (r := SetToken _ _).
  pose proof (write_waiting s0 (ctxDone s0) r) as Hw. by destruct (Session_WriteMessage growcap s0 _ r) as [[s1 r1] err].
Qed.

Lemma signals_inv s P req :
  conn_inv (s, P) -> conn_inv ((handleSignals growcap supply IsConnectionBrokenError s req).1, P).
Proof.
  intros Hinv. unfold handleSignals.
  destruct (_ =? CSM).
  { destruct (disablePeerTCPSignalMessageCSMs s); [done|]. apply (inv_frame s); [|done]. cbn [fst]. by rewrite signal_waiting. }
  destruct (_ =? Ping).
  { pose proof (sendPong_waiting s (Msg_Token req.2)) as Hw. destruct (sendPong growcap supply s _) as [s1 err].
    apply (inv_frame s); [|done]. cbn [fst] in *. rewrite signal_waiting. by destruct err as [e|]; [destruct (IsConnectionBrokenError _)|]. }
  destruct (_ =? Pong).
  { pose proof (LoadAndDelete_inv s P (token_key req.2) Hinv) as H0. unfold LoadAndDelete_handler in *. cbn [fst] in *.
    eapply inv_frame; [apply signal_waiting|]. destruct (tokenHandlers s !! token_key req.2) as [h|] eqn:Eh; [|done].
    apply (process_handler_inv _ P (fun t => t <> [] /\ Token_Hash t = token_key req.2)); [done|by apply (inv_handlers _ Hinv)|].
    intros t [Hne E]. unfold answers. by rewrite decide_False. }
  destruct (_ =? Release); [|destruct (_ =? Abort)]; [| |done]; (apply (inv_frame s); [|done]); apply signal_waiting.
Qed.

Lemma ping_inv s P token f : conn_inv (s, P) -> conn_inv ((AsyncPing growcap supply s token f).1, P).
Proof.
  intros Hinv. unfold AsyncPing. destruct token as [token|e]; [|done]. cbn [AcquireMessage].
  set (s0 := with_pool _ _ _). set (r := SetCode _ _).
  unfold LoadOrStore, LoadOrStore_read, LoadOrStore_write, index.
  destruct (tokenHandlers s0 !! Token_Hash token) as [h|] eqn:Eh; [by apply (inv_frame s)|].
  set (s1 := with_handlers _ _ _ _). assert (conn_inv (s1, P)) as H1.
  { destruct Hinv as [G1 G2 G3 G4 G5 G6]. constructor; cbn in *; [done|done| |done|done|done].
    intros key h [[<- <-] | [Hne Hk]]%lookup_insert_Some; [done|eauto]. }
  pose proof (write_waiting s1 (ctxDone s1) r) as Hw.
  destruct (Session_WriteMessage growcap s1 _ r) as [[s2 r2] err]. cbn [fst] in Hw.
  pose proof (inv_frame _ _ _ Hw H1) as H2. destruct err as [e|]; [|by apply (inv_frame s2)].
  pose proof (LoadAndDelete_inv s2 P (Token_Hash token) H2) as H3.
  by eapply inv_frame; [|exact H3].
Qed.

Lemma conn_step_inv st st' : conn_step st st' -> conn_inv st -> conn_inv st'.
Proof.
  destruct 1 as [s P cd req s' ch c E|s P cd req s' e E|s P1 P2 t ch c w s' r E|s P remove w r s' w' r' E|s P r s' b E|s P token f s' r E];
    intros Hinv.
  - pose proof (send_inv s P cd req Hinv) as H. by rewrite E in H.
  - pose proof (send_inv s P cd req Hinv) as H. by rewrite E in H.
  - by eapply wait_inv.
  - pose proof (response_inv s P remove w r Hinv) as H. by rewrite E in H.
  - pose proof (signals_inv s P r Hinv) as H. by rewrite E in H.
  - pose proof (ping_inv s P token f Hinv) as H. by rewrite E in H.
Qed.

Lemma NewSession_inv c cfg token : conn_inv (NewSession growcap supply c cfg token, []).
Proof.
  assert (waiting (NewSession growcap supply c cfg token) = (∅, Tokenless.zero, 0%nat, ∅)) as E.
  { unfold NewSession. set (s := mkState _ _ _ _ _ _ _ _ _ _ _ _ _ _ _ _ _ _ _ _ _ _ _ _ _ _).
    destruct (disableTCPSignalMessageCSM s); [done|]. unfold sendCSM. destruct token as [tok|e]; [|done]. cbn [AcquireMessage].
    set (s0 := with_pool _ _ _). set (r := SetToken _ _). pose proof (write_waiting s0 (ctxDone s0) r) as Hw.
    destruct (Session_WriteMessage growcap s0 _ r) as [[s1 r1] [e|]]; exact Hw. }
  unfold waiting in E. injection E as E1 E2 E3 E4.
  constructor; cbn; rewrite ?E1, ?E2, ?E3, ?E4; [intros; set_solver|constructor|done|done|done|intros; set_solver].
Qed.

Definition reachable (c : NetConn.Conn) (cfg : Config) (token : result (list byte)) : State * list pending -> Prop :=
  rtc conn_step (NewSession growcap supply c cfg token, []).

Lemma reachable_inv c cfg token st : reachable c cfg token st -> conn_inv st.
Proof.
  intros H. refine (rtc_ind_r conn_inv _ (NewSession_inv c cfg token) _ st H).
  intros y z _ Hstep. by apply conn_step_inv.
Qed.

(** The registration of a finished request is not there any more. *)
Lemma cleanup_gone (tl : Tokenless.TokenlessHandler Handler) reg completed h : Tokenless.handler (Tokenless.cleanup tl reg completed).1 <> Some (reg, h).
Proof.
  unfold Tokenless.cleanup. destruct (Tokenless.handler tl) as [[r h']|] eqn:E; cbn [fst]; [|congruence]. destruct (Nat.eqb_spec r reg) as [->|Hne]; [done|].
  cbn [fst]. congruence.
Qed.

(** C16: no request gets the response of another: on every interleaving of requests,
    responses, block-wise responses, signals, pings, failed writes, cancellations and
    the closing of the connection, outstanding requests have channels of their own, and
    when one of them takes a response, the response has the key of its token (and so,
    at the same length, the token itself), or, for a request without a token, it is a
    response without a token; the request ends without an error, its channel is empty and its
    handler is gone: that of its token, or its registration as the request without one. *)
Theorem responses_reach_their_request (c : NetConn.Conn) (cfg : Config) (csm : result (list byte))
    (s s' : State) (P : list pending) (t : list byte) (ch : nat) (cl : Cleanup) (r : nat * M) e
    (Hreach : reachable c cfg csm (s, P)) (Hin : (t, ch, cl) ∈ P)
    (Hwait : doInternal_wait s ch cl ResponseReady = Some (s', (Some r, e))) :
  answers t r.2 /\ e = (None, false) /\ channels s' !! ch = None /\
  match cl with
  | CleanupToken key => key = Token_Hash t /\ tokenHandlers s' !! Token_Hash t = None
  | CleanupTokenless reg => t = [] /\ forall h, Tokenless.handler (tokenless s') <> Some (reg, h)
  end /\
  (forall t' cl', (t', ch, cl') ∈ P -> t' = t) /\
  (t <> [] -> bytes_ok t -> bytes_ok (default [] (Msg_Token r.2)) -> (length t <= 8)%nat ->
   length (default [] (Msg_Token r.2)) = length t -> default [] (Msg_Token r.2) = t).
Proof.
  apply reachable_inv in Hreach as [H1 H2 H3 H4 H5 H6]. cbn in *.
  destruct (channels s !! ch) as [r0|] eqn:Ech; [|done]. cbn [mbind option_bind] in Hwait.
  set (s0 := with_deliveries _ _ _ _) in Hwait.
  assert (r0 = r /\ e = (None, false) /\ channels s' = delete ch (channels s) /\ match cl with
      | CleanupToken key => tokenHandlers s' !! key = None
      | CleanupTokenless reg => forall h, Tokenless.handler (tokenless s') <> Some (reg, h) end) as (-> & -> & Es & Hgone).
  { destruct cl as [reg|key]; cbn [run_cleanup fmap option_fmap option_map] in Hwait.
    - pose proof (cleanup_gone (tokenless s0) reg true) as Hg. change (negb false) with true in Hwait.
      destruct (Tokenless.cleanup (tokenless s0) reg true) as [tl b]. by injection Hwait as <- <- <-.
    - injection Hwait as <- <- <-. split_and!; try done. apply lookup_delete_eq. }
  destruct (H5 ch r Ech) as [_ Ha]. specialize (Ha _ _ Hin). split_and!; [done|done|by rewrite Es, lookup_delete_eq| | |].
  - specialize (H6 _ _ _ Hin). destruct cl as [reg|key]; [done|]. destruct H6 as [_ ->]. done.
  - intros t' cl' Hin'. apply list_elem_of_lookup in Hin as [i Hi], Hin' as [j Hj].
    assert (i = j) as -> by (apply (NoDup_lookup _ _ _ ch H2); rewrite list_lookup_fmap;
      first [exact (f_equal (fmap (fun p : pending => p.1.2)) Hi)|exact (f_equal (fmap (fun p : pending => p.1.2)) Hj)]).
    rewrite Hi in Hj. by injection Hj.
  - intros Hne Ht Hr H8 Hl. unfold answers in Ha. rewrite decide_False in Ha by done. apply Token_Hash_inj; [done|done|done|lia|done].
Qed.
End Requests.

(** ** Runs *)

Definition sample_request (t : list byte) : Msg unit unit Reader := SetCode (SetToken (NewMessage None) (Some t)) GET.
Definition sample_response (t : list byte) : Msg unit unit Reader := SetCode (SetToken (NewMessage None) (Some t)) Content.
Definition no_observation (s : State (Ctx := unit) (CM := unit) (B := Reader)) (w : Writer (Ctx := unit) (CM := unit) (B := Reader))
    (r : nat * Msg unit unit Reader) := (s, w, r).
Definition sample_writer : Writer (Ctx := unit) (CM := unit) (B := Reader) := NewWriter (7%nat, NewMessage None : Msg unit unit Reader) [].

Abbreviation send := (doInternal_send (fun n => n)).
Abbreviation respond s r := (handleResponse no_observation true s sample_writer r).1.1.

Definition sent_state : State (Ctx := unit) (CM := unit) (B := Reader) := (send sample_session false (sample_request [1; 2; 3; 4])).1.
Definition key_1234 : Z := Token_Hash [1; 2; 3; 4].

Lemma responses_reach_their_request_witness :
  exists s' r, doInternal_wait (respond sent_state (5%nat, sample_response [1; 2; 3; 4])) 0 (CleanupToken key_1234) ResponseReady
      = Some (s', (Some r, (None, false))) /\ default [] (Msg_Token r.2) = [1; 2; 3; 4].
Proof.
  eexists _, _. split; [vm_compute; reflexivity|].
  refine (proj2 (proj2 (proj2 (proj2 (proj2 (responses_reach_their_request (fun n => n) sample_supply (fun _ => false) no_observation
    (fun _ _ _ => eq_refl) sample_socket sample_config (Ok [])
    (respond sent_state (5%nat, sample_response [1; 2; 3; 4])) _ [([1; 2; 3; 4], 0%nat, CleanupToken key_1234)]
    [1; 2; 3; 4] 0%nat (CleanupToken key_1234) _ _ _ _ _))))) _ _ _ _ _).
  - eapply rtc_l; [eapply (step_send _ _ _ _ sample_session [] false (sample_request [1; 2; 3; 4])); vm_compute; reflexivity|].
    apply rtc_once. eapply (step_response _ _ _ _ _ _ true sample_writer (5%nat, sample_response [1; 2; 3; 4])).
    vm_compute. reflexivity.
  - apply list_elem_of_singleton. reflexivity.
  - vm_compute. reflexivity.
  - discriminate.
  - apply (bool_decide_unpack _). vm_compute. exact I.
  - apply (bool_decide_unpack _). vm_compute. exact I.
  - cbn. lia.
  - reflexivity.
Defined.

(** Tokens of different length may share a key: every token of fewer than eight
    bytes collides with some token of eight.  A response with the eight-byte token
    below is taken for the response to the request with token 1, 2, 3, 4. *)
Theorem foreign_token_accepted :
  Token_Hash [66; 47; 244; 66; 1; 2; 3; 244] = Token_Hash [1; 2; 3; 4] /\
  Token_Hash [244; 66; 47; 244; 66; 47; 244; 18] = Token_Hash [] /\
  exists s' r, doInternal_wait (respond sent_state (5%nat, sample_response [66; 47; 244; 66; 1; 2; 3; 244])) 0
      (CleanupToken key_1234) ResponseReady = Some (s', (Some r, (None, false))) /\
    default [] (Msg_Token r.2) = [66; 47; 244; 66; 1; 2; 3; 244].
Proof.
  split; [vm_compute; reflexivity|]. split; [vm_compute; reflexivity|].
  eexists _, _. split; vm_compute; reflexivity.
Qed.

(** The end of a request removes whatever handler its token has: a request (channel
    1) that reuses the token of a request (channel 0) whose response is delivered, but
    which did not resume yet, is accepted, then loses its handler when the first one
    returns, and its response reaches no one. *)
Theorem cleanup_removes_later_request :
  let s1 := respond sent_state (5%nat, sample_response [1; 2; 3; 4]) in
  let '(s2, r) := send s1 false (sample_request [1; 2; 3; 4]) in
  r = inl (1%nat, CleanupToken key_1234) /\ tokenHandlers s2 !! key_1234 = Some (RequestHandler 1) /\
  exists s3 out, doInternal_wait s2 0 (CleanupToken key_1234) ResponseReady = Some (s3, out) /\
    tokenHandlers s3 !! key_1234 = None /\
    channels (respond s3 (6%nat, sample_response [1; 2; 3; 4])) !! 1%nat = None.
Proof.
  vm_compute. split; [reflexivity|]. split; [reflexivity|]. eexists _, _. split; [reflexivity|]. split; reflexivity.
Qed.
