(* ===== verification/KeepAlive.v ===== *)
(** * Inactivity monitor and keep-alive (src/net/monitor/inactivity, src/options/commonOptions.go)

    [Monitor] remembers the last activity of a connection; [KeepAlive] is the callback that
    pings an inactive peer and gives up after some unanswered pings.  The transport of the
    pings is an interface; a stream connection of [TcpConn] is an instance. *)
From stdpp Require Import prelude list strings gmap.
From Stdlib Require Import ZArith Lia.
From S2P Require Import Prelude Options Message PoolMessage Crc64 SyncMap TcpConn TcpStream.
#[local] Open Scope Z_scope.

(** ** Monitor *)

(** [time.Time{}], in nanoseconds since 1970. *)
Definition zeroTime : Z := -62135596800 * 1000000000.

(** [lastActivity] is [None] before the first [Notify]. *)
Record Monitor : Type := mkMonitor { lastActivity : option Z; duration : Z }.

Definition Monitor_Notify (m : Monitor) (now : Z) : Monitor := mkMonitor (Some now) (duration m).

Definition LastActivity (m : Monitor) : Z := default zeroTime (lastActivity m).

Definition Monitor_New (duration now : Z) : Monitor := Monitor_Notify (mkMonitor None duration) now.

(** [onInactive] works on the state [S] of the program. *)
Definition CheckInactivity {S : Type} (onInactive : option (S -> S)) (m : Monitor) (now : Z) (s : S) : S :=
  match onInactive with
  | None => s
  | Some f =>
      if duration m =? 0 then s
      else if LastActivity m + duration m <? now then f s else s
  end.

(** ** Transports for pings *)

(** [sendPing] is given the token that the callback of the ping remembers, and returns the
    handle of the function that cancels the ping. *)
Class PingTransport (C : Type) : Type := {
  sendPing : C -> Z -> C * (Z + error);
  cancel : C -> Z -> C;
}.

(** [outstanding] are the pings whose callback may still be called. *)
Class PingLaws (C : Type) `{!PingTransport C} : Type := {
  outstanding : C -> gset Z;
  sendPing_outstanding c tok :
    match sendPing c tok with
    | (c', inl h) => h ∉ outstanding c /\ outstanding c' = {[h]} ∪ outstanding c
    | (c', inr _) => outstanding c' = outstanding c
    end;
  cancel_outstanding c h : outstanding (cancel c h) = outstanding c ∖ {[h]}
}.

(** ** KeepAlive *)

Record KeepAlive : Type := mkKeepAlive { pongToken : Z; numFails : Z; cancelPing : option Z }.

Definition NewKeepAlive : KeepAlive := mkKeepAlive 0 0 None.

Section KeepAlive.
Context {C : Type} `{!PingTransport C}.
(** The limit, and what is done with a connection whose peer does not answer. *)
Context (maxRetries : Z) (onInactive : C -> C).

Definition incrementFails (k : KeepAlive) : KeepAlive * Z :=
  let v := uint32 (numFails k + 1) in (mkKeepAlive (pongToken k) v (cancelPing k), v).

Definition resetFails (k : KeepAlive) : KeepAlive := mkKeepAlive (pongToken k) 0 (cancelPing k).

Definition checkCancelPing (k : KeepAlive) (cc : C) : KeepAlive * C :=
  (mkKeepAlive (pongToken k) (numFails k) None,
   match cancelPing k with Some h => cancel cc h | None => cc end).

(** The callback of the ping that was sent with [tok]. *)
Definition receivePong (k : KeepAlive) (tok : Z) : KeepAlive :=
  if pongToken k =? tok then resetFails k else k.

Definition OnInactive (k : KeepAlive) (cc : C) : KeepAlive * C :=
  let '(k, v) := incrementFails k in
  let '(k, cc) := checkCancelPing k cc in
  if maxRetries <? v then (k, onInactive cc) else
  let tok := uint64 (pongToken k + 1) in
  let k := mkKeepAlive tok (numFails k) (cancelPing k) in
  match sendPing cc tok with
  | (cc, inr _) => (k, cc)
  | (cc, inl h) => (mkKeepAlive (pongToken k) (numFails k) (Some h), cc)
  end.

(** ** A monitored connection *)

(** The events of a connection: a message arrives, a ping is answered (which removes the
    callback), the expirations are checked. *)
Inductive event : Type :=
| Arrival (now : Z)
| PongFor (tok : Z) (c' : C)
| Tick (now : Z).

Record monitored : Type := mkMonitored { mon : Monitor; ka : KeepAlive; conn : C }.

Definition tick (s : monitored) (now : Z) : monitored :=
  CheckInactivity (Some (fun s => let '(k, c) := OnInactive (ka s) (conn s) in mkMonitored (mon s) k c)) (mon s) now s.

Definition step (s : monitored) (e : event) : monitored :=
  match e with
  | Arrival now => mkMonitored (Monitor_Notify (mon s) now) (ka s) (conn s)
  | PongFor tok c' => mkMonitored (mon s) (receivePong (ka s) tok) c'
  | Tick now => tick s now
  end.

Definition run (s : monitored) (es : list event) : monitored := fold_left step es s.
End KeepAlive.

Arguments event : clear implicits.
Arguments monitored : clear implicits.

(** ** The option *)

(** [KeepAliveOpt.to...CreateInactivityMonitor]: [None] is the division by zero. *)
Definition createInactivityMonitor (timeout maxRetries now : Z) : option (Monitor * KeepAlive) :=
  let n := uint32 (maxRetries + 1) in
  if n =? 0 then None else Some (Monitor_New (Z.quot timeout n) now, NewKeepAlive).

(** ** What the keep-alive decides *)

Definition is_due (m : Monitor) (now : Z) : bool := negb (duration m =? 0) && (LastActivity m + duration m <? now).

Section Decides.
Context {C : Type} `{!PingTransport C} `{!PingLaws C}.
Context (maxRetries : Z) (onInactive : C -> C).
Context (Hinactive : forall c, outstanding (onInactive c) ⊆ outstanding c).
Abbreviation run := (run maxRetries onInactive).
Abbreviation step := (step maxRetries onInactive).
Abbreviation tick := (tick maxRetries onInactive).

(** How often the monitor found the connection inactive. *)
Fixpoint due_ticks (s : monitored C) (es : list (event C)) : Z :=
  match es with
  | [] => 0
  | e :: es => (match e with Tick now => if is_due (mon s) now then 1 else 0 | _ => 0 end) + due_ticks (step s e) es
  end.

(** None of the pongs answers the latest ping. *)
Fixpoint stale (s : monitored C) (es : list (event C)) : Prop :=
  match es with
  | [] => True
  | e :: es => match e with PongFor tok _ => pongToken (ka s) <> tok | _ => True end /\ stale (step s e) es
  end.

(** Answering a ping does not add pings. *)
Fixpoint wf_events (s : monitored C) (es : list (event C)) : Prop :=
  match es with
  | [] => True
  | e :: es => match e with PongFor _ c' => outstanding c' ⊆ outstanding (conn s) | _ => True end /\ wf_events (step s e) es
  end.

(** The connection after the last ping is cancelled. *)
Definition cancelled (s : monitored C) : C := match cancelPing (ka s) with Some h => cancel (conn s) h | None => conn s end.

Lemma tick_cases s now :
  tick s now =
    if negb (is_due (mon s) now) then s
    else if maxRetries <? uint32 (numFails (ka s) + 1)
    then mkMonitored (mon s) (mkKeepAlive (pongToken (ka s)) (uint32 (numFails (ka s) + 1)) None) (onInactive (cancelled s))
    else let tok := uint64 (pongToken (ka s) + 1) in
         mkMonitored (mon s)
           (mkKeepAlive tok (uint32 (numFails (ka s) + 1)) (match sendPing (cancelled s) tok with (_, inl h) => Some h | _ => None end))
           (sendPing (cancelled s) tok).1.
Proof.
  unfold KeepAlive.tick, CheckInactivity, is_due, OnInactive, cancelled. cbn.
  destruct (duration (mon s) =? 0); [done|]. destruct (_ <? now); [|done]. cbn. destruct (maxRetries <? _); [done|].
  by destruct (sendPing _ _) as [c [h|e]].
Qed.

Lemma tick_fails s now : numFails (ka (tick s now)) = if is_due (mon s) now then uint32 (numFails (ka s) + 1) else numFails (ka s).
Proof. rewrite tick_cases. destruct (is_due _ _); [|done]. cbn. by destruct (maxRetries <? _). Qed.

Lemma fails_counts s es :
  stale s es -> 0 <= numFails (ka s) -> numFails (ka s) + due_ticks s es < 4294967296 ->
  0 <= due_ticks s es /\ numFails (ka (run s es)) = numFails (ka s) + due_ticks s es.
Proof.
  assert (forall s es, 0 <= due_ticks s es) as Hpos.
  { clear. intros s es. revert s. induction es as [|e es IH]; intros s; cbn [due_ticks]; [done|].
    specialize (IH (step s e)). destruct e; [lia|lia|]. destruct (is_due _ _); lia. }
  revert s. induction es as [|e es IH]; intros s Hs H0 Hb; [cbn; lia|]. split; [apply Hpos|].
  cbn [stale due_ticks] in *. destruct Hs as [He Hs]. change (run s (e :: es)) with (run (step s e) es).
  pose proof (Hpos (step s e) es). destruct e as [now|tok c'|now].
  - apply IH in Hs as [_ ->]; cbn in *; lia.
  - assert (ka (step s (PongFor tok c')) = ka s) as Ek by (cbn; unfold receivePong; by destruct (Z.eqb_spec (pongToken (ka s)) tok)).
    rewrite <- Ek in *. apply IH in Hs as [_ ->]; lia.
  - assert (numFails (ka (step s (Tick now))) = numFails (ka s) + if is_due (mon s) now then 1 else 0) as Ef.
    { change (step s (Tick now)) with (tick s now). rewrite tick_fails. destruct (is_due _ _); [|lia]. apply uint32_id. lia. }
    apply IH in Hs as [_ ->]; destruct (is_due _ _); lia.
Qed.

(** At most the last ping waits for its answer. *)
Definition tidy (s : monitored C) : Prop :=
  outstanding (conn s) ⊆ match cancelPing (ka s) with Some h => {[h]} | None => ∅ end.

Lemma cancelled_none s : tidy s -> outstanding (cancelled s) = ∅.
Proof. unfold tidy, cancelled. destruct (cancelPing (ka s)) as [h|]; [rewrite cancel_outstanding|]; set_solver. Qed.

Lemma tidy_run s es : tidy s -> wf_events s es -> tidy (run s es).
Proof.
  revert s. induction es as [|e es IH]; intros s Ht Hwf; [done|]. destruct Hwf as [He Hwf].
  change (run s (e :: es)) with (run (step s e) es). apply IH; [|done]. clear IH Hwf. unfold tidy in *.
  destruct e as [now|tok c'|now]; cbn [KeepAlive.step].
  - done.
  - unfold receivePong. destruct (_ =? _); cbn; set_solver.
  - rewrite tick_cases. destruct (negb _); [done|]. pose proof (cancelled_none s Ht) as E. destruct (maxRetries <? _); cbn.
    + specialize (Hinactive (cancelled s)). set_solver.
    + pose proof (sendPing_outstanding (cancelled s) (uint64 (pongToken (ka s) + 1))) as Hs.
      destruct (sendPing _ _) as [c [h|e]]; cbn in *; [destruct Hs as [_ ->]|rewrite Hs]; set_solver.
Qed.

(** C34: the keep-alive gives a peer up at the first due tick that follows [maxRetries] due
    ticks in a row without an answer.  Starting with a new monitor, let [es1] end with the
    pong to the latest ping (or be empty) and let no pong in [es2] answer the latest ping.
    Then a tick does nothing unless nothing arrived for the duration; if it is due and [n]
    ticks of [es2] were due before it, it calls [onInactive] if [n] is at least
    [maxRetries], and sends a new ping otherwise.  So [maxRetries] pings stay unanswered
    before the peer is given up (none is sent when [maxRetries] is 0).  In both cases the
    ping before is cancelled first, so that never more than one ping waits for its
    answer. *)
Theorem keepalive_decides (m : Monitor) (c0 : C) (es1 es2 : list (event C)) (now : Z)
    (Hstart : es1 = [] \/ exists es0 tok c', es1 = es0 ++ [PongFor tok c'] /\
                pongToken (ka (run (mkMonitored m NewKeepAlive c0) es0)) = tok)
    (Hstale : stale (run (mkMonitored m NewKeepAlive c0) es1) es2)
    (Hn : due_ticks (run (mkMonitored m NewKeepAlive c0) es1) es2 + 1 < 4294967296)
    (Hempty : outstanding c0 = ∅) (Hwf : wf_events (mkMonitored m NewKeepAlive c0) (es1 ++ es2)) :
  let s := run (mkMonitored m NewKeepAlive c0) (es1 ++ es2) in
  let n := due_ticks (run (mkMonitored m NewKeepAlive c0) es1) es2 in
  conn (tick s now) =
    (if negb (is_due (mon s) now) then conn s
     else if maxRetries <=? n then onInactive (cancelled s)
     else (sendPing (cancelled s) (uint64 (pongToken (ka s) + 1))).1) /\
  outstanding (cancelled s) = ∅ /\ (size (outstanding (conn s)) <= 1)%nat.
Proof.
  cbv zeta. set (s0 := mkMonitored m NewKeepAlive c0) in *. set (s1 := run s0 es1) in *.
  assert (numFails (ka s1) = 0) as H0.
  { destruct Hstart as [->|(es0 & tok & c' & -> & Et)]; [done|]. unfold s1, KeepAlive.run. rewrite fold_left_app. cbn.
    unfold receivePong. unfold KeepAlive.run in Et. rewrite Et, Z.eqb_refl. done. }
  assert (run s0 (es1 ++ es2) = run s1 es2) as Er by (unfold s1, KeepAlive.run; apply fold_left_app).
  assert (tidy (run s0 (es1 ++ es2))) as Ht by (apply tidy_run; [unfold tidy; cbn; by rewrite Hempty|done]).
  rewrite Er in *. destruct (fails_counts s1 es2 Hstale) as [Hpos Hf]; [lia|lia|]. rewrite H0 in Hf. split.
  - rewrite tick_cases, Hf. destruct (negb _); [done|]. rewrite uint32_id by lia.
    replace (maxRetries <? 0 + due_ticks s1 es2 + 1) with (maxRetries <=? due_ticks s1 es2) by (bool_cases; done || lia).
    by destruct (maxRetries <=? _).
  - split; [by apply cancelled_none|]. unfold tidy in Ht. destruct (cancelPing _) as [h|].
    + etransitivity; [by apply subseteq_size|]. by rewrite size_singleton.
    + assert (outstanding (conn (run s1 es2)) = ∅) as -> by set_solver. by rewrite size_empty; lia.
Qed.
End Decides.

(** ** Pings on a stream connection *)

Section TcpPing.
Context {Ctx CM B : Type} `{!ReadSeeker B}.
Abbreviation TState := (State (Ctx := Ctx) (CM := CM) (B := B)).
Context (growcap : Z -> Z) (supply : nat -> Msg Ctx CM B).

(** The connection with the random tokens of the pings to come. *)
Definition pinger : Type := TState * list (result (list byte)).

Definition tcp_sendPing (c : pinger) (tok : Z) : pinger * (Z + error) :=
  match c.2 with
  | [] => (c, inr (ErrOther "cannot get token"))
  | t :: toks => let '(s, r) := AsyncPing growcap supply c.1 t (Z.to_nat tok) in ((s, toks), r)
  end.

Definition tcp_cancel (c : pinger) (key : Z) : pinger := ((LoadAndDelete_handler c.1 key).1, c.2).

#[export] Instance tcp_ping : PingTransport pinger := {| sendPing := tcp_sendPing; cancel := tcp_cancel |}.

Definition is_ping (h : Handler) : bool := match h with PongHandler _ => true | RequestHandler _ => false end.

Definition ping_keys (s : TState) : gset Z := dom (filter (fun kh => is_ping kh.2 = true) (tokenHandlers s)).

Lemma elem_of_ping_keys s k : k ∈ ping_keys s <-> exists f, tokenHandlers s !! k = Some (PongHandler f).
Proof.
  unfold ping_keys. rewrite elem_of_dom. unfold is_Some. setoid_rewrite map_lookup_filter_Some. cbn. split.
  - intros ([ch|f] & H1 & H2); [done|eauto].
  - intros [f Hf]. by exists (PongHandler f).
Qed.

Lemma handlers_write (s : TState) cd m : tokenHandlers (Session_WriteMessage growcap s cd m).1.1 = tokenHandlers s.
Proof.
  unfold Session_WriteMessage. destruct (MarshalWithEncoder _ _ _) as [m' [[d|] [e|]]]; [done| |done|done].
  by destruct (NetConn.WriteWithContext _ _ _) as [c [e|]].
Qed.

(** [AsyncPing] stores the callback for its token, or, if it fails, nothing. *)
Lemma AsyncPing_handlers (s : TState) t f :
  match AsyncPing growcap supply s t f with
  | (s', inl k) => tokenHandlers s !! k = None /\ tokenHandlers s' = <[k := PongHandler f]> (tokenHandlers s)
  | (s', inr _) => tokenHandlers s' = tokenHandlers s
  end.
Proof.
  unfold AsyncPing. destruct t as [t|e]; [|done]. cbn [AcquireMessage]. set (k := Token_Hash t).
  unfold LoadOrStore, LoadOrStore_read, LoadOrStore_write, index. cbn.
  destruct (tokenHandlers s !! k) as [x|] eqn:Ek; [done|].
  match goal with |- context [Session_WriteMessage growcap ?s1 ?cd ?m] =>
    pose proof (handlers_write s1 cd m) as Hw; destruct (Session_WriteMessage growcap s1 cd m) as [[s2 m2] [e|]] end; cbn in Hw |- *.
  - rewrite Hw. by apply delete_insert_id.
  - done.
Qed.

#[export] Program Instance tcp_ping_laws : PingLaws pinger := {| outstanding := fun c => ping_keys c.1 |}.
Next Obligation.
  intros [s toks] tok. cbn. unfold tcp_sendPing. destruct toks as [|t toks]; [done|]. cbn.
  pose proof (AsyncPing_handlers s t (Z.to_nat tok)) as Hp. destruct (AsyncPing _ _ s t _) as [s' [k|e]]; cbn.
  - destruct Hp as [Hk Hs]. split; [rewrite elem_of_ping_keys, Hk; naive_solver|].
    apply set_eq. intros x. rewrite elem_of_union, elem_of_singleton, !elem_of_ping_keys, Hs.
    destruct (decide (x = k)) as [->|Hne]; [rewrite lookup_insert_eq; naive_solver|rewrite lookup_insert_ne by done; naive_solver].
  - unfold ping_keys. by rewrite Hp.
Qed.
Next Obligation.
  intros [s toks] k. cbn. apply set_eq. intros x. rewrite elem_of_difference, elem_of_singleton, !elem_of_ping_keys. cbn.
  destruct (decide (x = k)) as [->|Hne]; [rewrite lookup_delete_eq; naive_solver|rewrite lookup_delete_ne by done; naive_solver].
Qed.
End TcpPing.

(** ** A silent peer *)

Module Sample.
Abbreviation SState := (State (Ctx := unit) (CM := unit) (B := Reader)).
#[local] Instance transport : PingTransport pinger := tcp_ping (fun n => n) sample_supply.
#[local] Instance laws : PingLaws pinger := tcp_ping_laws (fun n => n) sample_supply.

Definition second : Z := 1000000000.
Definition close (c : pinger (Ctx := unit) (CM := unit) (B := Reader)) : pinger := ((Conn_Close c.1).1, c.2).
Definition connection0 : pinger := (sample_session, [Ok [1]; Ok [2]; Ok [3]; Ok [4]; Ok [5]; Ok [6]; Ok [7]; Ok [8]]).
Definition is_closed (c : pinger (Ctx := unit) (CM := unit) (B := Reader)) : bool := NetConn.closed (connection c.1).

Lemma close_outstanding c : outstanding (close c) ⊆ outstanding c.
Proof.
  destruct c as [s toks]. cbn. unfold close, Conn_Close, Session_Close. cbn.
  destruct (NetConn.Close _) as [c e]. destruct (closeSocket s); done.
Qed.

Definition start (timeout maxRetries : Z) : monitored pinger :=
  match createInactivityMonitor timeout maxRetries 0 with
  | Some (m, k) => mkMonitored m k connection0
  | None => mkMonitored (Monitor_New 0 0) NewKeepAlive connection0
  end.

Lemma keepalive_decides_witness :
  let s := run 2 close (mkMonitored (Monitor_New (10 * second) 0) NewKeepAlive connection0) ([] ++ [Tick (11 * second); Tick (14 * second)]) in
  is_closed (conn s) = false /\ (size (outstanding (conn s)) <= 1)%nat /\
  conn (tick 2 close s (17 * second)) = close (cancelled s) /\ is_closed (conn (tick 2 close s (17 * second))) = true.
Proof.
  cbv zeta. split; [vm_compute; reflexivity|].
  destruct (keepalive_decides 2 close close_outstanding (Monitor_New (10 * second) 0) connection0 []
              [Tick (11 * second); Tick (14 * second)] (17 * second)) as (H1 & _ & H2).
  - left. reflexivity.
  - repeat split.
  - vm_compute. reflexivity.
  - vm_compute. reflexivity.
  - repeat split.
  - split; [exact H2|]. split; [|vm_compute; reflexivity].
    rewrite H1. vm_compute. reflexivity.
Defined.

(** The keep-alive option divides its timeout by the number of pings plus one, but a
    ping is sent on every check once that time has passed, since a ping is no activity:
    with a timeout of 60 seconds, 3 retries and the checks every 4 seconds of the default
    runner, a silent connection is closed after 28 seconds; with the largest number of
    retries the option panics. *)
Theorem keepalive_closes_early :
  let ticks := [Tick (4 * second); Tick (8 * second); Tick (12 * second); Tick (16 * second); Tick (20 * second); Tick (24 * second)] in
  let s := run 3 close (start (60 * second) 3) ticks in
  is_closed (conn s) = false /\ is_closed (conn (tick 3 close s (28 * second))) = true /\
  createInactivityMonitor (60 * second) 4294967295 0 = None.
Proof. vm_compute. repeat split. Qed.
End Sample.
