(* ===== verification/Router.v ===== *)
(** * Router (src/mux/router.go, regexp.go, middleware.go, message.go)

    Patterns are turned into regular expressions of the standard library, which is an
    interface here: [RegexpOps] with the operations the router calls, [RegexpLaws] with what
    its documentation says about anchored concatenations of quoted text and groups. *)
From stdpp Require Import prelude list strings gmap pretty.
From Stdlib Require Import ZArith Lia.
From S2P Require Import Prelude OptionCodec Options TcpConn.
#[local] Open Scope Z_scope.

(** ** Regular expressions *)

Class RegexpOps : Type := {
  Regexp : Type;
  Compile : list byte -> result Regexp;
  NumSubexp : Regexp -> Z;
  MatchString : Regexp -> list byte -> bool;
  FindStringSubmatchIndex : Regexp -> list byte -> list Z
}.

(** [regexp.QuoteMeta] puts a backslash before each of these. *)
Definition special : list byte := string_bytes "\.+*?()|[]{}^$".
Definition QuoteMeta (s : list byte) : list byte :=
  concat ((fun b => if bool_decide (b ∈ special) then [92; b] else [b]) <$> s).

(** ** Patterns *)

Definition lbrace : byte := 123.
Definition rbrace : byte := 125.
Definition slash : byte := 47.
Definition colon : byte := 58.

(** The loop of [braceIndices] over the bytes from position [i] on. *)
Fixpoint brace_loop (s : list byte) (i level idx : Z) (idxs : list Z) : result (list Z) :=
  match s with
  | [] => if negb (level =? 0) then Err (ErrOther "mux: unbalanced braces") else Ok idxs
  | b :: s =>
      if b =? lbrace then
        let level := level + 1 in
        brace_loop s (i + 1) level (if level =? 1 then i else idx) idxs
      else if b =? rbrace then
        let level := level - 1 in
        if level =? 0 then brace_loop s (i + 1) level idx (idxs ++ [idx; i + 1])
        else if level <? 0 then Err (ErrOther "mux: unbalanced braces")
        else brace_loop s (i + 1) level idx idxs
      else brace_loop s (i + 1) level idx idxs
  end.

Definition braceIndices (s : list byte) : result (list Z) := brace_loop s 0 0 0 [].

(** [strings.SplitN(s, ":", 2)]: the second part if there is a colon. *)
Fixpoint SplitN2 (s : list byte) : list byte * option (list byte) :=
  match s with
  | [] => ([], None)
  | b :: s => if b =? colon then ([], Some s) else let '(x, y) := SplitN2 s in (b :: x, y)
  end.

Definition varGroupName (idx : Z) : list byte := string_bytes ("v" +:+ FormatInt idx).

Definition defaultPattern : list byte := string_bytes "[^/]+".

Section Router.
Context `{!RegexpOps}.

Record routeRegexp : Type := mkRouteRegexp {
  template : list byte;
  regexp : Regexp;
  reverse : list byte;
  varsN : list (list byte);
  varsR : list Regexp
}.

(** What the loop of [newRouteRegexp] keeps. *)
Record building : Type := mkBuilding {
  bEnd : Z; bPattern : list byte; bReverse : list byte; bNames : list (list byte); bRegexps : list Regexp
}.

(** The group of the variable with index [idx] between the positions [a] and [z]. *)
Definition add_variable (path : list byte) (b : building) (idx a z : Z) : result building :=
  let raw := slice_from (slice_to path a) (bEnd b) in
  let '(name, second) := SplitN2 (slice_from (slice_to path (z - 1)) (a + 1)) in
  let patt := default defaultPattern second in
  if (zlen name =? 0) || (zlen patt =? 0) then Err (ErrOther "mux: missing name or pattern") else
  match Compile ([94] ++ patt ++ [36]) with
  | Err e => Err e
  | Ok re =>
      Ok (mkBuilding z
            (bPattern b ++ QuoteMeta raw ++ string_bytes "(?P<" ++ varGroupName idx ++ string_bytes ">" ++ patt ++ string_bytes ")")
            (bReverse b ++ raw ++ string_bytes "%s") (bNames b ++ [name]) (bRegexps b ++ [re]))
  end.

Fixpoint add_variables (path : list byte) (b : building) (idx : Z) (idxs : list Z) : result building :=
  match idxs with
  | a :: z :: idxs =>
      match add_variable path b idx a z with
      | Err e => Err e
      | Ok b => add_variables path b (idx + 1) idxs
      end
  | _ => Ok b
  end.

(** [None]: the panic on a pattern with capture groups of its own. *)
Definition newRouteRegexp (path : list byte) : option (result routeRegexp) :=
  match braceIndices path with
  | Err e => Some (Err e)
  | Ok idxs =>
      match add_variables path (mkBuilding 0 [94] [] [] []) 0 idxs with
      | Err e => Some (Err e)
      | Ok b =>
          let raw := slice_from path (bEnd b) in
          match Compile (bPattern b ++ QuoteMeta raw ++ [36]) with
          | Err e => Some (Err e)
          | Ok reg =>
              if negb (NumSubexp reg =? Z.quot (zlen idxs) 2) then None
              else Some (Ok (mkRouteRegexp path reg (bReverse b) (bNames b) (bRegexps b)))
          end
      end
  end.

(** The parameters of a route that a handler finds in its request. *)
Record RouteParams : Type := mkRouteParams {
  Path : list byte;
  Vars : option (gmap (list byte) (list byte));
  PathTemplate : list byte
}.

(** [input[matches[2*i+2]:matches[2*i+3]]]; [None] is the panic. *)
Fixpoint extractVars (input : list byte) (matches : list Z) (i : Z) (names : list (list byte))
    (output : gmap (list byte) (list byte)) : option (gmap (list byte) (list byte)) :=
  match names with
  | [] => Some output
  | name :: names =>
      a ← zlookup matches (2 * i + 2);
      z ← zlookup matches (2 * i + 3);
      if (0 <=? a) && (a <=? z) && (z <=? zlen input)
      then extractVars input matches (i + 1) names (<[name := slice_from (slice_to input z) a]> output)
      else None
  end.

Definition extractRouteParams (route : routeRegexp) (path : list byte) (p : RouteParams) : option RouteParams :=
  let matches := FindStringSubmatchIndex (regexp route) path in
  if 0 <? zlen matches then
    vars ← extractVars path matches 0 (varsN route) (default ∅ (Vars p));
    Some (mkRouteParams (Path p) (Some vars) (PathTemplate p))
  else Some p.

(** ** The router *)

(** A request: its options and the parameters of its route. *)
Record Request : Type := mkRequest { q_options : Options; q_params : RouteParams }.

(** [W] is the response writer with everything that handlers change. *)
Context {W : Type}.
Definition Handler : Type := W -> Request -> W * Request.

(** A nil handler is [None]. *)
Record Route : Type := mkRoute { r_h : Handler; r_pattern : list byte; r_regexMatcher : routeRegexp }.

Record Router : Type := mkRouter {
  middlewares : list (Handler -> Handler);
  defaultHandler : option Handler;
  z : gmap (list byte) Route
}.

(** [setNotFound] is [w.SetResponse(codes.NotFound, ...)] with the report of its error. *)
Definition NewRouter (setNotFound : W -> W) : Router := mkRouter [] (Some (fun w r => (setNotFound w, r))) ∅.

Definition pathMatch (pattern : Route) (path : list byte) : bool := MatchString (regexp (r_regexMatcher pattern)) path.

Definition FilterPath (unfiltered : list byte) : list byte := if zlen unfiltered =? 0 then [slash] else unfiltered.

(** The loop of [Match] over the routes in some order. *)
Fixpoint match_loop (path : list byte) (routes : list (list byte * Route)) (n : Z) (best : option (Route * list byte))
    : option (Route * list byte) :=
  match routes with
  | [] => best
  | (pattern, route) :: routes =>
      if negb (pathMatch route path) then match_loop path routes n best
      else if (match best with None => true | Some _ => false end) || (n <? zlen pattern)
      then match_loop path routes (zlen pattern) (Some (route, pattern))
      else match_loop path routes n best
  end.

(** [routes] is the order in which [range r.z] yields the routes; [None]: a panic. *)
Definition Match (routes : list (list byte * Route)) (path : list byte) (p : RouteParams)
    : option (RouteParams * option (Route * list byte)) :=
  let path := FilterPath path in
  match match_loop path routes 0 None with
  | None => Some (p, None)
  | Some (route, matchedPattern) =>
      let p := mkRouteParams path (Some (default ∅ (Vars p))) matchedPattern in
      p ← extractRouteParams (r_regexMatcher route) path p;
      Some (p, Some (route, matchedPattern))
  end.

Definition Handle (r : Router) (pattern : list byte) (handler : option Handler) : option (Router * option error) :=
  let pattern := FilterPath pattern in
  match handler with
  | None => Some (r, Some (ErrOther "nil handler"))
  | Some h =>
      re ← newRouteRegexp pattern;
      match re with
      | Err e => Some (r, Some e)
      | Ok routeRegex => Some (mkRouter (middlewares r) (defaultHandler r) (<[pattern := mkRoute h pattern routeRegex]> (z r)), None)
      end
  end.

Definition DefaultHandle (r : Router) (handler : option Handler) : Router := mkRouter (middlewares r) handler (z r).

(** [None]: the panic of an invalid pattern. *)
Definition HandleFunc (r : Router) (pattern : list byte) (handler : Handler) : option Router :=
  match Handle r pattern (Some handler) with
  | Some (r, None) => Some r
  | _ => None
  end.

Definition HandleRemove (r : Router) (pattern : list byte) : Router * option error :=
  let pattern := FilterPath pattern in
  match z r !! pattern with
  | Some _ => (mkRouter (middlewares r) (defaultHandler r) (delete pattern (z r)), None)
  | None => (r, Some (ErrOther "pattern is not registered in"))
  end.

Definition GetRoute (r : Router) (pattern : list byte) : option Route := z r !! FilterPath pattern.

Definition GetRoutes (r : Router) : gmap (list byte) Route := z r.

Definition Use (r : Router) (mwf : list (Handler -> Handler)) : Router :=
  mkRouter (middlewares r ++ mwf) (defaultHandler r) (z r).

(** The loop over the middlewares, from the last to the first. *)
Definition wrap (mws : list (Handler -> Handler)) (h : Handler) : Handler :=
  fold_left (fun h m => m h) (rev mws) h.

(** [None]: a panic, of a nil default handler among others. *)
Definition ServeCOAP (r : Router) (routes : list (list byte * Route)) (w : W) (req : Request) : option (W * Request) :=
  let '(path, err) := Options_Path (q_options req) in
  if match err with Some e => negb (bool_decide (e = ErrOptionNotFound)) | None => false end then
    h ← defaultHandler r; Some (h w req)
  else
    '(p, matched) ← Match routes path (q_params req);
    let req := mkRequest (q_options req) p in
    match (match matched with Some (route, _) => Some (r_h route) | None => defaultHandler r end) with
    | None => Some (w, req)
    | Some h => Some (wrap (middlewares r) h w req)
    end.
End Router.

Arguments Handler : clear implicits.
Arguments Router {_} W.
Arguments Route {_} W.

(** ** What the documentation of [regexp] says of the patterns that the router builds *)

Definition ascii (s : list byte) : Prop := Forall (fun b => 0 <= b < 128) s.

(** What a variable without a pattern of its own stands for. *)
Definition segment (x : list byte) : Prop := x <> [] /\ slash ∉ x.

(** [raw0 x0 raw1 x1 ... tail]. *)
Fixpoint splice (raws xs : list (list byte)) (tail : list byte) : list byte :=
  match raws, xs with
  | raw :: raws, x :: xs => raw ++ x ++ splice raws xs tail
  | _, _ => tail
  end.

Definition fits (raws xs : list (list byte)) (tail p : list byte) : Prop :=
  length xs = length raws /\ p = splice raws xs tail /\ Forall segment xs.

(** The positions of the groups. *)
Fixpoint positions (off : Z) (raws xs : list (list byte)) : list Z :=
  match raws, xs with
  | raw :: raws, x :: xs => off + zlen raw :: off + zlen raw + zlen x :: positions (off + zlen raw + zlen x) raws xs
  | _, _ => []
  end.

Fixpoint groups_text (idx : Z) (raws : list (list byte)) : list byte :=
  match raws with
  | [] => []
  | raw :: raws =>
      QuoteMeta raw ++ string_bytes "(?P<" ++ varGroupName idx ++ string_bytes ">" ++ defaultPattern ++ string_bytes ")" ++
      groups_text (idx + 1) raws
  end.

Definition template_text (raws : list (list byte)) (tail : list byte) : list byte :=
  [94] ++ groups_text 0 raws ++ QuoteMeta tail ++ [36].

(** The first byte, if there is one, is a slash. *)
Definition at_slash (s : list byte) : Prop := match s with [] => True | b :: _ => b = slash end.

(** The text between two groups starts with a slash, as does what follows the last. *)
Definition separated (raws : list (list byte)) (tail : list byte) : Prop :=
  Forall (fun raw => at_slash raw /\ raw <> []) (drop 1 raws) /\ at_slash tail.

(** Quoted text matches itself, [[^/]+] matches one or more code points other than a slash,
    the anchors the ends of the text, and the submatches are a way to match the whole.  The
    groups are separated by slashes, which are no part of another code point (a byte that
    is no UTF-8 counts as one by itself); so a group matches bytes other than a slash.  The
    bound keeps the expression far below the size that [Compile] refuses. *)
Class RegexpLaws `{!RegexpOps} : Prop := {
  compiled_template raws tail : Forall ascii raws -> ascii tail -> separated raws tail -> zlen (template_text raws tail) <= 1000000 ->
    exists re, Compile (template_text raws tail) = Ok re /\ NumSubexp re = zlen raws /\
      forall p, (MatchString re p = true <-> exists xs, fits raws xs tail p) /\
                (MatchString re p = true -> exists xs, fits raws xs tail p /\
                   FindStringSubmatchIndex re p = 0 :: zlen p :: positions 0 raws xs);
  compiled_default : exists re, Compile ([94] ++ defaultPattern ++ [36]) = Ok re
}.

(** ** Templates *)

(** A template [raw0{name0}raw1{name1}...tail]. *)
Fixpoint template_of (items : list (list byte * list byte)) (tail : list byte) : list byte :=
  match items with
  | [] => tail
  | (raw, name) :: items => raw ++ [lbrace] ++ name ++ [rbrace] ++ template_of items tail
  end.

Definition no_brace (s : list byte) : Prop := lbrace ∉ s /\ rbrace ∉ s.
Definition variable (name : list byte) : Prop := name <> [] /\ no_brace name /\ colon ∉ name.

(** Every variable stands for a whole segment, up to the next slash or the end. *)
Record wf_template (items : list (list byte * list byte)) (tail : list byte) : Prop := {
  wf_raws : Forall (fun it => no_brace it.1 /\ ascii it.1 /\ variable it.2) items;
  wf_tail : no_brace tail /\ ascii tail /\ at_slash tail;
  wf_next : Forall (fun it => at_slash it.1 /\ it.1 <> []) (drop 1 items);
  wf_names : NoDup items.*2;
  wf_nonempty : template_of items tail <> [];
  wf_size : zlen (template_text items.*1 tail) <= 1000000
}.

Lemma wf_separated items tail : wf_template items tail -> separated items.*1 tail.
Proof.
  intros [_ (_ & _ & Ht) Hn _ _ _]. split; [|done]. replace (drop 1 items.*1) with (drop 1 items).*1 by apply fmap_drop. by apply Forall_fmap.
Qed.

Fixpoint indices (i : Z) (items : list (list byte * list byte)) : list Z :=
  match items with
  | [] => []
  | (raw, name) :: items =>
      i + zlen raw :: i + zlen raw + zlen name + 2 :: indices (i + zlen raw + zlen name + 2) items
  end.

Lemma brace_loop_plain l s i level idx idxs :
  no_brace l -> brace_loop (l ++ s) i level idx idxs = brace_loop s (i + zlen l) level idx idxs.
Proof.
  revert i. induction l as [|b l IH]; intros i [H1 H2]; [cbn [app]; by rewrite Z.add_0_r|].
  apply not_elem_of_cons in H1 as [H1 H3], H2 as [H2 H4]. cbn [app brace_loop].
  destruct (Z.eqb_spec b lbrace); [done|]. destruct (Z.eqb_spec b rbrace); [done|].
  rewrite IH by done. rewrite zlen_cons. f_equal. lia.
Qed.

Lemma brace_loop_template items tail i idx idxs :
  Forall (fun it => no_brace it.1 /\ no_brace it.2) items -> no_brace tail ->
  brace_loop (template_of items tail) i 0 idx idxs = Ok (idxs ++ indices i items).
Proof.
  intros Hit Htail. revert i idx idxs. induction Hit as [|[raw name] items [H1 H2] _ IH]; intros i idx idxs; cbn [template_of indices].
  - rewrite <- (app_nil_r tail), brace_loop_plain, app_nil_r by done. done.
  - cbn [fst snd] in *. rewrite brace_loop_plain by done. cbn [app brace_loop].
    rewrite Z.eqb_refl. cbn [Z.add Z.eqb Pos.eqb]. rewrite brace_loop_plain by done. cbn [app brace_loop].
    replace (rbrace =? lbrace) with false by done. rewrite Z.eqb_refl. cbn [Z.sub Z.add Z.opp Z.pos_sub Z.eqb].
    rewrite IH, <- app_assoc. cbn [app]. f_equal. f_equal. f_equal. replace (i + zlen raw + 1 + zlen name + 1) with (i + zlen raw + zlen name + 2) by lia. done.
Qed.

Lemma SplitN2_plain s : colon ∉ s -> SplitN2 s = (s, None).
Proof.
  induction s as [|b s IH]; [done|]. intros [H1 H2]%not_elem_of_cons. cbn [SplitN2].
  destruct (Z.eqb_spec b colon); [done|]. by rewrite IH.
Qed.

Section Templates.
Context `{!RegexpOps, !RegexpLaws}.

Lemma slice_middle (a b c : list byte) i j : i = zlen a -> j = zlen a + zlen b -> slice_from (slice_to (a ++ b ++ c) j) i = b.
Proof.
  intros -> ->. unfold slice_from, slice_to, zlen. rewrite <- Nat2Z.inj_add, !Nat2Z.id, <- length_app, app_assoc, take_app_length.
  apply drop_app_length.
Qed.

Lemma add_variables_template pre items tail b idx :
  Forall (fun it => variable it.2) items -> bEnd b = zlen pre ->
  exists rs, add_variables (pre ++ template_of items tail) b idx (indices (zlen pre) items) =
    Ok (mkBuilding (zlen (pre ++ template_of items [])) (bPattern b ++ groups_text idx items.*1)
          (bReverse b ++ concat ((fun raw => raw ++ string_bytes "%s") <$> items.*1)) (bNames b ++ items.*2) (bRegexps b ++ rs)).
Proof.
  intros Hit. revert pre b idx. induction Hit as [|[raw name] items (Hne & _ & Hcol) _ IH]; intros pre b idx Hend.
  - exists []. cbn. rewrite !app_nil_r. destruct b; cbn in *. by subst.
  - cbn [indices add_variables template_of fst snd]. unfold add_variable.
    rewrite (slice_middle pre raw _ (bEnd b) (zlen pre + zlen raw)) by done.
    match goal with |- context [slice_from ?x ?i] =>
      assert (slice_from x i = name) as -> end.
    { replace (pre ++ raw ++ [lbrace] ++ name ++ [rbrace] ++ template_of items tail)
        with ((pre ++ raw ++ [lbrace]) ++ name ++ [rbrace] ++ template_of items tail) by (by rewrite <- !app_assoc).
      apply slice_middle; rewrite !zlen_app; change (zlen [lbrace]) with 1; lia. }
    cbn [snd fst] in *. rewrite SplitN2_plain by done. cbn [default].
    assert (zlen name =? 0 = false) as -> by (destruct name; [done|rewrite zlen_cons; pose proof (zlen_nonneg name); bool_cases; done || lia]).
    change (false || (zlen defaultPattern =? 0)) with false. cbv iota.
    destruct compiled_default as [re ->].
    destruct (IH (pre ++ raw ++ [lbrace] ++ name ++ [rbrace])
                (mkBuilding (zlen pre + zlen raw + zlen name + 2)
                   (bPattern b ++ QuoteMeta raw ++ string_bytes "(?P<" ++ varGroupName idx ++ string_bytes ">" ++ defaultPattern ++ string_bytes ")")
                   (bReverse b ++ raw ++ string_bytes "%s") (bNames b ++ [name]) (bRegexps b ++ [re])) (idx + 1)) as [rs Hrs].
    { cbn [bEnd]. rewrite !zlen_app. change (zlen [lbrace]) with 1. change (zlen [rbrace]) with 1. lia. }
    exists (re :: rs).
    assert (zlen (pre ++ raw ++ [lbrace] ++ name ++ [rbrace]) = zlen pre + zlen raw + zlen name + 2) as El.
    { rewrite !zlen_app. change (zlen [lbrace]) with 1. change (zlen [rbrace]) with 1. lia. }
    rewrite El, <- !app_assoc in Hrs. cbn [bPattern bReverse bNames bRegexps] in Hrs. cbn [fmap list_fmap fst snd concat groups_text app].
    rewrite <- !app_assoc in Hrs |- *. cbn [app] in Hrs |- *. rewrite Hrs. f_equal. f_equal; by rewrite <- ?app_assoc.
Qed.

Lemma template_of_app items tail : template_of items tail = template_of items [] ++ tail.
Proof. induction items as [|[raw name] items IH]; [done|]. cbn [template_of]. rewrite IH at 1. by rewrite <- !app_assoc. Qed.

Lemma zlen_indices i items : zlen (indices i items) = 2 * zlen items.
Proof. revert i. induction items as [|[raw name] items IH]; intros i; [done|]. cbn [indices]. rewrite !zlen_cons, IH. lia. Qed.

(** A template compiles to the pattern that its text stands for. *)
Lemma newRouteRegexp_template items tail :
  wf_template items tail ->
  exists rr re, newRouteRegexp (template_of items tail) = Some (Ok rr) /\ regexp rr = re /\ varsN rr = items.*2 /\
    Compile (template_text items.*1 tail) = Ok re.
Proof.
  intros Hwf. pose proof (wf_separated _ _ Hwf) as Hsep. destruct Hwf as [H1 (H2 & H3 & _) _ _ _ Hsize]. unfold newRouteRegexp, braceIndices.
  rewrite brace_loop_template; [|by eapply Forall_impl; [exact H1|intros it (? & _ & _ & ? & _)]|done]. cbn [app].
  destruct (add_variables_template [] items tail (mkBuilding 0 [94] [] [] []) 0) as [rs Hrs];
    [by eapply Forall_impl; [exact H1|intros it (_ & _ & ?)]|done|].
  cbn [app bPattern bReverse bNames bRegexps] in Hrs. change (zlen []) with 0 in Hrs. rewrite Hrs. cbn [bEnd bPattern].
  rewrite (template_of_app items tail), slice_from_app.
  destruct (compiled_template items.*1 tail) as (re & Hc & Hn & _); [|done|done|done|].
  { apply Forall_fmap. by eapply Forall_impl; [exact H1|intros it (_ & ? & _)]. }
  unfold template_text in Hc. cbn [app] in Hc |- *. rewrite <- ?app_assoc. rewrite Hc, Hn, zlen_indices, zlen_fmap.
  rewrite Z.mul_comm, Z.quot_mul by done. rewrite Z.eqb_refl. cbn [negb]. eexists _, re. split; [done|]. by split_and!.
Qed.

(** ** Matching *)

Lemma at_slash_unique x y r r' :
  slash ∉ x -> slash ∉ y -> at_slash r -> at_slash r' -> x ++ r = y ++ r' -> x = y /\ r = r'.
Proof.
  revert y. induction x as [|a x IH]; intros [|b y] Hx Hy Hr Hr' E; cbn in E.
  - done.
  - subst r. cbn in Hr. subst b. apply not_elem_of_cons in Hy. naive_solver.
  - subst r'. cbn in Hr'. subst a. apply not_elem_of_cons in Hx. naive_solver.
  - injection E as <- E. apply not_elem_of_cons in Hx as [_ Hx], Hy as [_ Hy].
    destruct (IH y Hx Hy Hr Hr' E) as [-> ->]. done.
Qed.

Lemma at_slash_splice raws xs tail :
  at_slash tail -> Forall (fun r => at_slash r /\ r <> []) raws -> at_slash (splice raws xs tail).
Proof. intros Ht [|raw raws' [Hr Hne] _]; [done|]. destruct xs; [done|]. by destruct raw. Qed.

(** There is one way to cut a path at the slashes. *)
Lemma splice_unique raws xs ys tail :
  at_slash tail -> Forall (fun r => at_slash r /\ r <> []) (drop 1 raws) ->
  length xs = length raws -> length ys = length raws -> Forall segment xs -> Forall segment ys ->
  splice raws xs tail = splice raws ys tail -> xs = ys.
Proof.
  intros Ht. revert xs ys. induction raws as [|raw raws IH]; intros [|x xs] [|y ys] Hr Hx Hy Sx Sy E; try done.
  cbn in *. apply Forall_cons in Sx as [[_ Sx] Sxs], Sy as [[_ Sy] Sys]. apply app_inv_head in E.
  apply at_slash_unique in E as [-> E]; [|done|done|by apply at_slash_splice|by apply at_slash_splice].
  f_equal. apply (IH xs ys); try done; [|lia|lia]. rewrite drop_0 in Hr. destruct Hr; [done|]. cbn. by rewrite drop_0.
Qed.

Lemma zlookup_tail {A} (a b : A) l k : 0 <= k -> zlookup (a :: b :: l) (2 + k) = zlookup l k.
Proof.
  intros Hk. unfold zlookup. bool_cases; try lia. by replace (Z.to_nat (2 + k)) with (S (S (Z.to_nat k))) by lia.
Qed.

(** The variables of the submatches. *)
Lemma extract_positions input pre raws xs names tail out i ms :
  length xs = length raws -> length names = length raws -> input = pre ++ splice raws xs tail ->
  (forall k, 0 <= k -> zlookup ms (2 * i + 2 + k) = zlookup (positions (zlen pre) raws xs) k) ->
  extractVars input ms i names out = Some (fold_left (fun o nx => <[nx.1 := nx.2]> o) (zip names xs) out).
Proof.
  revert pre xs names out i. induction raws as [|raw raws IH]; intros pre [|x xs] [|name names] out i Hx Hn Hin Hms; try done.
  cbn [extractVars zip zip_with fold_left fst snd positions splice] in *.
  pose proof (Hms 0 ltac:(lia)) as M0. pose proof (Hms 1 ltac:(lia)) as M1. rewrite Z.add_0_r in M0.
  replace (2 * i + 3) with (2 * i + 2 + 1) by lia. rewrite M0, M1.
  change (zlookup (?a :: ?b :: ?l) 0) with (Some a). change (zlookup (?a :: ?b :: ?l) 1) with (Some b). cbn [mbind option_bind].
  pose proof (zlen_nonneg pre). pose proof (zlen_nonneg raw). pose proof (zlen_nonneg x). pose proof (zlen_nonneg (splice raws xs tail)).
  assert (zlen input = zlen pre + zlen raw + zlen x + zlen (splice raws xs tail)) as El by (subst; rewrite !zlen_app; lia).
  destruct (Z.leb_spec 0 (zlen pre + zlen raw)); [|lia]. destruct (Z.leb_spec (zlen pre + zlen raw) (zlen pre + zlen raw + zlen x)); [|lia].
  destruct (Z.leb_spec (zlen pre + zlen raw + zlen x) (zlen input)); [|lia]. cbn [andb].
  assert (slice_from (slice_to input (zlen pre + zlen raw + zlen x)) (zlen pre + zlen raw) = x) as ->.
  { rewrite Hin, app_assoc. apply slice_middle; rewrite zlen_app; lia. }
  apply (IH (pre ++ raw ++ x)); [by injection Hx|by injection Hn|by rewrite Hin, <- !app_assoc|].
  intros k Hk. replace (2 * (i + 1) + 2 + k) with (2 * i + 2 + (2 + k)) by lia. rewrite Hms by lia.
  rewrite zlookup_tail by done. rewrite !zlen_app. f_equal. f_equal. lia.
Qed.

Lemma fold_insert_lookup (nxs : list (list byte * list byte)) (out : gmap (list byte) (list byte)) n x :
  NoDup nxs.*1 -> (n, x) ∈ nxs -> fold_left (fun o nx => <[nx.1 := nx.2]> o) nxs out !! n = Some x.
Proof.
  revert out. induction nxs as [|[n' x'] nxs IH]; intros out Hnd Hin; [by apply elem_of_nil in Hin|].
  cbn in *. apply NoDup_cons in Hnd as [Hn Hnd]. apply elem_of_cons in Hin as [[= -> ->]|Hin]; [|by apply IH].
  clear IH Hnd. revert out. assert (forall o : gmap (list byte) (list byte), o !! n' = Some x' ->
    fold_left (fun o nx => <[nx.1 := nx.2]> o) nxs o !! n' = Some x') as Hk; [|intros out; apply Hk, lookup_insert_eq].
  induction nxs as [|[n2 x2] nxs IH]; intros o Ho; [done|]. cbn in *. apply not_elem_of_cons in Hn as [Hne Hn].
  apply IH; [done|]. by rewrite lookup_insert_ne.
Qed.

(** The route of a template matches the paths made from it, and finds the values again. *)
Lemma template_route items tail xs p0 rr :
  wf_template items tail -> newRouteRegexp (template_of items tail) = Some (Ok rr) ->
  length xs = length items -> Forall segment xs ->
  let path := splice items.*1 xs tail in
  MatchString (regexp rr) path = true /\
  exists vars, extractRouteParams rr path p0 = Some (mkRouteParams (Path p0) (Some vars) (PathTemplate p0)) /\
    forall name x, (name, x) ∈ zip items.*2 xs -> vars !! name = Some x.
Proof.
  intros Hwf Hrr Hlen Hseg path. destruct (newRouteRegexp_template items tail Hwf) as (rr' & re & Err & Ere & Evars & Hc).
  rewrite Hrr in Err. injection Err as <-. pose proof (wf_separated _ _ Hwf) as Hsep. destruct Hwf as [H1 (H2 & H3 & Hts) Hnext Hnames _ Hsize].
  destruct (compiled_template items.*1 tail) as (re' & Hc' & _ & Hp).
  { apply Forall_fmap. by eapply Forall_impl; [exact H1|intros it (_ & ? & _)]. }
  1-3: done.
  rewrite Hc in Hc'. injection Hc' as <-. destruct (Hp path) as [Hm Hf]. rewrite Ere.
  assert (fits items.*1 xs tail path) as Hfit by (split_and!; [by rewrite length_fmap|done|done]).
  assert (MatchString re path = true) as Hmatch by (apply Hm; eauto). split; [done|].
  destruct (Hf Hmatch) as (ys & (Hy1 & Hy2 & Hy3) & Hfind).
  assert (ys = xs) as ->.
  { apply (splice_unique items.*1 ys xs tail Hts); try done; [|by rewrite length_fmap].
    replace (drop 1 items.*1) with (drop 1 items).*1 by apply fmap_drop. by apply Forall_fmap. }
  unfold extractRouteParams. rewrite Ere, Hfind, Evars.
  assert (0 <? zlen (0 :: zlen path :: positions 0 items.*1 xs) = true) as ->.
  { rewrite !zlen_cons. pose proof (zlen_nonneg (positions 0 items.*1 xs)). bool_cases; done || lia. }
  rewrite (extract_positions path [] items.*1 xs items.*2 tail); [|done|by rewrite !length_fmap|done|].
  - cbn [mbind option_bind]. eexists. split; [done|]. intros name x Hin. apply fold_insert_lookup; [|done].
    rewrite fst_zip; [done|]. rewrite length_fmap. lia.
  - intros k Hk. by rewrite zlookup_tail.
Qed.
End Templates.

(** ** Dispatch *)

Section Dispatch.
Context `{!RegexpOps} {W : Type}.
Implicit Types (routes : list (list byte * Route W)).

(** [b] is the best of the routes: it matches and none that matches is longer. *)
Definition best_route (path : list byte) routes (b : option (Route W * list byte)) : Prop :=
  match b with
  | None => forall pat route, (pat, route) ∈ routes -> pathMatch route path = false
  | Some (route, pat) =>
      (pat, route) ∈ routes /\ pathMatch route path = true /\
      forall pat' route', (pat', route') ∈ routes -> pathMatch route' path = true -> zlen pat' <= zlen pat
  end.

Lemma match_loop_best path routes done_ n best :
  best_route path done_ best -> match best with None => n = 0 | Some (_, pat) => n = zlen pat end ->
  best_route path (done_ ++ routes) (match_loop path routes n best).
Proof.
  revert done_ n best. induction routes as [|[pat route] routes IH]; intros done_ n best Hb Hn; cbn [match_loop]; [by rewrite app_nil_r|].
  change ((pat, route) :: routes) with ([(pat, route)] ++ routes). rewrite app_assoc.
  assert (forall p' r', (p', r') ∈ done_ ++ [(pat, route)] -> (p', r') ∈ done_ \/ (p', r') = (pat, route)) as Hin'
    by (intros p' r'; by rewrite elem_of_app, list_elem_of_singleton).
  destruct (pathMatch route path) eqn:Em; cbn [negb].
  - destruct best as [[br bp]|]; cbn [orb].
    + subst n. destruct Hb as (Hin & Hbm & Hmax). destruct (Z.ltb_spec (zlen bp) (zlen pat)); apply IH; try done.
      * split_and!; [set_solver|done|]. intros p' r' [Hp|[= -> ->]]%Hin' Hm; [specialize (Hmax _ _ Hp Hm)|]; lia.
      * split_and!; [set_solver|done|]. intros p' r' [Hp|[= -> ->]]%Hin' Hm; [by apply (Hmax _ _ Hp)|lia].
    + apply IH; [|done]. split_and!; [set_solver|done|]. intros p' r' [Hp|[= -> ->]]%Hin' Hm; [|lia].
      by rewrite (Hb _ _ Hp) in Hm.
  - apply IH; [|done]. destruct best as [[br bp]|]; cbn in *.
    + destruct Hb as (Hin & Hbm & Hmax). split_and!; [set_solver|done|].
      intros p' r' [Hp|[= -> ->]]%Hin' Hm; [by apply (Hmax _ _ Hp)|congruence].
    + intros p' r' [Hp|[= -> ->]]%Hin'; [by apply (Hb _ _ Hp)|done].
Qed.

Lemma match_best path routes : best_route path routes (match_loop path routes 0 None).
Proof. apply (match_loop_best path routes [] 0 None); [|done]. intros pat route Hel. by apply elem_of_nil in Hel. Qed.

(** A route that matches and is longer than every other one that matches is chosen. *)
Lemma match_loop_unique path routes pat route :
  (pat, route) ∈ routes -> pathMatch route path = true ->
  (forall pat' route', (pat', route') ∈ routes -> pathMatch route' path = true -> (pat', route') = (pat, route) \/ zlen pat' < zlen pat) ->
  match_loop path routes 0 None = Some (route, pat).
Proof.
  intros Hin Hm Hother. pose proof (match_best path routes) as Hb. destruct (match_loop path routes 0 None) as [[r p]|]; cbn in Hb.
  - destruct Hb as (Hin' & Hm' & Hmax). specialize (Hmax _ _ Hin Hm). destruct (Hother _ _ Hin' Hm') as [[= -> ->]|]; [done|lia].
  - by rewrite (Hb _ _ Hin) in Hm.
Qed.

Lemma wrap_foldr (mws : list (Handler W -> Handler W)) h : wrap mws h = foldr (fun m h => m h) h mws.
Proof. unfold wrap. by rewrite <- fold_left_rev_right, rev_involutive. Qed.

(** C33: the router serves a path with the route registered for its template: registering a
    template of literal text and variables that stand for whole path segments succeeds,
    and a request for the path that a choice of segments makes from the template is
    served - in whatever order the map of routes is visited, if every other route that
    matches the path has a shorter pattern - by that handler, inside the middlewares in
    the order in which they were added, with the path, the template, and each
    variable bound to its segment.  The literal text of the template is ASCII, a slash or
    the end follows every variable, names differ, and the expression made from it has at
    most a million bytes; the segments are any bytes without a slash.  [RegexpLaws] says
    what package regexp does with such expressions. *)
Theorem template_served `{!RegexpLaws} (r : Router W) items tail (h : Handler W) (xs : list (list byte)) (opts : Options)
    (Hwf : wf_template items tail) (Hlen : length xs = length items) (Hseg : Forall segment xs)
    (Hpath : Options_Path opts = (splice items.*1 xs tail, None))
    (Hother : forall pat route, z r !! pat = Some route -> pathMatch route (splice items.*1 xs tail) = true ->
                pat <> template_of items tail -> zlen pat < zlen (template_of items tail)) :
  exists r', Handle r (template_of items tail) (Some h) = Some (r', None) /\
    forall routes w p0, routes ≡ₚ map_to_list (z r') ->
      exists p, ServeCOAP r' routes w (mkRequest opts p0) =
          Some (foldr (fun m h => m h) h (middlewares r) w (mkRequest opts p)) /\
        Path p = splice items.*1 xs tail /\ PathTemplate p = template_of items tail /\
        forall name x, (name, x) ∈ zip items.*2 xs -> default ∅ (Vars p) !! name = Some x.
Proof.
  set (tmpl := template_of items tail) in *. set (path := splice items.*1 xs tail) in *.
  assert (FilterPath tmpl = tmpl) as Ef.
  { unfold FilterPath, tmpl. pose proof (wf_nonempty _ _ Hwf) as Hne. destruct (template_of items tail); [done|].
    rewrite zlen_cons. pose proof (zlen_nonneg l). bool_cases; done || lia. }
  assert (FilterPath path = path) as Efp.
  { unfold FilterPath, path. destruct (zlen (splice items.*1 xs tail) =? 0) eqn:E0; [|done]. exfalso. apply Z.eqb_eq in E0.
    apply zlen_0_nil in E0. destruct items as [|[raw name] items]; destruct xs as [|x xs]; try done.
    - by apply (wf_nonempty _ _ Hwf).
    - cbn in E0. apply app_nil in E0 as [_ [-> _]%app_nil]. apply Forall_cons in Hseg as [[Hne _] _]. done. }
  destruct (newRouteRegexp_template items tail Hwf) as (rr & _ & Hrr & _). fold tmpl in Hrr.
  unfold Handle. rewrite Ef, Hrr. cbn [mbind option_bind]. set (route := mkRoute h tmpl rr). eexists. split; [done|].
  intros routes w p0 Hperm. cbn [z] in Hperm. unfold ServeCOAP. cbn [q_options q_params]. rewrite Hpath. cbn [middlewares defaultHandler].
  set (p1 := mkRouteParams path (Some (default ∅ (Vars p0))) tmpl).
  destruct (template_route items tail xs p1 rr Hwf Hrr Hlen Hseg) as [Hm (vars & He & Hv)]. fold path in Hm, He.
  unfold Match. rewrite Efp. rewrite (match_loop_unique path routes tmpl route).
  - fold p1. change (r_regexMatcher route) with rr. rewrite He. cbn [mbind option_bind]. eexists. rewrite wrap_foldr. by split_and!.
  - rewrite Hperm, elem_of_map_to_list. apply lookup_insert_eq.
  - exact Hm.
  - intros pat' route' Hin Hm'. rewrite Hperm, elem_of_map_to_list in Hin. apply lookup_insert_Some in Hin as [[<- <-]|[Hne Hin]]; [by left|].
    right. by apply (Hother pat' route' Hin Hm').
Qed.
End Dispatch.

(** ** A matcher for templates *)

Module TemplateRegexp.

Definition strip (pre s : list byte) : option (list byte) :=
  if bool_decide (take (length pre) s = pre) then Some (drop (length pre) s) else None.

Lemma strip_app pre s : strip pre (pre ++ s) = Some s.
Proof. unfold strip. rewrite bool_decide_true by apply take_app_length. by rewrite drop_app_length. Qed.

Lemma strip_Some pre s s' : strip pre s = Some s' -> s = pre ++ s'.
Proof. unfold strip. case_bool_decide as E; [|done]. intros [= <-]. rewrite <- E at 1. by rewrite take_drop. Qed.

(** The text of a group. *)
Definition group (idx : Z) : list byte :=
  string_bytes "(?P<" ++ varGroupName idx ++ string_bytes ">" ++ defaultPattern ++ string_bytes ")".

(** Reads the quoted text up to the next group or the end. *)
Fixpoint parse (fuel : nat) (idx : Z) (raw s : list byte) : option (list (list byte) * list byte) :=
  match fuel with
  | O => None
  | S fuel =>
      match s with
      | [] => None
      | b :: s' =>
          if b =? 92 then match s' with [] => None | c :: s' => parse fuel idx (raw ++ [c]) s' end
          else if b =? 36 then match s' with [] => Some ([], raw) | _ => None end
          else if b =? 40 then
            s' ← strip (group idx) s;
            '(raws, tail) ← parse fuel (idx + 1) [] s';
            Some (raw :: raws, tail)
          else parse fuel idx (raw ++ [b]) s'
      end
  end.

Lemma parse_quoted fuel idx raw l s :
  (length l <= fuel)%nat ->
  parse fuel idx raw (QuoteMeta l ++ s) = parse (fuel - length l) idx (raw ++ l) s.
Proof.
  revert fuel raw. induction l as [|b l IH]; intros fuel raw Hf; [by rewrite app_nil_r, Nat.sub_0_r|].
  destruct fuel as [|fuel]; [cbn in Hf; lia|]. cbn in Hf. change (QuoteMeta (b :: l)) with
    ((if bool_decide (b ∈ special) then [92; b] else [b]) ++ QuoteMeta l). rewrite <- app_assoc.
  case_bool_decide as Hb.
  - cbn [app parse]. change (92 =? 92) with true. cbv iota. rewrite IH by lia. cbn [Nat.sub length]. by rewrite <- app_assoc.
  - cbn [app parse].
    destruct (Z.eqb_spec b 92) as [->|]; [by destruct Hb; vm_compute; left|].
    destruct (Z.eqb_spec b 36) as [->|]; [by destruct Hb; apply (bool_decide_unpack _); vm_compute|].
    destruct (Z.eqb_spec b 40) as [->|]; [by destruct Hb; apply (bool_decide_unpack _); vm_compute|].
    rewrite IH by lia. cbn [Nat.sub length]. by rewrite <- app_assoc.
Qed.

Definition weight (raws : list (list byte)) (tail : list byte) : nat := S (length tail + sum_list_with (fun r => S (length r)) raws).

Lemma parse_template fuel idx raws tail :
  (weight raws tail <= fuel)%nat ->
  parse fuel idx [] (groups_text idx raws ++ QuoteMeta tail ++ [36]) = Some (raws, tail).
Proof.
  unfold weight. revert fuel idx. induction raws as [|raw raws IH]; intros fuel idx Hf; cbn [groups_text sum_list_with app] in *.
  - rewrite parse_quoted by lia. destruct (fuel - length tail)%nat eqn:E; [lia|]. done.
  - rewrite <- app_assoc, parse_quoted by lia. destruct (fuel - length raw)%nat as [|f] eqn:E; [lia|].
    match goal with |- parse _ _ _ ?t = _ => assert (t = group idx ++ groups_text (idx + 1) raws ++ QuoteMeta tail ++ [36]) as -> end.
    { unfold group. by rewrite <- !app_assoc. }
    assert (exists t, group idx = 40 :: t) as [t Ht] by (eexists; reflexivity).
    assert (forall s, parse (S f) idx ([] ++ raw) (group idx ++ s) =
              ('(raws, tail) ← parse f (idx + 1) [] s; Some (([] ++ raw) :: raws, tail))) as Hstep.
    { intros s. pose proof (strip_app (group idx) s) as Hs. rewrite Ht in *. cbn [app parse].
      change (40 =? 92) with false. change (40 =? 36) with false. change (40 =? 40) with true. cbv iota.
      rewrite Ht. cbn [app] in Hs. rewrite Hs. done. }
    rewrite Hstep, IH by lia. done.
Qed.

(** The first way to match, by increasing length of the variables. *)
Fixpoint try_lengths {A} (p : list byte) (x : list byte) (f : list byte -> list byte -> option A) : option A :=
  match p with
  | [] => None
  | b :: p =>
      if b =? slash then None else
      match f (x ++ [b]) p with
      | Some r => Some r
      | None => try_lengths p (x ++ [b]) f
      end
  end.

Fixpoint solve (raws : list (list byte)) (tail p : list byte) : option (list (list byte)) :=
  match raws with
  | [] => if bool_decide (p = tail) then Some [] else None
  | raw :: raws =>
      p ← strip raw p;
      try_lengths p [] (fun x p => xs ← solve raws tail p; Some (x :: xs))
  end.

Lemma try_lengths_sound {A} p x (f : list byte -> list byte -> option A) r :
  try_lengths p x f = Some r -> slash ∉ x -> exists y p', f (x ++ y) p' = Some r /\ p = y ++ p' /\ y <> [] /\ slash ∉ x ++ y.
Proof.
  revert x. induction p as [|b p IH]; intros x; [done|]. cbn [try_lengths]. destruct (Z.eqb_spec b slash) as [|Hb]; [done|].
  assert (slash ∉ x -> slash ∉ x ++ [b]) as Hns by (intros; rewrite elem_of_app, list_elem_of_singleton; naive_solver).
  destruct (f (x ++ [b]) p) as [r'|] eqn:Ef.
  - intros [= <-] Hx. exists [b], p. split_and!; try done. by apply Hns.
  - intros E Hx. destruct (IH _ E (Hns Hx)) as (y & p' & H1 & -> & H3 & H4). exists (b :: y), p'.
    rewrite <- app_assoc in H1, H4. by split_and!.
Qed.

Lemma try_lengths_complete {A} p x (f : list byte -> list byte -> option A) y p' :
  p = y ++ p' -> y <> [] -> slash ∉ y -> is_Some (f (x ++ y) p') -> is_Some (try_lengths p x f).
Proof.
  intros ->. revert x. induction y as [|b y IH]; intros x Hne Hs Hf; [done|]. apply not_elem_of_cons in Hs as [Hb Hs].
  cbn [app try_lengths]. destruct (Z.eqb_spec b slash); [done|]. destruct y as [|c y].
  - cbn [app]. destruct (f (x ++ [b]) p'); [by eexists|by destruct Hf].
  - destruct (f (x ++ [b]) _); [by eexists|]. apply IH; [done|done|]. by rewrite <- app_assoc.
Qed.

Lemma solve_sound raws tail p xs : solve raws tail p = Some xs -> fits raws xs tail p.
Proof.
  revert p xs. induction raws as [|raw raws IH]; intros p xs; cbn [solve].
  - case_bool_decide as E; [|done]. intros [= <-]. by split_and!.
  - destruct (strip raw p) as [p'|] eqn:Es; [|done]. apply strip_Some in Es as ->. cbn [mbind option_bind]. intros Ht.
    apply try_lengths_sound in Ht as (y & p'' & Hf & -> & Hne & Hns); [|by apply not_elem_of_nil].
    cbn [app] in *. destruct (solve raws tail p'') as [ys|] eqn:E; [|done]. cbn [mbind option_bind] in Hf. injection Hf as <-.
    apply IH in E as (H1 & -> & H3). split_and!; [cbn; lia|done|by constructor].
Qed.

Lemma solve_complete raws tail p xs : fits raws xs tail p -> is_Some (solve raws tail p).
Proof.
  revert p xs. induction raws as [|raw raws IH]; intros p [|x xs] (H1 & -> & H3); cbn [solve splice] in *; try done.
  - rewrite bool_decide_true by done. by eexists.
  - apply Forall_cons in H3 as [[Hne Hns] H3]. rewrite strip_app. cbn [mbind option_bind].
    apply (try_lengths_complete _ [] _ x (splice raws xs tail)); [done|done|done|]. cbn [app].
    destruct (IH (splice raws xs tail) xs) as [ys ->]; [split_and!; [by injection H1|done|done]|]. by eexists.
Qed.

Definition compile (text : list byte) : result (list (list byte) * list byte) :=
  match text with
  | 94 :: s => match parse (length s) 0 [] s with Some r => Ok r | None => Err (ErrOther "error parsing regexp") end
  | _ => Err (ErrOther "error parsing regexp")
  end.

#[local] Instance ops : RegexpOps := {|
  Regexp := list (list byte) * list byte;
  Compile := compile;
  NumSubexp re := zlen re.1;
  MatchString re p := bool_decide (is_Some (solve re.1 re.2 p));
  FindStringSubmatchIndex re p :=
    match solve re.1 re.2 p with Some xs => 0 :: zlen p :: positions 0 re.1 xs | None => [] end
|}.

Lemma QuoteMeta_length l : (length l <= length (QuoteMeta l))%nat.
Proof.
  induction l as [|b l IH]; [done|]. change (QuoteMeta (b :: l)) with ((if bool_decide (b ∈ special) then [92; b] else [b]) ++ QuoteMeta l).
  rewrite length_app. case_bool_decide; cbn; lia.
Qed.

Lemma text_length idx raws tail : (weight raws tail <= length (groups_text idx raws ++ QuoteMeta tail ++ [36%Z]))%nat.
Proof.
  unfold weight. revert idx. induction raws as [|raw raws IH]; intros idx; cbn [groups_text sum_list_with app].
  - rewrite length_app. pose proof (QuoteMeta_length tail). cbn. lia.
  - rewrite <- !app_assoc, !length_app. specialize (IH (idx + 1)). rewrite !length_app in IH. pose proof (QuoteMeta_length raw).
    change (length (string_bytes "(?P<")) with 4%nat. cbn [length] in *. lia.
Qed.

#[local] Instance regexp_laws : RegexpLaws.
Proof.
  split.
  - intros raws tail _ _ _ _. exists (raws, tail). split_and!; [|done|].
    + cbn. by rewrite parse_template by apply text_length.
    + intros p. cbn. split.
      * rewrite bool_decide_eq_true. split; [intros [xs Hxs]; exists xs; by apply solve_sound|intros [xs Hxs]; by eapply solve_complete].
      * rewrite bool_decide_eq_true. intros [xs Hxs]. exists xs. split; [by apply solve_sound|by rewrite Hxs].
  - eexists. vm_compute. reflexivity.
Qed.

(** ** Routes *)

Definition bytes_of (s : string) : list byte := string_bytes s.

(** The writer records which handler ran. *)
Definition reply (n : nat) : Handler (list nat) := fun w r => (w ++ [n], r).
Definition log (n : nat) (h : Handler (list nat)) : Handler (list nat) := fun w r => h (w ++ [n]) r.
Definition params0 : RouteParams := mkRouteParams [] None [].
Definition path_options (segments : list string) : Options := (fun s => mkOption URIPath (bytes_of s)) <$> segments.

Definition router : Router (list nat) := Use (NewRouter (fun w => w ++ [404%nat])) [log 1; log 2].
Definition device_items : list (list byte * list byte) :=
  [(bytes_of "/devices/", bytes_of "id"); (bytes_of "/res/", bytes_of "name")].

Lemma template_served_witness :
  exists r', Handle router (bytes_of "/devices/{id}/res/{name}") (Some (reply 7)) = Some (r', None) /\
    exists p, ServeCOAP r' (map_to_list (z r')) [] (mkRequest (path_options ["devices"; "d1"; "res"; "light"]) params0) =
        Some ([1; 2; 7]%nat, mkRequest (path_options ["devices"; "d1"; "res"; "light"]) p) /\
      default ∅ (Vars p) !! bytes_of "id" = Some (bytes_of "d1").
Proof.
  destruct (template_served router device_items [] (reply 7) [bytes_of "d1"; bytes_of "light"]
              (path_options ["devices"; "d1"; "res"; "light"])) as (r' & H1 & H2).
  - split; cbn.
    + repeat constructor; try (apply (bool_decide_unpack _); vm_compute; exact I).
    + repeat constructor; apply (bool_decide_unpack _); vm_compute; exact I.
    + repeat constructor. discriminate.
    + apply (bool_decide_unpack _). vm_compute. exact I.
    + discriminate.
    + vm_compute. discriminate.
  - reflexivity.
  - repeat constructor; try discriminate; apply (bool_decide_unpack _); vm_compute; exact I.
  - vm_compute. reflexivity.
  - intros pat route H. change (z router) with (∅ : gmap (list byte) (Route (list nat))) in H. rewrite lookup_empty in H. discriminate H.
  - exists r'. split; [exact H1|]. destruct (H2 (map_to_list (z r')) [] params0 (Permutation_refl _)) as (p & H3 & _ & _ & H4).
    exists p. split; [exact H3|]. apply H4. left.
Defined.

(** The longest pattern is not the most specific one: a variable with a long name beats
    the literal route of the path. *)
Theorem variable_beats_literal :
  exists r1 r2, Handle (NewRouter (fun w => w)) (bytes_of "/light") (Some (reply 1)) = Some (r1, None) /\
    Handle r1 (bytes_of "/{resource}") (Some (reply 2)) = Some (r2, None) /\
    (fun x => x.1) <$> ServeCOAP r2 (map_to_list (z r2)) [] (mkRequest (path_options ["light"]) params0) = Some [2%nat].
Proof. eexists _, _. split; [reflexivity|]. split; [reflexivity|]. vm_compute. reflexivity. Qed.
End TemplateRegexp.
