(* ===== verification/MutexMap.v ===== *)
(** * A lock per key (src/udp/client/mutexmap.go)

    A datagram connection handles messages in parallel, but never two with the same
    message ID: [MutexMap] creates a lock for a key when it is first asked for and
    removes it when nobody uses it.  Each step of [mm_step] is one critical section of
    [ml], or the locking or unlocking of an entry; [None] is a panic. *)
From stdpp Require Import prelude list gmap.
From Stdlib Require Import ZArith Lia.
From S2P Require Import Prelude.
#[local] Open Scope Z_scope.

Section MutexMap.
Context `{Countable K}.

(** An entry: its reference count (a [uint16]) and whether its lock is taken. *)
Record mutexMapEntry : Type := mkEntry { cnt : Z; el : bool }.

(** [ma] maps keys to the addresses of entries. *)
Record MutexMap : Type := mkMutexMap { ma : gmap K nat; entries : list mutexMapEntry }.

Definition NewMutexMap : MutexMap := mkMutexMap ∅ [].

Implicit Types (m : MutexMap) (key : K).

Definition entry m (e : nat) : mutexMapEntry := default (mkEntry 0 false) (entries m !! e).
Definition set_entry m (e : nat) (x : mutexMapEntry) : MutexMap := mkMutexMap (ma m) (<[e := x]> (entries m)).

(** Read or create the entry for the key. *)
Definition Lock_entry m key : MutexMap * nat :=
  match ma m !! key with
  | Some e => (m, e)
  | None => let e := length (entries m) in
            (mkMutexMap (<[key := e]> (ma m)) (entries m ++ [mkEntry 0 false]), e)
  end.

(** The first critical section of [Lock]: the address of the entry. *)
Definition Lock_enter m key : MutexMap * nat :=
  let '(m, e) := Lock_entry m key in
  (set_entry m e (mkEntry (uint16 (cnt (entry m e) + 1)) (el (entry m e))), e).

(** [e.el.Lock()], which waits while the lock is taken. *)
Definition Lock_acquire m (e : nat) : option MutexMap :=
  if el (entry m e) then None else Some (set_entry m e (mkEntry (cnt (entry m e)) true)).

(** The critical section of [Unlock]; [None]: no entry found. *)
Definition Unlock_map m key : option (MutexMap * nat) :=
  match ma m !! key with
  | None => None
  | Some e =>
      let c := uint16 (cnt (entry m e) - 1) in
      let m := set_entry m e (mkEntry c (el (entry m e))) in
      Some (if c <? 1 then mkMutexMap (delete key (ma m)) (entries m) else m, e)
  end.

(** [e.el.Unlock()]; [None]: unlock of an unlocked mutex. *)
Definition Unlock_el m (e : nat) : option MutexMap :=
  if el (entry m e) then Some (set_entry m e (mkEntry (cnt (entry m e)) false)) else None.

(** ** Threads *)

Inductive mm_pc : Type :=
| Idle
| Waiting (key : K) (e : nat)
| Holding (key : K) (e : nat)
| Unlocking (e : nat).

Definition mm_state : Type := MutexMap * list mm_pc.

(** A thread asks for a lock, gets it, gives it back; [None]: it panics. *)
Inductive mm_step : mm_state -> option mm_state -> Prop :=
| mm_enter m ts i key m' e :
    ts !! i = Some Idle -> Lock_enter m key = (m', e) ->
    mm_step (m, ts) (Some (m', <[i := Waiting key e]> ts))
| mm_acquire m ts i key e m' :
    ts !! i = Some (Waiting key e) -> Lock_acquire m e = Some m' ->
    mm_step (m, ts) (Some (m', <[i := Holding key e]> ts))
| mm_unlock m ts i key e m' e' :
    ts !! i = Some (Holding key e) -> Unlock_map m key = Some (m', e') ->
    mm_step (m, ts) (Some (m', <[i := Unlocking e']> ts))
| mm_unlock_panic m ts i key e :
    ts !! i = Some (Holding key e) -> Unlock_map m key = None -> mm_step (m, ts) None
| mm_release m ts i e m' :
    ts !! i = Some (Unlocking e) -> Unlock_el m e = Some m' ->
    mm_step (m, ts) (Some (m', <[i := Idle]> ts))
| mm_release_panic m ts i e :
    ts !! i = Some (Unlocking e) -> Unlock_el m e = None -> mm_step (m, ts) None.

Inductive mm_reachable (n : nat) : option mm_state -> Prop :=
| mm_init : mm_reachable n (Some (NewMutexMap, replicate n Idle))
| mm_next st st' : mm_reachable n (Some st) -> mm_step st st' -> mm_reachable n st'.

(** ** The invariant *)

(** The thread counts for the entry [e]; it has the lock of the entry. *)
Definition counts (e : nat) (t : mm_pc) : bool :=
  match t with Waiting _ e' | Holding _ e' => bool_decide (e' = e) | _ => false end.
Definition has (e : nat) (t : mm_pc) : bool :=
  match t with Holding _ e' | Unlocking e' => bool_decide (e' = e) | _ => false end.

Definition total (f : mm_pc -> bool) (ts : list mm_pc) : nat := sum_list_with (fun t => Nat.b2n (f t)) ts.

Record mm_inv (st : mm_state) : Prop := mkMInv {
  mm_bound : forall key e, ma st.1 !! key = Some e -> (e < length (entries st.1))%nat;
  mm_inj : forall k1 k2 e, ma st.1 !! k1 = Some e -> ma st.1 !! k2 = Some e -> k1 = k2;
  mm_refs : forall i key e, st.2 !! i = Some (Waiting key e) \/ st.2 !! i = Some (Holding key e) -> ma st.1 !! key = Some e;
  mm_unl : forall i e, st.2 !! i = Some (Unlocking e) -> (e < length (entries st.1))%nat;
  mm_cnt : forall e, (e < length (entries st.1))%nat -> cnt (entry st.1 e) = Z.of_nat (total (counts e) st.2);
  mm_el : forall e, (e < length (entries st.1))%nat -> total (has e) st.2 = if el (entry st.1 e) then 1%nat else 0%nat;
  mm_pos : forall key e, ma st.1 !! key = Some e -> (0 < total (counts e) st.2)%nat
}.

Lemma total_insert f ts i t t' :
  ts !! i = Some t -> (total f (<[i := t']> ts) + Nat.b2n (f t) = total f ts + Nat.b2n (f t'))%nat.
Proof.
  intros Hi. unfold total. rewrite insert_take_drop by eauto using lookup_lt_Some.
  rewrite <-(take_drop_middle ts i t Hi) at 3. rewrite !sum_list_with_app. cbn [sum_list_with app]. lia.
Qed.

Lemma total_le f ts : (total f ts <= length ts)%nat.
Proof. unfold total. induction ts as [|t ts IH]; [done|]. cbn. destruct (f t); cbn; lia. Qed.

Lemma total_ge f ts i t : ts !! i = Some t -> (Nat.b2n (f t) <= total f ts)%nat.
Proof.
  intros Hi. unfold total. rewrite <-(take_drop_middle ts i t Hi), sum_list_with_app. cbn [sum_list_with app]. lia.
Qed.

(** Two threads of the same kind are two in the sum. *)
Lemma total_two f ts i j t u : ts !! i = Some t -> ts !! j = Some u -> i <> j ->
  f Idle = false -> f t = true -> f u = true -> (2 <= total f ts)%nat.
Proof.
  intros Hi Hj Hne H0 Ht Hu. pose proof (total_insert f ts i t Idle Hi) as E1.
  pose proof (total_ge f (<[i := Idle]> ts) j u) as E2. rewrite list_lookup_insert_ne in E2 by done. specialize (E2 Hj).
  rewrite Ht, H0 in E1. rewrite Hu in E2. cbn [Nat.b2n] in *. lia.
Qed.

Lemma total_replicate f n : f Idle = false -> total f (replicate n Idle) = 0%nat.
Proof. intros Hf. unfold total. induction n as [|n IH]; [done|]. cbn. by rewrite Hf. Qed.

Lemma entry_set m e x e' :
  (e < length (entries m))%nat -> entry (set_entry m e x) e' = if decide (e' = e) then x else entry m e'.
Proof.
  intros He. unfold entry, set_entry. cbn. destruct (decide (e' = e)) as [->|Hne].
  - by rewrite list_lookup_insert_eq.
  - by rewrite list_lookup_insert_ne.
Qed.

Lemma length_set m e x : length (entries (set_entry m e x)) = length (entries m).
Proof. apply length_insert. Qed.

Lemma counts_refs st e : mm_inv st -> forall i t, st.2 !! i = Some t -> counts e t = true -> exists key, ma st.1 !! key = Some e.
Proof.
  intros Hinv i t Hi Hc. destruct t as [|key e'|key e'|e']; cbn in Hc; [done| | |done]; apply bool_decide_eq_true in Hc as ->;
    exists key; apply (mm_refs st Hinv i); auto.
Qed.

Lemma total_zero f ts : (forall i t, ts !! i = Some t -> f t = false) -> total f ts = 0%nat.
Proof.
  unfold total. induction ts as [|t ts IH]; intros Hf; [done|]. cbn.
  rewrite (Hf 0%nat t) by done. rewrite IH; [done|]. intros i u Hi. by apply (Hf (S i)).
Qed.

(** What changes when thread [i] goes from [t] to [t']. *)
Lemma total_move f ts i t t' :
  ts !! i = Some t -> total f (<[i := t']> ts) = (total f ts - Nat.b2n (f t) + Nat.b2n (f t'))%nat.
Proof. intros Hi. pose proof (total_insert f ts i t t' Hi). pose proof (total_ge f ts i t Hi). lia. Qed.

(** The entry of a key is there or new; a new one is not in use. *)
Lemma Lock_entry_spec m ts key m1 e :
  mm_inv (m, ts) -> Lock_entry m key = (m1, e) ->
  (e < length (entries m1))%nat /\ ma m1 !! key = Some e /\
  (forall k e', ma m1 !! k = Some e' -> ma m !! k = Some e' \/ (k = key /\ e' = e)) /\
  (forall k e', ma m !! k = Some e' -> ma m1 !! k = Some e') /\
  (length (entries m) <= length (entries m1))%nat /\
  (forall k, ma m1 !! k = Some e -> k = key) /\
  (forall e', (e' < length (entries m1))%nat -> cnt (entry m1 e') = Z.of_nat (total (counts e') ts) /\
      total (has e') ts = if el (entry m1 e') then 1%nat else 0%nat).
Proof.
  intros [H1 H2 H3 H4 H5 H6 H7]. cbn [fst snd] in *. unfold Lock_entry. destruct (ma m !! key) as [e0|] eqn:E; intros [= <- <-].
  { split_and!; eauto. }
  set (m1 := mkMutexMap _ _). set (n := length (entries m)) in *.
  assert (forall t j, ts !! j = Some t -> counts n t = false /\ has n t = false) as Hnone.
  { intros t j Hj. destruct t as [|k e'|k e'|e']; cbn; split; try done; apply bool_decide_eq_false; intros ->.
    1,2,3: assert (ma m !! k = Some n) as Hx by (eapply H3; eauto); apply H1 in Hx; unfold n in Hx; lia.
    apply H4 in Hj. unfold n in Hj. lia. }
  assert (length (entries m1) = S n) as Hl1 by (cbn; rewrite length_app; cbn; unfold n; lia).
  assert (entry m1 n = mkEntry 0 false) as En.
  { unfold entry, m1. cbn. by rewrite lookup_app_r, Nat.sub_diag by (unfold n; lia). }
  assert (forall e', (e' < n)%nat -> entry m1 e' = entry m e') as Eo.
  { intros e' Hlt. unfold entry, m1. cbn. by rewrite lookup_app_l by done. }
  split_and!; [lia|by cbn; rewrite lookup_insert_eq| | |lia| |].
  - intros k e' Hk. apply (lookup_insert_Some (ma m)) in Hk as [[-> ->] | [? ?]]; auto.
  - intros k e' Hk. cbn. rewrite lookup_insert_ne; [done|]. intros ->. congruence.
  - intros k Hk. apply (lookup_insert_Some (ma m)) in Hk as [[-> _] | [? Hx]]; [done|]. apply H1 in Hx. unfold n in Hx. lia.
  - intros e' He'. destruct (decide (e' = n)) as [->|Hne].
    + rewrite En. cbn. rewrite !total_zero; [done|..]; intros j t Hj; by apply (Hnone t j).
    + rewrite Eo by lia. split; [by apply H5; lia|by apply H6; lia].
Qed.

(** One more waiting thread does not exceed the reference count. *)
Lemma count_range ts i key e :
  Z.of_nat (length ts) < 65536 -> ts !! i = Some Idle -> 0 <= Z.of_nat (total (counts e) ts) + 1 < 65536.
Proof.
  intros Hlen Hi. pose proof (total_insert (counts e) ts i Idle (Waiting key e) Hi) as E. cbn [counts] in E.
  rewrite bool_decide_true in E by done. pose proof (total_le (counts e) (<[i := Waiting key e]> ts)) as Hle.
  rewrite length_insert in Hle. cbn [Nat.b2n] in E. lia.
Qed.

Lemma enter_inv m ts i key m' e :
  mm_inv (m, ts) -> Z.of_nat (length ts) < 65536 -> ts !! i = Some Idle -> Lock_enter m key = (m', e) ->
  mm_inv (m', <[i := Waiting key e]> ts).
Proof.
  intros Hinv Hlen Hi. unfold Lock_enter. destruct (Lock_entry m key) as [m1 e1] eqn:EL. intros [= <- <-].
  destruct (Lock_entry_spec m ts key m1 e1 Hinv EL) as (He & Hk & Hold & Hsub & Hle & Huniq & Hent).
  pose proof Hinv as [H1 H2 H3 H4 H5 H6 H7]. cbn [fst snd] in *.
  destruct (Hent e1 He) as [Hce Hee]. unfold uint16.
  rewrite Z.mod_small by (rewrite Hce; by apply (count_range ts i key)).
  constructor; cbn [fst snd]; rewrite ?length_set.
  - intros k e' Hk'. apply Hold in Hk' as [Hk'|[-> ->]]; [apply H1 in Hk'; lia|done].
  - intros k1 k2 e' E1 E2. destruct (decide (e' = e1)) as [->|Hne]; [rewrite (Huniq k1), (Huniq k2) by done; done|].
    apply Hold in E1 as [E1|[_ ?]], E2 as [E2|[_ ?]]; [eauto|done..].
  - intros j k e' [Hj|Hj]; apply list_lookup_insert_Some in Hj as [(-> & Ht & _)|[_ Hj]]; try done.
    + by injection Ht as <- <-.
    + apply Hsub. eauto.
    + apply Hsub. eauto.
  - intros j e' Hj. apply list_lookup_insert_Some in Hj as [(_ & ? & _)|[_ Hj]]; [done|]. apply H4 in Hj. lia.
  - intros e' He'. rewrite entry_set by done. rewrite (total_move _ _ _ _ _ Hi). destruct (Hent e' He') as [Hc _].
    cbn [counts Nat.b2n]. destruct (decide (e' = e1)) as [->|Hne];
      [rewrite bool_decide_true by done|rewrite bool_decide_false by done]; cbn [cnt Nat.b2n]; lia.
  - intros e' He'. rewrite entry_set by done. rewrite (total_move _ _ _ _ _ Hi). destruct (Hent e' He') as [_ Hc].
    cbn [has Nat.b2n]. destruct (decide (e' = e1)) as [->|Hne]; cbn [el]; lia.
  - intros k e' Hk'. rewrite (total_move _ _ _ _ _ Hi). cbn [counts Nat.b2n]. apply Hold in Hk' as [Hk'|[-> ->]].
    + apply H7 in Hk'. destruct (bool_decide _); cbn; lia.
    + rewrite bool_decide_true by done. cbn. lia.
Qed.

Lemma acquire_inv m ts i key e m' :
  mm_inv (m, ts) -> ts !! i = Some (Waiting key e) -> Lock_acquire m e = Some m' ->
  mm_inv (m', <[i := Holding key e]> ts).
Proof.
  intros [H1 H2 H3 H4 H5 H6 H7] Hi. cbn [fst snd] in *. unfold Lock_acquire. destruct (el (entry m e)) eqn:Eel; [done|].
  intros [= <-]. assert (ma m !! key = Some e) as Hk by (eapply H3; eauto). pose proof (H1 _ _ Hk) as He.
  assert (forall e', total (counts e') (<[i := Holding key e]> ts) = total (counts e') ts) as Hc.
  { intros e'. rewrite (total_move _ _ _ _ _ Hi). pose proof (total_ge (counts e') ts i _ Hi) as Hg. cbn [counts] in *. lia. }
  constructor; cbn [fst snd]; rewrite ?length_set; [done|done| | | | |].
  - intros j k e' [Hj|Hj]; apply list_lookup_insert_Some in Hj as [(-> & Ht & _)|[_ Hj]]; try done.
    + change (ma m !! k = Some e'). eauto.
    + by injection Ht as <- <-.
    + change (ma m !! k = Some e'). eauto.
  - intros j e' Hj. apply list_lookup_insert_Some in Hj as [(_ & ? & _)|[_ Hj]]; [done|]. eauto.
  - intros e' He'. rewrite entry_set, Hc by done. destruct (decide (e' = e)) as [->|]; by apply H5.
  - intros e' He'. rewrite entry_set by done. rewrite (total_move _ _ _ _ _ Hi). cbn [has Nat.b2n].
    destruct (decide (e' = e)) as [->|Hne]; [rewrite bool_decide_true by done|rewrite bool_decide_false by done];
      cbn [el Nat.b2n]; rewrite (H6 _ He'), ?Eel; lia.
  - intros k e' Hk'. rewrite Hc. by eapply H7.
Qed.

Lemma unlock_inv m ts i key e :
  mm_inv (m, ts) -> Z.of_nat (length ts) < 65536 -> ts !! i = Some (Holding key e) ->
  exists m', Unlock_map m key = Some (m', e) /\ mm_inv (m', <[i := Unlocking e]> ts).
Proof.
  intros [H1 H2 H3 H4 H5 H6 H7] Hlen Hi. cbn [fst snd] in *. assert (ma m !! key = Some e) as Hk by (eapply H3; eauto).
  pose proof (H1 _ _ Hk) as He. unfold Unlock_map. rewrite Hk.
  assert (forall e', total (counts e') (<[i := Unlocking e]> ts) = (total (counts e') ts - Nat.b2n (bool_decide (e = e')))%nat) as Hc.
  { intros e'. rewrite (total_move _ _ _ _ _ Hi). cbn [counts Nat.b2n]. lia. }
  assert (forall e', total (has e') (<[i := Unlocking e]> ts) = total (has e') ts) as Hh.
  { intros e'. rewrite (total_move _ _ _ _ _ Hi). pose proof (total_ge (has e') ts i _ Hi) as Hg. cbn [has] in *. lia. }
  pose proof (total_ge (counts e) ts i _ Hi) as Hpos. cbn [counts] in Hpos. rewrite bool_decide_true in Hpos by done.
  pose proof (total_le (counts e) ts) as Hle. cbn [Nat.b2n] in Hpos.
  set (c := uint16 (cnt (entry m e) - 1)).
  assert (c = Z.of_nat (total (counts e) ts) - 1) as Ec by (unfold c, uint16; rewrite H5, Z.mod_small by (done || lia); done).
  set (m1 := set_entry m e _). set (m2 := if c <? 1 then _ else m1).
  assert (entries m2 = entries m1) as Een by (unfold m2; by destruct (c <? 1)).
  assert (forall e', entry m2 e' = if decide (e' = e) then mkEntry c (el (entry m e)) else entry m e') as Hent.
  { intros e'. unfold entry at 1. rewrite Een. fold (entry m1 e'). by apply entry_set. }
  assert (length (entries m2) = length (entries m)) as Hl by (rewrite Een; apply length_set).
  assert (forall k e', ma m2 !! k = Some e' -> ma m !! k = Some e' /\ (c = 0 -> k <> key)) as Hsub.
  { intros k e'. unfold m2. destruct (Z.ltb_spec c 1) as [Hlt|]; [|split; [done|lia]].
    cbn. intros [Hne ?]%lookup_delete_Some. split; [done|]. by intros _ ->. }
  exists m2. split; [done|]. constructor; cbn [fst snd]; rewrite ?Hl.
  - intros k e' Hk'. apply Hsub in Hk' as [Hk' _]. eauto.
  - intros k1 k2 e' E1 E2. apply Hsub in E1 as [E1 _], E2 as [E2 _]. eauto.
  - intros j k e' Hj. assert (j <> i /\ (ts !! j = Some (Waiting k e') \/ ts !! j = Some (Holding k e'))) as [Hne Hj'].
    { destruct Hj as [Hj|Hj]; apply list_lookup_insert_Some in Hj as [(_ & ? & _)|[? Hj]]; try done; auto. }
    assert (ma m !! k = Some e') as Hk' by eauto. unfold m2. destruct (Z.ltb_spec c 1) as [Hlt|]; [|done].
    cbn. rewrite lookup_delete_ne; [done|]. intros ->. rewrite Hk in Hk'. injection Hk' as <-.
    assert (2 <= total (counts e) ts)%nat; [|lia].
    destruct Hj' as [Hj'|Hj']; eapply (total_two _ ts i j _ _ Hi Hj'); auto; cbn; by rewrite bool_decide_true.
  - intros j e' Hj. apply list_lookup_insert_Some in Hj as [(_ & Ht & _)|[_ Hj]]; [by injection Ht as <-|]. eauto.
  - intros e' He'. rewrite Hent, Hc. destruct (decide (e' = e)) as [->|Hne].
    + rewrite bool_decide_true by done. cbn [cnt Nat.b2n]. lia.
    + rewrite bool_decide_false by done. cbn [Nat.b2n]. rewrite Nat.sub_0_r. by apply H5.
  - intros e' He'. rewrite Hent, Hh. destruct (decide (e' = e)) as [->|Hne]; by apply H6.
  - intros k e' Hk'. apply Hsub in Hk' as [Hk' Hck]. rewrite Hc. destruct (decide (e' = e)) as [->|Hne].
    + rewrite bool_decide_true by done. cbn [Nat.b2n]. rewrite (H2 _ _ _ Hk' Hk) in Hck. destruct (Z.eq_dec c 0); [by destruct Hck|lia].
    + rewrite bool_decide_false by done. cbn [Nat.b2n]. apply H7 in Hk'. lia.
Qed.

Lemma release_inv m ts i e :
  mm_inv (m, ts) -> ts !! i = Some (Unlocking e) -> exists m', Unlock_el m e = Some m' /\ mm_inv (m', <[i := Idle]> ts).
Proof.
  intros [H1 H2 H3 H4 H5 H6 H7] Hi. cbn [fst snd] in *. pose proof (H4 _ _ Hi) as He.
  pose proof (total_ge (has e) ts i _ Hi) as Hpos. cbn [has] in Hpos. rewrite bool_decide_true in Hpos by done. cbn [Nat.b2n] in Hpos.
  unfold Unlock_el. pose proof (H6 e He) as Hel. destruct (el (entry m e)) eqn:Eel; [|lia].
  assert (forall e', total (counts e') (<[i := Idle]> ts) = total (counts e') ts) as Hc.
  { intros e'. rewrite (total_move _ _ _ _ _ Hi). cbn [counts Nat.b2n]. lia. }
  eexists. split; [done|]. constructor; cbn [fst snd]; rewrite ?length_set; [done|done| | | | |].
  - intros j k e' [Hj|Hj]; apply list_lookup_insert_Some in Hj as [(_ & ? & _)|[_ Hj]]; try done; change (ma m !! k = Some e'); eauto.
  - intros j e' Hj. apply list_lookup_insert_Some in Hj as [(_ & ? & _)|[_ Hj]]; [done|]. eauto.
  - intros e' He'. rewrite entry_set, Hc by done. destruct (decide (e' = e)) as [->|]; by apply H5.
  - intros e' He'. rewrite entry_set by done. rewrite (total_move _ _ _ _ _ Hi). cbn [has Nat.b2n].
    destruct (decide (e' = e)) as [->|Hne]; [rewrite bool_decide_true by done|rewrite bool_decide_false by done];
      cbn [el Nat.b2n]; rewrite (H6 _ He'), ?Eel; lia.
  - intros k e' Hk'. rewrite Hc. by eapply H7.
Qed.

Lemma mm_reachable_inv n o : Z.of_nat n < 65536 -> mm_reachable n o -> exists st, o = Some st /\ mm_inv st /\ length st.2 = n.
Proof.
  intros Hn. induction 1 as [|st st' _ IH Hstep].
  { eexists. split; [done|]. split; [|apply length_replicate]. constructor; cbn; try done.
    - intros i key e [Hi|Hi]; by apply lookup_replicate in Hi as [? _].
    - intros i e Hi. by apply lookup_replicate in Hi as [? _].
    - intros e He. lia.
    - intros e He. lia. }
  destruct IH as (st0 & [= <-] & Hinv & Hlen).
  destruct Hstep as [m ts i key m' e Hi E|m ts i key e m' Hi E|m ts i key e m' e' Hi E|m ts i key e Hi E|m ts i e m' Hi E|m ts i e Hi E];
    cbn in Hlen.
  - eexists. split; [done|]. split; [eapply enter_inv; eauto; lia|cbn; by rewrite length_insert].
  - eexists. split; [done|]. split; [by eapply acquire_inv|cbn; by rewrite length_insert].
  - destruct (unlock_inv m ts i key e Hinv) as (m1 & E1 & H1); [lia|done|]. rewrite E1 in E. injection E as <- <-.
    eexists. split; [done|]. split; [done|cbn; by rewrite length_insert].
  - destruct (unlock_inv m ts i key e Hinv) as (m1 & E1 & H1); [lia|done|]. by rewrite E1 in E.
  - destruct (release_inv m ts i e Hinv Hi) as (m1 & E1 & H1). rewrite E1 in E. injection E as <-.
    eexists. split; [done|]. split; [done|cbn; by rewrite length_insert].
  - destruct (release_inv m ts i e Hinv Hi) as (m1 & E1 & H1). by rewrite E1 in E.
Qed.

(** C22: the lock per key excludes: with fewer than 65536 threads (the reference count
    has 16 bits), on every interleaving no two threads hold the lock of the same key,
    [Unlock] never panics, and when no thread uses a key the map has no entry for it. *)
Theorem MutexMap_exclusive (n : nat) (o : option mm_state) (Hn : Z.of_nat n < 65536) (Hr : mm_reachable n o) :
  exists m ts, o = Some (m, ts) /\
    (forall i j key e e', ts !! i = Some (Holding key e) -> ts !! j = Some (Holding key e') -> i = j) /\
    (forall key e, ma m !! key = Some e -> exists i, ts !! i = Some (Waiting key e) \/ ts !! i = Some (Holding key e)).
Proof.
  destruct (mm_reachable_inv n o Hn Hr) as ([m ts] & -> & Hinv & _). exists m, ts. split; [done|].
  pose proof Hinv as [H1 H2 H3 H4 H5 H6 H7]. cbn [fst snd] in *. split.
  - intros i j key e e' Hi Hj. destruct (decide (i = j)) as [|Hne]; [done|]. exfalso.
    assert (ma m !! key = Some e) as E1 by eauto. assert (ma m !! key = Some e') as E2 by eauto.
    rewrite E1 in E2. injection E2 as <-. pose proof (H6 e (H1 _ _ E1)) as Hel.
    assert (2 <= total (has e) ts)%nat by (eapply (total_two _ ts i j _ _ Hi Hj); auto; cbn; by rewrite bool_decide_true).
    destruct (el (entry m e)); lia.
  - intros key e Hk. pose proof (H7 _ _ Hk) as Hpos.
    destruct (decide (Exists (fun t => counts e t = true) ts)) as [He|He].
    + apply Exists_exists in He as (t & Ht & Hc). apply list_elem_of_lookup in Ht as [i Hi]. exists i.
      destruct t as [|k e'|k e'|e']; cbn in Hc; try done; apply bool_decide_eq_true in Hc as ->;
        assert (ma m !! k = Some e) as E by eauto; rewrite (H2 _ _ _ E Hk) in Hi; auto.
    + rewrite total_zero in Hpos; [lia|]. intros i t Hi. apply not_true_is_false. intros Hc. apply He, Exists_exists.
      exists t. split; [by eapply list_elem_of_lookup_2|done].
Qed.
End MutexMap.

Lemma MutexMap_exclusive_witness :
  exists m ts, mm_reachable (K := Z) 2 (Some (m, ts)) /\ ts !! 0%nat = Some (Holding 5 0) /\ ts !! 1%nat = Some (Waiting 5 0) /\
    (forall i j key e e', ts !! i = Some (Holding key e) -> ts !! j = Some (Holding key e') -> i = j).
Proof.
  set (m1 := (Lock_enter (NewMutexMap (K := Z)) 5).1). set (m2 := (Lock_enter m1 5).1).
  set (m3 := set_entry m2 0 (mkEntry 2 true)).
  assert (mm_reachable 2 (Some (m3, [Holding (5 : Z) 0%nat; Waiting 5 0%nat]))) as Hr.
  { eapply (mm_next _ (m2, [Waiting 5 0%nat; Waiting 5 0%nat]));
      [|exact (mm_acquire m2 [Waiting 5 0%nat; Waiting 5 0%nat] 0 5 0 m3 eq_refl eq_refl)].
    eapply (mm_next _ (m1, [Waiting 5 0%nat; Idle])); [|exact (mm_enter m1 [Waiting 5 0%nat; Idle] 1 5 m2 0 eq_refl eq_refl)].
    eapply (mm_next _ (NewMutexMap, [Idle; Idle])); [exact (mm_init 2)|exact (mm_enter NewMutexMap [Idle; Idle] 0 5 m1 0 eq_refl eq_refl)]. }
  destruct (MutexMap_exclusive (K := Z) 2 _ ltac:(reflexivity) Hr) as (m & ts & E & H1 & _). injection E as <- <-.
  exists m3, [Holding 5 0%nat; Waiting 5 0%nat]. split; [exact Hr|]. split; [reflexivity|]. split; [reflexivity|exact H1].
Defined.
