(* ===== verification/UdpReliability.v ===== *)
(** * Reliable messages over datagrams (src/udp/client/conn.go)

    A Confirmable message is kept in [midHandlerContainer] under its message ID until it is
    acknowledged; a periodic check retransmits it with exponentially growing delays and
    gives up after [maxRetransmit] retransmissions (RFC 7252, section 4.2).  [NSTART]
    bounds the number of outstanding interactions (section 4.7).

    Times and durations are integers (nanoseconds).  The messages [X] and the closures
    [H] are those of the connection; the result of a write and the clock that
    [MarkRetransmitted] reads are arguments of a visit. *)
From stdpp Require Import prelude list gmap.
From Stdlib Require Import ZArith Lia.
From S2P Require Import Prelude SyncMap.
#[local] Open Scope Z_scope.

Definition MaxInt64 : Z := 9223372036854775807.
Definition ExchangeLifetime : Z := 247 * 1000000000.

Definition retransmissionDelay (acknowledgeTimeout retransmit : Z) : Z :=
  if acknowledgeTimeout <=? 0 then acknowledgeTimeout
  else if 63 <=? retransmit then MaxInt64
  else
    let multiplier := int64 (Z.shiftl 1 retransmit) in
    if MaxInt64 / multiplier <? acknowledgeTimeout then MaxInt64
    else int64 (acknowledgeTimeout * multiplier).

Section Mid.
Context {H X : Type}.

(** [waitForAcknowledge] is a channel, [deadline] is [None] for the zero time, [emsg]
    is the message in [private]. *)
Record midElement : Type := mkMid {
  handler : H;
  start : Z;
  deadline : option Z;
  acknowledgeTimeout : Z;
  retransmit : Z;
  retransmitting : bool;
  retransmitFailures : Z;
  waitForAcknowledge : option nat;
  emsg : option X
}.

Implicit Types (e : midElement).

Definition IsExpired e (now maxRetransmit : Z) : bool :=
  if match deadline e with Some d => d <? now | None => false end then true
  else if maxRetransmit <? retransmit e then true
  else (retransmit e =? maxRetransmit) &&
       (start e + retransmissionDelay (acknowledgeTimeout e) (retransmit e) <? now).

Definition set_retransmission e (st rt : Z) (busy : bool) (fails : Z) : midElement :=
  mkMid (handler e) st (deadline e) (acknowledgeTimeout e) rt busy fails (waitForAcknowledge e) (emsg e).

Definition Retransmit e (now : Z) : midElement * bool :=
  if retransmitting e || negb (start e + retransmissionDelay (acknowledgeTimeout e) (retransmit e) <? now)
  then (e, false)
  else (set_retransmission e (start e) (retransmit e) true (retransmitFailures e), true).

Definition MarkRetransmitted e (now : Z) : midElement :=
  set_retransmission e now (uint32 (retransmit e + 1)) false (retransmitFailures e).

Definition MarkRetransmissionFailed e (maxRetransmit : Z) : midElement * bool :=
  let fails := uint32 (retransmitFailures e + 1) in
  (set_retransmission e (start e) (retransmit e) false fails, maxRetransmit <=? fails).

(** The message given back to the pool, if there is one. *)
Definition mid_ReleaseMessage e : midElement * option X :=
  (mkMid (handler e) (start e) (deadline e) (acknowledgeTimeout e) (retransmit e) (retransmitting e)
     (retransmitFailures e) (waitForAcknowledge e) None, emsg e).

(** ** The table *)

(** [mids] maps message IDs to the addresses of elements; the rest records what happened:
    retransmissions (message ID, time, message), errors sent to waiting writers (kept
    while their channel, which has one place, is empty), messages given back, errors
    reported. *)
Record MidTable : Type := mkMidTable {
  mids : gmap Z nat;
  elems : list midElement;
  resent : list (Z * Z * X);
  acks : gmap nat (option error);
  given_back : list X;
  mid_errors : list error
}.

Implicit Types (t : MidTable).

Definition NewMidTable : MidTable := mkMidTable ∅ [] [] ∅ [] [].

Definition set_elem t (a : nat) e : MidTable :=
  mkMidTable (mids t) (<[a := e]> (elems t)) (resent t) (acks t) (given_back t) (mid_errors t).
Definition set_mids t (m : gmap Z nat) : MidTable :=
  mkMidTable m (elems t) (resent t) (acks t) (given_back t) (mid_errors t).
Definition mid_report t (err : error) : MidTable :=
  mkMidTable (mids t) (elems t) (resent t) (acks t) (given_back t) (mid_errors t ++ [err]).

(** [elem.ReleaseMessage(cc)]. *)
Definition release_elem t (a : nat) : MidTable :=
  match elems t !! a with
  | None => t
  | Some e =>
      let '(e, m) := mid_ReleaseMessage e in
      let t := set_elem t a e in
      mkMidTable (mids t) (elems t) (resent t) (acks t)
        (match m with Some m => given_back t ++ [m] | None => given_back t end) (mid_errors t)
  end.

(** A channel with one place: a second value is dropped. *)
Definition notifyWaitForAcknowledge t (ch : option nat) (err : option error) : MidTable :=
  match ch with
  | None => t
  | Some ch =>
      match acks t !! ch with
      | Some _ => t
      | None => mkMidTable (mids t) (elems t) (resent t) (<[ch := err]> (acks t)) (given_back t) (mid_errors t)
      end
  end.

(** [GetMessage]: a clone of the message, which may fail. *)
Context (clone : X -> result X).

Definition GetMessage e : result (option X) :=
  match emsg e with
  | None => Ok None
  | Some m => match clone m with Ok c => Ok (Some c) | Err err => Err err end
  end.

(** [werr] is the result of the write, [now'] what [time.Now] gives after it. *)
Definition checkMidHandlerContainer t (now maxRetransmit key : Z) (a : nat) (werr : option error) (now' : Z) : MidTable :=
  match elems t !! a with
  | None => t
  | Some e =>
      if IsExpired e now maxRetransmit then
        mid_report (release_elem (set_mids t (delete key (mids t))) a) ErrContext
      else
        let '(e, go) := Retransmit e now in
        if negb go then t else
        let t := set_elem t a e in
        match GetMessage e with
        | Err err => mid_report (release_elem (set_mids t (delete key (mids t))) a) err
        | Ok None => set_elem t a (MarkRetransmitted e now')
        | Ok (Some m) =>
            match werr with
            | None =>
                let t := set_elem t a (MarkRetransmitted e now') in
                mkMidTable (mids t) (elems t) (resent t ++ [(key, now', m)]) (acks t) (given_back t ++ [m]) (mid_errors t)
            | Some err =>
                let '(e, exhausted) := MarkRetransmissionFailed e maxRetransmit in
                let t := set_elem t a e in
                let t :=
                  if exhausted && bool_decide (mids t !! key = Some a) then
                    release_elem (notifyWaitForAcknowledge (set_mids t (delete key (mids t))) (waitForAcknowledge e) (Some err)) a
                  else t in
                mid_report (mkMidTable (mids t) (elems t) (resent t) (acks t) (given_back t ++ [m]) (mid_errors t)) err
            end
        end
  end.

(** The loop of [CheckExpirations]: [ks] are the keys in the order of the iteration,
    [env] gives the result of each write and the clock. *)
Definition check_visit (now maxRetransmit : Z) (env : Z -> option error * Z) (key : Z) (a : nat) t : bool * MidTable :=
  (true, checkMidHandlerContainer t now maxRetransmit key a (env key).1 (env key).2).

Definition check_mids t (now maxRetransmit : Z) (env : Z -> option error * Z) (ks : list Z) : MidTable :=
  Range mids (check_visit now maxRetransmit env) ks t.

(** ** Tracking a message *)

(** [midHandlerContainer.LoadOrStore]: [None] if the message ID is taken. *)
Definition track t (mid : Z) e : option MidTable :=
  match mids t !! mid with
  | Some _ => None
  | None => Some (mkMidTable (<[mid := length (elems t)]> (mids t)) (elems t ++ [e]) (resent t) (acks t) (given_back t) (mid_errors t))
  end.

Definition LoadAndDelete_mid t (mid : Z) : MidTable * option nat := (set_mids t (delete mid (mids t)), mids t !! mid).

(** ** The schedule of retransmissions *)

(** Each time comes more than the delay after the one before, and the delay doubles. *)
Fixpoint spaced (prev delay : Z) (times : list Z) : Prop :=
  match times with
  | [] => True
  | ti :: times => prev + delay < ti /\ spaced ti (2 * delay) times
  end.

Definition last_time (prev : Z) (times : list Z) : Z := default prev (last times).

Lemma last_time_cons prev ti times : last_time prev (ti :: times) = last_time ti times.
Proof.
  unfold last_time. destruct times as [|x l]; [done|]. change (last (ti :: x :: l)) with (last (x :: l)).
  destruct (last (x :: l)) eqn:E; [done|]. by apply last_None in E.
Qed.

Lemma last_time_snoc prev times ti : last_time prev (times ++ [ti]) = ti.
Proof. unfold last_time. by rewrite last_snoc. Qed.

Lemma spaced_snoc times : forall prev delay ti,
  spaced prev delay times -> last_time prev times + delay * 2 ^ Z.of_nat (length times) < ti ->
  spaced prev delay (times ++ [ti]).
Proof.
  induction times as [|x times IH]; intros prev delay ti Hs Hlt.
  - cbn in *. unfold last_time in Hlt. cbn in Hlt. split; [lia|done].
  - destruct Hs as [H1 H2]. split; [done|]. apply IH; [done|]. rewrite last_time_cons in Hlt.
    cbn [length] in Hlt. rewrite Nat2Z.inj_succ, Z.pow_succ_r in Hlt by lia. lia.
Qed.

Lemma spaced_sum times : forall prev delay,
  0 <= delay -> spaced prev delay times -> prev + delay * (2 ^ Z.of_nat (length times) - 1) <= last_time prev times.
Proof.
  induction times as [|x times IH]; intros prev delay Hd Hs.
  - unfold last_time. cbn. lia.
  - destruct Hs as [H1 H2]. rewrite last_time_cons. apply IH in H2; [|lia]. cbn [length].
    rewrite Nat2Z.inj_succ, Z.pow_succ_r by lia. lia.
Qed.

(** The doubling never overflows: it stops at the longest duration. *)
Lemma retransmissionDelay_spec T r :
  0 < T <= MaxInt64 -> 0 <= r -> retransmissionDelay T r = Z.min MaxInt64 (T * 2 ^ r).
Proof.
  unfold MaxInt64. intros HT Hr. unfold retransmissionDelay, MaxInt64. destruct (Z.leb_spec T 0); [lia|].
  destruct (Z.leb_spec 63 r) as [Hge|Hlt].
  - assert (2 ^ 63 <= 2 ^ r) by (apply Z.pow_le_mono_r; lia). change (2 ^ 63) with 9223372036854775808 in *. nia.
  - rewrite Z.shiftl_1_l. assert (0 < 2 ^ r) by (apply Z.pow_pos_nonneg; lia).
    assert (2 ^ r <= 2 ^ 62) by (apply Z.pow_le_mono_r; lia). change (2 ^ 62) with 4611686018427387904 in *.
    rewrite (int64_id (2 ^ r)) by (change (2 ^ 63) with 9223372036854775808; lia).
    destruct (Z.ltb_spec (9223372036854775807 / 2 ^ r) T) as [Hgt|Hle].
    + assert (9223372036854775807 < T * 2 ^ r).
      { pose proof (Z.div_mod 9223372036854775807 (2 ^ r) ltac:(lia)). pose proof (Z.mod_pos_bound 9223372036854775807 (2 ^ r)). nia. }
      lia.
    + assert (T * 2 ^ r <= 9223372036854775807).
      { pose proof (Z.mul_div_le 9223372036854775807 (2 ^ r)). nia. }
      rewrite int64_id by (change (2 ^ 63) with 9223372036854775808; nia). lia.
Qed.

(** One check of a message ID: its time, the clock after its write, and the result of the
    write, should there be one. *)
Record midTick : Type := mkMidTick { tk_now : Z; tk_after : Z; tk_write : option error }.

Fixpoint run_checks t (key maxRetransmit : Z) (ticks : list midTick) : MidTable :=
  match ticks with
  | [] => t
  | k :: ticks =>
      let t := match mids t !! key with
               | Some a => checkMidHandlerContainer t (tk_now k) maxRetransmit key a (tk_write k) (tk_after k)
               | None => t
               end in
      run_checks t key maxRetransmit ticks
  end.

Section Schedule.
Context (key : Z) (h : H) (ch : option nat) (t0 T R : Z) (m m' : X) (old : list (Z * Z * X)) (olderrs : list error).
Context (HT : 0 < T) (HR : 0 <= R) (HTR : T * 2 ^ R <= MaxInt64) (Hclone : clone m = Ok m').

(** Retransmissions at [times] and failed writes with [fails], one error for each. *)
Definition sent_so_far t (times : list Z) : Prop :=
  resent t = old ++ ((fun ti => (key, ti, m')) <$> times) /\ spaced t0 T times /\ Z.of_nat (length times) <= R.
Definition few (fails : list error) : Prop := fails = [] \/ Z.of_nat (length fails) < R.

(** The waiting writer has got [err], if its channel had room. *)
Definition told (chans : gmap nat (option error)) t (err : error) : Prop :=
  forall c, ch = Some c -> chans !! c = None -> acks t !! c = Some (Some err).

(** The message after these; [chans] are the values for waiting writers. *)
Definition waiting_at (chans : gmap nat (option error)) t (a : nat) (times : list Z) (fails : list error) : Prop :=
  mids t !! key = Some a /\
  elems t !! a = Some (mkMid h (last_time t0 times) None T (Z.of_nat (length times)) false (Z.of_nat (length fails)) ch (Some m)) /\
  sent_so_far t times /\ few fails /\ mid_errors t = olderrs ++ fails /\ acks t = chans.

(** It was given up after the last delay. *)
Definition expired_at t (times : list Z) (fails : list error) (now : Z) : Prop :=
  mids t !! key = None /\ sent_so_far t times /\ Z.of_nat (length times) = R /\ few fails /\
  mid_errors t = olderrs ++ fails ++ [ErrContext] /\ t0 + T * (2 ^ (R + 1) - 1) < now.

(** It was given up when [R] writes had failed; a waiting writer has got the last error. *)
Definition exhausted_at (chans : gmap nat (option error)) t (times : list Z) (fails : list error) : Prop :=
  mids t !! key = None /\ sent_so_far t times /\ 0 < R /\ Z.of_nat (length fails) = R /\ mid_errors t = olderrs ++ fails /\
  exists err : error, last fails = Some err /\ told chans t err.

Lemma R_small : R < 63.
Proof.
  unfold MaxInt64 in HTR. destruct (Z.lt_ge_cases R 63) as [|Hge]; [done|].
  assert (2 ^ 63 <= 2 ^ R) by (apply Z.pow_le_mono_r; lia). change (2 ^ 63) with 9223372036854775808 in *. nia.
Qed.

Lemma delay_at r : 0 <= r <= R -> retransmissionDelay T r = T * 2 ^ r.
Proof.
  intros Hr. assert (2 ^ r <= 2 ^ R) by (apply Z.pow_le_mono_r; lia). assert (0 < 2 ^ r) by (apply Z.pow_pos_nonneg; lia).
  unfold MaxInt64 in HTR. rewrite retransmissionDelay_spec; [unfold MaxInt64; nia|unfold MaxInt64; nia|lia].
Qed.

(** The element is removed and its writer told. *)
Lemma exhaust_elem t a times (fails : list error) err :
  (a < length (elems t))%nat ->
  let e' := mkMid h (last_time t0 times) None T (Z.of_nat (length times)) false (Z.of_nat (length fails) + 1) ch (Some m) in
  let t1 := mkMidTable (mids t) (<[a := e']> (elems t)) (resent t) (acks t) (given_back t) (mid_errors t) in
  let t2 := release_elem (notifyWaitForAcknowledge (set_mids t1 (delete key (mids t))) ch (Some err)) a in
  mids t2 !! key = None /\ resent t2 = resent t /\ mid_errors t2 = mid_errors t /\
  forall c, ch = Some c -> acks t !! c = None -> acks t2 !! c = Some (Some err).
Proof.
  intros Hlt. cbv zeta. unfold notifyWaitForAcknowledge. destruct ch as [c|]; [destruct (acks _ !! c) eqn:Ec|]; unfold release_elem; cbn [elems set_mids];
    rewrite list_lookup_insert_eq by done; cbn; rewrite lookup_delete_eq; split_and!; try done; intros c' [= <-] Hn; [cbn in Ec; congruence|by rewrite lookup_insert_eq].
Qed.

(** One check: nothing, a retransmission, a failed one, or the end. *)
Lemma check_step chans t a times fails k :
  waiting_at chans t a times fails -> tk_now k <= tk_after k ->
  let t' := checkMidHandlerContainer t (tk_now k) R key a (tk_write k) (tk_after k) in
  let due := last_time t0 times + T * 2 ^ Z.of_nat (length times) <? tk_now k in
  if due then
    if Z.of_nat (length times) =? R then expired_at t' times fails (tk_now k)
    else match tk_write k with
         | None => waiting_at chans t' a (times ++ [tk_after k]) fails
         | Some err =>
             if Z.of_nat (length fails) + 1 =? R then exhausted_at chans t' times (fails ++ [err])
             else waiting_at chans t' a times (fails ++ [err])
         end
  else t' = t.
Proof.
  intros (Hk & He & (Hr & Hs & Hle) & Hfew & Hmerr & Hch) Hnow. cbv zeta. unfold expired_at, exhausted_at, waiting_at, sent_so_far. unfold checkMidHandlerContainer. rewrite He.
  unfold IsExpired, Retransmit. cbn [deadline retransmit start acknowledgeTimeout retransmitting].
  rewrite (delay_at (Z.of_nat (length times))) by lia. pose proof (lookup_lt_Some _ _ _ He) as Hlt.
  destruct (Z.ltb_spec R (Z.of_nat (length times))); [lia|]. pose proof R_small.
  destruct (Z.ltb_spec (last_time t0 times + T * 2 ^ Z.of_nat (length times)) (tk_now k)) as [Hdue|Hdue];
    [|by destruct (Z.of_nat (length times) =? R)].
  destruct (Z.eqb_spec (Z.of_nat (length times)) R) as [HeqR|HneR]; cbn [andb orb negb].
  - unfold release_elem. cbn [elems set_mids]. rewrite He. cbn. split_and!; cbn; try done.
    + by rewrite lookup_delete_eq.
    + by rewrite Hmerr, <- app_assoc.
    + pose proof (spaced_sum times t0 T ltac:(lia) Hs). rewrite HeqR in *. rewrite Z.pow_add_r, Z.pow_1_r by lia. lia.
  - unfold GetMessage. cbn [emsg set_retransmission]. rewrite Hclone. cbn [andb]. destruct (tk_write k) as [err|].
    + unfold MarkRetransmissionFailed. cbv [retransmitFailures set_retransmission handler start deadline acknowledgeTimeout retransmit waitForAcknowledge emsg].
      assert (Z.of_nat (length fails) < R) as Hf by (destruct Hfew as [->|]; cbn; lia).
      assert (uint32 (Z.of_nat (length fails) + 1) = Z.of_nat (length fails) + 1) as -> by (unfold uint32; apply Z.mod_small; lia).
      assert (Z.of_nat (length (fails ++ [err])) = Z.of_nat (length fails) + 1) as Hlen by (rewrite length_app; cbn; lia).
      unfold set_elem. cbn [mids elems resent acks given_back mid_errors]. rewrite Hk, bool_decide_true, andb_true_r by done. rewrite list_insert_insert_eq.
      destruct (Z.eqb_spec (Z.of_nat (length fails) + 1) R) as [Hlast|Hmore].
      * destruct (Z.leb_spec R (Z.of_nat (length fails) + 1)); [|lia].
        destruct (exhaust_elem t a times fails err Hlt) as (E1 & E2 & E3 & E4). cbv zeta in *.
        split_and!; cbn [mids resent mid_errors acks mid_report]; rewrite ?E1, ?E2, ?E3; try done; [lia|rewrite Hlen; lia|by rewrite Hmerr, <- app_assoc|].
        exists err. split; [by rewrite last_snoc|]. unfold told. by rewrite <- Hch.
      * destruct (Z.leb_spec R (Z.of_nat (length fails) + 1)); [lia|]. split_and!; cbn; try done; [|by right; lia|by rewrite Hmerr, <- app_assoc].
        by rewrite list_lookup_insert_eq, Hlen.
    + split_and!; cbn; try done; rewrite ?last_time_snoc, ?fmap_app, ?length_app; cbn [length].
      * rewrite list_insert_insert_eq, list_lookup_insert_eq by done.
        unfold MarkRetransmitted, set_retransmission. cbn. do 2 f_equal. unfold uint32.
        rewrite Z.mod_small; [lia|]. change (2 ^ 32) with 4294967296. lia.
      * by rewrite Hr, <- app_assoc.
      * by apply spaced_snoc; [|lia].
      * lia.
Qed.

(** What holds after some checks. *)
Definition outcome chans t (a : nat) (times : list Z) (fails : list error) (ticks : list midTick) : Prop :=
  waiting_at chans t a times fails \/
  (exists k, k ∈ ticks /\ expired_at t times fails (tk_now k)) \/
  exhausted_at chans t times fails.

Lemma run_checks_gone ticks t : mids t !! key = None -> run_checks t key R ticks = t.
Proof. induction ticks as [|k ticks IH]; intros Hk; [done|]. cbn [run_checks]. rewrite Hk. by apply IH. Qed.

Lemma run_checks_schedule chans a ticks : forall t times fails,
  waiting_at chans t a times fails -> Forall (fun k => tk_now k <= tk_after k) ticks ->
  exists times' fails', sublist fails' (fails ++ omap tk_write ticks) /\
    outcome chans (run_checks t key R ticks) a times' fails' ticks.
Proof.
  induction ticks as [|k ticks IH]; intros t times fails Hw Hf.
  { exists times, fails. cbn. rewrite app_nil_r. split; [done|by left]. }
  apply Forall_cons in Hf as [Hnow Hf]. cbn [run_checks]. rewrite (proj1 Hw).
  pose proof (check_step chans t a times fails k Hw Hnow) as Hstep. cbv zeta in Hstep. set (t' := checkMidHandlerContainer _ _ _ _ _ _ _) in *.
  assert (forall times1 fails1, waiting_at chans t' a times1 fails1 -> sublist (fails1 ++ omap tk_write ticks) (fails ++ omap tk_write (k :: ticks)) ->
    exists times' fails', sublist fails' (fails ++ omap tk_write (k :: ticks)) /\ outcome chans (run_checks t' key R ticks) a times' fails' (k :: ticks)) as Hgo.
  { intros times1 fails1 Hw1 Hsub. destruct (IH t' times1 fails1 Hw1 Hf) as (times' & fails' & Hs & Hout). exists times', fails'.
    split; [by etransitivity|]. destruct Hout as [?|[(k' & Hin & ?)|?]]; [by left|right; left; exists k'; split; [by right|done]|by right; right]. }
  assert (sublist (fails ++ omap tk_write ticks) (fails ++ omap tk_write (k :: ticks))) as Hskip.
  { apply sublist_app; [done|]. cbn. destruct (tk_write k); [by apply sublist_cons|done]. }
  destruct (_ <? tk_now k); [|rewrite Hstep in *; by eapply Hgo].
  destruct (_ =? R); [|destruct (tk_write k) as [err|] eqn:Ew; [destruct (_ =? R)|]].
  - exists times, fails. split; [apply sublist_inserts_r; done|]. rewrite run_checks_gone by apply Hstep. right. left. exists k. split; [by left|done].
  - exists times, (fails ++ [err]). split; [|rewrite run_checks_gone by apply Hstep; by right; right].
    cbn. rewrite Ew. apply sublist_app; [done|]. apply sublist_skip, sublist_nil_l.
  - eapply Hgo; [exact Hstep|]. cbn. by rewrite Ew, <- app_assoc.
  - by eapply Hgo.
Qed.
End Schedule.

(** C15: retransmission follows RFC 7252.  A Confirmable message sent at [t0] with the
    acknowledgement timeout [T], never acknowledged and without a deadline, is checked at
    any times, and its writes succeed or fail in any way.  It is retransmitted at most
    [R] times; the [i]-th retransmission comes more than [T * 2^i] after the transmission
    before it.  It is given up either after [R] retransmissions and more than
    [T * (2^(R+1) - 1)] after it was first sent (MAX_TRANSMIT_WAIT), or when [R] writes of
    retransmissions have failed, whose last error a waiting writer gets.  Until then a check
    that is due retransmits if its write succeeds; if it fails nothing but the count of
    failures changes, and the error is reported.  The condition on [T * 2^R] only says that
    the delays are durations. *)
Theorem retransmission_schedule (t t1 : MidTable) (key : Z) (h : H) (ch : option nat) (t0 T R : Z) (m m' : X)
    (ticks : list midTick) (HT : 0 < T) (HR : 0 <= R) (HTR : T * 2 ^ R <= MaxInt64) (Hclone : clone m = Ok m')
    (Htrack : track t key (mkMid h t0 None T 0 false 0 ch (Some m)) = Some t1)
    (Hticks : Forall (fun k => tk_now k <= tk_after k) ticks) :
  exists times fails, let t2 := run_checks t1 key R ticks in
    resent t2 = resent t ++ ((fun ti => (key, ti, m')) <$> times) /\
    spaced t0 T times /\ Z.of_nat (length times) <= R /\ sublist fails (omap tk_write ticks) /\
    match mids t2 !! key with
    | None =>
        (Z.of_nat (length times) = R /\ mid_errors t2 = mid_errors t ++ fails ++ [ErrContext] /\
           exists k, k ∈ ticks /\ t0 + T * (2 ^ (R + 1) - 1) < tk_now k) \/
        (0 < R /\ Z.of_nat (length fails) = R /\ mid_errors t2 = mid_errors t ++ fails /\
           exists err, last fails = Some err /\ forall c, ch = Some c -> acks t !! c = None -> acks t2 !! c = Some (Some err))
    | Some _ =>
        mid_errors t2 = mid_errors t ++ fails /\ acks t2 = acks t /\ (fails = [] \/ Z.of_nat (length fails) < R) /\
        forall k, tk_now k <= tk_after k -> Z.of_nat (length times) < R ->
          last_time t0 times + T * 2 ^ Z.of_nat (length times) < tk_now k ->
          let t3 := run_checks t2 key R [k] in
          match tk_write k with
          | None => resent t3 = resent t2 ++ [(key, tk_after k, m')] /\ mids t3 !! key = mids t2 !! key /\ mid_errors t3 = mid_errors t2
          | Some err =>
              resent t3 = resent t2 /\ mid_errors t3 = mid_errors t2 ++ [err] /\
              (mids t3 !! key = None <-> Z.of_nat (length fails) + 1 = R)
          end
    end.
Proof.
  unfold track in Htrack. destruct (mids t !! key) eqn:Ek; [done|]. injection Htrack as <-. set (t1 := mkMidTable _ _ _ _ _ _).
  assert (waiting_at key h ch t0 T R m m' (resent t) (mid_errors t) (acks t) t1 (length (elems t)) [] []) as Hw.
  { split_and!; cbn; try done; [by rewrite lookup_insert_eq|by rewrite lookup_app_r, Nat.sub_diag by lia| |by left|by rewrite app_nil_r].
    split_and!; cbn; try done. by rewrite app_nil_r. }
  destruct (run_checks_schedule key h ch t0 T R m m' (resent t) (mid_errors t) HT HR HTR Hclone (acks t) _ ticks t1 [] [] Hw Hticks)
    as (times & fails & Hsub & Hout). exists times, fails. cbv zeta. set (t2 := run_checks t1 key R ticks) in *. clearbody t2.
  destruct Hout as [Hw2|[(k & Hin & Hk & (Hr & Hs & Hle) & HeqR & _ & He & Hlate)|(Hk & (Hr & Hs & Hle) & Hpos & Hl & He & err & Hlast & Htold)]];
    [|rewrite Hk; split_and!; try done; left; eauto|rewrite Hk; split_and!; try done; right; eauto 10].
  pose proof Hw2 as (Hk & _ & (Hr & Hs & Hle) & Hfew & He & Ha). rewrite Hk. split_and!; try done. intros k Hnow Hlt Hdue. cbn [run_checks]. rewrite Hk.
  pose proof (check_step key h ch t0 T R m m' (resent t) (mid_errors t) HT HR HTR Hclone (acks t) t2 _ times fails k Hw2 Hnow) as Hstep. cbv zeta in Hstep.
  destruct (Z.ltb_spec (last_time t0 times + T * 2 ^ Z.of_nat (length times)) (tk_now k)); [|lia].
  destruct (Z.eqb_spec (Z.of_nat (length times)) R); [lia|]. destruct (tk_write k) as [err|]; [destruct (Z.eqb_spec (Z.of_nat (length fails) + 1) R) as [E|E]|].
  - destruct Hstep as (-> & (-> & _) & _ & _ & -> & _). by rewrite Hr, He, <- app_assoc.
  - destruct Hstep as (-> & _ & (-> & _) & _ & -> & _). by rewrite Hr, He, <- app_assoc.
  - destruct Hstep as (-> & _ & (-> & _) & _ & -> & _). by rewrite Hr, He, fmap_app, app_assoc.
Qed.
End Mid.

Definition sample_element : midElement (H := unit) (X := Z) := mkMid tt 100 None 10 0 false 0 (Some 3%nat) (Some 7).
Definition sample_tracked : MidTable := default NewMidTable (track NewMidTable 5 sample_element).
Definition sample_ticks : list midTick :=
  [mkMidTick 105 105 None; mkMidTick 111 112 None; mkMidTick 120 120 None; mkMidTick 135 135 (Some ErrEOF); mkMidTick 140 141 None; mkMidTick 200 200 None].

(** Two retransmissions with a failed write between them; and two failed writes in a row. *)
Lemma retransmission_schedule_witness :
  let t2 := run_checks (fun m => Ok m) sample_tracked 5 2 sample_ticks in
  resent t2 = [(5, 112, 7); (5, 141, 7)] /\ mids t2 !! 5 = None /\
  (exists times fails, resent t2 = [] ++ ((fun ti => (5, ti, 7)) <$> times) /\ spaced 100 10 times /\ sublist fails [ErrEOF]) /\
  let t3 := run_checks (fun m => Ok m) sample_tracked 5 2 [mkMidTick 111 111 (Some ErrEOF); mkMidTick 112 112 (Some ErrEOF)] in
  resent t3 = [] /\ mids t3 !! 5 = None /\ acks t3 !! 3%nat = Some (Some ErrEOF).
Proof.
  cbv zeta. split; [vm_compute; reflexivity|]. split; [vm_compute; reflexivity|]. split; [|split_and!; vm_compute; reflexivity].
  destruct (retransmission_schedule (fun m : Z => Ok m) NewMidTable sample_tracked 5 tt (Some 3%nat) 100 10 2 7 7
              sample_ticks) as (times & fails & H1 & H2 & _ & H3 & _).
  - reflexivity.
  - discriminate.
  - vm_compute. discriminate.
  - reflexivity.
  - vm_compute. reflexivity.
  - repeat constructor; cbv; discriminate.
  - exists times, fails. split; [exact H1|]. split; [exact H2|exact H3].
Defined.
