(* ===== verification/UdpConn.v ===== *)
(** * The datagram connection (src/udp/client/conn.go)

    - receiving: [Process] decodes a datagram, rejects unknown critical options, matches
      acknowledgements with waiting writers, drops duplicates of messages that are being
      handled and queues the rest; [ProcessReceivedMessage] runs the handler under the
      lock of the message ID, answers retransmitted requests from the response cache, and
      sends the response (piggybacked on an acknowledgement, or separately);
    - sending: message IDs, the table of Confirmable messages of [UdpReliability],
      acknowledgements, outstanding interactions;
    - [CheckExpirations].

    A message of the pool is named by the number of its acquisition ([nat * M]); [supply n]
    is what the [n]-th [AcquireMessage] returns.  The results of socket writes are a
    script; the clock is an argument.  [Q] is the state of the Q-Block engine, which is
    reached through the record [QHooks]. *)
From stdpp Require Import prelude list strings gmap.
From Stdlib Require Import ZArith Lia.
From S2P Require Import Prelude Cast Codes OptionCodec Options OptionsCodec Message PoolMessage BlockCodec.
From S2P Require Import Crc64 SyncMap Client TcpConn UdpReliability.
#[local] Open Scope Z_scope.

(** ** Control messages *)

(** [coapNet.ControlMessage]; a nil address is [None]. *)
Record ControlMessage : Type := mkCM { Dst : option (list byte); Src : option (list byte); IfIndex : Z }.

(** [net.IP.To4]. *)
Definition To4 (ip : list byte) : option (list byte) :=
  if zlen ip =? 4 then Some ip
  else if (zlen ip =? 16) && bool_decide (slice_to ip 12 = [0; 0; 0; 0; 0; 0; 0; 0; 0; 0; 255; 255])
  then Some (slice_from ip 12) else None.

(** [net.IP.IsMulticast]. *)
Definition IsMulticast (ip : list byte) : bool :=
  match To4 ip with
  | Some (b :: _) => Z.land b 240 =? 224
  | Some [] => false
  | None => (zlen ip =? 16) && match ip with b :: _ => b =? 255 | [] => false end
  end.

(** ** Messages that wait for an acknowledgement *)

(** The closures kept for a message ID: [writeMessageAsync] waits for nothing,
    [writeMessage] for its channel (the flag says that the request has the Observe and
    Q-Block2 options), [AsyncPing] calls its callback. *)
Inductive midHandler : Type :=
| AsyncHandler
| AckHandler (respChan : nat) (qNotification : bool)
| UPongHandler (receivedPong : nat).

Record pendingMessage : Type := mkPending { pm_sequence : Z; pm_expires : Z }.

Record MalformedMessageError : Type := mkMalformed {
  mf_Type : Z;
  mf_MessageID : Z;
  HasHeader : bool;
  InvalidVersion : bool;
  mf_Err : error
}.

Section UdpConn.
Context {Ctx B Q : Type} `{!ReadSeeker B}.
Abbreviation M := (Msg Ctx ControlMessage B).
Abbreviation W := (Writer (Ctx := Ctx) (CM := ControlMessage) (B := B)).
Abbreviation Mids := (MidTable (H := midHandler) (X := nat * M)).

(** The session: what was written, the results of the writes to come, and the rest of
    what the connection reports and uses. *)
Record Net : Type := mkNet {
  n_sent : list (list byte);
  n_script : list (option error);
  n_done : bool;
  n_closeErr : option error;
  n_errors : list error;
  n_notified : nat;
  n_acquired : nat;
  n_released : list nat
}.

(** The message layer.  [l_cache] maps the printed message ID of a request to the
    encoded response and the time it expires. *)
Record Layer : Type := mkLayer {
  l_sequence : Z;
  l_msgID : Z;
  l_globalMID : Z;
  l_pending : gmap Z pendingMessage;
  l_cache : gmap string (list byte * Z);
  l_mids : Mids;
  l_outstanding : Z;
  l_localAddr : option (list byte);
  l_interfaceIndex : Z
}.

(** Requests that wait for a response. *)
Record Reqs : Type := mkReqs {
  r_tokens : gmap Z nat;
  r_tokenless : Tokenless.TokenlessHandler nat;
  r_nextChannel : nat;
  r_channels : gmap nat (nat * M);
  r_pongs : list nat
}.

Record UState : Type := mkUState {
  u_net : Net;
  u_layer : Layer;
  u_reqs : Reqs;
  u_received : list (nat * M);
  u_q : Q
}.

Definition with_net (s : UState) (n : Net) : UState := mkUState n (u_layer s) (u_reqs s) (u_received s) (u_q s).
Definition with_layer (s : UState) (l : Layer) : UState := mkUState (u_net s) l (u_reqs s) (u_received s) (u_q s).
Definition with_reqs (s : UState) (r : Reqs) : UState := mkUState (u_net s) (u_layer s) r (u_received s) (u_q s).
Definition with_received (s : UState) (r : list (nat * M)) : UState := mkUState (u_net s) (u_layer s) (u_reqs s) r (u_q s).
Definition with_q (s : UState) (q : Q) : UState := mkUState (u_net s) (u_layer s) (u_reqs s) (u_received s) q.

Definition set_pending (l : Layer) (p : gmap Z pendingMessage) : Layer :=
  mkLayer (l_sequence l) (l_msgID l) (l_globalMID l) p (l_cache l) (l_mids l) (l_outstanding l) (l_localAddr l) (l_interfaceIndex l).
Definition set_cache (l : Layer) (c : gmap string (list byte * Z)) : Layer :=
  mkLayer (l_sequence l) (l_msgID l) (l_globalMID l) (l_pending l) c (l_mids l) (l_outstanding l) (l_localAddr l) (l_interfaceIndex l).
Definition set_mid_table (l : Layer) (m : Mids) (out : Z) : Layer :=
  mkLayer (l_sequence l) (l_msgID l) (l_globalMID l) (l_pending l) (l_cache l) m out (l_localAddr l) (l_interfaceIndex l).
Definition set_counters (l : Layer) (seq mid glob : Z) : Layer :=
  mkLayer seq mid glob (l_pending l) (l_cache l) (l_mids l) (l_outstanding l) (l_localAddr l) (l_interfaceIndex l).
Definition set_control (l : Layer) (a : option (list byte)) (i : Z) : Layer :=
  mkLayer (l_sequence l) (l_msgID l) (l_globalMID l) (l_pending l) (l_cache l) (l_mids l) (l_outstanding l) a i.

(** The settings of the connection. *)
Record UConfig : Type := mkUConfig {
  c_maxMessageSize : Z;
  c_maxPendingMessages : Z;
  c_nStart : Z;
  c_maxRetransmit : Z;
  c_blockwiseSZX : Z;
  c_qDatagramLimit : Z
}.

(** The Q-Block engine (src/udp/client/qblock.go), as the connection calls it. *)
Record QHooks : Type := mkQHooks {
  qBlockAllowed : Q -> bool;
  checkQObservationCancellation : Q -> M -> Q;
  routeQBlockResponse : Q -> M -> Q * bool;
  startQBlockNotification : Q -> M -> Q * bool;
  rememberQNotification : Q -> bool -> M -> Q * option error;
  handleQNotificationAcknowledgement : Q -> M -> Q;
  qBlockPeerProgress : Q -> Q;
  qBlockResponseSZX : Q -> result Z
}.

Abbreviation HandlerFunc := (UState -> W -> nat * M -> UState * W * (nat * M)).

(** The growth of slices, the pool, the settings, the request monitor, the hooks, the
    observations, the block-wise engine (which is given the size exponent and the next
    handler), the random acknowledgement timeout, the first eight bytes of the SHA-256 of
    the discovery body, and the fuel for copying a body. *)
Context (growcap : Z -> Z).
Context (supply : nat -> M).
Context (cfg : UConfig).
Context (requestMonitor : M -> bool * option error).
Context (hooks : QHooks).
Context (observation_Handle : HandlerFunc).
Context (blockWise_Handle : option (Z -> HandlerFunc -> HandlerFunc)).
Context (nextAcknowledgeTimeout : nat -> Z).
Context (discoveryETag : list byte).
Context (copyFuel : nat).

Definition UAcquire (s : UState) : UState * (nat * M) :=
  let n := u_net s in
  (with_net s (mkNet (n_sent n) (n_script n) (n_done n) (n_closeErr n) (n_errors n) (n_notified n) (S (n_acquired n)) (n_released n)),
   (n_acquired n, supply (n_acquired n))).

Definition URelease (s : UState) (m : nat * M) : UState :=
  let n := u_net s in
  with_net s (mkNet (n_sent n) (n_script n) (n_done n) (n_closeErr n) (n_errors n) (n_notified n) (n_acquired n) (n_released n ++ [m.1])).

Definition uerror (s : UState) (e : error) : UState :=
  let n := u_net s in
  with_net s (mkNet (n_sent n) (n_script n) (n_done n) (n_closeErr n) (n_errors n ++ [e]) (n_notified n) (n_acquired n) (n_released n)).

Definition unotify (s : UState) : UState :=
  let n := u_net s in
  with_net s (mkNet (n_sent n) (n_script n) (n_done n) (n_closeErr n) (n_errors n) (S (n_notified n)) (n_acquired n) (n_released n)).

(** [session.WriteMessage]: one datagram, or an error. *)
Definition USession_WriteMessage (s : UState) (req : M) : UState * M * option write_error :=
  match MarshalWithEncoder growcap UdpCoder req with
  | (req, (Some data, None)) =>
      let n := u_net s in
      match n_script n with
      | Some e :: sc =>
          (with_net s (mkNet (n_sent n) sc (n_done n) (n_closeErr n) (n_errors n) (n_notified n) (n_acquired n) (n_released n)),
           req, Some (WriteFailed e))
      | sc =>
          (with_net s (mkNet (n_sent n ++ [data]) (tail sc) (n_done n) (n_closeErr n) (n_errors n) (n_notified n) (n_acquired n) (n_released n)),
           req, None)
      end
  | (req, (_, Some e)) => (s, req, Some (RequestNotSent e))
  | (req, (None, None)) => (s, req, None)
  end.

Definition UClose (s : UState) : UState * option error :=
  let n := u_net s in
  let s := with_net s (mkNet (n_sent n) (n_script n) true (n_closeErr n) (n_errors n) (n_notified n) (n_acquired n) (n_released n)) in
  (with_layer s (set_pending (u_layer s) ∅), n_closeErr n).

Definition closeConnection (s : UState) : UState :=
  let '(s, err) := UClose s in match err with Some e => uerror s e | None => s end.

(** ** Message IDs *)

Definition USequence (s : UState) : UState * Z :=
  let l := u_layer s in
  let v := uint64 (l_sequence l + 1) in (with_layer s (set_counters l v (l_msgID l) (l_globalMID l)), v).

Definition GetMessageID (s : UState) : UState * Z :=
  let l := u_layer s in
  let id := uint32 (l_msgID l + 1) in
  (with_layer s (set_counters l (l_sequence l) id (uint32 (l_globalMID l + 1))), CastTo KUint16 id).

(** One round of the loop decides it: the compare-and-swap fails only when another
    thread changed [msgID]. *)
Definition checkMyMessageID (s : UState) (req : M) : UState :=
  if mType (msg req) =? Confirmable then
    let l := u_layer s in
    let oldID := l_msgID l in
    if 65535 / 4 <=? uint16 (CastTo KUint16 (mMessageID (msg req)) - CastTo KUint16 oldID) then s
    else with_layer s (set_counters l (l_sequence l) (uint32 (oldID + 65535 / 2)) (l_globalMID l))
  else s.

(** ** Control information *)

Definition setControlInformation (s : UState) (cm : option ControlMessage) : UState :=
  let l := u_layer s in
  match cm with
  | None => with_layer s (set_control l None 0)
  | Some cm =>
      match Dst cm with
      | Some ((_ :: _) as dst) => with_layer s (set_control l (if IsMulticast dst then None else Some dst) (IfIndex cm))
      | _ => with_layer s (set_control l None (IfIndex cm))
      end
  end.

Definition upsertControlInformation (s : UState) (m : M) : M :=
  let l := u_layer s in
  match l_localAddr l with
  | None => if l_interfaceIndex l <? 1 then m else UpsertControlMessage m (Some (mkCM None None (l_interfaceIndex l)))
  | Some a => UpsertControlMessage m (Some (mkCM None (Some a) (l_interfaceIndex l)))
  end.

(** ** The response cache *)

(** [Load]: a message with the cached response; [None]: the decoder does not end.  The
    flag says that there was a response. *)
Definition messageCache_Load (s : UState) (key : string) (m : M) (now : Z) : option (M * (bool * option error)) :=
  match l_cache (u_layer s) !! key with
  | None => Some (m, (false, None))
  | Some (rawMsg, validUntil) =>
      if (negb (validUntil =? 0)) && (validUntil <? now) then Some (m, (false, None))
      else if 0 <? zlen rawMsg then
        '(m, (_, err)) ← UnmarshalWithDecoder growcap (S (length rawMsg)) UdpCoder m rawMsg;
        match err with
        | Some e => Some (m, (false, Some e))
        | None => Some (m, (true, None))
        end
      else Some (m, (false, None))
  end.

(** [Store]: an entry that is still valid stays. *)
Definition messageCache_Store (s : UState) (key : string) (m : M) (now : Z) : UState * M * option error :=
  match MarshalWithEncoder growcap UdpCoder m with
  | (m, (Some marshaledResp, None)) =>
      let l := u_layer s in
      let fresh_entry := (marshaledResp, now + ExchangeLifetime) in
      let entry := match l_cache l !! key with
                   | Some (old, v) => if (negb (v =? 0)) && (v <? now) then fresh_entry else (old, v)
                   | None => fresh_entry
                   end in
      (with_layer s (set_cache l (<[key := entry]> (l_cache l))), m, None)
  | (m, (_, Some e)) => (s, m, Some e)
  | (m, (None, None)) => (s, m, None)
  end.

Definition messageCache_CheckExpirations (s : UState) (now : Z) : UState :=
  let l := u_layer s in
  with_layer s (set_cache l (filter (fun kv => (negb (kv.2.2 =? 0)) && (kv.2.2 <? now) = false) (l_cache l))).

Definition getResponseFromCache (s : UState) (mid : Z) (resp : M) (now : Z) : option (M * (bool * option error)) :=
  messageCache_Load s (FormatInt mid) resp now.

Definition addResponseToCache (s : UState) (reqMessageID : Z) (resp : M) (now : Z) : UState * M * option error :=
  messageCache_Store s (FormatInt reqMessageID) resp now.

Definition set_w (w : W) (m : M) : W := mkWriter (w_noResponse w) ((w_message w).1, m).

Definition checkResponseCache (s : UState) (req : M) (w : W) (now : Z) : option (W * (bool * option error)) :=
  if (mType (msg req) =? Confirmable) || (mType (msg req) =? NonConfirmable) then
    '(m, (ok, err)) ← getResponseFromCache s (mMessageID (msg req)) (w_message w).2 now;
    if (ok : bool) then
      let m := SetMessageID m (mMessageID (msg req)) in
      let m := SetType m NonConfirmable in
      let m := if mType (msg req) =? Confirmable then SetType m Acknowledgement else m in
      Some (set_w w m, (true, None))
    else Some (set_w w m, (false, err))
  else Some (w, (false, None)).

(** ** The response *)

Definition isPongOrResetResponse (m : M) : bool :=
  isModified m && ((mType (msg m) =? Reset) || (mCode (msg m) =? Empty)).

Definition sendJustAcknowledgeMessage (reqType : Z) (m : M) : bool :=
  (reqType =? Confirmable) && negb (isModified m).

Definition has_q (m : M) : bool := HasOption (mOptions (msg m)) QBlock1 || HasOption (mOptions (msg m)) QBlock2.

Definition isQNonResponse (reqType : Z) (qResponse : bool) (m : M) : bool :=
  (reqType =? NonConfirmable) && isModified m && (qResponse || has_q m).

Definition processResponse (s : UState) (reqType reqMessageID : Z) (qResponse : bool) (w : W) (now : Z)
    : UState * W * option error :=
  let m := (w_message w).2 in
  if isPongOrResetResponse m then
    if reqType =? Confirmable
    then (s, set_w w (SetMessageID (SetType m Acknowledgement) reqMessageID), None)
    else
      let m := if mType (msg m) =? Reset then m else SetType m NonConfirmable in
      let '(s, mid) := GetMessageID s in (s, set_w w (SetMessageID m mid), None)
  else if sendJustAcknowledgeMessage reqType m then
    let m := SetToken (SetMessageID (SetType (SetCode m Empty) Acknowledgement) reqMessageID) None in
    let '(s, m, err) := addResponseToCache s reqMessageID m now in (s, set_w w m, err)
  else if isQNonResponse reqType qResponse m then
    let m := SetType m NonConfirmable in
    let '(s, mid) := GetMessageID s in
    let m := SetMessageID m mid in
    let '(s, m, err) := addResponseToCache s reqMessageID m now in (s, set_w w m, err)
  else if negb (isModified m) then (s, w, None)
  else
    let m := SetType m Confirmable in
    let '(s, mid) := GetMessageID s in
    let m := SetMessageID m mid in
    let m := if reqType =? Confirmable then SetMessageID (SetType m Acknowledgement) reqMessageID else m in
    if (reqType =? Confirmable) || (reqType =? NonConfirmable) then
      let '(s, m, err) := addResponseToCache s reqMessageID m now in (s, set_w w m, err)
    else (s, set_w w m, None).

(** ** The handlers *)

(** [w.SetResponse(code, TextPlain, nil)]: there are no options to copy. *)
Definition SetResponse_empty (w : W) (code : Z) : W * option error :=
  match (w_noResponse w ≫= IsNoResponseCode code) with
  | Some err => (w, Some err)
  | None => let m := SetCode (w_message w).2 code in (set_w w (default m (Msg_ResetOptionsTo m [])), None)
  end.

Definition sendPong_udp (s : UState) (w : W) (r : M) : UState * W :=
  let '(w, err) := SetResponse_empty w Empty in
  let s := match err with Some e => uerror s e | None => s end in
  let m := (w_message w).2 in
  if mType (msg r) =? Confirmable
  then (s, set_w w (SetMessageID (SetType m Reset) (mMessageID (msg r))))
  else
    let m := if mType (msg m) =? Reset then m else SetType m NonConfirmable in
    let '(s, mid) := GetMessageID s in (s, set_w w (SetMessageID m mid)).

Definition handlePong : HandlerFunc := fun s w r => let '(s, w) := sendPong_udp s w r.2 in (s, w, r).

(** The body of the closure of [RegisterRequestHandler]. *)
Definition call_request_handler (s : UState) (ch : nat) (r : nat * M) : UState * (nat * M) :=
  let r := (r.1, Hijack r.2) in
  let q := u_reqs s in
  match r_channels q !! ch with
  | Some _ => (s, r)
  | None => (with_reqs s (mkReqs (r_tokens q) (r_tokenless q) (r_nextChannel q) (<[ch := r]> (r_channels q)) (r_pongs q)), r)
  end.

Definition handleResponse_udp : HandlerFunc := fun s w r =>
  let q := u_reqs s in
  if (zlen (default [] (Msg_Token r.2)) =? 0) && (Created <=? mCode (msg r.2)) then
    let '(tl, h) := Tokenless.Load (r_tokenless q) true in
    match h with
    | Some ch =>
        let s := with_reqs s (mkReqs (r_tokens q) tl (r_nextChannel q) (r_channels q) (r_pongs q)) in
        let '(s, r) := call_request_handler s ch r in (s, w, r)
    | None => observation_Handle s w r
    end
  else
    let key := Token_Hash (default [] (Msg_Token r.2)) in
    let s := with_reqs s (mkReqs (delete key (r_tokens q)) (r_tokenless q) (r_nextChannel q) (r_channels q) (r_pongs q)) in
    match r_tokens q !! key with
    | Some ch => let '(s, r) := call_request_handler s ch r in (s, w, r)
    | None => observation_Handle s w r
    end.

Definition handleBlockwise (next : HandlerFunc) : option HandlerFunc :=
  bw ← blockWise_Handle;
  Some (fun s w m =>
    if has_q m.2 then
      match qBlockResponseSZX hooks (u_q s) with
      | Err e =>
          let s := uerror s e in
          let '(w, err) := SetResponse_empty w RequestEntityTooLarge in
          (match err with Some e => uerror s e | None => s end, w, m)
      | Ok responseSZX => bw (Z.min (c_blockwiseSZX cfg) responseSZX) next s w m
      end
    else bw (c_blockwiseSZX cfg) next s w m).

Definition qOptionCount (m : M) (id : Z) : Z := zlen (filter (fun o => ID o = id) (mOptions (msg m))).

Definition qDiscoveryRequestSZX (r : M) : option Z :=
  let has id := HasOption (mOptions (msg r)) id in
  if negb (mCode (msg r) =? GET) || has QBlock1 || has Block1 || has Block2 then None else
  let path := Value <$> filter (fun o => ID o = URIPath) (mOptions (msg r)) in
  if negb (bool_decide (path = [string_bytes ".well-known"; string_bytes "core"])) then None else
  let '(value, err) := GetOptionUint32 r QBlock2 in
  match err with
  | Some _ => None
  | None =>
      if negb (qOptionCount r QBlock2 =? 1) then None else
      let '(szx, num, _, err) := DecodeQBlockOption value in
      match err with
      | Some _ => None
      | None => if (szx <=? SZX1024) && (num =? 0) then Some szx else None
      end
  end.

Definition discovery : list byte := [60; 47; 62; 59; 114; 116; 61; 34; 99; 111; 114; 101; 34].

(** The discovery response; [None] is a panic of a setter. *)
Definition discoveryResponse (s : UState) (w : W) (probeSZX : Z) : option (UState * W) :=
  match (w_noResponse w ≫= IsNoResponseCode Content) with
  | Some err => Some (uerror s err, w)
  | None =>
      m ← Msg_ResetOptionsTo (SetCode (w_message w).2 Content) [];
      m ← Msg_SetContentFormat m AppLinkFormat;
      let m := SetBody m (Some (inl (NewReader discovery))) in
      let '(option, err) := EncodeQBlockOption probeSZX 0 false in
      match err with
      | Some e => Some (uerror s e, set_w w m)
      | None =>
          m ← SetOptionUint32 m QBlock2 option;
          m ← SetOptionUint32 m Size2 (zlen discovery);
          Some (s, set_w w (SetOptionBytes m ETag discoveryETag))
      end
  end.

Definition handle_udp : HandlerFunc := fun s w m =>
  let s := with_q s (checkQObservationCancellation hooks (u_q s) m.2) in
  if IsSeparateMessage m.2 then (s, w, m) else
  let '(q, routed) := routeQBlockResponse hooks (u_q s) m.2 in
  let s := with_q s q in
  if routed then (s, w, m) else
  let '(q, started) := startQBlockNotification hooks (u_q s) m.2 in
  let s := with_q s q in
  if started then (s, w, m) else
  let rest := match handleBlockwise handleResponse_udp with
              | Some h => h s w m
              | None => handleResponse_udp s w m
              end in
  match qDiscoveryRequestSZX m.2 with
  | Some probeSZX =>
      if qBlockAllowed hooks (u_q s) then
        match discoveryResponse s w probeSZX with
        | Some (s, w) => (s, w, m)
        | None => (s, w, m)
        end
      else rest
  | None => rest
  end.

(** The lock of the message ID is held throughout; the connection runs it as one step
    per message ID.  The second component says whether the handler ran. *)
Definition handleReq (now : Z) (s : UState) (w : W) (req : nat * M) : option (UState * W * (nat * M) * bool) :=
  '(w, (ok, err)) ← checkResponseCache s req.2 w now;
  match err with
  | Some e => Some (unotify (uerror (closeConnection s) e), w, req, false)
  | None =>
      if (ok : bool) then Some (unotify s, w, req, false) else
      let w := set_w w (with_modified (w_message w).2 false) in
      let reqType := mType (msg req.2) in
      let reqMessageID := mMessageID (msg req.2) in
      let qResponse := has_q req.2 in
      let '(s, w, req) := handle_udp s w req in
      let '(s, w, err) := processResponse s reqType reqMessageID qResponse w now in
      let s := match err with Some e => uerror (closeConnection s) e | None => s end in
      Some (unotify s, w, req, true)
  end.

(** ** Sending *)

(** [semaphore.Weighted] of [math.MaxInt64]: [Acquire(n)] waits until [n] more fit;
    [releaseOutstandingInteraction] gives one back.  [None]: it waits. *)
Definition acquireOutstandingInteraction (l : Layer) : option (Layer * option error) :=
  let nStart := c_nStart cfg in
  if nStart =? 0 then Some (l, Some (ErrOther "invalid NStart value")) else
  let n := MaxInt64 - nStart + 1 in
  if l_outstanding l + n <=? MaxInt64
  then Some (set_mid_table l (l_mids l) (l_outstanding l + n - (n - 1)), None)
  else None.

Definition releaseOutstandingInteraction (l : Layer) : Layer := set_mid_table l (l_mids l) (l_outstanding l - 1).

(** The functions that [prepareWriteMessage] collects, run in reverse order. *)
Record closeFns : Type := mkCloseFns { cf_outstanding : bool; cf_mid : option Z }.

Definition run_close (s : UState) (c : closeFns) : UState :=
  let s := match cf_mid c with
           | Some mid => with_layer s (set_mid_table (u_layer s) (LoadAndDelete_mid (l_mids (u_layer s)) mid).1 (l_outstanding (u_layer s)))
           | None => s
           end in
  if cf_outstanding c then with_layer s (releaseOutstandingInteraction (u_layer s)) else s.

Definition needs_interaction (req : M) : bool :=
  (GET <=? mCode (msg req)) && (mCode (msg req) <? 32) || has_q req.

(** [dl] is the deadline of the context of the message.  [None]: it waits for an
    outstanding interaction to end (or the copy of the body does not end). *)
Definition prepareWriteMessage (s : UState) (req : M) (h : midHandler) (ack : option nat) (dl : option Z) (now : Z)
    : option (UState * M * (closeFns + error)) :=
  if negb (mType (msg req) =? Confirmable) then Some (s, req, inl (mkCloseFns false None)) else
  let '(s, (id, m)) := UAcquire s in
  '(req, m, err) ← Msg_Clone copyFuel req m;
  match err with
  | Some e => Some (URelease s (id, m), req, inr e)
  | None =>
      let '(acquire, l, err) :=
        if needs_interaction req then
          match acquireOutstandingInteraction (u_layer s) with
          | Some (l, err) => (Some true, l, err)
          | None => (None, u_layer s, None)
          end
        else (Some false, u_layer s, None) in
      outstanding ← acquire;
      match err with
      | Some e => Some (URelease s (id, m), req, inr e)
      | None =>
          let s := with_layer s l in
          let mid := mMessageID (msg req) in
          let e := mkMid h now dl (nextAcknowledgeTimeout (n_acquired (u_net s))) 0 false 0 ack (Some (id, m)) in
          match track (l_mids l) mid e with
          | None =>
              let s := if (outstanding : bool) then with_layer s (releaseOutstandingInteraction (u_layer s)) else s in
              Some (s, req, inr ErrKeyAlreadyExists)
          | Some t => Some (with_layer s (set_mid_table l t (l_outstanding l)), req, inl (mkCloseFns outstanding (Some mid)))
          end
      end
  end.

Definition with_ids (s : UState) (req : M) : UState * M :=
  let req := UpsertType req Confirmable in
  let '(s, mid) := GetMessageID s in (s, UpsertMessageID req mid).

Definition writeMessageAsync (s : UState) (req : M) (dl : option Z) (now : Z) : option (UState * M * option write_error) :=
  let '(s, req) := with_ids s req in
  let '(q, err) := rememberQNotification hooks (u_q s) (n_done (u_net s)) req in
  let s := with_q s q in
  match err with
  | Some e => Some (s, req, Some (WriteFailed e))
  | None =>
      '(s, req, r) ← prepareWriteMessage s req AsyncHandler None dl now;
      match r with
      | inr e => Some (s, req, Some (RequestNotSent e))
      | inl c =>
          let '(s, req, err) := USession_WriteMessage s req in
          Some (run_close s c, req, err)
      end
  end.

(** [writeMessage] of a Confirmable message up to its wait: [inl] has the channel and
    what to close. *)
Definition writeMessage_send (s : UState) (req : M) (ch : nat) (dl : option Z) (now : Z)
    : option (UState * M * (closeFns + option write_error)) :=
  let '(s, req) := with_ids s req in
  let req := upsertControlInformation s req in
  if negb (mType (msg req) =? Confirmable) then
    '(s, req, err) ← writeMessageAsync s req dl now; Some (s, req, inr err)
  else
    let '(q, err) := rememberQNotification hooks (u_q s) (n_done (u_net s)) req in
    let s := with_q s q in
    match err with
    | Some e => Some (s, req, inr (Some (WriteFailed e)))
    | None =>
        let qn := HasOption (mOptions (msg req)) Observe && HasOption (mOptions (msg req)) QBlock2 in
        '(s, req, r) ← prepareWriteMessage s req (AckHandler ch qn) (Some ch) dl now;
        match r with
        | inr e => Some (s, req, inr (Some (RequestNotSent e)))
        | inl c =>
            let '(s, req, err) := USession_WriteMessage s req in
            match err with
            | Some e => Some (run_close s c, req, inr (Some e))
            | None => Some (s, req, inl c)
            end
        end
    end.

(** The end of the wait: the value of the channel, or a context is done. *)
Definition writeMessage_wait (s : UState) (ch : nat) (c : closeFns) (cancelled : bool) : option (UState * option error) :=
  let t := l_mids (u_layer s) in
  match acks t !! ch with
  | Some err =>
      let t := mkMidTable (mids t) (elems t) (resent t) (delete ch (acks t)) (given_back t) (mid_errors t) in
      Some (run_close (with_layer s (set_mid_table (u_layer s) t (l_outstanding (u_layer s)))) c, err)
  | None => if cancelled || n_done (u_net s) then Some (run_close s c, Some ErrContext) else None
  end.

Definition WriteMulticastMessage (s : UState) (req : M) : UState * M * option write_error :=
  if mType (msg req) =? Confirmable then (s, req, Some (WriteFailed (ErrOther "multicast messages cannot be confirmable"))) else
  let '(s, mid) := GetMessageID s in
  USession_WriteMessage s (UpsertMessageID req mid).

(** [inl mid] is the function that removes the handler. *)
Definition AsyncPing_udp (s : UState) (receivedPong : nat) (now : Z) : UState * (Z + error) :=
  let '(s, (id, req)) := UAcquire s in
  let req := SetCode (SetType req Confirmable) Empty in
  let '(s, mid) := GetMessageID s in
  let req := upsertControlInformation s (SetMessageID req mid) in
  let e := mkMid (UPongHandler receivedPong) now None (nextAcknowledgeTimeout (n_acquired (u_net s))) 0 false 0 None (Some (id, req)) in
  match track (l_mids (u_layer s)) mid e with
  | None => (s, inr ErrKeyAlreadyExists)
  | Some t =>
      let s := with_layer s (set_mid_table (u_layer s) t (l_outstanding (u_layer s))) in
      let '(s, _, err) := USession_WriteMessage s req in
      match err with
      | None => (s, inl mid)
      | Some err =>
          let '(t, a) := LoadAndDelete_mid (l_mids (u_layer s)) mid in
          let t := match a with Some a => release_elem t a | None => t end in
          (with_layer s (set_mid_table (u_layer s) t (l_outstanding (u_layer s))), inr (write_error_of err))
      end
  end.

(** ** Messages in flight *)

Definition expirePendingMessages (p : gmap Z pendingMessage) (now : Z) : gmap Z pendingMessage :=
  filter (fun kv => now < pm_expires kv.2) p.

Definition addPendingMessage (l : Layer) (mid sequence now : Z) : Layer * (bool * option error) :=
  if c_maxPendingMessages cfg =? 0 then (l, (false, None)) else
  match (match l_pending l !! mid with
         | Some p => if now <? pm_expires p then None else Some (delete mid (l_pending l))
         | None => Some (l_pending l)
         end) with
  | None => (l, (true, None))
  | Some p =>
      let full p := c_maxPendingMessages cfg <=? Z.of_nat (size p) in
      let p := if full p then expirePendingMessages p now else p in
      if full p then (set_pending l p, (false, Some (ErrOther "in-flight message limit exceeded")))
      else (set_pending l (<[mid := mkPending sequence (now + ExchangeLifetime)]> p), (false, None))
  end.

Definition deletePendingMessage (l : Layer) (mid sequence : Z) : Layer :=
  match l_pending l !! mid with
  | Some p => if pm_sequence p =? sequence then set_pending l (delete mid (l_pending l)) else l
  | None => l
  end.

(** ** Receiving *)

(** [handler] may not end; the flag it returns is passed on. *)
Definition ProcessReceivedMessageWithHandler_udp {R} (s : UState) (req : nat * M)
    (handler : UState -> W -> nat * M -> option (UState * W * (nat * M) * R)) (now : Z) : option (UState * R) :=
  let qResponse := has_q req.2 in
  let '(s, (id, resp)) := UAcquire s in
  let resp := SetToken resp (Msg_Token req.2) in
  let s := setControlInformation s (controlMessage req.2) in
  let w := NewWriter (id, resp) (mOptions (msg req.2)) in
  '(s, w, req, r) ← handler s w req;
  let finish s w := let s := URelease s (w_message w) in if hijacked req.2 then s else URelease s req in
  if n_done (u_net s) then Some (finish s w, r) else
  if negb (isModified (w_message w).2) then Some (finish s w, r) else
  let '(s, w) :=
    if qResponse then
      match MarshalWithEncoder growcap UdpCoder (w_message w).2 with
      | (m, (wire, err)) =>
          let too_large e := (uerror s e, set_w w (SetBody (default (SetCode m RequestEntityTooLarge)
                                (Msg_ResetOptionsTo (SetCode m RequestEntityTooLarge) [])) None)) in
          match err with
          | Some e => too_large e
          | None => if c_qDatagramLimit cfg <? zlen (default [] wire) then too_large ErrQBlockTooLarge else (s, set_w w m)
          end
      end
    else (s, w) in
  let m := upsertControlInformation s (w_message w).2 in
  '(s, m, errW) ← writeMessageAsync s m None now;
  let w := set_w w m in
  match errW with
  | Some e => Some (finish (uerror (closeConnection s) (write_error_of e)) w, r)
  | None => Some (finish s w, r)
  end.

(** The reader of received messages. *)
Definition ProcessReceivedMessage_udp (s : UState) (req : nat * M) (now : Z) : option (UState * bool) :=
  let mid := mMessageID (msg req.2) in
  let seq := sequence req.2 in
  '(s, ran) ← ProcessReceivedMessageWithHandler_udp s req (handleReq now) now;
  Some (with_layer s (deletePendingMessage (u_layer s) mid seq), ran).

(** The closure of a message ID. *)
Definition call_mid_handler (s : UState) (h : midHandler) (r : M) : UState :=
  match h with
  | AsyncHandler => s
  | AckHandler ch qn =>
      let err := if (mType (msg r) =? Reset) && qn then Some (ErrOther "q-block Observe notification reset by peer") else None in
      with_layer s (set_mid_table (u_layer s) (notifyWaitForAcknowledge (l_mids (u_layer s)) (Some ch) err) (l_outstanding (u_layer s)))
  | UPongHandler f =>
      if (mType (msg r) =? Reset) || (mType (msg r) =? Acknowledgement) then
        let q := u_reqs s in
        with_reqs s (mkReqs (r_tokens q) (r_tokenless q) (r_nextChannel q) (r_channels q) (r_pongs q ++ [f]))
      else s
  end.

Definition handleSpecialMessages (s : UState) (r : nat * M) (now : Z) : option (UState * bool) :=
  let s := with_q s (handleQNotificationAcknowledgement hooks (u_q s) r.2) in
  if Message_IsPing (msg r.2) false then
    '(s, _) ← ProcessReceivedMessageWithHandler_udp s r (fun s w r => Some (handlePong s w r, tt)) now;
    Some (s, true)
  else
    let '(t, a) := LoadAndDelete_mid (l_mids (u_layer s)) (mMessageID (msg r.2)) in
    match a with
    | Some a =>
        let h := handler <$> elems t !! a in
        let s := with_layer s (set_mid_table (u_layer s) (release_elem t a) (l_outstanding (u_layer s))) in
        let '(s, resp) := UAcquire s in
        let s := match h with Some h => call_mid_handler s h r.2 | None => s end in
        Some (URelease s resp, false)
    | None => Some (s, IsSeparateMessage r.2)
    end.

Definition newMalformedMessageError (err : error) (datagram : list byte) (req : M) : MalformedMessageError :=
  match datagram with
  | b :: _ =>
      if negb (Z.shiftr b 6 =? 1) then mkMalformed 0 0 false true err
      else if 4 <=? zlen datagram then mkMalformed (mType (msg req)) (mMessageID (msg req)) true false err
      else mkMalformed 0 0 false false err
  | [] => mkMalformed 0 0 false false err
  end.

(** [None]: the panic of [SetContentFormat]. *)
Definition respondUnknownCriticalOptions_udp (s : UState) (req : M) (unknownCriticalOpts : list Z)
    : option (UState * option error) :=
  let '(s, (id, resp)) := UAcquire s in
  let resp := SetToken (SetCode resp BadOption) (Msg_Token req) in
  let resp := SetMessageID (SetType resp Acknowledgement) (mMessageID (msg req)) in
  resp ← Msg_SetContentFormat resp TextPlain;
  let resp := SetBody resp (Some (inl (NewReader (string_bytes (FormatUnknownCriticalOptionsDiagnostic unknownCriticalOpts))))) in
  let s := setControlInformation s (controlMessage req) in
  let resp := upsertControlInformation s resp in
  let '(s, resp, err) := USession_WriteMessage s resp in
  Some (URelease s (id, resp), write_error_of <$> err).

Definition processUnknownCriticalOptions (s : UState) (req : nat * M) : option (UState * (bool * option error)) :=
  let m := msg req.2 in
  let has id := HasOption (mOptions m) id in
  if (negb (mType m =? Confirmable) && negb (mType m =? NonConfirmable)) || (mCode m <? GET) || (32 <=? mCode m)
  then Some (s, (false, None)) else
  let qAllowed := qBlockAllowed hooks (u_q s) && negb (has ProxyURI) && negb (has ProxyScheme) &&
                  negb (has Block1) && negb (has Block2) in
  let qAllowed := if has Observe && (negb (mCode m =? GET) || has QBlock1) then false else qAllowed in
  match GetUnknownCriticalOptionsWithQBlock (mOptions m) qAllowed with
  | [] => Some (s, (false, None))
  | unknown =>
      '(s, err) ← if mType m =? Confirmable then respondUnknownCriticalOptions_udp s req.2 unknown else Some (s, None);
      Some (URelease s req, (true, err))
  end.

Definition isQMulticastRequest (req : M) (cm : option ControlMessage) : bool :=
  (GET <=? mCode (msg req)) && (mCode (msg req) <? 32) && HasOption (mOptions (msg req)) QBlock2 &&
  match cm with Some cm => IsMulticast (default [] (Dst cm)) | None => false end.

(** The errors of [Process]: an ordinary one or a malformed datagram. *)
Inductive process_error : Type :=
| PError (e : error)
| PMalformed (e : MalformedMessageError).

(** [Process] after the check of the options.  [sent_to_queue]: which branch the last
    [select] takes when the context is done. *)
Definition Process_checked (s : UState) (req : nat * M) (now : Z) (sent_to_queue : bool)
    : option (UState * option process_error) :=
  let s := checkMyMessageID s req.2 in
  match requestMonitor req.2 with
  | (_, Some e) => Some (URelease s req, Some (PError e))
  | (true, None) => Some (URelease s req, None)
  | (false, None) =>
      let s := if has_q req.2 then with_q s (qBlockPeerProgress hooks (u_q s)) else s in
      let s := unotify s in
      match handleSpecialMessages s req now with
      | None => None
      | Some (s, true) => Some (s, None)
      | Some (s, false) =>
          let mid := mMessageID (msg req.2) in
          let seq := sequence req.2 in
          let '(l, (duplicate, err)) :=
            if (mType (msg req.2) =? Confirmable) || (mType (msg req.2) =? NonConfirmable)
            then addPendingMessage (u_layer s) mid seq now
            else (u_layer s, (false, None)) in
          let s := with_layer s l in
          match err with
          | Some e => Some (uerror (URelease s req) e, None)
          | None =>
              if (duplicate : bool) then Some (URelease s req, None)
              else if n_done (u_net s) && negb sent_to_queue then
                Some (URelease (with_layer s (deletePendingMessage (u_layer s) mid seq)) req, None)
              else Some (with_received s (u_received s ++ [req]), None)
          end
      end
  end.

Definition Process (s : UState) (cm : option ControlMessage) (datagram : list byte) (now : Z) (sent_to_queue : bool)
    : option (UState * option process_error) :=
  if c_maxMessageSize cfg <? CastTo KUint32 (zlen datagram)
  then Some (s, Some (PError (ErrOther "max message size was exceeded"))) else
  let '(s, (id, req)) := UAcquire s in
  match UnmarshalWithDecoder growcap (S (length datagram)) UdpCoder req datagram with
  | None => None
  | Some (req, (_, Some e)) => Some (URelease s (id, req), Some (PMalformed (newMalformedMessageError e datagram req)))
  | Some (req, (_, None)) =>
      let req := SetControlMessage req cm in
      let '(s, seq) := USequence s in
      let req := SetSequence req seq in
      if isQMulticastRequest req cm then Some (URelease s (id, req), None) else
      match processUnknownCriticalOptions s (id, req) with
      | None => None
      | Some (s, (true, processErr)) => Some (s, PError <$> processErr)
      | Some (s, (false, _)) => Process_checked s (id, req) now sent_to_queue
      end
  end.

(** The reader takes the next message from the queue; the flag says whether its handler ran. *)
Definition process_next_udp (s : UState) (now : Z) : option (UState * bool) :=
  match u_received s with
  | [] => None
  | req :: rest => ProcessReceivedMessage_udp (with_received s rest) req now
  end.

(** [env] and [ks]: see [check_mids]; the clone is that of the message. *)
Definition CheckExpirations_udp (s : UState) (now : Z) (env : Z -> option error * Z) (ks : list Z) : UState :=
  let s := with_layer s (set_pending (u_layer s) (expirePendingMessages (l_pending (u_layer s)) now)) in
  let s := messageCache_CheckExpirations s now in
  let clone (m : nat * M) := match Msg_Clone copyFuel m.2 (supply (n_acquired (u_net s))) with
                             | Some (_, c, None) => Ok (n_acquired (u_net s), c)
                             | Some (_, _, Some e) => Err e
                             | None => Err ErrContext
                             end in
  with_layer s (set_mid_table (u_layer s) (check_mids clone (l_mids (u_layer s)) now (c_maxRetransmit cfg) env ks)
                  (l_outstanding (u_layer s))).

End UdpConn.
