(* ===== verification/UdpFrame.v ===== *)
(** * What the operations of a datagram connection leave alone (src/udp/client/conn.go)

    The response cache and the table of requests of [UdpConn] are changed at few places:
    a response is cached, the cache is swept, a response is handed to its request, a pong
    is noted.  A relation [R] between states that holds across these and does not see
    anything else holds across every event of the connection ([udp_step_R]); [UdpDedup]
    and [UdpRequests] instantiate it. *)
From stdpp Require Import prelude list strings gmap.
From Stdlib Require Import ZArith Lia.
From S2P Require Import Prelude Cast Codes OptionCodec Options OptionsCodec Message PoolMessage BlockCodec.
From S2P Require Import Crc64 SyncMap Client TcpConn TcpStream UdpReliability UdpConn.
#[local] Open Scope Z_scope.

Section Frame.
Context {Ctx B Q : Type} `{!ReadSeeker B}.
Abbreviation M := (Msg Ctx ControlMessage B).
Abbreviation W := (Writer (Ctx := Ctx) (CM := ControlMessage) (B := B)).
Abbreviation UState := (UState (Ctx := Ctx) (B := B) (Q := Q)).
Abbreviation HandlerFunc := (UState -> W -> nat * M -> UState * W * (nat * M)).
Context (growcap : Z -> Z).
Context (supply : nat -> M).
Context (cfg : UConfig).
Context (requestMonitor : M -> bool * option error).
Context (hooks : QHooks (Ctx := Ctx) (B := B) (Q := Q)).
Context (observation_Handle : HandlerFunc).
Context (blockWise_Handle : option (Z -> HandlerFunc -> HandlerFunc)).
Context (nextAcknowledgeTimeout : nat -> Z).
Context (discoveryETag : list byte).
Context (copyFuel : nat).

Implicit Types (s : UState) (w : W) (req : nat * M).

Abbreviation write_async := (writeMessageAsync growcap supply cfg hooks nextAcknowledgeTimeout copyFuel).
Abbreviation prepare := (prepareWriteMessage supply cfg nextAcknowledgeTimeout copyFuel).
Abbreviation handle_message := (handle_udp cfg hooks observation_Handle blockWise_Handle discoveryETag).
Abbreviation handle_request := (handleReq growcap cfg hooks observation_Handle blockWise_Handle discoveryETag).
Abbreviation process_message := (ProcessReceivedMessage_udp growcap supply cfg hooks observation_Handle blockWise_Handle
  nextAcknowledgeTimeout discoveryETag copyFuel).
Abbreviation receive := (Process growcap supply cfg requestMonitor hooks nextAcknowledgeTimeout copyFuel).

(** ** Operations that change neither the cache nor the requests *)

Definition kept s : gmap string (list byte * Z) * Reqs := (l_cache (u_layer s), u_reqs s).

Lemma kept_session s m : kept (USession_WriteMessage growcap s m).1.1 = kept s.
Proof.
  unfold USession_WriteMessage. destruct (MarshalWithEncoder growcap UdpCoder m) as [m' [[data|] [e|]]]; [done| |done|done].
  by destruct (n_script (u_net s)) as [|[e|] sc].
Qed.

Lemma kept_close s : kept (closeConnection s) = kept s.
Proof. unfold closeConnection, UClose. by destruct (n_closeErr (u_net s)). Qed.

Lemma kept_run_close s c : kept (run_close s c) = kept s.
Proof. unfold run_close. destruct c as [[|] [mid|]]; done. Qed.

Lemma kept_prepare s m h ack dl now s' m' r :
  prepare s m h ack dl now = Some (s', m', r) -> kept s' = kept s.
Proof.
  unfold prepareWriteMessage. destruct (negb _); [by intros [= <- <- <-]|]. cbn [UAcquire].
  destruct (Msg_Clone _ _ _) as [[[r1 c] [e|]]|]; cbn [mbind option_bind]; [by intros [= <- <- <-]| |done].
  unfold acquireOutstandingInteraction. destruct (needs_interaction r1); cbn [mbind option_bind].
  - destruct (_ =? 0); cbn [mbind option_bind]; [by intros [= <- <- <-]|]. destruct (_ <=? MaxInt64); cbn [mbind option_bind]; [|done].
    destruct (track _ _ _); by intros [= <- <- <-].
  - destruct (track _ _ _); by intros [= <- <- <-].
Qed.

Lemma kept_write_async s m dl now s' m' err :
  write_async s m dl now = Some (s', m', err) -> kept s' = kept s.
Proof.
  unfold writeMessageAsync, with_ids. cbn [GetMessageID]. destruct (rememberQNotification hooks _ _ _) as [q [e|]]; [by intros [= <- <- <-]|].
  set (s0 := with_q _ _). destruct (prepare _ _ _ _ _ _) as [[[s1 m1] [c|e]]|] eqn:E; cbn [mbind option_bind]; [| |done].
  - pose proof (kept_session s1 m1) as Hc. destruct (USession_WriteMessage growcap s1 m1) as [[s2 m2] e2]. cbn [fst] in Hc.
    intros [= <- <- <-]. rewrite kept_run_close, Hc. by apply kept_prepare in E.
  - intros [= <- <- <-]. by apply kept_prepare in E.
Qed.

Lemma kept_SetResponse_error s (err : option error) : kept (match err with Some e => uerror s e | None => s end) = kept s.
Proof. by destruct err. Qed.

Lemma kept_respond s m us s' e : respondUnknownCriticalOptions_udp growcap supply s m us = Some (s', e) -> kept s' = kept s.
Proof.
  unfold respondUnknownCriticalOptions_udp. cbn [UAcquire]. destruct (Msg_SetContentFormat _ _); [|done]. cbn [mbind option_bind].
  set (s0 := setControlInformation _ _). assert (kept s0 = kept s) as E0.
  { unfold s0, setControlInformation. destruct (controlMessage m) as [cm|]; [|done]. by destruct (Dst cm) as [[|b l]|]. }
  match goal with |- context [USession_WriteMessage growcap s0 ?x] =>
    pose proof (kept_session s0 x) as Hc; destruct (USession_WriteMessage growcap s0 x) as [[s1 m1] err] end.
  cbn [fst] in Hc. intros [= <- _]. change (kept s1 = kept s). congruence.
Qed.

Lemma kept_unknown s req s' r : processUnknownCriticalOptions growcap supply hooks s req = Some (s', r) -> kept s' = kept s.
Proof.
  unfold processUnknownCriticalOptions. destruct (_ || _); [by intros [= <- _]|].
  destruct (GetUnknownCriticalOptionsWithQBlock _ _) as [|u us]; [by intros [= <- _]|].
  destruct (mType _ =? Confirmable).
  - destruct (respondUnknownCriticalOptions_udp growcap supply s req.2 (u :: us)) as [[s1 e]|] eqn:E; cbn [mbind option_bind]; [|done].
    intros [= <- _]. by apply kept_respond in E.
  - cbn [mbind option_bind]. by intros [= <- _].
Qed.

Lemma kept_addPending (l : Layer (Ctx := Ctx) (B := B)) mid seq now : l_cache (addPendingMessage cfg l mid seq now).1 = l_cache l.
Proof.
  unfold addPendingMessage. destruct (_ =? 0); [done|]. destruct (match l_pending l !! mid with Some p => _ | None => _ end) as [p|]; [|done].
  cbv zeta. destruct (c_maxPendingMessages cfg <=? Z.of_nat (size p)) eqn:E.
  - by destruct (c_maxPendingMessages cfg <=? Z.of_nat (size (expirePendingMessages p now))).
  - by rewrite E.
Qed.

Lemma kept_write_send s m ch dl now s' m' r :
  writeMessage_send growcap supply cfg hooks nextAcknowledgeTimeout copyFuel s m ch dl now = Some (s', m', r) -> kept s' = kept s.
Proof.
  unfold writeMessage_send, with_ids. cbn [GetMessageID]. destruct (negb _).
  - destruct (write_async _ _ _ _) as [[[s1 m1] er]|] eqn:Ew; cbn [mbind option_bind]; [|done]. intros [= <- _ _].
    by apply kept_write_async in Ew.
  - destruct (rememberQNotification hooks _ _ _) as [q [e|]]; [by intros [= <- _ _]|].
    destruct (prepare _ _ _ _ _ _) as [[[s1 m1] [c|e]]|] eqn:Ep; cbn [mbind option_bind]; [| |done]; apply kept_prepare in Ep.
    + pose proof (kept_session s1 m1) as Hc. destruct (USession_WriteMessage growcap s1 m1) as [[s2 m2] [e2|]]; cbn [fst] in Hc;
        intros [= <- _ _]; rewrite ?kept_run_close; by rewrite Hc, Ep.
    + intros [= <- _ _]. done.
Qed.

Lemma kept_write_wait s ch c cancelled s' e : writeMessage_wait s ch c cancelled = Some (s', e) -> kept s' = kept s.
Proof.
  unfold writeMessage_wait. destruct (acks _ !! ch).
  - intros [= <- _]. by rewrite kept_run_close.
  - destruct (_ || _); [|done]. intros [= <- _]. apply kept_run_close.
Qed.

Lemma kept_ping s f now s' r : AsyncPing_udp growcap supply nextAcknowledgeTimeout s f now = (s', r) -> kept s' = kept s.
Proof.
  unfold AsyncPing_udp. cbn [UAcquire GetMessageID]. destruct (track _ _ _) as [t|]; [|by intros [= <- _]].
  match goal with |- context [USession_WriteMessage growcap ?s0 ?x] =>
    pose proof (kept_session s0 x) as Hc; destruct (USession_WriteMessage growcap s0 x) as [[s1 m1] [e1|]] end; cbn [fst] in Hc;
    [|intros [= <- _]; exact Hc].
  destruct (LoadAndDelete_mid _ _) as [t' a]. intros [= <- _]. exact Hc.
Qed.

(** ** The events of a connection *)

Inductive udp_step (now : Z) : UState -> UState -> Prop :=
| us_receive s cm datagram b s' e : receive s cm datagram now b = Some (s', e) -> udp_step now s s'
| us_handle s req rest s' ran :
    u_received s = req :: rest -> process_message (with_received s rest) req now = Some (s', ran) -> udp_step now s s'
| us_check s env ks : udp_step now s (CheckExpirations_udp supply cfg copyFuel s now env ks)
| us_write s m ch dl s' m' r :
    writeMessage_send growcap supply cfg hooks nextAcknowledgeTimeout copyFuel s m ch dl now = Some (s', m', r) -> udp_step now s s'
| us_wait s ch c cancelled s' e : writeMessage_wait s ch c cancelled = Some (s', e) -> udp_step now s s'
| us_ping s f s' r : AsyncPing_udp growcap supply nextAcknowledgeTimeout s f now = (s', r) -> udp_step now s s'.

(** ** Operations that do *)

Context (now : Z) (R : UState -> UState -> Prop).
Context (R_same : forall s s', kept s' = kept s -> R s s') (R_trans : forall s1 s2 s3, R s1 s2 -> R s2 s3 -> R s1 s3).
Context (R_store : forall s key m, R s (messageCache_Store growcap s key m now).1.1).
Context (R_sweep : forall s, R s (messageCache_CheckExpirations s now)).
Context (R_response : forall s w r, R s (handleResponse_udp observation_Handle s w r).1.1).
Context (R_blockwise : forall bw, blockWise_Handle = Some bw -> forall szx s w r,
  R s (bw szx (handleResponse_udp observation_Handle) s w r).1.1).
Context (R_pong : forall s f (q := u_reqs s),
  R s (with_reqs s (mkReqs (r_tokens q) (r_tokenless q) (r_nextChannel q) (r_channels q) (r_pongs q ++ [f])))).

Lemma R_handleBlockwise h s w m : handleBlockwise cfg hooks blockWise_Handle (handleResponse_udp observation_Handle) = Some h -> R s (h s w m).1.1.
Proof.
  unfold handleBlockwise. destruct blockWise_Handle as [bw|] eqn:Eb; [|done]. cbn [mbind option_bind]. intros [= <-].
  destruct (has_q m.2); [|by apply R_blockwise].
  destruct (qBlockResponseSZX hooks (u_q s)); [by apply R_blockwise|]. destruct (SetResponse_empty w _) as [w' err]. cbn [fst].
  apply R_same. by rewrite kept_SetResponse_error.
Qed.

Lemma R_handle s w m : R s (handle_message s w m).1.1.
Proof.
  unfold handle_udp. set (s0 := with_q s _). destruct (IsSeparateMessage m.2); [by apply R_same|].
  destruct (routeQBlockResponse hooks _ m.2) as [q [|]]; [by apply R_same|].
  destruct (startQBlockNotification hooks _ m.2) as [q' [|]]; [by apply R_same|]. set (s1 := with_q _ q').
  assert (R s s1) as K1 by (by apply R_same).
  set (rest := match handleBlockwise _ _ _ _ with Some h => _ | None => _ end).
  assert (R s rest.1.1) as Hrest.
  { apply (R_trans _ s1); [done|]. unfold rest. destruct (handleBlockwise _ _ _ _) as [h|] eqn:E; [by apply R_handleBlockwise|apply R_response]. }
  destruct (qDiscoveryRequestSZX m.2); [|done]. destruct (qBlockAllowed hooks (u_q s1)); [|done].
  assert (forall s2 w2, discoveryResponse discoveryETag s1 w z = Some (s2, w2) -> kept s2 = kept s) as Hd.
  { intros s2 w2. unfold discoveryResponse. destruct (_ ≫= _); [by intros [= <- <-]|].
    destruct (Msg_ResetOptionsTo _ _); [|done]. cbn [mbind option_bind]. destruct (Msg_SetContentFormat _ _); [|done]. cbn [mbind option_bind].
    destruct (EncodeQBlockOption _ _ _) as [o [e|]]; [by intros [= <- <-]|].
    destruct (SetOptionUint32 _ _ _); [|done]. cbn [mbind option_bind]. destruct (SetOptionUint32 _ _ _); [|done]. cbn [mbind option_bind].
    by intros [= <- <-]. }
  destruct (discoveryResponse _ _ _ _) as [[s2 w2]|]; [|done]. by apply R_same, (Hd s2 w2).
Qed.

Lemma R_addResponse s0 s mid m w (r := addResponseToCache growcap s mid m now) :
  kept s = kept s0 -> R s0 (let '(s, m, err) := r in (s, set_w w m, err)).1.1.
Proof.
  intros E. apply (R_trans _ s); [by apply R_same|]. subst r. unfold addResponseToCache. pose proof (R_store s (FormatInt mid) m) as H.
  by destruct (messageCache_Store growcap s (FormatInt mid) m now) as [[s1 m1] e1].
Qed.

Lemma R_processResponse s rt mid q w : R s (processResponse growcap s rt mid q w now).1.1.
Proof.
  unfold processResponse. cbn [GetMessageID].
  destruct (isPongOrResetResponse _); [by destruct (rt =? Confirmable); apply R_same|].
  destruct (sendJustAcknowledgeMessage _ _); [by apply R_addResponse|].
  destruct (isQNonResponse _ _ _); [by apply R_addResponse|].
  destruct (negb _); [by apply R_same|]. destruct (_ || _); [by apply R_addResponse|by apply R_same].
Qed.

Lemma R_handleReq s w req s' w' req' ran :
  handle_request now s w req = Some (s', w', req', ran) -> R s s'.
Proof.
  unfold handleReq. destruct (checkResponseCache growcap s req.2 w now) as [[w1 [ok [e|]]]|]; cbn [mbind option_bind]; [| |done].
  { intros [= <- <- <- <-]. apply R_same. exact (kept_close s). }
  destruct ok; [intros [= <- <- <- <-]; by apply R_same|].
  pose proof (R_handle s (set_w w1 (with_modified (w_message w1).2 false)) req) as Hh.
  destruct (handle_message s _ req) as [[s1 w2] req1]. cbn [fst] in Hh.
  match goal with |- context [processResponse growcap s1 ?a ?b ?c w2 now] =>
    pose proof (R_processResponse s1 a b c w2) as Hp; destruct (processResponse growcap s1 a b c w2 now) as [[s2 w3] err] end.
  cbn [fst] in Hp. intros [= <- <- <- <-]. apply (R_trans _ s1); [done|].
  apply (R_trans _ s2); [done|]. apply R_same. destruct err; [exact (kept_close s2)|done].
Qed.

Lemma R_with_handler {X} s req (h : UState -> W -> nat * M -> option (UState * W * (nat * M) * X)) s' r :
  (forall s w r s1 w1 r1 x, h s w r = Some (s1, w1, r1, x) -> R s s1) ->
  ProcessReceivedMessageWithHandler_udp growcap supply cfg hooks nextAcknowledgeTimeout copyFuel s req h now = Some (s', r) ->
  R s s'.
Proof.
  intros Hh. unfold ProcessReceivedMessageWithHandler_udp. cbn [UAcquire]. set (s0 := setControlInformation _ _).
  assert (kept s0 = kept s) as E0.
  { unfold s0, setControlInformation. destruct (controlMessage req.2) as [cm|]; [|done]. by destruct (Dst cm) as [[|b l]|]. }
  destruct (h s0 _ req) as [[[[s1 w1] req1] x]|] eqn:Eh; cbn [mbind option_bind]; [|done].
  apply Hh in Eh. assert (R s s1) as K1 by (apply (R_trans _ s0); [by apply R_same|done]).
  assert (forall sf w, kept (let s := URelease sf (w_message w) in if hijacked req1.2 then s else URelease s req1) = kept sf) as Hf.
  { intros sf w. by destruct (hijacked req1.2). }
  destruct (n_done (u_net s1)); [intros [= <- <-]; apply (R_trans _ s1); [done|]; apply R_same, Hf|].
  destruct (negb _); [intros [= <- <-]; apply (R_trans _ s1); [done|]; apply R_same, Hf|].
  set (sw := if has_q req.2 then _ else _). assert (kept sw.1 = kept s1) as E2.
  { unfold sw. destruct (has_q req.2); [|done]. destruct (MarshalWithEncoder growcap UdpCoder _) as [m [wire [e|]]]; [done|]. by destruct (_ <? _). }
  destruct sw as [s2 w2]. cbn [fst] in E2.
  destruct (write_async s2 _ None now) as [[[s3 m3] errW]|] eqn:Ew; cbn [mbind option_bind]; [|done].
  apply kept_write_async in Ew. destruct errW as [e|]; intros [= <- <-]; apply (R_trans _ s1); try done; apply R_same; (etransitivity; [exact (Hf _ _)|]).
  - rewrite <-E2, <-Ew. exact (kept_close s3).
  - congruence.
Qed.

Lemma R_process_message s req s' ran : process_message s req now = Some (s', ran) -> R s s'.
Proof.
  unfold ProcessReceivedMessage_udp.
  destruct (ProcessReceivedMessageWithHandler_udp _ _ _ _ _ _ s req _ now) as [[s1 r]|] eqn:E; cbn [mbind option_bind]; [|done].
  intros [= <- <-]. apply R_with_handler in E; [|intros; by eapply R_handleReq].
  apply (R_trans _ s1); [done|]. apply R_same. unfold deletePendingMessage.
  destruct (l_pending _ !! _); [|done]. by destruct (_ =? _).
Qed.

Lemma R_special s req s' b :
  handleSpecialMessages growcap supply cfg hooks nextAcknowledgeTimeout copyFuel s req now = Some (s', b) -> R s s'.
Proof.
  unfold handleSpecialMessages. set (s0 := with_q s _). destruct (Message_IsPing _ _).
  - destruct (ProcessReceivedMessageWithHandler_udp _ _ _ _ _ _ s0 req _ now) as [[s1 r]|] eqn:E; cbn [mbind option_bind]; [|done].
    intros [= <- <-]. apply (R_trans _ s0); [by apply R_same|]. apply R_with_handler in E; [done|]. intros s2 w2 r2 s3 w3 r3 x. unfold handlePong.
    destruct (sendPong_udp s2 w2 r2.2) as [s4 w4] eqn:Ep. intros [= <- <- <- <-]. apply R_same.
    revert Ep. unfold sendPong_udp. destruct (SetResponse_empty w2 Empty) as [w5 err]. cbn [GetMessageID].
    destruct (mType (msg r2.2) =? Confirmable); intros [= <- _]; cbn; by destruct err.
  - destruct (LoadAndDelete_mid _ _) as [t [a|]]; [|intros [= <- _]; by apply R_same]. cbn [UAcquire].
    intros [= <- _]. set (s1 := with_net _ _). apply (R_trans _ s1); [by apply R_same|].
    assert (forall h, R s1 (call_mid_handler s1 h req.2)) as Hcall.
    { intros [|ch qn|f]; cbn [call_mid_handler]; [by apply R_same|by apply R_same|]. destruct (_ || _); [apply R_pong|by apply R_same]. }
    destruct (handler <$> _) as [h|]; [|by apply R_same]. apply (R_trans _ (call_mid_handler s1 h req.2)); [apply Hcall|by apply R_same].
Qed.

Lemma R_receive s cm datagram b s' e : receive s cm datagram now b = Some (s', e) -> R s s'.
Proof.
  unfold Process. destruct (_ <? _); [intros [= <- _]; by apply R_same|]. cbn [UAcquire].
  destruct (UnmarshalWithDecoder _ _ _ _ _) as [[r [n [er|]]]|]; [intros [= <- _]; by apply R_same| |done].
  cbn [USequence]. destruct (isQMulticastRequest _ _); [intros [= <- _]; by apply R_same|].
  match goal with |- context [processUnknownCriticalOptions growcap supply hooks ?s0 ?rq] =>
    destruct (processUnknownCriticalOptions growcap supply hooks s0 rq) as [[s1 [[|] pe]]|] eqn:Eu; [| |done];
    apply kept_unknown in Eu; set (req := rq) in * end; [intros [= <- _]; by apply R_same|].
  intros Hp. apply (R_trans _ s1); [by apply R_same|]. revert Hp. unfold Process_checked.
  set (s2 := checkMyMessageID s1 req.2). assert (kept s2 = kept s1) as E2.
  { unfold s2, checkMyMessageID. destruct (_ =? Confirmable); [|done]. by destruct (_ <=? _). }
  destruct (requestMonitor req.2) as [[|] [em|]]; [intros [= <- _]; by apply R_same..|]. set (s3 := if has_q req.2 then _ else _).
  assert (kept (unotify s3) = kept s1) as E3 by (unfold s3; destruct (has_q req.2); exact E2).
  destruct (handleSpecialMessages _ _ _ _ _ _ _ req now) as [[s4 [|]]|] eqn:Esp; [| |done]; apply R_special in Esp;
    (assert (R s1 s4) as K4 by (apply (R_trans _ (unotify s3)); [by apply R_same|done])).
  - intros [= <- _]. done.
  - set (lr := if _ || _ then _ else _). assert (kept (with_layer s4 lr.1) = kept s4) as El.
    { unfold lr. destruct (_ || _); [|by destruct s4]. unfold kept. cbn. by rewrite kept_addPending. }
    destruct lr as [l [dup [ep|]]]; cbn [fst] in El; [intros [= <- _]|].
    + apply (R_trans _ s4); [done|]. by apply R_same.
    + destruct dup; [intros [= <- _]; apply (R_trans _ s4); [done|by apply R_same]|].
      destruct (_ && _); intros [= <- _]; (apply (R_trans _ s4); [done|]; apply R_same; [..]).
      * unfold deletePendingMessage. cbn. destruct (l_pending l !! _); [|done]. by destruct (_ =? _).
      * done.
Qed.

Lemma udp_step_R s s' : udp_step now s s' -> R s s'.
Proof.
  destruct 1 as [s cm datagram b s' e E|s req rest s' ran Hq E|s env ks|s m ch dl s' m' r E|s ch c cancelled s' e E|s f s' r E].
  - by apply R_receive in E.
  - apply R_process_message in E. apply (R_trans _ (with_received s rest)); [by apply R_same|done].
  - unfold CheckExpirations_udp. set (s0 := with_layer s _). apply (R_trans _ s0); [by apply R_same|].
    apply (R_trans _ (messageCache_CheckExpirations s0 now)); [apply R_sweep|by apply R_same].
  - apply R_same. by eapply kept_write_send.
  - apply R_same. by eapply kept_write_wait.
  - apply R_same. by eapply kept_ping.
Qed.
End Frame.
