(* ===== verification/UdpDedup.v ===== *)
(** * De-duplication of datagrams (src/udp/client/conn.go)

    RFC 7252, section 4.5: a recipient acknowledges every duplicate of a Confirmable
    message with the same acknowledgement and processes the request once.  Theorems about
    the response cache and the messages in flight of [UdpConn]. *)
From stdpp Require Import prelude list strings gmap pretty.
From Stdlib Require Import ZArith Lia.
From S2P Require Import Prelude Cast Codes OptionCodec Options OptionsCodec Message PoolMessage BlockCodec.
From S2P Require Import Crc64 SyncMap Client TcpConn TcpStream UdpReliability UdpConn UdpFrame.
#[local] Open Scope Z_scope.

Section Dedup.
Context {Ctx B Q : Type} `{!ReadSeeker B}.
Abbreviation M := (Msg Ctx ControlMessage B).
Abbreviation W := (Writer (Ctx := Ctx) (CM := ControlMessage) (B := B)).
Abbreviation UState := (UState (Ctx := Ctx) (B := B) (Q := Q)).
Abbreviation HandlerFunc := (UState -> W -> nat * M -> UState * W * (nat * M)).
Context (growcap : Z -> Z).
Context (supply : nat -> M).
Context (cfg : UConfig).
Context (requestMonitor : M -> bool * option error).
Context (hooks : QHooks (Ctx := Ctx) (B := B) (Q := Q)).
Context (observation_Handle : HandlerFunc).
Context (blockWise_Handle : option (Z -> HandlerFunc -> HandlerFunc)).
Context (nextAcknowledgeTimeout : nat -> Z).
Context (discoveryETag : list byte).
Context (copyFuel : nat).

Implicit Types (s : UState) (w : W) (req : nat * M).

Definition cacheof s : gmap string (list byte * Z) := l_cache (u_layer s).

Definition keeps_cache (h : HandlerFunc) : Prop := forall s w r, cacheof (h s w r).1.1 = cacheof s.

(** The components behind the connection do not touch its response cache. *)
Context (Hobs : keeps_cache observation_Handle).
Context (Hbw : forall bw, blockWise_Handle = Some bw -> forall szx next, keeps_cache next -> keeps_cache (bw szx next)).

Abbreviation write_async := (writeMessageAsync growcap supply cfg hooks nextAcknowledgeTimeout copyFuel).
Abbreviation prepare := (prepareWriteMessage supply cfg nextAcknowledgeTimeout copyFuel).
Abbreviation handle_message := (handle_udp cfg hooks observation_Handle blockWise_Handle discoveryETag).
Abbreviation handle_request := (handleReq growcap cfg hooks observation_Handle blockWise_Handle discoveryETag).
Abbreviation process_message := (ProcessReceivedMessage_udp growcap supply cfg hooks observation_Handle blockWise_Handle
  nextAcknowledgeTimeout discoveryETag copyFuel).
Abbreviation receive := (Process growcap supply cfg requestMonitor hooks nextAcknowledgeTimeout copyFuel).

Lemma kept_cache s s' : kept s' = kept s -> cacheof s' = cacheof s.
Proof. by intros [= E _]. Qed.

Lemma cache_handleResponse : keeps_cache (handleResponse_udp observation_Handle).
Proof.
  intros s w r. unfold handleResponse_udp, call_request_handler. destruct (_ && _).
  - destruct (Tokenless.Load _ _) as [tl [ch|]]; [|apply Hobs]. by destruct (r_channels _ !! ch).
  - destruct (r_tokens _ !! _) as [ch|]; [by destruct (r_channels _ !! ch)|]. by rewrite Hobs.
Qed.

Lemma cache_handle : keeps_cache handle_message.
Proof.
  intros s w m. apply (R_handle cfg hooks observation_Handle blockWise_Handle discoveryETag (fun s s' => cacheof s' = cacheof s)).
  - apply kept_cache.
  - intros s1 s2 s3 H1 H2. by rewrite H2.
  - apply cache_handleResponse.
  - intros bw Hb szx. apply (Hbw bw Hb). apply cache_handleResponse.
Qed.

(** ** Entries stay until they expire *)

(** Every entry that is valid at [now] is kept. *)
Definition keeps_entries (now : Z) s s' : Prop :=
  forall k d v, cacheof s !! k = Some (d, v) -> now <= v -> cacheof s' !! k = Some (d, v).

Lemma keeps_same now s s' : cacheof s' = cacheof s -> keeps_entries now s s'.
Proof. intros E k d v. by rewrite E. Qed.

Lemma keeps_trans now s1 s2 s3 : keeps_entries now s1 s2 -> keeps_entries now s2 s3 -> keeps_entries now s1 s3.
Proof. intros H1 H2 k d v Hk Hv. apply H2; [|done]. by apply H1. Qed.

Lemma expired_false v now : now <= v -> negb (v =? 0) && (v <? now) = false.
Proof. intros Hv. destruct (Z.ltb_spec v now); [lia|]. by rewrite andb_false_r. Qed.

Lemma keeps_store s key m now : keeps_entries now s (messageCache_Store growcap s key m now).1.1.
Proof.
  unfold messageCache_Store. destruct (MarshalWithEncoder growcap UdpCoder m) as [m' [[data|] [e|]]];
    [by apply keeps_same| |by apply keeps_same|by apply keeps_same].
  intros k d v Hk Hv. cbn. unfold cacheof in *. destruct (decide (k = key)) as [->|Hne]; [|by rewrite lookup_insert_ne].
  by rewrite lookup_insert_eq, Hk, expired_false.
Qed.

Lemma keeps_sweep now s : keeps_entries now s (messageCache_CheckExpirations s now).
Proof.
  intros k d v Hk Hv. unfold messageCache_CheckExpirations, cacheof. cbn.
  apply map_lookup_filter_Some. split; [done|]. cbn. by apply expired_false.
Qed.

Abbreviation step := (udp_step growcap supply cfg requestMonitor hooks observation_Handle blockWise_Handle nextAcknowledgeTimeout discoveryETag copyFuel).

Lemma udp_step_keeps now s s' : step now s s' -> keeps_entries now s s'.
Proof.
  apply udp_step_R.
  - intros s1 s2 E. by apply keeps_same, kept_cache.
  - apply keeps_trans.
  - intros s1 key m. apply keeps_store.
  - apply keeps_sweep.
  - intros s1 w r. apply keeps_same, cache_handleResponse.
  - intros bw Hb szx s1 w r. apply keeps_same, (Hbw bw Hb), cache_handleResponse.
  - intros s1 f. by apply keeps_same.
Qed.

(** ** Sending a response *)

Context `{!ReadSeekerLaws B}.
Context (Hfresh : forall n, fresh (supply n)).
Context (Hremember : forall q d m, (rememberQNotification hooks q d m).2 = None).

Lemma upsert_wire s (m : M) :
  msg (upsertControlInformation s m) = msg m /\ body (upsertControlInformation s m) = body m.
Proof.
  unfold upsertControlInformation, UpsertControlMessage. destruct (l_localAddr _) as [a|]; [by destruct (controlMessage m)|].
  destruct (_ <? 1); [done|]. by destruct (controlMessage m).
Qed.

Lemma wire_same (m m' : M) : msg m' = msg m -> body m' = body m -> wire m' = wire m.
Proof. intros E1 E2. unfold wire, body_content. by rewrite E1, E2. Qed.

Lemma body_ok_same (m m' : M) : body m' = body m -> body_ok m -> body_ok m'.
Proof. unfold body_ok. by intros ->. Qed.

Lemma session_sends s (m : M) :
  body_ok m -> wf_udp (wire m) -> n_script (u_net s) = [] ->
  exists s' m', USession_WriteMessage growcap s m = (s', m', None) /\
    n_sent (u_net s') = n_sent (u_net s) ++ [Udp.bytes (wire m)].
Proof.
  intros Hok Hwf Hsc. unfold USession_WriteMessage.
  pose proof (MarshalWithEncoder_spec growcap UdpCoder m Hok) as Hm. destruct (Hm Hwf) as (m' & -> & _). rewrite Hsc. by eexists _, _.
Qed.

(** An acknowledgement goes out at once. *)
Lemma write_async_sends s (m : M) now :
  mType (msg m) = Acknowledgement -> 0 <= mMessageID (msg m) <= 65535 ->
  body_ok m -> wf_udp (wire m) -> n_script (u_net s) = [] ->
  exists s' m', write_async s m None now = Some (s', m', None) /\
    n_sent (u_net s') = n_sent (u_net s) ++ [Udp.bytes (wire m)].
Proof.
  intros Ht Hmid Hok Hwf Hsc. unfold writeMessageAsync, with_ids. cbn [GetMessageID].
  assert (UpsertType m Confirmable = m) as -> by (unfold UpsertType; by rewrite Ht).
  match goal with |- context [UpsertMessageID m ?x] => assert (UpsertMessageID m x = m) as -> end.
  { unfold UpsertMessageID, ValidateMID. bool_cases; done || lia. }
  match goal with |- context [rememberQNotification hooks ?q ?d m] => pose proof (Hremember q d m) as Hq;
    destruct (rememberQNotification hooks q d m) as [q' e] end. cbn [snd] in Hq. subst e.
  unfold prepareWriteMessage. rewrite Ht. change (negb (Acknowledgement =? Confirmable)) with true. cbv iota. cbn [mbind option_bind].
  match goal with |- context [USession_WriteMessage growcap ?s0 m] =>
    destruct (session_sends s0 m Hok Hwf Hsc) as (s' & m' & -> & Hs) end.
  by eexists _, _.
Qed.

(** What [ProcessReceivedMessageWithHandler] hands to the handler. *)
Definition start_handling s req : UState * W :=
  let '(s, (id, resp)) := UAcquire supply s in
  (setControlInformation s (controlMessage req.2), NewWriter (id, SetToken resp (Msg_Token req.2)) (mOptions (msg req.2))).

(** The response that [handleReq] left in the writer is sent. *)
Lemma process_sends s req now s1 w1 req1 ran :
  has_q req.2 = false ->
  handle_request now (start_handling s req).1 (start_handling s req).2 req = Some (s1, w1, req1, ran) ->
  n_done (u_net s1) = false -> n_script (u_net s1) = [] ->
  let m := (w_message w1).2 in
  isModified m = true -> mType (msg m) = Acknowledgement -> 0 <= mMessageID (msg m) <= 65535 ->
  body_ok m -> wf_udp (wire m) ->
  exists s', process_message s req now = Some (s', ran) /\
    n_sent (u_net s') = n_sent (u_net s1) ++ [Udp.bytes (wire m)] /\ cacheof s' = cacheof s1.
Proof.
  intros Hq Hh Hd Hsc m Hmod Ht Hmid Hok Hwf. unfold ProcessReceivedMessage_udp, ProcessReceivedMessageWithHandler_udp.
  unfold start_handling in Hh. cbn [UAcquire] in *. cbn [fst snd] in Hh. rewrite Hh. cbn [mbind option_bind].
  rewrite Hd, Hq. fold m. rewrite Hmod. cbn [negb]. destruct (upsert_wire s1 m) as [Um Ub].
  destruct (write_async_sends s1 (upsertControlInformation s1 m) now) as (s2 & m2 & Ew & Hs2);
    [by rewrite Um|by rewrite Um|by apply (body_ok_same m)|by rewrite (wire_same m)|done|].
  rewrite Ew. cbn [mbind option_bind]. pose proof (kept_cache _ _ (kept_write_async _ _ _ _ _ _ _ _ _ _ _ _ _ Ew)) as Hc. eexists. split; [done|].
  rewrite (wire_same m _ Um Ub) in Hs2. unfold deletePendingMessage, cacheof in *. cbn.
  destruct (hijacked req1.2); cbn; (destruct (l_pending (u_layer s2) !! _) as [p|]; [destruct (_ =? _)|]); by split.
Qed.

(** ** Answering from the cache *)

(** The acknowledgement that carries the response [m] to the message ID [mid]. *)
Definition piggybacked (m : M) (mid : Z) : Message :=
  let x := msg m in
  mkMessage (mToken x) (mOptions x) (mOptionsCap x) (mCode x) (nil_if_empty (body_content m)) mid Acknowledgement.

Definition no_valid_response s (mid now : Z) : Prop :=
  forall d v, cacheof s !! FormatInt mid = Some (d, v) -> v <> 0 /\ v < now.

Lemma load_misses s mid (m : M) now :
  no_valid_response s mid now -> getResponseFromCache growcap s mid m now = Some (m, (false, None)).
Proof.
  intros Hno. unfold getResponseFromCache, messageCache_Load. fold (cacheof s).
  destruct (cacheof s !! FormatInt mid) as [[d v]|] eqn:E; [|done]. destruct (Hno d v E) as [Hv Hlt].
  destruct (Z.eqb_spec v 0); [done|]. by destruct (Z.ltb_spec v now); [|lia].
Qed.

Lemma set_w_same w : set_w w (w_message w).2 = w.
Proof. by destruct w as [n [i m]]. Qed.

Lemma store_caches s mid (m : M) now :
  no_valid_response s mid now -> body_ok m -> wf_udp (wire m) ->
  exists s' m', addResponseToCache growcap s mid m now = (s', m', None) /\ u_net s' = u_net s /\
    cacheof s' !! FormatInt mid = Some (Udp.bytes (wire m), now + ExchangeLifetime) /\
    msg m' = msg m /\ wire m' = wire m /\ body_ok m' /\ isModified m' = isModified m.
Proof.
  intros Hno Hok Hwf. unfold addResponseToCache, messageCache_Store.
  pose proof (MarshalWithEncoder_spec growcap UdpCoder m Hok) as Hm. destruct (Hm Hwf) as (m' & EM & E1 & E2 & E3).
  assert (isModified m' = isModified m) as E4.
  { revert EM. unfold MarshalWithEncoder, toMessage. destruct (ReadBody_spec m Hok) as (b' & -> & _ & _).
    destruct (c_Size UdpCoder _) as [sz [e|]]; [done|]. destruct (c_Encode UdpCoder _ _) as [buf [n [e|]]]; [done|].
    intros [= <- _]. done. }
  rewrite EM. eexists _, m'. split; [done|]. split; [done|]. split_and!; try done.
  - unfold cacheof. cbn. rewrite lookup_insert_eq. fold (cacheof s).
    destruct (cacheof s !! FormatInt mid) as [[d v]|] eqn:E; [|done]. destruct (Hno d v E) as [Hv Hlt].
    destruct (Z.eqb_spec v 0); [done|]. by destruct (Z.ltb_spec v now); [|lia].
  - unfold wire. by rewrite E1, E2.
Qed.

(** The first time: the handler runs, and its response is put into the cache. *)
Lemma handleReq_first s w req now sH wH reqH :
  mType (msg req.2) = Confirmable -> 0 <= mMessageID (msg req.2) <= 65535 ->
  no_valid_response s (mMessageID (msg req.2)) now ->
  handle_message s (set_w w (with_modified (w_message w).2 false)) req = (sH, wH, reqH) ->
  let mH := (w_message wH).2 in
  let mid := mMessageID (msg req.2) in
  isModified mH = true -> mType (msg mH) <> Reset -> mCode (msg mH) <> Empty ->
  body_ok mH -> wf_udp (piggybacked mH mid) -> has_q req.2 = false ->
  exists s1 w1, handle_request now s w req = Some (s1, w1, reqH, true) /\
    n_sent (u_net s1) = n_sent (u_net sH) /\ n_script (u_net s1) = n_script (u_net sH) /\ n_done (u_net s1) = n_done (u_net sH) /\
    cacheof s1 !! FormatInt mid = Some (Udp.bytes (piggybacked mH mid), now + ExchangeLifetime) /\
    (let m := (w_message w1).2 in isModified m = true /\ mType (msg m) = Acknowledgement /\ mMessageID (msg m) = mid /\
       body_ok m /\ wire m = piggybacked mH mid).
Proof.
  intros Ht Hmid Hno Hh mH mid Hmod Hreset Hempty Hok Hwf Hq. unfold handleReq, checkResponseCache. rewrite Ht.
  change ((Confirmable =? Confirmable) || (Confirmable =? NonConfirmable)) with true. cbv iota.
  fold mid in Hno. fold mid. rewrite (load_misses s mid _ now Hno). cbn [mbind option_bind]. rewrite set_w_same, Hh.
  unfold processResponse. fold mH. unfold isPongOrResetResponse, sendJustAcknowledgeMessage, isQNonResponse. rewrite Hmod.
  apply Z.eqb_neq in Hreset, Hempty. rewrite Hreset, Hempty.
  change (Confirmable =? Confirmable) with true. change (Confirmable =? NonConfirmable) with false. cbn [andb orb negb GetMessageID].
  set (sI := with_layer sH _). set (m1 := SetMessageID (SetType _ Acknowledgement) mid).
  assert (cacheof sH = cacheof s) as EH.
  { pose proof (cache_handle s (set_w w (with_modified (w_message w).2 false)) req) as Hc. by rewrite Hh in Hc. }
  destruct (store_caches sI mid m1 now) as (s2 & m2 & -> & En & Hc & E1 & E2 & E3 & E4).
  { intros d v. change (cacheof sI) with (cacheof sH). rewrite EH. apply Hno. }
  { exact Hok. }
  { exact Hwf. }
  eexists _, _. split; [done|]. cbn. rewrite En. split_and!; try done. all: by rewrite E1.
Qed.

(** Decoding a cached response into the writer gives it back. *)
Lemma Unmarshal_cached (r : M) (m : Message) :
  mOptions (msg r) = [] -> mPayload (msg r) = None -> 0 < mOptionsCap (msg r) -> wf_udp m -> zlen (Udp.bytes m) < 4294967296 ->
  exists r', UnmarshalWithDecoder growcap (S (length (Udp.bytes m))) UdpCoder r (Udp.bytes m) = Some (r', (zlen (Udp.bytes m), None)) /\
    mToken (msg r') = nil_if_empty (token m) /\ mOptions (msg r') = mOptions m /\ mCode (msg r') = mCode m /\
    body_content r' = payload m /\ body_ok r' /\ zlen (mOptions m) <= mOptionsCap (msg r').
Proof.
  intros Ho Hp Hcap Hwf Hl. unfold UnmarshalWithDecoder. set (bu := Slice_to _ _).
  assert (s_data bu = Udp.bytes m) as Hbu by apply unmarshal_buffer.
  assert (zlen (mOptions m) <= zlen (Udp.bytes m)) as Hcount.
  { pose proof (options_bytes_count 0 (mOptions m)). unfold Udp.bytes. rewrite !zlen_app.
    pose proof (zlen_nonneg (Udp.header m)). pose proof (zlen_nonneg (token m)). pose proof (zlen_nonneg (payload_bytes (payload m))). lia. }
  destruct (decode_bytes UdpCoder (S (length (Udp.bytes m))) (with_buffers (with_body r None) bu (bufferMarshal (with_body r None))) m)
    as (m0 & Hc0 & Hd); [done|done|done|done|done|done|cbn [msg with_buffers with_body]; unfold zlen in *; lia|].
  rewrite Hd. eexists. split; [done|].
  destruct (c_decode_same (C := UdpCoder) m m0) as (Et & Eopt & Ecode & Epay). set (r0 := with_msg _ _).
  assert (payload (msg r0) = payload m) as Hpl.
  { unfold r0, payload. cbn [msg with_msg]. rewrite Epay. by rewrite default_nil_if_empty. }
  rewrite Hpl, body_content_new by done.
  destruct (Z.ltb_spec 0 (zlen (payload m))) as [Hpos|Hz]; cbn [msg with_body with_msg r0]; split_and!; try done.
  unfold body_ok. cbn. pose proof (zlen_nonneg (payload m)). split; cbn; lia.
Qed.

(** What the encoding of a message depends on. *)
Lemma bytes_alike (a b : Message) :
  token a = token b -> mOptions a = mOptions b -> mCode a = mCode b -> payload a = payload b ->
  mMessageID a = mMessageID b -> mType a = mType b ->
  Udp.bytes a = Udp.bytes b /\ (wf_udp a -> zlen (mOptions a) <= mOptionsCap b -> wf_udp b).
Proof.
  intros E1 E2 E3 E4 E5 E6. split.
  - unfold Udp.bytes, Udp.header, Udp.first_byte. by rewrite E1, E2, E3, E4, E5, E6.
  - unfold wf_udp, wf_message. rewrite E1, E2, E3, E5, E6. tauto.
Qed.

(** From then on: the handler does not run, the cached response is in the writer. *)
Lemma handleReq_again s w req now (p : Message) v :
  mType (msg req.2) = Confirmable -> mType p = Acknowledgement -> mMessageID p = mMessageID (msg req.2) ->
  cacheof s !! FormatInt (mMessageID (msg req.2)) = Some (Udp.bytes p, v) -> now <= v ->
  wf_udp p -> zlen (Udp.bytes p) < 4294967296 ->
  let r := (w_message w).2 in
  mOptions (msg r) = [] -> mPayload (msg r) = None -> 0 < mOptionsCap (msg r) ->
  exists w1, handle_request now s w req = Some (unotify s, w1, req, false) /\
    (let m := (w_message w1).2 in isModified m = true /\ mType (msg m) = Acknowledgement /\ mMessageID (msg m) = mMessageID p /\
       body_ok m /\ wf_udp (wire m) /\ Udp.bytes (wire m) = Udp.bytes p).
Proof.
  intros Ht Htp Hmp Hc Hv Hwf Hl r Ho Hp Hcap. unfold handleReq, checkResponseCache, getResponseFromCache, messageCache_Load. rewrite Ht.
  change ((Confirmable =? Confirmable) || (Confirmable =? NonConfirmable)) with true. cbv iota.
  fold (cacheof s). rewrite Hc, (expired_false v now Hv).
  assert (0 <? zlen (Udp.bytes p) = true) as ->.
  { apply Z.ltb_lt. unfold Udp.bytes, Udp.header. cbn [app]. rewrite zlen_cons.
    match goal with |- context [zlen ?x] => pose proof (zlen_nonneg x) end. lia. }
  fold r. destruct (Unmarshal_cached r p Ho Hp Hcap Hwf Hl) as (r' & -> & E1 & E2 & E3 & E4 & E5 & E6). cbn [mbind option_bind].
  change (Confirmable =? Confirmable) with true. cbv iota. eexists. split; [done|].
  set (m := (w_message _).2). assert (body_ok m) as Hok by exact E5.
  destruct (bytes_alike p (wire m)) as [Eb Ew]; [| | | | |by rewrite Htp|].
  - unfold token. cbn. by rewrite E1, default_nil_if_empty.
  - cbn. by rewrite E2.
  - cbn. by rewrite E3.
  - unfold payload at 2. cbn [wire mPayload]. rewrite default_nil_if_empty. symmetry. exact E4.
  - cbn. done.
  - split_and!; try done. apply Ew; [done|cbn; lia].
Qed.

(** Events no later than [t]. *)
Definition until (t : Z) (a b : UState) : Prop := exists now, now <= t /\ step now a b.

Lemma until_keeps t s s' k d v :
  rtc (until t) s s' -> t <= v -> cacheof s !! k = Some (d, v) -> cacheof s' !! k = Some (d, v).
Proof.
  induction 1 as [s|s1 s2 s3 (now & Hnow & Hs) _ IH]; intros Hv Hk; [done|]. apply IH; [done|].
  apply (udp_step_keeps _ _ _ Hs k d v Hk). lia.
Qed.

Lemma start_cache s req : cacheof (start_handling s req).1 = cacheof s /\ n_sent (u_net (start_handling s req).1) = n_sent (u_net s) /\
  n_done (u_net (start_handling s req).1) = n_done (u_net s) /\ n_script (u_net (start_handling s req).1) = n_script (u_net s).
Proof.
  unfold start_handling. cbn [UAcquire fst]. unfold setControlInformation.
  destruct (controlMessage req.2) as [cm|]; [|done]. by destruct (Dst cm) as [[|b l]|].
Qed.

Lemma start_fresh s req : let r := (w_message (start_handling s req).2).2 in
  mOptions (msg r) = [] /\ mPayload (msg r) = None /\ 0 < mOptionsCap (msg r).
Proof.
  unfold start_handling. cbn [UAcquire]. destruct (Hfresh (n_acquired (u_net s))) as (H1 & H2 & _ & H3 & _). cbn. by split_and!.
Qed.

(** A Confirmable request with the message ID of a cached acknowledgement. *)
Lemma duplicate_answered s req now (p : Message) v :
  mType (msg req.2) = Confirmable -> has_q req.2 = false -> mType p = Acknowledgement -> mMessageID p = mMessageID (msg req.2) ->
  cacheof s !! FormatInt (mMessageID (msg req.2)) = Some (Udp.bytes p, v) -> now <= v ->
  wf_udp p -> zlen (Udp.bytes p) < 4294967296 -> n_done (u_net s) = false -> n_script (u_net s) = [] ->
  exists s', process_message s req now = Some (s', false) /\ n_sent (u_net s') = n_sent (u_net s) ++ [Udp.bytes p].
Proof.
  intros Ht Hq Htp Hmp Hc Hv Hwf Hl Hd Hsc. destruct (start_cache s req) as (C1 & C2 & C3 & C4).
  destruct (start_fresh s req) as (F1 & F2 & F3).
  destruct (handleReq_again (start_handling s req).1 (start_handling s req).2 req now p v)
    as (w1 & Eh & Em & Et & Eid & Eok & Ewf & Eb); try done; [by rewrite C1|].
  destruct (process_sends s req now _ _ _ _ Hq Eh) as (s' & Ep & Es & _); try done; [exact (eq_trans C3 Hd)|exact (eq_trans C4 Hsc)| | ].
  - rewrite Eid. by destruct Hwf as (_ & Hm & _).
  - exists s'. split; [done|]. rewrite Es, Eb. f_equal. exact C2.
Qed.

(** C14: a Confirmable request is handled once and a retransmission of it is answered with
    the same datagram.  When no valid response is cached for the message ID and the
    handler fills in a response (with a non-empty code, not a Reset, that can be
    encoded), the response is sent as a piggybacked acknowledgement; whatever the
    connection does afterwards - receive and handle other datagrams, run its
    expirations, send, ping - a Confirmable message with that message ID that is
    handled before the end of the exchange lifetime is answered by sending the very
    same bytes again, and the handler does not run. *)
Theorem retransmission_answered_alike s req t1 sH wH reqH
    (Ht : mType (msg req.2) = Confirmable) (Hmid : 0 <= mMessageID (msg req.2) <= 65535) (Hq : has_q req.2 = false)
    (Hno : no_valid_response s (mMessageID (msg req.2)) t1)
    (Hh : let sw := start_handling s req in
          handle_message sw.1 (set_w sw.2 (with_modified (w_message sw.2).2 false)) req = (sH, wH, reqH))
    (Hnet : n_done (u_net sH) = false /\ n_script (u_net sH) = [])
    (Hresp : let m := (w_message wH).2 in isModified m = true /\ mType (msg m) <> Reset /\ mCode (msg m) <> Empty /\ body_ok m)
    (Hwf : wf_udp (piggybacked (w_message wH).2 (mMessageID (msg req.2))))
    (Hl : zlen (Udp.bytes (piggybacked (w_message wH).2 (mMessageID (msg req.2)))) < 4294967296) :
  let d := Udp.bytes (piggybacked (w_message wH).2 (mMessageID (msg req.2))) in
  exists s1, process_message s req t1 = Some (s1, true) /\ n_sent (u_net s1) = n_sent (u_net sH) ++ [d] /\
    forall s2 req2 t2, rtc (until (t1 + ExchangeLifetime)) s1 s2 -> t2 <= t1 + ExchangeLifetime ->
      mType (msg req2.2) = Confirmable -> mMessageID (msg req2.2) = mMessageID (msg req.2) -> has_q req2.2 = false ->
      n_done (u_net s2) = false -> n_script (u_net s2) = [] ->
      exists s3, process_message s2 req2 t2 = Some (s3, false) /\ n_sent (u_net s3) = n_sent (u_net s2) ++ [d].
Proof.
  intros d. destruct Hnet as [Hd Hsc], Hresp as (R1 & R2 & R3 & R4). destruct (start_cache s req) as (C1 & _).
  destruct (handleReq_first (start_handling s req).1 (start_handling s req).2 req t1 sH wH reqH)
    as (s1 & w1 & Eh & En & Es & Ed & Ec & M1 & M2 & M3 & M4 & M5); try done; [by unfold no_valid_response; rewrite C1|].
  destruct (process_sends s req t1 s1 w1 reqH true Hq Eh) as (s' & Ep & Esent & Ecache); try done; [by rewrite Ed|by rewrite Es| | |].
  - by rewrite M3.
  - by rewrite M5.
  - exists s'. split; [done|]. split; [by rewrite Esent, M5, En|]. rewrite <- Ecache in Ec.
    intros s2 req2 t2 Hst Ht2 Hc2 Hm2 Hq2 Hd2 Hs2.
    apply (duplicate_answered s2 req2 t2 _ (t1 + ExchangeLifetime)); try done.
    rewrite Hm2. by apply (until_keeps _ _ _ _ _ _ Hst).
Qed.
End Dedup.

(** ** A connection that answers 2.05 with a payload *)

Module Sample.
Abbreviation SM := (Msg unit ControlMessage Reader).
Abbreviation SState := (UState (Ctx := unit) (B := Reader) (Q := unit)).
Abbreviation SW := (Writer (Ctx := unit) (CM := ControlMessage) (B := Reader)).
Definition supply (n : nat) : SM := NewMessage None.
Definition cfg : UConfig := mkUConfig 65535 64 1 4 6 1024.
Definition hooks : QHooks (Ctx := unit) (B := Reader) (Q := unit) :=
  mkQHooks (fun _ => false) (fun q _ => q) (fun q _ => (q, false)) (fun q _ => (q, false)) (fun q _ _ => (q, None))
    (fun q _ => q) (fun q => q) (fun _ => Ok 6).
Definition answer : SState -> SW -> nat * SM -> SState * SW * (nat * SM) := fun s w r =>
  let m := SetCode (w_message w).2 Content in
  (s, set_w w (with_modified (with_body m (Some (inl (NewReader [104; 105])))) true), r).
Definition state : SState :=
  mkUState (mkNet [] [] false None [] 0 0 [])
    (mkLayer 0 0 0 ∅ ∅ NewMidTable 0 None 0)
    (mkReqs ∅ Tokenless.zero 0 ∅ []) [] ().
Definition request (mid : Z) : nat * SM :=
  (1%nat, with_msg (NewMessage None) (mkMessage (Some [7; 8]) [mkOption URIPath [97]] 16 GET None mid Confirmable)).
Definition process := ProcessReceivedMessage_udp (fun n => n) supply cfg hooks answer None (fun _ => 2) [] 10.

Example process_twice :
  (fun s => n_sent (u_net s)) <$>
    ('(s, _) ← process state (request 5) 100; '(s, _) ← process s (request 5) 200; '(s, _) ← process s (request 6) 300; Some s) =
  Some [[98; 69; 0; 5; 7; 8; 255; 104; 105]; [98; 69; 0; 5; 7; 8; 255; 104; 105]; [98; 69; 0; 6; 7; 8; 255; 104; 105]].
Proof. vm_compute. reflexivity. Qed.

Lemma answer_keeps : keeps_cache answer.
Proof. intros s w r. reflexivity. Qed.

(** What the handler leaves behind for the request 5. *)
Definition handled : SState * SW * (nat * SM) :=
  let sw := start_handling supply state (request 5) in
  handle_udp cfg hooks answer None [] sw.1 (set_w sw.2 (with_modified (w_message sw.2).2 false)) (request 5).
Definition reply : Message := mkMessage (Some [7; 8]) [] 16 Content (Some [104; 105]) 5 Acknowledgement.

Lemma reply_wf : wf_udp reply.
Proof. repeat constructor; cbn; try (cbv; intuition congruence). Qed.

Lemma retransmission_answered_alike_witness :
  exists s1, process state (request 5) 100 = Some (s1, true) /\ n_sent (u_net s1) = [Udp.bytes reply] /\
    exists s3, process s1 (request 5) 200 = Some (s3, false) /\ n_sent (u_net s3) = [Udp.bytes reply; Udp.bytes reply].
Proof.
  destruct (retransmission_answered_alike (fun n => n) supply cfg (fun _ => (false, None)) hooks answer None (fun _ => 2) [] 10
    answer_keeps (fun _ H => match H with end) (fun _ => NewMessage_fresh None) (fun _ _ _ => eq_refl)
    state (request 5) 100 handled.1.1 handled.1.2 handled.2) as (s1 & H1 & H2 & H3).
  - reflexivity.
  - cbv. split; discriminate.
  - reflexivity.
  - intros d v H. vm_compute in H. discriminate H.
  - vm_compute. reflexivity.
  - split; vm_compute; reflexivity.
  - vm_compute. split_and!; try reflexivity; discriminate.
  - exact reply_wf.
  - vm_compute. reflexivity.
  - assert (process state (request 5) 100 = Some (s1, true)) as H1' by exact H1. clear H1.
    exists s1. split; [exact H1'|]. vm_compute in H1'. injection H1' as H1'. subst s1. split; [exact H2|].
    destruct (H3 _ (request 5) 200 (rtc_refl _ _)) as (s3 & H4 & H5); [cbv; discriminate|reflexivity..|].
    exists s3. split; [exact H4|]. rewrite H5. vm_compute. reflexivity.
Defined.

(** The response to a NON request is sent as a Confirmable message (type 0, message ID
    1 in the datagram below), but nothing remembers it once it is written: the table of the
    messages that wait for an acknowledgement is empty again, and no check, however late,
    transmits it a second time. *)
Theorem confirmable_response_untracked :
  let non := (1%nat, with_msg (NewMessage None) (mkMessage (Some [7; 8]) [] 16 GET None 9 NonConfirmable) : SM) in
  exists s1, process state non 100 = Some (s1, true) /\
    n_sent (u_net s1) = [[66; 69; 0; 1; 7; 8; 255; 104; 105]] /\ mids (l_mids (u_layer s1)) = ∅ /\
    forall now env, let t := l_mids (u_layer (CheckExpirations_udp supply cfg 10 s1 now env [])) in
      resent t = [] /\ mids t = ∅.
Proof. eexists. split; [vm_compute; reflexivity|]. split; [reflexivity|]. split; [reflexivity|]. intros now env. vm_compute. by split. Qed.
End Sample.
