(* ===== verification/UdpRequests.v ===== *)
(** * Requests and responses of a datagram connection (src/udp/client/conn.go)

    [doInternal] in four steps, between which everything else happens on the connection:
    the registration of the request, the write of its datagram (which may wait for its
    turn), the wait for the acknowledgement, and the wait for the response.  A response may
    come before the acknowledgement, or be the acknowledgement.  [req_step] is one such
    step of some request, or an event of the connection ([udp_step] of [UdpFrame]). *)
From stdpp Require Import prelude list strings gmap.
From Stdlib Require Import ZArith Lia.
From S2P Require Import Prelude Cast Codes OptionCodec Options OptionsCodec Message PoolMessage BlockCodec.
From S2P Require Import Crc64 SyncMap Client TcpConn TcpStream TcpRequests UdpReliability UdpConn UdpFrame UdpDedup.
#[local] Open Scope Z_scope.

Section UdpRequests.
Context {Ctx B Q : Type} `{!ReadSeeker B}.
Abbreviation M := (Msg Ctx ControlMessage B).
Abbreviation W := (Writer (Ctx := Ctx) (CM := ControlMessage) (B := B)).
Abbreviation UState := (UState (Ctx := Ctx) (B := B) (Q := Q)).
Abbreviation Reqs := (Reqs (Ctx := Ctx) (B := B)).
Abbreviation HandlerFunc := (UState -> W -> nat * M -> UState * W * (nat * M)).
Context (growcap : Z -> Z).
Context (supply : nat -> M).
Context (cfg : UConfig).
Context (requestMonitor : M -> bool * option error).
Context (hooks : QHooks (Ctx := Ctx) (B := B) (Q := Q)).
Context (observation_Handle : HandlerFunc).
Context (blockWise_Handle : option (Z -> HandlerFunc -> HandlerFunc)).
Context (nextAcknowledgeTimeout : nat -> Z).
Context (discoveryETag : list byte).
Context (copyFuel : nat).

Implicit Types (s : UState) (q : Reqs).

Abbreviation write_send := (writeMessage_send growcap supply cfg hooks nextAcknowledgeTimeout copyFuel).
Abbreviation event := (udp_step growcap supply cfg requestMonitor hooks observation_Handle blockWise_Handle nextAcknowledgeTimeout discoveryETag copyFuel).

(** ** [doInternal] *)

Definition set_handlers q (tokens : gmap Z nat) (tl : Tokenless.TokenlessHandler nat) (next : nat) : Reqs :=
  mkReqs tokens tl next (r_channels q) (r_pongs q).

(** [RegisterRequestHandler] on the tables of the connection: a handler is its channel. *)
Definition RegisterRequestHandler_udp s (token : list byte) : UState * (nat * Cleanup + error) :=
  let q := u_reqs s in
  let ch := r_nextChannel q in
  if zlen token =? 0 then
    let '(tl, r) := Tokenless.Register (r_tokenless q) ch in
    match r with
    | inl reg => (with_reqs s (set_handlers q (r_tokens q) tl (S ch)), inl (ch, CleanupTokenless reg))
    | inr Tokenless.ErrTokenlessRequestsBlocked => (s, inr (ErrOther "tokenless requests blocked"))
    | inr Tokenless.ErrKeyAlreadyExists => (s, inr ErrKeyAlreadyExists)
    end
  else
    let '(tokens, (_, loaded)) := LoadOrStore ch (r_tokens q) (Token_Hash token) ch in
    if (loaded : bool) then (s, inr ErrKeyAlreadyExists)
    else (with_reqs s (set_handlers q tokens (r_tokenless q) (S ch)), inl (ch, CleanupToken (Token_Hash token))).

(** The flag of the result says that [ErrTokenlessRequestsBlocked] was joined. *)
Definition run_cleanup_udp s (c : Cleanup) (requestErr : option write_error) : UState * (option error * bool) :=
  let q := u_reqs s in
  let err := write_error_of <$> requestErr in
  match c with
  | CleanupTokenless reg =>
      let block := match requestErr with None | Some (RequestNotSent _) => false | Some (WriteFailed _) => true end in
      let '(tl, _) := Tokenless.cleanup (r_tokenless q) reg (negb block) in
      (with_reqs s (set_handlers q (r_tokens q) tl (r_nextChannel q)), (err, block))
  | CleanupToken key => (with_reqs s (set_handlers q (delete key (r_tokens q)) (r_tokenless q) (r_nextChannel q)), (err, false))
  end.

(** What a step of [doInternal] leads to. *)
Inductive progress : Type :=
| Unacknowledged (c : closeFns)
| Written
| Returned (resp : option (nat * M)) (err : option error * bool).

Definition fails s (c : Cleanup) (e : write_error) : UState * progress :=
  let '(s, r) := run_cleanup_udp s c (Some e) in (s, Returned None r).

(** The write.  [None]: it waits for an outstanding interaction to end. *)
Definition doInternal_write s (c : Cleanup) (req : M) (ack : nat) (dl : option Z) (now : Z) : option (UState * progress) :=
  '(s, _, r) ← write_send s req ack dl now;
  match r with
  | inl cf => Some (s, Unacknowledged cf)
  | inr None => Some (s, Written)
  | inr (Some e) => Some (fails s c e)
  end.

(** The context of the request is done while the write waits: the clone is released and
    nothing was sent. *)
Definition doInternal_abandon s (c : Cleanup) (req : M) : option (UState * progress) :=
  let '(s, req) := with_ids s req in
  let req := upsertControlInformation s req in
  if mType (msg req) =? Confirmable then
    let '(qs, err) := rememberQNotification hooks (u_q s) (n_done (u_net s)) req in
    match err with
    | Some _ => None
    | None =>
        let '(s, (id, m)) := UAcquire supply (with_q s qs) in
        '(req, m, err) ← Msg_Clone copyFuel req m;
        match err, needs_interaction req, acquireOutstandingInteraction cfg (u_layer s) with
        | None, true, None => Some (fails (URelease s (id, m)) c (RequestNotSent ErrContext))
        | _, _, _ => None
        end
    end
  else None.

(** [waitForAcknowledge]; the functions of [prepareWriteMessage] run at its end. *)
Definition doInternal_acknowledged s (c : Cleanup) (ack : nat) (cf : closeFns) (cancelled : bool) : option (UState * progress) :=
  '(s, err) ← writeMessage_wait s ack cf cancelled;
  match err with
  | None => Some (s, Written)
  | Some e => Some (fails s c (WriteFailed e))
  end.

(** The [select].  [None]: the branch is not enabled. *)
Definition doInternal_select s (ch : nat) (c : Cleanup) (w : wakeup) : option (UState * progress) :=
  match w with
  | ResponseReady =>
      let q := u_reqs s in
      resp ← r_channels q !! ch;
      let s := with_reqs s (mkReqs (r_tokens q) (r_tokenless q) (r_nextChannel q) (delete ch (r_channels q)) (r_pongs q)) in
      let '(s, r) := run_cleanup_udp s c None in Some (s, Returned (Some resp) r)
  | RequestContextDone => Some (fails s c (WriteFailed ErrContext))
  | ConnectionDone => if n_done (u_net s) then Some (fails s c (WriteFailed ErrContext)) else None
  end.

(** ** Requests in progress *)

Inductive phase : Type :=
| Registered (req : M)
| Sent (cf : closeFns)
| Awaiting.

(** [rq_chan] is the number of both of its channels. *)
Record PendingReq : Type := mkPendingReq { rq_token : list byte; rq_chan : nat; rq_cleanup : Cleanup; rq_phase : phase }.
Implicit Types (p : PendingReq) (P : list PendingReq).

Definition advance_to p (ph : phase) : PendingReq := mkPendingReq (rq_token p) (rq_chan p) (rq_cleanup p) ph.

(** A step of the request [p]; its acknowledgement has the channel of the same number. *)
Definition own_step s p (s' : UState) (r : progress) : Prop :=
  match rq_phase p with
  | Registered req => (exists dl now, doInternal_write s (rq_cleanup p) req (rq_chan p) dl now = Some (s', r)) \/
                      doInternal_abandon s (rq_cleanup p) req = Some (s', r)
  | Sent cf => exists cancelled, doInternal_acknowledged s (rq_cleanup p) (rq_chan p) cf cancelled = Some (s', r)
  | Awaiting => exists w, doInternal_select s (rq_chan p) (rq_cleanup p) w = Some (s', r)
  end.

(** The request as it goes on, if it has not returned. *)
Definition continues p (r : progress) : list PendingReq :=
  match r with
  | Unacknowledged cf => [advance_to p (Sent cf)]
  | Written => [advance_to p Awaiting]
  | Returned _ _ => []
  end.

Inductive req_step : UState * list PendingReq -> UState * list PendingReq -> Prop :=
| rs_register s P (req : M) s' ch c :
    RegisterRequestHandler_udp s (default [] (Msg_Token req)) = (s', inl (ch, c)) ->
    req_step (s, P) (s', P ++ [mkPendingReq (default [] (Msg_Token req)) ch c (Registered req)])
| rs_refused s P (req : M) s' e :
    RegisterRequestHandler_udp s (default [] (Msg_Token req)) = (s', inr e) -> req_step (s, P) (s', P)
| rs_own s P1 p P2 s' r : own_step s p s' r -> req_step (s, P1 ++ p :: P2) (s', P1 ++ continues p r ++ P2)
| rs_event s P now s' : event now s s' -> req_step (s, P) (s', P).

(** ** No response goes to another request *)

(** The components behind the connection: the observations have handlers of their own, and
    the block-wise engine reaches the table of requests through the handler it is given. *)
Context (Hobs : forall s w r, u_reqs (observation_Handle s w r).1.1 = u_reqs s).
Context (Hbw : forall bw, blockWise_Handle = Some bw -> forall szx next (I : Reqs -> Prop),
  (forall s w r, I (u_reqs s) -> I (u_reqs (next s w r).1.1)) -> forall s w r, I (u_reqs s) -> I (u_reqs (bw szx next s w r).1.1)).

Definition chan_ok (next : nat) P (ch : nat) (t_ok : list byte -> Prop) : Prop :=
  (ch < next)%nat /\ forall p, p ∈ P -> rq_chan p = ch -> t_ok (rq_token p).

Record req_inv P q : Prop := mkReqInv {
  ri_pending : forall p, p ∈ P -> (rq_chan p < r_nextChannel q)%nat;
  ri_cleanup : forall p, p ∈ P -> rq_token p <> [] -> rq_cleanup p = CleanupToken (Token_Hash (rq_token p));
  ri_nodup : NoDup (rq_chan <$> P);
  ri_tokens : forall key ch, r_tokens q !! key = Some ch -> chan_ok (r_nextChannel q) P ch (fun t => t <> [] /\ Token_Hash t = key);
  ri_tokenless : forall reg ch, Tokenless.handler (r_tokenless q) = Some (reg, ch) -> chan_ok (r_nextChannel q) P ch (fun t => t = []);
  ri_channels : forall ch r, r_channels q !! ch = Some r -> chan_ok (r_nextChannel q) P ch (fun t => answers t r.2)
}.

(** Fewer handlers, fewer responses and fewer requests keep the invariant. *)
Lemma req_inv_shrink P P' q tokens tl channels pongs :
  req_inv P q -> rq_chan <$> P' `sublist_of` (rq_chan <$> P) ->
  (forall p, p ∈ P' -> exists p0, p0 ∈ P /\ rq_chan p0 = rq_chan p /\ rq_token p0 = rq_token p /\ rq_cleanup p0 = rq_cleanup p) ->
  tokens ⊆ r_tokens q -> (Tokenless.handler tl = None \/ Tokenless.handler tl = Tokenless.handler (r_tokenless q)) ->
  channels ⊆ r_channels q -> req_inv P' (mkReqs tokens tl (r_nextChannel q) channels pongs).
Proof.
  intros [H1 Hcl H2 H3 H4 H5] Hsub HP Ht Htl Hch.
  assert (forall ch (t_ok : list byte -> Prop), chan_ok (r_nextChannel q) P ch t_ok -> chan_ok (r_nextChannel q) P' ch t_ok) as Hok.
  { intros ch t_ok [Hlt Hall]. split; [done|]. intros p Hp E. destruct (HP p Hp) as (p0 & Hin & Ec & <- & _). apply Hall; [done|]. by rewrite Ec. }
  constructor; cbn.
  - intros p Hp. destruct (HP p Hp) as (p0 & Hin & <- & _). by apply H1.
  - intros p Hp. destruct (HP p Hp) as (p0 & Hin & _ & <- & <-). by apply Hcl.
  - by eapply sublist_NoDup.
  - intros key ch Hk. apply Hok, H3. by eapply lookup_weaken.
  - intros reg ch Hr. destruct Htl as [E|E]; rewrite E in Hr; [done|]. by eapply Hok, H4.
  - intros ch r Hr. apply Hok, H5. by eapply lookup_weaken.
Qed.

Lemma same_requests P p : p ∈ P -> exists p0, p0 ∈ P /\ rq_chan p0 = rq_chan p /\ rq_token p0 = rq_token p /\ rq_cleanup p0 = rq_cleanup p.
Proof. eauto. Qed.

(** The request itself goes on or returns. *)
Lemma req_inv_continue P1 p P2 q r : req_inv (P1 ++ p :: P2) q -> req_inv (P1 ++ continues p r ++ P2) q.
Proof.
  intros H. destruct q as [th tl n chs pongs]. apply (req_inv_shrink _ _ _ th tl chs pongs H); cbn; [|  |done|by right|done].
  - rewrite !fmap_app. apply sublist_app; [done|]. destruct r; cbn; [done..|]. by apply sublist_cons.
  - intros p' [Hp|[Hp|Hp]%elem_of_app]%elem_of_app; [exists p'; set_solver| |exists p'; set_solver].
    exists p. split; [set_solver|]. destruct r; cbn in Hp; [apply list_elem_of_singleton in Hp as ->; done..|by apply elem_of_nil in Hp].
Qed.

Lemma req_inv_cleanup P s c e : req_inv P (u_reqs s) -> req_inv P (u_reqs (run_cleanup_udp s c e).1).
Proof.
  intros H. destruct c as [reg|key]; cbn [run_cleanup_udp].
  - destruct (Tokenless.cleanup _ _ _) as [tl b] eqn:E. apply (req_inv_shrink P); [done|done|apply same_requests|done| |done].
    revert E. unfold Tokenless.cleanup. destruct (Tokenless.handler (r_tokenless (u_reqs s))) as [[reg' h]|] eqn:Eh; [|intros [= <- _]; auto].
    destruct (_ =? _)%nat; intros [= <- _]; auto.
  - apply (req_inv_shrink P); [done|done|apply same_requests|apply delete_subseteq|by right|done].
Qed.

Lemma req_inv_fails P s c e : req_inv P (u_reqs s) -> req_inv P (u_reqs (fails s c e).1).
Proof. intros H. apply (req_inv_cleanup P s c (Some e)) in H. unfold fails. by destruct (run_cleanup_udp s c (Some e)). Qed.

(** A handler that is called puts an answer into the channel of its request. *)
Lemma req_inv_deliver P s ch r :
  req_inv P (u_reqs s) -> chan_ok (r_nextChannel (u_reqs s)) P ch (fun t => answers t r.2) ->
  req_inv P (u_reqs (call_request_handler s ch r).1).
Proof.
  intros H Hch. unfold call_request_handler. destruct (r_channels (u_reqs s) !! ch) eqn:E; [done|].
  destruct H as [H1 Hcl H2 H3 H4 H5]. constructor; cbn; [done..|].
  intros ch' r' [[<- <-] | [Hne Hr]]%lookup_insert_Some; [|eauto]. exact Hch.
Qed.

Lemma req_inv_response P s w r : req_inv P (u_reqs s) -> req_inv P (u_reqs (handleResponse_udp observation_Handle s w r).1.1).
Proof.
  intros H. unfold handleResponse_udp. destruct (_ && _) eqn:Etok.
  - apply andb_prop in Etok as [Ez Ec]. apply Z.eqb_eq in Ez. apply Z.leb_le in Ec. apply zlen_0_nil in Ez.
    unfold Tokenless.Load. destruct (Tokenless.handler (r_tokenless (u_reqs s))) as [[reg ch]|] eqn:Eh; [|by rewrite Hobs].
    destruct (Tokenless.consumed (r_tokenless (u_reqs s))); [by rewrite Hobs|]. set (s1 := with_reqs s _).
    pose proof (req_inv_deliver P s1 ch r) as Hd. destruct (call_request_handler s1 ch r) as [s2 r2]. cbn [fst] in *.
    apply Hd; [apply (req_inv_shrink P); [done|done|apply same_requests|done|by right; rewrite <- Eh|done]|].
    destruct (ri_tokenless _ _ H reg ch Eh) as [Hlt Hall]. split; [done|]. intros p Hp Hc. unfold answers. by rewrite (Hall p Hp Hc).
  - set (s1 := with_reqs s _). assert (req_inv P (u_reqs s1)) as H1.
    { apply (req_inv_shrink P); [done|done|apply same_requests|apply delete_subseteq|by right|done]. }
    destruct (r_tokens (u_reqs s) !! _) as [ch|] eqn:Ek; [|by rewrite Hobs].
    pose proof (req_inv_deliver P s1 ch r H1) as Hd. destruct (call_request_handler s1 ch r) as [s2 r2]. cbn [fst] in *. apply Hd.
    destruct (ri_tokens _ _ H _ _ Ek) as [Hlt Hall]. split; [done|]. intros p Hp Hc. destruct (Hall p Hp Hc) as [Hne E].
    unfold answers. by rewrite decide_False.
Qed.

Lemma req_inv_event P now s s' : event now s s' -> req_inv P (u_reqs s) -> req_inv P (u_reqs s').
Proof.
  revert s s'. refine (udp_step_R _ _ _ _ _ _ _ _ _ _ _ (fun s s' => req_inv P (u_reqs s) -> req_inv P (u_reqs s')) _ _ _ _ _ _ _).
  - by intros s s' [= _ ->].
  - auto.
  - intros s key m. unfold messageCache_Store. by destruct (MarshalWithEncoder growcap UdpCoder m) as [m' [[data|] [e|]]].
  - done.
  - apply req_inv_response.
  - intros bw Hb szx s w r. apply (Hbw bw Hb szx _ (req_inv P)). apply req_inv_response.
  - intros s f. cbn zeta. intros [H1 Hcl H2 H3 H4 H5]. by constructor.
Qed.

(** A registration takes a channel that nothing refers to. *)
Lemma req_inv_fresh P q p tokens tl :
  req_inv P q -> rq_chan p = r_nextChannel q -> (rq_token p <> [] -> rq_cleanup p = CleanupToken (Token_Hash (rq_token p))) ->
  (forall key ch, tokens !! key = Some ch -> r_tokens q !! key = Some ch \/ (ch = rq_chan p /\ rq_token p <> [] /\ Token_Hash (rq_token p) = key)) ->
  (forall reg ch, Tokenless.handler tl = Some (reg, ch) ->
     Tokenless.handler (r_tokenless q) = Some (reg, ch) \/ (ch = rq_chan p /\ rq_token p = [])) ->
  req_inv (P ++ [p]) (set_handlers q tokens tl (S (r_nextChannel q))).
Proof.
  intros [H1 Hcl H2 H3 H4 H5] Hp Hc Ht Htl.
  assert (forall ch (t_ok : list byte -> Prop), chan_ok (r_nextChannel q) P ch t_ok -> chan_ok (S (r_nextChannel q)) (P ++ [p]) ch t_ok) as Hold.
  { intros ch t_ok [Hlt Hall]. split; [lia|]. intros p' [Hin|Hin]%elem_of_app E; [by apply Hall|].
    apply list_elem_of_singleton in Hin as ->. lia. }
  assert (forall t_ok : list byte -> Prop, t_ok (rq_token p) -> chan_ok (S (r_nextChannel q)) (P ++ [p]) (rq_chan p) t_ok) as Hnew.
  { intros t_ok Hok. split; [lia|]. intros p' [Hin|Hin]%elem_of_app E; [apply H1 in Hin; lia|]. by apply list_elem_of_singleton in Hin as ->. }
  constructor; cbn.
  - intros p' [Hin|Hin]%elem_of_app; [apply H1 in Hin; lia|]. apply list_elem_of_singleton in Hin as ->. lia.
  - intros p' [Hin|Hin]%elem_of_app; [by apply Hcl|]. by apply list_elem_of_singleton in Hin as ->.
  - rewrite fmap_app. apply NoDup_app. split; [done|]. split; [|apply NoDup_singleton]. intros x Hx Hs.
    apply list_elem_of_singleton in Hs as ->. apply list_elem_of_fmap in Hx as (p' & E & Hin). apply H1 in Hin. lia.
  - intros key ch Hk. destruct (Ht key ch Hk) as [Hk'|(-> & Hne & E)]; [by apply Hold, H3|]. by apply Hnew.
  - intros reg ch Hr. destruct (Htl reg ch Hr) as [Hr'|(-> & E)]; [by eapply Hold, H4|]. by apply Hnew.
  - intros ch r Hr. by apply Hold, H5.
Qed.

Lemma req_inv_register P s (req : M) s' ch c (t := default [] (Msg_Token req)) :
  req_inv P (u_reqs s) -> RegisterRequestHandler_udp s t = (s', inl (ch, c)) ->
  req_inv (P ++ [mkPendingReq t ch c (Registered req)]) (u_reqs s').
Proof.
  intros H. unfold RegisterRequestHandler_udp. destruct (Z.eqb_spec (zlen t) 0) as [Hz|Hz].
  - apply zlen_0_nil in Hz. unfold Tokenless.Register. destruct (Tokenless.blocked _); [done|].
    destruct (Tokenless.handler (r_tokenless (u_reqs s))) eqn:Eh; [done|]. intros [= <- <- <-].
    apply req_inv_fresh; [done|done|done|by left|]. intros reg ch' [= <- <-]. by right.
  - unfold LoadOrStore, LoadOrStore_read, LoadOrStore_write, index.
    destruct (r_tokens (u_reqs s) !! Token_Hash t) eqn:Ek; [done|]. intros [= <- <- <-].
    apply req_inv_fresh; [done|done|done| |by left]. intros key ch' [[<- <-] | [Hne Hk]]%lookup_insert_Some; [right|by left].
    split_and!; [done| |done]. cbn. by intros ->.
Qed.

Lemma register_udp_error s t s' e : RegisterRequestHandler_udp s t = (s', inr e) -> s' = s.
Proof.
  unfold RegisterRequestHandler_udp. destruct (zlen t =? 0).
  - destruct (Tokenless.Register _ _) as [tl [reg|[|]]]; by intros [= <-].
  - destruct (LoadOrStore _ _ _ _) as [th [h [|]]]; by intros [= <-].
Qed.

Lemma kept_reqs s s' : kept s' = kept s -> u_reqs s' = u_reqs s.
Proof. by intros [= _ E]. Qed.

Lemma req_inv_own P s p s' r : req_inv P (u_reqs s) -> own_step s p s' r -> req_inv P (u_reqs s').
Proof.
  intros H. assert (forall s0 e x, u_reqs s0 = u_reqs s -> fails s0 (rq_cleanup p) e = (s', x) -> req_inv P (u_reqs s')) as Hf.
  { intros s0 e x E0 E. pose proof (req_inv_fails P s0 (rq_cleanup p) e) as Hi. rewrite E0, E in Hi. by apply Hi. }
  unfold own_step. destruct (rq_phase p) as [req|cf|].
  - intros [(dl & now & E)|E]; revert E.
    + unfold doInternal_write. destruct (write_send s req _ dl now) as [[[s1 m1] x]|] eqn:Ew; cbn [mbind option_bind]; [|done].
      apply kept_write_send, kept_reqs in Ew. destruct x as [cf|[e|]]; [intros [= <- _]|intros E%(inj Some); by eapply Hf|intros [= <- _]]; by rewrite Ew.
    + unfold doInternal_abandon, with_ids. cbn [GetMessageID]. destruct (_ =? Confirmable); [|done].
      destruct (rememberQNotification hooks _ _ _) as [qs [e|]]; [done|]. cbn [UAcquire].
      destruct (Msg_Clone _ _ _) as [[[r1 m1] [e|]]|]; cbn [mbind option_bind]; [done| |done].
      destruct (needs_interaction r1); [|done]. destruct (acquireOutstandingInteraction _ _); [done|]. intros E%(inj Some).
      refine (Hf _ _ _ _ E). done.
  - intros [cancelled E]; revert E. unfold doInternal_acknowledged.
    destruct (writeMessage_wait s _ cf cancelled) as [[s1 e]|] eqn:Ew; cbn [mbind option_bind]; [|done].
    apply kept_write_wait, kept_reqs in Ew. destruct e as [e|]; [intros E%(inj Some); by eapply Hf|intros [= <- _]; by rewrite Ew].
  - intros [w E]; revert E. unfold doInternal_select. destruct w.
    + intros E%(inj Some). by eapply Hf.
    + destruct (n_done (u_net s)); [|done]. intros E%(inj Some). by eapply Hf.
    + destruct (r_channels (u_reqs s) !! rq_chan p) as [resp|]; [|done]. cbn [mbind option_bind]. set (s0 := with_reqs s _).
      pose proof (req_inv_cleanup P s0 (rq_cleanup p) None) as Hi. destruct (run_cleanup_udp s0 _ None) as [s1 x]. intros [= <- _].
      apply Hi. apply (req_inv_shrink P); [done|done|apply same_requests|done|by right|apply delete_subseteq].
Qed.

Lemma req_step_inv st st' : req_step st st' -> req_inv st.2 (u_reqs st.1) -> req_inv st'.2 (u_reqs st'.1).
Proof.
  destruct 1 as [s P req s' ch c E|s P req s' e E|s P1 p P2 s' r E|s P now s' E]; cbn [fst snd]; intros H.
  - by eapply req_inv_register.
  - by apply register_udp_error in E as ->.
  - apply (req_inv_own _ _ _ _ _ H) in E. by apply req_inv_continue.
  - by eapply req_inv_event.
Qed.

(** Only the [select] returns a response: that of the request's own channel. *)
Lemma returned_response s p s' r e :
  own_step s p s' (Returned (Some r) e) ->
  rq_phase p = Awaiting /\ r_channels (u_reqs s) !! rq_chan p = Some r /\ e = (None, false) /\
  r_channels (u_reqs s') = delete (rq_chan p) (r_channels (u_reqs s)) /\
  (forall key, rq_cleanup p = CleanupToken key -> r_tokens (u_reqs s') !! key = None).
Proof.
  assert (forall s0 c x s1, fails s0 c x <> (s1, Returned (Some r) e)) as Hf.
  { intros s0 c x s1. unfold fails. by destruct (run_cleanup_udp s0 c (Some x)). }
  unfold own_step. destruct (rq_phase p) as [req|cf|].
  - intros [(dl & now & E)|E]; exfalso; revert E.
    + unfold doInternal_write. destruct (write_send s req _ dl now) as [[[s1 m1] [cf|[x|]]]|]; cbn [mbind option_bind]; [done| |done|done].
      intros E%(inj Some). by eapply Hf.
    + unfold doInternal_abandon, with_ids. cbn [GetMessageID]. destruct (_ =? Confirmable); [|done].
      destruct (rememberQNotification hooks _ _ _) as [qs [x|]]; [done|]. cbn [UAcquire].
      destruct (Msg_Clone _ _ _) as [[[r1 m1] [x|]]|]; cbn [mbind option_bind]; [done| |done].
      destruct (needs_interaction r1); [|done]. destruct (acquireOutstandingInteraction _ _); [done|]. intros E%(inj Some). by eapply Hf.
  - intros [cancelled E]; exfalso; revert E. unfold doInternal_acknowledged.
    destruct (writeMessage_wait s _ cf cancelled) as [[s1 [x|]]|]; cbn [mbind option_bind]; [|done|done]. intros E%(inj Some). by eapply Hf.
  - intros [w E]; revert E. unfold doInternal_select. destruct w.
    + intros E%(inj Some). by apply Hf in E.
    + destruct (n_done (u_net s)); [|done]. intros E%(inj Some). by apply Hf in E.
    + destruct (r_channels (u_reqs s) !! rq_chan p) as [resp|]; [|done]. cbn [mbind option_bind].
      destruct (rq_cleanup p) as [reg|key]; cbn [run_cleanup_udp].
      * destruct (Tokenless.cleanup _ _ _) as [tl b]. by intros [= <- <- <-].
      * intros [= <- <- <-]. split_and!; try done. intros key' [= <-]. cbn. apply lookup_delete_eq.
Qed.

(** C17: no request over datagrams gets the response of another.  On every interleaving of
    requests (registered, waiting for their turn to write, for an acknowledgement, for the
    response) with received datagrams, retransmissions, pings, other writes, failed writes,
    cancellations and the closing of the connection: a request returns a response only
    after its own datagram was written, no other request waits on its channel, and the
    response has the key of its token (and so, at the same length, the token itself), or,
    for a request without a token, it is a response without a token; the request ends
    without an error, its channel is empty and its handler is gone. *)
Theorem udp_responses_reach_their_request (s0 s s' : UState) (P : list PendingReq) (p : PendingReq) (r : nat * M) e
    (H0 : r_tokens (u_reqs s0) = ∅ /\ r_tokenless (u_reqs s0) = Tokenless.zero /\ r_channels (u_reqs s0) = ∅)
    (Hreach : rtc req_step (s0, []) (s, P)) (Hin : p ∈ P) (Hstep : own_step s p s' (Returned (Some r) e)) :
  let t := rq_token p in
  rq_phase p = Awaiting /\ answers t r.2 /\ e = (None, false) /\ r_channels (u_reqs s') !! rq_chan p = None /\
  (t <> [] -> r_tokens (u_reqs s') !! Token_Hash t = None) /\
  (forall p', p' ∈ P -> rq_chan p' = rq_chan p -> p' = p) /\
  (t <> [] -> bytes_ok t -> bytes_ok (default [] (Msg_Token r.2)) -> (length t <= 8)%nat ->
   length (default [] (Msg_Token r.2)) = length t -> default [] (Msg_Token r.2) = t).
Proof.
  assert (req_inv P (u_reqs s)) as [H1 Hcl H2 H3 H4 H5].
  { refine (rtc_ind_r (fun st => req_inv st.2 (u_reqs st.1)) _ _ _ (s, P) Hreach).
    - destruct H0 as (E1 & E2 & E3). constructor; cbn; rewrite ?E1, ?E2, ?E3; [intros p0 Hp0; by apply elem_of_nil in Hp0|intros p0 Hp0; by apply elem_of_nil in Hp0|constructor|done|done|done].
    - intros y z _ Hs. by apply req_step_inv. }
  destruct (returned_response _ _ _ _ _ Hstep) as (Hph & Er & -> & Es & Et). destruct (H5 _ _ Er) as [_ Ha]. specialize (Ha p Hin eq_refl).
  split_and!; [done|done|done|by rewrite Es, lookup_delete_eq| | |].
  - intros Hne. rewrite (Hcl p Hin Hne) in Et. by apply Et.
  - intros p' Hin' E. apply list_elem_of_lookup in Hin as [i Hi], Hin' as [j Hj].
    assert (j = i) as -> by (apply (NoDup_lookup _ _ _ (rq_chan p) H2); rewrite list_lookup_fmap, ?Hi, ?Hj; cbn; by rewrite ?E).
    congruence.
  - intros Hne Ht Hr H8 Hl. unfold answers in Ha. rewrite decide_False in Ha by done. apply Token_Hash_inj; [done|done|done|lia|done].
Qed.

Lemma select_ready s p r :
  rq_phase p = Awaiting -> r_channels (u_reqs s) !! rq_chan p = Some r -> exists s', own_step s p s' (Returned (Some r) (None, false)).
Proof.
  intros Hph Er. unfold own_step. rewrite Hph. unfold doInternal_select. destruct (run_cleanup_udp
    (with_reqs s (mkReqs (r_tokens (u_reqs s)) (r_tokenless (u_reqs s)) (r_nextChannel (u_reqs s)) (delete (rq_chan p) (r_channels (u_reqs s))) (r_pongs (u_reqs s))))
    (rq_cleanup p) None) as [s' x] eqn:E.
  exists s', ResponseReady. rewrite Er. cbn [mbind option_bind]. repeat f_equal. revert E.
  unfold run_cleanup_udp. destruct (rq_cleanup p); [destruct (Tokenless.cleanup _ _ _)|]; by intros [= _ <-].
Qed.

(** A response whose handler is registered and whose channel is empty completes its request. *)
Theorem response_completes_request s w r p
    (Hph : rq_phase p = Awaiting) (Htok : zlen (default [] (Msg_Token r.2)) <> 0)
    (Hreg : r_tokens (u_reqs s) !! token_key r.2 = Some (rq_chan p)) (Hempty : r_channels (u_reqs s) !! rq_chan p = None) :
  exists s', own_step (handleResponse_udp observation_Handle s w r).1.1 p s' (Returned (Some (r.1, Hijack r.2)) (None, false)).
Proof.
  unfold handleResponse_udp. destruct (Z.eqb_spec (zlen (default [] (Msg_Token r.2))) 0); [done|]. cbn [andb].
  unfold token_key in Hreg. rewrite Hreg. unfold call_request_handler. cbn [u_reqs with_reqs r_channels]. rewrite Hempty.
  apply select_ready; [done|]. apply lookup_insert_eq.
Qed.
End UdpRequests.

(** ** A run *)

Module RequestSample.
Import UdpDedup.Sample.
Definition silent : SState -> SW -> nat * SM -> SState * SW * (nat * SM) := fun s w r => (s, w, r).
Definition get : SM := SetCode (SetToken (NewMessage None) (Some [1; 2; 3; 4])) GET.
(** An acknowledgement of the message ID 1 with a response. *)
Definition datagram : list byte := [100; 69; 0; 1; 1; 2; 3; 4; 255; 104; 105].
Definition key : Z := Token_Hash [1; 2; 3; 4].

(** Register, write, receive the datagram, handle it, then see the acknowledgement. *)
Definition registered : SState := (RegisterRequestHandler_udp state [1; 2; 3; 4]).1.
Definition closing : closeFns := mkCloseFns true (Some 1).
Definition written : SState :=
  default registered (fst <$> doInternal_write (fun n => n) supply cfg hooks (fun _ => 2) 10 registered (CleanupToken key) get 0 None 100).
Definition arrived : SState :=
  default written (fst <$> Process (fun n => n) supply cfg (fun _ => (false, None)) hooks (fun _ => 2) 10 written None datagram 200 true).
Definition delivered : SState :=
  default arrived (fst <$> process_next_udp (fun n => n) supply cfg hooks silent None (fun _ => 2) [] 10 arrived 200).
Definition acknowledged : SState := default delivered (fst <$> doInternal_acknowledged delivered (CleanupToken key) 0 closing false).
Definition completed : SState := default acknowledged (fst <$> doInternal_select acknowledged 0 (CleanupToken key) ResponseReady).
Definition response : nat * SM := default (0%nat, get) (r_channels (u_reqs acknowledged) !! 0%nat).
Definition asked (ph : phase) : PendingReq (Ctx := unit) (B := Reader) := mkPendingReq [1; 2; 3; 4] 0 (CleanupToken key) ph.

Abbreviation sample_step := (req_step (fun n => n) supply cfg (fun _ => (false, None)) hooks silent None (fun _ => 2) [] 10).
Abbreviation sample_own := (own_step (fun n => n) supply cfg hooks (fun _ => 2) 10).

Lemma sample_reached : rtc sample_step (state, []) (acknowledged, [asked Awaiting]).
Proof.
  assert (sample_step (state, []) (registered, [asked (Registered get)])) as S1.
  { apply (rs_register _ _ _ _ _ _ _ _ _ _ state [] get registered 0 (CleanupToken key)). vm_compute. reflexivity. }
  assert (sample_step (registered, [asked (Registered get)]) (written, [asked (Sent closing)])) as S2.
  { apply (rs_own _ _ _ _ _ _ _ _ _ _ registered [] (asked (Registered get)) [] written (Unacknowledged closing)).
    left. exists None, 100. vm_compute. reflexivity. }
  assert (sample_step (written, [asked (Sent closing)]) (arrived, [asked (Sent closing)])) as S3.
  { apply rs_event with (now := 200). apply us_receive with (cm := None) (datagram := datagram) (b := true) (e := None).
    vm_compute. reflexivity. }
  assert (sample_step (arrived, [asked (Sent closing)]) (delivered, [asked (Sent closing)])) as S4.
  { apply rs_event with (now := 200).
    apply us_handle with (req := default (0%nat, get) (head (u_received arrived))) (rest := []) (ran := true); vm_compute; reflexivity. }
  assert (sample_step (delivered, [asked (Sent closing)]) (acknowledged, [asked Awaiting])) as S5.
  { apply (rs_own _ _ _ _ _ _ _ _ _ _ delivered [] (asked (Sent closing)) [] acknowledged Written).
    exists false. vm_compute. reflexivity. }
  eapply rtc_l; [exact S1|]. eapply rtc_l; [exact S2|]. eapply rtc_l; [exact S3|]. eapply rtc_l; [exact S4|]. by apply rtc_once.
Qed.

Lemma sample_returns : sample_own acknowledged (asked Awaiting) completed (Returned (Some response) (None, false)).
Proof. exists ResponseReady. vm_compute. reflexivity. Qed.

Lemma udp_responses_reach_their_request_witness :
  sample_own acknowledged (asked Awaiting) completed (Returned (Some response) (None, false)) /\
  r_tokens (u_reqs completed) !! Token_Hash [1; 2; 3; 4] = None /\ default [] (Msg_Token response.2) = [1; 2; 3; 4].
Proof.
  split; [exact sample_returns|].
  destruct (udp_responses_reach_their_request (fun n => n) supply cfg (fun _ => (false, None)) hooks silent None (fun _ => 2) [] 10
    (fun _ _ _ => eq_refl) (fun _ H => match H with end) state acknowledged completed [asked Awaiting] (asked Awaiting) response (None, false)
    (conj eq_refl (conj eq_refl eq_refl)) sample_reached (proj2 (list_elem_of_singleton _ _) eq_refl) sample_returns)
    as (_ & _ & _ & _ & Ht & _ & Hr).
  split; [apply Ht; discriminate|]. apply Hr.
  - discriminate.
  - apply (bool_decide_unpack _). vm_compute. exact I.
  - apply (bool_decide_unpack _). vm_compute. exact I.
  - cbn. lia.
  - vm_compute. reflexivity.
Defined.
End RequestSample.
