(* ===== verification/EngineMessage.v ===== *)
(** * Messages as the transfer engines see them

    The block-wise engines (src/net/blockwise) use pooled messages through a small set of
    methods and never look at their buffers.  [EMsg] is that view of a message: code,
    token, options, type, sequence, the contents of the body and the deadline of the
    context.  [represents] relates it to the pooled message of [PoolMessage], and
    [engine_message_refines] shows for each method modelled here that it has the effect on
    the view that its counterpart has, for bodies that obey the laws of [io.ReadSeeker].

    [AcquireMessage] gives an empty message; the recycling of messages is in [Pool]. *)
From stdpp Require Import prelude list sorting.
From Stdlib Require Import ZArith Lia.
From S2P Require Import Prelude Cast Codes OptionCodec Options Message PoolMessage.
#[local] Open Scope Z_scope.

Record EMsg : Type := mkEMsg {
  e_code : Z;
  e_token : list byte;
  e_options : Options;
  e_type : Z;
  e_sequence : Z;
  e_body : option (list byte);
  e_deadline : option Z
}.

(** [cc.AcquireMessage(ctx)], where the context has the given deadline. *)
Definition AcquireMessage (deadline : option Z) : EMsg := mkEMsg Empty [] [] Unset 0 None deadline.

Implicit Types (m : EMsg).

Definition e_SetCode m (code : Z) : EMsg :=
  mkEMsg code (e_token m) (e_options m) (e_type m) (e_sequence m) (e_body m) (e_deadline m).
Definition e_SetToken m (tok : list byte) : EMsg :=
  mkEMsg (e_code m) tok (e_options m) (e_type m) (e_sequence m) (e_body m) (e_deadline m).
Definition e_set_options m (o : Options) : EMsg :=
  mkEMsg (e_code m) (e_token m) o (e_type m) (e_sequence m) (e_body m) (e_deadline m).
Definition e_SetType m (t : Z) : EMsg :=
  mkEMsg (e_code m) (e_token m) (e_options m) t (e_sequence m) (e_body m) (e_deadline m).
Definition e_SetSequence m (s : Z) : EMsg :=
  mkEMsg (e_code m) (e_token m) (e_options m) (e_type m) s (e_body m) (e_deadline m).
Definition e_SetBody m (b : option (list byte)) : EMsg :=
  mkEMsg (e_code m) (e_token m) (e_options m) (e_type m) (e_sequence m) b (e_deadline m).

(** [ResetOptionsTo] adds the given options one by one to an empty container. *)
Definition e_ResetOptionsTo m (opts : Options) : EMsg := e_set_options m (fold_left Options_Add opts []).
Definition e_SetOptionUint32 m (id v : Z) : EMsg :=
  e_set_options m (Options_Set (e_options m) (mkOption id (uint_bytes v))).
Definition e_SetOptionBytes m (id : Z) (v : list byte) : EMsg :=
  e_set_options m (Options_Set (e_options m) (mkOption id v)).
Definition e_Remove m (id : Z) : EMsg := e_set_options m (Remove (e_options m) id).

Definition e_HasOption m (id : Z) : bool := HasOption (e_options m) id.
Definition e_GetOptionUint32 m (id : Z) : Z * option error := GetUint32 (e_options m) id.
Definition e_GetOptionBytes m (id : Z) : list byte * option error := GetBytes (e_options m) id.
Definition e_BodySize m : Z := zlen (default [] (e_body m)).

Definition e_AddOptionUint32 m (id v : Z) : EMsg := e_set_options m (Options_Add (e_options m) (mkOption id (uint_bytes v))).
Definition e_UpsertType m (t : Z) : EMsg := if ValidateType (e_type m) then m else e_SetType m t.

(** [SetContext] with a context that has the deadline. *)
Definition e_SetContext m (deadline : option Z) : EMsg :=
  mkEMsg (e_code m) (e_token m) (e_options m) (e_type m) (e_sequence m) (e_body m) deadline.

Definition e_SetRequestTag m (value : list byte) : EMsg * option error :=
  if negb (VerifyOptLen RequestTag (zlen value)) then (m, Some ErrInvalidValueLength)
  else (e_SetOptionBytes m RequestTag value, None).

(** [msg.Clone(stored)], where [stored] was acquired for a context with the deadline. *)
Definition e_Clone (m : EMsg) (deadline : option Z) : EMsg :=
  let c := AcquireMessage deadline in
  let c := e_SetCode c (e_code m) in
  let c := e_SetToken c (e_token m) in
  let c := e_ResetOptionsTo c (e_options m) in
  let c := e_SetType c (e_type m) in
  match e_body m with Some b => e_SetBody c (Some b) | None => c end.

(** ** Lemmas *)

Lemma fold_Add_sorted opts : forall pre,
  sorted_opts (pre ++ opts) -> fold_left Options_Add opts pre = pre ++ opts.
Proof.
  induction opts as [|o opts IH]; intros pre Hs; cbn [fold_left]; [by rewrite app_nil_r|].
  unfold Options_Add at 2. rewrite Add_last.
  - rewrite IH; rewrite <-(assoc_L (++)); done.
  - apply (sorted_snoc pre o opts Hs).
  - apply (sorted_snoc pre o opts Hs).
Qed.

Lemma e_ResetOptionsTo_sorted m opts :
  sorted_opts opts -> e_ResetOptionsTo m opts = e_set_options m opts.
Proof. intros Hs. unfold e_ResetOptionsTo. by rewrite (fold_Add_sorted opts []). Qed.

(** A sorted container is determined by the values it holds. *)
Lemma sorted_vals_ext (a : Options) : forall b,
  sorted_opts a -> sorted_opts b -> (forall id, vals a id = vals b id) -> a = b.
Proof.
  assert (Hne : forall o (l : Options), vals (o :: l) (ID o) = Value o :: vals l (ID o)).
  { intros o l. rewrite vals_cons, decide_True by done. done. }
  assert (Hin : forall (l : Options) id, vals l id <> [] -> exists o, o ∈ l /\ ID o = id).
  { intros l id Hv. unfold vals in Hv. destruct (filter (fun o => ID o = id) l) as [|o f] eqn:E; [done|].
    exists o. assert (Ho : o ∈ filter (fun o => ID o = id) l) by (rewrite E; set_solver).
    by apply list_elem_of_filter in Ho as [? ?]. }
  induction a as [|o a IH]; intros b Ha Hb Hv.
  - destruct b as [|p b]; [done|]. specialize (Hv (ID p)). by rewrite Hne in Hv.
  - destruct b as [|p b]; [specialize (Hv (ID o)); by rewrite Hne in Hv|].
    apply StronglySorted_inv in Ha as (Ha & Hoa), Hb as (Hb & Hpb). rewrite Forall_forall in Hoa, Hpb.
    assert (Hid : ID o = ID p).
    { destruct (Hin (p :: b) (ID o)) as (x & Hx & Ex); [rewrite <-Hv, Hne; done|].
      destruct (Hin (o :: a) (ID p)) as (y & Hy & Ey); [rewrite Hv, Hne; done|].
      apply elem_of_cons in Hx as [-> | Hx]; [done|]. apply elem_of_cons in Hy as [-> | Hy]; [done|].
      apply Hpb in Hx. apply Hoa in Hy. lia. }
    assert (o = p) as ->.
    { pose proof (Hv (ID o)) as H1. rewrite Hne in H1. rewrite Hid, Hne in H1.
      injection H1 as H1 _. destruct o, p. cbn in *. congruence. }
    f_equal. apply IH; [done|done|]. intros id. specialize (Hv id). rewrite !vals_cons in Hv.
    by apply app_inv_head in Hv.
Qed.

Section options.
Context (m : EMsg) (Hs : sorted_opts (e_options m)).

Lemma e_Set_vals id v id' :
  vals (e_options (e_SetOptionUint32 m id v)) id' =
    if decide (id' = id) then [uint_bytes v] else vals (e_options m) id'.
Proof. exact (proj2 (Set_vals zeroOption (e_options m) (mkOption id (uint_bytes v)) Hs) id'). Qed.

Lemma e_Set_sorted id v : sorted_opts (e_options (e_SetOptionUint32 m id v)).
Proof. exact (proj1 (Set_vals zeroOption (e_options m) (mkOption id (uint_bytes v)) Hs)). Qed.

Lemma e_Remove_vals id id' :
  vals (e_options (e_Remove m id)) id' = if decide (id' = id) then [] else vals (e_options m) id'.
Proof. exact (proj2 (Remove_vals (e_options m) id Hs) id'). Qed.

Lemma e_Remove_sorted id : sorted_opts (e_options (e_Remove m id)).
Proof. exact (proj1 (Remove_vals (e_options m) id Hs)). Qed.

Lemma e_Get_vals id :
  e_GetOptionUint32 m id =
    match vals (e_options m) id with
    | [] => (0, Some ErrOptionNotFound)
    | v :: _ => let '(n, _, err) := DecodeUint32 v in (n, err)
    end.
Proof. by apply GetUint32_vals. Qed.

Lemma e_Has_vals id : e_HasOption m id = bool_decide (vals (e_options m) id <> []).
Proof. by apply HasOption_vals. Qed.
End options.

Lemma DecodeUint32_uint_bytes v :
  0 <= v < 2 ^ 32 -> DecodeUint32 (uint_bytes v) = (v, zlen (uint_bytes v), None).
Proof.
  intros Hv. pose proof (zlen_uint_bytes v). rewrite DecodeUint32_short by lia.
  by rewrite be_combine_uint_bytes.
Qed.

(** Reading back an option that was set. *)
Lemma e_Get_Set m id v :
  sorted_opts (e_options m) -> 0 <= v < 2 ^ 32 ->
  e_GetOptionUint32 (e_SetOptionUint32 m id v) id = (v, None).
Proof.
  intros Hs Hv. rewrite e_Get_vals by (by apply e_Set_sorted).
  rewrite e_Set_vals, decide_True by done. by rewrite DecodeUint32_uint_bytes.
Qed.

(** ** The view of a pooled message *)

Section represents.
Context {Ctx CM B : Type} `{!ReadSeeker B} `{!ReadSeekerLaws B}.
Context (deadline_of : Ctx -> option Z).

Record represents (r : Msg Ctx CM B) m : Prop := {
  rep_code : mCode (msg r) = e_code m;
  rep_token : token (msg r) = e_token m;
  rep_options : mOptions (msg r) = e_options m;
  rep_sorted : sorted_opts (e_options m);
  rep_type : mType (msg r) = e_type m;
  rep_sequence : sequence r = e_sequence m;
  rep_deadline : (ctx r ≫= deadline_of) = e_deadline m;
  rep_body : match body r with
             | None => e_body m = None
             | Some b => rs_ok b /\ e_body m = Some (content b)
             end
}.

Lemma represents_commit r m buf o used :
  represents r m -> sorted_opts o -> represents (commit r buf o used) (e_set_options m o).
Proof. intros [] Ho. by constructor. Qed.

Lemma new_represents (c : option Ctx) : represents (NewMessage c) (AcquireMessage (c ≫= deadline_of)).
Proof. by constructor; [..|apply SSorted_nil| | | |]. Qed.

Lemma SetOptionBytes_represents r m id v : represents r m -> represents (SetOptionBytes r id v) (e_SetOptionBytes m id v).
Proof.
  intros Hr. pose proof Hr as []. unfold SetOptionBytes. rewrite put_value_front, rep_options0. apply represents_commit; [done|].
  exact (proj1 (Set_vals zeroOption (e_options m) (mkOption id v) rep_sorted0)).
Qed.

Lemma SetOptionUint32_represents r m id v :
  represents r m -> 0 <= v < 2 ^ 32 -> exists r', SetOptionUint32 r id v = Some r' /\ represents r' (e_SetOptionUint32 m id v).
Proof.
  intros Hr Hv. pose proof Hr as []. destruct (SetOptionUint32_ok r id v Hv) as (buf & ->). eexists. split; [done|].
  unfold opts_of. rewrite rep_options0. apply represents_commit; [done|]. by apply e_Set_sorted.
Qed.

Lemma represents_body r m b : represents r m -> rs_ok b -> represents (with_body r (Some b)) (e_SetBody m (Some (content b))).
Proof. intros [] Hb. by constructor. Qed.

(** The original is as it was, its body at the same offset; the copy is that of the view. *)
Lemma Clone_represents fuel r m (c : Msg Ctx CM B) dl :
  represents r m -> represents c (AcquireMessage dl) -> (length (default [] (e_body m)) < fuel)%nat ->
  exists r' c', Msg_Clone fuel r c = Some (r', c', None) /\ represents r' m /\ represents c' (e_Clone m dl).
Proof.
  intros Hr Hc Hf. pose proof Hr as [R1 R2 R3 R4 R5 R6 R7 R8]. pose proof Hc as [C1 C2 C3 C4 C5 C6 C7 C8]. unfold Msg_Clone.
  set (c0 := SetToken (SetCode c (mCode (msg r))) (Msg_Token r)).
  destruct (Msg_ResetOptionsTo_spec c0 (mOptions (msg r)) ltac:(by rewrite R3)) as (c1 & -> & Ho & Hb & Ht & Hco & _ & _ & Hse & Hx). cbn [mbind option_bind].
  assert (body c1 = None) as Hb1 by (rewrite Hb; cbn in C8 |- *; by destruct (body c) as [b|]; [destruct C8|]).
  set (c2 := SetControlMessage _ _).
  assert (represents c2 (e_SetBody (e_Clone m dl) None)) as Hc2.
  { assert (token (msg c2) = e_token m) as Etok.
    { unfold token. change (mToken (msg c2)) with (mToken (msg c1)). rewrite Ht, <- R2. unfold c0, token, Msg_Token. cbn.
      by destruct (mToken (msg r)) as [[|]|], (mToken (msg c)). }
    unfold e_Clone. rewrite e_ResetOptionsTo_sorted by done.
    destruct (e_body m); (constructor; [exact (eq_trans Hco R1)|exact Etok|exact (eq_trans Ho R3)|exact R4|exact R5|exact (eq_trans Hse C6)| |]).
    1, 3: change (ctx c2) with (ctx c1); rewrite Hx; exact C7.
    all: change (body c2) with (body c1); by rewrite Hb1. }
  destruct (body r) as [b|] eqn:Eb; cycle 1.
  { exists r, c2. split; [done|]. split; [done|]. revert Hc2. unfold e_Clone. by rewrite R8. }
  destruct R8 as [Hok Hm]. rewrite Hm in Hf. cbn [default from_option id] in Hf. unfold seek_or. pose proof (offset_range b Hok) as Hrange.
  destruct (seek_current b Hok) as (b1 & -> & Hb1' & Hc1 & Ho1).
  destruct (seek_start b1 0 Hb1') as (b2 & -> & Hb2 & Hcc2 & Ho2); [rewrite Hc1; pose proof (zlen_nonneg (content b)); lia|].
  destruct (Copy_loop_spec fuel b2 [] Hb2) as (b3 & -> & Hb3 & Hc3); [rewrite Ho2, Hcc2, Hc1; unfold zlen; lia|].
  destruct (seek_start b3 (offset b) Hb3) as (b4 & -> & Hb4 & Hc4 & Ho4); [by rewrite Hc3, Hcc2, Hc1|].
  assert (content b4 = content b /\ slice_from (content b2) (offset b2) = content b) as [E4 E2] by (rewrite Ho2, slice_from_0; split; congruence).
  cbn [app]. rewrite E2. eexists _, _. split; [done|]. split.
  - pose proof (represents_body r m b4 Hr Hb4) as H. rewrite E4, <- Hm in H. by destruct m.
  - assert (e_Clone m dl = e_SetBody (e_SetBody (e_Clone m dl) None) (Some (content b))) as -> by (unfold e_Clone; by rewrite Hm).
    pose proof (represents_body c2 _ (inl (NewReader (content b))) Hc2) as H. cbn [content] in H.
    destruct H; [change (0 <= 0 <= zlen (content b)); pose proof (zlen_nonneg (content b)); lia|]. by constructor.
Qed.
End represents.

(** C32: The engines' view of messages is sound: on a pooled message whose body obeys the
    laws of [io.ReadSeeker] and whose options are sorted, each of these methods succeeds
    and changes the view as its counterpart on [EMsg] does: the setters of code, token,
    type, sequence, context and body (also nil), [UpsertType], the setters of options
    ([SetOptionUint32], also as [SetObserve] and [SetContentFormat], [AddOptionUint32],
    [SetOptionBytes], [SetRequestTag], [Remove], [ResetOptionsTo] to sorted options), and
    [Clone] into an acquired message.  [BodySize], [ReadBody] and [Clone] leave the view of
    the message they read as it was; [BodySize], [ReadBody], [HasOption],
    [GetOptionUint32] and [GetOptionBytes] give what the view gives.  An acquired message
    is the empty one. *)
Theorem engine_message_refines {Ctx CM B} `{!ReadSeeker B} `{!ReadSeekerLaws B}
    (deadline_of : Ctx -> option Z) (r : Msg Ctx CM B) (m : EMsg) (c : option Ctx)
    code tok typ seq id v (bytes : list byte) (b : Reader + B) opts fuel :
  represents deadline_of r m -> 0 <= v < 2 ^ 32 -> sorted_opts opts -> rs_ok b -> (length (default [] (e_body m)) < fuel)%nat ->
  let rep := represents (CM := CM) (B := B) deadline_of in
  rep (NewMessage c) (AcquireMessage (c ≫= deadline_of)) /\
  (rep (SetCode r code) (e_SetCode m code) /\ rep (SetToken r (Some tok)) (e_SetToken m tok) /\
   rep (SetType r typ) (e_SetType m typ) /\ rep (UpsertType r typ) (e_UpsertType m typ) /\
   rep (SetSequence r seq) (e_SetSequence m seq) /\ rep (SetContext r c) (e_SetContext m (c ≫= deadline_of))) /\
  (rep (SetBody r None) (e_SetBody m None) /\ rep (SetBody r (Some b)) (e_SetBody m (Some (content b)))) /\
  (rep (SetOptionBytes r id bytes) (e_SetOptionBytes m id bytes) /\ rep (Msg_Remove r id) (e_Remove m id) /\
   (exists r', SetOptionUint32 r id v = Some r' /\ rep r' (e_SetOptionUint32 m id v)) /\
   (exists r', Msg_SetObserve r v = Some r' /\ rep r' (e_SetOptionUint32 m Observe v)) /\
   (exists r', Msg_SetContentFormat r v = Some r' /\ rep r' (e_SetOptionUint32 m ContentFormat v)) /\
   (exists r', AddOptionUint32 r id v = Some r' /\ rep r' (e_AddOptionUint32 m id v)) /\
   (exists r', Msg_ResetOptionsTo r opts = Some r' /\ rep r' (e_ResetOptionsTo m opts)) /\
   ((SetRequestTag r bytes).2 = (e_SetRequestTag m bytes).2 /\ rep (SetRequestTag r bytes).1 (e_SetRequestTag m bytes).1)) /\
  ((exists r', BodySize r = (r', (e_BodySize m, None)) /\ rep r' m) /\
   (exists r', ReadBody r = (r', (nil_if_empty (default [] (e_body m)), None)) /\ rep r' m) /\
   (exists r' c', Msg_Clone fuel r (NewMessage c) = Some (r', c', None) /\ rep r' m /\ rep c' (e_Clone m (c ≫= deadline_of))) /\
   HasOption (opts_of r) id = e_HasOption m id /\
   GetOptionUint32 r id = e_GetOptionUint32 m id /\ GetOptionBytes r id = e_GetOptionBytes m id).
Proof.
  intros Hr Hv Hopts Hb Hf rep. subst rep. pose proof Hr as [R1 R2 R3 R4 R5 R6 R7 R8].
  pose proof (new_represents (CM := CM) (B := B) deadline_of c) as Hnew.
  split_and!; try (by constructor).
  - exact Hnew.
  - constructor; try done. unfold SetToken, token. cbn. destruct tok, (mToken (msg r)); done.
  - unfold UpsertType, e_UpsertType. rewrite R5. destruct (ValidateType (e_type m)); [done|by constructor].
  - by apply SetOptionBytes_represents.
  - constructor; try done; [cbn; congruence|]. by apply e_Remove_sorted.
  - by apply SetOptionUint32_represents.
  - by apply SetOptionUint32_represents.
  - by apply SetOptionUint32_represents.
  - destruct (AddOptionUint32_ok r id v Hv) as (buf & ->). eexists. split; [done|].
    unfold opts_of. rewrite R3. apply represents_commit; [done|]. exact (proj1 (Add_vals zeroOption (e_options m) (mkOption id (uint_bytes v)) R4)).
  - destruct (Msg_ResetOptionsTo_spec r opts Hopts) as (r' & E & Ho & Hbo & Ht & Hc & _ & Hty & Hs & Hx).
    exists r'. split; [done|]. rewrite e_ResetOptionsTo_sorted by done.
    constructor; cbn [e_set_options e_code e_token e_options e_type e_sequence e_body e_deadline];
      rewrite ?Hbo, ?Hx; unfold opts_of, token in *; congruence || done.
  - unfold SetRequestTag, e_SetRequestTag. by destruct (negb _).
  - unfold SetRequestTag, e_SetRequestTag. destruct (negb _); [done|]. by apply SetOptionBytes_represents.
  - unfold e_BodySize. destruct (body r) as [b0|] eqn:Eb.
    + destruct R8 as (Hok & He). rewrite He. destruct (BodySize_spec r b0 Eb Hok) as (b' & E & Hok' & Hc & _).
      eexists. split; [exact E|]. pose proof (represents_body deadline_of r m b' Hr Hok') as H. rewrite Hc, <- He in H. by destruct m.
    + unfold BodySize. rewrite Eb, R8. eauto.
  - assert (body_content r = default [] (e_body m)) as Ec by (unfold body_content; destruct (body r); [by destruct R8 as [_ ->]|by rewrite R8]).
    assert (body_ok r) as Hbok by (unfold body_ok; by destruct (body r); [destruct R8|]).
    destruct (ReadBody_spec r Hbok) as (b' & E & Hc' & Hok' & Hnone). rewrite Ec in E. eexists. split; [exact E|].
    unfold body_content, body_ok in Hc', Hok'. cbn [body with_body] in Hc', Hok'.
    destruct (body r) as [b0|] eqn:Eb; [destruct b' as [b'|]; [|by destruct (proj1 Hnone)]|rewrite (proj2 Hnone eq_refl); constructor; done].
    destruct R8 as [_ Em]. pose proof (represents_body deadline_of r m b' Hr Hok') as H. rewrite Hc', <- Em in H. by destruct m.
  - by apply Clone_represents.
  - unfold e_HasOption, opts_of. by rewrite R3.
  - unfold GetOptionUint32, e_GetOptionUint32. by rewrite R3.
  - unfold GetOptionBytes, e_GetOptionBytes. by rewrite R3.
Qed.

(** The witness works on a message whose body was partly read. *)
Definition engine_sample : Msg unit unit Reader := with_body sample_msg (Some (inl (mkReader [104; 105] 1))).

Definition engine_sample_view : EMsg :=
  mkEMsg (mCode sample_message) (token sample_message) (mOptions sample_message) (mType sample_message) 0
    (Some [104; 105]) None.

Lemma engine_message_refines_witness :
  represents (fun _ => None) engine_sample engine_sample_view /\
  exists r', BodySize engine_sample = (r', (2, None)) /\ represents (fun _ => None) r' engine_sample_view.
Proof.
  assert (H : represents (fun _ => None) engine_sample engine_sample_view).
  { constructor; [done|done|done| |done|done|done|split; [split; done|done]].
    exact sample_sorted. }
  split; [exact H|].
  apply (engine_message_refines (fun _ => None) engine_sample engine_sample_view None 0 [] 0 0 0 1 [] (inl (NewReader [])) [] 3 H);
    [lia|constructor|cbv; split; discriminate|cbn; lia].
Defined.
