(* ===== verification/ResponseWriter.v ===== *)
(** * The response writer (src/net/responsewriter/responseWriter.go)

    The object through which handlers and the block-wise engines build a response, and
    the callbacks that run after the response was written.  Callbacks are numbered, and
    [ran] is the order in which they were run. *)
From stdpp Require Import prelude list.
From Stdlib Require Import ZArith Lia.
From S2P Require Import Prelude Cast Codes OptionCodec Options Message EngineMessage.
#[local] Open Scope Z_scope.

(** ** The writer *)

Record RW : Type := mkRW {
  noResponseValue : option Z;
  response : EMsg
}.

Definition RW_New (response : EMsg) (requestOptions : Options) : RW :=
  let noResponse :=
    if 0 <? zlen requestOptions then
      match GetUint32 requestOptions NoResponse with
      | (v, None) => Some v
      | (_, Some _) => None
      end
    else None in
  mkRW noResponse response.

(** [d = None] is a nil body. *)
Definition SetResponse (w : RW) (code contentFormat : Z) (d : option (list byte)) (opts : Options) : RW * option error :=
  match (noResponseValue w ≫= IsNoResponseCode code) with
  | Some err => (w, Some err)
  | None =>
      let m := e_ResetOptionsTo (e_SetCode (response w) code) opts in
      let m := match d with
               | Some d => e_SetBody (e_SetOptionUint32 m ContentFormat contentFormat) (Some d)
               | None => m
               end in
      (mkRW (noResponseValue w) m, None)
  end.

Definition RW_SetMessage (w : RW) (m : EMsg) : RW := mkRW (noResponseValue w) m.

Definition RW_Message (w : RW) : EMsg := response w.

Definition RW_Swap (w : RW) (m : EMsg) : RW * EMsg := (mkRW (noResponseValue w) m, response w).

(** ** Callbacks after the write *)

Record postWriteCallbacks : Type := mkPost {
  callbacks : list nat;
  complete : bool;
  (** callbacks that the function of [WithPostWriteCallbacks] took and has yet to run *)
  taken : list nat;
  ran : list nat
}.

Definition WithPostWriteCallbacks : postWriteCallbacks := mkPost [] false [] [].

(** The locked part of the returned function. *)
Definition post_take (p : postWriteCallbacks) : postWriteCallbacks :=
  mkPost [] true (taken p ++ callbacks p) (ran p).

(** One round of its loop. *)
Definition post_run_one (p : postWriteCallbacks) : postWriteCallbacks :=
  match taken p with
  | [] => p
  | cb :: rest => mkPost (callbacks p) (complete p) rest (ran p ++ [cb])
  end.

(** [None] is a context that was not made by [WithPostWriteCallbacks]. *)
Definition AfterWrite (p : option postWriteCallbacks) (cb : nat) : option postWriteCallbacks * bool :=
  match p with
  | None => (None, false)
  | Some p =>
      if complete p then (Some (mkPost (callbacks p) (complete p) (taken p) (ran p ++ [cb])), true)
      else (Some (mkPost (callbacks p ++ [cb]) (complete p) (taken p) (ran p)), true)
  end.

(** Any interleaving of registrations with the function that runs the callbacks; the
    list is what was registered so far. *)
Inductive post_step : postWriteCallbacks * list nat -> postWriteCallbacks * list nat -> Prop :=
| post_register p p' reg cb :
    AfterWrite (Some p) cb = (Some p', true) -> post_step (p, reg) (p', reg ++ [cb])
| post_complete p reg : post_step (p, reg) (post_take p, reg)
| post_callback p reg : post_step (p, reg) (post_run_one p, reg).

Definition post_reachable : postWriteCallbacks * list nat -> Prop :=
  rtc post_step (WithPostWriteCallbacks, []).

(** ** Theorems *)

Definition post_inv (s : postWriteCallbacks * list nat) : Prop :=
  let '(p, reg) := s in
  reg ≡ₚ ran p ++ taken p ++ callbacks p /\
  if complete p then callbacks p = [] else ran p = [] /\ taken p = [] /\ callbacks p = reg.

Lemma post_step_inv s s' : post_step s s' -> post_inv s -> post_inv s'.
Proof.
  destruct 1 as [p p' reg cb E|p reg|p reg]; intros (Hp & Hc); cbn in *.
  - destruct (complete p) eqn:Ec; injection E as <-; cbn; (split; [|naive_solver]); rewrite Hp.
    + rewrite <-!app_assoc. f_equiv. by rewrite (Permutation_app_comm [cb]), <-!app_assoc.
    + by rewrite <-!app_assoc.
  - rewrite app_nil_r, Hp. by rewrite <-?app_assoc.
  - unfold post_run_one. destruct (taken p) as [|cb rest] eqn:Et; [by rewrite Et|]. cbn.
    destruct (complete p); [|by destruct Hc as (_ & ? & _)]. split; [|done].
    rewrite Hp, <-!app_assoc. done.
Qed.

Lemma post_reachable_inv s : post_reachable s -> post_inv s.
Proof.
  intros Hr. unfold post_reachable in Hr. assert (Hi : post_inv (WithPostWriteCallbacks, [])) by done.
  induction Hr; eauto using post_step_inv.
Qed.

(** Callbacks registered with [AfterWrite] run after the response was written and
    exactly once, under any interleaving of registrations with the function that runs
    them: nothing has run before that function was entered, callbacks registered before
    then are queued in order, and when it has returned the callbacks that ran are a
    permutation of the registered ones. *)
Theorem AfterWrite_once p reg :
  post_reachable (p, reg) ->
  (complete p = false -> ran p = [] /\ callbacks p = reg) /\
  (complete p = true -> taken p = [] -> ran p ≡ₚ reg).
Proof.
  intros (Hp & Hc)%post_reachable_inv. split; intros E; rewrite E in Hc.
  - naive_solver.
  - intros Et. by rewrite Hp, Et, Hc, !app_nil_r.
Qed.

Lemma AfterWrite_once_witness :
  post_reachable (mkPost [] true [] [7; 9; 8]%nat, [7; 8; 9]%nat) /\ [7; 9; 8]%nat ≡ₚ [7; 8; 9]%nat.
Proof.
  assert (Hr : post_reachable (mkPost [] true [] [7; 9; 8]%nat, [7; 8; 9]%nat)).
  { eapply rtc_l; [eapply (post_register _ _ [] 7); reflexivity|].
    eapply rtc_l; [eapply (post_register _ _ [7%nat] 8); reflexivity|].
    eapply rtc_l; [exact (post_complete _ _)|]. eapply rtc_l; [exact (post_callback _ _)|].
    eapply rtc_l; [eapply (post_register _ _ [7%nat; 8%nat] 9); reflexivity|].
    eapply rtc_l; [exact (post_callback _ _)|]. apply rtc_refl. }
  split; [exact Hr|].
  exact (proj2 (AfterWrite_once (mkPost [] true [] [7; 9; 8]%nat) [7; 8; 9]%nat Hr) eq_refl eq_refl).
Defined.
