(* ===== verification/ExchangeKey.v ===== *)
(** * The keys of block-wise transfers (src/net/blockwise/blockwise.go,
    src/net/blockwise/internal/blocks/message.go)

    A transfer is identified by a 64-bit key: the CRC-64 of its token, or the FNV-1a hash
    of the request.  An address is the bytes of its [String()], [None] for a nil
    interface.  [hash/fnv] is part of Go's library and is written out. *)
From stdpp Require Import prelude list strings.
From Stdlib Require Import ZArith Lia.
From S2P Require Import Prelude Cast Codes OptionCodec Options Crc64 Message EngineMessage ResponseWriter.
#[local] Open Scope Z_scope.

(** [fnv.New64a], [Write] and [Sum64]. *)
Definition fnv64a_offset : Z := 14695981039346656037.
Definition fnv64a_prime : Z := 1099511628211.
Definition fnv64a_Write (h : Z) (p : list byte) : Z :=
  fold_left (fun h b => uint64 (Z.lxor h b * fnv64a_prime)) p h.

Definition addr : Type := option (list byte).

Definition IsRequestCode (code : Z) : bool := (GET <=? code) && (code <? 32).

Definition isBodyMethod (code : Z) : bool :=
  (code =? POST) || (code =? PUT) || (code =? FETCH) || (code =? PATCH) || (code =? IPATCH).

Definition WriteExchangeKeyPart (h : Z) (value : list byte) : Z :=
  fnv64a_Write (fnv64a_Write h (be_split 8 (zlen value))) value.

Definition getExchangeKey (token : list byte) (remoteAddr : addr) : result Z :=
  if negb (zlen token =? 0) then Ok (Token_Hash token) else
  match remoteAddr with
  | None => Err (ErrOther "cannot get exchange key: remoteAddr is nil")
  | Some a => Ok (fnv64a_Write fnv64a_offset a)
  end.

(** The options that do not take part in the key. *)
Definition skipped_option (includeObserve : bool) (id : Z) : bool :=
  (negb includeObserve && (id =? Observe)) ||
  ((id =? Block1) || (id =? Block2) || (id =? QBlock1) || (id =? QBlock2)) ||
  (Z.land id 31 =? 28).

Definition getRequestMatchingKeyWithObserve (r : EMsg) (remoteAddr : list byte) (includeObserve : bool) : Z :=
  let h := WriteExchangeKeyPart fnv64a_offset remoteAddr in
  let h := fnv64a_Write h (be_split 2 (e_code r)) in
  fold_left (fun h (o : Option) =>
    if skipped_option includeObserve (ID o) then h
    else fnv64a_Write (fnv64a_Write h (be_split 2 (ID o) ++ be_split 8 (zlen (Value o)))) (Value o))
    (e_options r) h.

Definition getRequestMatchingKey (r : EMsg) (remoteAddr : list byte) : Z :=
  getRequestMatchingKeyWithObserve r remoteAddr true.

Definition requestMatchingKey (r : EMsg) (remoteAddr : addr) : Z :=
  match remoteAddr with None => 0 | Some a => getRequestMatchingKey r a end.

Definition getMessageExchangeKey (r : EMsg) (remoteAddr : addr) : result Z :=
  match remoteAddr with
  | None => getExchangeKey (e_token r) remoteAddr
  | Some a =>
      if negb (IsRequestCode (e_code r)) then getExchangeKey (e_token r) remoteAddr
      else if zlen (e_token r) =? 0 then Ok (getRequestMatchingKey r a)
      else if negb (isBodyMethod (e_code r)) then getExchangeKey (e_token r) remoteAddr
      else
        let requestKey := getRequestMatchingKey r a in
        Ok (fnv64a_Write (fnv64a_Write fnv64a_offset (be_split 8 requestKey)) (e_token r))
  end.

Definition isObserveResponse (msg : EMsg) : bool :=
  match e_GetOptionUint32 msg Observe with
  | (_, Some _) => false
  | (_, None) => Created <=? e_code msg
  end.

Record sendingMatch : Type := mkMatch { sm_key : Z; sm_code : Z; sm_endpoint : list byte }.
Definition no_match : sendingMatch := mkMatch 0 0 [].

Definition getSendingMatch (r response : EMsg) (requestCode : Z) (remoteAddr : addr) : sendingMatch :=
  match remoteAddr with
  | None => no_match
  | Some a =>
      if negb (requestCode =? GET) && negb (isBodyMethod requestCode) then no_match else
      let matchKey := getRequestMatchingKey r a in
      let matchKey := if (requestCode =? FETCH) && isObserveResponse response
                      then getRequestMatchingKeyWithObserve r a false else matchKey in
      mkMatch matchKey requestCode a
  end.

(** [CloneMessage] copies everything but the body. *)
Definition CloneMessage (r : EMsg) : EMsg :=
  let req := AcquireMessage (e_deadline r) in
  let req := e_SetCode req (e_code r) in
  let req := e_SetToken req (e_token r) in
  let req := e_ResetOptionsTo req (e_options r) in
  e_SetType req (e_type r).

(** ** What is hashed *)

Lemma fnv64a_Write_app h p q : fnv64a_Write (fnv64a_Write h p) q = fnv64a_Write h (p ++ q).
Proof. unfold fnv64a_Write. by rewrite fold_left_app. Qed.

(** The options that take part, and the bytes a request is hashed as. *)
Definition keyed_options (includeObserve : bool) (opts : Options) : Options :=
  filter (fun o => skipped_option includeObserve (ID o) = false) opts.

Definition option_identity (o : Option) : list byte := be_split 2 (ID o) ++ be_split 8 (zlen (Value o)) ++ Value o.

Definition identity_bytes (code : Z) (a : list byte) (opts : Options) : list byte :=
  be_split 8 (zlen a) ++ a ++ be_split 2 code ++ opts ≫= option_identity.

Lemma matching_key_identity r a o :
  getRequestMatchingKeyWithObserve r a o =
    fnv64a_Write fnv64a_offset (identity_bytes (e_code r) a (keyed_options o (e_options r))).
Proof.
  unfold getRequestMatchingKeyWithObserve, WriteExchangeKeyPart, identity_bytes. cbv zeta.
  set (h0 := fnv64a_Write (fnv64a_Write _ a) _).
  rewrite !app_assoc, <-!fnv64a_Write_app. fold h0. generalize h0. clear h0.
  induction (e_options r) as [|x l IH]; intros h; [done|].
  cbn [fold_left]. unfold keyed_options. rewrite filter_cons. destruct (skipped_option o (ID x)) eqn:E.
  - rewrite decide_False by congruence. apply IH.
  - rewrite decide_True by done. rewrite IH. cbn [mbind list_bind]. unfold option_identity at 2.
    by rewrite !fnv64a_Write_app, <-!app_assoc.
Qed.

(** A length-prefixed field can be split off again. *)
Lemma be_split_app_inj n v w p q :
  0 <= v < 2 ^ (8 * Z.of_nat n) -> 0 <= w < 2 ^ (8 * Z.of_nat n) ->
  be_split n v ++ p = be_split n w ++ q -> v = w /\ p = q.
Proof.
  intros Hv Hw E. apply app_inj_1 in E as (E & ->); [|by rewrite !length_be_split].
  split; [|done]. apply (f_equal be_combine) in E. by rewrite !be_combine_split_id in E.
Qed.

Definition sized {A} (l : list A) : Prop := zlen l < 2 ^ 64.

Lemma sized_app_inj (v w p q : list byte) :
  sized v -> sized w -> be_split 8 (zlen v) ++ v ++ p = be_split 8 (zlen w) ++ w ++ q -> v = w /\ p = q.
Proof.
  unfold sized. intros Hv Hw E. pose proof (zlen_nonneg v). pose proof (zlen_nonneg w).
  apply be_split_app_inj in E as (El & E); [|done|done].
  apply app_inj_1 in E as (-> & ->); [done|unfold zlen in *; lia].
Qed.

Definition keyable (o : Option) : Prop := 0 <= ID o < 2 ^ 16 /\ sized (Value o).

Lemma options_identity_inj (a : Options) : forall b,
  Forall keyable a -> Forall keyable b -> a ≫= option_identity = b ≫= option_identity -> a = b.
Proof.
  assert (Hne : forall o (l : Options), (o :: l) ≫= option_identity <> []).
  { intros o l. cbn. unfold option_identity. by destruct (be_split 2 (ID o)) eqn:E. }
  induction a as [|x a IH]; intros b Ha Hb E.
  - destruct b as [|y b]; [done|]. by destruct (Hne y b).
  - destruct b as [|y b]; [by destruct (Hne x a)|].
    apply Forall_cons in Ha as ((Hxi & Hxv) & Ha), Hb as ((Hyi & Hyv) & Hb).
    cbn [mbind list_bind] in E. unfold option_identity at 1 3 in E. rewrite <-!app_assoc in E.
    apply be_split_app_inj in E as (Eid & E); [|done|done].
    apply sized_app_inj in E as (Ev & E); [|done|done].
    f_equal; [destruct x, y; cbn in *; congruence|by apply IH].
Qed.

Lemma keyed_keyable o opts : Forall keyable opts -> Forall keyable (keyed_options o opts).
Proof.
  rewrite !Forall_forall. intros Hf x Hx. apply list_elem_of_filter in Hx as (_ & Hx). by apply Hf.
Qed.

(** The key of a request identifies it up to collisions of the hash.  It is FNV-1a
    of bytes from which the endpoint, the code and every option that takes part (all but
    the block, Q-Block and elective NoCacheKey options) can be read back: requests that
    are hashed as the same bytes agree on all of them, so no shifting of bytes between
    address, option numbers, lengths and values makes two requests look alike.
    Conversely a block of a transfer, which differs from the others only in the block
    and size options, has the key of the transfer. *)
Theorem matching_key_identifies (r r' : EMsg) (a a' : list byte) (o : bool) :
  0 <= e_code r < 2 ^ 16 -> 0 <= e_code r' < 2 ^ 16 -> sized a -> sized a' ->
  Forall keyable (e_options r) -> Forall keyable (e_options r') ->
  let hashed m addr := identity_bytes (e_code m) addr (keyed_options o (e_options m)) in
  getRequestMatchingKeyWithObserve r a o = fnv64a_Write fnv64a_offset (hashed r a) /\
  (hashed r a = hashed r' a' <->
   a = a' /\ e_code r = e_code r' /\ keyed_options o (e_options r) = keyed_options o (e_options r')).
Proof.
  intros Hc Hc' Ha Ha' Ho Ho' hashed. split; [apply matching_key_identity|].
  split; [|intros (-> & E & E'); unfold hashed; by rewrite E, E']. unfold hashed, identity_bytes. intros E.
  apply sized_app_inj in E as (-> & E); [|done|done].
  apply be_split_app_inj in E as (-> & E); [|done|done].
  do 2 (split; [done|]).
  apply options_identity_inj; [by apply keyed_keyable|by apply keyed_keyable|done].
Qed.

Definition key_request : EMsg :=
  e_SetToken (e_SetCode (e_set_options (AcquireMessage None)
    [mkOption URIPath [97]; mkOption Block1 [8]; mkOption Size1 [40]]) POST) [1; 2].

Lemma matching_key_identifies_witness :
  keyed_options true (e_options key_request) = [mkOption URIPath [97]] /\
  getRequestMatchingKey key_request [49] =
    fnv64a_Write fnv64a_offset ([0; 0; 0; 0; 0; 0; 0; 1; 49] ++ [0; 2] ++ [0; 11; 0; 0; 0; 0; 0; 0; 0; 1; 97]).
Proof.
  split; [reflexivity|].
  refine (proj1 (matching_key_identifies key_request key_request [49] [49] true _ _ _ _ _ _));
    [done|done|done|done| |]; repeat constructor; done.
Defined.
