(* ===== verification/Blockwise.v ===== *)
(** * The block-wise transfer engine (src/net/blockwise/blockwise.go)

    [BlockWise] splits large bodies into Block1 and Block2 transfers (RFC 7959) and puts
    received ones together again.  It keeps two expiring caches, of messages being sent
    and of bodies being received, both keyed by [ExchangeKey].  The elements of the caches
    are shared by pointer, so they live in the heaps of [Cache].

    A call runs at one instant [now] on the state it finds.  What comes from outside is
    in [Env]: the clock, the requests sent outside of the engine, the generated token, the
    outcome of taking the lock of a transfer, the iteration orders of the maps, and
    whether the Q-Block engine took the message.  A handler is a function of the response
    writer and the request, on both of which it may work ([next]); it is assumed not to
    call the engine of the same connection while it runs.

    The body of a message being received is a [memfile.File] of another repository: it is
    a parameter, [MemFile], with its documented behaviour in [MemFileLaws].

    [None] as the result of an operation is a panic.  Wrapped errors ([%w]) are the error
    they wrap. *)
From stdpp Require Import prelude gmap fin_maps list strings.
From Stdlib Require Import ZArith Lia.
From S2P Require Import Prelude Cast Codes OptionCodec Options Message PoolMessage BlockCodec Crc64 SyncMap.
From S2P Require Import Cache EngineMessage ResponseWriter ExchangeKey.
#[local] Open Scope Z_scope.

(** ** memfile.File *)

Class MemFile (F : Type) : Type := {
  memfile_New : F;  (** [memfile.New] of an empty slice *)
  memfile_Seek : F -> Z -> Whence -> F * (Z * option error);
  memfile_Write : F -> list byte -> F * (Z * option error);
  memfile_Truncate : F -> Z -> F * option error;
  memfile_Bytes : F -> list byte
}.

Class MemFileLaws (F : Type) `{!MemFile F} : Type := {
  file_pos : F -> Z;
  file_pos_nonneg f : 0 <= file_pos f;
  new_empty : memfile_Bytes (memfile_New (F := F)) = [];
  file_seek_start f o : 0 <= o ->
    exists f', memfile_Seek f o SeekStart = (f', (o, None)) /\ memfile_Bytes f' = memfile_Bytes f /\ file_pos f' = o;
  file_seek_current f :
    exists f', memfile_Seek f 0 SeekCurrent = (f', (file_pos f, None)) /\
      memfile_Bytes f' = memfile_Bytes f /\ file_pos f' = file_pos f;
  file_seek_end f :
    exists f', memfile_Seek f 0 SeekEnd = (f', (zlen (memfile_Bytes f), None)) /\
      memfile_Bytes f' = memfile_Bytes f /\ file_pos f' = zlen (memfile_Bytes f);
  file_write_end f p : file_pos f = zlen (memfile_Bytes f) ->
    exists f', memfile_Write f p = (f', (zlen p, None)) /\ memfile_Bytes f' = memfile_Bytes f ++ p;
  file_truncate f n : 0 <= n <= zlen (memfile_Bytes f) ->
    exists f', memfile_Truncate f n = (f', None) /\ memfile_Bytes f' = slice_to (memfile_Bytes f) n
}.

(** A file as a list of bytes and a position. *)
Record ListFile : Type := mkListFile { lf_bytes : list byte; lf_pos : N }.

#[export] Instance ListFile_MemFile : MemFile ListFile := {|
  memfile_New := mkListFile [] 0;
  memfile_Seek f o w :=
    let abs := match w with
               | SeekStart => o
               | SeekCurrent => Z.of_N (lf_pos f) + o
               | SeekEnd => zlen (lf_bytes f) + o
               end in
    if abs <? 0 then (f, (0, Some (ErrOther "negative offset")))
    else (mkListFile (lf_bytes f) (Z.to_N abs), (abs, None));
  memfile_Write f p :=
    let pos := Z.of_N (lf_pos f) in
    let front := slice_to (lf_bytes f) pos ++ make_bytes (pos - zlen (lf_bytes f)) in
    (mkListFile (front ++ p ++ slice_from (lf_bytes f) (pos + zlen p)) (Z.to_N (pos + zlen p)), (zlen p, None));
  memfile_Truncate f n :=
    (mkListFile (slice_to (lf_bytes f) n ++ make_bytes (n - zlen (lf_bytes f))) (lf_pos f), None);
  memfile_Bytes := lf_bytes
|}.

(** ** Bodies *)

(** [Seek(off, io.SeekStart)] and [io.ReadFull] of [n] bytes on the body of a message. *)
Definition body_ReadFull (content : list byte) (off n : Z) : list byte * option error :=
  if n =? 0 then ([], None) else
  let rest := slice_from content off in
  if n <=? zlen rest then (slice_to rest n, None)
  else if 0 <? zlen rest then (rest, Some ErrUnexpectedEOF) else ([], Some ErrEOF).

(** [math.SafeCastTo[uint32]]. *)
Definition SafeCastUint32 (v : Z) : result Z :=
  match SafeCastTo KUint32 v with
  | Some (v, None) => Ok v
  | Some (_, Some e) => Err e
  | None => Err (ErrOther "unsupported type")
  end.

Definition getSzx (szx maxSzx : Z) : Z := if maxSzx <? szx then maxSzx else szx.

Definition fitSZX (r : EMsg) (blockType maxSZX : Z) : Z :=
  match e_GetOptionUint32 r blockType with
  | (_, Some _) => maxSZX
  | (block, None) =>
      match DecodeBlockOption block with
      | (_, _, _, Some _) => maxSZX
      | (szx, _, _, None) => if szx <? maxSZX then szx else maxSZX
      end
  end.

(** [req == r] is [fst]: the request itself is sent when it fits. *)
Definition prepareSendingRequest (r : EMsg) (maxSzx maxMessageSize : Z) : result (bool * EMsg) :=
  match e_body r with
  | None => Ok (true, r)
  | Some content =>
      let payloadSize := e_BodySize r in
      if payloadSize <=? SZX_Size maxSzx then Ok (true, r)
      else if negb (isBodyMethod (e_code r)) then Err (ErrOther "unsupported command")
      else
        let req := CloneMessage r in
        match SafeCastUint32 payloadSize with
        | Err e => Err e
        | Ok size =>
            let req := e_SetOptionUint32 req Size1 size in
            match EncodeBlockOption maxSzx 0 true with
            | (_, Some e) => Err e
            | (block, None) =>
                let req := e_SetOptionUint32 req Block1 block in
                let '(buf, err) := body_ReadFull content 0 (bufferSize maxSzx maxMessageSize) in
                let err := if bool_decide (err = Some ErrUnexpectedEOF) && (0 + zlen buf =? payloadSize)
                           then None else err in
                match err with
                | Some e => Err e
                | None => Ok (false, e_SetBody req (Some buf))
                end
            end
        end
  end.

Definition createSendingMessage (sendingMessage : EMsg) (maxSZX maxMessageSize block : Z)
    : option (result (EMsg * bool)) :=
  let body := isBodyMethod (e_code sendingMessage) in
  let blockType := if body then Block1 else Block2 in
  let sizeType := if body then Size1 else Size2 in
  match DecodeBlockOption block with
  | (_, _, _, Some e) => Some (Err e)
  | (szx, num, _, None) =>
      let sendMessage := AcquireMessage (e_deadline sendingMessage) in
      let sendMessage := e_SetCode sendMessage (e_code sendingMessage) in
      let sendMessage := e_ResetOptionsTo sendMessage (e_options sendingMessage) in
      let sendMessage := e_SetToken sendMessage (e_token sendingMessage) in
      let sendMessage := e_SetType sendMessage (e_type sendingMessage) in
      let payloadSize := e_BodySize sendingMessage in
      let szx := getSzx szx maxSZX in
      let newBufLen := bufferSize szx maxMessageSize in
      let off := num * SZX_Size szx in
      let off := if body then off + newBufLen else off in
      match e_body sendingMessage with
      | None => None  (* Seek on a nil interface *)
      | Some content =>
          let '(buf, err) := body_ReadFull content off newBufLen in
          let eof := bool_decide (err = Some ErrUnexpectedEOF) || bool_decide (err = Some ErrEOF) in
          let err := if eof && (off + zlen buf =? payloadSize) then None else err in
          match err with
          | Some e => Some (Err e)
          | None =>
              match SafeCastUint32 payloadSize with
              | Err e => Some (Err e)
              | Ok size =>
                  let sendMessage := e_SetOptionUint32 sendMessage sizeType size in
                  let sendMessage := e_SetBody sendMessage (Some buf) in
                  let more := negb (off + zlen buf =? payloadSize) in
                  let num := Z.quot off (SZX_Size szx) in
                  match EncodeBlockOption szx num more with
                  | (_, Some e) => Some (Err e)
                  | (block, None) => Some (Ok (e_SetOptionUint32 sendMessage blockType block, more))
                  end
              end
          end
      end
  end.

Definition isBlock2Continuation (r : EMsg) : bool :=
  match e_GetOptionUint32 r Block2 with
  | (_, Some _) => false
  | (block, None) =>
      match DecodeBlockOption block with
      | (_, num, _, None) => 0 <? num
      | (_, _, _, Some _) => false
      end
  end.

Definition mayResumeBlock2 (r : EMsg) : bool :=
  let code := e_code r in
  if (code =? POST) || (code =? PUT) || (code =? PATCH) || (code =? IPATCH) then isBlock2Continuation r
  else if (code =? GET) || (code =? FETCH) then negb (e_HasOption r Observe) && isBlock2Continuation r
  else false.

Definition wantsToBeReceived (r : EMsg) : bool :=
  let hasBlock1 := e_HasOption r Block1 in
  let hasBlock2 := e_HasOption r Block2 in
  if hasBlock1 && isBodyMethod (e_code r) then true
  else if hasBlock2 && IsRequestCode (e_code r) then false
  else if e_code r =? Continue then false
  else true.

Definition echoFinalBlock1 (resp r : EMsg) (receivedCode : Z) : EMsg :=
  if negb (isBodyMethod receivedCode) then resp else
  match e_GetOptionUint32 r Block1 with
  | (_, Some _) => resp
  | (block, None) =>
      match DecodeBlockOption block with
      | (_, _, _, Some _) => resp
      | (_, _, true, None) => resp
      | (_, _, false, None) =>
          let code := e_code resp in
          if (code =? Empty) || (code =? Continue) || (code =? RequestEntityIncomplete) ||
             (code =? RequestEntityTooLarge) then resp
          else if e_HasOption resp Block1 then resp
          else e_SetOptionUint32 resp Block1 block
      end
  end.

(** The message is built from scratch: only the deadline of the old response is kept. *)
Definition error_response (w : RW) (code : Z) (token : list byte) : EMsg :=
  e_SetType (e_SetToken (e_SetCode (AcquireMessage (e_deadline (RW_Message w))) code) token) NonConfirmable.

Definition sendEntityIncomplete (w : RW) (token : list byte) : RW :=
  RW_SetMessage w (error_response w RequestEntityIncomplete token).

Definition SendServiceUnavailable (w : RW) (token : list byte) : RW :=
  RW_SetMessage w (error_response w ServiceUnavailable token).

Definition SendEntityTooLarge (w : RW) (token : list byte) (maxBodySize : Z) : RW :=
  let size1 := Z.min maxBodySize (2 ^ 32 - 1) in
  RW_SetMessage w (e_SetOptionUint32 (error_response w RequestEntityTooLarge token) Size1 (CastTo KUint32 size1)).

Definition receiveBodySize (r : EMsg) (off : Z) : Z :=
  let size := match e_body r with None => off | Some _ => off + e_BodySize r end in
  match e_GetOptionUint32 r Size1 with
  | (size1, None) => Z.max size size1
  | (_, Some _) => size
  end.

Definition checkFullBlock (r : EMsg) (szx : Z) : option error :=
  let n := e_BodySize r in
  if (n =? SZX_Size szx) || ((szx =? SZXBERT) && (0 <? n) && (Z.rem n (SZX_Size szx) =? 0)) then None
  else Some ErrRequestEntityIncomplete.

Definition newWriteRequestResponse (request : EMsg) : RW :=
  let req := AcquireMessage (e_deadline request) in
  let req := e_SetCode req (e_code request) in
  let req := e_SetToken req (e_token request) in
  let req := e_ResetOptionsTo req (e_options request) in
  let req := e_SetBody req (e_body request) in
  let req := if (e_type request =? Confirmable) || (e_type request =? NonConfirmable)
             then e_SetType req (e_type request) else req in
  RW_New req (e_options request).

(** ** The engine *)

Definition DefaultReceivingMessagesCacheMaxEntries : Z := 4096.

Record sendingMessage : Type := mkSending {
  s_Message : option EMsg;
  s_matchingKey : Z;
  s_requestCode : Z;
  s_endpoint : list byte
}.

Definition newSendingMessage (msg : EMsg) : sendingMessage := mkSending (Some msg) 0 0 [].

(** The body of [g_Message] is [g_file]; its [e_body] is not used. *)
Record messageGuard (F : Type) : Type := mkGuard {
  g_Message : EMsg;
  g_file : F;
  g_matchingKey : Z;
  g_received : Z
}.
Arguments mkGuard {F} _ _ _ _.
Arguments g_Message {F} _.
Arguments g_file {F} _.
Arguments g_matchingKey {F} _.
Arguments g_received {F} _.

Record receivedBlock : Type := mkReceivedBlock {
  rb_exchangeKey : Z;
  rb_matchingKey : Z;
  rb_token : list byte;
  rb_blockType : Z;
  rb_sizeType : Z;
  rb_szx : Z;
  rb_reqSzx : Z;
  rb_maxSzx : Z;
  rb_num : Z;
  rb_more : bool
}.

Record transferKeys : Type := mkKeys { tk_exchange : Z; tk_matching : Z }.

Record Env : Type := mkEnv {
  now : Z;
  getSentRequestFromOutside : list byte -> option EMsg;
  GetToken : result (list byte);
  acquire : option error;  (** [Acquire] of the semaphore of a transfer *)
  order_block1 : list Z;
  order_block2 : list Z;
  order_purge : list Z;
  qblock_Handle : option RW  (** the writer the Q-Block engine leaves when it takes the message *)
}.

Section Engine.
Context {F : Type} `{!MemFile F}.

(** A receiving element expires with the exchange key that its callback deletes from the
    sending cache; [None] is the default callback. *)
Notation RElement := (Element (messageGuard F) (option Z)).
Notation SElement := (Element sendingMessage unit).
Notation RCache := (Cache (K := Z) (D := messageGuard F) (F := option Z)).
Notation SCache := (Cache (K := Z) (D := sendingMessage) (F := unit)).

Record BlockWise : Type := mkBlockWise {
  receiving : RCache;
  receiving_heap : ptr -> RElement;
  sending : SCache;
  sending_heap : ptr -> SElement;
  fresh_ptr : ptr;
  receivingMessagesCacheMaxEntries : Z;
  expiration : Z;
  rollingExpiration : bool;
  maxReceiveBodySize : Z
}.

Definition BlockWise_New (expiration : Z) : BlockWise :=
  mkBlockWise NewCache (fun _ => mkElement 0 (mkGuard (AcquireMessage None) memfile_New 0 0) None)
    NewCache (fun _ => mkElement 0 (mkSending None 0 0 []) tt) 1%N
    DefaultReceivingMessagesCacheMaxEntries expiration false 0.

Implicit Types (b : BlockWise) (env : Env).

Definition with_receiving b (c : RCache) (h : ptr -> RElement) : BlockWise :=
  mkBlockWise c h (sending b) (sending_heap b) (fresh_ptr b) (receivingMessagesCacheMaxEntries b)
    (expiration b) (rollingExpiration b) (maxReceiveBodySize b).
Definition with_sending b (c : SCache) (h : ptr -> SElement) : BlockWise :=
  mkBlockWise (receiving b) (receiving_heap b) c h (fresh_ptr b) (receivingMessagesCacheMaxEntries b)
    (expiration b) (rollingExpiration b) (maxReceiveBodySize b).
Definition with_fresh b (p : ptr) : BlockWise :=
  mkBlockWise (receiving b) (receiving_heap b) (sending b) (sending_heap b) p
    (receivingMessagesCacheMaxEntries b) (expiration b) (rollingExpiration b) (maxReceiveBodySize b).
Definition with_limits b (entries : Z) (rolling : bool) (size : Z) : BlockWise :=
  mkBlockWise (receiving b) (receiving_heap b) (sending b) (sending_heap b) (fresh_ptr b)
    entries (expiration b) rolling size.

Definition SetRollingExpiration b (enabled : bool) : BlockWise :=
  with_limits b (receivingMessagesCacheMaxEntries b) enabled (maxReceiveBodySize b).
Definition SetMaxReceiveBodySize b (size : Z) : BlockWise :=
  with_limits b (receivingMessagesCacheMaxEntries b) (rollingExpiration b) (Z.max size 0).
Definition SetReceivingMessagesCacheMaxEntries b (maxEntries : Z) : BlockWise :=
  with_limits b (Z.max maxEntries 0) (rollingExpiration b) (maxReceiveBodySize b).

(** Cells of the heaps. *)
Definition fn_set {A} (h : ptr -> A) (p : ptr) (x : A) : ptr -> A := fun q => if (q =? p)%N then x else h q.

Definition guard_at b (p : ptr) : messageGuard F := Data (receiving_heap b p).
Definition set_guard b (p : ptr) (g : messageGuard F) : BlockWise :=
  let e := receiving_heap b p in
  with_receiving b (receiving b) (fn_set (receiving_heap b) p (mkElement (ValidUntil e) g (onExpire e))).
Definition sending_at b (p : ptr) : sendingMessage := Data (sending_heap b p).
Definition set_sending b (p : ptr) (s : sendingMessage) : BlockWise :=
  let e := sending_heap b p in
  with_sending b (sending b) (fn_set (sending_heap b) p (mkElement (ValidUntil e) s (onExpire e))).

(** ** Cache operations on the engine *)

Definition receiving_Load env b (key : Z) : ptr := Cache_Load (receiving_heap b) (receiving b) key (now env).
Definition receiving_Delete b (key : Z) : BlockWise :=
  with_receiving b (mkCache (Delete (entries (receiving b)) key) (calls (receiving b))) (receiving_heap b).
Definition sending_Load env b (key : Z) : ptr := Cache_Load (sending_heap b) (sending b) key (now env).
Definition sending_Delete b (key : Z) : BlockWise :=
  with_sending b (mkCache (Delete (entries (sending b)) key) (calls (sending b))) (sending_heap b).

(** [sendingMessagesCache.LoadOrStore(key, cache.NewElement(s, validUntil, nil))]. *)
Definition sending_LoadOrStore env b (key : Z) (s : sendingMessage) (validUntil : Z)
    : BlockWise * (ptr * bool) :=
  let p := fresh_ptr b in
  let h := fn_set (sending_heap b) p (NewElement tt s validUntil None) in
  let '(c, res) := Cache_LoadOrStore h (sending b) key p (now env) in
  (with_fresh (with_sending b c h) (N.succ p), res).

(** The callbacks that a purge of the receiving cache made: the calls after the first [n]. *)
Definition run_onExpire b (n : nat) : BlockWise :=
  fold_left (fun b (call : option Z * messageGuard F) =>
    match call.1 with Some key => sending_Delete b key | None => b end)
    (drop n (calls (receiving b))) b.

Definition receiving_LoadOrStoreWithLimit env b (key : Z) (g : messageGuard F) (validUntil : Z)
    : BlockWise * (ptr * bool * option cache_error) :=
  let p := fresh_ptr b in
  let h := fn_set (receiving_heap b) p (NewElement None g validUntil (Some (Some key))) in
  let n := length (calls (receiving b)) in
  let '(c, res) := LoadOrStoreWithLimit h (receiving b) key p (receivingMessagesCacheMaxEntries b)
                     (now env) (order_purge env) in
  (run_onExpire (with_fresh (with_receiving b c h) (N.succ p)) n, res).

(** The Q-Block engine's own [CheckExpirations] is in its component. *)
Definition BlockWise_CheckExpirations env b : BlockWise :=
  let n := length (calls (receiving b)) in
  let c := CheckExpirations (receiving_heap b) (receiving b) (now env) (order_purge env) in
  let b := run_onExpire (with_receiving b c (receiving_heap b)) n in
  with_sending b (CheckExpirations (sending_heap b) (sending b) (now env) (order_block2 env)) (sending_heap b).

(** ** Finding the transfer of a message *)

(** The iteration of [findMatchingBlock1Transfer]: the key and the number of matches. *)
Definition findMatchingBlock1Transfer env b (requestKey expectedOffset : Z) : Z * Z :=
  Range (fun _ => entries (receiving b))
    (fun key p '(matchingKey, matches) =>
       if IsExpired (receiving_heap b p) (now env) then (true, (matchingKey, matches)) else
       let guard := guard_at b p in
       let found := (g_matchingKey guard =? requestKey) && (g_received guard =? expectedOffset) in
       let '(matchingKey, matches) := if found then (key, matches + 1) else (matchingKey, matches) in
       (matches <? 2, (matchingKey, matches)))
    (order_block1 env) (0, 0).

Definition resolveBlock1ExchangeKey env b (r : EMsg) (remoteAddr : addr) (exchangeKey : Z) : result Z :=
  if negb (isBodyMethod (e_code r)) || negb (e_HasOption r Block1) then Ok exchangeKey else
  match remoteAddr with
  | None => Ok exchangeKey
  | Some a =>
      if negb (receiving_Load env b exchangeKey =? nil_ptr)%N || (zlen (e_token r) =? 0) then Ok exchangeKey else
      match e_GetOptionUint32 r Block1 with
      | (_, Some e) => Err e
      | (block, None) =>
          match DecodeBlockOption block with
          | (_, _, _, Some e) => Err e
          | (szx, num, _, None) =>
              if num =? 0 then Ok exchangeKey else
              let expectedOffset := num * SZX_Size szx in
              let '(matchingKey, matches) :=
                findMatchingBlock1Transfer env b (getRequestMatchingKey r a) expectedOffset in
              if 1 <? matches then Err (ErrOther "cannot identify Block1 continuation: multiple transfers match")
              else if matches =? 1 then Ok matchingKey else Ok exchangeKey
          end
      end
  end.

Definition resolveBlock2ExchangeKey env b (r : EMsg) (remoteAddr : addr) (exchangeKey : Z) : result Z :=
  if negb (mayResumeBlock2 r) || negb (sending_Load env b exchangeKey =? nil_ptr)%N then Ok exchangeKey else
  match remoteAddr with
  | None => Ok exchangeKey
  | Some a =>
      let isGet := (e_code r =? GET) || (e_code r =? FETCH) in
      let requestKey := getRequestMatchingKey r a in
      let '(matchingKey, matches) :=
        Range (fun _ => entries (sending b))
          (fun key p '(matchingKey, matches) =>
             if IsExpired (sending_heap b p) (now env) then (true, (matchingKey, matches)) else
             let s := sending_at b p in
             let isMatch := bool_decide (s_Message s <> None) && (s_matchingKey s =? requestKey) in
             let '(matchingKey, matches) := if isMatch then (key, matches + 1) else (matchingKey, matches) in
             (matches <? 2, (matchingKey, matches)))
          (order_block2 env) (0, 0) in
      if 1 <? matches then
        if isGet then Ok exchangeKey
        else Err (ErrOther "cannot identify Block2 continuation: multiple transfers match")
      else if matches =? 1 then Ok matchingKey else Ok exchangeKey
  end.

(** The message of a sending element, unless the element is gone or expired. *)
Definition sending_message env b (key : Z) : option EMsg :=
  let p := sending_Load env b key in
  if (p =? nil_ptr)%N then None else s_Message (sending_at b p).

Definition getSendingMessageCode env b (key : Z) : Z * bool :=
  match sending_message env b key with
  | None => (Empty, false)
  | Some m => (e_code m, true)
  end.

Definition getSentRequest env b (exchangeKey : Z) (token : list byte) : option EMsg :=
  match sending_message env b exchangeKey with
  | Some m => Some (CloneMessage m)
  | None => if zlen token =? 0 then None else getSentRequestFromOutside env token
  end.

Definition getValidUntil env b (sentRequest : option EMsg) : Z :=
  default (now env + expiration b) (sentRequest ≫= e_deadline).

(** ** Sending *)

Definition invalidateObservationTransfers env b (endpoint : list byte) : BlockWise :=
  let '(b, drop) :=
    Range (fun st : BlockWise * list Z => entries (sending (fst st)))
      (fun key p '(b, drop) =>
         let s := sending_at b p in
         if ((s_requestCode s =? GET) || (s_requestCode s =? FETCH)) &&
            bool_decide (s_endpoint s = endpoint) && negb (s_matchingKey s =? 0)
         then (true, (set_sending b p (mkSending (s_Message s) 0 (s_requestCode s) (s_endpoint s)),
                      if key =? s_matchingKey s then drop ++ [key] else drop))
         else (true, (b, drop)))
      (order_block2 env) (b, []) in
  fold_left sending_Delete drop b.

Definition startSendingMessage env b (w : RW) (maxSZX maxMessageSize block exchangeKey : Z) (m : sendingMatch)
    : option (BlockWise * RW * option error) :=
  let payloadSize := e_BodySize (RW_Message w) in
  if payloadSize <? SZX_Size maxSZX then Some (b, w, None) else
  match createSendingMessage (RW_Message w) maxSZX maxMessageSize block with
  | None => None
  | Some (Err e) => Some (b, w, Some e)
  | Some (Ok (sendingMessage, _)) =>
      let '(w, originalSendingMessage) := RW_Swap w sendingMessage in
      if isObserveResponse (RW_Message w) && negb (sm_code m =? FETCH) then Some (b, w, None) else
      let expire := default (now env + expiration b) (e_deadline sendingMessage) in
      let s := mkSending (Some originalSendingMessage) (sm_key m) (sm_code m) (sm_endpoint m) in
      let '(b, (_, loaded)) := sending_LoadOrStore env b exchangeKey s expire in
      if loaded then Some (b, w, Some (ErrOther "cannot add message to sending message cache"))
      else Some (b, w, None)
  end.

Definition continueSendingMessage env b (w : RW) (r : EMsg) (maxSZX maxMessageSize sendingMessageCode exchangeKey : Z)
    : option (RW * result bool) :=
  let blockType := if isBodyMethod sendingMessageCode then Block1 else Block2 in
  match e_GetOptionUint32 r blockType with
  | (_, Some e) => Some (w, Err e)
  | (block, None) =>
      match sending_message env b exchangeKey with
      | None => Some (w, Err (ErrOther "cannot find sending message"))
      | Some message =>
          match createSendingMessage message maxSZX maxMessageSize block with
          | None => None
          | Some (Err e) => Some (w, Err e)
          | Some (Ok (sendMessage, more)) =>
              let sendMessage := if IsRequestCode (e_code r) then e_SetToken sendMessage (e_token r) else sendMessage in
              Some (RW_SetMessage w sendMessage, Ok more)
          end
      end
  end.

(** [do] sends the request and waits for the response; meanwhile the engine handles what
    the peer sends. *)
Definition Do {A} env b (r : EMsg) (maxSzx maxMessageSize : Z) (remoteAddr : addr)
    (do : BlockWise -> EMsg -> BlockWise * result A) : BlockWise * result A :=
  if SZXBERT <? maxSzx then (b, Err (ErrOther "invalid szx")) else
  match getExchangeKey (e_token r) remoteAddr with
  | Err e => (b, Err e)
  | Ok exchangeKey =>
      let expire := default (now env + expiration b) (e_deadline r) in
      let '(b, (p, loaded)) := sending_LoadOrStore env b exchangeKey (newSendingMessage r) expire in
      if loaded then
        (b, Err (ErrOther (if zlen (e_token r) =? 0 then "tokenless request already in progress" else "invalid token")))
      else
        let '(b, res) := match prepareSendingRequest r maxSzx maxMessageSize with
                         | Err e => (b, Err e)
                         | Ok (_, req) => do b req
                         end in
        let b := sending_Delete b exchangeKey in
        let s := sending_at b p in
        (set_sending b p (mkSending None (s_matchingKey s) (s_requestCode s) (s_endpoint s)), res)
  end.

(** The message given to the callback that writes it; [handled] is the answer of the
    Q-Block engine's [WriteNotification]. *)
Definition WriteMessage env b (request : EMsg) (maxSZX maxMessageSize : Z) (remoteAddr : addr)
    (handled : option (option error)) : option (BlockWise * result (option EMsg)) :=
  match handled with
  | Some (Some e) => Some (b, Err e)
  | Some None => Some (b, Ok None)
  | None =>
      match EncodeBlockOption maxSZX 0 true with
      | (_, Some e) => Some (b, Err e)
      | (startSendingMessageBlock, None) =>
          match getExchangeKey (e_token request) remoteAddr with
          | Err e => Some (b, Err e)
          | Ok exchangeKey =>
              let b := match remoteAddr with
                       | Some a => if isObserveResponse request then invalidateObservationTransfers env b a else b
                       | None => b
                       end in
              let w := newWriteRequestResponse request in
              match startSendingMessage env b w maxSZX maxMessageSize startSendingMessageBlock exchangeKey no_match with
              | None => None
              | Some (b, _, Some e) => Some (b, Err e)
              | Some (b, w, None) => Some (b, Ok (Some (RW_Message w)))
              end
          end
      end
  end.

(** ** Receiving *)

(** The state of one call of [Handle]: the engine, the writer, the request, the errors
    reported and the messages given to the handler. *)
Record St : Type := mkSt {
  st_engine : BlockWise;
  st_w : RW;
  st_r : EMsg;
  st_errors : list error;
  st_delivered : list EMsg
}.

Definition set_engine (st : St) b : St := mkSt b (st_w st) (st_r st) (st_errors st) (st_delivered st).
Definition set_w (st : St) (w : RW) : St := mkSt (st_engine st) w (st_r st) (st_errors st) (st_delivered st).
Definition set_r (st : St) (r : EMsg) : St := mkSt (st_engine st) (st_w st) r (st_errors st) (st_delivered st).
Definition report (st : St) (e : error) : St :=
  mkSt (st_engine st) (st_w st) (st_r st) (st_errors st ++ [e]) (st_delivered st).

Section Handler.
Context (next : RW -> EMsg -> RW * EMsg).

(** [next(w, r)] on the request itself, and on an assembled message. *)
Definition next_request (st : St) : St :=
  let '(w, r) := next (st_w st) (st_r st) in
  mkSt (st_engine st) w r (st_errors st) (st_delivered st ++ [st_r st]).
Definition next_assembled (st : St) (m : EMsg) : St :=
  let '(w, _) := next (st_w st) m in
  mkSt (st_engine st) w (st_r st) (st_errors st) (st_delivered st ++ [m]).

Definition handleObserveResponse env b (sentRequest : option EMsg) : BlockWise * result (list byte * Z) :=
  match sentRequest with
  | None => (b, Err (ErrOther "observation is not registered"))
  | Some sentRequest =>
      match GetToken env with
      | Err e => (b, Err e)
      | Ok token =>
          let validUntil := now env + expiration b in
          let bwSentRequest := e_SetToken (CloneMessage sentRequest) token in
          let '(b, (_, loaded)) :=
            sending_LoadOrStore env b (Token_Hash token) (newSendingMessage bwSentRequest) validUntil in
          if loaded then (b, Err (ErrOther "cannot process message: message with token already exist"))
          else (b, Ok (token, validUntil))
      end
  end.

(** [BodySize] of a message whose body is a file. *)
Definition file_BodySize (f : F) : F * result Z :=
  match memfile_Seek f 0 SeekCurrent with
  | (f, (_, Some e)) => (f, Err e)
  | (f, (orig, None)) =>
      match memfile_Seek f 0 SeekStart with
      | (f, (_, Some e)) => (f, Err e)
      | (f, (_, None)) =>
          match memfile_Seek f 0 SeekEnd with
          | (f, (_, Some e)) => (f, Err e)
          | (f, (size, None)) =>
              match memfile_Seek f orig SeekStart with
              | (f, (_, Some e)) => (f, Err e)
              | (f, (_, None)) => (f, Ok size)
              end
          end
      end
  end.

Definition set_file (g : messageGuard F) (f : F) : messageGuard F :=
  mkGuard (g_Message g) f (g_matchingKey g) (g_received g).

(** Only files are stored as bodies of guards, so the type assertion on the body holds. *)
Definition getPayloadFromCachedReceivedMessage (r : EMsg) (g : messageGuard F) : messageGuard F * result Z :=
  let '(rETAG, errETAG) := e_GetOptionBytes r ETag in
  let '(cachedETAG, errCached) := e_GetOptionBytes (g_Message g) ETag in
  let '(g, err) :=
    match errETAG, errCached with
    | None, Some _ =>
        (g, if 0 <? zlen cachedETAG
            then Some (ErrOther "received message doesn't contains ETAG but cached received message contains it")
            else None)
    | Some _, None =>
        (g, if 0 <? zlen rETAG
            then Some (ErrOther "received message contains ETAG but cached received message doesn't") else None)
    | _, _ =>
        if negb (bool_decide (rETAG = cachedETAG)) then
          let msg := e_SetOptionBytes (g_Message g) ETag rETAG in
          let '(f, err) := memfile_Truncate (g_file g) 0 in
          (mkGuard msg f (g_matchingKey g) (g_received g), err)
        else (g, None)
    end in
  match err with
  | Some e => (g, Err e)
  | None => let '(f, res) := file_BodySize (g_file g) in (set_file g f, res)
  end.

(** Reports whether the request was answered with 4.13. *)
Definition rejectTooLarge (st : St) (blockType : Z) (token : list byte) (off : Z) : St * bool :=
  let b := st_engine st in
  if negb (blockType =? Block1) || (maxReceiveBodySize b <=? 0) then (st, false) else
  let size := receiveBodySize (st_r st) off in
  if size <=? maxReceiveBodySize b then (st, false)
  else (report (set_w st (SendEntityTooLarge (st_w st) token (maxReceiveBodySize b))) ErrRequestEntityTooLarge, true).

(** [io.Copy] writes the whole body in one [Write], and nothing for an empty one. *)
Definition copyToPayloadFromOffset (r : EMsg) (payloadFile : F) (offset : Z) : F * result Z :=
  match memfile_Seek payloadFile offset SeekStart with
  | (f, (_, Some e)) => (f, Err e)
  | (f, (copyn, None)) =>
      let '(f, (written, err)) :=
        match e_body r with
        | Some ((_ :: _) as data) => memfile_Write f data
        | _ => (f, (0, None))
        end in
      match err with
      | Some e => (f, Err e)
      | None =>
          let payloadSize := copyn + written in
          match memfile_Truncate f payloadSize with
          | (f, Some e) => (f, Err e)
          | (f, None) => (f, Ok payloadSize)
          end
      end
  end.

(** The guard, and whether the caller already holds its lock. *)
Definition getOrCreateReceivedMessageGuard env b (r : EMsg) (exchangeKey matchingKey validUntil : Z)
    : BlockWise * result (ptr * bool) :=
  let p := receiving_Load env b exchangeKey in
  if negb (p =? nil_ptr)%N then (b, Ok (p, false)) else
  let msg := AcquireMessage (e_deadline r) in
  let msg := e_ResetOptionsTo msg (e_options r) in
  let msg := e_SetToken msg (e_token r) in
  let msg := e_SetSequence msg (e_sequence r) in
  let msg := e_SetCode msg (e_code r) in
  let mg := mkGuard msg memfile_New matchingKey 0 in
  match acquire env with
  | Some e => (b, Err e)
  | None =>
      let '(b, (p, loaded, err)) := receiving_LoadOrStoreWithLimit env b exchangeKey mg validUntil in
      match err with
      | Some _ => (b, Err ErrReceivingMessagesCacheFull)
      | None => (b, Ok (p, negb loaded))
      end
  end.

Definition getCachedReceivedMessage env b (mg : ptr) (r : EMsg) (block : receivedBlock) (validUntil : Z)
    : BlockWise * result ptr :=
  let '(b, res) :=
    if (mg =? nil_ptr)%N
    then getOrCreateReceivedMessageGuard env b r (rb_exchangeKey block) (rb_matchingKey block) validUntil
    else (b, Ok (mg, false)) in
  match res with
  | Err e => (b, Err e)
  | Ok (mg, true) => (b, Ok mg)
  | Ok (mg, false) => match acquire env with
                      | Some e => (b, Err e)
                      | None => (b, Ok mg)
                      end
  end.

Definition refreshReceiveExpiration env b (block : receivedBlock) (newData : bool) : BlockWise :=
  if negb (rb_more block) || negb (rb_blockType block =? Block1) || negb (rollingExpiration b) || negb newData
  then b
  else
    let p := receiving_Load env b (rb_exchangeKey block) in
    if (p =? nil_ptr)%N then b else
    let e := receiving_heap b p in
    with_receiving b (receiving b)
      (fn_set (receiving_heap b) p (mkElement (now env + expiration b) (data e) (onExpire e))).

Definition sendReceivedBlockContinue (w : RW) (r : EMsg) (block : receivedBlock) (sentRequest : option EMsg)
    (payloadSize : Z) : option (RW * option error) :=
  let szx := getSzx (rb_szx block) (rb_maxSzx block) in
  let sendMessage := e_SetToken (AcquireMessage (e_deadline r)) (rb_token block) in
  let prepared :=
    if rb_blockType block =? Block2 then
      match sentRequest with
      | None => None  (* a nil message *)
      | Some sentRequest =>
          let m := e_ResetOptionsTo sendMessage (e_options sentRequest) in
          let m := e_SetCode m (e_code sentRequest) in
          Some (Z.quot payloadSize (SZX_Size szx), e_Remove (e_Remove (e_Remove m Observe) Block1) Size1)
      end
    else Some (rb_num block, e_SetCode sendMessage Continue) in
  match prepared with
  | None => None
  | Some (num, sendMessage) =>
      match EncodeBlockOption szx num (rb_more block) with
      | (_, Some e) => Some (w, Some e)
      | (respBlock, None) =>
          Some (RW_SetMessage w (e_SetOptionUint32 sendMessage (rb_blockType block) respBlock), None)
      end
  end.

Definition send_continue (st : St) (block : receivedBlock) (sentRequest : option EMsg) (payloadSize : Z)
    : option (St * option error) :=
  match sendReceivedBlockContinue (st_w st) (st_r st) block sentRequest payloadSize with
  | None => None
  | Some (w, err) => Some (set_w st w, err)
  end.

Definition appendReceivedBlock env (st : St) (mg : ptr) (block : receivedBlock) (sentRequest : option EMsg)
    (payloadSize off : Z) : option (St * option error) :=
  if negb (off =? payloadSize) then send_continue st block sentRequest payloadSize else
  let b := st_engine st in
  let g := guard_at b mg in
  let '(f, res) := copyToPayloadFromOffset (st_r st) (g_file g) off in
  match res with
  | Err e => Some (set_engine st (set_guard b mg (set_file g f)), Some e)
  | Ok payloadSize =>
      let b := set_guard b mg (mkGuard (g_Message g) f (g_matchingKey g) payloadSize) in
      let b := refreshReceiveExpiration env b block (off <? payloadSize) in
      if rb_more block then send_continue (set_engine st b) block sentRequest payloadSize else
      let b := receiving_Delete b (rb_exchangeKey block) in
      let m := g_Message g in
      let m := e_Remove m (rb_blockType block) in
      let m := e_Remove m (rb_sizeType block) in
      let m := e_SetType m (e_type (st_r st)) in
      let b := if bool_decide (e_token m = rb_token block) then b else sending_Delete b (rb_exchangeKey block) in
      match memfile_Seek f 0 SeekStart with
      | (f, (_, Some e)) =>
          Some (set_engine st (set_guard b mg (mkGuard m f (g_matchingKey g) payloadSize)), Some e)
      | (f, (_, None)) =>
          let b := set_guard b mg (mkGuard m f (g_matchingKey g) payloadSize) in
          Some (next_assembled (set_engine st b) (e_SetBody m (Some (memfile_Bytes f))), None)
      end
  end.

(** The deferred [Delete] of [processCachedReceivedBlock]. *)
Definition delete_on_error (block : receivedBlock) (res : option (St * option error)) : option (St * option error) :=
  match res with
  | Some (st, Some e) => Some (set_engine st (receiving_Delete (st_engine st) (rb_exchangeKey block)), Some e)
  | _ => res
  end.

Definition processCachedReceivedBlock env (st : St) (mg : ptr) (block : receivedBlock) (sentRequest : option EMsg)
    : option (St * option error) :=
  delete_on_error block (
    let b := st_engine st in
    let '(g, res) := getPayloadFromCachedReceivedMessage (st_r st) (guard_at b mg) in
    let st := set_engine st (set_guard b mg g) in
    match res with
    | Err e => Some (st, Some e)
    | Ok payloadSize =>
        let full := if (rb_blockType block =? Block1) && rb_more block
                    then checkFullBlock (st_r st) (rb_reqSzx block) else None in
        match full with
        | Some e => Some (st, Some e)
        | None =>
            let off := rb_num block * SZX_Size (rb_szx block) in
            if (rb_blockType block =? Block1) &&
               ((payloadSize <? off) || ((off <? payloadSize) && negb (rb_more block)))
            then Some (st, Some ErrRequestEntityIncomplete)
            else
              let '(st, tooLarge) := rejectTooLarge st (rb_blockType block) (rb_token block) off in
              if tooLarge
              then Some (set_engine st (receiving_Delete (st_engine st) (rb_exchangeKey block)), None)
              else appendReceivedBlock env st mg block sentRequest payloadSize off
        end
    end).

Definition with_observe (block : receivedBlock) (token : list byte) : receivedBlock :=
  mkReceivedBlock (Token_Hash token) (rb_matchingKey block) token (rb_blockType block) (rb_sizeType block)
    (rb_szx block) (rb_reqSzx block) (rb_maxSzx block) (rb_num block) (rb_more block).
Definition with_szx (block : receivedBlock) (szx : Z) : receivedBlock :=
  mkReceivedBlock (rb_exchangeKey block) (rb_matchingKey block) (rb_token block) (rb_blockType block)
    (rb_sizeType block) szx (rb_reqSzx block) (rb_maxSzx block) (rb_num block) (rb_more block).

Definition processReceivedBlock env (st : St) (block : receivedBlock) : option (St * option error) :=
  let b := st_engine st in
  let sentRequest := getSentRequest env b (rb_exchangeKey block) (rb_token block) in
  let validUntil := getValidUntil env b sentRequest in
  if (rb_blockType block =? Block2) && bool_decide (sentRequest = None)
  then Some (st, Some (ErrOther "cannot request body without paired request")) else
  let '(b, observed) :=
    if isObserveResponse (st_r st) then handleObserveResponse env b sentRequest
    else (b, Ok (rb_token block, validUntil)) in
  let st := set_engine st b in
  match observed with
  | Err e => Some (st, Some e)
  | Ok (token, validUntil) =>
      let block := if isObserveResponse (st_r st) then with_observe block token else block in
      let mg := receiving_Load env b (rb_exchangeKey block) in
      let get_and_process block :=
        let '(b, res) := getCachedReceivedMessage env b mg (st_r st) block validUntil in
        match res with
        | Err e => Some (set_engine st b, Some e)
        | Ok mg => processCachedReceivedBlock env (set_engine st b) mg block sentRequest
        end in
      if (mg =? nil_ptr)%N then
        if (rb_blockType block =? Block1) && negb (rb_num block =? 0) then Some (st, Some ErrRequestEntityIncomplete)
        else if negb (rb_more block) then
          let '(st, tooLarge) := rejectTooLarge st (rb_blockType block) (rb_token block) 0 in
          if tooLarge then Some (st, None) else Some (next_request st, None)
        else get_and_process (with_szx block (getSzx (rb_szx block) (rb_maxSzx block)))
      else get_and_process block
  end.

Definition processReceivedMessage env (st : St) (maxSzx : Z) (keys : transferKeys) (blockType sizeType : Z)
    : option (St * option error) :=
  let r := st_r st in
  if (e_code r =? GET) || (e_code r =? DELETE) then Some (next_request st, None) else
  match e_GetOptionUint32 r blockType with
  | (_, Some e) => if bool_decide (e = ErrOptionNotFound) then Some (next_request st, None) else Some (st, Some e)
  | (block, None) =>
      match DecodeBlockOption block with
      | (_, _, _, Some e) => Some (st, Some e)
      | (szx, num, more, None) =>
          processReceivedBlock env st
            (mkReceivedBlock (tk_exchange keys) (tk_matching keys) (e_token r) blockType sizeType szx szx maxSzx num more)
      end
  end.

(** The end of [handleReceivedMessage]: the response is sent, block-wise when it is large. *)
Definition send_response env (st : St) (maxSZX maxMessageSize startSendingMessageBlock exchangeKey receivedCode : Z)
    (remoteAddr : addr) : option (St * option error) :=
  let m := getSendingMatch (st_r st) (RW_Message (st_w st)) receivedCode remoteAddr in
  match startSendingMessage env (st_engine st) (st_w st) maxSZX maxMessageSize startSendingMessageBlock exchangeKey m with
  | None => None
  | Some (b, w, Some e) => Some (set_w (set_engine st b) w, Some e)
  | Some (b, w, None) =>
      let w := RW_SetMessage w (echoFinalBlock1 (RW_Message w) (st_r st) receivedCode) in
      Some (set_w (set_engine st b) w, None)
  end.

Definition and_then (res : option (St * option error)) (k : St -> option (St * option error)) : option (St * option error) :=
  match res with
  | Some (st, None) => k st
  | _ => res
  end.

Definition handleReceivedMessage env (st : St) (maxSZX maxMessageSize : Z) (remoteAddr : addr) (exchangeKey : Z)
    : option (St * option error) :=
  match EncodeBlockOption maxSZX 0 true with
  | (_, Some e) => Some (st, Some e)
  | (startSendingMessageBlock, None) =>
      let r := st_r st in
      let receivedCode := e_code r in
      if (receivedCode =? Empty) || (receivedCode =? CSM) || (receivedCode =? Ping) || (receivedCode =? Pong) ||
         (receivedCode =? Release) || (receivedCode =? Abort)
      then Some (next_request st, None)
      else if (receivedCode =? GET) || (receivedCode =? DELETE) then
        let maxSZX := fitSZX r Block2 maxSZX in
        let '(block, errG) := e_GetOptionUint32 r Block2 in
        let st := next_request st in
        let startSendingMessageBlock :=
          if (e_code (RW_Message (st_w st)) =? Content) && bool_decide (errG = None) then block
          else startSendingMessageBlock in
        send_response env st maxSZX maxMessageSize startSendingMessageBlock exchangeKey receivedCode remoteAddr
      else if isBodyMethod receivedCode then
        let maxSZX := fitSZX r Block1 maxSZX in
        and_then (processReceivedMessage env st maxSZX (mkKeys exchangeKey (requestMatchingKey r remoteAddr)) Block1 Size1)
          (fun st => send_response env st maxSZX maxMessageSize startSendingMessageBlock exchangeKey receivedCode remoteAddr)
      else
        let st := if Created <=? receivedCode then set_r st (e_Remove r Block1) else st in
        let maxSZX := fitSZX (st_r st) Block2 maxSZX in
        and_then (processReceivedMessage env st maxSZX (mkKeys exchangeKey 0) Block2 Size2)
          (fun st => send_response env st maxSZX maxMessageSize startSendingMessageBlock exchangeKey receivedCode remoteAddr)
  end.

Definition reject (st : St) (token : list byte) (e : error) : St :=
  report (set_w st (if bool_decide (e = ErrReceivingMessagesCacheFull) then SendServiceUnavailable (st_w st) token
                    else sendEntityIncomplete (st_w st) token)) e.

Definition Handle env b (w : RW) (r : EMsg) (maxSZX maxMessageSize : Z) (remoteAddr : addr) : option St :=
  let st := mkSt b w r [] [] in
  if SZXBERT <? maxSZX then None else
  match qblock_Handle env with
  | Some w => Some (set_w st w)
  | None =>
  let token := e_token r in
  match getMessageExchangeKey r remoteAddr with
  | Err e => Some (report st e)
  | Ok exchangeKey =>
  match resolveBlock1ExchangeKey env b r remoteAddr exchangeKey with
  | Err e => Some (report (set_w st (sendEntityIncomplete w token)) e)
  | Ok exchangeKey =>
  match resolveBlock2ExchangeKey env b r remoteAddr exchangeKey with
  | Err e => Some (report (set_w st (sendEntityIncomplete w token)) e)
  | Ok exchangeKey =>
      let '(sendingMessageCode, sendingMessageExist) := getSendingMessageCode env b exchangeKey in
      if negb sendingMessageExist || wantsToBeReceived r then
        match handleReceivedMessage env st maxSZX maxMessageSize remoteAddr exchangeKey with
        | None => None
        | Some (st, None) => Some st
        | Some (st, Some e) => Some (reject st token e)
        end
      else
        match continueSendingMessage env b w r maxSZX maxMessageSize sendingMessageCode exchangeKey with
        | None => None
        | Some (w, Err e) => Some (report (set_engine (set_w st w) (sending_Delete b exchangeKey)) e)
        | Some (w, Ok more) =>
            let b := if negb more && negb (IsRequestCode sendingMessageCode) then sending_Delete b exchangeKey else b in
            Some (set_engine (set_w st w) b)
        end
  end end end end.
End Handler.
End Engine.
