(* ===== verification/BlockwiseLemmas.v ===== *)
(** * Lemmas on the block-wise engine

    What the operations of [Blockwise] do on files, on the caches and on the options of
    messages: the library that the theorems of [BlockwiseUpload], [BlockwiseDownload] and
    [BlockwiseLimits] share. *)
From stdpp Require Import prelude gmap fin_maps list strings.
From Stdlib Require Import ZArith Lia.
From S2P Require Import Prelude Cast Codes OptionCodec Options Message PoolMessage BlockCodec Crc64 SyncMap.
From S2P Require Import Cache EngineMessage ResponseWriter ExchangeKey Blockwise.
#[local] Open Scope Z_scope.

(** ** Files *)

#[export] Program Instance ListFile_laws : MemFileLaws ListFile := {| file_pos f := Z.of_N (lf_pos f) |}.
Next Obligation. intros f. apply N2Z.is_nonneg. Qed.
Next Obligation. done. Qed.
Next Obligation.
  intros f o Ho. cbn. destruct (Z.ltb_spec o 0); [lia|]. eexists. split; [done|]. cbn. split; [done|]. lia.
Qed.
Next Obligation.
  intros f. cbn. rewrite Z.add_0_r. destruct (Z.ltb_spec (Z.of_N (lf_pos f)) 0); [lia|].
  eexists. split; [done|]. cbn. split; [done|]. lia.
Qed.
Next Obligation.
  intros f. cbn. rewrite Z.add_0_r. pose proof (zlen_nonneg (lf_bytes f)).
  destruct (Z.ltb_spec (zlen (lf_bytes f)) 0); [lia|]. eexists. split; [done|]. cbn. split; [done|]. lia.
Qed.
Next Obligation.
  intros f p Hp. cbn in *. rewrite Hp. eexists. split; [done|]. cbn.
  rewrite slice_to_all, Z.sub_diag by done. pose proof (zlen_nonneg p).
  unfold slice_from. rewrite drop_ge by (unfold zlen; lia). by rewrite !app_nil_r.
Qed.
Next Obligation.
  intros f n Hn. cbn in *. eexists. split; [done|]. cbn. unfold make_bytes.
  replace (Z.to_nat (n - zlen (lf_bytes f))) with 0%nat by lia. by rewrite app_nil_r.
Qed.

(** Reading from a [bytes.Reader] after seeking is [body_ReadFull], past the end too. *)
Lemma body_ReadFull_Reader (s : list byte) i off n :
  0 <= off -> 0 <= n ->
  Reader_Seek (mkReader s i) off SeekStart = (mkReader s off, (off, None)) /\
  snd (ReadFull (mkReader s off) n) = body_ReadFull s off n.
Proof.
  intros Ho Hn. unfold Reader_Seek. destruct (Z.ltb_spec off 0); [lia|]. split; [done|].
  unfold body_ReadFull. destruct (Z.eqb_spec n 0) as [-> | Hnz]; [done|].
  destruct (Z.le_gt_cases off (zlen s)) as [Hle | Hgt].
  - unfold ReadFull.
    destruct (ReadFull_loop_spec (S (Z.to_nat n)) (mkReader s off) n [] off)
      as (b & d & err & -> & _ & _ & Hd & Hz & He); try done;
      try change (zlen (@nil byte)) with 0; try (change (0 <= off <= zlen s)); try (change (off = off + 0)); try lia.
    change (content (mkReader s off)) with s in *. rewrite zlen_slice_from by lia. cbn [snd]. rewrite He.
    destruct (Z.leb_spec n (zlen s - off)) as [Hfull | Hpart].
    + destruct (Z.leb_spec n (zlen d)); [|lia]. by rewrite Hd.
    + rewrite slice_to_all in Hd by (rewrite zlen_slice_from; lia).
      destruct (Z.leb_spec n (zlen d)), (Z.ltb_spec (zlen d) n); try lia. rewrite bool_decide_true, andb_true_r by done.
      replace (zlen d) with (zlen s - off) by lia. destruct (Z.ltb_spec 0 (zlen s - off)); [by rewrite Hd|].
      f_equal. apply zlen_0_nil. lia.
  - assert (slice_from s off = []) as -> by (unfold slice_from; apply drop_ge; unfold zlen in *; lia).
    change (zlen (@nil byte)) with 0. destruct (Z.leb_spec n 0); [lia|]. cbn [Z.ltb Z.compare].
    unfold ReadFull. cbn [ReadFull_loop]. change (zlen (@nil byte)) with 0.
    destruct (Z.ltb_spec 0 n); [|lia]. cbn [Read Reader_ReadSeeker]. unfold Reader_Read. cbn [r_s r_i].
    destruct (Z.leb_spec (zlen s) off); [|lia]. cbn [snd app]. change (zlen (@nil byte)) with 0.
    by destruct (Z.leb_spec n 0); [lia|].
Qed.

Section Files.
Context {F : Type} `{!MemFile F} `{!MemFileLaws F}.

Lemma file_BodySize_spec (f : F) :
  exists f', file_BodySize f = (f', Ok (zlen (memfile_Bytes f))) /\ memfile_Bytes f' = memfile_Bytes f.
Proof.
  unfold file_BodySize. destruct (file_seek_current f) as (f1 & -> & E1 & _).
  destruct (file_seek_start f1 0) as (f2 & -> & E2 & _); [done|].
  destruct (file_seek_end f2) as (f3 & -> & E3 & _).
  destruct (file_seek_start f3 (file_pos f)) as (f4 & -> & E4 & _); [apply file_pos_nonneg|].
  exists f4. rewrite <-E1, <-E2. split; [done|]. congruence.
Qed.

(** Appending the body of a block at the end of the file. *)
Lemma copyToPayloadFromOffset_spec (r : EMsg) (f : F) :
  exists f', copyToPayloadFromOffset r f (zlen (memfile_Bytes f)) =
      (f', Ok (zlen (memfile_Bytes f) + zlen (default [] (e_body r)))) /\
    memfile_Bytes f' = memfile_Bytes f ++ default [] (e_body r).
Proof.
  unfold copyToPayloadFromOffset. pose proof (zlen_nonneg (memfile_Bytes f)).
  destruct (file_seek_start f (zlen (memfile_Bytes f))) as (f1 & -> & E1 & P1); [done|].
  assert (Htrunc : forall f2 (d : list byte), memfile_Bytes f2 = memfile_Bytes f ++ d ->
    exists f', (match memfile_Truncate f2 (zlen (memfile_Bytes f) + zlen d) with
                | (f, Some e) => (f, Err e)
                | (f3, None) => (f3, Ok (zlen (memfile_Bytes f) + zlen d))
                end) = (f', Ok (zlen (memfile_Bytes f) + zlen d)) /\ memfile_Bytes f' = memfile_Bytes f ++ d).
  { intros f2 d E2. destruct (file_truncate f2 (zlen (memfile_Bytes f) + zlen d)) as (f3 & -> & E3).
    { rewrite E2, zlen_app. pose proof (zlen_nonneg d). lia. }
    exists f3. split; [done|]. rewrite E3, E2. apply slice_to_all. rewrite zlen_app. lia. }
  destruct (e_body r) as [[|x d]|]; cbn [default from_option id].
  - apply (Htrunc f1 []). by rewrite app_nil_r.
  - destruct (file_write_end f1 (x :: d)) as (f2 & -> & E2); [by rewrite P1, E1|].
    apply Htrunc. by rewrite E2, E1.
  - apply (Htrunc f1 []). by rewrite app_nil_r.
Qed.

(** Blocks with the entity tag of the transfer leave the guard as it is. *)
Lemma getPayload_same_etag (r : EMsg) (g : messageGuard F) :
  e_GetOptionBytes r ETag = e_GetOptionBytes (g_Message g) ETag ->
  exists f', getPayloadFromCachedReceivedMessage r g = (set_file g f', Ok (zlen (memfile_Bytes (g_file g)))) /\
    memfile_Bytes f' = memfile_Bytes (g_file g).
Proof.
  intros E. unfold getPayloadFromCachedReceivedMessage. rewrite E.
  destruct (e_GetOptionBytes (g_Message g) ETag) as [tag err].
  destruct (file_BodySize_spec (g_file g)) as (f' & Hf & Eb). exists f'. split; [|done].
  destruct err; cbn; rewrite bool_decide_true by done; cbn; by rewrite Hf.
Qed.
End Files.

(** ** The blocks of a message *)

(** The types of the block and size options of a transfer. *)
Definition block_type (m : EMsg) : Z := if isBodyMethod (e_code m) then Block1 else Block2.
Definition size_type (m : EMsg) : Z := if isBodyMethod (e_code m) then Size1 else Size2.

(** The bytes of block [num], and whether more follow. *)
Definition chunk (body : list byte) (szx num : Z) : list byte :=
  slice_to (slice_from body (num * SZX_Size szx)) (SZX_Size szx).
Definition more_after (body : list byte) (szx num : Z) : bool := (num + 1) * SZX_Size szx <? zlen body.

(** Block [num] of the message. *)
Definition block_message (m : EMsg) (body : list byte) (szx num : Z) : EMsg :=
  let o := Options_Set (e_options m) (mkOption (size_type m) (uint_bytes (zlen body))) in
  let o := Options_Set o (mkOption (block_type m) (uint_bytes (packed szx num (more_after body szx num)))) in
  mkEMsg (e_code m) (e_token m) o (e_type m) 0 (Some (chunk body szx num)) (e_deadline m).

Lemma zlen_chunk body szx num :
  0 <= szx <= 6 -> 0 <= num -> num * SZX_Size szx <= zlen body ->
  zlen (chunk body szx num) = Z.min (SZX_Size szx) (zlen body - num * SZX_Size szx).
Proof.
  intros Hs Hn Hl. pose proof (SZX_Size_bounds szx Hs). unfold chunk, slice_to, slice_from, zlen in *.
  rewrite length_take, length_drop. lia.
Qed.

Lemma chunk_full body szx num :
  0 <= szx <= 6 -> 0 <= num -> more_after body szx num = true -> zlen (chunk body szx num) = SZX_Size szx.
Proof.
  intros Hs Hn Hm. unfold more_after in Hm. apply Z.ltb_lt in Hm. pose proof (SZX_Size_bounds szx Hs).
  rewrite zlen_chunk by nia. nia.
Qed.

(** A prefix and the next block are a longer prefix. *)
Lemma chunk_extends body szx num :
  0 <= szx <= 6 -> 0 <= num -> num * SZX_Size szx <= zlen body ->
  slice_to body (num * SZX_Size szx) ++ chunk body szx num = slice_to body ((num + 1) * SZX_Size szx).
Proof.
  intros Hs Hn Hl. pose proof (SZX_Size_bounds szx Hs). unfold chunk, slice_to, slice_from.
  replace (Z.to_nat ((num + 1) * SZX_Size szx)) with
    (Z.to_nat (num * SZX_Size szx) + Z.to_nat (SZX_Size szx))%nat by nia.
  by rewrite <-take_take_drop.
Qed.

Lemma body_ReadFull_chunk body szx num :
  0 <= szx <= 6 -> 0 <= num -> num * SZX_Size szx <= zlen body ->
  exists err, body_ReadFull body (num * SZX_Size szx) (SZX_Size szx) = (chunk body szx num, err) /\
    (err = None \/
     (err = Some ErrUnexpectedEOF \/ err = Some ErrEOF) /\
     num * SZX_Size szx + zlen (chunk body szx num) = zlen body).
Proof.
  intros Hs Hn Hl. pose proof (SZX_Size_bounds szx Hs). rewrite zlen_chunk by done.
  unfold body_ReadFull, chunk. destruct (Z.eqb_spec (SZX_Size szx) 0); [lia|].
  rewrite zlen_slice_from by nia.
  destruct (Z.leb_spec (SZX_Size szx) (zlen body - num * SZX_Size szx)); [eauto|].
  rewrite slice_to_all by (rewrite zlen_slice_from; nia).
  destruct (Z.ltb_spec 0 (zlen body - num * SZX_Size szx)); eexists; (split; [try done|right; split; [eauto|lia]]).
  f_equal. symmetry. apply zlen_0_nil. rewrite zlen_slice_from; nia.
Qed.

Lemma SafeCastUint32_ok v : 0 <= v < 2 ^ 32 -> SafeCastUint32 v = Ok v.
Proof.
  intros Hv. unfold SafeCastUint32. assert (SafeCastTo KUint32 v = Some (v, None)) as ->; [|done].
  apply SafeCastTo_in_range; [done|]. cbn. lia.
Qed.

Section Creating.
Context (m : EMsg) (body : list byte) (szx maxSZX maxMessageSize : Z).
Context (Hsorted : sorted_opts (e_options m)) (Hbody : e_body m = Some body).
Context (Hszx : 0 <= szx <= 6) (Hmax : szx <= maxSZX) (Hlen : zlen body < 2 ^ 32).

(** Asked for a block of a transfer, [createSendingMessage] makes that block: the block
    after the acknowledged one for a request, the requested one for a response. *)
Lemma createSendingMessage_block asked more :
  let num := if isBodyMethod (e_code m) then asked + 1 else asked in
  0 <= asked -> num <= maxBlockNumber -> num * SZX_Size szx <= zlen body ->
  createSendingMessage m maxSZX maxMessageSize (packed szx asked more) =
    Some (Ok (block_message m body szx num, more_after body szx num)).
Proof.
  intros num Ha Hn Hl. pose proof (SZX_Size_bounds szx Hszx) as Hsz. pose proof (zlen_nonneg body).
  unfold createSendingMessage.
  rewrite DecodeBlockOption_packed by (subst num; destruct (isBodyMethod _); lia).
  unfold getSzx. destruct (Z.ltb_spec maxSZX szx); [lia|].
  assert (bufferSize szx maxMessageSize = SZX_Size szx) as ->.
  { unfold bufferSize, SZXBERT. by destruct (Z.ltb_spec szx 7); [|lia]. }
  assert ((if isBodyMethod (e_code m) then asked * SZX_Size szx + SZX_Size szx else asked * SZX_Size szx)
          = num * SZX_Size szx) as -> by (subst num; destruct (isBodyMethod _); lia).
  rewrite Hbody. unfold e_BodySize. rewrite Hbody. cbn [default from_option id].
  destruct (body_ReadFull_chunk body szx num) as (err & -> & Herr); [done|subst num; destruct (isBodyMethod _); lia|done|].
  assert (0 <= num) as Hnum by (subst num; destruct (isBodyMethod _); lia).
  assert (Hmore : negb (num * SZX_Size szx + zlen (chunk body szx num) =? zlen body) = more_after body szx num).
  { unfold more_after. rewrite zlen_chunk by done.
    destruct (Z.eqb_spec (num * SZX_Size szx + Z.min (SZX_Size szx) (zlen body - num * SZX_Size szx)) (zlen body)),
      (Z.ltb_spec ((num + 1) * SZX_Size szx) (zlen body)); cbn; nia. }
  assert ((if (bool_decide (err = Some ErrUnexpectedEOF) || bool_decide (err = Some ErrEOF)) &&
             (num * SZX_Size szx + zlen (chunk body szx num) =? zlen body) then None else err) = None) as ->.
  { destruct Herr as [-> | [[-> | ->] ->]]; [done|by rewrite Z.eqb_refl..]. }
  rewrite SafeCastUint32_ok by lia. rewrite Hmore, Z.quot_mul by lia.
  rewrite EncodeBlockOption_packed by lia. do 3 f_equal.
  unfold block_message, block_type, size_type, e_SetOptionUint32, e_SetBody, e_set_options. cbn.
  by rewrite (fold_Add_sorted (e_options m) []).
Qed.

Lemma prepareSendingRequest_block :
  isBodyMethod (e_code m) = true -> SZX_Size szx < zlen body ->
  prepareSendingRequest m szx maxMessageSize = Ok (false, block_message m body szx 0).
Proof.
  intros Hcode Hl. pose proof (SZX_Size_bounds szx Hszx) as Hsz.
  unfold prepareSendingRequest. rewrite Hbody. unfold e_BodySize. rewrite Hbody. cbn [default from_option id].
  destruct (Z.leb_spec (zlen body) (SZX_Size szx)); [lia|]. rewrite Hcode. cbn [negb].
  rewrite SafeCastUint32_ok by lia. rewrite EncodeBlockOption_packed by (unfold maxBlockNumber; lia).
  assert (bufferSize szx maxMessageSize = SZX_Size szx) as ->.
  { unfold bufferSize, SZXBERT. by destruct (Z.ltb_spec szx 7); [|lia]. }
  assert (body_ReadFull body 0 (SZX_Size szx) = (chunk body szx 0, None)) as ->.
  { unfold body_ReadFull, chunk. rewrite Z.mul_0_l, slice_from_0.
    destruct (Z.eqb_spec (SZX_Size szx) 0); [lia|]. by destruct (Z.leb_spec (SZX_Size szx) (zlen body)); [|lia]. }
  rewrite bool_decide_false by done. cbn [andb]. do 2 f_equal.
  unfold block_message, block_type, size_type, more_after, e_SetOptionUint32, e_SetBody, e_set_options. rewrite Hcode. cbn.
  destruct (Z.ltb_spec ((0 + 1) * SZX_Size szx) (zlen body)); [|lia].
  by rewrite (fold_Add_sorted (e_options m) []).
Qed.
End Creating.

(** ** The options of blocks *)

Section Options_of_blocks.
Context (m : EMsg) (body : list byte) (szx num : Z).
Context (Hsorted : sorted_opts (e_options m)).

Lemma block_options_sorted : sorted_opts (e_options (block_message m body szx num)).
Proof.
  unfold block_message. cbn [e_options].
  do 2 (refine (proj1 (Set_vals zeroOption _ _ _))). done.
Qed.

Lemma block_options_vals id :
  vals (e_options (block_message m body szx num)) id =
    if decide (id = block_type m) then [uint_bytes (packed szx num (more_after body szx num))]
    else if decide (id = size_type m) then [uint_bytes (zlen body)]
    else vals (e_options m) id.
Proof.
  unfold block_message. cbn [e_options].
  rewrite (proj2 (Set_vals zeroOption _ _ (proj1 (Set_vals zeroOption _ _ Hsorted)))).
  by rewrite (proj2 (Set_vals zeroOption _ _ Hsorted)).
Qed.

Lemma block_option_value :
  0 <= szx <= 7 -> 0 <= num <= maxBlockNumber ->
  e_GetOptionUint32 (block_message m body szx num) (block_type m) =
    (packed szx num (more_after body szx num), None).
Proof.
  intros Hs Hn. rewrite e_Get_vals by apply block_options_sorted.
  rewrite block_options_vals, decide_True by done.
  pose proof (packed_range szx num (more_after body szx num) Hs Hn).
  by rewrite DecodeUint32_uint_bytes by (unfold maxBlockValue in *; lia).
Qed.

Lemma size_option_value :
  zlen body < 2 ^ 32 ->
  e_GetOptionUint32 (block_message m body szx num) (size_type m) = (zlen body, None).
Proof.
  intros Hl. rewrite e_Get_vals by apply block_options_sorted.
  rewrite block_options_vals, decide_False, decide_True
    by (unfold block_type, size_type; destruct (isBodyMethod _); done).
  pose proof (zlen_nonneg body). by rewrite DecodeUint32_uint_bytes by lia.
Qed.

Lemma other_option_vals id :
  id <> block_type m -> id <> size_type m ->
  vals (e_options (block_message m body szx num)) id = vals (e_options m) id.
Proof. intros H1 H2. rewrite block_options_vals. by rewrite !decide_False. Qed.
End Options_of_blocks.

(** Options with equal keyed values give the same key. *)
Lemma keyed_vals o opts id :
  vals (keyed_options o opts) id = if skipped_option o id then [] else vals opts id.
Proof.
  induction opts as [|x l IH]; [by destruct (skipped_option o id)|].
  unfold keyed_options in *. rewrite filter_cons, (vals_cons x l).
  destruct (decide (skipped_option o (ID x) = false)) as [Hx|Hx].
  - rewrite vals_cons, IH. case_decide as E; [subst id; by rewrite Hx|]. by destruct (skipped_option o id).
  - rewrite IH. destruct (skipped_option o id) eqn:Ei; [done|]. by rewrite decide_False by congruence.
Qed.

Lemma keyed_sorted o opts : sorted_opts opts -> sorted_opts (keyed_options o opts).
Proof.
  intros Hs. unfold keyed_options. induction Hs as [|x l Hs IH Hx]; [constructor|].
  rewrite filter_cons. case_decide; [|done]. constructor; [done|].
  rewrite Forall_forall in Hx |- *. intros y Hy. apply list_elem_of_filter in Hy as [_ Hy]. by apply Hx.
Qed.

Lemma matching_key_ext r r' a :
  e_code r = e_code r' -> sorted_opts (e_options r) -> sorted_opts (e_options r') ->
  (forall id, skipped_option true id = false -> vals (e_options r) id = vals (e_options r') id) ->
  getRequestMatchingKey r a = getRequestMatchingKey r' a.
Proof.
  intros Hc Hs Hs' Hv. unfold getRequestMatchingKey. rewrite !matching_key_identity, Hc.
  do 2 f_equal. apply sorted_vals_ext; [by apply keyed_sorted..|]. intros id. rewrite !keyed_vals.
  destruct (skipped_option true id) eqn:E; [done|]. by apply Hv.
Qed.

(** Every block of a transfer has the matching key of the whole message. *)
Lemma block_matching_key m body szx num a :
  sorted_opts (e_options m) ->
  getRequestMatchingKey (block_message m body szx num) a = getRequestMatchingKey m a.
Proof.
  intros Hs. apply matching_key_ext; [done|by apply block_options_sorted|done|].
  intros id Hid. rewrite block_options_vals by done.
  rewrite !decide_False; [done| |]; intros ->; revert Hid; unfold block_type, size_type;
    destruct (isBodyMethod _); done.
Qed.

(** ** The caches of the engine *)

Lemma fn_set_eq {A} (h : ptr -> A) p x : fn_set h p x p = x.
Proof. unfold fn_set. by rewrite N.eqb_refl. Qed.

Lemma fn_set_ne {A} (h : ptr -> A) p q x : q <> p -> fn_set h p x q = h q.
Proof. intros Hne. unfold fn_set. by destruct (N.eqb_spec q p). Qed.

Section Caches.
Context {F : Type} `{!MemFile F}.
Notation BW := (BlockWise (F := F)).
Implicit Types (b : BW) (env : Env).

(** The limits and times that no operation on messages changes. *)
Record same_config b b' : Prop := {
  same_entries : receivingMessagesCacheMaxEntries b' = receivingMessagesCacheMaxEntries b;
  same_expiration : expiration b' = expiration b;
  same_rolling : rollingExpiration b' = rollingExpiration b;
  same_size : maxReceiveBodySize b' = maxReceiveBodySize b
}.

#[export] Instance same_config_preorder : PreOrder same_config.
Proof. split; [by constructor|]. intros a b c [] []. constructor; congruence. Qed.

(** Pointers in the caches are not nil and were allocated. *)
Record engine_wf b : Prop := {
  wf_fresh : fresh_ptr b <> nil_ptr;
  wf_receiving : forall k p, entries (receiving b) !! k = Some p -> p <> nil_ptr /\ (p < fresh_ptr b)%N;
  wf_sending : forall k p, entries (sending b) !! k = Some p -> p <> nil_ptr /\ (p < fresh_ptr b)%N
}.

Lemma Cache_Load_cases {D G} (h : ptr -> Element D G) (c : Cache (K := Z)) key t :
  Cache_Load h c key t =
    match entries c !! key with
    | Some p => if expired h p t then nil_ptr else p
    | None => nil_ptr
    end.
Proof. unfold Cache_Load, Load, index. by destruct (entries c !! key). Qed.

Lemma sending_LoadOrStore_receiving env b b' key s v res :
  sending_LoadOrStore env b key s v = (b', res) ->
  receiving b' = receiving b /\ receiving_heap b' = receiving_heap b /\ same_config b b' /\
  fresh_ptr b' = N.succ (fresh_ptr b).
Proof.
  unfold sending_LoadOrStore. destruct (Cache_LoadOrStore (fn_set _ _ _) _ _ _ _) as [c r].
  intros [= <- <-]. split_and!; done.
Qed.

Lemma sending_LoadOrStore_new env b key s v :
  engine_wf b -> sending_Load env b key = nil_ptr ->
  sending_LoadOrStore env b key s v =
    (with_fresh (with_sending b (mkCache (<[key := fresh_ptr b]> (entries (sending b))) (calls (sending b)))
        (fn_set (sending_heap b) (fresh_ptr b) (mkElement v s tt))) (N.succ (fresh_ptr b)),
     (fresh_ptr b, false)).
Proof.
  intros [Hf _ Hs] Hload. unfold sending_LoadOrStore. set (h := fn_set _ _ _).
  unfold sending_Load in Hload. rewrite Cache_Load_cases in Hload.
  unfold Cache_LoadOrStore, ReplaceWithFunc, index.
  destruct (entries (sending b) !! key) as [p|] eqn:E; cbn [andb]; [|by rewrite N.eqb_refl].
  destruct (Hs _ _ E) as [Hp Hlt].
  assert (expired h p (now env) = expired (sending_heap b) p (now env)) as ->.
  { unfold expired, h. by rewrite fn_set_ne by lia. }
  destruct (expired _ p _); cbn [negb]; [by rewrite N.eqb_refl|done].
Qed.

(** The element that [sending_LoadOrStore_new] stores is found until it expires. *)
Lemma sending_stored env b key s v :
  engine_wf b -> now env <= v ->
  sending_message env (with_fresh (with_sending b
    (mkCache (<[key := fresh_ptr b]> (entries (sending b))) (calls (sending b)))
    (fn_set (sending_heap b) (fresh_ptr b) (mkElement v s tt))) (N.succ (fresh_ptr b))) key = s_Message s.
Proof.
  intros Hwf Hv. unfold sending_message, sending_Load. rewrite Cache_Load_cases. cbn. rewrite lookup_insert_eq.
  unfold expired. rewrite fn_set_eq. assert (IsExpired (mkElement v s tt) (now env) = false) as ->.
  { unfold IsExpired. cbn. case_match; [done|]. by apply Z.ltb_ge. }
  destruct (N.eqb_spec (fresh_ptr b) nil_ptr); [by destruct (wf_fresh _ Hwf)|].
  unfold sending_at. cbn. by rewrite fn_set_eq.
Qed.

Lemma sending_store_wf b key s v :
  engine_wf b ->
  engine_wf (with_fresh (with_sending b (mkCache (<[key := fresh_ptr b]> (entries (sending b))) (calls (sending b)))
    (fn_set (sending_heap b) (fresh_ptr b) (mkElement v s tt))) (N.succ (fresh_ptr b))).
Proof.
  intros [Hf Hr Hs]. constructor; cbn.
  - unfold nil_ptr. lia.
  - intros k p E. destruct (Hr k p E). split; [done|lia].
  - intros k p [[<- <-] | [_ E]]%lookup_insert_Some; [split; [done|lia]|]. destruct (Hs k p E). split; [done|lia].
Qed.

(** The callbacks only delete from the sending cache. *)
Record shrinks b b' : Prop := {
  shr_receiving : receiving b' = receiving b;
  shr_receiving_heap : receiving_heap b' = receiving_heap b;
  shr_sending_heap : sending_heap b' = sending_heap b;
  shr_fresh : fresh_ptr b' = fresh_ptr b;
  shr_config : same_config b b';
  shr_sending : entries (sending b') ⊆ entries (sending b)
}.

#[export] Instance shrinks_preorder : PreOrder shrinks.
Proof.
  split.
  - intros b. constructor; done.
  - intros x y z [E1 E2 E3 E4 E5 E6] [G1 G2 G3 G4 G5 G6].
    constructor; try congruence; [by etransitivity|by etransitivity].
Qed.

Lemma sending_Delete_shrinks b key : shrinks b (sending_Delete b key).
Proof. constructor; try done. cbn. apply delete_subseteq. Qed.

Lemma run_onExpire_shrinks b n : shrinks b (run_onExpire b n).
Proof.
  unfold run_onExpire. generalize (drop n (calls (receiving b))) as l. intros l.
  revert b. induction l as [|[[key|] g] l IH]; intros b; cbn [fold_left fst]; [done| |apply IH].
  etransitivity; [apply (sending_Delete_shrinks b key)|apply IH].
Qed.

(** A new transfer is stored when the cache has room. *)
Lemma receiving_LoadOrStoreWithLimit_new env b key g v :
  engine_wf b -> receiving_Load env b key = nil_ptr ->
  receivingMessagesCacheMaxEntries b <= 0 \/
    Length (entries (receiving b)) < receivingMessagesCacheMaxEntries b ->
  exists b' cs, receiving_LoadOrStoreWithLimit env b key g v = (b', (fresh_ptr b, false, None)) /\
    shrinks (with_fresh (with_receiving b
       (mkCache (<[key := fresh_ptr b]> (entries (receiving b))) cs)
       (fn_set (receiving_heap b) (fresh_ptr b) (mkElement v g (Some key)))) (N.succ (fresh_ptr b))) b'.
Proof.
  intros [Hf Hr _] Hload Hroom. unfold receiving_LoadOrStoreWithLimit. set (h := fn_set _ _ _).
  unfold receiving_Load in Hload. rewrite Cache_Load_cases in Hload.
  rewrite LoadOrStoreWithLimit_eq by (intros k p E; by apply (Hr k p)). unfold purge.
  assert (Hfull : ((0 <? receivingMessagesCacheMaxEntries b) &&
           (receivingMessagesCacheMaxEntries b <=? Length (entries (receiving b)))) = false).
  { destruct (Z.ltb_spec 0 (receivingMessagesCacheMaxEntries b)),
      (Z.leb_spec (receivingMessagesCacheMaxEntries b) (Length (entries (receiving b)))); cbn; lia || done. }
  rewrite Hfull. cbv zeta. destruct (entries (receiving b) !! key) as [p|] eqn:E.
  - assert (expired h p (now env) = expired (receiving_heap b) p (now env)) as ->.
    { destruct (Hr _ _ E). unfold expired, h. by rewrite fn_set_ne by lia. }
    destruct (Hr _ _ E) as [Hp _]. destruct (expired _ p _); [|done].
    do 2 eexists. split; [done|]. apply run_onExpire_shrinks.
  - rewrite Hfull. do 2 eexists. split; [done|]. apply run_onExpire_shrinks.
Qed.

(** Without an entry under the key no callback runs either. *)
Lemma receiving_LoadOrStoreWithLimit_absent env b key g v :
  engine_wf b -> entries (receiving b) !! key = None ->
  receivingMessagesCacheMaxEntries b <= 0 \/
    Length (entries (receiving b)) < receivingMessagesCacheMaxEntries b ->
  receiving_LoadOrStoreWithLimit env b key g v =
    (with_fresh (with_receiving b
       (mkCache (<[key := fresh_ptr b]> (entries (receiving b))) (calls (receiving b)))
       (fn_set (receiving_heap b) (fresh_ptr b) (mkElement v g (Some key)))) (N.succ (fresh_ptr b)),
     (fresh_ptr b, false, None)).
Proof.
  intros [Hf Hr _] E Hroom. unfold receiving_LoadOrStoreWithLimit. set (h := fn_set _ _ _).
  rewrite LoadOrStoreWithLimit_eq by (intros k p Ek; by apply (Hr k p)). unfold purge.
  assert (Hfull : ((0 <? receivingMessagesCacheMaxEntries b) &&
           (receivingMessagesCacheMaxEntries b <=? Length (entries (receiving b)))) = false).
  { destruct (Z.ltb_spec 0 (receivingMessagesCacheMaxEntries b)),
      (Z.leb_spec (receivingMessagesCacheMaxEntries b) (Length (entries (receiving b)))); cbn; lia || done. }
  rewrite Hfull. cbv zeta. rewrite E, Hfull. unfold run_onExpire. cbn [with_fresh with_receiving receiving calls].
  by rewrite drop_all.
Qed.

Ltac unchanged := do 3 eexists; (split; [reflexivity|]); split_and!; solve [eassumption | done | reflexivity | lia].

(** Sending the response of a handler never panics, and leaves what was delivered and
    the transfers being received as they are. *)
Lemma startSendingMessage_total env b w maxSZX mms blk key m :
  0 <= maxSZX <= 7 ->
  exists b' w' err, startSendingMessage env b w maxSZX mms blk key m = Some (b', w', err) /\
    receiving b' = receiving b /\ receiving_heap b' = receiving_heap b /\ same_config b b' /\
    (fresh_ptr b <= fresh_ptr b')%N.
Proof.
  intros Hs. unfold startSendingMessage.
  assert (0 < SZX_Size maxSZX) by (rewrite SZX_Size_pow by done; apply Z.pow_pos_nonneg; lia).
  destruct (Z.ltb_spec (e_BodySize (RW_Message w)) (SZX_Size maxSZX)); [unchanged|].
  destruct (createSendingMessage _ _ _ _) as [[[sm mo]|e]|] eqn:E; [|unchanged|].
  - cbn [RW_Swap]. destruct (_ && _); [unchanged|]. cbv zeta.
    destruct (sending_LoadOrStore _ _ _ _ _) as [b' [q l]] eqn:Es.
    apply sending_LoadOrStore_receiving in Es as (Er & Eh & Ec & Ef).
    destruct l; unchanged.
  - exfalso. unfold createSendingMessage, e_BodySize in *. revert E.
    destruct (e_body (RW_Message w)) eqn:Eb; [|change (zlen (default [] (@None (list byte)))) with 0 in *; lia].
    repeat (case_match; try done).
Qed.

Lemma send_response_total env (st : St (F := F)) maxSZX mms blk key code a :
  0 <= maxSZX <= 7 ->
  exists st' err, send_response env st maxSZX mms blk key code a = Some (st', err) /\
    st_delivered st' = st_delivered st /\ receiving (st_engine st') = receiving (st_engine st) /\
    receiving_heap (st_engine st') = receiving_heap (st_engine st) /\
    same_config (st_engine st) (st_engine st') /\ (fresh_ptr (st_engine st) <= fresh_ptr (st_engine st'))%N.
Proof.
  intros Hs. unfold send_response. cbv zeta.
  destruct (startSendingMessage_total env (st_engine st) (st_w st) maxSZX mms blk key
    (getSendingMatch (st_r st) (RW_Message (st_w st)) code a) Hs) as (b' & w' & err & -> & Hr & Hh & Hc & Hf).
  destruct err; do 2 eexists; (split; [reflexivity|]); done.
Qed.
End Caches.

Lemma new_engine_wf {F} `{!MemFile F} t : engine_wf (BlockWise_New (F := F) t).
Proof. constructor; [done| |]; intros k p E; by destruct (lookup_empty_Some (M := gmap Z) k p E). Qed.
