(* ===== verification/BlockwiseReceive.v ===== *)
(** * Receiving one block

    The effect of [processCachedReceivedBlock] on a transfer that is under way, shared by
    the theorems on uploads and downloads: [holds] is what the engine has received of a
    transfer, and the next block in order extends it or completes it. *)
From stdpp Require Import prelude gmap fin_maps list strings.
From Stdlib Require Import ZArith Lia.
From S2P Require Import Prelude Cast Codes OptionCodec Options Message PoolMessage BlockCodec Crc64 SyncMap.
From S2P Require Import Cache EngineMessage ResponseWriter ExchangeKey Blockwise BlockwiseLemmas.
#[local] Open Scope Z_scope.

(** What the network preserves. *)
Record transmitted (m m' : EMsg) : Prop := {
  tr_code : e_code m' = e_code m;
  tr_token : e_token m' = e_token m;
  tr_options : e_options m' = e_options m;
  tr_body : e_body m' = e_body m
}.

(** The two peers and the network between them; the environments, writers and the two
    directions of the network are given per round. *)
Record Net : Type := mkNet {
  n_handler : RW -> EMsg -> RW * EMsg;
  n_server_env : nat -> Env;
  n_server_w : nat -> RW;
  n_server_max : Z;
  n_server_addr : list byte;
  n_client_handler : RW -> EMsg -> RW * EMsg;
  n_client_env : nat -> Env;
  n_client_w : nat -> RW;
  n_client_addr : addr;
  n_mms : Z;
  n_up : nat -> EMsg -> EMsg;
  n_down : nat -> EMsg -> EMsg
}.

Section Receiving.
Context {F : Type} `{!MemFile F} `{!MemFileLaws F}.
Notation BW := (BlockWise (F := F)).
Implicit Types (b : BW) (env : Env) (key : Z) (p : ptr).

(** The instants at which the transfer takes place lie within one expiration period. *)
Context (T : Z -> Prop) (period : Z).
Context (Hwindow : forall t t', T t -> T t' -> t' <= t + period).

(** The engine holds a transfer with this message and the body received so far. *)
Record holds b key p (m : EMsg) (body : list byte) : Prop := {
  h_entry : entries (receiving b) !! key = Some p;
  h_ptr : p <> nil_ptr;
  h_message : g_Message (guard_at b p) = m;
  h_body : memfile_Bytes (g_file (guard_at b p)) = body;
  h_alive : forall t, T t -> expired (receiving_heap b) p t = false
}.

(** What a step on one transfer leaves alone. *)
Record frame b b' : Prop := {
  f_config : same_config b b';
  f_sending : sending b' = sending b;
  f_sending_heap : sending_heap b' = sending_heap b;
  f_fresh : fresh_ptr b' = fresh_ptr b;
  f_entries : entries (receiving b') = entries (receiving b)
}.

#[local] Instance frame_preorder : PreOrder frame.
Proof.
  split; [by constructor|].
  intros x y z [E1 E2 E3 E4 E5] [G1 G2 G3 G4 G5]. constructor; try congruence. by etransitivity.
Qed.

Lemma holds_Load env b key p m body : holds b key p m body -> T (now env) -> receiving_Load env b key = p.
Proof. intros [E _ _ _ Ha] Ht. unfold receiving_Load. rewrite Cache_Load_cases, E. by rewrite Ha. Qed.

Lemma set_guard_at b p g : guard_at (set_guard b p g) p = g.
Proof. unfold guard_at, set_guard, Data. cbn. by rewrite fn_set_eq. Qed.

Lemma set_guard_expired b p g q t : expired (receiving_heap (set_guard b p g)) q t = expired (receiving_heap b) q t.
Proof.
  unfold expired, IsExpired, set_guard. cbn. destruct (decide (q = p)) as [-> | Hne].
  - by rewrite fn_set_eq.
  - by rewrite fn_set_ne.
Qed.

Lemma set_guard_frame b p g : frame b (set_guard b p g).
Proof. by constructor. Qed.

Lemma set_guard_holds b key p m body g :
  holds b key p m body -> g_Message g = m -> holds (set_guard b p g) key p m (memfile_Bytes (g_file g)).
Proof.
  intros [He Hp _ _ Ha] Hm. constructor; try done; rewrite ?set_guard_at; try done.
  intros t Ht. rewrite set_guard_expired. by apply Ha.
Qed.

Lemma refresh_frame env b block d : frame b (refreshReceiveExpiration env b block d).
Proof. unfold refreshReceiveExpiration. case_match; [done|]. case_match; [done|]. by constructor. Qed.

Lemma refresh_holds env b block d key p m body :
  rb_exchangeKey block = key -> T (now env) -> expiration b = period ->
  holds b key p m body -> holds (refreshReceiveExpiration env b block d) key p m body.
Proof.
  intros Hk Ht Hper Hh. pose proof (holds_Load env b key p m body Hh Ht) as Hload. destruct Hh as [He Hp Hm Hb Ha].
  unfold refreshReceiveExpiration. rewrite Hk, Hload. case_match; [by constructor|].
  destruct (N.eqb_spec p nil_ptr); [done|]. constructor; try done.
  - unfold guard_at, Data. cbn. by rewrite fn_set_eq.
  - unfold guard_at, Data. cbn. by rewrite fn_set_eq.
  - intros t Ht'. unfold expired, IsExpired. cbn. rewrite fn_set_eq. cbn.
    destruct (_ =? 0); [done|]. apply Z.ltb_ge. rewrite Hper. by apply Hwindow.
Qed.

(** ** One block of a request *)

Section Block.
Context (next : RW -> EMsg -> RW * EMsg).
Context (env : Env) (st : St (F := F)) (block : receivedBlock) (p : ptr) (m : EMsg) (got c : list byte).
Context (sent : option EMsg).
Context (Ht : T (now env)) (Hper : expiration (st_engine st) = period).
Context (Hholds : holds (st_engine st) (rb_exchangeKey block) p m got).
Context (Hetag : e_GetOptionBytes (st_r st) ETag = e_GetOptionBytes m ETag).
Context (Hbody : e_body (st_r st) = Some c) (Hoff : zlen got = rb_num block * SZX_Size (rb_szx block)).
Context (Hfull : rb_blockType block = Block1 -> rb_more block = true -> zlen c = SZX_Size (rb_reqSzx block)).
Context (Hfits : rb_blockType block = Block1 ->
  maxReceiveBodySize (st_engine st) <= 0 \/
  receiveBodySize (st_r st) (zlen got) <= maxReceiveBodySize (st_engine st)).

Lemma not_too_large (st' : St (F := F)) :
  st_r st' = st_r st -> maxReceiveBodySize (st_engine st') = maxReceiveBodySize (st_engine st) ->
  rejectTooLarge st' (rb_blockType block) (rb_token block) (zlen got) = (st', false).
Proof.
  intros Er Em. unfold rejectTooLarge. rewrite Er, Em.
  destruct (Z.eqb_spec (rb_blockType block) Block1) as [Htype|]; [|done]. specialize (Hfits Htype). cbn [negb orb].
  destruct (Z.leb_spec (maxReceiveBodySize (st_engine st)) 0); [done|].
  by destruct (Z.leb_spec (receiveBodySize (st_r st) (zlen got)) (maxReceiveBodySize (st_engine st))); [|lia].
Qed.

(** The checks pass: the block is the next one of the transfer. *)
Lemma block_accepted :
  exists b', holds b' (rb_exchangeKey block) p m got /\ frame (st_engine st) b' /\
    processCachedReceivedBlock next env st p block sent =
      delete_on_error block (appendReceivedBlock next env (set_engine st b') p block sent (zlen got) (zlen got)).
Proof.
  unfold processCachedReceivedBlock.
  destruct (getPayload_same_etag (st_r st) (guard_at (st_engine st) p)) as (f & -> & Ef);
    [by rewrite (h_message _ _ _ _ _ Hholds)|].
  set (b' := set_guard _ _ _). exists b'.
  assert (Hh : holds b' (rb_exchangeKey block) p m got).
  { rewrite <-(h_body _ _ _ _ _ Hholds), <-Ef. eapply set_guard_holds; [exact Hholds|].
    exact (h_message _ _ _ _ _ Hholds). }
  split; [exact Hh|]. split; [by apply set_guard_frame|].
  rewrite (h_body _ _ _ _ _ Hholds). cbv zeta. cbn [st_r set_engine].
  assert ((if (rb_blockType block =? Block1) && rb_more block
           then checkFullBlock (st_r st) (rb_reqSzx block) else None) = None) as ->.
  { destruct (rb_more block); [|by rewrite andb_false_r].
    destruct (Z.eqb_spec (rb_blockType block) Block1) as [Htype|]; [|done]. cbn [andb].
    unfold checkFullBlock, e_BodySize. rewrite Hbody. cbn [default from_option id].
    by rewrite Hfull, Z.eqb_refl. }
  rewrite <-Hoff. destruct (Z.ltb_spec (zlen got) (zlen got)); [lia|]. cbn [andb orb]. rewrite andb_false_r.
  by rewrite not_too_large.
Qed.

(** Storing the body of an accepted block. *)
Lemma block_stored b1 :
  holds b1 (rb_exchangeKey block) p m got -> frame (st_engine st) b1 ->
  exists f b2, copyToPayloadFromOffset (st_r st) (g_file (guard_at b1 p)) (zlen got) = (f, Ok (zlen (got ++ c))) /\
    memfile_Bytes f = got ++ c /\
    b2 = refreshReceiveExpiration env
           (set_guard b1 p (mkGuard m f (g_matchingKey (guard_at b1 p)) (zlen (got ++ c)))) block
           (zlen got <? zlen (got ++ c)) /\
    holds b2 (rb_exchangeKey block) p m (got ++ c) /\ frame (st_engine st) b2.
Proof.
  intros Hh Hf. pose proof (copyToPayloadFromOffset_spec (st_r st) (g_file (guard_at b1 p))) as Hcopy.
  rewrite (h_body _ _ _ _ _ Hh), Hbody in Hcopy. destruct Hcopy as (f & Ef & Eb). cbn [default from_option id] in *.
  exists f. eexists. split; [by rewrite zlen_app|]. split; [done|]. split; [done|]. split.
  - apply refresh_holds; [done|done|by rewrite <-Hper; apply (same_expiration _ _ (f_config _ _ Hf))|].
    rewrite <-Eb. by eapply set_guard_holds.
  - etransitivity; [exact Hf|]. etransitivity; [apply set_guard_frame|]. apply refresh_frame.
Qed.

Lemma block_more :
  rb_more block = true ->
  exists b', holds b' (rb_exchangeKey block) p m (got ++ c) /\ frame (st_engine st) b' /\
    processCachedReceivedBlock next env st p block sent =
      delete_on_error block (send_continue (set_engine st b') block sent (zlen (got ++ c))).
Proof.
  intros Hmore. destruct block_accepted as (b1 & Hh1 & Hf1 & ->).
  destruct (block_stored b1 Hh1 Hf1) as (f & b2 & Ec & _ & Eb & Hh2 & Hf2).
  exists b2. split; [exact Hh2|]. split; [exact Hf2|].
  unfold appendReceivedBlock. rewrite Z.eqb_refl. cbn [negb st_engine set_engine st_r].
  rewrite Ec, (h_message _ _ _ _ _ Hh1). by rewrite <-Eb, Hmore.
Qed.

Definition assembled_message : EMsg :=
  e_SetBody (e_SetType (e_Remove (e_Remove m (rb_blockType block)) (rb_sizeType block)) (e_type (st_r st))) (Some (got ++ c)).

Lemma block_final :
  rb_more block = false -> e_token m = rb_token block ->
  exists b', same_config (st_engine st) b' /\
    entries (receiving b') = delete (rb_exchangeKey block) (entries (receiving (st_engine st))) /\
    sending b' = sending (st_engine st) /\ sending_heap b' = sending_heap (st_engine st) /\
    processCachedReceivedBlock next env st p block sent =
      Some (next_assembled next (set_engine st b') assembled_message, None).
Proof.
  intros Hmore Htok. destruct block_accepted as (b1 & Hh1 & Hf1 & ->).
  destruct (block_stored b1 Hh1 Hf1) as (f & b2 & Ec & Ef & Eb & Hh2 & Hf2).
  unfold appendReceivedBlock. rewrite Z.eqb_refl. cbn [negb st_engine set_engine st_r].
  rewrite Ec, (h_message _ _ _ _ _ Hh1), Hmore, <-Eb. rewrite bool_decide_true by done.
  destruct (file_seek_start f 0) as (f' & -> & Ef' & _); [done|]. rewrite Ef', Ef. cbn [delete_on_error].
  eexists. split; [|split; [|split; [|split; [|reflexivity]]]].
  - destruct (f_config _ _ Hf2). by constructor.
  - cbn. by rewrite (f_entries _ _ Hf2).
  - exact (f_sending _ _ Hf2).
  - exact (f_sending_heap _ _ Hf2).
Qed.
End Block.
End Receiving.
