(* ===== verification/BlockwiseUpload.v ===== *)
(** * Uploading a body with Block1

    The client side ([Do], then [Handle] on every 2.31 Continue) and the server side
    ([Handle] on every block) of a Block1 transfer composed through a network that
    transmits code, token, options and payload: the handler of the server gets the whole
    message, once. *)
From stdpp Require Import prelude gmap fin_maps list strings.
From Stdlib Require Import ZArith Lia.
From S2P Require Import Prelude Cast Codes OptionCodec Options Message PoolMessage BlockCodec Crc64 SyncMap.
From S2P Require Import Cache EngineMessage ResponseWriter ExchangeKey Blockwise BlockwiseLemmas.
From S2P Require Import BlockwiseReceive.
#[local] Open Scope Z_scope.

Section Receiving.
Context {F : Type} `{!MemFile F} `{!MemFileLaws F}.
Notation BW := (BlockWise (F := F)).
Implicit Types (b : BW) (env : Env) (key : Z) (p : ptr).
Context (T : Z -> Prop) (period : Z).
Context (Hwindow : forall t t', T t -> T t' -> t' <= t + period).
Notation holds := (holds T).

(** ** The server *)

Section Server.
Context (next : RW -> EMsg -> RW * EMsg) (r : EMsg) (body : list byte) (szx maxSZX mms : Z) (a : list byte).
Context (Hcode : isBodyMethod (e_code r) = true) (Htoken : e_token r <> []).
Context (Hsorted : sorted_opts (e_options r)) (Hno2 : vals (e_options r) Block2 = []).
Context (Hszx : 0 <= szx <= 6) (Hmax : szx <= maxSZX <= 7).
Context (Hlen : SZX_Size szx < zlen body < 2 ^ 32) (Hcount : zlen body <= (maxBlockNumber + 1) * SZX_Size szx).

Definition server_key : Z :=
  fnv64a_Write (fnv64a_Write fnv64a_offset (be_split 8 (getRequestMatchingKey r a))) (e_token r).

(** Nothing but the transfer is going on: no Q-Block, no request with this token was sent
    to the peer, and the lock of a transfer is free. *)
Record quiet env : Prop := {
  q_time : T (now env);
  q_qblock : qblock_Handle env = None;
  q_acquire : acquire env = None;
  q_outside : getSentRequestFromOutside env (e_token r) = None
}.

Definition idle_sending b : Prop := forall env, T (now env) -> sending_message env b server_key = None.

Definition received_block (num : Z) : receivedBlock :=
  mkReceivedBlock server_key (getRequestMatchingKey r a) (e_token r) Block1 Size1 szx szx szx num
    (more_after body szx num).

Section Step.
Context (env : Env) (b : BlockWise (F := F)) (w : RW) (q : EMsg) (num : Z).
Context (Hquiet : quiet env) (Hq : transmitted (block_message r body szx num) q).
Context (Hnum : 0 <= num) (Hin : num * SZX_Size szx < zlen body) (Hidle : idle_sending b).

Lemma num_bound : num <= maxBlockNumber.
Proof. pose proof (SZX_Size_bounds szx Hszx). unfold maxBlockNumber in *. nia. Qed.

Lemma q_sorted : sorted_opts (e_options q).
Proof. rewrite (tr_options _ _ Hq). by apply block_options_sorted. Qed.

Lemma q_block1 : e_GetOptionUint32 q Block1 = (packed szx num (more_after body szx num), None).
Proof.
  pose proof (block_option_value r body szx num Hsorted) as H. unfold block_type in H. rewrite Hcode in H.
  unfold e_GetOptionUint32 in *. rewrite (tr_options _ _ Hq). apply H; [lia|]. pose proof num_bound. lia.
Qed.

Lemma q_size1 : e_GetOptionUint32 q Size1 = (zlen body, None).
Proof.
  pose proof (size_option_value r body szx num Hsorted) as H. unfold size_type in H. rewrite Hcode in H.
  unfold e_GetOptionUint32 in *. rewrite (tr_options _ _ Hq). apply H. lia.
Qed.

Lemma q_other id : id <> Block1 -> id <> Size1 -> vals (e_options q) id = vals (e_options r) id.
Proof.
  intros H1 H2. rewrite (tr_options _ _ Hq).
  apply other_option_vals; [done|unfold block_type|unfold size_type]; by rewrite Hcode.
Qed.

Lemma q_matching_key : getRequestMatchingKey q a = getRequestMatchingKey r a.
Proof.
  rewrite <-(block_matching_key r body szx num a Hsorted).
  apply matching_key_ext; [apply (tr_code _ _ Hq)|apply q_sorted|by apply block_options_sorted|].
  intros id _. by rewrite (tr_options _ _ Hq).
Qed.

Lemma q_key : getMessageExchangeKey q (Some a) = Ok server_key.
Proof.
  unfold getMessageExchangeKey, server_key. rewrite (tr_code _ _ Hq), (tr_token _ _ Hq). cbn [block_message e_code e_token].
  rewrite Hcode. assert (IsRequestCode (e_code r) = true) as ->.
  { unfold isBodyMethod in Hcode. unfold IsRequestCode.
    repeat (apply orb_prop in Hcode as [Hcode|Hcode]); apply Z.eqb_eq in Hcode; by rewrite Hcode. }
  destruct (Z.eqb_spec (zlen (e_token r)) 0) as [E|_]; [by apply zlen_0_nil in E|]. cbn [negb].
  by rewrite q_matching_key.
Qed.

Lemma fit_q : fitSZX q Block1 maxSZX = szx.
Proof.
  unfold fitSZX. rewrite q_block1, DecodeBlockOption_packed by (pose proof num_bound; lia).
  destruct (Z.ltb_spec szx maxSZX); lia.
Qed.

(** [Handle] gives the block to [processReceivedBlock] and sends what comes out of it. *)
Lemma Handle_block :
  num = 0 \/ receiving_Load env b server_key <> nil_ptr ->
  Handle next env b w q maxSZX mms (Some a) =
    match and_then (processReceivedBlock next env (mkSt b w q [] []) (received_block num))
            (fun st => send_response env st szx mms (packed maxSZX 0 true) server_key (e_code r) (Some a)) with
    | None => None
    | Some (st, None) => Some st
    | Some (st, Some e) => Some (reject st (e_token r) e)
    end.
Proof.
  intros Hctx. unfold Handle, SZXBERT. destruct (Z.ltb_spec 7 maxSZX); [lia|].
  rewrite (q_qblock _ Hquiet), q_key.
  assert (resolveBlock1ExchangeKey env b q (Some a) server_key = Ok server_key) as ->.
  { unfold resolveBlock1ExchangeKey. case_match; [done|]. case_match; [done|].
    rewrite q_block1, DecodeBlockOption_packed by (pose proof num_bound; lia).
    destruct Hctx as [-> | Hload]; [done|].
    destruct (N.eqb_spec (receiving_Load env b server_key) nil_ptr); [done|done]. }
  assert (resolveBlock2ExchangeKey env b q (Some a) server_key = Ok server_key) as ->.
  { unfold resolveBlock2ExchangeKey. assert (mayResumeBlock2 q = false) as ->; [|done].
    assert (isBlock2Continuation q = false) as Hb2.
    { unfold isBlock2Continuation. rewrite e_Get_vals by apply q_sorted. by rewrite q_other, Hno2. }
    unfold mayResumeBlock2. rewrite Hb2, andb_false_r. by repeat case_match. }
  unfold getSendingMessageCode. rewrite Hidle by apply (q_time _ Hquiet). cbn [negb orb].
  unfold handleReceivedMessage. rewrite EncodeBlockOption_packed by (unfold maxBlockNumber; lia).
  cbn [st_r]. rewrite (tr_code _ _ Hq), (tr_token _ _ Hq). cbn [block_message e_code e_token].
  assert (Hc : e_code r = POST \/ e_code r = PUT \/ e_code r = FETCH \/ e_code r = PATCH \/ e_code r = IPATCH).
  { unfold isBodyMethod in Hcode. rewrite !orb_true_iff, !Z.eqb_eq in Hcode. tauto. }
  rewrite fit_q, Hcode. unfold processReceivedMessage. cbn [st_r requestMatchingKey].
  rewrite q_block1, q_matching_key, DecodeBlockOption_packed by (pose proof num_bound; lia).
  rewrite (tr_code _ _ Hq), (tr_token _ _ Hq). cbn [block_message e_code e_token].
  by destruct Hc as [-> | [-> | [-> | [-> | ->]]]].
Qed.

(** The message of the transfer is that of its first block. *)
Record block_info (m : EMsg) : Prop := {
  bi_code : e_code m = e_code r;
  bi_token : e_token m = e_token r;
  bi_options : e_options m = e_options (block_message r body szx 0)
}.

Lemma q_etag m : block_info m -> e_GetOptionBytes q ETag = e_GetOptionBytes m ETag.
Proof.
  intros [_ _ Ho]. unfold e_GetOptionBytes. rewrite Ho.
  assert (Hs0 : sorted_opts (e_options (block_message r body szx 0))) by by apply block_options_sorted.
  rewrite !GetBytes_vals by (apply q_sorted || done). rewrite q_other by done.
  rewrite other_option_vals; [done|done|unfold block_type|unfold size_type]; by rewrite Hcode.
Qed.

(** Looking up the sent request finds nothing, so the paths for requests remain. *)
Lemma no_sent_request : getSentRequest env b server_key (e_token r) = None.
Proof.
  unfold getSentRequest. rewrite Hidle by apply (q_time _ Hquiet). rewrite (q_outside _ Hquiet). by case_match.
Qed.

Lemma not_observe : isObserveResponse q = false.
Proof.
  unfold isObserveResponse. destruct (e_GetOptionUint32 q Observe) as [v [e|]]; [done|].
  rewrite (tr_code _ _ Hq). cbn [block_message e_code]. apply Z.leb_gt.
  unfold isBodyMethod in Hcode. rewrite !orb_true_iff, !Z.eqb_eq in Hcode.
  unfold Created, POST, PUT, FETCH, PATCH, IPATCH in *. lia.
Qed.

Lemma q_body : e_body q = Some (chunk body szx num).
Proof. exact (tr_body _ _ Hq). Qed.

Lemma q_fits off :
  off = num * SZX_Size szx ->
  maxReceiveBodySize b <= 0 \/ zlen body <= maxReceiveBodySize b ->
  maxReceiveBodySize b <= 0 \/ receiveBodySize q off <= maxReceiveBodySize b.
Proof.
  intros -> [Hl | Hl]; [by left|right]. unfold receiveBodySize, e_BodySize. rewrite q_body, q_size1.
  cbn [default from_option id]. rewrite zlen_chunk by lia. lia.
Qed.

(** The response to a block that is not the last. *)
Definition continue_for : EMsg :=
  e_SetOptionUint32 (e_SetCode (e_SetToken (AcquireMessage (e_deadline q)) (e_token r)) Continue)
    Block1 (packed szx num true).

Lemma send_continue_response b' env' :
  more_after body szx num = true ->
  let st := mkSt b' (RW_SetMessage w continue_for) q [] [] in
  send_response env' st szx mms (packed maxSZX 0 true) server_key (e_code r) (Some a) = Some (st, None).
Proof.
  intros Hmore st. unfold send_response, startSendingMessage, st. cbn [st_w st_engine st_r].
  unfold RW_Message, e_BodySize. cbn [RW_SetMessage response continue_for e_SetOptionUint32 e_set_options
    e_SetCode e_SetToken AcquireMessage e_body default from_option id].
  pose proof (SZX_Size_bounds szx Hszx). change (zlen (@nil byte)) with 0.
  destruct (Z.ltb_spec 0 (SZX_Size szx)); [|lia].
  unfold echoFinalBlock1. rewrite Hcode, q_block1, Hmore, DecodeBlockOption_packed by (pose proof num_bound; lia).
  done.
Qed.

Lemma send_continue_block1 b' szx' size :
  szx' = szx -> more_after body szx num = true ->
  send_continue (mkSt b' w q [] []) (with_szx (received_block num) szx') None size =
    Some (mkSt b' (RW_SetMessage w continue_for) q [] [], None).
Proof.
  intros -> Hmore. unfold send_continue, sendReceivedBlockContinue.
  cbn [st_w st_r with_szx received_block rb_szx rb_maxSzx rb_token rb_blockType rb_num rb_more]. rewrite Hmore.
  unfold getSzx. destruct (Z.ltb_spec szx szx); [lia|].
  cbn [Z.eqb Pos.eqb Block1 Block2]. by rewrite EncodeBlockOption_packed by (pose proof num_bound; lia).
Qed.

Section Later.
Context (p : ptr) (m : EMsg) (Hm : block_info m).
Context (Hholds : holds b server_key p m (slice_to body (num * SZX_Size szx))).
Context (Hper : expiration b = period).
Context (Hlimit : maxReceiveBodySize b <= 0 \/ zlen body <= maxReceiveBodySize b).

Lemma got_size : zlen (slice_to body (num * SZX_Size szx)) = num * SZX_Size szx.
Proof. pose proof (SZX_Size_bounds szx Hszx). rewrite zlen_slice_to by nia. done. Qed.

(** A block of a transfer that is under way goes to the transfer. *)
Lemma processReceivedBlock_later :
  processReceivedBlock next env (mkSt b w q [] []) (received_block num) =
    processCachedReceivedBlock next env (mkSt b w q [] []) p (received_block num) None.
Proof.
  unfold processReceivedBlock. cbn [st_engine st_r received_block rb_exchangeKey rb_token rb_blockType].
  rewrite no_sent_request, not_observe. cbn [Z.eqb Pos.eqb Block1 Block2 andb].
  cbn [set_engine st_engine st_r]. rewrite !not_observe. cbn [received_block rb_exchangeKey].
  rewrite (holds_Load T env b server_key p m _ Hholds (q_time _ Hquiet)).
  destruct (N.eqb_spec p nil_ptr) as [E|E]; [by destruct (h_ptr _ _ _ _ _ _ Hholds)|].
  unfold getCachedReceivedMessage. destruct (N.eqb_spec p nil_ptr); [done|]. by rewrite (q_acquire _ Hquiet).
Qed.

Lemma server_more :
  more_after body szx num = true ->
  exists b', Handle next env b w q maxSZX mms (Some a) = Some (mkSt b' (RW_SetMessage w continue_for) q [] []) /\
    holds b' server_key p m (slice_to body ((num + 1) * SZX_Size szx)) /\ frame b b'.
Proof.
  intros Hmore. pose proof num_bound. pose proof got_size as Hgot.
  destruct (block_more T period Hwindow next env (mkSt b w q [] []) (received_block num) p m
    (slice_to body (num * SZX_Size szx)) (chunk body szx num) None) as (b' & Hh & Hf & Hres); cbn [st_engine st_r received_block
      rb_exchangeKey rb_blockType rb_szx rb_reqSzx rb_maxSzx rb_num rb_more]; try done; try lia.
  { apply (q_time _ Hquiet). }
  { by apply q_etag. }
  { apply q_body. }
  { intros _ _. by apply chunk_full. }
  { intros _. by apply q_fits. }
  exists b'. rewrite chunk_extends in Hh by lia. split; [|done].
  rewrite Handle_block, processReceivedBlock_later, Hres.
  - unfold set_engine. cbn [st_engine st_w st_r st_errors st_delivered].
    change (received_block num) with (with_szx (received_block num) szx).
    rewrite send_continue_block1 by done. cbn [delete_on_error and_then].
    pose proof (send_continue_response b' env Hmore) as E. cbv zeta in E. by rewrite E.
  - right. rewrite (holds_Load T env b server_key p m _ Hholds (q_time _ Hquiet)). apply (h_ptr _ _ _ _ _ _ Hholds).
Qed.

Lemma server_final :
  more_after body szx num = false ->
  exists st, Handle next env b w q maxSZX mms (Some a) = Some st /\
    st_delivered st = [e_SetBody (e_SetType (e_Remove (e_Remove m Block1) Size1) (e_type q)) (Some body)] /\
    entries (receiving (st_engine st)) = delete server_key (entries (receiving b)).
Proof.
  intros Hmore. pose proof num_bound. pose proof got_size as Hgot.
  destruct (block_final T period Hwindow next env (mkSt b w q [] []) (received_block num) p m
    (slice_to body (num * SZX_Size szx)) (chunk body szx num) None) as (b' & Hc & He & _ & _ & Hres); cbn [st_engine st_r received_block
      rb_exchangeKey rb_blockType rb_szx rb_reqSzx rb_maxSzx rb_num rb_more rb_token]; try done; try lia.
  { apply (q_time _ Hquiet). }
  { by apply q_etag. }
  { apply q_body. }
  { by rewrite Hmore. }
  { intros _. by apply q_fits. }
  { apply (bi_token _ Hm). }
  rewrite Handle_block, processReceivedBlock_later, Hres.
  - cbn [and_then]. unfold next_assembled. destruct (next _ _) as [w' r'].
    destruct (send_response_total env (mkSt b' w' q [] [assembled_message (mkSt b w q [] []) (received_block num) m
      (slice_to body (num * SZX_Size szx)) (chunk body szx num)]) szx mms (packed maxSZX 0 true) server_key (e_code r) (Some a))
      as (st & err & E & Hd & Hr & _); [lia|]. cbn [st_delivered st_engine] in Hd, Hr.
    cbn [set_engine st_engine st_r st_errors st_delivered app] in E |- *. rewrite E.
    assert (slice_to body (num * SZX_Size szx) ++ chunk body szx num = body) as Hall.
    { rewrite chunk_extends by lia. apply slice_to_all. unfold more_after in Hmore. apply Z.ltb_ge in Hmore. lia. }
    unfold assembled_message in Hd. rewrite Hall in Hd.
    destruct err; eexists; (split; [done|]); cbn [st_delivered st_engine reject report set_w]; rewrite Hr; done.
  - right. rewrite (holds_Load T env b server_key p m _ Hholds (q_time _ Hquiet)). apply (h_ptr _ _ _ _ _ _ Hholds).
Qed.
End Later.

Lemma idle_mono b' :
  entries (sending b') ⊆ entries (sending b) -> sending_heap b' = sending_heap b -> idle_sending b'.
Proof.
  intros Hsub Hh env' Ht. specialize (Hidle env' Ht). revert Hidle. unfold sending_message, sending_Load.
  rewrite !Cache_Load_cases, Hh. destruct (entries (sending b') !! server_key) as [p|] eqn:E; [|done].
  rewrite (lookup_weaken _ _ _ _ E Hsub). unfold sending_at. by rewrite Hh.
Qed.

Definition first_guard : messageGuard F :=
  mkGuard (e_SetCode (e_SetSequence (e_SetToken (e_ResetOptionsTo (AcquireMessage (e_deadline q)) (e_options q))
    (e_token q)) (e_sequence q)) (e_code q)) memfile_New (getRequestMatchingKey r a) 0.

Lemma first_guard_info : num = 0 -> block_info (g_Message first_guard).
Proof.
  intros Hn0. unfold first_guard. cbn [g_Message]. rewrite e_ResetOptionsTo_sorted by apply q_sorted.
  constructor; cbn; [apply (tr_code _ _ Hq)|apply (tr_token _ _ Hq)|].
  rewrite (tr_options _ _ Hq). by rewrite Hn0.
Qed.

(** A transfer with an empty body is stored under the key. *)
Lemma transfer_opened :
  engine_wf b -> receiving_Load env b server_key = nil_ptr -> expiration b = period ->
  receivingMessagesCacheMaxEntries b <= 0 \/
    Length (entries (receiving b)) < receivingMessagesCacheMaxEntries b ->
  exists b1, receiving_LoadOrStoreWithLimit env b server_key first_guard (getValidUntil env b None) =
      (b1, (fresh_ptr b, false, None)) /\
    holds b1 server_key (fresh_ptr b) (g_Message first_guard) [] /\ idle_sending b1 /\ same_config b b1 /\
    entries (receiving b1) = <[server_key := fresh_ptr b]> (entries (receiving b)).
Proof.
  intros Hwf Hload Hper Hroom.
  destruct (receiving_LoadOrStoreWithLimit_new env b server_key first_guard (getValidUntil env b None) Hwf Hload Hroom)
    as (b1 & cs & E & [Hr Hh Hsh Hf Hc Hs]). exists b1. split; [exact E|].
  cbn in Hr, Hh, Hsh. rewrite Hr. split; [|split; [by apply idle_mono|split; [|done]]].
  - constructor; rewrite ?Hr; unfold guard_at, expired, Data; rewrite ?Hh; cbn; rewrite ?fn_set_eq; cbn.
    + apply lookup_insert_eq.
    + apply (wf_fresh _ Hwf).
    + done.
    + apply new_empty.
    + intros t Ht. unfold IsExpired. cbn. case_match; [done|]. apply Z.ltb_ge. rewrite Hper.
      by apply Hwindow; [apply (q_time _ Hquiet)|].
  - destruct Hc. by constructor.
Qed.

(** The first block opens a transfer. *)
Lemma server_first :
  num = 0 -> engine_wf b -> receiving_Load env b server_key = nil_ptr -> expiration b = period ->
  receivingMessagesCacheMaxEntries b <= 0 \/
    Length (entries (receiving b)) < receivingMessagesCacheMaxEntries b ->
  maxReceiveBodySize b <= 0 \/ zlen body <= maxReceiveBodySize b ->
  exists b' p m, Handle next env b w q maxSZX mms (Some a) = Some (mkSt b' (RW_SetMessage w continue_for) q [] []) /\
    block_info m /\ holds b' server_key p m (slice_to body (1 * SZX_Size szx)) /\
    idle_sending b' /\ same_config b b' /\
    entries (receiving b') = <[server_key := p]> (entries (receiving b)).
Proof.
  intros Hn0 Hwf Hload Hper Hroom Hlimit.
  assert (Hmore : more_after body szx num = true).
  { unfold more_after. rewrite Hn0. apply Z.ltb_lt. lia. }
  rewrite Handle_block by by left.
  unfold processReceivedBlock. cbn [st_engine st_r received_block rb_exchangeKey rb_token rb_blockType].
  rewrite no_sent_request, not_observe. cbn [Z.eqb Pos.eqb Block1 Block2 andb].
  cbn [set_engine st_engine st_r]. rewrite !not_observe.
  cbn [received_block rb_exchangeKey rb_blockType rb_num rb_more rb_szx rb_maxSzx].
  assert ((num =? 0) = true) as -> by lia. rewrite Hload. cbn [N.eqb nil_ptr negb]. rewrite andb_false_r.
  rewrite Hmore. cbn [negb]. unfold getSzx. destruct (Z.ltb_spec szx szx); [lia|].
  unfold getCachedReceivedMessage. cbn [N.eqb nil_ptr with_szx rb_exchangeKey rb_matchingKey received_block].
  unfold getOrCreateReceivedMessageGuard. rewrite Hload. cbn [N.eqb nil_ptr negb].
  rewrite (q_acquire _ Hquiet). fold first_guard.
  destruct (transfer_opened Hwf Hload Hper Hroom) as (b1 & -> & Hh1 & Hi1 & Hc1 & He1). cbn [negb].
  destruct (block_more T period Hwindow next env (mkSt b1 w q [] []) (with_szx (received_block num) szx) (fresh_ptr b)
    (g_Message first_guard) [] (chunk body szx num) None) as (b' & Hh & Hf & Hres); cbn [st_engine st_r received_block with_szx
      rb_exchangeKey rb_blockType rb_szx rb_reqSzx rb_maxSzx rb_num rb_more]; try done; try lia.
  { apply (q_time _ Hquiet). }
  { rewrite <-Hper. apply (same_expiration _ _ Hc1). }
  { by apply q_etag, first_guard_info. }
  { apply q_body. }
  { change (zlen (@nil byte)) with 0. lia. }
  { intros _ _. by apply chunk_full. }
  { intros _. rewrite (same_size _ _ Hc1). apply q_fits; [|done]. change (zlen (@nil byte)) with 0. lia. }
  exists b', (fresh_ptr b), (g_Message first_guard). cbn [app] in Hh.
  unfold set_engine. cbn [st_engine st_w st_r st_errors st_delivered]. rewrite Hres.
  unfold set_engine. cbn [st_engine st_w st_r st_errors st_delivered].
  rewrite send_continue_block1 by done. cbn [delete_on_error and_then].
  pose proof (send_continue_response b' env Hmore) as E. cbv zeta in E. rewrite E.
  split; [done|]. split; [by apply first_guard_info|].
  split.
  { assert (chunk body szx num = slice_to body (1 * SZX_Size szx)) as <-; [|done].
    rewrite Hn0. unfold chunk. by rewrite Z.mul_0_l, slice_from_0, Z.mul_1_l. }
  split; [|split; [etransitivity; [exact Hc1|apply (f_config _ _ Hf)]|by rewrite (f_entries _ _ Hf)]].
  intros env' Ht'. unfold sending_message, sending_Load, sending_at.
  rewrite (f_sending _ _ Hf), (f_sending_heap _ _ Hf). by apply Hi1.
Qed.
End Step.
End Server.
End Receiving.

(** ** The client *)

Section Client.
Context {F : Type} `{!MemFile F}.
Context (next : RW -> EMsg -> RW * EMsg) (r : EMsg) (body : list byte) (szx maxSZX mms : Z) (remote : addr).
Context (Hcode : isBodyMethod (e_code r) = true) (Htoken : e_token r <> []).
Context (Hsorted : sorted_opts (e_options r)) (Hbody : e_body r = Some body).
Context (Hszx : 0 <= szx <= 6) (Hmax : szx <= maxSZX <= 7) (Hlen : zlen body < 2 ^ 32).

(** A 2.31 Continue for block [num] makes the client send block [num + 1]. *)
Lemma client_continue env (b : BlockWise (F := F)) w p num :
  qblock_Handle env = None -> sending_message env b (Token_Hash (e_token r)) = Some r ->
  e_code p = Continue -> e_token p = e_token r -> e_GetOptionUint32 p Block1 = (packed szx num true, None) ->
  0 <= num -> num + 1 <= maxBlockNumber -> (num + 1) * SZX_Size szx <= zlen body ->
  Handle next env b w p maxSZX mms remote = Some (mkSt b (RW_SetMessage w (block_message r body szx (num + 1))) p [] []).
Proof.
  intros Hq Hsend Hc Ht Hblock Hn Hn1 Hl. unfold Handle, SZXBERT. destruct (Z.ltb_spec 7 maxSZX); [lia|]. rewrite Hq.
  assert (getMessageExchangeKey p remote = Ok (Token_Hash (e_token r))) as ->.
  { unfold getMessageExchangeKey, getExchangeKey. rewrite Hc, Ht.
    destruct (Z.eqb_spec (zlen (e_token r)) 0) as [E|_]; [by apply zlen_0_nil in E|]. by destruct remote. }
  assert (resolveBlock1ExchangeKey env b p remote (Token_Hash (e_token r)) = Ok (Token_Hash (e_token r))) as ->.
  { unfold resolveBlock1ExchangeKey. by rewrite Hc. }
  assert (resolveBlock2ExchangeKey env b p remote (Token_Hash (e_token r)) = Ok (Token_Hash (e_token r))) as ->.
  { unfold resolveBlock2ExchangeKey, mayResumeBlock2. by rewrite Hc. }
  unfold getSendingMessageCode. rewrite Hsend. cbn [negb orb].
  assert (wantsToBeReceived p = false) as ->.
  { unfold wantsToBeReceived. rewrite Hc. by rewrite !andb_false_r. }
  unfold continueSendingMessage. rewrite Hcode, Hblock, Hsend, Hc.
  rewrite (createSendingMessage_block r body szx maxSZX mms Hsorted Hbody Hszx) by (rewrite ?Hcode; lia).
  rewrite Hcode. cbn [IsRequestCode]. assert (IsRequestCode (e_code r) = true) as ->.
  { unfold isBodyMethod in Hcode. unfold IsRequestCode.
    repeat (apply orb_prop in Hcode as [Hcode|Hcode]); apply Z.eqb_eq in Hcode; by rewrite Hcode. }
  by rewrite andb_false_r.
Qed.
End Client.

(** ** The whole transfer *)

Section Upload.
Context {F : Type} `{!MemFile F}.

(** The request goes to the server; while the handler was not called the response goes to
    the client, which answers with the next request.  The result is the state of both
    engines and what the handler got. *)
Fixpoint upload (net : Net) (szx : Z) (n i : nat) (client server : BlockWise (F := F)) (q : EMsg)
    : option (BlockWise (F := F) * BlockWise (F := F) * list EMsg) :=
  match Handle (n_handler net) (n_server_env net i) server (n_server_w net i) (n_up net i q)
          (n_server_max net) (n_mms net) (Some (n_server_addr net)) with
  | None => None
  | Some st =>
      match st_delivered st, n with
      | [], O => None
      | [], S n =>
          match Handle (n_client_handler net) (n_client_env net i) client (n_client_w net i)
                  (n_down net i (RW_Message (st_w st))) szx (n_mms net) (n_client_addr net) with
          | None => None
          | Some st' => upload net szx n (S i) (st_engine st') (st_engine st) (RW_Message (st_w st'))
          end
      | d, _ => Some (client, st_engine st, d)
      end
  end.

(** [Do] with the exchange above as its way to send the request. *)
Definition upload_request (net : Net) (szx : Z) (n : nat) env (client server : BlockWise (F := F)) (r : EMsg)
    : BlockWise (F := F) * result (BlockWise (F := F) * list EMsg) :=
  Do env client r szx (n_mms net) (n_client_addr net)
    (fun client q =>
       match upload net szx n 0 client server q with
       | Some (client, server, d) => (client, Ok (server, d))
       | None => (client, Err ErrContext)
       end).
End Upload.

(** The peers are quiet for the duration of the transfer, which takes place at the
    instants [T], and the network transmits every message. *)
Record net_ok (T : Z -> Prop) (net : Net) (r : EMsg) : Prop := {
  no_server : forall i, quiet T r (n_server_env net i);
  no_client : forall i, T (now (n_client_env net i)) /\ qblock_Handle (n_client_env net i) = None;
  no_up : forall i m, transmitted m (n_up net i m);
  no_down : forall i m, transmitted m (n_down net i m)
}.

(** A request that is sent block-wise with blocks of the given size. *)
Record uploadable (r : EMsg) (body : list byte) (szx : Z) : Prop := {
  up_code : isBodyMethod (e_code r) = true;
  up_token : e_token r <> [];
  up_sorted : sorted_opts (e_options r);
  up_options : forall id, id ∈ [Block1; Block2; Size1] -> vals (e_options r) id = [];
  up_body : e_body r = Some body;
  up_szx : 0 <= szx <= 6;
  up_len : SZX_Size szx < zlen body < 2 ^ 32;
  up_count : zlen body <= (maxBlockNumber + 1) * SZX_Size szx
}.

Section Transfer.
Context {F : Type} `{!MemFile F} `{!MemFileLaws F}.
Context (T : Z -> Prop) (net : Net) (r : EMsg) (body : list byte) (szx : Z).
Context (Hnet : net_ok T net r) (Hr : uploadable r body szx) (Hmax : szx <= n_server_max net <= 7).
Notation BW := (BlockWise (F := F)).
Notation key := (server_key r (n_server_addr net)).

(** The request as the handler gets it. *)
Record delivered_as (d : EMsg) : Prop := {
  da_code : e_code d = e_code r;
  da_token : e_token d = e_token r;
  da_options : e_options d = e_options r;
  da_body : e_body d = Some body
}.

(** Removing the block and size options gives back the options of the request. *)
Lemma assembled_delivered m t :
  block_info r body szx m ->
  delivered_as (e_SetBody (e_SetType (e_Remove (e_Remove m Block1) Size1) t) (Some body)).
Proof.
  intros [Hc Ht Ho]. pose proof (up_sorted _ _ _ Hr) as Hs.
  assert (Hsm : sorted_opts (e_options m)) by (rewrite Ho; by apply block_options_sorted).
  constructor; try done. cbn [e_SetBody e_SetType e_options].
  assert (Hs1 : sorted_opts (e_options (e_Remove m Block1))) by by apply e_Remove_sorted.
  apply sorted_vals_ext; [by apply e_Remove_sorted|done|]. intros id.
  rewrite e_Remove_vals by done. rewrite e_Remove_vals by done. rewrite Ho, block_options_vals by done.
  unfold block_type, size_type. rewrite (up_code _ _ _ Hr).
  pose proof (up_options _ _ _ Hr) as Hopt.
  repeat case_decide; subst; try done; symmetry; apply Hopt; set_solver.
Qed.

Definition client_waits (client : BW) : Prop :=
  forall env, T (now env) -> sending_message env client (Token_Hash (e_token r)) = Some r.

(** The client's answer to the response the server gave to block [num]. *)
Lemma client_answers i (client : BW) q num :
  client_waits client -> 0 <= num -> (num + 1) * SZX_Size szx < zlen body ->
  Handle (n_client_handler net) (n_client_env net i) client (n_client_w net i)
    (n_down net i (continue_for r szx q num)) szx (n_mms net) (n_client_addr net) =
  Some (mkSt client (RW_SetMessage (n_client_w net i) (block_message r body szx (num + 1)))
          (n_down net i (continue_for r szx q num)) [] []).
Proof.
  intros Hw Hn Hl. destruct Hr as [Hc Ht Hs _ Hb Hz Hlen Hcount]. destruct (no_client _ _ _ Hnet i) as [Htime Hqb].
  pose proof (SZX_Size_bounds szx Hz). unfold maxBlockNumber in *.
  pose proof (no_down _ _ _ Hnet i (continue_for r szx q num)) as [Dc Dt Do _].
  apply client_continue; try done; try (unfold maxBlockNumber; nia); [by apply Hw|].
  unfold e_GetOptionUint32. rewrite Do.
  change (e_GetOptionUint32 (continue_for r szx q num) Block1 = (packed szx num true, None)).
  unfold continue_for. apply e_Get_Set; [constructor|].
  pose proof (packed_range szx num true). unfold maxBlockValue, maxBlockNumber in *. nia.
Qed.

Context (period : Z) (Hwindow : forall t t', T t -> T t' -> t' <= t + period).

Definition within_limits (server : BW) : Prop :=
  expiration server = period /\
  (maxReceiveBodySize server <= 0 \/ zlen body <= maxReceiveBodySize server).

Lemma idle_frame (b b' : BW) : idle_sending T r (n_server_addr net) b -> frame b b' -> idle_sending T r (n_server_addr net) b'.
Proof.
  intros Hi Hf env Ht. unfold sending_message, sending_Load, sending_at.
  rewrite (f_sending _ _ Hf), (f_sending_heap _ _ Hf). by apply Hi.
Qed.

Lemma within_frame (b b' : BW) : within_limits b -> same_config b b' -> within_limits b'.
Proof. intros [? ?] []. split; congruence || (rewrite same_size0; done). Qed.

(** From the second block on: the server holds the blocks before [i]. *)
Lemma upload_rounds n : forall (i : nat) (client server : BW) p m,
  client_waits client -> block_info r body szx m ->
  holds T server key p m (slice_to body (Z.of_nat i * SZX_Size szx)) ->
  idle_sending T r (n_server_addr net) server -> within_limits server ->
  Z.of_nat i * SZX_Size szx < zlen body <= (Z.of_nat i + Z.of_nat n + 1) * SZX_Size szx ->
  exists server' d, upload net szx n i client server (block_message r body szx (Z.of_nat i)) = Some (client, server', [d]) /\
    delivered_as d /\ entries (receiving server') = delete key (entries (receiving server)).
Proof.
  induction n as [|n IH]; intros i client server p m Hw Hm Hh Hi [Hper Hlim] Hrange; cbn [upload];
    destruct Hr as [Hc Ht Hs Ho Hb Hz Hlen Hcount];
    pose proof (SZX_Size_bounds szx Hz); pose proof (no_server _ _ _ Hnet i) as Hq;
    pose proof (no_up _ _ _ Hnet i (block_message r body szx (Z.of_nat i))) as Hup;
    pose proof (Ho Block2 ltac:(set_solver)) as Hno2;
    destruct (more_after body szx (Z.of_nat i)) eqn:Hmore.
  1: { unfold more_after in Hmore. apply Z.ltb_lt in Hmore. lia. }
  2: destruct (server_more T period Hwindow (n_handler net) r body szx (n_server_max net) (n_mms net) (n_server_addr net)
         Hc Ht Hs Hno2 Hz Hmax Hlen Hcount (n_server_env net i) server (n_server_w net i) (n_up net i (block_message r body szx (Z.of_nat i)))
         (Z.of_nat i) Hq Hup ltac:(lia) ltac:(lia) Hi p m Hm Hh Hper Hlim Hmore) as (server' & -> & Hh' & Hf').
  2: { cbn [st_delivered st_w st_engine RW_Message RW_SetMessage response].
    assert (Hmore' : (Z.of_nat i + 1) * SZX_Size szx < zlen body) by (unfold more_after in Hmore; lia).
    rewrite client_answers by (done || lia). cbn [st_engine st_w RW_SetMessage RW_Message response].
    replace (Z.of_nat i + 1) with (Z.of_nat (S i)) in * by lia.
    destruct (IH (S i) client server' p m) as (server'' & d & -> & Hd & He); try done; try nia.
    - by eapply idle_frame.
    - eapply within_frame; [by split|]. apply (f_config _ _ Hf').
    - eexists _, _. split; [done|]. split; [done|]. by rewrite He, (f_entries _ _ Hf'). }
  all: destruct (server_final T period Hwindow (n_handler net) r body szx (n_server_max net) (n_mms net) (n_server_addr net)
         Hc Ht Hs Hno2 Hz Hmax Hlen Hcount (n_server_env net i) server (n_server_w net i) (n_up net i (block_message r body szx (Z.of_nat i)))
         (Z.of_nat i) Hq Hup ltac:(lia) ltac:(lia) Hi p m Hm Hh Hper Hlim Hmore) as (st & -> & Hd & He).
  all: rewrite Hd; eexists _, _; split; [done|]; split; [by apply assembled_delivered|done].
Qed.

(** A server that can take the transfer. *)
Record can_receive (server : BW) : Prop := {
  cr_wf : engine_wf server;
  cr_limits : within_limits server;
  cr_room : receivingMessagesCacheMaxEntries server <= 0 \/
    Length (entries (receiving server)) < receivingMessagesCacheMaxEntries server;
  cr_new : receiving_Load (n_server_env net 0) server key = nil_ptr;
  cr_idle : idle_sending T r (n_server_addr net) server
}.

Lemma upload_all n (client server : BW) :
  client_waits client -> can_receive server -> zlen body <= (Z.of_nat n + 1) * SZX_Size szx ->
  exists server' d, upload net szx n 0 client server (block_message r body szx 0) = Some (client, server', [d]) /\
    delivered_as d /\ entries (receiving server') = delete key (entries (receiving server)).
Proof.
  intros Hw [Hwf [Hper Hlim] Hroom Hnew Hi] Hn. pose proof Hr as [Hc Ht Hs Ho Hb Hz Hlen Hcount].
  pose proof (SZX_Size_bounds szx Hz). destruct n as [|n]; [nia|]. cbn [upload].
  destruct (server_first T period Hwindow (n_handler net) r body szx (n_server_max net) (n_mms net) (n_server_addr net)
    Hc Ht Hs (Ho Block2 ltac:(set_solver)) Hz Hmax Hlen Hcount (n_server_env net 0) server (n_server_w net 0)
    (n_up net 0 (block_message r body szx 0)) 0 (no_server _ _ _ Hnet 0) (no_up _ _ _ Hnet 0 _) ltac:(lia) ltac:(lia) Hi
    eq_refl Hwf Hnew Hper Hroom Hlim) as (server1 & p & m & -> & Hm & Hh & Hi1 & Hc1 & He1).
  cbn [st_delivered st_w st_engine RW_Message RW_SetMessage response].
  rewrite client_answers by (done || lia). cbn [st_engine st_w RW_SetMessage RW_Message response].
  destruct (upload_rounds n 1 client server1 p m) as (server' & d & E & Hd & He); try done; try nia.
  { eapply within_frame; [by split|done]. }
  change (0 + 1) with (Z.of_nat 1). rewrite E. eexists _, _. split; [done|]. split; [done|].
  rewrite He, He1. apply delete_insert_eq.
Qed.

(** A client that can send the request. *)
Record can_send env (client : BW) : Prop := {
  cs_wf : engine_wf client;
  cs_new : sending_Load env client (Token_Hash (e_token r)) = nil_ptr;
  cs_deadline : forall t, T t -> t <= default (now env + expiration client) (e_deadline r)
}.

Lemma Do_waits env (client : BW) v :
  engine_wf client -> sending_Load env client (Token_Hash (e_token r)) = nil_ptr -> (forall t, T t -> t <= v) ->
  client_waits (fst (sending_LoadOrStore env client (Token_Hash (e_token r)) (newSendingMessage r) v)).
Proof.
  intros Hwf Hnew Hv env' Ht. rewrite sending_LoadOrStore_new by done. cbn [fst]. rewrite sending_stored; [done|done|by apply Hv].
Qed.
End Transfer.

(** C1: A body sent with Block1 arrives whole and once.  A client engine sends a request
    whose body is larger than a block ([Do]); the network transmits the blocks to the
    server engine and its 2.31 responses back ([Handle] on both sides), with block
    sizes up to 1024 that the server accepts, a server cache with room, its body limit
    respected and no expiry.  Then, after at most as many rounds as there are blocks, the
    server's handler has been called once, with the code, the token, the
    options and the whole body of the request; the server keeps nothing of the transfer
    and the client has removed it from its cache. *)
Theorem block1_upload {F} `{!MemFile F} `{!MemFileLaws F}
    (T : Z -> Prop) (net : Net) (r : EMsg) (body : list byte) (szx period : Z) (env : Env) (n : nat)
    (client server : BlockWise (F := F)) :
  net_ok T net r -> uploadable r body szx -> szx <= n_server_max net <= 7 ->
  (forall t t', T t -> T t' -> t' <= t + period) ->
  can_receive T net r body period server -> can_send T r env client ->
  zlen body <= (Z.of_nat n + 1) * SZX_Size szx ->
  exists client' server' d,
    upload_request net szx n env client server r = (client', Ok (server', [d])) /\ delivered_as r body d /\
    entries (receiving server') !! server_key r (n_server_addr net) = None /\
    entries (sending client') !! Token_Hash (e_token r) = None.
Proof.
  intros Hnet Hr Hmax Hwindow Hs [Hwf Hnew Hdl] Hn. pose proof Hr as [Hc Ht Hso Ho Hb Hz Hlen Hcount].
  unfold upload_request, Do, SZXBERT. destruct (Z.ltb_spec 7 szx); [lia|].
  assert (getExchangeKey (e_token r) (n_client_addr net) = Ok (Token_Hash (e_token r))) as ->.
  { unfold getExchangeKey. destruct (Z.eqb_spec (zlen (e_token r)) 0) as [E|_]; [by apply zlen_0_nil in E|done]. }
  pose proof (Do_waits T r env client _ Hwf Hnew Hdl) as Hw.
  rewrite sending_LoadOrStore_new in Hw |- * by done. cbn [fst] in Hw.
  rewrite (prepareSendingRequest_block r body szx (n_mms net) Hso Hb Hz) by (done || lia).
  destruct (upload_all T net r body szx Hnet Hr Hmax period Hwindow n _ server Hw Hs Hn) as (server' & d & -> & Hd & He).
  eexists _, server', d. split; [done|]. split; [done|]. split; [rewrite He; apply lookup_delete_eq|].
  cbn. apply lookup_delete_eq.
Qed.

(** The witness uploads 50 bytes in blocks of 16, to a server that accepts blocks of 1024
    and a network that changes the types and the deadlines of messages. *)
Definition demo_body : list byte := Z.of_nat <$> seq 0 50.
Definition demo_request : EMsg :=
  mkEMsg POST [1; 2; 3] [mkOption URIPath [97]; mkOption ContentFormat [50]] Confirmable 7 (Some demo_body) None.
Definition demo_env : Env := mkEnv 1000 (fun _ => None) (Err ErrContext) None [] [] [] None.
Definition demo_handler (w : RW) (r : EMsg) : RW * EMsg :=
  (RW_SetMessage w (e_SetToken (e_SetCode (AcquireMessage None) Changed) (e_token r)), r).
Definition demo_link (i : nat) (m : EMsg) : EMsg :=
  mkEMsg (e_code m) (e_token m) (e_options m) NonConfirmable (Z.of_nat i) (e_body m) (Some 5000).
Definition demo_w : RW := RW_New (AcquireMessage None) [].
Definition demo_net : Net :=
  mkNet demo_handler (fun _ => demo_env) (fun _ => demo_w) SZX1024 [49] demo_handler (fun _ => demo_env)
    (fun _ => demo_w) (Some [50]) 1152 demo_link demo_link.

Lemma block1_upload_witness :
  exists client server d,
    upload_request demo_net SZX16 3 demo_env (BlockWise_New (F := ListFile) 100) (BlockWise_New 100) demo_request
      = (client, Ok (server, [d])) /\ e_body d = Some demo_body /\ e_options d = e_options demo_request.
Proof.
  destruct (block1_upload (F := ListFile) (fun t => t = 1000) demo_net demo_request demo_body SZX16 100 demo_env 3
    (BlockWise_New 100) (BlockWise_New 100)) as (client & server & d & H & [_ _ Ho Hb] & _).
  - constructor; [by constructor|done|by constructor|by constructor].
  - constructor; try done; [repeat constructor; vm_compute; discriminate| |vm_compute; split; discriminate || done..].
    intros id Hid. by repeat (apply elem_of_cons in Hid as [-> | Hid]; [done|]); apply not_elem_of_nil in Hid.
  - vm_compute. split; discriminate.
  - intros t t' -> ->. lia.
  - constructor; [apply new_engine_wf|split; [done|left; vm_compute; discriminate]|right; vm_compute; reflexivity|done|done].
  - constructor; [apply new_engine_wf|done|]. intros t ->. vm_compute. discriminate.
  - vm_compute. discriminate.
  - exists client, server, d. split; [exact H|]. split; [exact Hb|exact Ho].
Defined.
