(* ===== verification/BlockwiseDownload.v ===== *)
(** * Downloading a body with Block2

    A client asks for a resource ([Do] with GET), the server's handler answers with a
    large body, and the two engines exchange the blocks: the handler is called once and
    the client gets the whole response, once. *)
From stdpp Require Import prelude gmap fin_maps list strings.
From Stdlib Require Import ZArith Lia.
From S2P Require Import Prelude Cast Codes OptionCodec Options Message PoolMessage BlockCodec Crc64 SyncMap.
From S2P Require Import Cache EngineMessage ResponseWriter ExchangeKey Blockwise BlockwiseLemmas.
From S2P Require Import BlockwiseReceive.
#[local] Open Scope Z_scope.

(** A request without a body or block-wise options. *)
Record gettable (g : EMsg) : Prop := {
  gt_code : e_code g = GET;
  gt_token : e_token g <> [];
  gt_sorted : sorted_opts (e_options g);
  gt_options : forall id, id ∈ [Observe; Block1; Block2] -> vals (e_options g) id = [];
  gt_body : e_body g = None
}.

(** A response with a body of more than one block of the given size. *)
Record downloadable (g R : EMsg) (body : list byte) (szx : Z) : Prop := {
  dl_code : Created <= e_code R < CSM /\ e_code R <> Continue;
  dl_token : e_token R = e_token g;
  dl_sorted : sorted_opts (e_options R);
  dl_options : forall id, id ∈ [Observe; Block1; Block2; Size2] -> vals (e_options R) id = [];
  dl_body : e_body R = Some body;
  dl_szx : 0 <= szx <= 6;
  dl_len : SZX_Size szx < zlen body < 2 ^ 32;
  dl_count : zlen body <= (maxBlockNumber + 1) * SZX_Size szx
}.

Section Codes.
Context (c : Z) (Hc : Created <= c < CSM /\ c <> Continue).
Lemma response_not_body : isBodyMethod c = false.
Proof. unfold isBodyMethod, Created, CSM, POST, PUT, FETCH, PATCH, IPATCH in *. lia. Qed.
Lemma response_not_request : IsRequestCode c = false.
Proof. unfold IsRequestCode, Created, CSM, GET in *. lia. Qed.
End Codes.

Section Server.
Context {F : Type} `{!MemFile F}.
Context (T : Z -> Prop) (next : RW -> EMsg -> RW * EMsg) (g R : EMsg) (body : list byte) (szx mms : Z) (a : list byte).
Context (Hg : gettable g) (HR : downloadable g R body szx).
Context (Hnext : forall w q, transmitted g q -> next w q = (RW_SetMessage w R, q)).
Notation key := (Token_Hash (e_token g)).
Notation BW := (BlockWise (F := F)).

Definition serves (b : BW) : Prop := forall env, T (now env) -> sending_message env b key = Some R.

Lemma get_key q : e_code q = GET -> e_token q = e_token g -> getMessageExchangeKey q (Some a) = Ok key.
Proof.
  intros Hc Ht. unfold getMessageExchangeKey, getExchangeKey. rewrite Hc, Ht. cbn [negb].
  destruct (Z.eqb_spec (zlen (e_token g)) 0) as [E|_]; [apply zlen_0_nil in E; by destruct (gt_token _ Hg)|done].
Qed.

Lemma R_not_body : isBodyMethod (e_code R) = false.
Proof. apply response_not_body, (dl_code _ _ _ _ HR). Qed.

Lemma R_block num more :
  0 <= num <= maxBlockNumber -> num * SZX_Size szx <= zlen body ->
  createSendingMessage R szx mms (packed szx num more) =
    Some (Ok (block_message R body szx num, more_after body szx num)).
Proof.
  intros Hn Hl. destruct HR as [_ _ Hs _ Hb Hz Hlen _].
  pose proof (createSendingMessage_block R body szx szx mms Hs Hb Hz (Z.le_refl szx) ltac:(lia) num more) as H.
  cbv zeta in H. rewrite R_not_body in H. apply H; lia.
Qed.

Lemma block_not_observe num : isObserveResponse (block_message R body szx num) = false.
Proof.
  unfold isObserveResponse. rewrite e_Get_vals by (apply block_options_sorted, (dl_sorted _ _ _ _ HR)).
  rewrite other_option_vals; [|apply (dl_sorted _ _ _ _ HR)|unfold block_type|unfold size_type];
    [|by rewrite R_not_body..]. by rewrite (dl_options _ _ _ _ HR) by set_solver.
Qed.

(** The handler's response is stored and its first block sent. *)
Lemma response_started env (b : BW) w q m :
  engine_wf b -> sending_Load env b key = nil_ptr ->
  (forall t, T t -> t <= default (now env + expiration b) (e_deadline R)) ->
  exists b', startSendingMessage env b (RW_SetMessage w R) szx mms (packed szx 0 true) key m =
      Some (b', RW_SetMessage w (block_message R body szx 0), None) /\ serves b' /\
    echoFinalBlock1 (block_message R body szx 0) q GET = block_message R body szx 0.
Proof.
  intros Hwf Hnew Hdl. unfold startSendingMessage, e_BodySize. destruct HR as [_ _ Hs _ Hb Hz Hlen _].
  pose proof (SZX_Size_bounds szx Hz). cbn [RW_SetMessage RW_Message response]. rewrite Hb. cbn [default from_option id].
  destruct (Z.ltb_spec (zlen body) (SZX_Size szx)); [lia|].
  rewrite R_block by (unfold maxBlockNumber; lia). cbn [RW_Swap response RW_Message RW_SetMessage].
  rewrite block_not_observe. cbn [andb block_message e_deadline]. rewrite sending_LoadOrStore_new by done.
  eexists. split; [done|]. split; [|done]. intros env' Ht. rewrite sending_stored; [done|done|by apply Hdl].
Qed.

(** The request runs the handler once. *)
Lemma server_starts env (b : BW) w q :
  engine_wf b -> transmitted g q -> qblock_Handle env = None -> T (now env) ->
  sending_Load env b key = nil_ptr ->
  (forall t, T t -> t <= default (now env + expiration b) (e_deadline R)) ->
  exists b', Handle next env b w q szx mms (Some a) =
      Some (mkSt b' (RW_SetMessage w (block_message R body szx 0)) q [] [q]) /\ serves b'.
Proof.
  intros Hwf Hq Hqb Ht Hnew Hdl. pose proof Hg as [Hgc Hgt Hgs Hgo _]. pose proof Hq as [Qc Qt Qo _].
  assert (Hb2 : e_GetOptionUint32 q Block2 = (0, Some ErrOptionNotFound)).
  { unfold e_GetOptionUint32. rewrite Qo, GetUint32_vals by done. by rewrite Hgo by set_solver. }
  unfold Handle, SZXBERT. pose proof (dl_szx _ _ _ _ HR). destruct (Z.ltb_spec 7 szx); [lia|].
  rewrite Hqb, get_key by congruence.
  unfold resolveBlock1ExchangeKey, resolveBlock2ExchangeKey, mayResumeBlock2, isBlock2Continuation.
  rewrite Hb2, Qc, Hgc. cbn. rewrite andb_false_r. cbn [negb orb].
  unfold getSendingMessageCode, sending_message. rewrite Hnew. cbn [N.eqb nil_ptr negb orb].
  unfold handleReceivedMessage. rewrite EncodeBlockOption_packed by (unfold maxBlockNumber; lia).
  cbn [st_r]. rewrite Qc, Hgc. cbn [Z.eqb Pos.eqb orb GET Empty CSM Ping Pong Release Abort].
  unfold fitSZX. rewrite Hb2. unfold next_request. cbn [st_w st_r st_engine st_errors st_delivered].
  rewrite Hnext by done. cbn [st_w st_r st_engine]. rewrite bool_decide_false, andb_false_r by done.
  unfold send_response. cbn [st_w st_r st_engine].
  destruct (response_started env b w q (getSendingMatch q (RW_Message (RW_SetMessage w R)) GET (Some a)) Hwf Hnew Hdl)
    as (b' & E & Hs & He). rewrite E. exists b'. split; [|done].
  cbn [RW_Message RW_SetMessage response]. by rewrite He.
Qed.

(** A request for a later block gets it from the stored response. *)
Lemma server_continues env (b : BW) w q num :
  serves b -> qblock_Handle env = None -> T (now env) ->
  e_code q = GET -> e_token q = e_token g -> sorted_opts (e_options q) ->
  vals (e_options q) Block2 = [uint_bytes (packed szx num true)] ->
  0 <= num <= maxBlockNumber -> num * SZX_Size szx <= zlen body ->
  exists b', Handle next env b w q szx mms (Some a) =
      Some (mkSt b' (RW_SetMessage w (block_message R body szx num)) q [] []) /\
    (if more_after body szx num then b' = b else entries (sending b') !! key = None).
Proof.
  intros Hserve Hqb Ht Qc Qt Qs Qb2 Hn Hl. pose proof (dl_szx _ _ _ _ HR) as Hz.
  assert (Hb2 : e_GetOptionUint32 q Block2 = (packed szx num true, None)).
  { rewrite e_Get_vals, Qb2 by done. pose proof (packed_range szx num true). unfold maxBlockValue in *.
    by rewrite DecodeUint32_uint_bytes by lia. }
  unfold Handle, SZXBERT. destruct (Z.ltb_spec 7 szx); [lia|]. rewrite Hqb, get_key by done.
  assert (resolveBlock1ExchangeKey env b q (Some a) key = Ok key) as ->.
  { unfold resolveBlock1ExchangeKey. by rewrite Qc. }
  pose proof (Hserve env Ht) as Hsend.
  assert (resolveBlock2ExchangeKey env b q (Some a) key = Ok key) as ->.
  { unfold resolveBlock2ExchangeKey. unfold sending_message in Hsend.
    destruct (sending_Load env b key =? nil_ptr)%N; [done|]. by rewrite orb_true_r. }
  unfold getSendingMessageCode. rewrite Hsend. cbn [negb orb].
  assert (wantsToBeReceived q = false) as ->.
  { unfold wantsToBeReceived. assert (e_HasOption q Block2 = true) as -> by by rewrite e_Has_vals, Qb2.
    rewrite Qc. by rewrite andb_false_r. }
  unfold continueSendingMessage. rewrite R_not_body, Hb2, Hsend, R_block by done.
  rewrite Qc, Qt, (response_not_request _ (dl_code _ _ _ _ HR)). cbn [IsRequestCode].
  assert (e_SetToken (block_message R body szx num) (e_token g) = block_message R body szx num) as Etok.
  { unfold e_SetToken, block_message. cbn. by rewrite (dl_token _ _ _ _ HR). }
  cbn -[more_after block_message Token_Hash e_SetToken]. rewrite Etok. eexists. split; [done|].
  rewrite andb_true_r. destruct (more_after body szx num); [done|]. cbn. apply lookup_delete_eq.
Qed.
End Server.

Section Client.
Context {F : Type} `{!MemFile F} `{!MemFileLaws F}.
Context (T : Z -> Prop) (period : Z) (Hwindow : forall t t', T t -> T t' -> t' <= t + period).
Context (next : RW -> EMsg -> RW * EMsg) (g R : EMsg) (body : list byte) (szx cmax mms : Z) (remote : addr).
Context (Hg : gettable g) (HR : downloadable g R body szx) (Hmax : szx <= cmax <= 7).
Context (Hdeadline : forall t, T t -> forall d, e_deadline g = Some d -> t <= d).
Notation key := (Token_Hash (e_token g)).
Notation BW := (BlockWise (F := F)).
Notation holds := (holds T).

Definition client_waits (b : BW) : Prop := forall env, T (now env) -> sending_message env b key = Some g.

Definition received_block (num : Z) : receivedBlock :=
  mkReceivedBlock key 0 (e_token g) Block2 Size2 szx szx szx num (more_after body szx num).

(** The message kept for the transfer is that of its first block. *)
Record block_info (m : EMsg) : Prop := {
  bi_code : e_code m = e_code R;
  bi_token : e_token m = e_token g;
  bi_sorted : sorted_opts (e_options m);
  bi_options : forall id, vals (e_options m) id =
    if decide (id = Block2) then [uint_bytes (packed szx 0 (more_after body szx 0))]
    else if decide (id = Size2) then [uint_bytes (zlen body)] else vals (e_options R) id
}.

(** The request for block [num]. *)
Definition request_for (dl : option Z) (num : Z) : EMsg :=
  e_SetOptionUint32 (e_Remove (e_Remove (e_Remove (e_SetCode (e_ResetOptionsTo (e_SetToken (AcquireMessage dl)
    (e_token g)) (e_options g)) GET) Observe) Block1) Size1) Block2 (packed szx num true).

Lemma request_for_options dl num :
  sorted_opts (e_options (request_for dl num)) /\
  vals (e_options (request_for dl num)) Block2 = [uint_bytes (packed szx num true)].
Proof.
  unfold request_for. rewrite e_ResetOptionsTo_sorted by apply (gt_sorted _ Hg).
  set (m0 := e_SetCode _ GET).
  assert (H0 : sorted_opts (e_options m0)) by apply (gt_sorted _ Hg).
  pose proof (e_Remove_sorted m0 H0 Observe) as H1. pose proof (e_Remove_sorted _ H1 Block1) as H2.
  pose proof (e_Remove_sorted _ H2 Size1) as H3. split; [by apply e_Set_sorted|].
  rewrite e_Set_vals by done. by rewrite decide_True.
Qed.

Section Step.
Context (env : Env) (b : BW) (w : RW) (p : EMsg) (num : Z).
Context (Htime : T (now env)) (Hqb : qblock_Handle env = None) (Hacq : acquire env = None).
Context (Hp : transmitted (block_message R body szx num) p).
Context (Hnum : 0 <= num) (Hin : num * SZX_Size szx < zlen body) (Hwaits : client_waits b).
Notation p1 := (e_Remove p Block1).

Lemma response_num_bound : num <= maxBlockNumber.
Proof.
  destruct HR as [_ _ _ _ _ Hz _ Hcount]. pose proof (SZX_Size_bounds szx Hz). unfold maxBlockNumber in *. nia.
Qed.

Lemma p_sorted : sorted_opts (e_options p).
Proof. rewrite (tr_options _ _ Hp). apply block_options_sorted, (dl_sorted _ _ _ _ HR). Qed.

Lemma p1_sorted : sorted_opts (e_options p1).
Proof. apply e_Remove_sorted, p_sorted. Qed.

Lemma p1_vals id :
  vals (e_options p1) id =
    if decide (id = Block2) then [uint_bytes (packed szx num (more_after body szx num))]
    else if decide (id = Size2) then [uint_bytes (zlen body)] else vals (e_options R) id.
Proof.
  rewrite e_Remove_vals by apply p_sorted. rewrite (tr_options _ _ Hp).
  rewrite block_options_vals by apply (dl_sorted _ _ _ _ HR).
  unfold block_type, size_type. rewrite (response_not_body _ (dl_code _ _ _ _ HR)).
  case_decide; [|done]. subst id. rewrite !decide_False by done. symmetry. apply (dl_options _ _ _ _ HR). set_solver.
Qed.

Lemma p1_block2 : e_GetOptionUint32 p1 Block2 = (packed szx num (more_after body szx num), None).
Proof.
  rewrite e_Get_vals by apply p1_sorted. rewrite p1_vals, decide_True by done.
  pose proof (packed_range szx num (more_after body szx num)). pose proof (dl_szx _ _ _ _ HR). pose proof response_num_bound.
  unfold maxBlockValue in *. by rewrite DecodeUint32_uint_bytes by lia.
Qed.

Lemma p1_not_observe : isObserveResponse p1 = false.
Proof.
  unfold isObserveResponse. rewrite e_Get_vals by apply p1_sorted.
  rewrite p1_vals, !decide_False by done. by rewrite (dl_options _ _ _ _ HR) by set_solver.
Qed.

Lemma p_code : e_code p = e_code R.
Proof. exact (tr_code _ _ Hp). Qed.

Lemma p_token : e_token p = e_token g.
Proof. rewrite (tr_token _ _ Hp). apply (dl_token _ _ _ _ HR). Qed.

Lemma Handle_response :
  Handle next env b w p cmax mms remote =
    match and_then (processReceivedBlock next env (mkSt b w p1 [] []) (received_block num))
            (fun st => send_response env st szx mms (packed cmax 0 true) key (e_code R) remote) with
    | None => None
    | Some (st, None) => Some st
    | Some (st, Some e) => Some (reject st (e_token g) e)
    end.
Proof.
  pose proof (dl_szx _ _ _ _ HR) as Hz. pose proof (dl_code _ _ _ _ HR) as Hc.
  pose proof (response_not_body _ Hc) as Hnb. pose proof (response_not_request _ Hc) as Hnr.
  unfold Handle, SZXBERT. destruct (Z.ltb_spec 7 cmax); [lia|]. rewrite Hqb.
  assert (getMessageExchangeKey p remote = Ok key) as ->.
  { unfold getMessageExchangeKey, getExchangeKey. rewrite p_code, p_token, Hnr.
    destruct (Z.eqb_spec (zlen (e_token g)) 0) as [E|_]; [apply zlen_0_nil in E; by destruct (gt_token _ Hg)|].
    by destruct remote. }
  assert (resolveBlock1ExchangeKey env b p remote key = Ok key) as ->.
  { unfold resolveBlock1ExchangeKey. by rewrite p_code, Hnb. }
  assert (Hnot : forall c, c < 32 -> (e_code R =? c) = false) by (unfold Created in *; lia).
  assert (resolveBlock2ExchangeKey env b p remote key = Ok key) as ->.
  { unfold resolveBlock2ExchangeKey, mayResumeBlock2. rewrite p_code. by rewrite !Hnot. }
  unfold getSendingMessageCode. rewrite Hwaits by done. cbn [negb orb].
  assert (wantsToBeReceived p = true) as ->.
  { unfold wantsToBeReceived. rewrite p_code, Hnb, Hnr, !andb_false_r. by destruct (Z.eqb_spec (e_code R) Continue); [lia|]. }
  unfold handleReceivedMessage. rewrite EncodeBlockOption_packed by (unfold maxBlockNumber; lia).
  cbn [st_r]. rewrite p_code, Hnb, !(Hnot Empty), !(Hnot GET), !(Hnot DELETE) by done.
  assert (Hsig : forall c, CSM <= c -> (e_code R =? c) = false) by lia. rewrite !Hsig by done. cbn [orb].
  destruct (Z.leb_spec Created (e_code R)); [|lia]. cbn [set_r st_r st_engine st_w st_errors st_delivered].
  assert (fitSZX p1 Block2 cmax = szx) as ->.
  { unfold fitSZX. rewrite p1_block2, DecodeBlockOption_packed by (pose proof response_num_bound; lia).
    destruct (Z.ltb_spec szx cmax); lia. }
  unfold processReceivedMessage. cbn [set_r st_r st_engine st_w st_errors st_delivered].
  rewrite p1_block2, DecodeBlockOption_packed by (pose proof response_num_bound; lia).
  change (e_code p1) with (e_code p). change (e_token p1) with (e_token p). rewrite p_code, p_token.
  by rewrite (Hnot GET), (Hnot DELETE).
Qed.

Lemma p1_etag m : block_info m -> e_GetOptionBytes p1 ETag = e_GetOptionBytes m ETag.
Proof.
  intros [_ _ Hs Ho]. unfold e_GetOptionBytes. rewrite !GetBytes_vals by (apply p1_sorted || done).
  by rewrite p1_vals, Ho, !decide_False.
Qed.

Lemma p1_body : e_body p1 = Some (chunk body szx num).
Proof. exact (tr_body _ _ Hp). Qed.

(** What the client keeps of its request. *)
Lemma sent_request :
  getSentRequest env b key (e_token g) = Some (CloneMessage g) /\
  forall t, T t -> expiration b = period -> t <= getValidUntil env b (Some (CloneMessage g)).
Proof.
  unfold getSentRequest. rewrite Hwaits by done. split; [done|]. intros t Ht Hper. unfold getValidUntil. cbn.
  destruct (e_deadline g) as [d|] eqn:E; cbn; [by apply (Hdeadline t Ht)|]. rewrite Hper. by apply Hwindow.
Qed.

Lemma send_continue_block2 (b' : BW) size :
  size = (num + 1) * SZX_Size szx -> more_after body szx num = true ->
  send_continue (mkSt b' w p1 [] []) (received_block num) (Some (CloneMessage g)) size =
    Some (mkSt b' (RW_SetMessage w (request_for (e_deadline p) (num + 1))) p1 [] [], None).
Proof.
  intros -> Hmore. pose proof (dl_szx _ _ _ _ HR) as Hz. pose proof (SZX_Size_bounds szx Hz).
  unfold send_continue, sendReceivedBlockContinue.
  cbn [st_w st_r received_block rb_szx rb_maxSzx rb_token rb_blockType rb_num rb_more]. rewrite Hmore.
  unfold getSzx. destruct (Z.ltb_spec szx szx); [lia|].
  cbn [Z.eqb Pos.eqb Block2]. rewrite Z.quot_mul by lia.
  assert (num + 1 <= maxBlockNumber).
  { unfold more_after in Hmore. apply Z.ltb_lt in Hmore. pose proof (dl_count _ _ _ _ HR). nia. }
  rewrite EncodeBlockOption_packed by lia. unfold request_for.
  change (e_code (CloneMessage g)) with (e_code g). rewrite (gt_code _ Hg).
  assert (e_options (CloneMessage g) = e_options g) as ->; [|done].
  unfold CloneMessage. by rewrite e_ResetOptionsTo_sorted by apply (gt_sorted _ Hg).
Qed.

(** A request has no body, so it goes out as it is. *)
Lemma send_request_response (b' : BW) m :
  e_body m = None ->
  send_response env (mkSt b' (RW_SetMessage w m) p1 [] []) szx mms (packed cmax 0 true) key (e_code R) remote =
    Some (mkSt b' (RW_SetMessage w m) p1 [] [], None).
Proof.
  intros Hb. unfold send_response, startSendingMessage, e_BodySize. cbn [st_w st_engine st_r RW_Message RW_SetMessage response].
  rewrite Hb. cbn [default from_option id]. change (zlen (@nil byte)) with 0.
  pose proof (SZX_Size_bounds szx (dl_szx _ _ _ _ HR)). destruct (Z.ltb_spec 0 (SZX_Size szx)); [|lia].
  unfold echoFinalBlock1. by rewrite (response_not_body _ (dl_code _ _ _ _ HR)).
Qed.

Section Later.
Context (q : ptr) (m : EMsg) (Hm : block_info m).
Context (Hholds : holds b key q m (slice_to body (num * SZX_Size szx))) (Hper : expiration b = period).

Lemma response_got_size : zlen (slice_to body (num * SZX_Size szx)) = num * SZX_Size szx.
Proof.
  pose proof (SZX_Size_bounds szx (dl_szx _ _ _ _ HR)). rewrite zlen_slice_to by nia. done.
Qed.

Lemma processReceivedBlock_response :
  processReceivedBlock next env (mkSt b w p1 [] []) (received_block num) =
    processCachedReceivedBlock next env (mkSt b w p1 [] []) q (received_block num) (Some (CloneMessage g)).
Proof.
  unfold processReceivedBlock. cbn [st_engine st_r received_block rb_exchangeKey rb_token rb_blockType].
  rewrite (proj1 sent_request), p1_not_observe. rewrite bool_decide_false, andb_false_r by done.
  cbn [set_engine st_engine st_r]. rewrite !p1_not_observe. cbn [received_block rb_exchangeKey].
  rewrite (holds_Load T env b key q m _ Hholds Htime).
  destruct (N.eqb_spec q nil_ptr) as [E|E]; [by destruct (h_ptr _ _ _ _ _ _ Hholds)|].
  unfold getCachedReceivedMessage. destruct (N.eqb_spec q nil_ptr); [done|]. by rewrite Hacq.
Qed.

Lemma client_more :
  more_after body szx num = true ->
  exists b', Handle next env b w p cmax mms remote =
      Some (mkSt b' (RW_SetMessage w (request_for (e_deadline p) (num + 1))) p1 [] []) /\
    holds b' key q m (slice_to body ((num + 1) * SZX_Size szx)) /\ frame b b'.
Proof.
  intros Hmore. pose proof (dl_szx _ _ _ _ HR) as Hz. pose proof response_num_bound. pose proof response_got_size as Hgot.
  destruct (block_more T period Hwindow next env (mkSt b w p1 [] []) (received_block num) q m
    (slice_to body (num * SZX_Size szx)) (chunk body szx num) (Some (CloneMessage g))) as (b' & Hh & Hf & Hres);
    cbn [st_engine st_r received_block rb_exchangeKey rb_blockType rb_szx rb_reqSzx rb_maxSzx rb_num rb_more]; try done.
  { by apply p1_etag. }
  { apply p1_body. }
  exists b'. rewrite chunk_extends in Hh by lia. split; [|done].
  rewrite Handle_response, processReceivedBlock_response, Hres.
  unfold set_engine. cbn [st_engine st_w st_r st_errors st_delivered].
  rewrite send_continue_block2; [|by rewrite zlen_app, Hgot, chunk_full by done; lia|done].
  cbn [delete_on_error and_then]. by rewrite send_request_response.
Qed.

Lemma client_final :
  more_after body szx num = false ->
  exists st, Handle next env b w p cmax mms remote = Some st /\
    st_delivered st = [e_SetBody (e_SetType (e_Remove (e_Remove m Block2) Size2) (e_type p)) (Some body)] /\
    entries (receiving (st_engine st)) = delete key (entries (receiving b)).
Proof.
  intros Hmore. pose proof (dl_szx _ _ _ _ HR) as Hz. pose proof response_num_bound. pose proof response_got_size as Hgot.
  destruct (block_final T period Hwindow next env (mkSt b w p1 [] []) (received_block num) q m
    (slice_to body (num * SZX_Size szx)) (chunk body szx num) (Some (CloneMessage g))) as (b' & Hc & He & _ & _ & Hres);
    cbn [st_engine st_r received_block rb_exchangeKey rb_blockType rb_szx rb_reqSzx rb_maxSzx rb_num rb_more rb_token]; try done.
  { by apply p1_etag. }
  { apply p1_body. }
  { apply (bi_token _ Hm). }
  rewrite Handle_response, processReceivedBlock_response, Hres. cbn [and_then]. unfold next_assembled.
  destruct (next _ _) as [w' r'].
  destruct (send_response_total env (mkSt b' w' p1 [] [assembled_message (mkSt b w p1 [] []) (received_block num) m
    (slice_to body (num * SZX_Size szx)) (chunk body szx num)]) szx mms (packed cmax 0 true) key (e_code R) remote)
    as (st & err & E & Hd & Hr & _); [lia|]. cbn [st_delivered st_engine] in Hd, Hr.
  cbn [set_engine st_engine st_r st_errors st_delivered app] in E |- *. rewrite E.
  assert (slice_to body (num * SZX_Size szx) ++ chunk body szx num = body) as Hall.
  { rewrite chunk_extends by lia. apply slice_to_all. unfold more_after in Hmore. apply Z.ltb_ge in Hmore. lia. }
  unfold assembled_message in Hd. rewrite Hall in Hd.
  destruct err; eexists; (split; [done|]); cbn [st_delivered st_engine reject report set_w]; rewrite Hr; done.
Qed.
End Later.

Definition first_guard : messageGuard F :=
  mkGuard (e_SetCode (e_SetSequence (e_SetToken (e_ResetOptionsTo (AcquireMessage (e_deadline p1)) (e_options p1))
    (e_token p1)) (e_sequence p1)) (e_code p1)) memfile_New 0 0.

Lemma response_guard_info : num = 0 -> block_info (g_Message first_guard).
Proof.
  intros Hn0. unfold first_guard. cbn [g_Message]. rewrite e_ResetOptionsTo_sorted by apply p1_sorted.
  constructor; [apply p_code|apply p_token|apply p1_sorted|]. intros id.
  change (vals (e_options p1) id = if decide (id = Block2) then [uint_bytes (packed szx 0 (more_after body szx 0))]
    else if decide (id = Size2) then [uint_bytes (zlen body)] else vals (e_options R) id).
  rewrite p1_vals. by rewrite Hn0.
Qed.

(** The state of the client once the transfer is stored. *)
Definition opened : BW :=
  with_fresh (with_receiving b
    (mkCache (<[key := fresh_ptr b]> (entries (receiving b))) (calls (receiving b)))
    (fn_set (receiving_heap b) (fresh_ptr b)
       (mkElement (getValidUntil env b (Some (CloneMessage g))) first_guard (Some key)))) (N.succ (fresh_ptr b)).

Lemma opened_holds :
  engine_wf b -> expiration b = period -> holds opened key (fresh_ptr b) (g_Message first_guard) [].
Proof.
  intros Hwf Hper. constructor; unfold opened, guard_at, expired, Data; cbn; rewrite ?fn_set_eq; cbn.
  - apply lookup_insert_eq.
  - apply (wf_fresh _ Hwf).
  - done.
  - apply new_empty.
  - intros t Ht. unfold IsExpired. cbn [ValidUntil]. case_match; [done|]. apply Z.ltb_ge. by apply sent_request.
Qed.

(** The first block opens a transfer. *)
Lemma client_first :
  num = 0 -> engine_wf b -> entries (receiving b) !! key = None -> expiration b = period ->
  receivingMessagesCacheMaxEntries b <= 0 \/
    Length (entries (receiving b)) < receivingMessagesCacheMaxEntries b ->
  exists b' m, Handle next env b w p cmax mms remote =
      Some (mkSt b' (RW_SetMessage w (request_for (e_deadline p) 1)) p1 [] []) /\
    block_info m /\ holds b' key (fresh_ptr b) m (slice_to body (1 * SZX_Size szx)) /\ frame opened b'.
Proof.
  intros Hn0 Hwf Habsent Hper Hroom.
  assert (Hmore : more_after body szx num = true).
  { unfold more_after. rewrite Hn0. pose proof (dl_len _ _ _ _ HR). apply Z.ltb_lt. lia. }
  assert (Hload : receiving_Load env b key = nil_ptr).
  { unfold receiving_Load. by rewrite Cache_Load_cases, Habsent. }
  pose proof (dl_szx _ _ _ _ HR) as Hz. pose proof response_num_bound as Hnb.
  destruct (block_more T period Hwindow next env (mkSt opened w p1 [] []) (received_block num) (fresh_ptr b)
    (g_Message first_guard) [] (chunk body szx num) (Some (CloneMessage g))) as (b' & Hh & Hf & Hres);
    cbn [st_engine st_r received_block rb_exchangeKey rb_blockType rb_szx rb_reqSzx rb_maxSzx rb_num rb_more]; try done.
  { by apply opened_holds. }
  { by apply p1_etag, response_guard_info. }
  { apply p1_body. }
  { change (zlen (@nil byte)) with 0. lia. }
  rewrite Handle_response. unfold processReceivedBlock.
  cbn [st_engine st_r received_block rb_exchangeKey rb_token rb_blockType].
  rewrite (proj1 sent_request), p1_not_observe. rewrite bool_decide_false, andb_false_r by done.
  cbn [set_engine st_engine st_r]. rewrite !p1_not_observe.
  cbn [received_block rb_exchangeKey rb_blockType rb_num rb_more rb_szx rb_maxSzx Z.eqb Pos.eqb Block1 Block2 andb].
  rewrite Hload, Hmore. cbn [negb N.eqb nil_ptr]. unfold getSzx. destruct (Z.ltb_spec szx szx); [lia|].
  unfold getCachedReceivedMessage, getOrCreateReceivedMessageGuard.
  cbn [N.eqb nil_ptr with_szx rb_exchangeKey rb_matchingKey received_block]. rewrite Hload, Hacq. cbn [N.eqb nil_ptr negb].
  fold first_guard. rewrite receiving_LoadOrStoreWithLimit_absent by done. fold opened. cbn [negb].
  change (with_szx (received_block num) szx) with (received_block num).
  unfold set_engine. cbn [st_engine st_w st_r st_errors st_delivered]. rewrite Hres.
  unfold set_engine. cbn [st_engine st_w st_r st_errors st_delivered]. cbn [app] in Hh |- *.
  rewrite send_continue_block2; [|by rewrite chunk_full by done; rewrite Hn0; lia|done].
  cbn [delete_on_error and_then]. rewrite send_request_response by done. rewrite Hn0. change (0 + 1) with 1.
  exists b', (g_Message first_guard). split; [done|]. split; [by apply response_guard_info|]. split; [|done].
  assert (chunk body szx num = slice_to body (1 * SZX_Size szx)) as <-; [|done].
  rewrite Hn0. unfold chunk. by rewrite Z.mul_0_l, slice_from_0, Z.mul_1_l.
Qed.
End Step.
End Client.

(** ** The whole transfer *)

Section Download.
Context {F : Type} `{!MemFile F}.
Notation BW := (BlockWise (F := F)).

(** The request goes to the server and its response to the client, until the client's
    handler was called.  The result is the state of both engines, what the server's
    handler got and what the client's got. *)
Fixpoint download (net : Net) (cmax : Z) (n i : nat) (client server : BW) (q : EMsg)
    : option (BW * BW * list EMsg * list EMsg) :=
  match Handle (n_handler net) (n_server_env net i) server (n_server_w net i) (n_up net i q)
          (n_server_max net) (n_mms net) (Some (n_server_addr net)) with
  | None => None
  | Some st =>
      match Handle (n_client_handler net) (n_client_env net i) client (n_client_w net i)
              (n_down net i (RW_Message (st_w st))) cmax (n_mms net) (n_client_addr net) with
      | None => None
      | Some st' =>
          match st_delivered st', n with
          | [], O => None
          | [], S n =>
              match download net cmax n (S i) (st_engine st') (st_engine st) (RW_Message (st_w st')) with
              | Some (client, server, calls, d) => Some (client, server, st_delivered st ++ calls, d)
              | None => None
              end
          | d, _ => Some (st_engine st', st_engine st, st_delivered st, d)
          end
      end
  end.

Definition download_request (net : Net) (cmax : Z) (n : nat) env (client server : BW) (g : EMsg)
    : BW * result (BW * list EMsg * list EMsg) :=
  Do env client g cmax (n_mms net) (n_client_addr net)
    (fun client q =>
       match download net cmax n 0 client server q with
       | Some (client, server, calls, d) => (client, Ok (server, calls, d))
       | None => (client, Err ErrContext)
       end).
End Download.

(** The handler gives the response, the network transmits and nothing else happens. *)
Record net_serves (T : Z -> Prop) (net : Net) (g R : EMsg) (szx cmax : Z) : Prop := {
  ns_handler : forall w q, transmitted g q -> n_handler net w q = (RW_SetMessage w R, q);
  ns_server : forall i, T (now (n_server_env net i)) /\ qblock_Handle (n_server_env net i) = None;
  ns_client : forall i, T (now (n_client_env net i)) /\ qblock_Handle (n_client_env net i) = None /\
    acquire (n_client_env net i) = None;
  ns_up : forall i m, transmitted m (n_up net i m);
  ns_down : forall i m, transmitted m (n_down net i m);
  ns_size : n_server_max net = szx /\ szx <= cmax <= 7
}.

(** The response as the client gets it. *)
Record response_as (R : EMsg) (body : list byte) (d : EMsg) : Prop := {
  ra_code : e_code d = e_code R;
  ra_token : e_token d = e_token R;
  ra_options : e_options d = e_options R;
  ra_body : e_body d = Some body
}.

Section Transfer.
Context {F : Type} `{!MemFile F} `{!MemFileLaws F}.
Context (T : Z -> Prop) (period : Z) (Hwindow : forall t t', T t -> T t' -> t' <= t + period).
Context (net : Net) (g R : EMsg) (body : list byte) (szx cmax : Z).
Context (Hnet : net_serves T net g R szx cmax) (Hg : gettable g) (HR : downloadable g R body szx).
Context (Hdeadline : forall t, T t -> forall d, e_deadline g = Some d -> t <= d).
Notation BW := (BlockWise (F := F)).
Notation key := (Token_Hash (e_token g)).

Lemma assembled_response m t :
  block_info g R body szx m ->
  response_as R body (e_SetBody (e_SetType (e_Remove (e_Remove m Block2) Size2) t) (Some body)).
Proof.
  intros [Hc Ht Hs Ho]. pose proof (dl_token _ _ _ _ HR).
  constructor; [done|cbn; congruence| |done]. cbn [e_SetBody e_SetType e_options].
  assert (Hs1 : sorted_opts (e_options (e_Remove m Block2))) by by apply e_Remove_sorted.
  apply sorted_vals_ext; [by apply e_Remove_sorted|apply (dl_sorted _ _ _ _ HR)|]. intros id.
  rewrite e_Remove_vals by done. rewrite e_Remove_vals by done. rewrite Ho.
  pose proof (dl_options _ _ _ _ HR) as Hopt.
  repeat case_decide; subst; try done; symmetry; apply Hopt; set_solver.
Qed.

Lemma waits_frame (b b' : BW) : client_waits T g b -> frame b b' -> client_waits T g b'.
Proof.
  intros Hw Hf env Ht. unfold sending_message, sending_Load, sending_at.
  rewrite (f_sending _ _ Hf), (f_sending_heap _ _ Hf). by apply Hw.
Qed.

(** The server's answer to the request for block [num]. *)
Lemma server_answers i (server : BW) dl num :
  serves T g R server -> 0 <= num -> num * SZX_Size szx < zlen body ->
  exists st server', Handle (n_handler net) (n_server_env net i) server (n_server_w net i)
      (n_up net i (request_for g szx dl num)) (n_server_max net) (n_mms net) (Some (n_server_addr net)) = Some st /\
    st_engine st = server' /\ RW_Message (st_w st) = block_message R body szx num /\ st_delivered st = [] /\
    (if more_after body szx num then server' = server else entries (sending server') !! key = None).
Proof.
  intros Hs Hn Hl. destruct (ns_server _ _ _ _ _ _ Hnet i) as [Ht Hqb]. destruct (ns_size _ _ _ _ _ _ Hnet) as [-> _].
  pose proof (ns_up _ _ _ _ _ _ Hnet i (request_for g szx dl num)) as [Uc Ut Uo _].
  destruct (request_for_options g szx Hg dl num) as [Ro Rv].
  pose proof (response_num_bound g R body szx HR num Hn Hl).
  destruct (server_continues T (n_handler net) g R body szx (n_mms net) (n_server_addr net) Hg HR (n_server_env net i) server
    (n_server_w net i) (n_up net i (request_for g szx dl num)) num Hs Hqb Ht Uc Ut) as (b' & E & Hb');
    [by rewrite Uo|by rewrite Uo|lia|lia|].
  eexists _, b'. split; [exact E|]. done.
Qed.

Lemma download_rounds n : forall (i : nat) (client server : BW) q m dl,
  client_waits T g client -> serves T g R server -> block_info g R body szx m ->
  holds T client key q m (slice_to body (Z.of_nat i * SZX_Size szx)) -> expiration client = period ->
  Z.of_nat i * SZX_Size szx < zlen body <= (Z.of_nat i + Z.of_nat n + 1) * SZX_Size szx ->
  exists client' server' d,
    download net cmax n i client server (request_for g szx dl (Z.of_nat i)) = Some (client', server', [], [d]) /\
    response_as R body d /\ entries (receiving client') = delete key (entries (receiving client)) /\
    entries (sending server') !! key = None.
Proof.
  induction n as [|n IH]; intros i client server q m dl Hw Hs Hm Hh Hper Hrange; cbn [download];
    destruct (server_answers i server dl (Z.of_nat i) Hs ltac:(lia) ltac:(lia)) as (st & server' & -> & Es & -> & -> & Hserver);
    destruct (ns_client _ _ _ _ _ _ Hnet i) as (Ht & Hqb & Hacq);
    pose proof (ns_down _ _ _ _ _ _ Hnet i (block_message R body szx (Z.of_nat i))) as Hd;
    destruct (ns_size _ _ _ _ _ _ Hnet) as [_ Hmax]; pose proof (SZX_Size_bounds szx (dl_szx _ _ _ _ HR));
    destruct (more_after body szx (Z.of_nat i)) eqn:Hmore; rewrite Es.
  1: { unfold more_after in Hmore. apply Z.ltb_lt in Hmore. lia. }
  2: { rewrite Hserver.
    destruct (client_more T period Hwindow (n_client_handler net) g R body szx cmax (n_mms net) (n_client_addr net) Hg HR Hmax
      Hdeadline (n_client_env net i) client (n_client_w net i) (n_down net i (block_message R body szx (Z.of_nat i)))
      (Z.of_nat i) Ht Hqb Hacq Hd ltac:(lia) ltac:(lia) Hw q m Hm Hh Hper Hmore) as (client' & -> & Hh' & Hf').
    cbn [st_delivered st_engine st_w RW_SetMessage RW_Message response app].
    replace (Z.of_nat i + 1) with (Z.of_nat (S i)) in * by lia. unfold more_after in Hmore.
    match goal with |- context [request_for g szx ?d _] =>
      destruct (IH (S i) client' server q m d) as (c2 & s2 & r2 & -> & Hr2 & He2 & Hs2) end; try done; try nia.
    - by eapply waits_frame.
    - rewrite <-Hper. apply (same_expiration _ _ (f_config _ _ Hf')).
    - eexists _, _, _. split; [done|]. split; [done|]. by rewrite He2, (f_entries _ _ Hf'). }
  all: destruct (client_final T period Hwindow (n_client_handler net) g R body szx cmax (n_mms net) (n_client_addr net) Hg HR Hmax
      Hdeadline (n_client_env net i) client (n_client_w net i) (n_down net i (block_message R body szx (Z.of_nat i)))
      (Z.of_nat i) Ht Hqb Hacq Hd ltac:(lia) ltac:(lia) Hw q m Hm Hh Hper Hmore) as (st' & -> & Hdel & He).
  all: rewrite Hdel; eexists _, _, _; split; [done|]; split; [by apply assembled_response|done].
Qed.

(** A server that has no response stored under the token yet. *)
Record can_serve (server : BW) : Prop := {
  sv_wf : engine_wf server;
  sv_new : sending_Load (n_server_env net 0) server key = nil_ptr;
  sv_deadline : forall t, T t -> t <= default (now (n_server_env net 0) + expiration server) (e_deadline R)
}.

(** A client with room for a new transfer. *)
Record can_fetch (client : BW) : Prop := {
  cf_wf : engine_wf client;
  cf_absent : entries (receiving client) !! key = None;
  cf_period : expiration client = period;
  cf_room : receivingMessagesCacheMaxEntries client <= 0 \/
    Length (entries (receiving client)) < receivingMessagesCacheMaxEntries client
}.

Lemma download_all n (client server : BW) :
  client_waits T g client -> can_fetch client -> can_serve server ->
  zlen body <= (Z.of_nat n + 1) * SZX_Size szx ->
  exists client' server' q d,
    download net cmax n 0 client server g = Some (client', server', [q], [d]) /\ transmitted g q /\
    response_as R body d /\ entries (receiving client') !! key = None /\ entries (sending server') !! key = None.
Proof.
  intros Hw [Hcwf Hca Hcp Hcr] [Hswf Hsn Hsd] Hn. pose proof (SZX_Size_bounds szx (dl_szx _ _ _ _ HR)).
  pose proof (dl_len _ _ _ _ HR). destruct n as [|n]; [lia|]. cbn [download].
  destruct (ns_server _ _ _ _ _ _ Hnet 0) as [Hst Hsq]. destruct (ns_client _ _ _ _ _ _ Hnet 0) as (Hct & Hcq & Hca').
  destruct (ns_size _ _ _ _ _ _ Hnet) as [Esz Hmax].
  destruct (server_starts T (n_handler net) g R body szx (n_mms net) (n_server_addr net) Hg HR
    (ns_handler _ _ _ _ _ _ Hnet) (n_server_env net 0) server (n_server_w net 0) (n_up net 0 g) Hswf
    (ns_up _ _ _ _ _ _ Hnet 0 g) Hsq Hst Hsn Hsd) as (server1 & E1 & Hserve).
  rewrite Esz, E1. cbn [st_w st_engine st_delivered RW_SetMessage RW_Message response].
  destruct (client_first T period Hwindow (n_client_handler net) g R body szx cmax (n_mms net) (n_client_addr net) Hg HR Hmax
    Hdeadline (n_client_env net 0) client (n_client_w net 0) (n_down net 0 (block_message R body szx 0)) 0 Hct Hcq Hca'
    (ns_down _ _ _ _ _ _ Hnet 0 _) ltac:(lia) ltac:(lia) Hw eq_refl Hcwf Hca Hcp Hcr) as (client1 & m & -> & Hm & Hh & Hf).
  cbn [st_delivered st_w st_engine RW_Message RW_SetMessage response]. change 1 with (Z.of_nat 1).
  match goal with |- context [request_for g szx ?d _] =>
    destruct (download_rounds n 1 client1 server1 (fresh_ptr client) m d) as (c2 & s2 & r2 & -> & Hr2 & He2 & Hs2) end;
    try done; try nia.
  { intros env Ht. unfold sending_message, sending_Load, sending_at.
    rewrite (f_sending _ _ Hf), (f_sending_heap _ _ Hf). by apply Hw. }
  { rewrite <-Hcp. apply (same_expiration _ _ (f_config _ _ Hf)). }
  eexists _, _, _, _. split; [done|]. split; [apply (ns_up _ _ _ _ _ _ Hnet)|]. split; [done|].
  split; [|done]. rewrite He2. apply lookup_delete_eq.
Qed.
End Transfer.

(** C2: A body fetched with Block2 arrives whole and once.  A client engine sends a GET
    ([Do]); the server's handler answers with a body of more than one block, which the
    server engine stores and serves block by block while the client engine asks for the
    next block until the body is complete ([Handle] on both sides).  After at most as
    many rounds as there are blocks the handler of the server has been called exactly
    once, with the request, and the client has been given exactly one response, with
    the code, the token, the options and the whole body that the handler produced.  No
    state of the transfer is left in either engine. *)
Theorem block2_download {F} `{!MemFile F} `{!MemFileLaws F}
    (T : Z -> Prop) (net : Net) (g R : EMsg) (body : list byte) (szx cmax period : Z) (env : Env) (n : nat)
    (client server : BlockWise (F := F)) :
  net_serves T net g R szx cmax -> gettable g -> downloadable g R body szx ->
  (forall t t', T t -> T t' -> t' <= t + period) ->
  (forall t, T t -> t <= default (now env + expiration client) (e_deadline g)) ->
  sending_Load env client (Token_Hash (e_token g)) = nil_ptr ->
  can_fetch period g client -> can_serve T net g R server ->
  zlen body <= (Z.of_nat n + 1) * SZX_Size szx ->
  exists client' server' q d,
    download_request net cmax n env client server g = (client', Ok (server', [q], [d])) /\
    transmitted g q /\ response_as R body d /\
    entries (receiving client') !! Token_Hash (e_token g) = None /\
    entries (sending client') !! Token_Hash (e_token g) = None /\
    entries (sending server') !! Token_Hash (e_token g) = None.
Proof.
  intros Hnet Hg HR Hwindow Hdl Hnew Hfetch Hserve Hn. pose proof (cf_wf _ _ _ Hfetch) as Hwf.
  destruct (ns_size _ _ _ _ _ _ Hnet) as [_ Hmax].
  unfold download_request, Do, SZXBERT. destruct (Z.ltb_spec 7 cmax); [lia|].
  assert (getExchangeKey (e_token g) (n_client_addr net) = Ok (Token_Hash (e_token g))) as ->.
  { unfold getExchangeKey. destruct (Z.eqb_spec (zlen (e_token g)) 0) as [E|_]; [|done].
    apply zlen_0_nil in E. by destruct (gt_token _ Hg). }
  rewrite sending_LoadOrStore_new by done. set (c1 := with_fresh _ _).
  unfold prepareSendingRequest. rewrite (gt_body _ Hg).
  assert (Hw : client_waits T g c1).
  { intros env' Ht. unfold c1. rewrite sending_stored; [done|done|by apply Hdl]. }
  assert (Hf1 : can_fetch period g c1).
  { destruct Hfetch as [_ Ha Hp Hr]. constructor; try done. by apply sending_store_wf. }
  destruct (download_all T period Hwindow net g R body szx cmax Hnet Hg HR) with (n := n) (client := c1) (server := server)
    as (c2 & s2 & q & d & -> & Hq & Hd & Hcr & Hss); try done.
  { intros t Ht d E. specialize (Hdl t Ht). by rewrite E in Hdl. }
  eexists _, s2, q, d. split; [done|]. split; [done|]. split; [done|]. split; [exact Hcr|]. split; [|done].
  cbn. apply lookup_delete_eq.
Qed.

(** The witness fetches 50 bytes in blocks of 16. *)
Definition demo_body : list byte := Z.of_nat <$> seq 0 50.
Definition demo_get : EMsg := mkEMsg GET [1; 2; 3] [mkOption URIPath [97]] Confirmable 0 None None.
Definition demo_response : EMsg :=
  mkEMsg Content [1; 2; 3] [mkOption ETag [9]; mkOption ContentFormat [50]] Unset 0 (Some demo_body) None.
Definition demo_env : Env := mkEnv 1000 (fun _ => None) (Err ErrContext) None [] [] [] None.
Definition demo_w : RW := RW_New (AcquireMessage None) [].
Definition demo_net : Net :=
  mkNet (fun w q => (RW_SetMessage w demo_response, q)) (fun _ => demo_env) (fun _ => demo_w) SZX16 [49]
    (fun w q => (w, q)) (fun _ => demo_env) (fun _ => demo_w) (Some [50]) 1152 (fun _ m => m) (fun _ m => m).

Lemma block2_download_witness :
  exists client server q d,
    download_request demo_net SZX1024 3 demo_env (BlockWise_New (F := ListFile) 100) (BlockWise_New 100) demo_get
      = (client, Ok (server, [q], [d])) /\ e_body d = Some demo_body /\ e_options d = e_options demo_response.
Proof.
  destruct (block2_download (F := ListFile) (fun t => t = 1000) demo_net demo_get demo_response demo_body SZX16 SZX1024 100
    demo_env 3 (BlockWise_New 100) (BlockWise_New 100)) as (client & server & q & d & H & _ & [_ _ Ho Hb] & _).
  - by constructor.
  - constructor; try done; [repeat constructor; vm_compute; discriminate|].
    intros id Hid. by repeat (apply elem_of_cons in Hid as [-> | Hid]; [done|]); apply not_elem_of_nil in Hid.
  - constructor; try done; [repeat constructor; vm_compute; discriminate| |vm_compute; split; discriminate || done..].
    intros id Hid. by repeat (apply elem_of_cons in Hid as [-> | Hid]; [done|]); apply not_elem_of_nil in Hid.
  - intros t t' -> ->. lia.
  - intros t ->. vm_compute. discriminate.
  - done.
  - constructor; [apply new_engine_wf|done|done|right; vm_compute; reflexivity].
  - constructor; [apply new_engine_wf|done|]. intros t ->. vm_compute. discriminate.
  - vm_compute. discriminate.
  - exists client, server, q, d. split; [exact H|]. split; [exact Hb|exact Ho].
Defined.
