(* ===== verification/BlockwiseLimits.v ===== *)
(** * What a peer can make the block-wise engine do

    The memory that requests can make a server keep is bounded by the limits of the
    engine, whatever the peer sends, the handlers answer and the clock does.  A client,
    on the other hand, can be crashed by a response. *)
From stdpp Require Import prelude gmap fin_maps list strings.
From Stdlib Require Import ZArith Lia.
From S2P Require Import Prelude Cast Codes OptionCodec Options Message PoolMessage BlockCodec Crc64 SyncMap.
From S2P Require Import Cache EngineMessage ResponseWriter ExchangeKey Blockwise BlockwiseLemmas.
From S2P Require Import BlockwiseReceive.
#[local] Open Scope Z_scope.

Section Limits.
Context {F : Type} `{!MemFile F} `{!MemFileLaws F}.
Notation BW := (BlockWise (F := F)).
Implicit Types (b : BW) (env : Env).

(** The body of a transfer respects the limit of the engine, where there is one. *)
Definition bounded b (g : messageGuard F) : Prop :=
  0 < maxReceiveBodySize b -> zlen (memfile_Bytes (g_file g)) <= maxReceiveBodySize b.

Record limits_ok b : Prop := {
  lim_fresh : fresh_ptr b <> nil_ptr;
  lim_ptr : forall k p, entries (receiving b) !! k = Some p -> p <> nil_ptr /\ (p < fresh_ptr b)%N;
  lim_body : forall k p, entries (receiving b) !! k = Some p -> bounded b (guard_at b p);
  lim_entries : 0 < receivingMessagesCacheMaxEntries b ->
    Length (entries (receiving b)) <= receivingMessagesCacheMaxEntries b
}.

(** Every operation keeps the limits and, if they were respected, respects them. *)
Definition respects b b' : Prop := same_config b b' /\ (limits_ok b -> limits_ok b').

#[local] Instance respects_preorder : PreOrder respects.
Proof.
  split.
  - intros b. split; [reflexivity|done].
  - intros x y z [C1 L1] [C2 L2]. split; [by etransitivity|auto].
Qed.

(** Operations on the sending side. *)
Lemma respects_same b b' :
  receiving b' = receiving b -> receiving_heap b' = receiving_heap b -> same_config b b' ->
  (fresh_ptr b <= fresh_ptr b')%N -> respects b b'.
Proof.
  intros Er Eh Ec Ef. split; [done|]. intros [Hf Hp Hb He]. destruct Ec as [E1 _ _ E4].
  constructor; rewrite ?Er, ?E1; try done.
  - unfold nil_ptr in *. lia.
  - intros k p E. destruct (Hp k p E). split; [done|lia].
  - intros k p E. unfold bounded, guard_at. rewrite Eh, E4. by apply (Hb k p).
Qed.

Lemma respects_sub b b' :
  entries (receiving b') ⊆ entries (receiving b) -> receiving_heap b' = receiving_heap b -> same_config b b' ->
  fresh_ptr b' = fresh_ptr b -> respects b b'.
Proof.
  intros Es Eh Ec Ef. split; [done|]. intros [Hf Hp Hb He]. destruct Ec as [E1 _ _ E4].
  constructor; rewrite ?Ef, ?E1; try done.
  - intros k p E. apply (Hp k). by eapply lookup_weaken.
  - intros k p E. unfold bounded, guard_at. rewrite Eh, E4. apply (Hb k). by eapply lookup_weaken.
  - intros Hpos. specialize (He Hpos). apply map_subseteq_size in Es. unfold Length in *. lia.
Qed.

Lemma shrinks_respects b b' : shrinks b b' -> respects b b'.
Proof. intros [Er Eh _ Ef Ec _]. apply respects_same; [done|done|done|]. rewrite Ef. lia. Qed.

Lemma receiving_Delete_respects b key : respects b (receiving_Delete b key).
Proof. apply respects_sub; [apply delete_subseteq|done|by constructor|done]. Qed.

Lemma set_guard_respects b p g : bounded b g -> respects b (set_guard b p g).
Proof.
  intros Hg. split; [by constructor|]. intros [Hf Hp Hb He]. constructor; try done.
  intros k q E. unfold bounded, guard_at, set_guard, Data. cbn.
  destruct (decide (q = p)) as [-> | Hne]; [by rewrite fn_set_eq|]. rewrite fn_set_ne by done. by apply (Hb k q).
Qed.

Lemma refresh_respects env b block d : respects b (refreshReceiveExpiration env b block d).
Proof.
  unfold refreshReceiveExpiration. case_match; [done|]. case_match; [done|].
  split; [by constructor|]. intros [Hf Hp Hb He]. constructor; try done.
  intros k q E. unfold bounded, guard_at, Data. cbn. set (p := receiving_Load _ _ _).
  destruct (decide (q = p)) as [-> | Hne]; [rewrite fn_set_eq|rewrite fn_set_ne by done]; by apply (Hb k).
Qed.

(** A stored transfer is empty and the number of transfers stays within the limit. *)
Lemma receiving_store_respects env b b' key g v res :
  zlen (memfile_Bytes (g_file g)) = 0 ->
  receiving_LoadOrStoreWithLimit env b key g v = (b', res) -> respects b b'.
Proof.
  intros Hg. unfold receiving_LoadOrStoreWithLimit. set (h := fn_set _ _ _).
  destruct (LoadOrStoreWithLimit h (receiving b) key (fresh_ptr b) (receivingMessagesCacheMaxEntries b) (now env)
    (order_purge env)) as [c r] eqn:E. intros [= <- <-].
  etransitivity; [|apply shrinks_respects, run_onExpire_shrinks].
  split; [by constructor|]. intros [Hf Hp Hb He].
  assert (Hwf : cache_wf (receiving b)) by (intros k p Ek; by apply (Hp k p)).
  assert (Hsub : forall k p, entries c !! k = Some p -> entries (receiving b) !! k = Some p \/ p = fresh_ptr b).
  { intros k p. pose proof (LoadOrStoreWithLimit_eq h (receiving b) key (fresh_ptr b) (receivingMessagesCacheMaxEntries b)
      (now env) (order_purge env) Hwf) as Heq. rewrite E in Heq. cbv zeta in Heq.
    repeat case_match; injection Heq as -> _; cbn [entries call_onExpire];
      try (rewrite lookup_insert_Some; intros [[_ <-] | [_ Hk]]; [by right|]); try intros Hk; left;
      by eapply purge_sub. }
  assert (Hold : forall p, (p < fresh_ptr b)%N -> h p = receiving_heap b p) by (intros; unfold h; apply fn_set_ne; lia).
  constructor; cbn.
  - unfold nil_ptr. lia.
  - intros k p Ek. destruct (Hsub k p Ek) as [Hk | ->]; [|split; [done|lia]]. destruct (Hp k p Hk). split; [done|lia].
  - intros k p Ek. unfold bounded, guard_at, Data. cbn. destruct (Hsub k p Ek) as [Hk | ->].
    + destruct (Hp k p Hk). rewrite Hold by done. by apply (Hb k p).
    + unfold h. rewrite fn_set_eq. cbn. lia.
  - intros Hpos. pose proof (limit_bound h (receiving b) key (fresh_ptr b) (receivingMessagesCacheMaxEntries b) (now env)
      (order_purge env) Hwf) as Hlb. rewrite E in Hlb. cbn [fst] in Hlb. by apply Hlb; [|apply He].
Qed.

(** The pointer it returns is the one stored under the key. *)
Lemma receiving_store_entry env b b' key g v p l :
  limits_ok b -> receiving_LoadOrStoreWithLimit env b key g v = (b', (p, l, None)) ->
  entries (receiving b') !! key = Some p.
Proof.
  intros [_ Hp _ _]. unfold receiving_LoadOrStoreWithLimit. set (h := fn_set _ _ _).
  assert (Hwf : cache_wf (receiving b)) by (intros k q Ek; by apply (Hp k q)).
  rewrite LoadOrStoreWithLimit_eq by done. cbv zeta.
  assert (Hrun : forall c n, entries (receiving (run_onExpire (with_fresh (with_receiving b c h) n) (length (calls (receiving b)))))
    = entries c).
  { intros c n. by rewrite (shr_receiving _ _ (run_onExpire_shrinks _ _)). }
  destruct (entries (purge h (receiving b) (receivingMessagesCacheMaxEntries b) (now env) (order_purge env)) !! key)
    as [q|] eqn:E.
  - destruct (expired h q (now env)); intros [= <- <- _]; rewrite Hrun; [apply lookup_insert_eq|done].
  - destruct (_ && _); [done|]. intros [= <- <- _]. rewrite Hrun. apply lookup_insert_eq.
Qed.

Lemma Load_entry env b key p :
  receiving_Load env b key = p -> p <> nil_ptr -> entries (receiving b) !! key = Some p.
Proof.
  unfold receiving_Load. rewrite Cache_Load_cases. intros <- Hp.
  destruct (entries (receiving b) !! key); [|done]. by destruct (expired _ _ _).
Qed.

Lemma getOrCreate_respects env b b' r key mk v res :
  limits_ok b -> getOrCreateReceivedMessageGuard env b r key mk v = (b', res) ->
  respects b b' /\ forall p l, res = Ok (p, l) -> exists k, entries (receiving b') !! k = Some p.
Proof.
  intros Hok. unfold getOrCreateReceivedMessageGuard.
  destruct (N.eqb_spec (receiving_Load env b key) nil_ptr) as [Hnil|Hne]; cbn [negb].
  2: { intros [= <- <-]. split; [reflexivity|]. intros p l [= <- _]. exists key. by apply (Load_entry env). }
  destruct (acquire env) as [e|]; [by intros [= <- <-]|].
  destruct (receiving_LoadOrStoreWithLimit _ _ _ _ _) as [b1 [[p l] err]] eqn:E.
  pose proof E as E'. apply receiving_store_respects in E'; [|cbn; by rewrite new_empty].
  destruct err as [e|]; intros [= <- <-]; (split; [done|]); [done|].
  intros p' l' [= <- _]. exists key. by eapply receiving_store_entry.
Qed.

Lemma getCached_respects env b b' mg r block v res :
  limits_ok b -> (mg = nil_ptr \/ exists k, entries (receiving b) !! k = Some mg) ->
  getCachedReceivedMessage env b mg r block v = (b', res) ->
  respects b b' /\ forall p, res = Ok p -> exists k, entries (receiving b') !! k = Some p.
Proof.
  intros Hok Hmg. unfold getCachedReceivedMessage.
  destruct (N.eqb_spec mg nil_ptr) as [->|Hne].
  - destruct (getOrCreateReceivedMessageGuard _ _ _ _ _ _) as [b1 res1] eqn:E.
    apply getOrCreate_respects in E as [Hr Hp]; [|done].
    destruct res1 as [[p [|]]|e]; [|destruct (acquire env)|]; intros [= <- <-]; (split; [done|]); try done;
      intros p' [= <-]; by eapply Hp.
  - destruct Hmg as [?|Hk]; [done|]. destruct (acquire env); intros [= <- <-]; (split; [reflexivity|]); [done|].
    by intros p [= <-].
Qed.

Lemma bounded_config b b' g : same_config b b' -> bounded b g -> bounded b' g.
Proof. intros [_ _ _ E]. unfold bounded. by rewrite E. Qed.

Lemma getPayload_bounded b r (g g' : messageGuard F) res :
  bounded b g -> getPayloadFromCachedReceivedMessage r g = (g', res) ->
  bounded b g' /\ forall size, res = Ok size -> size = zlen (memfile_Bytes (g_file g')).
Proof.
  intros Hg. unfold getPayloadFromCachedReceivedMessage.
  destruct (e_GetOptionBytes r ETag) as [tag e1]. destruct (e_GetOptionBytes (g_Message g) ETag) as [tag' e2].
  assert (Hkeep : forall (h : messageGuard F) err, bounded b h ->
    (match err with Some e => (h, Err e) | None => let '(f, res) := file_BodySize (g_file h) in (set_file h f, res) end)
      = (g', res) -> bounded b g' /\ forall size, res = Ok size -> size = zlen (memfile_Bytes (g_file g'))).
  { intros h [e|] Hh; [by intros [= <- <-]|]. destruct (file_BodySize_spec (g_file h)) as (f & -> & Ef).
    intros [= <- <-]. unfold bounded. cbn. rewrite Ef. split; [done|]. by intros size [= <-]. }
  assert (Htrunc : forall msg, exists f, memfile_Truncate (g_file g) 0 = (f, None) /\
            bounded b (mkGuard msg f (g_matchingKey g) (g_received g))).
  { intros msg. destruct (file_truncate (g_file g) 0) as (f & E & Ef).
    { pose proof (zlen_nonneg (memfile_Bytes (g_file g))). lia. }
    exists f. split; [done|]. unfold bounded. cbn [g_file]. rewrite Ef.
    change (slice_to _ 0) with (@nil byte). change (zlen (@nil byte)) with 0. lia. }
  destruct (Htrunc (e_SetOptionBytes (g_Message g) ETag tag)) as (f & Et & Hf).
  destruct e1, e2; try (by apply Hkeep);
    destruct (bool_decide (tag = tag')); cbn [negb]; rewrite ?Et;
    first [by apply (Hkeep g None)|by apply (Hkeep _ None Hf)].
Qed.

Lemma send_continue_engine (st st' : St (F := F)) block sent size err :
  send_continue st block sent size = Some (st', err) -> st_engine st' = st_engine st.
Proof. unfold send_continue. case_match; [|done]. case_match. by intros [= <- _]. Qed.

Lemma rejectTooLarge_engine (st st' : St (F := F)) bt token off r :
  rejectTooLarge st bt token off = (st', r) ->
  st_engine st' = st_engine st /\ st_r st' = st_r st /\
  (r = false -> bt = Block1 -> 0 < maxReceiveBodySize (st_engine st) ->
   off + zlen (default [] (e_body (st_r st))) <= maxReceiveBodySize (st_engine st)).
Proof.
  unfold rejectTooLarge. destruct (Z.eqb_spec bt Block1) as [-> | Hne]; cbn [negb orb]; [|by intros [= <- <-]].
  destruct (Z.leb_spec (maxReceiveBodySize (st_engine st)) 0).
  { intros [= <- <-]. split; [done|]. split; [done|]. lia. }
  destruct (Z.leb_spec (receiveBodySize (st_r st) off) (maxReceiveBodySize (st_engine st))) as [Hle|Hgt];
    intros [= <- <-]; (split; [done|]; split; [done|]); [|done]. intros _ _ _.
  unfold receiveBodySize, e_BodySize in Hle. destruct (e_body (st_r st)) as [d|]; cbn [default from_option id] in *;
    destruct (e_GetOptionUint32 (st_r st) Size1) as [v [e|]]; change (zlen (@nil byte)) with 0; lia.
Qed.

Section Handler.
Context (next : RW -> EMsg -> RW * EMsg).

Lemma next_assembled_engine (st : St (F := F)) m : st_engine (next_assembled next st m) = st_engine st.
Proof. unfold next_assembled. by destruct (next _ _). Qed.

Lemma next_request_engine (st : St (F := F)) : st_engine (next_request next st) = st_engine st.
Proof. unfold next_request. by destruct (next _ _). Qed.

Lemma append_respects env (st st' : St (F := F)) mg block sent off err :
  bounded (st_engine st) (guard_at (st_engine st) mg) ->
  (0 < maxReceiveBodySize (st_engine st) ->
   off + zlen (default [] (e_body (st_r st))) <= maxReceiveBodySize (st_engine st)) ->
  appendReceivedBlock next env st mg block sent (zlen (memfile_Bytes (g_file (guard_at (st_engine st) mg)))) off
    = Some (st', err) ->
  respects (st_engine st) (st_engine st').
Proof.
  intros Hg Hoff. unfold appendReceivedBlock. set (g := guard_at (st_engine st) mg) in *.
  destruct (Z.eqb_spec off (zlen (memfile_Bytes (g_file g)))) as [-> | Hne]; cbn [negb].
  2: { intros E%send_continue_engine. by rewrite E. }
  destruct (copyToPayloadFromOffset_spec (st_r st) (g_file g)) as (f & -> & Ef). cbv zeta. set (n := zlen _ + zlen _).
  assert (Hstored : forall m f', memfile_Bytes f' = memfile_Bytes f -> bounded (st_engine st) (mkGuard m f' (g_matchingKey g) n)).
  { intros m f' Ef' Hpos. cbn. rewrite Ef', Ef, zlen_app. by apply Hoff. }
  set (b1 := set_guard _ _ _). set (b2 := refreshReceiveExpiration _ _ _ _).
  assert (H2 : respects (st_engine st) b2).
  { etransitivity; [by apply set_guard_respects, Hstored|]. apply refresh_respects. }
  destruct (rb_more block).
  { intros E%send_continue_engine. by rewrite E. }
  set (m := e_SetType _ _).
  set (b3 := if bool_decide _ then receiving_Delete b2 (rb_exchangeKey block) else _).
  assert (H3 : respects (st_engine st) b3).
  { etransitivity; [exact H2|]. unfold b3. etransitivity; [apply receiving_Delete_respects|].
    case_match; [reflexivity|]. apply shrinks_respects, sending_Delete_shrinks. }
  assert (Hset : forall g', bounded (st_engine st) g' -> respects (st_engine st) (set_guard b3 mg g')).
  { intros g' Hg'. etransitivity; [exact H3|]. apply set_guard_respects. by eapply bounded_config; [apply H3|]. }
  destruct (file_seek_start f 0) as (f' & -> & Ef' & _); [done|]. intros [= <- _].
  rewrite next_assembled_engine. by apply Hset, Hstored.
Qed.

Lemma processCached_respects env (st st' : St (F := F)) mg block sent err :
  rb_blockType block = Block1 -> bounded (st_engine st) (guard_at (st_engine st) mg) ->
  processCachedReceivedBlock next env st mg block sent = Some (st', err) ->
  respects (st_engine st) (st_engine st').
Proof.
  intros Hbt Hg. unfold processCachedReceivedBlock.
  assert (Hdel : forall res, (forall st'' e, res = Some (st'', e) -> respects (st_engine st) (st_engine st'')) ->
    delete_on_error block res = Some (st', err) -> respects (st_engine st) (st_engine st')).
  { intros [[st'' [e|]]|] H; cbn; [|intros [= <- _]; by eapply H|done].
    intros [= <- _]. etransitivity; [by eapply H|]. apply receiving_Delete_respects. }
  apply Hdel. clear Hdel. intros st'' e.
  destruct (getPayloadFromCachedReceivedMessage _ _) as [g res] eqn:Eg.
  apply (getPayload_bounded (st_engine st)) in Eg as [Hg' Hsize]; [|done].
  assert (H1 : respects (st_engine st) (set_guard (st_engine st) mg g)) by by apply set_guard_respects.
  destruct res as [size|e']; [|by intros [= <- _]]. cbv zeta.
  destruct (if (rb_blockType block =? Block1) && rb_more block then _ else None); [by intros [= <- _]|].
  destruct (_ && (_ || _)); [by intros [= <- _]|].
  destruct (rejectTooLarge _ _ _ _) as [st1 r] eqn:Er.
  apply rejectTooLarge_engine in Er as (E1 & E2 & Hfit). cbn [set_engine st_engine st_r] in *.
  destruct r.
  { intros [= <- _]. cbn. rewrite E1. etransitivity; [exact H1|]. apply receiving_Delete_respects. }
  intros E. etransitivity; [exact H1|]. rewrite <-E1.
  assert (Hat : guard_at (st_engine st1) mg = g) by (rewrite E1; apply set_guard_at).
  eapply append_respects; [| |rewrite Hat, <-(Hsize size) by done; exact E].
  - rewrite Hat, E1. eapply bounded_config; [|exact Hg']. by constructor.
  - rewrite E1, E2. by apply Hfit.
Qed.

Lemma processReceivedBlock_respects env (st st' : St (F := F)) block err :
  limits_ok (st_engine st) -> isObserveResponse (st_r st) = false ->
  (rb_blockType block = Block1 \/
   rb_blockType block = Block2 /\ getSentRequest env (st_engine st) (rb_exchangeKey block) (rb_token block) = None) ->
  processReceivedBlock next env st block = Some (st', err) -> respects (st_engine st) (st_engine st').
Proof.
  intros Hok Hobs Htype. unfold processReceivedBlock. cbn [set_engine st_r]. rewrite !Hobs.
  destruct Htype as [Hbt | [Hbt Hsent]].
  2: { rewrite Hsent, Hbt. by intros [= <- _]. }
  rewrite Hbt. cbn [Z.eqb Pos.eqb Block1 Block2 andb]. cbv zeta.
  set (mg := receiving_Load env (st_engine st) (rb_exchangeKey block)).
  assert (Hmg : mg = nil_ptr \/ exists k, entries (receiving (st_engine st)) !! k = Some mg).
  { destruct (decide (mg = nil_ptr)); [by left|]. right. eexists. by eapply Load_entry. }
  assert (Hproc : forall blk, rb_blockType blk = Block1 -> forall sent v,
    (let '(b, res) := getCachedReceivedMessage env (st_engine st) mg (st_r st) blk v in
     match res with
     | Err e => Some (set_engine (set_engine st (st_engine st)) b, Some e)
     | Ok mg => processCachedReceivedBlock next env (set_engine (set_engine st (st_engine st)) b) mg blk sent
     end) = Some (st', err) -> respects (st_engine st) (st_engine st')).
  { intros blk Hblk sent v. destruct (getCachedReceivedMessage _ _ _ _ _ _) as [b1 res] eqn:E.
    apply getCached_respects in E as [Hr Hp]; [|done|done].
    destruct res as [p|e]; [|by intros [= <- _]]. intros Ep. etransitivity; [exact Hr|].
    destruct (Hp p eq_refl) as [k Hk].
    eapply (processCached_respects env (set_engine (set_engine st (st_engine st)) b1)); [exact Hblk| |exact Ep].
    cbn. eapply lim_body; [by apply Hr|exact Hk]. }
  destruct (mg =? nil_ptr)%N; [|by apply Hproc].
  destruct (negb (rb_num block =? 0)); [by intros [= <- _]|].
  destruct (rb_more block); cbn [negb]; [by apply Hproc|].
  destruct (rejectTooLarge _ _ _ _) as [st1 r] eqn:Er. apply rejectTooLarge_engine in Er as (E1 & _ & _).
  destruct r; intros [= <- _]; rewrite ?next_request_engine, E1; reflexivity.
Qed.
End Handler.

(** ** Whole calls *)

Lemma startSendingMessage_respects env b b' w w' maxSZX mms blk key m err :
  startSendingMessage env b w maxSZX mms blk key m = Some (b', w', err) -> respects b b'.
Proof.
  unfold startSendingMessage. destruct (_ <? _); [by intros [= <- _ _]|].
  destruct (createSendingMessage _ _ _ _) as [[[sm mo]|e]|]; [|by intros [= <- _ _]|done].
  cbn [RW_Swap]. destruct (_ && _); [by intros [= <- _ _]|]. cbv zeta.
  destruct (sending_LoadOrStore _ _ _ _ _) as [b1 [q l]] eqn:Es.
  apply sending_LoadOrStore_receiving in Es as (Er & Eh & Ec & Ef).
  destruct l; intros [= <- _ _]; apply respects_same; try done; lia.
Qed.

Lemma send_response_respects env (st st' : St (F := F)) maxSZX mms blk key code a err :
  send_response env st maxSZX mms blk key code a = Some (st', err) -> respects (st_engine st) (st_engine st').
Proof.
  unfold send_response. cbv zeta. destruct (startSendingMessage _ _ _ _ _ _ _ _) as [[[b' w'] e]|] eqn:E; [|done].
  apply startSendingMessage_respects in E. by destruct e; intros [= <- _].
Qed.

Lemma request_not_observe r : IsRequestCode (e_code r) = true -> isObserveResponse r = false.
Proof.
  unfold IsRequestCode, isObserveResponse. intros Hc. destruct (e_GetOptionUint32 r Observe) as [v [e|]]; [done|].
  unfold GET, Created in *. lia.
Qed.

Lemma Get_Has r id v : e_GetOptionUint32 r id = (v, None) -> e_HasOption r id = true.
Proof.
  unfold e_GetOptionUint32, e_HasOption, GetUint32, HasOption.
  destruct (Find (e_options r) id) as [[i j] [e|]]; [done|done].
Qed.

Section Handle.
Context (next : RW -> EMsg -> RW * EMsg).

Lemma processReceivedMessage_respects env (st st' : St (F := F)) maxSzx keys blockType sizeType err :
  limits_ok (st_engine st) -> isObserveResponse (st_r st) = false ->
  (blockType = Block1 \/
   blockType = Block2 /\ (e_HasOption (st_r st) Block2 = true ->
     getSentRequest env (st_engine st) (tk_exchange keys) (e_token (st_r st)) = None)) ->
  processReceivedMessage next env st maxSzx keys blockType sizeType = Some (st', err) ->
  respects (st_engine st) (st_engine st').
Proof.
  intros Hok Hobs Htype. unfold processReceivedMessage. cbv zeta.
  destruct (_ || _); [intros [= <- _]; by rewrite next_request_engine|].
  destruct (e_GetOptionUint32 (st_r st) blockType) as [blk [e|]] eqn:Eb.
  { case_match; intros [= <- _]; by rewrite ?next_request_engine. }
  destruct (DecodeBlockOption blk) as [[[szx num] more] [e|]]; [by intros [= <- _]|].
  apply processReceivedBlock_respects; [done|done|]. cbn.
  destruct Htype as [-> | [-> Hsent]]; [by left|right]. split; [done|]. apply Hsent. by eapply Get_Has.
Qed.

Lemma handleReceivedMessage_respects env (st st' : St (F := F)) maxSZX mms a key err :
  limits_ok (st_engine st) -> IsRequestCode (e_code (st_r st)) = true ->
  (e_HasOption (st_r st) Block2 = true -> isBodyMethod (e_code (st_r st)) = false ->
    getSentRequest env (st_engine st) key (e_token (st_r st)) = None) ->
  handleReceivedMessage next env st maxSZX mms a key = Some (st', err) ->
  respects (st_engine st) (st_engine st').
Proof.
  intros Hok Hreq Hsent. pose proof (request_not_observe _ Hreq) as Hobs. unfold handleReceivedMessage.
  destruct (EncodeBlockOption maxSZX 0 true) as [blk [e|]]; [by intros [= <- _]|]. cbv zeta.
  assert (Hthen : forall res k,
    (forall st1 e, res = Some (st1, e) -> respects (st_engine st) (st_engine st1)) ->
    (forall st1 st2 e, k st1 = Some (st2, e) -> respects (st_engine st1) (st_engine st2)) ->
    and_then (F := F) res k = Some (st', err) -> respects (st_engine st) (st_engine st')).
  { intros [[st1 [e|]]|] k Hres Hk; cbn; [intros [= <- _]; by eapply Hres| |done].
    intros E. etransitivity; [by eapply Hres|by eapply Hk]. }
  destruct (_ || _); [intros [= <- _]; by rewrite next_request_engine|].
  destruct (_ || _).
  { destruct (e_GetOptionUint32 _ _) as [v o]. intros E%send_response_respects. by rewrite next_request_engine in E. }
  destruct (isBodyMethod (e_code (st_r st))) eqn:Hbody; apply Hthen.
  - intros st1 e. apply processReceivedMessage_respects; [done|done|by left].
  - intros st1 st2 e. apply send_response_respects.
  - intros st1 e. assert ((Created <=? e_code (st_r st)) = false) as ->.
    { unfold IsRequestCode, Created in *. lia. }
    apply processReceivedMessage_respects; [done|done|]. right. split; [done|]. intros H2. by apply Hsent.
  - intros st1 st2 e. apply send_response_respects.
Qed.

(** Requests keep to the limits. *)
Lemma Handle_respects env b w r maxSZX mms a st :
  limits_ok b -> IsRequestCode (e_code r) = true -> getSentRequestFromOutside env (e_token r) = None ->
  Handle next env b w r maxSZX mms a = Some st -> respects b (st_engine st).
Proof.
  intros Hok Hreq Hout. unfold Handle. destruct (SZXBERT <? maxSZX); [done|].
  destruct (qblock_Handle env); [by intros [= <-]|].
  destruct (getMessageExchangeKey r a); [|by intros [= <-]].
  destruct (resolveBlock1ExchangeKey _ _ _ _ _); [|by intros [= <-]].
  destruct (resolveBlock2ExchangeKey _ _ _ _ _) as [key|]; [|by intros [= <-]].
  destruct (getSendingMessageCode env b key) as [code exist] eqn:Ecode.
  destruct (negb exist || wantsToBeReceived r) eqn:Erecv.
  - destruct (handleReceivedMessage _ _ _ _ _ _ _) as [[st1 err]|] eqn:E; [|done].
    apply handleReceivedMessage_respects in E; [|done|done|].
    + by destruct err; intros [= <-].
    + cbn. intros H2 Hnb. unfold getSentRequest. rewrite Hout.
      assert (wantsToBeReceived r = false) as Hw.
      { unfold wantsToBeReceived. by rewrite Hnb, H2, Hreq, andb_false_r. }
      rewrite Hw, orb_false_r in Erecv. unfold getSendingMessageCode in Ecode.
      destruct (sending_message env b key); [by injection Ecode as <- <-|]. by case_match.
  - destruct (continueSendingMessage _ _ _ _ _ _ _ _) as [[w' [more|e]]|]; [| |done]; intros [= <-]; cbn.
    + case_match; [apply shrinks_respects, sending_Delete_shrinks|reflexivity].
    + apply shrinks_respects, sending_Delete_shrinks.
Qed.
End Handle.

Lemma CheckExpirations_respects env b : respects b (BlockWise_CheckExpirations env b).
Proof.
  unfold BlockWise_CheckExpirations. set (c := CheckExpirations _ _ _ _).
  assert (H1 : respects b (with_receiving b c (receiving_heap b))).
  { apply respects_sub; [|done|by constructor|done]. apply map_subseteq_spec. intros k p. cbn. unfold c.
    rewrite CheckExpirations_entries. case_decide; [|done]. destruct (entries (receiving b) !! k); [|done]. by case_match. }
  etransitivity; [exact H1|]. etransitivity; [apply shrinks_respects, run_onExpire_shrinks|].
  by apply respects_same; [done|done|by constructor|].
Qed.

Lemma invalidate_respects env b endpoint : respects b (invalidateObservationTransfers env b endpoint).
Proof.
  unfold invalidateObservationTransfers. destruct (Range _ _ _ _) as [b1 l] eqn:E.
  assert (H1 : respects b b1).
  { change b1 with (fst (b1, l)). rewrite <-E. generalize (order_block2 env) as ks. clear E.
    assert (Hgen : forall ks st, respects b (fst st) ->
      respects b (fst (Range (fun st : BW * list Z => entries (sending (fst st)))
        (fun key p '(b, drop) =>
           let s := sending_at b p in
           if ((s_requestCode s =? GET) || (s_requestCode s =? FETCH)) &&
              bool_decide (s_endpoint s = endpoint) && negb (s_matchingKey s =? 0)
           then (true, (set_sending b p (mkSending (s_Message s) 0 (s_requestCode s) (s_endpoint s)),
                        if key =? s_matchingKey s then drop ++ [key] else drop))
           else (true, (b, drop))) ks st))).
    { induction ks as [|k ks IH]; intros [b' d] Hb; cbn [Range fst]; [done|].
      destruct (entries (sending b') !! k); [|by apply IH]. cbv zeta. destruct (_ && _); apply IH; [|done].
      cbn. etransitivity; [exact Hb|]. by apply respects_same; [done|done|by constructor|]. }
    intros ks. by apply Hgen. }
  etransitivity; [exact H1|]. clear. revert b1. induction l as [|k l IH]; intros b1; cbn [fold_left]; [done|].
  etransitivity; [apply shrinks_respects, (sending_Delete_shrinks b1 k)|apply IH].
Qed.

Lemma WriteMessage_respects env b b' m maxSZX mms a h res :
  WriteMessage env b m maxSZX mms a h = Some (b', res) -> respects b b'.
Proof.
  unfold WriteMessage. destruct h as [[e|]|]; [by intros [= <- _]|by intros [= <- _]|].
  destruct (EncodeBlockOption _ _ _) as [blk [e|]]; [by intros [= <- _]|].
  destruct (getExchangeKey _ _) as [key|e]; [|by intros [= <- _]]. cbv zeta.
  set (b1 := match a with Some _ => _ | None => _ end).
  assert (H1 : respects b b1).
  { unfold b1. destruct a as [a|]; [|done]. destruct (isObserveResponse m); [apply invalidate_respects|done]. }
  destruct (startSendingMessage _ _ _ _ _ _ _ _) as [[[b2 w] [e|]]|] eqn:E; [| |done]; intros [= <- _];
    (etransitivity; [exact H1|by eapply startSendingMessage_respects]).
Qed.

(** What happens to the engine of a server: requests from the peer, with any handler, at
    any time, that are not with the token of a request of its own; notifications, and the
    periodic purge. *)
Inductive server_step : BW -> BW -> Prop :=
| step_request next env b w r maxSZX mms a st :
    IsRequestCode (e_code r) = true -> getSentRequestFromOutside env (e_token r) = None ->
    Handle next env b w r maxSZX mms a = Some st -> server_step b (st_engine st)
| step_write env b m maxSZX mms a h b' res :
    WriteMessage env b m maxSZX mms a h = Some (b', res) -> server_step b b'
| step_purge env b : server_step b (BlockWise_CheckExpirations env b).

Lemma server_steps_respect b b' : rtc server_step b b' -> limits_ok b -> respects b b'.
Proof.
  induction 1 as [b|b b1 b' Hstep Hrest IH]; intros Hok; [reflexivity|].
  assert (H1 : respects b b1).
  { destruct Hstep; [by eapply Handle_respects|by eapply WriteMessage_respects|apply CheckExpirations_respects]. }
  etransitivity; [exact H1|]. by apply IH, H1.
Qed.
End Limits.

(** C27: The memory a peer can make a server's block-wise engine hold is bounded.  Starting
    from a new engine with the given limits, after any sequence of requests with any
    contents (blocks out of order, wrong sizes, unknown methods, changed tokens and
    entity tags), any handlers, notifications and purges, the receiving cache holds at
    most [maxEntries] transfers and the body of each is at most [maxBody] bytes, where
    these limits are set.  Requests are taken whose token is not that of a request which
    the server itself has pending as a client (an observation or a discovery that
    [getSentRequestFromOutside] finds): with such a token a Block2 request is taken for
    its response, whose body [maxBody] does not limit. *)
Theorem receive_memory_bounded {F} `{!MemFile F} `{!MemFileLaws F} (expiration maxEntries maxBody : Z) (b : BlockWise (F := F)) :
  rtc server_step
    (SetMaxReceiveBodySize (SetReceivingMessagesCacheMaxEntries (BlockWise_New expiration) maxEntries) maxBody) b ->
  (0 < maxEntries -> Length (entries (receiving b)) <= maxEntries) /\
  (0 < maxBody -> forall k p, entries (receiving b) !! k = Some p ->
     zlen (memfile_Bytes (g_file (guard_at b p))) <= maxBody).
Proof.
  set (b0 := SetMaxReceiveBodySize _ _). intros Hr.
  assert (H0 : limits_ok b0).
  { constructor; [done| | |].
    - intros k p E. by destruct (lookup_empty_Some (M := gmap Z) k p E).
    - intros k p E. by destruct (lookup_empty_Some (M := gmap Z) k p E).
    - intros Hpos. change (Length (∅ : gmap Z ptr) <= receivingMessagesCacheMaxEntries b0).
      unfold Length. rewrite map_size_empty. lia. }
  pose proof (server_steps_respect b0 b Hr H0) as [[E1 _ _ E4] Hok]. specialize (Hok H0) as [_ _ Hb He]. cbn in E1, E4. split.
  - intros Hpos. rewrite E1 in He. lia.
  - intros Hpos k p E. specialize (Hb k p E). unfold bounded in Hb. rewrite E4 in Hb. lia.
Qed.

(** The witness: a first block is stored within a limit of 32 bytes, the third one, which
    would exceed it, makes the server drop the transfer. *)
Definition limit_block (num : Z) : EMsg :=
  mkEMsg POST [1; 2; 3] [mkOption URIPath [97]; mkOption Block1 [num * 16 + 8]] Confirmable 0
    (Some (replicate 16 65)) None.
Definition limit_env : Env := mkEnv 1000 (fun _ => None) (Err ErrContext) None [] [] [] None.
Definition limit_send (b : BlockWise (F := ListFile)) (num : Z) : option St :=
  Handle (fun w r => (w, r)) limit_env b (RW_New (AcquireMessage None) []) (limit_block num) SZX1024 1152 (Some [49]).
Definition limit_start : BlockWise (F := ListFile) :=
  SetMaxReceiveBodySize (SetReceivingMessagesCacheMaxEntries (BlockWise_New 100) 1) 32.

Definition limit_states : list (Z * Z) :=
  match limit_send limit_start 0 with
  | None => []
  | Some s0 =>
      match limit_send (st_engine s0) 1 with
      | None => []
      | Some s1 =>
          match limit_send (st_engine s1) 2 with
          | None => []
          | Some s2 => [(e_code (RW_Message (st_w s0)), Length (entries (receiving (st_engine s0))));
                        (e_code (RW_Message (st_w s1)), Length (entries (receiving (st_engine s1))));
                        (e_code (RW_Message (st_w s2)), Length (entries (receiving (st_engine s2))))]
          end
      end
  end.

Lemma receive_memory_bounded_witness :
  limit_states = [(Continue, 1); (Continue, 1); (RequestEntityTooLarge, 0)] /\
  match limit_send limit_start 0 with
  | Some s => forall k p, entries (receiving (st_engine s)) !! k = Some p ->
                zlen (memfile_Bytes (g_file (guard_at (st_engine s) p))) <= 32
  | None => False
  end.
Proof.
  split; [vm_compute; reflexivity|].
  destruct (limit_send limit_start 0) as [s|] eqn:E; [|vm_compute in E; discriminate E].
  refine (proj2 (receive_memory_bounded 100 1 32 (st_engine s) _) _); [|reflexivity].
  eapply rtc_l; [|apply rtc_refl]. refine (step_request _ _ _ _ _ _ _ _ _ _ _ E); reflexivity.
Defined.

(** ** Findings *)

(** A response can crash a client.  While [Do] waits for the response to a request
    without a body, such as a GET, the request is in the sending cache.  A response with
    its token, the code 2.31 Continue and a Block2 option is taken for the request of a
    further block of it, and [createSendingMessage] calls [Seek] on the nil body: the
    call panics, whatever the block number, and nothing recovers. *)
Theorem continue_response_panics {F} `{!MemFile F} next env (b : BlockWise (F := F)) w (g p : EMsg) maxSZX mms a blk szx num more :
  0 <= maxSZX <= 7 -> qblock_Handle env = None ->
  e_token g <> [] -> isBodyMethod (e_code g) = false -> e_body g = None ->
  sending_message env b (Token_Hash (e_token g)) = Some g ->
  e_code p = Continue -> e_token p = e_token g ->
  e_GetOptionUint32 p Block2 = (blk, None) -> DecodeBlockOption blk = (szx, num, more, None) ->
  Handle next env b w p maxSZX mms a = None.
Proof.
  intros Hmax Hqb Htok Hnb Hbody Hsend Pc Pt Pb Hdec.
  unfold Handle, SZXBERT. destruct (Z.ltb_spec 7 maxSZX); [done|]. rewrite Hqb.
  assert (getMessageExchangeKey p a = Ok (Token_Hash (e_token g))) as ->.
  { unfold getMessageExchangeKey, getExchangeKey. rewrite Pc, Pt.
    destruct (Z.eqb_spec (zlen (e_token g)) 0) as [E|_]; [by apply zlen_0_nil in E|]. by destruct a. }
  unfold resolveBlock1ExchangeKey, resolveBlock2ExchangeKey, mayResumeBlock2. rewrite Pc. cbn -[Token_Hash].
  unfold getSendingMessageCode. rewrite Hsend. cbn [negb orb].
  assert (wantsToBeReceived p = false) as ->.
  { unfold wantsToBeReceived. rewrite Pc. by rewrite !andb_false_r. }
  unfold continueSendingMessage. rewrite Hnb, Pb, Hsend.
  unfold createSendingMessage. by rewrite Hdec, Hbody.
Qed.

Definition crash_get : EMsg := mkEMsg GET [1; 2; 3] [mkOption URIPath [97]] Confirmable 0 None None.
Definition crash_response : EMsg := mkEMsg Continue [1; 2; 3] [mkOption Block2 [8]] Acknowledgement 0 None None.

(** The request is sent with [Do], and the response arrives while it waits. *)
Lemma continue_response_panics_witness :
  snd (Do limit_env (BlockWise_New (F := ListFile) 100) crash_get SZX1024 1152 (Some [49])
    (fun b _ => (b, Ok (Handle (fun w r => (w, r)) limit_env b (RW_New (AcquireMessage None) []) crash_response
                          SZX1024 1152 (Some [49]))))) = Ok None.
Proof.
  cbn -[Handle Token_Hash]. refine (f_equal Ok _).
  apply (continue_response_panics _ _ _ _ crash_get crash_response SZX1024 1152 (Some [49]) 8 0 0 true);
    try reflexivity; try discriminate. vm_compute. split; discriminate.
Defined.

(** The checks for an entity tag that appears or disappears during a transfer are
    dead code: each tests the length of the tag of the message that has none.  A block
    with an entity tag is accepted into a transfer that was started without one, and the
    other way round, and the body received so far is kept. *)
Theorem etag_mismatch_accepted {F} `{!MemFile F} `{!MemFileLaws F} (r : EMsg) (g : messageGuard F) :
  (snd (e_GetOptionBytes r ETag) = None <-> snd (e_GetOptionBytes (g_Message g) ETag) <> None) ->
  exists f, getPayloadFromCachedReceivedMessage r g = (set_file g f, Ok (zlen (memfile_Bytes (g_file g)))) /\
    memfile_Bytes f = memfile_Bytes (g_file g).
Proof.
  assert (Habsent : forall m id e, snd (e_GetOptionBytes m id) = Some e -> fst (e_GetOptionBytes m id) = []).
  { intros m id e. unfold e_GetOptionBytes, GetBytes. destruct (Find (e_options m) id) as [[i j] [e'|]]; done. }
  pose proof (Habsent r ETag) as H1. pose proof (Habsent (g_Message g) ETag) as H2.
  intros Hdiff. unfold getPayloadFromCachedReceivedMessage.
  destruct (e_GetOptionBytes r ETag) as [tag e1], (e_GetOptionBytes (g_Message g) ETag) as [tag' e2]. cbn [fst snd] in *.
  destruct (file_BodySize_spec (g_file g)) as (f & Ef & Eb). exists f. split; [|done].
  destruct e1 as [e1|], e2 as [e2|].
  - exfalso. destruct Hdiff as [_ Hd]. by discriminate Hd.
  - rewrite (H1 _ eq_refl). cbn. by rewrite Ef.
  - rewrite (H2 _ eq_refl). cbn. by rewrite Ef.
  - exfalso. by apply Hdiff.
Qed.

Definition tagged : EMsg := mkEMsg Content [1] [mkOption ETag [7]] Unset 0 (Some [1]) None.
Definition untagged_guard : messageGuard ListFile := mkGuard (AcquireMessage None) (mkListFile [5; 6] 2) 0 2.

Lemma etag_mismatch_accepted_witness :
  exists f, getPayloadFromCachedReceivedMessage tagged untagged_guard = (set_file untagged_guard f, Ok 2) /\
    memfile_Bytes f = [5; 6].
Proof.
  assert (H : exists f, getPayloadFromCachedReceivedMessage tagged untagged_guard =
      (set_file untagged_guard f, Ok (zlen (memfile_Bytes (g_file untagged_guard)))) /\
    memfile_Bytes f = memfile_Bytes (g_file untagged_guard)).
  { apply (etag_mismatch_accepted tagged untagged_guard). split; [intros _; vm_compute; discriminate|reflexivity]. }
  exact H.
Defined.
