(* ===== verification/TableSum.v ===== *)
(** * Sums over lists and tables

    What the accounting of transfers, routes and tokens counts. *)
From stdpp Require Import prelude list gmap.
From Stdlib Require Import ZArith Lia.
From S2P Require Import Prelude.
#[local] Open Scope Z_scope.

Fixpoint zsum {A} (f : A -> Z) (l : list A) : Z :=
  match l with [] => 0 | x :: l => f x + zsum f l end.

Lemma zsum_insert {A} (f : A -> Z) l i x y : l !! i = Some x -> zsum f (<[i := y]> l) = zsum f l - f x + f y.
Proof.
  revert i. induction l as [|a l IH]; intros [|i] H; try done.
  - injection H as ->. cbn. lia.
  - change (<[S i := y]> (a :: l)) with (a :: <[i := y]> l). cbn [zsum]. rewrite (IH i H). lia.
Qed.

Lemma zsum_nonneg {A} (f : A -> Z) l : (forall x, x ∈ l -> 0 <= f x) -> 0 <= zsum f l.
Proof.
  induction l as [|a l IH]; intros H; cbn; [done|]. assert (0 <= f a) by (apply H; left).
  assert (0 <= zsum f l) by (apply IH; intros x Hx; apply H; by right). lia.
Qed.

Lemma zsum_lookup {A} (f : A -> Z) l i x : l !! i = Some x -> (forall x, x ∈ l -> 0 <= f x) -> f x <= zsum f l.
Proof.
  revert i. induction l as [|a l IH]; intros [|i] H Hp; cbn in *; try done.
  - injection H as ->. assert (0 <= zsum f l) by (apply zsum_nonneg; intros y Hy; apply Hp; by right). lia.
  - assert (0 <= f a) by (apply Hp; left). specialize (IH i H). assert (f x <= zsum f l) by (apply IH; intros y Hy; apply Hp; by right). lia.
Qed.

(** ** Sums over a table *)

Section TableSum.
Context {K : Type} `{Countable K} {A : Type} (f : A -> Z).
Implicit Types (m : gmap K A).

Definition table_sum m : Z := map_fold (fun _ x acc => f x + acc) 0 m.

Lemma table_sum_empty : table_sum ∅ = 0.
Proof. apply map_fold_empty. Qed.

Lemma table_sum_delete m k x : m !! k = Some x -> table_sum (delete k m) = table_sum m - f x.
Proof. intros Hk. unfold table_sum. rewrite (map_fold_delete_L _ _ k x m); [lia|intros; lia|done]. Qed.

Lemma table_sum_fresh m k x : m !! k = None -> table_sum (<[k := x]> m) = table_sum m + f x.
Proof. intros Hk. unfold table_sum. rewrite map_fold_insert_L; [lia|intros; lia|done]. Qed.

Lemma table_sum_replace m k x y : m !! k = Some y -> table_sum (<[k := x]> m) = table_sum m - f y + f x.
Proof.
  intros Hk. rewrite <- insert_delete_eq, table_sum_fresh by apply lookup_delete_eq. by rewrite (table_sum_delete _ _ y).
Qed.

Lemma table_sum_list m : table_sum m = zsum (fun kx => f kx.2) (map_to_list m).
Proof.
  unfold table_sum. rewrite map_fold_foldr. induction (map_to_list m) as [|[k x] l IH]; cbn; [done|]. by rewrite IH.
Qed.

Lemma table_sum_nonneg m : map_Forall (fun _ x => 0 <= f x) m -> 0 <= table_sum m.
Proof.
  intros Hk. rewrite table_sum_list. apply zsum_nonneg. intros [k x] Hx. apply (Hk k). by apply elem_of_map_to_list.
Qed.

Lemma table_size_delete m k x : m !! k = Some x -> Z.of_nat (size (delete k m)) = Z.of_nat (size m) - 1.
Proof.
  intros Hk. rewrite map_size_delete_Some by eauto.
  assert (size m <> 0%nat); [|lia]. intros E%map_size_empty_inv. subst m. by rewrite lookup_empty in Hk.
Qed.

Lemma table_size_fresh m k x : m !! k = None -> Z.of_nat (size (<[k := x]> m)) = Z.of_nat (size m) + 1.
Proof. intros Hk. rewrite map_size_insert_None by done. lia. Qed.
End TableSum.

(** Removing some of the keys. *)
Lemma table_size_foldr_delete {K} `{Countable K} {A} (ks : list K) (m : gmap K A) :
  NoDup ks -> (forall k, k ∈ ks -> is_Some (m !! k)) -> Z.of_nat (size (foldr delete m ks)) = Z.of_nat (size m) - zlen ks.
Proof.
  intros Hnd. induction Hnd as [|k ks Hk Hnd IH]; intros Hin; [change (zlen []) with 0; cbn; lia|]. cbn [foldr].
  destruct (Hin k) as [x Hx]; [by left|]. rewrite (table_size_delete _ k x), IH, zlen_cons; [lia|intros j Hj; apply Hin; by right|].
  by rewrite lookup_foldr_delete_not_elem_of.
Qed.
