(* ===== verification/QBudget.v ===== *)
(** * The budget of Q-Block transfers (src/net/blockwise/qblock/budget.go)

    Every engine reserves the bytes and the slots of the bodies it keeps twice: in a counter
    of its own and in one that the process shares.  The counters are atomics: [q_step] is
    the interleaving of single loads, compare-and-swaps and additions; the functions are
    what one call does on its own, as the engine's operations use them under their locks. *)
From stdpp Require Import prelude list.
From Stdlib Require Import ZArith Lia.
From S2P Require Import Prelude TableSum.
#[local] Open Scope Z_scope.

Definition qProcessMaxBytes : Z := Z.shiftl 256 20.
Definition qProcessMaxTransfers : Z := 8192.
Definition qEngineMaxBytes : Z := Z.shiftl 32 20.
Definition qEngineMaxTransfers : Z := 128.

(** ** One call on its own *)

(** The new value of the counter, if there is room. *)
Definition qReserve (counter amount limit : Z) : option Z :=
  if amount <? 0 then None
  else if limit - counter <? amount then None
  else Some (counter + amount).

Record Budget : Type := mkBudget { engineBytes : Z; engineTransfers : Z; processBytes : Z; processTransfers : Z }.

Definition qReserveBytes (b : Budget) (n : Z) : Budget * bool :=
  match qReserve (engineBytes b) n qEngineMaxBytes with
  | None => (b, false)
  | Some e =>
      match qReserve (processBytes b) n qProcessMaxBytes with
      | None => (mkBudget (e - n) (engineTransfers b) (processBytes b) (processTransfers b), false)
      | Some p => (mkBudget e (engineTransfers b) p (processTransfers b), true)
      end
  end.

Definition qReserveTransfer (b : Budget) : Budget * bool :=
  match qReserve (engineTransfers b) 1 qEngineMaxTransfers with
  | None => (b, false)
  | Some e =>
      match qReserve (processTransfers b) 1 qProcessMaxTransfers with
      | None => (mkBudget (engineBytes b) (e - 1) (processBytes b) (processTransfers b), false)
      | Some p => (mkBudget (engineBytes b) e (processBytes b) p, true)
      end
  end.

Definition qReleaseBytes (b : Budget) (n : Z) : Budget :=
  mkBudget (engineBytes b - n) (engineTransfers b) (processBytes b - n) (processTransfers b).

Definition qReleaseTransfer (b : Budget) : Budget :=
  mkBudget (engineBytes b) (engineTransfers b - 1) (processBytes b) (processTransfers b - 1).

(** ** All engines at once *)

(** A reservation on its way: in [qReserve] on the counter of the engine, then on that of
    the process, undone when the process has no room, held, and given back. *)
Inductive q_pc : Type :=
| QIdle
| QLoadE (n : Z)
| QCasE (n current : Z)
| QLoadP (n : Z)
| QCasP (n current : Z)
| QUndo (n : Z)
| QHolding (n : Z)
| QReleaseP (n : Z).

(** What a reservation contributes to the two counters. *)
Definition in_engine (p : q_pc) : Z :=
  match p with QLoadP n | QCasP n _ | QUndo n | QHolding n => n | _ => 0 end.
Definition in_process (p : q_pc) : Z :=
  match p with QHolding n | QReleaseP n => n | _ => 0 end.

Section Interleaving.
Context (limE limP : Z) (HlimE : 0 <= limE) (HlimP : 0 <= limP).

(** The counters of the engines, that of the process, and the reservations with the
    engine each of them belongs to. *)
Record q_state : Type := mkQ { engines : nat -> Z; process : Z; threads : list (nat * q_pc) }.

Definition q_set (s : q_state) (e : nat) (v p : Z) (i : nat) (t : nat * q_pc) : q_state :=
  mkQ (fun k => if (k =? e)%nat then v else engines s k) p (<[i := t]> (threads s)).

(** One atomic access. *)
Definition q_exec (eng proc : Z) (p : q_pc) : option (Z * Z * q_pc) :=
  match p with
  | QIdle => None
  | QLoadE n => Some (eng, proc, if (n <? 0) || (limE - eng <? n) then QIdle else QCasE n eng)
  | QCasE n current => Some (if eng =? current then (eng + n, proc, QLoadP n) else (eng, proc, QLoadE n))
  | QLoadP n => Some (eng, proc, if (n <? 0) || (limP - proc <? n) then QUndo n else QCasP n proc)
  | QCasP n current => Some (if proc =? current then (eng, proc + n, QHolding n) else (eng, proc, QLoadP n))
  | QUndo n => Some (eng - n, proc, QIdle)
  | QHolding n => Some (eng - n, proc, QReleaseP n)
  | QReleaseP n => Some (eng, proc - n, QIdle)
  end.

Inductive q_step : q_state -> q_state -> Prop :=
| q_start s i e n : threads s !! i = Some (e, QIdle) -> q_step s (q_set s e (engines s e) (process s) i (e, QLoadE n))
| q_access s i e p eng proc p' :
    threads s !! i = Some (e, p) -> q_exec (engines s e) (process s) p = Some (eng, proc, p') ->
    q_step s (q_set s e eng proc i (e, p')).

(** No reservation yet; the engines of the threads are arbitrary. *)
Definition q_init (es : list nat) : q_state := mkQ (fun _ => 0) 0 ((fun e => (e, QIdle)) <$> es).

Definition share (e : nat) (t : nat * q_pc) : Z := if (t.1 =? e)%nat then in_engine t.2 else 0.

(** A pending compare-and-swap was checked against the limit; amounts are not negative. *)
Definition pc_ok (p : q_pc) : Prop :=
  match p with
  | QIdle | QLoadE _ => True
  | QCasE n c => 0 <= n /\ n <= limE - c
  | QCasP n c => 0 <= n /\ n <= limP - c
  | QLoadP n | QUndo n | QHolding n | QReleaseP n => 0 <= n
  end.

Record q_inv (s : q_state) : Prop := {
  q_engine : forall e, engines s e = zsum (share e) (threads s);
  q_process : process s = zsum (fun t => in_process t.2) (threads s);
  q_engine_le : forall e, engines s e <= limE;
  q_process_le : process s <= limP;
  q_pcs : forall t, t ∈ threads s -> pc_ok t.2
}.

Lemma q_exec_ok eng proc p eng' proc' p' :
  q_exec eng proc p = Some (eng', proc', p') -> pc_ok p -> eng <= limE -> proc <= limP ->
  eng' = eng - in_engine p + in_engine p' /\ proc' = proc - in_process p + in_process p' /\
  eng' <= limE /\ proc' <= limP /\ pc_ok p'.
Proof.
  destruct p as [|n|n c|n|n c|n|n|n]; cbn; intros E Hok HE HP; try done.
  - injection E as <- <- <-. destruct (Z.ltb_spec n 0); cbn; [lia|]. destruct (Z.ltb_spec (limE - eng) n); cbn; lia.
  - destruct (Z.eqb_spec eng c); injection E as <- <- <-; cbn; lia.
  - injection E as <- <- <-. destruct (Z.ltb_spec n 0); cbn; [lia|]. destruct (Z.ltb_spec (limP - proc) n); cbn; lia.
  - destruct (Z.eqb_spec proc c); injection E as <- <- <-; cbn; lia.
  - injection E as <- <- <-. cbn. lia.
  - injection E as <- <- <-. cbn. lia.
  - injection E as <- <- <-. cbn. lia.
Qed.

Lemma q_set_inv s i e p eng proc p' :
  q_inv s -> threads s !! i = Some (e, p) ->
  eng = engines s e - in_engine p + in_engine p' -> proc = process s - in_process p + in_process p' ->
  eng <= limE -> proc <= limP -> pc_ok p' -> q_inv (q_set s e eng proc i (e, p')).
Proof.
  intros [H1 H2 H3 H4 H5] Hi He Hp HE HP Hok. split; cbn.
  - intros k. rewrite (zsum_insert _ _ _ _ _ Hi), <- H1. unfold share. cbn. rewrite (Nat.eqb_sym k e).
    destruct (Nat.eqb_spec e k) as [->|]; lia.
  - rewrite (zsum_insert _ _ _ _ _ Hi), <- H2. cbn. lia.
  - intros k. destruct (k =? e)%nat; [done|apply H3].
  - done.
  - intros t Ht. apply list_elem_of_lookup in Ht as [j Hj]. destruct (decide (i = j)) as [<-|Hne].
    + rewrite list_lookup_insert_eq in Hj by (by eapply lookup_lt_Some). injection Hj as <-. done.
    + rewrite list_lookup_insert_ne in Hj by done. apply H5. by eapply list_elem_of_lookup_2.
Qed.

Lemma q_step_inv s s' : q_inv s -> q_step s s' -> q_inv s'.
Proof.
  intros Hinv Hs. revert Hinv. destruct Hs as [s0 i e n Hi|s0 i e p eng proc p' Hi He]; intros Hinv.
  - apply (q_set_inv s0 i e QIdle _ _ _ Hinv Hi); [cbn; lia|cbn; lia|apply Hinv|apply Hinv|done].
  - destruct (q_exec_ok _ _ _ _ _ _ He) as (E1 & E2 & E3 & E4 & E5); [|apply Hinv|apply Hinv|].
    + apply (q_pcs _ Hinv (e, p)). by eapply list_elem_of_lookup_2.
    + by eapply (q_set_inv s0 i e p).
Qed.

Lemma q_init_inv es : q_inv (q_init es).
Proof.
  assert (forall f : nat * q_pc -> Z, (forall e, f (e, QIdle) = 0) -> zsum f ((fun e => (e, QIdle)) <$> es) = 0) as Hz.
  { intros f Hf. induction es as [|e es IH]; [done|]. cbn. rewrite Hf, IH. done. }
  split; cbn; try done.
  - intros e. rewrite Hz; [done|]. intros k. unfold share. cbn. by destruct (k =? e)%nat.
  - by rewrite Hz.
  - intros t Ht. apply list_elem_of_fmap in Ht as (e & -> & _). done.
Qed.

Lemma pc_ok_share (t : nat * q_pc) : pc_ok t.2 -> 0 <= in_engine t.2 /\ 0 <= in_process t.2.
Proof. destruct t as [e [| | | | | | |]]; cbn; lia. Qed.

(** The budget of Q-Block transfers holds under every interleaving of reservations and
    releases of any number of engines: no counter ever exceeds its limit or becomes
    negative, the counter of an engine is the sum of its reservations (those that wait for
    the process included), the counter of the process is the sum of those it admitted, and
    when every reservation was refused or given back all counters are zero. *)
Theorem q_budget_bounded (es : list nat) (s : q_state) (Hreach : rtc q_step (q_init es) s) :
  (forall e, 0 <= engines s e <= limE /\ engines s e = zsum (share e) (threads s)) /\
  0 <= process s <= limP /\ process s = zsum (fun t => in_process t.2) (threads s) /\
  ((forall t, t ∈ threads s -> t.2 = QIdle) -> process s = 0 /\ forall e, engines s e = 0).
Proof.
  assert (q_inv s) as [H1 H2 H3 H4 H5].
  { refine (rtc_ind_r q_inv _ (q_init_inv es) _ s Hreach). intros y w _ Hs Hy. by eapply q_step_inv. }
  assert (forall e, 0 <= zsum (share e) (threads s)) as He.
  { intros e. apply zsum_nonneg. intros t Ht. unfold share. apply H5, pc_ok_share in Ht. destruct (_ =? _)%nat; lia. }
  assert (0 <= zsum (fun t => in_process t.2) (threads s)) as Hp.
  { apply zsum_nonneg. intros t Ht. by apply H5, pc_ok_share in Ht as [_ ?]. }
  split; [intros e; specialize (He e); rewrite <- H1 in He; split; [split; [done|apply H3]|apply H1]|].
  split; [lia|]. split; [done|]. intros Hidle.
  assert (forall f : nat * q_pc -> Z, (forall e, f (e, QIdle) = 0) -> zsum f (threads s) = 0) as Hz.
  { intros f Hf. revert Hidle. clear -Hf. induction (threads s) as [|[e p] l IH]; intros Hidle; [done|]. cbn.
    rewrite IH by (intros t Ht; apply Hidle; by right). pose proof (Hidle (e, p) ltac:(left)) as E. cbn in E. subst p. by rewrite Hf. }
  split; [by rewrite H2, Hz|]. intros e. rewrite H1. apply Hz. intros k. unfold share. cbn. by destruct (k =? e)%nat.
Qed.
End Interleaving.

(** An engine has reserved 2 bytes in its own counter. *)
Lemma q_budget_bounded_witness :
  exists s, rtc (q_step 2 3) (q_init [0%nat; 1%nat]) s /\ engines s 0%nat = 2 /\ process s <= 3.
Proof.
  set (s1 := q_set (q_init [0%nat; 1%nat]) 0 0 0 0 (0%nat, QLoadE 2)).
  set (s2 := q_set s1 0 0 0 0 (0%nat, QCasE 2 0)). set (s3 := q_set s2 0 2 0 0 (0%nat, QLoadP 2)).
  assert (rtc (q_step 2 3) (q_init [0%nat; 1%nat]) s3) as H.
  { apply (rtc_l _ _ s1); [by apply q_start|]. apply (rtc_l _ _ s2); [by eapply (q_access _ _ s1 0)|].
    apply (rtc_l _ _ s3); [by eapply (q_access _ _ s2 0)|]. apply rtc_refl. }
  exists s3. split; [exact H|]. split; [reflexivity|].
  destruct (q_budget_bounded 2 3 ltac:(lia) ltac:(lia) [0%nat; 1%nat] _ H) as (_ & [_ Hp] & _). exact Hp.
Defined.
