(* ===== verification/QEngine.v ===== *)
(** * The server side of the Q-Block engine (src/net/blockwise/qblock)

    engine.go, budget.go, observe.go and the parts of send.go and receive.go that keep the
    engine's tables: bodies that are being received (Q-Block1), representations that are
    being sent (Q-Block2), observations, and the budget they are charged to.  The
    requests are handled in [QServe].

    A method is one step: the locks of the two tables are held for parts of it only, and
    the comparisons of table entries with a transfer that was looked up before, which the
    code makes after it took a lock again, are kept with the help of generation numbers.
    Messages are those of [EngineMessage].  The connection is the interface [QTransport]. *)
From stdpp Require Import prelude list strings gmap.
From Stdlib Require Import ZArith Lia.
From S2P Require Import TcpConn KeepAlive Prelude Cast Codes OptionCodec Options Message PoolMessage BlockCodec Assembly.
From S2P Require Import EngineMessage ResponseWriter ExchangeKey Blockwise QBudget.
#[local] Open Scope Z_scope.

Definition ErrInvalidOptionBlock1 : error := ErrOther "message has invalid value of Block1".
Definition ErrInvalidOptionBlock2 : error := ErrOther "message has invalid value of Block2".
Definition errQBlockBadOption : error := ErrOther "invalid Q-Block option semantics".
Definition ErrQBlockScheduleFull : error := ErrOther "Q-Block deadline scheduler is full".
Definition errQBlock2ResponseNotFound : error := ErrOther "Q-Block2 response representation not found".

Definition q1DefaultMaxBodySize : Z := Z.shiftl 16 20.
Definition q1MaxTrackedBlocks : Z := Z.shiftl 1 16.

(** ** Keys *)

(** [blocks.WriteExchangeKeyPart] on a buffer. *)
Definition key_part (value : list byte) : list byte := be_split 8 (zlen value) ++ value.

Definition q_skipped (response : bool) (id : Z) : bool :=
  ((id =? QBlock1) || (id =? QBlock2) || (id =? Size1) || (id =? Block1) || (id =? Block2)) ||
  (response && ((id =? Observe) || (id =? ETag))) ||
  (Z.land id 31 =? 28).

Definition qTransferKey (r : EMsg) (remoteAddr : addr) (tag : list byte) (response : bool) : list byte :=
  key_part (default [] remoteAddr) ++ be_split 2 (e_code r) ++
  (filter (fun o => q_skipped response (ID o) = false) (e_options r) ≫= option_identity) ++ key_part tag.

Definition q1TransferKey (r : EMsg) (remoteAddr : addr) (tag : list byte) : list byte := qTransferKey r remoteAddr tag false.

Definition q2TransferKey (r : EMsg) (remoteAddr : addr) : list byte :=
  qTransferKey r remoteAddr [] true ++ key_part (e_token r).

Definition qObservationKey (token : list byte) (remote : addr) : list byte :=
  match remote with Some a => key_part a | None => [] end ++ key_part token.

Definition optionCount (r : EMsg) (id : Z) : Z := zlen (filter (fun o => ID o = id) (e_options r)).

(** ** Transport *)

(** A burst of blocks that waits for its deadline. *)
Record q2SetJob : Type := mkSetJob {
  j_key : list byte;
  j_token : list byte;
  j_szx : Z;
  j_mode : Z;
  j_nums : list Z;
  j_count : Z;
  j_wholeBody : bool;
  j_recovery : bool;
  j_generation : option nat
}.

(** The closures that the engine schedules: a report of missing blocks, a burst, and, when
    the payload of a burst was acknowledged, what follows it. *)
Inductive qJob : Type :=
| Q1Missing (key : list byte)
| Q2Set (job : q2SetJob).

Class QTransport (T : Type) : Type := {
  ScheduleQBlock : T -> list byte -> Z -> qJob -> T * option error;
  DelayQBlock : T -> list byte -> Z -> T;
  CancelQBlock : T -> list byte -> T;
  SendQBlock : T -> EMsg -> T * option error;
  SendQBlockAsync : T -> EMsg -> q2SetJob -> T * option error
}.

(** ** State *)

(** [q1ReceiveTransfer]; [rt_gen] tells transfers apart. *)
Record q1ReceiveTransfer : Type := mkReceiveTransfer {
  rt_gen : nat;
  rt_assembly : option Assembly;
  rt_expires : Z;
  rt_completed : bool;
  rt_bytes : Z;
  rt_bodySize : Z;
  rt_szx : Z;
  rt_response : option EMsg;
  rt_token : list byte;
  rt_mode : Z;
  rt_lastValue : Z;
  rt_retries : Z;
  rt_updated : Z;
  rt_reportedSet : Z;
  rt_reportedAt : Z;
  rt_continuedThrough : Z;
  rt_continues : gmap Z Z;
  rt_completionSequence : Z;
  rt_completionToken : list byte
}.

Record q2SendTransfer : Type := mkSendTransfer {
  st_gen : nat;
  st_message : EMsg;
  st_expires : Z;
  st_size : Z;
  st_sentThrough : Z;
  st_delay : Z;
  st_identity : list byte;
  st_mode : Z;
  st_terminalObservationKey : list byte;
  st_recoveryUntil : Z
}.

Record qObservation : Type := mkQObservation {
  ob_gen : nat;
  ob_request : EMsg;
  ob_key : list byte;
  ob_szx : Z;
  ob_registrationKey : list byte
}.

Section QEngine.
Context {T : Type} `{!QTransport T}.

Record Tables : Type := mkTables {
  q1Receivers : gmap (list byte) q1ReceiveTransfer;
  q1ReceiveBytes : Z;
  q1Closed : bool;
  q2Senders : gmap (list byte) q2SendTransfer;
  qObservations : gmap (list byte) qObservation;
  qCanceledObservations : gmap (list byte) Z;
  q2SendBytes : Z;
  q2Closed : bool
}.

Record Engine : Type := mkEngine {
  q_config : Config;
  q_maxReceiveBodySize : Z;
  q_receivingMessagesCacheMaxEntries : Z;
  q_budget : Budget;
  q_tables : Tables;
  q_nextGen : nat;
  q_transport : T;
  q_errors : list error;
  (** bursts, with their delay, that wait for the response to be written *)
  q_deferred : list (q2SetJob * Z)
}.

(** What a call reads: the clock, the delay that [nonDelay] draws, and whether the context
    takes callbacks for the time after the write. *)
Record QEnv : Type := mkQEnv { q_now : Z; q_nonDelay : Z; q_afterWrite : bool }.

Implicit Types (b : Engine) (env : QEnv).

Definition q_New (transport : T) (budget : Budget) : Engine :=
  mkEngine DefaultConfig 0 4096 budget (mkTables ∅ 0 false ∅ ∅ ∅ 0 false) 0 transport [] [].

Definition with_tables b (t : Tables) : Engine :=
  mkEngine (q_config b) (q_maxReceiveBodySize b) (q_receivingMessagesCacheMaxEntries b) (q_budget b) t (q_nextGen b)
    (q_transport b) (q_errors b) (q_deferred b).
Definition with_budget b (x : Budget) : Engine :=
  mkEngine (q_config b) (q_maxReceiveBodySize b) (q_receivingMessagesCacheMaxEntries b) x (q_tables b) (q_nextGen b)
    (q_transport b) (q_errors b) (q_deferred b).
Definition with_transport b (t : T) : Engine :=
  mkEngine (q_config b) (q_maxReceiveBodySize b) (q_receivingMessagesCacheMaxEntries b) (q_budget b) (q_tables b) (q_nextGen b)
    t (q_errors b) (q_deferred b).
Definition next_gen b : Engine :=
  mkEngine (q_config b) (q_maxReceiveBodySize b) (q_receivingMessagesCacheMaxEntries b) (q_budget b) (q_tables b) (S (q_nextGen b))
    (q_transport b) (q_errors b) (q_deferred b).
Definition q_report b (e : error) : Engine :=
  mkEngine (q_config b) (q_maxReceiveBodySize b) (q_receivingMessagesCacheMaxEntries b) (q_budget b) (q_tables b) (q_nextGen b)
    (q_transport b) (q_errors b ++ [e]) (q_deferred b).

Definition with_deferred b (d : list (q2SetJob * Z)) : Engine :=
  mkEngine (q_config b) (q_maxReceiveBodySize b) (q_receivingMessagesCacheMaxEntries b) (q_budget b) (q_tables b) (q_nextGen b)
    (q_transport b) (q_errors b) d.

Definition SetConfig b (config : Config) : Engine * option error :=
  let '(resolved, err) := Resolve config in
  match err with
  | Some e => (b, Some e)
  | None => (mkEngine resolved (q_maxReceiveBodySize b) (q_receivingMessagesCacheMaxEntries b) (q_budget b) (q_tables b)
               (q_nextGen b) (q_transport b) (q_errors b) (q_deferred b), None)
  end.

Definition q_SetMaxReceiveBodySize b (size : Z) : Engine :=
  mkEngine (q_config b) (Z.max size 0) (q_receivingMessagesCacheMaxEntries b) (q_budget b) (q_tables b) (q_nextGen b)
    (q_transport b) (q_errors b) (q_deferred b).

Definition q_SetReceivingMessagesCacheMaxEntries b (maxEntries : Z) : Engine :=
  mkEngine (q_config b) (q_maxReceiveBodySize b) (Z.max maxEntries 0) (q_budget b) (q_tables b) (q_nextGen b)
    (q_transport b) (q_errors b) (q_deferred b).

(** Updates of one table. *)
Definition set_q1 (t : Tables) (m : gmap (list byte) q1ReceiveTransfer) (bytes : Z) : Tables :=
  mkTables m bytes (q1Closed t) (q2Senders t) (qObservations t) (qCanceledObservations t) (q2SendBytes t) (q2Closed t).
Definition set_q2 (t : Tables) (m : gmap (list byte) q2SendTransfer) (bytes : Z) : Tables :=
  mkTables (q1Receivers t) (q1ReceiveBytes t) (q1Closed t) m (qObservations t) (qCanceledObservations t) bytes (q2Closed t).
Definition set_obs (t : Tables) (m : gmap (list byte) qObservation) (c : gmap (list byte) Z) : Tables :=
  mkTables (q1Receivers t) (q1ReceiveBytes t) (q1Closed t) (q2Senders t) m c (q2SendBytes t) (q2Closed t).
Definition put_q1 b (key : list byte) (x : q1ReceiveTransfer) : Engine :=
  with_tables b (set_q1 (q_tables b) (<[key := x]> (q1Receivers (q_tables b))) (q1ReceiveBytes (q_tables b))).
Definition put_q2 b (key : list byte) (x : q2SendTransfer) : Engine :=
  with_tables b (set_q2 (q_tables b) (<[key := x]> (q2Senders (q_tables b))) (q2SendBytes (q_tables b))).

(** ** Forgetting transfers *)

(** [delete(b.q1Receivers, key)] with the release of its bytes and its slot; the messages
    go back to the pool. *)
Definition drop_q1 b (key : list byte) (x : q1ReceiveTransfer) : Engine :=
  let t := q_tables b in
  let b := with_tables b (set_q1 t (delete key (q1Receivers t)) (q1ReceiveBytes t - rt_bytes x)) in
  with_budget b (qReleaseTransfer (qReleaseBytes (q_budget b) (rt_bytes x))).

Definition drop_q2 b (key : list byte) (x : q2SendTransfer) : Engine :=
  let t := q_tables b in
  let b := with_tables b (set_q2 t (delete key (q2Senders t)) (q2SendBytes t - st_size x)) in
  with_budget b (qReleaseTransfer (qReleaseBytes (q_budget b) (st_size x))).

Definition cancel_q2_job b (key : list byte) : Engine :=
  with_transport b (CancelQBlock (q_transport b) (string_bytes "q2:" ++ key)).

(** [CheckExpirations] visits the tables in some order. *)
Definition CheckExpirations_q1 (now : Z) b (keys : list (list byte)) : Engine :=
  fold_left (fun b key =>
    match q1Receivers (q_tables b) !! key with
    | Some x => if rt_expires x <=? now then drop_q1 b key x else b
    | None => b
    end) keys b.

Definition CheckExpirations_q2 (now : Z) b (keys : list (list byte)) : Engine :=
  fold_left (fun b key =>
    match q2Senders (q_tables b) !! key with
    | Some x => if st_expires x <=? now then drop_q2 b key x else b
    | None => b
    end) keys b.

Definition q_CheckExpirations (now : Z) b : Engine :=
  let b := CheckExpirations_q1 now b (map_to_list (q1Receivers (q_tables b))).*1 in
  CheckExpirations_q2 now b (map_to_list (q2Senders (q_tables b))).*1.

Definition close_q1 (x : q1ReceiveTransfer) (b : Budget) : Budget := qReleaseTransfer (qReleaseBytes b (rt_bytes x)).
Definition close_q2 (x : q2SendTransfer) (b : Budget) : Budget := qReleaseTransfer (qReleaseBytes b (st_size x)).

Definition CloseQBlockTransfers b : Engine :=
  let t := q_tables b in
  let x := foldr (fun kx bu => close_q1 kx.2 bu) (q_budget b) (map_to_list (q1Receivers t)) in
  let x := foldr (fun _ bu => qReleaseTransfer bu) x (map_to_list (qObservations t)) in
  let x := foldr (fun kx bu => close_q2 kx.2 bu) x (map_to_list (q2Senders t)) in
  with_budget (with_tables b (mkTables ∅ 0 true ∅ ∅ ∅ 0 true)) x.

Definition qClosedError (closed : bool) : option error := if closed then Some ErrContext else None.

(** ** Observations *)

(** The oldest of the remembered cancellations goes when there are 128 (the first of
    them in the order of the map). *)
Definition oldest_cancellation (c : gmap (list byte) Z) : list byte :=
  (fold_left (fun (acc : list byte * Z) kv => if bool_decide (acc.1 = []) || (kv.2 <? acc.2) then kv else acc)
     (map_to_list c) ([], 0)).1.

Definition rememberQCancellation env b (key : list byte) : Engine :=
  let t := q_tables b in
  let c := qCanceledObservations t in
  let c := if 128 <=? Z.of_nat (size c) then delete (oldest_cancellation c) c else c in
  with_tables b (set_obs t (qObservations t) (<[key := q_now env + NonPartialTimeout (q_config b)]> c)).

Definition CancelQBlockObservation env b (token : list byte) (remote : addr) : Engine :=
  let key := qObservationKey token remote in
  match qObservations (q_tables b) !! key with
  | None => b
  | Some o =>
      let t := q_tables b in
      let b := with_tables b (set_obs t (delete key (qObservations t)) (qCanceledObservations t)) in
      let b := rememberQCancellation env b key in
      let b := with_budget b (qReleaseTransfer (q_budget b)) in
      let b := match q2Senders (q_tables b) !! ob_key o with Some x => drop_q2 b (ob_key o) x | None => b end in
      cancel_q2_job b (ob_key o)
  end.

Definition registerQObservation b (r : EMsg) (remote : addr) (szx : Z) : Engine * option error :=
  let t := q_tables b in
  if q2Closed t then (b, qClosedError true) else
  let key := qObservationKey (e_token r) remote in
  let b := with_tables b (set_obs t (qObservations t) (delete key (qCanceledObservations t))) in
  let insert b :=
    let o := mkQObservation (q_nextGen b) (CloneMessage r) (q2TransferKey r remote) szx key in
    let t := q_tables b in
    (next_gen (with_tables b (set_obs t (<[key := o]> (qObservations t)) (qCanceledObservations t))), None) in
  match qObservations t !! key with
  | Some previous =>
      let b := cancel_q2_job b (ob_key previous) in
      insert (match q2Senders (q_tables b) !! ob_key previous with Some x => drop_q2 b (ob_key previous) x | None => b end)
  | None =>
      if 128 <=? Z.of_nat (size (qObservations t)) then (b, Some ErrQBlockTooLarge) else
      let '(bu, ok) := qReserveTransfer (q_budget b) in
      let b := with_budget b bu in
      if (ok : bool) then insert b else (b, Some ErrQBlockTooLarge)
  end.

Definition validateQNotification b (generation : option qObservation) : option error :=
  match generation with
  | None => None
  | Some g =>
      match qObservations (q_tables b) !! ob_registrationKey g with
      | Some o => if (ob_gen o =? ob_gen g)%nat then None else Some ErrContext
      | None => Some ErrContext
      end
  end.

Definition finishQNotification env b (generation : option qObservation) (observePresent : bool) : Engine :=
  match generation with
  | None => b
  | Some g =>
      if observePresent then b else
      let t := q_tables b in
      let b := with_tables b (set_obs t (delete (ob_registrationKey g) (qObservations t)) (qCanceledObservations t)) in
      let b := rememberQCancellation env b (ob_registrationKey g) in
      with_budget b (qReleaseTransfer (q_budget b))
  end.
End QEngine.

Arguments Engine : clear implicits.
