(* ===== verification/QServe.v ===== *)
(** * Requests to the Q-Block engine (src/net/blockwise/qblock/receive.go, send.go, schedule.go,
    observe.go, handle.go)

    One definition per function, on the tables of [QEngine].  [next] is the application's
    handler, [sha256] the hash that makes entity tags. *)
From stdpp Require Import prelude list strings gmap.
From Stdlib Require Import ZArith Lia.
From S2P Require Import TcpConn KeepAlive Prelude Cast Codes OptionCodec Options Message PoolMessage BlockCodec Assembly.
From S2P Require Import EngineMessage ResponseWriter ExchangeKey Blockwise QBudget QEngine.
#[local] Open Scope Z_scope.

Section QServe.
Context {T : Type} `{!QTransport T}.
Context (sha256 : list byte -> list byte).
Context (next : RW -> EMsg -> RW * EMsg).
Abbreviation Engine := (Engine T).
Implicit Types (b : Engine) (env : QEnv).

(** ** Representations that are sent *)

(** The body is the stored contents: reading it neither fails nor yields another size. *)
Definition copyQ2Body (body : option (list byte)) (size : Z) : result (list byte) :=
  match body with
  | None => if negb (size =? 0) then Err ErrQBlockInvalidSize else Ok (make_bytes size)
  | Some c => if zlen c =? size then Ok c else Err ErrQBlockInvalidSize
  end.

Definition ensureQ2ETag (response : EMsg) : result EMsg :=
  if e_HasOption response ETag then
    let '(etag, err) := e_GetOptionBytes response ETag in
    if (match err with Some _ => true | None => false end) || negb (optionCount response ETag =? 1) ||
       (zlen etag =? 0) || (8 <? zlen etag)
    then Err ErrQBlockInvalidSize else Ok response
  else match e_body response with
       | None => Ok (e_SetOptionBytes response ETag [0])
       | Some body =>
           if q1DefaultMaxBodySize <? e_BodySize response then Err ErrQBlockTooLarge
           else Ok (e_SetOptionBytes response ETag (slice_to (sha256 body) 8))
       end.

Definition snapshotQ2Body (deadline : option Z) (response : EMsg) (size : Z) : result EMsg :=
  match copyQ2Body (e_body response) size with
  | Err e => Err e
  | Ok payload =>
      let stored := CloneMessage response in
      let stored := mkEMsg (e_code stored) (e_token stored) (e_options stored) (e_type stored) (e_sequence stored)
                      (e_body stored) deadline in
      ensureQ2ETag (e_SetBody stored (Some payload))
  end.

Definition snapshotQ2NotificationBody b (deadline : option Z) (response : EMsg) : Engine * result (EMsg * Z) :=
  let size := e_BodySize response in
  if size <? 0 then (b, Err ErrQBlockInvalidSize) else
  if q1DefaultMaxBodySize <? size then (b, Err ErrQBlockTooLarge) else
  let '(bu, ok) := qReserveBytes (q_budget b) size in
  let b := with_budget b bu in
  if negb ok then (b, Err ErrQBlockTooLarge) else
  let '(bu, ok) := qReserveTransfer (q_budget b) in
  let b := with_budget b bu in
  if negb ok then (with_budget b (qReleaseBytes (q_budget b) size), Err ErrQBlockTooLarge) else
  match snapshotQ2Body deadline response size with
  | Err e => (with_budget b (qReleaseTransfer (qReleaseBytes (q_budget b) size)), Err e)
  | Ok stored => (b, Ok (stored, size))
  end.

(** The deferred release of what was not retained. *)
Definition release_snapshot b (size : Z) : Engine := with_budget b (qReleaseTransfer (qReleaseBytes (q_budget b) size)).

(** The response gets the entity tag too. *)
Definition cacheQBlock2Notification env b (deadline : option Z) (key identity : list byte) (response : EMsg) (mode : Z)
    (generation : option qObservation) : Engine * EMsg * result q2SendTransfer :=
  let '(b, snap) := snapshotQ2NotificationBody b deadline response in
  match snap with
  | Err e => (b, response, Err e)
  | Ok (stored, size) =>
      let response := e_SetOptionBytes response ETag (e_GetOptionBytes stored ETag).1 in
      let stored := e_SetType stored mode in
      match qClosedError (q2Closed (q_tables b)) with
      | Some e => (release_snapshot b size, response, Err e)
      | None =>
          match validateQNotification b generation with
          | Some e => (release_snapshot b size, response, Err e)
          | None =>
              let retain b :=
                let t := q_tables b in
                let b := with_tables b (set_q2 t (q2Senders t) (q2SendBytes t + size)) in
                let maxAge := match e_GetOptionUint32 response MaxAge with (v, None) => v | (_, Some _) => 60 end in
                let lifetime := Z.min (NonPartialTimeout (q_config b)) (Z.max (NonReceiveTimeout (q_config b)) (maxAge * Second)) in
                let observePresent := e_HasOption response Observe in
                let terminal := match generation with
                                | Some g => if negb observePresent then ob_registrationKey g else []
                                | None => []
                                end in
                let transfer := mkSendTransfer (q_nextGen b) stored (q_now env + lifetime) size (-1) (q_nonDelay env) identity mode
                                  terminal zeroTime in
                let b := next_gen (put_q2 b key transfer) in
                (finishQNotification env b generation observePresent, response, Ok transfer) in
              match q2Senders (q_tables b) !! key with
              | Some old => retain (drop_q2 (cancel_q2_job b key) key old)
              | None =>
                  if 4096 <=? Z.of_nat (base.size (q2Senders (q_tables b)))
                  then (release_snapshot b size, response, Err ErrQBlockTooLarge)
                  else retain b
              end
          end
      end
  end.

Definition cacheQBlock2Response env b (deadline : option Z) (key identity : list byte) (response : EMsg) (mode : Z)
    : Engine * EMsg * option error :=
  let '(b, response, r) := cacheQBlock2Notification env b deadline key identity response mode None in
  (b, response, match r with Ok _ => None | Err e => Some e end).

(** [expected]: the generation that must be there. *)
Definition buildQBlock2ResponseFrom env b (deadline : option Z) (key token : list byte) (szx num : Z) (expected : option nat)
    : Engine * result EMsg :=
  match q2Senders (q_tables b) !! key with
  | None => (b, Err errQBlock2ResponseNotFound)
  | Some transfer =>
      if match expected with Some g => negb (st_gen transfer =? g)%nat | None => false end
      then (b, Err errQBlock2ResponseNotFound) else
      if st_expires transfer <=? q_now env then (drop_q2 b key transfer, Err errQBlock2ResponseNotFound) else
      let m := st_message transfer in
      let response := e_SetType (e_SetToken (e_SetCode (AcquireMessage deadline) (e_code m)) token) (e_type m) in
      let response := e_ResetOptionsTo response (e_options m) in
      let size := e_BodySize m in
      match NewSender (NewReader <$> e_body m) szx size with
      | Err e => (b, Err e)
      | Ok sender =>
          match (Sender_Block sender num).2 with
          | Err e => (b, Err e)
          | Ok (payload, more) =>
              match EncodeQBlockOption szx num more with
              | (_, Some e) => (b, Err e)
              | (option_, None) =>
                  let response := e_SetOptionUint32 response QBlock2 option_ in
                  let response := e_SetOptionUint32 response Size2 (CastTo KUint32 size) in
                  (b, Ok (e_SetBody response (Some payload)))
              end
          end
      end
  end.

Definition buildQBlock2Response env b (deadline : option Z) (key token : list byte) (szx num : Z) : Engine * result EMsg :=
  buildQBlock2ResponseFrom env b deadline key token szx num None.

(** ** Which blocks a request asks for *)

Definition appendQ2Range (nums : list Z) (first last_ : Z) : list Z :=
  let first := match last nums with Some l => Z.max first (l + 1) | None => first end in
  nums ++ seqZ first (last_ + 1 - first).

Fixpoint requested_loop (maxPayloads szx count : Z) (single : bool) (opts : Options) (nums : list Z) (previous : Z) (wholeBody : bool)
    : result (list Z * bool) :=
  match opts with
  | [] => Ok (nums, wholeBody)
  | o :: opts =>
      if negb (ID o =? QBlock2) then requested_loop maxPayloads szx count single opts nums previous wholeBody else
      let '(value, _, err) := DecodeUint32 (Value o) in
      match err with
      | Some e => Err e
      | None =>
          let '(optionSZX, num, more, err) := DecodeQBlockOption value in
          if (match err with Some _ => true | None => false end) || negb (optionSZX =? szx) || (num <=? previous) || (count <=? num)
          then Err ErrInvalidOptionBlock2 else
          let last_ := if more then setLast maxPayloads num count else num in
          let wholeBody := if more && (Z.rem num maxPayloads =? 0) && single then true else wholeBody in
          requested_loop maxPayloads szx count single opts (appendQ2Range nums num last_) num wholeBody
      end
  end.

Definition q2RequestedBlocks b (r : EMsg) (szx count : Z) : result (list Z * bool) :=
  requested_loop (MaxPayloads (q_config b)) szx count (optionCount r QBlock2 =? 1) (e_options r) [] (-1) false.

Definition validQ2First (nums : list Z) (first : Z) : bool :=
  match nums with n :: _ => n =? first | [] => false end.

Definition validQ2Family b (r : EMsg) : bool :=
  (optionCount r QBlock2 <=? MaxPayloads (q_config b)) && negb (e_HasOption r Block1) && negb (e_HasOption r Block2) &&
  negb (e_HasOption r QBlock1).

Definition parseQBlock2 b (r : EMsg) : result (Z * Z * bool) :=
  if negb (e_code r =? GET) && negb (isBodyMethod (e_code r)) then Err errQBlockBadOption else
  if negb (validQ2Family b r) then Err errQBlockBadOption else
  match e_GetOptionUint32 r QBlock2 with
  | (_, Some _) => Err ErrInvalidOptionBlock2
  | (value, None) =>
      let '(szx, num, more, err) := DecodeQBlockOption value in
      if (match err with Some _ => true | None => false end) || (qBlockMaxSZX <? szx) then Err errQBlockBadOption else
      match q2RequestedBlocks b r szx (qBlockMaxNUM + 1) with
      | Err e => Err e
      | Ok _ =>
          if e_HasOption r Observe then
            let '(observe, observeErr) := e_GetOptionUint32 r Observe in
            if (match observeErr with Some _ => true | None => false end) || (1 <? observe) || negb (num =? 0) ||
               negb (optionCount r QBlock2 =? 1)
            then Err errQBlockBadOption else Ok (szx, num, more)
          else Ok (szx, num, more)
      end
  end.

Definition q2SetDelay b (key : list byte) : Z :=
  match q2Senders (q_tables b) !! key with Some x => st_delay x | None => NonTimeout (q_config b) end.

(** ** Bursts *)

Definition q2JobKey (key token : list byte) (nums : list Z) (recovery : bool) : list byte :=
  let jobKey := string_bytes "q2:" ++ key in
  if negb recovery then jobKey
  else jobKey ++ string_bytes ":recovery:" ++ key_part token ++ (nums ≫= be_split 4).

Definition with_job (j : q2SetJob) (nums : list Z) (g : option nat) : q2SetJob :=
  mkSetJob (j_key j) (j_token j) (j_szx j) (j_mode j) nums (j_count j) (j_wholeBody j) (j_recovery j) g.

Definition scheduleQ2Set b (job : q2SetJob) (deadline : Z) : Engine * option error :=
  match q2Senders (q_tables b) !! j_key job with
  | None => (b, None)
  | Some generation =>
      if match j_generation job with Some g => negb (st_gen generation =? g)%nat | None => false end then (b, None) else
      let job := with_job job (j_nums job) (Some (st_gen generation)) in
      let '(t, err) := ScheduleQBlock (q_transport b) (q2JobKey (j_key job) (j_token job) (j_nums job) (j_recovery job))
                         deadline (Q2Set job) in
      (with_transport b t, err)
  end.

(** The transfer that the job was made for, if it is still there. *)
Definition current b (job : q2SetJob) : option q2SendTransfer :=
  x ← q2Senders (q_tables b) !! j_key job;
  g ← j_generation job;
  if (st_gen x =? g)%nat then Some x else None.

Definition reschedule b (job : q2SetJob) (nums : list Z) (deadline : Z) : Engine * option error :=
  scheduleQ2Set b (with_job job nums (j_generation job)) deadline.

Definition recoveryDeadline b (job : q2SetJob) : Z :=
  if negb (j_wholeBody job) || negb (j_mode job =? NonConfirmable) then zeroTime
  else match current b job with Some x => st_recoveryUntil x | None => zeroTime end.

Definition set_sentThrough (x : q2SendTransfer) (n : Z) : q2SendTransfer :=
  mkSendTransfer (st_gen x) (st_message x) (st_expires x) (st_size x) n (st_delay x) (st_identity x) (st_mode x)
    (st_terminalObservationKey x) (st_recoveryUntil x).
Definition set_recoveryUntil (x : q2SendTransfer) (d : Z) : q2SendTransfer :=
  mkSendTransfer (st_gen x) (st_message x) (st_expires x) (st_size x) (st_sentThrough x) (st_delay x) (st_identity x) (st_mode x)
    (st_terminalObservationKey x) d.

(** The response of a job; its context has no deadline. *)
Definition job_response env b (job : q2SetJob) (num : Z) : Engine * result EMsg :=
  let '(b, r) := buildQBlock2ResponseFrom env b None (j_key job) (j_token job) (j_szx job) num (j_generation job) in
  match r with
  | Err e => (b, Err e)
  | Ok response =>
      let response := e_SetType response (j_mode job) in
      let response := if j_recovery job then e_Remove response Observe else response in
      let b := if j_wholeBody job then
                 match current b job with
                 | Some x => put_q2 b (j_key job) (set_sentThrough x (Z.max (st_sentThrough x) num))
                 | None => b
                 end
               else b in
      (b, Ok response)
  end.

Definition job_send env b (job : q2SetJob) (num : Z) : Engine * option error :=
  let '(b, r) := job_response env b job num in
  match r with
  | Err e => (b, Some e)
  | Ok response => let '(t, err) := SendQBlock (q_transport b) response in (with_transport b t, err)
  end.

Definition pauseNormalUntil b (job : q2SetJob) (deadline : Z) : Engine :=
  let b := match current b job with
           | Some x => if st_recoveryUntil x <? deadline then put_q2 b (j_key job) (set_recoveryUntil x deadline) else b
           | None => b
           end in
  with_transport b (DelayQBlock (q_transport b) (string_bytes "q2:" ++ j_key job) deadline).

Definition following env b (job : q2SetJob) (end_ : nat) : Engine * option error :=
  let delay := if j_mode job =? NonConfirmable then q2SetDelay b (j_key job) else 0 in
  if (end_ <? length (j_nums job))%nat then
    let deadline := q_now env + delay in
    let b := if j_recovery job && (j_mode job =? NonConfirmable) then pauseNormalUntil b job (deadline + delay) else b in
    reschedule b job (drop end_ (j_nums job)) deadline
  else match last (j_nums job) with
       | None => (b, None)
       | Some l =>
           if negb (j_wholeBody job) || (j_count job <=? l + 1) then (b, None) else
           let next := l + 1 in
           reschedule b job (seqZ next (setLast (MaxPayloads (q_config b)) next (j_count job) + 1 - next)) (q_now env + delay)
       end.

(** The callback of an acknowledged payload; [ctxErr] says that the context is done. *)
Definition async_done env b (job : q2SetJob) (sendErr : option error) (ctxErr : bool) : Engine :=
  if (match current b job with None => true | Some _ => false end) || ctxErr then b else
  let '(b, sendErr) := match sendErr with None => following env b job 1 | Some e => (b, Some e) end in
  match sendErr with Some e => q_report b e | None => b end.

Definition sendAsync env b (job : q2SetJob) : Engine * option error :=
  match j_nums job with
  | [] => (b, None)
  | num :: _ =>
      let '(b, r) := job_response env b job num in
      match r with
      | Err e => if bool_decide (e = errQBlock2ResponseNotFound) then (b, None) else (b, Some e)
      | Ok response => let '(t, err) := SendQBlockAsync (q_transport b) response job in (with_transport b t, err)
      end
  end.

(** The blocks of the first of the sets that [nums] spans. *)
Fixpoint q2SetEnd_from (maxPayloads first : Z) (nums : list Z) : nat :=
  match nums with
  | [] => 0
  | num :: nums => if negb (Z.quot num maxPayloads =? Z.quot first maxPayloads) then 0 else S (q2SetEnd_from maxPayloads first nums)
  end.

Definition q2SetEnd b (nums : list Z) : nat :=
  match nums with [] => 0%nat | first :: _ => q2SetEnd_from (MaxPayloads (q_config b)) first nums end.

(** The loop of [run] over the first [n] blocks of [nums]: [Some] is an early return. *)
Fixpoint run_burst env b (job : q2SetJob) (nums : list Z) (n : nat) : Engine * option (option error) :=
  match n, nums with
  | S n, num :: rest =>
      if (match current b job with None => true | Some _ => false end) then (b, Some None) else
      let deadline := recoveryDeadline b job in
      if q_now env <? deadline then let '(b, err) := reschedule b job nums deadline in (b, Some err) else
      let '(b, err) := job_send env b job num in
      match err with
      | Some e => (b, Some (if bool_decide (e = errQBlock2ResponseNotFound) then None else Some e))
      | None => run_burst env b job rest n
      end
  | _, _ => (b, None)
  end.

Definition run_job env b (job : q2SetJob) : Engine * option error :=
  if (match current b job with None => true | Some _ => false end) || (match j_nums job with [] => true | _ => false end)
  then (b, None) else
  if j_mode job =? Confirmable then sendAsync env b job else
  let end_ := q2SetEnd b (j_nums job) in
  let '(b, early) := run_burst env b job (j_nums job) end_ in
  match early with
  | Some r => (b, r)
  | None =>
      let b := if j_recovery job && (j_mode job =? NonConfirmable)
               then pauseNormalUntil b job (q_now env + q2SetDelay b (j_key job)) else b in
      if (match current b job with None => true | Some _ => false end) then (b, None) else following env b job end_
  end.

(** ** Q-Block2 requests *)

Definition invalidateTerminalQ2Observation b (r : EMsg) (remoteAddr : addr) : Engine :=
  let key := q2TransferKey r remoteAddr in
  let registrationKey := qObservationKey (e_token r) remoteAddr in
  match q2Senders (q_tables b) !! key with
  | None => b
  | Some transfer =>
      if bool_decide (st_terminalObservationKey transfer = registrationKey)
      then cancel_q2_job (drop_q2 b key transfer) key else b
  end.

Definition prepareQ2ObservationRequest env b (r : EMsg) (remoteAddr : addr) (num : Z) : Engine :=
  if negb (e_HasOption r Observe) then b else
  match e_GetOptionUint32 r Observe with
  | (_, Some _) => b
  | (observe, None) =>
      let b := CancelQBlockObservation env b (e_token r) remoteAddr in
      if (observe =? 0) && (num =? 0) then invalidateTerminalQ2Observation b r remoteAddr else b
  end.

(** The keys of the representations with the identity that are not expired. *)
Definition q2_candidates env b (identity : list byte) : list (list byte) :=
  (filter (fun kx => st_identity kx.2 = identity /\ q_now env < st_expires kx.2) (map_to_list (q2Senders (q_tables b)))).*1.

Definition findQ2Response env b (identity : list byte) : result (list byte) :=
  match q2_candidates env b identity with
  | [] => Ok []
  | [key] => Ok key
  | _ => Err ErrInvalidOptionBlock2
  end.

Definition q2ResponseKey env b (r : EMsg) (remoteAddr : addr) (num : Z) (more : bool) : result (list byte) :=
  let key := q2TransferKey r remoteAddr in
  let identity := qTransferKey r remoteAddr [] true in
  let found :=
    match q2Senders (q_tables b) !! key with
    | Some _ => Ok []
    | None => if negb (num =? 0) || negb more || e_HasOption r RequestTag || negb (e_code r =? GET)
              then findQ2Response env b identity else Ok []
    end in
  match found with
  | Err e => Err e
  | Ok found =>
      let key := if zlen found =? 0 then key else found in
      match q2Senders (q_tables b) !! key with
      | Some transfer => if negb (st_mode transfer =? e_type r) then Err errQBlockBadOption else Ok key
      | None => Ok key
      end
  end.

(** The handler may change the request it is given. *)
Definition loadQ2Response env b (w : RW) (r : EMsg) (remote : addr) (key : list byte) (szx num : Z)
    : Engine * RW * EMsg * result EMsg :=
  let '(b, response) := buildQBlock2Response env b (e_deadline r) key (e_token r) szx num in
  match response with
  | Ok m => (b, w, r, Ok m)
  | Err e =>
      if negb (bool_decide (e = errQBlock2ResponseNotFound)) then (b, w, r, Err e) else
      if negb (num =? 0) then (b, w, r, Err ErrQBlockInvalidNUM) else
      let '(w, r) := next w r in
      if e_code (RW_Message w) <? Created then (b, w, r, Ok (RW_Message w)) else
      let w := match e_body (RW_Message w) with
               | None => RW_SetMessage w (e_SetBody (RW_Message w) (Some []))
               | Some _ => w
               end in
      let '(b, m, cacheErr) := cacheQBlock2Response env b (e_deadline r) key (qTransferKey r remote [] true) (RW_Message w) (e_type r) in
      let w := RW_SetMessage w m in
      match cacheErr with
      | Some e => (b, w, r, Err e)
      | None =>
          let '(b, registerErr) :=
            match e_GetOptionUint32 r Observe with
            | (observe, None) =>
                if (observe =? 0) && e_HasOption (RW_Message w) Observe then registerQObservation b r remote szx else (b, None)
            | (_, Some _) => (b, None)
            end in
          match registerErr with
          | Some e => (b, w, r, Err e)
          | None =>
              let '(b, response) := buildQBlock2Response env b (e_deadline r) key (e_token r) szx num in
              (b, w, r, response)
          end
      end
  end.

Definition prepareQ2NonSend env b (r : EMsg) (key : list byte) (szx : Z) (nums : list Z) (count : Z) (wholeBody : bool)
    : Engine * (bool * option error) :=
  let num := default 0 (head nums) in
  let '(b, sent) :=
    if wholeBody then
      match q2Senders (q_tables b) !! key with
      | Some x => if negb (num =? 0) && (num <=? st_sentThrough x) then (b, true)
                  else (put_q2 b key (set_sentThrough x num), false)
      | None => (b, false)
      end
    else (b, false) in
  if (sent : bool) then (b, (true, None)) else
  let b := match q2Senders (q_tables b) !! key with
           | Some x => if negb wholeBody && (st_recoveryUntil x <? q_now env + st_delay x)
                       then put_q2 b key (set_recoveryUntil x (q_now env + st_delay x)) else b
           | None => b
           end in
  let recoveryUntil := match q2Senders (q_tables b) !! key with Some x => st_recoveryUntil x | None => zeroTime end in
  let b := with_transport b (DelayQBlock (q_transport b) (string_bytes "q2:" ++ key) recoveryUntil) in
  if wholeBody && (q_now env <? recoveryUntil) then
    let '(b, err) := scheduleQ2Set b (mkSetJob key (e_token r) szx (e_type r) nums count true false None) recoveryUntil in
    (b, (true, err))
  else (b, (false, None)).

Definition scheduleQ2Continuation env b (r : EMsg) (key : list byte) (szx : Z) (nums : list Z) (count : Z) (wholeBody : bool)
    : Engine * option error :=
  let M := MaxPayloads (q_config b) in
  let first := default 0 (head nums) in
  let remaining := drop 1 nums in
  let remaining := match remaining with
                   | [] => if wholeBody then seqZ (first + 1) (setLast M (first + 1) count + 1 - (first + 1)) else []
                   | _ => remaining
                   end in
  let delay := match remaining with
               | n :: _ => if (e_type r =? NonConfirmable) && negb (Z.quot n M =? Z.quot first M) then q2SetDelay b key else 0
               | [] => 0
               end in
  let job := mkSetJob key (e_token r) szx (e_type r) remaining count wholeBody (negb wholeBody) None in
  if q_afterWrite env then (with_deferred b (q_deferred b ++ [(job, delay)]), None)
  else scheduleQ2Set b job (q_now env + delay).

(** After the response was written. *)
Definition run_deferred env b : Engine :=
  fold_left (fun b jd => let '(b, err) := scheduleQ2Set b jd.1 (q_now env + jd.2) in
                         match err with Some e => q_report b e | None => b end)
    (q_deferred b) (with_deferred b []).

Definition continueQ2Response env b (r : EMsg) (key : list byte) (szx : Z) (nums : list Z) (count : Z) (wholeBody : bool)
    : Engine * option error :=
  if (zlen nums <=? 1) && (negb wholeBody || (count <=? default 0 (last nums) + 1)) then (b, None)
  else scheduleQ2Continuation env b r key szx nums count wholeBody.

(** The size exponent is at most the one that the connection allows. *)
Definition handleQBlock2_fits env b (w : RW) (r : EMsg) (szx num : Z) (more : bool) (remoteAddr : addr) : Engine * RW * option error :=
  let b := prepareQ2ObservationRequest env b r remoteAddr num in
  match q2ResponseKey env b r remoteAddr num more with
  | Err e => (b, w, Some e)
  | Ok key =>
      let '(b, w, r, response) := loadQ2Response env b w r remoteAddr key szx num in
      match response with
      | Err e => (b, w, Some e)
      | Ok response =>
          if e_code response <? Created then (b, w, None) else
          let size := (e_GetOptionUint32 response Size2).1 in
          let count := Z.max 1 (Z.quot (size + SZX_Size szx - 1) (SZX_Size szx)) in
          match q2RequestedBlocks b r szx count with
          | Err _ => (b, w, Some ErrInvalidOptionBlock2)
          | Ok (nums, wholeBody) =>
              if negb (validQ2First nums num) then (b, w, Some ErrInvalidOptionBlock2) else
              let '(b, (handled, prepareErr)) :=
                if e_type r =? NonConfirmable then prepareQ2NonSend env b r key szx nums count wholeBody else (b, (false, None)) in
              if (handled : bool) || (match prepareErr with Some _ => true | None => false end) then (b, w, prepareErr) else
              let response := if negb wholeBody then e_Remove response Observe else response in
              let w := RW_SetMessage w response in
              let '(b, err) := continueQ2Response env b r key szx nums count wholeBody in
              (b, w, err)
          end
      end
  end.

Definition handleQBlock2 env b (w : RW) (r : EMsg) (maxSZX : Z) (remoteAddr : addr) : Engine * RW * option error :=
  match parseQBlock2 b r with
  | Err e => (b, w, Some e)
  | Ok (szx, num, more) =>
      if maxSZX <? szx then
        if negb (num =? 0) || negb (optionCount r QBlock2 =? 1) then (b, w, Some ErrQBlockTooLarge) else
        let request := e_SetBody (CloneMessage r) (e_body r) in
        let request := e_SetOptionUint32 request QBlock2 (EncodeQBlockOption maxSZX 0 more).1 in
        match parseQBlock2 b request with
        | Err e => (b, w, Some e)
        | Ok (szx, num, more) => handleQBlock2_fits env b w request szx num more remoteAddr
        end
      else handleQBlock2_fits env b w r szx num more remoteAddr
  end.

(** [SetResponse] with a plain text and no body; its error is reported. *)
Definition set_error b (w : RW) (code : Z) : Engine * RW :=
  let '(w, err) := SetResponse w code TextPlain None [] in
  (match err with Some e => q_report b e | None => b end, w).

Definition dispatchQBlock2 env b (w : RW) (r : EMsg) (maxSZX : Z) (remoteAddr : addr) : Engine * RW :=
  let '(b, w, err) := handleQBlock2 env b w r (Z.min maxSZX qBlockMaxSZX) remoteAddr in
  match err with
  | None => (b, w)
  | Some e =>
      let w := RW_SetMessage w (e_SetBody (RW_Message w) None) in
      let code := if bool_decide (e = ErrQBlockTooLarge) then RequestEntityTooLarge
                  else if bool_decide (e = errQBlockBadOption) then BadOption
                  else if bool_decide (e = ErrQBlockScheduleFull) then ServiceUnavailable
                  else BadRequest in
      let '(b, w) := set_error b w code in
      (q_report b e, w)
  end.

(** ** Q-Block1 requests *)

Definition validateQBlock1 (r : EMsg) : option error :=
  if negb (isBodyMethod (e_code r)) then Some errQBlockBadOption else
  if negb (optionCount r QBlock1 =? 1) || e_HasOption r Block1 || e_HasOption r Block2 then Some errQBlockBadOption else
  let capability :=
    if e_HasOption r QBlock2 then
      if negb (optionCount r QBlock2 =? 1) then true else
      let '(q2Value, q2Err) := e_GetOptionUint32 r QBlock2 in
      let '(q2SZX, q2NUM, _, decodeErr) := DecodeQBlockOption q2Value in
      (match q2Err with Some _ => true | None => false end) || (match decodeErr with Some _ => true | None => false end) ||
      (qBlockMaxSZX <? q2SZX) || negb (q2NUM =? 0)
    else false in
  if capability then Some errQBlockBadOption else
  if negb (e_HasOption r RequestTag) || negb (e_HasOption r Size1) then Some ErrInvalidOptionBlock1 else
  if negb (optionCount r RequestTag =? 1) || negb (optionCount r Size1 =? 1) then Some errQBlockBadOption
  else None.

Record q1Parameters : Type := mkQ1 { p_tag : list byte; p_value : Z; p_szx : Z; p_num : Z; p_more : bool; p_bodySize : Z }.

Definition parseQBlock1 (r : EMsg) : result q1Parameters :=
  match validateQBlock1 r with
  | Some e => Err e
  | None =>
      let '(_, (count, err)) := GetBytess (e_options r) RequestTag (replicate 1 []) in
      if (match err with Some _ => true | None => false end) || negb (count =? 1) then Err ErrInvalidOptionBlock1 else
      let '(tag, err) := e_GetOptionBytes r RequestTag in
      if (match err with Some _ => true | None => false end) || (8 <? zlen tag) then Err ErrInvalidOptionBlock1 else
      let '(value, err) := e_GetOptionUint32 r QBlock1 in
      match err with
      | Some _ => Err ErrInvalidOptionBlock1
      | None =>
          let '(szx, num, more, err) := DecodeQBlockOption value in
          if (match err with Some _ => true | None => false end) || (qBlockMaxSZX <? szx) then Err errQBlockBadOption else
          let '(bodySize, err) := e_GetOptionUint32 r Size1 in
          match err with
          | Some _ => Err errQBlockBadOption
          | None => Ok (mkQ1 tag value szx num more bodySize)
          end
      end
  end.

(** Create or validate a transfer. *)
Definition q1Transfer env b (r : EMsg) (key : list byte) (p : q1Parameters) : Engine * result q1ReceiveTransfer :=
  let maxBodySize := if q_maxReceiveBodySize b <=? 0 then q1DefaultMaxBodySize else q_maxReceiveBodySize b in
  if q1Closed (q_tables b) then (b, Err ErrContext) else
  let '(b, transfer) :=
    match q1Receivers (q_tables b) !! key with
    | Some x => if rt_expires x <=? q_now env then (drop_q1 b key x, None) else (b, Some x)
    | None => (b, None)
    end in
  match transfer with
  | Some x =>
      if negb (rt_bodySize x =? p_bodySize p) || negb (rt_szx x =? p_szx p) || negb (rt_mode x =? e_type r)
      then (b, Err ErrInvalidOptionBlock1) else (b, Ok x)
  | None =>
      let n := Z.of_nat (base.size (q1Receivers (q_tables b))) in
      if (4096 <=? n) || ((0 <? q_receivingMessagesCacheMaxEntries b) && (q_receivingMessagesCacheMaxEntries b <=? n))
      then (b, Err ErrReceivingMessagesCacheFull) else
      match NewAssembly (p_szx p) (p_bodySize p) maxBodySize q1MaxTrackedBlocks with
      | Err e => (b, Err e)
      | Ok assembly =>
          let '(bu, ok) := qReserveTransfer (q_budget b) in
          let b := with_budget b bu in
          if negb ok then (b, Err ErrReceivingMessagesCacheFull) else
          let x := mkReceiveTransfer (q_nextGen b) (Some assembly) zeroTime false 0 (p_bodySize p) (p_szx p) None [] (e_type r) 0 0
                     zeroTime (-1) zeroTime (-1) ∅ 0 [] in
          (next_gen (put_q1 b key x), Ok x)
      end
  end.

Definition replayQ1Completed (w : RW) (r : EMsg) (x : q1ReceiveTransfer) : RW :=
  match rt_response x with
  | None => w
  | Some m => RW_SetMessage w (e_SetToken (e_Clone m (e_deadline r)) (e_token r))
  end.

Definition set_touched (x : q1ReceiveTransfer) (expires : Z) (token : list byte) (value : Z) : q1ReceiveTransfer :=
  mkReceiveTransfer (rt_gen x) (rt_assembly x) expires (rt_completed x) (rt_bytes x) (rt_bodySize x) (rt_szx x) (rt_response x)
    token (rt_mode x) value (rt_retries x) (rt_updated x) (rt_reportedSet x) (rt_reportedAt x) (rt_continuedThrough x)
    (rt_continues x) (rt_completionSequence x) (rt_completionToken x).
Definition set_progress (x : q1ReceiveTransfer) (a : Assembly) (bytes retries updated : Z) : q1ReceiveTransfer :=
  mkReceiveTransfer (rt_gen x) (Some a) (rt_expires x) (rt_completed x) bytes (rt_bodySize x) (rt_szx x) (rt_response x)
    (rt_token x) (rt_mode x) (rt_lastValue x) retries updated (rt_reportedSet x) (rt_reportedAt x) (rt_continuedThrough x)
    (rt_continues x) (rt_completionSequence x) (rt_completionToken x).
Definition set_reported (x : q1ReceiveTransfer) (set_ at_ : Z) : q1ReceiveTransfer :=
  mkReceiveTransfer (rt_gen x) (rt_assembly x) (rt_expires x) (rt_completed x) (rt_bytes x) (rt_bodySize x) (rt_szx x) (rt_response x)
    (rt_token x) (rt_mode x) (rt_lastValue x) (rt_retries x) (rt_updated x) set_ at_ (rt_continuedThrough x)
    (rt_continues x) (rt_completionSequence x) (rt_completionToken x).
Definition set_continued (x : q1ReceiveTransfer) (through : Z) (continues : gmap Z Z) : q1ReceiveTransfer :=
  mkReceiveTransfer (rt_gen x) (rt_assembly x) (rt_expires x) (rt_completed x) (rt_bytes x) (rt_bodySize x) (rt_szx x) (rt_response x)
    (rt_token x) (rt_mode x) (rt_lastValue x) (rt_retries x) (rt_updated x) (rt_reportedSet x) (rt_reportedAt x) through
    continues (rt_completionSequence x) (rt_completionToken x).
Definition set_completed (x : q1ReceiveTransfer) (seq : Z) (token : list byte) : q1ReceiveTransfer :=
  mkReceiveTransfer (rt_gen x) (rt_assembly x) (rt_expires x) true (rt_bytes x) (rt_bodySize x) (rt_szx x) (rt_response x)
    (rt_token x) (rt_mode x) (rt_lastValue x) (rt_retries x) (rt_updated x) (rt_reportedSet x) (rt_reportedAt x)
    (rt_continuedThrough x) (rt_continues x) seq token.
(** The response is kept and the chunks are dropped. *)
Definition set_final (x : q1ReceiveTransfer) (response : EMsg) : q1ReceiveTransfer :=
  mkReceiveTransfer (rt_gen x) None (rt_expires x) (rt_completed x) 0 (rt_bodySize x) (rt_szx x) (Some response)
    (rt_token x) (rt_mode x) (rt_lastValue x) (rt_retries x) (rt_updated x) (rt_reportedSet x) (rt_reportedAt x)
    (rt_continuedThrough x) ∅ (rt_completionSequence x) (rt_completionToken x).

Definition with_q1_bytes b (n : Z) : Engine :=
  with_tables b (set_q1 (q_tables b) (q1Receivers (q_tables b)) (q1ReceiveBytes (q_tables b) + n)).

(** The results are complete and duplicate, or the error. *)
Definition addQ1Payload env b (key : list byte) (x : q1ReceiveTransfer) (assembly : Assembly) (p : q1Parameters) (payload : list byte)
    : Engine * q1ReceiveTransfer * result (bool * bool) :=
  let len := zlen payload in
  let '(bu, ok) := qReserveBytes (q_budget b) len in
  let b := with_budget b bu in
  if negb ok then (b, x, Err ErrQBlockTooLarge) else
  let b := with_q1_bytes b len in
  let firstMissingBefore := (FirstMissing assembly).1 in
  let '(a, (complete, duplicate, err)) := Assembly_Add assembly (p_num p) (p_more p) payload in
  let fresh := negb duplicate && match err with None => true | Some _ => false end in
  let retries := if fresh && (p_num p =? firstMissingBefore) then 0 else rt_retries x in
  let updated := if fresh then q_now env else rt_updated x in
  let refused := duplicate || match err with None => false | Some _ => true end in
  let bytes := if refused then rt_bytes x else rt_bytes x + len in
  let b := if refused then with_budget (with_q1_bytes b (- len)) (qReleaseBytes (q_budget b) len) else b in
  let x := set_progress x a bytes retries updated in
  match err with
  | Some e => (drop_q1 b key x, x, Err e)
  | None => (put_q1 b key x, x, Ok (complete, duplicate))
  end.

Definition respondQBlock1 (w : RW) (code block : Z) (report : option (list byte)) : RW * option error :=
  let '(w, err) := SetResponse w code (match report with Some _ => AppMissingBlocksCBORSeq | None => TextPlain end) report [] in
  match err with
  | Some e => (w, Some e)
  | None => (RW_SetMessage w (e_SetOptionUint32 (RW_Message w) QBlock1 block), None)
  end.

Definition scheduleQ1Missing b (key : list byte) : Engine * option error :=
  match q1Receivers (q_tables b) !! key with
  | None => (b, None)
  | Some x =>
      if rt_completed x then (b, None) else
      let deadline := rt_updated x + int64 (Z.shiftl (NonReceiveTimeout (q_config b)) (rt_retries x)) in
      let '(t, err) := ScheduleQBlock (q_transport b) (string_bytes "q1:" ++ key) deadline (Q1Missing key) in
      (with_transport b t, err)
  end.

(** The closure of [scheduleQ1Missing]. *)
Definition run_q1_missing env b (key : list byte) : Engine * option error :=
  match q1Receivers (q_tables b) !! key with
  | None => (b, None)
  | Some x =>
      if rt_completed x then (b, None) else
      let deadline := rt_updated x + int64 (Z.shiftl (NonReceiveTimeout (q_config b)) (rt_retries x)) in
      if q_now env <? deadline then scheduleQ1Missing b key else
      if (rt_expires x <=? q_now env) || (NonMaxRetransmit (q_config b) <=? rt_retries x) then (drop_q1 b key x, None) else
      match rt_assembly x with
      | None => (b, None)
      | Some a =>
          let nums := missingSet a (MaxPayloads (q_config b)) in
          let b := put_q1 b key (set_progress x a (rt_bytes x) (rt_retries x + 1) (q_now env)) in
          match EncodeMissingBlocks [] nums with
          | (_, Some e) => (b, Some e)
          | (report, None) =>
              let m := e_SetType (e_SetCode (e_SetToken (AcquireMessage None) (rt_token x)) RequestEntityIncomplete) NonConfirmable in
              let m := e_SetOptionUint32 m ContentFormat AppMissingBlocksCBORSeq in
              let m := e_SetOptionUint32 m QBlock1 (rt_lastValue x) in
              let '(t, err) := SendQBlock (q_transport b) (e_SetBody m (Some report)) in
              let b := with_transport b t in
              match err with
              | Some e => (b, Some e)
              | None => scheduleQ1Missing b key
              end
          end
      end
  end.

Definition respondQ1Missing env b (w : RW) (key : list byte) (x : q1ReceiveTransfer) (assembly : Assembly) (firstMissing value : Z)
    : Engine * RW * option error :=
  let M := MaxPayloads (q_config b) in
  if (rt_reportedSet x =? Z.quot firstMissing M) && (q_now env - rt_reportedAt x <? NonReceiveTimeout (q_config b)) then (b, w, None) else
  let b := put_q1 b key (set_reported x (Z.quot firstMissing M) (q_now env)) in
  match EncodeMissingBlocks [] (missingSet assembly M) with
  | (_, Some e) => (b, w, Some e)
  | (report, None) => let '(w, err) := respondQBlock1 w RequestEntityIncomplete value (Some report) in (b, w, err)
  end.

Definition respondQ1Incomplete env b (w : RW) (r : EMsg) (key : list byte) (x : q1ReceiveTransfer) (assembly : Assembly)
    (p : q1Parameters) (duplicate : bool) : Engine * RW * option error :=
  let M := MaxPayloads (q_config b) in
  let '(firstMissing, exists_) := FirstMissing assembly in
  if negb exists_ then (b, w, None) else
  if negb (e_type r =? NonConfirmable) then
    if (p_num p <? firstMissing) && p_more p
    then let '(w, err) := respondQBlock1 w Continue (p_value p) None in (b, w, err)
    else (b, w, None)
  else
    let '(b, err) := scheduleQ1Missing b key in
    match err with
    | Some e => (b, w, Some e)
    | None =>
        if duplicate then
          match rt_continues x !! p_num p with
          | Some reply => let '(w, err) := respondQBlock1 w Continue reply None in (b, w, err)
          | None => (b, w, None)
          end
        else if Z.quot firstMissing M <? Z.quot (p_num p) M
        then respondQ1Missing env b w key x assembly firstMissing (p_value p)
        else if (firstMissing <=? 0) || negb (Z.rem firstMissing M =? 0) then (b, w, None) else
        let confirmed := (EncodeQBlockOption (p_szx p) (firstMissing - 1) true).1 in
        if firstMissing - 1 <=? rt_continuedThrough x then (b, w, None) else
        let b := put_q1 b key (set_continued x (firstMissing - 1) (<[p_num p := confirmed]> (rt_continues x))) in
        let '(w, err) := respondQBlock1 w Continue confirmed None in (b, w, err)
    end.

(** The end of a transfer: its response is kept, its chunks are released. *)
Definition finish_q1 b (key : list byte) (x : q1ReceiveTransfer) (stored : EMsg) : Engine :=
  let b := with_q1_bytes b (- rt_bytes x) in
  let b := with_budget b (qReleaseBytes (q_budget b) (rt_bytes x)) in
  put_q1 b key (set_final x stored).

(** The transfer of the key, if it is the one of the generation. *)
Definition same_q1 b (key : list byte) (x : q1ReceiveTransfer) : option q1ReceiveTransfer :=
  y ← q1Receivers (q_tables b) !! key; if (rt_gen y =? rt_gen x)%nat then Some y else None.

Definition completeQ1 env b (w : RW) (r : EMsg) (key : list byte) (x : q1ReceiveTransfer) (maxSZX : Z) (remoteAddr : addr)
    : Engine * RW * option error :=
  match same_q1 b key x with
  | None => (b, w, Some ErrContext)
  | Some x =>
      if rt_completed x then (b, w, None) else
      let x := set_completed x (e_sequence r) (e_token r) in
      let b := put_q1 b key x in
      let b := with_transport b (CancelQBlock (q_transport b) (string_bytes "q1:" ++ key)) in
      match rt_assembly x with
      | None => (b, w, Some ErrContext)
      | Some assembly =>
          match Assembly_ReadSeeker assembly with
          | Err e => (b, w, Some e)
          | Ok body =>
              let request := e_Remove (e_Remove (CloneMessage r) QBlock1) Size1 in
              let request := e_SetBody request (Some (sparse_content body)) in
              let '(w, _) := next w request in
              let '(b, w, err) :=
                if SZX_Size (rt_szx x) <? e_BodySize (RW_Message w) then
                  let '(b, m, err) := cacheQBlock2Response env b (e_deadline r) (q2TransferKey r remoteAddr)
                                        (qTransferKey r remoteAddr [] true) (RW_Message w) (e_type r) in
                  let w := RW_SetMessage w m in
                  match err with
                  | Some e => (b, w, Some e)
                  | None =>
                      let q2Request := e_Remove (CloneMessage r) QBlock1 in
                      let q2Request := if negb (e_HasOption q2Request QBlock2)
                                       then e_SetOptionUint32 q2Request QBlock2 (EncodeQBlockOption (rt_szx x) 0 true).1
                                       else q2Request in
                      handleQBlock2 env b w q2Request maxSZX remoteAddr
                  end
                else (b, w, None) in
              match err with
              | Some e => (b, w, Some e)
              | None =>
                  let stored := e_Clone (RW_Message w) (e_deadline r) in
                  match same_q1 b key x with
                  | None => (b, w, None)
                  | Some x => (finish_q1 b key x stored, w, None)
                  end
              end
          end
      end
  end.

(** An error after the body was delivered is the response that a replay gets. *)
Definition cacheQ1FinalError b (r : EMsg) (remoteAddr : addr) (response : EMsg) : Engine :=
  match e_GetOptionBytes r RequestTag with
  | (_, Some _) => b
  | (tag, None) =>
      let key := q1TransferKey r remoteAddr tag in
      match q1Receivers (q_tables b) !! key with
      | None => b
      | Some x =>
          if negb (rt_completed x) || (match rt_response x with Some _ => true | None => false end) ||
             negb (rt_completionSequence x =? e_sequence r) || negb (bool_decide (rt_completionToken x = e_token r))
          then b else finish_q1 b key x (e_Clone response (e_deadline r))
      end
  end.

Definition readQBody (r : EMsg) : list byte := default [] (e_body r).

Definition handleQBlock1 env b (w : RW) (r : EMsg) (maxSZX : Z) (remoteAddr : addr) : Engine * RW * option error :=
  match parseQBlock1 r with
  | Err e => (b, w, Some e)
  | Ok p =>
      let key := q1TransferKey r remoteAddr (p_tag p) in
      let '(b, t) := q1Transfer env b r key p in
      match t with
      | Err e => (b, w, Some e)
      | Ok x =>
          if rt_completed x then (b, replayQ1Completed w r x, None) else
          let x := set_touched x (q_now env + NonPartialTimeout (q_config b)) (e_token r) (p_value p) in
          let b := put_q1 b key x in
          let payload := readQBody r in
          match rt_assembly x with
          | None => (b, w, Some ErrContext)
          | Some assembly =>
              let '(b, x, res) := addQ1Payload env b key x assembly p payload in
              match res with
              | Err e => (b, w, Some e)
              | Ok (complete, duplicate) =>
                  if negb complete
                  then respondQ1Incomplete env b w r key x (default assembly (rt_assembly x)) p duplicate
                  else completeQ1 env b w r key x maxSZX remoteAddr
              end
          end
      end
  end.

Definition q_sendEntityTooLarge b (w : RW) (token : list byte) : RW :=
  SendEntityTooLarge w token (if q_maxReceiveBodySize b <=? 0 then q1DefaultMaxBodySize else q_maxReceiveBodySize b).

Definition respondQ1Error b (w : RW) (r : EMsg) (remoteAddr : addr) (err : error) : Engine * RW :=
  let w := RW_SetMessage w (e_SetBody (RW_Message w) None) in
  let '(b, w) :=
    if bool_decide (err = ErrReceivingMessagesCacheFull) || bool_decide (err = ErrQBlockScheduleFull)
    then (b, SendServiceUnavailable w (e_token r))
    else if bool_decide (err = ErrRequestEntityTooLarge) || bool_decide (err = ErrQBlockTooLarge)
    then (b, q_sendEntityTooLarge b w (e_token r))
    else set_error b w (if bool_decide (err = errQBlockBadOption) then BadOption else BadRequest) in
  let b := cacheQ1FinalError b r remoteAddr (RW_Message w) in
  (q_report b err, w).
End QServe.

Section QHandle.
Context {T : Type} `{!QTransport T}.
Context (sha256 : list byte -> list byte).
Context (next : RW -> EMsg -> RW * EMsg).
Abbreviation Engine := (Engine T).
Implicit Types (b : Engine) (env : QEnv).

(** ** Notifications *)

(** What [registeredQNotification] says of a response: not a Q notification, one of a
    cancelled observation, or one of the registration with its request. *)
Inductive notification : Type :=
| NotRegistered
| Canceled
| Registered (request : EMsg) (o : qObservation).

Definition registeredQNotification env b (response : EMsg) (remote : addr) : notification :=
  if IsRequestCode (e_code response) then NotRegistered else
  let observationKey := qObservationKey (e_token response) remote in
  match qObservations (q_tables b) !! observationKey with
  | None => if q_now env <? default zeroTime (qCanceledObservations (q_tables b) !! observationKey) then Canceled else NotRegistered
  | Some o => Registered (CloneMessage (ob_request o)) o
  end.

Definition firstNotificationSet env b (key : list byte) (mode count : Z) : list Z * Z :=
  let M := MaxPayloads (q_config b) in
  let nums := seqZ 1 (setLast M 0 count) in
  match nums with
  | [] => let next := setLast M 0 count + 1 in
          (seqZ next (setLast M next count + 1 - next),
           if mode =? NonConfirmable then q_now env + q2SetDelay b key else q_now env)
  | _ => (nums, q_now env)
  end.

(** The first result says that the message was a Q notification; the response may have
    got an entity tag. *)
Definition WriteNotification env b (response : EMsg) (remote : addr) : Engine * EMsg * (bool * option error) :=
  match registeredQNotification env b response remote with
  | NotRegistered => (b, response, (false, None))
  | Canceled => (b, response, (true, Some ErrContext))
  | Registered request generation =>
      let key := ob_key generation in
      let szx := ob_szx generation in
      let mode := if negb (e_type response =? NonConfirmable) then Confirmable else e_type response in
      let request := e_SetType request mode in
      let '(b, response, r) := cacheQBlock2Notification sha256 env b (e_deadline response) key (qTransferKey request remote [] true)
                                 response mode (Some generation) in
      match r with
      | Err e => (b, response, (true, Some e))
      | Ok transfer =>
          let count := Z.max 1 (Z.quot (st_size transfer + SZX_Size szx - 1) (SZX_Size szx)) in
          let '(b, r) := buildQBlock2ResponseFrom env b (e_deadline response) key (e_token response) szx 0 (Some (st_gen transfer)) in
          match r with
          | Err e => if bool_decide (e = errQBlock2ResponseNotFound) then (b, response, (true, None)) else (b, response, (true, Some e))
          | Ok first =>
              let '(t, err) := SendQBlock (q_transport b) (e_SetType first mode) in
              let b := with_transport b t in
              if (match err with Some _ => true | None => false end) || (count =? 1) then (b, response, (true, err)) else
              let '(nums, deadline) := firstNotificationSet env b key mode count in
              let '(b, err) := scheduleQ2Set b (mkSetJob key (e_token response) szx mode nums count true false (Some (st_gen transfer)))
                                 deadline in
              (b, response, (true, err))
          end
      end
  end.

(** ** Dispatch *)

(** [None]: not a continuation of the response to an upload.  When the stand-in for the
    handler cannot set its response (the request has a No-Response option against errors), the
    code also reports this to the function for errors, a report that is not modelled. *)
Definition q1ResponseContinuation env b (w : RW) (r : EMsg) (maxSZX : Z) (remoteAddr : addr) : option (Engine * RW) :=
  if negb (e_HasOption r QBlock1) || negb (e_HasOption r QBlock2) then None else
  let requestSize := (e_GetOptionUint32 r Size1).1 in
  if negb (e_BodySize r =? 0) || (requestSize =? 0) then None else
  let request := e_Remove (CloneMessage r) QBlock1 in
  Some (dispatchQBlock2 sha256 (fun w r => ((SetResponse w BadRequest TextPlain None []).1, r)) env b w request maxSZX remoteAddr).

Definition q_Handle env b (w : RW) (r : EMsg) (maxSZX : Z) (remoteAddr : addr) : Engine * RW * bool :=
  if negb (IsRequestCode (e_code r)) then (b, w, false) else
  let b := match e_GetOptionUint32 r Observe with
           | (observe, None) => if observe =? 1 then CancelQBlockObservation env b (e_token r) remoteAddr else b
           | (_, Some _) => b
           end in
  match q1ResponseContinuation env b w r maxSZX remoteAddr with
  | Some (b, w) => (b, w, true)
  | None =>
      if e_HasOption r QBlock1 then
        let '(b, w, err) := handleQBlock1 sha256 next env b w r (Z.min maxSZX qBlockMaxSZX) remoteAddr in
        match err with
        | Some e => let '(b, w) := respondQ1Error b w r remoteAddr e in (b, w, true)
        | None => (b, w, true)
        end
      else if e_HasOption r QBlock2 then
        let '(b, w) := dispatchQBlock2 sha256 next env b w r maxSZX remoteAddr in (b, w, true)
      else (b, w, false)
  end.

(** ** Jobs *)

(** A scheduled job runs; its error is reported. *)
Definition run_qjob env b (j : qJob) : Engine :=
  let '(b, err) := match j with Q1Missing key => run_q1_missing env b key | Q2Set job => run_job env b job end in
  match err with Some e => q_report b e | None => b end.
End QHandle.
