(* ===== verification/QAccounting.v ===== *)
(** * The books of the Q-Block engine

    Every operation of [QEngine] and [QServe] keeps the counters of [QBudget] equal to what
    the tables hold: the bytes of the blocks received so far and of the representations
    that are being sent, and one slot per transfer or observation.  [books] is the
    invariant; operations that reserve before they store, or store before they release,
    pass through states in which [eb] bytes and [et] slots are charged beyond the tables. *)
From stdpp Require Import prelude list strings gmap.
From Stdlib Require Import ZArith Lia.
From S2P Require Import TcpConn KeepAlive Prelude Cast Codes OptionCodec Options Message PoolMessage BlockCodec Assembly.
From S2P Require Import EngineMessage ResponseWriter ExchangeKey Blockwise TableSum QBudget QEngine QServe.
#[local] Open Scope Z_scope.

(** ** The invariant *)

Definition rt_ok (x : q1ReceiveTransfer) : Prop :=
  match rt_assembly x with
  | Some a => assembly_ok a /\ rt_bytes x = a_receivedSize a
  | None => rt_bytes x = 0
  end.

Section Books.
Context {T : Type} `{!QTransport T}.
(** Whether the engine was closed, and what other engines have reserved. *)
Context (cl : bool) (pb pt : Z).
Abbreviation Engine := (Engine T).
Implicit Types (b : Engine) (env : QEnv).

Record books (eb et : Z) b : Prop := mkBooks {
  bk_bytes : engineBytes (q_budget b) = q1ReceiveBytes (q_tables b) + q2SendBytes (q_tables b) + eb;
  bk_q1 : q1ReceiveBytes (q_tables b) = table_sum rt_bytes (q1Receivers (q_tables b));
  bk_q2 : q2SendBytes (q_tables b) = table_sum st_size (q2Senders (q_tables b));
  bk_transfers : engineTransfers (q_budget b) =
    Z.of_nat (size (q1Receivers (q_tables b))) + Z.of_nat (size (q2Senders (q_tables b))) +
    Z.of_nat (size (qObservations (q_tables b))) + et;
  bk_process : processBytes (q_budget b) = engineBytes (q_budget b) + pb /\
    processTransfers (q_budget b) = engineTransfers (q_budget b) + pt;
  bk_limits : engineBytes (q_budget b) <= qEngineMaxBytes /\ processBytes (q_budget b) <= qProcessMaxBytes /\
    engineTransfers (q_budget b) <= qEngineMaxTransfers /\ processTransfers (q_budget b) <= qProcessMaxTransfers;
  bk_rt : map_Forall (fun _ x => rt_ok x) (q1Receivers (q_tables b));
  bk_st : map_Forall (fun _ x => st_size x = e_BodySize (st_message x)) (q2Senders (q_tables b));
  bk_ob : map_Forall (fun k o => ob_registrationKey o = k) (qObservations (q_tables b));
  bk_closed : q1Closed (q_tables b) = cl /\ q2Closed (q_tables b) = cl /\
    (cl = true -> q1Receivers (q_tables b) = ∅ /\ q2Senders (q_tables b) = ∅ /\ qObservations (q_tables b) = ∅)
}.

Lemma st_nonneg (x : q2SendTransfer) : st_size x = e_BodySize (st_message x) -> 0 <= st_size x.
Proof. intros ->. unfold e_BodySize. apply zlen_nonneg. Qed.

(** What the invariant does not look at. *)
Lemma books_frame eb et b b' : books eb et b -> q_budget b' = q_budget b -> q_tables b' = q_tables b -> books eb et b'.
Proof. intros [] E1 E2. split; rewrite ?E1, ?E2; done. Qed.

Lemma books_transport eb et b t : books eb et b -> books eb et (with_transport b t).
Proof. intros H. by eapply books_frame. Qed.
Lemma books_report eb et b e : books eb et b -> books eb et (q_report b e).
Proof. intros H. by eapply books_frame. Qed.
Lemma books_deferred eb et b d : books eb et b -> books eb et (with_deferred b d).
Proof. intros H. by eapply books_frame. Qed.
Lemma books_gen eb et b : books eb et b -> books eb et (next_gen b).
Proof. intros H. by eapply books_frame. Qed.

(** ** The tables *)

Lemma books_drop_q1 eb et b key x y :
  q1Receivers (q_tables b) !! key = Some y -> rt_bytes y = rt_bytes x -> rt_ok y -> books eb et b -> books eb et (drop_q1 b key x).
Proof.
  intros Hk Hx Hy [H1 H2 H3 H4 H5 H6 H7 H8 H9 H10]. assert (cl = true -> False) as Hcl.
  { intros Ht. destruct H10 as (_ & _ & [E _]%(fun h => h Ht)). by rewrite E, lookup_empty in Hk. }
  assert (0 <= rt_bytes x).
  { rewrite <- Hx. unfold rt_ok in Hy. destruct (rt_assembly y); [|lia]. destruct Hy as [Ha ->].
    rewrite (ok_received _ Ha). apply stored_nonneg. }
  unfold drop_q1. split; cbn; rewrite ?(table_sum_delete _ _ _ y) by done; rewrite ?(table_size_delete _ _ y) by done; try lia; try done.
  - by apply map_Forall_delete.
  - destruct H10 as (? & ? & ?). repeat split; try done; by intros ?%Hcl.
Qed.

Lemma books_drop_q2 eb et b key x :
  q2Senders (q_tables b) !! key = Some x -> books eb et b -> books eb et (drop_q2 b key x).
Proof.
  intros Hk [H1 H2 H3 H4 H5 H6 H7 H8 H9 H10]. pose proof (st_nonneg x (H8 _ _ Hk)) as Hx. assert (cl = true -> False) as Hcl.
  { intros Ht. destruct H10 as (_ & _ & (_ & E & _)%(fun h => h Ht)). by rewrite E, lookup_empty in Hk. }
  unfold drop_q2. split; cbn; rewrite ?(table_sum_delete _ _ _ x) by done; rewrite ?(table_size_delete _ _ x) by done; try lia; try done.
  - by apply map_Forall_delete.
  - destruct H10 as (? & ? & ?). repeat split; try done; by intros ?%Hcl.
Qed.

(** The entry of a key is exchanged for another. *)
Lemma books_put_q1 eb et b key x y :
  q1Receivers (q_tables b) !! key = Some y -> rt_ok x ->
  books (eb + (rt_bytes x - rt_bytes y)) et b ->
  books eb et (with_tables b (set_q1 (q_tables b) (<[key := x]> (q1Receivers (q_tables b)))
    (q1ReceiveBytes (q_tables b) + (rt_bytes x - rt_bytes y)))).
Proof.
  intros Hk Hx [H1 H2 H3 H4 H5 H6 H7 H8 H9 H10]. assert (cl = true -> False) as Hcl.
  { intros Ht. destruct H10 as (_ & _ & [E _]%(fun h => h Ht)). by rewrite E, lookup_empty in Hk. }
  split; cbn; rewrite ?(table_sum_replace _ _ _ _ y) by done; rewrite ?map_size_insert_Some by eauto; try lia; try done.
  - by apply map_Forall_insert_2.
  - destruct H10 as (? & ? & ?). repeat split; try done; by intros ?%Hcl.
Qed.

Lemma books_put_q1_ok eb et b key x y :
  q1Receivers (q_tables b) !! key = Some y -> rt_bytes x = rt_bytes y -> rt_ok x -> books eb et b -> books eb et (put_q1 b key x).
Proof.
  intros Hk Hb Hx H. assert (rt_bytes x - rt_bytes y = 0) as E by lia.
  pose proof (books_put_q1 eb et b key x y Hk Hx) as P. rewrite E, !Z.add_0_r in P. by apply P.
Qed.

Lemma books_put_q1_same eb et b key x y :
  q1Receivers (q_tables b) !! key = Some y -> rt_bytes x = rt_bytes y -> rt_assembly x = rt_assembly y -> books eb et b ->
  books eb et (put_q1 b key x).
Proof.
  intros Hk Hb Ha H. apply (books_put_q1_ok _ _ _ _ _ y); try done.
  pose proof (bk_rt _ _ _ H _ _ Hk) as Hy. unfold rt_ok in *. by rewrite Ha, Hb.
Qed.

Lemma books_put_q2_same eb et b key x y :
  q2Senders (q_tables b) !! key = Some y -> st_size x = st_size y -> st_message x = st_message y -> books eb et b ->
  books eb et (put_q2 b key x).
Proof.
  intros Hk Hb Ha [H1 H2 H3 H4 H5 H6 H7 H8 H9 H10]. assert (cl = true -> False) as Hcl.
  { intros Ht. destruct H10 as (_ & _ & (_ & E & _)%(fun h => h Ht)). by rewrite E, lookup_empty in Hk. }
  split; cbn; rewrite ?(table_sum_replace _ _ _ _ y) by done; rewrite ?map_size_insert_Some by eauto; try lia; try done.
  - apply map_Forall_insert_2; [|done]. rewrite Hb, Ha. by apply (H8 key).
  - destruct H10 as (? & ? & ?). repeat split; try done; by intros ?%Hcl.
Qed.

Lemma books_new_q1 eb et b key x :
  q1Receivers (q_tables b) !! key = None -> cl = false -> rt_ok x -> rt_bytes x = 0 -> books eb (et + 1) b ->
  books eb et (put_q1 b key x).
Proof.
  intros Hk Hcl Hx H0 [H1 H2 H3 H4 H5 H6 H7 H8 H9 H10].
  split; cbn; rewrite ?table_sum_fresh by done; rewrite ?table_size_fresh by done; try lia; try done.
  - by apply map_Forall_insert_2.
  - destruct H10 as (? & ? & ?). repeat split; try done; congruence.
Qed.

Lemma books_new_q2 eb et b key x :
  q2Senders (q_tables b) !! key = None -> cl = false -> st_size x = e_BodySize (st_message x) ->
  books (eb + st_size x) (et + 1) b ->
  books eb et (put_q2 (with_tables b (set_q2 (q_tables b) (q2Senders (q_tables b)) (q2SendBytes (q_tables b) + st_size x))) key x).
Proof.
  intros Hk Hcl Hx [H1 H2 H3 H4 H5 H6 H7 H8 H9 H10].
  split; cbn; rewrite ?table_sum_fresh by done; rewrite ?table_size_fresh by done; try lia; try done.
  - by apply map_Forall_insert_2.
  - destruct H10 as (? & ? & ?). repeat split; try done; congruence.
Qed.

(** The observations; the remembered cancellations are not charged. *)
Lemma books_canceled eb et b m : books eb et b -> books eb et (with_tables b (set_obs (q_tables b) (qObservations (q_tables b)) m)).
Proof. intros []. by split. Qed.

Lemma books_delete_obs eb et b key o m :
  qObservations (q_tables b) !! key = Some o -> books eb et b ->
  books eb (et + 1) (with_tables b (set_obs (q_tables b) (delete key (qObservations (q_tables b))) m)).
Proof.
  intros Hk [H1 H2 H3 H4 H5 H6 H7 H8 H9 H10].
  split; cbn; rewrite ?(table_size_delete _ _ o) by done; try lia; try done.
  - by apply map_Forall_delete.
  - destruct H10 as (E1 & E2 & H10). split; [done|]. split; [done|]. intros Ht. destruct (H10 Ht) as (? & ? & ->). by rewrite delete_empty.
Qed.

Lemma books_insert_obs eb et b key o m :
  cl = false -> ob_registrationKey o = key -> books eb (et + match qObservations (q_tables b) !! key with Some _ => 0 | None => 1 end) b ->
  books eb et (with_tables b (set_obs (q_tables b) (<[key := o]> (qObservations (q_tables b))) m)).
Proof.
  intros Hcl Ho [H1 H2 H3 H4 H5 H6 H7 H8 H9 H10].
  split; cbn; rewrite ?map_size_insert; try lia; try done.
  - destruct (qObservations (q_tables b) !! key) eqn:Hk; cbn; lia.
  - by apply map_Forall_insert_2.
  - destruct H10 as (? & ? & ?). repeat split; try done; congruence.
Qed.

(** ** The budget *)

Lemma books_reserve_bytes eb et b n bu ok :
  qReserveBytes (q_budget b) n = (bu, ok) -> books eb et b -> books (if ok then eb + n else eb) et (with_budget b bu).
Proof.
  intros E [H1 H2 H3 H4 H5 H6 H7 H8 H9 H10]. unfold qReserveBytes, qReserve in E.
  repeat (case_match; simplify_eq); split; cbn; rewrite ?bool_decide_eq_true; try lia; try done.
Qed.

Lemma books_reserve_transfer eb et b bu ok :
  qReserveTransfer (q_budget b) = (bu, ok) -> books eb et b -> books eb (if ok then et + 1 else et) (with_budget b bu).
Proof.
  intros E [H1 H2 H3 H4 H5 H6 H7 H8 H9 H10]. unfold qReserveTransfer, qReserve in E.
  repeat (case_match; simplify_eq); split; cbn; try lia; try done.
Qed.

Lemma books_release_bytes eb et b n : 0 <= n -> books (eb + n) et b -> books eb et (with_budget b (qReleaseBytes (q_budget b) n)).
Proof. intros Hn [H1 H2 H3 H4 H5 H6 H7 H8 H9 H10]. split; cbn; try lia; done. Qed.

Lemma books_release_transfer eb et b : books eb (et + 1) b -> books eb et (with_budget b (qReleaseTransfer (q_budget b))).
Proof. intros [H1 H2 H3 H4 H5 H6 H7 H8 H9 H10]. split; cbn; try lia; done. Qed.

(** ** The operations that send *)

(** The lemmas below say that an operation keeps the books; they have the shape
    [f b = (b', ..) -> books 0 0 b -> books 0 0 b'], which [keep_books] chains. *)
Create HintDb books.
#[local] Hint Resolve books_transport books_report books_deferred books_gen books_canceled : books.
Ltac keep_books := repeat (case_match; simplify_eq); simplify_eq; eauto with books.

Lemma cancel_q2_job_books b key : books 0 0 b -> books 0 0 (cancel_q2_job b key).
Proof. apply books_transport. Qed.
#[local] Hint Resolve cancel_q2_job_books books_drop_q2 : books.

Lemma buildQBlock2ResponseFrom_books env b d key token szx num g b' r :
  buildQBlock2ResponseFrom env b d key token szx num g = (b', r) -> books 0 0 b -> books 0 0 b'.
Proof. unfold buildQBlock2ResponseFrom. intros E H. keep_books. Qed.
#[local] Hint Resolve buildQBlock2ResponseFrom_books : books.

Lemma scheduleQ2Set_books b job d b' e : scheduleQ2Set b job d = (b', e) -> books 0 0 b -> books 0 0 b'.
Proof. unfold scheduleQ2Set. intros E H. keep_books. Qed.
#[local] Hint Resolve scheduleQ2Set_books : books.

Lemma current_Some b job x : current b job = Some x -> q2Senders (q_tables b) !! j_key job = Some x.
Proof.
  unfold current. destruct (q2Senders _ !! _) as [y|]; [|done]. cbn. destruct (j_generation job); [|done]. cbn.
  case_match; [|done]. by intros [= ->].
Qed.
#[local] Hint Resolve current_Some : books.

Lemma sent_through_books b key x n :
  q2Senders (q_tables b) !! key = Some x -> books 0 0 b -> books 0 0 (put_q2 b key (set_sentThrough x n)).
Proof. intros Hx. by apply (books_put_q2_same _ _ _ _ _ x). Qed.
Lemma recovery_until_books b key x n :
  q2Senders (q_tables b) !! key = Some x -> books 0 0 b -> books 0 0 (put_q2 b key (set_recoveryUntil x n)).
Proof. intros Hx. by apply (books_put_q2_same _ _ _ _ _ x). Qed.
#[local] Hint Resolve sent_through_books recovery_until_books : books.

Lemma job_response_books env b job num b' r : job_response env b job num = (b', r) -> books 0 0 b -> books 0 0 b'.
Proof. unfold job_response. intros E H. keep_books. Qed.
#[local] Hint Resolve job_response_books : books.

Lemma job_send_books env b job num b' e : job_send env b job num = (b', e) -> books 0 0 b -> books 0 0 b'.
Proof. unfold job_send. intros E H. keep_books. Qed.
#[local] Hint Resolve job_send_books : books.

Lemma pauseNormalUntil_books b job d : books 0 0 b -> books 0 0 (pauseNormalUntil b job d).
Proof. unfold pauseNormalUntil. intros H. apply books_transport. keep_books. Qed.
#[local] Hint Resolve pauseNormalUntil_books : books.

Lemma following_books env b job n b' e : following env b job n = (b', e) -> books 0 0 b -> books 0 0 b'.
Proof. unfold following, reschedule. intros E H. keep_books. Qed.
#[local] Hint Resolve following_books : books.

Lemma async_done_books env b job e1 c : books 0 0 b -> books 0 0 (async_done env b job e1 c).
Proof. unfold async_done. intros H. keep_books. Qed.

Lemma sendAsync_books env b job b' e : sendAsync env b job = (b', e) -> books 0 0 b -> books 0 0 b'.
Proof. unfold sendAsync. intros E H. keep_books. Qed.
#[local] Hint Resolve sendAsync_books : books.

Lemma run_burst_books env job n nums : forall b b' e, run_burst env b job nums n = (b', e) -> books 0 0 b -> books 0 0 b'.
Proof.
  revert nums. induction n as [|n IH]; intros [|num rest] b b' e E H; try by injection E as <- _.
  cbn [run_burst] in E. unfold reschedule in E. keep_books.
Qed.
#[local] Hint Resolve run_burst_books : books.

Lemma run_job_books env b job b' e : run_job env b job = (b', e) -> books 0 0 b -> books 0 0 b'.
Proof. unfold run_job. intros E H. keep_books. Qed.

Lemma run_deferred_books env b : books 0 0 b -> books 0 0 (run_deferred env b).
Proof.
  unfold run_deferred. intros H. assert (books 0 0 (with_deferred b [])) as H' by eauto with books. clear H.
  revert H'. generalize (with_deferred b []). induction (q_deferred b) as [|[job d] l IH]; intros b0 H; [done|].
  cbn [fold_left]. apply IH. keep_books.
Qed.

(** ** Observations and representations *)

Lemma rememberQCancellation_books eb et env b key : books eb et b -> books eb et (rememberQCancellation env b key).
Proof. apply books_canceled. Qed.
#[local] Hint Resolve rememberQCancellation_books : books.

Lemma CancelQBlockObservation_books env b token remote : books 0 0 b -> books 0 0 (CancelQBlockObservation env b token remote).
Proof.
  unfold CancelQBlockObservation. intros H. case_match eqn:Eo; [|done]. apply books_transport.
  match goal with |- context [with_budget ?x _] => set (b1 := x) end.
  assert (books 0 0 (with_budget b1 (qReleaseTransfer (q_budget b1)))) as H1; [|by keep_books].
  apply books_release_transfer, rememberQCancellation_books. by eapply books_delete_obs.
Qed.
#[local] Hint Resolve CancelQBlockObservation_books : books.

Lemma books_not_closed eb et b : books eb et b -> q2Closed (q_tables b) = false -> cl = false.
Proof. intros H E. destruct (bk_closed _ _ _ H) as (_ & H2 & _). congruence. Qed.

Lemma registerQObservation_books b r remote szx b' e :
  registerQObservation b r remote szx = (b', e) -> books 0 0 b -> books 0 0 b'.
Proof.
  unfold registerQObservation. intros E H. destruct (q2Closed (q_tables b)) eqn:Ec; [by simplify_eq|].
  pose proof (books_not_closed _ _ _ H Ec) as Hcl. set (key := qObservationKey (e_token r) remote) in *.
  set (b1 := with_tables b _) in *. assert (books 0 0 b1) as H1 by by apply books_canceled.
  destruct (qObservations (q_tables b) !! key) as [previous|] eqn:Eo.
  - set (b2 := match q2Senders (q_tables (cancel_q2_job b1 (ob_key previous))) !! ob_key previous with Some x => _ | None => _ end) in E.
    assert (books 0 0 b2 /\ qObservations (q_tables b2) = qObservations (q_tables b)) as [H2 E2]
      by (subst b2; case_match; split; eauto with books).
    simplify_eq. apply books_gen, books_insert_obs; [done..|]. by rewrite E2, Eo, Z.add_0_r.
  - case_match; [by simplify_eq|]. destruct (qReserveTransfer (q_budget b1)) as [bu ok] eqn:Er.
    pose proof (books_reserve_transfer _ _ _ _ _ Er H1) as H2. destruct ok; [|by simplify_eq].
    simplify_eq. apply books_gen, books_insert_obs; [done..|]. cbn. by rewrite Eo.
Qed.
#[local] Hint Resolve registerQObservation_books : books.

Lemma finishQNotification_books env b g present :
  validateQNotification b g = None -> books 0 0 b -> books 0 0 (finishQNotification env b g present).
Proof.
  unfold finishQNotification, validateQNotification. intros Hv H. destruct g as [g|]; [|done]. destruct present; [done|].
  apply books_release_transfer, rememberQCancellation_books. case_match eqn:Eo; [|done]. by eapply books_delete_obs.
Qed.

Lemma ensureQ2ETag_body sha256 m m' : ensureQ2ETag sha256 m = Ok m' -> e_body m' = e_body m.
Proof. unfold ensureQ2ETag. intros E. repeat (case_match; simplify_eq); done. Qed.

Lemma snapshotQ2Body_size sha256 d m size m' : snapshotQ2Body sha256 d m size = Ok m' -> 0 <= size -> e_BodySize m' = size.
Proof.
  unfold snapshotQ2Body, copyQ2Body. intros E Hs. unfold e_BodySize. destruct (e_body m) as [c|].
  - destruct (Z.eqb_spec (zlen c) size) as [Ec|]; [|done]. apply ensureQ2ETag_body in E. by rewrite E.
  - destruct (Z.eqb_spec size 0) as [->|]; [|done]. apply ensureQ2ETag_body in E. by rewrite E.
Qed.

Lemma release_snapshot_books b size : 0 <= size -> books size 1 b -> books 0 0 (release_snapshot b size).
Proof.
  intros Hs H. set (b1 := with_budget b (qReleaseBytes (q_budget b) size)).
  change (books 0 0 (with_budget b1 (qReleaseTransfer (q_budget b1)))). by apply books_release_transfer, books_release_bytes.
Qed.

Lemma snapshotQ2NotificationBody_books sha256 b d m b' r :
  snapshotQ2NotificationBody sha256 b d m = (b', r) -> books 0 0 b ->
  match r with
  | Ok (stored, size) => e_BodySize stored = size /\ books size 1 b' /\ q_tables b' = q_tables b
  | Err _ => books 0 0 b'
  end.
Proof.
  unfold snapshotQ2NotificationBody. intros E H. set (size := e_BodySize m) in *.
  destruct (Z.ltb_spec size 0) as [|Hs]; [by simplify_eq|]. case_match; [by simplify_eq|].
  destruct (qReserveBytes (q_budget b) size) as [bu ok] eqn:E1. pose proof (books_reserve_bytes _ _ _ _ _ _ E1 H) as H1.
  destruct ok; cbn [negb] in E; [|by simplify_eq]. rewrite Z.add_0_l in H1.
  destruct (qReserveTransfer _) as [bu' ok] eqn:E2. pose proof (books_reserve_transfer _ _ _ _ _ E2 H1) as H2.
  destruct ok; cbn [negb] in E; cycle 1.
  { simplify_eq. by apply books_release_bytes. }
  destruct (snapshotQ2Body sha256 d m size) as [stored|e] eqn:E3; simplify_eq.
  - split; [by eapply snapshotQ2Body_size|]. done.
  - by apply (release_snapshot_books (with_budget (with_budget b bu) bu')).
Qed.

Lemma cacheQBlock2Notification_books sha256 env b d key identity m mode g b' m' r :
  cacheQBlock2Notification sha256 env b d key identity m mode g = (b', m', r) -> books 0 0 b -> books 0 0 b'.
Proof.
  unfold cacheQBlock2Notification. intros E H. destruct (snapshotQ2NotificationBody sha256 b d m) as [b1 snap] eqn:E1.
  apply snapshotQ2NotificationBody_books in E1; [|done]. destruct snap as [[stored size]|e]; [|by simplify_eq].
  destruct E1 as (Hsize & H1 & Et). assert (0 <= size) as Hs by (rewrite <- Hsize; apply zlen_nonneg).
  destruct (q2Closed (q_tables b1)) eqn:Ec; cbn [qClosedError] in E; [simplify_eq; by apply release_snapshot_books|].
  destruct (validateQNotification b1 g) as [e|] eqn:Ev; [simplify_eq; by apply release_snapshot_books|].
  pose proof (books_not_closed _ _ _ H1 Ec) as Hcl.
  destruct (q2Senders (q_tables b1) !! key) as [old|] eqn:Eo.
  - simplify_eq. apply finishQNotification_books; [done|]. apply books_gen.
    apply (books_new_q2 0 0 (drop_q2 (cancel_q2_job b1 key) key old)); [apply lookup_delete_eq|done|done|].
    by apply books_drop_q2, books_transport.
  - case_match; [simplify_eq; by apply release_snapshot_books|].
    simplify_eq. apply finishQNotification_books; [done|]. by apply books_gen, (books_new_q2 0 0 b1).
Qed.
#[local] Hint Resolve cacheQBlock2Notification_books : books.

Lemma cacheQBlock2Response_books sha256 env b d key identity m mode b' m' e :
  cacheQBlock2Response sha256 env b d key identity m mode = (b', m', e) -> books 0 0 b -> books 0 0 b'.
Proof. unfold cacheQBlock2Response. intros E H. keep_books. Qed.
#[local] Hint Resolve cacheQBlock2Response_books : books.

(** ** Q-Block2 requests *)

Lemma prepareQ2ObservationRequest_books env b r remote num : books 0 0 b -> books 0 0 (prepareQ2ObservationRequest env b r remote num).
Proof. unfold prepareQ2ObservationRequest, invalidateTerminalQ2Observation. intros H. keep_books. Qed.
#[local] Hint Resolve prepareQ2ObservationRequest_books : books.

Lemma loadQ2Response_books sha256 next env b w r remote key szx num b' w' r' m :
  loadQ2Response sha256 next env b w r remote key szx num = (b', w', r', m) -> books 0 0 b -> books 0 0 b'.
Proof. unfold loadQ2Response, buildQBlock2Response. intros E H. keep_books. Qed.
#[local] Hint Resolve loadQ2Response_books : books.

Lemma prepareQ2NonSend_books env b r key szx nums count whole b' x :
  prepareQ2NonSend env b r key szx nums count whole = (b', x) -> books 0 0 b -> books 0 0 b'.
Proof. unfold prepareQ2NonSend. intros E H. keep_books. Qed.
#[local] Hint Resolve prepareQ2NonSend_books : books.

Lemma continueQ2Response_books env b r key szx nums count whole b' e :
  continueQ2Response env b r key szx nums count whole = (b', e) -> books 0 0 b -> books 0 0 b'.
Proof.
  unfold continueQ2Response, scheduleQ2Continuation. intros E H. case_match; [by simplify_eq|].
  destruct (q_afterWrite env); simplify_eq; eauto with books.
Qed.
#[local] Hint Resolve continueQ2Response_books : books.

Lemma handleQBlock2_fits_books sha256 next env b w r szx num more remote b' w' e :
  handleQBlock2_fits sha256 next env b w r szx num more remote = (b', w', e) -> books 0 0 b -> books 0 0 b'.
Proof. unfold handleQBlock2_fits. intros E H. keep_books. Qed.
#[local] Hint Resolve handleQBlock2_fits_books : books.

Lemma handleQBlock2_books sha256 next env b w r maxSZX remote b' w' e :
  handleQBlock2 sha256 next env b w r maxSZX remote = (b', w', e) -> books 0 0 b -> books 0 0 b'.
Proof. unfold handleQBlock2. intros E H. keep_books. Qed.
#[local] Hint Resolve handleQBlock2_books : books.

Lemma set_error_books b w code b' w' : set_error b w code = (b', w') -> books 0 0 b -> books 0 0 b'.
Proof. unfold set_error. intros E H. keep_books. Qed.
#[local] Hint Resolve set_error_books : books.

Lemma dispatchQBlock2_books sha256 next env b w r maxSZX remote b' w' :
  dispatchQBlock2 sha256 next env b w r maxSZX remote = (b', w') -> books 0 0 b -> books 0 0 b'.
Proof.
  unfold dispatchQBlock2. intros E H. destruct (handleQBlock2 _ _ _ _ _ _ _ _) as [[b1 w1] err] eqn:E1.
  destruct err; [|keep_books]. destruct (set_error _ _ _) eqn:E2. simplify_eq. eauto with books.
Qed.
#[local] Hint Resolve dispatchQBlock2_books : books.

(** ** Q-Block1 requests *)

Lemma DecodeQBlockOption_szx value szx num more err : DecodeQBlockOption value = (szx, num, more, err) -> 0 <= szx.
Proof.
  unfold DecodeQBlockOption. intros E. repeat (case_match; simplify_eq); try done. apply Z.mod_pos_bound. lia.
Qed.

Lemma parseQBlock1_szx r p : parseQBlock1 r = Ok p -> 0 <= p_szx p.
Proof.
  unfold parseQBlock1. intros E. destruct (validateQBlock1 r); [done|].
  destruct (GetBytess _ _ _) as [? [? ?]]. case_match; [done|].
  destruct (e_GetOptionBytes r RequestTag) as [tag ?]. case_match; [done|].
  destruct (e_GetOptionUint32 r QBlock1) as [value []]; [done|].
  destruct (DecodeQBlockOption value) as [[[szx num] more] err] eqn:Ed. apply DecodeQBlockOption_szx in Ed.
  case_match; [done|]. destruct (e_GetOptionUint32 r Size1) as [size []]; [done|]. by injection E as <-.
Qed.

Lemma q1Transfer_books env b r key p b' res :
  q1Transfer env b r key p = (b', res) -> 0 <= p_szx p -> books 0 0 b ->
  books 0 0 b' /\ forall x, res = Ok x -> q1Receivers (q_tables b') !! key = Some x.
Proof.
  unfold q1Transfer. intros E Hp H. destruct (q1Closed (q_tables b)) eqn:Ec; [by simplify_eq|].
  assert (cl = false) as Hcl by (destruct (bk_closed _ _ _ H) as (? & _); congruence).
  set (look := match q1Receivers (q_tables b) !! key with Some x => _ | None => _ end) in E.
  assert (books 0 0 look.1 /\ q1Receivers (q_tables look.1) !! key = look.2) as [H1 E1].
  { subst look. destruct (q1Receivers (q_tables b) !! key) as [x|] eqn:Ek; [|done]. destruct (rt_expires x <=? q_now env); [|done]. split.
    - apply (books_drop_q1 _ _ _ _ _ x); [done..| |done]. apply (bk_rt _ _ _ H _ _ Ek).
    - apply lookup_delete_eq. }
  destruct look as [b1 [x|]]; cbn [fst snd] in *.
  { case_match; simplify_eq; split; try done. intros ? [= <-]. done. }
  case_match; [by simplify_eq|]. case_match eqn:Ea; [|by simplify_eq].
  apply NewAssembly_ok in Ea as (Hok & _ & _ & _ & Hblocks); [|done].
  destruct (qReserveTransfer (q_budget b1)) as [bu ok] eqn:Er. pose proof (books_reserve_transfer _ _ _ _ _ Er H1) as H2.
  destruct ok; cbn [negb] in E; simplify_eq; [|done]. split.
  - apply books_gen, books_new_q1; try done. split; [done|]. cbn. by rewrite (ok_received _ Hok), Hblocks, stored_empty.
  - intros x [= <-]. apply lookup_insert_eq.
Qed.

Lemma with_q1_bytes_books b key x y n (b' := with_q1_bytes b n) :
  q1Receivers (q_tables b) !! key = Some y -> rt_ok x -> n = rt_bytes x - rt_bytes y ->
  books n 0 b -> books 0 0 (put_q1 b' key x).
Proof. intros Hk Hx -> H. apply (books_put_q1 0 0 b key x y Hk Hx). by rewrite Z.add_0_l. Qed.

(** A payload that is not kept is charged and released again. *)
Lemma refused_bytes_books b len bu (b1 := with_q1_bytes (with_budget b bu) len) :
  0 <= len -> books len 0 (with_budget b bu) ->
  let b2 := with_budget (with_q1_bytes b1 (- len)) (qReleaseBytes (q_budget b1) len) in
  books 0 0 b2 /\ q_tables b2 = q_tables b.
Proof.
  intros Hl H b2. assert (q_tables b2 = q_tables b) as Et.
  { subst b2 b1. cbn. destruct (q_tables b). unfold set_q1. cbn. f_equal. lia. }
  split; [|done]. eapply books_frame; [by apply books_release_bytes, H|done|done].
Qed.

Lemma addQ1Payload_books env b key x a p payload b' x' res :
  addQ1Payload env b key x a p payload = (b', x', res) ->
  q1Receivers (q_tables b) !! key = Some x -> rt_assembly x = Some a -> books 0 0 b ->
  books 0 0 b' /\ forall v, res = Ok v -> q1Receivers (q_tables b') !! key = Some x'.
Proof.
  unfold addQ1Payload. intros E Hk Ha H. pose proof (bk_rt _ _ _ H _ _ Hk) as Hx. unfold rt_ok in Hx. rewrite Ha in Hx.
  destruct Hx as [Hok Hb]. destruct (qReserveBytes (q_budget b) (zlen payload)) as [bu ok] eqn:Er.
  pose proof (books_reserve_bytes _ _ _ _ _ _ Er H) as H1. destruct ok; cbn [negb] in E; [|by simplify_eq]. rewrite Z.add_0_l in H1.
  destruct (Assembly_Add a (p_num p) (p_more p) payload) as [a' [[complete duplicate] err]] eqn:Ea.
  apply Assembly_Add_received in Ea as [Hok' Hrec]; [|done]. set (refused := duplicate || _) in *.
  match type of E with context [set_progress x a' ?n ?r ?u] => set (x1 := set_progress x a' n r u) in * end.
  assert (rt_ok x1) as Hx1 by (split; [done|]; cbn; rewrite Hrec, Hb; destruct refused; lia).
  destruct refused eqn:Eref.
  - destruct (refused_bytes_books b (zlen payload) bu (zlen_nonneg _) H1) as [H2 Et]. set (b2 := with_budget _ _) in E, H2, Et.
    assert (q1Receivers (q_tables b2) !! key = Some x) as Hk2 by by rewrite Et.
    destruct err; injection E as <- <- <-; split; try done.
    + apply (books_drop_q1 _ _ _ _ _ x); try done. apply (bk_rt _ _ _ H2 _ _ Hk2).
    + by apply (books_put_q1_ok _ _ _ _ _ x).
    + intros v _. apply lookup_insert_eq.
  - destruct err; [by destruct duplicate|]. injection E as <- <- <-. split; [|intros v _; apply lookup_insert_eq].
    apply (with_q1_bytes_books (with_budget b bu) key x1 x); try done. cbn. lia.
Qed.

Lemma scheduleQ1Missing_books b key b' e :
  scheduleQ1Missing b key = (b', e) -> books 0 0 b -> books 0 0 b' /\ q1Receivers (q_tables b') = q1Receivers (q_tables b).
Proof. unfold scheduleQ1Missing. intros E H. split; repeat (case_match; simplify_eq); eauto with books. Qed.

Lemma scheduleQ1Missing_keeps b key b' e : scheduleQ1Missing b key = (b', e) -> books 0 0 b -> books 0 0 b'.
Proof. intros E H. by destruct (scheduleQ1Missing_books _ _ _ _ E H). Qed.
#[local] Hint Resolve scheduleQ1Missing_keeps : books.

Lemma run_q1_missing_books env b key b' e : run_q1_missing env b key = (b', e) -> books 0 0 b -> books 0 0 b'.
Proof.
  unfold run_q1_missing. intros E H. destruct (q1Receivers (q_tables b) !! key) as [x|] eqn:Ek; [|by simplify_eq].
  pose proof (bk_rt _ _ _ H _ _ Ek) as Hx. case_match; [by simplify_eq|]. case_match; [by eauto with books|].
  case_match; [simplify_eq; by apply (books_drop_q1 _ _ _ _ _ x)|].
  destruct (rt_assembly x) as [a|] eqn:Ea; [|by simplify_eq].
  set (b1 := put_q1 b key _) in E. assert (books 0 0 b1) as Hb1 by by apply (books_put_q1_same _ _ _ _ _ x).
  clearbody b1. keep_books.
Qed.
#[local] Hint Resolve run_q1_missing_books : books.

Lemma respondQ1Missing_books env b w key x a first value b' w' e :
  respondQ1Missing env b w key x a first value = (b', w', e) -> q1Receivers (q_tables b) !! key = Some x -> books 0 0 b -> books 0 0 b'.
Proof.
  unfold respondQ1Missing. intros E Hk H. case_match; [by simplify_eq|]. set (b1 := put_q1 b key _) in E.
  assert (books 0 0 b1) as Hb1 by by apply (books_put_q1_same _ _ _ _ _ x). clearbody b1. keep_books.
Qed.

Lemma respondQ1Incomplete_books env b w r key x a p dup b' w' e :
  respondQ1Incomplete env b w r key x a p dup = (b', w', e) -> q1Receivers (q_tables b) !! key = Some x -> books 0 0 b -> books 0 0 b'.
Proof.
  unfold respondQ1Incomplete. intros E Hk H. destruct (FirstMissing a) as [first ex]. case_match; [by simplify_eq|].
  case_match; [by keep_books|]. destruct (scheduleQ1Missing b key) as [b1 err] eqn:Es.
  apply scheduleQ1Missing_books in Es as [Hb1 Et]; [|done]. rewrite <- Et in Hk. destruct err; [by simplify_eq|].
  destruct dup; [by keep_books|]. case_match; [by eapply respondQ1Missing_books|]. case_match; [by simplify_eq|].
  case_match; [by simplify_eq|]. destruct (respondQBlock1 _ _ _ _) as [w1 err]. simplify_eq. by apply (books_put_q1_same _ _ _ _ _ x).
Qed.

Lemma finish_q1_books b key x stored : q1Receivers (q_tables b) !! key = Some x -> books 0 0 b -> books 0 0 (finish_q1 b key x stored).
Proof.
  intros Hk H. pose proof (bk_rt _ _ _ H _ _ Hk) as Hx. assert (0 <= rt_bytes x) as H0.
  { unfold rt_ok in Hx. destruct (rt_assembly x); [|lia]. destruct Hx as [Ha ->]. rewrite (ok_received _ Ha). apply stored_nonneg. }
  set (y := set_final x stored). set (b0 := with_budget b (qReleaseBytes (q_budget b) (rt_bytes x))).
  assert (books (- rt_bytes x) 0 b0) as H1 by (apply books_release_bytes; [done|by rewrite Z.add_opp_diag_l]).
  eapply books_frame; [by apply (with_q1_bytes_books b0 key y x (- rt_bytes x))|done|done].
Qed.

Lemma same_q1_Some b key x y : same_q1 b key x = Some y -> q1Receivers (q_tables b) !! key = Some y.
Proof. unfold same_q1. destruct (_ !! key); [|done]. cbn. case_match; [|done]. by intros [= ->]. Qed.
#[local] Hint Resolve finish_q1_books same_q1_Some : books.

Lemma completeQ1_books sha256 next env b w r key x maxSZX remote b' w' e :
  completeQ1 sha256 next env b w r key x maxSZX remote = (b', w', e) -> books 0 0 b -> books 0 0 b'.
Proof.
  unfold completeQ1. intros E H. destruct (same_q1 b key x) as [y|] eqn:Es; [|by simplify_eq]. apply same_q1_Some in Es.
  case_match; [by simplify_eq|]. set (z := set_completed y _ _) in E. set (b1 := with_transport (put_q1 b key z) _) in E.
  assert (books 0 0 b1) as Hb1 by by apply books_transport, (books_put_q1_same _ _ _ _ _ y).
  clearbody z b1. keep_books.
Qed.
#[local] Hint Resolve completeQ1_books : books.

Lemma cacheQ1FinalError_books b r remote m : books 0 0 b -> books 0 0 (cacheQ1FinalError b r remote m).
Proof. unfold cacheQ1FinalError. intros H. keep_books. Qed.
#[local] Hint Resolve cacheQ1FinalError_books : books.

Lemma handleQBlock1_books sha256 next env b w r maxSZX remote b' w' e :
  handleQBlock1 sha256 next env b w r maxSZX remote = (b', w', e) -> books 0 0 b -> books 0 0 b'.
Proof.
  unfold handleQBlock1. intros E H. destruct (parseQBlock1 r) as [p|] eqn:Ep; [|by simplify_eq].
  apply parseQBlock1_szx in Ep. set (key := q1TransferKey r remote (p_tag p)) in E.
  destruct (q1Transfer env b r key p) as [b1 t] eqn:Et. apply q1Transfer_books in Et as [H1 Hk]; [|done..].
  destruct t as [x|]; [|by simplify_eq]. specialize (Hk x eq_refl). case_match; [by simplify_eq|].
  set (x1 := set_touched x _ _ _) in E. set (b2 := put_q1 b1 key x1) in E.
  assert (books 0 0 b2) as H2 by by apply (books_put_q1_same _ _ _ _ _ x).
  assert (q1Receivers (q_tables b2) !! key = Some x1) as Hk2 by apply lookup_insert_eq.
  destruct (rt_assembly x1) as [a|] eqn:Ea; [|by simplify_eq].
  destruct (addQ1Payload env b2 key x1 a p (readQBody r)) as [[b3 x2] res] eqn:Ed.
  apply addQ1Payload_books in Ed as [H3 Hk3]; [|done..]. destruct res as [[complete dup]|]; [|by simplify_eq].
  specialize (Hk3 _ eq_refl). destruct complete; cbn [negb] in E; [by eauto with books|]. by eapply respondQ1Incomplete_books.
Qed.
#[local] Hint Resolve handleQBlock1_books : books.

Lemma respondQ1Error_books b w r remote err b' w' : respondQ1Error b w r remote err = (b', w') -> books 0 0 b -> books 0 0 b'.
Proof.
  unfold respondQ1Error. intros E H. set (w1 := RW_SetMessage w _) in E.
  match type of E with context [let '(_, _) := ?u in _] => destruct u as [b1 w2] eqn:E1 end.
  injection E as <- <-. apply books_report, cacheQ1FinalError_books. keep_books.
Qed.
#[local] Hint Resolve respondQ1Error_books : books.

(** ** The engine *)

Lemma q_Handle_books sha256 next env b w r maxSZX remote b' w' ok :
  q_Handle sha256 next env b w r maxSZX remote = (b', w', ok) -> books 0 0 b -> books 0 0 b'.
Proof.
  unfold q_Handle. intros E H. case_match; [by simplify_eq|].
  set (b1 := match e_GetOptionUint32 r Observe with (_, _) => _ end) in E.
  assert (books 0 0 b1) as Hb1 by (subst b1; keep_books). clearbody b1.
  destruct (q1ResponseContinuation _ _ _ _ _ _ _) as [[b2 w2]|] eqn:Ec; [|keep_books].
  simplify_eq. unfold q1ResponseContinuation in Ec. repeat (case_match; [done|]). injection Ec as Ec. eauto with books.
Qed.

Lemma WriteNotification_books sha256 env b m remote b' m' x :
  WriteNotification sha256 env b m remote = (b', m', x) -> books 0 0 b -> books 0 0 b'.
Proof.
  unfold WriteNotification. intros E H. destruct (registeredQNotification env b m remote) as [| |request g]; [by simplify_eq..|].
  destruct (cacheQBlock2Notification _ _ _ _ _ _ _ _ _) as [[b1 m1] [t|]] eqn:E1; [|keep_books].
  apply cacheQBlock2Notification_books in E1; [|done]. clear H. keep_books.
Qed.

Lemma run_qjob_books env b j : books 0 0 b -> books 0 0 (run_qjob env b j).
Proof.
  unfold run_qjob. intros H. destruct j as [key|job].
  - destruct (run_q1_missing env b key) as [b1 e] eqn:E. keep_books.
  - destruct (run_job env b job) as [b1 e] eqn:E. apply run_job_books in E; [|done]. keep_books.
Qed.

Lemma CheckExpirations_books now b : books 0 0 b -> books 0 0 (q_CheckExpirations now b).
Proof.
  intros H. unfold q_CheckExpirations.
  assert (forall keys b, books 0 0 b -> books 0 0 (CheckExpirations_q1 now b keys)) as Q1.
  { intros keys. induction keys as [|k keys IH]; intros b0 H0; [done|]. apply IH. case_match eqn:Ek; [|done]. case_match; [|done].
    apply (books_drop_q1 _ _ _ _ _ q); [done..| |done]. apply (bk_rt _ _ _ H0 _ _ Ek). }
  assert (forall keys b, books 0 0 b -> books 0 0 (CheckExpirations_q2 now b keys)) as Q2.
  { intros keys. induction keys as [|k keys IH]; intros b0 H0; [done|]. apply IH. keep_books. }
  auto.
Qed.

Lemma setters_books b c : books 0 0 b -> books 0 0 (SetConfig b c).1.
Proof. unfold SetConfig. intros H. destruct (Resolve c) as [? []]; [done|]. by eapply books_frame. Qed.
End Books.

Definition charge (b : Budget) (bytes transfers : Z) : Budget :=
  mkBudget (engineBytes b - bytes) (engineTransfers b - transfers) (processBytes b - bytes) (processTransfers b - transfers).

Lemma close_fold {A} (f : A -> Z) (g : A -> Budget -> Budget) (l : list A) b :
  (forall x b, g x b = charge b (f x) 1) -> foldr g b l = charge b (zsum f l) (zlen l).
Proof.
  intros Hg. induction l as [|x l IH]; [destruct b; change (zlen (@nil A)) with 0; unfold charge; cbn; f_equal; lia|].
  cbn [foldr zsum]. rewrite IH, Hg, zlen_cons. unfold charge. cbn. f_equal; lia.
Qed.

Section Engine.
Context {T : Type} `{!QTransport T}.
Abbreviation Engine := (Engine T).
Implicit Types (b : Engine).

Lemma Close_budget b : q_budget (CloseQBlockTransfers b) =
  charge (q_budget b)
    (table_sum rt_bytes (q1Receivers (q_tables b)) + table_sum st_size (q2Senders (q_tables b)))
    (Z.of_nat (size (q1Receivers (q_tables b))) + Z.of_nat (size (q2Senders (q_tables b))) + Z.of_nat (size (qObservations (q_tables b)))).
Proof.
  unfold CloseQBlockTransfers. cbn. rewrite (close_fold (fun kx => st_size kx.2)) by done.
  rewrite (close_fold (fun _ => 0)) by (intros x u; unfold charge; by rewrite !Z.sub_0_r).
  rewrite (close_fold (fun kx => rt_bytes kx.2)) by done. rewrite !table_sum_list, <- !length_map_to_list.
  assert (forall l : list (list byte * qObservation), zsum (fun _ => 0) l = 0) as Hz by (induction l; cbn; lia).
  rewrite Hz. unfold charge, zlen. cbn. f_equal; lia.
Qed.

Lemma Close_books cl pb pt b : books cl pb pt 0 0 b -> books true pb pt 0 0 (CloseQBlockTransfers b).
Proof.
  intros [H1 H2 H3 H4 H5 H6 H7 H8 H9 H10].
  assert (0 <= table_sum rt_bytes (q1Receivers (q_tables b))).
  { apply table_sum_nonneg. intros k x Hx%H7. unfold rt_ok in Hx. destruct (rt_assembly x); [|lia].
    destruct Hx as [Ha ->]. rewrite (ok_received _ Ha). apply stored_nonneg. }
  assert (0 <= table_sum st_size (q2Senders (q_tables b))) by (apply table_sum_nonneg; intros k x Hx%H8; by apply st_nonneg).
  split; rewrite ?Close_budget; cbn; rewrite ?table_sum_empty, ?map_size_empty; try lia; done.
Qed.

(** ** Operations *)

(** What happens to an engine: calls of its methods, jobs and callbacks that it scheduled,
    and, on the counters of the process, what other engines reserve and release. *)
Inductive q_op : Type :=
| OpHandle (env : QEnv) (w : RW) (r : EMsg) (maxSZX : Z) (remote : addr)
| OpNotify (env : QEnv) (m : EMsg) (remote : addr)
| OpCancel (env : QEnv) (token : list byte) (remote : addr)
| OpJob (env : QEnv) (j : qJob)
| OpAcked (env : QEnv) (job : q2SetJob) (sendErr : option error) (ctxErr : bool)
| OpWritten (env : QEnv)
| OpExpire (now : Z)
| OpConfig (c : Config)
| OpMaxBody (n : Z)
| OpMaxEntries (n : Z)
| OpOthers (bytes transfers : Z)
| OpClose.

Definition others b (bytes transfers : Z) : Engine :=
  let bu := q_budget b in
  let p := processBytes bu + bytes in
  let t := processTransfers bu + transfers in
  if (engineBytes bu <=? p) && (p <=? qProcessMaxBytes) && (engineTransfers bu <=? t) && (t <=? qProcessMaxTransfers)
  then with_budget b (mkBudget (engineBytes bu) (engineTransfers bu) p t) else b.

Section Run.
Context (sha256 : list byte -> list byte) (next : RW -> EMsg -> RW * EMsg).

Definition q_run (b : Engine) (o : q_op) : Engine :=
  match o with
  | OpHandle env w r maxSZX remote => (q_Handle sha256 next env b w r maxSZX remote).1.1
  | OpNotify env m remote => (WriteNotification sha256 env b m remote).1.1
  | OpCancel env token remote => CancelQBlockObservation env b token remote
  | OpJob env j => run_qjob env b j
  | OpAcked env job e c => async_done env b job e c
  | OpWritten env => run_deferred env b
  | OpExpire now => q_CheckExpirations now b
  | OpConfig c => (SetConfig b c).1
  | OpMaxBody n => q_SetMaxReceiveBodySize b n
  | OpMaxEntries n => q_SetReceivingMessagesCacheMaxEntries b n
  | OpOthers bytes transfers => others b bytes transfers
  | OpClose => CloseQBlockTransfers b
  end.

Definition q_all (b : Engine) (ops : list q_op) : Engine := fold_left q_run ops b.

Definition closes (o : q_op) : bool := match o with OpClose => true | _ => false end.

Definition kept b (cl : bool) : Prop := exists pb pt, 0 <= pb /\ 0 <= pt /\ books cl pb pt 0 0 b.

Lemma others_kept b cl bytes transfers : kept b cl -> kept (others b bytes transfers) cl.
Proof.
  intros (pb & pt & Hb & Ht & H). unfold others. case_match eqn:E; [|by exists pb, pt].
  rewrite !andb_true_iff, !Z.leb_le in E. exists (pb + bytes), (pt + transfers).
  destruct H as [H1 H2 H3 H4 H5 H6 H7 H8 H9 H10]. split; [lia|]. split; [lia|]. split; cbn; try lia; done.
Qed.

Lemma q_run_kept b cl o : kept b cl -> kept (q_run b o) (cl || closes o).
Proof.
  destruct o; cbn [closes q_run]; rewrite ?orb_false_r, ?orb_true_r; try apply others_kept; intros (pb & pt & Hb & Ht & H);
    exists pb, pt; split; try split; try done.
  - destruct (q_Handle _ _ _ _ _ _ _ _) as [[b' w'] ok] eqn:E. by eapply q_Handle_books.
  - destruct (WriteNotification _ _ _ _ _) as [[b' m'] x] eqn:E. by eapply WriteNotification_books.
  - by apply CancelQBlockObservation_books.
  - by apply run_qjob_books.
  - by apply async_done_books.
  - by apply run_deferred_books.
  - by apply CheckExpirations_books.
  - by apply setters_books.
  - by eapply books_frame.
  - by eapply books_frame.
  - by eapply Close_books.
Qed.

Lemma q_all_kept ops : forall b cl, kept b cl -> kept (q_all b ops) (cl || existsb closes ops).
Proof.
  induction ops as [|o ops IH]; intros b cl H; [by rewrite orb_false_r|].
  cbn [q_all fold_left existsb]. rewrite orb_assoc. by apply IH, q_run_kept.
Qed.

Lemma q_New_kept transport pb pt :
  0 <= pb <= qProcessMaxBytes -> 0 <= pt <= qProcessMaxTransfers -> kept (q_New transport (mkBudget 0 0 pb pt)) false.
Proof.
  intros Hb Ht. exists pb, pt. split; [lia|]. split; [lia|].
  split; cbn -[qProcessMaxBytes qProcessMaxTransfers]; rewrite ?table_sum_empty, ?map_size_empty; try done.
  split; [done|]. split; [lia|]. split; [done|lia].
Qed.

(** The bytes of the blocks that an engine keeps. *)
Definition blocks_kept (x : q1ReceiveTransfer) : Z :=
  match rt_assembly x with Some a => stored (Z.to_nat (a_count a)) (a_blocks a) | None => 0 end.

Lemma blocks_kept_bytes (m : gmap (list byte) q1ReceiveTransfer) :
  map_Forall (fun _ x => rt_ok x) m -> table_sum rt_bytes m = table_sum blocks_kept m.
Proof.
  intros H. rewrite !table_sum_list. assert (forall kx, kx ∈ map_to_list m -> rt_ok kx.2) as Hl.
  { intros [k x] Hx%elem_of_map_to_list. by apply (H k). }
  induction (map_to_list m) as [|[k x] l IH]; [done|]. cbn [zsum]. rewrite IH by (intros; apply Hl; by right). f_equal.
  specialize (Hl (k, x) ltac:(left)). unfold rt_ok, blocks_kept in *. cbn in *. destruct (rt_assembly x); [|done].
  destruct Hl as [Ha ->]. apply (ok_received _ Ha).
Qed.

(** C18: whatever requests, notifications, jobs, acknowledgements, cancellations and expirations
    an engine handles, and whatever other engines do meanwhile, the bytes it has reserved
    are exactly those of the blocks and representations it keeps, and its slots are exactly
    its transfers and observations; they stay within 32 MiB and 128, and the process's
    counters within theirs.  Once closed, the engine holds nothing, whatever comes later. *)
Theorem q_accounting (transport : T) (pb pt : Z) (ops : list q_op)
    (Hpb : 0 <= pb <= qProcessMaxBytes) (Hpt : 0 <= pt <= qProcessMaxTransfers) :
  let b := q_all (q_New transport (mkBudget 0 0 pb pt)) ops in
  let t := q_tables b in
  engineBytes (q_budget b) = table_sum blocks_kept (q1Receivers t) + table_sum (fun x => e_BodySize (st_message x)) (q2Senders t) /\
  engineTransfers (q_budget b) =
    Z.of_nat (size (q1Receivers t)) + Z.of_nat (size (q2Senders t)) + Z.of_nat (size (qObservations t)) /\
  engineBytes (q_budget b) <= Z.min qEngineMaxBytes (processBytes (q_budget b)) /\
  engineTransfers (q_budget b) <= Z.min qEngineMaxTransfers (processTransfers (q_budget b)) /\
  processBytes (q_budget b) <= qProcessMaxBytes /\ processTransfers (q_budget b) <= qProcessMaxTransfers /\
  (existsb closes ops = true -> engineBytes (q_budget b) = 0 /\ engineTransfers (q_budget b) = 0 /\
    q1Receivers t = ∅ /\ q2Senders t = ∅ /\ qObservations t = ∅).
Proof.
  intros b t. destruct (q_all_kept ops _ _ (q_New_kept transport pb pt Hpb Hpt)) as (pb' & pt' & Hb & Ht & [H1 H2 H3 H4 H5 H6 H7 H8 H9 H10]).
  fold b in H1, H2, H3, H4, H5, H6, H7, H8, H9, H10. fold t in H1, H2, H3, H4, H7, H8, H9, H10. cbn [orb] in H10.
  assert (table_sum st_size (q2Senders t) = table_sum (fun x => e_BodySize (st_message x)) (q2Senders t)) as E2.
  { rewrite !table_sum_list. assert (forall kx, kx ∈ map_to_list (q2Senders t) -> st_size kx.2 = e_BodySize (st_message kx.2)) as Hl.
    { intros [k x] Hx%elem_of_map_to_list. by apply (H8 k). }
    induction (map_to_list (q2Senders t)) as [|kx l IH]; [done|]. cbn [zsum]. rewrite (Hl kx) by left. f_equal.
    apply IH. intros; apply Hl; by right. }
  rewrite (blocks_kept_bytes _ H7) in H2. split; [lia|]. split; [lia|]. do 4 (split; [lia|]).
  intros Hc. destruct H10 as (_ & _ & H10). destruct (H10 Hc) as (E1 & E3 & E4).
  rewrite E1, E3, E4 in *. rewrite !table_sum_empty in *. rewrite !map_size_empty in *. repeat split; lia || done.
Qed.
End Run.
End Engine.

(** ** An example *)
Module Sample.
(** A transport that takes everything and does nothing. *)
#[export] Instance silent : QTransport unit := {
  ScheduleQBlock := fun t _ _ _ => (t, None);
  DelayQBlock := fun t _ _ => t;
  CancelQBlock := fun t _ => t;
  SendQBlock := fun t _ => (t, None);
  SendQBlockAsync := fun t _ _ => (t, None)
}.

Definition env : QEnv := mkQEnv 1000 Second false.
Definition handler (w : RW) (r : EMsg) : RW * EMsg := ((SetResponse w Changed TextPlain None []).1, r).

(** Block [num] of a body of 20 bytes that is sent 16 bytes at a time. *)
Definition block (num : Z) (more : bool) (payload : list byte) : EMsg :=
  mkEMsg POST [1] [mkOption QBlock1 (uint_bytes (EncodeQBlockOption 0 num more).1); mkOption Size1 [20]; mkOption RequestTag [7]]
    NonConfirmable 0 (Some payload) None.

Definition put (r : EMsg) : q_op := OpHandle env (RW_New (AcquireMessage None) (e_options r)) r 6 None.
Definition fresh : Engine unit := q_New tt (mkBudget 0 0 0 0).
Definition first_block : Engine unit := q_all (fun _ => []) handler fresh [put (block 0 true (make_bytes 16))].

(** The first block of an upload occupies its bytes and a slot; after the engine is closed
    nothing is left. *)
Lemma q_accounting_witness :
  engineBytes (q_budget first_block) = 16 /\ engineTransfers (q_budget first_block) = 1 /\
  engineBytes (q_budget first_block) <= qEngineMaxBytes /\
  engineBytes (q_budget (q_all (fun _ => []) handler fresh [put (block 0 true (make_bytes 16)); OpClose])) = 0.
Proof.
  assert (0 <= 0 <= qProcessMaxBytes /\ 0 <= 0 <= qProcessMaxTransfers) as [Hb Ht] by (vm_compute; repeat split; discriminate).
  split; [vm_compute; reflexivity|]. split; [vm_compute; reflexivity|]. split.
  - destruct (q_accounting (fun _ => []) handler tt 0 0 [put (block 0 true (make_bytes 16))] Hb Ht) as (_ & _ & E & _).
    unfold first_block, fresh. revert E. generalize (q_all (fun _ => []) handler (q_New tt (mkBudget 0 0 0 0)) [put (block 0 true (make_bytes 16))]).
    intros e E. lia.
  - destruct (q_accounting (fun _ => []) handler tt 0 0 [put (block 0 true (make_bytes 16)); OpClose] Hb Ht) as (_ & _ & _ & _ & _ & _ & E).
    exact (proj1 (E eq_refl)).
Defined.
End Sample.
