(* ===== verification/QUpload.v ===== *)
(** * A whole Q-Block1 upload

    [qblock1_upload] follows a body through the engine: its blocks arrive in any order and
    any number of times, the handler is called once, with the whole body, and every later
    copy of a block gets the same response. *)
From stdpp Require Import prelude list strings gmap.
From Stdlib Require Import ZArith Lia.
From S2P Require Import TcpConn KeepAlive Prelude Cast Codes OptionCodec Options Message PoolMessage BlockCodec Assembly.
From S2P Require Import EngineMessage ResponseWriter ExchangeKey Blockwise QBudget QEngine QServe QAccounting.
#[local] Open Scope Z_scope.

(** ** What a request that parses looks like *)

Lemma GetUint32_has r id v : e_GetOptionUint32 r id = (v, None) -> e_HasOption r id = true.
Proof. unfold e_GetOptionUint32, e_HasOption, GetUint32, HasOption. by destruct (Find _ _) as [[? ?] [|]]. Qed.

Lemma parseQBlock1_Ok r p :
  parseQBlock1 r = Ok p ->
  IsRequestCode (e_code r) = true /\ e_HasOption r QBlock1 = true /\ e_GetOptionBytes r RequestTag = (p_tag p, None) /\
  e_GetOptionUint32 r Size1 = (p_bodySize p, None).
Proof.
  unfold parseQBlock1, validateQBlock1. intros E. destruct (isBodyMethod (e_code r)) eqn:Em; [|done]. cbn [negb] in E.
  repeat match type of E with match (if ?c then _ else _) with _ => _ end = _ => destruct c; [done|] end.
  destruct (GetBytess _ _ _) as [? [? ?]]. case_match; [done|].
  destruct (e_GetOptionBytes r RequestTag) as [tag [|]]; cbn [orb] in E; [done|]. case_match; [done|].
  destruct (e_GetOptionUint32 r QBlock1) as [value [|]] eqn:Eq; [done|]. apply GetUint32_has in Eq.
  destruct (DecodeQBlockOption value) as [[[szx num] more] err]. case_match; [done|].
  destruct (e_GetOptionUint32 r Size1) as [size [|]]; [done|]. injection E as <-. split_and!; try done.
  unfold isBodyMethod, IsRequestCode, GET, POST, PUT, FETCH, PATCH, IPATCH in *. lia.
Qed.

Section Upload.
Context {T : Type} `{!QTransport T}.
Context (sha256 : list byte -> list byte) (next : RW -> EMsg -> RW * EMsg).
(** The body, how it is cut and identified, and what the engine is configured to. *)
Context (body tag key : list byte) (szx mode : Z) (remote : addr) (cfg : Config).
(** All requests arrive while a transfer that was begun at [t0] is kept. *)
Context (t0 : Z).
Abbreviation Engine := (Engine T).
Implicit Types (b : Engine) (env : QEnv) (r : EMsg) (a : Assembly).
Let bs := SZX_Size szx.
Let count := block_count bs (zlen body).
Let until := t0 + NonPartialTimeout cfg.

(** Request [r] carries block [k] of the body. *)
Record upload_block r (k : Z) : Prop := {
  ub_parse : exists value, parseQBlock1 r = Ok (mkQ1 tag value szx k (k * bs + bs <? zlen body) (zlen body));
  ub_body : readQBody r = block_of body bs k;
  ub_key : q1TransferKey r remote tag = key;
  ub_mode : e_type r = mode;
  ub_observe : (e_GetOptionUint32 r Observe).1 <> 1;
  ub_num : 0 <= k < count
}.

(** Bytes that can still be reserved. *)
Definition room b (n : Z) : Prop :=
  engineBytes (q_budget b) + n <= qEngineMaxBytes /\ processBytes (q_budget b) + n <= qProcessMaxBytes.

(** The engine will begin a transfer. *)
Record admits b : Prop := {
  ad_new : q1Receivers (q_tables b) !! key = None;
  ad_open : q1Closed (q_tables b) = false;
  ad_config : q_config b = cfg;
  ad_entries : Z.of_nat (size (q1Receivers (q_tables b))) < 4096 /\
    (q_receivingMessagesCacheMaxEntries b <= 0 \/
     Z.of_nat (size (q1Receivers (q_tables b))) < q_receivingMessagesCacheMaxEntries b);
  ad_assembly : exists a, NewAssembly szx (zlen body)
    (if q_maxReceiveBodySize b <=? 0 then q1DefaultMaxBodySize else q_maxReceiveBodySize b) q1MaxTrackedBlocks = Ok a;
  ad_slot : engineTransfers (q_budget b) < qEngineMaxTransfers /\ processTransfers (q_budget b) < qProcessMaxTransfers;
  ad_room : room b (zlen body + bs)
}.

(** The transfer has exactly the blocks [seen]. *)
Record receiving (seen : list Z) (x : q1ReceiveTransfer) a : Prop := {
  rc_assembly : rt_assembly x = Some a;
  rc_incomplete : rt_completed x = false /\ rt_response x = None;
  rc_body : partial_body body szx seen a;
  rc_params : rt_bodySize x = zlen body /\ rt_szx x = szx /\ rt_mode x = mode;
  rc_bytes : rt_bytes x = a_receivedSize a
}.

Record at_key b (seen : list Z) (x : q1ReceiveTransfer) a : Prop := {
  ak_lookup : q1Receivers (q_tables b) !! key = Some x;
  ak_receiving : receiving seen x a;
  ak_room : room b (zlen body - a_receivedSize a + bs);
  ak_open : q1Closed (q_tables b) = false;
  ak_config : q_config b = cfg
}.

(** The transfer is begun, or is found. *)
Lemma begin_transfer env b r k p :
  upload_block r k -> p_szx p = szx -> p_bodySize p = zlen body -> 0 <= szx -> admits b ->
  exists b' x a, q1Transfer env b r key p = (b', Ok x) /\ at_key b' [] x a.
Proof.
  intros Hr Es Eb Hszx [Hk Hopen Hcfg Hent [a Ha] Hslot Hroom]. unfold q1Transfer. rewrite Hopen, Hk, Es, Eb.
  destruct (Z.leb_spec 4096 (Z.of_nat (size (q1Receivers (q_tables b))))); [lia|]. cbn [orb].
  assert ((0 <? q_receivingMessagesCacheMaxEntries b) &&
          (q_receivingMessagesCacheMaxEntries b <=? Z.of_nat (size (q1Receivers (q_tables b)))) = false) as -> by lia.
  rewrite Ha. unfold qReserveTransfer, qReserve.
  destruct (Z.ltb_spec 1 0); [lia|].
  destruct (Z.ltb_spec (qEngineMaxTransfers - engineTransfers (q_budget b)) 1); [lia|].
  destruct (Z.ltb_spec (qProcessMaxTransfers - processTransfers (q_budget b)) 1); [lia|]. cbn [negb].
  apply partial_new in Ha as [Hbody Hrec]; [|done].
  eexists _, _, a. split; [done|]. split; cbn; try done; [apply lookup_insert_eq| |].
  - split; cbn; try done. split_and!; try done. apply Hr.
  - unfold room in *. cbn. lia.
Qed.

Lemma find_transfer env b r k p seen x a :
  upload_block r k -> p_szx p = szx -> p_bodySize p = zlen body -> at_key b seen x a -> q_now env < rt_expires x ->
  q1Transfer env b r key p = (b, Ok x).
Proof.
  intros Hr Es Eb [Hk Hrc _ Hopen _] Hnow. unfold q1Transfer. rewrite Hopen, Hk.
  destruct (Z.leb_spec (rt_expires x) (q_now env)); [lia|]. destruct (rc_params _ _ _ Hrc) as (-> & -> & ->).
  rewrite Es, Eb, (ub_mode _ _ Hr), !Z.eqb_refl. done.
Qed.

Lemma at_key_put b seen x x' a : at_key b seen x a -> receiving seen x' a -> at_key (put_q1 b key x') seen x' a.
Proof. intros [Hk Hrc Hroom Hopen Hcfg] Hx'. split; try done. apply lookup_insert_eq. Qed.

Lemma at_key_frame b b' seen x a :
  at_key b seen x a -> q1Receivers (q_tables b') = q1Receivers (q_tables b) -> q1Closed (q_tables b') = q1Closed (q_tables b) ->
  q_budget b' = q_budget b -> q_config b' = q_config b -> at_key b' seen x a.
Proof. intros [Hk Hrc Hroom Hopen Hcfg] E1 E2 E3 E4. split; unfold room in *; rewrite ?E1, ?E2, ?E3, ?E4; done. Qed.

(** The arrival of block [k]. *)
Lemma add_block env b seen x a k p :
  at_key b seen x a -> p_num p = k -> p_more p = (k * bs + bs <? zlen body) -> 0 <= k < count -> 0 <= szx <= 6 ->
  exists b' x' a', addQ1Payload env b key x a p (block_of body bs k) =
      (b', x', Ok (completeLocked a', bool_decide (k ∈ seen))) /\
    at_key b' (k :: seen) x' a' /\ rt_expires x' = rt_expires x /\ rt_gen x' = rt_gen x.
Proof.
  intros Hat Ek Em Hk Hszx. pose proof Hat as [Hl [Ha Hinc Hbody Hpar Hbytes] [Hr1 Hr2] Hopen Hcfg].
  destruct (partial_add body szx seen a k Hbody Hk) as (a' & Hadd & Hbody' & Hrec). fold bs in Hadd, Hrec.
  pose proof (received_bound a (pa_ok _ _ _ _ Hbody)) as Hrb. rewrite (pa_size _ _ _ _ Hbody) in Hrb.
  pose proof (SZX_Size_bounds szx Hszx) as Hbs. fold bs in Hbs. pose proof (zlen_block_le body bs k ltac:(lia)) as Hlen.
  unfold addQ1Payload, qReserveBytes, qReserve.
  destruct (Z.ltb_spec (zlen (block_of body bs k)) 0); [lia|].
  destruct (Z.ltb_spec (qEngineMaxBytes - engineBytes (q_budget b)) (zlen (block_of body bs k))); [lia|].
  destruct (Z.ltb_spec (qProcessMaxBytes - processBytes (q_budget b)) (zlen (block_of body bs k))); [lia|]. cbn [negb].
  rewrite Ek, Em, Hadd. eexists _, _, a'. split; [done|]. split; [|done].
  destruct (bool_decide (k ∈ seen)); cbn [orb negb andb] in *;
    (split; cbn; try done; [apply lookup_insert_eq|split; cbn; try done; lia|unfold room; cbn; rewrite Hrec; lia]).
Qed.

(** Setters that keep what [receiving] says. *)
Lemma receiving_keep seen x x' a :
  receiving seen x a -> rt_assembly x' = rt_assembly x -> rt_completed x' = rt_completed x -> rt_response x' = rt_response x ->
  rt_bodySize x' = rt_bodySize x -> rt_szx x' = rt_szx x -> rt_mode x' = rt_mode x -> rt_bytes x' = rt_bytes x -> receiving seen x' a.
Proof. intros [] E1 E2 E3 E4 E5 E6 E7. split; rewrite ?E1, ?E2, ?E3, ?E4, ?E5, ?E6, ?E7; done. Qed.

Lemma incomplete_keeps env b seen x a w r p dup b' w' e :
  respondQ1Incomplete env b w r key x a p dup = (b', w', e) -> at_key b seen x a ->
  exists x', at_key b' seen x' a /\ rt_expires x' = rt_expires x.
Proof.
  unfold respondQ1Incomplete, scheduleQ1Missing, respondQ1Missing. intros E Hat. pose proof Hat as [Hl Hrc _ _ _].
  rewrite Hl in E. destruct (rc_incomplete _ _ _ Hrc) as [Hc _]. rewrite Hc in E.
  assert (forall t, at_key (with_transport b t) seen x a) as Ht by (intros t; by apply (at_key_frame b)).
  destruct (FirstMissing a) as [first ex]. destruct ex; cbn [negb] in E; [|simplify_eq; eauto].
  destruct (e_type r =? NonConfirmable); cbn [negb] in E; [|repeat (case_match; simplify_eq); eauto].
  destruct (ScheduleQBlock _ _ _ _) as [t [err|]]; cbn [fst snd] in E; [simplify_eq; eauto|].
  repeat match type of E with
  | (if ?c then _ else _) = _ => destruct c; [by repeat (case_match; simplify_eq); eauto|]
  end.
  destruct (Z.quot first _ <? _).
  - case_match; [simplify_eq; eauto|]. set (x' := set_reported x _ _) in E. exists x'.
    assert (at_key (put_q1 (with_transport b t) key x') seen x' a) as Hx'
      by (apply (at_key_put _ _ x); [apply Ht|by apply (receiving_keep _ x)]).
    split; [|done]. clearbody x'. by repeat (case_match; simplify_eq).
  - repeat match type of E with (if ?c then _ else _) = _ => destruct c; [simplify_eq; eauto|] end.
    set (x' := set_continued x _ _) in E. exists x'. split; [|done]. destruct (respondQBlock1 _ _ _ _). simplify_eq.
    apply (at_key_put _ _ x); [apply Ht|by apply (receiving_keep _ x)].
Qed.

(** ** Requests *)

(** Nothing has arrived, or [seen] have. *)
Definition waiting (seen : list Z) b : Prop :=
  seen = [] /\ admits b \/ exists x a, at_key b seen x a /\ until <= rt_expires x.

(** The body was delivered; [m] is the response that is repeated. *)
Record delivered (m : EMsg) b : Prop := {
  dl_entry : exists y, q1Receivers (q_tables b) !! key = Some y /\ rt_completed y = true /\ rt_response y = Some m /\
    until <= rt_expires y /\ rt_bodySize y = zlen body /\ rt_szx y = szx /\ rt_mode y = mode;
  dl_open : q1Closed (q_tables b) = false
}.

Context (Hszx : 0 <= szx <= 6).

Lemma handle_block env b w r k seen maxSZX :
  waiting seen b -> upload_block r k -> t0 <= q_now env < until ->
  exists b1 x a p dup, at_key b1 (k :: seen) x a /\ until <= rt_expires x /\
    forall sha nxt, handleQBlock1 sha nxt env b w r maxSZX remote =
      if completeLocked a then completeQ1 sha nxt env b1 w r key x maxSZX remote else respondQ1Incomplete env b1 w r key x a p dup.
Proof.
  intros Hw Hr Hnow. pose proof Hr as [[value Hp] Hbody Hkey Hmode _ Hk]. set (p := mkQ1 _ _ _ _ _ _) in Hp.
  assert (exists b0 x0 a0, q1Transfer env b r key p = (b0, Ok x0) /\ at_key b0 seen x0 a0) as (b0 & x0 & a0 & Ht & H0).
  { destruct Hw as [[-> Had]|(x & a & Hat & Hexp)]; [by apply (begin_transfer env b r k p); try lia|].
    exists b, x, a. split; [|done]. apply (find_transfer env b r k p seen x a); try done. lia. }
  pose proof (ak_receiving _ _ _ _ H0) as Hrc0. destruct (rc_incomplete _ _ _ Hrc0) as [Hopen _].
  set (x1 := set_touched x0 (q_now env + NonPartialTimeout (q_config b0)) (e_token r) (p_value p)).
  assert (at_key (put_q1 b0 key x1) seen x1 a0) as H1 by (apply (at_key_put _ _ x0); [done|by apply (receiving_keep _ x0)]).
  destruct (add_block env _ seen x1 a0 k p H1 eq_refl eq_refl Hk Hszx) as (b2 & x2 & a2 & Hadd & H2 & Hexp2 & _).
  exists b2, x2, a2, p, (bool_decide (k ∈ seen)). split; [done|]. split.
  { rewrite Hexp2. cbn. rewrite (ak_config _ _ _ _ H0). unfold until. lia. }
  intros sha nxt. unfold handleQBlock1. rewrite Hp. change (p_tag p) with tag. rewrite Hkey, Ht, Hopen.
  change (put_q1 b0 key _) with (put_q1 b0 key x1). fold x1. rewrite (rc_assembly _ _ _ (ak_receiving _ _ _ _ H1)), Hbody, Hadd.
  rewrite (rc_assembly _ _ _ (ak_receiving _ _ _ _ H2)). by destruct (completeLocked a2).
Qed.

(** The request that the handler is given. *)
Definition whole r : EMsg := e_SetBody (e_Remove (e_Remove (CloneMessage r) QBlock1) Size1) (Some body).

Lemma complete_block env b w r seen x a maxSZX :
  at_key b seen x a -> completeLocked a = true -> until <= rt_expires x ->
  e_BodySize (RW_Message (next w (whole r)).1) <= bs ->
  exists b', completeQ1 sha256 next env b w r key x maxSZX remote = (b', (next w (whole r)).1, None) /\
    delivered (e_Clone (RW_Message (next w (whole r)).1) (e_deadline r)) b'.
Proof.
  intros [Hl Hrc Hroom Hopen Hcfg] Hcomp Hexp Hsmall.
  destruct (rc_body _ _ _ Hrc) as [Hok Hag Hsize _ _]. destruct (complete_reader a body Hok Hag Hsize Hcomp) as (rd & Hrd & _ & Hcont & _).
  destruct (rc_incomplete _ _ _ Hrc) as [Hinc _]. destruct (rc_params _ _ _ Hrc) as (P1 & P2 & P3).
  unfold completeQ1, same_q1. rewrite Hl. cbn [mbind option_bind]. rewrite Nat.eqb_refl, Hinc. cbn [rt_assembly set_completed].
  rewrite (rc_assembly _ _ _ Hrc), Hrd, Hcont. fold (whole r). destruct (next w (whole r)) as [w' r']. cbn [fst] in *.
  cbn [rt_szx set_completed]. rewrite P2. fold bs. destruct (Z.ltb_spec bs (e_BodySize (RW_Message w'))); [lia|].
  cbn [with_transport put_q1 with_tables q_tables set_q1 q1Receivers]. rewrite lookup_insert_eq. cbn [mbind option_bind rt_gen set_completed].
  rewrite Nat.eqb_refl. eexists. split; [done|]. split; [|done]. eexists. split; [apply lookup_insert_eq|]. done.
Qed.

Lemma replay_block env b w r k m maxSZX :
  delivered m b -> upload_block r k -> t0 <= q_now env < until ->
  forall sha nxt, handleQBlock1 sha nxt env b w r maxSZX remote =
    (b, RW_SetMessage w (e_SetToken (e_Clone m (e_deadline r)) (e_token r)), None).
Proof.
  intros [(y & Hl & Hc & Hm & Hexp & P1 & P2 & P3) Hopen] Hr Hnow sha nxt. pose proof Hr as [[value Hp] _ Hkey Hmode _ _].
  unfold handleQBlock1. rewrite Hp. cbn [p_tag]. rewrite Hkey. unfold q1Transfer. rewrite Hopen, Hl.
  destruct (Z.leb_spec (rt_expires y) (q_now env)); [lia|]. cbn [p_bodySize p_szx]. rewrite P1, P2, P3, Hmode, !Z.eqb_refl. cbn [negb orb].
  rewrite Hc. unfold replayQ1Completed. by rewrite Hm.
Qed.

(** An upload block is never taken for a request of the rest of a response. *)
Lemma not_continuation env b w r k maxSZX : upload_block r k -> q1ResponseContinuation sha256 env b w r maxSZX remote = None.
Proof.
  intros [[value Hp] Hbody _ _ _ Hk]. apply parseQBlock1_Ok in Hp as (_ & Hq1 & _ & Hs1). cbn [p_bodySize] in Hs1.
  unfold q1ResponseContinuation. rewrite Hq1, Hs1. cbn [negb orb fst]. destruct (e_HasOption r QBlock2); [|done]. cbn [negb].
  destruct (Z.eqb_spec (zlen body) 0) as [E|Hne]; [by rewrite orb_true_r|]. rewrite orb_false_r.
  destruct (Z.eqb_spec (e_BodySize r) 0) as [E|]; [|done]. exfalso. change (e_BodySize r) with (zlen (readQBody r)) in E.
  pose proof (SZX_Size_bounds szx Hszx) as Hbs. fold bs in Hbs. pose proof (zlen_nonneg body).
  pose proof (proj1 (block_count_in bs (zlen body) k ltac:(lia) ltac:(lia) ltac:(lia)) ltac:(apply Hk)) as Hin.
  rewrite Hbody, zlen_block_of in E; [|lia|lia|nia]. unfold block_len in E. nia.
Qed.

Lemma q_Handle_block nxt env b w r k maxSZX :
  upload_block r k ->
  q_Handle sha256 nxt env b w r maxSZX remote =
    let '(b, w, err) := handleQBlock1 sha256 nxt env b w r (Z.min maxSZX qBlockMaxSZX) remote in
    match err with
    | Some e => let '(b, w) := respondQ1Error b w r remote e in (b, w, true)
    | None => (b, w, true)
    end.
Proof.
  intros Hr. pose proof Hr as [[value Hp] _ _ _ Ho _]. apply parseQBlock1_Ok in Hp as (Hc & Hq1 & _ & _).
  unfold q_Handle. rewrite Hc. cbn [negb]. set (b0 := match e_GetOptionUint32 r Observe with (_, _) => _ end).
  assert (b0 = b) as ->.
  { subst b0. destruct (e_GetOptionUint32 r Observe) as [o [|]]; [done|]. cbn in Ho. by destruct (Z.eqb_spec o 1). }
  by rewrite (not_continuation _ _ _ _ k), Hq1.
Qed.

Lemma error_keeps b seen x a w r k e b' w' :
  respondQ1Error b w r remote e = (b', w') -> at_key b seen x a -> upload_block r k -> at_key b' seen x a.
Proof.
  intros E Hat [[value Hp] _ Hkey _ _ _]. apply parseQBlock1_Ok in Hp as (_ & _ & Ht & _). cbn [p_tag] in Ht.
  unfold respondQ1Error in E. match type of E with context [let '(_, _) := ?u in _] => destruct u as [b1 w1] eqn:E1 end.
  injection E as <- _. assert (at_key b1 seen x a) as H1.
  { revert E1. unfold set_error. intros E1. repeat (case_match; simplify_eq); done || by apply (at_key_frame b). }
  assert (cacheQ1FinalError b1 r remote (RW_Message w1) = b1) as ->.
  { unfold cacheQ1FinalError. rewrite Ht, Hkey, (ak_lookup _ _ _ _ H1).
    by destruct (rc_incomplete _ _ _ (ak_receiving _ _ _ _ H1)) as [-> _]. }
  by apply (at_key_frame b1).
Qed.

(** ** The theorem *)

Record arrival : Type := mkArrival { ar_env : QEnv; ar_w : RW; ar_r : EMsg; ar_num : Z }.

(** What the engine does with the arrivals, when [seen] have arrived before and, if the
    body was delivered, [m] is the response to repeat: as long as blocks are missing, the
    handler makes no difference; the last one gets what the handler says to the whole
    body, and copies that come later get that response again. *)
Fixpoint served maxSZX b (seen : list Z) (m : option EMsg) (evs : list arrival) : Prop :=
  match evs with
  | [] => True
  | mkArrival env w r k :: evs =>
      exists b' w', q_Handle sha256 next env b w r maxSZX remote = (b', w', true) /\
      match m with
      | Some stored =>
          (forall nxt, q_Handle sha256 nxt env b w r maxSZX remote = (b', w', true)) /\
          RW_Message w' = e_SetToken (e_Clone stored (e_deadline r)) (e_token r) /\
          served maxSZX b' (k :: seen) m evs
      | None =>
          if all_seen count (k :: seen)
          then w' = (next w (whole r)).1 /\ served maxSZX b' (k :: seen) (Some (e_Clone (RW_Message w') (e_deadline r))) evs
          else (forall nxt, q_Handle sha256 nxt env b w r maxSZX remote = (b', w', true)) /\ served maxSZX b' (k :: seen) None evs
      end
  end.

Definition arrives (ev : arrival) : Prop :=
  upload_block (ar_r ev) (ar_num ev) /\ t0 <= q_now (ar_env ev) < until /\
  e_BodySize (RW_Message (next (ar_w ev) (whole (ar_r ev))).1) <= bs.

Lemma served_delivered maxSZX evs : forall b seen m, delivered m b -> Forall arrives evs -> served maxSZX b seen (Some m) evs.
Proof.
  induction evs as [|[env w r k] evs IH]; intros b seen m Hd Hevs; [done|]. apply Forall_cons in Hevs as [(Hr & Hnow & _) Hevs].
  cbn [ar_env ar_r ar_num] in *. cbn [served].
  assert (forall nxt, q_Handle sha256 nxt env b w r maxSZX remote =
    (b, RW_SetMessage w (e_SetToken (e_Clone m (e_deadline r)) (e_token r)), true)) as Hall.
  { intros nxt. rewrite (q_Handle_block nxt env b w r k) by done. by rewrite (replay_block _ _ _ _ k m). }
  eexists _, _. split; [apply Hall|]. split; [apply Hall|]. split; [done|]. by apply IH.
Qed.

Lemma served_waiting maxSZX evs : forall b seen, waiting seen b -> Forall arrives evs -> served maxSZX b seen None evs.
Proof.
  induction evs as [|[env w r k] evs IH]; intros b seen Hw Hevs; [done|]. apply Forall_cons in Hevs as [(Hr & Hnow & Hsmall) Hevs].
  cbn [ar_env ar_r ar_num ar_w] in *. cbn [served].
  destruct (handle_block env b w r k seen (Z.min maxSZX qBlockMaxSZX) Hw Hr Hnow) as (b1 & x & a & p & dup & Hat & Hexp & Hall).
  unfold count, bs. rewrite <- (partial_complete _ _ _ a (rc_body _ _ _ (ak_receiving _ _ _ _ Hat))). destruct (completeLocked a) eqn:Hcomp.
  - destruct (complete_block env b1 w r _ x a (Z.min maxSZX qBlockMaxSZX) Hat Hcomp Hexp Hsmall) as (b2 & E2 & Hd).
    exists b2, (next w (whole r)).1. split; [by rewrite (q_Handle_block next _ _ _ _ k), Hall, E2 by done|].
    split; [done|]. by apply served_delivered.
  - destruct (respondQ1Incomplete env b1 w r key x a p dup) as [[b2 w2] e] eqn:E2.
    destruct (incomplete_keeps _ _ _ _ _ _ _ _ _ _ _ _ E2 Hat) as (x2 & Hat2 & Hexp2).
    assert (exists b3 w3, (forall nxt, q_Handle sha256 nxt env b w r maxSZX remote = (b3, w3, true)) /\ at_key b3 (k :: seen) x2 a)
      as (b3 & w3 & Hsame & Hat3).
    { destruct e as [e|]; cycle 1.
      - exists b2, w2. split; [|done]. intros nxt. by rewrite (q_Handle_block nxt _ _ _ _ k), Hall by done.
      - destruct (respondQ1Error b2 w2 r remote e) as [b3 w3] eqn:E3. exists b3, w3. split; [|by eapply error_keeps].
        intros nxt. rewrite (q_Handle_block nxt _ _ _ _ k), Hall by done. by rewrite E3. }
    exists b3, w3. split; [apply Hsame|]. split; [done|]. apply IH; [|done]. right. exists x2, a. split; [done|]. lia.
Qed.

(** C3: a body that is uploaded with Q-Block1 is delivered once, whole and unchanged: its
    blocks may arrive in any order and repeatedly, mixed with the engine's other state.
    Before the last missing block the handler is not called (the outcome is the same for
    every handler), that block gets the handler's response to the request with the
    reassembled body, and every copy of a block that arrives later gets the same response
    again, without a call.  It is assumed that the engine is open and has room for the
    transfer and its bytes ([admits]); that all requests come within the lifetime of a
    partial body, have the same type and the same transfer key, parse, and do not
    deregister an observation ([Observe] is not 1); and that the body of the handler's
    response fits in one block, so that the response itself is not cut into Q-Block2
    blocks ([arrives]). *)
Theorem qblock1_upload maxSZX b (evs : list arrival) (Had : admits b) (Hevs : Forall arrives evs) :
  served maxSZX b [] None evs.
Proof. apply served_waiting; [by left|done]. Qed.
End Upload.

(** ** An example *)
Module UploadSample.
Import QAccounting.Sample.

(** 20 bytes, 16 at a time; the second block comes first, and again at the end. *)
Definition text : list byte := make_bytes 16 ++ [1; 2; 3; 4].
Definition request (num : Z) : EMsg := block num (num =? 0) (block_of text 16 num).
Definition arrive (num : Z) : arrival := mkArrival env (RW_New (AcquireMessage None) []) (request num) num.
Definition text_key : list byte := q1TransferKey (request 0) None [7].

Lemma request_block num : num = 0 \/ num = 1 -> arrives handler text [7] text_key 0 NonConfirmable None DefaultConfig 1000 (arrive num).
Proof.
  intros [-> | ->]; (split; [|vm_compute; intuition congruence]); (split; [eexists; vm_compute; reflexivity|..]);
    vm_compute; intuition congruence.
Qed.

Lemma qblock1_upload_witness :
  served (fun _ => []) handler text 0 None 6 fresh [] None [arrive 1; arrive 0; arrive 1] /\
  e_body (whole text (request 0)) = Some text.
Proof.
  split; [|reflexivity].
  apply (qblock1_upload (fun _ => []) handler text [7] text_key 0 NonConfirmable None DefaultConfig 1000 ltac:(lia) 6 fresh).
  - split; try (vm_compute; intuition congruence). eexists. vm_compute. reflexivity.
  - repeat constructor; apply request_block; auto.
Defined.
End UploadSample.
