(* ===== verification/QReceive.v ===== *)
(** * Receiving a Q-Block2 body (src/net/blockwise/qblock/client_receive.go, transport.go)

    [q2BodyReceiver] is the struct of the source; its methods take it and return it
    changed.  The exchange is the interface [QExchange]; what [Receive] yields each time,
    with the time at which it returns and the state of the request's context, is the
    input [reception] of a step, so that [receive_loop] follows every behaviour of the
    peer and of the clock.  The result is [None] when the receptions end before the loop
    does.  The bytes and the slot that the engine charges are in the [Budget]. *)
From stdpp Require Import prelude list strings gmap.
From Stdlib Require Import ZArith Lia.
From S2P Require Import TcpConn KeepAlive Prelude Cast Codes OptionCodec Options Message PoolMessage BlockCodec Assembly.
From S2P Require Import Observation EngineMessage ResponseWriter ExchangeKey Blockwise QBudget QEngine QServe.
#[local] Open Scope Z_scope.

Definition ErrQBlockConflict : error := ErrOther "conflicting duplicate Q-Block".
Definition ErrQBlockUnsupported : error := ErrOther "peer does not support Q-Block".
Definition errQ2RecoveryExhausted : error := ErrOther "Q-Block2 recovery exhausted".

Class QExchange (X : Type) : Type := {
  NewToken : X -> X * result (list byte);
  ExSend : X -> EMsg -> X * option error;
  ExClose : X -> X
}.

Record reception : Type := mkReception { rx_now : Z; rx_result : result EMsg; rx_ctx : option error }.

Fixpoint missing_set_from (set_ maxPayloads : Z) (missing : list Z) : list Z :=
  match missing with
  | [] => []
  | num :: missing => if negb (Z.quot num maxPayloads =? set_) then [] else num :: missing_set_from set_ maxPayloads missing
  end.

Definition qMissingSet (missing : list Z) (maxPayloads : Z) : list Z :=
  match missing with
  | [] => []
  | first :: _ => missing_set_from (Z.quot first maxPayloads) maxPayloads missing
  end.

Definition q2StartsRepresentation (m : EMsg) : bool :=
  if negb (e_HasOption m QBlock2) then true else
  match e_GetOptionUint32 m QBlock2 with
  | (_, Some _) => false
  | (value, None) => let '(_, num, _, err) := DecodeQBlockOption value in
                     (match err with None => true | Some _ => false end) && (num =? 0)
  end.

Definition q2RepresentationIdentity (m : EMsg) : result (Z * list byte) :=
  let '(size, sizeErr) := e_GetOptionUint32 m Size2 in
  let '(etag, etagErr) := e_GetOptionBytes m ETag in
  if (match sizeErr with Some _ => true | None => false end) || (match etagErr with Some _ => true | None => false end) ||
     (zlen etag =? 0) || (8 <? zlen etag)
  then Err ErrInvalidOptionBlock2 else Ok (size, etag).

Definition validQ2Response (m : EMsg) : bool :=
  negb (e_HasOption m Block1) && negb (e_HasOption m Block2) &&
  (optionCount m QBlock2 =? 1) && (optionCount m Size2 =? 1) && (optionCount m ETag =? 1).

Section QReceive.
Context {X : Type} `{!QExchange X}.
Context (config : Config).

Record q2BodyReceiver : Type := mkQ2 {
  r_req : EMsg;
  r_exchange : X;
  r_szx : Z;
  r_maxSZX : Z;
  r_assembly : option Assembly;
  r_etag : list byte;
  r_continued : Z;
  r_partialExpires : Z;
  r_retries : Z;
  r_requestedSet : Z;
  r_retainedBytes : Z;
  r_sentRequests : Z;
  r_observeSequence : Z;
  r_observePresent : bool;
  r_observeTime : Z;
  r_bodyType : Z;
  r_bodyTypeSet : bool;
  r_terminal : bool;
  r_representationCode : Z
}.
Implicit Types (s : q2BodyReceiver) (bu : Budget) (m : EMsg).

(** Updates of groups of fields. *)
Definition r_with_send s (x : X) (sent : Z) : q2BodyReceiver :=
  mkQ2 (r_req s) x (r_szx s) (r_maxSZX s) (r_assembly s) (r_etag s) (r_continued s) (r_partialExpires s) (r_retries s)
    (r_requestedSet s) (r_retainedBytes s) sent (r_observeSequence s) (r_observePresent s) (r_observeTime s) (r_bodyType s)
    (r_bodyTypeSet s) (r_terminal s) (r_representationCode s).
Definition r_with_progress s (continued retries requestedSet : Z) : q2BodyReceiver :=
  mkQ2 (r_req s) (r_exchange s) (r_szx s) (r_maxSZX s) (r_assembly s) (r_etag s) continued (r_partialExpires s) retries
    requestedSet (r_retainedBytes s) (r_sentRequests s) (r_observeSequence s) (r_observePresent s) (r_observeTime s) (r_bodyType s)
    (r_bodyTypeSet s) (r_terminal s) (r_representationCode s).
Definition r_with_body s (a : option Assembly) (retained : Z) : q2BodyReceiver :=
  mkQ2 (r_req s) (r_exchange s) (r_szx s) (r_maxSZX s) a (r_etag s) (r_continued s) (r_partialExpires s) (r_retries s)
    (r_requestedSet s) retained (r_sentRequests s) (r_observeSequence s) (r_observePresent s) (r_observeTime s) (r_bodyType s)
    (r_bodyTypeSet s) (r_terminal s) (r_representationCode s).
Definition r_with_observe s (terminal present : bool) (sequence time : Z) : q2BodyReceiver :=
  mkQ2 (r_req s) (r_exchange s) (r_szx s) (r_maxSZX s) (r_assembly s) (r_etag s) (r_continued s) (r_partialExpires s) (r_retries s)
    (r_requestedSet s) (r_retainedBytes s) (r_sentRequests s) sequence present time (r_bodyType s)
    (r_bodyTypeSet s) terminal (r_representationCode s).
Definition r_with_type s (req : EMsg) (mode : Z) : q2BodyReceiver :=
  mkQ2 req (r_exchange s) (r_szx s) (r_maxSZX s) (r_assembly s) (r_etag s) (r_continued s) (r_partialExpires s) (r_retries s)
    (r_requestedSet s) (r_retainedBytes s) (r_sentRequests s) (r_observeSequence s) (r_observePresent s) (r_observeTime s) mode
    true (r_terminal s) (r_representationCode s).

(** ** Requests *)

Fixpoint add_nums (szx : Z) (more : bool) (nums : list Z) (part : EMsg) : result EMsg :=
  match nums with
  | [] => Ok part
  | num :: nums =>
      match EncodeQBlockOption szx num more with
      | (_, Some e) => Err e
      | (value, None) => add_nums szx more nums (e_AddOptionUint32 part QBlock2 value)
      end
  end.

Definition r_send s (nums : list Z) (more : bool) : q2BodyReceiver * option error :=
  let part := CloneMessage (r_req s) in
  let '(x, prepared) :=
    if 0 <? r_sentRequests s then
      let '(x, token) := NewToken (r_exchange s) in
      (x, match token with Err e => Err e | Ok t => Ok (e_Remove (e_SetToken part t) Observe) end)
    else (r_exchange s, Ok part) in
  match prepared with
  | Err e => (r_with_send s x (r_sentRequests s), Some e)
  | Ok part =>
      let s := r_with_send s x (r_sentRequests s + 1) in
      let part := e_SetBody (e_Remove (e_Remove (e_Remove part QBlock2) ETag) QBlock1) None in
      match add_nums (r_szx s) more nums part with
      | Err e => (s, Some e)
      | Ok part => let '(x, err) := ExSend (r_exchange s) part in (r_with_send s x (r_sentRequests s), err)
      end
  end.

(** The deadline until which [receive] waits. *)
Definition receive_deadline s (now : Z) : Z :=
  let deadline := now + int64 (Z.shiftl (NonReceiveTimeout config) (r_retries s)) in
  if negb (r_partialExpires s =? zeroTime) && (r_partialExpires s <? deadline) then r_partialExpires s else deadline.

Definition recover s (now : Z) (ctxErr : option error) (receiveErr : error) : q2BodyReceiver * option error :=
  match ctxErr with
  | Some e => (s, Some e)
  | None =>
      if bool_decide (receiveErr = ErrContext) then (s, Some receiveErr) else
      if negb (r_partialExpires s =? zeroTime) && (r_partialExpires s <=? now) then (s, Some ErrQBlockIncomplete) else
      if NonMaxRetransmit config <=? r_retries s then (s, Some errQ2RecoveryExhausted) else
      let s := r_with_progress s (r_continued s) (r_retries s + 1) (r_requestedSet s) in
      match r_assembly s with
      | None => r_send s [0] true
      | Some a =>
          match qMissingSet (missingSet a (MaxPayloads config)) (MaxPayloads config) with
          | [] => (s, Some ErrQBlockIncomplete)
          | num :: nums => r_send (r_with_progress s (r_continued s) (r_retries s) (Z.quot num (MaxPayloads config))) (num :: nums) false
          end
      end
  end.

(** ** Representations *)

Definition registrationTerminal s m : bool :=
  let '(observe, err) := e_GetOptionUint32 (r_req s) Observe in
  (match err with None => true | Some _ => false end) && (observe =? 0) && negb (e_HasOption m Observe) &&
  bool_decide (e_token m = e_token (r_req s)) && (Created <=? e_code m) && q2StartsRepresentation m.

Definition partialLifetime m : Z :=
  let maxAge := match e_GetOptionUint32 m MaxAge with (v, None) => v | (_, Some _) => 60 end in
  Z.min (NonPartialTimeout config) (if maxAge =? 0 then NonPartialTimeout config else maxAge * Second).

Definition newRepresentation s (now : Z) m (szx size : Z) (etag : list byte) : q2BodyReceiver * option error :=
  match NewAssembly szx size q1DefaultMaxBodySize q1MaxTrackedBlocks with
  | Err e => (s, Some e)
  | Ok assembly =>
      let '(sequence, present, time) :=
        match e_GetOptionUint32 m Observe with
        | (v, None) => (v, true, now)
        | (_, Some _) => (r_observeSequence s, false, r_observeTime s)
        end in
      (mkQ2 (r_req s) (r_exchange s) szx (r_maxSZX s) (Some assembly) etag (r_continued s)
         (now + partialLifetime m) (r_retries s) (r_requestedSet s) (r_retainedBytes s)
         (r_sentRequests s) sequence present time (r_bodyType s) false (r_terminal s) (e_code m), None)
  end.

Definition representationChanged s (code size : Z) (etag : list byte) : bool :=
  match r_assembly s with
  | None => false
  | Some a => negb (bool_decide (r_etag s = etag)) || negb (size =? a_bodySize a) || negb (code =? r_representationCode s)
  end.

Definition skipAfterTerminal s m (changed : bool) : bool :=
  r_terminal s && (e_HasOption m Observe || (changed && negb (registrationTerminal s m))).

Definition isNewerSequence s (now sequence : Z) (err : option error) : bool :=
  r_observePresent s && (match err with None => true | Some _ => false end) && negb (sequence =? r_observeSequence s) &&
  ValidSequenceNumber (r_observeSequence s) sequence (r_observeTime s) now.

(** The result [Ok true] means that the response is skipped. *)
Definition representation s bu (now : Z) m (szx : Z) : q2BodyReceiver * Budget * result bool :=
  match q2RepresentationIdentity m with
  | Err e => (s, bu, Err e)
  | Ok (size, etag) =>
      let '(sequence, sequenceErr) := e_GetOptionUint32 m Observe in
      let changed := representationChanged s (e_code m) size etag in
      if skipAfterTerminal s m changed then (s, bu, Ok true) else
      let terminal := registrationTerminal s m in
      let newer := (match sequenceErr with None => true | Some _ => false end) &&
                   ValidSequenceNumber (r_observeSequence s) sequence (r_observeTime s) now in
      if changed && r_observePresent s && negb newer && negb terminal then (s, bu, Ok true) else
      let '(s, bu) :=
        if changed && r_observePresent s
        then (r_with_progress (r_with_body s None 0) 0 0 (-1), qReleaseBytes bu (r_retainedBytes s))
        else (s, bu) in
      match r_assembly s with
      | None =>
          let s := r_with_observe s terminal (r_observePresent s) (r_observeSequence s) (r_observeTime s) in
          let '(s, err) := newRepresentation s now m szx size etag in
          (s, bu, match err with Some e => Err e | None => Ok false end)
      | Some _ =>
          if changed || negb (szx =? r_szx s) then (s, bu, Err ErrQBlockConflict) else
          let s := if terminal then r_with_observe s true false (r_observeSequence s) (r_observeTime s) else s in
          let s := if isNewerSequence s now sequence sequenceErr
                   then r_with_observe s (r_terminal s) (r_observePresent s) sequence now else s in
          (s, bu, Ok false)
      end
  end.

(** ** Payloads *)

Definition r_add s bu (a : Assembly) m (num : Z) (more : bool) : q2BodyReceiver * Budget * result (bool * bool) :=
  let payload := readQBody m in
  let '(bu, ok) := qReserveBytes bu (zlen payload) in
  if negb ok then (s, bu, Err ErrQBlockTooLarge) else
  let '(a, (complete, duplicate, err)) := Assembly_Add a num more payload in
  if duplicate || (match err with Some _ => true | None => false end)
  then (r_with_body s (Some a) (r_retainedBytes s), qReleaseBytes bu (zlen payload),
        match err with Some e => Err e | None => Ok (complete, duplicate) end)
  else (r_with_body s (Some a) (r_retainedBytes s + zlen payload), bu, Ok (complete, duplicate)).

Definition r_advance s (a : Assembly) (num : Z) : q2BodyReceiver * option error :=
  let M := MaxPayloads config in
  let next := (FirstMissing a).1 in
  let resume := (0 <=? r_requestedSet s) && (r_requestedSet s <? Z.quot next M) in
  let s := if resume then r_with_progress s (r_continued s) 0 (-1) else s in
  if ((e_type (r_req s) =? NonConfirmable) || resume) && (Z.rem next M =? 0) && (r_continued s <? next)
  then r_send (r_with_progress s next (r_retries s) (r_requestedSet s)) [next] true
  else if (Z.quot next M <? Z.quot num M) && negb (r_requestedSet s =? Z.quot next M)
  then r_send (r_with_progress s (r_continued s) (r_retries s) (Z.quot next M)) (qMissingSet (missingSet a M) M) false
  else (s, None).

Definition acceptBodyType s m : q2BodyReceiver * option error :=
  let mode := if e_type m =? Acknowledgement then Confirmable else e_type m in
  if (negb (mode =? Confirmable) && negb (mode =? NonConfirmable)) || (r_bodyTypeSet s && negb (mode =? r_bodyType s))
  then (s, Some ErrInvalidOptionBlock2)
  else (r_with_type s (e_SetType (r_req s) mode) mode, None).

Definition accept s bu (now : Z) m : q2BodyReceiver * Budget * result bool :=
  let '(observe, observeErr) := e_GetOptionUint32 (r_req s) Observe in
  if (match observeErr with None => true | Some _ => false end) && (observe =? 1) && e_HasOption m Observe then (s, bu, Ok false) else
  if negb (validQ2Response m) then (s, bu, Err ErrInvalidOptionBlock2) else
  let '(value, optionErr) := e_GetOptionUint32 m QBlock2 in
  let '(szx, num, more, err) := DecodeQBlockOption value in
  if (match optionErr with Some _ => true | None => false end) || (match err with Some _ => true | None => false end) || (r_maxSZX s <? szx)
  then (s, bu, Err ErrInvalidOptionBlock2) else
  let '(s, bu, r) := representation s bu now m szx in
  match r with
  | Err e => (s, bu, Err e)
  | Ok true => (s, bu, Ok false)
  | Ok false =>
      let '(s, err) := acceptBodyType s m in
      match err with
      | Some e => (s, bu, Err e)
      | None =>
          match r_assembly s with
          | None => (s, bu, Err ErrQBlockIncomplete)
          | Some a =>
              let '(s, bu, r) := r_add s bu a m num more in
              match r with
              | Err e => (s, bu, Err e)
              | Ok (complete, duplicate) =>
                  if complete || duplicate then (s, bu, Ok complete) else
                  let '(s, err) := r_advance s (default a (r_assembly s)) num in
                  (s, bu, match err with Some e => Err e | None => Ok false end)
              end
          end
      end
  end.

Definition finish s m : result EMsg :=
  match r_assembly s with
  | None => Err ErrQBlockIncomplete
  | Some a =>
      match Assembly_ReadSeeker a with
      | Err e => Err e
      | Ok body =>
          let m := e_SetBody (e_Remove (e_Remove m QBlock2) Size2) (Some (sparse_content body)) in
          let m := e_SetToken m (e_token (r_req s)) in
          Ok (if r_observePresent s then e_SetOptionUint32 m Observe (r_observeSequence s) else m)
      end
  end.

Definition unblocked s m : result EMsg :=
  if registrationTerminal s m || ((BadRequest <=? e_code m) && negb (e_code m =? BadOption))
  then Ok (e_SetToken m (e_token (r_req s)))
  else match r_assembly s with None => Err ErrQBlockUnsupported | Some _ => Err ErrInvalidOptionBlock2 end.

(** ** The loop *)

(** The deferred release. *)
Definition release_all s bu : Budget := qReleaseBytes (qReleaseTransfer bu) (r_retainedBytes s).

(** One pass over the loop; [Some] ends it. *)
Definition receive_step s bu (rx : reception) : q2BodyReceiver * Budget * option (result EMsg) :=
  match rx_result rx with
  | Err e =>
      let '(s, err) := recover s (rx_now rx) (rx_ctx rx) e in
      (s, bu, match err with Some e => Some (Err e) | None => None end)
  | Ok m =>
      if negb (e_HasOption m QBlock2) then (s, bu, Some (unblocked s m)) else
      let '(s, bu, r) := accept s bu (rx_now rx) m in
      (s, bu, match r with
              | Err e => Some (Err e)
              | Ok true => Some (finish s m)
              | Ok false => None
              end)
  end.

(** [receiveQBlockResponse] gives a response the context of the request. *)
Definition received s (rx : reception) : reception :=
  mkReception (rx_now rx)
    (match rx_result rx with Ok m => Ok (e_SetContext m (e_deadline (r_req s))) | Err e => Err e end) (rx_ctx rx).

Fixpoint receive_loop s bu (rxs : list reception) : q2BodyReceiver * Budget * option (result EMsg) :=
  match rxs with
  | [] => (s, bu, None)
  | rx :: rxs =>
      let '(s, bu, r) := receive_step s bu (received s rx) in
      match r with
      | Some r => (s, release_all s bu, Some r)
      | None => receive_loop s bu rxs
      end
  end.

(** [initial] is the first response, with the time at which it is looked at. *)
Definition ReceiveQBlock2 bu (req : EMsg) (szx : Z) (exchange : X) (initial : option (EMsg * Z)) (rxs : list reception)
    : q2BodyReceiver * Budget * option (result EMsg) :=
  let s := mkQ2 req exchange szx szx None [] 0 zeroTime 0 (-1) 0 (match initial with Some _ => 1 | None => 0 end) 0 false zeroTime
             Confirmable false false 0 in
  let '(bu, ok) := qReserveTransfer bu in
  if negb ok then (s, bu, Some (Err ErrQBlockTooLarge)) else
  match initial with
  | Some (m, now) =>
      let '(s, bu, r) := receive_step s bu (mkReception now (Ok m) None) in
      match r with
      | Some r => (s, release_all s bu, Some r)
      | None => receive_loop s bu rxs
      end
  | None =>
      let '(s, err) := r_send s [0] true in
      match err with
      | Some e => (s, release_all s bu, Some (Err e))
      | None => receive_loop s bu rxs
      end
  end.

(** [tag] is what [message.GetToken] yields. *)
Definition DoQBlock2 bu (req : EMsg) (szx : Z) (opened : result X) (tag : result (list byte)) (rxs : list reception)
    : option X * Budget * option (result EMsg) :=
  match opened with
  | Err e => (None, bu, Some (Err e))
  | Ok exchange =>
      let tagged :=
        if e_HasOption req RequestTag then Ok req else
        match tag with
        | Err e => Err e
        | Ok t => let '(request, err) := e_SetRequestTag (CloneMessage req) t in
                  match err with Some e => Err e | None => Ok request end
        end in
      match tagged with
      | Err e => (Some (ExClose exchange), bu, Some (Err e))
      | Ok req => let '(s, bu, r) := ReceiveQBlock2 bu req szx exchange None rxs in (Some (ExClose (r_exchange s)), bu, r)
      end
  end.
End QReceive.

Arguments q2BodyReceiver : clear implicits.
