(* ===== verification/QDownload.v ===== *)
(** * Q-Block2 bodies from the server's table to the client's response

    [q2_receive_neutral]: whatever a receiver is sent, it gives back what it has reserved.
    [qblock2_download]: the blocks that the server cuts from a retained representation make
    up that representation again at the receiver. *)
From stdpp Require Import prelude list strings gmap.
From Stdlib Require Import ZArith Lia.
From S2P Require Import TcpConn KeepAlive Prelude Cast Codes OptionCodec Options Message PoolMessage BlockCodec Assembly.
From S2P Require Import Observation EngineMessage ResponseWriter ExchangeKey Blockwise QBudget QEngine QServe QReceive.
#[local] Open Scope Z_scope.

(** ** The budget *)

Section Neutral.
Context {X : Type} `{!QExchange X} (config : Config).
Implicit Types (s : q2BodyReceiver X) (bu : Budget).
Ltac budget_fields := cbn [engineBytes engineTransfers processBytes processTransfers].

(** Beyond [bu0], a slot and the retained bytes are reserved. *)
Definition held (bu0 : Budget) s bu : Prop :=
  bu = mkBudget (engineBytes bu0 + r_retainedBytes s) (engineTransfers bu0 + 1)
         (processBytes bu0 + r_retainedBytes s) (processTransfers bu0 + 1).

Lemma qReserveBytes_cases bu n bu' ok :
  qReserveBytes bu n = (bu', ok) ->
  if ok then bu' = mkBudget (engineBytes bu + n) (engineTransfers bu) (processBytes bu + n) (processTransfers bu) /\
             engineBytes bu' <= qEngineMaxBytes /\ processBytes bu' <= qProcessMaxBytes
  else bu' = bu.
Proof.
  unfold qReserveBytes, qReserve. intros E. repeat (case_match; simplify_eq); cbn; try (split; [done|lia]); try done.
  destruct bu. cbn. f_equal. lia.
Qed.

Lemma qReserveTransfer_cases bu bu' ok :
  qReserveTransfer bu = (bu', ok) ->
  if ok then bu' = mkBudget (engineBytes bu) (engineTransfers bu + 1) (processBytes bu) (processTransfers bu + 1) else bu' = bu.
Proof.
  unfold qReserveTransfer, qReserve. intros E. repeat (case_match; simplify_eq); try done. destruct bu. cbn. f_equal. lia.
Qed.

Lemma release_held bu0 s bu : held bu0 s bu -> release_all s bu = bu0.
Proof. intros ->. unfold release_all, qReleaseBytes, qReleaseTransfer. destruct bu0. budget_fields. f_equal; lia. Qed.

(** Sending and the bookkeeping of representations do not change what is retained. *)
Lemma r_send_retained s nums more s' e : r_send s nums more = (s', e) -> r_retainedBytes s' = r_retainedBytes s.
Proof. unfold r_send. intros E. repeat (case_match; simplify_eq); done. Qed.

Lemma recover_retained s now c e0 s' e : recover config s now c e0 = (s', e) -> r_retainedBytes s' = r_retainedBytes s.
Proof. unfold recover. intros E. repeat (case_match; simplify_eq); try done; by apply r_send_retained in E. Qed.

Lemma r_advance_retained s a num s' e : r_advance config s a num = (s', e) -> r_retainedBytes s' = r_retainedBytes s.
Proof.
  unfold r_advance. cbv zeta. intros E. set (resume := (0 <=? r_requestedSet s) && _) in E.
  set (s1 := if resume then r_with_progress s (r_continued s) 0 (-1) else s) in E.
  assert (r_retainedBytes s1 = r_retainedBytes s) as <- by (subst s1; by destruct resume). clearbody s1.
  case_match; [by apply r_send_retained in E|]. case_match; [by apply r_send_retained in E|]. by injection E as <- _.
Qed.

Lemma newRepresentation_retained s now m szx size etag s' e :
  newRepresentation config s now m szx size etag = (s', e) -> r_retainedBytes s' = r_retainedBytes s.
Proof. unfold newRepresentation. intros E. repeat (case_match; simplify_eq); done. Qed.

Lemma acceptBodyType_retained s m s' e : acceptBodyType s m = (s', e) -> r_retainedBytes s' = r_retainedBytes s.
Proof. unfold acceptBodyType. intros E. destruct (_ || _); by injection E as <- _. Qed.

Lemma held_same bu0 s s' bu : r_retainedBytes s' = r_retainedBytes s -> held bu0 s bu -> held bu0 s' bu.
Proof. unfold held. by intros ->. Qed.

Lemma representation_held bu0 s bu now m szx s' bu' r :
  representation config s bu now m szx = (s', bu', r) -> held bu0 s bu -> held bu0 s' bu'.
Proof.
  unfold representation. intros E H. destruct (q2RepresentationIdentity m) as [[size etag]|]; [|by simplify_eq].
  destruct (e_GetOptionUint32 m Observe) as [sequence sequenceErr]. set (changed := representationChanged _ _ _ _) in E.
  case_match; [by simplify_eq|]. case_match; [by simplify_eq|].
  match type of E with context [let '(_, _) := ?u in _] => set (u1 := u) in E end.
  assert (held bu0 u1.1 u1.2) as Hu.
  { subst u1. destruct (changed && r_observePresent s); [|done]. rewrite H. unfold held, qReleaseBytes. cbn [fst snd r_retainedBytes r_with_progress r_with_body].
    budget_fields. f_equal; lia. }
  destruct u1 as [s1 bu1]. cbn [fst snd] in *. destruct (r_assembly s1).
  - case_match; [by simplify_eq|]. injection E as <- <- <-. revert Hu. apply held_same. destruct (isNewerSequence _ _ _ _); by destruct (registrationTerminal _ _).
  - destruct (newRepresentation _ _ _ _ _ _ _) as [s2 e] eqn:En. apply newRepresentation_retained in En.
    injection E as <- <- <-. by apply (held_same _ s1).
Qed.

Lemma r_add_held bu0 s bu a m num more s' bu' r :
  r_add s bu a m num more = (s', bu', r) -> held bu0 s bu -> held bu0 s' bu'.
Proof.
  unfold r_add. intros E H. destruct (qReserveBytes bu (zlen (readQBody m))) as [bu1 ok] eqn:Er. apply qReserveBytes_cases in Er.
  destruct ok; cbn [negb] in E; [|by simplify_eq]. destruct Er as [-> _].
  destruct (Assembly_Add a num more (readQBody m)) as [a' [[complete duplicate] err]].
  case_match; injection E as <- <- <-; rewrite H; unfold held, qReleaseBytes;
    cbn [r_retainedBytes r_with_body]; budget_fields; f_equal; lia.
Qed.

Lemma accept_held bu0 s bu now m s' bu' r : accept config s bu now m = (s', bu', r) -> held bu0 s bu -> held bu0 s' bu'.
Proof.
  unfold accept. intros E H. destruct (e_GetOptionUint32 (r_req s) Observe) as [observe oe]. case_match; [by simplify_eq|].
  case_match; [by simplify_eq|]. destruct (e_GetOptionUint32 m QBlock2) as [value ve].
  destruct (DecodeQBlockOption value) as [[[szx num] more] de]. case_match; [by simplify_eq|].
  destruct (representation config s bu now m szx) as [[s1 bu1] r1] eqn:E1. apply (representation_held bu0) in E1; [|done].
  destruct r1 as [[|]|]; [by simplify_eq| |by simplify_eq]. destruct (acceptBodyType s1 m) as [s2 e2] eqn:E2.
  apply acceptBodyType_retained in E2. assert (held bu0 s2 bu1) as Hs2 by by apply (held_same _ s1).
  destruct e2; [by simplify_eq|]. destruct (r_assembly s2) as [a|]; [|by simplify_eq].
  destruct (r_add s2 bu1 a m num more) as [[s3 bu3] r3] eqn:E3. apply (r_add_held bu0) in E3; [|done].
  destruct r3 as [[complete dup]|]; [|by simplify_eq]. case_match; [by simplify_eq|].
  destruct (r_advance config s3 _ num) as [s4 e4] eqn:E4. apply r_advance_retained in E4. injection E as <- <- <-.
  by apply (held_same _ s3).
Qed.

Lemma receive_step_held bu0 s bu rx s' bu' r : receive_step config s bu rx = (s', bu', r) -> held bu0 s bu -> held bu0 s' bu'.
Proof.
  unfold receive_step. intros E H. destruct (rx_result rx) as [m|e].
  - case_match; [by simplify_eq|]. destruct (accept _ _ _ _ _) as [[s1 bu1] r1] eqn:E1. apply (accept_held bu0) in E1; [|done].
    by injection E as <- <- <-.
  - destruct (recover _ _ _ _ _) as [s1 e1] eqn:E1. apply recover_retained in E1. injection E as <- <- <-. by apply (held_same _ s).
Qed.

Definition settled (bu0 : Budget) s bu (r : option (result EMsg)) : Prop :=
  match r with Some _ => bu = bu0 | None => held bu0 s bu end.

Lemma receive_loop_settled bu0 rxs : forall s bu s' bu' r,
  receive_loop config s bu rxs = (s', bu', r) -> held bu0 s bu -> settled bu0 s' bu' r.
Proof.
  induction rxs as [|rx rxs IH]; intros s bu s' bu' r E H; [by injection E as <- <- <-|]. cbn [receive_loop] in E.
  destruct (receive_step _ _ _ _) as [[s1 bu1] r1] eqn:E1. apply (receive_step_held bu0) in E1; [|done].
  destruct r1; [injection E as <- <- <-; by apply release_held|by eapply IH].
Qed.

Lemma ReceiveQBlock2_settled bu0 req szx exchange initial rxs s bu r :
  ReceiveQBlock2 config bu0 req szx exchange initial rxs = (s, bu, r) -> settled bu0 s bu r.
Proof.
  unfold ReceiveQBlock2. set (s0 := mkQ2 _ _ _ _ _ _ _ _ _ _ _ _ _ _ _ _ _ _ _). intros E.
  destruct (qReserveTransfer bu0) as [bu1 ok] eqn:Er. apply qReserveTransfer_cases in Er. destruct ok; cbn [negb] in E; [|by simplify_eq].
  assert (held bu0 s0 bu1) as H0 by (rewrite Er; unfold held; cbn; f_equal; lia).
  destruct initial as [[m now]|].
  - destruct (receive_step _ _ _ _) as [[s1 bu2] r1] eqn:E1. apply (receive_step_held bu0) in E1; [|done].
    destruct r1; [injection E as <- <- <-; by apply release_held|by eapply receive_loop_settled].
  - destruct (r_send s0 [0] true) as [s1 e1] eqn:E1. apply r_send_retained in E1.
    assert (held bu0 s1 bu1) as H1 by by apply (held_same _ s0).
    destruct e1; [injection E as <- <- <-; by apply release_held|by eapply receive_loop_settled].
Qed.

(** Receiving a body with Q-Block2 leaves no trace in the budget: whatever the peer
    sends and however the reception ends (with the body, a refusal, a conflict, a timeout
    or an error of the connection), the bytes and the slot that were reserved for it are
    given back; while it goes on, exactly the bytes it retains and one slot are charged. *)
Theorem q2_receive_neutral (bu0 : Budget) (req : EMsg) (szx : Z) (exchange : X) (initial : option (EMsg * Z)) (rxs : list reception) :
  let '(s, bu, r) := ReceiveQBlock2 config bu0 req szx exchange initial rxs in
  match r with Some _ => bu = bu0 | None => held bu0 s bu end.
Proof. destruct (ReceiveQBlock2 _ _ _ _ _ _ _) as [[s bu] r] eqn:E. by apply ReceiveQBlock2_settled in E. Qed.
End Neutral.

(** ** Options *)

Lemma optionCount_vals m id : optionCount m id = zlen (vals (e_options m) id).
Proof. unfold optionCount, vals, zlen. by rewrite length_fmap. Qed.

Lemma DecodeQBlockOption_packed szx num more :
  0 <= szx <= 6 -> 0 <= num <= maxQBlockNumber -> DecodeQBlockOption (packed szx num more) = (szx, num, more, None).
Proof.
  intros Hs Hn. unfold DecodeQBlockOption, maxBlockValue, szxMask, moreBlocksFollowingMask, SZX1024, maxQBlockNumber in *.
  assert (0 <= packed szx num more <= 16777215) by (unfold packed; destruct more; lia).
  destruct (Z.ltb_spec 16777215 (packed szx num more)); [lia|]. destruct (packed_fields szx num more) as (-> & -> & ->); [lia..|].
  rewrite uint8_id by (unfold is_byte; lia). by destruct (Z.ltb_spec 6 szx); [lia|].
Qed.

Lemma HasOption_false_Get m id : e_HasOption m id = false -> exists e, e_GetOptionUint32 m id = (0, Some e).
Proof. unfold e_HasOption, e_GetOptionUint32, HasOption, GetUint32. destruct (Find _ _) as [[? ?] [e|]]; [by exists e|done]. Qed.

(** An exchange that always has another token and always sends. *)
Class ReliableExchange (X : Type) `{!QExchange X} : Prop := {
  reliable_token : forall x : X, exists x' t, NewToken x = (x', Ok t);
  reliable_send : forall (x : X) m, exists x', ExSend x m = (x', None)
}.

Section Receiver.
Context {X : Type} `{!QExchange X} `{!ReliableExchange X} (config : Config).
(** The representation, how it is cut, the token and the time until which it is kept. *)
Context (body etag token : list byte) (szx code mode t0 life : Z).
Implicit Types (s : q2BodyReceiver X) (bu : Budget) (m : EMsg).
Let bs := SZX_Size szx.
Let count := block_count bs (zlen body).

(** Response [m] carries block [k] of the representation. *)
Record rep_block m (k : Z) : Prop := {
  rb_valid : validQ2Response m = true;
  rb_option : exists v, e_GetOptionUint32 m QBlock2 = (v, None) /\ DecodeQBlockOption v = (szx, k, k * bs + bs <? zlen body, None);
  rb_identity : q2RepresentationIdentity m = Ok (zlen body, etag);
  rb_code : e_code m = code;
  rb_mode : (if e_type m =? Acknowledgement then Confirmable else e_type m) = mode;
  rb_observe : e_HasOption m Observe = false;
  rb_life : life <= partialLifetime config m;
  rb_body : readQBody m = block_of body bs k;
  rb_num : 0 <= k < count
}.

Context (Hszx : 0 <= szx <= 6) (Hmode : mode = Confirmable \/ mode = NonConfirmable).
Context (Hassembly : exists a, NewAssembly szx (zlen body) q1DefaultMaxBodySize q1MaxTrackedBlocks = Ok a).
Context (Hpayloads : 0 < MaxPayloads config).

(** The receiver has exactly the blocks [seen]. *)
Record rcv (seen : list Z) s bu : Prop := {
  rv_req : e_HasOption (r_req s) Observe = false /\ e_token (r_req s) = token;
  rv_max : szx <= r_maxSZX s;
  rv_quiet : r_terminal s = false /\ r_observePresent s = false;
  rv_room : engineBytes bu + (zlen body - r_retainedBytes s) + bs <= qEngineMaxBytes /\
    processBytes bu + (zlen body - r_retainedBytes s) + bs <= qProcessMaxBytes;
  rv_szx : 0 <= r_szx s <= 6;
  rv_body : match r_assembly s with
            | None => seen = [] /\ r_retainedBytes s = 0 /\ r_partialExpires s = zeroTime
            | Some a => partial_body body szx seen a /\ r_szx s = szx /\ r_etag s = etag /\ r_representationCode s = code /\
                (r_bodyTypeSet s = true -> r_bodyType s = mode) /\ r_retainedBytes s = a_receivedSize a /\
                t0 + life <= r_partialExpires s
            end
}.

(** What the other steps do not touch. *)
Lemma rcv_send seen s bu x n : rcv seen s bu -> rcv seen (r_with_send s x n) bu.
Proof. by intros []. Qed.
Lemma rcv_progress seen s bu a b c : rcv seen s bu -> rcv seen (r_with_progress s a b c) bu.
Proof. by intros []. Qed.

Lemma add_nums_ok nums more : forall z part, 0 <= z <= 6 -> Forall (fun k => 0 <= k <= maxQBlockNumber) nums ->
  exists part', add_nums z more nums part = Ok part'.
Proof.
  induction nums as [|k nums IH]; intros z part Hz Hn; [by eexists|]. apply Forall_cons in Hn as [Hk Hn].
  cbn [add_nums]. rewrite EncodeQBlockOption_packed by done. by apply IH.
Qed.

Lemma r_send_ok s nums more : 0 <= r_szx s <= 6 -> Forall (fun k => 0 <= k <= maxQBlockNumber) nums ->
  exists x n, r_send s nums more = (r_with_send s x n, None).
Proof.
  intros Hz Hn. unfold r_send. destruct (0 <? r_sentRequests s).
  - destruct (reliable_token (r_exchange s)) as (x & t & ->).
    edestruct (add_nums_ok nums more) as [part' Hp]; [exact Hz|exact Hn|]. cbn [r_szx r_with_send]. rewrite Hp.
    destruct (reliable_send x part') as [x' E]. cbn [r_exchange r_with_send]. rewrite E. by eexists _, _.
  - edestruct (add_nums_ok nums more) as [part' Hp]; [exact Hz|exact Hn|]. cbn [r_szx r_with_send]. rewrite Hp.
    destruct (reliable_send (r_exchange s) part') as [x' E]. cbn [r_exchange r_with_send]. rewrite E. by eexists _, _.
Qed.

(** The missing blocks that are asked for. *)
Lemma qMissingSet_Forall (P : Z -> Prop) missing M : Forall P missing -> Forall P (qMissingSet missing M).
Proof.
  intros H. destruct missing as [|first missing]; [done|]. unfold qMissingSet. generalize (Z.quot first M). intros z.
  induction H as [|k l Hk Hl IH]; cbn; [done|]. case_match; [done|]. by constructor.
Qed.

Lemma first_missing seen a :
  partial_body body szx seen a -> completeLocked a = false -> 0 <= a_firstMissing a < count.
Proof.
  intros H Hc. destruct (partial_count _ _ _ _ H) as [Eb Ec]. fold bs count in Ec. pose proof (pa_ok _ _ _ _ H) as Hok.
  destruct (ok_first _ Hok) as ([Hr1 Hr2] & Hall & Hn). split; [done|].
  destruct (Z.lt_ge_cases (a_firstMissing a) count) as [|Hge]; [done|]. exfalso.
  assert (completeLocked a = true); [|congruence]. apply complete_iff; [done|]. intros k Hk. apply Hall. lia.
Qed.

Lemma missing_requested seen a :
  partial_body body szx seen a -> completeLocked a = false ->
  exists first l, qMissingSet (missingSet a (MaxPayloads config)) (MaxPayloads config) = first :: l /\
    Forall (fun k => 0 <= k < count) (first :: l).
Proof.
  intros H Hc. destruct (first_missing _ _ H Hc) as [Hf1 Hf2]. destruct (partial_count _ _ _ _ H) as [Eb Ec]. fold bs in Eb. fold bs count in Ec.
  pose proof (SZX_Size_bounds szx Hszx) as Hbs. fold bs in Hbs. pose proof (zlen_nonneg body).
  set (first := a_firstMissing a) in *. set (M := MaxPayloads config) in *.
  assert (exists l, missingSet a M = first :: l /\ Forall (fun k => 0 <= k < count) (first :: l)) as (l & E & Hl).
  { unfold missingSet. fold (a_bs a) first. rewrite Eb, (pa_size _ _ _ _ H).
    destruct (quot_count (zlen body) bs ltac:(lia) ltac:(lia)) as [_ ->]. fold count. unfold setLast, missing_from.
    assert (first < (Z.quot first M + 1) * M) by (rewrite Z.quot_div_nonneg by lia; pose proof (Z.mul_succ_div_gt first M ltac:(lia)); lia).
    set (n := Z.min _ count - 1 + 1 - first). assert (0 < n) by lia. rewrite (seqZ_cons first n) by lia.
    rewrite filter_cons, decide_True by (apply (ok_first _ (pa_ok _ _ _ _ H))). eexists. split; [done|].
    constructor; [lia|]. apply Forall_forall. intros k Hk. apply list_elem_of_filter in Hk as [_ Hk%elem_of_seqZ]. lia. }
  rewrite E. exists first. assert (exists l', qMissingSet (first :: l) M = first :: l') as [l' E'].
  { cbn. rewrite Z.eqb_refl. by eexists. }
  exists l'. split; [done|]. rewrite <- E'. by apply qMissingSet_Forall.
Qed.

Lemma count_numbers k : 0 <= k < count -> 0 <= k <= maxQBlockNumber.
Proof.
  destruct Hassembly as [a Ha]. apply NewAssembly_ok in Ha as (Hok & Es & Eb & _ & _); [|lia].
  destruct (ok_params _ Hok) as [_ _ [_ Hn]]. unfold a_count, a_bs in Hn. rewrite Es, Eb in Hn. fold bs count in Hn.
  unfold qBlockMaxNUM, maxQBlockNumber in *. lia.
Qed.

Lemma recover_ok seen s bu now e :
  rcv seen s bu -> all_seen count seen = false -> now < t0 + life -> e <> ErrContext -> r_retries s < NonMaxRetransmit config ->
  exists s', recover config s now None e = (s', None) /\ rcv seen s' bu /\ r_retries s' = r_retries s + 1.
Proof.
  intros H Hinc Hnow He Hr. unfold recover. rewrite bool_decide_false by done. pose proof (rv_body _ _ _ H) as Hb.
  assert (negb (r_partialExpires s =? zeroTime) && (r_partialExpires s <=? now) = false) as ->.
  { destruct (r_assembly s); [|destruct Hb as (_ & _ & ->); by rewrite Z.eqb_refl].
    destruct Hb as (_ & _ & _ & _ & _ & _ & Hexp). destruct (Z.leb_spec (r_partialExpires s) now); [lia|]. apply andb_false_r. }
  destruct (Z.leb_spec (NonMaxRetransmit config) (r_retries s)); [lia|].
  set (s1 := r_with_progress s _ _ _). assert (rcv seen s1 bu) as H1 by by apply rcv_progress.
  change (r_assembly s1) with (r_assembly s). destruct (r_assembly s) as [a|].
  - destruct Hb as (Hpb & _). destruct (missing_requested seen a Hpb) as (first & l & -> & Hl).
    { rewrite (partial_complete _ _ _ _ Hpb). exact Hinc. }
    edestruct (r_send_ok (r_with_progress s1 (r_continued s1) (r_retries s1) (Z.quot first (MaxPayloads config))) (first :: l) false)
      as (x & n & ->); [apply H|eapply Forall_impl; [exact Hl|apply count_numbers]|].
    eexists. split; [done|]. split; [by apply rcv_send, rcv_progress|done].
  - edestruct (r_send_ok s1 [0] true) as (x & n & ->); [apply H|repeat constructor; unfold maxQBlockNumber; lia|].
    eexists. split; [done|]. split; [by apply rcv_send|done].
Qed.

Lemma advance_ok seen s bu a k :
  rcv seen s bu -> r_assembly s = Some a -> all_seen count seen = false -> 0 <= r_retries s ->
  exists s', r_advance config s a k = (s', None) /\ rcv seen s' bu /\ 0 <= r_retries s' <= r_retries s.
Proof.
  intros H Ea Hinc Hr. pose proof (rv_body _ _ _ H) as Hb. rewrite Ea in Hb. destruct Hb as (Hpb & _).
  assert (completeLocked a = false) as Hc by (rewrite (partial_complete _ _ _ _ Hpb); exact Hinc).
  pose proof (first_missing _ _ Hpb Hc) as Hf. destruct (missing_requested _ _ Hpb Hc) as (first & l & El & Hl).
  unfold r_advance. cbv zeta. cbn [FirstMissing fst]. set (resume := (0 <=? r_requestedSet s) && _).
  set (s1 := if resume then _ else s). assert (rcv seen s1 bu /\ 0 <= r_retries s1 <= r_retries s) as [H1 Hr1].
  { subst s1. destruct resume; [split; [by apply rcv_progress|cbn; lia]|done]. }
  clearbody s1. case_match.
  - edestruct (r_send_ok (r_with_progress s1 (a_firstMissing a) (r_retries s1) (r_requestedSet s1)) [a_firstMissing a] true)
      as (x & n & ->); [apply H1|repeat constructor; by apply count_numbers|].
    eexists. split; [done|]. split; [by apply rcv_send, rcv_progress|done].
  - case_match; [|by eexists]. rewrite El.
    edestruct (r_send_ok (r_with_progress s1 (r_continued s1) (r_retries s1) (Z.quot (a_firstMissing a) (MaxPayloads config))) (first :: l) false)
      as (x & n & ->); [apply H1|eapply Forall_impl; [exact Hl|apply count_numbers]|].
    eexists. split; [done|]. split; [by apply rcv_send, rcv_progress|done].
Qed.

Lemma representation_ok seen s bu now m k :
  rcv seen s bu -> rep_block m k -> t0 <= now ->
  exists s' a, representation config s bu now m szx = (s', bu, Ok false) /\ rcv seen s' bu /\ r_assembly s' = Some a /\
    r_retries s' = r_retries s.
Proof.
  intros H Hm Hnow. destruct (HasOption_false_Get m Observe (rb_observe _ _ Hm)) as [eo Eo].
  destruct (HasOption_false_Get (r_req s) Observe (proj1 (rv_req _ _ _ H))) as [er Er].
  destruct (rv_quiet _ _ _ H) as [Ht Hp]. pose proof (rv_body _ _ _ H) as Hb.
  unfold representation. rewrite (rb_identity _ _ Hm), Eo. cbn [fst snd].
  assert (representationChanged s (e_code m) (zlen body) etag = false) as ->.
  { unfold representationChanged. destruct (r_assembly s) as [a|]; [|done]. destruct Hb as (Hpb & _ & -> & -> & _).
    by rewrite bool_decide_true, (pa_size _ _ _ _ Hpb), (rb_code _ _ Hm), !Z.eqb_refl by done. }
  unfold skipAfterTerminal. rewrite Ht. cbn [andb].
  assert (registrationTerminal s m = false) as -> by (unfold registrationTerminal; by rewrite Er).
  destruct (r_assembly s) as [a|] eqn:Ea.
  - destruct Hb as (Hpb & Es & _). rewrite Es, Z.eqb_refl. cbn [orb negb]. unfold isNewerSequence. rewrite Hp. cbn [andb].
    by exists s, a.
  - destruct Hb as (-> & Hret & _). destruct Hassembly as [a Ha]. unfold newRepresentation. rewrite Ha, Eo.
    eexists _, a. split; [done|]. apply partial_new in Ha as [Hpb Hrec]; [|lia].
    split; [|done]. pose proof (rb_life _ _ Hm). destruct H. split; cbn; try done. split_and!; try done; [apply Hm|lia|lia].
Qed.

Lemma acceptBodyType_ok seen s bu m k a :
  rcv seen s bu -> rep_block m k -> r_assembly s = Some a ->
  exists s', acceptBodyType s m = (s', None) /\ rcv seen s' bu /\ r_assembly s' = Some a /\ r_retries s' = r_retries s.
Proof.
  intros H Hm Ea. pose proof (rv_body _ _ _ H) as Hb. rewrite Ea in Hb. destruct Hb as (Hpb & Es & Ee & Ec & Ht & Hr & Hexp).
  unfold acceptBodyType. rewrite (rb_mode _ _ Hm).
  assert (negb (mode =? Confirmable) && negb (mode =? NonConfirmable) = false) as -> by (destruct Hmode as [-> | ->]; done).
  assert (r_bodyTypeSet s && negb (mode =? r_bodyType s) = false) as ->.
  { destruct (r_bodyTypeSet s); [|done]. by rewrite Ht, Z.eqb_refl. }
  eexists. split; [done|]. split; [|done]. destruct H as [Q1 Q2 Q3 Q4 Q5 _]. split; cbn; try done. by rewrite Ea.
Qed.

Lemma r_add_ok seen s bu m k a :
  rcv seen s bu -> rep_block m k -> r_assembly s = Some a ->
  exists s' bu' a', r_add s bu a m k (k * bs + bs <? zlen body) = (s', bu', Ok (all_seen count (k :: seen), bool_decide (k ∈ seen))) /\
    rcv (k :: seen) s' bu' /\ r_assembly s' = Some a' /\ r_retries s' = r_retries s.
Proof.
  intros H Hm Ea. pose proof (rv_body _ _ _ H) as Hb. rewrite Ea in Hb. destruct Hb as (Hpb & Es & Ee & Ec & Ht & Hr & Hexp).
  destruct (partial_add body szx seen a k Hpb (rb_num _ _ Hm)) as (a' & Hadd & Hpb' & Hrec). fold bs in Hadd, Hrec.
  pose proof (received_bound a (pa_ok _ _ _ _ Hpb)) as Hrb. rewrite (pa_size _ _ _ _ Hpb) in Hrb.
  pose proof (SZX_Size_bounds szx Hszx) as Hbs. fold bs in Hbs. pose proof (zlen_block_le body bs k ltac:(lia)) as Hlen.
  destruct H as [Q1 Q2 Q3 [Q4 Q4'] Q5 _]. unfold r_add. rewrite (rb_body _ _ Hm). unfold qReserveBytes, qReserve.
  destruct (Z.ltb_spec (zlen (block_of body bs k)) 0); [lia|].
  destruct (Z.ltb_spec (qEngineMaxBytes - engineBytes bu) (zlen (block_of body bs k))); [lia|].
  destruct (Z.ltb_spec (qProcessMaxBytes - processBytes bu) (zlen (block_of body bs k))); [lia|]. cbn [negb].
  rewrite Hadd, (partial_complete _ _ _ _ Hpb'). fold bs count. rewrite orb_false_r.
  destruct (bool_decide (k ∈ seen)); eexists _, _, a'; (split; [done|]); (split; [|done]); split;
    cbn -[qEngineMaxBytes qProcessMaxBytes]; try done; try (split_and!; try done; lia).
Qed.

Lemma accept_ok seen s bu now m k :
  rcv seen s bu -> rep_block m k -> t0 <= now -> 0 <= r_retries s -> all_seen count seen = false ->
  exists s' bu', accept config s bu now m = (s', bu', Ok (all_seen count (k :: seen))) /\ rcv (k :: seen) s' bu' /\
    0 <= r_retries s' <= r_retries s.
Proof.
  intros H Hm Hnow Hret Hinc. destruct (HasOption_false_Get (r_req s) Observe (proj1 (rv_req _ _ _ H))) as [er Er].
  destruct (rb_option _ _ Hm) as (v & Ev & Ed). unfold accept. rewrite Er. cbn [andb]. rewrite (rb_valid _ _ Hm), Ev, Ed. cbn [negb orb].
  destruct (Z.ltb_spec (r_maxSZX s) szx) as [Hlt|]; [pose proof (rv_max _ _ _ H); lia|].
  destruct (representation_ok _ _ _ _ _ _ H Hm Hnow) as (s1 & a & -> & H1 & Ea & Hr1).
  destruct (acceptBodyType_ok _ _ _ _ _ _ H1 Hm Ea) as (s2 & -> & H2 & Ea2 & Hr2). rewrite Ea2.
  destruct (r_add_ok _ _ _ _ _ _ H2 Hm Ea2) as (s3 & bu3 & a3 & -> & H3 & Ea3 & Hr3).
  destruct (all_seen count (k :: seen)) eqn:Eall; [eexists _, _; split; [done|]; split; [done|lia]|]. cbn [orb].
  destruct (bool_decide (k ∈ seen)); [eexists _, _; split; [done|]; split; [done|lia]|]. rewrite Ea3. cbn [default from_option].
  change (id a3) with a3. destruct (advance_ok _ _ _ _ k H3 Ea3 Eall) as (s4 & -> & H4 & Hr4); [lia|].
  eexists _, _. split; [done|]. split; [done|lia].
Qed.

(** The response that the caller gets, made from the last block that arrived. *)
Definition assembled m : EMsg := e_SetToken (e_SetBody (e_Remove (e_Remove m QBlock2) Size2) (Some body)) token.

Lemma finish_ok seen s bu m : rcv seen s bu -> seen <> [] -> all_seen count seen = true -> finish s m = Ok (assembled m).
Proof.
  intros H Hne Hall. pose proof (rv_body _ _ _ H) as Hb. unfold finish. destruct (r_assembly s) as [a|]; [|by destruct Hb].
  destruct Hb as (Hpb & _). assert (completeLocked a = true) as Hc by (rewrite (partial_complete _ _ _ _ Hpb); exact Hall).
  destruct Hpb as [Hok Hag Hsize _ _]. destruct (complete_reader a body Hok Hag Hsize Hc) as (r & -> & _ & -> & _).
  destruct (rv_quiet _ _ _ H) as [_ ->]. by destruct (rv_req _ _ _ H) as [_ ->].
Qed.

(** What the receiver gets: a block, or nothing until its deadline. *)
Inductive q2_event : Type := EvBlock (now : Z) (m : EMsg) (k : Z) | EvTimeout (now : Z) (e : error).

Definition reception_of (ev : q2_event) : reception :=
  match ev with EvBlock now m _ => mkReception now (Ok m) None | EvTimeout now e => mkReception now (Err e) None end.
Definition event_ok (ev : q2_event) : Prop :=
  match ev with EvBlock now m k => t0 <= now /\ rep_block m k | EvTimeout now e => now < t0 + life /\ e <> ErrContext end.
Definition num_of (ev : q2_event) : option Z := match ev with EvBlock _ _ k => Some k | EvTimeout _ _ => None end.
Definition timeouts (evs : list q2_event) : Z := zlen (filter (fun ev => num_of ev = None) evs).

Lemma rep_block_context m k d : rep_block m k -> rep_block (e_SetContext m d) k.
Proof. by intros []. Qed.

Lemma validQ2Response_has m : validQ2Response m = true -> (exists v, e_GetOptionUint32 m QBlock2 = (v, None)) -> e_HasOption m QBlock2 = true.
Proof. intros _ [v E]. destruct (e_HasOption m QBlock2) eqn:Eh; [done|]. apply HasOption_false_Get in Eh as [e Eh]. congruence. Qed.

(** One reception. *)
Lemma step_ok seen s bu ev :
  rcv seen s bu -> event_ok ev -> all_seen count seen = false -> 0 <= r_retries s ->
  r_retries s + timeouts [ev] <= NonMaxRetransmit config ->
  exists s' bu', receive_step config s bu (received s (reception_of ev)) =
    (s', bu', match ev with
              | EvBlock _ m k => if all_seen count (k :: seen) then Some (Ok (assembled (e_SetContext m (e_deadline (r_req s))))) else None
              | EvTimeout _ _ => None
              end) /\
    rcv (match num_of ev with Some k => k :: seen | None => seen end) s' bu' /\ 0 <= r_retries s' <= r_retries s + timeouts [ev].
Proof.
  intros H Hev Hinc Hr Hlim. destruct ev as [now m k|now e]; cbn [reception_of num_of received rx_result rx_now rx_ctx] in *;
    unfold receive_step, received; cbn [rx_result rx_now rx_ctx].
  - destruct Hev as [Hnow Hm]. set (m' := e_SetContext m _). assert (rep_block m' k) as Hm' by by apply rep_block_context.
    rewrite (validQ2Response_has m' (rb_valid _ _ Hm')) by (destruct (rb_option _ _ Hm') as (v & Ev & _); by exists v). cbn [negb].
    destruct (accept_ok _ _ _ _ _ _ H Hm' Hnow Hr Hinc) as (s1 & bu1 & -> & H1 & Hr1).
    exists s1, bu1. change (timeouts [EvBlock now m k]) with 0. split; [|split; [done|lia]].
    destruct (all_seen count (k :: seen)) eqn:Eall; [|done]. by rewrite (finish_ok _ _ _ m' H1).
  - destruct Hev as [Hnow He]. change (timeouts [EvTimeout now e]) with 1 in *.
    destruct (recover_ok _ _ _ now e H Hinc Hnow He) as (s1 & -> & H1 & Hr1); [lia|]. exists s1, bu. split; [done|]. split; [done|lia].
Qed.

(** All receptions. *)
Lemma loop_ok evs : forall seen s bu,
  rcv seen s bu -> Forall event_ok evs -> all_seen count seen = false -> 0 <= r_retries s ->
  r_retries s + timeouts evs <= NonMaxRetransmit config ->
  let r := (receive_loop config s bu (reception_of <$> evs)).2 in
  if all_seen count (omap num_of evs ++ seen)
  then exists now m k d, EvBlock now m k ∈ evs /\ r = Some (Ok (assembled (e_SetContext m d)))
  else r = None.
Proof.
  induction evs as [|ev evs IH]; intros seen s bu H Hevs Hinc Hr Hlim; cbv zeta; [by cbn; rewrite Hinc|].
  apply Forall_cons in Hevs as [Hev Hevs]. assert (timeouts (ev :: evs) = timeouts [ev] + timeouts evs) as Et.
  { unfold timeouts. change (ev :: evs) with ([ev] ++ evs). by rewrite filter_app, zlen_app. }
  assert (0 <= timeouts evs) by apply zlen_nonneg.
  destruct (step_ok seen s bu ev H Hev Hinc Hr ltac:(lia)) as (s1 & bu1 & Hstep & H1 & Hr1).
  cbn [fmap list_fmap receive_loop]. change (list_fmap _ _ reception_of evs) with (reception_of <$> evs). rewrite Hstep.
  destruct ev as [now m k|now e]; cbn [num_of omap list_omap] in *.
  - change (list_omap _ _ num_of evs) with (omap num_of evs).
    assert (all_seen count ((k :: omap num_of evs) ++ seen) = all_seen count (omap num_of evs ++ k :: seen)) as ->.
    { apply bool_decide_ext. rewrite !Forall_forall. split; intros Hf i Hi; specialize (Hf i Hi); set_solver. }
    destruct (all_seen count (k :: seen)) eqn:Eall.
    + assert (all_seen count (omap num_of evs ++ k :: seen) = true) as ->.
      { apply bool_decide_eq_true in Eall. apply bool_decide_eq_true. eapply Forall_impl; [exact Eall|].
        intros i Hi. apply elem_of_app. by right. }
      exists now, m, k, (e_deadline (r_req s)). split; [left|done].
    + specialize (IH (k :: seen) s1 bu1 H1 Hevs Eall ltac:(lia) ltac:(lia)). cbv zeta in IH. case_match; [|done].
      destruct IH as (now' & m' & k' & d & Hin & E). exists now', m', k', d. split; [by right|done].
  - change (list_omap _ _ num_of evs) with (omap num_of evs).
    specialize (IH seen s1 bu1 H1 Hevs Hinc ltac:(lia) ltac:(lia)). cbv zeta in IH. case_match; [|done].
    destruct IH as (now' & m' & k' & d & Hin & E'). exists now', m', k', d. split; [by right|done].
Qed.
End Receiver.

(** ** The server's side *)

Section Built.
Context {T : Type} `{!QTransport T} (config : Config).
Context (body etag : list byte) (szx code mode life : Z).
Let bs := SZX_Size szx.
Let count := block_count bs (zlen body).

(** A representation as [cacheQBlock2Notification] keeps it: the whole body, one entity
    tag, and none of the options of other transfers. *)
Record stored_rep (x : q2SendTransfer) : Prop := {
  sr_body : e_body (st_message x) = Some body;
  sr_sorted : sorted_opts (e_options (st_message x));
  sr_etag : vals (e_options (st_message x)) ETag = [etag];
  sr_others : vals (e_options (st_message x)) Block1 = [] /\ vals (e_options (st_message x)) Block2 = [] /\
    vals (e_options (st_message x)) Observe = [];
  sr_code : e_code (st_message x) = code;
  sr_mode : e_type (st_message x) = mode;
  sr_life : life <= partialLifetime config (st_message x)
}.

Context (Hszx : 0 <= szx <= 6) (Hmode : mode = Confirmable \/ mode = NonConfirmable) (Hetag : 0 < zlen etag <= 8).
Context (Hassembly : exists a, NewAssembly szx (zlen body) q1DefaultMaxBodySize q1MaxTrackedBlocks = Ok a).

Lemma body_fits : count <= qBlockMaxNUM + 1 /\ 0 <= zlen body < 2 ^ 32.
Proof.
  destruct Hassembly as [a Ha]. pose proof Ha as Ha'. apply NewAssembly_ok in Ha as (Hok & Es & Eb & _ & _); [|lia].
  destruct (ok_params _ Hok) as [_ _ [_ Hn]]. unfold a_count, a_bs in Hn. rewrite Es, Eb in Hn. fold bs count in Hn. split; [done|].
  split; [apply zlen_nonneg|]. unfold NewAssembly in Ha'.
  destruct (Z.ltb_spec q1DefaultMaxBodySize (zlen body)) as [|Hle]; [rewrite orb_true_r in Ha'; by destruct (_ || _)|].
  change q1DefaultMaxBodySize with 16777216 in Hle. lia.
Qed.

Ltac options_decide := repeat first [rewrite decide_True by done | rewrite decide_False by done].

(** The blocks that are cut from it. *)
Lemma built_rep_block env (b b' : Engine T) d key token k g x m :
  q2Senders (q_tables b) !! key = Some x -> stored_rep x -> 0 <= k < count ->
  buildQBlock2ResponseFrom env b d key token szx k g = (b', Ok m) -> rep_block config body etag szx code mode life m k.
Proof.
  intros Hx [Sb Ss Se (S1 & S2 & So) Sc Sm Sl] Hk E. destruct body_fits as [Hcnt Hlen]. unfold buildQBlock2ResponseFrom in E. rewrite Hx in E.
  case_match; [done|]. case_match; [done|]. set (M := st_message x) in *. rewrite Sb in E. cbn [fmap option_fmap option_map] in E.
  replace (e_BodySize M) with (zlen body) in E by (unfold e_BodySize; by rewrite Sb).
  destruct (NewSender (Some (NewReader body)) szx (zlen body)) as [sender|] eqn:Es; [|done].
  assert (sender = mkSender (NewReader body) szx (zlen body)) as -> by (revert Es; unfold NewSender; intros Es; repeat case_match; congruence).
  destruct (Sender_Block_spec (mkSender (NewReader body) szx (zlen body)) body k) as (s' & Hblk & _); [|done|].
  { split; cbn; try done. lia. }
  rewrite Hblk in E. cbn [snd s_szx] in E. fold bs in E. rewrite EncodeQBlockOption_packed in E by (done || unfold qBlockMaxNUM, maxQBlockNumber in *; lia).
  injection E as <- <-. rewrite e_ResetOptionsTo_sorted by done. set (m0 := e_set_options _ (e_options M)).
  rewrite CastTo_id by (cbn; lia). set (v := packed szx k (k * bs + bs <? zlen body)).
  assert (0 <= v < 2 ^ 32) as Hv.
  { unfold v, packed. unfold qBlockMaxNUM in Hcnt. destruct (_ <? _); lia. }
  assert (sorted_opts (e_options m0)) as S0 by exact Ss. pose proof (e_Set_sorted m0 S0 QBlock2 v) as Sq.
  set (m2 := e_SetOptionUint32 (e_SetOptionUint32 m0 QBlock2 v) Size2 (zlen body)).
  assert (sorted_opts (e_options m2)) as Sm2 by (by apply e_Set_sorted).
  assert (forall id, vals (e_options m2) id =
    if decide (id = Size2) then [uint_bytes (zlen body)] else if decide (id = QBlock2) then [uint_bytes v] else vals (e_options M) id) as Hvals.
  { intros id. unfold m2. rewrite e_Set_vals by done. case_decide; [done|]. by rewrite e_Set_vals. }
  assert (forall id, e_GetOptionUint32 (e_SetBody m2 (Some (block_of body bs k))) id = e_GetOptionUint32 m2 id) as Hget by done.
  split.
  - unfold validQ2Response. rewrite !optionCount_vals. cbn [e_options e_SetBody].
    change (e_HasOption (e_SetBody m2 _)) with (e_HasOption m2). rewrite !e_Has_vals, !Hvals by done. options_decide. by rewrite S1, S2, Se.
  - exists v. rewrite Hget, e_Get_vals, Hvals by done. options_decide. rewrite DecodeUint32_uint_bytes by done. split; [done|].
    apply DecodeQBlockOption_packed; [done|]. unfold qBlockMaxNUM, maxQBlockNumber in *. lia.
  - unfold q2RepresentationIdentity. rewrite Hget, e_Get_vals, Hvals by done. rewrite decide_True by done.
    rewrite DecodeUint32_uint_bytes by done. unfold e_GetOptionBytes. cbn [e_options e_SetBody]. rewrite GetBytes_vals, Hvals by done.
    options_decide. rewrite Se. destruct (Z.eqb_spec (zlen etag) 0); [lia|]. destruct (Z.ltb_spec 8 (zlen etag)); [lia|]. done.
  - exact Sc.
  - change (e_type (e_SetBody m2 _)) with (e_type M). rewrite Sm. by destruct Hmode as [-> | ->].
  - change (e_HasOption (e_SetBody m2 _)) with (e_HasOption m2). rewrite e_Has_vals, Hvals by done. options_decide. by rewrite So.
  - etrans; [exact Sl|]. unfold partialLifetime. rewrite Hget, !e_Get_vals, Hvals by done. done.
  - done.
  - done.
Qed.
End Built.

(** ** End to end *)

Section Download.
Context {T : Type} `{!QTransport T} {X : Type} `{!QExchange X} `{!ReliableExchange X} (config : Config).
Context (body etag : list byte) (szx code mode t0 life : Z).
Let bs := SZX_Size szx.
Let count := block_count bs (zlen body).

(** The receptions are blocks that an engine cut from the stored representation, and
    timeouts while the representation is fresh. *)
Definition from_server (ev : q2_event) : Prop :=
  match ev with
  | EvBlock now m k =>
      t0 <= now /\ 0 <= k < count /\
      exists env (b b' : Engine T) d key tok g x, q2Senders (q_tables b) !! key = Some x /\
        stored_rep config body etag code mode life x /\ buildQBlock2ResponseFrom env b d key tok szx k g = (b', Ok m)
  | EvTimeout now e => now < t0 + life /\ e <> ErrContext
  end.

(** C4: a representation that a server retains and a client requests with Q-Block2 arrives
    whole: the blocks may come in any order, repeatedly, and with timeouts in between (as
    many as the client's limit allows), each cut by the server from its table at whatever
    moment.  As long as one is missing the client waits, without an error; when the last
    one arrives the caller gets a response with the representation's code, the request's
    token and exactly the stored body, and the budget is as before. *)
Theorem qblock2_download (bu0 : Budget) (req : EMsg) (maxSZX : Z) (exchange : X) (evs : list q2_event)
    (Hszx : 0 <= szx <= maxSZX) (Hmax : maxSZX <= 6) (Hmode : mode = Confirmable \/ mode = NonConfirmable)
    (Hetag : 0 < zlen etag <= 8) (Hpayloads : 0 < MaxPayloads config)
    (Hassembly : exists a, NewAssembly szx (zlen body) q1DefaultMaxBodySize q1MaxTrackedBlocks = Ok a)
    (Hreq : e_HasOption req Observe = false)
    (Hbytes : engineBytes bu0 + zlen body + bs <= qEngineMaxBytes /\ processBytes bu0 + zlen body + bs <= qProcessMaxBytes)
    (Hslots : engineTransfers bu0 < qEngineMaxTransfers /\ processTransfers bu0 < qProcessMaxTransfers)
    (Hevs : Forall from_server evs) (Htimeouts : timeouts evs <= NonMaxRetransmit config) :
  let '(s, bu, r) := ReceiveQBlock2 config bu0 req maxSZX exchange None (reception_of <$> evs) in
  if all_seen count (omap num_of evs)
  then bu = bu0 /\ exists m, r = Some (Ok m) /\ e_body m = Some body /\ e_code m = code /\ e_token m = e_token req
  else r = None.
Proof.
  destruct (ReceiveQBlock2 _ _ _ _ _ _ _) as [[s bu] r] eqn:E. pose proof (ReceiveQBlock2_settled _ _ _ _ _ _ _ _ _ _ E) as Hset.
  assert (Forall (event_ok config body etag szx code mode t0 life) evs) as Hok.
  { eapply Forall_impl; [exact Hevs|]. intros [now m k|now e]; [|done]. intros (Hnow & Hk & env & b & b' & d & key & tok & g & x & Hx & Hr & Hb).
    split; [done|]. eapply built_rep_block; eauto. lia. }
  unfold ReceiveQBlock2 in E. set (s0 := mkQ2 _ _ _ _ _ _ _ _ _ _ _ _ _ _ _ _ _ _ _) in E.
  unfold qReserveTransfer, qReserve in E. destruct (Z.ltb_spec 1 0); [lia|].
  destruct (Z.ltb_spec (qEngineMaxTransfers - engineTransfers bu0) 1); [lia|].
  destruct (Z.ltb_spec (qProcessMaxTransfers - processTransfers bu0) 1); [lia|]. cbn [negb] in E. set (bu1 := mkBudget _ _ _ _) in E.
  assert (rcv body etag (e_token req) szx code mode t0 life [] s0 bu1) as Hrcv.
  { split; try done; cbn -[qEngineMaxBytes qProcessMaxBytes]; lia. }
  destruct (r_send_ok s0 [0] true) as (x & n & E1); [cbn; lia|repeat constructor; unfold maxQBlockNumber; lia|]. rewrite E1 in E.
  pose proof (SZX_Size_bounds szx ltac:(lia)) as Hbs. fold bs in Hbs. pose proof (zlen_nonneg body).
  assert (all_seen count [] = false) as Hnone.
  { apply bool_decide_eq_false. rewrite Forall_forall. intros Hf. pose proof (block_count_pos bs (zlen body) ltac:(lia) ltac:(lia)) as Hpos.
    specialize (Hf 0). apply not_elem_of_nil in Hf; [done|]. apply elem_of_seqZ. fold count in Hpos. lia. }
  pose proof (loop_ok config body etag (e_token req) szx code mode t0 life ltac:(lia) Hmode Hassembly Hpayloads evs [] (r_with_send s0 x n) bu1
    (rcv_send _ _ _ _ _ _ _ _ _ _ _ _ _ Hrcv) Hok Hnone ltac:(done) ltac:(done)) as Hloop.
  cbv zeta in Hloop. rewrite E, app_nil_r in Hloop. cbn [snd] in Hloop. fold bs count in Hloop. case_match; [|done].
  destruct Hloop as (now & m & k & d & Hin & ->). split; [exact Hset|]. eexists. split; [done|]. split; [done|]. split; [|done].
  rewrite Forall_forall in Hok. destruct (Hok _ Hin) as [_ Hm]. exact (rb_code _ _ _ _ _ _ _ _ _ Hm).
Qed.
End Download.

(** ** An example *)
Module DownloadSample.
(** The messages that were sent, and a counter for tokens. *)
Record mailbox : Type := mkMailbox { sent : list EMsg; tokens : Z }.
#[export] Instance mailbox_exchange : QExchange mailbox := {
  NewToken := fun x => (mkMailbox (sent x) (tokens x + 1), Ok [tokens x]);
  ExSend := fun x m => (mkMailbox (sent x ++ [m]) (tokens x), None);
  ExClose := fun x => x
}.
#[export] Instance mailbox_reliable : ReliableExchange mailbox.
Proof. split; [by intros; eexists _, _|by intros; eexists]. Qed.

#[local] Instance nowhere : QTransport unit := {
  ScheduleQBlock := fun t _ _ _ => (t, None);
  DelayQBlock := fun t _ _ => t;
  CancelQBlock := fun t _ => t;
  SendQBlock := fun t _ => (t, None);
  SendQBlockAsync := fun t _ _ => (t, None)
}.

Definition page : list byte := make_bytes 16 ++ [1; 2; 3; 4].
Definition stored_page : EMsg := mkEMsg Content [9] [mkOption ETag [5]] NonConfirmable 0 (Some page) None.
Definition transfer : q2SendTransfer := mkSendTransfer 0 stored_page (3 * Second) 20 (-1) 0 [] NonConfirmable [] zeroTime.
Definition server : Engine unit := put_q2 (q_New tt (mkBudget 0 0 0 0)) [1] transfer.
Definition cut (k : Z) : EMsg :=
  match (buildQBlock2ResponseFrom (mkQEnv Second 0 false) server None [1] [8] 0 k None).2 with Ok m => m | Err _ => AcquireMessage None end.
Definition get : EMsg := mkEMsg GET [8] [] NonConfirmable 0 None None.
(** The second block, silence, the first block. *)
Definition events : list q2_event :=
  [EvBlock Second (cut 1) 1; EvTimeout (2 * Second) (ErrOther "context deadline exceeded"); EvBlock (3 * Second) (cut 0) 0].

Lemma events_ok : Forall (from_server (T := unit) DefaultConfig page [5] 0 Content NonConfirmable Second (60 * Second)) events.
Proof.
  assert (stored_rep DefaultConfig page [5] Content NonConfirmable (60 * Second) transfer) as Hr.
  { split; try reflexivity; [apply Sorted.SSorted_cons; [apply Sorted.SSorted_nil|done]|done]. }
  assert (forall now k, Second <= now -> k = 0 \/ k = 1 ->
    from_server (T := unit) DefaultConfig page [5] 0 Content NonConfirmable Second (60 * Second) (EvBlock now (cut k) k)) as Hblock.
  { intros now k Hnow Hk. split; [done|]. split; [change (block_count _ _) with 2; lia|].
    exists (mkQEnv Second 0 false), server, server, None, [1], [8], None, transfer. split; [reflexivity|]. split; [exact Hr|].
    destruct Hk as [-> | ->]; vm_compute; reflexivity. }
  apply Forall_cons. split; [by apply Hblock; [|right]|]. apply Forall_cons. split; [split; [vm_compute; reflexivity|done]|].
  apply Forall_cons. split; [apply Hblock; [vm_compute; discriminate|by left]|constructor].
Qed.

Lemma qblock2_download_witness :
  let '(s, bu, r) := ReceiveQBlock2 DefaultConfig (mkBudget 0 0 0 0) get 6 (mkMailbox [] 100) None (reception_of <$> events) in
  bu = mkBudget 0 0 0 0 /\ exists m, r = Some (Ok m) /\ e_body m = Some page /\ e_code m = Content /\ e_token m = [8].
Proof.
  pose proof (qblock2_download DefaultConfig page [5] 0 Content NonConfirmable Second (60 * Second) (mkBudget 0 0 0 0) get 6 (mkMailbox [] 100)
    events ltac:(lia) ltac:(lia) (or_intror eq_refl) ltac:(vm_compute; split; [reflexivity|discriminate]) ltac:(vm_compute; reflexivity)
    ltac:(eexists; vm_compute; reflexivity) eq_refl ltac:(vm_compute; split; discriminate) ltac:(vm_compute; split; reflexivity)
    events_ok ltac:(vm_compute; discriminate)) as H.
  change (all_seen _ _) with true in H. exact H.
Defined.
End DownloadSample.
