(* ===== verification/QClient.v ===== *)
(** * Sending a Q-Block1 body (src/net/blockwise/qblock/client.go)

    [q1BodySender] is the struct of the source.  As in [QReceive], what [Receive] yields is
    the input [reception] of a step of [q1_loop]; when the final response has a Q-Block2
    option the rest of the receptions go to [ReceiveQBlock2]. *)
From stdpp Require Import prelude list strings gmap.
From Stdlib Require Import ZArith Lia.
From S2P Require Import TcpConn KeepAlive Prelude Cast Codes OptionCodec Options Message PoolMessage BlockCodec Assembly.
From S2P Require Import EngineMessage ResponseWriter ExchangeKey Blockwise QBudget QEngine QServe QReceive.
#[local] Open Scope Z_scope.

Definition errQ1Recovery : error := ErrOther "Q-Block1 invalid or exhausted recovery NUM".
Definition errQ1FinalExhausted : error := ErrOther "Q-Block1 final response recovery exhausted".
Definition errQ1Report : error := ErrOther "invalid Q-Block1 missing-block report".
Definition errQ1Sequence : error := ErrOther "invalid Q-Block1 missing-block sequence".
Definition errQ1Body : error := ErrOther "Q-Block1 requires a request body".

Definition q1ContinueNUM (m : EMsg) : option Z :=
  match e_GetOptionUint32 m QBlock1 with
  | (_, Some _) => None
  | (value, None) => let '(_, num, _, err) := DecodeQBlockOption value in match err with None => Some num | Some _ => None end
  end.

Section QClient.
Context {X : Type} `{!QExchange X}.
Context (config : Config).

Record q1BodySender : Type := mkQ1Sender {
  s1_request : EMsg;
  s1_sender : Sender Reader;
  s1_exchange : X;
  s1_tag : list byte;
  s1_size : Z;
  s1_szx : Z;
  s1_blockCount : Z;
  s1_attempts : gmap Z Z;
  s1_sentRequests : Z;
  s1_next : Z;
  s1_retries : Z;
  s1_pendingRecovery : list Z;
  s1_delay : Z;
  s1_deadline : Z
}.
Implicit Types (s : q1BodySender) (m : EMsg).

Definition s1_with_block s (sender : Sender Reader) (x : X) (attempts : gmap Z Z) (sent : Z) : q1BodySender :=
  mkQ1Sender (s1_request s) sender x (s1_tag s) (s1_size s) (s1_szx s) (s1_blockCount s) attempts sent (s1_next s) (s1_retries s)
    (s1_pendingRecovery s) (s1_delay s) (s1_deadline s).
Definition s1_with_progress s (next retries : Z) (pending : list Z) (deadline : Z) : q1BodySender :=
  mkQ1Sender (s1_request s) (s1_sender s) (s1_exchange s) (s1_tag s) (s1_size s) (s1_szx s) (s1_blockCount s) (s1_attempts s)
    (s1_sentRequests s) next retries pending (s1_delay s) deadline.

Definition attempts s (num : Z) : Z := default 0 (s1_attempts s !! num).

(** The message of a block; [SetRequestTag] may refuse the tag. *)
Definition q1_part s (token : list byte) (num : Z) (more : bool) (payload : list byte) : EMsg * option error :=
  let part := e_SetToken (CloneMessage (s1_request s)) token in
  let part := e_Remove (e_Remove part Block1) Block2 in
  let part := e_SetOptionUint32 part QBlock1 (EncodeQBlockOption (s1_szx s) num more).1 in
  let part := e_SetOptionUint32 part QBlock2 (EncodeQBlockOption (s1_szx s) 0 true).1 in
  let part := e_SetOptionUint32 part Size1 (s1_size s) in
  let '(part, err) := e_SetRequestTag part (s1_tag s) in
  match err with
  | Some e => (part, Some e)
  | None => (e_SetBody part (Some payload), None)
  end.

Definition sendBlock s (num : Z) : q1BodySender * option error :=
  if (num <? 0) || (s1_blockCount s <=? num) || (NonMaxRetransmit config <? attempts s num) then (s, Some errQ1Recovery) else
  let tries := <[num := attempts s num + 1]> (s1_attempts s) in
  let '(sender, block) := Sender_Block (s1_sender s) num in
  match block with
  | Err e => (s1_with_block s sender (s1_exchange s) tries (s1_sentRequests s), Some e)
  | Ok (payload, more) =>
      let '(x, token) :=
        if 0 <? s1_sentRequests s then NewToken (s1_exchange s) else (s1_exchange s, Ok (e_token (s1_request s))) in
      match token with
      | Err e => (s1_with_block s sender x tries (s1_sentRequests s), Some e)
      | Ok token =>
          let '(part, err) := q1_part s token num more payload in
          match err with
          | Some e => (s1_with_block s sender x tries (s1_sentRequests s + 1), Some e)
          | None => let '(x, err) := ExSend x part in (s1_with_block s sender x tries (s1_sentRequests s + 1), err)
          end
      end
  end.

Fixpoint send s (nums : list Z) : q1BodySender * option error :=
  match nums with
  | [] => (s, None)
  | num :: nums => let '(s, err) := sendBlock s num in match err with Some e => (s, Some e) | None => send s nums end
  end.

Definition sendSet s : q1BodySender * option error :=
  let last_ := setLast (MaxPayloads config) (s1_next s) (s1_blockCount s) in
  let nums := seqZ (s1_next s) (last_ + 1 - s1_next s) in
  send (s1_with_progress s (last_ + 1) (s1_retries s) (s1_pendingRecovery s) (s1_deadline s)) nums.

Definition timeout s (ctxErr : option error) : q1BodySender * option error :=
  match ctxErr with
  | Some e => (s, Some e)
  | None =>
      match s1_pendingRecovery s with
      | _ :: _ => send (s1_with_progress s (s1_next s) (s1_retries s + 1) (s1_pendingRecovery s) (s1_deadline s)) (s1_pendingRecovery s)
      | [] =>
          if s1_next s <? s1_blockCount s then sendSet s else
          if NonMaxRetransmit config <=? s1_retries s then (s, Some errQ1FinalExhausted) else
          send (s1_with_progress s (s1_next s) (s1_retries s + 1) [] (s1_deadline s)) [s1_blockCount s - 1]
      end
  end.

(** The flag says whether the sender advanced. *)
Definition continuation s (now : Z) m : q1BodySender * bool * option error :=
  match q1ContinueNUM m with
  | None => (s, false, None)
  | Some num =>
      let wasRecovering := match s1_pendingRecovery s with [] => false | _ => true end in
      let s := if wasRecovering && (default 0 (last (s1_pendingRecovery s)) <=? num)
               then s1_with_progress s (s1_next s) 0 [] (s1_deadline s) else s in
      if wasRecovering && (match s1_pendingRecovery s with [] => true | _ => false end) && (s1_next s <? s1_blockCount s)
      then (s1_with_progress s (s1_next s) (s1_retries s) (s1_pendingRecovery s) (now + s1_delay s), false, None) else
      if negb (num =? s1_next s - 1) || (s1_blockCount s <=? s1_next s) then (s, false, None) else
      let '(s, err) := sendSet s in (s, true, err)
  end.

Definition missing s m : q1BodySender * option error :=
  let '(format, formatErr) := e_GetOptionUint32 m ContentFormat in
  if (match formatErr with Some _ => true | None => false end) || negb (CastTo KUint16 format =? AppMissingBlocksCBORSeq)
  then (s, Some errQ1Report) else
  let '(nums, err) := DecodeMissingBlocks [] (readQBody m) in
  if (match err with Some _ => true | None => false end) || (q1MaxTrackedBlocks <? zlen nums) then (s, Some errQ1Sequence) else
  let pending := qMissingSet nums (MaxPayloads config) in
  send (s1_with_progress s (s1_next s) (s1_retries s) pending (s1_deadline s)) pending.

(** A final response without Q-Block2 is the result; otherwise the body follows. *)
Definition final s m : result EMsg + EMsg :=
  if (e_code m =? BadOption) && negb (e_HasOption m QBlock2) then inl (Err ErrQBlockUnsupported) else
  if negb (e_HasOption m QBlock2) then inl (Ok (e_SetToken m (e_token (s1_request s)))) else
  let request := e_SetOptionUint32 (CloneMessage (s1_request s)) Size1 (s1_size s) in
  let '(request, err) := e_SetRequestTag request (s1_tag s) in
  match err with
  | Some e => inl (Err e)
  | None => inr request
  end.

Definition wait_until s (now : Z) : q1BodySender :=
  let wait := if (s1_next s =? s1_blockCount s) || (match s1_pendingRecovery s with [] => false | _ => true end)
              then int64 (Z.shiftl (NonReceiveTimeout config + Second) (s1_retries s)) else s1_delay s in
  s1_with_progress s (s1_next s) (s1_retries s) (s1_pendingRecovery s) (now + wait).

Inductive q1_outcome : Type :=
| Q1Wait
| Q1Done (r : result EMsg)
| Q1Follow (request response : EMsg).

(** One pass over the loop of [run]. *)
Definition q1_step s (rx : reception) : q1BodySender * q1_outcome :=
  let fail_or_wait (r : q1BodySender * option error) :=
    let '(s, err) := r in match err with Some e => (s, Q1Done (Err e)) | None => (wait_until s (rx_now rx), Q1Wait) end in
  match rx_result rx with
  | Err e => fail_or_wait (timeout s (rx_ctx rx))
  | Ok m =>
      let m := e_SetContext m (e_deadline (s1_request s)) in
      if e_code m =? Continue then
        let '(s, advance, err) := continuation s (rx_now rx) m in
        match err with
        | Some e => (s, Q1Done (Err e))
        | None => if negb advance then (s, Q1Wait) else (wait_until s (rx_now rx), Q1Wait)
        end
      else if e_code m =? RequestEntityIncomplete then fail_or_wait (missing s m)
      else match final s m with
           | inl r => (s, Q1Done r)
           | inr request => (s, Q1Follow request m)
           end
  end.

Fixpoint q1_loop (bu : Budget) s (rxs : list reception) : X * Budget * option (result EMsg) :=
  match rxs with
  | [] => (s1_exchange s, bu, None)
  | rx :: rxs =>
      let '(s, out) := q1_step s rx in
      match out with
      | Q1Wait => q1_loop bu s rxs
      | Q1Done r => (s1_exchange s, bu, Some r)
      | Q1Follow request m =>
          let '(q2, bu, r) := ReceiveQBlock2 config bu request (s1_szx s) (s1_exchange s) (Some (m, rx_now rx)) rxs in
          (r_exchange q2, bu, r)
      end
  end.

(** The first set. *)
Definition q1_first s (now : Z) : q1BodySender * option error :=
  let '(s, err) := sendSet s in
  match err with
  | Some e => (s, Some e)
  | None =>
      let deadline := if s1_next s =? s1_blockCount s then now + (NonReceiveTimeout config + Second) else now + s1_delay s in
      (s1_with_progress s (s1_next s) (s1_retries s) (s1_pendingRecovery s) deadline, None)
  end.

Definition q1_run (bu : Budget) s (now : Z) (rxs : list reception) : X * Budget * option (result EMsg) :=
  let '(s, err) := q1_first s now in
  match err with
  | Some e => (s1_exchange s, bu, Some (Err e))
  | None => q1_loop bu s rxs
  end.

(** The struct that [DoQBlock1] makes. *)
Definition q1_start (r : EMsg) (sender : Sender Reader) (exchange : X) (tag : list byte) (size szx delay : Z) : q1BodySender :=
  mkQ1Sender r sender exchange tag size szx (Z.max 1 (Z.quot (size + SZX_Size szx - 1) (SZX_Size szx))) ∅ 0 0 0 []
    (if e_type r =? Confirmable then 0 else delay) zeroTime.

(** [opened] is what [OpenQBlockExchange] yields, [newTag] what [message.GetToken] does and
    [delay] what [nonDelay] draws. *)
Definition DoQBlock1 (bu : Budget) (r : EMsg) (szx maxBodySize : Z) (opened : result X) (newTag : result (list byte)) (delay now : Z)
    (rxs : list reception) : option X * Budget * option (result EMsg) :=
  match e_body r with
  | None => (None, bu, Some (Err errQ1Body))
  | Some body =>
      if negb (isBodyMethod (e_code r)) then (None, bu, Some (Err errQ1Body)) else
      let size := zlen body in
      if (maxBodySize <? size) || (2 ^ 32 - 1 <? size) then (None, bu, Some (Err ErrQBlockTooLarge)) else
      match NewSender (Some (NewReader body)) szx size with
      | Err e => (None, bu, Some (Err e))
      | Ok sender =>
          match opened with
          | Err e => (None, bu, Some (Err e))
          | Ok exchange =>
              let tag := match e_GetOptionBytes r RequestTag with (tag, None) => Ok tag | (_, Some _) => newTag end in
              match tag with
              | Err e => (Some (ExClose exchange), bu, Some (Err e))
              | Ok tag =>
                  let '(x, bu, result) := q1_run bu (q1_start r sender exchange tag size szx delay) now rxs in
                  (Some (ExClose x), bu, result)
              end
          end
      end
  end.
End QClient.

Arguments q1BodySender : clear implicits.
