(* ===== verification/QSender.v ===== *)
(** * What a Q-Block1 sender sends

    The messages of [QClient] are blocks that [QUpload] accepts, all with the same key; each
    block is sent a bounded number of times, and a sender that only meets timeouts gives
    up. *)
From stdpp Require Import prelude list strings gmap.
From Stdlib Require Import ZArith Lia.
From S2P Require Import TcpConn KeepAlive Prelude Cast Codes OptionCodec Options Message PoolMessage BlockCodec Assembly.
From S2P Require Import EngineMessage ResponseWriter ExchangeKey Blockwise TableSum QBudget QEngine QServe QAccounting QUpload QReceive QDownload QClient.
#[local] Open Scope Z_scope.

(** ** One message *)

Section Part.
Context {X : Type} `{!QExchange X}.
Context (body : list byte) (remote : addr).

(** The sender of [body] for a request that may be sent with Q-Block1. *)
Record q1_sender_ok (s : q1BodySender X) : Prop := {
  so1_method : isBodyMethod (e_code (s1_request s)) = true;
  so1_sorted : sorted_opts (e_options (s1_request s));
  so1_observe : vals (e_options (s1_request s)) Observe = [];
  so1_sender : sender_ok (s1_sender s) body;
  so1_sender_szx : s_szx (s1_sender s) = s1_szx s;
  so1_szx : 0 <= s1_szx s <= 6;
  so1_size : s1_size s = zlen body /\ zlen body < 2 ^ 32;
  so1_count : s1_blockCount s = block_count (SZX_Size (s1_szx s)) (zlen body);
  so1_tag : zlen (s1_tag s) <= 8
}.

Definition q1_vals (s : q1BodySender X) (num : Z) (more : bool) (id : Z) : list (list byte) :=
  if decide (id = RequestTag) then [s1_tag s] else
  if decide (id = Size1) then [uint_bytes (s1_size s)] else
  if decide (id = QBlock2) then [uint_bytes (packed (s1_szx s) 0 true)] else
  if decide (id = QBlock1) then [uint_bytes (packed (s1_szx s) num more)] else
  if decide (id = Block2) then [] else if decide (id = Block1) then [] else vals (e_options (s1_request s)) id.

Lemma q1_part_spec s token num more payload :
  q1_sender_ok s -> 0 <= num <= maxQBlockNumber ->
  exists m, q1_part s token num more payload = (m, None) /\ e_code m = e_code (s1_request s) /\ e_token m = token /\
    e_type m = e_type (s1_request s) /\ e_body m = Some payload /\ sorted_opts (e_options m) /\
    forall id, vals (e_options m) id = q1_vals s num more id.
Proof.
  intros [_ Hs _ _ _ Hszx _ _ Htag] Hnum. unfold q1_part. rewrite !EncodeQBlockOption_packed by (done || unfold maxQBlockNumber; lia).
  unfold CloneMessage. rewrite e_ResetOptionsTo_sorted by done. cbn [fst].
  set (m0 := e_SetToken _ token). assert (sorted_opts (e_options m0)) as S0 by exact Hs.
  pose proof (e_Remove_sorted m0 S0 Block1) as S1. pose proof (e_Remove_sorted _ S1 Block2) as S2.
  set (m2 := e_Remove (e_Remove m0 Block1) Block2) in *.
  pose proof (e_Set_sorted m2 S2 QBlock1 (packed (s1_szx s) num more)) as S3.
  pose proof (e_Set_sorted _ S3 QBlock2 (packed (s1_szx s) 0 true)) as S4. pose proof (e_Set_sorted _ S4 Size1 (s1_size s)) as S5.
  set (m5 := e_SetOptionUint32 _ Size1 _) in *. unfold e_SetRequestTag.
  assert (VerifyOptLen RequestTag (zlen (s1_tag s)) = true) as ->.
  { unfold VerifyOptLen. cbn. pose proof (zlen_nonneg (s1_tag s)). destruct (Z.ltb_spec (zlen (s1_tag s)) 0); [lia|]. by destruct (Z.ltb_spec 8 (zlen (s1_tag s))); [lia|]. }
  cbn [negb]. eexists. split; [done|]. split_and!; try done.
  - exact (proj1 (Set_vals zeroOption (e_options m5) (mkOption RequestTag (s1_tag s)) S5)).
  - intros id. change (e_options (e_SetBody (e_SetOptionBytes m5 RequestTag (s1_tag s)) (Some payload)))
      with (Options_Set (e_options m5) (mkOption RequestTag (s1_tag s))).
    etrans; [exact (proj2 (Set_vals zeroOption (e_options m5) (mkOption RequestTag (s1_tag s)) S5) id)|]. cbn [ID Value].
    unfold q1_vals. case_decide; [done|]. unfold m5. rewrite !e_Set_vals by done. repeat (case_decide; [done|]).
    unfold m2. rewrite !e_Remove_vals by done. done.
Qed.

Section OfVals.
Context (s : q1BodySender X) (m : EMsg) (num : Z) (more : bool).
Context (Hok : q1_sender_ok s) (Hnum : 0 <= num <= maxQBlockNumber).
Context (Hcode : e_code m = e_code (s1_request s)) (Hsorted : sorted_opts (e_options m)).
Context (Hvals : forall id, vals (e_options m) id = q1_vals s num more id).

Ltac by_vals := unfold q1_vals; repeat first [rewrite decide_True by done | rewrite decide_False by done]; try done.

Lemma part_uint id v : q1_vals s num more id = [uint_bytes v] -> 0 <= v < 2 ^ 32 -> e_GetOptionUint32 m id = (v, None).
Proof. intros E Hv. rewrite e_Get_vals, Hvals, E by done. by rewrite DecodeUint32_uint_bytes. Qed.

Lemma part_count id l : q1_vals s num more id = l -> optionCount m id = zlen l.
Proof. intros E. by rewrite optionCount_vals, Hvals, E. Qed.

Lemma part_has id : e_HasOption m id = bool_decide (q1_vals s num more id <> []).
Proof. by rewrite e_Has_vals, Hvals. Qed.

Lemma part_packed_range z k b : 0 <= z <= 6 -> 0 <= k <= maxQBlockNumber -> 0 <= packed z k b < 2 ^ 32.
Proof. unfold packed, maxQBlockNumber. destruct b; lia. Qed.

Lemma part_parses : parseQBlock1 m = Ok (mkQ1 (s1_tag s) (packed (s1_szx s) num more) (s1_szx s) num more (zlen body)).
Proof.
  destruct Hok as [Hm _ _ _ _ Hszx [Hsize Hlt] _ Htag]. pose proof (zlen_nonneg body).
  assert (validateQBlock1 m = None) as Hval.
  { unfold validateQBlock1. rewrite Hcode, Hm. cbn [negb]. rewrite !part_has.
    rewrite (part_count QBlock1 [uint_bytes (packed (s1_szx s) num more)]) by by_vals.
    rewrite (part_count QBlock2 [uint_bytes (packed (s1_szx s) 0 true)]) by by_vals.
    rewrite (part_count RequestTag [s1_tag s]) by by_vals. rewrite (part_count Size1 [uint_bytes (s1_size s)]) by by_vals.
    rewrite (part_uint QBlock2 (packed (s1_szx s) 0 true)) by (by_vals || (apply part_packed_range; unfold maxQBlockNumber; lia)).
    rewrite DecodeQBlockOption_packed by (done || unfold maxQBlockNumber; lia).
    assert (q1_vals s num more Block1 = [] /\ q1_vals s num more Block2 = []) as [-> ->] by (split; by_vals).
    rewrite (bool_decide_true (q1_vals s num more QBlock2 <> [])) by by_vals.
    rewrite (bool_decide_true (q1_vals s num more RequestTag <> [])) by by_vals.
    rewrite (bool_decide_true (q1_vals s num more Size1 <> [])) by by_vals. change qBlockMaxSZX with 6.
    destruct (Z.ltb_spec 6 (s1_szx s)); [lia|]. done. }
  unfold parseQBlock1. rewrite Hval. change (GetBytess (e_options m)) with (GetStrings (e_options m)).
  rewrite GetStrings_vals, Hvals by (done || rewrite Hvals; by_vals).
  assert (q1_vals s num more RequestTag = [s1_tag s]) as Et by by_vals. rewrite Et. change (zlen [s1_tag s]) with 1. cbn [orb].
  unfold e_GetOptionBytes. rewrite GetBytes_vals, Hvals, Et by done. destruct (Z.ltb_spec 8 (zlen (s1_tag s))); [lia|]. cbn [orb].
  rewrite (part_uint QBlock1 (packed (s1_szx s) num more)) by (by_vals || by apply part_packed_range).
  rewrite DecodeQBlockOption_packed by done. change qBlockMaxSZX with 6. destruct (Z.ltb_spec 6 (s1_szx s)); [lia|].
  rewrite (part_uint Size1 (s1_size s)) by (by_vals || lia). by rewrite Hsize.
Qed.
End OfVals.

(** All blocks of a body have one key. *)
Lemma part_key s m m' num num' more more' :
  e_code m = e_code m' -> sorted_opts (e_options m) -> sorted_opts (e_options m') ->
  (forall id, vals (e_options m) id = q1_vals s num more id) -> (forall id, vals (e_options m') id = q1_vals s num' more' id) ->
  q1TransferKey m remote (s1_tag s) = q1TransferKey m' remote (s1_tag s).
Proof.
  intros Ec S1 S2 V1 V2. unfold q1TransferKey, qTransferKey. rewrite Ec. do 3 f_equal.
  assert (forall (l : Options) id, vals (filter (fun o => q_skipped false (ID o) = false) l) id =
            if q_skipped false id then [] else vals l id) as Hf.
  { intros l id. unfold vals. rewrite list_filter_filter. destruct (q_skipped false id) eqn:Eq.
    - assert (filter (fun x => ID x = id /\ q_skipped false (ID x) = false) l = []) as ->; [|done].
      induction l as [|o l IH]; [done|]. rewrite filter_cons, decide_False; [done|]. intros [<- ?]. congruence.
    - f_equal. apply list_filter_iff. intros o. split; [by intros [? _]|]. by intros <-. }
  f_equal. apply sorted_vals_ext; [by apply sorted_filter|by apply sorted_filter|].
  intros id. rewrite !Hf, V1, V2. destruct (q_skipped false id) eqn:Eq; [done|]. unfold q1_vals. repeat (case_decide; [done|]).
  case_decide; [subst; done|done].
Qed.
End Part.

(** ** All messages *)

(** An exchange that remembers what was sent. *)
Record logged (X : Type) : Type := mkLogged { lg_inner : X; lg_sent : list EMsg }.
Arguments mkLogged {X} _ _.
Arguments lg_inner {X} _.
Arguments lg_sent {X} _.
#[export] Instance logged_exchange X `{!QExchange X} : QExchange (logged X) := {
  NewToken := fun x => let '(y, t) := NewToken (lg_inner x) in (mkLogged y (lg_sent x), t);
  ExSend := fun x m => let '(y, e) := ExSend (lg_inner x) m in (mkLogged y (lg_sent x ++ [m]), e);
  ExClose := fun x => mkLogged (ExClose (lg_inner x)) (lg_sent x)
}.

Definition occurrences (k : Z) (nums : list Z) : Z := zlen (filter (fun n => n = k) nums).

Section Sends.
Context {X : Type} `{!QExchange X} (config : Config) (body : list byte) (remote : addr).
Implicit Types (s : q1BodySender (logged X)).
Context (s0 : q1BodySender (logged X)).
Let request := s1_request s0.
Let szx := s1_szx s0.
Let tag := s1_tag s0.
Let count := block_count (SZX_Size szx) (zlen body).
(** The key under which the server keeps the body. *)
Let key := q1TransferKey (q1_part s0 [] 0 false []).1 remote tag.
Context (Hcount : count <= maxQBlockNumber + 1).

Definition total s : Z := zsum (attempts s) (seqZ 0 count).

Record q1_inv s : Prop := {
  qi_ok : q1_sender_ok body s;
  qi_fixed : s1_request s = request /\ s1_szx s = szx /\ s1_tag s = tag;
  qi_attempts : forall k, 0 <= attempts s k <= NonMaxRetransmit config + 1;
  qi_next : 0 <= s1_next s <= count;
  qi_sent : exists nums, Forall2 (upload_block body tag key szx (e_type request) remote) (lg_sent (s1_exchange s)) nums /\
    forall k, occurrences k nums <= attempts s k;
  qi_first : s1_sentRequests s = zlen (lg_sent (s1_exchange s)) /\
    forall m, head (lg_sent (s1_exchange s)) = Some m -> e_token m = e_token request
}.

(** A message that [q1_part] makes is a block of the upload. *)
Lemma part_block s token k :
  q1_inv s -> q1_sender_ok body s0 -> 0 <= k < count ->
  exists m, q1_part s token k (k * SZX_Size szx + SZX_Size szx <? zlen body) (block_of body (SZX_Size szx) k) = (m, None) /\
    upload_block body tag key szx (e_type request) remote m k /\ e_token m = token.
Proof.
  intros Hi Hok0 Hk. destruct (qi_fixed _ Hi) as (Er & Ez & Et). pose proof (qi_ok _ Hi) as Hok. unfold maxQBlockNumber in Hcount.
  destruct (q1_part_spec body s token k (k * SZX_Size szx + SZX_Size szx <? zlen body) (block_of body (SZX_Size szx) k) Hok)
    as (m & E & Ec & Etok & Ety & Eb & Hs & Hv); [unfold maxQBlockNumber; lia|].
  destruct (q1_part_spec body s0 [] 0 false [] Hok0) as (m0 & E0 & Ec0 & _ & _ & _ & Hs0 & Hv0); [unfold maxQBlockNumber; lia|].
  exists m. split; [done|]. split; [|done]. split.
  - eexists. rewrite (part_parses body s m k _ Hok) by (done || unfold maxQBlockNumber; lia). by rewrite Et, Ez.
  - unfold readQBody. by rewrite Eb.
  - unfold key. rewrite E0. cbn [fst]. rewrite <- Et. apply (part_key remote s _ _ k 0 (k * SZX_Size szx + SZX_Size szx <? zlen body) false); try done.
    + by rewrite Ec, Ec0, Er.
    + intros id. rewrite Hv0. unfold q1_vals. fold request szx tag. destruct (so1_size _ _ Hok) as [-> _]. destruct (so1_size _ _ Hok0) as [-> _].
      by rewrite Er, Ez, Et.
  - by rewrite Ety, Er.
  - rewrite e_Get_vals, Hv by done. unfold q1_vals. repeat (rewrite decide_False by done). rewrite Er. unfold request.
    by rewrite (so1_observe _ _ Hok0).
  - done.
Qed.

(** One more attempt. *)
Lemma zsum_bump (f g : Z -> Z) n l :
  NoDup l -> n ∈ l -> g n = f n + 1 -> (forall k, k <> n -> g k = f k) -> zsum g l = zsum f l + 1.
Proof.
  intros Hnd Hin Hn Hk. induction Hnd as [|x l Hx Hnd IH]; [by apply not_elem_of_nil in Hin|]. cbn [zsum].
  apply elem_of_cons in Hin as [<-|Hin].
  - assert (zsum g l = zsum f l) as ->; [|lia]. clear IH Hnd. induction l as [|y l IH]; [done|]. cbn [zsum].
    apply not_elem_of_cons in Hx as [Hxy Hx]. rewrite Hk by done. by rewrite IH.
  - rewrite IH by done. assert (x <> n) by (intros ->; done). rewrite Hk by done. lia.
Qed.

Definition bump (n k v : Z) : Z := if decide (k = n) then v + 1 else v.

Lemma attempts_insert s sender x n sent k :
  attempts (s1_with_block s sender x (<[n := attempts s n + 1]> (s1_attempts s)) sent) k = bump n k (attempts s k).
Proof. unfold attempts, bump. cbn. case_decide; [subst; by rewrite lookup_insert_eq|by rewrite lookup_insert_ne]. Qed.

Lemma occurrences_snoc k nums n : occurrences k (nums ++ [n]) = bump n k (occurrences k nums).
Proof.
  unfold occurrences, bump. rewrite filter_app, zlen_app. case_decide as E.
  - rewrite (filter_cons_True _ n []) by done. done.
  - rewrite (filter_cons_False _ n []) by done. change (zlen (filter (fun m => m = k) [])) with 0. lia.
Qed.

(** The state after an attempt at block [num]. *)
Definition tried s (num : Z) (sender : Sender Reader) (x : logged X) (sent : Z) : q1BodySender (logged X) :=
  s1_with_block s sender x (<[num := attempts s num + 1]> (s1_attempts s)) sent.

Lemma total_tried s num sender x sent : 0 <= num < count -> total (tried s num sender x sent) = total s + 1.
Proof.
  intros Hn. apply (zsum_bump _ _ num); [apply NoDup_seqZ|apply elem_of_seqZ; lia|..].
  - unfold tried. rewrite attempts_insert. unfold bump. by rewrite decide_True.
  - intros k Hk. unfold tried. rewrite attempts_insert. unfold bump. by rewrite decide_False.
Qed.

Lemma tried_inv s num sender x sent nums :
  q1_inv s -> sender_ok sender body -> s_szx sender = szx -> attempts s num <= NonMaxRetransmit config ->
  (forall k, occurrences k nums <= bump num k (attempts s k)) ->
  Forall2 (upload_block body tag key szx (e_type request) remote) (lg_sent x) nums -> sent = zlen (lg_sent x) ->
  (forall m, head (lg_sent x) = Some m -> e_token m = e_token request) -> q1_inv (tried s num sender x sent).
Proof.
  intros Hi Hs Hz Hat Hocc Hf Hsent Hhead. destruct (qi_fixed _ Hi) as (Er & Ez & Et). split.
  - destruct (qi_ok _ Hi). split; cbn; try done. congruence.
  - done.
  - intros k. unfold tried. rewrite attempts_insert. pose proof (qi_attempts _ Hi k). unfold bump. case_decide; [subst; lia|lia].
  - apply Hi.
  - exists nums. split; [done|]. intros k. unfold tried. rewrite attempts_insert. apply Hocc.
  - done.
Qed.

Lemma sendBlock_inv s num s' err :
  q1_inv s -> q1_sender_ok body s0 -> sendBlock config s num = (s', err) ->
  q1_inv s' /\ s1_next s' = s1_next s /\ total s <= total s' /\ (err = None -> total s' = total s + 1).
Proof.
  intros Hi Hok0 E. unfold sendBlock in E. destruct (qi_fixed _ Hi) as (Er & Ez & Et). pose proof (qi_ok _ Hi) as Hok.
  rewrite (so1_count _ _ Hok), Ez in E. fold count in E.
  destruct (_ || _) eqn:Eg; [injection E as <- <-; split; [done|]; split_and!; done || lia|].
  apply orb_false_iff in Eg as [[E1 E2]%orb_false_iff E3]. assert (0 <= num < count) as Hnum by lia.
  assert (attempts s num <= NonMaxRetransmit config) as Hat by lia.
  destruct (Sender_Block_spec (s1_sender s) body num (so1_sender _ _ Hok)) as (sn & Hblk & Hsn & Esz);
    [by rewrite (so1_sender_szx _ _ Hok), Ez|]. rewrite (so1_sender_szx _ _ Hok), Ez in Hblk, Esz. rewrite Hblk in E.
  destruct (qi_sent _ Hi) as (nums & Hf & Hocc). destruct (qi_first _ Hi) as [Hsent Hhead].
  destruct (if 0 <? s1_sentRequests s then _ else _) as [x tok] eqn:Etok.
  assert (lg_sent x = lg_sent (s1_exchange s)) as Ex.
  { destruct (0 <? s1_sentRequests s); [|by injection Etok as <- _]. cbn in Etok. destruct (NewToken _). by injection Etok as <- _. }
  assert (forall k, occurrences k nums <= bump num k (attempts s k)) as Hocc1.
  { intros k. specialize (Hocc k). unfold bump. case_decide; lia. }
  destruct tok as [token|e]; cycle 1.
  { injection E as <- <-. fold (tried s num sn x (s1_sentRequests s)). rewrite total_tried by done. split; [|split_and!; done || lia].
    by apply (tried_inv _ _ _ _ _ nums); rewrite ?Ex. }
  destruct (part_block s token num Hi Hok0 Hnum) as (m & Ep & Hm & Htm). rewrite Ep in E.
  cbn [ExSend logged_exchange] in E. destruct (ExSend (lg_inner x) m) as [y e]. injection E as <- <-.
  fold (tried s num sn (mkLogged y (lg_sent x ++ [m])) (s1_sentRequests s + 1)). rewrite total_tried by done.
  split; [|split_and!; done || lia]. apply (tried_inv _ _ _ _ _ (nums ++ [num])); cbn [lg_sent]; rewrite ?Ex; try done.
  - intros k. rewrite occurrences_snoc. specialize (Hocc k). unfold bump. case_decide; lia.
  - by apply Forall2_app; [|constructor].
  - rewrite zlen_app. change (zlen [m]) with 1. lia.
  - intros m'. destruct (lg_sent (s1_exchange s)) as [|m1 l] eqn:El; [|by apply Hhead].
    intros [= <-]. change (zlen []) with 0 in Hsent. rewrite Hsent in Etok. cbn in Etok. injection Etok as _ <-. by rewrite Htm, Er.
Qed.

Context (Hok0 : q1_sender_ok body s0) (Hpayloads : 0 < MaxPayloads config).

Lemma progress_inv s next retries pending deadline :
  q1_inv s -> 0 <= next <= count -> q1_inv (s1_with_progress s next retries pending deadline).
Proof. intros [[] H2 H3 H4 H5 H6] Hn. split; try done. Qed.

Lemma send_blocks_inv nums : forall s s' err,
  q1_inv s -> send config s nums = (s', err) ->
  q1_inv s' /\ total s <= total s' /\ (err = None -> total s' = total s + zlen nums).
Proof.
  induction nums as [|num nums IH]; intros s s' err Hi E; cbn [send] in E.
  - injection E as <- <-. split; [done|]. change (zlen (@nil Z)) with 0. lia.
  - destruct (sendBlock config s num) as [s1 e] eqn:E1. destruct (sendBlock_inv _ _ _ _ Hi Hok0 E1) as (Hi1 & _ & Ht & Ht').
    destruct e as [e|]; [injection E as <- <-; by split_and!|]. apply IH in E as (Hi2 & Ht2 & Ht2'); [|done].
    specialize (Ht' eq_refl). split; [done|]. split; [lia|]. intros He. rewrite (Ht2' He), zlen_cons. lia.
Qed.

Lemma sendSet_inv s s' err :
  q1_inv s -> s1_next s < count -> sendSet config s = (s', err) -> q1_inv s' /\ total s <= total s' /\ (err = None -> total s < total s').
Proof.
  intros Hi Hn E. unfold sendSet in E. rewrite (so1_count _ _ (qi_ok _ Hi)) in E. destruct (qi_fixed _ Hi) as (_ & Ez & _). rewrite Ez in E.
  fold count in E. pose proof (qi_next _ Hi). set (M := MaxPayloads config) in *. set (l := setLast M (s1_next s) count) in E.
  assert (s1_next s < l + 1 <= count) as Hl.
  { unfold l, setLast. rewrite Z.quot_div_nonneg by lia. pose proof (Z.mul_succ_div_gt (s1_next s) M ltac:(lia)). lia. }
  apply send_blocks_inv in E as (Hi' & Ht & Ht'); [|apply progress_inv; [done|lia]]. split; [done|].
  change (total (s1_with_progress s _ _ _ _)) with (total s) in *. split; [lia|]. intros He. rewrite (Ht' He).
  unfold zlen. rewrite length_seqZ. lia.
Qed.

Lemma timeout_inv s c s' err :
  q1_inv s -> timeout config s c = (s', err) -> q1_inv s' /\ total s <= total s' /\ (err = None -> total s < total s').
Proof.
  intros Hi E. unfold timeout in E. destruct c as [e|]; [injection E as <- <-; split_and!; done || lia|].
  destruct (s1_pendingRecovery s) as [|n pending].
  - rewrite (so1_count _ _ (qi_ok _ Hi)) in E. destruct (qi_fixed _ Hi) as (_ & Ez & _). rewrite Ez in E. fold count in E.
    destruct (Z.ltb_spec (s1_next s) count); [by eapply sendSet_inv|]. case_match; [injection E as <- <-; split_and!; done || lia|].
    apply send_blocks_inv in E as (Hi' & Ht & Ht'); [|apply progress_inv; [done|apply Hi]].
    split; [done|]. change (total (s1_with_progress s _ _ _ _)) with (total s) in *. split; [done|]. intros He. rewrite (Ht' He).
    change (zlen [count - 1]) with 1. lia.
  - apply send_blocks_inv in E as (Hi' & Ht & Ht'); [|apply progress_inv; [done|apply Hi]].
    split; [done|]. change (total (s1_with_progress s _ _ _ _)) with (total s) in *. split; [done|]. intros He. rewrite (Ht' He), zlen_cons.
    pose proof (zlen_nonneg pending). lia.
Qed.

Lemma continuation_inv s now m s' adv err : q1_inv s -> continuation config s now m = (s', adv, err) -> q1_inv s' /\ total s <= total s'.
Proof.
  intros Hi E. unfold continuation in E. destruct (q1ContinueNUM m) as [num|]; [|injection E as <- _ _; split; done || lia].
  cbv zeta in E. set (rec := match s1_pendingRecovery s with [] => false | _ => true end) in E.
  set (s1 := if rec && _ then _ else s) in E. assert (q1_inv s1 /\ total s1 = total s) as [Hi1 Et1].
  { subst s1. destruct rec; cbn [andb]; [|done]. destruct (_ <=? num); [|done].
    split; [apply progress_inv; [done|apply Hi]|done]. }
  clearbody s1. rewrite <- Et1. case_match.
  { injection E as <- _ _. split; [apply progress_inv; [done|apply Hi1]|]. change (total (s1_with_progress _ _ _ _ _)) with (total s1). lia. }
  destruct (_ || _) eqn:Eg; [injection E as <- _ _; split; done || lia|]. apply orb_false_iff in Eg as [_ Eg].
  destruct (sendSet config s1) as [s2 e] eqn:E2. injection E as <- _ _. apply sendSet_inv in E2 as (H2 & Ht2 & _); [done|done|].
  rewrite (so1_count _ _ (qi_ok _ Hi1)) in Eg. destruct (qi_fixed _ Hi1) as (_ & Ez & _). rewrite Ez in Eg. fold count in Eg. lia.
Qed.

Lemma missing_inv s m s' err : q1_inv s -> missing config s m = (s', err) -> q1_inv s' /\ total s <= total s'.
Proof.
  intros Hi E. unfold missing in E. destruct (e_GetOptionUint32 m ContentFormat) as [format fe].
  case_match; [injection E as <- _; split; done || lia|]. destruct (DecodeMissingBlocks [] (readQBody m)) as [nums de].
  case_match; [injection E as <- _; split; done || lia|].
  apply send_blocks_inv in E as (Hi' & Ht & _); [|apply progress_inv; [done|apply Hi]]. done.
Qed.

Definition is_timeout (rx : reception) : bool := match rx_result rx with Err _ => true | Ok _ => false end.

Lemma q1_step_inv s rx s' out :
  q1_inv s -> q1_step config s rx = (s', out) ->
  q1_inv s' /\ total s <= total s' /\ (is_timeout rx = true -> out = Q1Wait -> total s < total s').
Proof.
  intros Hi E. assert (forall s1, q1_inv s1 -> q1_inv (wait_until config s1 (rx_now rx)) /\ total (wait_until config s1 (rx_now rx)) = total s1) as Hw.
  { intros s1 H1. split; [apply progress_inv; [done|apply H1]|done]. }
  unfold q1_step, is_timeout in *. destruct (rx_result rx) as [m|e].
  - assert (q1_inv s' /\ total s <= total s') as [? ?]; [|done]. case_match.
    + destruct (continuation _ _ _ _) as [[s1 adv] err] eqn:E1. apply continuation_inv in E1 as [H1 Ht1]; [|done].
      destruct err; [by injection E as <- _|]. destruct adv; cbn [negb] in E; injection E as <- _; [|done].
      destruct (Hw s1 H1) as [? ->]. done.
    + case_match.
      * destruct (missing _ _ _) as [s1 err] eqn:E1. apply missing_inv in E1 as [H1 Ht1]; [|done].
        destruct err; injection E as <- _; [done|]. destruct (Hw s1 H1) as [? ->]. done.
      * destruct (final _ _); injection E as <- _; split; done || lia.
  - destruct (timeout _ _ _) as [s1 err] eqn:E1. apply timeout_inv in E1 as (H1 & Ht1 & Ht1'); [|done].
    destruct err; injection E as <- <-; [by split_and!|]. destruct (Hw s1 H1) as [? ->]. split; [done|]. split; [done|]. intros _ _. by apply Ht1'.
Qed.

(** ** Whole runs *)

(** The sender as far as it is a sender: [q1_run] without the reception of a long response. *)
Fixpoint q1_walk s (rxs : list reception) : q1BodySender (logged X) * q1_outcome :=
  match rxs with
  | [] => (s, Q1Wait)
  | rx :: rxs => let '(s, out) := q1_step config s rx in match out with Q1Wait => q1_walk s rxs | _ => (s, out) end
  end.

Definition q1_trace s (now : Z) (rxs : list reception) : q1BodySender (logged X) * q1_outcome :=
  let '(s, err) := q1_first config s now in match err with Some e => (s, Q1Done (Err e)) | None => q1_walk s rxs end.

Lemma q1_run_trace bu s now rxs :
  exists rest now', q1_run config bu s now rxs =
    match q1_trace s now rxs with
    | (s', Q1Wait) => (s1_exchange s', bu, None)
    | (s', Q1Done r) => (s1_exchange s', bu, Some r)
    | (s', Q1Follow req m) =>
        let '(q2, bu, r) := ReceiveQBlock2 config bu req (s1_szx s') (s1_exchange s') (Some (m, now')) rest in (r_exchange q2, bu, r)
    end.
Proof.
  unfold q1_run, q1_trace. destruct (q1_first config s now) as [s1 [e|]]; [by exists [], 0|].
  revert s1. induction rxs as [|rx rxs IH]; intros s1; [by exists [], 0|]. cbn [q1_loop q1_walk].
  destruct (q1_step config s1 rx) as [s2 [|r|req m]]; [apply IH|by exists [], 0|by exists rxs, (rx_now rx)].
Qed.

Definition timeouts_in (rxs : list reception) : Z := zlen (filter (fun rx => is_timeout rx = true) rxs).

Lemma walk_inv rxs : forall s, q1_inv s ->
  q1_inv (q1_walk s rxs).1 /\ ((q1_walk s rxs).2 = Q1Wait -> total s + timeouts_in rxs <= total (q1_walk s rxs).1).
Proof.
  induction rxs as [|rx rxs IH]; intros s Hi; [split; [done|intros _; change (timeouts_in []) with 0; cbn; lia]|]. cbn [q1_walk].
  assert (timeouts_in (rx :: rxs) = (if is_timeout rx then 1 else 0) + timeouts_in rxs) as Et.
  { unfold timeouts_in. destruct (is_timeout rx) eqn:E.
    - rewrite filter_cons_True by done. by rewrite zlen_cons.
    - rewrite filter_cons_False by congruence. done. }
  destruct (q1_step config s rx) as [s1 out] eqn:E. apply q1_step_inv in E as (H1 & Ht & Ht'); [|done].
  destruct out; [|by split..]. destruct (IH s1 H1) as [H2 Hw]. split; [done|]. intros Hout. specialize (Hw Hout). rewrite Et.
  destruct (is_timeout rx); [specialize (Ht' eq_refl eq_refl); lia|lia].
Qed.

Lemma total_bound s : q1_inv s -> 0 <= count -> total s <= count * (NonMaxRetransmit config + 1).
Proof.
  intros Hi Hc. unfold total. assert (forall l, zsum (attempts s) l <= zlen l * (NonMaxRetransmit config + 1)) as Hl.
  { induction l as [|k l IH]; [done|]. cbn [zsum]. rewrite zlen_cons. pose proof (qi_attempts _ Hi k). lia. }
  specialize (Hl (seqZ 0 count)). unfold zlen in Hl. rewrite length_seqZ, Z2Nat.id in Hl by done. done.
Qed.

Lemma trace_inv now rxs :
  q1_inv s0 -> 0 < count -> s1_next s0 = 0 -> 0 <= total s0 ->
  q1_inv (q1_trace s0 now rxs).1 /\ ((q1_trace s0 now rxs).2 = Q1Wait -> timeouts_in rxs <= count * (NonMaxRetransmit config + 1)).
Proof.
  intros Hi Hc Hn H0. unfold q1_trace, q1_first. destruct (sendSet config s0) as [s1 e] eqn:E1.
  apply sendSet_inv in E1 as (H1 & Ht & _); [|done|lia]. destruct e as [e|]; [done|].
  set (s2 := s1_with_progress s1 _ _ _ _). assert (q1_inv s2) as H2 by (apply progress_inv; [done|apply H1]).
  destruct (walk_inv rxs s2 H2) as [H3 Hw]. split; [done|]. intros Hout. specialize (Hw Hout).
  pose proof (total_bound _ H3 ltac:(lia)). change (total s2) with (total s1) in Hw. lia.
Qed.
End Sends.

Section Theorems.
Context {X : Type} `{!QExchange X} (config : Config) (x : X) (r : EMsg) (body tag : list byte) (szx delay : Z) (remote : addr).
Context (Hmethod : isBodyMethod (e_code r) = true) (Hsorted : sorted_opts (e_options r)) (Hobserve : vals (e_options r) Observe = []).
Context (Hszx : 0 <= szx) (Hsize : zlen body < 2 ^ 32) (Htag : zlen tag <= 8).
Context (sender : Sender Reader) (Hsender : NewSender (Some (NewReader body)) szx (zlen body) = Ok sender).
Context (Hnmr : 0 <= NonMaxRetransmit config) (Hpayloads : 0 < MaxPayloads config).
Let count := block_count (SZX_Size szx) (zlen body).
Let s0 := q1_start r sender (mkLogged x []) tag (zlen body) szx delay.

Lemma NewSender_fits : sender = mkSender (NewReader body) szx (zlen body) /\ szx <= 6 /\ 1 <= count <= maxQBlockNumber + 1.
Proof.
  revert Hsender. unfold NewSender. pose proof (zlen_nonneg body). change qBlockMaxSZX with 6.
  destruct (Z.ltb_spec 6 szx); [done|]. destruct (Z.ltb_spec (zlen body) 0); [lia|]. cbn [orb].
  pose proof (SZX_Size_bounds szx ltac:(lia)) as Hbs. destruct (Z.leb_spec (SZX_Size szx) 0); [lia|].
  unfold qBlockMaxNUM. case_match; [done|]. intros [= <-]. split; [done|]. split; [lia|].
  pose proof (block_count_pos (SZX_Size szx) (zlen body) ltac:(lia) ltac:(lia)) as Hpos. fold count in Hpos. split; [lia|].
  destruct (quot_count (zlen body) (SZX_Size szx) ltac:(lia) ltac:(lia)) as [Hq _]. fold count in Hq. unfold maxQBlockNumber.
  destruct (Z.ltb_spec 0 (zlen body)).
  - replace (Z.max (zlen body) 1) with (zlen body) in Hq by lia. lia.
  - replace (Z.max (zlen body) 1) with 1 in Hq by lia. replace (1 - 1) with 0 in Hq by lia. rewrite Z.quot_0_l in Hq by lia. lia.
Qed.

Lemma start_ok : q1_sender_ok body s0.
Proof.
  destruct NewSender_fits as (-> & Hz & Hc). pose proof (SZX_Size_bounds szx ltac:(lia)). pose proof (zlen_nonneg body).
  destruct (quot_count (zlen body) (SZX_Size szx) ltac:(lia) ltac:(lia)) as [_ Hq].
  split; cbn -[Z.max Z.quot]; try done; try lia. split; cbn; try done; try lia. fold count. unfold maxQBlockNumber in Hc. unfold qBlockMaxNUM. lia.
Qed.

Lemma start_inv : q1_inv config body remote s0 s0.
Proof.
  pose proof start_ok. destruct NewSender_fits as (_ & _ & Hc). split; try done.
  - intros k. unfold attempts. cbn. rewrite lookup_empty. cbn. lia.
  - cbn. fold count. lia.
  - exists []. split; [constructor|]. intros k. unfold attempts. cbn. by rewrite lookup_empty.
Qed.

Lemma start_total : total body s0 s0 = 0.
Proof.
  unfold total. generalize (seqZ 0 (block_count (SZX_Size (s1_szx s0)) (zlen body))). intros l.
  induction l as [|k l IH]; [done|]. cbn [zsum]. rewrite IH. unfold attempts. cbn. by rewrite lookup_empty.
Qed.

(** Whatever a peer answers, a Q-Block1 sender sends nothing but blocks of its body that
    a server accepts (the messages are those of [qblock1_upload], all under one key), each
    block at most [NonMaxRetransmit] + 1 times, and the first message has the token of the
    request. *)
Theorem q1_sends_blocks (now : Z) (rxs : list reception) :
  let sent := lg_sent (s1_exchange (q1_trace config s0 now rxs).1) in
  let key := q1TransferKey (q1_part s0 [] 0 false []).1 remote tag in
  (exists nums, Forall2 (upload_block body tag key szx (e_type r) remote) sent nums /\
    forall k, occurrences k nums <= NonMaxRetransmit config + 1) /\
  forall m, head sent = Some m -> e_token m = e_token r.
Proof.
  intros sent key. destruct NewSender_fits as (_ & _ & Hc).
  destruct (trace_inv config body remote s0 ltac:(cbn; fold count; lia) start_ok Hpayloads now rxs start_inv ltac:(cbn; fold count; lia) eq_refl
    ltac:(by rewrite start_total)) as [Hi _].
  split; [|exact (proj2 (qi_first _ _ _ _ _ Hi))]. destruct (qi_sent _ _ _ _ _ Hi) as (nums & Hf & Hocc). exists nums. split; [exact Hf|].
  intros k. specialize (Hocc k). pose proof (qi_attempts _ _ _ _ _ Hi k). lia.
Qed.

(** C24: a Q-Block1 sender gives up: it survives at most ([NonMaxRetransmit] + 1) timeouts per
    block of the body, in whatever order continuations, reports of missing blocks and
    timeouts come; after that it has failed, has its response, or follows a long one. *)
Theorem q1_gives_up (now : Z) (rxs : list reception) (Htimeouts : count * (NonMaxRetransmit config + 1) < timeouts_in rxs) :
  (q1_trace config s0 now rxs).2 <> Q1Wait.
Proof.
  destruct NewSender_fits as (_ & _ & Hc). intros Hout.
  destruct (trace_inv config body remote s0 ltac:(cbn; fold count; lia) start_ok Hpayloads now rxs start_inv ltac:(cbn; fold count; lia) eq_refl
    ltac:(by rewrite start_total)) as [_ Hw]. specialize (Hw Hout). cbn in Hw. fold count in Hw. lia.
Qed.
End Theorems.

(** ** An example *)
Module SenderSample.
Import DownloadSample.
Definition post : EMsg := mkEMsg POST [8] [mkOption URIPath [97]] NonConfirmable 0 (Some page) None.
Definition silence : reception := mkReception Second (Err (ErrOther "context deadline exceeded")) None.
Definition sender : Sender Reader := mkSender (NewReader page) 0 20.
Definition start : q1BodySender (logged mailbox) := q1_start post sender (mkLogged (mkMailbox [] 100) []) [7] (zlen page) 0 0.

Lemma post_sorted : sorted_opts (e_options post).
Proof. apply Sorted.SSorted_cons; [apply Sorted.SSorted_nil|done]. Qed.

(** Two blocks, then the last one again. *)
Lemma q1_sends_blocks_witness :
  length (lg_sent (s1_exchange (q1_trace DefaultConfig start 0 [silence]).1)) = 3%nat /\
  exists nums, Forall2 (upload_block page [7] (q1TransferKey (q1_part start [] 0 false []).1 None [7]) 0 NonConfirmable None)
    (lg_sent (s1_exchange (q1_trace DefaultConfig start 0 [silence]).1)) nums.
Proof.
  split; [vm_compute; reflexivity|].
  destruct (q1_sends_blocks DefaultConfig (mkMailbox [] 100) post page [7] 0 0 None eq_refl post_sorted eq_refl ltac:(lia)
    ltac:(vm_compute; reflexivity) ltac:(vm_compute; discriminate) sender eq_refl ltac:(vm_compute; discriminate)
    ltac:(vm_compute; reflexivity) 0 [silence]) as [(nums & Hf & _) _].
  exists nums. exact Hf.
Defined.

Lemma q1_gives_up_witness : (q1_trace DefaultConfig start 0 (replicate 11 silence)).2 <> Q1Wait.
Proof.
  apply (q1_gives_up DefaultConfig (mkMailbox [] 100) post page [7] 0 0 None eq_refl post_sorted eq_refl ltac:(lia)
    ltac:(vm_compute; reflexivity) ltac:(vm_compute; discriminate) sender eq_refl ltac:(vm_compute; discriminate)
    ltac:(vm_compute; reflexivity) 0 (replicate 11 silence)). vm_compute. reflexivity.
Defined.
End SenderSample.
