(* ===== verification/QConn.v ===== *)
(** * Q-Blocks on a UDP connection (src/udp/client/qblock.go)

    What a connection offers to the Q-Block engine: the routes that collect the responses
    to a body under all its tokens, the table of scheduled jobs, the rate of probes to a
    silent peer, the identifiers of notifications, and the choice of a block size.

    A route is an object that the table of tokens and its user share: routes have numbers
    here, [qc_objects] holds them, and [qc_routes] maps tokens to numbers.  The counter of
    retained tokens is shared by all connections of the process; [qc_retained] is its
    value.  Methods run under the locks [qRoutesMu], [qJobsMu] or [qRateMu]. *)
From stdpp Require Import prelude list strings gmap.
From Stdlib Require Import ZArith Lia.
From S2P Require Import UdpReliability TcpConn KeepAlive Prelude Cast Codes OptionCodec Options Message PoolMessage BlockCodec Assembly.
From S2P Require Import Observation EngineMessage ResponseWriter ExchangeKey Blockwise TableSum QBudget QEngine QServe QReceive.
#[local] Open Scope Z_scope.

Definition errEmptyToken : error := ErrOther "Q-Block token generator returned an empty token".
Definition errActiveToken : error := ErrOther "Q-Block token generator returned an active token".
Definition errTokenCapacity : error := ErrOther "Q-Block token capacity exhausted".
Definition errTransferToken : error := ErrOther "Q-Block requires a nonempty transfer token".
Definition errRouteCapacity : error := ErrOther "Q-Block transfer token is active or route capacity exhausted".
Definition errNotBound : error := ErrOther "Q-Block request token is not bound to this body".
Definition errQueueCapacity : error := ErrOther "Q-Block response route capacity exhausted".
Definition ErrQBlockDisabled : error := ErrOther "Q-Block is disabled".

Definition maxRetainedTokens : Z := 262144.

(** ** State *)

(** [qBlockRoute]; [ro_messages] is the channel with its capacity, [ro_ctxDone] says that
    the context of the body is done. *)
Record qBlockRoute : Type := mkRoute {
  ro_tokens : gset (list byte);
  ro_closed : bool;
  ro_closeErr : option error;
  ro_ctxDone : bool;
  ro_messages : list EMsg;
  ro_capacity : Z
}.

(** Times of probes. *)
Record QRate : Type := mkRate {
  qPeerActivity : Z;
  qLastControl : Z;
  qControlNotBefore : Z;
  qLastBody : Z;
  qBodyNotBefore : Z;
  qBodyTag : list byte
}.

Record QConn : Type := mkQConn {
  qc_ctx : option error;
  qc_retained : Z;
  qc_routes : gmap (list byte) nat;
  qc_objects : gmap nat qBlockRoute;
  qc_activeRoutes : Z;
  qc_mids : gmap Z (list byte * Z);
  qc_jobs : gmap (list byte) (Z * qJob);
  qc_asyncSends : Z;
  qc_rate : QRate;
  qc_errors : list error
}.
Implicit Types (c : QConn).

Definition qc_with_routes c (retained : Z) (routes : gmap (list byte) nat) (objects : gmap nat qBlockRoute) (active : Z) : QConn :=
  mkQConn (qc_ctx c) retained routes objects active (qc_mids c) (qc_jobs c) (qc_asyncSends c) (qc_rate c) (qc_errors c).
Definition qc_with_mids c (retained : Z) (mids : gmap Z (list byte * Z)) : QConn :=
  mkQConn (qc_ctx c) retained (qc_routes c) (qc_objects c) (qc_activeRoutes c) mids (qc_jobs c) (qc_asyncSends c) (qc_rate c) (qc_errors c).
Definition qc_with_jobs c (jobs : gmap (list byte) (Z * qJob)) : QConn :=
  mkQConn (qc_ctx c) (qc_retained c) (qc_routes c) (qc_objects c) (qc_activeRoutes c) (qc_mids c) jobs (qc_asyncSends c) (qc_rate c) (qc_errors c).
Definition qc_with_async c (n : Z) : QConn :=
  mkQConn (qc_ctx c) (qc_retained c) (qc_routes c) (qc_objects c) (qc_activeRoutes c) (qc_mids c) (qc_jobs c) n (qc_rate c) (qc_errors c).
Definition qc_with_rate c (r : QRate) : QConn :=
  mkQConn (qc_ctx c) (qc_retained c) (qc_routes c) (qc_objects c) (qc_activeRoutes c) (qc_mids c) (qc_jobs c) (qc_asyncSends c) r (qc_errors c).
Definition qc_report c (e : error) : QConn :=
  mkQConn (qc_ctx c) (qc_retained c) (qc_routes c) (qc_objects c) (qc_activeRoutes c) (qc_mids c) (qc_jobs c) (qc_asyncSends c) (qc_rate c)
    (qc_errors c ++ [e]).
Definition qc_with_ctx c (e : option error) : QConn :=
  mkQConn e (qc_retained c) (qc_routes c) (qc_objects c) (qc_activeRoutes c) (qc_mids c) (qc_jobs c) (qc_asyncSends c) (qc_rate c) (qc_errors c).

Definition with_tokens (r : qBlockRoute) (tokens : gset (list byte)) : qBlockRoute :=
  mkRoute tokens (ro_closed r) (ro_closeErr r) (ro_ctxDone r) (ro_messages r) (ro_capacity r).
Definition with_messages (r : qBlockRoute) (messages : list EMsg) : qBlockRoute :=
  mkRoute (ro_tokens r) (ro_closed r) (ro_closeErr r) (ro_ctxDone r) messages (ro_capacity r).

(** ** Routes *)

(** The new value of the counter, if there is room. *)
Definition reserveQBlockToken (current : Z) : option Z := if maxRetainedTokens <=? current then None else Some (current + 1).

(** [generated] is what the connection's [GetToken] yields. *)
Definition route_NewToken c (id : nat) (generated : result (list byte)) : QConn * result (list byte) :=
  match generated with
  | Err e => (c, Err e)
  | Ok token =>
      if zlen token =? 0 then (c, Err errEmptyToken) else
      match qc_objects c !! id with
      | None => (c, Err ErrContext)
      | Some r =>
          if ro_closed r || (match qc_ctx c with Some _ => true | None => false end) || ro_ctxDone r then (c, Err ErrContext) else
          match qc_routes c !! token with
          | Some _ => (c, Err errActiveToken)
          | None =>
              if 131072 <=? Z.of_nat (size (ro_tokens r)) then (c, Err errTokenCapacity) else
              match reserveQBlockToken (qc_retained c) with
              | None => (c, Err errTokenCapacity)
              | Some n =>
                  (qc_with_routes c n (<[token := id]> (qc_routes c)) (<[id := with_tokens r ({[token]} ∪ ro_tokens r)]> (qc_objects c))
                     (qc_activeRoutes c), Ok token)
              end
          end
      end
  end.

(** [ctxErr] is the state of the context of the body. *)
Definition OpenQBlockExchange (maxPayloads : Z) c (ctxErr : option error) (token : list byte) : QConn * result nat :=
  match ctxErr with
  | Some e => (c, Err e)
  | None =>
      if zlen token =? 0 then (c, Err errTransferToken) else
      match qc_ctx c with
      | Some e => (c, Err e)
      | None =>
          if (match qc_routes c !! token with Some _ => true | None => false end) || (128 <=? qc_activeRoutes c) then (c, Err errRouteCapacity) else
          match reserveQBlockToken (qc_retained c) with
          | None => (c, Err errTokenCapacity)
          | Some n =>
              let id := fresh (dom (qc_objects c)) in
              let r := mkRoute {[token]} false None false [] (Z.max 32 (2 * maxPayloads)) in
              (qc_with_routes c n (<[token := id]> (qc_routes c)) (<[id := r]> (qc_objects c)) (qc_activeRoutes c + 1), Ok id)
          end
      end
  end.

(** Closing a route empties its queue too. *)
Definition closeWithError c (id : nat) (err : error) : QConn :=
  match qc_objects c !! id with
  | None => c
  | Some r =>
      if ro_closed r then c else
      qc_with_routes c (qc_retained c - Z.of_nat (size (ro_tokens r))) (foldr delete (qc_routes c) (elements (ro_tokens r)))
        (<[id := mkRoute ∅ true (Some err) (ro_ctxDone r) [] (ro_capacity r)]> (qc_objects c)) (qc_activeRoutes c - 1)
  end.

Definition route_Close c (id : nat) : QConn := closeWithError c id ErrContext.

(** The context of the body is done; the route is closed a moment later. *)
Definition route_ctx_done c (id : nat) : QConn :=
  match qc_objects c !! id with
  | None => c
  | Some r => qc_with_routes c (qc_retained c) (qc_routes c)
                (<[id := mkRoute (ro_tokens r) (ro_closed r) (ro_closeErr r) true (ro_messages r) (ro_capacity r)]> (qc_objects c))
                (qc_activeRoutes c)
  end.

Definition retireAliases c (id : nat) (token : list byte) : QConn :=
  match qc_objects c !! id with
  | None => c
  | Some r =>
      let gone := ro_tokens r ∖ {[token]} in
      qc_with_routes c (qc_retained c - Z.of_nat (size gone)) (foldr delete (qc_routes c) (elements gone))
        (<[id := with_tokens r (ro_tokens r ∖ gone)]> (qc_objects c)) (qc_activeRoutes c)
  end.

(** The part of [Receive] that does not wait. *)
Definition route_Receive c (id : nat) : QConn * option EMsg :=
  match qc_objects c !! id with
  | None => (c, None)
  | Some r =>
      match ro_messages r with
      | [] => (c, None)
      | m :: ms => (qc_with_routes c (qc_retained c) (qc_routes c) (<[id := with_messages r ms]> (qc_objects c)) (qc_activeRoutes c), Some m)
      end
  end.

Definition qBlockPeerProgress c (now : Z) : QConn :=
  let r := qc_rate c in
  qc_with_rate c (mkRate now (qLastControl r) (qControlNotBefore r) (qLastBody r) (qBodyNotBefore r) (qBodyTag r)).

Definition routeQBlockResponse c (now : Z) (m : EMsg) : QConn * bool :=
  if e_code m <? Created then (c, false) else
  match qc_routes c !! e_token m with
  | None => (c, false)
  | Some id =>
      let c := qBlockPeerProgress c now in
      match qc_objects c !! id with
      | None => (c, true)
      | Some r =>
          if ro_closed r then (c, true) else
          if zlen (ro_messages r) <? ro_capacity r
          then (qc_with_routes c (qc_retained c) (qc_routes c) (<[id := with_messages r (ro_messages r ++ [e_Clone m None])]> (qc_objects c))
                  (qc_activeRoutes c), true)
          else (qc_report c errQueueCapacity, true)
      end
  end.

Definition CancelObservation c (token : list byte) : QConn :=
  match qc_routes c !! token with Some id => route_Close c id | None => c end.

(** ** Notifications *)

Definition forget_mid c (mid : Z) : QConn := qc_with_mids c (qc_retained c - 1) (delete mid (qc_mids c)).

Definition is_q_notification (m : EMsg) : bool :=
  e_HasOption m Observe && e_HasOption m QBlock2 && (Created <=? e_code m) && negb (e_type m =? Acknowledgement).

Definition rememberQNotification (allowed : bool) c (now mid : Z) (m : EMsg) : QConn * option error :=
  if negb allowed then (c, None) else
  match qc_ctx c with
  | Some e => (c, Some e)
  | None =>
      let c := match qc_mids c !! mid with Some _ => forget_mid c mid | None => c end in
      if negb (is_q_notification m) then (c, None) else
      let c := if 4096 <=? Z.of_nat (size (qc_mids c))
               then let gone := filter (fun me : Z * (list byte * Z) => me.2.2 <= now) (map_to_list (qc_mids c)) in
                    qc_with_mids c (qc_retained c - zlen gone) (foldr delete (qc_mids c) gone.*1)
               else c in
      if 4096 <=? Z.of_nat (size (qc_mids c)) then (c, Some ErrQBlockTooLarge) else
      match reserveQBlockToken (qc_retained c) with
      | None => (c, Some ErrQBlockTooLarge)
      | Some n => (qc_with_mids c n (<[mid := (e_token m, now + ExchangeLifetime)]> (qc_mids c)), None)
      end
  end.

Definition forgetQNotificationToken c (token : list byte) : QConn :=
  let gone := filter (fun me : Z * (list byte * Z) => me.2.1 = token) (map_to_list (qc_mids c)) in
  qc_with_mids c (qc_retained c - zlen gone) (foldr delete (qc_mids c) gone.*1).

Definition checkQObservationCancellation c (m : EMsg) : QConn :=
  if negb (e_code m =? GET) then c else
  match e_GetOptionUint32 m Observe with
  | (observe, None) => if observe =? 1 then forgetQNotificationToken c (e_token m) else c
  | (_, Some _) => c
  end.

(** The token is that of the observation to cancel in the engine. *)
Definition handleQNotificationAcknowledgement c (now mid : Z) (m : EMsg) : QConn * option (list byte) :=
  if negb (e_type m =? Reset) && negb (e_type m =? Acknowledgement) then (c, None) else
  match qc_mids c !! mid with
  | None => (c, None)
  | Some (token, expires) =>
      let c := forget_mid c mid in
      if (now <? expires) && (e_type m =? Reset) then (forgetQNotificationToken c token, Some token) else (c, None)
  end.

(** ** Jobs *)

Definition conn_ScheduleQBlock c (key : list byte) (deadline : Z) (run : qJob) : QConn * option error :=
  match qc_ctx c with
  | Some e => (c, Some e)
  | None =>
      match qc_jobs c !! key with
      | None =>
          if 128 <=? Z.of_nat (size (qc_jobs c)) then (c, Some ErrQBlockScheduleFull)
          else (qc_with_jobs c (<[key := (deadline, run)]> (qc_jobs c)), None)
      | Some previous =>
          if previous.1 <? deadline then (c, None) else (qc_with_jobs c (<[key := (deadline, run)]> (qc_jobs c)), None)
      end
  end.

Definition conn_CancelQBlock c (key : list byte) : QConn := qc_with_jobs c (delete key (qc_jobs c)).

Definition conn_DelayQBlock c (key : list byte) (deadline : Z) : QConn :=
  match qc_jobs c !! key with
  | Some job => if job.1 <? deadline then qc_with_jobs c (<[key := (deadline, job.2)]> (qc_jobs c)) else c
  | None => c
  end.

(** The empty key stands for no job. *)
Definition nextQBlockJob c : list byte * (Z * qJob) :=
  fold_left (fun (acc : list byte * (Z * qJob)) kj => if bool_decide (acc.1 = []) || (kj.2.1 <? acc.2.1) then kj else acc)
    (map_to_list (qc_jobs c)) ([], (zeroTime, Q1Missing [])).

(** One round of the worker: the job to run, or the time to sleep. *)
Definition runQBlockJobs c (now : Z) : QConn * (qJob + Z) :=
  let '(next, job) := nextQBlockJob c in
  if negb (bool_decide (next = [])) && (job.1 <=? now) then (qc_with_jobs c (delete next (qc_jobs c)), inl job.2)
  else (c, inr (if negb (bool_decide (next = [])) then Z.max (job.1 - now) 0 else Hour)).

(** Asynchronous sends: the slot is taken, and given back when the send is over. *)
Definition begin_async c : QConn * option error :=
  match qc_ctx c with
  | Some e => (c, Some e)
  | None => if 128 <=? qc_asyncSends c then (c, Some ErrQBlockScheduleFull) else (qc_with_async c (qc_asyncSends c + 1), None)
  end.
Definition end_async c : QConn := qc_with_async c (qc_asyncSends c - 1).

Definition closeQBlocks c : QConn :=
  let c := qc_with_mids c (qc_retained c - Z.of_nat (size (qc_mids c))) ∅ in
  let routes := remove_dups (map_to_list (qc_routes c)).*2 in
  qc_with_jobs (fold_left route_Close routes c) ∅.

(** ** Probes *)

(** [jitter] is what the random source yields. *)
Definition qBlockProbingDelay (parameters : Config) (jitter size : Z) : Z :=
  Z.min (size * Second) (NonProbingWait parameters (NonTimeout parameters + jitter)).

(** The result is the time until which the message has to wait, if it has to. *)
Definition qBlockRateDeadline (parameters : Config) c (now jitter : Z) (control : bool) (bodyTag : list byte) (size : Z)
    : QConn * option Z :=
  let r := qc_rate c in
  if negb control && bool_decide (bodyTag = qBodyTag r) then (c, None) else
  let last_ := if control then qLastControl r else qLastBody r in
  let deadline := if control then qControlNotBefore r else qBodyNotBefore r in
  if (last_ =? zeroTime) || (last_ <? qPeerActivity r) || (deadline <=? now) then
    let until := now + qBlockProbingDelay parameters jitter size in
    (qc_with_rate c (if control then mkRate (qPeerActivity r) now until (qLastBody r) (qBodyNotBefore r) (qBodyTag r)
                     else mkRate (qPeerActivity r) (qLastControl r) (qControlNotBefore r) now until bodyTag), None)
  else (c, Some deadline).
