(* ===== verification/QRoutes.v ===== *)
(** * Routes, tokens and jobs of a connection

    Every method of [QConn] keeps the table of tokens and the routes in step, and the
    counters equal to what the tables hold.  Between two methods of this connection other
    connections of the process reserve and release tokens of the shared counter: a run is
    a sequence of operations on a pair of the connection and the tokens of the others. *)
From stdpp Require Import prelude list strings gmap.
From Stdlib Require Import ZArith Lia.
From S2P Require Import TcpConn KeepAlive Prelude Cast Codes OptionCodec Options Message PoolMessage BlockCodec Assembly.
From S2P Require Import Observation EngineMessage ResponseWriter ExchangeKey Blockwise TableSum QBudget QEngine QServe QReceive QConn.
#[local] Open Scope Z_scope.

(** ** Operations *)

Inductive qc_op : Type :=
  | OOpen (ctxErr : option error) (token : list byte)
  | ONewToken (id : nat) (generated : result (list byte))
  | OResponse (now : Z) (m : EMsg)
  | OTake (id : nat)
  | OClose (id : nat) (err : error)
  | OCtxDone (id : nat)
  | ORetire (id : nat) (token : list byte)
  | OCancelObservation (token : list byte)
  | ORemember (allowed : bool) (now mid : Z) (m : EMsg)
  | OCheckCancel (m : EMsg)
  | OAck (now mid : Z) (m : EMsg)
  | OSchedule (key : list byte) (deadline : Z) (run : qJob)
  | OCancelJob (key : list byte)
  | ODelay (key : list byte) (deadline : Z)
  | OWork (now : Z)
  | OAsync
  | OAsyncEnd
  | OProgress (now : Z)
  | ORate (parameters : Config) (now jitter : Z) (control : bool) (bodyTag : list byte) (size : Z)
  | OShutdown (err : error)
  | OCloseAll
  | OOthersReserve
  | OOthersRelease.

(** A route keeps the token it was opened with when it retires the others, a send ends
    after it began, and the context of a connection stays done. *)
Definition qc_step (maxPayloads : Z) (s : QConn * Z) (o : qc_op) : QConn * Z :=
  let '(c, others) := s in
  match o with
  | OOpen ctxErr token => ((OpenQBlockExchange maxPayloads c ctxErr token).1, others)
  | ONewToken id generated => ((route_NewToken c id generated).1, others)
  | OResponse now m => ((routeQBlockResponse c now m).1, others)
  | OTake id => ((route_Receive c id).1, others)
  | OClose id err => (closeWithError c id err, others)
  | OCtxDone id => (route_ctx_done c id, others)
  | ORetire id token =>
      (if bool_decide (qc_routes c !! token = Some id) then retireAliases c id token else c, others)
  | OCancelObservation token => (CancelObservation c token, others)
  | ORemember allowed now mid m => ((rememberQNotification allowed c now mid m).1, others)
  | OCheckCancel m => (checkQObservationCancellation c m, others)
  | OAck now mid m => ((handleQNotificationAcknowledgement c now mid m).1, others)
  | OSchedule key deadline run => ((conn_ScheduleQBlock c key deadline run).1, others)
  | OCancelJob key => (conn_CancelQBlock c key, others)
  | ODelay key deadline => (conn_DelayQBlock c key deadline, others)
  | OWork now => ((runQBlockJobs c now).1, others)
  | OAsync => ((begin_async c).1, others)
  | OAsyncEnd => (if 0 <? qc_asyncSends c then end_async c else c, others)
  | OProgress now => (qBlockPeerProgress c now, others)
  | ORate parameters now jitter control bodyTag size => ((qBlockRateDeadline parameters c now jitter control bodyTag size).1, others)
  | OShutdown err => (match qc_ctx c with Some _ => c | None => qc_with_ctx c (Some err) end, others)
  | OCloseAll => (closeQBlocks c, others)
  | OOthersReserve =>
      match reserveQBlockToken (qc_retained c) with
      | Some n => (qc_with_mids c n (qc_mids c), others + 1)
      | None => s
      end
  | OOthersRelease => if 0 <? others then (qc_with_mids c (qc_retained c - 1) (qc_mids c), others - 1) else s
  end.

Definition qc_run (maxPayloads : Z) (s : QConn * Z) (ops : list qc_op) : QConn * Z := fold_left (qc_step maxPayloads) ops s.

Definition qc_start (retained : Z) : QConn :=
  mkQConn None retained ∅ ∅ 0 ∅ ∅ 0 (mkRate zeroTime zeroTime zeroTime zeroTime zeroTime []) [].

(** ** Invariant *)

(** The table and the routes name each other. *)
Definition binds (routes : gmap (list byte) nat) (objects : gmap nat qBlockRoute) : Prop :=
  forall token id, routes !! token = Some id <-> exists r, objects !! id = Some r /\ token ∈ ro_tokens r.

Definition is_open (r : qBlockRoute) : Z := if ro_closed r then 0 else 1.

(** A route of its own. *)
Record route_ok (r : qBlockRoute) : Prop := mkRouteOk {
  route_closed : ro_closed r = true -> ro_tokens r = ∅ /\ ro_messages r = [];
  route_open : ro_closed r = false -> ro_tokens r <> ∅;
  route_queue : zlen (ro_messages r) <= ro_capacity r
}.

Record routes_ok (routes : gmap (list byte) nat) (objects : gmap nat qBlockRoute) (active : Z) : Prop := mkRoutesOk {
  routes_bind : binds routes objects;
  routes_each : map_Forall (fun _ r => route_ok r) objects;
  routes_active : active = table_sum is_open objects
}.

Definition tokens_held c : Z := Z.of_nat (size (qc_routes c)) + Z.of_nat (size (qc_mids c)).

Record qc_ok (s : QConn * Z) : Prop := mkQcOk {
  ok_routes : routes_ok (qc_routes s.1) (qc_objects s.1) (qc_activeRoutes s.1);
  ok_retained : qc_retained s.1 = tokens_held s.1 + s.2;
  ok_others : 0 <= s.2;
  ok_limit : qc_retained s.1 <= maxRetainedTokens;
  ok_active : qc_activeRoutes s.1 <= 128;
  ok_mids : Z.of_nat (size (qc_mids s.1)) <= 4096;
  ok_jobs : Z.of_nat (size (qc_jobs s.1)) <= 128;
  ok_async : 0 <= qc_asyncSends s.1 <= 128
}.

(** ** Changes of one route *)

Lemma lookup_foldr_delete_Some {K A} `{Countable K} (ks : list K) (m : gmap K A) k x :
  foldr delete m ks !! k = Some x <-> m !! k = Some x /\ k ∉ ks.
Proof.
  destruct (decide (k ∈ ks)) as [Hin|Hin]; [rewrite lookup_foldr_delete by done|rewrite lookup_foldr_delete_not_elem_of by done]; naive_solver.
Qed.

(** The tokens of [gone] leave the table with their route. *)
Lemma binds_remove routes objects id r r' gone :
  binds routes objects -> objects !! id = Some r -> gone ⊆ ro_tokens r -> ro_tokens r' = ro_tokens r ∖ gone ->
  binds (foldr delete routes (elements gone)) (<[id := r']> objects).
Proof.
  intros Hb Hr Hg Ht token j. unfold binds in Hb. rewrite lookup_foldr_delete_Some, Hb, elem_of_elements. destruct (decide (j = id)) as [-> |Hj].
  - rewrite lookup_insert_eq, Hr. split; [intros [(? & [= <-] & ?) ?]; exists r'; set_solver|intros (? & [= <-] & Hin); set_solver].
  - rewrite lookup_insert_ne by done. split; [tauto|]. intros (s & Hs & Hin). split; [eauto|]. intros Hgone.
    assert (routes !! token = Some j) as E1 by (apply Hb; eauto). assert (routes !! token = Some id) as E2 by (apply Hb; set_solver).
    congruence.
Qed.

(** A new token of an old or a new route. *)
Lemma binds_add routes objects id r' token :
  binds routes objects -> routes !! token = None ->
  ro_tokens r' = {[token]} ∪ from_option ro_tokens ∅ (objects !! id) ->
  binds (<[token := id]> routes) (<[id := r']> objects).
Proof.
  intros Hb Hn Ht t j. unfold binds in Hb. destruct (decide (t = token)) as [-> |Hne].
  - rewrite lookup_insert_eq. split; [intros [= <-]; exists r'; rewrite lookup_insert_eq; set_solver|].
    intros (s & Hs & Hin). destruct (decide (j = id)) as [-> |Hj]; [done|]. rewrite lookup_insert_ne in Hs by done.
    assert (routes !! token = Some j) by (apply Hb; eauto). congruence.
  - rewrite lookup_insert_ne, Hb by done. destruct (decide (j = id)) as [-> |Hj]; [|by rewrite lookup_insert_ne].
    rewrite lookup_insert_eq. split.
    + intros (s & Hs & Hin). rewrite Hs in Ht. exists r'. set_solver.
    + intros (s & [= <-] & Hin). rewrite Ht in Hin. destruct (objects !! id) as [s|]; cbn in Hin; [exists s|]; set_solver.
Qed.

(** A change that leaves the tokens. *)
Lemma binds_same routes objects id r r' :
  binds routes objects -> objects !! id = Some r -> ro_tokens r' = ro_tokens r -> binds routes (<[id := r']> objects).
Proof.
  intros Hb Hr Ht t j. unfold binds in Hb. rewrite Hb. destruct (decide (j = id)) as [-> |Hj]; [|by rewrite lookup_insert_ne].
  rewrite lookup_insert_eq, Hr. split; intros (s & [= <-] & Hin); eexists; (split; [done|]); by rewrite ?Ht, <- ?Ht in *.
Qed.

Lemma routes_ok_same routes objects active id r r' :
  routes_ok routes objects active -> objects !! id = Some r -> ro_tokens r' = ro_tokens r -> ro_closed r' = ro_closed r -> route_ok r' ->
  routes_ok routes (<[id := r']> objects) active.
Proof.
  intros [Hb He Ha] Hr Ht Hc Hok. split; [by eapply binds_same|by apply map_Forall_insert_2|].
  rewrite (table_sum_replace _ _ _ _ r), Ha by done. unfold is_open. rewrite Hc. lia.
Qed.

(** The size of the table after [gone] left it. *)
Lemma routes_size_remove routes objects id r gone :
  binds routes objects -> objects !! id = Some r -> gone ⊆ ro_tokens r ->
  Z.of_nat (size (foldr delete routes (elements gone))) = Z.of_nat (size routes) - Z.of_nat (size gone).
Proof.
  intros Hb Hr Hg. rewrite table_size_foldr_delete; [done|apply NoDup_elements|].
  intros t Ht. exists id. apply Hb. exists r. split; [done|]. apply Hg. by apply elem_of_elements.
Qed.

(** ** Operations on routes *)

Lemma qc_ok_NewToken c others id generated : qc_ok (c, others) -> qc_ok ((route_NewToken c id generated).1, others).
Proof.
  intros Hc. unfold route_NewToken, reserveQBlockToken. destruct generated as [token|e]; [|done]. destruct (zlen token =? 0); [done|].
  destruct (qc_objects c !! id) as [r|] eqn:Hr; [|done]. destruct (ro_closed r || _ || _) eqn:Ho; [done|].
  apply orb_false_elim in Ho as [[Hopen _]%orb_false_elim _]. destruct (qc_routes c !! token) eqn:Hn; [done|].
  destruct (131072 <=? _); [done|]. destruct (Z.leb_spec maxRetainedTokens (qc_retained c)); [done|]. cbn [fst].
  destruct Hc as [[Hb He Ha] Hret Hoth Hlim Hact Hm Hj Has]; unfold tokens_held in *; cbn in *.
  assert (route_ok r) as [Hcl Hop Hqu] by (by eapply He). split; unfold tokens_held; cbn; try done; try lia.
  - split; [apply binds_add; [done..|by rewrite Hr]| |rewrite (table_sum_replace _ _ _ _ r), Ha by done; unfold is_open; cbn; lia].
    apply map_Forall_insert_2; [|done]. split; cbn; [congruence|set_solver|done].
  - rewrite table_size_fresh by done. lia.
Qed.

Lemma qc_ok_Open maxPayloads c others ctxErr token :
  qc_ok (c, others) -> qc_ok ((OpenQBlockExchange maxPayloads c ctxErr token).1, others).
Proof.
  intros Hc. unfold OpenQBlockExchange, reserveQBlockToken. destruct ctxErr; [done|]. destruct (zlen token =? 0); [done|].
  destruct (qc_ctx c) eqn:Hctx; [done|]. destruct (_ || (128 <=? _)) eqn:Ho; [done|]. apply orb_false_elim in Ho as [Hn Hlt].
  destruct (Z.leb_spec maxRetainedTokens (qc_retained c)); [done|]. cbn [fst].
  assert (qc_routes c !! token = None) as Hnone by (by destruct (qc_routes c !! token)).
  assert (qc_objects c !! fresh (dom (qc_objects c)) = None) as Hf by (apply not_elem_of_dom, is_fresh).
  set (id := fresh (dom (qc_objects c))) in *.
  destruct Hc as [[Hb He Ha] Hret Hoth Hlim Hact Hm Hj Has]; unfold tokens_held in *; cbn in *. split; unfold tokens_held; cbn; try done; try lia.
  - split; [apply binds_add; [done..|rewrite Hf; set_solver]| |rewrite table_sum_fresh, Ha by done; unfold is_open; cbn; lia].
    apply map_Forall_insert_2; [|done]. split; cbn; [done|set_solver|change (zlen []) with 0; lia].
  - rewrite table_size_fresh by done. lia.
Qed.

Lemma qc_ok_close c others id err : qc_ok (c, others) -> qc_ok (closeWithError c id err, others).
Proof.
  intros Hc. unfold closeWithError. destruct (qc_objects c !! id) as [r|] eqn:Hr; [|done]. destruct (ro_closed r) eqn:Ho; [done|].
  destruct Hc as [[Hb He Ha] Hret Hoth Hlim Hact Hm Hj Has]; unfold tokens_held in *; cbn in *.
  assert (route_ok r) as [Hcl Hop Hqu] by (by eapply He). split; unfold tokens_held; cbn; try done; try lia.
  - split; [apply (binds_remove _ _ _ r); [done..|cbn; set_solver]| |].
    + apply map_Forall_insert_2; [|done]. split; cbn; [done|done|]. change (zlen []) with 0. pose proof (zlen_nonneg (ro_messages r)). lia.
    + rewrite (table_sum_replace _ _ _ _ r), Ha by done. unfold is_open. cbn. rewrite Ho. lia.
  - rewrite (routes_size_remove _ (qc_objects c) id r) by done. lia.
Qed.

Lemma qc_ok_retire c others id token :
  qc_routes c !! token = Some id -> qc_ok (c, others) -> qc_ok (retireAliases c id token, others).
Proof.
  intros Ht Hc. unfold retireAliases. destruct (qc_objects c !! id) as [r|] eqn:Hr; [|done].
  destruct Hc as [[Hb He Ha] Hret Hoth Hlim Hact Hm Hj Has]; unfold tokens_held in *; cbn in *.
  assert (token ∈ ro_tokens r) as Hin by (apply Hb in Ht as (? & ? & ?); by simplify_eq).
  assert (route_ok r) as [Hcl Hop Hqu] by (by eapply He). split; unfold tokens_held; cbn; try done; try lia.
  - split; [apply (binds_remove _ _ _ r); [done..|set_solver|done]| |].
    + apply map_Forall_insert_2; [|done]. split; cbn; [|set_solver|done]. intros E. destruct (Hcl E) as [E' ->]. set_solver.
    + rewrite (table_sum_replace _ _ _ _ r), Ha by done. unfold is_open. cbn. lia.
  - rewrite (routes_size_remove _ (qc_objects c) id r) by (done || set_solver). lia.
Qed.

(** A change of the messages or of the context of a route. *)
Lemma qc_ok_same c others id r r' :
  qc_ok (c, others) -> qc_objects c !! id = Some r -> ro_tokens r' = ro_tokens r -> ro_closed r' = ro_closed r -> route_ok r' ->
  qc_ok (qc_with_routes c (qc_retained c) (qc_routes c) (<[id := r']> (qc_objects c)) (qc_activeRoutes c), others).
Proof.
  intros [Hr Hret Hoth Hlim Hact Hm Hj Has] Hid Ht Hc Hok. split; cbn in *; try done. by eapply routes_ok_same.
Qed.

Lemma qc_ok_route c others id r : qc_ok (c, others) -> qc_objects c !! id = Some r -> route_ok r.
Proof. intros Hc Hr. apply (routes_each _ _ _ (ok_routes _ Hc) _ _ Hr). Qed.

Lemma qc_ok_take c others id : qc_ok (c, others) -> qc_ok ((route_Receive c id).1, others).
Proof.
  intros Hc. unfold route_Receive. destruct (qc_objects c !! id) as [r|] eqn:Hr; [|done]. destruct (ro_messages r) as [|m ms] eqn:Hm; [done|].
  destruct (qc_ok_route _ _ _ _ Hc Hr) as [Hcl Hop Hqu]. eapply qc_ok_same; [done..|]. rewrite Hm, zlen_cons in Hqu.
  split; cbn; [|done|lia]. intros E. destruct (Hcl E). congruence.
Qed.

Lemma qc_ok_ctx_done c others id : qc_ok (c, others) -> qc_ok (route_ctx_done c id, others).
Proof.
  intros Hc. unfold route_ctx_done. destruct (qc_objects c !! id) as [r|] eqn:Hr; [|done].
  destruct (qc_ok_route _ _ _ _ Hc Hr) as [Hcl Hop Hqu]. by eapply qc_ok_same.
Qed.

Lemma qc_ok_response c others now m : qc_ok (c, others) -> qc_ok ((routeQBlockResponse c now m).1, others).
Proof.
  intros Hc. unfold routeQBlockResponse. case_match; [done|]. case_match; [|done].
  match goal with |- context [qc_objects _ !! ?i] => rename i into id end.
  assert (qc_ok (qBlockPeerProgress c now, others)) as Hc' by (by destruct Hc; split).
  destruct (qc_objects (qBlockPeerProgress c now) !! id) as [r|] eqn:Hr; [|done]. destruct (ro_closed r) eqn:Ho; [done|].
  destruct (qc_ok_route _ _ _ _ Hc' Hr) as [Hcl Hop Hqu]. case_match; cbn [fst]; [|by destruct Hc'; split].
  eapply qc_ok_same; [done..|]. split; cbn; [congruence|done|]. rewrite zlen_app, zlen_cons. change (zlen []) with 0. lia.
Qed.

(** ** Notifications *)

Lemma qc_ok_with_mids c others n mids :
  qc_ok (c, others) -> Z.of_nat (size mids) <= 4096 -> n = qc_retained c - Z.of_nat (size (qc_mids c)) + Z.of_nat (size mids) ->
  n <= maxRetainedTokens -> qc_ok (qc_with_mids c n mids, others).
Proof.
  intros [Hr Hret Hoth Hlim Hact Hm Hj Has] Hsize -> Hn. unfold tokens_held in *. split; unfold tokens_held; cbn in *; try done; lia.
Qed.

(** Entries chosen by a test leave a table. *)
Lemma table_size_drop {K A} `{Countable K} (P : K * A -> Prop) `{forall x, Decision (P x)} (m : gmap K A) :
  Z.of_nat (size (foldr delete m (filter P (map_to_list m)).*1)) = Z.of_nat (size m) - zlen (filter P (map_to_list m)).
Proof.
  rewrite table_size_foldr_delete; [by rewrite zlen_fmap| |].
  - apply NoDup_fmap_fst; [|apply NoDup_filter, NoDup_map_to_list]. intros k x y [_ Hx]%list_elem_of_filter [_ Hy]%list_elem_of_filter.
    apply elem_of_map_to_list in Hx, Hy. congruence.
  - intros k Hk. apply list_elem_of_fmap in Hk as ([? x] & -> & Hk). apply list_elem_of_filter in Hk as [_ Hk].
    exists x. by apply elem_of_map_to_list.
Qed.

Lemma qc_ok_drop c others (P : Z * (list byte * Z) -> Prop) `{forall x, Decision (P x)} :
  qc_ok (c, others) ->
  qc_ok (qc_with_mids c (qc_retained c - zlen (filter P (map_to_list (qc_mids c)))) (foldr delete (qc_mids c) (filter P (map_to_list (qc_mids c))).*1), others).
Proof.
  intros Hc. pose proof (zlen_nonneg (filter P (map_to_list (qc_mids c)))). pose proof (ok_mids _ Hc). pose proof (ok_limit _ Hc). cbn in *.
  apply qc_ok_with_mids; [done|rewrite ?table_size_drop; lia..].
Qed.

Lemma qc_ok_forget_mid c others mid x : qc_mids c !! mid = Some x -> qc_ok (c, others) -> qc_ok (forget_mid c mid, others).
Proof.
  intros Hx Hc. pose proof (ok_mids _ Hc). pose proof (ok_limit _ Hc). cbn in *. unfold forget_mid.
  apply qc_ok_with_mids; [done|rewrite ?(table_size_delete _ _ x) by done; lia..].
Qed.

Lemma qc_ok_remember allowed c others now mid m : qc_ok (c, others) -> qc_ok ((rememberQNotification allowed c now mid m).1, others).
Proof.
  intros Hc. unfold rememberQNotification. destruct allowed; [|done]. cbn [negb]. destruct (qc_ctx c); [done|]. cbv zeta.
  set (c1 := match qc_mids c !! mid with Some _ => forget_mid c mid | None => c end).
  assert (qc_ok (c1, others)) as H1 by (subst c1; case_match; eauto using qc_ok_forget_mid).
  assert (qc_mids c1 !! mid = None) as N1.
  { subst c1. destruct (qc_mids c !! mid) eqn:E; [|done]. cbn. apply lookup_delete_eq. }
  clearbody c1. destruct (is_q_notification m); [|done]. cbn [negb].
  set (c2 := if 4096 <=? Z.of_nat (size (qc_mids c1)) then _ else c1).
  assert (qc_ok (c2, others)) as H2 by (subst c2; case_match; auto using qc_ok_drop).
  assert (qc_mids c2 !! mid = None) as N2.
  { subst c2. case_match; [|done]. cbn. apply eq_None_not_Some. intros [x Hx]. apply lookup_foldr_delete_Some in Hx as [Hx _]. congruence. }
  clearbody c2. destruct (Z.leb_spec 4096 (Z.of_nat (size (qc_mids c2)))); [done|]. unfold reserveQBlockToken.
  destruct (Z.leb_spec maxRetainedTokens (qc_retained c2)); [done|]. cbn [fst].
  apply qc_ok_with_mids; [done|rewrite ?table_size_fresh by done; lia..].
Qed.

Lemma qc_ok_ack c others now mid m : qc_ok (c, others) -> qc_ok ((handleQNotificationAcknowledgement c now mid m).1, others).
Proof.
  intros Hc. unfold handleQNotificationAcknowledgement. destruct (negb _ && _); [done|]. destruct (qc_mids c !! mid) as [[token expires]|] eqn:E; [|done].
  pose proof (qc_ok_forget_mid _ _ _ _ E Hc). destruct (_ && _); cbn [fst]; [|done]. unfold forgetQNotificationToken. by apply qc_ok_drop.
Qed.

Lemma qc_ok_check c others m : qc_ok (c, others) -> qc_ok (checkQObservationCancellation c m, others).
Proof.
  intros Hc. unfold checkQObservationCancellation. repeat case_match; try done. unfold forgetQNotificationToken. by apply qc_ok_drop.
Qed.

(** ** Jobs *)

Lemma qc_ok_with_jobs c others jobs : qc_ok (c, others) -> Z.of_nat (size jobs) <= 128 -> qc_ok (qc_with_jobs c jobs, others).
Proof. intros [Hr Hret Hoth Hlim Hact Hm Hj Has] Hs. by split. Qed.

Lemma delete_size_le {K A} `{Countable K} (m : gmap K A) k n : Z.of_nat (size m) <= n -> Z.of_nat (size (delete k m)) <= n.
Proof.
  intros Hs. destruct (m !! k) eqn:E; [rewrite (table_size_delete _ _ _ E); lia|by rewrite delete_id].
Qed.

Lemma insert_size_le {K A} `{Countable K} (m : gmap K A) k x y : m !! k = Some y -> size (<[k := x]> m) = size m.
Proof. intros E. apply map_size_insert_Some. eauto. Qed.

Lemma qc_ok_schedule c others key deadline run : qc_ok (c, others) -> qc_ok ((conn_ScheduleQBlock c key deadline run).1, others).
Proof.
  intros Hc. pose proof (ok_jobs _ Hc). unfold conn_ScheduleQBlock. destruct (qc_ctx c); [done|]. destruct (qc_jobs c !! key) eqn:E.
  - case_match; [done|]. apply qc_ok_with_jobs; [done|]. by rewrite (insert_size_le _ _ _ _ E).
  - destruct (Z.leb_spec 128 (Z.of_nat (size (qc_jobs c)))); [done|]. apply qc_ok_with_jobs; [done|]. rewrite table_size_fresh by done. cbn in *; lia.
Qed.

Lemma qc_ok_delay c others key deadline : qc_ok (c, others) -> qc_ok (conn_DelayQBlock c key deadline, others).
Proof.
  intros Hc. pose proof (ok_jobs _ Hc). unfold conn_DelayQBlock. destruct (qc_jobs c !! key) eqn:E; [|done]. case_match; [|done].
  apply qc_ok_with_jobs; [done|]. by rewrite (insert_size_le _ _ _ _ E).
Qed.

Lemma qc_ok_work c others now : qc_ok (c, others) -> qc_ok ((runQBlockJobs c now).1, others).
Proof.
  intros Hc. pose proof (ok_jobs _ Hc). unfold runQBlockJobs. destruct (nextQBlockJob c) as [next job]. case_match; [|done].
  apply qc_ok_with_jobs; [done|]. by apply delete_size_le.
Qed.

(** ** Closing *)

Definition all_closed c : Prop := map_Forall (fun _ r => ro_closed r = true) (qc_objects c).

Lemma close_closed c id err j r :
  qc_objects (closeWithError c id err) !! j = Some r -> ro_closed r = false -> qc_objects c !! j = Some r /\ j <> id.
Proof.
  unfold closeWithError. destruct (qc_objects c !! id) as [s|] eqn:Hs; [|intros Hr _; split; [done|congruence]].
  destruct (ro_closed s) eqn:Ho; cbn; [intros Hr Hc; split; [done|congruence]|]. intros Hr Hc.
  destruct (decide (j = id)) as [-> |Hj]; [rewrite lookup_insert_eq in Hr; by simplify_eq/=|by rewrite lookup_insert_ne in Hr].
Qed.

Lemma close_routes ids c others :
  qc_ok (c, others) -> (forall id r, qc_objects c !! id = Some r -> ro_closed r = false -> id ∈ ids) ->
  qc_ok (fold_left route_Close ids c, others) /\ all_closed (fold_left route_Close ids c).
Proof.
  revert c. induction ids as [|id ids IH]; intros c Hc Hin; cbn [fold_left].
  - split; [done|]. intros id r Hr. destruct (ro_closed r) eqn:E; [done|]. by apply (Hin id r Hr) in E as ?%elem_of_nil.
  - apply IH; [by apply qc_ok_close|]. intros j r Hr Ho. destruct (close_closed _ _ _ _ _ Hr Ho) as [Hj Hne].
    specialize (Hin j r Hj Ho). apply elem_of_cons in Hin as [-> | ?]; done.
Qed.

Lemma close_mids ids c : qc_mids (fold_left route_Close ids c) = qc_mids c.
Proof.
  revert c. induction ids as [|i ids IH]; intros c; [done|]. cbn [fold_left]. rewrite IH. unfold route_Close, closeWithError.
  destruct (qc_objects c !! i); [|done]. by destruct (ro_closed _).
Qed.

(** Nothing is open, so nothing is kept. *)
Lemma all_closed_empty c others : qc_ok (c, others) -> all_closed c -> qc_routes c = ∅ /\ qc_activeRoutes c = 0.
Proof.
  intros Hc Ha. destruct (ok_routes _ Hc) as [Hb He Hs]. cbn in *. split.
  - apply map_empty. intros t. apply eq_None_not_Some. intros [id (r & Hr & Hin)%Hb].
    destruct (route_closed _ (He _ _ Hr) (Ha _ _ Hr)) as [E _]. rewrite E in Hin. set_solver.
  - rewrite Hs, table_sum_list. clear -Ha. assert (forall id r, (id, r) ∈ map_to_list (qc_objects c) -> ro_closed r = true) as Hl.
    { intros id r Hr. eapply Ha. by apply elem_of_map_to_list. } clear Ha.
    induction (map_to_list (qc_objects c)) as [|[id r] l IH]; cbn; [done|]. rewrite IH by (intros j s Hj; apply (Hl j); by right).
    unfold is_open. rewrite (Hl id r) by left. done.
Qed.

Definition qc_quiet c : Prop :=
  qc_routes c = ∅ /\ qc_activeRoutes c = 0 /\ qc_mids c = ∅ /\ qc_jobs c = ∅.

Lemma qc_ok_CloseAll c others : qc_ok (c, others) -> qc_ok (closeQBlocks c, others) /\ all_closed (closeQBlocks c) /\ qc_quiet (closeQBlocks c).
Proof.
  intros Hc. unfold closeQBlocks. set (c1 := qc_with_mids c _ ∅). set (ids := remove_dups _).
  assert (qc_ok (c1, others)) as H1 by (pose proof (ok_limit _ Hc); cbn in *; apply qc_ok_with_mids; rewrite ?map_size_empty; done || lia).
  destruct (close_routes ids c1 others H1) as [H2 H3].
  { intros id r Hr Ho. destruct (ok_routes _ H1) as [Hb He _]. cbn [fst] in *. subst ids.
    destruct (set_choose_L (ro_tokens r)) as [t Ht]; [apply (route_open _ (He _ _ Hr)); done|].
    apply elem_of_remove_dups, list_elem_of_fmap. exists (t, id). split; [done|]. apply elem_of_map_to_list. apply Hb. eauto. }
  assert (qc_mids (fold_left route_Close ids c1) = ∅) as Hm.
  { by rewrite close_mids. }
  destruct (all_closed_empty _ _ H2 H3). split; [|done]. apply qc_ok_with_jobs; [done|]. by rewrite map_size_empty.
Qed.

(** ** Runs *)

Lemma qc_ok_start retained : 0 <= retained <= maxRetainedTokens -> qc_ok (qc_start retained, retained).
Proof.
  intros H. split; cbn; try done; try lia. split; [|done|done]. intros t id. rewrite lookup_empty. split; [done|]. intros (r & Hr & _).
  by rewrite lookup_empty in Hr.
Qed.

Lemma qc_ok_step maxPayloads s o : qc_ok s -> qc_ok (qc_step maxPayloads s o).
Proof.
  destruct s as [c others]. intros Hc. destruct o; cbn [qc_step];
    auto using qc_ok_Open, qc_ok_NewToken, qc_ok_response, qc_ok_take, qc_ok_close, qc_ok_ctx_done, qc_ok_remember, qc_ok_check, qc_ok_ack,
      qc_ok_schedule, qc_ok_delay, qc_ok_work.
  - case_bool_decide; auto using qc_ok_retire.
  - unfold CancelObservation, route_Close. case_match; auto using qc_ok_close.
  - unfold conn_CancelQBlock. apply qc_ok_with_jobs; [done|]. apply delete_size_le, (ok_jobs _ Hc).
  - unfold begin_async. destruct (qc_ctx c); [done|]. destruct (Z.leb_spec 128 (qc_asyncSends c)); [done|].
    destruct Hc as [Hr Hret Hoth Hlim Hact Hm Hj Has]. split; cbn in *; done || lia.
  - destruct (Z.ltb_spec 0 (qc_asyncSends c)); [|done]. destruct Hc as [Hr Hret Hoth Hlim Hact Hm Hj Has]. split; cbn in *; done || lia.
  - by destruct Hc.
  - unfold qBlockRateDeadline. destruct (negb control && _); [done|]. cbv zeta. destruct (_ || _ || _); [|done]. by destruct Hc.
  - destruct (qc_ctx c); [done|]. by destruct Hc.
  - by apply qc_ok_CloseAll.
  - unfold reserveQBlockToken. destruct (Z.leb_spec maxRetainedTokens (qc_retained c)); [done|].
    destruct Hc as [Hr Hret Hoth Hlim Hact Hm Hj Has]. unfold tokens_held in *. split; unfold tokens_held; cbn in *; done || lia.
  - destruct (Z.ltb_spec 0 others); [|done].
    destruct Hc as [Hr Hret Hoth Hlim Hact Hm Hj Has]. unfold tokens_held in *. split; unfold tokens_held; cbn in *; done || lia.
Qed.

Lemma qc_ok_run maxPayloads ops s : qc_ok s -> qc_ok (qc_run maxPayloads s ops).
Proof. revert s. induction ops as [|o ops IH]; intros s Hs; [done|]. by apply IH, qc_ok_step. Qed.

(** The connection is done and holds nothing. *)
Record qc_shut c : Prop := mkShut { shut_ctx : is_Some (qc_ctx c); shut_closed : all_closed c; shut_quiet : qc_quiet c }.

Lemma shut_same c c' :
  qc_shut c -> qc_ctx c' = qc_ctx c -> qc_objects c' = qc_objects c -> qc_routes c' = qc_routes c -> qc_activeRoutes c' = qc_activeRoutes c ->
  qc_mids c' = qc_mids c -> qc_jobs c' = qc_jobs c -> qc_shut c'.
Proof. intros [Hx Ha (H1 & H2 & H3 & H4)] E1 E2 E3 E4 E5 E6. split; [by rewrite E1|unfold all_closed; by rewrite E2|]. unfold qc_quiet. by rewrite E3, E4, E5, E6. Qed.

Lemma shut_close c id err : qc_shut c -> closeWithError c id err = c.
Proof. intros [_ Ha _]. unfold closeWithError. destruct (qc_objects c !! id) as [r|] eqn:E; [|done]. by rewrite (Ha _ _ E). Qed.

Lemma shut_closes ids c : qc_shut c -> fold_left route_Close ids c = c.
Proof. intros Hs. induction ids as [|i ids IH]; [done|]. cbn [fold_left]. unfold route_Close at 2. by rewrite shut_close. Qed.

Lemma shut_objects c id r' :
  qc_shut c -> ro_closed r' = true -> qc_shut (qc_with_routes c (qc_retained c) (qc_routes c) (<[id := r']> (qc_objects c)) (qc_activeRoutes c)).
Proof. intros [Hx Ha Hq] Hr. split; [done| |done]. by apply map_Forall_insert_2. Qed.

Lemma shut_drop c P `{forall x, Decision (P x)} n : qc_shut c ->
  qc_shut (qc_with_mids c n (foldr delete (qc_mids c) (filter P (map_to_list (qc_mids c))).*1)).
Proof. intros [Hx Ha (H1 & H2 & H3 & H4)]. split; [done..|]. unfold qc_quiet. cbn. rewrite H3, map_to_list_empty. done. Qed.

(** No operation brings anything back. *)
Lemma shut_step maxPayloads s o : qc_ok s -> qc_shut s.1 -> qc_shut (qc_step maxPayloads s o).1.
Proof.
  destruct s as [c others]. cbn [fst]. intros Hok Hs. pose proof Hs as [[e Hx] Ha (H1 & H2 & H3 & H4)]. destruct o; cbn [qc_step fst].
  - unfold OpenQBlockExchange. rewrite Hx. destruct ctxErr; [done|]. by destruct (zlen token =? 0).
  - unfold route_NewToken. destruct generated as [token|]; [|done]. destruct (zlen token =? 0); [done|].
    destruct (qc_objects c !! id) as [r|] eqn:E; [|done]. by rewrite (Ha _ _ E).
  - unfold routeQBlockResponse. rewrite H1, lookup_empty. by destruct (e_code m <? Created).
  - unfold route_Receive. destruct (qc_objects c !! id) as [r|] eqn:E; [|done]. destruct (route_closed _ (qc_ok_route _ _ _ _ Hok E) (Ha _ _ E)) as [_ ->]. done.
  - by rewrite shut_close.
  - unfold route_ctx_done. destruct (qc_objects c !! id) as [r|] eqn:E; [|done]. apply shut_objects; [done|]. apply (Ha _ _ E).
  - rewrite H1, lookup_empty. by rewrite bool_decide_false.
  - unfold CancelObservation. by rewrite H1, lookup_empty.
  - unfold rememberQNotification. rewrite Hx. by destruct allowed.
  - unfold checkQObservationCancellation. destruct (negb _); [done|]. destruct (e_GetOptionUint32 m Observe) as [v [|]]; [done|].
    destruct (v =? 1); [|done]. by apply shut_drop.
  - unfold handleQNotificationAcknowledgement. rewrite H3, lookup_empty. by destruct (negb _ && _).
  - unfold conn_ScheduleQBlock. by rewrite Hx.
  - apply (shut_same c); [done..|]. cbn. by rewrite H4, delete_empty.
  - unfold conn_DelayQBlock. by rewrite H4, lookup_empty.
  - unfold runQBlockJobs, nextQBlockJob. rewrite H4, map_to_list_empty. done.
  - unfold begin_async. by rewrite Hx.
  - by destruct (0 <? qc_asyncSends c).
  - done.
  - unfold qBlockRateDeadline. destruct (negb control && _); [done|]. cbv zeta. by destruct (_ || _ || _).
  - by rewrite Hx.
  - unfold closeQBlocks. rewrite shut_closes; done.
  - by destruct (reserveQBlockToken _).
  - by destruct (0 <? others).
Qed.

Lemma shut_run maxPayloads ops s : qc_ok s -> qc_shut s.1 -> qc_shut (qc_run maxPayloads s ops).1.
Proof. revert s. induction ops as [|o ops IH]; intros s Hok Hs; [done|]. apply IH; [by apply qc_ok_step|by apply shut_step]. Qed.

(** C19: whatever a connection, its peer and the other connections of the process do, in any
    order: a token leads to a route exactly when that route holds it; a closed route holds
    no token and no message, an open one holds a token, and no route queues more than its
    capacity; the counter of retained tokens is the number of tokens of routes, of
    remembered notifications and of the other connections, and stays within 262144; at most
    128 routes are open, 128 jobs scheduled, 128 sends under way and 4096 notifications
    remembered.  Once the connection is done and [closeQBlocks] ran, there is no route, no
    notification and no job, only the tokens of the others are counted, and no later
    operation changes that. *)
Theorem q_conn_accounting maxPayloads retained ops :
  0 <= retained <= maxRetainedTokens ->
  let s := qc_run maxPayloads (qc_start retained, retained) ops in
  qc_ok s /\
  (forall later, is_Some (qc_ctx s.1) ->
    let s' := qc_run maxPayloads (closeQBlocks s.1, s.2) later in
    qc_quiet s'.1 /\ all_closed s'.1 /\ qc_retained s'.1 = s'.2).
Proof.
  intros Hr s. assert (qc_ok s) as Hs by (by apply qc_ok_run, qc_ok_start). split; [done|]. clearbody s. destruct s as [c others]. intros later Hx s'.
  destruct (qc_ok_CloseAll _ _ Hs) as (Hok & Ha & Hq). assert (qc_shut (closeQBlocks c)) as Hsh.
  { split; [|done|done]. unfold closeQBlocks. cbn. set (c1 := qc_with_mids _ _ _). assert (is_Some (qc_ctx c1)) as H1 by done. clearbody c1. revert c1 H1.
    induction (remove_dups _) as [|i ids IH]; intros c1 H1; [done|]. apply IH. unfold route_Close, closeWithError.
    destruct (qc_objects c1 !! i) as [r|]; [|done]. by destruct (ro_closed r). }
  assert (qc_shut s'.1) as [_ Ha' Hq'] by (by apply shut_run). assert (qc_ok s') as Hok' by (by apply qc_ok_run).
  split; [done|]. split; [done|]. rewrite (ok_retained _ Hok'). unfold tokens_held. destruct Hq' as (-> & _ & -> & _). by rewrite !map_size_empty.
Qed.

(** ** Example *)

Module RoutesSample.
Definition answer : EMsg := mkEMsg Content [2] [mkOption Observe [5]; mkOption QBlock2 [8]] NonConfirmable 0 (Some [1; 2; 3]) None.
Definition ops : list qc_op :=
  [OOpen None [1]; ONewToken 0 (Ok [2]); OOpen None [1]; OResponse 5 answer; OOthersRelease; ORemember true 6 77 answer;
   OSchedule [9] 100 (Q1Missing [9]); OAsync; ORetire 0 [1]; OResponse 7 answer; OOpen None [3]; OClose 1 ErrContext; OShutdown ErrContext].

Lemma q_conn_accounting_witness :
  let s := qc_run 10 (qc_start 3, 3) ops in
  qc_ok s /\ qc_activeRoutes s.1 = 1 /\ qc_retained s.1 = 4 /\ zlen (from_option ro_messages [] (qc_objects s.1 !! 0%nat)) = 1 /\
  qc_retained (qc_run 10 (closeQBlocks s.1, s.2) [OOpen None [4]; OAck 8 77 answer]).1 = 2.
Proof.
  split; [apply (q_conn_accounting 10 3 ops); unfold maxRetainedTokens; lia|]. split; [vm_compute; reflexivity|].
  split; [vm_compute; reflexivity|]. split; [vm_compute; reflexivity|].
  assert (is_Some (qc_ctx (qc_run 10 (qc_start 3, 3) ops).1)) as Hx by (exists ErrContext; vm_compute; reflexivity).
  destruct (q_conn_accounting 10 3 ops) as [_ H]; [unfold maxRetainedTokens; lia|].
  destruct (H [OOpen None [4]; OAck 8 77 answer] Hx) as (_ & _ & ->). vm_compute. reflexivity.
Defined.
End RoutesSample.
