(* ===== verification/QPacing.v ===== *)
(** * Scheduled jobs and the rate of probes

    The worker of [runQBlockJobs] runs the due jobs of a connection in the order of their
    deadlines.  [qBlockRateDeadline] spaces the probes to a peer that does not answer. *)
From stdpp Require Import prelude list sorting strings gmap.
From Stdlib Require Import ZArith Lia.
From S2P Require Import TcpConn KeepAlive Prelude Cast Codes OptionCodec Options Message PoolMessage BlockCodec Assembly.
From S2P Require Import Observation EngineMessage ResponseWriter ExchangeKey Blockwise TableSum QBudget QEngine QServe QReceive QConn.
#[local] Open Scope Z_scope.

(** ** The worker *)

(** An entry of the table. *)
Notation job_entry := (list byte * (Z * qJob))%type.

Definition deadline_le (a b : job_entry) : Prop := a.2.1 <= b.2.1.

Definition keys_nonempty c : Prop := map_Forall (fun k _ => k <> []) (qc_jobs c).

Lemma next_fold (l : list job_entry) acc :
  acc.1 <> [] -> Forall (fun kj => kj.1 <> []) l ->
  let next := fold_left (fun (acc : job_entry) kj => if bool_decide (acc.1 = []) || (kj.2.1 <? acc.2.1) then kj else acc) l acc in
  next ∈ acc :: l /\ Forall (deadline_le next) (acc :: l).
Proof.
  revert acc. unfold deadline_le. induction l as [|a l IH]; intros acc Hacc Hl; cbn [fold_left].
  - split; [left|]. by repeat constructor.
  - apply Forall_cons in Hl as [Ha Hl]. rewrite bool_decide_false by done. cbn [orb]. destruct (Z.ltb_spec a.2.1 acc.2.1) as [H|H].
    + destruct (IH a Ha Hl) as [Hin [H1 H2]%Forall_cons]. split; [by right|]. constructor; [lia|by constructor].
    + destruct (IH acc Hacc Hl) as [Hin [H1 H2]%Forall_cons]. split; [apply elem_of_cons in Hin as [-> | ?]; [left|by right; right]|].
      constructor; [done|]. constructor; [lia|done].
Qed.

(** The next job is one of the table and none is earlier. *)
Lemma nextQBlockJob_min c :
  keys_nonempty c -> qc_jobs c <> ∅ ->
  let '(k, j) := nextQBlockJob c in k <> [] /\ qc_jobs c !! k = Some j /\ map_Forall (fun _ j' => j.1 <= j'.1) (qc_jobs c).
Proof.
  intros Hk Hne. unfold nextQBlockJob. destruct (map_to_list (qc_jobs c)) as [|a l] eqn:E; [by apply map_to_list_empty_iff in E|].
  assert (Forall (fun kj : job_entry => kj.1 <> []) (a :: l)) as Hall.
  { rewrite <- E. apply Forall_forall. intros [k j] Hin%elem_of_map_to_list. apply (Hk _ _ Hin). }
  apply Forall_cons in Hall as [Ha Hl]. cbn [fold_left fst]. rewrite (bool_decide_true ([] = [])) by done. cbn [orb].
  destruct (next_fold l a Ha Hl) as [Hin Hmin]. destruct (fold_left _ l a) as [k j]. rewrite <- E in Hin, Hmin.
  apply elem_of_map_to_list in Hin. split; [apply (Hk _ _ Hin)|]. split; [done|]. intros k' j' Hj. rewrite Forall_forall in Hmin.
  apply (Hmin (k', j')). by apply elem_of_map_to_list.
Qed.

Lemma nextQBlockJob_empty c : qc_jobs c = ∅ -> (nextQBlockJob c).1 = [].
Proof. unfold nextQBlockJob. intros ->. by rewrite map_to_list_empty. Qed.

(** One round at a time when something is due, and when nothing is. *)
Lemma work_due c now k j :
  nextQBlockJob c = (k, j) -> k <> [] -> j.1 <= now -> runQBlockJobs c now = (qc_with_jobs c (delete k (qc_jobs c)), inl j.2).
Proof. intros E Hk Hj. unfold runQBlockJobs. rewrite E, bool_decide_false by done. cbn. by rewrite (proj2 (Z.leb_le _ _) Hj). Qed.

Lemma work_sleeps c now :
  keys_nonempty c -> map_Forall (fun _ j => now < j.1) (qc_jobs c) ->
  exists delay, runQBlockJobs c now = (c, inr delay) /\ 0 < delay /\ map_Forall (fun _ j => now + delay <= j.1) (qc_jobs c) /\
    (qc_jobs c = ∅ -> delay = Hour) /\ (qc_jobs c <> ∅ -> exists k j, qc_jobs c !! k = Some j /\ j.1 = now + delay).
Proof.
  intros Hk Hn. unfold runQBlockJobs. destruct (decide (qc_jobs c = ∅)) as [E|E].
  - pose proof (nextQBlockJob_empty _ E) as Hnext. destruct (nextQBlockJob c) as [k j]. cbn in Hnext. subst k. cbn.
    exists Hour. rewrite E. split; [done|]. split; [done|]. split; [apply map_Forall_empty|done].
  - pose proof (nextQBlockJob_min _ Hk E) as Hmin. destruct (nextQBlockJob c) as [k j]. destruct Hmin as (Hk0 & Hkj & Hmin).
    pose proof (Hn _ _ Hkj) as Hj. cbn in Hj. rewrite bool_decide_false by done. cbn [negb andb]. rewrite (proj2 (Z.leb_gt _ _) Hj).
    exists (Z.max (j.1 - now) 0). split; [done|]. split; [lia|]. split; [|split; [done|]].
    + intros k' j' Hj'. specialize (Hmin _ _ Hj'). cbn in Hmin. lia.
    + intros _. exists k, j. split; [done|lia].
Qed.

(** *** A wake-up *)

Section Worker.
(** [job.run()]: what it does with the connection, the table of jobs included, and its
    error.  What others do with the table meanwhile is part of it. *)
Context (run : qJob -> Z -> QConn -> QConn * option error).

Definition run_job_reported c (now : Z) (job : qJob) : QConn :=
  let '(c, err) := run job now c in
  match err, qc_ctx c with Some e, None => qc_report c e | _, _ => c end.

(** The rounds of the loop until it sleeps, each with what [time.Now] gives: the jobs that
    ran, with the time and the connection they were taken from, and the time and length of
    the sleep. *)
Fixpoint worker (clock : list Z) c : list (Z * QConn * job_entry) * QConn * option (Z * Z) :=
  match clock with
  | [] => ([], c, None)
  | now :: clock =>
      match runQBlockJobs c now with
      | (c', inl job) =>
          let '(ran, c'', sleep) := worker clock (run_job_reported c' now job) in ((now, c, nextQBlockJob c) :: ran, c'', sleep)
      | (c', inr delay) => ([], c', Some (now, delay))
      end
  end.

Context (Hkeys : forall job now c, keys_nonempty c -> keys_nonempty (run job now c).1).

Lemma reported_jobs c now job : qc_jobs (run_job_reported c now job) = qc_jobs (run job now c).1.
Proof. unfold run_job_reported. destruct (run job now c) as [c' [e|]]; [by destruct (qc_ctx c')|done]. Qed.

(** A round takes the earliest of the due jobs, or sleeps. *)
Lemma round_cases c now :
  keys_nonempty c ->
  (exists k j, nextQBlockJob c = (k, j) /\ qc_jobs c !! k = Some j /\ j.1 <= now /\ map_Forall (fun _ j' => j.1 <= j'.1) (qc_jobs c) /\
     runQBlockJobs c now = (qc_with_jobs c (delete k (qc_jobs c)), inl j.2)) \/
  map_Forall (fun _ j => now < j.1) (qc_jobs c).
Proof.
  intros Hk. destruct (decide (map_Forall (fun _ j => now < j.1) (qc_jobs c))) as [Hn|Hn]; [by right|left].
  assert (qc_jobs c <> ∅) as Hne by (intros E; apply Hn; rewrite E; apply map_Forall_empty).
  pose proof (nextQBlockJob_min _ Hk Hne) as Hmin. destruct (nextQBlockJob c) as [k j] eqn:E. destruct Hmin as (Hk0 & Hkj & Hmin).
  assert (j.1 <= now) as Hj.
  { destruct (decide (j.1 <= now)); [done|]. exfalso. apply Hn. intros k' j' Hj'. specialize (Hmin _ _ Hj'). cbn in *. lia. }
  exists k, j. split_and!; try done. by apply work_due.
Qed.

Lemma after_round_keys c now k (job : qJob) : keys_nonempty c -> keys_nonempty (run_job_reported (qc_with_jobs c (delete k (qc_jobs c))) now job).
Proof. intros Hk. unfold keys_nonempty. rewrite reported_jobs. apply Hkeys. by apply map_Forall_delete. Qed.

(** A job that ran was due and the earliest of the table. *)
Definition taken_when_due (x : Z * QConn * job_entry) : Prop :=
  let '(now, c, (k, j)) := x in qc_jobs c !! k = Some j /\ j.1 <= now /\ map_Forall (fun _ j' => j.1 <= j'.1) (qc_jobs c).

Lemma worker_takes_due clock c : keys_nonempty c -> Forall (fun x => taken_when_due x /\ x.1.1 ∈ clock) (worker clock c).1.1.
Proof.
  revert c. induction clock as [|now clock IH]; intros c Hk; [constructor|]. cbn [worker]. destruct (round_cases c now Hk) as [(k & j & E & Hkj & Hj & Hmin & ->)|Hn].
  - pose proof (IH (run_job_reported (qc_with_jobs c (delete k (qc_jobs c))) now j.2) (after_round_keys _ _ _ _ Hk)) as H.
    destruct (worker clock _) as [[ran c''] sleep]. constructor; [rewrite E; split; [done|left]|].
    eapply Forall_impl; [exact H|]. intros x [? ?]. split; [done|by right].
  - destruct (work_sleeps c now Hk Hn) as (delay & -> & _). constructor.
Qed.

(** The table and the length of a sleep. *)
Definition nothing_due c (sleep : Z * Z) : Prop :=
  let '(now, delay) := sleep in
  0 < delay /\ map_Forall (fun _ j => now + delay <= j.1) (qc_jobs c) /\
  (qc_jobs c = ∅ -> delay = Hour) /\ (qc_jobs c <> ∅ -> exists k j, qc_jobs c !! k = Some j /\ j.1 = now + delay).

Lemma worker_sleeps clock c : keys_nonempty c -> let '(_, c', sleep) := worker clock c in forall s, sleep = Some s -> s.1 ∈ clock /\ nothing_due c' s.
Proof.
  revert c. induction clock as [|now clock IH]; intros c Hk; [done|]. cbn [worker]. destruct (round_cases c now Hk) as [(k & j & E & Hkj & Hj & Hmin & ->)|Hn].
  - pose proof (IH (run_job_reported (qc_with_jobs c (delete k (qc_jobs c))) now j.2) (after_round_keys _ _ _ _ Hk)) as H.
    destruct (worker clock _) as [[ran c''] sleep]. intros s Hs. destruct (H s Hs). split; [by right|done].
  - destruct (work_sleeps c now Hk Hn) as (delay & -> & Hd). intros s [= <-]. split; [left|done].
Qed.

(** The jobs under a key that ran. *)
Definition ran_under (k : list byte) (ran : list (Z * QConn * job_entry)) : list (Z * qJob) := (fun x => x.2.2) <$> filter (fun x => x.2.1 = k) ran.

(** No job touches the key: it runs at most once, and once if it is due. *)
Lemma worker_runs_once clock k c :
  keys_nonempty c -> (forall job now c, qc_jobs (run job now c).1 !! k = qc_jobs c !! k) ->
  let '(ran, c', sleep) := worker clock c in
  (ran_under k ran = [] /\ qc_jobs c' !! k = qc_jobs c !! k) \/
  (exists j, qc_jobs c !! k = Some j /\ ran_under k ran = [j] /\ qc_jobs c' !! k = None).
Proof.
  intros Hk Hun. revert c Hk. induction clock as [|now clock IH]; intros c Hk; [by left|]. cbn [worker].
  destruct (round_cases c now Hk) as [(k0 & j & E & Hkj & Hj & Hmin & ->)|Hn].
  - pose proof (IH (run_job_reported (qc_with_jobs c (delete k0 (qc_jobs c))) now j.2) (after_round_keys _ _ _ _ Hk)) as H.
    destruct (worker clock _) as [[ran c''] sleep]. rewrite reported_jobs, Hun in H. cbn [qc_jobs qc_with_jobs] in H.
    unfold ran_under in *. rewrite filter_cons, E. cbn [fst snd]. destruct (decide (k0 = k)) as [->|Hne].
    + rewrite lookup_delete_eq in H. right. exists j. destruct H as [[H1 H2]|(j' & ? & _)]; [|done]. cbn. by rewrite H1.
    + by rewrite lookup_delete_ne in H.
  - destruct (work_sleeps c now Hk Hn) as (delay & -> & _). by left.
Qed.

(** The jobs that are due until [T]. *)
Definition due (T : Z) (m : gmap (list byte) (Z * qJob)) := filter (fun kj : job_entry => kj.2.1 <= T) m.

(** What the jobs schedule is later than [T]. *)
Definition schedules_later (T : Z) : Prop :=
  forall job now c k j, qc_jobs (run job now c).1 !! k = Some j -> j.1 <= T -> qc_jobs c !! k = Some j.

Lemma worker_ends T clock c :
  keys_nonempty c -> schedules_later T -> Forall (fun now => now <= T) clock -> (size (due T (qc_jobs c)) < length clock)%nat ->
  exists ran c' s, worker clock c = (ran, c', Some s) /\ Sorted deadline_le (snd <$> ran) /\
    Forall (fun x => exists k j, x.2 = (k, j) /\ qc_jobs c !! k = Some j /\ j.1 <= T) ran.
Proof.
  intros Hk Hl. revert c Hk. induction clock as [|now clock IH]; intros c Hk Hc Hs; [cbn in Hs; lia|]. apply Forall_cons in Hc as [Hnow Hc]. cbn [worker].
  destruct (round_cases c now Hk) as [(k & j & E & Hkj & Hj & Hmin & ->)|Hn].
  - set (c1 := run_job_reported _ now j.2). assert (forall k' j', qc_jobs c1 !! k' = Some j' -> j'.1 <= T -> delete k (qc_jobs c) !! k' = Some j') as Hsub.
    { intros k' j'. unfold c1. rewrite reported_jobs. apply Hl. }
    destruct (IH c1) as (ran & c' & s & -> & Hsort & Hin); [by apply after_round_keys|done| |].
    { assert (size (due T (qc_jobs c1)) <= size (delete k (due T (qc_jobs c))))%nat as Hle.
      { apply map_subseteq_size, map_subseteq_spec. intros k' j' [H1 H2]%map_lookup_filter_Some. specialize (Hsub _ _ H1 H2).
        apply lookup_delete_Some in Hsub as [? ?]. apply lookup_delete_Some. split; [done|]. by apply map_lookup_filter_Some. }
      assert (due T (qc_jobs c) !! k = Some j) as Hd by (apply map_lookup_filter_Some; split; [done|cbn; lia]).
      rewrite map_size_delete_Some in Hle by eauto. assert (size (due T (qc_jobs c)) <> 0%nat) by (intros H0%map_size_empty_inv; by rewrite H0 in Hd).
      cbn in Hs. lia. }
    exists ((now, c, nextQBlockJob c) :: ran), c', s. split; [done|]. rewrite E. cbn [fmap list_fmap snd].
    assert (Forall (fun x : Z * QConn * job_entry => exists k j, x.2 = (k, j) /\ qc_jobs c !! k = Some j /\ j.1 <= T) ran) as Hin'.
    { eapply Forall_impl; [exact Hin|]. intros x (k' & j' & Ex & Hx & HT). exists k', j'. split; [done|]. split; [|done].
      specialize (Hsub _ _ Hx HT). by apply lookup_delete_Some in Hsub as [_ ?]. }
    split; [|constructor; [exists k, j; split_and!; done || (cbn; lia)|done]]. constructor; [done|].
    destruct Hin' as [|x ran (k' & j' & Ex & Hx & _) _]; constructor. unfold deadline_le. rewrite Ex. apply (Hmin _ _ Hx).
  - destruct (work_sleeps c now Hk Hn) as (delay & -> & _). eexists [], _, _. split; [done|]. split; constructor.
Qed.

(** C25: a wake-up of the worker.  [job.run()] is any function that changes the connection,
    its table of jobs included (what others do with the table meanwhile is part of it; no
    key is empty), and [time.Now] is read again in every round.  Every job that runs is
    taken out of the table first, its deadline has come, and none of the table is earlier.
    The worker sleeps only when nothing of the table is due, until the earliest deadline,
    or for an hour when the table is empty.  A job that is due and that no other touches
    runs exactly once before the worker sleeps, one that is not due stays.  If what the
    jobs schedule is later than the times of the rounds, the worker sleeps after one round
    per due job at most, all that ran are jobs of the table it woke up with, and they run
    in the order of their deadlines. *)
Theorem due_jobs_run_in_order clock c (Hc : keys_nonempty c) :
  let '(ran, c', sleep) := worker clock c in
  Forall (fun x => taken_when_due x /\ x.1.1 ∈ clock) ran /\
  (forall s, sleep = Some s -> s.1 ∈ clock /\ nothing_due c' s) /\
  (forall k j s, qc_jobs c !! k = Some j -> (forall job now c, qc_jobs (run job now c).1 !! k = qc_jobs c !! k) -> sleep = Some s ->
     (Forall (fun now => j.1 <= now) clock -> ran_under k ran = [j] /\ qc_jobs c' !! k = None) /\
     (Forall (fun now => now < j.1) clock -> ran_under k ran = [] /\ qc_jobs c' !! k = Some j)) /\
  (forall T, schedules_later T -> Forall (fun now => now <= T) clock -> (size (due T (qc_jobs c)) < length clock)%nat ->
     is_Some sleep /\ Sorted deadline_le (snd <$> ran) /\
     Forall (fun x => exists k j, x.2 = (k, j) /\ qc_jobs c !! k = Some j /\ j.1 <= T) ran).
Proof.
  pose proof (worker_takes_due clock c Hc) as H1. pose proof (worker_sleeps clock c Hc) as H2. pose proof (fun k => worker_runs_once clock k c Hc) as H3.
  pose proof (fun T => worker_ends T clock c Hc) as H4. destruct (worker clock c) as [[ran c'] sleep]. cbn [fst] in H1. split_and!; [done|done| |].
  - intros k j s Hkj Hun Hs. destruct (H2 s Hs) as [Hin Hnd]. destruct s as [now delay]. destruct Hnd as (Hpos & Hlate & _). cbn in Hin.
    destruct (H3 k Hun) as [[E1 E2]|(j' & Ej & E1 & E2)].
    + split; [|intros _; split; congruence]. intros Hdue. exfalso. rewrite Hkj in E2. specialize (Hlate _ _ E2). cbn in Hlate.
      rewrite Forall_forall in Hdue. specialize (Hdue _ Hin). lia.
    + rewrite Hkj in Ej. injection Ej as <-. split; [done|]. intros Hlater. exfalso.
      assert (j ∈ ran_under k ran) as Hj by (rewrite E1; left). unfold ran_under in Hj.
      apply list_elem_of_fmap in Hj as ([[t c1] [k1 j1]] & -> & [Ek Hx]%list_elem_of_filter). rewrite Forall_forall in H1. rewrite Forall_forall in Hlater.
      destruct (H1 _ Hx) as [(_ & Hle & _) Ht]. specialize (Hlater _ Ht). cbn in *. lia.
  - intros T Hl Hclock Hsize. destruct (H4 T Hl Hclock Hsize) as (ran' & c2 & s & [= <- <- ->] & Hsort & Hin). split; [by eexists|done].
Qed.
End Worker.

(** ** Probes *)

(** What the pacing of probes sees. *)
Inductive probe : Type := Ask (now jitter : Z) (control : bool) (bodyTag : list byte) (size : Z) | Progress (now : Z).

Definition probe_step (parameters : Config) c (e : probe) : QConn :=
  match e with
  | Ask now jitter control bodyTag size => (qBlockRateDeadline parameters c now jitter control bodyTag size).1
  | Progress now => qBlockPeerProgress c now
  end.

(** The kind of a probe: control messages share one rate, bodies another; the blocks of the
    body that was charged last are free. *)
Definition charged (r : QRate) (control : bool) (bodyTag : list byte) : Prop := control = true \/ bodyTag <> qBodyTag r.

(** A probe of the kind was admitted at [at_], and the next waits for [until]. *)
Record waits (control : bool) (bodyTag : list byte) (at_ until : Z) (r : QRate) : Prop := mkWaits {
  waits_last : (if control then qLastControl r else qLastBody r) = at_;
  waits_until : (if control then qControlNotBefore r else qBodyNotBefore r) = until;
  waits_tag : control = true \/ qBodyTag r = bodyTag;
  waits_silent : qPeerActivity r <= at_;
  waits_time : zeroTime < at_
}.

Definition silent_before (until : Z) (e : probe) : Prop := match e with Ask now _ _ _ _ => now < until | Progress _ => False end.

Lemma charged_guard r control bodyTag : charged r control bodyTag -> negb control && bool_decide (bodyTag = qBodyTag r) = false.
Proof. intros [-> |H]; [done|]. rewrite bool_decide_false by done. by destruct control. Qed.

Lemma waits_admitted parameters c control bodyTag now jitter size c' :
  zeroTime < now -> qPeerActivity (qc_rate c) <= now -> charged (qc_rate c) control bodyTag ->
  qBlockRateDeadline parameters c now jitter control bodyTag size = (c', None) ->
  waits control bodyTag now (now + qBlockProbingDelay parameters jitter size) (qc_rate c').
Proof.
  intros Hz Hp Hc. unfold qBlockRateDeadline. rewrite charged_guard by done. cbv zeta. destruct (_ || _ || _); [|done]. intros [= <-].
  destruct control; split; cbn; auto.
Qed.

Lemma waits_ask parameters c control bodyTag at_ until now jitter bodyTag' size :
  waits control bodyTag at_ until (qc_rate c) -> control = true \/ bodyTag' <> bodyTag ->
  (qBlockRateDeadline parameters c now jitter control bodyTag' size).2 = (if until <=? now then None else Some until) /\
  (now < until -> (qBlockRateDeadline parameters c now jitter control bodyTag' size).1 = c).
Proof.
  intros [H1 H2 H3 H4 H5] Ht. unfold qBlockRateDeadline. rewrite charged_guard by (unfold charged; destruct Ht, H3; subst; auto).
  rewrite H1, H2, (proj2 (Z.eqb_neq at_ zeroTime)), (proj2 (Z.ltb_ge _ _) H4) by lia. cbn [orb].
  destruct (Z.leb_spec until now); split; done || lia.
Qed.

(** Other probes leave the wait alone. *)
Lemma waits_step parameters c control bodyTag at_ until e :
  silent_before until e -> waits control bodyTag at_ until (qc_rate c) -> waits control bodyTag at_ until (qc_rate (probe_step parameters c e)).
Proof.
  destruct e as [now jitter control' tag size|]; [|done]. cbn [silent_before probe_step]. intros Hn Hw.
  destruct (decide (control' = control)) as [-> |Hne].
  - destruct (decide (control = true \/ tag <> bodyTag)) as [Ht|Ht].
    + by rewrite (proj2 (waits_ask parameters c control bodyTag at_ until now jitter tag size Hw Ht) Hn).
    + destruct Hw as [H1 H2 H3 H4 H5]. unfold qBlockRateDeadline. destruct control; [naive_solver|].
      assert (tag = qBodyTag (qc_rate c)) as -> by (destruct H3; [done|]; destruct (decide (tag = bodyTag)); naive_solver).
      rewrite (bool_decide_true (qBodyTag _ = _)) by done. done.
  - destruct Hw as [H1 H2 H3 H4 H5]. unfold qBlockRateDeadline. destruct (negb control' && _); [done|]. cbv zeta.
    destruct (_ || _ || _); [|done]. destruct control, control'; try done; split; cbn; auto.
Qed.

(** A probe that was admitted at a time, to a peer that has not been heard of since, is
    followed by no other of its kind (a control message, or the first block of another body)
    before one second per byte has passed, or the probing wait if that is shorter, whatever
    other probes are tried meanwhile; from then on it is admitted.  Word from the peer in
    between admits it at once. *)
Theorem probes_paced parameters c control bodyTag now jitter size c' meanwhile :
  zeroTime < now -> qPeerActivity (qc_rate c) <= now -> charged (qc_rate c) control bodyTag ->
  qBlockRateDeadline parameters c now jitter control bodyTag size = (c', None) ->
  let until := now + qBlockProbingDelay parameters jitter size in
  Forall (silent_before until) meanwhile ->
  let c'' := fold_left (probe_step parameters) meanwhile c' in
  forall now2 jitter2 bodyTag2 size2, control = true \/ bodyTag2 <> bodyTag ->
    (qBlockRateDeadline parameters c'' now2 jitter2 control bodyTag2 size2).2 = (if until <=? now2 then None else Some until) /\
    (forall heard, now < heard ->
      (qBlockRateDeadline parameters (qBlockPeerProgress c'' heard) now2 jitter2 control bodyTag2 size2).2 = None).
Proof.
  intros Hz Hp Hc Ha until Hall c'' now2 jitter2 bodyTag2 size2 Ht.
  assert (waits control bodyTag now until (qc_rate c'')) as Hw.
  { subst c''. pose proof (waits_admitted _ _ _ _ _ _ _ _ Hz Hp Hc Ha) as Hw. fold until in Hw. clear Ha. revert c' Hw.
    induction Hall as [|e l He _ IH]; intros c' Hw; [done|]. by apply IH, waits_step. }
  split; [by eapply (proj1 (waits_ask _ _ _ _ _ _ _ _ _ _ Hw Ht))|]. intros heard Hh. destruct Hw as [H1 H2 H3 H4 H5].
  unfold qBlockRateDeadline. rewrite charged_guard by (unfold charged; cbn; destruct Ht, H3; subst; auto). cbn.
  rewrite H1, (proj2 (Z.ltb_lt now heard)) by done. by rewrite orb_true_r.
Qed.

(** ** Examples *)

Module PacingSample.
Definition idle : QConn := mkQConn None 0 ∅ ∅ 0 ∅ ∅ 0 (mkRate zeroTime zeroTime zeroTime zeroTime zeroTime []) [].
Definition busy : QConn :=
  qc_with_jobs idle {[ [1] := (30, Q1Missing [1]); [2] := (10, Q1Missing [2]); [3] := (70, Q1Missing [3]); [4] := (20, Q1Missing [4]) ]}.

(** A job of the key [2] schedules itself again for later and cancels [4]. *)
Definition run_sample (job : qJob) (now : Z) (c : QConn) : QConn * option error :=
  if match job with Q1Missing [2] => true | _ => false end then (conn_CancelQBlock (conn_ScheduleQBlock c [2] 90 job).1 [4], Some ErrEOF) else (c, None).
Lemma busy_keys : keys_nonempty busy.
Proof. unfold keys_nonempty. apply (bool_decide_unpack _). vm_compute. exact I. Qed.

Lemma run_sample_keys job now c : keys_nonempty c -> keys_nonempty (run_sample job now c).1.
Proof.
  intros Hk. unfold run_sample. destruct (match job with Q1Missing _ => _ | Q2Set _ => _ end); [|done]. cbn. apply map_Forall_delete.
  unfold conn_ScheduleQBlock. repeat case_match; try done; by apply map_Forall_insert_2.
Qed.

Lemma due_jobs_run_in_order_witness :
  exists ran c', worker run_sample [30; 31; 32; 33] busy = (ran, c', Some (32, 38)) /\
    Forall (fun x => taken_when_due x /\ x.1.1 ∈ [30; 31; 32; 33]) ran /\ ran_under [1] ran = [(30, Q1Missing [1])] /\
    (fun x => x.2.1) <$> ran = [[2]; [1]] /\ qc_jobs c' !! [2] = Some (90, Q1Missing [2]) /\ qc_jobs c' !! [4] = None /\ qc_errors c' = [ErrEOF].
Proof.
  pose proof (due_jobs_run_in_order run_sample run_sample_keys [30; 31; 32; 33] busy busy_keys) as H.
  assert (exists ran c', worker run_sample [30; 31; 32; 33] busy = (ran, c', Some (32, 38)) /\ (fun x => x.2.1) <$> ran = [[2]; [1]] /\
    qc_jobs c' !! [2] = Some (90, Q1Missing [2]) /\ qc_jobs c' !! [4] = None /\ qc_errors c' = [ErrEOF]) as (ran & c' & E & E1 & E2)
    by (eexists _, _; split; [vm_compute; reflexivity|vm_compute; done]).
  exists ran, c'. rewrite E in H. destruct H as (H1 & _ & H3 & _). split; [exact E|]. split; [exact H1|]. split; [|split; [exact E1|exact E2]].
  apply (H3 [1] (30, Q1Missing [1]) (32, 38)).
  - vm_compute. reflexivity.
  - intros job now c. unfold run_sample. destruct (match job with Q1Missing _ => _ | Q2Set _ => _ end); [|reflexivity]. cbn [fst conn_CancelQBlock qc_jobs qc_with_jobs]. rewrite lookup_delete_ne by done.
    unfold conn_ScheduleQBlock. repeat case_match; try reflexivity; cbn; by rewrite lookup_insert_ne.
  - reflexivity.
  - repeat constructor; cbv; discriminate.
Defined.

Definition rates : Config := DefaultConfig.

Lemma probes_paced_witness :
  let c' := (qBlockRateDeadline rates idle 1000 0 true [] 3).1 in
  let c'' := fold_left (probe_step rates) [Ask 1500 0 false [7] 50; Ask 1600 0 true [] 3] c' in
  (qBlockRateDeadline rates c'' 1700 0 true [] 3).2 = Some (1000 + 3 * Second) /\
  (qBlockRateDeadline rates c'' (1000 + 3 * Second) 0 true [] 3).2 = None /\
  (qBlockRateDeadline rates (qBlockPeerProgress c'' 1650) 1700 0 true [] 3).2 = None.
Proof.
  intros c' c''. pose proof (probes_paced rates idle true [] 1000 0 3 c' [Ask 1500 0 false [7] 50; Ask 1600 0 true [] 3]) as H.
  assert (qBlockProbingDelay rates 0 3 = 3 * Second) as Hd by (vm_compute; reflexivity). rewrite Hd in H. cbv zeta in H.
  assert (forall now2 jitter2 bodyTag2 size2, true = true \/ bodyTag2 <> [] ->
    (qBlockRateDeadline rates c'' now2 jitter2 true bodyTag2 size2).2 = (if 1000 + 3 * Second <=? now2 then None else Some (1000 + 3 * Second)) /\
    (forall heard, 1000 < heard -> (qBlockRateDeadline rates (qBlockPeerProgress c'' heard) now2 jitter2 true bodyTag2 size2).2 = None)) as H'.
  { apply H; [vm_compute; reflexivity|vm_compute; discriminate|by left|vm_compute; reflexivity|]. repeat constructor. }
  destruct (H' 1700 0 [] 3) as [-> H2]; [by left|]. destruct (H' (1000 + 3 * Second) 0 [] 3) as [-> _]; [by left|].
  split; [vm_compute; reflexivity|]. split; [vm_compute; reflexivity|]. apply H2. lia.
Defined.
End PacingSample.
