(* ===== verification/QSelect.v ===== *)
(** * The use of Q-Blocks by a UDP connection (src/udp/client/conn.go, qblock.go)

    Which requests are sent in Q-Blocks, with which block size, what a datagram may hold,
    and the discovery of the peer's support.  Messages are those of the engine; their
    message ID is an argument where they are marshalled. *)
From stdpp Require Import prelude list strings gmap.
From Stdlib Require Import ZArith Lia.
From S2P Require Import TcpConn KeepAlive Prelude Cast Codes OptionCodec Options OptionsCodec Message PoolMessage BlockCodec Assembly.
From S2P Require Import Observation EngineMessage ResponseWriter ExchangeKey Blockwise QBudget QEngine QServe QReceive QClient QConn.
#[local] Open Scope Z_scope.

Implicit Types (m req : EMsg).

Definition ErrDeadlineExceeded : error := ErrOther "context deadline exceeded".

(** ** Selection *)

Definition hasQBlock m : bool := e_HasOption m QBlock1 || e_HasOption m QBlock2.

Definition bodyMethod (code : Z) : bool :=
  (code =? POST) || (code =? PUT) || (code =? FETCH) || (code =? PATCH) || (code =? IPATCH).

(** [multicast] says whether the remote address is a multicast address. *)
Definition qBlockEligible (multicast : bool) req : bool :=
  if (zlen (e_token req) =? 0) || e_HasOption req ProxyURI || e_HasOption req ProxyScheme then false else
  if multicast then false else
  if e_HasOption req Observe && negb (e_code req =? GET) then false else
  ((e_code req =? GET) || bodyMethod (e_code req)) && ((match e_body req with None => true | Some _ => false end) || bodyMethod (e_code req)).

(** Settings of a connection. *)
Record QSettings : Type := mkQSettings {
  qs_configErr : option error;
  qs_blockWise : bool;
  qs_mode : Z;
  qs_szx : Z;
  qs_limit : Z;
  qs_multicast : bool
}.
Implicit Types (q : QSettings).

Definition qBlockAllowed q : bool :=
  (match qs_configErr q with None => true | Some _ => false end) && qs_blockWise q && negb (qs_mode q =? QBlockwiseDisabled).

(** [capability] is the answer of [qBlockCapability]; the third result is an error for the
    log. *)
Definition selectQBlock q (capability : bool * option error) req : bool * option error * option error :=
  let eligible := qBlockEligible (qs_multicast q) req in
  if qs_mode q =? QBlockwiseOnly then
    if negb eligible || negb (qBlockAllowed q) then (false, Some ErrQBlockUnsupported, None) else (true, None, None)
  else if negb (qs_mode q =? QBlockwiseAuto) || negb (qBlockAllowed q) || negb eligible then (false, None, None)
  else match capability with
       | (supported, Some e) => if bool_decide (e = ErrDeadlineExceeded) || bool_decide (e = ErrQBlockUnsupported) then (false, None, Some e) else (supported, Some e, None)
       | (supported, None) => (supported, None, None)
       end.

(** How a request leaves the connection. *)
Inductive transfer : Type := Plain | InBlocks | InQBlocks.

(** [do]: the error, or the way; [useQ] is the result of [selectQBlock]. *)
Definition do_ q (useQ : bool * option error) req : result transfer :=
  match qs_configErr q with
  | Some e => Err e
  | None =>
      let hasQOption := hasQBlock req in
      if hasQOption && negb (qBlockAllowed q) then Err ErrQBlockDisabled else
      if hasQOption && (e_HasOption req Block1 || e_HasOption req Block2) then Err ErrInvalidOptionBlock1 else
      if hasQOption then Ok Plain else
      if negb (qs_blockWise q) then Ok Plain else
      match useQ with
      | (_, Some e) => Err e
      | (true, None) => Ok InQBlocks
      | (false, None) => Ok InBlocks
      end
  end.

Definition WriteMessage_ q req : result transfer :=
  match qs_configErr q with
  | Some e => Err e
  | None =>
      if hasQBlock req then
        if negb (qBlockAllowed q) then Err ErrQBlockDisabled else
        if e_HasOption req Block1 || e_HasOption req Block2 then Err ErrInvalidOptionBlock1 else Ok Plain
      else if negb (qs_blockWise q) then Ok Plain else Ok InBlocks
  end.

(** ** Sizes *)

(** [MarshalWithEncoder(coder.DefaultCoder)] *)
Definition e_Message m (mid : Z) : Message :=
  mkMessage (nil_if_empty (e_token m)) (e_options m) 0 (e_code m) (e_body m) mid (e_type m).

Definition e_Marshal m (mid : Z) : result (list byte) :=
  let '(size, err) := Udp.Size (e_Message m mid) in
  match err with
  | Some e => Err e
  | None =>
      let '(buf, (n, err)) := Udp.Encode (e_Message m mid) (make_bytes size) in
      match err with
      | Some e => Err e
      | None => Ok (slice_to buf n)
      end
  end.

Definition validateQBlockDatagram (limit : Z) m (mid : Z) : option error :=
  match e_Marshal m mid with
  | Err e => Some e
  | Ok wire => if limit <? zlen wire then Some ErrQBlockTooLarge else None
  end.

(** The loops over [szx]; the fuel is the number of sizes from [SZX16] to [SZX1024]. *)
Fixpoint largest_szx (fits : Z -> bool) (fuel : nat) (szx : Z) : option Z :=
  match fuel with
  | O => None
  | S fuel => if fits szx then Some szx else if szx =? SZX16 then None else largest_szx fits fuel (szx - 1)
  end.

(** The message of which a block is at most as long, but for its payload. *)
Definition request_header req : EMsg * option error :=
  let header := e_SetCode (AcquireMessage (e_deadline req)) (e_code req) in
  let header := e_SetToken header (e_token req) in
  let header := e_SetType header (e_type req) in
  let header := e_ResetOptionsTo header (e_options req) in
  let header := e_SetOptionUint32 header QBlock1 16777206 in
  let header := e_SetOptionUint32 header QBlock2 16777206 in
  let header := e_SetOptionUint32 header Size1 4294967295 in
  if negb (e_HasOption header RequestTag) then e_SetRequestTag header (make_bytes 8) else (header, None).

Definition qBlockRequestSZX q req : result Z :=
  match request_header req with
  | (_, Some e) => Err e
  | (header, None) =>
      match e_Marshal header 0 with
      | Err e => Err e
      | Ok wire =>
          match largest_szx (fun szx => zlen wire + 1 + SZX_Size szx <=? qs_limit q) 7 (Z.min (qs_szx q) SZX1024) with
          | Some szx => Ok szx
          | None => Err ErrQBlockTooLarge
          end
      end
  end.

Definition qBlockResponseSZX q : result Z :=
  match largest_szx (fun szx => SZX_Size szx + 96 <=? qs_limit q) 7 (Z.min (qs_szx q) SZX1024) with
  | Some szx => Ok szx
  | None => Err ErrQBlockTooLarge
  end.

(** [doQBlock]: the request, the size of its blocks and which exchange it starts. *)
Inductive q_exchange : Type := AsQBlock1 (szx : Z) | AsQBlock2 (szx : Z).

Definition doQBlock q req : EMsg * result q_exchange :=
  let req := e_UpsertType req Confirmable in
  match e_body req with
  | Some _ => (req, match qBlockRequestSZX q req with Ok szx => Ok (AsQBlock1 szx) | Err e => Err e end)
  | None => (req, match qBlockResponseSZX q with Ok szx => Ok (AsQBlock2 szx) | Err e => Err e end)
  end.

(** [generated] is what [message.GetToken] yields. *)
Definition prepareQObservation q (generated : result (list byte)) req : EMsg * option error :=
  if negb (e_code req =? GET) || (match e_body req with Some _ => true | None => false end) then (req, Some ErrQBlockUnsupported) else
  match qBlockResponseSZX q with
  | Err e => (req, Some e)
  | Ok szx =>
      match EncodeQBlockOption szx 0 true with
      | (_, Some e) => (req, Some e)
      | (value, None) =>
          let req := e_SetOptionUint32 req QBlock2 value in
          if e_HasOption req RequestTag then (req, None) else
          match generated with
          | Err e => (req, Some e)
          | Ok tag => e_SetRequestTag req tag
          end
      end
  end.

(** What is charged for a message: whether it is a control message, the tag of its body
    and its size. *)
Definition qBlockRateIdentity m (mid : Z) : result (option (bool * list byte * Z)) :=
  if (e_code m =? RequestEntityIncomplete) || (((e_code m =? GET) || (e_code m =? FETCH)) && e_HasOption m QBlock2) then
    match e_Marshal m mid with Err e => Err e | Ok wire => Ok (Some (true, [], zlen wire)) end
  else if negb (e_HasOption m QBlock1) || (e_code m <? GET) || (32 <=? e_code m) then Ok None else
  let '(_, num, _, err) := DecodeQBlockOption (e_GetOptionUint32 m QBlock1).1 in
  match err with
  | Some e => Err e
  | None =>
      if negb (num =? 0) then Ok None else
      match e_GetOptionBytes m RequestTag with
      | (_, Some e) => Err e
      | (tag, None) => Ok (Some (false, tag, (e_GetOptionUint32 m Size1).1))
      end
  end.

(** [SendQBlock] up to the write: the message, and until when it has to wait if so; the
    wait ends with another call of [qBlockRateDeadline]. *)
Definition conn_SendQBlock (parameters : Config) q (c : QConn) (now jitter mid : Z) m : QConn * EMsg * result (option Z) :=
  if negb (qBlockAllowed q) then (c, m, Err ErrQBlockDisabled) else
  let m := e_UpsertType m Confirmable in
  match validateQBlockDatagram (qs_limit q) m mid with
  | Some e => (c, m, Err e)
  | None =>
      if negb (e_type m =? NonConfirmable) then (c, m, Ok None) else
      match qBlockRateIdentity m mid with
      | Err e => (c, m, Err e)
      | Ok None => (c, m, Ok None)
      | Ok (Some (control, bodyTag, size)) =>
          let '(c, deadline) := qBlockRateDeadline parameters c now jitter control bodyTag size in (c, m, Ok deadline)
      end
  end.

(** [Send] of a route. *)
Definition route_Send (parameters : Config) q (c : QConn) (id : nat) (now jitter mid : Z) m : QConn * EMsg * result (option Z) :=
  if negb (bool_decide (qc_routes c !! e_token m = Some id)) then (c, m, Err errNotBound)
  else conn_SendQBlock parameters q c now jitter mid m.

(** ** Notifications that follow one another *)

(** The loop of [nextQBlockNotification] over what [Receive] yields, each with its time:
    the notification and what is left; [None] while it waits. *)
Fixpoint nextQBlockNotification (token : list byte) (sequence lastEvent : Z) (received : list (Z * result EMsg))
    : option (result EMsg * list (Z * result EMsg)) :=
  match received with
  | [] => None
  | (_, Err e) :: received => Some (Err e, received)
  | (now, Ok response) :: received =>
      if negb (bool_decide (e_token response = token)) then nextQBlockNotification token sequence lastEvent received else
      if negb (e_HasOption response Observe) then Some (Ok response, received) else
      match e_GetOptionUint32 response Observe with
      | (next, None) =>
          if ValidSequenceNumber sequence next lastEvent now then Some (Ok response, received)
          else nextQBlockNotification token sequence lastEvent received
      | (_, Some _) => nextQBlockNotification token sequence lastEvent received
      end
  end.

Definition setQObservationRequestType req (notificationType : Z) : EMsg :=
  e_SetType req (if notificationType =? NonConfirmable then NonConfirmable else Confirmable).
