(* ===== verification/QLink.v ===== *)
(** * A body on its route

    The route of [QConn] as the exchange of [QClient] and [QReceive]: the instance of
    [QExchange] that a connection gives the engine.  Whatever a client does with an
    exchange keeps what [NewToken] and [Send] keep; so every message of a body is sent with a
    token that leads to the body's route, and its responses come to the body and to no
    other. *)
From stdpp Require Import prelude list strings gmap.
From Stdlib Require Import ZArith Lia.
From S2P Require Import TcpConn KeepAlive Prelude Cast Codes OptionCodec Options Message PoolMessage BlockCodec Assembly.
From S2P Require Import Observation EngineMessage ResponseWriter ExchangeKey Blockwise TableSum QBudget QEngine QServe QReceive QClient QConn QRoutes QSelect.
#[local] Open Scope Z_scope.

(** ** What exchanges keep *)

Section Kept.
Context {X : Type} `{!QExchange X} (config : Config).
Context (I : X -> Prop).
Context (Hnew : forall x, I x -> I (NewToken x).1) (Hsend : forall x m, I x -> I (ExSend x m).1).
Implicit Types (s : q1BodySender X) (r : q2BodyReceiver X).

Lemma sendBlock_keeps s num : I (s1_exchange s) -> I (s1_exchange (sendBlock config s num).1).
Proof.
  intros H. unfold sendBlock. destruct (_ || _); [done|]. destruct (Sender_Block _ _) as [sn [[payload more]|e]]; [|done]. cbv zeta.
  assert (forall x t, (if 0 <? s1_sentRequests s then NewToken (s1_exchange s) else (s1_exchange s, Ok (e_token (s1_request s)))) = (x, t) -> I x) as Hx.
  { intros x t. case_match; [|by intros [= <- <-]]. intros E. specialize (Hnew _ H). by rewrite E in Hnew. }
  destruct (if 0 <? s1_sentRequests s then _ else _) as [x [t|e]] eqn:E; specialize (Hx _ _ eq_refl); [|done].
  destruct (q1_part _ _ _ _ _) as [part [e|]]; [done|]. specialize (Hsend x part Hx). by destruct (ExSend x part).
Qed.

Lemma send_keeps nums s : I (s1_exchange s) -> I (s1_exchange (send config s nums).1).
Proof.
  revert s. induction nums as [|num nums IH]; intros s H; [done|]. cbn [send]. pose proof (sendBlock_keeps s num H) as H'.
  destruct (sendBlock config s num) as [s' [e|]]; [done|by apply IH].
Qed.

Lemma sendSet_keeps s : I (s1_exchange s) -> I (s1_exchange (sendSet config s).1).
Proof. intros H. by apply send_keeps. Qed.

Lemma timeout_keeps s e : I (s1_exchange s) -> I (s1_exchange (timeout config s e).1).
Proof.
  intros H. unfold timeout. destruct e; [done|]. destruct (s1_pendingRecovery s); [|by apply send_keeps].
  destruct (_ <? _); [by apply sendSet_keeps|]. destruct (_ <=? _); [done|by apply send_keeps].
Qed.

Lemma continuation_keeps s now m : I (s1_exchange s) -> I (s1_exchange (continuation config s now m).1.1).
Proof.
  intros H. unfold continuation. destruct (q1ContinueNUM m) as [num|]; [|done]. cbv zeta. set (s' := if _ && _ then _ else s).
  assert (I (s1_exchange s')) as H' by (subst s'; by destruct (_ && _)). clearbody s'. destruct (_ && _ && _); [done|]. destruct (_ || _); [done|].
  pose proof (sendSet_keeps s' H') as H2. by destruct (sendSet config s') as [s2 e].
Qed.

Lemma missing_keeps s m : I (s1_exchange s) -> I (s1_exchange (missing config s m).1).
Proof.
  intros H. unfold missing. destruct (e_GetOptionUint32 m ContentFormat) as [f e]. destruct (_ || _); [done|].
  destruct (DecodeMissingBlocks _ _) as [nums e']. destruct (_ || _); [done|by apply send_keeps].
Qed.

Lemma step_keeps s rx : I (s1_exchange s) -> I (s1_exchange (q1_step config s rx).1).
Proof.
  intros H. unfold q1_step. destruct (rx_result rx) as [m|e].
  - cbv zeta. set (m' := e_SetContext m _). destruct (e_code m' =? Continue).
    { pose proof (continuation_keeps s (rx_now rx) m' H) as H'. destruct (continuation config s (rx_now rx) m') as [[s' advance] [e|]]; [done|]. by destruct (negb advance). }
    destruct (e_code m' =? RequestEntityIncomplete); [|by destruct (final s m')].
    pose proof (missing_keeps s m' H) as H'. by destruct (missing config s m') as [s' [e|]].
  - pose proof (timeout_keeps s (rx_ctx rx) H) as H'. by destruct (timeout config s (rx_ctx rx)) as [s' [e'|]].
Qed.

Lemma r_send_keeps r nums more : I (r_exchange r) -> I (r_exchange (r_send r nums more).1).
Proof.
  intros H. unfold r_send. cbv zeta.
  set (prep := if 0 <? r_sentRequests r then _ else _). assert (I prep.1) as Hx.
  { subst prep. destruct (0 <? _); [|done]. specialize (Hnew _ H). by destruct (NewToken (r_exchange r)). }
  destruct prep as [x [part|e]]; [|done]. destruct (add_nums _ _ _ _) as [part'|e]; [|done].
  destruct (ExSend _ part') as [x' err] eqn:E. change (ExSend x part' = (x', err)) in E. specialize (Hsend x part' Hx). by rewrite E in Hsend.
Qed.

Lemma recover_keeps r now e e' : I (r_exchange r) -> I (r_exchange (recover config r now e e').1).
Proof.
  intros H. unfold recover. destruct e; [done|]. destruct (bool_decide _); [done|]. destruct (_ && _); [done|]. destruct (_ <=? _); [done|]. cbv zeta.
  cbn [r_assembly r_with_progress]. destruct (r_assembly r); [|by apply r_send_keeps]. destruct (qMissingSet _ _); [done|by apply r_send_keeps].
Qed.

Lemma representation_keeps r bu now m szx : r_exchange (representation config r bu now m szx).1.1 = r_exchange r.
Proof.
  unfold representation. destruct (q2RepresentationIdentity m) as [[size etag]|]; [|done]. destruct (e_GetOptionUint32 m Observe) as [sequence err]. cbv zeta.
  destruct (skipAfterTerminal _ _ _); [done|]. destruct (_ && negb _ && negb _); [done|].
  destruct (representationChanged _ _ _ _ && _); cbn [r_assembly r_with_progress r_with_body].
  - unfold newRepresentation. destruct (NewAssembly _ _ _ _); [|done]. by destruct (e_GetOptionUint32 m Observe) as [? []].
  - destruct (r_assembly r); [|unfold newRepresentation; destruct (NewAssembly _ _ _ _); [|done]; by destruct (e_GetOptionUint32 m Observe) as [? []]].
    destruct (_ || _); [done|]. cbn. repeat case_match; done.
Qed.

Lemma advance_keeps r a num : I (r_exchange r) -> I (r_exchange (r_advance config r a num).1).
Proof.
  intros H. unfold r_advance. cbv zeta. destruct ((0 <=? r_requestedSet r) && _);
    (destruct (_ && _ && _); [by apply r_send_keeps|]); (destruct (_ && _); [by apply r_send_keeps|done]).
Qed.

Lemma r_add_keeps r bu a m num more : r_exchange (r_add r bu a m num more).1.1 = r_exchange r.
Proof.
  unfold r_add. cbv zeta. destruct (qReserveBytes _ _) as [bu2 ok]. destruct (negb ok); [done|].
  destruct (Assembly_Add _ _ _ _) as [a' [[complete duplicate] err]]. by destruct (duplicate || _).
Qed.

Lemma accept_keeps r bu now m : I (r_exchange r) -> I (r_exchange (accept config r bu now m).1.1).
Proof.
  intros H. unfold accept. destruct (e_GetOptionUint32 (r_req r) Observe) as [o oe]. destruct (_ && _ && _); [done|]. destruct (negb _); [done|].
  destruct (e_GetOptionUint32 m QBlock2) as [v ve]. destruct (DecodeQBlockOption v) as [[[szx num] more] de]. destruct (_ || _ || _); [done|].
  pose proof (representation_keeps r bu now m szx) as E. destruct (representation config r bu now m szx) as [[r1 bu1] [[]|e]]; cbn [fst] in E;
    rewrite <- E in H; [done| |done].
  unfold acceptBodyType. destruct (_ || _); [done|]. cbn [r_assembly r_with_type]. destruct (r_assembly r1) as [a|]; [|done].
  set (r2 := r_with_type r1 _ _). assert (I (r_exchange r2)) as H2 by done. clearbody r2.
  pose proof (r_add_keeps r2 bu1 a m num more) as E3. destruct (r_add r2 bu1 a m num more) as [[r3 bu3] [[complete duplicate]|e]]; cbn [fst] in E3;
    rewrite <- E3 in H2; [|done].
  destruct (complete || duplicate); [done|]. pose proof (advance_keeps r3 (default a (r_assembly r3)) num H2) as H4.
  by destruct (r_advance config r3 _ num) as [r4 e].
Qed.

Lemma receive_step_keeps r bu rx : I (r_exchange r) -> I (r_exchange (receive_step config r bu rx).1.1).
Proof.
  intros H. unfold receive_step. destruct (rx_result rx) as [m|e].
  - destruct (negb _); [done|]. pose proof (accept_keeps r bu (rx_now rx) m H) as H'. by destruct (accept config r bu (rx_now rx) m) as [[r' bu'] res].
  - pose proof (recover_keeps r (rx_now rx) (rx_ctx rx) e H) as H'. by destruct (recover config r (rx_now rx) (rx_ctx rx) e) as [r' e'].
Qed.

Lemma receive_loop_keeps rxs r bu : I (r_exchange r) -> I (r_exchange (receive_loop config r bu rxs).1.1).
Proof.
  revert r bu. induction rxs as [|rx rxs IH]; intros r bu H; [done|]. cbn [receive_loop]. pose proof (receive_step_keeps r bu (received r rx) H) as H'.
  destruct (receive_step config r bu (received r rx)) as [[r' bu'] [res|]]; [done|by apply IH].
Qed.

Lemma ReceiveQBlock2_keeps bu req szx x initial rxs : I x -> I (r_exchange (ReceiveQBlock2 config bu req szx x initial rxs).1.1).
Proof.
  intros H. unfold ReceiveQBlock2. cbv zeta. set (r := mkQ2 _ _ _ _ _ _ _ _ _ _ _ _ _ _ _ _ _ _ _). assert (I (r_exchange r)) as Hr by done. clearbody r.
  destruct (qReserveTransfer bu) as [bu1 ok]. destruct (negb ok); [done|]. destruct initial as [[m now]|].
  - pose proof (receive_step_keeps r bu1 (mkReception now (Ok m) None) Hr) as H'.
    destruct (receive_step config r bu1 _) as [[r' bu'] [res|]]; [done|by apply receive_loop_keeps].
  - pose proof (r_send_keeps r [0] true Hr) as H'. destruct (r_send r [0] true) as [r' [e|]]; [done|by apply receive_loop_keeps].
Qed.

Lemma q1_loop_keeps rxs bu s : I (s1_exchange s) -> I (q1_loop config bu s rxs).1.1.
Proof.
  revert bu s. induction rxs as [|rx rxs IH]; intros bu s H; [done|]. cbn [q1_loop]. pose proof (step_keeps s rx H) as H'.
  destruct (q1_step config s rx) as [s' [|res|request m]]; [by apply IH|done|].
  pose proof (ReceiveQBlock2_keeps bu request (s1_szx s') (s1_exchange s') (Some (m, rx_now rx)) rxs H') as H2.
  by destruct (ReceiveQBlock2 config bu request _ _ _ rxs) as [[r bu'] res].
Qed.

Lemma q1_run_keeps bu s now rxs : I (s1_exchange s) -> I (q1_run config bu s now rxs).1.1.
Proof.
  intros H. unfold q1_run, q1_first. pose proof (sendSet_keeps s H) as H'. destruct (sendSet config s) as [s' [e|]]; [done|]. by apply q1_loop_keeps.
Qed.
End Kept.

(** ** The exchange of a connection *)

(** How a wait of [qBlockProbeRate] goes on: what happens on the connection meanwhile, and
    when the rate is asked again. *)
Record wake : Type := mkWake { w_ops : list qc_op; w_now : Z; w_jitter : Z }.

(** What one call of the exchange meets: the operations on the connection since the last
    call, the token the generator yields, the clock, the random source, the message
    identifier, the waits, and the result of the write. *)
Record turn : Type := mkTurn {
  t_ops : list qc_op;
  t_generated : result (list byte);
  t_now : Z;
  t_jitter : Z;
  t_mid : Z;
  t_wakes : list wake;
  t_write : option error
}.

(** The connection with the tokens of the others, the messages handed to the socket, and
    what the next calls meet. *)
Record QLink : Type := mkLink {
  ln_conn : QConn * Z;
  ln_sent : list EMsg;
  ln_turns : list turn
}.

Definition idle : turn := mkTurn [] (Err ErrContext) 0 0 0 [] None.

Section Link.
Context (maxPayloads : Z) (parameters : Config) (settings : QSettings) (id : nat).

(** The loop of [qBlockProbeRate]; when there are no more wakes a context is done. *)
Fixpoint qBlockProbeRate (s : QConn * Z) (control : bool) (bodyTag : list byte) (size : Z) (wakes : list wake) : (QConn * Z) * option error :=
  match wakes with
  | [] => (s, Some ErrContext)
  | w :: wakes =>
      let s := qc_run maxPayloads s (w_ops w) in
      let '(c, deadline) := qBlockRateDeadline parameters s.1 (w_now w) (w_jitter w) control bodyTag size in
      match deadline with
      | None => ((c, s.2), None)
      | Some _ => qBlockProbeRate (c, s.2) control bodyTag size wakes
      end
  end.

Definition enter (l : QLink) : turn * QLink :=
  let t := default idle (head (ln_turns l)) in
  (t, mkLink (qc_run maxPayloads (ln_conn l) (t_ops t)) (ln_sent l) (tail (ln_turns l))).

Definition link_NewToken (l : QLink) : QLink * result (list byte) :=
  let '(t, l) := enter l in
  let '(c, r) := route_NewToken (ln_conn l).1 id (t_generated t) in
  (mkLink (c, (ln_conn l).2) (ln_sent l) (ln_turns l), r).

(** [Send] with the write of [writeMessage]. *)
Definition link_Send (l : QLink) (m : EMsg) : QLink * option error :=
  let '(t, l) := enter l in
  let '(c, m, r) := route_Send parameters settings (ln_conn l).1 id (t_now t) (t_jitter t) (t_mid t) m in
  let s := (c, (ln_conn l).2) in
  match r with
  | Err e => (mkLink s (ln_sent l) (ln_turns l), Some e)
  | Ok None => (mkLink s (ln_sent l ++ [m]) (ln_turns l), t_write t)
  | Ok (Some _) =>
      match qBlockRateIdentity m (t_mid t) with
      | Ok (Some (control, bodyTag, size)) =>
          let '(s, err) := qBlockProbeRate s control bodyTag size (t_wakes t) in
          match err with
          | Some e => (mkLink s (ln_sent l) (ln_turns l), Some e)
          | None => (mkLink s (ln_sent l ++ [m]) (ln_turns l), t_write t)
          end
      | _ => (mkLink s (ln_sent l) (ln_turns l), Some ErrContext)
      end
  end.

Definition link_Close (l : QLink) : QLink := mkLink (route_Close (ln_conn l).1 id, (ln_conn l).2) (ln_sent l) (ln_turns l).

#[local] Instance link_exchange : QExchange QLink := { NewToken := link_NewToken; ExSend := link_Send; ExClose := link_Close }.
End Link.

(** ** Tokens stay with an open route *)

(** The tokens belong to the route, if it is not closed. *)
Definition holds (objects : gmap nat qBlockRoute) (id : nat) (tokens : list (list byte)) : Prop :=
  exists r, objects !! id = Some r /\ (ro_closed r = true \/ Forall (fun t => t ∈ ro_tokens r) tokens).

(** No other user of the connection retires the aliases of the route. *)
Definition keeps_aliases (id : nat) (o : qc_op) : Prop := match o with ORetire i _ => i <> id | _ => True end.

Lemma holds_insert objects id tokens j r r' :
  objects !! j = Some r -> ro_closed r' = true \/ (ro_closed r' = ro_closed r /\ ro_tokens r ⊆ ro_tokens r') \/ j <> id ->
  holds objects id tokens -> holds (<[j := r']> objects) id tokens.
Proof.
  intros Hj Hr [r0 [H0 H]]. destruct (decide (j = id)) as [->|n]; [|exists r0; by rewrite lookup_insert_ne].
  rewrite Hj in H0. injection H0 as <-. exists r'. rewrite lookup_insert_eq. split; [done|].
  destruct Hr as [?|[[Hc Hs]|?]]; [by left| |done]. rewrite Hc. destruct H as [?|H]; [by left|right].
  eapply Forall_impl; [exact H|]. intros t Ht. cbn in Ht. set_solver.
Qed.

Lemma holds_close c id tokens j err : holds (qc_objects c) id tokens -> holds (qc_objects (closeWithError c j err)) id tokens.
Proof.
  intros H. unfold closeWithError. destruct (qc_objects c !! j) as [r|] eqn:E; [|done]. destruct (ro_closed r); [done|].
  eapply holds_insert; [exact E|by left|done].
Qed.

Lemma holds_closes ids c id tokens : holds (qc_objects c) id tokens -> holds (qc_objects (fold_left route_Close ids c)) id tokens.
Proof. revert c. induction ids as [|j ids IH]; intros c H; [done|]. cbn. by apply IH, holds_close. Qed.

Lemma holds_new c id tokens j generated : holds (qc_objects c) id tokens -> holds (qc_objects (route_NewToken c j generated).1) id tokens.
Proof.
  intros H. unfold route_NewToken. destruct generated as [token|e]; [|done]. destruct (zlen token =? 0); [done|].
  destruct (qc_objects c !! j) as [r|] eqn:E; [|done]. destruct (_ || _); [done|]. destruct (qc_routes c !! token); [done|].
  destruct (_ <=? _); [done|]. destruct (reserveQBlockToken _); [|done].
  eapply holds_insert; [exact E| |done]. right. left. cbn. split; [done|set_solver].
Qed.

Lemma holds_open maxPayloads c id tokens ctxErr token :
  holds (qc_objects c) id tokens -> holds (qc_objects (OpenQBlockExchange maxPayloads c ctxErr token).1) id tokens.
Proof.
  intros [r [Hr H]]. unfold OpenQBlockExchange. destruct ctxErr; [by exists r|]. destruct (zlen token =? 0); [by exists r|].
  destruct (qc_ctx c); [by exists r|]. destruct (_ || _); [by exists r|]. destruct (reserveQBlockToken _); [|by exists r].
  exists r. cbn [fst qc_objects qc_with_routes]. rewrite lookup_insert_ne; [done|]. intros E. apply (is_fresh (dom (qc_objects c))).
  rewrite E. apply elem_of_dom. by exists r.
Qed.

(** The operations that leave the routes alone. *)
Lemma remember_objects allowed c now mid m : qc_objects (rememberQNotification allowed c now mid m).1 = qc_objects c.
Proof.
  unfold rememberQNotification. destruct (negb allowed); [done|]. destruct (qc_ctx c); [done|]. cbv zeta. set (c' := match qc_mids c !! mid with Some _ => _ | None => c end).
  assert (qc_objects c' = qc_objects c) as E by (subst c'; by destruct (qc_mids c !! mid)). clearbody c'. destruct (negb _); [done|].
  set (c2 := if 4096 <=? _ then _ else c'). assert (qc_objects c2 = qc_objects c) as E2 by (subst c2; by destruct (4096 <=? _)). clearbody c2.
  destruct (4096 <=? _); [done|]. by destruct (reserveQBlockToken _).
Qed.

Lemma check_objects c m : qc_objects (checkQObservationCancellation c m) = qc_objects c.
Proof.
  unfold checkQObservationCancellation. destruct (negb _); [done|]. destruct (e_GetOptionUint32 m Observe) as [v [|]]; [done|]. by destruct (v =? 1).
Qed.

Lemma ack_objects c now mid m : qc_objects (handleQNotificationAcknowledgement c now mid m).1 = qc_objects c.
Proof.
  unfold handleQNotificationAcknowledgement. destruct (_ && _); [done|]. destruct (qc_mids c !! mid) as [[token expires]|]; [|done]. by destruct (_ && _).
Qed.

Lemma schedule_objects c key deadline run : qc_objects (conn_ScheduleQBlock c key deadline run).1 = qc_objects c.
Proof.
  unfold conn_ScheduleQBlock. destruct (qc_ctx c); [done|]. destruct (qc_jobs c !! key) as [p|]; [by destruct (_ <? _)|by destruct (_ <=? _)].
Qed.

Lemma work_objects c now : qc_objects (runQBlockJobs c now).1 = qc_objects c.
Proof. unfold runQBlockJobs. destruct (nextQBlockJob c) as [next job]. by destruct (_ && _). Qed.

Lemma rate_objects parameters c now jitter control bodyTag size :
  qc_objects (qBlockRateDeadline parameters c now jitter control bodyTag size).1 = qc_objects c.
Proof. unfold qBlockRateDeadline. destruct (_ && _); [done|]. cbv zeta. by destruct (_ || _). Qed.

Create HintDb routes.
#[export] Hint Resolve holds_close holds_closes holds_new holds_open : routes.
#[export] Hint Rewrite remember_objects check_objects ack_objects schedule_objects work_objects rate_objects : routes.

Lemma holds_step maxPayloads s o id tokens :
  keeps_aliases id o -> holds (qc_objects s.1) id tokens -> holds (qc_objects (qc_step maxPayloads s o).1) id tokens.
Proof.
  destruct s as [c others]. intros Ho H. destruct o; cbn [qc_step fst keeps_aliases] in *; autorewrite with routes; auto with routes.
  - unfold routeQBlockResponse. destruct (_ <? _); [done|]. destruct (qc_routes c !! _) as [j|]; [|done]. cbv zeta.
    change (qc_objects (qBlockPeerProgress c now)) with (qc_objects c). destruct (qc_objects c !! j) as [r|] eqn:E; [|done].
    destruct (ro_closed r) eqn:Ec; [done|]. destruct (_ <? _); [|done]. eapply holds_insert; [exact E|right; left; cbn; by rewrite Ec|done].
  - unfold route_Receive. destruct (qc_objects c !! _) as [r|] eqn:E; [|done]. destruct (ro_messages r); [done|].
    eapply holds_insert; [exact E|by right; left|done].
  - unfold route_ctx_done. destruct (qc_objects c !! _) as [r|] eqn:E; [|done]. eapply holds_insert; [exact E|by right; left|done].
  - destruct (bool_decide _); [|done]. unfold retireAliases. destruct (qc_objects c !! _) as [r|] eqn:E; [|done].
    eapply holds_insert; [exact E|by right; right|done].
  - unfold CancelObservation. destruct (qc_routes c !! _); [by apply holds_close|done].
  - unfold conn_DelayQBlock. destruct (qc_jobs c !! _) as [j|]; [by destruct (_ <? _)|done].
  - unfold begin_async. destruct (qc_ctx c); [done|by destruct (_ <=? _)].
  - by destruct (0 <? _).
  - by destruct (qc_ctx c).
  - by apply holds_closes.
  - by destruct (reserveQBlockToken _).
  - by destruct (0 <? _).
Qed.

Lemma holds_run maxPayloads ops s id tokens :
  Forall (keeps_aliases id) ops -> holds (qc_objects s.1) id tokens -> holds (qc_objects (qc_run maxPayloads s ops).1) id tokens.
Proof.
  revert s. induction ops as [|o ops IH]; intros s Ho H; [done|]. apply Forall_cons in Ho as [H1 H2]. cbn. apply IH; [done|]. by apply holds_step.
Qed.

(** ** The invariant of a link *)

Definition turn_ok (id : nat) (t : turn) : Prop :=
  Forall (keeps_aliases id) (t_ops t) /\ Forall (fun w => Forall (keeps_aliases id) (w_ops w)) (t_wakes t).

Record link_ok (id : nat) (l : QLink) : Prop := mkLinkOk {
  link_books : qc_ok (ln_conn l);
  link_holds : holds (qc_objects (ln_conn l).1) id (e_token <$> ln_sent l);
  link_turns : Forall (turn_ok id) (ln_turns l)
}.

Section LinkOk.
Context (maxPayloads : Z) (parameters : Config) (settings : QSettings) (id : nat).

Lemma rate_ok s now jitter control bodyTag size :
  qc_ok s -> qc_ok ((qBlockRateDeadline parameters s.1 now jitter control bodyTag size).1, s.2).
Proof. intros H. destruct s as [c others]. exact (qc_ok_step maxPayloads (c, others) (ORate parameters now jitter control bodyTag size) H). Qed.

Lemma probe_ok wakes s control bodyTag size tokens :
  Forall (fun w => Forall (keeps_aliases id) (w_ops w)) wakes -> qc_ok s -> holds (qc_objects s.1) id tokens ->
  qc_ok (qBlockProbeRate maxPayloads parameters s control bodyTag size wakes).1 /\
  holds (qc_objects (qBlockProbeRate maxPayloads parameters s control bodyTag size wakes).1.1) id tokens.
Proof.
  revert s. induction wakes as [|w wakes IH]; intros s Hw Hs Hh; [done|]. apply Forall_cons in Hw as [H1 H2]. cbn [qBlockProbeRate]. cbv zeta.
  pose proof (qc_ok_run maxPayloads (w_ops w) s Hs) as Hr. pose proof (holds_run maxPayloads (w_ops w) s id tokens H1 Hh) as Hg.
  pose proof (rate_ok (qc_run maxPayloads s (w_ops w)) (w_now w) (w_jitter w) control bodyTag size Hr) as Hr2.
  pose proof (rate_objects parameters (qc_run maxPayloads s (w_ops w)).1 (w_now w) (w_jitter w) control bodyTag size) as E.
  destruct (qBlockRateDeadline parameters _ _ _ _ _ _) as [c [d|]]; cbn [fst] in *; rewrite <- E in Hg; [by apply IH|done].
Qed.

Lemma SendQBlock_conn s now jitter mid m :
  qc_ok s -> let '(c, m', _) := conn_SendQBlock parameters settings s.1 now jitter mid m in
             qc_ok (c, s.2) /\ qc_objects c = qc_objects s.1 /\ e_token m' = e_token m.
Proof.
  intros H. destruct s as [c0 others]. cbn [fst snd]. unfold conn_SendQBlock. destruct (negb _); [done|]. cbv zeta.
  assert (e_token (e_UpsertType m Confirmable) = e_token m) as Et by (unfold e_UpsertType; by repeat case_match).
  destruct (validateQBlockDatagram _ _ _); [done|]. destruct (negb _); [done|].
  destruct (qBlockRateIdentity _ _) as [[[[control tag] size]|]|e]; [|done|done].
  pose proof (rate_ok (c0, others) now jitter control tag size H) as Hr. pose proof (rate_objects parameters c0 now jitter control tag size) as E.
  cbn [fst snd] in Hr. by destruct (qBlockRateDeadline parameters c0 now jitter control tag size) as [c d].
Qed.

Lemma enter_ok l : link_ok id l -> turn_ok id (enter maxPayloads l).1 /\ link_ok id (enter maxPayloads l).2.
Proof.
  intros [Hb Hh Ht]. unfold enter. cbv zeta. cbn [fst snd]. assert (turn_ok id (default idle (head (ln_turns l)))) as H1.
  { destruct (ln_turns l) as [|t ts]; [|by apply Forall_cons in Ht as [??]]. cbn. split; constructor. }
  split; [done|]. constructor; cbn.
  - by apply qc_ok_run.
  - by apply holds_run; [apply H1|].
  - destruct (ln_turns l); [done|]. by apply Forall_cons in Ht as [??].
Qed.

Lemma link_NewToken_ok l : link_ok id l -> link_ok id (link_NewToken maxPayloads id l).1.
Proof.
  intros H. apply enter_ok in H as [_ [Hb Hh Ht]]. unfold link_NewToken. destruct (enter maxPayloads l) as [t l']. cbn [snd] in *.
  destruct (ln_conn l') as [c others] eqn:E. pose proof (qc_ok_NewToken c others id (t_generated t) Hb) as H1.
  pose proof (holds_new c id _ id (t_generated t) Hh) as H2. cbn [fst] in *. by destruct (route_NewToken c id (t_generated t)) as [c' r].
Qed.

Lemma holds_snoc c others tokens token :
  qc_ok (c, others) -> qc_routes c !! token = Some id -> holds (qc_objects c) id tokens -> holds (qc_objects c) id (tokens ++ [token]).
Proof.
  intros Hok Ht [r [Hr H]]. exists r. split; [done|]. destruct H as [?|H]; [by left|right]. apply Forall_app. split; [done|].
  apply (routes_bind _ _ _ (ok_routes _ Hok)) in Ht as [r' [Hr' Hin]]. cbn in Hr'. rewrite Hr in Hr'. injection Hr' as <-. by constructor.
Qed.

Lemma holds_prefix objects tokens token : holds objects id (tokens ++ [token]) -> holds objects id tokens.
Proof. intros [r [Hr [?|H]]]; exists r; (split; [done|]); [by left|right]. by apply Forall_app in H as [??]. Qed.

Lemma link_Send_ok l m : link_ok id l -> link_ok id (link_Send maxPayloads parameters settings id l m).1.
Proof.
  intros H. apply enter_ok in H as [[_ Hw] [Hb Hh Ht]]. unfold link_Send. destruct (enter maxPayloads l) as [t l']. cbn [fst snd] in *.
  destruct (ln_conn l') as [c others] eqn:E. cbn [fst snd] in *. unfold route_Send. destruct (bool_decide_reflect (qc_routes c !! e_token m = Some id)) as [Hm|]; cbn [negb];
    [|by constructor; cbn [ln_conn ln_sent ln_turns]].
  pose proof (SendQBlock_conn (c, others) (t_now t) (t_jitter t) (t_mid t) m Hb) as Hs. cbn [fst snd] in Hs.
  destruct (conn_SendQBlock _ _ _ _ _ _ _) as [[c' m'] r]. destruct Hs as [Hb' [Eo Et]].
  pose proof (holds_snoc c others _ (e_token m) Hb Hm Hh) as Hh'. rewrite <- Eo, <- Et in Hh'.
  destruct r as [[d|]|e].
  - destruct (qBlockRateIdentity m' (t_mid t)) as [[[[control tag] size]|]|e]; try (constructor; cbn; [done|by eapply holds_prefix|done]).
    destruct (probe_ok (t_wakes t) (c', others) control tag size _ Hw Hb' Hh') as [Hp1 Hp2].
    destruct (qBlockProbeRate _ _ _ _ _ _ _) as [s' [e|]]; cbn [fst] in *; constructor; cbn; try done; [by eapply holds_prefix|by rewrite fmap_app].
  - constructor; cbn; [done|by rewrite fmap_app|done].
  - constructor; cbn; [done|by eapply holds_prefix|done].
Qed.
End LinkOk.

(** ** Responses come to their body *)

(** While the route is open, a response to any message of the body is queued on the route,
    if there is room, and on no other; once the body closes the route no token leads to it. *)
Record routed (id : nat) (l : QLink) : Prop := mkRouted {
  routed_books : qc_ok (ln_conn l);
  routed_response : forall m r now response,
    m ∈ ln_sent l -> qc_objects (ln_conn l).1 !! id = Some r -> ro_closed r = false -> e_token response = e_token m -> Created <= e_code response ->
    let '(c, took) := routeQBlockResponse (ln_conn l).1 now response in
    took = true /\ delete id (qc_objects c) = delete id (qc_objects (ln_conn l).1) /\
    (zlen (ro_messages r) < ro_capacity r -> qc_objects c !! id = Some (with_messages r (ro_messages r ++ [e_Clone response None])));
  routed_closed : qc_ok (ln_conn (link_Close id l)) /\ forall token, qc_routes (ln_conn (link_Close id l)).1 !! token <> Some id
}.

Lemma route_response c others id r now response :
  qc_ok (c, others) -> qc_objects c !! id = Some r -> ro_closed r = false -> e_token response ∈ ro_tokens r -> Created <= e_code response ->
  let '(c', took) := routeQBlockResponse c now response in
  took = true /\ delete id (qc_objects c') = delete id (qc_objects c) /\
  (zlen (ro_messages r) < ro_capacity r -> qc_objects c' !! id = Some (with_messages r (ro_messages r ++ [e_Clone response None]))).
Proof.
  intros Hok Hr Hc Ht Hcode. assert (qc_routes c !! e_token response = Some id) as E by (apply (routes_bind _ _ _ (ok_routes _ Hok)); by exists r).
  unfold routeQBlockResponse. destruct (Z.ltb_spec (e_code response) Created) as [?|_]; [lia|]. rewrite E. cbv zeta.
  change (qc_objects (qBlockPeerProgress c now)) with (qc_objects c). rewrite Hr, Hc.
  destruct (Z.ltb_spec (zlen (ro_messages r)) (ro_capacity r)) as [?|?]; (split; [done|]).
  - split; [cbn; by rewrite delete_insert_eq|]. intros _. cbn. by rewrite lookup_insert_eq.
  - split; [done|lia].
Qed.

Lemma close_unbinds c others id err : qc_ok (c, others) -> is_Some (qc_objects c !! id) -> forall token, qc_routes (closeWithError c id err) !! token <> Some id.
Proof.
  intros Hok [r Hr] token. pose proof (qc_ok_close c others id err Hok) as Hok'. intros Ht.
  apply (routes_bind _ _ _ (ok_routes _ Hok')) in Ht as [r' [Hr' Hin]]. pose proof (qc_ok_route _ _ _ _ Hok' Hr') as Hro. cbn [fst] in Hr'.
  assert (ro_closed r' = true) as Hc.
  { unfold closeWithError in Hr'. rewrite Hr in Hr'. destruct (ro_closed r) eqn:E; [congruence|]. cbn in Hr'. rewrite lookup_insert_eq in Hr'. by injection Hr' as <-. }
  apply (route_closed _ Hro) in Hc as [E _]. rewrite E in Hin. set_solver.
Qed.

Lemma link_ok_routed id l : link_ok id l -> routed id l.
Proof.
  intros [Hb [r [Hr Hh]] _]. destruct l as [[c others] sent turns]. cbn [ln_conn ln_sent fst snd] in *. constructor; cbn [ln_conn ln_sent fst snd link_Close].
  - done.
  - intros m r' now response Hm Hr' Hc Et Hcode. rewrite Hr in Hr'. injection Hr' as <-. destruct Hh as [?|Hh]; [congruence|].
    eapply route_response; [exact Hb|done|done| |done]. rewrite Et. apply (proj1 (Forall_forall _ _) Hh). by apply list_elem_of_fmap_2.
  - split; [by apply qc_ok_close|]. eapply close_unbinds; [exact Hb|by exists r].
Qed.

Lemma open_link_ok maxPayloads s ctxErr token c id turns :
  qc_ok s -> OpenQBlockExchange maxPayloads s.1 ctxErr token = (c, Ok id) -> Forall (turn_ok id) turns -> link_ok id (mkLink (c, s.2) [] turns).
Proof.
  intros Hs E Ht. destruct s as [c0 others]. cbn [fst snd] in *. pose proof (qc_ok_Open maxPayloads c0 others ctxErr token Hs) as Hok. rewrite E in Hok.
  constructor; [done| |done]. cbn [ln_conn ln_sent fst]. unfold OpenQBlockExchange in E. repeat (case_match; try done).
  injection E as <- <-. eexists. split; [cbn; by rewrite lookup_insert_eq|]. right. constructor.
Qed.

(** C20: a body on its route.  When a body has opened an exchange on a connection, then
    whatever happens on the connection between the calls of the body (other bodies,
    responses, jobs, notifications, the end of the connection), after the client has sent
    the body with Q-Block1, or received one with Q-Block2, over the connection the books of
    the connection are in order; while the route is open, a response with the token of any
    message the body sent is taken by the route of this body, and by no other; and when the
    body closes its exchange no token leads to it. *)
Theorem body_on_its_route maxPayloads parameters settings config s ctxErr token c id turns bu sender req szx initial now rxs
    (x := mkLink (c, s.2) [] turns) (exchange := link_exchange maxPayloads parameters settings id) :
  qc_ok s -> OpenQBlockExchange maxPayloads s.1 ctxErr token = (c, Ok id) -> Forall (turn_ok id) turns -> s1_exchange sender = x ->
  routed id (q1_run (QExchange0 := exchange) config bu sender now rxs).1.1 /\
  routed id (r_exchange (ReceiveQBlock2 (QExchange0 := exchange) config bu req szx x initial rxs).1.1).
Proof.
  intros Hs E Ht Hx. pose proof (open_link_ok _ _ _ _ _ _ _ Hs E Ht) as Hl. fold x in Hl.
  pose proof (link_NewToken_ok maxPayloads id) as Hn. pose proof (link_Send_ok maxPayloads parameters settings id) as Hsd.
  split; apply link_ok_routed.
  - apply (q1_run_keeps (QExchange0 := exchange) config (link_ok id) Hn Hsd). by rewrite Hx.
  - by apply (ReceiveQBlock2_keeps (QExchange0 := exchange) config (link_ok id) Hn Hsd).
Qed.

(** ** An example *)
Module LinkSample.

(** A body of twenty bytes in two blocks; another body opens a route and retires its aliases
    meanwhile. *)
Definition text : list byte := make_bytes 16 ++ [1; 2; 3; 4].
Definition put : EMsg := mkEMsg PUT [7] [mkOption URIPath [97]] Confirmable 0 (Some text) None.
Definition settings : QSettings := mkQSettings None true QBlockwiseOnly 6 1152 false.

Definition turns : list turn :=
  [mkTurn [OOpen None [3]] (Err ErrContext) 10 0 1 [] None;
   mkTurn [ORetire 1 [3]] (Ok [8]) 11 0 2 [] None;
   mkTurn [OProgress 12] (Err ErrContext) 12 0 2 [] None].

Definition opened : QConn := (OpenQBlockExchange 10 (qc_start 0) None [7]).1.
Definition sender : q1BodySender QLink := q1_start put (mkSender (NewReader text) 0 20) (mkLink (opened, 0) [] turns) [1; 2; 3; 4; 5; 6; 7; 8] 20 0 0.
Definition bare : Budget := mkBudget 0 0 0 0.

Lemma turns_ok : Forall (turn_ok 0) turns.
Proof. repeat constructor; done. Qed.

Lemma body_on_its_route_witness :
  let l := (q1_run (QExchange0 := link_exchange 10 DefaultConfig settings 0) DefaultConfig bare sender 10 []).1.1 in
  routed 0 l /\ e_token <$> ln_sent l = [[7]; [8]].
Proof.
  split; [|vm_compute; reflexivity].
  exact (proj1 (body_on_its_route 10 DefaultConfig settings DefaultConfig (qc_start 0, 0) None [7] opened 0 turns bare sender put 0 None 10 []
           (qc_ok_start 0 ltac:(done)) ltac:(vm_compute; reflexivity) turns_ok eq_refl)).
Defined.
End LinkSample.
