(* ===== verification/ObserveClient.v ===== *)
(** * Observations of a client (src/net/observation/handler.go, src/udp/client/qblock.go)

    The requests that an observation makes, and the loop that receives the notifications
    of an observation in Q-Blocks: it composes the table of observations
    ([Observation]), the receiver of bodies ([QReceive]) and the routes of the connection
    ([QConn], as the exchange [QLink]).  The loop runs in a goroutine of its own: what
    happens beside it on the connection is in the turns of the link, and a cancellation by
    the user in the rounds. *)
From stdpp Require Import prelude list strings gmap.
From Stdlib Require Import ZArith Lia Sorted.
From S2P Require Import TcpConn KeepAlive Prelude Cast Codes OptionCodec Options Message PoolMessage BlockCodec Assembly.
From S2P Require Import SyncMap Crc64 Observation EngineMessage ResponseWriter ExchangeKey Blockwise TableSum QBudget QEngine QServe QReceive QClient QDownload QConn QRoutes QSelect QLink.
#[local] Open Scope Z_scope.

(** ** Requests of an observation *)

Section Requests.
Context {Ctx CM B : Type}.

(** The request of [Cancel], in a message [r] from the pool; [None] is a panic. *)
Definition Cancel_request (x : Observation) (opts : Options) (r : Msg Ctx CM B) : option (Msg Ctx CM B * option error) :=
  r ← Msg_ResetOptionsTo r opts;
  let r := PoolMessage.SetCode r GET in
  r ← Msg_SetObserve r 1;
  let '(r, err) := match Options_Path (o_options x) with
                   | (path, None) => Msg_SetPath r path
                   | (_, Some _) => (r, None)
                   end in
  match err with
  | Some e => Some (r, Some e)
  | None =>
      let r := SetToken r (Some (o_token x)) in
      let tag := contents (etag x) in
      Some (if 0 <? zlen tag then (SetETag r tag).1 else r, None)
  end.

(** [response] is what [do] yields, the code of the response or an error.  The result has
    the request that was sent, if one was. *)
Definition Cancel (h : Handler) (x : Observation) (opts : Options) (r : Msg Ctx CM B) (response : result Z)
    : Handler * option (option (Msg Ctx CM B) * option error) :=
  let '(h, ok) := cleanUp h x in
  if negb ok then (h, Some (None, None)) else
  (h, '(r, err) ← Cancel_request x opts r;
      Some (match err with
            | Some e => (None, Some e)
            | None =>
                (Some r, match response with
                         | Err e => Some e
                         | Ok code => if negb (code =? Content) && negb (code =? Valid) then Some (ErrOther "unexpected return code") else None
                         end)
            end)).
End Requests.

Definition GetObservationRequest (h : Handler) (token : list byte) : option EMsg :=
  o ← GetObservation h (Token_Hash token);
  x ← obs h !! o;
  Some (e_SetToken (e_SetCode (e_ResetOptionsTo (AcquireMessage None) (o_options x)) (o_code x)) (o_token x)).

(** ** The start of a notification in Q-Blocks *)

(** The request with its block size, and whether the message is consumed. *)
Definition qBlockNotificationRequest (h : Handler) (m : EMsg) : option EMsg * Z * bool :=
  match GetObservationRequest h (e_token m) with
  | None => (None, 0, false)
  | Some req =>
      if negb (e_HasOption req QBlock2) then (None, 0, false) else
      match e_GetOptionUint32 req QBlock2 with
      | (_, Some _) => (None, 0, true)
      | (value, None) =>
          match DecodeQBlockOption value with
          | (_, _, _, Some _) => (None, 0, true)
          | (szx, _, _, None) => (Some req, szx, true)
          end
      end
  end.

(** [h] is the table when the exchange has been opened. *)
Definition prepareQBlockNotification (maxPayloads : Z) (c : QConn) (h : Handler) (req m : EMsg) : QConn * option (nat * EMsg * EMsg) :=
  let req := setQObservationRequestType req (e_type m) in
  match OpenQBlockExchange maxPayloads c (qc_ctx c) (e_token req) with
  | (c, Err e) => (qc_report c e, None)
  | (c, Ok id) =>
      match GetObservation h (Token_Hash (e_token req)) with
      | None => (route_Close c id, None)
      | Some _ => (c, Some (id, req, e_Clone m None))
      end
  end.

(** Whether the message is consumed, and the exchange, request, block size and first
    message of the loop that is started. *)
Definition startQBlockNotification (maxPayloads : Z) (settings : QSettings) (c : QConn) (h h' : Handler) (m : EMsg)
    : QConn * bool * option (nat * EMsg * Z * EMsg) :=
  if negb (qBlockAllowed settings) || (e_code m <? Created) || negb (e_HasOption m QBlock2) then (c, false, None) else
  match qBlockNotificationRequest h m with
  | (_, _, false) => (c, false, None)
  | (None, _, true) => (c, true, None)
  | (Some req, szx, true) =>
      match prepareQBlockNotification maxPayloads c h' req m with
      | (c, None) => (c, true, None)
      | (c, Some (id, req, initial)) => (c, true, Some (id, req, szx, initial))
      end
  end.

(** ** The loop *)

(** What one pass meets: when the notification is looked at and what is received for its
    body, whether the user has cancelled the observation meanwhile, the clock after that,
    and what is received until the next notification. *)
Record round : Type := mkRound {
  rd_time : Z;
  rd_rxs : list reception;
  rd_cancel : bool;
  rd_now : Z;
  rd_next : list (Z * result EMsg)
}.

Record watch : Type := mkWatch { wt_link : QLink; wt_handler : Handler; wt_budget : Budget }.

Section Loop.
Context (maxPayloads : Z) (parameters : Config) (settings : QSettings) (config : Config) (id : nat).
Let exchange : QExchange QLink := link_exchange maxPayloads parameters settings id.

Definition on_conn (f : QConn -> QConn) (w : watch) : watch :=
  let l := wt_link w in mkWatch (mkLink (f (ln_conn l).1, (ln_conn l).2) (ln_sent l) (ln_turns l)) (wt_handler w) (wt_budget w).

(** The table of observations tells the connection about the tokens it has dropped. *)
Definition with_handler (w : watch) (h : Handler) : watch :=
  on_conn (fun c => fold_left CancelObservation (drop (length (canceledTokens (wt_handler w))) (canceledTokens h)) c)
    (mkWatch (wt_link w) h (wt_budget w)).

(** [cleanUp] by another goroutine. *)
Definition cancel (w : watch) (token : list byte) : watch :=
  match GetObservation (wt_handler w) (Token_Hash token) ≫= fun o => obs (wt_handler w) !! o with
  | Some x => with_handler w (cleanUp (wt_handler w) x).1
  | None => w
  end.

Definition receiveQNotification (w : watch) (req : EMsg) (szx : Z) (initial : EMsg) (rd : round) : watch * option (result EMsg) :=
  if negb (e_HasOption initial QBlock2) then (w, Some (Ok initial)) else
  let '(q2, bu, r) := ReceiveQBlock2 (QExchange0 := exchange) config (wt_budget w) req szx (wt_link w) (Some (initial, rd_time rd)) (rd_rxs rd) in
  (mkWatch (r_exchange q2) (wt_handler w) bu, r).

(** The end of a notification: the sequence number and time, and whether the observation
    is there. *)
Definition notify (w : watch) (r : result EMsg) (sequence lastEvent now : Z) : watch * Z * Z * bool :=
  match r with
  | Err e => (on_conn (fun c => qc_report c e) w, sequence, lastEvent, true)
  | Ok response =>
      let '(sequence, lastEvent) := match e_GetOptionUint32 response Observe with (v, None) => (v, now) | (_, Some _) => (sequence, lastEvent) end in
      let '(h, active) := HandleNotification (wt_handler w) (e_Message response 0) (now - zeroTime) in
      (with_handler w h, sequence, lastEvent, active)
  end.

(** [None] while it waits; the second option is [None] when the loop ends. *)
Definition advanceQBlockObservation (w : watch) (req : EMsg) (szx : Z) (initial : EMsg) (sequence lastEvent : Z) (rd : round)
    : watch * option (option (EMsg * Z * Z)) :=
  let '(w, r) := receiveQNotification w req szx initial rd in
  match r with
  | None => (w, None)
  | Some r =>
      let w := on_conn (fun c => retireAliases c id (e_token req)) w in
      let w := if rd_cancel rd then cancel w (e_token req) else w in
      let canceled := match r with Err e => bool_decide (e = ErrContext) | Ok _ => false end in
      if canceled || (match qc_ctx (ln_conn (wt_link w)).1 with Some _ => true | None => false end) then (w, Some None) else
      let '(w, sequence, lastEvent, active) := notify w r sequence lastEvent (rd_now rd) in
      if negb active then (w, Some None) else
      match nextQBlockNotification (e_token req) sequence lastEvent (rd_next rd) with
      | None => (w, None)
      | Some (Err _, _) => (w, Some None)
      | Some (Ok next, _) => (w, Some (Some (next, sequence, lastEvent)))
      end
  end.

(** The flag says whether the loop has ended. *)
Fixpoint observation_loop (w : watch) (req : EMsg) (szx : Z) (initial : EMsg) (sequence lastEvent : Z) (rounds : list round) : watch * bool :=
  match rounds with
  | [] => (w, false)
  | rd :: rounds =>
      let req := setQObservationRequestType req (e_type initial) in
      match advanceQBlockObservation w req szx initial sequence lastEvent rd with
      | (w, None) => (w, false)
      | (w, Some None) => (w, true)
      | (w, Some (Some (initial, sequence, lastEvent))) => observation_loop w req szx initial sequence lastEvent rounds
      end
  end.

Definition runQBlockObservation (w : watch) (req : EMsg) (szx : Z) (initial : EMsg) (rounds : list round) : watch * bool :=
  let '(w, ended) := observation_loop w req szx initial 0 zeroTime rounds in
  (if ended then on_conn (fun c => route_Close c id) w else w, ended).
End Loop.

(** ** The link of an observation *)

(** The token of the observation stays with the route; the aliases of a body do not. *)
Definition base (token : list byte) (l : QLink) : QLink := mkLink (ln_conn l) [e_SetToken (AcquireMessage None) token] (ln_turns l).

Section Base.
Context (maxPayloads : Z) (parameters : Config) (settings : QSettings) (id : nat) (token : list byte).

Lemma base_NewToken l : base token (link_NewToken maxPayloads id l).1 = base token (link_NewToken maxPayloads id (base token l)).1.
Proof. unfold link_NewToken, enter. cbn. by destruct (route_NewToken _ _ _). Qed.

Lemma base_Send l m :
  base token (link_Send maxPayloads parameters settings id l m).1 = base token (link_Send maxPayloads parameters settings id (base token l) m).1.
Proof.
  unfold link_Send, enter. cbn [ln_conn ln_turns ln_sent base fst snd]. destruct (route_Send _ _ _ _ _ _ _ _) as [[c m'] [[d|]|e]]; [|done..].
  destruct (qBlockRateIdentity m' _) as [[[[control tag] size]|]|e]; [|done..]. by destruct (qBlockProbeRate _ _ _ _ _ _ _) as [s [e|]].
Qed.

Lemma sent_NewToken l : ln_sent (link_NewToken maxPayloads id l).1 = ln_sent l.
Proof. unfold link_NewToken, enter. cbn. by destruct (route_NewToken _ _ _). Qed.

Lemma sent_Send l m : exists k, ln_sent (link_Send maxPayloads parameters settings id l m).1 = ln_sent l ++ k.
Proof.
  assert (exists k, ln_sent l = ln_sent l ++ k) as Hnil by (exists []; by rewrite app_nil_r).
  unfold link_Send, enter. cbn [ln_conn ln_turns ln_sent fst snd]. destruct (route_Send _ _ _ _ _ _ _ _) as [[c m'] [[d|]|e]]; [|by eexists|exact Hnil].
  destruct (qBlockRateIdentity m' _) as [[[[control tag] size]|]|e]; [|exact Hnil..].
  destruct (qBlockProbeRate _ _ _ _ _ _ _) as [s [e|]]; [exact Hnil|by eexists].
Qed.

Lemma link_ok_base l k : ln_sent l = ln_sent (base token l) ++ k -> link_ok id l -> link_ok id (base token l).
Proof.
  intros E [Hb [r [Hr Hh]] Ht]. constructor; [done| |done]. exists r. split; [done|]. rewrite E, fmap_app in Hh.
  destruct Hh as [?|Hh]; [by left|right]. by apply Forall_app in Hh as [??].
Qed.

Lemma base_NewToken_ok l : link_ok id (base token l) -> link_ok id (base token (link_NewToken maxPayloads id l).1).
Proof.
  intros H. rewrite base_NewToken. apply (link_ok_base _ []); [rewrite sent_NewToken; done|]. by apply link_NewToken_ok.
Qed.

Lemma base_Send_ok l m : link_ok id (base token l) -> link_ok id (base token (link_Send maxPayloads parameters settings id l m).1).
Proof.
  intros H. rewrite base_Send. destruct (sent_Send (base token l) m) as [k E]. apply (link_ok_base _ k); [exact E|]. by apply link_Send_ok.
Qed.
End Base.

(** Operations of the connection that the loop itself makes. *)
Definition watched (id : nat) (token : list byte) (w : watch) : Prop := link_ok id (base token (wt_link w)).

Lemma watched_step maxPayloads id token w o f :
  keeps_aliases id o -> (forall s, f s.1 = (qc_step maxPayloads s o).1 /\ (qc_step maxPayloads s o).2 = s.2) ->
  watched id token w -> watched id token (on_conn f w).
Proof.
  intros Ho Hf [Hb Hh Ht]. destruct (Hf (ln_conn (wt_link w))) as [E1 E2]. constructor; cbn in *; [| |done].
  - rewrite E1, <- E2. rewrite <- surjective_pairing. by apply qc_ok_step.
  - rewrite E1. by apply holds_step.
Qed.

Lemma watched_report id token w e : watched id token w -> watched id token (on_conn (fun c => qc_report c e) w).
Proof. intros [Hb Hh Ht]. constructor; cbn in *; [|done|done]. destruct (ln_conn (wt_link w)) as [c others]. by destruct Hb. Qed.

Lemma watched_cancels id token tokens w :
  watched id token w -> watched id token (on_conn (fun c => fold_left CancelObservation tokens c) w).
Proof.
  revert w. induction tokens as [|t tokens IH]; intros w H; [by destruct w as [[[??]??]??]|].
  apply (IH (on_conn (fun c => CancelObservation c t) w)). by apply (watched_step 0 _ _ _ (OCancelObservation t)); [|intros [??]|].
Qed.

Lemma watched_handler id token w h : watched id token w -> watched id token (with_handler w h).
Proof. intros H. by apply watched_cancels. Qed.

Lemma watched_retire id token w : watched id token w -> watched id token (on_conn (fun c => retireAliases c id token) w).
Proof.
  intros [Hb [r [Hr Hh]] Ht]. destruct w as [[[c others] sent turns] h bu]. cbn in *.
  destruct Hh as [Hc|Hh].
  - pose proof (route_closed _ (qc_ok_route _ _ _ _ Hb Hr) Hc) as [Et _].
    assert (retireAliases c id token = c) as E.
    { unfold retireAliases. rewrite Hr. cbv zeta. unfold with_tokens. assert (ro_tokens r ∖ {[token]} = ∅) as -> by set_solver.
      rewrite size_empty, elements_empty, difference_empty_L, Z.sub_0_r. cbn.
      rewrite insert_id; [by destruct c|]. rewrite Hr. f_equal. destruct r. cbn in *. by subst. }
    constructor; cbn; rewrite ?E; [done| |done]. exists r. auto.
  - apply Forall_cons in Hh as [Hh _]. constructor; cbn; [|  |done].
    + apply qc_ok_retire; [|done]. apply (routes_bind _ _ _ (ok_routes _ Hb)). by exists r.
    + unfold retireAliases. rewrite Hr. eexists. split; [cbn; by rewrite lookup_insert_eq|]. right. apply Forall_singleton. cbn in *. set_solver.
Qed.

(** ** Passes of the loop *)

(** The state of freshness of an observation. *)
Definition last_seen (x : Observation) : Z * Z := (obsSequence x, lastEvent x).

(** From [h] with the observation [o] as [x] to [h'] with [x'], what was delivered to [o] is
    in order and ends with the state of [x']. *)
Definition delivers (o : nat) (x : Observation) (h : Handler) (x' : Observation) (h' : Handler) : Prop :=
  obs h' !! o = Some x' /\ exists log, notified h' = notified h ++ log /\
    forall rest, Sorted fresher (last_seen x' :: rest) -> Sorted fresher (last_seen x :: delivered o log ++ rest).

Lemma delivers_quiet o x h h' : obs h !! o = Some x -> obs h' = obs h -> notified h' = notified h -> delivers o x h x h'.
Proof. intros Hx Eo En. split; [by rewrite Eo|]. exists []. by rewrite En, app_nil_r. Qed.

Lemma delivers_trans o x h x' h' x'' h'' : delivers o x h x' h' -> delivers o x' h' x'' h'' -> delivers o x h x'' h''.
Proof.
  intros [_ (log & En & H)] [Hx (log' & En' & H')]. split; [done|]. exists (log ++ log'). rewrite En', En, (assoc (++)). split; [done|].
  intros rest Hr. rewrite delivered_app, <- (assoc (++)). by apply H, H'.
Qed.

Lemma delivers_notification o x h r now : obs h !! o = Some x -> exists x', delivers o x h x' (HandleNotification h r now).1.
Proof.
  intros Hx. destruct (HandleNotification_effect h o x r now Hx) as (x1 & log & En & Ho & Hcase). exists x1. split; [done|]. exists log. split; [done|].
  intros rest Hr. unfold last_seen in *. destruct Hcase as [(-> & <- & <-)|(-> & _ & Hf)]; [done|]. cbn. constructor; [done|by constructor].
Qed.

Lemma cleanUp_heap h x : obs (cleanUp h x).1 = obs h /\ notified (cleanUp h x).1 = notified h.
Proof. unfold cleanUp, LoadAndDelete. destruct (index _ _ _) as [? []]; cbn; by destruct (supportsCancel h). Qed.

Section Passes.
Context (maxPayloads : Z) (parameters : Config) (settings : QSettings) (config : Config) (id : nat).
Let exchange : QExchange QLink := link_exchange maxPayloads parameters settings id.

Lemma cancel_ok w token token' o x :
  watched id token w -> obs (wt_handler w) !! o = Some x ->
  watched id token (cancel w token') /\ delivers o x (wt_handler w) x (wt_handler (cancel w token')) /\ wt_budget (cancel w token') = wt_budget w.
Proof.
  intros Hw Hx. unfold cancel. destruct (_ ≫= _) as [y|]; [|split_and!; [done|by apply delivers_quiet|done]].
  destruct (cleanUp_heap (wt_handler w) y) as [E1 E2]. split_and!; [by apply watched_handler|by apply delivers_quiet|done].
Qed.

Lemma receive_ok w req szx initial rd token :
  watched id token w ->
  let '(w', r) := receiveQNotification maxPayloads parameters settings config id w req szx initial rd in
  watched id token w' /\ wt_handler w' = wt_handler w /\ (r <> None -> wt_budget w' = wt_budget w).
Proof.
  intros Hw. unfold receiveQNotification. destruct (negb _); [done|].
  pose proof (ReceiveQBlock2_keeps (QExchange0 := exchange) config (fun l => link_ok id (base token l)) (base_NewToken_ok maxPayloads id token)
    (base_Send_ok maxPayloads parameters settings id token) (wt_budget w) req szx (wt_link w) (Some (initial, rd_time rd)) (rd_rxs rd) Hw) as Hk.
  destruct (ReceiveQBlock2 _ _ _ _ _ _ _) as [[q2 bu] r] eqn:E. apply ReceiveQBlock2_settled in E. split_and!; [exact Hk|done|].
  intros Hr. cbn. unfold settled in E. by destruct r.
Qed.

Lemma notify_ok w r sequence lastEvent now token o x :
  watched id token w -> obs (wt_handler w) !! o = Some x ->
  let '(w', _, _, _) := notify w r sequence lastEvent now in
  watched id token w' /\ (exists x', delivers o x (wt_handler w) x' (wt_handler w')) /\ wt_budget w' = wt_budget w.
Proof.
  intros Hw Hx. unfold notify. destruct r as [response|e].
  - destruct (e_GetOptionUint32 response Observe) as [v [e|]];
      (destruct (delivers_notification o x (wt_handler w) (e_Message response 0) (now - zeroTime) Hx) as [x' H];
       destruct (HandleNotification _ _ _) as [h active]; split_and!; [by apply watched_handler|by exists x'|done]).
  - split_and!; [by apply watched_report|exists x; by apply delivers_quiet|done].
Qed.

Lemma pass_ok w req szx initial sequence lastEvent rd o x :
  watched id (e_token req) w -> obs (wt_handler w) !! o = Some x ->
  let '(w', r) := advanceQBlockObservation maxPayloads parameters settings config id w req szx initial sequence lastEvent rd in
  watched id (e_token req) w' /\ (exists x', delivers o x (wt_handler w) x' (wt_handler w')) /\ (r <> None -> wt_budget w' = wt_budget w).
Proof.
  intros Hw Hx. unfold advanceQBlockObservation. pose proof (receive_ok w req szx initial rd (e_token req) Hw) as H1.
  destruct (receiveQNotification _ _ _ _ _ _ _ _ _ _) as [w1 [r|]]; destruct H1 as (Hw1 & Eh & Hb);
    [|split_and!; [done|exists x; by apply delivers_quiet; rewrite ?Eh|done]].
  cbv zeta. rewrite <- Eh in Hx. apply watched_retire in Hw1. set (w2 := on_conn _ w1) in *. assert (wt_handler w2 = wt_handler w1) as E2 by done.
  assert (wt_budget w2 = wt_budget w) as Hb2 by (by apply Hb). clearbody w2. rewrite <- E2 in Hx. rewrite <- Eh, <- E2.
  set (w3 := if rd_cancel rd then _ else _). assert (watched id (e_token req) w3 /\ delivers o x (wt_handler w2) x (wt_handler w3) /\ wt_budget w3 = wt_budget w2) as (Hw3 & Hd3 & Hb3).
  { subst w3. destruct (rd_cancel rd); [by apply cancel_ok|]. split_and!; [done|by apply delivers_quiet|done]. }
  clearbody w3. destruct (_ || _); [split_and!; [done|by exists x|congruence]|].
  pose proof (notify_ok w3 r sequence lastEvent (rd_now rd) _ o x Hw3 (proj1 Hd3)) as H4.
  destruct (notify w3 r sequence lastEvent (rd_now rd)) as [[[w4 sq] le] active]. destruct H4 as (Hw4 & [x' Hd4] & Hb4).
  pose proof (delivers_trans _ _ _ _ _ _ _ Hd3 Hd4) as Hd. assert (wt_budget w4 = wt_budget w) as Hb5 by congruence.
  destruct (negb active); [by eauto|]. destruct (nextQBlockNotification _ _ _ _) as [[[next|e] rest]|]; by eauto.
Qed.

Lemma passes_ok rounds w req szx initial sequence lastEvent o x :
  watched id (e_token req) w -> obs (wt_handler w) !! o = Some x ->
  let '(w', ended) := observation_loop maxPayloads parameters settings config id w req szx initial sequence lastEvent rounds in
  watched id (e_token req) w' /\ (exists x', delivers o x (wt_handler w) x' (wt_handler w')) /\ (ended = true -> wt_budget w' = wt_budget w).
Proof.
  revert w req initial sequence lastEvent x. induction rounds as [|rd rounds IH]; intros w req initial sequence lastEvent x Hw Hx.
  { split_and!; [done|exists x; by apply delivers_quiet|done]. }
  cbn [observation_loop]. cbv zeta. pose proof (pass_ok w (setQObservationRequestType req (e_type initial)) szx initial sequence lastEvent rd o x Hw Hx) as H1.
  destruct (advanceQBlockObservation _ _ _ _ _ _ _ _ _ _ _ _) as [w1 [[[[next sq] le]|]|]]; destruct H1 as (Hw1 & [x1 Hd1] & Hb1);
    [|split_and!; [done|by exists x1|by intros _; apply Hb1]|split_and!; [done|by exists x1|done]].
  specialize (IH w1 (setQObservationRequestType req (e_type initial)) next sq le x1 Hw1 (proj1 Hd1)).
  destruct (observation_loop _ _ _ _ _ _ _ _ _ _ _ _) as [w2 ended]. destruct IH as (Hw2 & [x2 Hd2] & Hb2). split_and!; [done| |].
  - exists x2. by eapply delivers_trans.
  - intros He. rewrite Hb2 by done. by apply Hb1.
Qed.

(** After a pass the route has the token of the observation only. *)
Lemma retired_tokens c token r :
  qc_objects (retireAliases c id token) !! id = Some r -> ro_tokens r ⊆ {[token]}.
Proof.
  unfold retireAliases. destruct (qc_objects c !! id) as [r0|] eqn:E; [|by rewrite E]. cbn. rewrite lookup_insert_eq. intros [= <-]. cbn.
  intros t. rewrite !elem_of_difference. intros [H1 H2]. destruct (decide (t ∈ ({[token]} : gset _))); [done|]. destruct H2. by split.
Qed.
End Passes.

(** ** The life of an observation in Q-Blocks *)

Lemma open_base_ok maxPayloads s ctxErr token c id turns :
  qc_ok s -> OpenQBlockExchange maxPayloads s.1 ctxErr token = (c, Ok id) -> Forall (turn_ok id) turns -> link_ok id (base token (mkLink (c, s.2) [] turns)).
Proof.
  intros Hs E Ht. destruct (open_link_ok maxPayloads s ctxErr token c id turns Hs E Ht) as [Hb _ _]. constructor; [done| |done].
  unfold OpenQBlockExchange in E. repeat (case_match; try done). injection E as <- <-. eexists. split; [cbn; by rewrite lookup_insert_eq|].
  right. cbn. constructor; [set_solver|constructor].
Qed.

Lemma start_opens maxPayloads settings c h h' m c' id req szx initial :
  startQBlockNotification maxPayloads settings c h h' m = (c', true, Some (id, req, szx, initial)) ->
  OpenQBlockExchange maxPayloads c (qc_ctx c) (e_token req) = (c', Ok id).
Proof.
  unfold startQBlockNotification. destruct (_ || _); [done|]. destruct (qBlockNotificationRequest h m) as [[[req0|] szx0] []]; [|done..].
  unfold prepareQBlockNotification. cbv zeta. destruct (OpenQBlockExchange _ _ _ _) as [c1 [id1|e]] eqn:E; [|done].
  destruct (GetObservation _ _); [|done]. by intros [= -> -> <- _ _].
Qed.

(** C21: an observation whose notifications come in Q-Blocks.  From the first such
    notification on, whatever is received and whatever else happens on the connection
    (losses, other bodies, notifications out of order or repeated, a cancellation, the end
    of the connection): the books of the connection are in order; what reaches the observe
    function is in order, each notification fresher than the one before; while the loop
    runs and its route is open the token of the observation leads to it; and when the loop
    has ended it has given back all bytes and slots that its bodies reserved, and no token
    leads to its route. *)
Theorem q_observation_runs maxPayloads parameters settings config s h h' m c id req szx initial turns bu rounds o x w ended :
  qc_ok s -> startQBlockNotification maxPayloads settings s.1 h h' m = (c, true, Some (id, req, szx, initial)) ->
  Forall (turn_ok id) turns -> obs h' !! o = Some x ->
  runQBlockObservation maxPayloads parameters settings config id (mkWatch (mkLink (c, s.2) [] turns) h' bu) req szx initial rounds = (w, ended) ->
  let conn := (ln_conn (wt_link w)).1 in
  qc_ok (ln_conn (wt_link w)) /\
  (exists log, notified (wt_handler w) = notified h' ++ log /\ Sorted fresher (last_seen x :: delivered o log)) /\
  (ended = false -> exists r, qc_objects conn !! id = Some r /\ (ro_closed r = true \/ qc_routes conn !! e_token req = Some id)) /\
  (ended = true -> wt_budget w = bu /\ forall token, qc_routes conn !! token <> Some id).
Proof.
  intros Hs E Ht Hx. apply start_opens in E. pose proof (open_base_ok _ _ _ _ _ _ _ Hs E Ht) as Hl. unfold runQBlockObservation.
  pose proof (passes_ok maxPayloads parameters settings config id rounds (mkWatch (mkLink (c, s.2) [] turns) h' bu) req szx initial 0 zeroTime o x Hl Hx) as H.
  destruct (observation_loop _ _ _ _ _ _ _ _ _ _ _ _) as [w0 ended0]. intros [= <- <-].
  destruct H as ([Hb [r [Hr Hh]] _] & [x' (_ & log & En & Hd)] & Hbu). cbn [wt_handler] in En, Hbu.
  assert (exists log, notified (wt_handler w0) = notified h' ++ log /\ Sorted fresher (last_seen x :: delivered o log)) as Hlog.
  { exists log. split; [done|]. specialize (Hd [] ltac:(repeat constructor)). by rewrite app_nil_r in Hd. }
  destruct w0 as [[[c' others] sent turns'] h2 bu2]. cbn in *. destruct ended0; cbn [ln_conn wt_link fst wt_budget wt_handler on_conn snd]; split_and!; try done.
  - by apply qc_ok_close.
  - intros _. split; [by apply Hbu|]. eapply close_unbinds; [exact Hb|by exists r].
  - intros _. exists r. split; [done|]. destruct Hh as [?|Hh]; [by left|right]. apply Forall_cons in Hh as [Hh _].
    apply (routes_bind _ _ _ (ok_routes _ Hb)). by exists r.
Qed.

(** *** An example *)
Module ObserveSample.

Definition registration : Message := mkMessage (Some [1; 2]) [mkOption Observe []; mkOption QBlock2 [8]] 16 GET None 1 0.
Definition handler : Handler := fst (NewObservation_register (NewHandler true) registration 0).
Definition settings : QSettings := mkQSettings None true QBlockwiseOnly 6 1152 false.

(** A first notification of one block, then a plain one, then the connection is silent until
    the context is done. *)
Definition first : EMsg := mkEMsg Content [1; 2] [mkOption ETag [9]; mkOption Observe [5]; mkOption Size2 [3]; mkOption QBlock2 []] NonConfirmable 0 (Some [1; 2; 3]) None.
Definition second : EMsg := mkEMsg Content [1; 2] [mkOption Observe [6]] NonConfirmable 0 (Some [4]) None.
Definition rounds : list round := [mkRound 10 [] false 11 [(12, Ok first); (13, Ok second)]; mkRound 14 [] false 15 [(16, Err ErrContext)]].

Definition started := startQBlockNotification 10 settings (qc_start 0) handler handler first.
Definition conn : QConn := started.1.1.
Definition req : EMsg := match started.2 with Some (_, req, _, _) => req | None => first end.
Definition initial : EMsg := match started.2 with Some (_, _, _, initial) => initial | None => first end.
Definition bare : Budget := mkBudget 0 0 0 0.
Definition final := runQBlockObservation 10 DefaultConfig settings DefaultConfig 0 (mkWatch (mkLink (conn, 0) [] []) handler bare) req 0 initial rounds.

Lemma started_ok : startQBlockNotification 10 settings (qc_start 0) handler handler first = (conn, true, Some (0%nat, req, 0, initial)).
Proof. vm_compute. reflexivity. Qed.

Definition watched_observation : Observation := newObservation [1; 2] GET [mkOption Observe []; mkOption QBlock2 [8]].

Lemma registered : obs handler !! 0%nat = Some watched_observation.
Proof. vm_compute. reflexivity. Qed.

Lemma final_ended : final.2 = true.
Proof. vm_compute. reflexivity. Qed.

Lemma q_observation_runs_witness :
  (delivered 0 (notified (wt_handler final.1))).*1 = [5; 6] /\ final.2 = true /\ wt_budget final.1 = bare.
Proof.
  split; [vm_compute; reflexivity|]. split; [exact final_ended|].
  pose proof (q_observation_runs 10 DefaultConfig settings DefaultConfig (qc_start 0, 0) handler handler first conn 0 req 0 initial [] bare rounds 0
    watched_observation final.1 final.2 (qc_ok_start 0 ltac:(done)) started_ok (Forall_nil_2 _) registered (surjective_pairing final)) as (_ & _ & _ & H).
  exact (proj1 (H final_ended)).
Defined.
End ObserveSample.
