(* ===== verification/QFit.v ===== *)
(** * Blocks fit into datagrams

    [qBlockRequestSZX] chooses the size of the blocks of a request from a message that is as
    long as a block of it can be.  The encoding of options grows with their values and with
    their number, so every block that carries a token of the length of the request's fits
    into the datagram limit. *)
From stdpp Require Import prelude list sorting strings gmap.
From Stdlib Require Import ZArith Lia.
From S2P Require Import TcpConn KeepAlive Prelude Cast Codes OptionCodec Options OptionsCodec Message PoolMessage BlockCodec Assembly.
From S2P Require Import Observation EngineMessage ResponseWriter ExchangeKey Blockwise BlockwiseLemmas TableSum QBudget QEngine QServe QAccounting.
From S2P Require Import QUpload QReceive QDownload QClient QSender QConn QSelect.
#[local] Open Scope Z_scope.

(** ** The length of options *)

Definition ext_len (n : Z) : Z := if n <? ExtendOptionByteAddend then 0 else if n <? ExtendOptionWordAddend then 1 else 2.

Lemma zlen_ext_bytes n : zlen (ext_bytes (extendOpt n).1 (extendOpt n).2) = ext_len n.
Proof.
  unfold ext_bytes, extendOpt, ext_len, ExtendOptionByteAddend, ExtendOptionWordAddend.
  destruct (Z.ltb_spec n 13), (Z.leb_spec 13 n); try lia; cbn [fst snd].
  - unfold ExtendOptionByteCode, ExtendOptionWordCode. destruct (Z.eqb_spec n 13), (Z.eqb_spec n 14); lia || done.
  - destruct (Z.ltb_spec n 269), (Z.leb_spec 269 n); try lia; done.
Qed.

Lemma zlen_option_bytes prev o :
  zlen (option_bytes prev o) = 1 + ext_len (ID o - prev) + ext_len (zlen (Value o)) + zlen (Value o).
Proof.
  unfold option_bytes, header_bytes. pose proof (zlen_ext_bytes (ID o - prev)) as H1. pose proof (zlen_ext_bytes (zlen (Value o))) as H2.
  destruct (extendOpt (ID o - prev)), (extendOpt (zlen (Value o))). rewrite zlen_app, zlen_cons, zlen_app. cbn in *. lia.
Qed.

Lemma ext_len_mono a b : a <= b -> ext_len a <= ext_len b.
Proof.
  intros H. unfold ext_len, ExtendOptionByteAddend, ExtendOptionWordAddend. destruct (Z.ltb_spec a 13), (Z.ltb_spec b 13), (Z.ltb_spec a 269), (Z.ltb_spec b 269); lia.
Qed.

Lemma ext_len_nonneg a : 0 <= ext_len a.
Proof. unfold ext_len. destruct (a <? _); [done|]. destruct (a <? _); done. Qed.

Lemma ext_len_add a b : 0 <= a -> 0 <= b -> ext_len (a + b) <= 1 + ext_len a + ext_len b.
Proof.
  intros Ha Hb. unfold ext_len, ExtendOptionByteAddend, ExtendOptionWordAddend.
  destruct (Z.ltb_spec a 13), (Z.ltb_spec b 13), (Z.ltb_spec a 269), (Z.ltb_spec b 269), (Z.ltb_spec (a + b) 13), (Z.ltb_spec (a + b) 269); lia.
Qed.

(** The values of one option are no longer than the first values of another container. *)
Inductive fits_in : list (list byte) -> list (list byte) -> Prop :=
| fits_nil vs : fits_in [] vs
| fits_cons v w vs ws : zlen v <= zlen w -> fits_in vs ws -> fits_in (v :: vs) (w :: ws).

Lemma fits_refl vs : fits_in vs vs.
Proof. induction vs; by constructor. Qed.

(** Leaving an option out does not make the rest longer than it was with it. *)
Lemma options_bytes_skip prev o l :
  prev <= ID o -> Forall (fun p => ID o <= ID p) l ->
  zlen (options_bytes prev l) <= zlen (option_bytes prev o) + zlen (options_bytes (ID o) l).
Proof.
  intros Hp Hl. rewrite zlen_option_bytes. pose proof (ext_len_nonneg (zlen (Value o))). pose proof (zlen_nonneg (Value o)).
  pose proof (ext_len_nonneg (ID o - prev)). destruct l as [|p l]; cbn [options_bytes]; [change (zlen []) with 0; lia|].
  apply Forall_cons in Hl as [Hl _]. rewrite !zlen_app, !zlen_option_bytes.
  pose proof (ext_len_add (ID o - prev) (ID p - ID o) ltac:(lia) ltac:(lia)) as Ha. replace (ID o - prev + (ID p - ID o)) with (ID p - prev) in Ha by lia. lia.
Qed.

Lemma vals_head l p : p ∈ l -> vals l (ID p) <> [].
Proof.
  intros Hp E. assert (Value p ∈ vals l (ID p)) as Hin; [|rewrite E in Hin; by apply elem_of_nil in Hin].
  apply list_elem_of_fmap. exists p. split; [done|]. by apply list_elem_of_filter.
Qed.

Lemma vals_nonempty l id : vals l id <> [] -> exists p, p ∈ l /\ ID p = id.
Proof.
  intros E. destruct (vals l id) as [|v vs] eqn:Ev; [done|]. assert (v ∈ vals l id) as Hv by (rewrite Ev; left).
  apply list_elem_of_fmap in Hv as (p & _ & [? ?]%list_elem_of_filter). eauto.
Qed.

(** A container whose values fit into another's is encoded no longer. *)
Lemma options_bytes_le l l' prev :
  sorted_opts l -> sorted_opts l' -> Forall (fun p => prev <= ID p) l' ->
  (forall id, fits_in (vals l id) (vals l' id)) -> zlen (options_bytes prev l) <= zlen (options_bytes prev l').
Proof.
  revert l prev. induction l' as [|o l' IH]; intros l prev Hs Hs' Hp Hf.
  { destruct l as [|p l]; [done|]. specialize (Hf (ID p)). rewrite vals_cons, decide_True in Hf by done. inversion Hf. }
  apply Sorted.StronglySorted_inv in Hs' as [Hs' Ho]. apply Forall_cons in Hp as [Hpo Hp].
  assert (forall p, p ∈ l -> ID o <= ID p) as Hge.
  { intros p Hpl. pose proof (Hf (ID p)) as Hfp. pose proof (vals_head _ _ Hpl). destruct (vals l (ID p)); [done|].
    destruct (vals_nonempty (o :: l') (ID p)) as (p' & [-> | Hin]%elem_of_cons & <-); [by inversion Hfp|lia|]. rewrite Forall_forall in Ho. by apply Ho. }
  assert (Forall (fun p => ID o <= ID p) l') as Ho' by done. cbn [options_bytes]. rewrite zlen_app.
  destruct (decide (vals l (ID o) = [])) as [E|E].
  - etrans; [apply (options_bytes_skip prev o l Hpo); by apply Forall_forall|]. apply Z.add_le_mono_l, IH; [done..|].
    intros id. specialize (Hf id). rewrite vals_cons in Hf. case_decide as Hid; [subst id; rewrite E; constructor|done].
  - destruct (vals_nonempty _ _ E) as (p & Hpl & Hid). destruct l as [|x l]; [by apply elem_of_nil in Hpl|].
    apply Sorted.StronglySorted_inv in Hs as [Hs Hx]. assert (ID x = ID o) as Ex.
    { pose proof (Hge x ltac:(left)). apply elem_of_cons in Hpl as [-> | Hpl]; [done|]. rewrite Forall_forall in Hx. specialize (Hx _ Hpl). lia. }
    cbn [options_bytes]. rewrite zlen_app, !zlen_option_bytes, Ex.
    assert (zlen (Value x) <= zlen (Value o) /\ forall id, fits_in (vals l id) (vals l' id)) as [Hv Hf'].
    { split.
      - specialize (Hf (ID o)). rewrite !vals_cons, !decide_True in Hf by done. by inversion Hf.
      - intros id. specialize (Hf id). rewrite !vals_cons, Ex in Hf. case_decide; [by inversion Hf|done]. }
    pose proof (ext_len_mono _ _ Hv). specialize (IH l (ID o) Hs Hs' Ho' Hf'). lia.
Qed.

(** ** The choice of a size *)

(** The loop finds the largest size that fits. *)
Lemma largest_szx_spec fits n start :
  0 <= start < Z.of_nat n ->
  match largest_szx fits n start with
  | Some szx => 0 <= szx <= start /\ fits szx = true /\ forall k, szx < k <= start -> fits k = false
  | None => forall k, 0 <= k <= start -> fits k = false
  end.
Proof.
  revert start. induction n as [|n IH]; intros start Hs; [lia|]. cbn [largest_szx]. destruct (fits start) eqn:E; [split_and!; [lia..|done|lia]|].
  unfold SZX16. destruct (Z.eqb_spec start 0) as [-> |Hne]; [intros k Hk; by replace k with 0 by lia|].
  specialize (IH (start - 1) ltac:(lia)). destruct (largest_szx fits n (start - 1)) as [szx|].
  - destruct IH as (H1 & H2 & H3). split_and!; [lia..|done|]. intros k Hk. destruct (decide (k = start)) as [-> |]; [done|]. apply H3. lia.
  - intros k Hk. destruct (decide (k = start)) as [-> |]; [done|]. apply IH. lia.
Qed.

(** ** Marshalled messages *)

Lemma e_Marshal_Ok m mid wire :
  e_Marshal m mid = Ok wire <->
  ValidateMID mid = true /\ ValidateType (e_type m) = true /\ zlen (e_token m) <= MaxTokenSize /\ wire = Udp.bytes (e_Message m mid).
Proof.
  assert (token (e_Message m mid) = e_token m) as Htok by (unfold token; apply default_nil_if_empty).
  unfold e_Marshal. destruct (Z.leb_spec (zlen (e_token m)) MaxTokenSize) as [Ht|Ht].
  - rewrite Size_spec by (by rewrite Htok). cbn iota. destruct (ValidateMID mid) eqn:Hm; [|unfold Udp.Encode; cbn [mMessageID e_Message]; rewrite Hm; naive_solver].
    destruct (ValidateType (e_type m)) eqn:Hty; [|unfold Udp.Encode; cbn [mMessageID mType e_Message]; rewrite Hm, Hty; naive_solver].
    rewrite Encode_writes by (done || by rewrite Htok). rewrite zlen_make_bytes by apply zlen_nonneg. rewrite Z.leb_refl.
    cbn iota. rewrite slice_to_app. naive_solver.
  - unfold Udp.Size. rewrite Htok, (proj2 (Z.ltb_lt _ _) Ht). split; [done|]. intros (_ & _ & ? & _). lia.
Qed.

Lemma zlen_e_bytes m mid :
  zlen (Udp.bytes (e_Message m mid)) = 4 + zlen (e_token m) + zlen (options_bytes 0 (e_options m)) + zlen (payload_bytes (default [] (e_body m))).
Proof.
  unfold Udp.bytes. rewrite !zlen_app. unfold token. cbn [mToken e_Message]. rewrite default_nil_if_empty. change (zlen (Udp.header _)) with 4.
  unfold payload. cbn [mPayload mOptions e_Message]. lia.
Qed.

(** ** The measured message *)

Definition header_vals (req : EMsg) (id : Z) : list (list byte) :=
  if decide (id = RequestTag) then match vals (e_options req) RequestTag with [] => [make_bytes 8] | vs => vs end else
  if decide (id = Size1) then [uint_bytes 4294967295] else
  if decide (id = QBlock2) then [uint_bytes 16777206] else
  if decide (id = QBlock1) then [uint_bytes 16777206] else vals (e_options req) id.

Lemma request_header_spec req :
  sorted_opts (e_options req) ->
  exists h, request_header req = (h, None) /\ e_token h = e_token req /\ e_type h = e_type req /\ e_body h = None /\ sorted_opts (e_options h) /\
    forall id, vals (e_options h) id = header_vals req id.
Proof.
  intros Hs. unfold request_header. rewrite e_ResetOptionsTo_sorted by done. set (m0 := e_set_options _ (e_options req)).
  assert (sorted_opts (e_options m0)) as S0 by exact Hs. pose proof (e_Set_sorted m0 S0 QBlock1 16777206) as S1.
  pose proof (e_Set_sorted _ S1 QBlock2 16777206) as S2. pose proof (e_Set_sorted _ S2 Size1 4294967295) as S3.
  set (m3 := e_SetOptionUint32 _ Size1 _) in *.
  assert (forall id, vals (e_options m3) id = if decide (id = Size1) then [uint_bytes 4294967295] else if decide (id = QBlock2) then [uint_bytes 16777206] else
    if decide (id = QBlock1) then [uint_bytes 16777206] else vals (e_options req) id) as Hv3.
  { intros id. unfold m3. rewrite !e_Set_vals by done. repeat (case_decide; [done|]). done. }
  rewrite e_Has_vals, Hv3 by done. rewrite (decide_False (P := RequestTag = Size1)), (decide_False (P := RequestTag = QBlock2)),
    (decide_False (P := RequestTag = QBlock1)) by done. unfold header_vals. destruct (vals (e_options req) RequestTag) as [|v vs] eqn:E.
  - rewrite bool_decide_false by (by intros []). cbn [negb]. unfold e_SetRequestTag. change (VerifyOptLen RequestTag (zlen (make_bytes 8))) with true.
    cbn [negb]. eexists. split; [done|]. split_and!; try done.
    + exact (proj1 (Set_vals zeroOption (e_options m3) (mkOption RequestTag (make_bytes 8)) S3)).
    + intros id. etrans; [exact (proj2 (Set_vals zeroOption (e_options m3) (mkOption RequestTag (make_bytes 8)) S3) id)|]. cbn [ID Value].
      case_decide; [done|]. apply Hv3.
  - rewrite bool_decide_true by done. cbn [negb]. exists m3. split_and!; try done. intros id. rewrite Hv3.
    destruct (decide (id = RequestTag)) as [-> |Hid]; [|done]. by rewrite !decide_False, E by done.
Qed.

Lemma zlen_uint_bytes_3 v : v < 2 ^ 24 -> zlen (uint_bytes v) <= 3.
Proof.
  intros Hv. unfold uint_bytes, max3ByteNumber. repeat case_match; rewrite ?zlen_be_split; try (change (zlen []) with 0); try lia.
Qed.

(** ** Blocks *)

Section Fit.
Context {X : Type} `{!QExchange X}.
Context (body : list byte) (q : QSettings) (s : q1BodySender X).
Context (Hok : q1_sender_ok body s).
Context (Hids : Forall (fun o => 0 <= ID o) (e_options (s1_request s))).

(** The tag of the sender is the first of the request, or a new one. *)
Definition tag_of_request : Prop :=
  match vals (e_options (s1_request s)) RequestTag with [] => zlen (s1_tag s) <= 8 | v :: _ => s1_tag s = v end.

Lemma part_fits_header num more id :
  tag_of_request -> 0 <= num <= maxQBlockNumber -> fits_in (q1_vals s num more id) (header_vals (s1_request s) id).
Proof.
  intros Htag Hn. destruct Hok as [_ _ _ _ _ Hszx [Hsize Hlt] _ _]. pose proof (zlen_nonneg body).
  assert (forall k b, 0 <= k <= maxQBlockNumber -> zlen (uint_bytes (packed (s1_szx s) k b)) <= zlen (uint_bytes 16777206)) as Hp.
  { intros k b Hk. apply zlen_uint_bytes_3. unfold packed, maxQBlockNumber in *. destruct b; lia. }
  unfold q1_vals, header_vals, tag_of_request in *. destruct (decide (id = RequestTag)).
  { destruct (vals (e_options (s1_request s)) RequestTag); constructor; [|apply fits_nil|by rewrite Htag|apply fits_nil].
    by rewrite zlen_make_bytes. }
  case_decide; [apply fits_cons; [apply zlen_uint_bytes|apply fits_nil]|].
  case_decide; [apply fits_cons; [apply Hp; unfold maxQBlockNumber; lia|apply fits_nil]|].
  case_decide; [apply fits_cons; [by apply Hp|apply fits_nil]|].
  case_decide; [apply fits_nil|]. case_decide; [apply fits_nil|]. apply fits_refl.
Qed.

(** A block beside the measured message. *)
Lemma block_length h token num more payload m :
  tag_of_request -> 0 <= num <= maxQBlockNumber ->
  request_header (s1_request s) = (h, None) -> q1_part s token num more payload = (m, None) ->
  e_type m = e_type h /\ e_token m = token /\ e_token h = e_token (s1_request s) /\
  zlen (Udp.bytes (e_Message m 0)) - zlen token <= zlen (Udp.bytes (e_Message h 0)) - zlen (e_token h) + 1 + zlen payload.
Proof.
  intros Htag Hn Eh Em. destruct (request_header_spec (s1_request s) (so1_sorted _ _ Hok)) as (h' & Eh' & Ht & Hty & Hb & Hs & Hv).
  rewrite Eh in Eh'. injection Eh' as <-. destruct (q1_part_spec body s token num more payload Hok Hn) as (m' & Em' & _ & Ht' & Hty' & Hb' & Hs' & Hv').
  rewrite Em in Em'. injection Em' as <-. split_and!; [congruence|done|done|]. rewrite !zlen_e_bytes, Hb, Hb', Ht'.
  change (default [] (Some payload)) with payload. change (zlen (payload_bytes (default [] None))) with 0.
  assert (zlen (options_bytes 0 (e_options m)) <= zlen (options_bytes 0 (e_options h))) as Hle.
  { apply options_bytes_le; [done..| |intros id; rewrite Hv, Hv'; by apply part_fits_header].
    apply Forall_forall. intros p Hp. pose proof (vals_head _ _ Hp) as Hne. rewrite Hv in Hne. unfold header_vals in Hne.
    repeat (case_decide as E; [rewrite E; vm_compute; discriminate|clear E]). destruct (vals_nonempty _ _ Hne) as (p' & Hin & <-). rewrite Forall_forall in Hids. by apply Hids. }
  pose proof (zlen_nonneg payload). rewrite zlen_payload_bytes. case_match; lia.
Qed.

(** C23: the blocks of a Q-Block1 body fit into the datagrams of the connection: with the block
    size that [qBlockRequestSZX] chooses for the request, every block of the body, under
    whatever number and message ID and under every token that is not longer than the
    request's, passes [validateQBlockDatagram]. *)
Theorem q1_blocks_fit (num mid : Z) (token : list byte) :
  0 <= qs_szx q -> tag_of_request ->
  qBlockRequestSZX q (s1_request s) = Ok (s1_szx s) -> ValidateMID mid = true ->
  0 <= num < s1_blockCount s -> zlen token <= zlen (e_token (s1_request s)) ->
  exists payload more m,
    (Sender_Block (s1_sender s) num).2 = Ok (payload, more) /\ q1_part s token num more payload = (m, None) /\
    validateQBlockDatagram (qs_limit q) m mid = None.
Proof.
  intros Hq Htag Hszx Hmid Hnum Htok. unfold qBlockRequestSZX in Hszx.
  destruct (request_header_spec (s1_request s) (so1_sorted _ _ Hok)) as (h & Eh & _). rewrite Eh in Hszx.
  destruct (e_Marshal h 0) as [wire|] eqn:Ew; [|done]. pose proof (proj1 (e_Marshal_Ok _ _ _) Ew) as (_ & Hty & Hlen & ->).
  set (fits := fun szx => _) in Hszx. pose proof (largest_szx_spec fits 7 (Z.min (qs_szx q) SZX1024)) as Hl.
  destruct (largest_szx fits 7 _) as [szx|]; [|done]. injection Hszx as ->. destruct Hl as (Hr & Hf & _); [unfold SZX1024; lia|].
  destruct Hok as [_ _ _ Hso Hsz _ _ Hcount _]. rewrite <- Hsz in Hcount.
  assert (0 <= num <= maxQBlockNumber) as Hn by (destruct Hso as [_ _ _ _ Hc]; unfold maxQBlockNumber, qBlockMaxNUM in *; lia).
  destruct (Sender_Block_spec (s1_sender s) body num Hso) as (sn & Hb & _); [by rewrite <- Hcount|]. rewrite Hb.
  set (payload := block_of _ _ _). set (more := _ <? _).
  destruct (q1_part_spec body s token num more payload Hok Hn) as (m & Em & _). exists payload, more, m. split; [done|]. split; [done|].
  destruct (block_length h token num more payload m Htag Hn Eh Em) as (Hty' & Ht & Hth & Hle). unfold validateQBlockDatagram.
  assert (e_Marshal m mid = Ok (Udp.bytes (e_Message m mid))) as ->.
  { apply e_Marshal_Ok. rewrite Hty', Ht. split_and!; try done. rewrite Hth in Hlen. lia. }
  assert (zlen payload <= SZX_Size (s1_szx s)) as Hp by (rewrite <- Hsz; apply zlen_block_le; rewrite Hsz; pose proof (SZX_Size_bounds (s1_szx s)); unfold SZX1024 in Hr; lia).
  subst fits. cbv beta in Hf. apply Z.leb_le in Hf. rewrite !zlen_e_bytes in *. rewrite Ht in *. rewrite Hth in *.
  destruct (Z.ltb_spec (qs_limit q) (4 + zlen token + zlen (options_bytes 0 (e_options m)) + zlen (payload_bytes (default [] (e_body m))))); [lia|done].
Qed.
End Fit.

(** ** Examples *)
Module FitSample.
Import DownloadSample SenderSample.

(** The two blocks of [page] in datagrams of 52 bytes. *)
Definition settings (limit : Z) : QSettings := mkQSettings None true QBlockwiseOnly 6 limit false.

Lemma start_sender_ok : q1_sender_ok page start.
Proof.
  split; try (vm_compute; done || reflexivity); try exact post_sorted; try (split; vm_compute; reflexivity || discriminate).
Qed.

Lemma q1_blocks_fit_witness :
  exists payload more m, (Sender_Block (s1_sender start) 1).2 = Ok (payload, more) /\ q1_part start [9] 1 more payload = (m, None) /\
    validateQBlockDatagram 52 m 700 = None.
Proof.
  apply (q1_blocks_fit page (settings 52) start start_sender_ok ltac:(repeat constructor; vm_compute; discriminate) 1 700 [9]);
    vm_compute; try discriminate; try reflexivity. split; [discriminate|reflexivity].
Defined.

(** A request with a short token and a body of nineteen blocks. *)
Definition upload : list byte := make_bytes 300.
Definition put : EMsg := mkEMsg PUT [8] [mkOption URIPath [97]] Confirmable 0 (Some upload) None.
Definition put_sender : q1BodySender (logged mailbox) :=
  q1_start put (mkSender (NewReader upload) 0 300) (mkLogged (mkMailbox [] 100) []) [1; 2; 3; 4; 5; 6; 7; 8] 300 0 0.

(** The block size is chosen with the token of the request, but the blocks after the first
    have tokens of the generator, of eight bytes: for a request with a token of one byte in
    datagrams of at most 48 bytes the size of 16 is found to fit, and its block 16 is then
    refused as too large whatever the new token is. *)
Theorem alias_token_too_large (token : list byte) (mid : Z) (Htoken : zlen token = 8) (Hmid : ValidateMID mid = true) :
  qBlockRequestSZX (settings 48) put = Ok (s1_szx put_sender) /\
  exists payload more, (Sender_Block (s1_sender put_sender) 16).2 = Ok (payload, more) /\
    validateQBlockDatagram 48 (q1_part put_sender token 16 more payload).1 mid = Some ErrQBlockTooLarge.
Proof.
  split; [vm_compute; reflexivity|]. exists (make_bytes 16), true. split; [vm_compute; reflexivity|]. unfold validateQBlockDatagram.
  set (m := (q1_part _ _ _ _ _).1).
  assert (e_token m = token /\ e_type m = Confirmable /\ zlen (options_bytes 0 (e_options m)) = 21 /\ e_body m = Some (make_bytes 16))
    as (H1 & H2 & H3 & H4) by (split_and!; vm_compute; reflexivity).
  assert (e_Marshal m mid = Ok (Udp.bytes (e_Message m mid))) as ->.
  { apply e_Marshal_Ok. rewrite H1, H2. split_and!; [done|done|unfold MaxTokenSize; lia|done]. }
  rewrite zlen_e_bytes, H1, H3, H4. change (zlen (payload_bytes (default [] (Some (make_bytes 16))))) with 17. by rewrite Htoken.
Qed.

Lemma alias_token_too_large_witness :
  validateQBlockDatagram 48 (q1_part put_sender (make_bytes 8) 16 true (make_bytes 16)).1 7 = Some ErrQBlockTooLarge.
Proof.
  destruct (alias_token_too_large (make_bytes 8) 7 eq_refl eq_refl) as [_ (payload & more & E & H)].
  assert (Ok (payload, more) = Ok (make_bytes 16, true)) as E' by (etrans; [symmetry; exact E|vm_compute; reflexivity]).
  injection E' as -> ->. exact H.
Defined.
End FitSample.
