(* ===== verification/QProbe.v ===== *)
(** * The discovery of Q-Block support (src/udp/client/conn.go)

    [qBlockCapability] shares one probe among the requests of a connection: callers of the
    same origin (the Uri-Host and Uri-Port options) use its answer for ten minutes, callers
    of another origin wait for it and then ask anew.  A result is an object that the probe
    and the callers share: results have numbers, [qProbeWait] is the number of the probe
    under way, and the channels that are closed are those of [cap_closed]. *)
From stdpp Require Import prelude list strings gmap.
From Stdlib Require Import ZArith Lia.
From S2P Require Import TcpConn KeepAlive Prelude Cast Codes OptionCodec Options Message PoolMessage BlockCodec Assembly.
From S2P Require Import EngineMessage ResponseWriter ExchangeKey Blockwise QEngine QServe QReceive QSelect.
#[local] Open Scope Z_scope.

Definition origin (options : Options) : Options := filter (fun o => ID o = URIHost \/ ID o = URIPort) options.

Definition qBlockOrigin (options : Options) : list byte * Options := (origin options ≫= option_identity, origin options).

(** ** The answer of a probe *)

(** [strings.ToLower] as far as ASCII can come out of it: besides the capital letters, the
    dotted capital I and the Kelvin sign have lower cases in ASCII. *)
Definition lower (c : byte) : byte := if (65 <=? c) && (c <=? 90) then c + 32 else c.

Fixpoint ToLower (text : list byte) : list byte :=
  match text with
  | [] => []
  | c :: text =>
      match text with
      | d :: text' =>
          if (c =? 196) && (d =? 176) then 105 :: ToLower text' else
          match text' with
          | e :: text'' => if (c =? 226) && (d =? 132) && (e =? 170) then 107 :: ToLower text'' else lower c :: ToLower text
          | [] => lower c :: ToLower text
          end
      | [] => [lower c]
      end
  end.

Fixpoint Contains (text word : list byte) : bool :=
  bool_decide (take (length word) text = word) || match text with [] => false | _ :: text => Contains text word end.

(** [strings.FieldsFunc] that splits at what is not a digit; [field] is the field so far. *)
Fixpoint number_fields (field text : list byte) : list (list byte) :=
  match text with
  | [] => match field with [] => [] | _ => [field] end
  | c :: text =>
      if (c <? 48) || (57 <? c) then match field with [] => number_fields [] text | _ => field :: number_fields [] text end
      else number_fields (field ++ [c]) text
  end.

Definition q_block2_text : list byte := [113; 45; 98; 108; 111; 99; 107; 50].
Definition option_text : list byte := [111; 112; 116; 105; 111; 110].

Definition qProbeBadOptionRelevant (response : EMsg) : bool :=
  let text := ToLower (readQBody response) in
  if Contains text q_block2_text then true else
  if negb (Contains text option_text) then false else
  existsb (fun number => bool_decide (number = [51; 49])) (number_fields [] text).

(** The request of a probe, under a token of the generator. *)
Definition well_known_core : Options := [mkOption URIPath [46; 119; 101; 108; 108; 45; 107; 110; 111; 119; 110]; mkOption URIPath [99; 111; 114; 101]].

Definition probe_request (token : list byte) (originOptions : Options) : EMsg :=
  let req := e_SetType (e_SetCode (AcquireMessage None) GET) Confirmable in
  let req := e_SetToken req token in
  let req := e_ResetOptionsTo req originOptions in
  let req := e_set_options req (fold_left Options_Add well_known_core (e_options req)) in
  e_SetOptionUint32 req QBlock2 (EncodeQBlockOption SZX16 0 false).1.

(** What [probeQBlock] makes of the response of [doInternal]. *)
Definition probeQBlock (originOptions : Options) (response : result EMsg) : bool * option error :=
  match response with
  | Err e => (false, Some e)
  | Ok response =>
      if e_code response =? BadOption then
        if negb (zlen originOptions =? 0) && negb (qProbeBadOptionRelevant response) then (false, Some ErrQBlockUnsupported) else (false, None)
      else if (e_code response <? Created) || (BadRequest <=? e_code response) then (false, Some ErrQBlockUnsupported) else
      if negb (optionCount response QBlock2 =? 1) then (false, Some ErrQBlockUnsupported) else
      match e_GetOptionUint32 response QBlock2 with
      | (_, Some _) => (false, Some ErrQBlockUnsupported)
      | (value, None) =>
          let '(szx, num, _, err) := DecodeQBlockOption value in
          if (match err with Some _ => true | None => false end) || negb (szx =? SZX16) || negb (num =? 0)
          then (false, Some ErrQBlockUnsupported) else (true, None)
      end
  end.

(** ** The shared answer *)

Definition Minute : Z := 60 * Second.

Record qCapabilityResult : Type := mkResult { cr_route : list byte; cr_supported : bool; cr_err : option error }.

Record QCapability : Type := mkCapability {
  qProbeRoute : list byte;
  qProbeSupported : bool;
  qProbeExpires : Z;
  qProbeRetry : Z;
  qProbeWait : option nat;
  cap_results : gmap nat qCapabilityResult;
  cap_closed : gset nat
}.
Implicit Types (p : QCapability).

Definition NewCapability : QCapability := mkCapability [] false zeroTime zeroTime None ∅ ∅.

(** One turn of [qBlockCapability]: the answer, or the probe to wait for; the options are
    those of the probe that it starts, if it does. *)
Definition qBlockCapability p (now : Z) (options : Options) : QCapability * (bool + nat) * option Options :=
  let '(routeKey, originOptions) := qBlockOrigin options in
  if bool_decide (qProbeRoute p = routeKey) && (now <? qProbeExpires p) then (p, inl (qProbeSupported p), None) else
  if bool_decide (qProbeRoute p = routeKey) && (now <? qProbeRetry p) then (p, inl false, None) else
  match qProbeWait p with
  | Some wait => (p, inr wait, None)
  | None =>
      let wait := fresh (dom (cap_results p)) in
      (mkCapability routeKey (qProbeSupported p) zeroTime zeroTime (Some wait) (<[wait := mkResult routeKey false None]> (cap_results p)) (cap_closed p),
       inr wait, Some originOptions)
  end.

Definition runQBlockProbe p (wait : nat) (now : Z) (answer : bool * option error) : QCapability :=
  let '(supported, err) := answer in
  let results := alter (fun r => mkResult (cr_route r) supported err) wait (cap_results p) in
  match err with
  | None => mkCapability (qProbeRoute p) supported (now + 10 * Minute) (qProbeRetry p) None results ({[wait]} ∪ cap_closed p)
  | Some _ => mkCapability (qProbeRoute p) supported (qProbeExpires p) (now + Second) None results ({[wait]} ∪ cap_closed p)
  end.

(** After the wait: the result, unless it is of another origin. *)
Definition after_wait p (wait : nat) (options : Options) : option (bool * option error) :=
  match cap_results p !! wait with
  | Some r => if bool_decide (cr_route r = (qBlockOrigin options).1) then Some (cr_supported r, cr_err r) else None
  | None => None
  end.

(** ** Runs *)

(** A caller with a request of some options, a probe that ends, a caller that goes on after
    its wait or gives up. *)
Inductive cap_event : Type :=
| Call (caller : nat) (options : Options) (now : Z)
| Finish (wait : nat) (now : Z) (answer : bool * option error)
| Resume (caller : nat) (now : Z)
| Leave (caller : nat).

(** An answer with the options of its caller and its time; [a_waited] says whether the caller
    waited for the probe. *)
Record cap_answer : Type := mkAnswer { a_options : Options; a_at : Z; a_waited : bool; a_value : bool * option error }.
(** A probe that ended: the options it was sent with, when it ended, and how. *)
Record cap_probe : Type := mkProbe { f_origin : Options; f_at : Z; f_value : bool * option error }.

Record cap_state : Type := mkCapState {
  cs_cap : QCapability;
  cs_running : gmap nat Options;
  cs_waiting : gmap nat (Options * nat);
  cs_ended : list cap_probe;
  cs_answers : list cap_answer
}.

Definition cap_call (s : cap_state) (caller : nat) (options : Options) (now : Z) : cap_state :=
  let '(p, outcome, started) := qBlockCapability (cs_cap s) now options in
  match outcome with
  | inl supported => mkCapState p (cs_running s) (delete caller (cs_waiting s)) (cs_ended s) (mkAnswer options now false (supported, None) :: cs_answers s)
  | inr wait =>
      mkCapState p (match started with Some o => <[wait := o]> (cs_running s) | None => cs_running s end)
        (<[caller := (options, wait)]> (cs_waiting s)) (cs_ended s) (cs_answers s)
  end.

Definition cap_step (s : cap_state) (e : cap_event) : cap_state :=
  match e with
  | Call caller options now => cap_call s caller options now
  | Finish wait now answer =>
      match cs_running s !! wait with
      | None => s
      | Some o => mkCapState (runQBlockProbe (cs_cap s) wait now answer) (delete wait (cs_running s)) (cs_waiting s)
                    (mkProbe o now answer :: cs_ended s) (cs_answers s)
      end
  | Resume caller now =>
      match cs_waiting s !! caller with
      | None => s
      | Some (options, wait) =>
          if bool_decide (wait ∈ cap_closed (cs_cap s)) then
            match after_wait (cs_cap s) wait options with
            | Some answer => mkCapState (cs_cap s) (cs_running s) (delete caller (cs_waiting s)) (cs_ended s) (mkAnswer options now true answer :: cs_answers s)
            | None => cap_call s caller options now
            end
          else s
      end
  | Leave caller => mkCapState (cs_cap s) (cs_running s) (delete caller (cs_waiting s)) (cs_ended s) (cs_answers s)
  end.

Definition cap_run (s : cap_state) (events : list cap_event) : cap_state := fold_left cap_step events s.
Definition cap_start : cap_state := mkCapState NewCapability ∅ ∅ [] [].

(** ** Invariant *)

Definition route_of (o : Options) : list byte := o ≫= option_identity.

(** The answer of a probe may be given: the caller waited for it, or it is recent. *)
Definition justified (ended : list cap_probe) (a : cap_answer) : Prop :=
  exists f, f ∈ ended /\ f_origin f = origin (a_options a) /\
    if a_waited a then a_value a = f_value f
    else match (f_value f).2 with
         | None => a_value a = f_value f /\ a_at a < f_at f + 10 * Minute
         | Some _ => a_value a = (false, None) /\ a_at a < f_at f + Second
         end.

(** An event at a real time, with options that can be told apart. *)
Definition event_ok (e : cap_event) : Prop :=
  match e with
  | Call _ options now => Forall keyable options /\ zeroTime <= now
  | Finish _ now _ | Resume _ now => zeroTime <= now
  | Leave _ => True
  end.

Record cap_ok (s : cap_state) : Prop := mkCapOk {
  co_wait : match qProbeWait (cs_cap s) with
            | Some wait => qProbeExpires (cs_cap s) = zeroTime /\ qProbeRetry (cs_cap s) = zeroTime /\
                exists o, cs_running s = {[wait := o]} /\ route_of o = qProbeRoute (cs_cap s) /\ Forall keyable o
            | None => cs_running s = ∅
            end;
  co_expires : qProbeExpires (cs_cap s) = zeroTime \/ exists f, f ∈ cs_ended s /\ route_of (f_origin f) = qProbeRoute (cs_cap s) /\
                 f_value f = (qProbeSupported (cs_cap s), None) /\ qProbeExpires (cs_cap s) = f_at f + 10 * Minute;
  co_retry : qProbeRetry (cs_cap s) = zeroTime \/ exists f, f ∈ cs_ended s /\ route_of (f_origin f) = qProbeRoute (cs_cap s) /\
               is_Some (f_value f).2 /\ qProbeRetry (cs_cap s) = f_at f + Second;
  co_running : forall wait o, cs_running s !! wait = Some o -> exists r, cap_results (cs_cap s) !! wait = Some r /\ cr_route r = route_of o;
  co_closed : forall wait, wait ∈ cap_closed (cs_cap s) -> exists r f, cap_results (cs_cap s) !! wait = Some r /\ f ∈ cs_ended s /\
                route_of (f_origin f) = cr_route r /\ f_value f = (cr_supported r, cr_err r);
  co_once : forall wait, wait ∈ cap_closed (cs_cap s) -> cs_running s !! wait = None;
  co_ended : forall f, f ∈ cs_ended s -> Forall keyable (f_origin f);
  co_waiting : forall caller options wait, cs_waiting s !! caller = Some (options, wait) -> Forall keyable options;
  co_answers : forall a, a ∈ cs_answers s -> justified (cs_ended s) a
}.

Lemma origin_keyable options : Forall keyable options -> Forall keyable (origin options).
Proof. rewrite !Forall_forall. intros H o [_ Ho]%list_elem_of_filter. by apply H. Qed.

(** Equal routes are equal origins. *)
Lemma route_origin o options : Forall keyable o -> Forall keyable options -> route_of o = (qBlockOrigin options).1 -> o = origin options.
Proof. intros Ho Hs E. apply options_identity_inj; [done|by apply origin_keyable|done]. Qed.

Lemma cap_waiting_insert (w : gmap nat (Options * nat)) caller options wait :
  Forall keyable options -> (forall c o n, w !! c = Some (o, n) -> Forall keyable o) ->
  forall c o n, <[caller := (options, wait)]> w !! c = Some (o, n) -> Forall keyable o.
Proof. intros Hk Hw c o n [[_ [= <- <-]] | [_ H]]%lookup_insert_Some; [done|by eapply Hw]. Qed.

Lemma cap_waiting_delete (w : gmap nat (Options * nat)) caller :
  (forall c o n, w !! c = Some (o, n) -> Forall keyable o) -> forall c o n, delete caller w !! c = Some (o, n) -> Forall keyable o.
Proof. intros Hw c o n [_ H]%lookup_delete_Some. by eapply Hw. Qed.

(** A caller that waits for the probe under way. *)
Lemma cap_joins s caller options wait :
  cap_ok s -> Forall keyable options ->
  cap_ok (mkCapState (cs_cap s) (cs_running s) (<[caller := (options, wait)]> (cs_waiting s)) (cs_ended s) (cs_answers s)).
Proof. intros [Hwait Hex Hre Hrun Hcl Hon Hen Hwa Han] Hk. split; try done. by apply cap_waiting_insert. Qed.

(** A caller that starts a probe. *)
Lemma cap_starts s caller options (wait := fresh (dom (cap_results (cs_cap s)))) (routeKey := (qBlockOrigin options).1) :
  cap_ok s -> Forall keyable options -> qProbeWait (cs_cap s) = None ->
  cap_ok (mkCapState (mkCapability routeKey (qProbeSupported (cs_cap s)) zeroTime zeroTime (Some wait)
      (<[wait := mkResult routeKey false None]> (cap_results (cs_cap s))) (cap_closed (cs_cap s)))
    (<[wait := origin options]> (cs_running s)) (<[caller := (options, wait)]> (cs_waiting s)) (cs_ended s) (cs_answers s)).
Proof.
  intros [Hwait Hex Hre Hrun Hcl Hon Hen Hwa Han] Hk Hnone. rewrite Hnone in Hwait. rewrite Hwait in *.
  assert (cap_results (cs_cap s) !! wait = None) as Hf by (apply not_elem_of_dom, is_fresh).
  assert (wait ∉ cap_closed (cs_cap s)) as Hnc by (intros Hin; destruct (Hcl _ Hin) as (r & _ & E & _); congruence). clearbody wait.
  split; cbn; try done; try (by left).
  - split; [done|]. split; [done|]. exists (origin options). split; [done|]. split; [done|]. by apply origin_keyable.
  - intros w o [[<- <-] | [_ H]]%lookup_insert_Some; [|by rewrite lookup_empty in H]. eexists. by rewrite lookup_insert_eq.
  - intros w Hw. destruct (Hcl _ Hw) as (r & f & E & Hr). exists r, f. split; [|done]. rewrite lookup_insert_ne; congruence.
  - intros w Hw. rewrite lookup_insert_ne by congruence. apply lookup_empty.
  - by apply cap_waiting_insert.
Qed.

(** A caller that is answered at once. *)
Lemma cap_hits s caller options now value :
  cap_ok s -> justified (cs_ended s) (mkAnswer options now false value) ->
  cap_ok (mkCapState (cs_cap s) (cs_running s) (delete caller (cs_waiting s)) (cs_ended s) (mkAnswer options now false value :: cs_answers s)).
Proof.
  intros [Hwait Hex Hre Hrun Hcl Hon Hen Hwa Han] Hj. split; try done; [by apply cap_waiting_delete|].
  intros a [-> | Ha]%elem_of_cons; [done|by apply Han].
Qed.

Lemma cap_call_ok s caller options now :
  cap_ok s -> Forall keyable options -> zeroTime <= now -> cap_ok (cap_call s caller options now).
Proof.
  intros Hs Hk Hz. pose proof Hs as [_ Hex Hre _ _ _ Hen _ _]. unfold cap_call, qBlockCapability. cbn [qBlockOrigin].
  pose proof (cap_starts s caller options Hs Hk) as Hstart. cbn [qBlockOrigin fst] in Hstart. fold (route_of (origin options)) in *.
  assert (forall f, f ∈ cs_ended s -> route_of (f_origin f) = route_of (origin options) -> f_origin f = origin options) as Hroute.
  { intros f Hf E. apply route_origin; [by apply Hen|done..]. }
  destruct (bool_decide_reflect (qProbeRoute (cs_cap s) = route_of (origin options))) as [Er|Er]; cbn [andb].
  2: { destruct (qProbeWait (cs_cap s)) as [wait|]; [by apply cap_joins|by apply Hstart]. }
  destruct (Z.ltb_spec now (qProbeExpires (cs_cap s))) as [He|He]; [|destruct (Z.ltb_spec now (qProbeRetry (cs_cap s))) as [Ht|Ht]].
  - apply cap_hits; [done|]. destruct Hex as [Hex|(f & Hf & Hfr & Hv & Htime)]; [lia|]. exists f. split; [done|]. split; [apply Hroute; congruence|].
    cbn. rewrite Hv. cbn. split; [done|lia].
  - apply cap_hits; [done|]. destruct Hre as [Hre|(f & Hf & Hfr & [e Hv] & Htime)]; [lia|]. exists f. split; [done|].
    split; [apply Hroute; congruence|]. cbn. rewrite Hv. split; [done|lia].
  - destruct (qProbeWait (cs_cap s)) as [wait|]; [by apply cap_joins|by apply Hstart].
Qed.

Lemma justified_mono ended f a : justified ended a -> justified (f :: ended) a.
Proof. intros (g & Hg & H). exists g. split; [by right|done]. Qed.

Lemma cap_finish_ok s wait o now answer :
  cap_ok s -> cs_running s !! wait = Some o ->
  cap_ok (mkCapState (runQBlockProbe (cs_cap s) wait now answer) (delete wait (cs_running s)) (cs_waiting s)
            (mkProbe o now answer :: cs_ended s) (cs_answers s)).
Proof.
  intros [Hwait Hex Hre Hrun Hcl Hon Hen Hwa Han] Ho. destruct answer as [supported err].
  destruct (qProbeWait (cs_cap s)) as [w|] eqn:Ew; [|rewrite Hwait in Ho; by rewrite lookup_empty in Ho].
  destruct Hwait as (Hx & Hy & o' & Hsing & Hroute & Hkey). rewrite Hsing in *. apply lookup_singleton_Some in Ho as [-> ->].
  destruct (Hrun wait o) as (r & Hr & Hrr); [apply lookup_singleton_eq|]. unfold runQBlockProbe. cbv zeta.
  set (results := alter _ wait _). assert (results !! wait = Some (mkResult (cr_route r) supported err)) as Hnew by (unfold results; by rewrite lookup_alter_eq, Hr).
  assert (forall w, w <> wait -> results !! w = cap_results (cs_cap s) !! w) as Hold by (intros w Hw; unfold results; by rewrite lookup_alter_ne).
  set (f := mkProbe o now (supported, err)). assert (f ∈ f :: cs_ended s) as Hf by left.
  assert (forall w, w ∈ {[wait]} ∪ cap_closed (cs_cap s) -> exists r f', results !! w = Some r /\ f' ∈ f :: cs_ended s /\
    route_of (f_origin f') = cr_route r /\ f_value f' = (cr_supported r, cr_err r)) as Hclosed.
  { intros w Hw. destruct (decide (w = wait)) as [-> |Hne]; [exists (mkResult (cr_route r) supported err), f; split_and!; done|].
    destruct (Hcl w) as (r' & f' & E & Hf' & H'); [set_solver|]. exists r', f'. rewrite Hold by done. split_and!; [done|by right|apply H'..]. }
  rewrite delete_singleton_eq. destruct err as [e|]; split; cbn; try done; try (by left).
  all: try (intros w n E; by rewrite lookup_empty in E).
  all: try (intros w _; apply lookup_empty).
  all: try (intros g [-> | Hg]%elem_of_cons; [done|by apply Hen]).
  all: try (intros a Ha; by apply justified_mono, Han).
  - right. exists f. split_and!; [done|done|eauto|done].
  - right. exists f. by split_and!.
Qed.

Lemma cap_step_ok s e : event_ok e -> cap_ok s -> cap_ok (cap_step s e).
Proof.
  intros He Hs. destruct e as [caller options now|wait now answer|caller now|caller]; cbn [cap_step event_ok] in *.
  - destruct He. by apply cap_call_ok.
  - destruct (cs_running s !! wait) as [o|] eqn:Ho; [|done]. by apply cap_finish_ok.
  - destruct (cs_waiting s !! caller) as [[options wait]|] eqn:Ew; [|done]. pose proof (co_waiting _ Hs _ _ _ Ew) as Hk.
    case_bool_decide as Hin; [|done]. destruct (co_closed _ Hs _ Hin) as (r & f & Er & Hf & Hroute & Hv). unfold after_wait. rewrite Er.
    case_bool_decide as Eo; [|by apply cap_call_ok]. destruct Hs as [Hwait Hex Hre Hrun Hcl Hon Hen Hwa Han]. split; try done; [by apply cap_waiting_delete|].
    intros a [-> | Ha]%elem_of_cons; [|by apply Han]. exists f. split; [done|]. split; [|done]. apply route_origin; [by apply Hen|done|by etrans].
  - destruct Hs as [Hwait Hex Hre Hrun Hcl Hon Hen Hwa Han]. split; try done. by apply cap_waiting_delete.
Qed.

Lemma cap_run_ok s events : Forall event_ok events -> cap_ok s -> cap_ok (cap_run s events).
Proof. intros He. revert s. induction He as [|e events He _ IH]; intros s Hs; [done|]. by apply IH, cap_step_ok. Qed.

Lemma cap_start_ok : cap_ok cap_start.
Proof.
  split; cbn; try done; try (by left); try set_solver; intros ? ? *; by rewrite lookup_empty.
Qed.

(** In whatever order requests ask for the peer's support, probes end and callers give up:
    at most one probe is under way, and every answer that a request gets is that of a probe
    sent with exactly the request's own Uri-Host and Uri-Port options: one that the request
    waited for, an answer less than ten minutes old, or no support because a probe failed
    less than a second ago.  No answer of another origin is ever used. *)
Theorem capability_of_own_origin (events : list cap_event) (Hevents : Forall event_ok events) :
  let s := cap_run cap_start events in
  (size (cs_running s) <= 1)%nat /\ forall a, a ∈ cs_answers s -> justified (cs_ended s) a.
Proof.
  intros s. assert (cap_ok s) as Hs by (apply cap_run_ok; [done|apply cap_start_ok]). split; [|apply (co_answers _ Hs)].
  pose proof (co_wait _ Hs) as Hw. destruct (qProbeWait (cs_cap s)) as [wait|]; [destruct Hw as (_ & _ & o & -> & _)|rewrite Hw].
  - by rewrite map_size_singleton.
  - rewrite map_size_empty. lia.
Qed.

(** ** An example *)
Module ProbeSample.
Definition host_a : Options := [mkOption URIHost [97]].
Definition host_b : Options := [mkOption URIHost [98]; mkOption URIPath [99]].
(** The second caller waits for the probe of the first, and then starts its own. *)
Definition events : list cap_event :=
  [Call 1 host_a 10; Call 2 host_b 20; Finish 0 30 (true, None); Resume 1 40; Call 3 host_a 45; Resume 2 50; Finish 1 60 (false, Some ErrQBlockUnsupported);
   Resume 2 70; Call 4 host_b 80].

Example events_answers :
  (fun a => (a_options a, a_value a)) <$> cs_answers (cap_run cap_start events) =
    [(host_b, (false, None)); (host_b, (false, Some ErrQBlockUnsupported)); (host_a, (true, None)); (host_a, (true, None))].
Proof. vm_compute. reflexivity. Qed.

Lemma probe_events_ok : Forall event_ok events.
Proof. repeat constructor; vm_compute; discriminate || reflexivity. Qed.

Lemma capability_of_own_origin_witness :
  justified (cs_ended (cap_run cap_start events)) (mkAnswer host_b 80 false (false, None)).
Proof.
  destruct (capability_of_own_origin events probe_events_ok) as [_ H]. apply H. apply list_elem_of_lookup. exists 0%nat. vm_compute. reflexivity.
Defined.
End ProbeSample.
