(* ===== verification/UdpServer.v ===== *)
(** * The UDP server (src/udp/server/server.go, session.go)

    A server reads datagrams from one socket and gives each to the connection of its peer.
    A connection is an object that the table [conns] and its users share: connections have
    numbers, [sv_objects] holds them and [sv_conns] maps keys to numbers.  What a
    connection does with a datagram is behind the interface [PeerConn].  A key is made of
    the text of two addresses; [addr_string] is [net.UDPAddr.String]. *)
From stdpp Require Import prelude list strings gmap.
From Stdlib Require Import ZArith Lia.
From S2P Require Import TcpConn KeepAlive Prelude Cast Codes OptionCodec Options Message PoolMessage BlockCodec Assembly UdpConn.
#[local] Open Scope Z_scope.

(** [net.UDPAddr]; a nil address is empty. *)
Record UDPAddr : Type := mkUDPAddr { ua_ip : list byte; ua_port : Z; ua_zone : list byte }.
#[export] Instance UDPAddr_eq : EqDecision UDPAddr.
Proof. solve_decision. Defined.

(** [net.IP.IsUnspecified] *)
Definition IsUnspecified (ip : list byte) : bool :=
  match To4 ip with
  | Some v4 => bool_decide (v4 = [0; 0; 0; 0])
  | None => (zlen ip =? 16) && bool_decide (ip = make_bytes 16)
  end.

Definition toWildcardLocalAddr (laddr : UDPAddr) : UDPAddr := mkUDPAddr [] (ua_port laddr) [].

Definition localAddrCanFallbackToWildcard (laddr : UDPAddr) : bool :=
  if zlen (ua_ip laddr) =? 0 then false else
  if IsMulticast (ua_ip laddr) || IsUnspecified (ua_ip laddr) then false else true.

Definition makeResetDatagram (mid : Z) : result (list byte) :=
  if negb (ValidateMID mid) then Err (ErrOther "invalid reset mid") else
  match SafeCastTo KUint16 mid with
  | Some (midU16, None) => Ok (112 :: 0 :: be_split 2 midU16)
  | _ => Err (ErrOther "invalid reset mid")
  end.

Record incomingDatagram : Type := mkDatagram { d_buf : list byte; d_raddr : UDPAddr; d_cm : option ControlMessage }.

(** ** Connections *)

(** What the server uses of a connection: [NewConnWithOpts], [Process], [CheckExpirations],
    [InactivityMonitor().Notify], [Close], whether its own context is done, and the callback
    [OnNewConn]. *)
Class PeerConn (CC : Type) : Type := {
  pc_new : UDPAddr -> CC;
  pc_Process : CC -> option ControlMessage -> list byte -> Z -> CC * option process_error;
  pc_CheckExpirations : CC -> Z -> CC;
  pc_Notify : CC -> Z -> CC;
  pc_Close : CC -> CC;
  pc_done : CC -> bool;
  pc_OnNewConn : CC -> CC
}.

Section UdpServer.
Context {CC : Type} `{!PeerConn CC} (addr_string : UDPAddr -> list byte).
Context (maxMessageSize : Z) (laddr0 : UDPAddr).

(** [sn_hooks]: the functions of [AddOnClose] have not run. *)
Record sconn : Type := mkConn { sn_raddr : UDPAddr; sn_key : list byte; sn_hooks : bool; sn_cc : CC }.

(** [sv_done] says that the context of the server is done, which ends those of its
    connections; [sv_sent] are the datagrams that the server itself wrote. *)
Record Server : Type := mkServer {
  sv_conns : gmap (list byte) nat;
  sv_objects : gmap nat sconn;
  sv_done : bool;
  sv_listen : bool;
  sv_errors : list error;
  sv_sent : list (list byte * UDPAddr * option ControlMessage)
}.
Implicit Types (s : Server) (c : sconn).

Definition with_conns s (conns : gmap (list byte) nat) (objects : gmap nat sconn) : Server :=
  mkServer conns objects (sv_done s) (sv_listen s) (sv_errors s) (sv_sent s).
Definition s_report s (e : error) : Server :=
  mkServer (sv_conns s) (sv_objects s) (sv_done s) (sv_listen s) (sv_errors s ++ [e]) (sv_sent s).
Definition s_write s (data : list byte) (raddr : UDPAddr) (cm : option ControlMessage) : Server :=
  mkServer (sv_conns s) (sv_objects s) (sv_done s) (sv_listen s) (sv_errors s) (sv_sent s ++ [(data, raddr, cm)]).
Definition with_cc s (id : nat) (f : CC -> CC) : Server :=
  with_conns s (sv_conns s) (alter (fun c => mkConn (sn_raddr c) (sn_key c) (sn_hooks c) (f (sn_cc c))) id (sv_objects s)).

Definition conn_done s (id : nat) : bool :=
  match sv_objects s !! id with Some c => sv_done s || pc_done (sn_cc c) | None => true end.

Definition getConnKey (raddr laddr : UDPAddr) : list byte :=
  let laddr := if negb (zlen (ua_ip laddr) =? 0) && IsMulticast (ua_ip laddr) then toWildcardLocalAddr laddr else laddr in
  let laddr := if negb (zlen (ua_ip laddr) =? 0) && IsUnspecified (ua_ip laddr) then toWildcardLocalAddr laddr else laddr in
  addr_string raddr ++ [45] ++ addr_string laddr.

(** ** Closing *)

(** [Close] of a connection; its error is that of closing the socket, which it does not own. *)
Definition closeConnection s (id : nat) : Server := with_cc s id pc_Close.

(** The function of [closeKey]: the session is closed and shut down, which takes the
    connection from the table if it is still there. *)
Definition closeFn s (id : nat) : Server :=
  let s := with_cc s id pc_Close in
  match sv_objects s !! id with
  | None => s
  | Some c =>
      if negb (sn_hooks c) then s else
      let s := with_conns s (sv_conns s) (<[id := mkConn (sn_raddr c) (sn_key c) false (sn_cc c)]> (sv_objects s)) in
      if bool_decide (sv_conns s !! sn_key c = Some id) then with_conns s (delete (sn_key c) (sv_conns s)) (sv_objects s) else s
  end.

Definition closeSessions s : Server :=
  let conns := (map_to_list (sv_conns s)).*2 in
  fold_left (fun s id => closeFn (closeConnection s id) id) conns (with_conns s ∅ (sv_objects s)).

Definition Stop s : Server :=
  closeSessions (mkServer (sv_conns s) (sv_objects s) true (sv_listen s) (sv_errors s) (sv_sent s)).

(** ** Finding a connection *)

Definition getOrCreateConn s (raddr laddr : UDPAddr) : Server * nat * bool :=
  let key := getConnKey raddr laddr in
  match sv_conns s !! key with
  | Some id => (s, id, false)
  | None =>
      match (if localAddrCanFallbackToWildcard laddr then sv_conns s !! getConnKey raddr (toWildcardLocalAddr laddr) else None) with
      | Some id => (s, id, false)
      | None =>
          let id := fresh (dom (sv_objects s)) in
          (with_conns s (<[key := id]> (sv_conns s)) (<[id := mkConn raddr key true (pc_new raddr)]> (sv_objects s)), id, true)
      end
  end.

(** One turn of [getConn]: whether the connection is done in the end. *)
Definition getConn_turn s (raddr laddr : UDPAddr) (now : Z) : Server * nat * bool * bool :=
  let '(s, id, created) := getOrCreateConn s raddr laddr in
  let s := if created : bool then with_cc s id pc_OnNewConn
           else let s := with_cc s id (fun cc => pc_CheckExpirations cc (now + 10000000)) in
                if conn_done s id then s else with_cc s id (fun cc => pc_Notify cc now) in
  (s, id, created, conn_done s id).

Definition getConn s (raddr : option UDPAddr) (laddr : option UDPAddr) (now : Z) : Server * result (nat * bool) :=
  match raddr with
  | None => (s, Err (ErrOther "invalid remote address"))
  | Some raddr =>
      let laddr := default laddr0 laddr in
      let '(s, id, created, closed) := getConn_turn s raddr laddr now in
      if negb closed then (s, Ok (id, created)) else
      let '(s, id, created, closed) := getConn_turn (closeFn s id) raddr laddr now in
      if negb closed then (s, Ok (id, created)) else (closeFn s id, Err (ErrOther "connection is closed"))
  end.

Definition NewConn s (addr : option UDPAddr) (laddr : list UDPAddr) (now : Z) : Server * result nat :=
  if 1 <? zlen laddr then (s, Err (ErrOther "invalid number of local addresses")) else
  if negb (sv_listen s) then (s, Err (ErrOther "server is not running")) else
  match getConn s addr (head laddr) now with
  | (s, Ok (id, _)) => (s, Ok id)
  | (s, Err e) => (s, Err e)
  end.

(** ** Datagrams *)

Definition resolvePacketLocalAddr (cm : option ControlMessage) : UDPAddr :=
  match cm with
  | Some cm =>
      match Dst cm with
      | Some dst => if (0 <? zlen dst) && negb (IsMulticast dst) then mkUDPAddr dst (ua_port laddr0) (ua_zone laddr0) else laddr0
      | None => laddr0
      end
  | None => laddr0
  end.

(** The control message of an answer. *)
Definition reply_cm (cm : option ControlMessage) : option ControlMessage :=
  match cm with Some cm => Some (mkCM None (Dst cm) (IfIndex cm)) | None => None end.

Definition maybeRejectMalformedConfirmable s (raddr : UDPAddr) (cm : option ControlMessage) (e : MalformedMessageError) : Server :=
  if InvalidVersion e then s else
  if negb (HasHeader e) then s else
  if negb (mf_Type e =? Confirmable) then s else
  if negb (ValidateMID (mf_MessageID e)) then s else
  match makeResetDatagram (mf_MessageID e) with
  | Err err => s_report s err
  | Ok resetDatagram => s_write s resetDatagram raddr (reply_cm cm)
  end.

Definition handleProcessError s (id : nat) (raddr : UDPAddr) (cm : option ControlMessage) (err : process_error) : Server :=
  match err with
  | PMalformed e =>
      let s := maybeRejectMalformedConfirmable s raddr cm e in
      if InvalidVersion e then s else s_report s (mf_Err e)
  | PError e => s_report (closeConnection s id) e
  end.

(** The loop of [Serve] for one datagram. *)
Definition Serve_datagram s (packet : incomingDatagram) (now : Z) : Server :=
  if maxMessageSize <? zlen (d_buf packet) then s_report s (ErrOther "max message size was exceeded") else
  match getConn s (Some (d_raddr packet)) (Some (resolvePacketLocalAddr (d_cm packet))) now with
  | (s, Err e) => s_report s e
  | (s, Ok (id, created)) =>
      match sv_objects s !! id with
      | None => s
      | Some c =>
          let '(cc, err) := pc_Process (sn_cc c) (d_cm packet) (d_buf packet) now in
          let s := with_cc s id (fun _ => cc) in
          match err with
          | None => s
          | Some e =>
              let s := handleProcessError s id (sn_raddr c) (d_cm packet) e in
              match e with
              | PMalformed _ => if (created : bool) then closeConnection s id else s
              | PError _ => s
              end
          end
      end
  end.

(** [handleInactivityMonitors], over a copy of the table. *)
Definition handleInactivityMonitors s (now : Z) : Server :=
  fold_left (fun s id => if conn_done s id then closeFn s id else with_cc s id (fun cc => pc_CheckExpirations cc now))
    (map_to_list (sv_conns s)).*2 s.

(** ** Serving *)

(** What a read yields: a datagram, an oversized one where the system reports it, the end of
    the socket or of the context, or another error. *)
Inductive read : Type := RDatagram (packet : incomingDatagram) (now : Z) | ROversized (e : error) | RClosed | RError (e : error).

(** The loop over the reads so far; the second result is what [Serve] returns, if it does. *)
Fixpoint Serve_loop s (reads : list read) : Server * option (option error) :=
  match reads with
  | [] => (s, None)
  | RDatagram packet now :: reads => Serve_loop (Serve_datagram s packet now) reads
  | ROversized e :: reads => if sv_done s then (s, Some None) else Serve_loop (s_report s e) reads
  | RClosed :: _ => (s, Some None)
  | RError e :: _ => (s, Some (if sv_done s then None else Some e))
  end.

(** [Serve] with the settings that it checks. *)
Definition Serve s (blockwiseSZX qMode : Z) (qConfigErr : option error) (blockwiseEnable : bool) (reads : list read)
    : Server * option (option error) :=
  if SZX1024 <? blockwiseSZX then (s, Some (Some (ErrOther "invalid blockwiseSZX"))) else
  match qConfigErr with
  | Some e => (s, Some (Some e))
  | None =>
      match ValidateQBlockwiseConfig qMode blockwiseEnable with
      | Some e => (s, Some (Some e))
      | None =>
          if sv_listen s then (s, Some (Some (ErrOther "server already serve"))) else
          let s := mkServer (sv_conns s) (sv_objects s) (sv_done s) true (sv_errors s) (sv_sent s) in
          match Serve_loop s reads with
          | (s, None) => (s, None)
          | (s, Some r) =>
              let s := closeSessions s in
              (mkServer (sv_conns s) (sv_objects s) (sv_done s) false (sv_errors s) (sv_sent s), Some r)
          end
      end
  end.
End UdpServer.

(** ** The session of a dialled connection *)

Section Session.
Context {CC : Type} `{!PeerConn CC} (raddr : UDPAddr) (mtu maxMessageSize : Z).

(** The connection, the errors reported and the datagrams written by the session itself. *)
Record Session : Type := mkSession { ss_cc : CC; ss_errors : list error; ss_sent : list (list byte * option ControlMessage) }.

Definition ss_report (s : Session) (e : error) : Session := mkSession (ss_cc s) (ss_errors s ++ [e]) (ss_sent s).

Definition rejectMalformedConfirmable (s : Session) (cm : option ControlMessage) (e : MalformedMessageError) : Session :=
  if InvalidVersion e then s else
  let s := ss_report s (mf_Err e) in
  if negb (HasHeader e) || negb (mf_Type e =? Confirmable) then s else
  match makeResetDatagram (mf_MessageID e) with
  | Err _ => s
  | Ok rst => mkSession (ss_cc s) (ss_errors s) (ss_sent s ++ [(rst, reply_cm cm)])
  end.

(** The loop of [Run]; it ends with an error. *)
Fixpoint Session_Run (s : Session) (reads : list read) : Session * option error :=
  match reads with
  | [] => (s, None)
  | RClosed :: _ => (s, Some ErrContext)
  | RError e :: _ => (s, Some e)
  | ROversized e :: reads => Session_Run (ss_report s e) reads
  | RDatagram packet now :: reads =>
      if mtu <? zlen (d_buf packet) then Session_Run (ss_report s (ErrOther "datagram exceeds MTU")) reads else
      if maxMessageSize <? zlen (d_buf packet) then Session_Run (ss_report s (ErrOther "max message size was exceeded")) reads else
      let '(cc, err) := pc_Process (ss_cc s) (d_cm packet) (d_buf packet) now in
      let s := mkSession cc (ss_errors s) (ss_sent s) in
      match err with
      | None => Session_Run s reads
      | Some (PMalformed e) => Session_Run (rejectMalformedConfirmable s (d_cm packet) e) reads
      | Some (PError e) => (s, Some e)
      end
  end.
End Session.
