(* ===== verification/UdpPeers.v ===== *)
(** * Peers of a server do not interfere

    The server of [UdpServer] with its shared objects refines a plain table from keys to
    connections; and what happens to the connections of one peer depends only on that
    peer's datagrams and calls, and on the ticks and the end of the server. *)
From stdpp Require Import prelude list strings gmap.
From Stdlib Require Import ZArith Lia.
From S2P Require Import TcpConn KeepAlive Prelude Cast Codes OptionCodec Options Message PoolMessage BlockCodec Assembly UdpConn UdpServer.
#[local] Open Scope Z_scope.

Section Peers.
Context {CC : Type} `{!PeerConn CC} (addr_string : UDPAddr -> list byte).
Context (maxMessageSize : Z) (laddr0 : UDPAddr).
Abbreviation Server := (Server (CC := CC)).
Abbreviation sconn := (sconn (CC := CC)).
Abbreviation getConnKey := (getConnKey addr_string).
Implicit Types (s : Server) (c : sconn).

(** ** Events *)

Inductive s_event : Type :=
| EDatagram (packet : incomingDatagram) (now : Z)
| ENewConn (addr : UDPAddr) (laddr : option UDPAddr) (now : Z)
| EClose (addr laddr : UDPAddr)
| ETick (now : Z)
| EStop.

(** [EClose] is a user's [Close] of the connection that the table has for two addresses. *)
Definition s_step s (e : s_event) : Server :=
  match e with
  | EDatagram packet now => Serve_datagram addr_string maxMessageSize laddr0 s packet now
  | ENewConn addr laddr now => (getConn addr_string laddr0 s (Some addr) laddr now).1
  | EClose addr laddr => match sv_conns s !! getConnKey addr laddr with Some id => closeConnection s id | None => s end
  | ETick now => handleInactivityMonitors s now
  | EStop => Stop s
  end.

Definition s_run s (es : list s_event) : Server := fold_left s_step es s.
Definition s_start : Server := mkServer ∅ ∅ false true [] [].

(** ** The table *)

Abbreviation Table := (gmap (list byte) sconn).
Implicit Types (T : Table).

Definition entries s : Table := omap (fun id => sv_objects s !! id) (sv_conns s).

Definition set_cc (f : CC -> CC) c : sconn := mkConn (sn_raddr c) (sn_key c) (sn_hooks c) (f (sn_cc c)).

(** [done] is that of the server. *)
Definition t_closed (done : bool) c : bool := done || pc_done (sn_cc c).

Definition t_turn (done : bool) T (raddr laddr : UDPAddr) (now : Z) : Table * list byte * sconn * bool :=
  let key := getConnKey raddr laddr in
  let found k c :=
    let c := set_cc (fun cc => pc_CheckExpirations cc (now + 10000000)) c in
    let c := if t_closed done c then c else set_cc (fun cc => pc_Notify cc now) c in (<[k := c]> T, k, c, false) in
  let wildcard := getConnKey raddr (toWildcardLocalAddr laddr) in
  match T !! key with
  | Some c => found key c
  | None =>
      match (if localAddrCanFallbackToWildcard laddr then T !! wildcard else None) with
      | Some c => found wildcard c
      | None => let c := mkConn raddr key true (pc_OnNewConn (pc_new raddr)) in (<[key := c]> T, key, c, true)
      end
  end.

(** The key and the connection, unless it is closed twice. *)
Definition t_getConn (done : bool) T (raddr laddr : UDPAddr) (now : Z) : Table * option (list byte * sconn * bool) :=
  let '(T, k, c, created) := t_turn done T raddr laddr now in
  if negb (t_closed done c) then (T, Some (k, c, created)) else
  let '(T, k, c, created) := t_turn done (delete k T) raddr laddr now in
  if negb (t_closed done c) then (T, Some (k, c, created)) else (delete k T, None).

Definition t_process (cc : CC) (packet : incomingDatagram) (now : Z) (created : bool) : CC :=
  match pc_Process cc (d_cm packet) (d_buf packet) now with
  | (cc, None) => cc
  | (cc, Some (PError _)) => pc_Close cc
  | (cc, Some (PMalformed _)) => if created then pc_Close cc else cc
  end.

Definition t_step (done : bool) T (e : s_event) : Table :=
  match e with
  | EDatagram packet now =>
      if maxMessageSize <? zlen (d_buf packet) then T else
      match t_getConn done T (d_raddr packet) (resolvePacketLocalAddr laddr0 (d_cm packet)) now with
      | (T, Some (k, c, created)) => <[k := set_cc (fun cc => t_process cc packet now created) c]> T
      | (T, None) => T
      end
  | ENewConn addr laddr now => (t_getConn done T addr (default laddr0 laddr) now).1
  | EClose addr laddr => alter (set_cc pc_Close) (getConnKey addr laddr) T
  | ETick now => omap (fun c => if t_closed done c then None else Some (set_cc (fun cc => pc_CheckExpirations cc now) c)) T
  | EStop => ∅
  end.

(** ** Refinement *)

(** The table and the objects agree. *)
Definition sv_ok s : Prop :=
  forall k id, sv_conns s !! k = Some id -> exists c, sv_objects s !! id = Some c /\ sn_key c = k /\ sn_hooks c = true.

Lemma entries_lookup s k : entries s !! k = sv_conns s !! k ≫= fun id => sv_objects s !! id.
Proof. apply lookup_omap. Qed.

Lemma entries_at s k id c : sv_conns s !! k = Some id -> sv_objects s !! id = Some c -> entries s !! k = Some c.
Proof. intros H1 H2. by rewrite entries_lookup, H1. Qed.

Lemma entries_inv s k c : entries s !! k = Some c -> exists id, sv_conns s !! k = Some id /\ sv_objects s !! id = Some c.
Proof. rewrite entries_lookup. destruct (sv_conns s !! k) as [id|]; [eauto|done]. Qed.

Lemma entries_none s k : sv_ok s -> entries s !! k = None -> sv_conns s !! k = None.
Proof.
  intros Hok. rewrite entries_lookup. destruct (sv_conns s !! k) as [id|] eqn:E; [|done]. destruct (Hok _ _ E) as (c & Hc & _). cbn. congruence.
Qed.

(** A key has one connection, and a connection one key. *)
Lemma ok_unique s k k' id : sv_ok s -> sv_conns s !! k = Some id -> sv_conns s !! k' = Some id -> k = k'.
Proof. intros Hok H1 H2. destruct (Hok _ _ H1) as (c & Hc & <- & _), (Hok _ _ H2) as (c' & Hc' & <- & _). congruence. Qed.

Lemma with_cc_at s k id f :
  sv_ok s -> sv_conns s !! k = Some id -> entries (with_cc s id f) = alter (set_cc f) k (entries s) /\ sv_ok (with_cc s id f).
Proof.
  intros Hok Hk. split.
  - apply map_eq. intros k'. rewrite entries_lookup. cbn. destruct (decide (k' = k)) as [-> |Hne].
    + rewrite Hk, lookup_alter_eq, entries_lookup, Hk. cbn. by rewrite lookup_alter_eq.
    + rewrite lookup_alter_ne, entries_lookup by done. destruct (sv_conns s !! k') as [id'|] eqn:E; [|done]. cbn.
      rewrite lookup_alter_ne; [done|]. intros <-. by apply Hne, (ok_unique s k' k id).
  - intros k' id' Hk'. destruct (Hok _ _ Hk') as (c & Hc & H). cbn. destruct (decide (id' = id)) as [-> |].
    + rewrite lookup_alter_eq, Hc. eexists. split; [done|]. by cbn.
    + rewrite lookup_alter_ne by done. eauto.
Qed.

Lemma with_cc_object s id f c : sv_objects s !! id = Some c -> sv_objects (with_cc s id f) !! id = Some (set_cc f c).
Proof. intros H. cbn. by rewrite lookup_alter_eq, H. Qed.

(** The fields of a server that the table does not have. *)
Definition same_rest s s' : Prop := sv_done s' = sv_done s /\ sv_listen s' = sv_listen s.

Lemma closeFn_at s k id :
  sv_ok s -> sv_conns s !! k = Some id -> entries (closeFn s id) = delete k (entries s) /\ sv_ok (closeFn s id) /\ same_rest s (closeFn s id).
Proof.
  intros Hok Hk. destruct (Hok _ _ Hk) as (c & Hc & Hkey & Hh). unfold closeFn. rewrite (with_cc_object _ _ _ _ Hc). cbn [sn_hooks set_cc sn_key sn_cc sn_raddr].
  rewrite Hh, Hkey. cbn [negb]. cbn [sv_conns with_conns with_cc]. rewrite bool_decide_true by done. split_and!; [| |done].
  - apply map_eq. intros k'. rewrite entries_lookup. cbn. destruct (decide (k' = k)) as [-> |Hne]; [by rewrite !lookup_delete_eq|].
    rewrite !lookup_delete_ne, entries_lookup by done. destruct (sv_conns s !! k') as [id'|] eqn:E; [|done]. cbn.
    assert (id' <> id) by (intros ->; by apply Hne, (ok_unique s k' k id)). by rewrite lookup_insert_ne, lookup_alter_ne by done.
  - intros k' id' Hk'. cbn in Hk'. apply lookup_delete_Some in Hk' as [Hne Hk']. assert (id' <> id) by (intros ->; by apply Hne, (ok_unique s k k' id)). cbn.
    rewrite lookup_insert_ne, lookup_alter_ne by done. by apply Hok.
Qed.

Lemma conn_done_at s id c : sv_objects s !! id = Some c -> conn_done s id = t_closed (sv_done s) c.
Proof. intros E. unfold conn_done. by rewrite E. Qed.

(** Checking a connection that was found. *)
Lemma found_refines s k id c now (check := fun cc => pc_CheckExpirations cc (now + 10000000)) (c1 := set_cc check c)
    (c' := if t_closed (sv_done s) c1 then c1 else set_cc (fun cc => pc_Notify cc now) c1) :
  sv_ok s -> sv_conns s !! k = Some id -> sv_objects s !! id = Some c ->
  let s1 := with_cc s id check in
  let s' := if conn_done s1 id then s1 else with_cc s1 id (fun cc => pc_Notify cc now) in
  entries s' = <[k := c']> (entries s) /\ sv_ok s' /\ same_rest s s' /\ sv_conns s' !! k = Some id /\ sv_objects s' !! id = Some c'.
Proof.
  intros Hok Hk Hc s1. destruct (with_cc_at s k id check Hok Hk) as [E1 Hok1]. fold s1 in E1, Hok1.
  pose proof (with_cc_object s id check c Hc) as Hc1. fold s1 c1 in Hc1. pose proof (entries_at _ _ _ _ Hk Hc) as He.
  assert (conn_done s1 id = t_closed (sv_done s) c1) as -> by (unfold conn_done; by rewrite Hc1).
  assert (entries s1 = <[k := c1]> (entries s)) as E1' by (rewrite E1; apply map_eq; intros j; destruct (decide (j = k)) as [-> |];
    [by rewrite lookup_alter_eq, He, lookup_insert_eq|by rewrite lookup_alter_ne, lookup_insert_ne]).
  unfold c'. destruct (t_closed (sv_done s) c1); [done|].
  destruct (with_cc_at s1 k id (fun cc => pc_Notify cc now) Hok1 Hk) as [E2 Hok2]. split_and!; [|done|done|done|by apply with_cc_object].
  rewrite E2, E1'. apply map_eq. intros j. destruct (decide (j = k)) as [-> |]; [by rewrite lookup_alter_eq, !lookup_insert_eq|by rewrite lookup_alter_ne, !lookup_insert_ne].
Qed.

Lemma create_refines s k raddr (id := fresh (dom (sv_objects s))) (c := mkConn raddr k true (pc_new raddr)) :
  sv_ok s -> sv_conns s !! k = None ->
  let s1 := with_conns s (<[k := id]> (sv_conns s)) (<[id := c]> (sv_objects s)) in
  let s' := with_cc s1 id pc_OnNewConn in
  entries s' = <[k := set_cc pc_OnNewConn c]> (entries s) /\ sv_ok s' /\ same_rest s s' /\ sv_conns s' !! k = Some id /\
  sv_objects s' !! id = Some (set_cc pc_OnNewConn c).
Proof.
  intros Hok Hn s1. assert (sv_objects s !! id = None) as Hf by (apply not_elem_of_dom, is_fresh). clearbody id.
  assert (forall k' id', sv_conns s !! k' = Some id' -> id' <> id) as Hne by (intros k' id' Hk' ->; destruct (Hok _ _ Hk') as (? & ? & _); congruence).
  assert (sv_ok s1) as Hok1.
  { intros k' id' Hk'. cbn in *. apply lookup_insert_Some in Hk' as [[<- <-] | [_ Hk']]; [exists c; by rewrite lookup_insert_eq|].
    rewrite lookup_insert_ne by (symmetry; by eapply Hne). by apply Hok. }
  assert (sv_conns s1 !! k = Some id) as Hk1 by apply lookup_insert_eq. assert (sv_objects s1 !! id = Some c) as Hc1 by apply lookup_insert_eq.
  destruct (with_cc_at s1 k id pc_OnNewConn Hok1 Hk1) as [E2 Hok2]. split_and!; [|done|done|done|by apply with_cc_object].
  cbv zeta. rewrite E2. apply map_eq. intros j. destruct (decide (j = k)) as [-> |Hj].
  - by rewrite lookup_alter_eq, (entries_at _ _ _ _ Hk1 Hc1), lookup_insert_eq.
  - rewrite lookup_alter_ne, lookup_insert_ne, !entries_lookup by done. cbn. rewrite lookup_insert_ne by done.
    destruct (sv_conns s !! j) as [id'|] eqn:E; [|done]. cbn. by rewrite lookup_insert_ne by (symmetry; by eapply Hne).
Qed.

Lemma turn_refines s raddr laddr now :
  sv_ok s ->
  let '(s', id, created, closed) := getConn_turn addr_string s raddr laddr now in
  let '(T', k, c, created') := t_turn (sv_done s) (entries s) raddr laddr now in
  entries s' = T' /\ sv_ok s' /\ same_rest s s' /\ sv_conns s' !! k = Some id /\ sv_objects s' !! id = Some c /\ created = created' /\
  closed = t_closed (sv_done s) c.
Proof.
  intros Hok. unfold getConn_turn, getOrCreateConn, t_turn. cbv zeta. set (key := getConnKey raddr laddr). set (wild := getConnKey raddr (toWildcardLocalAddr laddr)).
  assert (forall k id, sv_conns s !! k = Some id -> exists c, entries s !! k = Some c /\ sv_objects s !! id = Some c) as Hfind.
  { intros k id E. destruct (Hok _ _ E) as (c & Hc & _). exists c. split; [by eapply entries_at|done]. }
  destruct (sv_conns s !! key) as [id|] eqn:Ek.
  { destruct (Hfind _ _ Ek) as (c & -> & Hc). destruct (found_refines s key id c now Hok Ek Hc) as (H1 & H2 & H3 & H4 & H5). cbv zeta in *.
    split_and!; try done. rewrite (conn_done_at _ _ _ H5). by destruct H3 as [-> _]. }
  rewrite (entries_lookup s key), Ek. cbn [mbind option_bind].
  destruct (if localAddrCanFallbackToWildcard laddr then sv_conns s !! wild else None) as [id|] eqn:Ew.
  - destruct (localAddrCanFallbackToWildcard laddr); [|done]. destruct (Hfind _ _ Ew) as (c & -> & Hc).
    destruct (found_refines s wild id c now Hok Ew Hc) as (H1 & H2 & H3 & H4 & H5). cbv zeta in *.
    split_and!; try done. rewrite (conn_done_at _ _ _ H5). by destruct H3 as [-> _].
  - replace (if localAddrCanFallbackToWildcard laddr then entries s !! wild else None) with (@None sconn)
      by (destruct (localAddrCanFallbackToWildcard laddr); [|done]; by rewrite entries_lookup, Ew).
    destruct (create_refines s key raddr Hok Ek) as (H1 & H2 & H3 & H4 & H5). cbv zeta in *. split_and!; try done. rewrite (conn_done_at _ _ _ H5).
    by destruct H3 as [-> _].
Qed.

Lemma getConn_refines s raddr laddr now :
  sv_ok s ->
  let '(s', r) := getConn addr_string laddr0 s (Some raddr) laddr now in
  let '(T', r') := t_getConn (sv_done s) (entries s) raddr (default laddr0 laddr) now in
  entries s' = T' /\ sv_ok s' /\ same_rest s s' /\
  match r, r' with
  | Ok (id, created), Some (k, c, created') => sv_conns s' !! k = Some id /\ sv_objects s' !! id = Some c /\ created = created'
  | Err _, None => True
  | _, _ => False
  end.
Proof.
  intros Hok. unfold getConn, t_getConn. pose proof (turn_refines s raddr (default laddr0 laddr) now Hok) as H.
  destruct (getConn_turn _ s _ _ now) as [[[s1 id] created] closed], (t_turn _ _ _ _ now) as [[[T1 k] c] created1].
  destruct H as (E1 & Hok1 & [Hd1 Hl1] & Hk1 & Hc1 & Hcr1 & ->). destruct (t_closed (sv_done s) c); cbn [negb]; [|done].
  destruct (closeFn_at s1 k id Hok1 Hk1) as (E2 & Hok2 & [Hd2 Hl2]). rewrite <- E1, <- E2.
  pose proof (turn_refines (closeFn s1 id) raddr (default laddr0 laddr) now Hok2) as H. rewrite Hd2, Hd1 in H.
  destruct (getConn_turn _ (closeFn s1 id) _ _ now) as [[[s3 id3] created3] closed3], (t_turn _ _ _ _ now) as [[[T3 k3] c3] created3'].
  destruct H as (E3 & Hok3 & [Hd3 Hl3] & Hk3 & Hc3 & Hcr3 & ->). destruct (t_closed (sv_done s) c3); cbn [negb].
  - destruct (closeFn_at s3 k3 id3 Hok3 Hk3) as (E4 & Hok4 & [Hd4 Hl4]). rewrite E4, E3. unfold same_rest. split_and!; done || congruence.
  - unfold same_rest. split_and!; done || congruence.
Qed.

(** Reports and writes leave the table. *)
Lemma reports_keep s s' : sv_conns s' = sv_conns s -> sv_objects s' = sv_objects s -> sv_ok s -> entries s' = entries s /\ sv_ok s'.
Proof. intros E1 E2 Hok. unfold entries, sv_ok. by rewrite E1, E2. Qed.

Lemma maybe_keeps s raddr cm e (s' := maybeRejectMalformedConfirmable s raddr cm e) :
  sv_conns s' = sv_conns s /\ sv_objects s' = sv_objects s /\ same_rest s s'.
Proof. subst s'. unfold maybeRejectMalformedConfirmable. repeat case_match; done. Qed.

Lemma alter_insert_same T k c f : alter (set_cc f) k (<[k := c]> T) = <[k := set_cc f c]> T.
Proof. by rewrite alter_insert_eq. Qed.

Lemma entries_insert s k id c c' : sv_conns s !! k = Some id -> sv_objects s !! id = Some c -> alter (fun _ => c') k (entries s) = <[k := c']> (entries s).
Proof.
  intros Hk Hc. apply map_eq. intros j. destruct (decide (j = k)) as [-> |]; [|by rewrite lookup_alter_ne, lookup_insert_ne].
  by rewrite lookup_alter_eq, lookup_insert_eq, (entries_at _ _ _ _ Hk Hc).
Qed.

Lemma with_cc_insert s k id c f :
  sv_ok s -> sv_conns s !! k = Some id -> sv_objects s !! id = Some c -> entries (with_cc s id f) = <[k := set_cc f c]> (entries s).
Proof.
  intros Hok Hk Hc. rewrite (proj1 (with_cc_at s k id f Hok Hk)). apply map_eq. intros j. destruct (decide (j = k)) as [-> |].
  - by rewrite lookup_alter_eq, (entries_at _ _ _ _ Hk Hc), lookup_insert_eq.
  - by rewrite lookup_alter_ne, lookup_insert_ne.
Qed.

(** A connection of the table that processed a datagram. *)
Lemma process_refines s k id c packet now (created : bool) :
  sv_ok s -> sv_conns s !! k = Some id -> sv_objects s !! id = Some c ->
  let '(cc, err) := pc_Process (sn_cc c) (d_cm packet) (d_buf packet) now in
  let s1 := with_cc s id (fun _ => cc) in
  let s' := match err with
    | None => s1
    | Some e =>
        let s2 := handleProcessError s1 id (sn_raddr c) (d_cm packet) e in
        match e with PMalformed _ => if created then closeConnection s2 id else s2 | PError _ => s2 end
    end in
  entries s' = <[k := set_cc (fun cc => t_process cc packet now created) c]> (entries s) /\ sv_ok s' /\ same_rest s s'.
Proof.
  intros Hok Hk Hc. unfold t_process. destruct (pc_Process _ _ _ _) as [cc err] eqn:Ep. set (s1 := with_cc s id (fun _ => cc)).
  assert (forall f, set_cc (fun cc0 => match pc_Process cc0 (d_cm packet) (d_buf packet) now with | (cc1, None) => cc1 | (cc1, Some (PError _)) => pc_Close cc1
    | (cc1, Some (PMalformed _)) => if created then pc_Close cc1 else cc1 end) c = f <-> f = mkConn (sn_raddr c) (sn_key c) (sn_hooks c)
      (match err with None => cc | Some (PError _) => pc_Close cc | Some (PMalformed _) => if created then pc_Close cc else cc end)) as Hset.
  { intros f. unfold set_cc. rewrite Ep. destruct err as [[]|]; split; congruence. }
  rewrite (proj2 (Hset _) eq_refl). clear Hset Ep.
  pose proof (with_cc_insert s k id c (fun _ => cc) Hok Hk Hc) as E1. destruct (with_cc_at s k id (fun _ => cc) Hok Hk) as [_ Hok1]. fold s1 in E1, Hok1.
  pose proof (with_cc_object s id (fun _ => cc) c Hc) as Hc1. fold s1 in Hc1. assert (sv_conns s1 !! k = Some id) as Hk1 by done.
  assert (forall s2, sv_conns s2 = sv_conns s1 -> sv_objects s2 = sv_objects s1 -> entries (closeConnection s2 id) = <[k := set_cc pc_Close (set_cc (fun _ => cc) c)]> (entries s)
    /\ sv_ok (closeConnection s2 id)) as Hclose.
  { intros s2 Ec Eo. destruct (reports_keep s1 s2 Ec Eo Hok1) as [E2 Hok2]. unfold closeConnection.
    rewrite (with_cc_insert s2 k id (set_cc (fun _ => cc) c)), E2, E1, insert_insert_eq by (done || congruence). split; [done|]. apply (with_cc_at s2 k id); [done|congruence]. }
  destruct err as [[e|e]|]; cbn [handleProcessError].
  - destruct (Hclose s1) as [E2 Hok2]; [done..|]. destruct (reports_keep (closeConnection s1 id) (s_report (closeConnection s1 id) e)) as [E3 Hok3]; [done..|].
    by rewrite E3, E2.
  - destruct (maybe_keeps s1 (sn_raddr c) (d_cm packet) e) as (Ec & Eo & Hr). set (s2 := maybeRejectMalformedConfirmable _ _ _ _) in *.
    assert (forall s3, sv_conns s3 = sv_conns s2 -> sv_objects s3 = sv_objects s2 -> same_rest s2 s3 ->
      let s' := if created then closeConnection s3 id else s3 in
      entries s' = <[k := mkConn (sn_raddr c) (sn_key c) (sn_hooks c) (if created then pc_Close cc else cc)]> (entries s) /\ sv_ok s' /\ same_rest s s') as Hgo.
    { intros s3 Ec3 Eo3 [Hr31 Hr32]. destruct Hr as [Hr1 Hr2]. change (sv_done s1) with (sv_done s) in Hr1.
      change (sv_listen s1) with (sv_listen s) in Hr2. destruct (reports_keep s1 s3) as [E3 Hok3]; [congruence..|done|]. destruct created.
      - destruct (Hclose s3) as [E4 Hok4]; [congruence..|]. split_and!; [done|done|]. unfold same_rest. cbn. split; congruence.
      - split_and!; [by rewrite E3|done|]. unfold same_rest. split; congruence. }
    destruct (InvalidVersion e); apply Hgo; done.
  - done.
Qed.

(** ** Ticks and the end *)

Lemma closeFn_conns s k id : sv_ok s -> sv_conns s !! k = Some id -> sv_conns (closeFn s id) = delete k (sv_conns s).
Proof.
  intros Hok Hk. destruct (Hok _ _ Hk) as (c & Hc & Hkey & Hh). unfold closeFn. rewrite (with_cc_object _ _ _ _ Hc). cbn. rewrite Hh, Hkey. cbn.
  by rewrite bool_decide_true.
Qed.

Definition tick_one (now : Z) s (id : nat) : Server :=
  if conn_done s id then closeFn s id else with_cc s id (fun cc => pc_CheckExpirations cc now).
Definition t_tick_one (done : bool) (now : Z) c : option sconn :=
  if t_closed done c then None else Some (set_cc (fun cc => pc_CheckExpirations cc now) c).

(** One connection of the table; the others are left. *)
Lemma tick_one_at now s k id c :
  sv_ok s -> sv_conns s !! k = Some id -> sv_objects s !! id = Some c ->
  let s' := tick_one now s id in
  sv_ok s' /\ same_rest s s' /\ entries s' !! k = t_tick_one (sv_done s) now c /\
  forall j, j <> k -> sv_conns s' !! j = sv_conns s !! j /\ entries s' !! j = entries s !! j.
Proof.
  intros Hok Hk Hc. unfold tick_one, t_tick_one. rewrite (conn_done_at _ _ _ Hc). destruct (t_closed (sv_done s) c).
  - destruct (closeFn_at s k id Hok Hk) as (E & Hok' & Hr). split_and!; [done|done|by rewrite E, lookup_delete_eq|].
    intros j Hj. by rewrite (closeFn_conns s k id), E, !lookup_delete_ne.
  - destruct (with_cc_at s k id (fun cc => pc_CheckExpirations cc now) Hok Hk) as [_ Hok'].
    rewrite (with_cc_insert s k id c) by done. split_and!; [done|done|by rewrite lookup_insert_eq|]. intros j Hj. by rewrite lookup_insert_ne.
Qed.

Lemma tick_fold now l s :
  sv_ok s -> NoDup l -> (forall id, id ∈ l -> exists k, sv_conns s !! k = Some id) ->
  let s' := fold_left (tick_one now) l s in
  sv_ok s' /\ same_rest s s' /\
  forall k, entries s' !! k =
    match sv_conns s !! k with
    | Some id => if decide (id ∈ l) then entries s !! k ≫= t_tick_one (sv_done s) now else entries s !! k
    | None => None
    end.
Proof.
  revert s. induction l as [|id l IH]; intros s Hok Hnd Hin; cbn [fold_left].
  { split_and!; [done|done|]. intros k. rewrite entries_lookup. destruct (sv_conns s !! k); [|done]. by rewrite decide_False by (by intros ?%elem_of_nil). }
  apply NoDup_cons in Hnd as [Hid Hnd]. destruct (Hin id ltac:(left)) as [k0 Hk0]. destruct (Hok _ _ Hk0) as (c0 & Hc0 & _).
  destruct (tick_one_at now s k0 id c0 Hok Hk0 Hc0) as (Hok1 & [Hd1 Hl1] & Hat & Hoth). set (s1 := tick_one now s id) in *.
  assert (forall id', id' ∈ l -> exists k, k <> k0 /\ sv_conns s !! k = Some id') as Hin'.
  { intros id' Hid'. destruct (Hin id' ltac:(by right)) as [k Hk]. exists k. split; [|done]. intros ->. congruence. }
  destruct (IH s1 Hok1 Hnd) as (Hok2 & [Hd2 Hl2] & He).
  { intros id' (k & Hne & Hk)%Hin'. exists k. by rewrite (proj1 (Hoth k Hne)). }
  split_and!; [done|split; congruence|]. intros k. rewrite He. destruct (decide (k = k0)) as [-> |Hne].
  - rewrite Hk0, decide_True, (entries_at _ _ _ _ Hk0 Hc0) by left. cbn [mbind option_bind]. rewrite <- Hat.
    destruct (sv_conns s1 !! k0) as [i|] eqn:Ei; [|by rewrite entries_lookup, Ei].
    destruct (decide (i ∈ l)) as [Hi|]; [|done]. exfalso. destruct (Hin' i Hi) as (k' & Hne' & Hk').
    rewrite <- (proj1 (Hoth k' Hne')) in Hk'. by apply Hne', (ok_unique s1 k' k0 i).
  - destruct (Hoth k Hne) as [-> ->]. rewrite Hd1. destruct (sv_conns s !! k) as [id'|] eqn:Ek; [|done].
    destruct (decide (id' ∈ l)), (decide (id' ∈ id :: l)) as [Hx|Hx]; try done; [by destruct Hx; right|].
    apply elem_of_cons in Hx as [-> | ?]; [|done]. by destruct Hne; apply (ok_unique s k k0 id).
Qed.

Lemma conns_ids s : sv_ok s -> NoDup (map_to_list (sv_conns s)).*2.
Proof.
  intros Hok. apply NoDup_fmap_2_strong; [|apply NoDup_map_to_list]. intros [k id] [k' id'] Hx Hy E. cbn in E. subst id'.
  apply elem_of_map_to_list in Hx, Hy. by rewrite (ok_unique s k k' id).
Qed.

Lemma tick_refines s now :
  sv_ok s ->
  let s' := handleInactivityMonitors s now in
  entries s' = omap (t_tick_one (sv_done s) now) (entries s) /\ sv_ok s' /\ same_rest s s'.
Proof.
  intros Hok. change (handleInactivityMonitors s now) with (fold_left (tick_one now) (map_to_list (sv_conns s)).*2 s).
  destruct (tick_fold now (map_to_list (sv_conns s)).*2 s Hok (conns_ids s Hok)) as (Hok' & Hr & He).
  { intros id Hid. apply list_elem_of_fmap in Hid as ([k i] & -> & Hk). exists k. by apply elem_of_map_to_list. }
  split_and!; [|done|done]. apply map_eq. intros k. rewrite He, lookup_omap. destruct (sv_conns s !! k) as [id|] eqn:Ek.
  - rewrite decide_True; [done|]. apply list_elem_of_fmap. exists (k, id). split; [done|]. by apply elem_of_map_to_list.
  - by rewrite entries_lookup, Ek.
Qed.

Lemma closeSessions_empty s : sv_conns (closeSessions s) = ∅ /\ sv_done (closeSessions s) = sv_done s.
Proof.
  unfold closeSessions. generalize (map_to_list (sv_conns s)).*2. intros l.
  assert (sv_conns (with_conns s ∅ (sv_objects s)) = ∅ /\ sv_done (with_conns s ∅ (sv_objects s)) = sv_done s) as H by done. revert H.
  generalize (with_conns s ∅ (sv_objects s)). induction l as [|id l IH]; intros s1 H; [done|]. apply IH. destruct H as [H1 H2].
  unfold closeFn. cbn [sv_objects with_cc with_conns closeConnection]. destruct (alter _ id _ !! id) as [c|]; [|done].
  destruct (negb (sn_hooks c)); [done|]. cbn. rewrite H1. by case_bool_decide.
Qed.

Definition ends (done : bool) (e : s_event) : bool := match e with EStop => true | _ => done end.

(** The server does to its connections what the table says. *)
Lemma step_refines s e :
  sv_ok s -> entries (s_step s e) = t_step (sv_done s) (entries s) e /\ sv_ok (s_step s e) /\ sv_done (s_step s e) = ends (sv_done s) e.
Proof.
  intros Hok. destruct e as [packet now|addr laddr now|addr laddr|now|]; cbn [s_step t_step ends].
  - unfold Serve_datagram. destruct (maxMessageSize <? zlen (d_buf packet)).
    { destruct (reports_keep s (s_report s (ErrOther "max message size was exceeded"))) as [-> ?]; done. }
    pose proof (getConn_refines s (d_raddr packet) (Some (resolvePacketLocalAddr laddr0 (d_cm packet))) now Hok) as H. cbn [default] in H.
    change (default laddr0 (Some (resolvePacketLocalAddr laddr0 (d_cm packet)))) with (resolvePacketLocalAddr laddr0 (d_cm packet)) in H.
    destruct (getConn _ _ s _ _ now) as [s1 [[id created]|e]], (t_getConn _ _ _ _ now) as [T1 [[[k c] created']|]]; destruct H as (E1 & Hok1 & [Hd1 Hl1] & Hr); try done.
    destruct Hr as (Hk & Hc & ->). rewrite Hc. pose proof (process_refines s1 k id c packet now created' Hok1 Hk Hc) as H.
      destruct (pc_Process _ _ _ _) as [cc err]. cbv zeta in H. destruct H as (E2 & Hok2 & [Hd2 _]). rewrite <- E1, <- E2. split_and!; [done|done|congruence].
  - pose proof (getConn_refines s addr laddr now Hok) as H. destruct (getConn _ _ s _ _ now) as [s1 r], (t_getConn _ _ _ _ now) as [T1 r'].
    destruct H as (E1 & Hok1 & [Hd1 _] & _). done.
  - destruct (sv_conns s !! getConnKey addr laddr) as [id|] eqn:Ek.
    + destruct (with_cc_at s _ id pc_Close Hok Ek) as [E Hok']. split_and!; [exact E|exact Hok'|done].
    + rewrite alter_id; [done|]. intros c Hc. rewrite entries_lookup, Ek in Hc. done.
  - destruct (tick_refines s now Hok) as (E & Hok' & Hd & _). done.
  - unfold Stop. destruct (closeSessions_empty (mkServer (sv_conns s) (sv_objects s) true (sv_listen s) (sv_errors s) (sv_sent s))) as [Ec Ed].
    split_and!; [|intros k id Hk; by rewrite Ec, lookup_empty in Hk|done]. apply map_eq. intros k. by rewrite entries_lookup, Ec, !lookup_empty.
Qed.

Definition t_run (d : bool * Table) (es : list s_event) : bool * Table :=
  fold_left (fun d e => (ends d.1 e, t_step d.1 d.2 e)) es d.

Lemma run_refines s es : sv_ok s -> t_run (sv_done s, entries s) es = (sv_done (s_run s es), entries (s_run s es)) /\ sv_ok (s_run s es).
Proof.
  revert s. induction es as [|e es IH]; intros s Hok; [done|]. destruct (step_refines s e Hok) as (E & Hok' & Hd).
  destruct (IH (s_step s e) Hok') as [E' Hok'']. split; [|done]. cbn. rewrite <- E, <- Hd. exact E'.
Qed.

Lemma entries_start : entries s_start = ∅.
Proof. apply map_eq. intros k. by rewrite entries_lookup, lookup_empty. Qed.

Lemma server_start_ok : sv_ok s_start.
Proof. intros k id H. cbn in H. by rewrite lookup_empty in H. Qed.

(** ** One peer *)

(** The keys of the peer whose address has the text [p]. *)
Definition peer_key (p k : list byte) : Prop := take (S (length p)) k = p ++ [45].

#[global] Instance peer_key_dec p k : Decision (peer_key p k).
Proof. unfold peer_key. apply _. Defined.

Definition mine (p : list byte) T : Table := filter (fun kc => peer_key p kc.1) T.

Lemma mine_lookup p T k : mine p T !! k = if decide (peer_key p k) then T !! k else None.
Proof. unfold mine. rewrite map_lookup_filter. destruct (T !! k); cbn; [|by destruct (decide _)]. unfold guard. by destruct (decide (peer_key p k)). Qed.

Lemma key_of_peer raddr laddr : peer_key (addr_string raddr) (getConnKey raddr laddr).
Proof. unfold peer_key, UdpServer.getConnKey. rewrite app_assoc. rewrite take_app_le by (rewrite length_app; cbn; lia). apply take_ge. rewrite length_app. cbn. lia. Qed.

(** A text without a dash ends at the first dash of the key. *)
Lemma dash_split (p q u v : list byte) : (45 : byte) ∉ p -> (45 : byte) ∉ q -> p ++ 45 :: u = q ++ 45 :: v -> p = q.
Proof.
  revert q. induction p as [|x p IH]; intros [|y q] Hp Hq E; try done.
  - injection E as E _. destruct Hq. rewrite E. left.
  - injection E as E _. destruct Hp. rewrite <- E. left.
  - injection E as -> E. f_equal. apply IH; [set_solver..|done].
Qed.

Lemma peer_unique p q k : (45 : byte) ∉ p -> (45 : byte) ∉ q -> peer_key p k -> peer_key q k -> p = q.
Proof.
  intros Hp Hq H1 H2. apply (dash_split p q (drop (S (length p)) k) (drop (S (length q)) k) Hp Hq).
  change (45 :: drop (S (length p)) k) with ([45] ++ drop (S (length p)) k). change (45 :: drop (S (length q)) k) with ([45] ++ drop (S (length q)) k).
  by rewrite !app_assoc, <- H1, <- H2, !take_drop.
Qed.

Lemma mine_insert p T k c : peer_key p k -> mine p (<[k := c]> T) = <[k := c]> (mine p T).
Proof. intros Hk. by apply map_filter_insert_True. Qed.

Lemma mine_delete p T k : mine p (delete k T) = delete k (mine p T).
Proof. apply map_filter_delete. Qed.

Lemma mine_other_insert p T k c : ~ peer_key p k -> mine p (<[k := c]> T) = mine p T.
Proof.
  intros Hk. apply map_eq. intros j. rewrite !mine_lookup. destruct (decide (peer_key p j)); [|done]. by rewrite lookup_insert_ne by congruence.
Qed.

Lemma mine_other_delete p T k : ~ peer_key p k -> mine p (delete k T) = mine p T.
Proof.
  intros Hk. apply map_eq. intros j. rewrite !mine_lookup. destruct (decide (peer_key p j)); [|done]. by rewrite lookup_delete_ne by congruence.
Qed.

(** Looking a connection up sees only the peer's part of the table. *)
Lemma turn_mine done T raddr laddr now (p := addr_string raddr) :
  let '(T', k, c, created) := t_turn done T raddr laddr now in
  t_turn done (mine p T) raddr laddr now = (mine p T', k, c, created) /\ peer_key p k.
Proof.
  unfold t_turn. set (key := getConnKey raddr laddr). set (wild := getConnKey raddr (toWildcardLocalAddr laddr)).
  assert (peer_key p key) as Hkey by apply key_of_peer. assert (peer_key p wild) as Hwild by apply key_of_peer.
  rewrite !mine_lookup, !decide_True by done. destruct (T !! key) as [c|]; [by rewrite mine_insert|].
  destruct (if localAddrCanFallbackToWildcard laddr then T !! wild else None) as [c|]; by rewrite mine_insert.
Qed.

Lemma turn_other done T raddr laddr now p :
  ~ peer_key p (getConnKey raddr laddr) -> ~ peer_key p (getConnKey raddr (toWildcardLocalAddr laddr)) ->
  let '(T', k, _, _) := t_turn done T raddr laddr now in mine p T' = mine p T /\ ~ peer_key p k.
Proof.
  intros H1 H2. unfold t_turn. destruct (T !! getConnKey raddr laddr) as [c|]; [by rewrite mine_other_insert|].
  destruct (if localAddrCanFallbackToWildcard laddr then _ else None) as [c|]; by rewrite mine_other_insert.
Qed.

Lemma getConn_mine done T raddr laddr now (p := addr_string raddr) :
  let '(T', r) := t_getConn done T raddr laddr now in
  t_getConn done (mine p T) raddr laddr now = (mine p T', r) /\ match r with Some (k, _, _) => peer_key p k | None => True end.
Proof.
  unfold t_getConn. pose proof (turn_mine done T raddr laddr now) as H. fold p in H. destruct (t_turn done T raddr laddr now) as [[[T1 k] c] created].
  destruct H as [-> Hk]. destruct (t_closed done c); cbn [negb]; [|done]. rewrite <- mine_delete.
  pose proof (turn_mine done (delete k T1) raddr laddr now) as H. fold p in H. destruct (t_turn done (delete k T1) raddr laddr now) as [[[T2 k2] c2] created2].
  destruct H as [-> Hk2]. destruct (t_closed done c2); cbn [negb]; [|done]. by rewrite <- mine_delete.
Qed.

Lemma getConn_other done T raddr laddr now p :
  ~ peer_key p (getConnKey raddr laddr) -> ~ peer_key p (getConnKey raddr (toWildcardLocalAddr laddr)) ->
  let '(T', r) := t_getConn done T raddr laddr now in mine p T' = mine p T /\ match r with Some (k, _, _) => ~ peer_key p k | None => True end.
Proof.
  intros H1 H2. unfold t_getConn. pose proof (turn_other done T raddr laddr now p H1 H2) as H. destruct (t_turn done T raddr laddr now) as [[[T1 k] c] created].
  destruct H as [E Hk]. destruct (t_closed done c); cbn [negb]; [|done]. pose proof (turn_other done (delete k T1) raddr laddr now p H1 H2) as H.
  destruct (t_turn done (delete k T1) raddr laddr now) as [[[T2 k2] c2] created2]. destruct H as [E2 Hk2].
  rewrite mine_other_delete in E2 by done. destruct (t_closed done c2); cbn [negb]; [|split; [congruence|done]].
  rewrite mine_other_delete by done. split; [congruence|done].
Qed.

(** The peer of an event, if it has one. *)
Definition peer_of (e : s_event) : option (list byte) :=
  match e with
  | EDatagram packet _ => Some (addr_string (d_raddr packet))
  | ENewConn addr _ _ | EClose addr _ => Some (addr_string addr)
  | ETick _ | EStop => None
  end.

Definition concerns (p : list byte) (e : s_event) : Prop := match peer_of e with Some q => q = p | None => True end.
#[global] Instance concerns_dec p e : Decision (concerns p e).
Proof. unfold concerns. destruct (peer_of e); apply _. Defined.

Lemma step_mine done T e p : concerns p e -> mine p (t_step done T e) = t_step done (mine p T) e.
Proof.
  destruct e as [packet now|addr laddr now|addr laddr|now|]; cbn [t_step]; intros Hc; cbn in Hc.
  - destruct (maxMessageSize <? _); [done|]. subst p. pose proof (getConn_mine done T (d_raddr packet) (resolvePacketLocalAddr laddr0 (d_cm packet)) now) as H.
    destruct (t_getConn done T _ _ now) as [T' [[[k c] created]|]]; destruct H as [-> Hk]; [by apply mine_insert|done].
  - subst p. pose proof (getConn_mine done T addr (default laddr0 laddr) now) as H. destruct (t_getConn done T _ _ now) as [T' r]. by destruct H as [-> _].
  - apply map_eq. intros j. rewrite mine_lookup. destruct (decide (j = getConnKey addr laddr)) as [-> |Hj].
    + rewrite !lookup_alter_eq, mine_lookup. by destruct (decide _).
    + rewrite !lookup_alter_ne, mine_lookup by done. done.
  - apply map_eq. intros j. rewrite mine_lookup, !lookup_omap, mine_lookup. by destruct (decide _).
  - apply map_eq. intros j. rewrite mine_lookup, lookup_empty. by destruct (decide _).
Qed.

(** The remote address has no dash in its text. *)
Definition plain (e : s_event) : Prop := match peer_of e with Some q => (45 : byte) ∉ q | None => True end.

Lemma step_other done T e p : (45 : byte) ∉ p -> plain e -> ~ concerns p e -> mine p (t_step done T e) = mine p T.
Proof.
  intros Hp Hq Hc. unfold plain, concerns in *.
  assert (forall addr laddr, peer_of e = Some (addr_string addr) -> ~ peer_key p (getConnKey addr laddr)) as Hno.
  { intros addr laddr E Hk. rewrite E in Hq, Hc. apply Hc. symmetry. apply (peer_unique p _ (getConnKey addr laddr)); [done..|]. apply key_of_peer. }
  destruct e as [packet now|addr laddr now|addr laddr|now|]; cbn [t_step]; [| | |done|done].
  - destruct (maxMessageSize <? _); [done|].
    pose proof (getConn_other done T (d_raddr packet) (resolvePacketLocalAddr laddr0 (d_cm packet)) now p) as H. destruct (t_getConn done T _ _ now) as [T' [[[k c] created]|]].
    + destruct H as [E Hk]; [by apply Hno..|]. by rewrite mine_other_insert.
    + destruct H as [E _]; [by apply Hno..|done].
  - pose proof (getConn_other done T addr (default laddr0 laddr) now p) as H. destruct (t_getConn done T _ _ now) as [T' r].
    destruct H as [E _]; [by apply Hno..|done].
  - apply map_eq. intros j. rewrite !mine_lookup. destruct (decide (peer_key p j)) as [Hj|]; [|done]. rewrite lookup_alter_ne; [done|].
    intros <-. by apply (Hno addr laddr).
Qed.

Lemma run_mine p es d T :
  (45 : byte) ∉ p -> Forall plain es ->
  (t_run (d, mine p T) (filter (concerns p) es)).2 = mine p (t_run (d, T) es).2.
Proof.
  intros Hp Hes. revert d T. induction Hes as [|e es He _ IH]; intros d T; [done|]. rewrite filter_cons. destruct (decide (concerns p e)) as [Hc|Hc].
  - unfold t_run. cbn [fold_left fst snd]. fold (t_run (ends d e, t_step d (mine p T) e) (filter (concerns p) es)).
    rewrite <- step_mine by done. apply IH.
  - assert (t_run (d, T) (e :: es) = t_run (d, t_step d T e) es) as ->.
    { unfold t_run. cbn [fold_left fst snd]. by replace (ends d e) with d by (destruct e; try done; by destruct Hc). }
    rewrite <- IH. by rewrite (step_other d T e p).
Qed.

(** C8: the UDP server, with its connections as shared objects, the callbacks that take a
    closed one from the table and its fallback to wildcard addresses, refines a plain table
    from keys to connections: after any datagrams, calls, ticks and the end, the table holds
    for every key exactly the connection that the plain operations give. *)
Theorem server_refines_table es :
  entries (s_run s_start es) = (t_run (false, ∅) es).2 /\ sv_ok (s_run s_start es).
Proof.
  destruct (run_refines s_start es server_start_ok) as [E Hok]. split; [|done]. rewrite entries_start in E. cbn [sv_done s_start] in E. by rewrite E.
Qed.

(** C7: the peers of a UDP server do not interfere: the connections that the server has for a
    peer, with everything they have processed, are those that it would have if it had only
    seen this peer's datagrams and calls, the ticks and the end of the server. *)
Theorem peers_do_not_interfere p es (Hp : (45 : byte) ∉ p) (Hplain : Forall plain es) (raddr laddr : UDPAddr) (Hpeer : addr_string raddr = p) :
  entries (s_run s_start es) !! getConnKey raddr laddr = entries (s_run s_start (filter (concerns p) es)) !! getConnKey raddr laddr.
Proof.
  destruct (run_refines s_start es server_start_ok) as [E1 _]. destruct (run_refines s_start (filter (concerns p) es) server_start_ok) as [E2 _].
  rewrite entries_start in E1, E2. cbn [sv_done s_start] in E1, E2.
  pose proof (run_mine p es false ∅ Hp Hplain) as H. assert (mine p ∅ = ∅) as Em by (apply map_filter_empty). rewrite Em, E1, E2 in H. cbn [snd] in H.
  rewrite H, mine_lookup, decide_True; [done|]. subst p. apply key_of_peer.
Qed.
End Peers.

(** ** An example *)
Module PeersSample.
(** A connection that keeps the datagrams it got; one with a zero byte ends it. *)
Definition logged : Type := list (list byte) * bool.
#[export] Instance logged_conn : PeerConn logged := {|
  pc_new _ := ([], false);
  pc_Process cc _ data _ := if existsb (Z.eqb 0) data then (cc, Some (PError ErrContext)) else ((cc.1 ++ [data], cc.2), None);
  pc_CheckExpirations cc _ := cc;
  pc_Notify cc _ := cc;
  pc_Close cc := (cc.1, true);
  pc_done cc := cc.2;
  pc_OnNewConn cc := cc
|}.

Definition text (a : UDPAddr) : list byte := ua_ip a ++ [58; ua_port a].
Definition here : UDPAddr := mkUDPAddr [0; 0; 0; 0] 53 [].
Definition alice : UDPAddr := mkUDPAddr [10; 0; 0; 1] 1 [].
Definition bob : UDPAddr := mkUDPAddr [10; 0; 0; 2] 1 [].
Definition to_me : option ControlMessage := Some (mkCM (Some [10; 0; 0; 9]) None 1).

(** Alice's second datagram closes her connection; Bob's connection was opened by a call. *)
Definition events : list s_event :=
  [EDatagram (mkDatagram [5] alice to_me) 1; ENewConn bob None 2; EDatagram (mkDatagram [6] bob to_me) 3; EDatagram (mkDatagram [0] alice to_me) 4;
   EDatagram (mkDatagram [7] alice to_me) 5; ETick 6; EDatagram (mkDatagram [8] bob None) 7].

Lemma events_plain : Forall (plain text) events.
Proof. repeat constructor; apply (bool_decide_unpack _); vm_compute; exact I. Qed.

Lemma peers_do_not_interfere_witness :
  entries (s_run (CC := logged) text 100 here s_start events) !! getConnKey text bob here = Some (mkConn bob (getConnKey text bob here) true ([[6]; [8]], false)) /\
  entries (s_run (CC := logged) text 100 here s_start (filter (concerns text (text bob)) events)) !! getConnKey text bob here =
    Some (mkConn bob (getConnKey text bob here) true ([[6]; [8]], false)).
Proof.
  assert (entries (s_run (CC := logged) text 100 here s_start events) !! getConnKey text bob here = Some (mkConn bob (getConnKey text bob here) true ([[6]; [8]], false)))
    as E by (vm_compute; reflexivity).
  split; [exact E|]. rewrite <- E. symmetry. apply (peers_do_not_interfere text 100 here (text bob) events); [|exact events_plain|reflexivity].
  apply (bool_decide_unpack _). vm_compute. exact I.
Defined.
End PeersSample.
