(* ===== verification/ServedUdp.v ===== *)
(** * The UDP server with its own connections (src/udp/server/server.go on src/udp/client/conn.go)

    [UdpServer] works on any connection of the interface [PeerConn]; here the connections
    are those of [UdpConn].  A datagram is processed and what it leaves in the queue is
    handled before the next one: the loop that reads received messages has caught up.  An
    operation that does not return leaves the connection as it was. *)
From stdpp Require Import prelude list strings gmap.
From Stdlib Require Import ZArith Lia.
From S2P Require Import Prelude Cast Codes OptionCodec Options OptionsCodec Message PoolMessage BlockCodec.
From S2P Require Import Crc64 SyncMap Client TcpConn UdpReliability UdpConn UdpFrame UdpDedup UdpServer UdpPeers.
#[local] Open Scope Z_scope.

Section Served.
Context {Ctx B Q : Type} `{!ReadSeeker B}.
Abbreviation M := (Msg Ctx ControlMessage B).
Abbreviation W := (Writer (Ctx := Ctx) (CM := ControlMessage) (B := B)).
Abbreviation UState := (UState (Ctx := Ctx) (B := B) (Q := Q)).
Abbreviation HandlerFunc := (UState -> W -> nat * M -> UState * W * (nat * M)).
Context (growcap : Z -> Z).
Context (supply : nat -> M).
Context (cfg : UConfig).
Context (requestMonitor : M -> bool * option error).
Context (hooks : QHooks (Ctx := Ctx) (B := B) (Q := Q)).
Context (observation_Handle : HandlerFunc).
Context (blockWise_Handle : option (Z -> HandlerFunc -> HandlerFunc)).
Context (nextAcknowledgeTimeout : nat -> Z).
Context (discoveryETag : list byte).
Context (copyFuel : nat).
Context (newConn : UDPAddr -> UState) (OnNewConn : UState -> UState).

(** The reader takes messages until the queue is empty. *)
Fixpoint catch_up (fuel : nat) (s : UState) (now : Z) : UState :=
  match fuel with
  | O => s
  | S fuel =>
      match process_next_udp growcap supply cfg hooks observation_Handle blockWise_Handle nextAcknowledgeTimeout discoveryETag copyFuel s now with
      | Some (s, _) => catch_up fuel s now
      | None => s
      end
  end.

Definition served_Process (s : UState) (cm : option ControlMessage) (data : list byte) (now : Z) : UState * option process_error :=
  match Process growcap supply cfg requestMonitor hooks nextAcknowledgeTimeout copyFuel s cm data now true with
  | Some (s, e) => (catch_up (length (u_received s)) s now, e)
  | None => (s, None)
  end.

(** The socket accepts what is retransmitted. *)
Definition served_CheckExpirations (s : UState) (now : Z) : UState :=
  CheckExpirations_udp supply cfg copyFuel s now (fun _ => (None, now)) (map_to_list (mids (l_mids (u_layer s)))).*1.

Definition served_conn : PeerConn UState := {|
  pc_new := newConn;
  pc_Process := served_Process;
  pc_CheckExpirations := served_CheckExpirations;
  pc_Notify s _ := unotify s;
  pc_Close s := (UClose s).1;
  pc_done s := n_done (u_net s);
  pc_OnNewConn := OnNewConn
|}.

Abbreviation step := (udp_step growcap supply cfg requestMonitor hooks observation_Handle blockWise_Handle nextAcknowledgeTimeout discoveryETag copyFuel).

Lemma catch_up_steps fuel s now : rtc (step now) s (catch_up fuel s now).
Proof.
  revert s. induction fuel as [|fuel IH]; intros s; [done|]. cbn [catch_up]. unfold process_next_udp.
  destruct (u_received s) as [|req rest] eqn:Eq; [done|].
  destruct (ProcessReceivedMessage_udp _ _ _ _ _ _ _ _ _ (with_received s rest) req now) as [[s1 ran]|] eqn:E; [|done].
  eapply rtc_l; [|apply IH]. by eapply us_handle.
Qed.

(** What the server does with a datagram and at a tick are events of the connection. *)
Lemma served_steps s cm data now : rtc (step now) s (served_Process s cm data now).1 /\ step now s (served_CheckExpirations s now).
Proof.
  split; [|apply us_check]. unfold served_Process. destruct (Process _ _ _ _ _ _ _ s cm data now true) as [[s1 e]|] eqn:E; [|done].
  eapply rtc_l; [by eapply us_receive|]. apply catch_up_steps.
Qed.
End Served.

(** ** A server that answers 2.05 *)

Module ServedSample.
Import UdpDedup.Sample UdpPeers.PeersSample.

Definition fresh_conn (_ : UDPAddr) : SState := state.
#[local] Instance answering : PeerConn SState :=
  served_conn (fun n => n) supply cfg (fun _ => (false, None)) hooks answer None (fun _ => 2) [] 10 fresh_conn id.

(** A Confirmable GET with the message ID 5. *)
Definition question : list byte := [66; 1; 0; 5; 7; 8; 177; 97].
Definition ask (who : UDPAddr) (now : Z) : s_event := EDatagram (mkDatagram question who to_me) now.

Abbreviation serve es := (entries (s_run text 1000 here s_start es)).

(** Whatever other peers send meanwhile, also requests with the same message ID and token, a
    request and its retransmission are handled once and answered with the same datagram, on
    the connection of their sender. *)
Theorem retransmission_across_peers es (Hplain : Forall (plain text) es)
    (Halice : filter (concerns text (text alice)) es = [ask alice 100; ask alice 200]) :
  exists c, serve es !! getConnKey text alice (mkUDPAddr [10; 0; 0; 9] 53 []) = Some c /\
    n_sent (u_net (sn_cc c)) = [Udp.bytes reply; Udp.bytes reply].
Proof.
  set (key := getConnKey text alice _).
  assert (serve es !! key = serve [ask alice 100; ask alice 200] !! key) as ->; [|eexists; split; vm_compute; reflexivity].
  destruct (run_refines text 1000 here s_start es (server_start_ok)) as [E1 _].
  destruct (run_refines text 1000 here s_start [ask alice 100; ask alice 200] server_start_ok) as [E2 _].
  rewrite entries_start in E1, E2. cbn [sv_done s_start] in E1, E2.
  assert ((45 : byte) ∉ text alice) as Hp by (apply (bool_decide_unpack _); vm_compute; exact I).
  pose proof (run_mine text 1000 here (text alice) es false ∅ Hp Hplain) as H. rewrite Halice in H.
  change (mine (text alice) ∅) with (∅ : gmap (list byte) (sconn (CC := SState))) in H.
  rewrite E1, E2 in H. cbn [snd] in H.
  pose proof (f_equal (lookup key) H) as Hk. rewrite mine_lookup, decide_True in Hk; [by rewrite Hk|]. apply key_of_peer.
Qed.

Lemma retransmission_across_peers_witness :
  exists c, serve [ask bob 50; ask alice 100; ask bob 150; ask alice 200; ask bob 250] !! getConnKey text alice (mkUDPAddr [10; 0; 0; 9] 53 []) = Some c /\
    n_sent (u_net (sn_cc c)) = [Udp.bytes reply; Udp.bytes reply].
Proof.
  apply retransmission_across_peers; [|vm_compute; reflexivity].
  repeat constructor; apply (bool_decide_unpack _); vm_compute; exact I.
Defined.
End ServedSample.
