(* ===== verification/StreamServer.v ===== *)
(** * Servers of connections (src/tcp/server/server.go, src/dtls/server/server.go,
    src/pkg/connections, src/pkg/runner/periodic)

    The TCP and the DTLS server have the same life: a loop accepts connections, a goroutine
    serves each (after a handshake in DTLS), a table keeps the connections that are served
    for the periodic check and for the end.  The goroutines interleave: a state, an event
    for each piece that runs without interruption, and runs as lists of events.  A
    connection is here its address, whether it has a handshake, whether it has been closed,
    and the times at which its expirations were checked; its contents are in [TcpConn] and
    [UdpConn].  The context of a connection is derived from that of the server.

    A goroutine waits for its peer at two places: in the handshake, which the context ends,
    and in the read of the socket, which nothing ends but the peer or the closing of the
    socket: the context is looked at before the read only.  The events tell what a
    goroutine does by itself ([EGo]) from what its peer does ([EPeer]). *)
From stdpp Require Import prelude list strings gmap.
From Stdlib Require Import ZArith Lia.
From S2P Require Import Prelude TableSum.
#[local] Open Scope Z_scope.

Definition ErrListenerIsClosed : error := ErrEOF.
Definition ErrNetClosed : error := ErrOther "use of closed network connection".
Definition ErrDeadline : error := ErrOther "context deadline exceeded".
Definition errAlreadyServes : error := ErrOther "server already serves listener".
Definition errInvalidSZX : error := ErrOther "invalid blockwiseSZX".

Definition IsCancelOrCloseError (err : option error) : bool :=
  match err with
  | None => false
  | Some e => bool_decide (e = ErrContext) || bool_decide (e = ErrEOF) || bool_decide (e = ErrNetClosed)
  end.

(** ** Functions that run periodically *)

(** [periodic.New]: the functions by number, each a change of the state that says whether
    it stays. *)
Record Runner (S : Type) : Type := mkRunner { rn_funcs : gmap Z (Z -> S -> S * bool); rn_idx : Z }.
Arguments mkRunner {S} _ _.
Arguments rn_funcs {S} _.
Arguments rn_idx {S} _.

Section Runner.
Context {S : Type}.

(** The counter is a [uint64]. *)
Definition Runner_add (r : Runner S) (f : option (Z -> S -> S * bool)) : Runner S :=
  match f with
  | None => r
  | Some f => let v := (rn_idx r + 1) mod 2 ^ 64 in mkRunner (<[v := f]> (rn_funcs r)) v
  end.

(** A tick, over a copy of the table; [order] is the order of the iteration. *)
Definition Runner_tick (order : list Z) (now : Z) (r : Runner S) (s : S) : Runner S * S :=
  let v := rn_funcs r in
  fold_left (fun (rs : Runner S * S) (k : Z) =>
    let '(r, s) := rs in
    match (v !! k : option (Z -> S -> S * bool)) with
    | None => (r, s)
    | Some f => let '(s, ok) := f now s in (if ok then r else mkRunner (delete k (rn_funcs r)) (rn_idx r), s)
    end) order (r, s).
End Runner.

(** ** State *)

(** [Running]: in [Run], outside the read of the socket; [Reading]: in that read. *)
Inductive stage : Type := Accepted | Created | Running | Reading | Ended | Gone.

#[export] Instance stage_eq_dec : EqDecision stage.
Proof. solve_decision. Defined.

(** [sc_handshake]: the connection has the method [HandshakeContext]. *)
Record sconn : Type := mkSconn { sc_addr : list byte; sc_handshake : bool; sc_stage : stage; sc_closed : bool; sc_checked : list Z }.

Inductive phase : Type := Idle | Serving | Closing | Returned.

#[export] Instance phase_eq_dec : EqDecision phase.
Proof. solve_decision. Defined.

(** [ss_table] are the [Connections] of [Serve], [ss_wg] its wait group, and [ss_runner]
    says that the function of [Serve] is registered with the runner. *)
Record SServer : Type := mkSServer {
  ss_ctxDone : bool;
  ss_listen : option nat;
  ss_closedListeners : list nat;
  ss_phase : phase;
  ss_table : gmap (list byte) nat;
  ss_conns : gmap nat sconn;
  ss_wg : Z;
  ss_runner : bool;
  ss_errors : list error
}.
Implicit Types (s : SServer) (c : sconn) (id : nat).

Definition ss_with_conns s (table : gmap (list byte) nat) (conns : gmap nat sconn) (wg : Z) : SServer :=
  mkSServer (ss_ctxDone s) (ss_listen s) (ss_closedListeners s) (ss_phase s) table conns wg (ss_runner s) (ss_errors s).
Definition ss_with_phase s (p : phase) (runner : bool) : SServer :=
  mkSServer (ss_ctxDone s) (ss_listen s) (ss_closedListeners s) p (ss_table s) (ss_conns s) (ss_wg s) runner (ss_errors s).
Definition ss_with_listen s (done : bool) (l : option nat) (closed : list nat) : SServer :=
  mkSServer done l closed (ss_phase s) (ss_table s) (ss_conns s) (ss_wg s) (ss_runner s) (ss_errors s).
(** [s.cfg.Errors], which [New] wraps. *)
Definition Errors s (e : error) : SServer :=
  if IsCancelOrCloseError (Some e) then s else
  mkSServer (ss_ctxDone s) (ss_listen s) (ss_closedListeners s) (ss_phase s) (ss_table s) (ss_conns s) (ss_wg s) (ss_runner s) (ss_errors s ++ [e]).

Definition with_stage c (st : stage) : sconn := mkSconn (sc_addr c) (sc_handshake c) st (sc_closed c) (sc_checked c).
Definition closed c : sconn := mkSconn (sc_addr c) (sc_handshake c) (sc_stage c) true (sc_checked c).
Definition checked c (now : Z) : sconn := mkSconn (sc_addr c) (sc_handshake c) (sc_stage c) (sc_closed c) (sc_checked c ++ [now]).

(** ** The table of connections *)

Definition Connections_Store (t : gmap (list byte) nat) c id : gmap (list byte) nat := <[sc_addr c := id]> t.
Definition Connections_Delete (t : gmap (list byte) nat) c : gmap (list byte) nat := delete (sc_addr c) t.
Definition copyConnections (t : gmap (list byte) nat) : list nat := (map_to_list t).*2.
Definition Connections_length (t : gmap (list byte) nat) : Z := zlen (map_to_list t).

(** The context of a connection. *)
Definition sconn_done s c : bool := ss_ctxDone s || sc_closed c.

(** The loop over a copy of the table: [f] on every connection for which [skip] is false. *)
Definition each_conn (f : sconn -> sconn) (skip : sconn -> bool) (ids : list nat) (conns : gmap nat sconn) : gmap nat sconn :=
  fold_left (fun (conns : gmap nat sconn) id => match (conns !! id : option sconn) with
                                                | Some c => if skip c then conns else <[id := f c]> conns
                                                | None => conns
                                                end) ids conns.

Definition Connections_CheckExpirations s (now : Z) : SServer :=
  ss_with_conns s (ss_table s) (each_conn (fun c => checked c now) (sconn_done s) (copyConnections (ss_table s)) (ss_conns s)) (ss_wg s).

Definition Connections_Close s : SServer :=
  ss_with_conns s (ss_table s) (each_conn closed (fun _ => false) (copyConnections (ss_table s)) (ss_conns s)) (ss_wg s).

(** ** Operations *)

Definition ss_start (done : bool) : SServer := mkSServer done None [] Idle ∅ ∅ 0 false [].

Definition checkAndSetListener s (l : nat) : SServer * option error :=
  match ss_listen s with
  | Some _ => (s, Some errAlreadyServes)
  | None => (ss_with_listen s (ss_ctxDone s) (Some l) (ss_closedListeners s), None)
  end.

Definition popListener s : SServer * option nat := (ss_with_listen s (ss_ctxDone s) None (ss_closedListeners s), ss_listen s).

(** [closeErr] is what the listener's [Close] yields. *)
Definition SS_Stop s (closeErr : option error) : SServer :=
  let s := ss_with_listen s true (ss_listen s) (ss_closedListeners s) in
  let '(s, l) := popListener s in
  match l with
  | None => s
  | Some l =>
      let s := ss_with_listen s (ss_ctxDone s) (ss_listen s) (ss_closedListeners s ++ [l]) in
      match closeErr with Some e => Errors s e | None => s end
  end.

(** The flag says whether the loop goes on. *)
Definition checkAcceptError s (err : option error) (closeErr : option error) : SServer * bool :=
  match err with
  | None => (s, true)
  | Some e =>
      if bool_decide (e = ErrListenerIsClosed) then (SS_Stop s closeErr, false) else
      if bool_decide (e = ErrDeadline) || bool_decide (e = ErrContext)
      then if ss_ctxDone s then (s, false) else (Errors s e, true)
      else (s, true)
  end.

(** [Serve] up to its loop: [cfgErr] is the error of the configuration, if it is invalid. *)
Definition SS_Serve s (cfgErr : option error) (l : nat) : SServer * option error :=
  match cfgErr with
  | Some e => (s, Some e)
  | None =>
      match checkAndSetListener s l with
      | (s, Some e) => (s, Some e)
      | (s, None) => (ss_with_phase s Serving true, None)
      end
  end.

(** What [AcceptWithContext] yields; a connection may be nil. *)
Inductive accept_result : Type := AErr (e : error) | ANil | AConn (addr : list byte) (handshake : bool).

(** One pass over the loop; when it ends the deferred [connections.Close] runs. *)
Definition SS_accept s (r : accept_result) (closeErr : option error) : SServer :=
  let err := match r with AErr e => Some e | _ => None end in
  let '(s, ok) := checkAcceptError s err closeErr in
  if negb ok then ss_with_phase (Connections_Close s) Closing (ss_runner s) else
  match r with
  | AConn addr handshake =>
      ss_with_conns s (ss_table s) (<[fresh (dom (ss_conns s)) := mkSconn addr handshake Accepted false []]> (ss_conns s)) (ss_wg s + 1)
  | _ => s
  end.

(** The deferred [wg.Wait] and [Stop]. *)
Definition SS_return s (closeErr : option error) : SServer :=
  if ss_wg s =? 0 then ss_with_phase (SS_Stop s closeErr) Returned (ss_runner s) else s.

(** The function registered with the runner. *)
Definition SS_check (now : Z) s : SServer * bool := let s := Connections_CheckExpirations s now in (s, negb (ss_ctxDone s)).

(** *** The goroutine of a connection: [serveConnection] *)

(** The result of the handshake; a connection without one goes on at once.  A failure
    closes the connection and ends the goroutine. *)
Definition serve_handshake s id c (err : option error) : SServer :=
  match err with
  | Some e =>
      ss_with_conns (Errors s e) (ss_table s) (<[id := with_stage (closed c) Gone]> (ss_conns s)) (ss_wg s - 1)
  | None => ss_with_conns s (ss_table s) (<[id := with_stage c Created]> (ss_conns s)) (ss_wg s)
  end.

Definition serve_store s id c : SServer :=
  ss_with_conns s (Connections_Store (ss_table s) c id) (<[id := with_stage c Running]> (ss_conns s)) (ss_wg s).

(** [Run] has returned; it has closed the connection. *)
Definition serve_run s id c (err : option error) : SServer :=
  let s := match err with Some e => Errors s e | None => s end in
  ss_with_conns s (ss_table s) (<[id := with_stage (closed c) Ended]> (ss_conns s)) (ss_wg s).

(** [ReadWithContext] up to the read of the socket: it looks at the context, then at the
    flag ([ErrConnectionIsClosed] is [io.EOF]). *)
Definition serve_read s id c : SServer :=
  if ss_ctxDone s then serve_run s id c (Some ErrContext) else
  if sc_closed c then serve_run s id c (Some ErrEOF) else
  ss_with_conns s (ss_table s) (<[id := with_stage c Reading]> (ss_conns s)) (ss_wg s).

(** The read has returned data, and [Run] has processed it without an error. *)
Definition serve_processed s id c : SServer :=
  ss_with_conns s (ss_table s) (<[id := with_stage c Running]> (ss_conns s)) (ss_wg s).

Definition serve_delete s id c : SServer :=
  ss_with_conns s (Connections_Delete (ss_table s) c) (<[id := with_stage c Gone]> (ss_conns s)) (ss_wg s - 1).

(** ** Events *)

(** What a peer does: its part of the handshake; data, with the error of processing it;
    the end of the stream, or an error of the socket. *)
Inductive peer_event : Type :=
  | PHandshake (err : option error)
  | PData (err : option error)
  | PEnd (err : option error).

Inductive sevent : Type :=
  | EServe (cfgErr : option error) (l : nat)
  | EAccept (r : accept_result) (closeErr : option error)
  | EGo (id : nat)
  | EPeer (id : nat) (p : peer_event)
  | EClose (id : nat)
  | ETick (now : Z)
  | EStop (closeErr : option error)
  | EReturn (closeErr : option error).

(** The next step of the goroutine by itself; it stays where it waits.  The context of the
    server ends a handshake, the closing of the socket ends a read. *)
Definition serve_go s id c : SServer :=
  match sc_stage c with
  | Accepted =>
      if sc_handshake c then if ss_ctxDone s then serve_handshake s id c (Some ErrContext) else s
      else serve_handshake s id c None
  | Created => serve_store s id c
  | Running => serve_read s id c
  | Reading => if sc_closed c then serve_run s id c (Some ErrNetClosed) else s
  | Ended => serve_delete s id c
  | Gone => s
  end.

Definition serve_peer s id c (p : peer_event) : SServer :=
  match sc_stage c, p with
  | Accepted, PHandshake err => if sc_handshake c then serve_handshake s id c err else s
  | Reading, PData None => serve_processed s id c
  | Reading, PData err => serve_run s id c err
  | Reading, PEnd err => serve_run s id c err
  | _, _ => s
  end.

Definition on_conn s id (f : sconn -> SServer) : SServer :=
  match ss_conns s !! id with Some c => f c | None => s end.

Definition s_step s (e : sevent) : SServer :=
  match e with
  | EServe cfgErr l => match ss_phase s with Idle => (SS_Serve s cfgErr l).1 | _ => s end
  | EAccept r closeErr => match ss_phase s with Serving => SS_accept s r closeErr | _ => s end
  | EGo id => on_conn s id (serve_go s id)
  | EPeer id p => on_conn s id (fun c => serve_peer s id c p)
  | EClose id => on_conn s id (fun c => ss_with_conns s (ss_table s) (<[id := closed c]> (ss_conns s)) (ss_wg s))
  | ETick now => if ss_runner s then let '(s, ok) := SS_check now s in ss_with_phase s (ss_phase s) ok else s
  | EStop closeErr => SS_Stop s closeErr
  | EReturn closeErr => match ss_phase s with Closing => SS_return s closeErr | _ => s end
  end.

Definition s_run s (es : list sevent) : SServer := fold_left s_step es s.

(** ** The table under a change *)

Lemma each_conn_lookup f skip ids (conns : gmap nat sconn) id :
  NoDup ids ->
  each_conn f skip ids conns !! id = (if decide (id ∈ ids) then (fun c => if skip c then c else f c) <$> conns !! id else conns !! id).
Proof.
  revert conns. unfold each_conn. induction ids as [|j ids IH]; intros conns Hnd; [by rewrite decide_False by set_solver|].
  apply NoDup_cons in Hnd as [Hj Hnd]. cbn [fold_left]. rewrite IH by done. destruct (decide (id = j)) as [->|Hne].
  - rewrite decide_False, decide_True by set_solver. destruct (conns !! j) as [c|] eqn:E; [|by rewrite E].
    cbn. destruct (skip c); [done|]. by rewrite lookup_insert_eq.
  - set (conns' := match conns !! j with Some _ => _ | None => _ end). assert (conns' !! id = conns !! id) as E.
    { subst conns'. destruct (conns !! j) as [c|]; [|done]. destruct (skip c); [done|]. by rewrite lookup_insert_ne. }
    rewrite E. destruct (decide (id ∈ ids)); [by rewrite decide_True by set_solver|by rewrite decide_False by set_solver].
Qed.

(** ** Invariant *)

Definition live c : Z := if bool_decide (sc_stage c = Gone) then 0 else 1.
Definition serving c : bool := match sc_stage c with Running | Reading => true | _ => false end.
Definition in_table c : Prop := serving c = true \/ sc_stage c = Ended.

(** The names of the table are connections that are between [Store] and [Delete], under
    their addresses. *)
Definition names (t : gmap (list byte) nat) (conns : gmap nat sconn) : Prop :=
  forall a id, t !! a = Some id -> exists c, conns !! id = Some c /\ sc_addr c = a /\ in_table c.

Definition over c : Prop := sc_stage c = Ended \/ sc_stage c = Gone -> sc_closed c = true.

Record s_ok s : Prop := mkSOk {
  so_wg : ss_wg s = table_sum live (ss_conns s);
  so_names : names (ss_table s) (ss_conns s);
  so_over : map_Forall (fun _ c => over c) (ss_conns s);
  so_closing : ss_phase s = Closing -> ss_ctxDone s = true;
  so_returned : ss_phase s = Returned -> ss_wg s = 0 /\ ss_ctxDone s = true /\ ss_listen s = None
}.

Lemma names_NoDup t conns : names t conns -> NoDup (copyConnections t).
Proof.
  intros Hn. unfold copyConnections. apply NoDup_fmap_2_strong; [|apply NoDup_map_to_list].
  intros [a i] [b j] Ha Hb E. cbn in E. subst j. apply elem_of_map_to_list in Ha, Hb.
  apply Hn in Ha as (c & Hc & <- & _). apply Hn in Hb as (c' & Hc' & <- & _). rewrite Hc in Hc'. by injection Hc' as <-.
Qed.

Lemma elem_of_copy t id : id ∈ copyConnections t <-> exists a, t !! a = Some id.
Proof.
  unfold copyConnections. rewrite list_elem_of_fmap. split.
  - intros ([a j] & -> & H). apply elem_of_map_to_list in H. by exists a.
  - intros [a H]. exists (a, id). split; [done|]. by apply elem_of_map_to_list.
Qed.

(** A change of one connection that keeps its address. *)
Lemma names_insert t conns id c c' :
  conns !! id = Some c -> sc_addr c' = sc_addr c -> (in_table c -> in_table c') -> names t conns -> names t (<[id := c']> conns).
Proof.
  intros Hc Ha Hi Hn a j Hj. apply Hn in Hj as (d & Hd & Ea & Hs). destruct (decide (j = id)) as [->|Hne].
  - rewrite Hc in Hd. injection Hd as <-. exists c'. rewrite lookup_insert_eq, Ha. auto.
  - exists d. by rewrite lookup_insert_ne.
Qed.

Lemma live_nonneg (conns : gmap nat sconn) : map_Forall (fun _ c => 0 <= live c) conns.
Proof. intros i c _. unfold live. by case_bool_decide. Qed.

Lemma live_one (conns : gmap nat sconn) id c : conns !! id = Some c -> live c <= table_sum live conns.
Proof.
  intros Hc. pose proof (table_sum_nonneg live (delete id conns) ltac:(apply live_nonneg)) as H. rewrite (table_sum_delete _ _ _ c) in H by done. lia.
Qed.

(** What the invariant looks at. *)
Lemma s_ok_same s s' :
  ss_ctxDone s' = ss_ctxDone s -> ss_listen s' = ss_listen s -> ss_phase s' = ss_phase s -> ss_table s' = ss_table s -> ss_conns s' = ss_conns s ->
  ss_wg s' = ss_wg s -> s_ok s -> s_ok s'.
Proof. intros E1 E2 E3 E4 E5 E6 []. split; by rewrite ?E1, ?E2, ?E3, ?E4, ?E5, ?E6. Qed.

Lemma s_ok_Errors s e : s_ok s -> s_ok (Errors s e).
Proof. intros H. unfold Errors. destruct (IsCancelOrCloseError _); [done|]. by eapply s_ok_same; [..|exact H]. Qed.

Lemma Errors_fields s e :
  ss_table (Errors s e) = ss_table s /\ ss_conns (Errors s e) = ss_conns s /\ ss_wg (Errors s e) = ss_wg s /\ ss_phase (Errors s e) = ss_phase s /\
  ss_ctxDone (Errors s e) = ss_ctxDone s /\ ss_listen (Errors s e) = ss_listen s /\ ss_runner (Errors s e) = ss_runner s.
Proof. unfold Errors. by destruct (IsCancelOrCloseError _). Qed.

Lemma Stop_fields s closeErr :
  ss_table (SS_Stop s closeErr) = ss_table s /\ ss_conns (SS_Stop s closeErr) = ss_conns s /\ ss_wg (SS_Stop s closeErr) = ss_wg s /\
  ss_phase (SS_Stop s closeErr) = ss_phase s /\ ss_ctxDone (SS_Stop s closeErr) = true /\ ss_listen (SS_Stop s closeErr) = None /\
  ss_runner (SS_Stop s closeErr) = ss_runner s.
Proof. unfold SS_Stop, popListener. cbn. destruct (ss_listen s); [|done]. destruct closeErr; [|done]. unfold Errors. by destruct (IsCancelOrCloseError _). Qed.

Lemma s_ok_Stop s closeErr : s_ok s -> s_ok (SS_Stop s closeErr).
Proof.
  intros []. destruct (Stop_fields s closeErr) as (E1 & E2 & E3 & E4 & E5 & E6 & _). split; rewrite ?E1, ?E2, ?E3, ?E4, ?E5, ?E6; try done.
  intros Hp. by apply so_returned0 in Hp as (? & _ & _).
Qed.

(** One connection moves on. *)
Lemma s_ok_conn s id c c' t :
  s_ok s -> ss_conns s !! id = Some c -> live c' = live c \/ live c = 1 -> over c' -> names t (<[id := c']> (ss_conns s)) ->
  s_ok (ss_with_conns s t (<[id := c']> (ss_conns s)) (ss_wg s - live c + live c')).
Proof.
  intros [Hwg Hn Ho Hc Hr] Hid Hlive Hov Hnames. split; cbn; try done.
  - by rewrite (table_sum_replace _ _ _ _ c), Hwg.
  - by apply map_Forall_insert_2.
  - intros Hp. destruct (Hr Hp) as (Hz & H1 & H2). split; [|done]. pose proof (live_one _ _ _ Hid). destruct Hlive; lia.
Qed.

(** A change of the connections in the table that keeps addresses and stages. *)
Lemma s_ok_each f skip s :
  (forall c, sc_addr (f c) = sc_addr c /\ sc_stage (f c) = sc_stage c /\ (sc_closed c = true -> sc_closed (f c) = true)) ->
  s_ok s -> s_ok (ss_with_conns s (ss_table s) (each_conn f skip (copyConnections (ss_table s)) (ss_conns s)) (ss_wg s)).
Proof.
  intros Hf [Hwg Hn Hov Hc Hr]. generalize (copyConnections (ss_table s)) as ids. intros ids. unfold each_conn.
  set (conns0 := ss_conns s) in *. clearbody conns0. revert conns0 Hwg Hn Hov. induction ids as [|id ids IH]; intros conns Hwg Hn Hov.
  { by split; cbn. }
  cbn [fold_left]. apply IH; destruct (conns !! id) as [c|] eqn:E; try done; destruct (skip c); try done; destruct (Hf c) as (Ha & Hs & Hcl).
  - rewrite (table_sum_replace _ _ _ _ c) by done. assert (live (f c) = live c) as -> by (unfold live; by rewrite Hs). lia.
  - eapply names_insert; [exact E|done| |done]. unfold in_table, serving. by rewrite Hs.
  - apply map_Forall_insert_2; [|done]. unfold over. rewrite Hs. intros H. apply Hcl. by apply (Hov id c).
Qed.

Lemma s_ok_accept s r closeErr : ss_phase s = Serving -> s_ok s -> s_ok (SS_accept s r closeErr).
Proof.
  intros Hp H. unfold SS_accept. set (err := match r with AErr e => Some e | _ => None end).
  assert (let '(s', ok) := checkAcceptError s err closeErr in s_ok s' /\ ss_phase s' = Serving /\ (ok = false -> ss_ctxDone s' = true)) as Hc.
  { unfold checkAcceptError. destruct err as [e|]; [|done]. destruct (bool_decide _).
    - destruct (Stop_fields s closeErr) as (_ & _ & _ & -> & -> & _ & _). split; [by apply s_ok_Stop|done].
    - destruct (_ || _); [|done]. destruct (ss_ctxDone s) eqn:E; [done|]. destruct (Errors_fields s e) as (_ & _ & _ & -> & _). split; [by apply s_ok_Errors|done]. }
  destruct (checkAcceptError s err closeErr) as [s' ok]. destruct Hc as (Hs & Hp' & Hd). destruct ok; cbn [negb].
  - destruct r as [e| |addr hs]; [done|done|]. destruct Hs as [Hwg Hn Ho Hc Hr]. split; cbn; try congruence.
    + rewrite table_sum_fresh, Hwg by (apply not_elem_of_dom, is_fresh). unfold live at 3. by rewrite bool_decide_false.
    + intros a id Ha. destruct (Hn a id Ha) as (c & Hid & Hrest). exists c. split; [|done]. rewrite lookup_insert_ne; [done|].
      intros E. apply (is_fresh (dom (ss_conns s'))). rewrite E. apply elem_of_dom. by exists c.
    + apply map_Forall_insert_2; [|done]. by intros [?|?].
  - apply (s_ok_each closed (fun _ => false)) in Hs; [|done]. fold (Connections_Close s') in Hs. destruct Hs as [Hwg Hn Ho Hc Hr].
    split; cbn in *; try done. intros _. by apply Hd.
Qed.

Lemma s_ok_on s id f : (forall c, ss_conns s !! id = Some c -> s_ok (f c)) -> s_ok s -> s_ok (on_conn s id f).
Proof. intros Hf H. unfold on_conn. destruct (ss_conns s !! id) as [c|]; auto. Qed.

Lemma live_stage c : sc_stage c <> Gone -> live c = 1.
Proof. intros H. unfold live. by rewrite bool_decide_false. Qed.

Lemma live_gone c : sc_stage c = Gone -> live c = 0.
Proof. intros H. unfold live. by rewrite bool_decide_true. Qed.

Lemma names_delete s id c c' :
  names (ss_table s) (ss_conns s) -> ss_conns s !! id = Some c -> names (Connections_Delete (ss_table s) c) (<[id := c']> (ss_conns s)).
Proof.
  intros Hn Hc a j. unfold Connections_Delete. rewrite lookup_delete_Some. intros [Hne Ha]. destruct (Hn a j Ha) as (d & Hd & Ea & Hs).
  exists d. rewrite lookup_insert_ne; [done|]. intros <-. rewrite Hc in Hd. injection Hd as <-. done.
Qed.

Lemma names_store s id c :
  names (ss_table s) (ss_conns s) -> ss_conns s !! id = Some c -> sc_stage c = Created ->
  names (Connections_Store (ss_table s) c id) (<[id := with_stage c Running]> (ss_conns s)).
Proof.
  intros Hn Hc Hs a j. unfold Connections_Store. rewrite lookup_insert_Some. intros [[<- <-]|[Hne Ha]].
  - eexists. rewrite lookup_insert_eq. split; [done|]. split; [done|]. by left.
  - destruct (Hn a j Ha) as (d & Hd & Ea & Hi). exists d. rewrite lookup_insert_ne; [done|]. intros <-. rewrite Hc in Hd. injection Hd as <-.
    unfold in_table, serving in Hi. rewrite Hs in Hi. by destruct Hi.
Qed.

(** The same with the wait group as the code counts it. *)
Lemma s_ok_move s id c c' t wg :
  s_ok s -> ss_conns s !! id = Some c -> sc_stage c <> Gone -> wg = (if bool_decide (sc_stage c' = Gone) then ss_wg s - 1 else ss_wg s) -> over c' ->
  names t (<[id := c']> (ss_conns s)) -> s_ok (ss_with_conns s t (<[id := c']> (ss_conns s)) wg).
Proof.
  intros H Hc Hs -> Hov Hn. pose proof (live_stage c Hs) as E. replace (if bool_decide (sc_stage c' = Gone) then ss_wg s - 1 else ss_wg s) with (ss_wg s - live c + live c').
  - apply s_ok_conn; auto.
  - rewrite E. unfold live. case_bool_decide; lia.
Qed.

(** *** The goroutine of a connection *)

Lemma not_in_table c : sc_stage c = Accepted \/ sc_stage c = Created -> ~ in_table c.
Proof. unfold in_table, serving. intros [-> | ->]; by intros [?|?]. Qed.

Lemma s_ok_handshake s id c err : s_ok s -> ss_conns s !! id = Some c -> sc_stage c = Accepted -> s_ok (serve_handshake s id c err).
Proof.
  intros H Hc Hs. pose proof (not_in_table c (or_introl Hs)) as Hnot. unfold serve_handshake. destruct err as [e|].
  - pose proof (s_ok_Errors s e H) as He. destruct (Errors_fields s e) as (_ & Ec & Ew & _). rewrite <- Ec, <- Ew. rewrite <- Ec in Hc.
    eapply s_ok_move; [done|exact Hc|by rewrite Hs|done|done|]. eapply names_insert; [exact Hc|done|by intros ?%Hnot|]. rewrite Ec. apply H.
  - eapply s_ok_move; [done|exact Hc|by rewrite Hs|done|by intros [?|?]|]. eapply names_insert; [exact Hc|done|by intros ?%Hnot|apply H].
Qed.

Lemma s_ok_store s id c : s_ok s -> ss_conns s !! id = Some c -> sc_stage c = Created -> s_ok (serve_store s id c).
Proof.
  intros H Hc Hs. unfold serve_store. eapply s_ok_move; [done|exact Hc|by rewrite Hs|done|by intros [?|?]|]. apply names_store; [apply H|done|done].
Qed.

Lemma s_ok_serve_run s id c err : s_ok s -> ss_conns s !! id = Some c -> serving c = true -> s_ok (serve_run s id c err).
Proof.
  intros H Hc Hs. unfold serve_run. set (s' := match err with Some e => Errors s e | None => s end).
  assert (s_ok s' /\ ss_conns s' = ss_conns s) as [H' Ec] by (subst s'; destruct err as [e|]; [|done]; split; [by apply s_ok_Errors|apply Errors_fields]).
  clearbody s'. rewrite <- Ec in Hc. eapply s_ok_move; [done|exact Hc|intros E; unfold serving in Hs; by rewrite E in Hs|done|done|].
  eapply names_insert; [exact Hc|done|by right|apply H'].
Qed.

(** Between two reads. *)
Lemma s_ok_serving s id c st : s_ok s -> ss_conns s !! id = Some c -> serving c = true -> serving (with_stage c st) = true ->
  s_ok (ss_with_conns s (ss_table s) (<[id := with_stage c st]> (ss_conns s)) (ss_wg s)).
Proof.
  intros H Hc Hs Hst. unfold serving in *. cbn in Hst. eapply s_ok_move; [done|exact Hc|intros E; by rewrite E in Hs|by destruct st| |].
  - unfold over. cbn. destruct st; try done; by intros [?|?].
  - eapply names_insert; [exact Hc|done|intros _; by left|apply H].
Qed.

Lemma s_ok_delete s id c : s_ok s -> ss_conns s !! id = Some c -> sc_stage c = Ended -> s_ok (serve_delete s id c).
Proof.
  intros H Hc Hs. unfold serve_delete. eapply s_ok_move; [done|exact Hc|by rewrite Hs|done| |].
  - intros _. cbn. apply (so_over _ H id c Hc). by left.
  - apply names_delete; [apply H|done].
Qed.

Lemma serving_stage c : sc_stage c = Running \/ sc_stage c = Reading -> serving c = true.
Proof. unfold serving. by intros [-> | ->]. Qed.

Lemma s_ok_go s id c : s_ok s -> ss_conns s !! id = Some c -> s_ok (serve_go s id c).
Proof.
  intros H Hc. unfold serve_go. destruct (sc_stage c) eqn:Hs.
  - destruct (sc_handshake c); [destruct (ss_ctxDone s); [|done]|]; by apply s_ok_handshake.
  - by apply s_ok_store.
  - unfold serve_read. pose proof (serving_stage c ltac:(by left)). destruct (ss_ctxDone s), (sc_closed c); [by apply s_ok_serve_run..|by apply s_ok_serving].
  - destruct (sc_closed c); [|done]. apply s_ok_serve_run; [done|done|]. apply serving_stage. by right.
  - by apply s_ok_delete.
  - done.
Qed.

Lemma s_ok_peer s id c p : s_ok s -> ss_conns s !! id = Some c -> s_ok (serve_peer s id c p).
Proof.
  intros H Hc. unfold serve_peer. destruct (sc_stage c) eqn:Hs; try done; destruct p as [err|err|err]; try done.
  - destruct (sc_handshake c); [|done]. by apply s_ok_handshake.
  - pose proof (serving_stage c ltac:(by right)). destruct err; [by apply s_ok_serve_run|by apply s_ok_serving].
  - apply s_ok_serve_run; [done|done|]. apply serving_stage. by right.
Qed.

Lemma s_ok_step s e : s_ok s -> s_ok (s_step s e).
Proof.
  intros H. destruct e as [cfgErr l|r closeErr|id|id p|id|now|closeErr|closeErr]; cbn [s_step].
  - destruct (ss_phase s) eqn:E; try done. unfold SS_Serve, checkAndSetListener. destruct cfgErr; [done|]. destruct (ss_listen s) eqn:El; [done|].
    destruct H. by split; cbn.
  - destruct (ss_phase s) eqn:E; try done. by apply s_ok_accept.
  - apply s_ok_on; [|done]. intros c Hc. by apply s_ok_go.
  - apply s_ok_on; [|done]. intros c Hc. by apply s_ok_peer.
  - apply s_ok_on; [|done]. intros c Hc. pose proof (s_ok_conn s id c (closed c) (ss_table s) H Hc) as Hk.
    replace (ss_wg s - live c + live (closed c)) with (ss_wg s) in Hk by (unfold live; cbn; lia). apply Hk; [by left|done|].
    eapply names_insert; [exact Hc|done|done|apply H].
  - destruct (ss_runner s); [|done]. cbn. pose proof (s_ok_each (fun c => checked c now) (sconn_done s) s ltac:(done) H) as He. by eapply s_ok_same; [..|exact He].
  - by apply s_ok_Stop.
  - destruct (ss_phase s) eqn:E; try done. unfold SS_return. destruct (Z.eqb_spec (ss_wg s) 0) as [Hz|]; [|done].
    pose proof (s_ok_Stop s closeErr H) as [Hwg Hn Ho Hc Hr]. destruct (Stop_fields s closeErr) as (E1 & E2 & E3 & E4 & E5 & E6 & _).
    split; cbn [ss_wg ss_conns ss_table ss_phase ss_ctxDone ss_listen ss_with_phase]; try done. intros _. by rewrite E3, E5, E6.
Qed.

Lemma s_ok_start done : s_ok (ss_start done).
Proof. split; cbn; try done; apply map_Forall_empty. Qed.

Lemma s_ok_run es s : s_ok s -> s_ok (s_run s es).
Proof. revert s. induction es as [|e es IH]; intros s H; [done|]. by apply IH, s_ok_step. Qed.

(** ** Runs in which the addresses are apart *)

#[export] Instance in_table_dec c : Decision (in_table c).
Proof. unfold in_table. apply _. Defined.

(** A connection is stored when no other one in the table has its address. *)
Definition apart s (e : sevent) : bool :=
  match e with
  | EGo id =>
      match ss_conns s !! id with
      | Some c => if bool_decide (sc_stage c = Created)
                  then bool_decide (map_Forall (fun _ d => in_table d -> sc_addr d <> sc_addr c) (ss_conns s)) else true
      | None => true
      end
  | _ => true
  end.

Fixpoint apart_run s (es : list sevent) : bool :=
  match es with
  | [] => true
  | e :: es => apart s e && apart_run (s_step s e) es
  end.

(** Every connection between [Store] and [Delete] is in the table. *)
Definition tracked s : Prop := map_Forall (fun id c => in_table c -> ss_table s !! sc_addr c = Some id) (ss_conns s).

Lemma tracked_same s s' : ss_conns s' = ss_conns s -> ss_table s' = ss_table s -> tracked s -> tracked s'.
Proof. unfold tracked. by intros -> ->. Qed.

Lemma tracked_insert s id c c' wg :
  ss_conns s !! id = Some c -> sc_addr c' = sc_addr c -> (in_table c' -> in_table c) -> tracked s ->
  tracked (ss_with_conns s (ss_table s) (<[id := c']> (ss_conns s)) wg).
Proof.
  intros Hc Ha Hi Ht. apply map_Forall_insert_2; [|exact Ht]. intros H. rewrite Ha. cbn. by apply (Ht id c Hc), Hi.
Qed.

Lemma tracked_each f skip s :
  (forall c, sc_addr (f c) = sc_addr c /\ sc_stage (f c) = sc_stage c) -> tracked s ->
  tracked (ss_with_conns s (ss_table s) (each_conn f skip (copyConnections (ss_table s)) (ss_conns s)) (ss_wg s)).
Proof.
  intros Hf Ht. generalize (copyConnections (ss_table s)) as ids. intros ids. unfold each_conn, tracked in *. cbn.
  generalize dependent (ss_conns s). induction ids as [|id ids IH]; intros conns Ht; [done|]. cbn [fold_left]. apply IH.
  destruct (conns !! id) as [c|] eqn:E; [|done]. destruct (skip c); [done|]. destruct (Hf c) as [Ha Hs]. apply map_Forall_insert_2; [|done].
  rewrite Ha. unfold in_table, serving. rewrite Hs. by apply (Ht id c).
Qed.

Lemma tracked_on s id f : (forall c, ss_conns s !! id = Some c -> tracked (f c)) -> tracked s -> tracked (on_conn s id f).
Proof. intros Hf H. unfold on_conn. destruct (ss_conns s !! id) as [c|]; auto. Qed.

Lemma tracked_Errors s e : tracked s -> tracked (Errors s e).
Proof. destruct (Errors_fields s e) as (E1 & E2 & _). by apply tracked_same. Qed.

Lemma tracked_Stop s closeErr : tracked s -> tracked (SS_Stop s closeErr).
Proof. destruct (Stop_fields s closeErr) as (E1 & E2 & _). by apply tracked_same. Qed.

Lemma tracked_accept s r closeErr : tracked s -> tracked (SS_accept s r closeErr).
Proof.
  intros H. unfold SS_accept. set (err := match r with AErr e => Some e | _ => None end).
  assert (tracked (checkAcceptError s err closeErr).1) as Hc.
  { unfold checkAcceptError. destruct err as [e|]; [|done]. destruct (bool_decide _); [by apply tracked_Stop|].
    destruct (_ || _); [|done]. destruct (ss_ctxDone s); [done|by apply tracked_Errors]. }
  destruct (checkAcceptError s err closeErr) as [s' ok]. cbn [fst] in Hc. destruct ok; cbn [negb].
  - destruct r as [e| |addr hs]; [done|done|]. apply map_Forall_insert_2; [|done]. by intros [?|?].
  - by apply (tracked_each closed (fun _ => false)).
Qed.

Lemma tracked_handshake s id c err : tracked s -> ss_conns s !! id = Some c -> tracked (serve_handshake s id c err).
Proof.
  intros H Hc. unfold serve_handshake. destruct err as [e|]; [|by eapply tracked_insert; [exact Hc|done|intros [?|?]|done]].
  destruct (Errors_fields s e) as (Et & Ec & _). rewrite <- Ec, <- Et. rewrite <- Ec in Hc.
  eapply tracked_insert; [exact Hc|done|by intros [?|?]|by apply tracked_Errors].
Qed.

Lemma tracked_serve_run s id c err : tracked s -> ss_conns s !! id = Some c -> serving c = true -> tracked (serve_run s id c err).
Proof.
  intros H Hc Hs. unfold serve_run.
  assert (forall s', ss_conns s' = ss_conns s -> tracked s' -> tracked (ss_with_conns s' (ss_table s') (<[id := with_stage (closed c) Ended]> (ss_conns s')) (ss_wg s'))) as Hk.
  { intros s' Ec Ht. eapply tracked_insert; [rewrite Ec; exact Hc|done|by left|done]. }
  destruct err as [e|]; apply Hk; [apply Errors_fields|by apply tracked_Errors|done|done].
Qed.

Lemma tracked_serving s id c st : tracked s -> ss_conns s !! id = Some c -> serving c = true ->
  tracked (ss_with_conns s (ss_table s) (<[id := with_stage c st]> (ss_conns s)) (ss_wg s)).
Proof. intros H Hc Hs. eapply tracked_insert; [exact Hc|done|by left|done]. Qed.

Lemma tracked_go s id c : apart s (EGo id) = true -> tracked s -> ss_conns s !! id = Some c -> tracked (serve_go s id c).
Proof.
  intros Hap H Hc. unfold serve_go. cbn in Hap. rewrite Hc in Hap. destruct (sc_stage c) eqn:Hs.
  - destruct (sc_handshake c); [destruct (ss_ctxDone s); [|done]|]; by apply tracked_handshake.
  - cbn in Hap. apply bool_decide_eq_true in Hap.
    unfold serve_store, Connections_Store. apply map_Forall_insert_2; cbn; [intros _; by rewrite lookup_insert_eq|].
    intros j d Hd Hi. rewrite lookup_insert_ne; [by apply (H j d)|]. intros E. by apply (Hap j d Hd Hi).
  - unfold serve_read. pose proof (serving_stage c ltac:(by left)). destruct (ss_ctxDone s), (sc_closed c); [by apply tracked_serve_run..|by apply tracked_serving].
  - destruct (sc_closed c); [|done]. apply tracked_serve_run; [done|done|]. apply serving_stage. by right.
  - unfold serve_delete, Connections_Delete. apply map_Forall_lookup. intros j d. cbn.
    rewrite lookup_insert_Some. intros [[<- <-]|[Hne Hd]] Hi; [by destruct Hi|]. pose proof (H j d Hd Hi) as Hj. rewrite lookup_delete_ne; [done|].
    intros E. rewrite <- E in Hj. pose proof (H id c Hc (or_intror Hs)) as Hid. congruence.
  - done.
Qed.

Lemma tracked_peer s id c p : tracked s -> ss_conns s !! id = Some c -> tracked (serve_peer s id c p).
Proof.
  intros H Hc. unfold serve_peer. destruct (sc_stage c) eqn:Hs; try done; destruct p as [err|err|err]; try done.
  - destruct (sc_handshake c); [|done]. by apply tracked_handshake.
  - pose proof (serving_stage c ltac:(by right)). destruct err; [by apply tracked_serve_run|by apply tracked_serving].
  - apply tracked_serve_run; [done|done|]. apply serving_stage. by right.
Qed.

Lemma tracked_step s e : apart s e = true -> tracked s -> tracked (s_step s e).
Proof.
  intros Hap H. destruct e as [cfgErr l|r closeErr|id|id p|id|now|closeErr|closeErr]; cbn [s_step].
  - destruct (ss_phase s); try done. unfold SS_Serve, checkAndSetListener. destruct cfgErr; [done|]. by destruct (ss_listen s).
  - destruct (ss_phase s); try done. by apply tracked_accept.
  - apply tracked_on; [|done]. intros c Hc. by apply tracked_go.
  - apply tracked_on; [|done]. intros c Hc. by apply tracked_peer.
  - apply tracked_on; [|done]. intros c Hc. by eapply tracked_insert; [exact Hc| | |].
  - destruct (ss_runner s); [|done]. cbn. by apply (tracked_each (fun c => checked c now) (sconn_done s) s).
  - by apply tracked_Stop.
  - destruct (ss_phase s); try done. unfold SS_return. destruct (_ =? _); [|done]. by apply tracked_Stop.
Qed.

Lemma tracked_run es s : apart_run s es = true -> tracked s -> tracked (s_run s es).
Proof.
  revert s. induction es as [|e es IH]; intros s Ha H; [done|]. cbn in Ha. apply andb_true_iff in Ha as [H1 H2]. apply IH; [done|]. by apply tracked_step.
Qed.

(** ** Nobody waits in a read once the loop is left *)

(** Leaving the loop closes what is in the table. *)
Lemma accept_closes s r closeErr id c :
  s_ok s -> tracked s -> ss_phase s = Serving -> ss_phase (SS_accept s r closeErr) = Closing ->
  ss_conns (SS_accept s r closeErr) !! id = Some c -> serving c = true -> sc_closed c = true.
Proof.
  intros Hok Ht Hp Hclose Hc Hs. unfold SS_accept in *. set (err := match r with AErr e => Some e | _ => None end) in *.
  assert (ss_phase (checkAcceptError s err closeErr).1 = Serving /\ ss_table (checkAcceptError s err closeErr).1 = ss_table s /\
          ss_conns (checkAcceptError s err closeErr).1 = ss_conns s) as (Ep & Et & Ec).
  { unfold checkAcceptError. destruct err as [e|]; [|done]. destruct (bool_decide _); [destruct (Stop_fields s closeErr) as (?&?&?&?&_); split_and!; cbn [fst]; congruence|].
    destruct (_ || _); [|done]. destruct (ss_ctxDone s); [done|]. destruct (Errors_fields s e) as (?&?&?&?&_); split_and!; cbn [fst]; congruence. }
  destruct (checkAcceptError s err closeErr) as [s1 ok]. cbn [fst] in *. destruct ok; cbn [negb] in *; [destruct r; cbn in Hclose; congruence|].
  cbn in Hc. rewrite Et, Ec, each_conn_lookup in Hc by (eapply names_NoDup; apply Hok). destruct (decide _) as [Hin|Hin].
  - destruct (ss_conns s !! id) as [d|]; [|done]. cbn in Hc. by injection Hc as <-.
  - destruct Hin. apply elem_of_copy. exists (sc_addr c). apply (Ht id c Hc). by left.
Qed.

Definition reads_end s : Prop := ss_phase s = Closing -> map_Forall (fun _ c => sc_stage c = Reading -> sc_closed c = true) (ss_conns s).

(** The steps of one goroutine keep the phase and the context, and the other connections. *)
Definition moves s id s' : Prop :=
  ss_phase s' = ss_phase s /\ ss_ctxDone s' = ss_ctxDone s /\ (forall j, j <> id -> ss_conns s' !! j = ss_conns s !! j).

Lemma moves_conn s id c' t wg : moves s id (ss_with_conns s t (<[id := c']> (ss_conns s)) wg).
Proof. split_and!; try done. intros j Hj. cbn. by rewrite lookup_insert_ne. Qed.

Lemma moves_Errors s id e c' t wg : moves s id (ss_with_conns (Errors s e) t (<[id := c']> (ss_conns s)) wg).
Proof. destruct (Errors_fields s e) as (_ & _ & _ & E1 & E2 & _). split_and!; cbn; try done. intros j Hj. by rewrite lookup_insert_ne. Qed.

Lemma moves_run s id c err : moves s id (serve_run s id c err) /\ ss_conns (serve_run s id c err) !! id = Some (with_stage (closed c) Ended).
Proof.
  unfold serve_run. destruct err as [e|]; [|split; [apply moves_conn|apply lookup_insert_eq]].
  destruct (Errors_fields s e) as (_ & Ec & _). cbn. rewrite Ec. split; [apply moves_Errors|apply lookup_insert_eq].
Qed.

(** How far a goroutine is from its end. *)
Definition left_over (st : stage) : nat := match st with Accepted => 4 | Created => 3 | Running | Reading => 2 | Ended => 1 | Gone => 0 end.

(** With the context done, a step by itself brings a goroutine nearer to its end. *)
Lemma go_moves s id c :
  ss_ctxDone s = true -> ss_conns s !! id = Some c -> (sc_stage c = Reading -> sc_closed c = true) ->
  moves s id (s_step s (EGo id)) /\
  exists c', ss_conns (s_step s (EGo id)) !! id = Some c' /\ sc_stage c' <> Reading /\ (left_over (sc_stage c') <= pred (left_over (sc_stage c)))%nat.
Proof.
  intros Hd Hc Hb. cbn [s_step]. unfold on_conn. rewrite Hc. unfold serve_go.
  assert (moves s id s) as Hsame by done. destruct (sc_stage c) eqn:Hs.
  - rewrite Hd. unfold serve_handshake. destruct (sc_handshake c); (split; [apply moves_Errors || apply moves_conn|]); (eexists; split; [apply lookup_insert_eq|]); cbn; split; done || lia.
  - split; [apply moves_conn|]. eexists. split; [apply lookup_insert_eq|]. cbn. split; [done|lia].
  - unfold serve_read. rewrite Hd. destruct (moves_run s id c (Some ErrContext)) as [Hm ->]. split; [done|].
    eexists. split; [done|]. cbn. split; [done|lia].
  - rewrite (Hb eq_refl). destruct (moves_run s id c (Some ErrNetClosed)) as [Hm ->]. split; [done|]. eexists. split; [done|]. cbn. split; [done|lia].
  - split; [apply moves_conn|]. eexists. split; [apply lookup_insert_eq|]. cbn. split; [done|lia].
  - split; [done|]. exists c. rewrite Hs. cbn. split; [done|]. split; [done|lia].
Qed.

Lemma all_gone_sum (conns : gmap nat sconn) : map_Forall (fun _ c => sc_stage c = Gone) conns -> table_sum live conns = 0.
Proof.
  intros H. rewrite table_sum_list. assert (Forall (fun kx => live kx.2 = 0) (map_to_list conns)) as Hf.
  { apply Forall_forall. intros [k x] Hx. apply elem_of_map_to_list in Hx. by apply live_gone, (H k). }
  induction Hf as [|x l Hx _ IH]; [done|]. cbn. by rewrite Hx, IH.
Qed.

Lemma sum_all_gone (conns : gmap nat sconn) : table_sum live conns = 0 -> map_Forall (fun _ c => sc_stage c = Gone) conns.
Proof.
  intros H id c Hc. pose proof (live_one conns id c Hc) as Hl. destruct (decide (sc_stage c = Gone)) as [|Hn]; [done|].
  rewrite (live_stage c Hn) in Hl. lia.
Qed.

(** [ETick] is a tick of a runner that has the function of [Serve] only. *)
Lemma runner_tick k i now s :
  ss_runner s = true ->
  let '(r, s') := Runner_tick [k] now (mkRunner {[k := SS_check]} i) s in
  s_step s (ETick now) = ss_with_phase s' (ss_phase s') (bool_decide (is_Some (rn_funcs r !! k))).
Proof.
  intros Hr. unfold Runner_tick. cbn [fold_left rn_funcs]. rewrite lookup_singleton_eq. cbn [s_step]. rewrite Hr. destruct (SS_check now s) as [s' []]; cbn.
  - by rewrite lookup_singleton_eq.
  - by rewrite lookup_delete_eq.
Qed.

Lemma peer_moves s id c p :
  ss_conns s !! id = Some c -> moves s id (serve_peer s id c p) /\
  exists c', ss_conns (serve_peer s id c p) !! id = Some c' /\ (sc_stage c' = Reading -> c' = c).
Proof.
  intros Hc. assert (moves s id s /\ exists c', ss_conns s !! id = Some c' /\ (sc_stage c' = Reading -> c' = c)) as Hsame by (split; [done|by exists c]).
  unfold serve_peer, serve_handshake, serve_processed. destruct (sc_stage c) eqn:Hs; try done; destruct p as [err|err|err]; try done.
  - destruct (sc_handshake c); [|done]. destruct err; (split; [apply moves_Errors || apply moves_conn|]); (eexists; split; [apply lookup_insert_eq|done]).
  - destruct err as [e|]; [destruct (moves_run s id c (Some e)) as [Hm ->]; split; [done|]; by eexists|].
    split; [apply moves_conn|]. eexists. split; [apply lookup_insert_eq|done].
  - destruct (moves_run s id c err) as [Hm ->]. split; [done|]. by eexists.
Qed.

Lemma reads_end_moves s id s' :
  moves s id s' -> (forall c', ss_phase s = Closing -> ss_conns s' !! id = Some c' -> sc_stage c' = Reading -> sc_closed c' = true) -> reads_end s -> reads_end s'.
Proof.
  intros (Ep & _ & Hj) Hid H Hp j c Hc. rewrite Ep in Hp. destruct (decide (j = id)) as [-> |Hne]; [by apply Hid|].
  rewrite Hj in Hc by done. by apply (H Hp j c).
Qed.

Lemma reads_end_step s e : s_ok s -> tracked s -> reads_end s -> reads_end (s_step s e).
Proof.
  intros Hok Ht H. destruct e as [cfgErr l|r closeErr|id|id p|id|now|closeErr|closeErr].
  - cbn [s_step]. destruct (ss_phase s) eqn:E; try done. unfold SS_Serve, checkAndSetListener. destruct cfgErr; [done|]. by destruct (ss_listen s).
  - cbn [s_step]. destruct (ss_phase s) eqn:E; try done. intros Hp id c Hc Hs. eapply accept_closes; [exact Hok|done..|]. apply serving_stage. by right.
  - destruct (ss_conns s !! id) as [c|] eqn:Hc; [|cbn; unfold on_conn; by rewrite Hc]. destruct (decide (ss_phase s = Closing)) as [Hp|Hp].
    + destruct (go_moves s id c (so_closing _ Hok Hp) Hc (H Hp id c Hc)) as (Hm & c' & Hc' & Hn & _).
      eapply reads_end_moves; [exact Hm| |done]. intros d _ Hd Hs. rewrite Hc' in Hd. by injection Hd as <-.
    + assert (ss_phase (s_step s (EGo id)) = ss_phase s) as E; [|intros Hq; by rewrite E in Hq]. cbn. unfold on_conn. rewrite Hc. unfold serve_go, serve_read, serve_handshake.
      destruct (sc_stage c); try done; [|destruct (ss_ctxDone s), (sc_closed c); (apply moves_run || done)|destruct (sc_closed c); [apply moves_run|done]].
      destruct (sc_handshake c); [|done]. destruct (ss_ctxDone s); [|done]. apply Errors_fields.
  - cbn [s_step]. unfold on_conn. destruct (ss_conns s !! id) as [c|] eqn:Hc; [|done]. destruct (peer_moves s id c p Hc) as (Hm & c' & Hc' & Hr).
    eapply reads_end_moves; [exact Hm| |done]. intros d Hp Hd Hs. rewrite Hc' in Hd. injection Hd as <-. specialize (Hr Hs). subst c'. by apply (H Hp id c).
  - cbn [s_step]. unfold on_conn. destruct (ss_conns s !! id) as [c|] eqn:Hc; [|done]. eapply reads_end_moves; [apply moves_conn| |done].
    intros d _ Hd _. cbn in Hd. rewrite lookup_insert_eq in Hd. by injection Hd as <-.
  - cbn [s_step]. destruct (ss_runner s); [|done]. intros Hp id c Hc. cbn in Hp, Hc. rewrite each_conn_lookup in Hc by (eapply names_NoDup; apply Hok).
    destruct (decide _); [|by apply (H Hp id c)]. destruct (ss_conns s !! id) as [d|] eqn:Hd; [|done]. cbn in Hc. injection Hc as <-.
    destruct (sconn_done s d); exact (H Hp id d Hd).
  - cbn [s_step]. destruct (Stop_fields s closeErr) as (_ & Ec & _ & Ep & _). unfold reads_end. by rewrite Ec, Ep.
  - cbn [s_step]. destruct (ss_phase s) eqn:E; try done. unfold SS_return. by destruct (_ =? _).
Qed.

Lemma reads_end_run es s : apart_run s es = true -> s_ok s -> tracked s -> reads_end s -> reads_end (s_run s es).
Proof.
  revert s. induction es as [|e es IH]; intros s Ha Hok Ht H; [done|]. cbn in Ha. apply andb_true_iff in Ha as [H1 H2].
  apply IH; [done|by apply s_ok_step|by apply tracked_step|by apply reads_end_step].
Qed.

(** ** Goroutines come to their end *)

Lemma s_run_app s es es' : s_run s (es ++ es') = s_run (s_run s es) es'.
Proof. apply fold_left_app. Qed.

Lemma moves_trans s1 s2 s3 id : moves s1 id s2 -> moves s2 id s3 -> moves s1 id s3.
Proof. intros (P1 & C1 & J1) (P2 & C2 & J2). split_and!; [congruence|congruence|]. intros j Hj. rewrite J2, J1 by done. done. Qed.

Lemma goroutine_ends n s id c :
  ss_ctxDone s = true -> ss_conns s !! id = Some c -> (sc_stage c = Reading -> sc_closed c = true) -> (left_over (sc_stage c) <= n)%nat ->
  moves s id (s_run s (replicate n (EGo id))) /\ exists c', ss_conns (s_run s (replicate n (EGo id))) !! id = Some c' /\ sc_stage c' = Gone.
Proof.
  revert s c. induction n as [|n IH]; intros s c Hd Hc Hb Hn.
  { split; [done|]. exists c. split; [done|]. destruct (sc_stage c); cbn in Hn; try done; lia. }
  destruct (go_moves s id c Hd Hc Hb) as (Hm & c1 & Hc1 & Hr & Hl). change (s_run s (replicate (S n) (EGo id))) with (s_run (s_step s (EGo id)) (replicate n (EGo id))).
  destruct (IH (s_step s (EGo id)) c1) as (Hm2 & Hg); [by destruct Hm as (_ & -> & _)|done|done|lia|]. split; [by eapply moves_trans|done].
Qed.

(** Every goroutine makes its steps. *)
Definition goroutines (ids : list nat) : list sevent := flat_map (fun id => replicate 4 (EGo id)) ids.

Lemma goroutines_end ids s :
  ss_ctxDone s = true -> map_Forall (fun _ c => sc_stage c = Reading -> sc_closed c = true) (ss_conns s) ->
  let s' := s_run s (goroutines ids) in
  ss_phase s' = ss_phase s /\ dom (ss_conns s') = dom (ss_conns s) /\
  forall id c, ss_conns s' !! id = Some c -> id ∈ ids \/ (exists c0, ss_conns s !! id = Some c0 /\ sc_stage c0 = Gone) -> sc_stage c = Gone.
Proof.
  revert s. induction ids as [|i ids IH]; intros s Hd Hb; cbv zeta.
  { split; [done|]. split; [done|]. intros id c Hc [?|(c0 & H0 & Hg)]; [set_solver|]. cbn in Hc. congruence. }
  cbn [goroutines flat_map]. rewrite s_run_app. set (s1 := s_run s (replicate 4 (EGo i))). fold (goroutines ids).
  destruct (ss_conns s !! i) as [c|] eqn:Hi.
  - destruct (goroutine_ends 4 s i c Hd Hi (Hb i c Hi) ltac:(destruct (sc_stage c); cbn; lia)) as ((Ep & Ed & Hj) & c' & Hc' & Hg). fold s1 in Ep, Ed, Hj, Hc'.
    destruct (IH s1) as (Hp & Hdm & Hall); [congruence| |].
    { intros j d Hjd. destruct (decide (j = i)) as [-> |Hne]; [rewrite Hc' in Hjd; injection Hjd as <-; congruence|]. rewrite Hj in Hjd by done. by apply (Hb j d). }
    split; [congruence|]. split.
    { rewrite Hdm. apply set_eq. intros j. rewrite !elem_of_dom. destruct (decide (j = i)) as [->|Hne]; [by rewrite Hc', Hi|by rewrite Hj]. }
    intros id d Hid Hin. apply (Hall id d Hid). destruct (decide (id = i)) as [->|Hne]; [right; by exists c'|].
    destruct Hin as [Hin|Hin]; [left; set_solver|right]. by rewrite Hj.
  - assert (s1 = s) as E1 by (subst s1; unfold s_run; cbn; unfold on_conn; by rewrite !Hi). rewrite E1. destruct (IH s Hd Hb) as (Hp & Hdm & Hall).
    split; [done|]. split; [done|].
    intros id d Hid [Hin|Hin]; [|by apply (Hall id d Hid); right]. apply (Hall id d Hid). destruct (decide (id = i)) as [->|]; [|left; set_solver].
    exfalso. apply not_elem_of_dom in Hi. apply Hi. rewrite <- Hdm. apply elem_of_dom. by exists d.
Qed.

(** ** Properties *)

(** What a goroutine does by itself. *)
Definition by_itself (e : sevent) : Prop := exists id, e = EGo id.

(** C9: the life of a TCP or DTLS server, in every interleaving of its loop, its
    goroutines, their peers, the periodic check, closed connections and calls of [Stop].  The
    wait group counts the goroutines that have not ended, and the table names connections
    that are being served only.  When the loop has been left the context of every connection
    is done; and while the addresses of the connections that are served at the same time
    differ, none waits for its peer in a read of an open socket, and [Serve] can return
    whatever the peers do: the goroutines come to their end by steps of their own.  When
    [Serve] has returned, all goroutines have ended, all connections are closed, the table is
    empty, the listener has been given up and the context is done. *)
Theorem stream_server_lifecycle done es (s := s_run (ss_start done) es) :
  ss_wg s = table_sum live (ss_conns s) /\
  (forall a id, ss_table s !! a = Some id -> exists c, ss_conns s !! id = Some c /\ sc_addr c = a /\ in_table c) /\
  (ss_phase s = Closing -> map_Forall (fun _ c => sconn_done s c = true) (ss_conns s)) /\
  (ss_phase s = Closing -> apart_run (ss_start done) es = true ->
     map_Forall (fun _ c => sc_stage c = Reading -> sc_closed c = true) (ss_conns s) /\
     exists es', Forall by_itself es' /\ ss_phase (s_run s (es' ++ [EReturn None])) = Returned) /\
  (ss_phase s = Returned -> ss_table s = ∅ /\ ss_listen s = None /\ ss_ctxDone s = true /\
     map_Forall (fun _ c => sc_stage c = Gone /\ sc_closed c = true) (ss_conns s)).
Proof.
  pose proof (s_ok_run es _ (s_ok_start done)) as Hok.
  assert (apart_run (ss_start done) es = true -> reads_end s) as Hub.
  { intros Ha. apply reads_end_run; [done|apply s_ok_start|apply map_Forall_empty|done]. }
  fold s in Hok. clearbody s. split_and!; [apply Hok|apply Hok| | |].
  - intros Hp id c _. unfold sconn_done. by rewrite (so_closing _ Hok Hp).
  - intros Hp Ha. specialize (Hub Ha Hp). split; [done|]. exists (goroutines (elements (dom (ss_conns s)))). split.
    { apply Forall_forall. intros e He. apply list_elem_of_In, in_flat_map in He as (id & _ & He). apply list_elem_of_In, elem_of_replicate in He as [-> _]. by exists id. }
    destruct (goroutines_end (elements (dom (ss_conns s))) s (so_closing _ Hok Hp) Hub) as (Hp' & Hd & Hall).
    rewrite s_run_app. pose proof (s_ok_run (goroutines (elements (dom (ss_conns s)))) s Hok) as Hok'.
    set (s' := s_run s _) in *. cbn. rewrite Hp', Hp. unfold SS_return. rewrite (so_wg _ Hok'), all_gone_sum; [done|].
    intros id c Hc. apply (Hall id c Hc). left. apply elem_of_elements. rewrite <- Hd. apply elem_of_dom. by exists c.
  - intros Hp. destruct (so_returned _ Hok Hp) as (Hz & Hc & Hl). rewrite (so_wg _ Hok) in Hz. apply sum_all_gone in Hz. split_and!; [|done|done|].
    + apply map_eq. intros a. rewrite lookup_empty. destruct (ss_table s !! a) as [id|] eqn:E; [|done].
      apply (so_names _ Hok) in E as (c & Hid & _ & [Hs|Hs]); specialize (Hz id c Hid); cbn in Hz; [unfold serving in Hs; by rewrite Hz in Hs|congruence].
    + intros id c Hid. split; [by apply (Hz id c)|]. apply (so_over _ Hok id c Hid). right. by apply (Hz id c).
Qed.

(** While the addresses of the connections that are served differ, the periodic check
    reaches each of them whose context is not done, once, and no other; and when the loop is
    left every connection that is being served is closed. *)
Theorem served_connections_checked done es (s := s_run (ss_start done) es) (Hapart : apart_run (ss_start done) es = true) :
  (forall now id c, ss_runner s = true -> ss_conns s !! id = Some c ->
     ss_conns (s_step s (ETick now)) !! id = Some (if serving c && negb (sconn_done s c) then checked c now else c)) /\
  (forall r closeErr id c, ss_phase s = Serving -> ss_phase (SS_accept s r closeErr) = Closing ->
     ss_conns (SS_accept s r closeErr) !! id = Some c -> serving c = true -> sc_closed c = true).
Proof.
  pose proof (s_ok_run es _ (s_ok_start done)) as Hok. pose proof (tracked_run es _ Hapart ltac:(apply map_Forall_empty)) as Ht. fold s in Hok, Ht. clearbody s.
  split.
  - intros now id c Hr Hc. cbn. rewrite Hr. cbn. rewrite each_conn_lookup by (eapply names_NoDup; apply Hok). rewrite Hc. cbn.
    destruct (decide _) as [Hin|Hin]; [apply elem_of_copy in Hin as [a Ha]; apply (so_names _ Hok) in Ha as (d & Hd & _ & Hi)|].
    + rewrite Hc in Hd. injection Hd as <-. destruct Hi as [Hs|Hs]; [rewrite Hs; cbn; by destruct (sconn_done s c)|].
      assert (sconn_done s c = true) as -> by (unfold sconn_done; rewrite (so_over _ Hok id c Hc (or_introl Hs)); apply orb_true_r).
      cbn. by rewrite andb_false_r.
    + destruct (serving c) eqn:Hs; [|done]. destruct Hin. apply elem_of_copy. exists (sc_addr c). apply (Ht id c Hc). by left.
  - intros r closeErr id c Hp Hclose Hc Hs. by eapply accept_closes.
Qed.

(** *** Examples *)
Module StreamSample.

(** Two peers, the second one with a handshake; the first one's connection ends. *)
Definition served : list sevent :=
  [EServe None 7; EAccept (AConn [1] false) None; EGo 0; EGo 0; EGo 0; EAccept (AConn [2] true) None; EPeer 1 (PHandshake None); EGo 1; EGo 1;
   EPeer 0 (PEnd (Some ErrEOF)); EGo 0; ETick 5].

Lemma served_connections_checked_witness :
  let s := s_run (ss_start false) served in
  ss_conns s !! 1%nat = Some (mkSconn [2] true Reading false [5]) /\
  ss_conns (s_step s (ETick 9)) !! 1%nat = Some (mkSconn [2] true Reading false [5; 9]).
Proof.
  split; [vm_compute; reflexivity|].
  rewrite (proj1 (served_connections_checked false served ltac:(vm_compute; reflexivity)) 9 1%nat (mkSconn [2] true Reading false [5])); vm_compute; reflexivity.
Defined.

(** Then the server is stopped: the second connection is closed, and its goroutine ends. *)
Example served_to_the_end :
  let s := s_run (ss_start false) (served ++ [EStop None; EAccept (AErr ErrContext) None]) in
  ss_phase s = Closing /\ ss_phase (s_run s [EReturn None]) = Closing /\ ss_phase (s_run s [EGo 1; EGo 1; EReturn None]) = Returned.
Proof. split_and!; vm_compute; reflexivity. Qed.
End StreamSample.

(** ** A connection that is not closed *)

(** The table is keyed by the remote address, and [Delete] takes away whatever has the
    address: when a peer connects again from the same address before the goroutine of its
    first connection has deleted it, the second connection is not in the table any more,
    while it is being served.  It is not checked for expirations. *)
Definition reconnected : list sevent :=
  [EServe None 7; EAccept (AConn [1] false) None; EGo 0; EGo 0; EGo 0; EPeer 0 (PEnd (Some ErrEOF));
   EAccept (AConn [1] false) None; EGo 1; EGo 1; EGo 1; EGo 0].

Theorem stale_delete_untracks :
  let s := s_run (ss_start false) reconnected in
  ss_phase s = Serving /\ ss_runner s = true /\ ss_conns s !! 1%nat = Some (mkSconn [1] false Reading false []) /\ ss_ctxDone s = false /\
  ss_table s = ∅ /\ forall now, ss_conns (s_step s (ETick now)) !! 1%nat = Some (mkSconn [1] false Reading false []).
Proof. cbv zeta. split_and!; vm_compute; reflexivity. Qed.

Definition touches (id : nat) (e : sevent) : Prop := match e with EPeer j _ | EClose j => j = id | _ => False end.

Definition stuck s id : Prop :=
  s_ok s /\ ss_phase s = Closing /\ exists c, ss_conns s !! id = Some c /\ sc_stage c = Reading /\ sc_closed c = false.

Lemma stuck_moves s s' id j : s_ok s' -> moves s j s' -> j <> id -> stuck s id -> stuck s' id.
Proof. intros Hok (Ep & _ & Hj) Hne (_ & Hp & c & Hc & Hs). split; [done|]. split; [congruence|]. exists c. by rewrite Hj. Qed.

Lemma reading_stuck_step s id e : ~ touches id e -> stuck s id -> stuck (s_step s e) id.
Proof.
  intros Ht Hst. pose proof Hst as (Hok & Hp & c & Hc & Hs & Hcl). pose proof (s_ok_step s e Hok) as Hok'.
  destruct e as [cfgErr l|r closeErr|j|j p|j|now|closeErr|closeErr]; cbn [s_step] in *.
  - by rewrite Hp in *.
  - by rewrite Hp in *.
  - destruct (decide (j = id)) as [-> |Hne].
    + unfold on_conn in *. rewrite Hc in *. unfold serve_go in *. by rewrite Hs, Hcl in *.
    + destruct (ss_conns s !! j) as [d|] eqn:Hd; [|unfold on_conn; by rewrite Hd].
      eapply (stuck_moves s _ id j); [done| |done|done]. unfold on_conn. rewrite Hd. unfold serve_go, serve_read, serve_handshake.
      destruct (sc_stage d); [destruct (sc_handshake d); [destruct (ss_ctxDone s)|]|..|]; try apply moves_conn; try apply moves_Errors; try done;
        [destruct (ss_ctxDone s), (sc_closed d)|destruct (sc_closed d)]; try apply moves_run; try apply moves_conn; done.
  - unfold on_conn in *. destruct (ss_conns s !! j) as [d|] eqn:Hd; [|done]. eapply (stuck_moves s _ id j); [done|by apply peer_moves|done|done].
  - unfold on_conn in *. destruct (ss_conns s !! j) as [d|] eqn:Hd; [|done]. eapply (stuck_moves s _ id j); [done|apply moves_conn|done|done].
  - destruct (ss_runner s); [|done]. split; [done|]. split; [done|]. cbn. rewrite each_conn_lookup by (eapply names_NoDup; apply Hok). rewrite Hc. cbn.
    destruct (decide _); [|by exists c]. destruct (sconn_done s c); [by exists c|]. eexists. split; [done|]. by split.
  - destruct (Stop_fields s closeErr) as (_ & Ec & _ & Ep & _). split; [done|]. rewrite Ep, Ec. split; [done|]. by exists c.
  - rewrite Hp in *. unfold SS_return in *. destruct (Z.eqb_spec (ss_wg s) 0) as [Hz|]; [|done]. rewrite (so_wg _ Hok) in Hz.
    pose proof (live_one _ _ _ Hc) as Hl. rewrite (live_stage c) in Hl by congruence. lia.
Qed.

(** Leaving the loop does not close it either: [Serve] does not return, whatever happens,
    until the peer sends something or ends the connection, or the application closes it. *)
Theorem stale_delete_hangs_Serve es' (Hes : Forall (fun e => ~ touches 1 e) es') :
  ss_phase (s_run (ss_start false) (reconnected ++ [EStop None; EAccept (AErr ErrContext) None] ++ es')) = Closing.
Proof.
  rewrite app_assoc, s_run_app. set (s := s_run (ss_start false) _).
  assert (stuck s 1) as Hst.
  { split; [apply s_ok_run, s_ok_start|]. split; [vm_compute; reflexivity|]. exists (mkSconn [1] false Reading false []). vm_compute. by split_and!. }
  clearbody s. assert (stuck (s_run s es') 1) as (_ & Hp & _); [|done]. revert s Hst. induction Hes as [|e es' He _ IH]; intros s Hst; [done|].
  apply IH. by apply reading_stuck_step.
Qed.
