(* ===== verification/Sessions.v ===== *)
(** * Sessions of datagrams (src/dtls/server/session.go, src/udp/server/session.go)

    A session reads datagrams from its connection and gives them to [Process]; a malformed
    datagram does not end it.  The UDP session of a client is in [UdpServer]; here is that of
    DTLS with its end, and what both promise.  The functions of [AddOnClose] are numbers. *)
From stdpp Require Import prelude list strings gmap.
From Stdlib Require Import ZArith Lia.
From S2P Require Import Prelude Cast Codes OptionCodec Options OptionsCodec Message PoolMessage TcpConn TcpStream.
From S2P Require Import Client UdpReliability UdpConn UdpDedup UdpServer ServedUdp.
#[local] Open Scope Z_scope.

(** ** The DTLS session *)

Section DtlsSession.
Context {CC : Type} `{!PeerConn CC}.

Record DSession : Type := mkDSession {
  ds_cc : CC;
  ds_canceled : bool;
  ds_closeSocket : bool;
  ds_socketClosed : bool;
  ds_onClose : list nat;
  ds_called : list nat;
  ds_done : bool;
  ds_sent : list (list byte)
}.
Implicit Types (s : DSession).

Definition DS_New (cc : CC) (closeSocket : bool) : DSession := mkDSession cc false closeSocket false [] [] false [].

Definition ds_with_cc s (cc : CC) : DSession :=
  mkDSession cc (ds_canceled s) (ds_closeSocket s) (ds_socketClosed s) (ds_onClose s) (ds_called s) (ds_done s) (ds_sent s).
Definition ds_write s (datagram : list byte) : DSession :=
  mkDSession (ds_cc s) (ds_canceled s) (ds_closeSocket s) (ds_socketClosed s) (ds_onClose s) (ds_called s) (ds_done s) (ds_sent s ++ [datagram]).

Definition DS_AddOnClose s (f : nat) : DSession :=
  mkDSession (ds_cc s) (ds_canceled s) (ds_closeSocket s) (ds_socketClosed s) (ds_onClose s ++ [f]) (ds_called s) (ds_done s) (ds_sent s).

Definition DS_popOnClose s : DSession * list nat :=
  (mkDSession (ds_cc s) (ds_canceled s) (ds_closeSocket s) (ds_socketClosed s) [] (ds_called s) (ds_done s) (ds_sent s), ds_onClose s).

(** [None] is the panic of a second [close(s.done)]. *)
Definition DS_shutdown s : option DSession :=
  let '(s, fs) := DS_popOnClose s in
  if ds_done s then None
  else Some (mkDSession (ds_cc s) (ds_canceled s) (ds_closeSocket s) (ds_socketClosed s) (ds_onClose s) (ds_called s ++ fs) true (ds_sent s)).

(** [closeErr] is what the socket yields. *)
Definition DS_Close s (closeErr : option error) : DSession * option error :=
  let s := mkDSession (ds_cc s) true (ds_closeSocket s) (ds_socketClosed s || ds_closeSocket s) (ds_onClose s) (ds_called s) (ds_done s) (ds_sent s) in
  (s, if ds_closeSocket s then closeErr else None).

Definition DS_rejectMalformedConfirmable s (e : MalformedMessageError) : DSession :=
  if InvalidVersion e || negb (HasHeader e) || negb (mf_Type e =? Confirmable) then s else
  match SafeCastTo KUint16 (mf_MessageID e) with
  | Some (mid, None) => ds_write s (112 :: 0 :: be_split 2 mid)
  | _ => s
  end.

(** The loop of [Run] over what [ReadWithContext] yields, each with its time. *)
Fixpoint DS_loop s (reads : list (result (list byte) * Z)) : DSession * option error :=
  match reads with
  | [] => (s, None)
  | (Err e, _) :: _ => (s, Some e)
  | (Ok readBuf, now) :: reads =>
      let '(cc, err) := pc_Process (ds_cc s) None readBuf now in
      let s := ds_with_cc s cc in
      match err with
      | None => DS_loop s reads
      | Some (PError e) => (s, Some e)
      | Some (PMalformed e) => DS_loop (DS_rejectMalformedConfirmable s e) reads
      end
  end.

(** [Run] with its deferred function; the error is [None] while it reads. *)
Definition DS_Run s (reads : list (result (list byte) * Z)) (closeErr : option error) : option (DSession * option error) :=
  let '(s, err) := DS_loop s reads in
  match err with
  | None => Some (s, None)
  | Some e => let '(s, _) := DS_Close s closeErr in (fun s => (s, Some e)) <$> DS_shutdown s
  end.
End DtlsSession.
Arguments DSession : clear implicits.

(** ** What is written for malformed datagrams *)

(** The datagram decodes as an empty reset. *)
Definition is_reset (datagram : list byte) : Prop :=
  exists mid, 0 <= mid <= 65535 /\
    forall m0, 0 <= mOptionsCap m0 -> Udp.Decode datagram m0 = (mkMessage None [] (mOptionsCap m0) Empty None mid Reset, (4, None)).

Lemma reset_bytes mid : 0 <= mid <= 65535 -> 112 :: 0 :: be_split 2 mid = Udp.bytes (mkMessage None [] 0 Empty None mid Reset).
Proof.
  intros H. unfold Udp.bytes, Udp.header. cbn [mMessageID mCode mOptions token payload mToken mPayload]. rewrite (CastTo_id KUint16) by (cbn; lia). by vm_compute.
Qed.

Lemma reset_is_reset mid : 0 <= mid <= 65535 -> is_reset (112 :: 0 :: be_split 2 mid).
Proof.
  intros H. exists mid. split; [done|]. intros m0 Hcap. rewrite reset_bytes by done. rewrite Decode_bytes; [done| |done].
  split; [split_and!; try done; constructor|]. cbn. split; [done|]. split; [by vm_compute|constructor].
Qed.

Lemma cast_uint16 v from : SafeCastTo KUint16 from = Some (v, None) -> 0 <= v <= 65535.
Proof.
  unfold SafeCastTo. cbn. destruct (_ && _); [done|]. destruct (_ && _); [done|]. intros [= <-].
  pose proof (CastTo_range KUint16 from). cbn in *. lia.
Qed.

Lemma makeResetDatagram_reset mid datagram : makeResetDatagram mid = Ok datagram -> is_reset datagram.
Proof.
  unfold makeResetDatagram. destruct (negb _); [done|]. destruct (SafeCastTo KUint16 mid) as [[v [e|]]|] eqn:E; [done| |done].
  intros [= <-]. apply reset_is_reset. by eapply cast_uint16.
Qed.

Section Survive.
Context {CC : Type} `{!PeerConn CC}.

Lemma DS_reject_sends (s : DSession CC) e :
  let s' := DS_rejectMalformedConfirmable s e in
  ds_cc s' = ds_cc s /\ (ds_sent s' = ds_sent s \/ exists datagram, ds_sent s' = ds_sent s ++ [datagram] /\ is_reset datagram).
Proof.
  cbv zeta. unfold DS_rejectMalformedConfirmable. destruct (_ || _); [auto|].
  destruct (SafeCastTo KUint16 (mf_MessageID e)) as [[v [e'|]]|] eqn:E; [auto| |auto]. split; [done|]. right. eexists. split; [done|].
  apply reset_is_reset. by eapply cast_uint16.
Qed.

Lemma reject_sends (s : Session (CC := CC)) cm e :
  let s' := rejectMalformedConfirmable s cm e in
  ss_cc s' = ss_cc s /\ (ss_sent s' = ss_sent s \/ exists datagram, ss_sent s' = ss_sent s ++ [datagram] /\ is_reset datagram.1).
Proof.
  cbv zeta. unfold rejectMalformedConfirmable. destruct (InvalidVersion e); [auto|]. destruct (_ || _); [auto|].
  destruct (makeResetDatagram (mf_MessageID e)) as [rst|e'] eqn:E; [|auto]. split; [done|]. right. eexists. split; [done|]. by eapply makeResetDatagram_reset.
Qed.

(** Resets that follow one another, at most one for each datagram. *)
Lemma resets_cons {A} (good : A -> Prop) (log log1 log2 : list A) n :
  (log1 = log \/ exists d, log1 = log ++ [d] /\ good d) -> (exists l, log2 = log1 ++ l /\ Forall good l /\ (length l <= n)%nat) ->
  exists l, log2 = log ++ l /\ Forall good l /\ (length l <= S n)%nat.
Proof.
  intros [->|(d & -> & Hd)] (l & -> & Hl & Hn); [exists l; split_and!; [done|done|lia]|].
  exists (d :: l). rewrite <- (assoc (++)). split_and!; [done|by constructor|cbn; lia].
Qed.

(** What reaches the connection: a datagram with its control message and its time. *)
Abbreviation input := (option ControlMessage * list byte * Z)%type.

(** The connection after the datagrams [l]. *)
Definition fed (cc : CC) (l : list input) : CC := fold_left (fun cc '(cm, data, now) => (pc_Process cc cm data now).1) l cc.

(** [Process] refuses none of the datagrams, unless as malformed. *)
Fixpoint accepts (cc : CC) (l : list input) : Prop :=
  match l with
  | [] => True
  | (cm, data, now) :: l => (forall e, (pc_Process cc cm data now).2 <> Some (PError e)) /\ accepts (pc_Process cc cm data now).1 l
  end.

Definition dtls_inputs (datagrams : list (list byte * Z)) : list input := (fun '(data, now) => (None, data, now)) <$> datagrams.

(** In UDP a datagram above the MTU or the largest message is left out. *)
Definition udp_inputs (limit : Z) (packets : list (incomingDatagram * Z)) : list input :=
  (fun '(p, now) => (d_cm p, d_buf p, now)) <$> filter (fun pn => zlen (d_buf pn.1) <= limit) packets.

Lemma DS_loop_survives datagrams (s : DSession CC) :
  accepts (ds_cc s) (dtls_inputs datagrams) ->
  let '(s', err) := DS_loop s ((fun '(data, now) => (Ok data, now)) <$> datagrams) in
  err = None /\ ds_cc s' = fed (ds_cc s) (dtls_inputs datagrams) /\
  exists l, ds_sent s' = ds_sent s ++ l /\ Forall is_reset l /\ (length l <= length datagrams)%nat.
Proof.
  revert s. induction datagrams as [|[data now] datagrams IH]; intros s; cbn.
  { intros _. split_and!; [done|done|]. exists []. by rewrite app_nil_r. }
  intros [Hp Hacc]. destruct (pc_Process (ds_cc s) None data now) as [cc [[e|e]|]]; cbn in Hp, Hacc; [by destruct (Hp e)| |].
  - destruct (DS_reject_sends (ds_with_cc s cc) e) as [Hc Hs]. specialize (IH (DS_rejectMalformedConfirmable (ds_with_cc s cc) e)).
    destruct (DS_loop _ _) as [s' err]. rewrite Hc in IH. destruct (IH Hacc) as (-> & -> & Hl). split_and!; [done|done|]. eapply resets_cons; [exact Hs|exact Hl].
  - specialize (IH (ds_with_cc s cc)). destruct (DS_loop _ _) as [s' err]. destruct (IH Hacc) as (-> & -> & Hl). split_and!; [done|done|].
    eapply resets_cons; [by left|exact Hl].
Qed.

Lemma Session_Run_survives mtu maxMessageSize packets (s : Session (CC := CC)) :
  accepts (ss_cc s) (udp_inputs (Z.min mtu maxMessageSize) packets) ->
  let '(s', err) := Session_Run mtu maxMessageSize s ((fun '(p, now) => RDatagram p now) <$> packets) in
  err = None /\ ss_cc s' = fed (ss_cc s) (udp_inputs (Z.min mtu maxMessageSize) packets) /\
  exists l, ss_sent s' = ss_sent s ++ l /\ Forall (fun d => is_reset d.1) l /\ (length l <= length packets)%nat.
Proof.
  revert s. induction packets as [|[p now] packets IH]; intros s.
  { cbn. intros _. split_and!; [done|done|]. exists []. by rewrite app_nil_r. }
  cbn [fmap list_fmap Session_Run]. unfold udp_inputs in *. rewrite filter_cons. cbn [fst].
  assert (forall s1 : Session (CC := CC), ss_sent s1 = ss_sent s -> ss_cc s1 = ss_cc s ->
    accepts (ss_cc s) (udp_inputs (Z.min mtu maxMessageSize) packets) ->
    let '(s', err) := Session_Run mtu maxMessageSize s1 ((fun '(p, now) => RDatagram p now) <$> packets) in
    err = None /\ ss_cc s' = fed (ss_cc s) (udp_inputs (Z.min mtu maxMessageSize) packets) /\
    exists l, ss_sent s' = ss_sent s ++ l /\ Forall (fun d => is_reset d.1) l /\ (length l <= S (length packets))%nat) as Hskip.
  { intros s1 E1 E2 Hacc. specialize (IH s1). destruct (Session_Run _ _ _ _) as [s' err]. rewrite E1, E2 in IH.
    destruct (IH Hacc) as (-> & -> & Hl). split_and!; [done|done|]. eapply (resets_cons _ _ (ss_sent s)); [by left|exact Hl]. }
  unfold udp_inputs in Hskip.
  destruct (Z.ltb_spec mtu (zlen (d_buf p))) as [H1|H1]; [rewrite decide_False by lia; by apply Hskip|].
  destruct (Z.ltb_spec maxMessageSize (zlen (d_buf p))) as [H2|H2]; [rewrite decide_False by lia; by apply Hskip|].
  clear Hskip. rewrite decide_True by lia. cbn [fmap list_fmap accepts]. intros [Hp Hacc].
  unfold fed in *. cbn [fold_left].
  destruct (pc_Process (ss_cc s) (d_cm p) (d_buf p) now) as [cc [[e|e]|]]; cbn [fst snd] in Hp, Hacc |- *; [by destruct (Hp e)| |].
  - destruct (reject_sends (mkSession cc (ss_errors s) (ss_sent s)) (d_cm p) e) as [Hc Hs]. specialize (IH (rejectMalformedConfirmable (mkSession cc (ss_errors s) (ss_sent s)) (d_cm p) e)).
    destruct (Session_Run _ _ _ _) as [s' err]. rewrite Hc in IH. destruct (IH Hacc) as (-> & -> & Hl). split_and!; [done|done|]. eapply resets_cons; [exact Hs|exact Hl].
  - specialize (IH (mkSession cc (ss_errors s) (ss_sent s))). destruct (Session_Run _ _ _ _) as [s' err]. destruct (IH Hacc) as (-> & -> & Hl). split_and!; [done|done|].
    eapply resets_cons; [by left|exact Hl].
Qed.

Lemma DS_loop_ends datagrams (s : DSession CC) e now :
  accepts (ds_cc s) (dtls_inputs datagrams) ->
  exists s', DS_loop s (((fun '(data, now) => (Ok data, now)) <$> datagrams) ++ [(Err e, now)]) = (s', Some e) /\
    ds_called s' = ds_called s /\ ds_onClose s' = ds_onClose s /\ ds_closeSocket s' = ds_closeSocket s /\ ds_done s' = ds_done s /\
    ds_socketClosed s' = ds_socketClosed s.
Proof.
  revert s. induction datagrams as [|[data t] datagrams IH]; intros s; cbn; [by exists s|].
  intros [Hp Hacc]. destruct (pc_Process (ds_cc s) None data t) as [cc [[e'|e']|]]; cbn in Hp, Hacc; [by destruct (Hp e')| |].
  - destruct (DS_reject_sends (ds_with_cc s cc) e') as [Hc _].
    destruct (IH (DS_rejectMalformedConfirmable (ds_with_cc s cc) e')) as (s' & -> & E); [by rewrite Hc|]. exists s'. split; [done|]. revert E.
    unfold DS_rejectMalformedConfirmable. destruct (_ || _); [done|]. by destruct (SafeCastTo _ _) as [[v [|]]|].
  - by apply (IH (ds_with_cc s cc)).
Qed.
End Survive.

(** ** Why [Process] fails *)

Section Accepts.
Context {Ctx B Q : Type} `{!ReadSeeker B} `{!ReadSeekerLaws B}.
Abbreviation M := (Msg Ctx ControlMessage B).
Abbreviation UState := (UState (Ctx := Ctx) (B := B) (Q := Q)).
Abbreviation HandlerFunc := (UState -> Writer (Ctx := Ctx) (CM := ControlMessage) (B := B) -> nat * M ->
  UState * Writer (Ctx := Ctx) (CM := ControlMessage) (B := B) * (nat * M)).
Context (growcap : Z -> Z) (supply : nat -> M) (cfg : UConfig) (requestMonitor : M -> bool * option error).
Context (hooks : QHooks (Ctx := Ctx) (B := B) (Q := Q)).
Context (observation_Handle : HandlerFunc) (blockWise_Handle : option (Z -> HandlerFunc -> HandlerFunc)).
Context (nextAcknowledgeTimeout : nat -> Z) (discoveryETag : list byte) (copyFuel : nat).
Context (newConn : UDPAddr -> UState) (OnNewConn : UState -> UState).
Context (Hfresh : forall n, fresh (supply n)).
Implicit Types (s : UState) (req : nat * M).

(** What the decoder yields is well-formed. *)
Lemma decode_udp_wf fuel (r r' : M) n :
  bytes_ok (s_data (bufferUnmarshal r)) -> 0 <= mOptionsCap (msg r) -> decode fuel UdpCoder r = Some (r', (n, None)) -> wf_udp (msg r').
Proof.
  revert r. induction fuel as [|fuel IH]; intros r Hb Hc; [done|]. cbn [decode].
  destruct (c_Decode UdpCoder (s_data (bufferUnmarshal r)) (msg r)) as [m [k err]] eqn:ED. case_bool_decide as Ee.
  - intros Hd. apply IH in Hd; [done|done|]. cbn. pose proof (zlen_nonneg (mOptions m)). lia.
  - intros [= <- <- ->]. by apply Decode_wf in ED as (Hwf & _).
Qed.

Lemma unmarshal_udp (r : M) data :
  fresh r -> bytes_ok data ->
  exists r' n err, UnmarshalWithDecoder growcap (S (length data)) UdpCoder r data = Some (r', (n, err)) /\ (err = None -> wf_udp (msg r')).
Proof.
  intros (Ho & Hp & Hbody & Hcap & Hm & Hh) Hb.
  destruct (Msg_decode_terminates growcap UdpCoder r data Hb Hcap) as (r' & n & err & E & _);
    [rewrite Ho; change (zlen (@nil Option)) with 0; lia|].
  exists r', n, err. split; [done|]. intros ->. revert E. unfold UnmarshalWithDecoder. set (bu := Slice_to _ _).
  assert (s_data bu = data) as Hbu by apply unmarshal_buffer.
  destruct (decode _ _ _) as [[r1 [n1 [e|]]]|] eqn:ED; [done| |done]. intros [= <- <-].
  apply decode_udp_wf in ED; cbn [bufferUnmarshal with_buffers msg with_body] in *; rewrite ?Hbu; try done; [|lia].
  by destruct (0 <? _).
Qed.

(** The answer to unknown critical options can be encoded and is written. *)
Lemma unknown_answered s (r : M) unknown :
  wf_udp (msg r) -> n_script (u_net s) = [] ->
  exists s', respondUnknownCriticalOptions_udp growcap supply s r unknown = Some (s', None).
Proof.
  intros ((_ & Htok & _) & Hmid & _) Hsc. unfold respondUnknownCriticalOptions_udp. cbn [UAcquire].
  destruct (Hfresh (n_acquired (u_net s))) as (Ho & Hp & Hb & Hcap & _). set (f := supply _) in *.
  unfold Msg_SetContentFormat.
  destruct (SetOptionUint32_ok (SetMessageID (SetType (SetToken (SetCode f BadOption) (Msg_Token r)) Acknowledgement) (mMessageID (msg r))) ContentFormat TextPlain)
    as [buf ->]; [by vm_compute|]. cbn [mbind option_bind].
  set (m := SetBody _ _). set (s0 := setControlInformation _ _). destruct (upsert_wire s0 m) as [Um Ub].
  destruct (session_sends growcap s0 (upsertControlInformation s0 m)) as (s' & m' & -> & _); [| | |by eexists].
  - apply (body_ok_same m); [done|]. cbn. pose proof (zlen_nonneg (string_bytes (FormatUnknownCriticalOptionsDiagnostic unknown))). lia.
  - rewrite (wire_same m) by done. unfold m, wire. cbn. unfold opts_of. cbn. rewrite Ho. unfold wf_udp, wf_message. cbn.
    assert (token (mkMessage (match Msg_Token r, mToken (msg f) with Some [], None => None | _, _ => Msg_Token r end) [] 0 0 None 0 0) = token (msg r)) as Et.
    { unfold token, Msg_Token. cbn. by destruct (mToken (msg r)) as [[|]|], (mToken (msg f)). }
    unfold token in Et, Htok |- *. cbn in *. rewrite Et.
    change (Options_Set [] (mkOption ContentFormat [])) with [mkOption ContentFormat []].
    split_and!; try done; try lia; repeat constructor; by vm_compute.
  - unfold s0, setControlInformation. destruct (controlMessage r) as [c|]; [|done]. by destruct (Dst c) as [[|]|].
Qed.

(** A message that is not Confirmable is written without a wait. *)
Lemma write_returns s (m : M) dl now :
  ValidateType (mType (msg m)) = true -> mType (msg m) <> Confirmable ->
  exists s' m' err, writeMessageAsync growcap supply cfg hooks nextAcknowledgeTimeout copyFuel s m dl now = Some (s', m', err).
Proof.
  intros Hv Ht. unfold writeMessageAsync, with_ids. cbn [GetMessageID]. unfold UpsertType. rewrite Hv.
  set (m1 := UpsertMessageID m _). assert (mType (msg m1) = mType (msg m)) as E1 by (unfold m1, UpsertMessageID; by destruct (ValidateMID _)).
  destruct (rememberQNotification _ _ _ _) as [q [e|]]; [eauto|]. unfold prepareWriteMessage. rewrite E1.
  destruct (Z.eqb_spec (mType (msg m)) Confirmable); [done|]. cbn [negb mbind option_bind].
  destruct (USession_WriteMessage _ _ _) as [[s' m'] err]. eauto.
Qed.

(** A ping is answered with a Reset. *)
Lemma ping_answered s req now :
  Message_IsPing (msg req.2) false = true ->
  exists s' u, ProcessReceivedMessageWithHandler_udp growcap supply cfg hooks nextAcknowledgeTimeout copyFuel s req
    (fun s w r => Some (handlePong s w r, tt)) now = Some (s', u).
Proof.
  intros Hp. assert (mType (msg req.2) = Confirmable /\ mOptions (msg req.2) = []) as [Ht Ho].
  { unfold Message_IsPing in Hp. repeat (apply andb_true_iff in Hp as [Hp ?]). split; [lia|]. apply zlen_0_nil. lia. }
  unfold ProcessReceivedMessageWithHandler_udp. cbn [UAcquire]. unfold handlePong, sendPong_udp. rewrite Ht. change (Confirmable =? Confirmable) with true.
  destruct (SetResponse_empty _ _) as [w err]. cbn [mbind option_bind]. cbv iota beta zeta.
  match goal with |- context [if n_done ?n then _ else _] => destruct (n_done n); [eauto|] end. cbn [set_w w_message snd].
  change (isModified (SetMessageID ?m ?i)) with true. cbn [negb]. unfold has_q. rewrite Ho.
  change (HasOption [] QBlock1 || HasOption [] QBlock2) with false. cbv iota.
  match goal with |- context [writeMessageAsync _ _ _ _ _ _ ?s0 (upsertControlInformation ?s1 ?m0) _ _] =>
    destruct (upsert_wire s1 m0) as [Um _]; destruct (write_returns s0 (upsertControlInformation s1 m0) None now) as (s2 & m2 & errW & ->) end;
    [by rewrite Um|by rewrite Um|]. cbn [mbind option_bind]. destruct errW; eauto.
Qed.

Lemma special_returns s req now :
  exists s' b, handleSpecialMessages growcap supply cfg hooks nextAcknowledgeTimeout copyFuel s req now = Some (s', b).
Proof.
  unfold handleSpecialMessages. destruct (Message_IsPing _ _) eqn:Ep.
  - match goal with |- context [ProcessReceivedMessageWithHandler_udp _ _ _ _ _ _ ?s0 _ _ _] =>
      destruct (ping_answered s0 req now Ep) as (s' & u & ->) end. cbn [mbind option_bind]. eauto.
  - destruct (LoadAndDelete_mid _ _) as [t [a|]]; eauto.
Qed.

Context (Hmonitor : forall m, (requestMonitor m).2 = None).

(** [Process] returns, and with no other error than that of a malformed datagram, when
    the datagram is not above the largest message and the socket takes what is written. *)
Lemma Process_accepts s cm data now sent_to_queue :
  bytes_ok data -> zlen data <= c_maxMessageSize cfg -> n_script (u_net s) = [] ->
  exists s' err, Process growcap supply cfg requestMonitor hooks nextAcknowledgeTimeout copyFuel s cm data now sent_to_queue = Some (s', err) /\
    forall e, err <> Some (PError e).
Proof.
  intros Hb Hmax Hsc. unfold Process.
  assert (CastTo KUint32 (zlen data) <= zlen data) as Hcast.
  { change (CastTo KUint32 (zlen data)) with (zlen data mod 2 ^ 32). apply Z.mod_le; [apply zlen_nonneg|lia]. }
  destruct (Z.ltb_spec (c_maxMessageSize cfg) (CastTo KUint32 (zlen data))); [lia|]. cbn [UAcquire].
  destruct (unmarshal_udp (supply (n_acquired (u_net s))) data (Hfresh _) Hb) as (r & n & err & -> & Hwf).
  destruct err as [e|]; [by eexists _, _|]. specialize (Hwf eq_refl). cbn [USequence].
  destruct (isQMulticastRequest _ _); [by eexists _, _|].
  set (req := SetSequence _ _). assert (wf_udp (msg req)) as Hreq by exact Hwf. set (s0 := with_layer _ _).
  assert (n_script (u_net s0) = []) as Hs0 by exact Hsc.
  assert (exists s' h, processUnknownCriticalOptions growcap supply hooks s0 (n_acquired (u_net s), req) = Some (s', (h, None))) as (s' & h & ->).
  { unfold processUnknownCriticalOptions. destruct (_ || _); [eauto|]. destruct (GetUnknownCriticalOptionsWithQBlock _ _) as [|o unknown]; [eauto|].
    cbn [snd]. destruct (_ =? _); [|cbn [mbind option_bind]; eauto].
    destruct (unknown_answered s0 req (o :: unknown) Hreq Hs0) as [s' ->]. cbn [mbind option_bind]. eauto. }
  destruct h; [by eexists _, _|]. unfold Process_checked. cbn [snd]. pose proof (Hmonitor req) as Hm.
  destruct (requestMonitor req) as [drop e]. cbn in Hm. subst e. destruct drop; [by eexists _, _|].
  match goal with |- context [handleSpecialMessages _ _ _ _ _ _ ?s1 ?r1 _] => destruct (special_returns s1 r1 now) as (s2 & b & ->) end.
  destruct b; [by eexists _, _|].
  match goal with |- context [if ?c then addPendingMessage ?a ?b ?d ?e ?f else ?g] => destruct (if c then addPendingMessage a b d e f else g) as [l [dup [err|]]] end;
    [by eexists _, _|].
  destruct dup; [by eexists _, _|]. destruct (_ && _); by eexists _, _.
Qed.


(** The sessions run on the connections of [UdpConn]. *)
#[local] Instance session_conn : PeerConn UState :=
  served_conn growcap supply cfg requestMonitor hooks observation_Handle blockWise_Handle nextAcknowledgeTimeout discoveryETag copyFuel newConn OnNewConn.

(** No write fails while the datagrams are processed. *)
Fixpoint writable (s : UState) (l : list (option ControlMessage * list byte * Z)) : Prop :=
  match l with
  | [] => True
  | (cm, data, now) :: l => n_script (u_net s) = [] /\ writable (pc_Process s cm data now).1 l
  end.

Lemma writable_accepts l s :
  Forall (fun x => bytes_ok x.1.2 /\ zlen x.1.2 <= c_maxMessageSize cfg) l -> writable s l -> accepts s l.
Proof.
  revert s. induction l as [|[[cm data] now] l IH]; intros s Hl; [done|]. apply Forall_cons in Hl as [[Hb Hmax] Hl]. intros [Hsc Hw].
  split; [|by apply IH]. cbn [pc_Process session_conn served_conn]. unfold served_Process.
  destruct (Process_accepts s cm data now true Hb Hmax Hsc) as (s' & err & -> & He). exact He.
Qed.

(** C10: a peer cannot end a session with the datagrams it sends.  A DTLS or a UDP session
    whose connection is that of [UdpConn], with whatever handlers, reads any datagrams,
    valid or not: it goes on, its connection is given all of them in order (in UDP those
    that fit the MTU and the largest message), and what the session itself writes are
    empty resets, at most one for each datagram.  When the read of a DTLS session fails,
    [Run] returns with that error, the context is done and the socket closed, and each
    function of [AddOnClose] has been called once, in the order of their registration.
    Assumed: the request monitor returns no error; the socket takes what the connection
    writes ([writable]; a failed write of the answer to unknown critical options ends a
    session); the messages of the pool are fresh; DTLS records are not above the largest
    message (such a datagram ends the session). *)
Theorem sessions_survive mtu (ds : DSession UState) (us : Session (CC := UState)) datagrams packets e now closeErr
    (Hdone : ds_done ds = false) (Hsocket : ds_closeSocket ds = true)
    (Hdata : Forall (fun d => bytes_ok d.1 /\ zlen d.1 <= c_maxMessageSize cfg) datagrams)
    (Hpackets : Forall (fun p => bytes_ok (d_buf p.1)) packets)
    (Hdtls : writable (ds_cc ds) (dtls_inputs datagrams))
    (Hudp : writable (ss_cc us) (udp_inputs (Z.min mtu (c_maxMessageSize cfg)) packets)) :
  (let '(s, err) := DS_loop ds ((fun '(data, now) => (Ok data, now)) <$> datagrams) in
   err = None /\ ds_cc s = fed (ds_cc ds) (dtls_inputs datagrams) /\
   exists l, ds_sent s = ds_sent ds ++ l /\ Forall is_reset l /\ (length l <= length datagrams)%nat) /\
  (let '(s, err) := Session_Run mtu (c_maxMessageSize cfg) us ((fun '(p, now) => RDatagram p now) <$> packets) in
   err = None /\ ss_cc s = fed (ss_cc us) (udp_inputs (Z.min mtu (c_maxMessageSize cfg)) packets) /\
   exists l, ss_sent s = ss_sent us ++ l /\ Forall (fun d => is_reset d.1) l /\ (length l <= length packets)%nat) /\
  exists s : DSession UState, DS_Run ds (((fun '(data, now) => (Ok data, now)) <$> datagrams) ++ [(Err e, now)]) closeErr = Some (s, Some e) /\
    ds_canceled s = true /\ ds_socketClosed s = true /\ ds_called s = ds_called ds ++ ds_onClose ds /\ ds_onClose s = [] /\ ds_done s = true.
Proof.
  assert (accepts (ds_cc ds) (dtls_inputs datagrams)) as Hds.
  { apply writable_accepts; [|done]. apply Forall_fmap. eapply Forall_impl; [exact Hdata|]. by intros [? ?]. }
  split_and!; [by apply DS_loop_survives| |].
  - apply Session_Run_survives, writable_accepts; [|done]. apply Forall_fmap, Forall_forall.
    intros [p t] [Hlim Hin]%list_elem_of_filter. rewrite Forall_forall in Hpackets. specialize (Hpackets _ Hin). cbn in *. split; [done|lia].
  - unfold DS_Run. destruct (DS_loop_ends datagrams ds e now Hds) as (s & -> & E1 & E2 & E3 & E4 & E5). unfold DS_shutdown, DS_Close. cbn. rewrite E4, Hdone.
    eexists. split; [done|]. cbn. rewrite E1, E2, E3, Hsocket. split_and!; try done. apply orb_true_r.
Qed.
End Accepts.

(** *** An example *)
Module SessionSample.
Import UdpDedup.Sample ServedSample.

Definition session : DSession SState := DS_AddOnClose (DS_AddOnClose (DS_New state true) 4) 2.
Definition udp_session : Session (CC := SState) := mkSession state [] [].

(** A token length of nine in a Confirmable message with the ID 300, then a request. *)
Definition datagrams : list (list byte * Z) := [([73; 1; 1; 44], 1); (question, 2)].

#[local] Instance answers : PeerConn SState := session_conn (fun n => n) supply cfg (fun _ => (false, None)) hooks answer None (fun _ => 2) [] 10 fresh_conn id.

Lemma datagrams_ok : Forall (fun d => bytes_ok d.1 /\ zlen d.1 <= c_maxMessageSize cfg) datagrams.
Proof. repeat constructor; vm_compute; congruence. Qed.

Lemma datagrams_written :
  writable (fun n => n) supply cfg (fun _ => (false, None)) hooks answer None (fun _ => 2) [] 10 fresh_conn id state (dtls_inputs datagrams).
Proof. vm_compute. split_and!; reflexivity || exact I. Qed.

Lemma sessions_survive_witness :
  exists s, DS_Run session [(Ok [73; 1; 1; 44], 1); (Ok question, 2); (Err ErrEOF, 3)] None = Some (s, Some ErrEOF) /\
    n_sent (u_net (ds_cc s)) = [Udp.bytes reply] /\ ds_sent s = [[112; 0; 1; 44]] /\ ds_called s = [4; 2]%nat.
Proof.
  destruct (sessions_survive (fun n => n) supply cfg (fun _ => (false, None)) hooks answer None (fun _ => 2) [] 10 fresh_conn id
    (fun _ => NewMessage_fresh None) (fun _ => eq_refl) 1152 session udp_session datagrams [] ErrEOF 3 None) as (_ & _ & s & E & _ & _ & Hc & _);
    [reflexivity|reflexivity|exact datagrams_ok|constructor|exact datagrams_written|exact I|].
  exists s. split; [exact E|]. split; [|split; [|exact Hc]]; revert E; vm_compute; intros [= <-]; reflexivity.
Defined.
End SessionSample.
