(* ===== verification/UdpSocket.v ===== *)
(** * Datagram sockets (src/net/connUDP.go, src/net/options.go)

    The operations of a socket of the operating system are the interface [PacketSocket];
    what the package makes of them is here: the choice of the address family, control
    messages, multicast over all interfaces and source addresses, and reads and writes
    with options.  The addresses of an interface are texts, as [net.Addr] gives them;
    [ParseIP] is [net.ParseIP].  A panic is [None]. *)
From stdpp Require Import prelude list strings gmap.
From Stdlib Require Import ZArith Lia.
From S2P Require Import TcpConn KeepAlive Prelude Cast Codes OptionCodec Options Message PoolMessage BlockCodec Assembly UdpConn UdpServer.
#[local] Open Scope Z_scope.

Definition ErrConnectionIsClosed : error := ErrEOF.
Definition ErrWriteInterrupted : error := ErrOther "only part data was written to socket".
Definition errInvalidRaddr : error := ErrOther "invalid raddr".
Definition errInvalidInterface : error := ErrOther "invalid interface".
Definition errInvalidDestination : error := ErrOther "invalid destination address".
Definition errInvalidSource : error := ErrOther "invalid source address".
Definition errInvalidSrcAddr : error := ErrOther "invalid srcAddr type".
Definition errSeveral : error := ErrOther "several errors".

(** ** What the operating system offers *)

(** [net.Interface]; the flags are those of package net. *)
Record Interface : Type := mkInterface { if_Index : Z; if_Name : list byte; if_Flags : Z }.
Definition FlagUp : Z := 1.
Definition FlagMulticast : Z := 16.

#[export] Instance Interface_eq : EqDecision Interface.
Proof. solve_decision. Defined.
#[export] Instance ControlMessage_eq : EqDecision ControlMessage.
Proof. solve_decision. Defined.

(** The flag says that the calls go through the package ipv6.  [pk_control] turns the
    control messages on; [pk_WriteMsg] takes the marshalled control message. *)
Class PacketSocket (K : Type) : Type := {
  pk_control : K -> bool -> K * option error;
  pk_SetMulticastInterface : K -> bool -> Interface -> K * option error;
  pk_SetMulticastHopLimit : K -> bool -> Z -> K * option error;
  pk_WriteTo : K -> bool -> list byte -> option ControlMessage -> UDPAddr -> K * result Z;
  pk_WriteMsg : K -> list byte -> option (bool * ControlMessage) -> UDPAddr -> K * result Z;
  pk_Write : K -> list byte -> K * result Z;
  pk_ReadFrom : K -> bool -> Z -> K * result (list byte * option ControlMessage * option UDPAddr);
  pk_Close : K -> K * option error
}.

(** [net.Interfaces] and [Interface.Addrs]. *)
Record Host : Type := mkHost { h_Interfaces : result (list Interface); h_Addrs : Interface -> result (list (list byte)) }.

(** [net.IP.To16] succeeds on 4 and 16 bytes. *)
Definition IsIPv6 (ip : list byte) : bool :=
  ((zlen ip =? 4) || (zlen ip =? 16)) && match To4 ip with None => true | Some _ => false end.

Definition GetIfIndex (c : option ControlMessage) : Z := match c with None => 0 | Some c => IfIndex c end.

(** ** Multicast options *)

Definition MulticastAllInterface : Z := 0.
Definition MulticastAnyInterface : Z := 1.
Definition MulticastSpecificInterface : Z := 2.

(** [InterfaceError] is whether the callback is set. *)
Record MulticastOptions : Type := mkMulticastOptions {
  IFaceMode : Z;
  Iface : option Interface;
  Source : option (list byte);
  HopLimit : Z;
  InterfaceError : bool
}.

Inductive MulticastOption : Type :=
| WithAnyMulticastInterface
| WithAllMulticastInterface
| WithMulticastInterface (iface : Interface)
| WithMulticastHoplimit (hoplimit : Z)
| WithMulticastSource (source : list byte)
| WithMulticastInterfaceError (set : bool).

Definition DefaultMulticastOptions : MulticastOptions := mkMulticastOptions MulticastAllInterface None None 1 false.

Definition applyMC (o : MulticastOptions) (m : MulticastOption) : MulticastOptions :=
  match m with
  | WithAnyMulticastInterface => mkMulticastOptions MulticastAnyInterface (Iface o) (Source o) (HopLimit o) (InterfaceError o)
  | WithAllMulticastInterface => mkMulticastOptions MulticastAllInterface (Iface o) (Source o) (HopLimit o) (InterfaceError o)
  | WithMulticastInterface iface => mkMulticastOptions MulticastSpecificInterface (Some iface) (Source o) (HopLimit o) (InterfaceError o)
  | WithMulticastHoplimit n => mkMulticastOptions (IFaceMode o) (Iface o) (Source o) n (InterfaceError o)
  | WithMulticastSource src => mkMulticastOptions (IFaceMode o) (Iface o) (Some src) (HopLimit o) (InterfaceError o)
  | WithMulticastInterfaceError b => mkMulticastOptions (IFaceMode o) (Iface o) (Source o) (HopLimit o) b
  end.

(** ** Texts of addresses *)

(** [strings.Split(text, "/")[0]] *)
Fixpoint before_slash (text : list byte) : list byte :=
  match text with
  | [] => []
  | b :: text => if b =? 47 then [] else b :: before_slash text
  end.

Definition has_colon (text : list byte) : bool := existsb (fun b => b =? 58) text.

(** [udp6] is the network. *)
Definition filterAddressesByNetwork (udp6 : bool) (ifaceAddrs : list (list byte)) : list (list byte) :=
  filter (fun a => has_colon (before_slash a) = udp6) ifaceAddrs.

Section Socket.
Context {K : Type} `{!PacketSocket K} (ParseIP : list byte -> option (list byte)) (host : Host).

Definition convAddrsToIps (ifaceAddrs : list (list byte)) : list (list byte) := omap (fun a => ParseIP (before_slash a)) ifaceAddrs.

(** ** The connection *)

(** [u_calls] are the calls of the callback for interface errors. *)
Record UDPConn : Type := mkUDPConn {
  u_sock : K;
  u_ipv6 : bool;
  u_supportsCM : bool;
  u_remote : option UDPAddr;
  u_closed : bool;
  u_calls : list (option Interface * error)
}.
Implicit Types (c : UDPConn) (buffer : list byte) (raddr : UDPAddr) (opt : MulticastOptions).

Definition with_sock c (k : K) : UDPConn := mkUDPConn k (u_ipv6 c) (u_supportsCM c) (u_remote c) (u_closed c) (u_calls c).
Definition with_call c (iface : option Interface) (e : error) : UDPConn :=
  mkUDPConn (u_sock c) (u_ipv6 c) (u_supportsCM c) (u_remote c) (u_closed c) (u_calls c ++ [(iface, e)]).

(** [newPacketConnWithAddr]: the family, and whether control messages are supported. *)
Definition newPacketConnWithAddr (k : K) (ip : list byte) : K * (bool * bool) :=
  let v6 := IsIPv6 ip in
  let '(k, err) := pk_control k v6 in (k, (v6, match err with None => true | Some _ => false end)).

(** [None] is the panic for a socket without an address. *)
Definition NewUDPConn (k : K) (local remote : option UDPAddr) : option UDPConn :=
  laddr ← local;
  let '(k, (v6, cm)) := newPacketConnWithAddr k (ua_ip laddr) in
  Some (mkUDPConn k v6 cm remote false []).

Definition UDPConn_Close c : UDPConn * option error :=
  if u_closed c then (c, None) else
  let '(k, err) := pk_Close (u_sock c) in (mkUDPConn k (u_ipv6 c) (u_supportsCM c) (u_remote c) true (u_calls c), err).

Definition toPacketSrcIP (src : option (list byte)) (v6 : bool) : list byte :=
  match src with Some ip => ip | None => if v6 then make_bytes 16 else [0; 0; 0; 0; 0; 0; 0; 0; 0; 0; 255; 255; 0; 0; 0; 0] end.

Definition toControlMessage (v6 : bool) (iface : option Interface) (src : option (list byte)) : option ControlMessage :=
  match iface, src with
  | None, None => None
  | _, _ => Some (mkCM None (Some (toPacketSrcIP src v6)) (match iface with Some i => if_Index i | None => 0 end))
  end.

(** [WriteTo] of a packet connection passes the source and the interface on. *)
Definition packet_WriteTo (k : K) (v6 : bool) buffer (cm : option ControlMessage) raddr : K * result Z :=
  pk_WriteTo k v6 buffer ((fun cm => mkCM None (Src cm) (IfIndex cm)) <$> cm) raddr.

Definition writeToAddr c (iface : option Interface) (src : option (list byte)) (multicastHopLimit : Z) raddr buffer : UDPConn * option error :=
  if u_closed c then (c, Some ErrConnectionIsClosed) else
  let '(k, (v6, _)) := newPacketConnWithAddr (u_sock c) (ua_ip raddr) in
  let '(k, err) := match iface with Some i => pk_SetMulticastInterface k v6 i | None => (k, None) end in
  match err with
  | Some e => (with_sock c k, Some e)
  | None =>
      let '(k, err) := pk_SetMulticastHopLimit k v6 multicastHopLimit in
      match err with
      | Some e => (with_sock c k, Some e)
      | None =>
          let '(k, r) := packet_WriteTo k v6 buffer (toControlMessage v6 iface src) raddr in
          (with_sock c k, match r with Ok _ => None | Err e => Some e end)
      end
  end.

(** *** Multicast *)

Definition join_errors (errs : list error) : option error :=
  match errs with [] => None | [e] => Some e | _ => Some errSeveral end.

(** The loop over the source addresses. *)
Fixpoint write_sources c (iface : option Interface) (hop : Z) raddr buffer (ips : list (list byte)) (errs : list error) : UDPConn * list error :=
  match ips with
  | [] => (c, errs)
  | ip :: ips =>
      let '(c, err) := writeToAddr c iface (Some ip) hop raddr buffer in
      write_sources c iface hop raddr buffer ips (match err with Some e => errs ++ [e] | None => errs end)
  end.

Definition writeMulticastWithInterface c raddr buffer opt : UDPConn * option error :=
  match Iface opt, Source opt with
  | None, _ => if IFaceMode opt =? MulticastSpecificInterface then (c, Some errInvalidInterface)
               else match Source opt with
                    | Some _ => writeToAddr c None (Source opt) (HopLimit opt) raddr buffer
                    | None => (c, Some errInvalidInterface)
                    end
  | Some iface, Some _ => writeToAddr c (Some iface) (Source opt) (HopLimit opt) raddr buffer
  | Some iface, None =>
      match h_Addrs host iface with
      | Err e => (c, Some e)
      | Ok ifaceAddrs =>
          let ips := convAddrsToIps (filterAddressesByNetwork (IsIPv6 (ua_ip raddr)) ifaceAddrs) in
          let '(c, errs) := write_sources c (Some iface) (HopLimit opt) raddr buffer ips [] in
          (c, join_errors errs)
      end
  end.

Definition usable (iface : Interface) : bool :=
  negb (Z.land (if_Flags iface) FlagMulticast =? 0) && (Z.land (if_Flags iface) FlagUp =? FlagUp).

(** The loop over the interfaces. *)
Fixpoint write_interfaces c raddr buffer opt (ifaces : list Interface) (errs : list error) : UDPConn * list error :=
  match ifaces with
  | [] => (c, errs)
  | iface :: ifaces =>
      if negb (usable iface) then write_interfaces c raddr buffer opt ifaces errs else
      let specificOpt := mkMulticastOptions MulticastSpecificInterface (Some iface) (Source opt) (HopLimit opt) (InterfaceError opt) in
      let '(c, err) := writeMulticastWithInterface c raddr buffer specificOpt in
      match err with
      | None => write_interfaces c raddr buffer opt ifaces errs
      | Some e =>
          if InterfaceError opt then write_interfaces (with_call c (Some iface) e) raddr buffer opt ifaces errs
          else write_interfaces c raddr buffer opt ifaces (errs ++ [e])
      end
  end.

Definition writeMulticastToAllInterfaces c raddr buffer opt : UDPConn * option error :=
  match h_Interfaces host with
  | Err e => (c, Some e)
  | Ok ifaces => let '(c, errs) := write_interfaces c raddr buffer opt ifaces [] in (c, join_errors errs)
  end.

(** [ctxErr] is the state of the context. *)
Definition validateMulticast c (ctxErr : option error) (raddr : option UDPAddr) opt : option error :=
  match ctxErr with
  | Some e => Some e
  | None =>
      match raddr with
      | None => Some errInvalidRaddr
      | Some raddr =>
          if negb (u_ipv6 c) && IsIPv6 (ua_ip raddr) then Some errInvalidDestination else
          match Source opt with
          | Some src => if IsIPv6 src && negb (IsIPv6 (ua_ip raddr)) then Some errInvalidSource else None
          | None => None
          end
      end
  end.

Definition writeMulticast c (ctxErr : option error) (raddr : option UDPAddr) buffer opt : option (UDPConn * option error) :=
  match validateMulticast c ctxErr raddr opt, raddr with
  | Some e, _ => Some (c, Some e)
  | None, None => Some (c, Some errInvalidRaddr)
  | None, Some raddr =>
      if IFaceMode opt =? MulticastAllInterface then Some (writeMulticastToAllInterfaces c raddr buffer opt) else
      if IFaceMode opt =? MulticastAnyInterface then Some (writeToAddr c None (Source opt) (HopLimit opt) raddr buffer) else
      if IFaceMode opt =? MulticastSpecificInterface then
        match writeMulticastWithInterface c raddr buffer opt with
        | (c, None) => Some (c, None)
        | (c, Some e) =>
            if InterfaceError opt then Some (with_call c (Iface opt) e, None)
            else match Iface opt with Some _ => Some (c, Some e) | None => None end
        end
      else Some (c, None)
  end.

Definition WriteMulticast c (ctxErr : option error) (raddr : option UDPAddr) buffer (opts : list MulticastOption) : option (UDPConn * option error) :=
  writeMulticast c ctxErr raddr buffer (fold_left applyMC opts (mkMulticastOptions 0 None None 1 false)).

(** *** Writes *)

(** A context is its error, if it is done; [None] is the nil context. *)
Record UDPWriteCfg : Type := mkWriteCfg { w_Ctx : option (option error); w_RemoteAddr : option UDPAddr; w_ControlMessage : option ControlMessage }.

Inductive UDPWriteOption : Type :=
| WriteCfg (cfg : UDPWriteCfg)
| WriteContext (ctx : option (option error))
| WithRemoteAddr (raddr : option UDPAddr)
| WithControlMessage (cm : option ControlMessage).

Definition ApplyWrite (cfg : UDPWriteCfg) (o : UDPWriteOption) : UDPWriteCfg :=
  match o with
  | WriteCfg d => mkWriteCfg (w_Ctx d ∪ w_Ctx cfg) (w_RemoteAddr d ∪ w_RemoteAddr cfg) (w_ControlMessage d ∪ w_ControlMessage cfg)
  | WriteContext ctx => mkWriteCfg (ctx ∪ w_Ctx cfg) (w_RemoteAddr cfg) (w_ControlMessage cfg)
  | WithRemoteAddr raddr => mkWriteCfg (w_Ctx cfg) raddr (w_ControlMessage cfg)
  | WithControlMessage cm => mkWriteCfg (w_Ctx cfg) (w_RemoteAddr cfg) cm
  end.

Definition supportsOverrideRemoteAddr c : bool := match u_remote c with None => true | Some _ => false end.

Definition writeTo c raddr (cm : option ControlMessage) buffer : UDPConn * result Z :=
  if negb (supportsOverrideRemoteAddr c) then let '(k, r) := pk_Write (u_sock c) buffer in (with_sock c k, r) else
  let cmb := (fun cm => (IsIPv6 (ua_ip raddr), mkCM None (Src cm) (IfIndex cm))) <$> cm in
  let '(k, r) := pk_WriteMsg (u_sock c) buffer cmb raddr in (with_sock c k, r).

Definition writeWithCfg c buffer (cfg : UDPWriteCfg) : UDPConn * option error :=
  match w_RemoteAddr cfg with
  | None => (c, Some errInvalidRaddr)
  | Some raddr =>
      match w_Ctx cfg with
      | Some (Some e) => (c, Some e)
      | _ =>
          if u_closed c then (c, Some ErrConnectionIsClosed) else
          let '(c, r) := writeTo c raddr (w_ControlMessage cfg) buffer in
          (c, match r with Err e => Some e | Ok n => if n =? zlen buffer then None else Some ErrWriteInterrupted end)
      end
  end.

Definition WriteWithOptions c buffer (opts : list UDPWriteOption) : UDPConn * option error :=
  writeWithCfg c buffer (fold_left ApplyWrite opts (mkWriteCfg (Some None) (u_remote c) None)).

Definition UDPConn_WriteWithContext c (ctx : option error) (raddr : option UDPAddr) buffer : UDPConn * option error :=
  WriteWithOptions c buffer [WriteContext (Some ctx); WithRemoteAddr raddr].

(** *** Reads *)

(** The addresses of variables to fill: whether they are given. *)
Record UDPReadCfg : Type := mkReadCfg { rd_Ctx : option (option error); rd_RemoteAddr : bool; rd_ControlMessage : bool }.

Inductive UDPReadOption : Type :=
| ReadCfg (cfg : UDPReadCfg)
| ReadContext (ctx : option (option error))
| WithGetRemoteAddr (set : bool)
| WithGetControlMessage (set : bool).

Definition ApplyRead (cfg : UDPReadCfg) (o : UDPReadOption) : UDPReadCfg :=
  match o with
  | ReadCfg d => mkReadCfg (rd_Ctx d ∪ rd_Ctx cfg) (rd_RemoteAddr d || rd_RemoteAddr cfg) (rd_ControlMessage d || rd_ControlMessage cfg)
  | ReadContext ctx => mkReadCfg (ctx ∪ rd_Ctx cfg) (rd_RemoteAddr cfg) (rd_ControlMessage cfg)
  | WithGetRemoteAddr b => mkReadCfg (rd_Ctx cfg) b (rd_ControlMessage cfg)
  | WithGetControlMessage b => mkReadCfg (rd_Ctx cfg) (rd_RemoteAddr cfg) b
  end.

(** [ReadFrom] of a packet connection, into a buffer of [size]. *)
Definition packet_ReadFrom c (size : Z) : UDPConn * result (list byte * option ControlMessage * option UDPAddr) :=
  let '(k, r) := pk_ReadFrom (u_sock c) (u_ipv6 c) size in
  (with_sock c k, match r with
                  | Err e => Err e
                  | Ok (data, cm, src) => Ok (data, if u_supportsCM c then cm else None, src)
                  end).

(** The bytes, and the address and control message that are filled in. *)
Definition readWithCfg c (size : Z) (cfg : UDPReadCfg) : UDPConn * result (list byte * option UDPAddr * option ControlMessage) :=
  match rd_Ctx cfg with
  | Some (Some e) => (c, Err e)
  | _ =>
      if u_closed c then (c, Err ErrConnectionIsClosed) else
      let '(c, r) := packet_ReadFrom c size in
      (c, match r with
          | Err e => Err e
          | Ok (data, cm, Some addr) => Ok (data, if rd_RemoteAddr cfg then Some addr else None, if rd_ControlMessage cfg then cm else None)
          | Ok (_, _, None) => Err errInvalidSrcAddr
          end)
  end.

Definition ReadWithOptions c (size : Z) (opts : list UDPReadOption) : UDPConn * result (list byte * option UDPAddr * option ControlMessage) :=
  readWithCfg c size (fold_left ApplyRead opts (mkReadCfg (Some None) false false)).

Definition UDPConn_ReadWithContext c (ctx : option error) (size : Z) : UDPConn * result (list byte * option UDPAddr) :=
  let '(c, r) := ReadWithOptions c size [ReadContext (Some ctx); WithGetRemoteAddr true] in
  (c, match r with Err e => Err e | Ok (data, addr, _) => Ok (data, addr) end).

(** ** What a multicast sends *)

(** The writes one after another, and their results. *)
Fixpoint run_writes c raddr buffer (hop : Z) (ws : list (option Interface * option (list byte))) : UDPConn * list (option error) :=
  match ws with
  | [] => (c, [])
  | (iface, src) :: ws =>
      let '(c, err) := writeToAddr c iface src hop raddr buffer in
      let '(c, errs) := run_writes c raddr buffer hop ws in (c, err :: errs)
  end.

(** The source addresses for an interface. *)
Definition sources opt raddr (iface : Interface) : list (list byte) :=
  match Source opt with
  | Some src => [src]
  | None => match h_Addrs host iface with
            | Ok addrs => convAddrsToIps (filterAddressesByNetwork (IsIPv6 (ua_ip raddr)) addrs)
            | Err _ => []
            end
  end.

Definition through opt raddr (iface : Interface) : list (option Interface * option (list byte)) :=
  (fun src => (Some iface, Some src)) <$> sources opt raddr iface.

(** *** Specification *)

(** An address of 16 bytes that is not an IPv4 address mapped into IPv6. *)
Definition is_v6 (ip : list byte) : Prop := length ip = 16%nat /\ take 12 ip <> replicate 10 0 ++ [255; 255].
#[export] Instance is_v6_dec ip : Decision (is_v6 ip).
Proof. unfold is_v6. apply _. Defined.

(** The address in a text such as "10.0.0.1/8"; those of IPv6 have colons. *)
Definition host_part (text : list byte) : list byte := match list_find (fun b => b = 47) text with Some (i, _) => take i text | None => text end.
Definition text_fits raddr (text : list byte) : Prop := 58 ∈ host_part text <-> is_v6 (ua_ip raddr).
#[export] Instance text_fits_dec raddr text : Decision (text_fits raddr text).
Proof. unfold text_fits. apply _. Defined.

(** An interface that is up and can multicast. *)
Definition multicasts (iface : Interface) : Prop := Z.testbit (if_Flags iface) 0 = true /\ Z.testbit (if_Flags iface) 4 = true.

(** The writes through an interface: with the given source, or with each of its
    addresses of the destination's family. *)
Definition interface_plan opt raddr (iface : Interface) : list (option Interface * option (list byte)) :=
  match Source opt, h_Addrs host iface with
  | Some src, _ => [(Some iface, Some src)]
  | None, Ok addrs => (fun ip => (Some iface, Some ip)) <$> omap (fun text => ParseIP (host_part text)) (filter (text_fits raddr) addrs)
  | None, Err _ => []
  end.

(** The plan of a multicast: every interface that multicasts, or the given one, or the
    choice of the system, with every source address. *)
Definition plan opt raddr : list (option Interface * option (list byte)) :=
  match IFaceMode opt, h_Interfaces host, Iface opt with
  | 0, Ok ifaces, _ => concat (interface_plan opt raddr <$> filter multicasts ifaces)
  | 1, _, _ => [(None, Source opt)]
  | 2, _, Some iface => interface_plan opt raddr iface
  | _, _, _ => []
  end.

(** What is done to the socket for one write: the calls up to the first that fails.  The
    result of turning the control messages on does not matter. *)
Definition write_calls raddr buffer (hop : Z) (write : option Interface * option (list byte)) : list (K -> K * option error) :=
  let v6 := bool_decide (is_v6 (ua_ip raddr)) in
  let unspecified := if v6 then replicate 16 0 else replicate 10 0 ++ [255; 255; 0; 0; 0; 0] in
  let cm := match write with (None, None) => None | (iface, src) => Some (mkCM None (Some (default unspecified src)) (from_option if_Index 0 iface)) end in
  [fun k => ((pk_control k v6).1, None)] ++
  match write.1 with Some iface => [fun k => pk_SetMulticastInterface k v6 iface] | None => [] end ++
  [fun k => pk_SetMulticastHopLimit k v6 hop;
   fun k => let '(k, r) := pk_WriteTo k v6 buffer cm raddr in (k, match r with Ok _ => None | Err e => Some e end)].

Fixpoint in_turn (calls : list (K -> K * option error)) (k : K) : K * option error :=
  match calls with
  | [] => (k, None)
  | f :: calls => match f k with (k, Some e) => (k, Some e) | (k, None) => in_turn calls k end
  end.

(** All writes of a plan, whatever becomes of the ones before; a closed socket refuses them. *)
Fixpoint carry_out raddr buffer (hop : Z) (closed : bool) (ws : list (option Interface * option (list byte))) (k : K) : K * list (option error) :=
  match ws with
  | [] => (k, [])
  | w :: ws =>
      let '(k, err) := if closed then (k, Some ErrConnectionIsClosed) else in_turn (write_calls raddr buffer hop w) k in
      let '(k, errs) := carry_out raddr buffer hop closed ws k in (k, err :: errs)
  end.

(** *** Proofs *)

(** A write looks at the socket and at whether it is closed, and changes the socket. *)
Lemma writeToAddr_frame c c' iface src hop raddr buffer :
  u_sock c' = u_sock c -> u_closed c' = u_closed c ->
  (writeToAddr c' iface src hop raddr buffer).2 = (writeToAddr c iface src hop raddr buffer).2 /\
  u_sock (writeToAddr c' iface src hop raddr buffer).1 = u_sock (writeToAddr c iface src hop raddr buffer).1 /\
  u_closed (writeToAddr c iface src hop raddr buffer).1 = u_closed c /\ u_calls (writeToAddr c iface src hop raddr buffer).1 = u_calls c.
Proof.
  intros Hs Hc. unfold writeToAddr. rewrite Hs, Hc. destruct (u_closed c) eqn:E; [done|].
  destruct (newPacketConnWithAddr _ _) as [k [v6 b]]. destruct (match iface with Some _ => _ | None => _ end) as [k1 [e|]]; [done|].
  destruct (pk_SetMulticastHopLimit _ _ _) as [k2 [e|]]; [done|]. by destruct (packet_WriteTo _ _ _ _ _) as [k3 r].
Qed.

Definition same_socket c c' : Prop := u_sock c' = u_sock c /\ u_closed c' = u_closed c.

Lemma run_writes_frame ws c c' raddr buffer hop :
  same_socket c c' ->
  same_socket (run_writes c raddr buffer hop ws).1 (run_writes c' raddr buffer hop ws).1 /\
  (run_writes c' raddr buffer hop ws).2 = (run_writes c raddr buffer hop ws).2.
Proof.
  revert c c'. induction ws as [|[iface src] ws IH]; intros c c' [Hs Hc]; [done|]. cbn.
  destruct (writeToAddr_frame c c' iface src hop raddr buffer Hs Hc) as (E1 & E2 & E3 & _).
  destruct (writeToAddr_frame c' c' iface src hop raddr buffer eq_refl eq_refl) as (_ & _ & E3' & _).
  destruct (writeToAddr c iface src hop raddr buffer) as [c1 e1]. destruct (writeToAddr c' iface src hop raddr buffer) as [c1' e1']. cbn [fst snd] in *.
  destruct (IH c1 c1' ltac:(split; congruence)) as [IH1 IH2]. destruct (run_writes c1 _ _ _ _) as [c2 es]. destruct (run_writes c1' _ _ _ _) as [c2' es'].
  cbn [fst snd] in *. by subst.
Qed.

Lemma run_writes_app ws ws' c raddr buffer hop :
  run_writes c raddr buffer hop (ws ++ ws') =
  let '(c1, es) := run_writes c raddr buffer hop ws in let '(c2, es') := run_writes c1 raddr buffer hop ws' in (c2, es ++ es').
Proof.
  revert c. induction ws as [|[iface src] ws IH]; intros c; cbn; [by destruct (run_writes _ _ _ _ _)|].
  destruct (writeToAddr _ _ _ _ _ _) as [c1 e]. rewrite IH. destruct (run_writes c1 _ _ _ _) as [c2 es]. by destruct (run_writes c2 _ _ _ _).
Qed.

Lemma write_sources_run ips c iface hop raddr buffer errs :
  write_sources c iface hop raddr buffer ips errs =
  let '(c', es) := run_writes c raddr buffer hop ((fun src => (iface, Some src)) <$> ips) in (c', errs ++ omap id es).
Proof.
  revert c errs. induction ips as [|ip ips IH]; intros c errs; cbn; [by rewrite app_nil_r|].
  destruct (writeToAddr _ _ _ _ _ _) as [c1 err]. rewrite IH. destruct (run_writes c1 _ _ _ _) as [c2 es]. destruct err as [e|]; cbn; [|done].
  by rewrite <- (assoc (++)).
Qed.

Lemma join_errors_None errs : join_errors errs = None <-> errs = [].
Proof. by destruct errs as [|e [|]]. Qed.

Lemma no_errors (es : list (option error)) : omap id es = [] <-> Forall (eq None) es.
Proof.
  induction es as [|[e|] es IH]; cbn; [by split; [constructor|]|split; [done|]|].
  - intros H. by apply Forall_cons in H as [? _].
  - rewrite IH. split; [by constructor|]. intros H. by apply Forall_cons in H as [_ ?].
Qed.

Lemma run_writes_closed ws c raddr buffer hop : u_closed (run_writes c raddr buffer hop ws).1 = u_closed c.
Proof.
  revert c. induction ws as [|[iface src] ws IH]; intros c; [done|]. cbn.
  destruct (writeToAddr_frame c c iface src hop raddr buffer eq_refl eq_refl) as (_ & _ & E & _).
  destruct (writeToAddr c iface src hop raddr buffer) as [c1 e]. specialize (IH c1). destruct (run_writes c1 _ _ _ _) as [c2 es]. cbn in *. congruence.
Qed.

(** The addresses of the interface are known, where they are needed. *)
Definition addrs_ok opt (iface : Interface) : Prop := match Source opt with Some _ => True | None => exists addrs, h_Addrs host iface = Ok addrs end.

Lemma with_interface_run c raddr buffer opt iface :
  Iface opt = Some iface ->
  let '(c', err) := writeMulticastWithInterface c raddr buffer opt in
  let '(c2, es) := run_writes c raddr buffer (HopLimit opt) (through opt raddr iface) in
  c' = c2 /\ (err = None <-> Forall (eq None) es /\ addrs_ok opt iface).
Proof.
  intros Hi. unfold writeMulticastWithInterface, through, sources, addrs_ok. rewrite Hi. destruct (Source opt) as [src|]; cbn.
  - destruct (writeToAddr _ _ _ _ _ _) as [c1 err]. split; [done|]. rewrite Forall_singleton. split; [by intros ->|]. by intros [<- _].
  - destruct (h_Addrs host iface) as [addrs|e]; cbn.
    + rewrite write_sources_run. destruct (run_writes _ _ _ _ _) as [c1 es]. cbn. rewrite join_errors_None, no_errors. split; [done|]. split; [eauto|by intros [? _]].
    + split; [done|]. split; [done|]. by intros [_ [? ?]].
Qed.

Lemma write_interfaces_run ifaces c c' raddr buffer opt errs :
  same_socket c c' ->
  let '(c1, errs1) := write_interfaces c' raddr buffer opt ifaces errs in
  let '(c2, es) := run_writes c raddr buffer (HopLimit opt) (concat (through opt raddr <$> filter (fun i => usable i = true) ifaces)) in
  same_socket c2 c1 /\ (InterfaceError opt = true -> errs1 = errs) /\ (InterfaceError opt = false -> errs1 = [] -> errs = [] /\ Forall (eq None) es).
Proof.
  revert c c' errs. induction ifaces as [|iface ifaces IH]; intros c c' errs Hc; [by cbn|]. cbn [write_interfaces]. rewrite filter_cons.
  destruct (usable iface) eqn:Hu; cbn [negb]; [rewrite decide_True by done|by rewrite decide_False by done; apply IH].
  cbn [fmap list_fmap concat]. rewrite run_writes_app. set (sopt := mkMulticastOptions _ _ _ _ _).
  pose proof (with_interface_run c' raddr buffer sopt iface eq_refl) as Hw. change (through sopt raddr iface) with (through opt raddr iface) in Hw.
  change (HopLimit sopt) with (HopLimit opt) in Hw.
  destruct (run_writes_frame (through opt raddr iface) c c' raddr buffer (HopLimit opt) Hc) as [Hf He].
  destruct (writeMulticastWithInterface c' raddr buffer sopt) as [c1' err]. destruct (run_writes c' _ _ _ (through opt raddr iface)) as [c2' es']. destruct Hw as [-> Hw].
  destruct (run_writes c _ _ _ (through opt raddr iface)) as [c2 es]. cbn [fst snd] in Hf, He. subst es'.
  assert (forall c3' errs3, same_socket c2 c3' -> (InterfaceError opt = true -> errs3 = errs) -> (InterfaceError opt = false -> errs3 = [] -> errs = [] /\ Forall (eq None) es) ->
    let '(c1, errs1) := write_interfaces c3' raddr buffer opt ifaces errs3 in
    let '(c4, es4) := let '(c4, es') := run_writes c2 raddr buffer (HopLimit opt) (concat (through opt raddr <$> filter (fun i => usable i = true) ifaces)) in (c4, es ++ es') in
    same_socket c4 c1 /\ (InterfaceError opt = true -> errs1 = errs) /\ (InterfaceError opt = false -> errs1 = [] -> errs = [] /\ Forall (eq None) es4)) as Hgo.
  { intros c3' errs3 H3 Ht Hff. specialize (IH c2 c3' errs3 H3). destruct (write_interfaces c3' _ _ _ _ _) as [c1 errs1].
    destruct (run_writes c2 _ _ _ _) as [c4 es4]. destruct IH as (Hs & H1 & H2). split; [done|]. split; [intros Hie; by rewrite H1, Ht|].
    intros Hie E. destruct (H2 Hie E) as [E3 Hes]. destruct (Hff Hie E3). split; [done|]. by apply Forall_app. }
  destruct err as [e|]; [destruct (InterfaceError opt) eqn:Hie|]; apply Hgo; try done.
  - intros _ E. by destruct errs.
  - intros _ ->. split; [done|]. by apply Hw.
Qed.

(** *** The specification is met *)

Lemma IsIPv6_v6 ip : IsIPv6 ip = bool_decide (is_v6 ip).
Proof.
  unfold IsIPv6, To4, is_v6, zlen, slice_to. change (Z.to_nat 12) with 12%nat. apply eq_true_iff_eq. rewrite bool_decide_eq_true.
  destruct (Z.eqb_spec (Z.of_nat (length ip)) 4); [split; [by rewrite andb_false_r|lia]|]. cbn [orb].
  destruct (Z.eqb_spec (Z.of_nat (length ip)) 16); [|split; [done|lia]]. cbn [andb].
  change (replicate 10 0 ++ [255; 255]) with [0; 0; 0; 0; 0; 0; 0; 0; 0; 0; 255; 255]. case_bool_decide; split; try done; [by intros []|]. split; [lia|done].
Qed.

Lemma before_slash_host text : before_slash text = host_part text.
Proof.
  unfold host_part. induction text as [|b text IH]; [done|]. cbn [before_slash list_find]. destruct (Z.eqb_spec b 47) as [->|Hb]; [by rewrite decide_True|].
  rewrite decide_False, IH by done. by destruct (list_find _ text) as [[i x]|].
Qed.

Lemma has_colon_in text : has_colon text = bool_decide (58 ∈ text).
Proof.
  apply eq_true_iff_eq. unfold has_colon. rewrite existsb_exists, bool_decide_eq_true. split; [intros (b & Hin & Hb)|intros Hin; exists 58].
  - apply Z.eqb_eq in Hb as ->. by apply list_elem_of_In.
  - split; [by apply list_elem_of_In|done].
Qed.

Lemma land_bit x n : 0 <= n -> Z.land x (2 ^ n) = if Z.testbit x n then 2 ^ n else 0.
Proof.
  intros Hn. apply Z.bits_inj'. intros m Hm. rewrite Z.land_spec, Z.pow2_bits_eqb by done.
  destruct (Z.eqb_spec n m) as [->|Hne]; [|rewrite andb_false_r; destruct (Z.testbit x n); rewrite ?Z.pow2_bits_eqb, ?Z.bits_0 by done; lia].
  rewrite andb_true_r. destruct (Z.testbit x m) eqn:E; rewrite ?Z.pow2_bits_true, ?Z.bits_0 by done; done.
Qed.

Lemma usable_multicasts iface : usable iface = true <-> multicasts iface.
Proof.
  unfold usable, multicasts, FlagMulticast, FlagUp. pose proof (land_bit (if_Flags iface) 4 ltac:(lia)) as E4. pose proof (land_bit (if_Flags iface) 0 ltac:(lia)) as E0.
  change (2 ^ 4) with 16 in E4. change (2 ^ 0) with 1 in E0. rewrite E4, E0. destruct (Z.testbit _ 4), (Z.testbit _ 0); naive_solver.
Qed.

Lemma interface_plan_through opt raddr iface : through opt raddr iface = interface_plan opt raddr iface.
Proof.
  unfold through, sources, interface_plan. destruct (Source opt) as [src|]; [done|]. destruct (h_Addrs host iface) as [addrs|e]; [|done]. f_equal.
  unfold convAddrsToIps, filterAddressesByNetwork. rewrite IsIPv6_v6. induction addrs as [|text addrs IH]; [done|]. rewrite !filter_cons.
  rewrite before_slash_host, has_colon_in. unfold text_fits at 1. repeat case_decide; cbn; rewrite ?before_slash_host, ?IH; try done; exfalso; repeat case_bool_decide; naive_solver.
Qed.

Lemma plan_spec opt raddr :
  0 <= IFaceMode opt <= 2 ->
  plan opt raddr =
    if IFaceMode opt =? MulticastAllInterface then
      match h_Interfaces host with Ok ifaces => concat (through opt raddr <$> filter (fun i => usable i = true) ifaces) | Err _ => [] end
    else if IFaceMode opt =? MulticastAnyInterface then [(None, Source opt)]
    else match Iface opt with Some iface => through opt raddr iface | None => [] end.
Proof.
  intros Hm. unfold plan, MulticastAllInterface, MulticastAnyInterface.
  assert (IFaceMode opt = 0 \/ IFaceMode opt = 1 \/ IFaceMode opt = 2) as [->|[->| ->]] by lia; cbn [Z.eqb Pos.eqb].
  - destruct (h_Interfaces host) as [ifaces|e]; [|done]. f_equal. rewrite (list_filter_iff _ _ ifaces (fun i => iff_sym (usable_multicasts i))).
    apply list_fmap_ext. intros _ i _. by rewrite interface_plan_through.
  - by destruct (h_Interfaces host).
  - destruct (Iface opt); destruct (h_Interfaces host); by rewrite ?interface_plan_through.
Qed.

Lemma writeToAddr_calls c iface src hop raddr buffer :
  writeToAddr c iface src hop raddr buffer =
  let '(k, err) := if u_closed c then (u_sock c, Some ErrConnectionIsClosed) else in_turn (write_calls raddr buffer hop (iface, src)) (u_sock c) in
  (with_sock c k, err).
Proof.
  unfold writeToAddr. destruct (u_closed c) eqn:Ec; [destruct c; cbn in *; by subst|]. unfold newPacketConnWithAddr, write_calls. rewrite IsIPv6_v6.
  set (v6 := bool_decide _). destruct (pk_control (u_sock c) v6) as [k e] eqn:Ek. cbn [fst app in_turn]. rewrite Ek. cbn [fst]. unfold packet_WriteTo, toControlMessage, toPacketSrcIP.
  destruct iface as [i|]; cbn [app in_turn]; [destruct (pk_SetMulticastInterface k v6 i) as [k1 [e1|]]; [done|]|];
    (destruct (pk_SetMulticastHopLimit _ v6 hop) as [k2 [e2|]]; [done|]); destruct src as [src|]; cbn [fmap option_fmap option_map Src IfIndex default from_option];
    destruct v6; cbn; by destruct (pk_WriteTo k2 _ buffer _ raddr) as [k3 [n|e3]].
Qed.

Lemma run_writes_carry ws c raddr buffer hop :
  run_writes c raddr buffer hop ws =
  let '(k, es) := carry_out raddr buffer hop (u_closed c) ws (u_sock c) in (with_sock c k, es).
Proof.
  revert c. induction ws as [|[iface src] ws IH]; intros c; cbn [run_writes carry_out]; [by destruct c|]. rewrite writeToAddr_calls.
  destruct (if u_closed c then _ else _) as [k err]. rewrite IH. cbn [with_sock u_closed u_sock]. by destruct (carry_out _ _ _ _ _ _) as [k' es].
Qed.

(** The options that can be made keep the interface beside the mode. *)
Definition opts_ok opt : Prop := 0 <= IFaceMode opt <= 2 /\ (IFaceMode opt = MulticastSpecificInterface -> is_Some (Iface opt)).

Lemma opts_ok_fold opts opt : opts_ok opt -> opts_ok (fold_left applyMC opts opt).
Proof.
  revert opt. induction opts as [|o opts IH]; intros opt H; [done|]. apply IH. destruct H as [H1 H2].
  destruct o; split; cbn; try done; unfold MulticastAnyInterface, MulticastAllInterface, MulticastSpecificInterface in *; try lia; eauto.
Qed.

(** The given source is of IPv6 and the destination is not. *)
Definition foreign_source opt raddr : Prop := exists src, Source opt = Some src /\ is_v6 src /\ ~ is_v6 (ua_ip raddr).

Lemma validate_spec c raddr opt :
  match validateMulticast c None (Some raddr) opt with
  | Some e => (u_ipv6 c = false /\ is_v6 (ua_ip raddr) /\ e = errInvalidDestination) \/
              (~ (u_ipv6 c = false /\ is_v6 (ua_ip raddr)) /\ foreign_source opt raddr /\ e = errInvalidSource)
  | None => ~ (u_ipv6 c = false /\ is_v6 (ua_ip raddr)) /\ ~ foreign_source opt raddr
  end.
Proof.
  unfold validateMulticast, foreign_source. rewrite IsIPv6_v6. destruct (u_ipv6 c), (Source opt) as [src|]; rewrite ?IsIPv6_v6; repeat case_bool_decide; cbn; naive_solver.
Qed.

(** What a multicast that is not refused does, and which errors it returns. *)
Definition as_planned c raddr buffer opt (c' : UDPConn) (err : option error) : Prop :=
  let '(k, es) := carry_out raddr buffer (HopLimit opt) (u_closed c) (plan opt raddr) (u_sock c) in
  u_sock c' = k /\ u_closed c' = u_closed c /\
  (InterfaceError opt = false -> err = None -> Forall (eq None) es) /\
  (InterfaceError opt = true -> IFaceMode opt <> MulticastAnyInterface ->
     (IFaceMode opt = MulticastAllInterface -> exists ifaces, h_Interfaces host = Ok ifaces) -> err = None).

Lemma accepted_as_planned c raddr buffer opt :
  opts_ok opt -> validateMulticast c None (Some raddr) opt = None ->
  exists c' err, writeMulticast c None (Some raddr) buffer opt = Some (c', err) /\ as_planned c raddr buffer opt c' err.
Proof.
  intros [Hm Hs] Hv. unfold writeMulticast, as_planned. rewrite Hv, (plan_spec _ _ Hm).
  destruct (Z.eqb_spec (IFaceMode opt) MulticastAllInterface) as [Ea|Ea]; [|destruct (Z.eqb_spec (IFaceMode opt) MulticastAnyInterface) as [En|En]].
  - unfold writeMulticastToAllInterfaces. destruct (h_Interfaces host) as [ifaces|e].
    + pose proof (write_interfaces_run ifaces c c raddr buffer opt [] ltac:(done)) as H. destruct (write_interfaces _ _ _ _ _ _) as [c1 errs].
      eexists _, _. split; [done|]. rewrite run_writes_carry in H. destruct (carry_out _ _ _ _ _ _) as [k es]. destruct H as ([H0 H1] & H2 & H3).
      split_and!; [done|done| |]; rewrite join_errors_None; [intros Hi E; by apply H3|]. intros Hi _ _. by apply H2.
    + eexists _, _. split; [done|]. cbn. split_and!; try done. intros _ _ H. by destruct (H Ea).
  - rewrite writeToAddr_calls. cbn [carry_out]. destruct (if u_closed c then _ else _) as [k err]. eexists _, _. split; [done|].
    split_and!; [done|done|intros _ ->; by constructor|done].
  - assert (IFaceMode opt = MulticastSpecificInterface) as E2 by (unfold MulticastAllInterface, MulticastAnyInterface, MulticastSpecificInterface in *; lia).
    destruct (Hs E2) as [iface Hi]. rewrite Hi, E2. cbn [Z.eqb]. pose proof (with_interface_run c raddr buffer opt iface Hi) as H.
    destruct (writeMulticastWithInterface c raddr buffer opt) as [c1 err]. rewrite Z.eqb_refl.
    assert (exists c' err', match err with
      | None => Some (c1, None)
      | Some e => if InterfaceError opt then Some (with_call c1 (Some iface) e, None) else Some (c1, Some e) end = Some (c', err') /\
      same_socket c1 c' /\ (InterfaceError opt = false -> err' = err) /\ (InterfaceError opt = true -> err' = None)) as (c' & err' & E & Hsame & Hf & Ht).
    { destruct err as [e|]; [destruct (InterfaceError opt)|]; eexists _, _; (split; [reflexivity|]); by split_and!. }
    exists c', err'. split; [by destruct err|]. rewrite run_writes_carry in H. destruct (carry_out _ _ _ _ _ _) as [k es]. destruct H as [-> H].
    destruct Hsame as [H1 H2]. split_and!; [done|done|intros Hie E'; rewrite Hf in E' by done; by apply H|auto].
Qed.

(** C12: a multicast.  [WriteMulticast] never panics.  It is refused, before anything is
    done to the socket, when the context is done, there is no destination, the
    destination is an IPv6 address and the socket is not, or the given source is an IPv6
    address and the destination is not.  Otherwise the socket is written to exactly as
    planned: once for every interface that is up and can multicast (or the given one, or
    the choice of the system), and for every address of it that is of the destination's
    family (or the given source), each write with its own interface, hop limit, source
    and interface index, whatever becomes of the other writes.  Without the callback, no
    error means that every write succeeded; with it, no error of an interface is
    returned. *)
Theorem multicast_sends_plan c (ctxErr : option error) (raddr : option UDPAddr) buffer (opts : list MulticastOption)
    (opt := fold_left applyMC opts (mkMulticastOptions 0 None None 1 false)) :
  exists c' err, WriteMulticast c ctxErr raddr buffer opts = Some (c', err) /\
    match ctxErr, raddr with
    | Some e, _ => c' = c /\ err = Some e
    | None, None => c' = c /\ err = Some errInvalidRaddr
    | None, Some r =>
        (u_ipv6 c = false /\ is_v6 (ua_ip r) -> c' = c /\ err = Some errInvalidDestination) /\
        (~ (u_ipv6 c = false /\ is_v6 (ua_ip r)) -> foreign_source opt r -> c' = c /\ err = Some errInvalidSource) /\
        (~ (u_ipv6 c = false /\ is_v6 (ua_ip r)) -> ~ foreign_source opt r -> as_planned c r buffer opt c' err)
    end.
Proof.
  assert (opts_ok opt) as Hopt by (by apply opts_ok_fold). unfold WriteMulticast. fold opt. clearbody opt.
  destruct ctxErr as [e|]; [by eexists _, _|]. destruct raddr as [r|]; [|by eexists _, _].
  pose proof (validate_spec c r opt) as Hv. destruct (validateMulticast c None (Some r) opt) as [e|] eqn:Ev.
  - exists c, (Some e). unfold writeMulticast. rewrite Ev. split; [done|]. naive_solver.
  - destruct (accepted_as_planned c r buffer opt Hopt Ev) as (c' & err & E & Hp). exists c', err. split; [done|]. naive_solver.
Qed.
End Socket.

(** ** A closed socket *)

(** After [Close] neither writes nor reads reach the socket, and closing again does
    nothing. *)
Theorem closed_socket_untouched {K} `{!PacketSocket K} (c : UDPConn (K := K)) closeErr (c1 := (UDPConn_Close c).1) :
  (UDPConn_Close c).2 = closeErr ->
  u_closed c1 = true /\ UDPConn_Close c1 = (c1, None) /\
  (forall iface src hop raddr buffer, writeToAddr c1 iface src hop raddr buffer = (c1, Some ErrConnectionIsClosed)) /\
  (forall buffer opts, (WriteWithOptions c1 buffer opts).1 = c1 /\ is_Some (WriteWithOptions c1 buffer opts).2) /\
  (forall size opts, exists e, ReadWithOptions c1 size opts = (c1, Err e)).
Proof.
  intros _. assert (u_closed c1 = true) as E by (subst c1; unfold UDPConn_Close; destruct (u_closed c) eqn:E; [done|]; by destruct (pk_Close (u_sock c))).
  clearbody c1. split; [done|]. split; [unfold UDPConn_Close; by rewrite E|]. split; [intros; unfold writeToAddr; by rewrite E|]. split.
  - intros buffer opts. unfold WriteWithOptions, writeWithCfg. destruct (w_RemoteAddr _); [|by split; [|eexists]].
    rewrite E. destruct (w_Ctx _) as [[e|]|]; by split; [|eexists].
  - intros size opts. unfold ReadWithOptions, readWithCfg. rewrite E. destruct (rd_Ctx _) as [[e|]|]; by eexists.
Qed.

(** *** An example *)
Module SocketSample.

(** A socket that keeps what is written to it, with the source; writes from the source
    [10.0.0.2] fail. *)
#[local] Instance keeper : PacketSocket (list (list byte * option (list byte))) := {
  pk_control k _ := (k, None);
  pk_SetMulticastInterface k _ _ := (k, None);
  pk_SetMulticastHopLimit k _ _ := (k, None);
  pk_WriteTo k _ data cm _ :=
    (k ++ [(data, cm ≫= Src)], if bool_decide ((cm ≫= Src) = Some [10; 0; 0; 2]) then Err (ErrOther "network is unreachable") else Ok (zlen data));
  pk_WriteMsg k data _ _ := (k ++ [(data, None)], Ok (zlen data));
  pk_Write k data := (k ++ [(data, None)], Ok (zlen data));
  pk_ReadFrom k _ _ := (k, Err ErrEOF);
  pk_Close k := (k, None)
}.

(** Texts that stand for the addresses with these last bytes: "2/8", "3/8" and ":4". *)
Definition parse (text : list byte) : option (list byte) :=
  match text with [b] => Some [10; 0; 0; b - 48] | _ => None end.
Definition here : Host :=
  mkHost (Ok [mkInterface 1 [108; 111] 1; mkInterface 2 [101] 17; mkInterface 3 [119] 17])
    (fun i => Ok (if if_Index i =? 2 then [[50; 47; 56]; [58; 52]; [51; 47; 56]] else [[53; 47; 56]])).
Definition socket : UDPConn (K := list (list byte * option (list byte))) := mkUDPConn [] false true None false [].
Definition group : UDPAddr := mkUDPAddr [224; 0; 1; 187] 5683 [].

(** The loopback interface and the address of the other family are left out; the failure of one
    source does not stop the others. *)
Example multicast_example :
  (fun r => (u_sock r.1, r.2)) <$> WriteMulticast parse here socket None (Some group) [7] [] =
  Some ([([7], Some [10; 0; 0; 2]); ([7], Some [10; 0; 0; 3]); ([7], Some [10; 0; 0; 5])], Some (ErrOther "network is unreachable")).
Proof. vm_compute. reflexivity. Qed.
End SocketSample.
