(* ===== verification/ClientApi.v ===== *)
(** * The request helpers of a client (src/net/client/client.go)

    [Get], [Post], [Observe] and their siblings take a message from the pool of the
    connection, set it up, hand it to [Do] or [DoObserve] and give it back.  The
    connection is the interface [ClientConn]; [ClientConnLaws] says what the helpers rely
    on: which messages are outstanding, and that sending a request leaves it with its
    owner.  Giving back a message that is not outstanding is outside the laws, so that
    the theorems also say that no helper does it.

    An operation is [None] when a setter of the message panics. *)
From stdpp Require Import prelude list gmap.
From Stdlib Require Import ZArith Lia.
From S2P Require Import Prelude Cast Codes OptionCodec Options Message PoolMessage.
#[local] Open Scope Z_scope.

Section ClientApi.
Context {Ctx CM B W R Ob P : Type}.
Notation M := (Msg Ctx CM B).
Implicit Types (s : W) (c : option Ctx) (path : list byte) (opts : Options) (m : M) (req : nat * M).

(** ** The connection *)

(** The state of a connection and of what it is connected to.  A message is known by a
    number; [R] is a response, [Ob] an observation and [P] the function that cancels a
    ping. *)
Class ClientConn : Type := {
  AcquireMessage : W -> option Ctx -> W * (nat * M);
  ReleaseMessage : W -> nat -> W;
  getToken : W -> W * result (list byte);
  Do : W -> nat * M -> W * result R;
  DoObserve : W -> nat * M -> W * result Ob;
  AsyncPing : W -> W * result P;
  cancelPing : W -> P -> W
}.

Class ClientConnLaws `{!ClientConn} : Type := {
  outstanding : W -> gset nat;
  acquire_spec : forall s c s' id m, AcquireMessage s c = (s', (id, m)) ->
    id ∉ outstanding s /\ outstanding s' = {[id]} ∪ outstanding s /\ body m = None /\ ctx m = c;
  release_spec : forall s id, id ∈ outstanding s -> outstanding (ReleaseMessage s id) = outstanding s ∖ {[id]};
  getToken_spec : forall s, outstanding (getToken s).1 = outstanding s;
  do_spec : forall s id m, id ∈ outstanding s -> id ∈ outstanding (Do s (id, m)).1;
  observe_spec : forall s id m, id ∈ outstanding s -> id ∈ outstanding (DoObserve s (id, m)).1
}.

Context `{!ClientConn}.

(** ** Creating requests *)

(** What the eight constructors of requests share; [setup] is their method of the message. *)
Definition new_request s c (setup : M -> option (list byte) -> option (M * option error)) : option (W * result (nat * M)) :=
  let '(s, (id, r)) := AcquireMessage s c in
  let '(s, token) := getToken s in
  match token with
  | Err e => Some (ReleaseMessage s id, Err e)
  | Ok token =>
      '(r, err) ← setup r (Some token);
      match err with
      | Some e => Some (ReleaseMessage s id, Err e)
      | None => Some (s, Ok (id, r))
      end
  end.

Definition NewGetRequest s c path opts := new_request s c (fun r token => SetupGet r path token opts).
Definition NewDeleteRequest s c path opts := new_request s c (fun r token => SetupDelete r path token opts).
Definition NewPostRequest s c path contentFormat payload opts :=
  new_request s c (fun r token => SetupPost r path token contentFormat payload opts).
Definition NewPutRequest s c path contentFormat payload opts :=
  new_request s c (fun r token => SetupPut r path token contentFormat payload opts).
Definition NewFetchRequest s c path contentFormat payload opts :=
  new_request s c (fun r token => SetupFetch r path token contentFormat payload opts).
Definition NewPatchRequest s c path contentFormat payload opts :=
  new_request s c (fun r token => SetupPatch r path token contentFormat payload opts).
Definition NewIPatchRequest s c path contentFormat payload opts :=
  new_request s c (fun r token => SetupIPatch r path token contentFormat payload opts).

Definition NewObserveRequest s c path opts : option (W * result (nat * M)) :=
  '(s, req) ← NewGetRequest s c path opts;
  match req with
  | Err e => Some (s, Err e)
  | Ok (id, r) => r ← Msg_SetObserve r 0; Some (s, Ok (id, r))
  end.

(** ** Issuing requests *)

(** The request is given back when the call returns. *)
Definition do_request {A} (send : W -> nat * M -> W * result A) (new : option (W * result (nat * M))) : option (W * result A) :=
  '(s, req) ← new;
  match req with
  | Err e => Some (s, Err e)
  | Ok req => let '(s, resp) := send s req in Some (ReleaseMessage s req.1, resp)
  end.

Definition Get s c path opts := do_request Do (NewGetRequest s c path opts).
Definition Delete s c path opts := do_request Do (NewDeleteRequest s c path opts).
Definition Post s c path contentFormat payload opts := do_request Do (NewPostRequest s c path contentFormat payload opts).
Definition Put s c path contentFormat payload opts := do_request Do (NewPutRequest s c path contentFormat payload opts).
Definition Fetch s c path contentFormat payload opts := do_request Do (NewFetchRequest s c path contentFormat payload opts).
Definition Patch s c path contentFormat payload opts := do_request Do (NewPatchRequest s c path contentFormat payload opts).
Definition IPatch s c path contentFormat payload opts := do_request Do (NewIPatchRequest s c path contentFormat payload opts).
Definition api_Observe s c path opts := do_request DoObserve (NewObserveRequest s c path opts).

(** ** Pings *)

(** The callback: [resp] is the number of values in the channel, whose capacity is one. *)
Definition receivedPong (resp : nat) : nat := if bool_decide (resp < 1)%nat then S resp else resp.

(** The final [select] after [pongs] calls of the callback; [prefer] is the choice when
    both cases are ready, and [None] means that the call still waits. *)
Definition Ping_select (pongs : nat) (ctxErr : option error) (prefer : bool) : option (option error) :=
  match Nat.iter pongs receivedPong O, ctxErr with
  | O, None => None
  | O, Some e => Some (Some e)
  | _, None => Some None
  | _, Some e => Some (if prefer then None else Some e)
  end.

Definition Ping s (pongs : nat) (ctxErr : option error) (prefer : bool) : option (W * option error) :=
  let '(s, cancel) := AsyncPing s in
  match cancel with
  | Err e => Some (s, Some e)
  | Ok cancel => err ← Ping_select pongs ctxErr prefer; Some (cancelPing s cancel, err)
  end.

(** ** The calls by method *)

Inductive verb : Type := VGet | VDelete | VPost | VPut | VFetch | VPatch | VIPatch.

Definition verb_code (v : verb) : Z :=
  match v with
  | VGet => GET | VDelete => DELETE | VPost => POST | VPut => PUT | VFetch => FETCH | VPatch => PATCH | VIPatch => IPATCH
  end.

Definition sends_payload (v : verb) : bool := match v with VGet | VDelete => false | _ => true end.

Definition issue (v : verb) s c path (contentFormat : Z) (payload : option (Reader + B)) opts : option (W * result R) :=
  match v with
  | VGet => Get s c path opts
  | VDelete => Delete s c path opts
  | VPost => Post s c path contentFormat payload opts
  | VPut => Put s c path contentFormat payload opts
  | VFetch => Fetch s c path contentFormat payload opts
  | VPatch => Patch s c path contentFormat payload opts
  | VIPatch => IPatch s c path contentFormat payload opts
  end.

(** The message that a call asks for: [extra] is the option it sets by itself. *)
Definition asked c (code : Z) (tok path : list byte) (extra : option Option) (payload : option (Reader + B)) opts m : Prop :=
  ctx m = c /\ mCode (msg m) = code /\ token (msg m) = tok /\ body m = payload /\ msg_ok m /\
  forall id, vals (opts_of m) id =
    match extra with
    | Some o => if decide (id = ID o) then [Value o] else if decide (id = URIPath) then segments path else vals opts id
    | None => if decide (id = URIPath) then segments path else vals opts id
    end.
End ClientApi.
Arguments ClientConn : clear implicits.
Arguments ClientConnLaws _ _ _ _ _ _ _ {_}.

(** ** Setting up a request *)

Section setup.
Context {Ctx CM B : Type}.
Notation M := (Msg Ctx CM B).
Implicit Types (r : M) (path : list byte) (opts : Options).

(** A change of the options leaves the rest of what was asked for. *)
Definition kept r r' : Prop :=
  ctx r' = ctx r /\ mCode (msg r') = mCode (msg r) /\ mToken (msg r') = mToken (msg r) /\ body r' = body r.

Lemma kept_commit r buf o used : kept r (commit r buf o used).
Proof. done. Qed.

Lemma SetPath_invalid options buf path :
  segments_fit path = false -> SetPath options buf path = (buf, (Remove_array options URIPath, (-1, Some ErrInvalidValueLength))).
Proof.
  intros Hfit. unfold SetPath, setPath. destruct path as [|x path]; [done|].
  set (p := if x =? slash then path else x :: path).
  assert (segments p = segments (x :: path)) as Ep.
  { unfold p. destruct (Z.eqb_spec x slash) as [->|]; [by rewrite segments_slash|done]. }
  unfold GetPathBufferSize. rewrite GetPathBufferSize_loop_spec by lia. unfold segments_fit in *. by rewrite Ep, Hfit.
Qed.

Lemma Msg_SetPath_invalid r path : segments_fit path = false -> (Msg_SetPath r path).2 = Some ErrInvalidValueLength.
Proof. intros Hfit. unfold Msg_SetPath. by rewrite SetPath_invalid. Qed.

(** A valid path, the empty ones included, on a message without one. *)
Lemma Msg_SetPath_fresh r path :
  msg_ok r -> vals (opts_of r) URIPath = [] -> segments_fit path = true ->
  exists r', Msg_SetPath r path = (r', None) /\ kept r r' /\ msg_ok r' /\
    forall id, vals (opts_of r') id = if decide (id = URIPath) then segments path else vals (opts_of r) id.
Proof.
  intros Hok Hv Hfit. destruct (decide (path = [])) as [->|Hp].
  { exists (commit r (valueBuffer r) (opts_of r) 0). split; [done|]. split; [done|]. split; [done|].
    intros id. rewrite opts_of_commit. by case_decide; subst. }
  pose proof (fun o buf => SetPath_result o buf path Hp Hfit) as HS. set (size := zlen (concat (segments path))) in *.
  assert (forall buf r0 used, kept r r0 ->
    let r' := commit r0 buf (add_segments (Remove (opts_of r) URIPath) URIPath (segments path)) used in
    kept r r' /\ msg_ok r' /\ forall id, vals (opts_of r') id = if decide (id = URIPath) then segments path else vals (opts_of r) id) as Hfin.
  { intros buf r0 used Hk r'. split; [exact Hk|]. unfold r', msg_ok. rewrite opts_of_commit.
    destruct (Remove_vals (opts_of r) URIPath Hok) as [HsR HvR].
    destruct (add_segments_vals (Remove (opts_of r) URIPath) URIPath (segments path) HsR) as [HsA HvA].
    split; [done|]. intros id. rewrite HvA, HvR. by case_decide. }
  unfold Msg_SetPath. fold (opts_of r). pose proof (HS (opts_of r) (valueBuffer r)) as H1.
  destruct (Z.leb_spec size (zlen (valueBuffer r))) as [Hle|Hgt].
  - destruct H1 as [buf' ->]. rewrite bool_decide_false by done. eexists. split; [done|]. by apply Hfin.
  - rewrite H1, bool_decide_true by done. rewrite Remove_array_absent by done.
    unfold GetPathBufferSize. rewrite GetPathBufferSize_loop_spec, Hfit, Z.add_0_l by lia.
    change (mOptions (msg (set_options r (opts_of r)))) with (opts_of r). fold size.
    pose proof (HS (opts_of r) (valueBuffer r ++ make_bytes size)) as H2. pose proof (zlen_nonneg (valueBuffer r)).
    pose proof (zlen_nonneg (concat (segments path))). rewrite zlen_app, zlen_make_bytes in H2 by (unfold size; lia).
    destruct (Z.leb_spec size (zlen (valueBuffer r) + size)); [|lia]. destruct H2 as [buf' ->].
    eexists. split; [done|]. by apply Hfin.
Qed.

Lemma SetOptionUint32_kept r id v :
  msg_ok r -> 0 <= v < 2 ^ 32 ->
  exists r', SetOptionUint32 r id v = Some r' /\ kept r r' /\ msg_ok r' /\
    forall id', vals (opts_of r') id' = if decide (id' = id) then [uint_bytes v] else vals (opts_of r) id'.
Proof.
  intros Hok Hv. destruct (SetOptionUint32_ok r id v Hv) as [buf ->]. eexists. split; [done|]. split; [apply kept_commit|].
  exact (Set_vals zeroOption (opts_of r) (mkOption id (uint_bytes v)) Hok).
Qed.

Lemma token_SetToken r t : token (msg (SetToken r (Some t))) = t.
Proof. unfold SetToken, token. by destruct t, (mToken (msg r)). Qed.

(** [setupCommon]: no panic, an error exactly for a segment that is too long, and otherwise the request. *)
Lemma setupCommon_spec r code path tok opts :
  sorted_opts opts -> vals opts URIPath = [] ->
  exists r', setupCommon r code path (Some tok) opts = Some (r', if segments_fit path then None else Some ErrInvalidValueLength) /\
    (segments_fit path = true -> asked (ctx r) code tok path None (body r) opts r').
Proof.
  intros Hs Hv. unfold setupCommon.
  destruct (Msg_ResetOptionsTo_spec (SetToken (SetCode r code) (Some tok)) opts Hs)
    as (r1 & -> & Ho & Hb & Ht & Hc & _ & _ & _ & Hx). cbn [mbind option_bind].
  assert (msg_ok r1) as Hok1 by (unfold msg_ok; by rewrite Ho).
  destruct (segments_fit path) eqn:Hfit.
  - destruct (Msg_SetPath_fresh r1 path Hok1 ltac:(by rewrite Ho) Hfit) as (r2 & -> & (K1 & K2 & K3 & K4) & Hok2 & Hvals).
    exists r2. split; [done|]. intros _. rewrite Ho in Hvals. split_and!; try done.
    + by rewrite K1, Hx.
    + by rewrite K2, Hc.
    + unfold token. rewrite K3, Ht. exact (token_SetToken (SetCode r code) tok).
    + by rewrite K4, Hb.
  - pose proof (Msg_SetPath_invalid r1 path Hfit) as H. destruct (Msg_SetPath r1 path) as [r2 err]. cbn [snd] in H. subst err.
    exists r2. by split.
Qed.

Lemma asked_set r c code tok path payload opts o :
  asked c code tok path None payload opts r -> 0 <= o.2 < 2 ^ 32 ->
  exists r', SetOptionUint32 r o.1 o.2 = Some r' /\ asked c code tok path (Some (mkOption o.1 (uint_bytes o.2))) payload opts r'.
Proof.
  intros (H1 & H2 & H3 & H4 & H5 & H6) Hv.
  destruct (SetOptionUint32_kept r o.1 o.2 H5 Hv) as (r' & -> & (K1 & K2 & K3 & K4) & Hok & Hvals).
  exists r'. split; [done|]. unfold asked, token. rewrite K1, K2, K3, K4. split_and!; try done.
  intros id. rewrite Hvals, H6. cbn [ID Value]. by repeat case_decide.
Qed.

(** The option that the methods with a payload add. *)
Definition content_option (contentFormat : Z) (payload : option (Reader + B)) : option Option :=
  match payload with Some _ => Some (mkOption ContentFormat (uint_bytes contentFormat)) | None => None end.

Lemma setup_with_payload_spec code r path tok cf payload opts :
  sorted_opts opts -> vals opts URIPath = [] -> 0 <= cf < 2 ^ 32 -> body r = None ->
  exists r', setup_with_payload code r path (Some tok) cf payload opts = Some (r', if segments_fit path then None else Some ErrInvalidValueLength) /\
    (segments_fit path = true -> asked (ctx r) code tok path (content_option cf payload) payload opts r').
Proof.
  intros Hs Hv Hcf Hb. unfold setup_with_payload.
  destruct (setupCommon_spec r code path tok opts Hs Hv) as (r1 & -> & Ha). cbn [mbind option_bind]. rewrite Hb in Ha.
  destruct (segments_fit path); [|exists r1; by split]. specialize (Ha eq_refl).
  destruct payload as [b|]; [|exists r1; by split].
  destruct (asked_set r1 _ _ _ _ _ _ (ContentFormat, cf) Ha Hcf) as (r2 & E & Ha2). cbn [fst snd] in E.
  unfold Msg_SetContentFormat. rewrite E. cbn [mbind option_bind]. eexists. split; [done|]. intros _.
  destruct Ha2 as (A1 & A2 & A3 & A4 & A5 & A6). by split_and!.
Qed.
End setup.

(** ** The life of a request *)

Section lifecycle.
Context {Ctx CM B W R Ob P : Type} `{!ClientConn Ctx CM B W R Ob P} `{!ClientConnLaws Ctx CM B W R Ob P}.
Notation M := (Msg Ctx CM B).
Implicit Types (s : W) (c : option Ctx) (path : list byte) (opts : Options) (m : M).

(** [setup] gives the asked message, or the error for a path that is too long. *)
Definition setup_ok c (ask : list byte -> M -> Prop) path (setup : M -> option (list byte) -> option (M * option error)) : Prop :=
  forall r tok, body r = None -> ctx r = c ->
    exists r', setup r (Some tok) = Some (r', if segments_fit path then None else Some ErrInvalidValueLength) /\
      (segments_fit path = true -> ask tok r').

(** What a call does: nothing stays outstanding after an error, and what [send] was
    given is what was asked for and is given back, once. *)
Definition call_outcome {A} (send : W -> nat * M -> W * result A) s c path (ask : list byte -> M -> Prop) (res : option (W * result A)) : Prop :=
  exists s0 id m0 s1 tok s' r,
    AcquireMessage s c = (s0, (id, m0)) /\ getToken s0 = (s1, tok) /\ res = Some (s', r) /\
    match tok with
    | Err e => r = Err e /\ outstanding s' = outstanding s
    | Ok tok =>
        if segments_fit path
        then exists m s2, ask tok m /\ outstanding s1 = {[id]} ∪ outstanding s /\ send s1 (id, m) = (s2, r) /\
               outstanding s' = outstanding s2 ∖ {[id]}
        else r = Err ErrInvalidValueLength /\ outstanding s' = outstanding s
    end.

(** A new request: outstanding if the caller gets it, given back if not. *)
Lemma new_request_spec s c path ask setup :
  setup_ok c ask path setup ->
  exists s0 id m0 s1 tok, AcquireMessage s c = (s0, (id, m0)) /\ getToken s0 = (s1, tok) /\
    id ∉ outstanding s /\ outstanding s1 = {[id]} ∪ outstanding s /\
    match tok with
    | Err e => new_request s c setup = Some (ReleaseMessage s1 id, Err e)
    | Ok tok => if segments_fit path then exists m, ask tok m /\ new_request s c setup = Some (s1, Ok (id, m))
                else new_request s c setup = Some (ReleaseMessage s1 id, Err ErrInvalidValueLength)
    end.
Proof.
  intros Hset. unfold new_request. destruct (AcquireMessage s c) as [s0 [id m0]] eqn:EA.
  destruct (acquire_spec _ _ _ _ _ EA) as (Hid & Ho & Hb & Hc). pose proof (getToken_spec s0) as Ht.
  destruct (getToken s0) as [s1 tok] eqn:ET. cbn [fst] in Ht. exists s0, id, m0, s1, tok. rewrite Ht.
  split_and!; try done. destruct tok as [tok|e]; [|done].
  destruct (Hset m0 tok Hb Hc) as (m & -> & Hask). cbn [mbind option_bind].
  destruct (segments_fit path); [|done]. exists m. by split; [apply Hask|].
Qed.

Lemma release_new s1 id (X : gset nat) :
  id ∉ X -> outstanding s1 = {[id]} ∪ X -> outstanding (ReleaseMessage s1 id) = X.
Proof. intros Hid Ho. rewrite release_spec, Ho; [|rewrite Ho]; set_solver. Qed.

Lemma do_request_spec {A} (send : W -> nat * M -> W * result A) s c path ask setup :
  (forall s id m, id ∈ outstanding s -> id ∈ outstanding (send s (id, m)).1) ->
  setup_ok c ask path setup -> call_outcome send s c path ask (do_request send (new_request s c setup)).
Proof.
  intros Hsend Hset. destruct (new_request_spec s c path ask setup Hset) as (s0 & id & m0 & s1 & tok & EA & ET & Hid & Ho & H).
  pose proof (release_new s1 id _ Hid Ho) as Hrel. exists s0, id, m0, s1, tok. unfold do_request.
  destruct tok as [tok|e].
  - destruct (segments_fit path).
    + destruct H as (m & Hask & ->). cbn [mbind option_bind fst]. destruct (send s1 (id, m)) as [s2 r] eqn:ES.
      exists (ReleaseMessage s2 id), r. split_and!; try done. exists m, s2. split_and!; try done. apply release_spec.
      specialize (Hsend s1 id m ltac:(rewrite Ho; set_solver)). by rewrite ES in Hsend.
    + rewrite H. eexists _, _. by split_and!.
  - rewrite H. eexists _, _. by split_and!.
Qed.

(** The extra option and the body of a request of a method. *)
Definition verb_extra (v : verb) (cf : Z) (payload : option (Reader + B)) : option Option :=
  if sends_payload v then content_option cf payload else None.
Definition verb_body (v : verb) (payload : option (Reader + B)) : option (Reader + B) := if sends_payload v then payload else None.

(** C11: Every request helper of a client, [Get], [Post], [Put], [Delete], [Fetch],
    [Patch] and [IPatch], for options that are sorted and have no path: it never panics,
    and it asks for a message and a token first.  When there is no token, or a segment of
    the path is longer than 255 bytes, it fails with that error and has given the message
    back.  Otherwise the message given to [Do] has the context, the code of the method,
    the token, the segments of the path, the given options and, if there is a payload,
    that body with its content format; the result is that of [Do], and the message is given
    back once, after [Do], whatever the result. *)
Theorem request_lifecycle (v : verb) s c path cf payload opts
    (Hsorted : sorted_opts opts) (Hpath : vals opts URIPath = []) (Hcf : 0 <= cf < 2 ^ 16) :
  call_outcome Do s c path
    (fun tok => asked c (verb_code v) tok path (verb_extra v cf payload) (verb_body v payload) opts)
    (issue v s c path cf payload opts).
Proof.
  destruct v; cbn [issue]; apply do_request_spec; try exact do_spec; intros r tok Hb <-;
    solve [destruct (setupCommon_spec r (verb_code VGet) path tok opts Hsorted Hpath) as (r' & E & Ha); rewrite Hb in Ha; by exists r'
          |destruct (setupCommon_spec r (verb_code VDelete) path tok opts Hsorted Hpath) as (r' & E & Ha); rewrite Hb in Ha; by exists r'
          |apply setup_with_payload_spec; done || lia].
Qed.

(** The same for [Observe], whose request is a [GET] with the option 0. *)
Theorem observe_lifecycle s c path opts (Hsorted : sorted_opts opts) (Hpath : vals opts URIPath = []) :
  call_outcome DoObserve s c path
    (fun tok => asked c GET tok path (Some (mkOption Observe [])) None opts) (api_Observe s c path opts).
Proof.
  unfold api_Observe, NewObserveRequest, NewGetRequest.
  pose proof (do_request_spec DoObserve s c path (fun tok => asked c GET tok path (Some (mkOption Observe [])) None opts)
    (fun r token => '(r, err) ← SetupGet r path token opts;
       match err with Some e => Some (r, Some e) | None => r ← Msg_SetObserve r 0; Some (r, None) end) observe_spec) as H.
  assert (forall s, ('(s, req) ← new_request s c (fun r token => SetupGet r path token opts);
      match req with Err e => Some (s, Err e) | Ok (id, r) => r ← Msg_SetObserve r 0; Some (s, Ok (id, r)) end) =
    new_request s c (fun r token => '(r, err) ← SetupGet r path token opts;
       match err with Some e => Some (r, Some e) | None => r ← Msg_SetObserve r 0; Some (r, None) end)) as E.
  { intros s'. unfold new_request. destruct (AcquireMessage s' c) as [s0 [id m0]], (getToken s0) as [s1 [tok|e]]; [|done].
    destruct (SetupGet m0 path (Some tok) opts) as [[r [e|]]|]; cbn; [done| |done]. by destruct (Msg_SetObserve r 0). }
  rewrite E. apply H. intros r tok Hb <-. unfold SetupGet.
  destruct (setupCommon_spec r GET path tok opts Hsorted Hpath) as (r' & -> & Ha). rewrite Hb in Ha. cbn [mbind option_bind].
  destruct (segments_fit path); [|by exists r']. specialize (Ha eq_refl).
  destruct (asked_set r' _ _ _ _ _ _ (Observe, 0) Ha ltac:(cbn; lia)) as (r2 & E2 & Ha2).
  cbn [fst snd] in E2. unfold Msg_SetObserve. rewrite E2. by exists r2.
Qed.
End lifecycle.

(** [Ping] waits only while no pong came and its context is not done, however often the
    callback runs, and it cancels the ping when it returns. *)
Lemma Ping_returns {Ctx CM B W R Ob P} `{!ClientConn Ctx CM B W R Ob P} (s s' : W) cancel pongs ctxErr prefer :
  AsyncPing s = (s', Ok cancel) ->
  match Ping s pongs ctxErr prefer with
  | None => pongs = 0%nat /\ ctxErr = None
  | Some (s'', None) => s'' = cancelPing s' cancel /\ (0 < pongs)%nat
  | Some (s'', Some e) => s'' = cancelPing s' cancel /\ ctxErr = Some e
  end.
Proof.
  intros E. unfold Ping, Ping_select. rewrite E.
  assert (Nat.iter pongs receivedPong 0%nat = if decide (pongs = 0)%nat then 0%nat else 1%nat) as ->.
  { induction pongs as [|n IH]; [done|]. rewrite Nat.iter_succ, IH. by destruct n. }
  case_decide as Hp; destruct ctxErr as [e|]; try destruct prefer; cbn; auto with lia.
Qed.

(** ** A connection that follows a script *)

Module ScriptConn.
Record script : Type := mkScript {
  out : gset nat;
  tokens : list (result (list byte));
  responses : list (result Z);
  sent : list (nat * Msg unit unit Reader)
}.

Definition acquire (s : script) (c : option unit) : script * (nat * Msg unit unit Reader) :=
  let id := fresh (out s) in
  (mkScript ({[id]} ∪ out s) (tokens s) (responses s) (sent s), (id, NewMessage c)).

#[export] Instance script_conn : ClientConn unit unit Reader script Z unit unit := {|
  AcquireMessage := acquire;
  ReleaseMessage s id := mkScript (out s ∖ {[id]}) (tokens s) (responses s) (sent s);
  getToken s := (mkScript (out s) (tail (tokens s)) (responses s) (sent s), default (Err ErrEOF) (head (tokens s)));
  Do s req := (mkScript (out s) (tokens s) (tail (responses s)) (sent s ++ [req]), default (Err ErrEOF) (head (responses s)));
  DoObserve s req := (mkScript (out s) (tokens s) (responses s) (sent s ++ [req]), Ok tt);
  AsyncPing s := (s, Ok tt);
  cancelPing s _ := s
|}.

#[export] Program Instance script_laws : ClientConnLaws unit unit Reader script Z unit unit := {| outstanding := out |}.
Next Obligation.
  intros s c s' id m E. cbn in E. injection E as <- <- <-. cbn. split_and!; try done. apply is_fresh.
Qed.
Next Obligation. done. Qed.
Next Obligation. done. Qed.
Next Obligation. done. Qed.
Next Obligation. done. Qed.

Definition start : script := mkScript ∅ [Ok [1; 2]] [Ok 69] [].
Definition query : Options := [mkOption URIQuery [97]].
End ScriptConn.
#[local] Existing Instance ScriptConn.script_conn.
#[local] Existing Instance ScriptConn.script_laws.

Definition sample_payload : option (Reader + Reader) := Some (inl (NewReader [7])).

Lemma request_lifecycle_witness :
  call_outcome Do ScriptConn.start None sample_path
    (fun tok => asked None (verb_code VPost) tok sample_path (verb_extra VPost 50 sample_payload) (verb_body VPost sample_payload) ScriptConn.query)
    (issue VPost ScriptConn.start None sample_path 50 sample_payload ScriptConn.query).
Proof.
  exact (request_lifecycle VPost ScriptConn.start None sample_path 50 sample_payload ScriptConn.query
    ltac:(repeat constructor) eq_refl ltac:(lia)).
Defined.

(** What the peer sees of a POST and what stays outstanding. *)
Example post_example :
  exists s, Post ScriptConn.start None sample_path 50 sample_payload ScriptConn.query = Some (s, Ok 69) /\
    ScriptConn.out s = ∅ /\
    (fun req : nat * Msg unit unit Reader => (mCode (msg req.2), token (msg req.2), mOptions (msg req.2))) <$> ScriptConn.sent s =
      [(POST, [1; 2], [mkOption URIPath [102; 111; 111]; mkOption URIPath [98]; mkOption ContentFormat [50]; mkOption URIQuery [97]])].
Proof. eexists. split; [vm_compute; reflexivity|]. split; vm_compute; reflexivity. Qed.
