(* ===== verification/Discover.v ===== *)
(** * Discovery (src/udp/server/discover.go, the handler of src/udp/server/server.go)

    A server sends a request to a multicast or unicast address and passes the responses,
    from whatever address they come, to a receiver until the request's context is
    done.  Discoveries run beside one another and beside the responses: each call is a
    sequence of events on the two tables of the server, and responses come in between.
    The calls of the receivers and of the server's own handler are kept in logs. *)
From stdpp Require Import prelude list strings gmap.
From Stdlib Require Import ZArith Lia.
From S2P Require Import ClientApi SyncMap Crc64 TcpConn KeepAlive Prelude Cast Codes OptionCodec Options Message PoolMessage BlockCodec Assembly UdpConn UdpServer UdpSocket.
From S2P Require Import Observation EngineMessage ResponseWriter ExchangeKey Blockwise QBudget QEngine QServe QReceive QClient QConn QSelect.
#[local] Open Scope Z_scope.

Definition errInvalidToken : error := ErrOther "invalid token".
Definition errNotServing : error := ErrOther "server doesn't serve connection".
Definition errServerClosed : error := ErrOther "server was closed".

Section Discover.
Context {K : Type} `{!PacketSocket K} (ParseIP : list byte -> option (list byte)) (host : Host).

(** ** State *)

(** A call is after [multicastRequests.Store], after the registration of its handler, or
    waiting; or it has returned. *)
Inductive dstage : Type := DStored | DRegistered | DWaiting | DOver (err : option error).

Record dcall : Type := mkDcall { dc_req : EMsg; dc_addr : UDPAddr; dc_data : list byte; dc_stage : dstage }.

Record Discoveries : Type := mkDiscoveries {
  multicastRequests : gmap Z EMsg;
  multicastHandler : gmap Z nat;
  dv_calls : gmap nat dcall;
  dv_conn : UDPConn (K := K);
  dv_received : list (nat * EMsg);
  dv_passed : list EMsg
}.
Implicit Types (s : Discoveries) (d : nat) (c : dcall).

Definition dv_with s (requests : gmap Z EMsg) (handlers : gmap Z nat) (calls : gmap nat dcall) : Discoveries :=
  mkDiscoveries requests handlers calls (dv_conn s) (dv_received s) (dv_passed s).

Definition dkey c : Z := Token_Hash (e_token (dc_req c)).
Definition at_dstage c (st : dstage) : dcall := mkDcall (dc_req c) (dc_addr c) (dc_data c) st.

(** ** A call of [DiscoveryRequest] *)

(** Up to the first change of a table; [resolved] is the address. *)
Definition DiscoveryRequest_begin s d (req : EMsg) (mid : Z) (listening : bool) (resolved : result UDPAddr) : Discoveries :=
  let return_ (e : error) := dv_with s (multicastRequests s) (multicastHandler s)
    (<[d := mkDcall req (mkUDPAddr [] 0 []) [] (DOver (Some e))]> (dv_calls s)) in
  if zlen (e_token req) =? 0 then return_ errInvalidToken else
  if negb listening then return_ errNotServing else
  match resolved with
  | Err e => return_ e
  | Ok addr =>
      match e_Marshal req mid with
      | Err e => return_ e
      | Ok data =>
          dv_with s (Store (multicastRequests s) (Token_Hash (e_token req)) req) (multicastHandler s)
            (<[d := mkDcall req addr data DStored]> (dv_calls s))
      end
  end.

(** The deferred functions: the handler first, if it was registered. *)
Definition DiscoveryRequest_return s d c (registered : bool) (err : option error) : Discoveries :=
  let handlers := if registered then (LoadAndDelete 0%nat (multicastHandler s) (dkey c)).1 else multicastHandler s in
  dv_with s (Delete (multicastRequests s) (dkey c)) handlers (<[d := at_dstage c (DOver err)]> (dv_calls s)).

Definition DiscoveryRequest_register s d c : Discoveries :=
  let '(handlers, (_, loaded)) := LoadOrStore 0%nat (multicastHandler s) (dkey c) d in
  if loaded then DiscoveryRequest_return s d c false (Some ErrKeyAlreadyExists)
  else dv_with s (multicastRequests s) handlers (<[d := at_dstage c DRegistered]> (dv_calls s)).

(** [ctxErr] is the state of the request's context; [None] is a panic. *)
Definition DiscoveryRequest_send s d c (ctxErr : option error) (opts : list MulticastOption) : option Discoveries :=
  '(conn, err) ← (if IsMulticast (ua_ip (dc_addr c)) then WriteMulticast ParseIP host (dv_conn s) ctxErr (Some (dc_addr c)) (dc_data c) opts
                  else Some (UDPConn_WriteWithContext (dv_conn s) ctxErr (Some (dc_addr c)) (dc_data c)));
  let s := mkDiscoveries (multicastRequests s) (multicastHandler s) (dv_calls s) conn (dv_received s) (dv_passed s) in
  Some (match err with
        | Some e => DiscoveryRequest_return s d c true (Some e)
        | None => dv_with s (multicastRequests s) (multicastHandler s) (<[d := at_dstage c DWaiting]> (dv_calls s))
        end).

(** The [select]: the request's context or the server's is done. *)
Definition DiscoveryRequest_end s d c (serverDone : bool) : Discoveries :=
  DiscoveryRequest_return s d c true (if serverDone then Some errServerClosed else None).

(** ** Responses *)

(** The handler that the server gives its connections. *)
Definition conn_Handler s (r : EMsg) : Discoveries :=
  match multicastHandler s !! Token_Hash (e_token r) with
  | Some d => mkDiscoveries (multicastRequests s) (multicastHandler s) (dv_calls s) (dv_conn s) (dv_received s ++ [(d, r)]) (dv_passed s)
  | None => mkDiscoveries (multicastRequests s) (multicastHandler s) (dv_calls s) (dv_conn s) (dv_received s) (dv_passed s ++ [r])
  end.

(** The request for the block-wise engine of a connection: that of an observation or of a
    discovery. *)
Definition getSentRequestFromOutside s (observed : option EMsg) (tok : list byte) : option EMsg :=
  match observed with
  | Some m => Some m
  | None =>
      m ← multicastRequests s !! Token_Hash tok;
      Some (e_SetToken (e_SetCode (e_ResetOptionsTo (AcquireMessage (e_deadline m)) (e_options m)) (e_code m)) (e_token m))
  end.

(** ** Events *)

Inductive devent : Type :=
  | DBegin (d : nat) (req : EMsg) (mid : Z) (listening : bool) (resolved : result UDPAddr)
  | DRegister (d : nat)
  | DSend (d : nat) (ctxErr : option error) (opts : list MulticastOption)
  | DEnd (d : nat) (serverDone : bool)
  | DResponse (r : EMsg).

Definition d_step s (e : devent) : Discoveries :=
  match e with
  | DBegin d req mid listening resolved =>
      match dv_calls s !! d with None => DiscoveryRequest_begin s d req mid listening resolved | Some _ => s end
  | DRegister d =>
      match dv_calls s !! d with
      | Some c => match dc_stage c with DStored => DiscoveryRequest_register s d c | _ => s end
      | None => s
      end
  | DSend d ctxErr opts =>
      match dv_calls s !! d with
      | Some c => match dc_stage c with DRegistered => default s (DiscoveryRequest_send s d c ctxErr opts) | _ => s end
      | None => s
      end
  | DEnd d serverDone =>
      match dv_calls s !! d with
      | Some c => match dc_stage c with DWaiting => DiscoveryRequest_end s d c serverDone | _ => s end
      | None => s
      end
  | DResponse r => conn_Handler s r
  end.

Definition d_run s (es : list devent) : Discoveries := fold_left d_step es s.
Definition d_start (conn : UDPConn (K := K)) : Discoveries := mkDiscoveries ∅ ∅ ∅ conn [] [].

(** ** Invariant *)

Definition registered c : Prop := dc_stage c = DRegistered \/ dc_stage c = DWaiting.
Definition returned c : Prop := exists err, dc_stage c = DOver err.

Record d_ok s : Prop := mkDOk {
  do_handlers : forall k d, multicastHandler s !! k = Some d <-> exists c, dv_calls s !! d = Some c /\ registered c /\ dkey c = k;
  do_requests : forall k r, multicastRequests s !! k = Some r -> exists d c, dv_calls s !! d = Some c /\ ~ returned c /\ dc_req c = r /\ dkey c = k
}.

Lemma d_ok_calls s s' : multicastHandler s' = multicastHandler s -> multicastRequests s' = multicastRequests s -> dv_calls s' = dv_calls s -> d_ok s -> d_ok s'.
Proof. intros E1 E2 E3 []. split; by rewrite ?E1, ?E2, ?E3. Qed.

(** A call that is not registered before or after. *)
Lemma handlers_same s d c' :
  d_ok s -> (forall c, dv_calls s !! d = Some c -> ~ registered c) -> ~ registered c' ->
  forall k d0, multicastHandler s !! k = Some d0 <-> exists c, <[d := c']> (dv_calls s) !! d0 = Some c /\ registered c /\ dkey c = k.
Proof.
  intros [Hh _] Hno Hno' k d0. rewrite Hh. split; intros (c & Hc & Hr & Hk).
  - exists c. rewrite lookup_insert_ne; [done|]. intros <-. by destruct (Hno c).
  - exists c. apply lookup_insert_Some in Hc as [[<- <-]|[_ Hc]]; [done|]. done.
Qed.

Lemma d_ok_begin s d req mid listening resolved : dv_calls s !! d = None -> d_ok s -> d_ok (DiscoveryRequest_begin s d req mid listening resolved).
Proof.
  intros Hd Hok. assert (forall c', ~ registered c' -> forall k d0, multicastHandler s !! k = Some d0 <->
    exists c, <[d := c']> (dv_calls s) !! d0 = Some c /\ registered c /\ dkey c = k) as Hh by (intros c'; apply handlers_same; [done|by rewrite Hd]).
  assert (forall c', forall k r, multicastRequests s !! k = Some r -> exists d0 c, <[d := c']> (dv_calls s) !! d0 = Some c /\ ~ returned c /\ dc_req c = r /\ dkey c = k) as Hr.
  { intros c' k r Hk. destruct (do_requests _ Hok k r Hk) as (d0 & c & Hc & Hrest). exists d0, c. rewrite lookup_insert_ne; [done|]. intros <-. by rewrite Hd in Hc. }
  unfold DiscoveryRequest_begin. cbv zeta.
  assert (forall c' e, dc_stage c' = DOver e -> ~ registered c') as Hover by (intros c' e E [H|H]; by rewrite E in H).
  destruct (_ =? _); [split; cbn; [by eapply Hh, Hover|apply Hr]|]. destruct (negb listening); [split; cbn; [by eapply Hh, Hover|apply Hr]|].
  destruct resolved as [addr|e]; [|split; cbn; [by eapply Hh, Hover|apply Hr]].
  destruct (e_Marshal req mid) as [data|e]; [|split; cbn; [by eapply Hh, Hover|apply Hr]].
  split; cbn; [apply Hh; by intros [?|?]|]. intros k r. unfold Store. rewrite lookup_insert_Some. intros [[<- <-]|[_ Hk]]; [|by apply Hr].
  eexists d, _. rewrite lookup_insert_eq. split; [done|]. split; [by intros [??]|done].
Qed.

Lemma LoadAndDelete_map (m : gmap Z nat) k : (LoadAndDelete 0%nat m k).1 = delete k m.
Proof. unfold LoadAndDelete. by destruct (index _ _ _). Qed.

Lemma requests_return s d c err :
  d_ok s -> dv_calls s !! d = Some c ->
  forall k r, Delete (multicastRequests s) (dkey c) !! k = Some r ->
    exists d0 c0, <[d := at_dstage c (DOver err)]> (dv_calls s) !! d0 = Some c0 /\ ~ returned c0 /\ dc_req c0 = r /\ dkey c0 = k.
Proof.
  intros Hok Hc k r. unfold Delete. rewrite lookup_delete_Some. intros [Hne Hk]. destruct (do_requests _ Hok k r Hk) as (d0 & c0 & Hc0 & Hr & Eq & Ek).
  exists d0, c0. rewrite lookup_insert_ne; [done|]. intros <-. rewrite Hc in Hc0. injection Hc0 as <-. done.
Qed.

Lemma d_ok_return_registered s d c err : dv_calls s !! d = Some c -> registered c -> d_ok s -> d_ok (DiscoveryRequest_return s d c true err).
Proof.
  intros Hc Hreg Hok. unfold DiscoveryRequest_return. split; cbn [multicastHandler multicastRequests dv_calls dv_with]; [|by apply requests_return]. intros k d0. rewrite LoadAndDelete_map, lookup_delete_Some, (do_handlers _ Hok). split.
  - intros [Hne (c0 & Hc0 & Hr & Ek)]. exists c0. rewrite lookup_insert_ne; [done|]. intros <-. rewrite Hc in Hc0. injection Hc0 as <-. done.
  - intros (c0 & Hc0 & Hr & Ek). apply lookup_insert_Some in Hc0 as [[<- <-]|[Hne Hc0]]; [destruct Hr as [Hr|Hr]; done|]. split; [|by exists c0].
    intros E. assert (multicastHandler s !! dkey c = Some d) as H1 by (apply (do_handlers _ Hok); by exists c).
    assert (multicastHandler s !! dkey c = Some d0) as H2 by (apply (do_handlers _ Hok); exists c0; by rewrite E). congruence.
Qed.

Lemma requests_move s d c c' :
  d_ok s -> dv_calls s !! d = Some c -> ~ returned c' -> dc_req c' = dc_req c ->
  forall k r, multicastRequests s !! k = Some r -> exists d0 c0, <[d := c']> (dv_calls s) !! d0 = Some c0 /\ ~ returned c0 /\ dc_req c0 = r /\ dkey c0 = k.
Proof.
  intros Hok Hc Hr Eq k r Hk. destruct (do_requests _ Hok k r Hk) as (d0 & c0 & Hc0 & Hr0 & Eq0 & Ek). destruct (decide (d0 = d)) as [->|Hne].
  - rewrite Hc in Hc0. injection Hc0 as <-. exists d, c'. rewrite lookup_insert_eq. unfold dkey in *. rewrite Eq. done.
  - exists d0, c0. by rewrite lookup_insert_ne.
Qed.

Lemma d_ok_register s d c : dv_calls s !! d = Some c -> dc_stage c = DStored -> d_ok s -> d_ok (DiscoveryRequest_register s d c).
Proof.
  intros Hc Hs Hok. assert (~ registered c) as Hnot by (intros [H|H]; by rewrite Hs in H).
  unfold DiscoveryRequest_register, LoadOrStore, LoadOrStore_read, LoadOrStore_write, index.
  destruct (multicastHandler s !! dkey c) as [d1|] eqn:Ek; cbn.
  - split; cbn; [|by apply requests_return]. apply handlers_same; [done| |by intros [?|?]]. intros c0. rewrite Hc. by intros [= <-].
  - split; cbn; [|eapply requests_move; [done|exact Hc|by intros [??]|done]]. intros k d0. rewrite lookup_insert_Some, (do_handlers _ Hok). split.
    + intros [[<- <-]|[Hne (c0 & Hc0 & Hr & E)]]; [eexists; rewrite lookup_insert_eq; split; [done|]; split; [by left|done]|].
      exists c0. rewrite lookup_insert_ne; [done|]. intros <-. rewrite Hc in Hc0. injection Hc0 as <-. done.
    + intros (c0 & Hc0 & Hr & E). apply lookup_insert_Some in Hc0 as [[<- <-]|[Hne Hc0]]; [by left|]. right. split; [|by exists c0].
      intros E'. assert (multicastHandler s !! dkey c = Some d0) as H by (apply (do_handlers _ Hok); exists c0; by rewrite E'). congruence.
Qed.

Lemma d_ok_send s d c ctxErr opts s' :
  dv_calls s !! d = Some c -> dc_stage c = DRegistered -> d_ok s -> DiscoveryRequest_send s d c ctxErr opts = Some s' -> d_ok s'.
Proof.
  intros Hc Hs Hok. unfold DiscoveryRequest_send. destruct (if IsMulticast _ then _ else _) as [[conn err]|]; [|done]. cbn. intros [= <-].
  set (s1 := mkDiscoveries _ _ _ conn _ _). assert (d_ok s1) as Hok1 by (by eapply d_ok_calls; [..|exact Hok]).
  destruct err as [e|]; [apply d_ok_return_registered; [done|by left|done]|].
  split; cbn; [|eapply (requests_move s1); [done|exact Hc|by intros [??]|done]]. intros k d0. rewrite (do_handlers _ Hok). split; intros (c0 & Hc0 & Hr & E).
  - destruct (decide (d0 = d)) as [->|Hne]; [|exists c0; by rewrite lookup_insert_ne]. rewrite Hc in Hc0. injection Hc0 as <-. eexists.
    rewrite lookup_insert_eq. split; [done|]. split; [by right|done].
  - apply lookup_insert_Some in Hc0 as [[<- <-]|[Hne Hc0]]; [|by exists c0]. exists c. split; [done|]. split; [by left|done].
Qed.

Lemma d_ok_step s e : d_ok s -> d_ok (d_step s e).
Proof.
  intros Hok. destruct e as [d req mid listening resolved|d|d ctxErr opts|d serverDone|r]; cbn [d_step].
  - destruct (dv_calls s !! d) eqn:E; [done|]. by apply d_ok_begin.
  - destruct (dv_calls s !! d) as [c|] eqn:E; [|done]. destruct (dc_stage c) eqn:Es; try done. by apply d_ok_register.
  - destruct (dv_calls s !! d) as [c|] eqn:E; [|done]. destruct (dc_stage c) eqn:Es; try done.
    destruct (DiscoveryRequest_send s d c ctxErr opts) as [s'|] eqn:Ex; [|done]. by eapply d_ok_send.
  - destruct (dv_calls s !! d) as [c|] eqn:E; [|done]. destruct (dc_stage c) eqn:Es; try done. apply d_ok_return_registered; [done|by right|done].
  - unfold conn_Handler. destruct (multicastHandler s !! _); by eapply d_ok_calls; [..|exact Hok].
Qed.

Lemma d_ok_run es s : d_ok s -> d_ok (d_run s es).
Proof. revert s. induction es as [|e es IH]; intros s H; [done|]. by apply IH, d_ok_step. Qed.

Lemma d_ok_start conn : d_ok (d_start conn).
Proof. split; cbn; [|done]. intros k d. rewrite lookup_empty. split; [done|]. intros (c & Hc & _). by rewrite lookup_empty in Hc. Qed.

(** ** Properties *)

(** C13: discoveries side by side.  However the calls of [DiscoveryRequest] and the responses
    interleave: a response is passed to the receiver of the discovery whose request has its
    token (by the hash), if that discovery has registered and has not returned, and to the
    handler of the server otherwise; there is at most one such discovery; and when all
    discoveries have returned both tables are empty. *)
Theorem discoveries_scoped conn es r (s := d_run (d_start conn) es) (s' := conn_Handler s r) :
  (forall d c, dv_calls s !! d = Some c -> registered c -> dkey c = Token_Hash (e_token r) ->
     dv_received s' = dv_received s ++ [(d, r)] /\ dv_passed s' = dv_passed s) /\
  ((forall d c, dv_calls s !! d = Some c -> registered c -> dkey c <> Token_Hash (e_token r)) ->
     dv_received s' = dv_received s /\ dv_passed s' = dv_passed s ++ [r]) /\
  (forall d d' c c', dv_calls s !! d = Some c -> dv_calls s !! d' = Some c' -> registered c -> registered c' -> dkey c = dkey c' -> d = d') /\
  (map_Forall (fun _ c => returned c) (dv_calls s) -> multicastHandler s = ∅ /\ multicastRequests s = ∅).
Proof.
  pose proof (d_ok_run es _ (d_ok_start conn)) as Hok. fold s in Hok. clearbody s. subst s'. unfold conn_Handler. split_and!.
  - intros d c Hc Hr Hk. assert (multicastHandler s !! Token_Hash (e_token r) = Some d) as -> by (apply (do_handlers _ Hok); by exists c). done.
  - intros Hno. destruct (multicastHandler s !! Token_Hash (e_token r)) as [d|] eqn:E; [|done].
    apply (do_handlers _ Hok) in E as (c & Hc & Hr & Hk). by destruct (Hno d c).
  - intros d d' c c' Hc Hc' Hr Hr' Hk. assert (multicastHandler s !! dkey c = Some d) as H1 by (apply (do_handlers _ Hok); by exists c).
    assert (multicastHandler s !! dkey c = Some d') as H2 by (apply (do_handlers _ Hok); by exists c'). congruence.
  - intros Hall. split; apply map_eq; intros k; rewrite lookup_empty.
    + destruct (multicastHandler s !! k) as [d|] eqn:E; [|done]. apply (do_handlers _ Hok) in E as (c & Hc & Hr & _).
      destruct (Hall d c Hc) as [e He]. destruct Hr as [Hr|Hr]; congruence.
    + destruct (multicastRequests s !! k) as [r0|] eqn:E; [|done]. apply (do_requests _ Hok) in E as (d & c & Hc & Hr & _). by destruct Hr; apply (Hall d c).
Qed.

(** A second discovery with the token of one that is waiting is refused, but its
    deferred [Delete] takes the request of the first one from the table: the block-wise engine
    does not find the request of the first discovery any more. *)
Theorem duplicate_discovery_drops_request conn es d d' c req mid addr data (s := d_run (d_start conn) es) :
  dv_calls s !! d = Some c -> registered c -> dv_calls s !! d' = None -> e_token req = e_token (dc_req c) -> e_token req <> [] -> e_Marshal req mid = Ok data ->
  let s' := d_step (d_step s (DBegin d' req mid true (Ok addr))) (DRegister d') in
  dv_calls s' !! d = Some c /\ multicastHandler s' !! dkey c = Some d /\ getSentRequestFromOutside s' None (e_token (dc_req c)) = None.
Proof.
  intros Hc Hr Hd' Et Hne Hm. pose proof (d_ok_run es _ (d_ok_start conn)) as Hok. fold s in Hok. clearbody s. assert (d <> d') as Hdd by (intros ->; congruence).
  assert (multicastHandler s !! dkey c = Some d) as Hk by (apply (do_handlers _ Hok); by exists c). cbv zeta.
  assert (zlen (e_token req) =? 0 = false) as Hz by (apply Z.eqb_neq; intros E; by apply zlen_0_nil in E).
  cbn [d_step]. rewrite Hd'. unfold DiscoveryRequest_begin. rewrite Hz, Hm. cbn. rewrite lookup_insert_eq. cbn.
  unfold DiscoveryRequest_register, LoadOrStore, LoadOrStore_read, index, dkey. cbn. rewrite Et. fold (dkey c). rewrite Hk. cbn.
  split; [by rewrite !lookup_insert_ne|]. split; [done|]. unfold getSentRequestFromOutside. cbn. unfold Delete.
  change (dkey (mkDcall req addr data DStored)) with (Token_Hash (e_token req)). rewrite Et. by rewrite lookup_delete_eq.
Qed.
End Discover.

(** ** The request of [Discover] *)

(** The token is taken first; [r] is the message from the pool, [mid] the message ID. *)
Definition Discover_request {Ctx CM B} (r : Msg Ctx CM B) (path : list byte) (token : result (list byte)) (mid : Z) : option (result (Msg Ctx CM B)) :=
  match token with
  | Err e => Some (Err e)
  | Ok token =>
      '(r, err) ← SetupGet r path (Some token) [];
      match err with
      | Some e => Some (Err e)
      | None => Some (Ok (SetType (SetMessageID r mid) NonConfirmable))
      end
  end.

(** A non-confirmable GET with the token, the ID and the segments of the path and nothing
    else, or the error of the token or of a segment that is too long. *)
Lemma Discover_request_spec {Ctx CM B} (r : Msg Ctx CM B) path token mid :
  body r = None ->
  exists res, Discover_request r path token mid = Some res /\
    match token with
    | Err e => res = Err e
    | Ok tok =>
        if segments_fit path
        then exists m, res = Ok m /\ mCode (msg m) = GET /\ mType (msg m) = NonConfirmable /\ mMessageID (msg m) = mid /\
               PoolMessage.body m = None /\ Message.token (msg m) = tok /\
               forall id, vals (opts_of m) id = if decide (id = URIPath) then segments path else []
        else res = Err ErrInvalidValueLength
    end.
Proof.
  intros Hb. unfold Discover_request. destruct token as [tok|e]; [|by eexists].
  destruct (setupCommon_spec r GET path tok [] ltac:(constructor) eq_refl) as (r' & E & Ha). unfold SetupGet. rewrite E.
  cbn [mbind option_bind]. destruct (segments_fit path); [|by eexists]. specialize (Ha eq_refl). rewrite Hb in Ha.
  destruct Ha as (_ & Hc & Ht & Hbody & _ & Hv). eexists. split; [done|]. eexists. split; [done|]. by split_and!.
Qed.
