(* ===== verification/Identifiers.v ===== *)
(** * Identifiers and status errors

    - [Module ETags] (src/message/getETag.go): the entity tag of a payload, read through
      any [io.ReadSeeker];
    - [Module MessageIDs] (src/message/getmid.go, src/message/getToken.go): message IDs
      and tokens; the random numbers are arguments;
    - [Module Statuses] (src/message/status/status.go): errors that carry a response, as
      trees of wrapped errors. *)
From stdpp Require Import prelude list strings.
From Stdlib Require Import ZArith Lia.
From S2P Require Import Crc64 Prelude Cast Codes OptionCodec Options Message PoolMessage.
#[local] Open Scope Z_scope.

Module ETags.

(** [binary.BigEndian.PutUint64] into a new slice of eight bytes. *)
Definition PutUint64 (v : Z) : list byte := copy_into (make_bytes 8) (be_split 8 v).

Section GetETag.
Context {B : Type} `{!ReadSeeker B}.
Implicit Type b : B.

(** The loop; an error of [Read] that is not [io.EOF] is returned at once.  [None] is a
    loop that has not ended after [fuel] reads. *)
Fixpoint read_loop (fuel : nat) b (c64 : Z) : option (B * result Z) :=
  match fuel with
  | O => None
  | S fuel =>
      let '(b, (buf, errR)) := Read b 4096 in
      match errR with
      | Some ErrEOF => Some (b, Ok c64)
      | Some e => Some (b, Err e)
      | None => read_loop fuel b (crc64_Write c64 buf)
      end
  end.

Definition GetETag (fuel : nat) (r : option B) : option (option B * result (list byte)) :=
  match r with
  | None => Some (None, Ok (make_bytes 8))
  | Some b =>
      let '(b, (orig, err)) := Seek b 0 SeekCurrent in
      match err with
      | Some e => Some (Some b, Err e)
      | None =>
          let '(b, (_, err)) := Seek b 0 SeekStart in
          match err with
          | Some e => Some (Some b, Err e)
          | None =>
              '(b, c64) ← read_loop fuel b 0;
              match c64 with
              | Err e => Some (Some b, Err e)
              | Ok c64 =>
                  let '(b, (_, err)) := Seek b orig SeekStart in
                  match err with
                  | Some e => Some (Some b, Err e)
                  | None => Some (Some b, Ok (PutUint64 c64))
                  end
              end
          end
      end
  end.
End GetETag.

Section etag_laws.
Context {B : Type} `{!ReadSeeker B} `{!ReadSeekerLaws B}.
Implicit Type b : B.

Lemma read_loop_spec fuel b c64 :
  rs_ok b -> (Z.to_nat (zlen (content b) - offset b) < fuel)%nat ->
  exists b', read_loop fuel b c64 = Some (b', Ok (crc64_Write c64 (slice_from (content b) (offset b)))) /\
    rs_ok b' /\ content b' = content b.
Proof.
  revert b c64. induction fuel as [|fuel IH]; intros b c64 Hok Hf; [lia|]. cbn [read_loop].
  pose proof (offset_range b Hok).
  destruct (Z.eq_dec (offset b) (zlen (content b))) as [He|Hne].
  - destruct (read_eof b 4096) as (b' & -> & Hok' & Hc & Ho); [done|lia|done|].
    exists b'. rewrite slice_from_beyond by lia. unfold crc64_Write at 1. cbn [fold_left]. by rewrite crc64_not_involutive.
  - destruct (read_next b 4096) as (b' & d & -> & Hd & Hok' & Hc & Ho & Hval); [done|lia..|].
    destruct (IH b' (crc64_Write c64 d)) as (b2 & -> & Hok2 & Hc2); [done|rewrite Hc; lia|].
    exists b2. rewrite Hc2, Hc. split; [|done]. rewrite crc64_Write_app. do 4 f_equal.
    rewrite <- (slice_to_from (slice_from (content b) (offset b)) (zlen d)), <- Hval.
    by rewrite slice_from_slice_from, Ho by lia.
Qed.

Lemma PutUint64_inj v w : 0 <= v < 2 ^ 64 -> 0 <= w < 2 ^ 64 -> PutUint64 v = PutUint64 w -> v = w.
Proof.
  intros Hv Hw E. unfold PutUint64 in E.
  assert (forall u, copy_into (make_bytes 8) (be_split 8 u) = be_split 8 u) as Hc by (intros u; reflexivity).
  rewrite !Hc in E. rewrite <- (be_combine_split_id 8 v), <- (be_combine_split_id 8 w) by (cbn; lia). by rewrite E.
Qed.

Lemma Token_Hash_range t : bytes_ok t -> 0 <= Token_Hash t < 2 ^ 64.
Proof.
  intros Ht. assert (Token_Hash t = Z.lxor (fold_left crc64_step t (crc64_not 0)) (2 ^ 64 - 1)) as -> by reflexivity.
  assert (forall crc, 0 <= crc < 2 ^ 64 -> 0 <= fold_left crc64_step t crc < 2 ^ 64) as H.
  { induction Ht as [|v t Hv Ht IH]; intros crc Hc; [done|]. cbn [fold_left]. apply IH. rewrite crc64_step_bits.
    apply crc64_bits_range, lxor_range; [done|]. unfold is_byte in Hv. lia. }
  apply lxor_range; [|done]. by apply H.
Qed.

(** [GetETag] ends after at most one read per byte, and its result is the CRC-64 of
    the whole payload, whatever the sizes of the reads and wherever the payload was
    positioned: the position is restored, so that the payload can still be sent.  Two
    payloads of the same length up to eight bytes have the same tag only if they are equal. *)
Theorem etag_correct fuel b (Hok : rs_ok b) (Hfuel : (length (content b) < fuel)%nat) :
  exists b', GetETag fuel (Some b) = Some (Some b', Ok (PutUint64 (Token_Hash (content b)))) /\
    rs_ok b' /\ content b' = content b /\ offset b' = offset b /\
    forall t, bytes_ok t -> bytes_ok (content b) -> length t = length (content b) -> (length t <= 8)%nat ->
      PutUint64 (Token_Hash t) = PutUint64 (Token_Hash (content b)) -> t = content b.
Proof.
  unfold GetETag. destruct (seek_current b Hok) as (b1 & -> & Hok1 & Hc1 & Ho1).
  destruct (seek_start b1 0 Hok1) as (b2 & -> & Hok2 & Hc2 & Ho2); [pose proof (zlen_nonneg (content b1)); lia|].
  destruct (read_loop_spec fuel b2 0 Hok2) as (b3 & -> & Hok3 & Hc3); [rewrite Hc2, Hc1, Ho2; unfold zlen; lia|].
  cbn [mbind option_bind]. pose proof (offset_range b Hok).
  destruct (seek_start b3 (offset b) Hok3) as (b4 & -> & Hok4 & Hc4 & Ho4); [rewrite Hc3, Hc2, Hc1; lia|].
  exists b4. rewrite Ho2, Hc2, Hc1. change (slice_from (content b) 0) with (content b).
  split; [done|]. split; [done|]. split; [congruence|]. split; [done|].
  intros t Ht Hb Hlen H8 E. apply PutUint64_inj in E; [|by apply Token_Hash_range..]. by apply Token_Hash_inj.
Qed.
End etag_laws.

Lemma etag_correct_witness :
  exists b', GetETag 4 (Some (mkReader [1; 2; 3] 2)) = Some (Some b', Ok (PutUint64 (Token_Hash [1; 2; 3]))) /\ offset b' = 2.
Proof.
  destruct (etag_correct 4 (mkReader [1; 2; 3] 2)) as (b' & E & _ & _ & Ho & _); [cbv; intuition congruence|cbn; lia|].
  exists b'. split; [exact E|exact Ho].
Defined.

(** ** A reader that returns its last bytes together with [io.EOF] *)

(** The contract of [io.Reader] allows a read to return bytes and [io.EOF] at once. *)
Record Eager : Type := mkEager { g_s : list byte; g_i : Z }.

Definition Eager_Read (g : Eager) (n : Z) : Eager * (list byte * option error) :=
  let d := slice_to (slice_from (g_s g) (g_i g)) n in
  let i := g_i g + zlen d in
  (mkEager (g_s g) i, (d, if zlen (g_s g) <=? i then Some ErrEOF else None)).

#[export] Instance Eager_ReadSeeker : ReadSeeker Eager := {|
  Seek g o w := let '(r, res) := Reader_Seek (mkReader (g_s g) (g_i g)) o w in (mkEager (r_s r) (r_i r), res);
  Read := Eager_Read
|}.

(** The bytes that come with [io.EOF] are not part of the checksum: every payload of at
    most one read gets the tag of the empty payload. *)
Theorem etag_drops_last_read (s : list byte) :
  zlen s <= 4096 -> GetETag 1 (Some (mkEager s 0)) = Some (Some (mkEager s 0), Ok (PutUint64 (Token_Hash []))).
Proof.
  intros Hs.
  assert (Eager_Read (mkEager s 0) 4096 = (mkEager s (zlen s), (s, Some ErrEOF))) as E.
  { unfold Eager_Read. cbn [g_s g_i]. change (slice_from s 0) with s. rewrite slice_to_all by lia. by rewrite Z.add_0_l, Z.leb_refl. }
  unfold GetETag. change (Seek (mkEager s 0) 0 SeekCurrent) with (mkEager s 0, (0, @None error)). cbv iota beta.
  change (Seek (mkEager s 0) 0 SeekStart) with (mkEager s 0, (0, @None error)). cbv iota beta.
  unfold read_loop. change (Read (mkEager s 0) 4096) with (Eager_Read (mkEager s 0) 4096). by rewrite E.
Qed.
End ETags.

Module MessageIDs.

(** [GetMID] called [n] times from the counter [msgID]: the IDs in order. *)
Fixpoint mids (n : nat) (msgID : Z) : list Z :=
  match n with
  | O => []
  | S n => let '(msgID, mid) := GetMID msgID in mid :: mids n msgID
  end.

(** [random] is the result of [rand.Read] for four bytes and [weak] a number of the
    pseudo-random generator. *)
Definition RandMID (random : result (list byte)) (weak : Z) : Z :=
  match random with
  | Err _ => CastTo KUint16 (Z.shiftr weak 16)
  | Ok b => CastTo KUint16 (be_combine b)
  end.

(** [random] is the result of [rand.Read] for eight bytes. *)
Definition GetToken (random : result (list byte)) : result (list byte) := random.

Lemma GetMID_spec msgID : GetMID msgID = ((msgID + 1) mod 2 ^ 32, (msgID + 1) mod 2 ^ 16).
Proof.
  unfold GetMID. f_equal. change ((uint32 (msgID + 1)) mod 2 ^ 16 = (msgID + 1) mod 2 ^ 16).
  change (uint32 (msgID + 1)) with ((msgID + 1) mod 2 ^ 32). rewrite <- Znumtheory.Zmod_div_mod; [done|lia|lia|].
  exists (2 ^ 16). reflexivity.
Qed.

Lemma mids_lookup n msgID i : (i < n)%nat -> mids n msgID !! i = Some ((msgID + 1 + Z.of_nat i) mod 2 ^ 16).
Proof.
  revert msgID i. induction n as [|n IH]; intros msgID i Hi; [lia|]. cbn [mids]. rewrite GetMID_spec.
  destruct i as [|i]; cbn [lookup list_lookup]; [by rewrite Z.add_0_r|].
  rewrite IH by lia. f_equal.
  rewrite Znumtheory.Zmod_div_mod with (m := 2 ^ 32) by (lia || (exists (2 ^ 16); reflexivity)).
  rewrite <- Z.add_assoc, Z.add_mod_idemp_l by lia. rewrite <- Znumtheory.Zmod_div_mod by (lia || (exists (2 ^ 16); reflexivity)).
  f_equal. lia.
Qed.

Lemma length_mids n msgID : length (mids n msgID) = n.
Proof. revert msgID. induction n as [|n IH]; intros msgID; [done|]. cbn. by rewrite IH. Qed.

(** Message IDs are valid, whatever the counter holds, and any 65536 of them in a row
    are different, also across the wrap-around of the 32-bit counter. *)
Theorem mids_distinct n msgID (Hn : Z.of_nat n <= 2 ^ 16) :
  NoDup (mids n msgID) /\ Forall (fun mid => ValidateMID mid = true) (mids n msgID).
Proof.
  split.
  - apply NoDup_alt. intros i j x Hi Hj.
    assert (i < n)%nat as Hin by (rewrite <- (length_mids n msgID); by eapply lookup_lt_Some).
    assert (j < n)%nat as Hjn by (rewrite <- (length_mids n msgID); by eapply lookup_lt_Some).
    rewrite mids_lookup in Hi, Hj by done. rewrite <- Hi in Hj. injection Hj as E.
    pose proof (Z.div_mod (msgID + 1 + Z.of_nat i) (2 ^ 16) ltac:(lia)).
    pose proof (Z.div_mod (msgID + 1 + Z.of_nat j) (2 ^ 16) ltac:(lia)). lia.
  - apply Forall_lookup. intros i x Hi.
    assert (i < n)%nat as Hin by (rewrite <- (length_mids n msgID); by eapply lookup_lt_Some).
    rewrite mids_lookup in Hi by done. injection Hi as <-. unfold ValidateMID.
    pose proof (Z.mod_pos_bound (msgID + 1 + Z.of_nat i) (2 ^ 16) ltac:(lia)). lia.
Qed.

Lemma mids_distinct_witness : NoDup (mids 3 (2 ^ 32 - 2)) /\ mids 3 (2 ^ 32 - 2) = [65535; 0; 1].
Proof. split; [apply (mids_distinct 3 (2 ^ 32 - 2)); lia|reflexivity]. Defined.

Lemma RandMID_valid random weak : ValidateMID (RandMID random weak) = true.
Proof.
  unfold ValidateMID, RandMID. destruct random as [b|e];
    match goal with |- context [CastTo KUint16 ?x] => pose proof (CastTo_range KUint16 x) as H end;
    vm_compute min_value in H; vm_compute max_value in H; lia.
Qed.
End MessageIDs.

Module Statuses.

Definition OK : Z := 10000.
Definition Timeout : Z := 10001.
Definition Canceled : Z := 10002.
Definition Unknown : Z := 10003.

Definition DeadlineExceeded : error := ErrOther "context deadline exceeded".

Section Status.
Context {Ctx CM B : Type}.
Notation M := (Msg Ctx CM B).

(** An error as [errors.As] and [errors.Is] walk it: a value of its own, an error that
    wraps another, [errors.Join], a [Status], and an error of any other type with a method
    [COAPError]. *)
Inductive goerror : Type :=
| Leaf (e : error)
| Wrap (text : string) (e : goerror)
| Join (es : list goerror)
| StatusError (s : Status)
| Custom (s : Status) (e : option goerror)
with Status : Type := mkStatus (err : option goerror) (msg : option M) (code : Z).

Definition Status_err (s : Status) : option goerror := let 'mkStatus err _ _ := s in err.
Definition Status_Message (s : Status) : option M := let 'mkStatus _ msg _ := s in msg.
Definition Status_Unwrap (s : Status) : option goerror := Status_err s.
Definition Status_COAPError (s : Status) : Status := s.

Definition Status_Code (s : Status) : Z :=
  let 'mkStatus _ msg code := s in
  match msg with Some m => mCode (PoolMessage.msg m) | None => code end.

Definition CodeToString (c : Z) : string :=
  if c =? OK then "OK" else if c =? Timeout then "Timeout" else if c =? Canceled then "Canceled"
  else if c =? Unknown then "Unknown" else Code_String c.

(** [status.Error]; [Errorf] is the same with a formatted error. *)
Definition Error (msg : option M) (err : option goerror) : Status := mkStatus err msg 0.
Definition Errorf (msg : option M) (formatted : goerror) : Status := Error msg (Some formatted).

(** [errors.As] for the interface with the method [COAPError]: the first error of the
    tree that has it, depth first. *)
Fixpoint errors_As (e : goerror) : option Status :=
  match e with
  | Leaf _ => None
  | Wrap _ e => errors_As e
  | Join es => (fix go (es : list goerror) : option Status :=
      match es with
      | [] => None
      | e :: es => match errors_As e with Some s => Some s | None => go es end
      end) es
  | StatusError s => Some (Status_COAPError s)
  | Custom s _ => Some s
  end.

(** [errors.Is] for an error of its own. *)
Fixpoint errors_Is (e : goerror) (target : error) : bool :=
  match e with
  | Leaf e => bool_decide (e = target)
  | Wrap _ e => errors_Is e target
  | Join es => existsb (fun e => errors_Is e target) es
  | StatusError (mkStatus (Some e) _ _) | Custom _ (Some e) => errors_Is e target
  | StatusError (mkStatus None _ _) | Custom _ None => false
  end.

Definition FromError (err : option goerror) : Status * bool :=
  match err with
  | None => (mkStatus None None OK, true)
  | Some e =>
      match errors_As e with
      | Some s => (s, true)
      | None => (mkStatus err None Unknown, false)
      end
  end.

Definition Convert (err : option goerror) : Status := (FromError err).1.

Definition Code (err : option goerror) : Z :=
  match err with
  | None => OK
  | Some e => match errors_As e with Some s => Status_Code s | None => Unknown end
  end.

Definition FromContextError (err : option goerror) : Status :=
  match err with
  | None => mkStatus None None OK
  | Some e =>
      if errors_Is e DeadlineExceeded then mkStatus err None Timeout
      else if errors_Is e ErrContext then mkStatus err None Canceled
      else mkStatus err None Unknown
  end.

(** ** What the errors carry *)

(** [s] is reached from [e] by unwrapping, with no other status on the way. *)
Inductive carries (s : Status) : goerror -> Prop :=
| carries_wrap text e : carries s e -> carries s (Wrap text e)
| carries_join es e : e ∈ es -> carries s e -> carries s (Join es)
| carries_status : carries s (StatusError s)
| carries_custom e : carries s (Custom s e).

Lemma errors_As_carries e : forall s, errors_As e = Some s -> carries s e.
Proof.
  revert e. fix IH 1. intros [e|text e|es|s' |s' e] s H; cbn in H; try done.
  - constructor. by apply IH.
  - revert H. assert (forall l, (forall e, e ∈ l -> e ∈ es) -> (fix go (es : list goerror) : option Status :=
      match es with [] => None | e :: es => match errors_As e with Some s => Some s | None => go es end end) l = Some s ->
      (fix all (l : list goerror) : Prop := match l with [] => True | e :: l => (forall s, errors_As e = Some s -> carries s e) /\ all l end) l ->
      carries s (Join es)) as Hl.
    { induction l as [|e l IHl]; intros Hin H Hall; [done|]. destruct Hall as [He Hall].
      destruct (errors_As e) eqn:E; [|apply IHl; [intros e' ?; apply Hin; by right|done|done]].
      injection H as ->. apply carries_join with e; [apply Hin; by left|by apply He]. }
    intros H. apply (Hl es ltac:(done) H). clear Hl H.
    induction es as [|e es IHes]; [exact I|]. split; [apply IH|exact IHes].
  - injection H as <-. constructor.
  - injection H as <-. constructor.
Qed.

Lemma carries_errors_As s e : carries s e -> is_Some (errors_As e).
Proof.
  induction 1 as [text e H IH|es e Hin H IH| |e]; cbn; [done| |by eexists|by eexists].
  induction es as [|e' es IHes]; [by apply not_elem_of_nil in Hin|].
  destruct (errors_As e') eqn:E; [by eexists|]. apply elem_of_cons in Hin as [->|Hin]; [|by apply IHes].
  rewrite E in IH. by destruct IH.
Qed.

(** [Code] and [Convert] agree on every error, nil included.  [FromError] recognises
    an error exactly when it is nil or carries a status, however deeply it is wrapped or
    joined, and then returns one that it carries; otherwise the status is [Unknown] and
    unwraps to the error.  A status made from a response has the code of the response, also
    when it is wrapped, and a status made from the error of a context has the code of the
    context's end and unwraps to it. *)
Theorem status_codes (err : option goerror) (m : M) (text : string) :
  Code err = Status_Code (Convert err) /\
  match err with
  | None => FromError err = (mkStatus None None OK, true)
  | Some e =>
      (exists s, carries s e /\ FromError err = (s, true)) \/
      ((forall s, ~ carries s e) /\ FromError err = (mkStatus err None Unknown, false) /\ Status_Unwrap (Convert err) = err)
  end /\
  Code (Some (StatusError (Error (Some m) err))) = mCode (PoolMessage.msg m) /\
  Code (Some (Wrap text (StatusError (Error (Some m) err)))) = mCode (PoolMessage.msg m) /\
  Status_Unwrap (FromContextError err) = err /\
  Code (Some (StatusError (FromContextError err))) =
    match err with
    | None => OK
    | Some e => if errors_Is e DeadlineExceeded then Timeout else if errors_Is e ErrContext then Canceled else Unknown
    end.
Proof.
  split.
  { destruct err as [e|]; [|done]. unfold Code, Convert, FromError. by destruct (errors_As e). }
  split.
  { destruct err as [e|]; [|done]. unfold Convert, FromError. destruct (errors_As e) as [s|] eqn:E.
    - left. exists s. split; [by apply errors_As_carries|done].
    - right. split; [|done]. intros s Hs. apply carries_errors_As in Hs. rewrite E in Hs. by destruct Hs. }
  split; [done|]. split; [done|].
  destruct err as [e|]; [|done]. unfold FromContextError.
  destruct (errors_Is e DeadlineExceeded); [done|]. by destruct (errors_Is e ErrContext).
Qed.
End Status.
End Statuses.
