(* ===== verification/Setup.v ===== *)
(** * Configuration (src/options, src/options/config, the Config structs, and the
    functions that turn a configuration into a server or a connection)

    An option is a value of [Opt]; its method for a struct is [apply].  A function value is
    represented by what it does: [Given n] is the [n]-th function (or context, pool, dialer)
    of the caller, [Default] the one of the library, and a closure is a constructor with
    the variables it captures.  nil is [None] and a panic is [None] of the operation. *)
From stdpp Require Import prelude list strings gmap.
From Stdlib Require Import ZArith Lia QArith.
From S2P Require Import KeepAlive Prelude Codes BlockCodec Assembly StreamServer.
#[local] Open Scope Z_scope.

Module Setup.

(** ** Function values *)

(** The type of connection for which a callback is written: [*tcpClient.Conn], or
    [*udpClient.Conn], which DTLS uses too. *)
Inductive conn_type : Type := CTcp | CUdp.
#[export] Instance conn_type_eq_dec : EqDecision conn_type.
Proof. solve_decision. Defined.

Inductive supplied : Type := Default | Given (n : nat).

(** [EPrintln] prints, [ENoop] does nothing, [EFilter] drops errors of cancellation and
    closing and passes the others on with a prefix. *)
Inductive ErrorFn : Type :=
| EPrintln
| EUser (n : nat)
| ENoop
| EFilter (prefix : string) (errorsFunc : ErrorFn).

(** Which function of the caller gets an error, [Some EPrintln] is the output. *)
Fixpoint deliver (f : ErrorFn) (e : error) : option ErrorFn :=
  match f with
  | EFilter _ f => if IsCancelOrCloseError (Some e) then None else deliver f e
  | ENoop => None
  | f => Some f
  end.

(** [HNotFound requests errors] is the default handler: [requests] when it answers only the
    codes of requests, and it reports with the function that it captured.  [HDiscovery] is
    the handler of a connection of a UDP server. *)
Inductive HandlerFn : Type :=
| HUser (n : nat)
| HMux (n : nat)
| HNotFound (requests : bool) (errors : option ErrorFn)
| HDiscovery (next : option HandlerFn).

Inductive PoolRef : Type := PUser (n : nat) | PNew (maxNumMessages maxBufferSize : Z).

(** [OnClose] closes the connection. *)
Inductive OnInactiveFn : Type := OnClose | OnUser (n : option nat).

(** [CreateInactivityMonitor] values. *)
Inductive MonitorFn : Type :=
| MNil
| MKeepAlive (maxRetries timeout : Z) (onInactive : OnInactiveFn)
| MInactivity (duration : Z) (onInactive : OnInactiveFn)
| MDeferred (m : MonitorFn).

(** What the functions return. *)
Inductive ConnMonitor : Type :=
| NilMonitor
| Keeps (m : Monitor) (k : KeepAlive) (maxRetries : Z) (onInactive : OnInactiveFn)
| Watches (m : Monitor) (onInactive : OnInactiveFn)
| Deferred (m : ConnMonitor).

Fixpoint create (f : MonitorFn) (now : Z) : option ConnMonitor :=
  match f with
  | MNil => Some NilMonitor
  | MKeepAlive maxRetries timeout onInactive =>
      '(m, k) ← createInactivityMonitor timeout maxRetries now; Some (Keeps m k maxRetries onInactive)
  | MInactivity duration onInactive => Some (Watches (Monitor_New duration now) onInactive)
  | MDeferred f => m ← create f now; Some (Deferred m)
  end.

(** ** The structs *)

(** The fields that every [Config] embeds. *)
Record Common : Type := mkCommon {
  LimitClientParallelRequests : Z;
  LimitClientEndpointParallelRequests : Z;
  Ctx : supplied;
  Errors : option ErrorFn;
  PeriodicRunner : option supplied;
  MessagePool : option PoolRef;
  GetToken : option supplied;
  MaxMessageSize : Z;
  BlockwiseTransferTimeout : Z;
  BlockwiseReceivingMessagesCacheMaxEntries : Z;
  BlockwiseSZX : Z;
  BlockwiseEnable : bool;
  ProcessReceivedMessage : option nat;
  ReceivedMessageQueueSize : Z
}.

Definition set_LimitClientParallelRequests (c : Common) (x : Z) : Common :=
  mkCommon x (LimitClientEndpointParallelRequests c) (Ctx c) (Errors c) (PeriodicRunner c) (MessagePool c) (GetToken c) (MaxMessageSize c) (BlockwiseTransferTimeout c) (BlockwiseReceivingMessagesCacheMaxEntries c) (BlockwiseSZX c) (BlockwiseEnable c) (ProcessReceivedMessage c) (ReceivedMessageQueueSize c).
Definition set_LimitClientEndpointParallelRequests (c : Common) (x : Z) : Common :=
  mkCommon (LimitClientParallelRequests c) x (Ctx c) (Errors c) (PeriodicRunner c) (MessagePool c) (GetToken c) (MaxMessageSize c) (BlockwiseTransferTimeout c) (BlockwiseReceivingMessagesCacheMaxEntries c) (BlockwiseSZX c) (BlockwiseEnable c) (ProcessReceivedMessage c) (ReceivedMessageQueueSize c).
Definition set_Ctx (c : Common) (x : supplied) : Common :=
  mkCommon (LimitClientParallelRequests c) (LimitClientEndpointParallelRequests c) x (Errors c) (PeriodicRunner c) (MessagePool c) (GetToken c) (MaxMessageSize c) (BlockwiseTransferTimeout c) (BlockwiseReceivingMessagesCacheMaxEntries c) (BlockwiseSZX c) (BlockwiseEnable c) (ProcessReceivedMessage c) (ReceivedMessageQueueSize c).
Definition set_Errors (c : Common) (x : option ErrorFn) : Common :=
  mkCommon (LimitClientParallelRequests c) (LimitClientEndpointParallelRequests c) (Ctx c) x (PeriodicRunner c) (MessagePool c) (GetToken c) (MaxMessageSize c) (BlockwiseTransferTimeout c) (BlockwiseReceivingMessagesCacheMaxEntries c) (BlockwiseSZX c) (BlockwiseEnable c) (ProcessReceivedMessage c) (ReceivedMessageQueueSize c).
Definition set_PeriodicRunner (c : Common) (x : option supplied) : Common :=
  mkCommon (LimitClientParallelRequests c) (LimitClientEndpointParallelRequests c) (Ctx c) (Errors c) x (MessagePool c) (GetToken c) (MaxMessageSize c) (BlockwiseTransferTimeout c) (BlockwiseReceivingMessagesCacheMaxEntries c) (BlockwiseSZX c) (BlockwiseEnable c) (ProcessReceivedMessage c) (ReceivedMessageQueueSize c).
Definition set_MessagePool (c : Common) (x : option PoolRef) : Common :=
  mkCommon (LimitClientParallelRequests c) (LimitClientEndpointParallelRequests c) (Ctx c) (Errors c) (PeriodicRunner c) x (GetToken c) (MaxMessageSize c) (BlockwiseTransferTimeout c) (BlockwiseReceivingMessagesCacheMaxEntries c) (BlockwiseSZX c) (BlockwiseEnable c) (ProcessReceivedMessage c) (ReceivedMessageQueueSize c).
Definition set_GetToken (c : Common) (x : option supplied) : Common :=
  mkCommon (LimitClientParallelRequests c) (LimitClientEndpointParallelRequests c) (Ctx c) (Errors c) (PeriodicRunner c) (MessagePool c) x (MaxMessageSize c) (BlockwiseTransferTimeout c) (BlockwiseReceivingMessagesCacheMaxEntries c) (BlockwiseSZX c) (BlockwiseEnable c) (ProcessReceivedMessage c) (ReceivedMessageQueueSize c).
Definition set_MaxMessageSize (c : Common) (x : Z) : Common :=
  mkCommon (LimitClientParallelRequests c) (LimitClientEndpointParallelRequests c) (Ctx c) (Errors c) (PeriodicRunner c) (MessagePool c) (GetToken c) x (BlockwiseTransferTimeout c) (BlockwiseReceivingMessagesCacheMaxEntries c) (BlockwiseSZX c) (BlockwiseEnable c) (ProcessReceivedMessage c) (ReceivedMessageQueueSize c).
Definition set_BlockwiseTransferTimeout (c : Common) (x : Z) : Common :=
  mkCommon (LimitClientParallelRequests c) (LimitClientEndpointParallelRequests c) (Ctx c) (Errors c) (PeriodicRunner c) (MessagePool c) (GetToken c) (MaxMessageSize c) x (BlockwiseReceivingMessagesCacheMaxEntries c) (BlockwiseSZX c) (BlockwiseEnable c) (ProcessReceivedMessage c) (ReceivedMessageQueueSize c).
Definition set_BlockwiseReceivingMessagesCacheMaxEntries (c : Common) (x : Z) : Common :=
  mkCommon (LimitClientParallelRequests c) (LimitClientEndpointParallelRequests c) (Ctx c) (Errors c) (PeriodicRunner c) (MessagePool c) (GetToken c) (MaxMessageSize c) (BlockwiseTransferTimeout c) x (BlockwiseSZX c) (BlockwiseEnable c) (ProcessReceivedMessage c) (ReceivedMessageQueueSize c).
Definition set_BlockwiseSZX (c : Common) (x : Z) : Common :=
  mkCommon (LimitClientParallelRequests c) (LimitClientEndpointParallelRequests c) (Ctx c) (Errors c) (PeriodicRunner c) (MessagePool c) (GetToken c) (MaxMessageSize c) (BlockwiseTransferTimeout c) (BlockwiseReceivingMessagesCacheMaxEntries c) x (BlockwiseEnable c) (ProcessReceivedMessage c) (ReceivedMessageQueueSize c).
Definition set_BlockwiseEnable (c : Common) (x : bool) : Common :=
  mkCommon (LimitClientParallelRequests c) (LimitClientEndpointParallelRequests c) (Ctx c) (Errors c) (PeriodicRunner c) (MessagePool c) (GetToken c) (MaxMessageSize c) (BlockwiseTransferTimeout c) (BlockwiseReceivingMessagesCacheMaxEntries c) (BlockwiseSZX c) x (ProcessReceivedMessage c) (ReceivedMessageQueueSize c).
Definition set_ProcessReceivedMessage (c : Common) (x : option nat) : Common :=
  mkCommon (LimitClientParallelRequests c) (LimitClientEndpointParallelRequests c) (Ctx c) (Errors c) (PeriodicRunner c) (MessagePool c) (GetToken c) (MaxMessageSize c) (BlockwiseTransferTimeout c) (BlockwiseReceivingMessagesCacheMaxEntries c) (BlockwiseSZX c) (BlockwiseEnable c) x (ReceivedMessageQueueSize c).
Definition set_ReceivedMessageQueueSize (c : Common) (x : Z) : Common :=
  mkCommon (LimitClientParallelRequests c) (LimitClientEndpointParallelRequests c) (Ctx c) (Errors c) (PeriodicRunner c) (MessagePool c) (GetToken c) (MaxMessageSize c) (BlockwiseTransferTimeout c) (BlockwiseReceivingMessagesCacheMaxEntries c) (BlockwiseSZX c) (BlockwiseEnable c) (ProcessReceivedMessage c) x.

(** The fields of both TCP structs. *)
Record Stream : Type := mkStream {
  ConnectionCacheSize : Z;
  DisablePeerTCPSignalMessageCSMs : bool;
  DisableTCPSignalMessageCSM : bool
}.

Definition set_ConnectionCacheSize (s : Stream) (x : Z) : Stream :=
  mkStream x (DisablePeerTCPSignalMessageCSMs s) (DisableTCPSignalMessageCSM s).
Definition set_DisablePeerTCPSignalMessageCSMs (s : Stream) (x : bool) : Stream :=
  mkStream (ConnectionCacheSize s) x (DisableTCPSignalMessageCSM s).
Definition set_DisableTCPSignalMessageCSM (s : Stream) (x : bool) : Stream :=
  mkStream (ConnectionCacheSize s) (DisablePeerTCPSignalMessageCSMs s) x.

(** The fields of both client structs. *)
Record Dialing : Type := mkDialing {
  Net : string;
  Dialer : supplied;
  CloseSocket : bool
}.

Definition set_Net (d : Dialing) (x : string) : Dialing :=
  mkDialing x (Dialer d) (CloseSocket d).
Definition set_Dialer (d : Dialing) (x : supplied) : Dialing :=
  mkDialing (Net d) x (CloseSocket d).
Definition set_CloseSocket (d : Dialing) (x : bool) : Dialing :=
  mkDialing (Net d) (Dialer d) x.

(** The fields of the three structs for datagrams. *)
Record Datagram : Type := mkDatagram {
  GetMID : option supplied;
  TransmissionNStart : Z;
  TransmissionAcknowledgeTimeout : Z;
  TransmissionAcknowledgeRandomFactor : Q;
  TransmissionMaxRetransmit : Z;
  MTU : Z;
  MaxPendingMessages : Z;
  QBlockwiseMode : Z;
  QBlockwiseConfig : Assembly.Config
}.

Definition set_GetMID (g : Datagram) (x : option supplied) : Datagram :=
  mkDatagram x (TransmissionNStart g) (TransmissionAcknowledgeTimeout g) (TransmissionAcknowledgeRandomFactor g) (TransmissionMaxRetransmit g) (MTU g) (MaxPendingMessages g) (QBlockwiseMode g) (QBlockwiseConfig g).
Definition set_TransmissionNStart (g : Datagram) (x : Z) : Datagram :=
  mkDatagram (GetMID g) x (TransmissionAcknowledgeTimeout g) (TransmissionAcknowledgeRandomFactor g) (TransmissionMaxRetransmit g) (MTU g) (MaxPendingMessages g) (QBlockwiseMode g) (QBlockwiseConfig g).
Definition set_TransmissionAcknowledgeTimeout (g : Datagram) (x : Z) : Datagram :=
  mkDatagram (GetMID g) (TransmissionNStart g) x (TransmissionAcknowledgeRandomFactor g) (TransmissionMaxRetransmit g) (MTU g) (MaxPendingMessages g) (QBlockwiseMode g) (QBlockwiseConfig g).
Definition set_TransmissionAcknowledgeRandomFactor (g : Datagram) (x : Q) : Datagram :=
  mkDatagram (GetMID g) (TransmissionNStart g) (TransmissionAcknowledgeTimeout g) x (TransmissionMaxRetransmit g) (MTU g) (MaxPendingMessages g) (QBlockwiseMode g) (QBlockwiseConfig g).
Definition set_TransmissionMaxRetransmit (g : Datagram) (x : Z) : Datagram :=
  mkDatagram (GetMID g) (TransmissionNStart g) (TransmissionAcknowledgeTimeout g) (TransmissionAcknowledgeRandomFactor g) x (MTU g) (MaxPendingMessages g) (QBlockwiseMode g) (QBlockwiseConfig g).
Definition set_MTU (g : Datagram) (x : Z) : Datagram :=
  mkDatagram (GetMID g) (TransmissionNStart g) (TransmissionAcknowledgeTimeout g) (TransmissionAcknowledgeRandomFactor g) (TransmissionMaxRetransmit g) x (MaxPendingMessages g) (QBlockwiseMode g) (QBlockwiseConfig g).
Definition set_MaxPendingMessages (g : Datagram) (x : Z) : Datagram :=
  mkDatagram (GetMID g) (TransmissionNStart g) (TransmissionAcknowledgeTimeout g) (TransmissionAcknowledgeRandomFactor g) (TransmissionMaxRetransmit g) (MTU g) x (QBlockwiseMode g) (QBlockwiseConfig g).
Definition set_QBlockwiseMode (g : Datagram) (x : Z) : Datagram :=
  mkDatagram (GetMID g) (TransmissionNStart g) (TransmissionAcknowledgeTimeout g) (TransmissionAcknowledgeRandomFactor g) (TransmissionMaxRetransmit g) (MTU g) (MaxPendingMessages g) x (QBlockwiseConfig g).
Definition set_QBlockwiseConfig (g : Datagram) (x : Assembly.Config) : Datagram :=
  mkDatagram (GetMID g) (TransmissionNStart g) (TransmissionAcknowledgeTimeout g) (TransmissionAcknowledgeRandomFactor g) (TransmissionMaxRetransmit g) (MTU g) (MaxPendingMessages g) (QBlockwiseMode g) x.

(** The rest of each struct. *)
Inductive Own : Type :=
| TCPClient (s : Stream) (d : Dialing) (TLSCfg : option nat) (CSMExchangeTimeout : Z)
| TCPServer (s : Stream) (OnNewConn : option supplied)
| UDPClient (g : Datagram) (d : Dialing) (QBlockwiseSecure : bool)
| UDPServer (g : Datagram) (OnNewConn : option supplied)
| DTLSServer (g : Datagram) (OnNewConn : option supplied) (HandshakeTimeout : Z).

Record Config : Type := mkConfig {
  common : Common;
  CreateInactivityMonitor : option MonitorFn;
  RequestMonitor : option supplied;
  Handler : option HandlerFn;
  own : Own
}.
Implicit Types (c : Common) (g : Datagram) (s : Stream) (d : Dialing) (cfg : Config).

Definition set_common cfg (x : Common) : Config :=
  mkConfig x (CreateInactivityMonitor cfg) (RequestMonitor cfg) (Handler cfg) (own cfg).
Definition set_CreateInactivityMonitor cfg (x : option MonitorFn) : Config :=
  mkConfig (common cfg) x (RequestMonitor cfg) (Handler cfg) (own cfg).
Definition set_RequestMonitor cfg (x : option supplied) : Config :=
  mkConfig (common cfg) (CreateInactivityMonitor cfg) x (Handler cfg) (own cfg).
Definition set_Handler cfg (x : option HandlerFn) : Config :=
  mkConfig (common cfg) (CreateInactivityMonitor cfg) (RequestMonitor cfg) x (own cfg).
Definition set_own cfg (x : Own) : Config :=
  mkConfig (common cfg) (CreateInactivityMonitor cfg) (RequestMonitor cfg) (Handler cfg) x.

(** A change of fields that only some structs have; [supports] says which options have a
    method for a struct, so that the other cases do not arise. *)
Definition on_stream (f : Stream -> Stream) cfg : Config :=
  match own cfg with
  | TCPClient s d t x => set_own cfg (TCPClient (f s) d t x)
  | TCPServer s n => set_own cfg (TCPServer (f s) n)
  | _ => cfg
  end.
Definition on_dialing (f : Dialing -> Dialing) cfg : Config :=
  match own cfg with
  | TCPClient s d t x => set_own cfg (TCPClient s (f d) t x)
  | UDPClient g d x => set_own cfg (UDPClient g (f d) x)
  | _ => cfg
  end.
Definition on_datagram (f : Datagram -> Datagram) cfg : Config :=
  match own cfg with
  | UDPClient g d x => set_own cfg (UDPClient (f g) d x)
  | UDPServer g n => set_own cfg (UDPServer (f g) n)
  | DTLSServer g n x => set_own cfg (DTLSServer (f g) n x)
  | _ => cfg
  end.
Definition set_OnNewConn cfg (x : option supplied) : Config :=
  match own cfg with
  | TCPServer s _ => set_own cfg (TCPServer s x)
  | UDPServer g _ => set_own cfg (UDPServer g x)
  | DTLSServer g _ t => set_own cfg (DTLSServer g x t)
  | _ => cfg
  end.

(** ** Defaults *)

(** [config.NewCommon]. *)
Definition NewCommon : Common :=
  mkCommon 1 1 Default (Some EPrintln) (Some Default) (Some (PNew 1024 2048)) (Some Default) (64 * 1024)
    (3 * Second) 4096 SZX1024 true None 16.

(** The handler captures the variable [opts] of the initialiser, not the copy that the
    caller changes. *)
Definition default_handler (requests : bool) : option HandlerFn := Some (HNotFound requests (Errors NewCommon)).

Definition DefaultMTU : Z := 1472.
Definition DefaultMaxPendingMessages : Z := 1024.

Definition default_datagram : Datagram :=
  mkDatagram (Some Default) 1 (2 * Second) (3 # 2)%Q 4 DefaultMTU DefaultMaxPendingMessages QBlockwiseDisabled (Assembly.mkConfig 0 0 0 0 0).

Inductive struct : Type := STcpClient | STcpServer | SUdpClient | SUdpServer | SDtlsServer.
#[export] Instance struct_eq_dec : EqDecision struct.
Proof. solve_decision. Defined.

Definition TcpClient_DefaultConfig : Config :=
  mkConfig NewCommon (Some MNil) (Some Default) (default_handler true)
    (TCPClient (mkStream 2048 false false) (mkDialing "tcp" Default false) None 0).

Definition TcpServer_DefaultConfig : Config :=
  mkConfig NewCommon (Some (MKeepAlive 2 (16 * Second) OnClose)) (Some Default) (default_handler false)
    (TCPServer (mkStream (2 * 1024) false false) (Some Default)).

Definition UdpClient_DefaultConfig : Config :=
  mkConfig NewCommon (Some MNil) (Some Default) (default_handler true)
    (UDPClient default_datagram (mkDialing "udp" Default false) false).

Definition UdpServer_DefaultConfig : Config :=
  mkConfig NewCommon (Some (MDeferred (MInactivity (16 * Second) OnClose))) (Some Default) (default_handler false)
    (UDPServer default_datagram (Some Default)).

Definition DtlsServer_DefaultConfig : Config :=
  mkConfig NewCommon (Some (MDeferred (MInactivity (16 * Second) OnClose))) (Some Default) (default_handler false)
    (DTLSServer default_datagram (Some Default) (30 * Second)).

(** The client of DTLS has its own variable, a copy of that of UDP with the same handler. *)
Definition DtlsClient_DefaultConfig : Config := set_Handler UdpClient_DefaultConfig (default_handler true).

Definition struct_of cfg : struct :=
  match own cfg with
  | TCPClient _ _ _ _ => STcpClient
  | TCPServer _ _ => STcpServer
  | UDPClient _ _ _ => SUdpClient
  | UDPServer _ _ => SUdpServer
  | DTLSServer _ _ _ => SDtlsServer
  end.

Definition conn_of (k : struct) : conn_type := match k with STcpClient | STcpServer => CTcp | _ => CUdp end.

(** ** Options *)

(** A callback of an option comes with the type of connection it is written for. *)
Inductive Opt : Type :=
| HandlerFuncOpt (t : conn_type) (h : option nat)
| MuxHandlerOpt (m : nat)
| ContextOpt (ctx : nat)
| MaxMessageSizeOpt (maxMessageSize : Z)
| ErrorsOpt (errors : option nat)
| ProcessReceivedMessageOpt (t : conn_type) (f : option nat)
| KeepAliveOpt (t : conn_type) (maxRetries timeout : Z) (onInactive : option nat)
| InactivityMonitorOpt (t : conn_type) (duration : Z) (onInactive : option nat)
| NetOpt (net : string)
| PeriodicRunnerOpt (periodicRunner : option nat)
| BlockwiseOpt (enable : bool) (szx transferTimeout : Z)
| BlockwiseReceivingMessagesCacheMaxEntriesOpt (maxEntries : Z)
| OnNewConnOpt (t : conn_type) (f : option nat)
| WithRequestMonitorOpt (t : conn_type) (f : option nat)
| CloseSocketOpt
| DialerOpt (dialer : option nat)
| MessagePoolOpt (messagePool : option nat)
| GetTokenOpt (getToken : option nat)
| LimitClientParallelRequestOpt (n : Z)
| LimitClientEndpointParallelRequestOpt (n : Z)
| ReceivedMessageQueueSizeOpt (n : Z)
| QBlockwiseConfigOpt (config : Assembly.Config)
| QBlockwiseOpt (mode : Z)
| MaxPendingMessagesOpt (n : Z)
| TransmissionOpt (nStart acknowledgeTimeout : Z) (randomFactor : option Q) (maxRetransmit : Z)
| MTUOpt (mtu : Z)
| DTLSHandshakeTimeoutOpt (timeout : Z)
| DisablePeerTCPSignalMessageCSMsOpt
| DisableTCPSignalMessageCSMOpt
| CSMExchangeTimeoutOpt (timeout : Z)
| TLSOpt (tlsCfg : option nat)
| ConnectionCacheSizeOpt (n : Z).
Implicit Types (o : Opt) (opts : list Opt).

(** Which option has a method for which struct. *)
Definition supports (k : struct) o : bool :=
  match o with
  | NetOpt _ | CloseSocketOpt | DialerOpt _ => bool_decide (k = STcpClient) || bool_decide (k = SUdpClient)
  | OnNewConnOpt _ _ => negb (bool_decide (k = STcpClient) || bool_decide (k = SUdpClient))
  | WithRequestMonitorOpt _ _ => negb (bool_decide (k = STcpClient))
  | QBlockwiseConfigOpt _ | QBlockwiseOpt _ | MaxPendingMessagesOpt _ | TransmissionOpt _ _ _ _ | MTUOpt _ =>
      bool_decide (conn_of k = CUdp)
  | DTLSHandshakeTimeoutOpt _ => bool_decide (k = SDtlsServer)
  | DisablePeerTCPSignalMessageCSMsOpt | DisableTCPSignalMessageCSMOpt | ConnectionCacheSizeOpt _ => bool_decide (conn_of k = CTcp)
  | CSMExchangeTimeoutOpt _ | TLSOpt _ => bool_decide (k = STcpClient)
  | _ => true
  end.

(** The type switch of the options with a callback: the other type panics. *)
Definition for_type {A} cfg (t : conn_type) (x : A) : option A := if decide (t = conn_of (struct_of cfg)) then Some x else None.

Definition HandlerFuncOpt_Apply cfg t (h : option nat) : option Config := for_type cfg t (set_Handler cfg (HUser <$> h)).
Definition MuxHandlerOpt_Apply cfg (m : nat) : Config := set_Handler cfg (Some (HMux m)).
Definition ContextOpt_Apply cfg (ctx : nat) : Config := set_common cfg (set_Ctx (common cfg) (Given ctx)).
Definition MaxMessageSizeOpt_Apply cfg (n : Z) : Config := set_common cfg (set_MaxMessageSize (common cfg) n).
Definition ErrorsOpt_Apply cfg (f : option nat) : Config := set_common cfg (set_Errors (common cfg) (EUser <$> f)).
Definition ProcessReceivedMessageOpt_Apply cfg t (f : option nat) : option Config :=
  for_type cfg t (set_common cfg (set_ProcessReceivedMessage (common cfg) f)).
Definition KeepAliveOpt_Apply cfg t (maxRetries timeout : Z) (onInactive : option nat) : option Config :=
  for_type cfg t (set_CreateInactivityMonitor cfg (Some (MKeepAlive maxRetries timeout (OnUser onInactive)))).
Definition InactivityMonitorOpt_Apply cfg t (duration : Z) (onInactive : option nat) : option Config :=
  for_type cfg t (set_CreateInactivityMonitor cfg (Some (MInactivity duration (OnUser onInactive)))).
Definition NetOpt_Apply cfg (net : string) : Config := on_dialing (fun d => set_Net d net) cfg.
Definition PeriodicRunnerOpt_Apply cfg (f : option nat) : Config := set_common cfg (set_PeriodicRunner (common cfg) (Given <$> f)).
Definition BlockwiseOpt_Apply cfg (enable : bool) (szx timeout : Z) : Config :=
  set_common cfg (set_BlockwiseTransferTimeout (set_BlockwiseSZX (set_BlockwiseEnable (common cfg) enable) szx) timeout).
Definition BlockwiseCacheOpt_Apply cfg (n : Z) : Config :=
  set_common cfg (set_BlockwiseReceivingMessagesCacheMaxEntries (common cfg) n).
Definition OnNewConnOpt_Apply cfg t (f : option nat) : option Config := for_type cfg t (set_OnNewConn cfg (Given <$> f)).
Definition WithRequestMonitorOpt_Apply cfg t (f : option nat) : option Config := for_type cfg t (set_RequestMonitor cfg (Given <$> f)).
Definition CloseSocketOpt_Apply cfg : Config := on_dialing (fun d => set_CloseSocket d true) cfg.
Definition DialerOpt_Apply cfg (dialer : option nat) : Config :=
  match dialer with Some n => on_dialing (fun d => set_Dialer d (Given n)) cfg | None => cfg end.
Definition MessagePoolOpt_Apply cfg (p : option nat) : Config := set_common cfg (set_MessagePool (common cfg) (PUser <$> p)).
Definition GetTokenOpt_Apply cfg (f : option nat) : Config := set_common cfg (set_GetToken (common cfg) (Given <$> f)).
Definition LimitClientParallelRequestOpt_Apply cfg (n : Z) : Config := set_common cfg (set_LimitClientParallelRequests (common cfg) n).
Definition LimitClientEndpointParallelRequestOpt_Apply cfg (n : Z) : Config :=
  set_common cfg (set_LimitClientEndpointParallelRequests (common cfg) n).
Definition ReceivedMessageQueueSizeOpt_Apply cfg (n : Z) : Config := set_common cfg (set_ReceivedMessageQueueSize (common cfg) n).
Definition QBlockwiseConfigOpt_Apply cfg (config : Assembly.Config) : Config := on_datagram (fun g => set_QBlockwiseConfig g config) cfg.
Definition QBlockwiseOpt_Apply cfg (mode : Z) : Config := on_datagram (fun g => set_QBlockwiseMode g mode) cfg.
Definition MaxPendingMessagesOpt_Apply cfg (n : Z) : Config := on_datagram (fun g => set_MaxPendingMessages g n) cfg.
Definition TransmissionOpt_Apply cfg (nStart timeout : Z) (factor : option Q) (maxRetransmit : Z) : Config :=
  on_datagram (fun g =>
    let g := set_TransmissionAcknowledgeTimeout (set_TransmissionNStart g nStart) timeout in
    let g := match factor with Some x => set_TransmissionAcknowledgeRandomFactor g x | None => g end in
    set_TransmissionMaxRetransmit g maxRetransmit) cfg.
Definition MTUOpt_Apply cfg (mtu : Z) : Config := on_datagram (fun g => set_MTU g mtu) cfg.
Definition DTLSHandshakeTimeoutOpt_Apply cfg (timeout : Z) : Config :=
  match own cfg with DTLSServer g n _ => set_own cfg (DTLSServer g n timeout) | _ => cfg end.
Definition DisablePeerTCPSignalMessageCSMsOpt_Apply cfg : Config := on_stream (fun s => set_DisablePeerTCPSignalMessageCSMs s true) cfg.
Definition DisableTCPSignalMessageCSMOpt_Apply cfg : Config := on_stream (fun s => set_DisableTCPSignalMessageCSM s true) cfg.
Definition CSMExchangeTimeoutOpt_Apply cfg (timeout : Z) : Config :=
  match own cfg with TCPClient s d t _ => set_own cfg (TCPClient s d t timeout) | _ => cfg end.
Definition TLSOpt_Apply cfg (tlsCfg : option nat) : Config :=
  match own cfg with TCPClient s d _ x => set_own cfg (TCPClient s d tlsCfg x) | _ => cfg end.
Definition ConnectionCacheSizeOpt_Apply cfg (n : Z) : Config := on_stream (fun s => set_ConnectionCacheSize s n) cfg.

(** The method of an option. *)
Definition apply o cfg : option Config :=
  match o with
  | HandlerFuncOpt t h => HandlerFuncOpt_Apply cfg t h
  | MuxHandlerOpt m => Some (MuxHandlerOpt_Apply cfg m)
  | ContextOpt x => Some (ContextOpt_Apply cfg x)
  | MaxMessageSizeOpt n => Some (MaxMessageSizeOpt_Apply cfg n)
  | ErrorsOpt f => Some (ErrorsOpt_Apply cfg f)
  | ProcessReceivedMessageOpt t f => ProcessReceivedMessageOpt_Apply cfg t f
  | KeepAliveOpt t n timeout f => KeepAliveOpt_Apply cfg t n timeout f
  | InactivityMonitorOpt t n f => InactivityMonitorOpt_Apply cfg t n f
  | NetOpt net => Some (NetOpt_Apply cfg net)
  | PeriodicRunnerOpt f => Some (PeriodicRunnerOpt_Apply cfg f)
  | BlockwiseOpt b szx timeout => Some (BlockwiseOpt_Apply cfg b szx timeout)
  | BlockwiseReceivingMessagesCacheMaxEntriesOpt n => Some (BlockwiseCacheOpt_Apply cfg n)
  | OnNewConnOpt t f => OnNewConnOpt_Apply cfg t f
  | WithRequestMonitorOpt t f => WithRequestMonitorOpt_Apply cfg t f
  | CloseSocketOpt => Some (CloseSocketOpt_Apply cfg)
  | DialerOpt n => Some (DialerOpt_Apply cfg n)
  | MessagePoolOpt p => Some (MessagePoolOpt_Apply cfg p)
  | GetTokenOpt f => Some (GetTokenOpt_Apply cfg f)
  | LimitClientParallelRequestOpt n => Some (LimitClientParallelRequestOpt_Apply cfg n)
  | LimitClientEndpointParallelRequestOpt n => Some (LimitClientEndpointParallelRequestOpt_Apply cfg n)
  | ReceivedMessageQueueSizeOpt n => Some (ReceivedMessageQueueSizeOpt_Apply cfg n)
  | QBlockwiseConfigOpt q => Some (QBlockwiseConfigOpt_Apply cfg q)
  | QBlockwiseOpt mode => Some (QBlockwiseOpt_Apply cfg mode)
  | MaxPendingMessagesOpt n => Some (MaxPendingMessagesOpt_Apply cfg n)
  | TransmissionOpt n t f r => Some (TransmissionOpt_Apply cfg n t f r)
  | MTUOpt n => Some (MTUOpt_Apply cfg n)
  | DTLSHandshakeTimeoutOpt t => Some (DTLSHandshakeTimeoutOpt_Apply cfg t)
  | DisablePeerTCPSignalMessageCSMsOpt => Some (DisablePeerTCPSignalMessageCSMsOpt_Apply cfg)
  | DisableTCPSignalMessageCSMOpt => Some (DisableTCPSignalMessageCSMOpt_Apply cfg)
  | CSMExchangeTimeoutOpt t => Some (CSMExchangeTimeoutOpt_Apply cfg t)
  | TLSOpt t => Some (TLSOpt_Apply cfg t)
  | ConnectionCacheSizeOpt n => Some (ConnectionCacheSizeOpt_Apply cfg n)
  end.

(** The loop over the options. *)
Fixpoint apply_all opts cfg : option Config :=
  match opts with
  | [] => Some cfg
  | o :: opts => cfg ← apply o cfg; apply_all opts cfg
  end.

(** ** Starting a server *)

Definition or_else {A} (x : option A) (y : A) : option A := match x with Some _ => x | None => Some y end.

Definition default_Errors cfg : Config := set_common cfg (set_Errors (common cfg) (or_else (Errors (common cfg)) ENoop)).
Definition default_GetToken cfg : Config := set_common cfg (set_GetToken (common cfg) (or_else (GetToken (common cfg)) Default)).
Definition default_MessagePool cfg : Config := set_common cfg (set_MessagePool (common cfg) (or_else (MessagePool (common cfg)) (PNew 0 0))).
Definition default_GetMID cfg : Config := on_datagram (fun g => set_GetMID g (or_else (GetMID g) Default)) cfg.
Definition default_Monitor cfg : Config := set_CreateInactivityMonitor cfg (or_else (CreateInactivityMonitor cfg) MNil).

(** [cfg.Errors = func(err error) { ...; errorsFunc(fmt.Errorf(prefix, err)) }]. *)
Definition filter_Errors (prefix : string) cfg : Config :=
  set_common cfg (set_Errors (common cfg) (EFilter prefix <$> Errors (common cfg))).

Definition TcpServer_New opts : option Config :=
  cfg ← apply_all opts TcpServer_DefaultConfig;
  Some (filter_Errors "tcp" (default_GetToken (default_Errors (default_MessagePool (default_Monitor cfg))))).

Definition UdpServer_New opts : option Config :=
  cfg ← apply_all opts UdpServer_DefaultConfig;
  Some (filter_Errors "udp" (default_MessagePool (default_Monitor (default_GetToken (default_GetMID (default_Errors cfg)))))).

Definition DtlsServer_New opts : option Config :=
  cfg ← apply_all opts DtlsServer_DefaultConfig;
  Some (filter_Errors "dtls" (default_MessagePool (default_Monitor (default_GetToken (default_GetMID (default_Errors cfg)))))).

(** ** Connections *)

(** A block-wise engine: transfer timeout, error function and bound of the cache. *)
Record BlockWiseSetup : Type := mkBlockWise { bw_timeout : Z; bw_errors : option ErrorFn; bw_maxEntries : Z }.

(** The [createBlockWise] closures. *)
Definition createBlockWise cfg : option BlockWiseSetup :=
  let c := common cfg in
  if BlockwiseEnable c
  then Some (mkBlockWise (BlockwiseTransferTimeout c) (Errors c) (BlockwiseReceivingMessagesCacheMaxEntries c))
  else None.

(** What only a connection for datagrams has. *)
Record DatagramSetup : Type := mkDatagramSetup {
  ds_sessionMTU : Z;
  ds_transmission : Z * Z * Q * Z;
  ds_maxPending : Z;
  ds_msgID : Z;
  ds_qMode : Z;
  ds_qConfigErr : option error;
  ds_qParameters : option Assembly.Config;
  ds_qDatagramLimit : Z
}.

(** A new connection. *)
Record ConnSetup : Type := mkConnSetup {
  cs_limits : Z * Z;
  cs_handler : option HandlerFn;
  cs_getToken : option supplied;
  cs_pool : option PoolRef;
  cs_errors : option ErrorFn;
  cs_process : option nat;
  cs_queue : Z;
  cs_szx : Z;
  cs_monitor : ConnMonitor;
  cs_requestMonitor : option supplied;
  cs_blockWise : option BlockWiseSetup;
  cs_maxMessageSize : Z;
  cs_closeSocket : bool;
  cs_stream : option Stream;
  cs_datagram : option DatagramSetup
}.

(** [NewConnWithOpts] of src/tcp/client: making the queue panics on a negative size. *)
Definition TcpConn_NewConnWithOpts cfg s (closeSocket : bool) (monitor : ConnMonitor) (requestMonitor : option supplied)
    (blockWise : option BlockWiseSetup) : option ConnSetup :=
  let c := common (default_GetToken cfg) in
  if ReceivedMessageQueueSize c <? 0 then None else
  Some (mkConnSetup (LimitClientParallelRequests c, LimitClientEndpointParallelRequests c) (Handler cfg) (GetToken c) (MessagePool c)
    (Errors c) (ProcessReceivedMessage c) (ReceivedMessageQueueSize c) (BlockwiseSZX c) monitor requestMonitor blockWise
    (MaxMessageSize c) closeSocket (Some s) None).

(** The Q-Block part: the error, the parameters and the room in a datagram; [secure] is
    [QBlockwiseSecure]. *)
Definition datagram_setup cfg g (secure : bool) (sessionMaxMessageSize sessionMTU mid : Z) (blockWise : option BlockWiseSetup) : DatagramSetup :=
  let '(parameters, parametersErr) := Resolve (QBlockwiseConfig g) in
  let qConfigErr := match parametersErr with
    | Some e => Some e
    | None =>
        let err := ValidateQBlockwiseConfig (QBlockwiseMode g) (BlockwiseEnable (common cfg)) in
        match err, blockWise with None, Some _ => (Resolve parameters).2 | _, _ => err end
    end in
  let limit := if MTU g =? 0 then sessionMaxMessageSize
    else let limit := Z.min sessionMaxMessageSize (MTU g) in if secure then limit - Z.min limit 128 else limit in
  mkDatagramSetup sessionMTU
    (TransmissionNStart g, TransmissionAcknowledgeTimeout g, TransmissionAcknowledgeRandomFactor g, TransmissionMaxRetransmit g)
    (MaxPendingMessages g) (uint32 (mid - Z.quot 0xffff 2)) (QBlockwiseMode g) qConfigErr
    (match parametersErr with Some _ => None | None => Some parameters end) limit.

(** [NewConnWithOpts] of src/udp/client on a session with the given largest message, MTU
    and ownership of the socket; [mid] is the result of [GetMID]. *)
Definition UdpConn_NewConnWithOpts cfg (sessionMaxMessageSize sessionMTU : Z) (closeSocket : bool) (mid : Z) (monitor : ConnMonitor)
    (requestMonitor : option supplied) (blockWise : option BlockWiseSetup) : ConnSetup :=
  let cfg := default_GetToken (default_GetMID (default_Errors cfg)) in
  let c := common cfg in
  mkConnSetup (LimitClientParallelRequests c, LimitClientEndpointParallelRequests c) (Handler cfg) (GetToken c) (MessagePool c)
    (Errors c) (ProcessReceivedMessage c) (Z.max (ReceivedMessageQueueSize c) 0) (BlockwiseSZX c) monitor requestMonitor blockWise
    sessionMaxMessageSize closeSocket None
    (match own cfg with
     | UDPClient g _ secure => Some (datagram_setup cfg g secure sessionMaxMessageSize sessionMTU mid blockWise)
     | _ => None
     end).

(** *** Connections of a server

    A connection gets a copy of the client's default configuration into which the server
    copies fields of its own; [cfg] is the configuration of the server. *)

Definition TcpServer_createConn cfg s (monitor : ConnMonitor) : option ConnSetup :=
  let sc := common cfg in
  let c := common TcpClient_DefaultConfig in
  let c := set_MaxMessageSize c (MaxMessageSize sc) in
  let c := set_Errors c (Errors sc) in
  let c := set_BlockwiseSZX c (BlockwiseSZX sc) in
  let c := set_MessagePool c (MessagePool sc) in
  let c := set_GetToken c (GetToken sc) in
  let c := set_ProcessReceivedMessage c (ProcessReceivedMessage sc) in
  let c := set_ReceivedMessageQueueSize c (ReceivedMessageQueueSize sc) in
  TcpConn_NewConnWithOpts (set_Handler (set_common TcpClient_DefaultConfig c) (Handler cfg)) s true monitor (RequestMonitor cfg)
    (createBlockWise cfg).

Definition set_QBlockwiseSecure cfg (x : bool) : Config :=
  match own cfg with UDPClient g d _ => set_own cfg (UDPClient g d x) | _ => cfg end.

(** The fields that the UDP and the DTLS server copy, without the handler; [g] are those of
    the server for datagrams. *)
Definition copy_datagram cfg g (secure : bool) : Config :=
  let sc := common cfg in
  let x := UdpClient_DefaultConfig in
  let x := on_datagram (fun y => set_TransmissionNStart y (TransmissionNStart g)) x in
  let x := on_datagram (fun y => set_TransmissionAcknowledgeTimeout y (TransmissionAcknowledgeTimeout g)) x in
  let x := on_datagram (fun y => set_TransmissionAcknowledgeRandomFactor y (TransmissionAcknowledgeRandomFactor g)) x in
  let x := on_datagram (fun y => set_TransmissionMaxRetransmit y (TransmissionMaxRetransmit g)) x in
  let x := on_datagram (fun y => set_MaxPendingMessages y (MaxPendingMessages g)) x in
  let x := on_datagram (fun y => set_QBlockwiseMode y (QBlockwiseMode g)) x in
  let x := on_datagram (fun y => set_QBlockwiseConfig y (QBlockwiseConfig g)) x in
  let x := set_QBlockwiseSecure x secure in
  let x := on_datagram (fun y => set_MTU y (MTU g)) x in
  let x := set_common x (set_BlockwiseSZX (common x) (BlockwiseSZX sc)) in
  let x := set_common x (set_Errors (common x) (Errors sc)) in
  let x := on_datagram (fun y => set_GetMID y (GetMID g)) x in
  let x := set_common x (set_GetToken (common x) (GetToken sc)) in
  let x := set_common x (set_MessagePool (common x) (MessagePool sc)) in
  let x := set_common x (set_ReceivedMessageQueueSize (common x) (ReceivedMessageQueueSize sc)) in
  set_common x (set_ProcessReceivedMessage (common x) (ProcessReceivedMessage sc)).

Definition UdpServer_createConn cfg g (mid : Z) (monitor : ConnMonitor) : ConnSetup :=
  UdpConn_NewConnWithOpts (set_Handler (copy_datagram cfg g false) (Some (HDiscovery (Handler cfg)))) (MaxMessageSize (common cfg)) (MTU g) false mid
    monitor (RequestMonitor cfg) (createBlockWise cfg).

Definition DtlsServer_createConn cfg g (mid : Z) (monitor : ConnMonitor) : ConnSetup :=
  UdpConn_NewConnWithOpts (set_Handler (copy_datagram cfg g true) (Handler cfg)) (MaxMessageSize (common cfg)) (MTU g) true mid monitor
    (RequestMonitor cfg) (createBlockWise cfg).

(** A connection of a new server of each kind: the monitor is made, then the connection. *)
Definition server_conn (k : struct) opts (now mid : Z) : option ConnSetup :=
  match k with
  | STcpServer =>
      cfg ← TcpServer_New opts; monitor ← (f ← CreateInactivityMonitor cfg; create f now);
      match own cfg with TCPServer s _ => TcpServer_createConn cfg s monitor | _ => None end
  | SUdpServer =>
      cfg ← UdpServer_New opts; monitor ← (f ← CreateInactivityMonitor cfg; create f now);
      match own cfg with UDPServer g _ => Some (UdpServer_createConn cfg g mid monitor) | _ => None end
  | SDtlsServer =>
      cfg ← DtlsServer_New opts; monitor ← (f ← CreateInactivityMonitor cfg; create f now);
      match own cfg with DTLSServer g _ _ => Some (DtlsServer_createConn cfg g mid monitor) | _ => None end
  | _ => None
  end.

(** ** Clients *)

(** The errors of the Q-Block settings, in the order in which they are checked. *)
Definition q_errors cfg g : list error :=
  omap id [(Resolve (QBlockwiseConfig g)).2; ValidateQBlockwiseConfig (QBlockwiseMode g) (BlockwiseEnable (common cfg))].

(** [udp.Client] and [dtls.Client]: the connection, and the errors that are reported to the
    function of the configuration.  [cfg] is the default configuration. *)
Definition datagram_Client cfg (secure : bool) (prefix : string) opts (now mid : Z) : option (ConnSetup * list (ErrorFn * error)) :=
  cfg ← apply_all opts cfg;
  match own cfg with
  | UDPClient g d secure' =>
      let cfg := set_own cfg (UDPClient g d (secure || secure')) in
      let cfg := default_Errors cfg in
      let reported := match Errors (common cfg) with Some f => (fun e => (f, e)) <$> q_errors cfg g | None => [] end in
      let cfg := filter_Errors prefix (default_MessagePool (default_Monitor cfg)) in
      monitor ← (f ← CreateInactivityMonitor cfg; create f now);
      Some (UdpConn_NewConnWithOpts cfg (MaxMessageSize (common cfg)) (MTU g) (CloseSocket d) mid monitor
              (RequestMonitor cfg) (createBlockWise cfg), reported)
  | _ => None
  end.

Definition udp_Client opts now mid := datagram_Client UdpClient_DefaultConfig false "udp" opts now mid.
Definition dtls_Client opts now mid := datagram_Client DtlsClient_DefaultConfig true "dtls" opts now mid.

Definition errCSMTimeout : error := ErrOther "timeout waiting for CSM exchange with peer".

(** [setupCSMExchangeHandler]: is there a channel to wait for? *)
Definition setupCSMExchangeHandler (CSMExchangeTimeout : Z) (disablePeerCSMs : bool) : bool :=
  negb ((CSMExchangeTimeout =? 0) || disablePeerCSMs).

(** The handler it sets: [closed] is the channel; closing it twice would panic. *)
Definition csm_handler (closed : bool) (code : Z) : option bool :=
  if code =? CSM then if closed then Some closed else Some true else Some closed.

Fixpoint csm_signals (closed : bool) (signals : list Z) : option bool :=
  match signals with
  | [] => Some closed
  | code :: signals => closed ← csm_handler closed code; csm_signals closed signals
  end.

(** [waitForCSMExchange] after the signals that came before the timer; [late] is the choice
    of the timer when both are ready. *)
Definition waitForCSMExchange (channel : bool) (signals : list Z) (late : bool) : option (option error) :=
  if negb channel then Some None else
  closed ← csm_signals false signals;
  Some (if closed && negb late then None else Some errCSMTimeout).

(** [tcp.Client]; a connection whose exchange fails is closed and the error returned. *)
Definition tcp_Client opts (now : Z) (signals : list Z) (late : bool) : option (ConnSetup * option error) :=
  cfg ← apply_all opts TcpClient_DefaultConfig;
  match own cfg with
  | TCPClient s d _ timeout =>
      let cfg := filter_Errors "tcp" (default_MessagePool (default_Monitor (default_Errors cfg))) in
      monitor ← (f ← CreateInactivityMonitor cfg; create f now);
      conn ← TcpConn_NewConnWithOpts cfg s (CloseSocket d) monitor (RequestMonitor cfg) (createBlockWise cfg);
      err ← waitForCSMExchange (setupCSMExchangeHandler timeout (DisablePeerTCPSignalMessageCSMs s)) signals late;
      Some (conn, err)
  | _ => None
  end.

(** ** Dialling *)

(** What becomes of the socket: it was not opened, it was closed, the connection owns it, or
    it stays open without an owner. *)
Inductive socket : Type := NotOpened | SockClosed | Owned | Abandoned.

Definition errUnsupported : error := ErrOther "unsupported connection type".

(** A socket handed to a connection, which is closed if there was an error. *)
Definition handed (conn : ConnSetup) (err : option error) : result ConnSetup * socket :=
  match err with
  | None => (Ok conn, if cs_closeSocket conn then Owned else Abandoned)
  | Some e => (Err e, if cs_closeSocket conn then SockClosed else Abandoned)
  end.

(** [dialled] is the result of the dialer: whether the connection is a [*net.UDPConn]. *)
Definition udp_Dial opts (dialled : result bool) (now mid : Z) : option (result ConnSetup * socket) :=
  cfg ← apply_all opts UdpClient_DefaultConfig;
  match own cfg with
  | UDPClient g _ _ =>
      match q_errors cfg g, dialled with
      | e :: _, _ => Some (Err e, NotOpened)
      | [], Err e => Some (Err e, NotOpened)
      | [], Ok false => Some (Err errUnsupported, Abandoned)
      | [], Ok true =>
          '(conn, _) ← udp_Client (opts ++ [CloseSocketOpt]) now mid;
          Some (handed conn None)
      end
  | _ => None
  end.

(** [secured] is the result of making the DTLS connection. *)
Definition dtls_Dial opts (dialled : result unit) (secured : option error) (now mid : Z) : option (result ConnSetup * socket) :=
  cfg ← apply_all opts DtlsClient_DefaultConfig;
  match own cfg with
  | UDPClient g _ _ =>
      match q_errors cfg g, dialled, secured with
      | e :: _, _, _ => Some (Err e, NotOpened)
      | [], Err e, _ => Some (Err e, NotOpened)
      | [], Ok _, Some e => Some (Err e, SockClosed)
      | [], Ok _, None =>
          '(conn, _) ← dtls_Client (opts ++ [CloseSocketOpt]) now mid;
          Some (handed conn None)
      end
  | _ => None
  end.

(** With or without TLS, the dialer gives a connection or an error. *)
Definition tcp_Dial opts (dialled : result unit) (now : Z) (signals : list Z) (late : bool) : option (result ConnSetup * socket) :=
  cfg ← apply_all opts TcpClient_DefaultConfig;
  match dialled with
  | Err e => Some (Err e, NotOpened)
  | Ok _ => '(conn, err) ← tcp_Client (opts ++ [CloseSocketOpt]) now signals late; Some (handed conn err)
  end.

(** ** Serving on an address (src/server.go) *)

Definition errNetwork : error := ErrOther "invalid network".
Definition errOptionType : error := ErrOther "only support tcpServer.Option and udpServer.Option".

(** The networks of the two kinds of server. *)
Definition network_of (network : string) : option conn_type :=
  if bool_decide (network ∈ ["udp"; "udp4"; "udp6"; ""]) then Some CUdp
  else if bool_decide (network ∈ ["tcp"; "tcp4"; "tcp6"]) then Some CTcp else None.

(** The options that each server gets, or none if one is for neither. *)
Fixpoint split_options opts : result (list Opt * list Opt) :=
  match opts with
  | [] => Ok ([], [])
  | o :: opts =>
      if supports STcpServer o then
        match split_options opts with
        | Ok (tcp, udp) => Ok (o :: tcp, if supports SUdpServer o then o :: udp else udp)
        | Err e => Err e
        end
      else if supports SUdpServer o then
        match split_options opts with Ok (tcp, udp) => Ok (tcp, o :: udp) | Err e => Err e end
      else Err errOptionType
  end.

(** The body shared by the functions: [listen] is the result of opening the listener,
    [served] that of [Serve] and [closed] that of closing it.  [shadowed] when the deferred
    function sees the [err] of the case, not the result. *)
Definition listen_serve (shadowed : bool) (listen : option error) (served closed : option error) : option error :=
  match listen with
  | Some e => Some e
  | None => if shadowed then served else match served with Some e => Some e | None => closed end
  end.

Definition ListenAndServe (network : string) (listen served closed : option error) : option error :=
  match network_of network with
  | Some _ => listen_serve true listen served closed
  | None => Some errNetwork
  end.

Definition ListenAndServeWithOptions (network : string) opts (listen : option error) (served : option Config -> option error)
    (closed : option error) : option error :=
  match split_options opts with
  | Err e => Some e
  | Ok (tcpOptions, udpOptions) =>
      match network_of network with
      | Some CUdp => listen_serve true listen (served (UdpServer_New udpOptions)) closed
      | Some CTcp => listen_serve true listen (served (TcpServer_New tcpOptions)) closed
      | None => Some errNetwork
      end
  end.

(** [ListenAndServeTCPTLS] and the three others that only open a listener and serve. *)
Definition ListenAndServeTCPTLS (listen served closed : option error) : option error := listen_serve false listen served closed.

(** ** What the options do *)

(** The callbacks of an option are for the other type of connection. *)
Definition mistyped (t : conn_type) o : bool :=
  match o with
  | HandlerFuncOpt t' _ | ProcessReceivedMessageOpt t' _ | KeepAliveOpt t' _ _ _ | InactivityMonitorOpt t' _ _
  | OnNewConnOpt t' _ | WithRequestMonitorOpt t' _ => negb (bool_decide (t' = t))
  | _ => false
  end.

(** The setting that an option is about, by number. *)
Definition setting o : nat :=
  match o with
  | HandlerFuncOpt _ _ | MuxHandlerOpt _ => 0
  | KeepAliveOpt _ _ _ _ | InactivityMonitorOpt _ _ _ => 1
  | ContextOpt _ => 2 | MaxMessageSizeOpt _ => 3 | ErrorsOpt _ => 4 | ProcessReceivedMessageOpt _ _ => 5
  | NetOpt _ => 6 | PeriodicRunnerOpt _ => 7 | BlockwiseOpt _ _ _ => 8 | BlockwiseReceivingMessagesCacheMaxEntriesOpt _ => 9
  | OnNewConnOpt _ _ => 10 | WithRequestMonitorOpt _ _ => 11 | CloseSocketOpt => 12 | DialerOpt _ => 13 | MessagePoolOpt _ => 14
  | GetTokenOpt _ => 15 | LimitClientParallelRequestOpt _ => 16 | LimitClientEndpointParallelRequestOpt _ => 17
  | ReceivedMessageQueueSizeOpt _ => 18 | QBlockwiseConfigOpt _ => 19 | QBlockwiseOpt _ => 20 | MaxPendingMessagesOpt _ => 21
  | TransmissionOpt _ _ _ _ => 22 | MTUOpt _ => 23 | DTLSHandshakeTimeoutOpt _ => 24 | DisablePeerTCPSignalMessageCSMsOpt => 25
  | DisableTCPSignalMessageCSMOpt => 26 | CSMExchangeTimeoutOpt _ => 27 | TLSOpt _ => 28 | ConnectionCacheSizeOpt _ => 29
  end.

(** The option gives its whole setting: a nil dialer and a transmission without a random
    factor keep part of what was there. *)
Definition complete o : bool :=
  match o with DialerOpt None | TransmissionOpt _ _ None _ => false | _ => true end.

Lemma apply_cases o cfg :
  if mistyped (conn_of (struct_of cfg)) o then apply o cfg = None
  else exists cfg', apply o cfg = Some cfg' /\ struct_of cfg' = struct_of cfg.
Proof.
  destruct cfg as [c m r h w]. destruct o; cbn;
    unfold HandlerFuncOpt_Apply, ProcessReceivedMessageOpt_Apply, KeepAliveOpt_Apply, InactivityMonitorOpt_Apply, OnNewConnOpt_Apply,
      WithRequestMonitorOpt_Apply, for_type; cbn;
    try (destruct (decide (t = conn_of (struct_of (mkConfig c m r h w)))) as [E|E];
         [rewrite bool_decide_true by done|by rewrite bool_decide_false by done]); cbn;
    (eexists; split; [reflexivity|]); try destruct dialer; destruct w; reflexivity.
Qed.

Lemma apply_swap o1 o2 cfg : setting o1 <> setting o2 -> (cfg ← apply o1 cfg; apply o2 cfg) = (cfg ← apply o2 cfg; apply o1 cfg).
Proof.
  intros H. destruct cfg as [c m r h w].
  destruct w; destruct o1; try destruct dialer; try destruct randomFactor; try destruct t;
    destruct o2; try destruct dialer; try destruct randomFactor; try destruct t; solve [done|reflexivity].
Qed.

Lemma apply_absorb o1 o2 cfg cfg1 :
  setting o1 = setting o2 -> complete o2 = true -> apply o1 cfg = Some cfg1 -> apply o2 cfg1 = apply o2 cfg.
Proof.
  intros Hs Hc E. destruct cfg as [c m r h w].
  destruct o1; destruct o2; try discriminate Hs; clear Hs;
    repeat match goal with x : option nat |- _ => destruct x | x : option Q |- _ => destruct x end; try discriminate Hc;
    destruct w; repeat match goal with t : conn_type |- _ => destruct t end;
    cbn in E; try discriminate E; injection E as <-; reflexivity.
Qed.

(** [l] before [o] may be moved behind it when they are about other settings. *)
Lemma apply_all_swap l o cfg :
  Forall (fun o' => setting o' <> setting o) l ->
  apply_all (o :: l) cfg = apply_all (l ++ [o]) cfg.
Proof.
  revert cfg. induction l as [|o' l IH]; intros cfg Hl; [done|]. apply Forall_cons in Hl as [H Hl].
  transitivity (apply_all (o' :: o :: l) cfg).
  - cbn [apply_all]. pose proof (apply_swap o o' cfg ltac:(done)) as E.
    destruct (apply o cfg) as [c1|] eqn:E1, (apply o' cfg) as [c2|] eqn:E2; cbn [mbind option_bind] in *.
    + rewrite E. done.
    + by rewrite E.
    + by rewrite <- E.
    + done.
  - cbn [apply_all app]. destruct (apply o' cfg) as [c2|]; [|done]. exact (IH c2 Hl).
Qed.

Lemma apply_all_app l1 l2 cfg : apply_all (l1 ++ l2) cfg = (cfg ← apply_all l1 cfg; apply_all l2 cfg).
Proof. revert cfg. induction l1 as [|o l1 IH]; intros cfg; [done|]. cbn. destruct (apply o cfg); [apply IH|done]. Qed.

(** An option that a later one overrides has no effect, unless it panics. *)
Lemma apply_all_absorb l o cfg :
  complete o = true -> Forall (fun o' => mistyped (conn_of (struct_of cfg)) o' = false) l ->
  apply_all (l ++ [o]) cfg = apply_all (filter (fun o' => setting o' <> setting o) l ++ [o]) cfg.
Proof.
  intros Hc. revert cfg. induction l as [|o' l IH]; intros cfg Hl; [done|]. apply Forall_cons in Hl as [H Hl].
  pose proof (apply_cases o' cfg) as Ha. rewrite H in Ha. destruct Ha as (c1 & E1 & Hst).
  rewrite <- Hst in Hl. cbn [app apply_all]. rewrite E1. cbn [mbind option_bind]. rewrite (IH c1 Hl).
  destruct (decide (setting o' = setting o)) as [Hs|Hs].
  - rewrite filter_cons_False by (intros Hn; by apply Hn).
    assert (Forall (fun o'' => setting o'' <> setting o) (filter (fun o' => setting o' <> setting o) l)) as Hf.
    { apply Forall_forall. intros x Hx. by apply list_elem_of_filter in Hx as [? _]. }
    rewrite <- !apply_all_swap by done. cbn [apply_all]. by rewrite (apply_absorb o' o cfg c1 Hs Hc E1).
  - rewrite filter_cons_True by done. cbn [app apply_all]. by rewrite E1.
Qed.

(** The result of the options does not depend on their order, except between options
    about the same setting, of which the last decides: for any struct, an option in the
    middle of a list can be moved to the end if none behind it is about its setting, and the
    earlier ones about its setting can be left out.  The loop panics exactly if an option has
    a callback for the other type of connection, and never changes the type of the struct. *)
Theorem last_option_wins cfg l1 l2 o
    (Hcomplete : complete o = true) (Hafter : Forall (fun o' => setting o' <> setting o) l2)
    (Htyped : Forall (fun o' => mistyped (conn_of (struct_of cfg)) o' = false) l1) :
  apply_all (l1 ++ o :: l2) cfg = apply_all (filter (fun o' => setting o' <> setting o) l1 ++ l2 ++ [o]) cfg /\
  (forall opts, apply_all opts cfg = None <-> Exists (fun o' => mistyped (conn_of (struct_of cfg)) o' = true) opts) /\
  (forall opts cfg', apply_all opts cfg = Some cfg' -> struct_of cfg' = struct_of cfg).
Proof.
  split.
  - rewrite apply_all_app. transitivity (cfg ← apply_all l1 cfg; apply_all (l2 ++ [o]) cfg).
    { destruct (apply_all l1 cfg) as [c1|]; [|done]. exact (apply_all_swap l2 o c1 Hafter). }
    rewrite <- apply_all_app.
    assert (forall l cfg0, apply_all (l ++ l2 ++ [o]) cfg0 = apply_all ((l ++ [o]) ++ l2) cfg0) as Hm.
    { intros l cfg0. rewrite <- app_assoc. rewrite !(apply_all_app l). destruct (apply_all l cfg0) as [c1|]; [|done].
      symmetry. exact (apply_all_swap l2 o c1 Hafter). }
    rewrite !Hm, !(apply_all_app _ l2), (apply_all_absorb l1) by done. done.
  - split; intros opts; revert cfg Htyped; induction opts as [|o' opts IH]; intros cfg Htyped.
    + split; [done|by intros H%Exists_nil].
    + rewrite Exists_cons. cbn [apply_all]. pose proof (apply_cases o' cfg) as Ha.
      destruct (mistyped _ o'); [rewrite Ha; split; [by left|done]|].
      destruct Ha as (c1 & -> & Hst). cbn [mbind option_bind]. rewrite IH by (by rewrite Hst). rewrite Hst.
      split; [by right|by intros [?|?]].
    + intros cfg' [= <-]. done.
    + intros cfg' H. cbn [apply_all] in H. pose proof (apply_cases o' cfg) as Ha.
      destruct (mistyped _ o'); [by rewrite Ha in H|]. destruct Ha as (c1 & E & Hst). rewrite E in H. cbn in H.
      rewrite <- Hst. apply (IH c1); [by rewrite Hst|done].
Qed.

(** ** What a connection of a server gets *)

Definition Server_DefaultConfig (k : struct) : Config :=
  match k with
  | STcpServer => TcpServer_DefaultConfig
  | SUdpServer => UdpServer_DefaultConfig
  | SDtlsServer => DtlsServer_DefaultConfig
  | STcpClient => TcpClient_DefaultConfig
  | SUdpClient => UdpClient_DefaultConfig
  end.

Definition is_server (k : struct) : bool := match k with STcpServer | SUdpServer | SDtlsServer => true | _ => false end.
Definition is_udp (k : struct) : bool := bool_decide (k = SUdpServer).
Definition prefix_of (k : struct) : string := match k with STcpServer => "tcp" | SUdpServer => "udp" | _ => "dtls" end.

Lemma apply_all_struct opts : forall cfg cfg', apply_all opts cfg = Some cfg' -> struct_of cfg' = struct_of cfg.
Proof.
  induction opts as [|o opts IH]; intros cfg cfg' H; [by injection H as <-|]. cbn in H. pose proof (apply_cases o cfg) as Ha.
  destruct (mistyped _ o); [by rewrite Ha in H|]. destruct Ha as (c1 & E & Hst). rewrite E in H. rewrite <- Hst. by apply IH.
Qed.

Lemma or_else_default {A} (x : option A) y : or_else x y = Some (default y x).
Proof. by destruct x. Qed.

Definition datagram_of cfg : option Datagram :=
  match own cfg with UDPClient g _ _ | UDPServer g _ | DTLSServer g _ _ => Some g | _ => None end.
Definition stream_of cfg : option Stream := match own cfg with TCPClient s _ _ _ | TCPServer s _ => Some s | _ => None end.

(** *** What options ask for *)

(** The value of the last option that asks for one, or the default. *)
Definition latest {A} (asked : Opt -> option A) opts (x : A) : A := default x (last (omap asked opts)).

Definition asked_handler o := match o with HandlerFuncOpt _ h => Some (HUser <$> h) | MuxHandlerOpt m => Some (Some (HMux m)) | _ => None end.
Definition asked_monitor o :=
  match o with
  | KeepAliveOpt _ n t f => Some (Some (MKeepAlive n t (OnUser f)))
  | InactivityMonitorOpt _ d f => Some (Some (MInactivity d (OnUser f)))
  | _ => None
  end.
Definition asked_request_monitor o := match o with WithRequestMonitorOpt _ f => Some (Given <$> f) | _ => None end.
Definition asked_errors o := match o with ErrorsOpt f => Some (EUser <$> f) | _ => None end.
Definition asked_process o := match o with ProcessReceivedMessageOpt _ f => Some f | _ => None end.
Definition asked_token o := match o with GetTokenOpt f => Some (Given <$> f) | _ => None end.
Definition asked_pool o := match o with MessagePoolOpt p => Some (PUser <$> p) | _ => None end.
Definition asked_size o := match o with MaxMessageSizeOpt n => Some n | _ => None end.
Definition asked_queue o := match o with ReceivedMessageQueueSizeOpt n => Some n | _ => None end.
Definition asked_blockwise o := match o with BlockwiseOpt b szx t => Some (b, szx, t) | _ => None end.
Definition asked_entries o := match o with BlockwiseReceivingMessagesCacheMaxEntriesOpt n => Some n | _ => None end.
Definition asked_cache o := match o with ConnectionCacheSizeOpt n => Some n | _ => None end.
Definition asked_no_peer_csm o := match o with DisablePeerTCPSignalMessageCSMsOpt => Some true | _ => None end.
Definition asked_no_csm o := match o with DisableTCPSignalMessageCSMOpt => Some true | _ => None end.
Definition asked_transmission o := match o with TransmissionOpt n t _ r => Some (n, t, r) | _ => None end.
Definition asked_factor o := match o with TransmissionOpt _ _ f _ => f | _ => None end.
Definition asked_mtu o := match o with MTUOpt n => Some n | _ => None end.
Definition asked_pending o := match o with MaxPendingMessagesOpt n => Some n | _ => None end.
Definition asked_qmode o := match o with QBlockwiseOpt m => Some m | _ => None end.
Definition asked_qconfig o := match o with QBlockwiseConfigOpt q => Some q | _ => None end.

Lemma latest_cons {A} (asked : Opt -> option A) o opts (x : A) : latest asked (o :: opts) x = latest asked opts (default x (asked o)).
Proof.
  unfold latest. cbn. destruct (asked o) as [v|]; [|done]. destruct (omap asked opts) as [|y l] eqn:E; [done|]. change (last (v :: y :: l)) with (last (y :: l)).
  destruct (last (y :: l)) eqn:El; [done|]. by apply last_None in El.
Qed.

(** A field is what the last option asked for, if every option sets it or leaves it alone. *)
Lemma apply_all_latest {A} (k : struct) (field : Config -> A) (asked : Opt -> option A) :
  (forall o cfg cfg', struct_of cfg = k -> apply o cfg = Some cfg' -> field cfg' = default (field cfg) (asked o)) ->
  forall opts cfg cfg', struct_of cfg = k -> apply_all opts cfg = Some cfg' -> field cfg' = latest asked opts (field cfg).
Proof.
  intros Hstep. induction opts as [|o opts IH]; intros cfg cfg' Hk H; [by injection H as <-|]. cbn in H. rewrite latest_cons.
  pose proof (apply_cases o cfg) as Ha. destruct (mistyped _ o); [by rewrite Ha in H|]. destruct Ha as (c1 & E & Hst). rewrite E in H. cbn in H.
  rewrite <- (Hstep o cfg c1 Hk E). apply IH; [congruence|done].
Qed.

(** A field of the datagram or stream part. *)
Definition dfield {A} (f : Datagram -> A) (x : A) cfg : A := from_option f x (datagram_of cfg).
Definition sfield {A} (f : Stream -> A) (x : A) cfg : A := from_option f x (stream_of cfg).

Ltac field_step :=
  let o := fresh "o" in let cfg := fresh "cfg" in let Hk := fresh "Hk" in let E := fresh "E" in
  intros o cfg ? Hk; destruct cfg as [c m r h w];
  destruct w; cbn in Hk; try (exfalso; congruence); destruct o; cbn;
  unfold HandlerFuncOpt_Apply, ProcessReceivedMessageOpt_Apply, KeepAliveOpt_Apply, InactivityMonitorOpt_Apply, OnNewConnOpt_Apply,
    WithRequestMonitorOpt_Apply, DialerOpt_Apply, for_type; cbn; repeat case_decide; intros E; try discriminate E; injection E as <-;
  try match goal with x : option Q |- _ => destruct x end; try match goal with |- context [match ?x with Some _ => _ | None => _ end] => destruct x end; reflexivity.

Section Asked.
Context (k : struct) (opts : list Opt) (cfg0 cfg : Config) (Hk : struct_of cfg0 = k) (Ha : apply_all opts cfg0 = Some cfg).

Lemma asked_top :
  Handler cfg = latest asked_handler opts (Handler cfg0) /\ CreateInactivityMonitor cfg = latest asked_monitor opts (CreateInactivityMonitor cfg0).
Proof.
  split; revert Ha.
  - apply (apply_all_latest k Handler asked_handler); [|done]. field_step.
  - apply (apply_all_latest k CreateInactivityMonitor asked_monitor); [|done]. field_step.
Qed.

Lemma asked_monitor_of_requests : k <> STcpClient -> RequestMonitor cfg = latest asked_request_monitor opts (RequestMonitor cfg0).
Proof. intros Hn. revert Ha. apply (apply_all_latest k RequestMonitor asked_request_monitor); [|done]. field_step. Qed.

Lemma asked_common :
  Errors (common cfg) = latest asked_errors opts (Errors (common cfg0)) /\
  ProcessReceivedMessage (common cfg) = latest asked_process opts (ProcessReceivedMessage (common cfg0)) /\
  GetToken (common cfg) = latest asked_token opts (GetToken (common cfg0)) /\
  MessagePool (common cfg) = latest asked_pool opts (MessagePool (common cfg0)) /\
  MaxMessageSize (common cfg) = latest asked_size opts (MaxMessageSize (common cfg0)) /\
  ReceivedMessageQueueSize (common cfg) = latest asked_queue opts (ReceivedMessageQueueSize (common cfg0)) /\
  BlockwiseReceivingMessagesCacheMaxEntries (common cfg) = latest asked_entries opts (BlockwiseReceivingMessagesCacheMaxEntries (common cfg0)) /\
  (BlockwiseEnable (common cfg), BlockwiseSZX (common cfg), BlockwiseTransferTimeout (common cfg)) =
    latest asked_blockwise opts (BlockwiseEnable (common cfg0), BlockwiseSZX (common cfg0), BlockwiseTransferTimeout (common cfg0)).
Proof.
  split_and!; revert Ha.
  - apply (apply_all_latest k (fun x => Errors (common x)) asked_errors); [|done]. field_step.
  - apply (apply_all_latest k (fun x => ProcessReceivedMessage (common x)) asked_process); [|done]. field_step.
  - apply (apply_all_latest k (fun x => GetToken (common x)) asked_token); [|done]. field_step.
  - apply (apply_all_latest k (fun x => MessagePool (common x)) asked_pool); [|done]. field_step.
  - apply (apply_all_latest k (fun x => MaxMessageSize (common x)) asked_size); [|done]. field_step.
  - apply (apply_all_latest k (fun x => ReceivedMessageQueueSize (common x)) asked_queue); [|done]. field_step.
  - apply (apply_all_latest k (fun x => BlockwiseReceivingMessagesCacheMaxEntries (common x)) asked_entries); [|done]. field_step.
  - apply (apply_all_latest k (fun x => (BlockwiseEnable (common x), BlockwiseSZX (common x), BlockwiseTransferTimeout (common x))) asked_blockwise); [|done]. field_step.
Qed.

Lemma asked_stream :
  k = STcpServer ->
  sfield ConnectionCacheSize 0 cfg = latest asked_cache opts (sfield ConnectionCacheSize 0 cfg0) /\
  sfield DisablePeerTCPSignalMessageCSMs false cfg = latest asked_no_peer_csm opts (sfield DisablePeerTCPSignalMessageCSMs false cfg0) /\
  sfield DisableTCPSignalMessageCSM false cfg = latest asked_no_csm opts (sfield DisableTCPSignalMessageCSM false cfg0).
Proof.
  intros Et. assert (struct_of cfg0 = STcpServer) as Hk' by congruence. split_and!.
  - refine (apply_all_latest _ (sfield ConnectionCacheSize 0) asked_cache _ opts cfg0 cfg Hk' Ha). field_step.
  - refine (apply_all_latest _ (sfield DisablePeerTCPSignalMessageCSMs false) asked_no_peer_csm _ opts cfg0 cfg Hk' Ha). field_step.
  - refine (apply_all_latest _ (sfield DisableTCPSignalMessageCSM false) asked_no_csm _ opts cfg0 cfg Hk' Ha). field_step.
Qed.

Lemma asked_datagram :
  k = SUdpServer \/ k = SDtlsServer ->
  dfield (fun g => (TransmissionNStart g, TransmissionAcknowledgeTimeout g, TransmissionMaxRetransmit g)) (0, 0, 0) cfg =
    latest asked_transmission opts (dfield (fun g => (TransmissionNStart g, TransmissionAcknowledgeTimeout g, TransmissionMaxRetransmit g)) (0, 0, 0) cfg0) /\
  dfield TransmissionAcknowledgeRandomFactor (3 # 2)%Q cfg = latest asked_factor opts (dfield TransmissionAcknowledgeRandomFactor (3 # 2)%Q cfg0) /\
  dfield MTU 0 cfg = latest asked_mtu opts (dfield MTU 0 cfg0) /\
  dfield MaxPendingMessages 0 cfg = latest asked_pending opts (dfield MaxPendingMessages 0 cfg0) /\
  dfield QBlockwiseMode 0 cfg = latest asked_qmode opts (dfield QBlockwiseMode 0 cfg0) /\
  dfield QBlockwiseConfig (Assembly.mkConfig 0 0 0 0 0) cfg = latest asked_qconfig opts (dfield QBlockwiseConfig (Assembly.mkConfig 0 0 0 0 0) cfg0).
Proof.
  intros Hd. assert (struct_of cfg0 = SUdpServer \/ struct_of cfg0 = SDtlsServer) as [Hk'|Hk'] by (destruct Hd; [left|right]; congruence); clear Hd.
  all: split_and!;
    [refine (apply_all_latest _ (dfield (fun g => (TransmissionNStart g, TransmissionAcknowledgeTimeout g, TransmissionMaxRetransmit g)) (0, 0, 0)) asked_transmission _ opts cfg0 cfg Hk' Ha)
    |refine (apply_all_latest _ (dfield TransmissionAcknowledgeRandomFactor (3 # 2)%Q) asked_factor _ opts cfg0 cfg Hk' Ha)
    |refine (apply_all_latest _ (dfield MTU 0) asked_mtu _ opts cfg0 cfg Hk' Ha)
    |refine (apply_all_latest _ (dfield MaxPendingMessages 0) asked_pending _ opts cfg0 cfg Hk' Ha)
    |refine (apply_all_latest _ (dfield QBlockwiseMode 0) asked_qmode _ opts cfg0 cfg Hk' Ha)
    |refine (apply_all_latest _ (dfield QBlockwiseConfig (Assembly.mkConfig 0 0 0 0 0)) asked_qconfig _ opts cfg0 cfg Hk' Ha)]; field_step.
Qed.
End Asked.

(** *** What a connection is to be *)

(** Where an error goes: nowhere if it comes from cancellation or closing, or if the
    function is nil. *)
Definition reported_to (dest : option ErrorFn) (e : error) : option ErrorFn :=
  if decide (e = ErrContext \/ e = ErrEOF \/ e = ErrNetClosed) then None else dest.

Definition datagram_configured (secure : bool) opts (size mid : Z) (x : DatagramSetup) : Prop :=
  let '(nStart, timeout, retransmit) := latest asked_transmission opts (1, 2 * Second, 4) in
  let mtu := latest asked_mtu opts 1472 in
  let q := latest asked_qconfig opts (Assembly.mkConfig 0 0 0 0 0) in
  ds_transmission x = (nStart, timeout, latest asked_factor opts (3 # 2)%Q, retransmit) /\
  ds_sessionMTU x = mtu /\
  ds_qDatagramLimit x = (if mtu =? 0 then size else if secure then Z.max 0 (Z.min size mtu - 128) else Z.min size mtu) /\
  ds_maxPending x = latest asked_pending opts 1024 /\ ds_qMode x = latest asked_qmode opts QBlockwiseDisabled /\
  ds_msgID x = uint32 (mid - 32767) /\
  match Resolve q with
  | (parameters, None) =>
      ds_qParameters x = Some parameters /\
      ds_qConfigErr x = ValidateQBlockwiseConfig (latest asked_qmode opts QBlockwiseDisabled) true
  | (_, Some e) => ds_qParameters x = None /\ ds_qConfigErr x = Some e
  end.

(** A connection of a server of the kind [k] with the options, made at the time [now] with
    the message ID [mid]. *)
Definition configured (k : struct) opts (now mid : Z) (conn : ConnSetup) : Prop :=
  let '(enabled, szx, timeout) := latest asked_blockwise opts (true, SZX1024, 3 * Second) in
  let size := latest asked_size opts (64 * 1024) in
  let handler := latest asked_handler opts (default_handler false) in
  let monitor := latest asked_monitor opts
    (Some (match k with STcpServer => MKeepAlive 2 (16 * Second) OnClose | _ => MDeferred (MInactivity (16 * Second) OnClose) end)) in
  let reports f := forall e, (f ≫= fun f => deliver f e) = reported_to (latest asked_errors opts (Some EPrintln)) e in
  cs_handler conn = (if is_udp k then Some (HDiscovery handler) else handler) /\
  cs_requestMonitor conn = latest asked_request_monitor opts (Some Default) /\
  create (default MNil monitor) now = Some (cs_monitor conn) /\
  cs_getToken conn = Some (default Default (latest asked_token opts (Some Default))) /\
  cs_pool conn = Some (default (PNew 0 0) (latest asked_pool opts (Some (PNew 1024 2048)))) /\
  reports (cs_errors conn) /\
  cs_process conn = latest asked_process opts None /\ cs_szx conn = szx /\ cs_maxMessageSize conn = size /\
  cs_queue conn = Z.max (latest asked_queue opts 16) 0 /\ cs_closeSocket conn = negb (is_udp k) /\
  match cs_blockWise conn with
  | Some b => enabled = true /\ bw_timeout b = timeout /\ bw_maxEntries b = latest asked_entries opts 4096 /\ reports (bw_errors b)
  | None => enabled = false
  end /\
  match k with
  | STcpServer =>
      cs_datagram conn = None /\
      cs_stream conn = Some (mkStream (latest asked_cache opts 2048) (latest asked_no_peer_csm opts false) (latest asked_no_csm opts false))
  | _ => cs_stream conn = None /\ exists x, cs_datagram conn = Some x /\ datagram_configured (negb (is_udp k)) opts size mid x
  end.

(** Of the configured function only those of the caller and the output take errors. *)
Lemma asked_errors_takes opts : match latest asked_errors opts (Some EPrintln) with Some EPrintln | Some (EUser _) | None => True | _ => False end.
Proof.
  assert (forall x : option ErrorFn, match x with Some EPrintln | Some (EUser _) | None => True | _ => False end ->
    match latest asked_errors opts x with Some EPrintln | Some (EUser _) | None => True | _ => False end) as H; [|by apply H].
  induction opts as [|o opts IH]; intros x Hx; [done|]. rewrite latest_cons. apply IH. destruct o; try done. by destruct errors.
Qed.

Lemma filtered_reports prefix opts e :
  deliver (EFilter prefix (default ENoop (latest asked_errors opts (Some EPrintln)))) e = reported_to (latest asked_errors opts (Some EPrintln)) e.
Proof.
  unfold reported_to. cbn. pose proof (asked_errors_takes opts) as Ht. destruct (latest asked_errors opts _) as [[| | |]|]; try done; cbn;
    case_decide as Hd; destruct (bool_decide (e = ErrContext)) eqn:E1, (bool_decide (e = ErrEOF)) eqn:E2, (bool_decide (e = ErrNetClosed)) eqn:E3; cbn;
    try done; exfalso; repeat match goal with H : bool_decide _ = true |- _ => apply bool_decide_eq_true in H | H : bool_decide _ = false |- _ => apply bool_decide_eq_false in H end; tauto.
Qed.

(** What [New] makes of a configuration, field by field. *)
Definition started (k : struct) cfg cfg' : Prop :=
  let c := common cfg in let c' := common cfg' in
  CreateInactivityMonitor cfg' = Some (default MNil (CreateInactivityMonitor cfg)) /\
  RequestMonitor cfg' = RequestMonitor cfg /\ Handler cfg' = Handler cfg /\
  GetToken c' = Some (default Default (GetToken c)) /\ MessagePool c' = Some (default (PNew 0 0) (MessagePool c)) /\
  Errors c' = Some (EFilter (prefix_of k) (default ENoop (Errors c))) /\ ProcessReceivedMessage c' = ProcessReceivedMessage c /\
  BlockwiseSZX c' = BlockwiseSZX c /\ MaxMessageSize c' = MaxMessageSize c /\
  ReceivedMessageQueueSize c' = ReceivedMessageQueueSize c /\ BlockwiseEnable c' = BlockwiseEnable c /\
  BlockwiseTransferTimeout c' = BlockwiseTransferTimeout c /\
  BlockwiseReceivingMessagesCacheMaxEntries c' = BlockwiseReceivingMessagesCacheMaxEntries c /\
  match own cfg, own cfg' with
  | TCPServer s _, TCPServer s' _ => s' = s
  | UDPServer g _, UDPServer g' _ | DTLSServer g _ _, DTLSServer g' _ _ => g' = set_GetMID g (Some (default Default (GetMID g)))
  | _, _ => False
  end.

Lemma TcpServer_New_started cfg :
  struct_of cfg = STcpServer ->
  started STcpServer cfg (filter_Errors "tcp" (default_GetToken (default_Errors (default_MessagePool (default_Monitor cfg))))).
Proof. destruct cfg as [c m r h w], w; try done. intros _. unfold started. cbn. rewrite !or_else_default. by split_and!. Qed.

Lemma Datagram_New_started k cfg :
  struct_of cfg = k -> k = SUdpServer \/ k = SDtlsServer ->
  started k cfg (filter_Errors (prefix_of k) (default_MessagePool (default_Monitor (default_GetToken (default_GetMID (default_Errors cfg)))))).
Proof.
  intros <- Hk. destruct cfg as [c m r h w], w; try (by destruct Hk); unfold started; cbn; rewrite !or_else_default; by split_and!.
Qed.

(** The parts that all connections have. *)
Lemma blockWise_reports k opts cfg' :
  Errors (common cfg') = Some (EFilter (prefix_of k) (default ENoop (latest asked_errors opts (Some EPrintln)))) ->
  forall e, (Errors (common cfg') ≫= fun f => deliver f e) = reported_to (latest asked_errors opts (Some EPrintln)) e.
Proof. intros -> e. apply filtered_reports. Qed.

Lemma TcpServer_configured opts now mid cfg cfg' s n mon conn :
  apply_all opts TcpServer_DefaultConfig = Some cfg -> started STcpServer cfg cfg' -> own cfg' = TCPServer s n ->
  create (default MNil (CreateInactivityMonitor cfg)) now = Some mon ->
  TcpServer_createConn cfg' s mon = Some conn -> configured STcpServer opts now mid conn /\ cs_limits conn = (1, 1).
Proof.
  intros Ha (Hm & Hr & Hh & Ht & Hp & He & Hpr & Hz & Hx & Hq & Hb & Hbt & Hbe & Ho) Eo Em H.
  destruct (asked_top STcpServer opts TcpServer_DefaultConfig cfg eq_refl Ha) as [A1 A2]. pose proof (asked_monitor_of_requests STcpServer opts TcpServer_DefaultConfig cfg eq_refl Ha ltac:(done)) as A3.
  destruct (asked_common STcpServer opts TcpServer_DefaultConfig cfg eq_refl Ha) as (B1 & B2 & B3 & B4 & B5 & B6 & B7 & B8).
  destruct (asked_stream STcpServer opts TcpServer_DefaultConfig cfg eq_refl Ha eq_refl) as (S1 & S2 & S3). cbn -[latest] in A1, A2, A3, B1, B2, B3, B4, B5, B6, B7, B8.
  assert (Hown : exists n0, own cfg = TCPServer s n0) by (rewrite Eo in Ho; destruct (own cfg); try done; subst; eauto). destruct Hown as [n0 Ec].
  unfold sfield, stream_of in S1, S2, S3. rewrite Ec in S1, S2, S3. cbn in S1, S2, S3.
  rewrite B1 in He. pose proof (blockWise_reports _ _ _ He) as Hrep. rewrite A2 in Em.
  unfold TcpServer_createConn, TcpConn_NewConnWithOpts in H. cbn in H. rewrite Hq, B6 in H.
  destruct (Z.ltb_spec (latest asked_queue opts 16) 0); [discriminate H|]. injection H as <-. split; [|done].
  unfold configured. cbn in B8. destruct (latest asked_blockwise opts _) as [[en szx] tmo]. injection B8 as B8 B9 B10.
  cbn -[latest create]. unfold createBlockWise. rewrite ?Hb, ?Hbt, ?Hbe, ?B8, ?B10, ?B7, ?Hr, ?Hh, ?Ht, ?Hp, ?Hpr, ?Hz, ?Hx, ?Hq, ?A1, ?A3, ?B2, ?B3, ?B4, ?B5, ?B9, ?or_else_default.
  split_and!; try done; [lia|by destruct en|]. destruct s. cbn in S1, S2, S3. by rewrite S1, S2, S3.
Qed.

(** Resolving settings that were resolved finds no error. *)
Lemma Resolve_again q q' : Resolve q = (q', None) -> Resolve q' = (q', None).
Proof.
  unfold Resolve. set (d := if bool_decide _ then _ else _). clearbody d. intros H.
  repeat match type of H with (if ?b then _ else _) = _ => destruct b eqn:?; [discriminate H|] end. injection H as <-.
  rewrite bool_decide_false.
  - repeat match goal with E : ?b = false |- context [if ?b then _ else _] => rewrite E end. done.
  - intros ->. cbn in *. done.
Qed.

(** The part for datagrams of the configuration that [New] leaves has the settings that the
    options ask for. *)
Lemma Datagram_asked k opts cfg cfg' g :
  k = SUdpServer \/ k = SDtlsServer -> apply_all opts (Server_DefaultConfig k) = Some cfg -> started k cfg cfg' -> datagram_of cfg' = Some g ->
  (TransmissionNStart g, TransmissionAcknowledgeTimeout g, TransmissionMaxRetransmit g) = latest asked_transmission opts (1, 2 * Second, 4) /\
  TransmissionAcknowledgeRandomFactor g = latest asked_factor opts (3 # 2)%Q /\ MTU g = latest asked_mtu opts 1472 /\
  MaxPendingMessages g = latest asked_pending opts 1024 /\ QBlockwiseMode g = latest asked_qmode opts QBlockwiseDisabled /\
  QBlockwiseConfig g = latest asked_qconfig opts (Assembly.mkConfig 0 0 0 0 0).
Proof.
  intros Hk Ha Hs Eg. pose proof (asked_datagram k opts (Server_DefaultConfig k) cfg ltac:(by destruct Hk as [->| ->]) Ha Hk) as D.
  assert (exists g0, datagram_of cfg = Some g0 /\ g = set_GetMID g0 (Some (default Default (GetMID g0)))) as (g0 & Eg0 & ->).
  { destruct Hs as (_ & _ & _ & _ & _ & _ & _ & _ & _ & _ & _ & _ & _ & Ho).
    unfold datagram_of in *. destruct (own cfg), (own cfg'); try done; injection Eg as <-; subst; by eexists. }
  unfold dfield in D. rewrite Eg0 in D. cbn -[latest] in D. destruct Hk as [-> | ->]; exact D.
Qed.

(** Every field of that part is copied to the configuration of the connection. *)
Lemma copied cfg g secure :
  copy_datagram cfg g secure =
  mkConfig
    (mkCommon 1 1 Default (Errors (common cfg)) (Some Default) (MessagePool (common cfg)) (GetToken (common cfg)) (64 * 1024)
       (3 * Second) 4096 (BlockwiseSZX (common cfg)) true (ProcessReceivedMessage (common cfg)) (ReceivedMessageQueueSize (common cfg)))
    (Some MNil) (Some Default) (default_handler true) (UDPClient g (mkDialing "udp" Default false) secure).
Proof. destruct g. unfold copy_datagram. cbv zeta. vm_compute. reflexivity. Qed.

Lemma copied_conn cfg g secure h size mtu close mid mon r b f :
  Errors (common cfg) = Some f ->
  let conn := UdpConn_NewConnWithOpts (set_Handler (copy_datagram cfg g secure) h) size mtu close mid mon r b in
  cs_handler conn = h /\ cs_requestMonitor conn = r /\ cs_monitor conn = mon /\ cs_getToken conn = or_else (GetToken (common cfg)) Default /\
  cs_pool conn = MessagePool (common cfg) /\ cs_errors conn = Some f /\ cs_process conn = ProcessReceivedMessage (common cfg) /\
  cs_szx conn = BlockwiseSZX (common cfg) /\ cs_maxMessageSize conn = size /\ cs_queue conn = Z.max (ReceivedMessageQueueSize (common cfg)) 0 /\
  cs_closeSocket conn = close /\ cs_blockWise conn = b /\ cs_stream conn = None.
Proof. intros Hf conn. unfold conn. rewrite copied, Hf. by split_and!. Qed.

Lemma datagram_setup_configured secure opts cfg g size mtu mid b :
  BlockwiseEnable (common cfg) = true -> mtu = MTU g ->
  (TransmissionNStart g, TransmissionAcknowledgeTimeout g, TransmissionMaxRetransmit g) = latest asked_transmission opts (1, 2 * Second, 4) ->
  TransmissionAcknowledgeRandomFactor g = latest asked_factor opts (3 # 2)%Q -> MTU g = latest asked_mtu opts 1472 ->
  MaxPendingMessages g = latest asked_pending opts 1024 -> QBlockwiseMode g = latest asked_qmode opts QBlockwiseDisabled ->
  QBlockwiseConfig g = latest asked_qconfig opts (Assembly.mkConfig 0 0 0 0 0) ->
  datagram_configured secure opts size mid (datagram_setup cfg g secure size mtu mid b).
Proof.
  intros Hb -> D1 D2 D3 D4 D5 D6. unfold datagram_configured, datagram_setup. rewrite <- D1, <- D2, <- D3, <- D4, <- D5, <- D6, Hb.
  assert (Hlimit : forall l : Z, l - l `min` 128 = 0 `max` (l - 128)) by lia. rewrite Hlimit.
  change (0xffff ÷ 2) with 32767.
  destruct (Resolve (QBlockwiseConfig g)) as [q [e|]] eqn:Eq;
    cbn [ds_sessionMTU ds_transmission ds_maxPending ds_msgID ds_qMode ds_qConfigErr ds_qParameters ds_qDatagramLimit]; [by split_and!|].
  rewrite (Resolve_again _ _ Eq). split_and!; try done. by destruct (ValidateQBlockwiseConfig _ _), b.
Qed.

Lemma Datagram_configured k opts now mid cfg cfg' g mon h :
  k = SUdpServer \/ k = SDtlsServer -> apply_all opts (Server_DefaultConfig k) = Some cfg -> started k cfg cfg' -> datagram_of cfg' = Some g ->
  h = (if is_udp k then Some (HDiscovery (Handler cfg')) else Handler cfg') ->
  create (default MNil (CreateInactivityMonitor cfg)) now = Some mon ->
  let conn := UdpConn_NewConnWithOpts (set_Handler (copy_datagram cfg' g (negb (is_udp k))) h) (MaxMessageSize (common cfg')) (MTU g)
    (negb (is_udp k)) mid mon (RequestMonitor cfg') (createBlockWise cfg') in
  configured k opts now mid conn /\ cs_limits conn = (1, 1).
Proof.
  intros Hk Ha Hst Eg -> Em conn. split; [|done].
  assert (Hd : exists x, cs_datagram conn = Some x /\ datagram_configured (negb (is_udp k)) opts (MaxMessageSize (common cfg')) mid x).
  { destruct (Datagram_asked k opts cfg cfg' g Hk Ha Hst Eg) as (D1 & D2 & D3 & D4 & D5 & D6). unfold conn.
    rewrite copied. eexists. split; [reflexivity|]. by apply datagram_setup_configured. }
  destruct Hst as (Hm & Hr & Hh & Ht & Hp & He & Hpr & Hz & Hx & Hq & Hb & Hbt & Hbe & _).
  assert (Hs : struct_of (Server_DefaultConfig k) = k) by (by destruct Hk as [->| ->]).
  destruct (asked_top k opts (Server_DefaultConfig k) cfg Hs Ha) as [A1 A2].
  pose proof (asked_monitor_of_requests k opts (Server_DefaultConfig k) cfg Hs Ha ltac:(by destruct Hk as [->| ->])) as A3.
  destruct (asked_common k opts (Server_DefaultConfig k) cfg Hs Ha) as (B1 & B2 & B3 & B4 & B5 & B6 & B7 & B8).
  assert (Hdef : common (Server_DefaultConfig k) = NewCommon) by (by destruct Hk as [->| ->]).
  rewrite Hdef in B1, B2, B3, B4, B5, B6, B7, B8. cbn -[latest] in B1, B2, B3, B4, B5, B6, B7, B8.
  rewrite B1 in He. pose proof (blockWise_reports _ _ _ He) as Hrep. rewrite A2 in Em. rewrite Hx, B5 in Hd.
  assert (HA : Handler (Server_DefaultConfig k) = default_handler false /\ RequestMonitor (Server_DefaultConfig k) = Some Default /\
    CreateInactivityMonitor (Server_DefaultConfig k) = Some (MDeferred (MInactivity (16 * Second) OnClose))) by (by destruct Hk as [->| ->]).
  destruct HA as (HA1 & HA2 & HA3). rewrite HA1 in A1. rewrite HA2 in A3. rewrite HA3 in Em.
  destruct (copied_conn cfg' g (negb (is_udp k)) (if is_udp k then Some (HDiscovery (Handler cfg')) else Handler cfg') (MaxMessageSize (common cfg'))
    (MTU g) (negb (is_udp k)) mid mon (RequestMonitor cfg') (createBlockWise cfg') _ He) as (C1 & C2 & C3 & C4 & C5 & C6 & C7 & C8 & C9 & C10 & C11 & C12 & C13).
  fold conn in C1, C2, C3, C4, C5, C6, C7, C8, C9, C10, C11, C12, C13. clearbody conn. rewrite He in Hrep.
  unfold configured. rewrite C1, C2, C3, C4, C5, C6, C7, C8, C9, C10, C11, C12, C13. unfold createBlockWise.
  destruct (latest asked_blockwise opts _) as [[en szx] tmo]. injection B8 as B8 B9 B10.
  rewrite Hb, B8, Hbt, Hbe, B7, B10, Hr, A3, Hh, A1, Ht, B3, Hp, B4, Hpr, B2, Hz, B9, Hx, B5, Hq, B6, He, !or_else_default.
  destruct Hk as [-> | ->]; split_and!; try done; by destruct en.
Qed.


Lemma datagram_Client_owns cfg0 secure prefix opts now mid conn reported :
  datagram_Client cfg0 secure prefix (opts ++ [CloseSocketOpt]) now mid = Some (conn, reported) -> cs_closeSocket conn = true.
Proof.
  unfold datagram_Client. rewrite apply_all_app. destruct (apply_all opts cfg0) as [cfg|]; [|done]. cbn [mbind option_bind apply_all apply].
  destruct cfg as [c m r h w]. destruct w as [| |g d x| |]; try done. cbn. rewrite (or_else_default m). cbn.
  destruct (create (default MNil m) now); [|done]. cbn. by intros [= <- _].
Qed.

Lemma tcp_Client_owns opts now signals late conn err :
  tcp_Client (opts ++ [CloseSocketOpt]) now signals late = Some (conn, err) -> cs_closeSocket conn = true.
Proof.
  unfold tcp_Client. rewrite apply_all_app. destruct (apply_all opts TcpClient_DefaultConfig) as [cfg|]; [|done]. cbn [mbind option_bind apply_all apply].
  destruct cfg as [c m r h w]. destruct w as [s d t x| | | |]; try done. cbn [CloseSocketOpt_Apply on_dialing set_own own common].
  unfold TcpConn_NewConnWithOpts. cbn. rewrite (or_else_default m). cbn. destruct (create (default MNil m) now); [|done]. cbn.
  destruct (_ <? 0); [done|]. cbn. destruct (waitForCSMExchange _ signals late); [|done]. cbn. by intros [= <- _].
Qed.

(** A signal other than the first CSM leaves the channel as it is: it is closed once. *)
Lemma csm_signals_total closed signals : csm_signals closed signals = Some (closed || bool_decide (CSM ∈ signals)).
Proof.
  revert closed. induction signals as [|code signals IH]; intros closed; [by rewrite orb_false_r|]. cbn [csm_signals]. unfold csm_handler.
  destruct (Z.eqb_spec code CSM) as [->|Hc].
  - rewrite (bool_decide_true (CSM ∈ CSM :: signals)) by set_solver. rewrite orb_true_r. destruct closed; cbn; by rewrite IH.
  - cbn. rewrite IH. do 2 f_equal. apply bool_decide_ext. set_solver.
Qed.

(** What a call that dials leaves behind. *)
Definition dial_ok (res : result ConnSetup * socket) : Prop :=
  match res with
  | (Ok conn, sock) => sock = Owned /\ cs_closeSocket conn = true
  | (Err _, sock) => sock = NotOpened \/ sock = SockClosed
  end.

Lemma handed_ok conn err : cs_closeSocket conn = true -> dial_ok (handed conn err).
Proof. intros H. unfold handed. destruct err; rewrite H; [by right|done]. Qed.

(** C36: A socket that [Dial] opens has an owner: when the call succeeds, the connection
    closes the socket with itself, whatever the options say, and when it fails, the socket
    was not opened or has been closed (a TCP connection after a failed exchange of CSMs
    too; such an exchange succeeds as soon as the peer has sent a CSM, however many signals
    come).  The one exception is a dialer for UDP that returns another type of connection. *)
Theorem dial_closes_socket opts now mid :
  (forall dialled res, udp_Dial opts dialled now mid = Some res -> dial_ok res \/ (dialled = Ok false /\ res = (Err errUnsupported, Abandoned))) /\
  (forall dialled secured res, dtls_Dial opts dialled secured now mid = Some res -> dial_ok res) /\
  (forall dialled signals late res, tcp_Dial opts dialled now signals late = Some res -> dial_ok res) /\
  (forall signals, waitForCSMExchange true signals false = Some (if bool_decide (CSM ∈ signals) then None else Some errCSMTimeout)).
Proof.
  split_and!.
  - intros dialled res H. unfold udp_Dial in H. destruct (apply_all opts _) as [cfg|]; [|done]. cbn [mbind option_bind] in H.
    destruct (own cfg) as [| |g d x| |]; try done. destruct (q_errors cfg g) as [|e l]; [|injection H as <-; left; by left].
    destruct dialled as [[]|e]; [|injection H as <-; by right|injection H as <-; left; by left].
    destruct (udp_Client _ now mid) as [[conn rep]|] eqn:E; [|done]. injection H as <-. left. apply (handed_ok conn None).
    by eapply datagram_Client_owns.
  - intros dialled secured res H. unfold dtls_Dial in H. destruct (apply_all opts _) as [cfg|]; [|done]. cbn [mbind option_bind] in H.
    destruct (own cfg) as [| |g d x| |]; try done. destruct (q_errors cfg g) as [|e l]; [|injection H as <-; by left].
    destruct dialled as [|e]; [|injection H as <-; by left]. destruct secured as [e|]; [injection H as <-; by right|].
    destruct (dtls_Client _ now mid) as [[conn rep]|] eqn:E; [|done]. injection H as <-. apply (handed_ok conn None). by eapply datagram_Client_owns.
  - intros dialled signals late res H. unfold tcp_Dial in H. destruct (apply_all opts _) as [cfg|]; [|done]. cbn [mbind option_bind] in H.
    destruct dialled as [|e]; [|injection H as <-; by left].
    destruct (tcp_Client _ now signals late) as [[conn err]|] eqn:E; [|done]. injection H as <-. apply (handed_ok conn err). by eapply tcp_Client_owns.
  - intros signals. unfold waitForCSMExchange. cbn [negb]. rewrite csm_signals_total. cbn. by destruct (bool_decide (CSM ∈ signals)).
Qed.

(** Without an option for the handler, a server answers with the default handler, and that
    reports its errors to the output, whatever function the options set for errors: it
    captured the configuration of the initialiser. *)
Theorem default_handler_prints (k : struct) opts cfg :
  apply_all opts (Server_DefaultConfig k) = Some cfg -> Forall (fun o => setting o <> 0%nat) opts ->
  exists requests, Handler cfg = Some (HNotFound requests (Some EPrintln)).
Proof.
  intros H Ho. assert (exists requests, Handler (Server_DefaultConfig k) = Some (HNotFound requests (Some EPrintln))) as Hd
    by (destruct k; by eexists).
  revert H Hd. generalize (Server_DefaultConfig k). induction Ho as [|o opts Hs Ho IH]; intros cfg0 H Hd; [by injection H as <-|].
  cbn [apply_all] in H. destruct (apply o cfg0) as [cfg1|] eqn:E; [|done]. apply (IH cfg1 H). destruct Hd as [requests Hd]. exists requests.
  rewrite <- Hd. clear - E Hs. destruct cfg0 as [c m r h w]. destruct o; try done; cbn in E;
    unfold ProcessReceivedMessageOpt_Apply, KeepAliveOpt_Apply, InactivityMonitorOpt_Apply, OnNewConnOpt_Apply, WithRequestMonitorOpt_Apply, for_type in E;
    try (destruct (decide _) in E; [|done]); injection E as <-; try destruct dialer; by destruct w.
Qed.

(** The functions of src/server.go whose deferred function assigns to a shadowed variable
    lose the error of closing the listener; the others return it. *)
Theorem listen_close_error (network : string) (e : error) :
  ListenAndServeTCPTLS None None (Some e) = Some e /\
  (network_of network <> None -> ListenAndServe network None None (Some e) = None).
Proof. split; [done|]. intros H. unfold ListenAndServe. by destruct (network_of network). Qed.

(** A negative size of the queue is taken as zero for datagrams and panics for TCP. *)
Theorem negative_queue_size :
  server_conn STcpServer [ReceivedMessageQueueSizeOpt (-1)] 0 7 = None /\
  cs_queue <$> server_conn SUdpServer [ReceivedMessageQueueSizeOpt (-1)] 0 7 = Some 0.
Proof. split; vm_compute; reflexivity. Qed.

(** ** A sample configuration *)

Definition sample_options : list Opt :=
  [LimitClientParallelRequestOpt 8; HandlerFuncOpt CUdp (Some 1%nat); ErrorsOpt (Some 2%nat); KeepAliveOpt CUdp 3 (20 * Second) None;
   MTUOpt 1200; MuxHandlerOpt 4; ErrorsOpt (Some 5%nat); MTUOpt 1280].
Definition sample_earlier : list Opt := [HandlerFuncOpt CUdp (Some 1%nat); MTUOpt 1280].
Definition sample_later : list Opt := [ErrorsOpt None].
End Setup.

Lemma last_option_wins_witness :
  Setup.apply_all (Setup.sample_earlier ++ Setup.MuxHandlerOpt 4 :: Setup.sample_later) Setup.UdpServer_DefaultConfig =
  Setup.apply_all [Setup.MTUOpt 1280; Setup.ErrorsOpt None; Setup.MuxHandlerOpt 4] Setup.UdpServer_DefaultConfig.
Proof.
  refine (proj1 (Setup.last_option_wins Setup.UdpServer_DefaultConfig Setup.sample_earlier Setup.sample_later (Setup.MuxHandlerOpt 4) eq_refl _ _));
    repeat constructor; discriminate.
Defined.

Definition sample_conn : Setup.ConnSetup :=
  Eval vm_compute in
    match Setup.server_conn Setup.SUdpServer Setup.sample_options 0 7 with
    | Some conn => conn
    | None => Setup.mkConnSetup (0, 0) None None None None None 0 0 Setup.NilMonitor None None 0 false None None
    end.

Lemma sample_conn_made : Setup.server_conn Setup.SUdpServer Setup.sample_options 0 7 = Some sample_conn.
Proof. vm_compute. reflexivity. Qed.


(** The connection of the sample: the mux and the last error function, which gets every
    error but those of closing, and a keep-alive every five seconds. *)
Example sample_conn_settings :
  Setup.cs_handler sample_conn = Some (Setup.HDiscovery (Some (Setup.HMux 4))) /\
  (f ← Setup.cs_errors sample_conn; Setup.deliver f ErrTooSmall) = Some (Setup.EUser 5) /\
  (f ← Setup.cs_errors sample_conn; Setup.deliver f ErrEOF) = None /\
  Setup.cs_monitor sample_conn = Setup.Keeps (Monitor_New (5 * Second) 0) NewKeepAlive 3 (Setup.OnUser None).
Proof. by split_and!. Qed.
