(* ===== verification/Listeners.v ===== *)
(** * Listeners and the life of a UDP session (src/net/tcplistener.go, src/net/tlslistener.go,
    src/net/dtlslistener.go, src/udp/server/session.go)

    The three listeners are the same wrapper of a listener of the standard library or of the
    DTLS library: a flag that is swapped by the first [Close].  [AcceptWithContext] and
    [Close] are two steps each, between which other goroutines run: a goroutine is a number
    and where it is.  The calls of the inner listener are kept in a log.

    The functions given to [AddOnClose] of a session are numbers. *)
From stdpp Require Import prelude list gmap.
From Stdlib Require Import ZArith Lia.
From S2P Require Import UdpServer Prelude StreamServer UdpSocket.
#[local] Open Scope Z_scope.

Section Listener.
Context {L : Type} (inner_Accept : L -> L * result nat) (inner_Close : L -> L * option error).

Inductive lcall : Type := CAccept | CClose.
#[export] Instance lcall_eq_dec : EqDecision lcall.
Proof. solve_decision. Defined.

Record Listener : Type := mkListener { l_inner : L; l_closed : bool; l_calls : list lcall }.
Implicit Type l : Listener.

(** [NewTCPListener], [NewTLSListener] and [NewDTLSListener] on what was opened. *)
Definition NewListener (opened : result L) : result Listener :=
  match opened with Ok x => Ok (mkListener x false []) | Err e => Err e end.

(** [AcceptWithContext] up to the inner call: an error that it returns at once. *)
Definition Accept_check l (ctxErr : option error) : option error :=
  match ctxErr with
  | Some e => Some e
  | None => if l_closed l then Some ErrListenerIsClosed else None
  end.

Definition Accept_inner l : Listener * result nat :=
  let '(x, res) := inner_Accept (l_inner l) in (mkListener x (l_closed l) (l_calls l ++ [CAccept]), res).

Definition AcceptWithContext l (ctxErr : option error) : Listener * result nat :=
  match Accept_check l ctxErr with Some e => (l, Err e) | None => Accept_inner l end.

Definition Listener_Accept l : Listener * result nat := AcceptWithContext l None.

(** [Close]: the swap says whether this call closes the inner listener. *)
Definition Close_swap l : Listener * bool := (mkListener (l_inner l) true (l_calls l), negb (l_closed l)).

Definition Close_inner l : Listener * option error :=
  let '(x, err) := inner_Close (l_inner l) in (mkListener x (l_closed l) (l_calls l ++ [CClose]), err).

Definition Listener_Close l : Listener * option error :=
  let '(l, first) := Close_swap l in if first then Close_inner l else (l, None).

(** ** Goroutines *)

Inductive lpc : Type := LAccepting | LClosing | LAccepted (res : result nat) | LClosed (err : option error).

Inductive levent : Type :=
| LCheck (g : nat) (ctxErr : option error)
| LAccept (g : nat)
| LSwap (g : nat)
| LClose (g : nat).

Definition lstate : Type := Listener * gmap nat lpc.
Implicit Type st : lstate.

(** A new goroutine enters [AcceptWithContext] or [Close]; one inside makes its call. *)
Definition l_step st (e : levent) : lstate :=
  let '(l, ts) := st in
  match e with
  | LCheck g ctxErr =>
      match ts !! g with
      | Some _ => st
      | None => (l, <[g := match Accept_check l ctxErr with Some e => LAccepted (Err e) | None => LAccepting end]> ts)
      end
  | LAccept g =>
      match ts !! g with
      | Some LAccepting => let '(l, res) := Accept_inner l in (l, <[g := LAccepted res]> ts)
      | _ => st
      end
  | LSwap g =>
      match ts !! g with
      | Some _ => st
      | None => let '(l, first) := Close_swap l in (l, <[g := if first then LClosing else LClosed None]> ts)
      end
  | LClose g =>
      match ts !! g with
      | Some LClosing => let '(l, err) := Close_inner l in (l, <[g := LClosed err]> ts)
      | _ => st
      end
  end.

Definition l_run st (es : list levent) : lstate := fold_left l_step es st.

(** ** The inner listener is closed once *)

Definition is_closing (t : lpc) : bool := match t with LClosing => true | _ => false end.
Definition closing (ts : gmap nat lpc) : nat := size (filter (fun gt => is_closing gt.2 = true) ts).
Definition closes l : nat := length (filter (.= CClose) (l_calls l)).

(** A goroutine that has called [Close], whether it has returned or not. *)
Definition in_Close (t : lpc) : bool := match t with LClosing | LClosed _ => true | _ => false end.
Definition called (ts : gmap nat lpc) : Prop := exists g t, ts !! g = Some t /\ in_Close t = true.

(** The flag is set exactly when [Close] was called, and then one goroutine closes, or has
    closed, the inner listener. *)
Record l_ok st : Prop := mkLOk {
  lo_once : (closes st.1 + closing st.2 = if l_closed st.1 then 1 else 0)%nat;
  lo_called : l_closed st.1 = true <-> called st.2
}.

Lemma closing_new ts g t : ts !! g = None -> closing (<[g := t]> ts) = ((if is_closing t then 1 else 0) + closing ts)%nat.
Proof.
  intros Hg. unfold closing. destruct (is_closing t) eqn:Ht.
  - rewrite map_filter_insert_True by done. rewrite map_size_insert_None; [done|]. apply map_lookup_filter_None. by left.
  - rewrite map_filter_insert_False by (cbn; congruence). by rewrite delete_id.
Qed.

Lemma closing_move ts g t t' :
  ts !! g = Some t -> (closing (<[g := t']> ts) + (if is_closing t then 1 else 0) = (if is_closing t' then 1 else 0) + closing ts)%nat.
Proof.
  intros Hg. rewrite <- (insert_id ts g t Hg) at 2. rewrite <- (insert_delete_eq ts g t), <- (insert_delete_eq ts g t').
  rewrite !closing_new by apply lookup_delete_eq. lia.
Qed.

Lemma closes_snoc x b calls c : closes (mkListener x b (calls ++ [c])) = (closes (mkListener x b calls) + if decide (c = CClose) then 1 else 0)%nat.
Proof. unfold closes. cbn. rewrite filter_app, length_app. f_equal. by destruct c. Qed.

(** A goroutine that enters, or that stays on its side. *)
Lemma called_insert ts g t : (forall t0, ts !! g = Some t0 -> in_Close t = in_Close t0) ->
  called (<[g := t]> ts) <-> called ts \/ in_Close t = true.
Proof.
  intros Hg. split.
  - intros (h & t' & [[<- <-]|[Hne Hh]]%lookup_insert_Some & Hc); [by right|]. left. by exists h, t'.
  - intros [(h & t' & Hh & Hc)|Hc]; [|exists g, t; by rewrite lookup_insert_eq].
    destruct (decide (h = g)) as [->|Hne]; [exists g, t; rewrite lookup_insert_eq, (Hg t' Hh); done|]. exists h, t'. by rewrite lookup_insert_ne.
Qed.

Lemma l_ok_step st e : l_ok st -> l_ok (l_step st e).
Proof.
  destruct st as [l ts]. intros Hok. pose proof Hok as [H Hc]. cbn [fst snd] in H, Hc. destruct e as [g ctxErr|g|g|g]; cbn [l_step];
    destruct (ts !! g) as [t|] eqn:Hg; try done.
  - split; cbn [fst snd]; [rewrite closing_new by done; by destruct (Accept_check l ctxErr)|]. rewrite called_insert by (intros ?; by rewrite Hg).
    rewrite Hc. destruct (Accept_check l ctxErr); cbn; split; auto; by intros [?|?].
  - destruct t; try done. unfold Accept_inner. destruct (inner_Accept (l_inner l)) as [x res]. split; cbn [fst snd l_closed].
    + rewrite closes_snoc. pose proof (closing_move ts g _ (LAccepted res) Hg) as Hm. cbn [is_closing] in Hm.
      rewrite decide_False by done. change (closes (mkListener x (l_closed l) (l_calls l))) with (closes l). lia.
    + rewrite called_insert by (intros t0 E; rewrite Hg in E; by injection E as <-). rewrite Hc. cbn. split; auto. by intros [?|?].
  - unfold Close_swap. split; cbn [fst snd l_closed].
    + rewrite closing_new by done. change (closes (mkListener (l_inner l) true (l_calls l))) with (closes l). destruct (l_closed l); cbn [negb is_closing]; lia.
    + rewrite called_insert by (intros ?; by rewrite Hg). split; [intros _; right; by destruct (negb (l_closed l))|done].
  - destruct t; try done. unfold Close_inner. destruct (inner_Close (l_inner l)) as [x err]. split; cbn [fst snd l_closed].
    + rewrite closes_snoc. pose proof (closing_move ts g _ (LClosed err) Hg) as Hm. cbn [is_closing] in Hm.
      rewrite decide_True by done. change (closes (mkListener x (l_closed l) (l_calls l))) with (closes l). lia.
    + rewrite called_insert by (intros t0 E; rewrite Hg in E; by injection E as <-). rewrite Hc. cbn. split; auto. intros [?|_]; [done|]. by exists g, LClosing.
Qed.

Lemma l_ok_run x es : l_ok (l_run (mkListener x false [], ∅) es).
Proof.
  unfold l_run. assert (l_ok (mkListener x false [], ∅)) as H0.
  { split; cbn; [done|]. split; [done|]. intros (g & t & Hg & _). by rewrite lookup_empty in Hg. }
  revert H0. generalize (mkListener x false [], ∅ : gmap nat lpc). induction es as [|e es IH]; intros st0 H; [done|]. cbn. apply IH. by apply l_ok_step.
Qed.

(** C37: However many goroutines accept and close.  Before anyone has called [Close] the inner
    listener is not closed and a call of [AcceptWithContext] goes on to it (unless its
    context is done).  From the first call of [Close] on, the inner listener is closed at most
    once, and exactly once when every call of [Close] has returned; a further [Close] returns
    nil; and whoever calls [AcceptWithContext] gets [ErrListenerIsClosed] (or the error of
    its context) without another call of the inner listener. *)
Theorem listener_closed_once (x : L) es (st := l_run (mkListener x false [], ∅) es) :
  (~ called st.2 -> closes st.1 = 0%nat /\ forall g, st.2 !! g = None -> l_step st (LCheck g None) = (st.1, <[g := LAccepting]> st.2)) /\
  (called st.2 ->
     (closes st.1 <= 1)%nat /\
     (map_Forall (fun _ t => is_closing t = false) st.2 -> closes st.1 = 1%nat) /\
     forall g ctxErr, st.2 !! g = None ->
       l_step st (LSwap g) = (st.1, <[g := LClosed None]> st.2) /\
       l_step st (LCheck g ctxErr) = (st.1, <[g := LAccepted (Err (default ErrListenerIsClosed ctxErr))]> st.2)).
Proof.
  pose proof (l_ok_run x es) as [Hok Hcalled]. fold st in Hok, Hcalled. clearbody st. destruct st as [l ts]. cbn [fst snd] in *. split.
  - intros Hn. destruct (l_closed l) eqn:E; [by destruct Hn; apply Hcalled|]. split; [lia|]. intros g Hg. cbn [l_step]. rewrite Hg. unfold Accept_check. by rewrite E.
  - intros Hc. apply Hcalled in Hc. rewrite Hc in Hok. split_and!; [lia| |].
    + intros Hall. enough (closing ts = 0)%nat by lia. unfold closing. apply map_size_empty_iff.
      apply map_empty. intros g. apply map_lookup_filter_None. right. intros t Hg Ht. specialize (Hall g t Hg). cbn in Ht. congruence.
    + intros g ctxErr Hg. cbn [l_step]. rewrite Hg. unfold Close_swap, Accept_check. rewrite Hc. cbn.
      destruct l as [i b cs]. cbn in *. subst b. split; [done|]. by destruct ctxErr.
Qed.
End Listener.

(** ** The life of a UDP session *)

Record USession : Type := mkUSession {
  us_canceled : bool;
  us_closeSocket : bool;
  us_socketClosed : bool;
  us_onClose : list nat;
  us_called : list nat;
  us_done : bool
}.
Implicit Type s : USession.

(** [NewSession]; the error function calls every handler that is not nil. *)
Definition NewUSession (closeSocket : bool) : USession := mkUSession false closeSocket false [] [] false.
Definition us_errors (errorHandlers : list (option nat)) (e : error) : list (nat * error) := (fun h => (h, e)) <$> omap id errorHandlers.

Definition US_AddOnClose s (f : nat) : USession :=
  mkUSession (us_canceled s) (us_closeSocket s) (us_socketClosed s) (us_onClose s ++ [f]) (us_called s) (us_done s).

Definition US_popOnClose s : USession * list nat :=
  (mkUSession (us_canceled s) (us_closeSocket s) (us_socketClosed s) [] (us_called s) (us_done s), us_onClose s).

(** The functions run, and then the context of [Done] is cancelled. *)
Definition US_shutdown s : USession :=
  let '(s, fs) := US_popOnClose s in
  mkUSession (us_canceled s) (us_closeSocket s) (us_socketClosed s) (us_onClose s) (us_called s ++ fs) true.

Definition US_Close s (closeErr : option error) : USession * option error :=
  (mkUSession true (us_closeSocket s) (us_socketClosed s || us_closeSocket s) (us_onClose s) (us_called s) (us_done s),
   if us_closeSocket s then closeErr else None).

(** [WriteMulticastMessage] once the message is marshalled. *)
Definition US_WriteMulticastMessage {K} `{!PacketSocket K} (ParseIP : list byte -> option (list byte)) (host : Host) (c : UDPConn (K := K))
    (marshalled : result (list byte)) (ctxErr : option error) (address : option UDPAddr) (opts : list MulticastOption)
    : option (UDPConn (K := K) * option error) :=
  match marshalled with
  | Err e => Some (c, Some e)
  | Ok data => WriteMulticast ParseIP host c ctxErr address data opts
  end.

Inductive uevent : Type := UAdd (f : nat) | UShutdown | UClose (closeErr : option error).

Definition us_step s (e : uevent) : USession :=
  match e with UAdd f => US_AddOnClose s f | UShutdown => US_shutdown s | UClose err => (US_Close s err).1 end.

Definition added (es : list uevent) : list nat := omap (fun e => match e with UAdd f => Some f | _ => None end) es.
Definition is_shutdown (e : uevent) : bool := match e with UShutdown => true | _ => false end.
Definition is_close (e : uevent) : bool := match e with UClose _ => true | _ => false end.

(** Whatever the order of [AddOnClose], [Close] and the end of the session, every function
    that was added has run once or is still to run, in the order of [AddOnClose]; all have
    run after a shutdown; the socket is closed exactly if the session owns it and was
    closed. *)
Theorem session_callbacks closeSocket es (s := fold_left us_step es (NewUSession closeSocket)) :
  us_called s ++ us_onClose s = added es /\ us_onClose (US_shutdown s) = [] /\ us_called (US_shutdown s) = added es /\
  us_done s = existsb is_shutdown es /\ us_canceled s = existsb is_close es /\ us_socketClosed s = closeSocket && existsb is_close es.
Proof.
  assert (us_called s ++ us_onClose s = added es /\ us_done s = existsb is_shutdown es /\ us_canceled s = existsb is_close es /\
    us_socketClosed s = closeSocket && existsb is_close es /\ us_closeSocket s = closeSocket) as (H1 & H2 & H3 & H4 & _).
  { subst s. induction es as [|e es IH] using rev_ind; [by rewrite andb_false_r|].
    rewrite fold_left_app. cbn [fold_left]. revert IH. generalize (fold_left us_step es (NewUSession closeSocket)).
    intros s (H1 & H2 & H3 & H4 & H5). unfold added in *. rewrite omap_app, !existsb_app, <- H1, <- H2, <- H3.
    destruct e; cbn; rewrite ?orb_false_r, ?orb_true_r, ?app_nil_r, ?app_assoc, ?H4, ?H5, ?H3; split_and!; try done.
    by destruct closeSocket, (existsb is_close es). }
  split; [done|]. split; [done|]. split; [by cbn|]. done.
Qed.

Example session_example :
  let s := fold_left us_step [UAdd 3; UClose None; UAdd 5; UShutdown; UAdd 7] (NewUSession true) in
  us_called s = [3; 5]%nat /\ us_onClose s = [7]%nat /\ us_socketClosed s = true.
Proof. by split_and!. Qed.
